(* ===== verification/_CoqProject ===== *)
-Q . S2P
Prelude.v
Heap.v
Cache.v
CacheRefine.v
Strconv.v
Errors.v
Json.v
JsonTotal.v
Operation.v
TelegramClient.v
OperationApi.v
Telegram.v
Validation.v
Spool.v
SpoolData.v
Limiter.v
Protobuf.v
Crypto.v
Media.v
Mp4.v
Download.v
Pool.v
PoolLease.v
PoolStore.v
Accounts.v
AccountLease.v
AccountHealth.v
Memo.v
Float.v
Lookup.v
Regexp.v
AppRoute.v
AppReply.v
AppRequest.v
AppSession.v
MediaBatch.v
Values.v
TikTokPost.v
InstagramPost.v
Config.v
Api.v
Ownership.v
SessionState.v
Login.v
LoginFlow.v
Import.v
PoolOpen.v
Preparation.v
Cookies.v
Images.v
AccountMedia.v
AccountStore.v
LoginTransport.v
DownloadRequest.v
Delivery.v
DeliverySend.v
DeliveryStream.v
SpoolReader.v
Network.v
ImportBody.v
Service.v
