(* ===== verification/Prelude.v ===== *)
(** * tt-scrap: verification library

    tt-scrap is one Go server (src/cmd/tt-scrap) that extracts posts from
    TikTok and Instagram, downloads their media with authenticated device
    identities and accounts, and delivers them to Telegram.  This library models
    the parts that carry its own logic and proves what makes them correct.

    ** The program and the library

    A request enters internal/httpapi (api.go routes it).  A request that
    carries an operation budget shares one [core.Operation] with every stage
    that may retry.  internal/platform resolves a link and extracts a post,
    borrowing an identity from the pool of internal/identity, whose sessions
    sign their requests in internal/tiktokapp, or an account from the pool of
    internal/instagramapp; the media found are registered in the asset registry
    of internal/core.  A delivery downloads them (internal/platform) into
    buffers of internal/spool, prepares images in internal/media, and uploads to
    Telegram (internal/httpapi).  Files in the order of compilation, with the
    code each models (under src/internal):

    - Prelude: results [res] for Go's (value, error), machine integers [wrap]
      and [i64], byte slices, counting, shared tactics and hints.
    - Heap: container/heap over an interface ([HeapOps], [HeapLaws]).
      Cache: core/cache.go and core/cache_expiry.go, an instance of that
      interface.  CacheRefine: the cache refines an LRU list.
    - Strconv, Json, JsonTotal, Float, Regexp: the parts of strconv, strings,
      encoding/json, float64 and regexp the program uses.
    - Errors: core/errors.go, core/download.go, tiktokapp [UpstreamError],
      [publicError] of identity/backend.go.
    - Operation: core/operation.go.
    - TelegramClient: httpapi/telegram_client.go, httpapi/delivery_event.go.
      OperationApi: httpapi/operation.go.  Telegram: httpapi/telegram.go as one
      call after another.  Delivery, DeliverySend, DeliveryStream: its goroutines
      and the buffers they own.  Validation: httpapi/validation.go.  Api:
      httpapi/api.go with [readBody] and [httpURL].  ImportBody:
      httpapi/instagram_accounts.go.
    - Spool, SpoolData, SpoolReader: spool/spool.go, its accounting, its bytes,
      and its readers beside its writers.
    - Limiter: the limiter and the asset registry of core/cache.go.  Config:
      core/config.go.
    - Protobuf, Crypto: tiktokapp/protobuf.go, tiktokapp/crypto.go.  AppRoute:
      tiktokapp/protocol.go.  AppReply, AppRequest: the replies and the redirects
      of tiktokapp/client.go.  AppSession: session.go, signing.go, devices.go.
      Cookies: cookies.go.
    - Media: media/images.go (headers, containers, pixels), media/animation.go.
      Images: the preparation of an image.
    - Mp4: platform/mp4.go, platform/mp4_read.go.
    - Memo: platform/cache.go.  Values: platform/json.go.  TikTokPost:
      selection.go, normalize.go, resolve.go, tiktok.go.  InstagramPost:
      instagram.go, instagram_app.go.  Network: network.go.
    - Download: platform/download.go, [networkError] of platform/tiktok.go.
      DownloadRequest: platform/download_request.go and what is around a
      transfer.
    - Pool: identity/lease.go, the state of identity/pool.go and the
      checkpoints of identity/store.go.  PoolLease: exclusive leases, selection,
      health.  PoolStore: checkpoints reach the database.  MediaBatch:
      identity/media_batch.go, backend.go, account.go.  Ownership: claiming and
      losing the database (identity/store.go).  PoolOpen: identity/proxy.go and
      [Open].  Preparation: identity/preparation.go.
    - Accounts: instagramapp/pool.go, client.go, recovery.go, update.go.
      AccountLease, AccountHealth: the theorems on them.  Lookup: the replies of
      client.go.  AccountMedia: the media client.  AccountStore: store.go, [Open].
      SessionState: session_state.go.  Login, LoginFlow: login.go,
      login_flow.go, login_bloks.go.  LoginTransport: login_transport.go.
      Import: devices.go, accounts.go, cookie_import.go, import.go, and what
      update.go submits and saves.
    - Service: src/cmd/tt-scrap/main.go.

    ** How code becomes definitions

    A function becomes a function with the same guards in the same order;
    methods pass their receiver's record explicitly.  What a mutex makes atomic
    is one step.  Components with concurrent callers are step functions or
    relations whose runs are arbitrary interleavings: [Operation.run] (calls),
    [Limiter.lstep] (atomic actions of a caller), [Spool] and [SpoolReader]
    (critical sections, with every unlocked copy as its own step),
    [Download.step] (the requests, chunks and retries of the parts), [Memo],
    [Pool.step], [Accounts], [Ownership] (statements of any number of processes),
    [Preparation], [MediaBatch], [LoginTransport], [Delivery] and
    [DeliveryStream] (goroutines).  Channels that only wake a waiter carry no
    state: when it runs again is left to the run.  A function whose effects have
    to be in order yields their trace ([Images], [LoginTransport.dial],
    [Service.run]).

    Shared mutable data stays shared: the cache's map, recency list and heap
    hold pointers into one store of items, spool regions and buffers are
    numbers into their owners, and a delivery's media are numbered buffers.
    Integers are [Z], with wrap-around written out where the code's width can
    show.  Time, random bytes, replies of other services, failing files,
    database outcomes and every reading of a context are inputs.

    ** What the theorems show

    - Deliveries are not repeated: no retry after a permitted commit
      ([Operation.no_retry_after_commit]), at most three attempts
      ([retry_allowance]), [safe_to_retry] told only when Telegram cannot have
      delivered ([OperationApi.safe_to_retry_sound]), and a streamed upload
      stays incomplete until the commit is permitted
      ([TelegramClient.held_body_incomplete], [Telegram.stream_release]).
    - Requests to Telegram are what was asked for: validation
      ([Validation.parseTelegram_sound]), parameters ([Telegram.fieldsFor_spec]),
      albums ([albumBatches_spec], [album_attachments], [album_event]), the
      declared length ([multipartBody_length]) and the result
      ([telegramResponse_status], [call_marks]).
    - Bytes arrive whole: ranged transfers ([Download.ranged_transfer]), single
      transfers ([downloadOnce_sound]), buffers and their readers
      ([SpoolReader.reader_exact], [SpoolData.growing_roundtrip],
      [ready_is_written], [write_copy_spec]).
    - Memory is owned: the buffers of a delivery are open while they are read
      and end with it ([DeliverySend.album_buffers],
      [DeliveryStream.stream_buffers]); an image is admitted with its estimate
      and gives it back ([Images.prepare_sound]); spool memory is accounted for
      ([Spool.store_accounting]).
    - Resources are exclusive and bounded: limiter slots
      ([Limiter.limiter_bounds]), identities and their queue
      ([PoolLease.pool_exclusive], [lease_selection], [finish_blame]), accounts
      ([AccountLease.account_capacity]), connections
      ([LoginTransport.connections_owned]), cache entries
      ([CacheRefine.cache_refines_lru], [cache_invariant]), and everything the
      service opens ([Service.service_life]).
    - What the database holds is what the process knows: checkpoints
      ([PoolStore.checkpoints_kept]), one owner ([Ownership.single_writer]),
      the loaded pool ([PoolOpen.open_sound]), accounts
      ([AccountStore.store_rows], [insert_roundtrip], [accounts_opened]) and
      their health ([AccountHealth.account_restart]), cookies
      ([Cookies.cookies_current], [SessionState.session_roundtrip]).
    - Waiting ends: shared computations ([Memo.memo_progress]), the end of a
      batch ([MediaBatch.batch_close]), requests ([DownloadRequest.timed_request]).
      Registrations keep their pace ([Preparation.preparation_paced]).
    - Secrets go where they belong: no service without the key
      ([Api.api_authenticated], [api_refusals]), redirects
      ([AppRequest.request_safety], [AccountMedia.media_confined],
      [AppRoute.routing_confined]), logins ([LoginFlow.login_sound]) and imports
      ([Import.import_sound]).
    - Replies become posts: [TikTokPost.normalize_sound], [resolution_sound],
      [InstagramPost.extractApp_sound], the reading of failures
      ([AppReply.classification], [Lookup.lookup_verdict]).
    - Codecs invert: protobuf ([Protobuf.decode_encode]), the SDK envelope and
      its cipher ([Crypto.sdk_payload_roundtrip], [xteaCBC_roundtrip]), the
      password's envelope ([Login.password_roundtrip]).
    - Parsers of untrusted files end and stay in range
      ([Mp4.dimensions_sound], [Media.heif_walks_end], [Protobuf.decode_total]),
      and pixels are moved and flattened correctly ([Media.orient_spec],
      [flatten_pixel_spec]).  [Media.reserve_pixels_sound] states the admission
      bound for sides whose product fits 63 bits; [reserve_pixels_overflow]
      shows the code without that condition.  Configurations are in their bounds
      ([Config.config_bounds]).

    ** Fuel and bounds

    Structural recursion is used where the code allows it.  Elsewhere the fuel
    is a measure the loop consumes, and a lemma shows it is enough: a heap loop
    moves along one path ([up_loop_spec], [down_loop_spec]), a purge removes an
    entry per turn ([purge_spec]), a protobuf field and a box consume bytes
    ([decode_total], [heif_walks_end], [dimensions_sound], where
    running out is an error of its own that is shown impossible), a JSON value
    and its list consume a byte for two calls ([json_parse_total]), block
    ciphers take as many turns as blocks ([xtea_blocks_roundtrip]), and a
    download takes at most max(sources, retries) attempts
    ([download_attempts]).  Other bounds are the code's own: 6 requests of a
    redirected app request, 10 addresses of a walk of a share link, 10 requests of
    a media client, 33 levels of a reply, 8 levels of a login context, 3 attempts for
    each of the 10 slots of a preparation job, 4 encodings of an image.

    ** Not modelled

    - What other code does is a parameter or an input: net/url and EscapedPath,
      idna, net.ParseIP, ParseMediaType, multipart forms, encoding/csv,
      encoding/json into structs, times and their formats, cookie jars, the check
      of a cookie and the public suffix list, lower case beyond ASCII, floats that
      are no plain decimals and their conversion to integers, PostgreSQL's JSONB
      and lower, AES, hashes, RSA, GCM, RC4, CRC-32 and zlib, image codecs and
      scaling, libheif, HTTP/2, SOCKS and TLS.  Of these only inversion, and the
      like, is ever a hypothesis.
    - The calls into libheif (media/heif_cgo.go), a value in a context
      (nettransport/media.go) and embedded documents (openapi.go) have no logic
      of their own; records and interfaces appear as the fields that are used.
    - The fields of a ClientHello and the constant fields of the forms of a
      login are data; the deadline of each write of an operation's stream, the
      cancellation of a running statement, log lines and temporary files are
      input and output. *)
From stdpp Require Export base tactics numbers list option gmap strings fin_maps.
From Stdlib Require Export ZArith Lia.

Declare Scope go_scope.
Delimit Scope go_scope with go.
Open Scope Z_scope.
Open Scope go_scope.

(** ** Fallible computations *)

(** A Go function returning [(A, error)]: exactly one side is meaningful. *)
Inductive res (E A : Type) : Type :=
| Ok (a : A)
| Err (e : E).
Arguments Ok {E A} a.
Arguments Err {E A} e.

Definition rbind {E A B : Type} (x : res E A) (k : A -> res E B) : res E B :=
  match x with
  | Ok a => k a
  | Err e => Err e
  end.

Definition is_ok {E A : Type} (x : res E A) : bool :=
  match x with Ok _ => true | Err _ => false end.

Notation "'let?' x ':=' e 'in' k" := (rbind e (fun x => k))
  (at level 10, x pattern, e at level 200, k at level 200) : go_scope.

(** Early return: [if !cond { return zero, e }]. *)
Notation "'guard?' c 'else' e 'in' k" := (if (c : bool) then k else Err e)
  (at level 10, c at level 200, e at level 200, k at level 200) : go_scope.

(** ** Machine integers *)

Definition wrap (w z : Z) : Z := z mod 2 ^ w.
Definition u8 (z : Z) : Z := wrap 8 z.
Definition u16 (z : Z) : Z := wrap 16 z.
Definition u32 (z : Z) : Z := wrap 32 z.
Definition u64 (z : Z) : Z := wrap 64 z.

(** Two's-complement conversion [int64(x)] / [int(x)] on a 64-bit target. *)
Definition i64 (z : Z) : Z := (z + 2 ^ 63) mod 2 ^ 64 - 2 ^ 63.
Definition in_i64 (z : Z) : Prop := - 2 ^ 63 <= z < 2 ^ 63.
Definition maxInt64 : Z := 2 ^ 63 - 1.

(** ** Byte slices *)

Abbreviation bytes := (list Z).
Definition is_byte (b : Z) : Prop := 0 <= b < 256.
Abbreviation all_bytes := (Forall is_byte).

(** [len(b)] as a Go [int]. *)
Definition len {A : Type} (l : list A) : Z := Z.of_nat (length l).

(** [l[i:j]], for bounds the caller has checked. *)
Definition slice {A : Type} (i j : Z) (l : list A) : list A :=
  take (Z.to_nat (j - i)) (drop (Z.to_nat i) l).

(** Byte [i] of a slice; [0] stands for the out-of-range panic that every use
    below has excluded by a length check. *)
Definition byte_at (l : bytes) (i : Z) : Z := default 0 (l !! Z.to_nat i).

(** [binary.LittleEndian] and [binary.BigEndian]. *)
Fixpoint le_get (l : bytes) : Z :=
  match l with
  | [] => 0
  | b :: l => b + 256 * le_get l
  end.

Fixpoint le_put (n : nat) (z : Z) : bytes :=
  match n with
  | O => []
  | S n => z mod 256 :: le_put n (z / 256)
  end.

Definition be_get (l : bytes) : Z := le_get (reverse l).
Definition be_put (n : nat) (z : Z) : bytes := reverse (le_put n z).

(** ASCII text of a Go string or byte slice. *)
Definition bytes_of_string (s : string) : bytes :=
  (fun a => Z.of_N (Ascii.N_of_ascii a)) <$> String.list_ascii_of_string s.

Definition string_of_bytes (l : bytes) : string :=
  String.string_of_list_ascii ((fun z => Ascii.ascii_of_N (Z.to_N z)) <$> l).

(** Equality of two byte slices ([string(a) == string(b)], [bytes.Equal]). *)
Definition bytes_eqb (a b : bytes) : bool := bool_decide (a = b).

(** [bytes.HasPrefix] / [strings.HasPrefix] and [HasSuffix]. *)
Definition has_prefix (l p : bytes) : bool := bytes_eqb (take (length p) l) p.

Definition str_has_prefix (s p : string) : bool := String.prefix p s.

Definition str_has_suffix (s p : string) : bool :=
  bool_decide (reverse (String.list_ascii_of_string p) `prefix_of`
               reverse (String.list_ascii_of_string s)).

(** ** Lemmas on results *)

Lemma rbind_ok_inv {E A B} (x : res E A) (k : A -> res E B) b :
  rbind x k = Ok b -> exists a, x = Ok a /\ k a = Ok b.
Proof. destruct x; simpl; [eauto | discriminate]. Qed.

Lemma rbind_assoc {E A B C} (x : res E A) (f : A -> res E B) (g : B -> res E C) :
  rbind (rbind x f) g = rbind x (fun a => rbind (f a) g).
Proof. by destruct x. Qed.

(** ** Lemmas on machine integers *)

Lemma wrap_range w z : 0 <= w -> 0 <= wrap w z < 2 ^ w.
Proof. intros. unfold wrap. apply Z.mod_pos_bound. lia. Qed.

Lemma wrap_small w z : 0 <= z < 2 ^ w -> wrap w z = z.
Proof. apply Z.mod_small. Qed.

Lemma wrap_wrap w z : wrap w (wrap w z) = wrap w z.
Proof. apply Zmod_mod. Qed.

Lemma wrap_add_l w a b : wrap w (wrap w a + b) = wrap w (a + b).
Proof. unfold wrap. apply Zplus_mod_idemp_l. Qed.

Lemma wrap_sub_add w a b : 0 <= w -> wrap w (wrap w (a + b) - b) = wrap w a.
Proof. intros. unfold wrap. rewrite Zminus_mod_idemp_l. f_equal. lia. Qed.

Lemma i64_id z : in_i64 z -> i64 z = z.
Proof. unfold in_i64, i64. intros. rewrite Z.mod_small; lia. Qed.

Lemma i64_range z : in_i64 (i64 z).
Proof. unfold in_i64, i64. pose proof (Z.mod_pos_bound (z + 2 ^ 63) (2 ^ 64)). lia. Qed.

(** ** Lemmas on byte slices *)

Lemma len_nonneg {A} (l : list A) : 0 <= len l.
Proof. unfold len. lia. Qed.

Lemma len_app {A} (l k : list A) : len (l ++ k) = len l + len k.
Proof. unfold len. rewrite length_app. lia. Qed.

Lemma len_nil {A} : len (@nil A) = 0.
Proof. reflexivity. Qed.

Lemma len_cons {A} (x : A) l : len (x :: l) = 1 + len l.
Proof. unfold len. simpl. lia. Qed.

Lemma len_slice {A} i j (l : list A) :
  0 <= i -> i <= j -> j <= len l -> len (slice i j l) = j - i.
Proof. unfold len, slice. rewrite length_take, length_drop. lia. Qed.

Lemma slice_app_r {A} (l k : list A) i j :
  len l <= i -> slice i j (l ++ k) = slice (i - len l) (j - len l) k.
Proof.
  intros. unfold slice, len in *. rewrite drop_app_ge by lia. f_equal; [lia|]. f_equal; lia.
Qed.

Lemma slice_full {A} (l : list A) : slice 0 (len l) l = l.
Proof. unfold slice, len. rewrite Z.sub_0_r, Nat2Z.id. simpl. apply take_ge. lia. Qed.

Lemma length_le_put n z : length (le_put n z) = n.
Proof. revert z. induction n; intros; simpl; auto. Qed.

Lemma length_be_put n z : length (be_put n z) = n.
Proof. unfold be_put. by rewrite length_reverse, length_le_put. Qed.

Lemma le_put_bytes n z : all_bytes (le_put n z).
Proof.
  revert z. induction n; intros z; simpl; constructor; auto.
  unfold is_byte. apply Z.mod_pos_bound. lia.
Qed.

Lemma be_put_bytes n z : all_bytes (be_put n z).
Proof. unfold be_put. apply Forall_reverse, le_put_bytes. Qed.

Lemma le_get_put n z : le_get (le_put n z) = z mod 2 ^ (8 * Z.of_nat n).
Proof.
  revert z. induction n as [|n IH]; intros z; simpl le_put; simpl le_get.
  - by rewrite Z.mod_1_r.
  - rewrite IH. replace (8 * Z.of_nat (S n)) with (8 + 8 * Z.of_nat n) by lia.
    rewrite Z.pow_add_r by lia. change (2 ^ 8) with 256.
    rewrite Z.rem_mul_r by (try lia; apply Z.pow_nonzero; lia). lia.
Qed.

Lemma be_get_put n z : be_get (be_put n z) = z mod 2 ^ (8 * Z.of_nat n).
Proof. unfold be_get, be_put. rewrite reverse_involutive. apply le_get_put. Qed.

Lemma le_get_range l : all_bytes l -> 0 <= le_get l < 2 ^ (8 * len l).
Proof.
  unfold len. induction 1 as [|b l Hb _ IH]; simpl le_get; [simpl; lia|].
  replace (8 * Z.of_nat (length (b :: l))) with (8 + 8 * Z.of_nat (length l)) by (simpl; lia).
  rewrite Z.pow_add_r by lia. change (2 ^ 8) with 256. unfold is_byte in Hb. nia.
Qed.

Lemma be_get_range l : all_bytes l -> 0 <= be_get l < 2 ^ (8 * len l).
Proof.
  intros. unfold be_get.
  replace (len l) with (len (reverse l)) by (unfold len; by rewrite length_reverse).
  apply le_get_range. by apply Forall_reverse.
Qed.

Lemma le_put_get l : all_bytes l -> le_put (length l) (le_get l) = l.
Proof.
  induction 1 as [|b l Hb _ IH]; simpl; [done|]. unfold is_byte in Hb.
  replace ((b + 256 * le_get l) mod 256) with b.
  2:{ rewrite Z.mul_comm, Z_mod_plus_full. rewrite Z.mod_small; lia. }
  replace ((b + 256 * le_get l) / 256) with (le_get l).
  2:{ rewrite Z.mul_comm, Z.div_add by lia. rewrite Z.div_small by lia. lia. }
  by rewrite IH.
Qed.

Lemma be_put_get l : all_bytes l -> be_put (length l) (be_get l) = l.
Proof.
  intros. unfold be_get, be_put. rewrite <- (length_reverse l), le_put_get.
  - apply reverse_involutive.
  - by apply Forall_reverse.
Qed.

Lemma bytes_eqb_spec a b : bytes_eqb a b = true <-> a = b.
Proof. unfold bytes_eqb. apply bool_decide_eq_true. Qed.

Lemma byte_at_in l i : all_bytes l -> is_byte (byte_at l i).
Proof.
  intros Hl. unfold byte_at. destruct (l !! Z.to_nat i) eqn:E; simpl.
  - eapply Forall_lookup_1; eauto.
  - unfold is_byte. lia.
Qed.

(** All the values of a concrete slice are bytes. *)
Lemma bytes_check (l : bytes) : forallb (fun b => (0 <=? b) && (b <? 256)) l = true -> all_bytes l.
Proof.
  induction l as [|b l IH]; simpl; [constructor|]. rewrite !andb_true_iff, Z.leb_le, Z.ltb_lt.
  intros [Hb Hl]. constructor; [exact Hb|auto].
Qed.

(** ** Automation *)

Create HintDb go.
#[export] Hint Resolve len_nonneg le_put_bytes be_put_bytes byte_at_in i64_range : go.
Create Rewrite HintDb go.
#[export] Hint Rewrite @len_app @len_cons @len_nil @length_app @length_take @length_drop
  length_le_put length_be_put : go.

(** Decompose a successful chain of [let?] and [guard?]. *)
Ltac res_inv :=
  repeat match goal with
  | H : rbind _ _ = Ok _ |- _ => apply rbind_ok_inv in H as (? & ? & ?)
  | H : (if ?c then _ else Err _) = Ok _ |- _ => destruct c eqn:?; [|discriminate H]
  | H : (if ?c then Err _ else _) = Ok _ |- _ => destruct c eqn:?; [discriminate H|]
  | H : Ok _ = Ok _ |- _ => injection H as H; subst
  | H : Err _ = Ok _ |- _ => discriminate H
  end.

(** Turn boolean tests of the code into propositions. *)
Ltac bool_prop :=
  repeat match goal with
  | H : (_ && _) = true |- _ => apply andb_true_iff in H as [? ?]
  | H : (_ || _) = false |- _ => apply orb_false_iff in H as [? ?]
  | H : (_ && _) = false |- _ => apply andb_false_iff in H
  | H : (_ || _) = true |- _ => apply orb_true_iff in H
  | H : negb _ = true |- _ => apply negb_true_iff in H
  | H : negb _ = false |- _ => apply negb_false_iff in H
  | H : (_ <? _) = true |- _ => apply Z.ltb_lt in H
  | H : (_ <? _) = false |- _ => apply Z.ltb_ge in H
  | H : (_ <=? _) = true |- _ => apply Z.leb_le in H
  | H : (_ <=? _) = false |- _ => apply Z.leb_gt in H
  | H : (_ =? _) = true |- _ => apply Z.eqb_eq in H
  | H : (_ =? _) = false |- _ => apply Z.eqb_neq in H
  | H : bool_decide _ = true |- _ => apply bool_decide_eq_true in H
  | H : bool_decide _ = false |- _ => apply bool_decide_eq_false in H
  end.

(** ** Lemmas on lists *)

Lemma filter_all {A} (P : A -> Prop) `{!forall x, Decision (P x)} (l : list A) :
  (forall x, x ∈ l -> P x) -> filter P l = l.
Proof.
  induction l as [|x l IH]; intros Hl; [done|]. rewrite filter_cons, decide_True by (apply Hl; left).
  f_equal. apply IH. intros. apply Hl. by right.
Qed.

Lemma forallb_Forall {A} (f : A -> bool) l : forallb f l = true <-> Forall (fun x => f x = true) l.
Proof.
  induction l; simpl; [by split; [constructor|]|]. rewrite andb_true_iff, Forall_cons, IHl. done.
Qed.

Lemma existsb_elem {A} (f : A -> bool) l : existsb f l = true <-> exists x, x ∈ l /\ f x = true.
Proof.
  induction l as [|y l IH]; simpl.
  - split; [done|]. intros (x & Hx & _). by apply elem_of_nil in Hx.
  - rewrite orb_true_iff, IH. split.
    + intros [H|(x & Hx & H)]; [exists y|exists x]; split; auto; [left|by right].
    + intros (x & [->|Hx]%elem_of_cons & H); eauto.
Qed.

(** ** Counting

    How many elements of a list satisfy a test: the bookkeeping of components
    whose callers are a list of phases. *)

Definition b2z (b : bool) : Z := if b then 1 else 0.

Fixpoint tally {A} (f : A -> bool) (l : list A) : Z :=
  match l with
  | [] => 0
  | x :: l => b2z (f x) + tally f l
  end.

Lemma tally_insert {A} (f : A -> bool) l i p q : l !! i = Some p -> tally f (<[i := q]> l) = tally f l - b2z (f p) + b2z (f q).
Proof.
  revert i. induction l as [|x l IH]; intros [|i] Hi; simpl in *; [done|done|injection Hi as ->; lia|].
  rewrite (IH _ Hi). lia.
Qed.

Lemma tally_le {A} (f g : A -> bool) l : (forall p, f p = true -> g p = true) -> 0 <= tally f l <= tally g l.
Proof.
  intros H. induction l as [|p l IH]; simpl; [lia|]. specialize (H p).
  destruct (f p), (g p); simpl; try lia.
Qed.

Lemma tally_nonneg {A} (f : A -> bool) l : 0 <= tally f l.
Proof. by apply (tally_le f f). Qed.

Lemma tally_app {A} (f : A -> bool) l l' : tally f (l ++ l') = tally f l + tally f l'.
Proof. induction l as [|x l IH]; cbn; [lia|]. rewrite IH. lia. Qed.

Lemma tally_lookup {A} (f : A -> bool) l i x : l !! i = Some x -> f x = true -> 1 <= tally f l.
Proof.
  revert i. induction l as [|y l IH]; intros [|i] Hi Hf; simpl in *; [done|done| |].
  - injection Hi as ->. rewrite Hf. simpl. pose proof (tally_nonneg f l). lia.
  - specialize (IH i Hi Hf). destruct (f y); simpl; lia.
Qed.

Lemma tally_replicate {A} (f : A -> bool) n x : f x = false -> tally f (replicate n x) = 0.
Proof. intros Hf. induction n as [|n IH]; simpl; [done|]. rewrite Hf, IH. done. Qed.

Lemma tally_unique {A} (f : A -> bool) (l : list A) i j x y : tally f l <= 1 ->
  l !! i = Some x -> f x = true -> l !! j = Some y -> f y = true -> i = j.
Proof.
  intros Ht Hi Hx Hj Hy. destruct (decide (i = j)) as [|Hne]; [done|]. exfalso. revert Ht i j Hne Hi Hj.
  induction l as [|z l IH]; intros Ht i j Hne Hi Hj; [done|]. pose proof (tally_nonneg f l). cbn in Ht.
  destruct i as [|i], j as [|j]; cbn in Hi, Hj; [done| | |].
  - injection Hi as ->. rewrite Hx in Ht. pose proof (tally_lookup f _ _ _ Hj Hy). cbn in Ht. lia.
  - injection Hj as ->. rewrite Hy in Ht. pose proof (tally_lookup f _ _ _ Hi Hx). cbn in Ht. lia.
  - apply (IH ltac:(destruct (f z); cbn in Ht; lia) i j); [by intros ->|done|done].
Qed.

Lemma tally_pos {A} (f : A -> bool) (l : list A) : 0 < tally f l -> exists i x, l !! i = Some x /\ f x = true.
Proof.
  induction l as [|x l IH]; cbn; [lia|]. destruct (f x) eqn:Ef; intros Ht; [by exists 0%nat, x|].
  destruct IH as (i & y & H); [cbn in Ht; lia|]. by exists (S i), y.
Qed.

#[export] Hint Resolve tally_nonneg : go.
