(* ===== verification/Heap.v ===== *)
(** * Array heaps: Go's [container/heap]

    [core.Cache] keeps its entries ordered by expiry with [container/heap] over
    [expiryHeap] (src/internal/core/cache_expiry.go).  This file models the
    algorithms of that standard-library package over the same interface the
    Go code implements ([heap.Interface]: [Len], [Less], [Swap], [Push],
    [Pop]), as a class of operations and a class of laws.  The theorems state
    that [Push], [Fix] and [Remove] restore the heap order and permute the
    elements, for every implementation of the interface; [Cache.v] instantiates
    them for [expiryHeap]. *)
From S2P Require Import Prelude.

Section Exchange.
Context {B : Type}.

(** [a[i], a[j] = a[j], a[i]]. *)
Definition exchange (i j : nat) (l : list B) : list B :=
  match l !! i, l !! j with
  | Some x, Some y => <[i := y]> (<[j := x]> l)
  | _, _ => l
  end.

Definition exch (i j k : nat) : nat :=
  if decide (k = i) then j else if decide (k = j) then i else k.

Lemma length_exchange i j l : length (exchange i j l) = length l.
Proof. unfold exchange. repeat case_match; by rewrite ?length_insert. Qed.

Lemma lookup_exchange i j l k :
  (i < length l)%nat -> (j < length l)%nat -> exchange i j l !! k = l !! exch i j k.
Proof.
  intros Hi Hj. unfold exchange, exch.
  destruct (lookup_lt_is_Some_2 l i Hi) as [x Hx], (lookup_lt_is_Some_2 l j Hj) as [y Hy].
  rewrite Hx, Hy. repeat case_decide; subst.
  - rewrite list_lookup_insert_eq by (by rewrite length_insert). done.
  - rewrite list_lookup_insert_ne by done. rewrite list_lookup_insert_eq by done. done.
  - by rewrite !list_lookup_insert_ne by done.
Qed.

#[export] Instance exch_inj i j : Inj eq eq (exch i j).
Proof. intros a b E. unfold exch in E. repeat case_decide; lia. Qed.

Lemma exchange_perm i j l :
  (i < length l)%nat -> (j < length l)%nat -> exchange i j l ≡ₚ l.
Proof.
  intros Hi Hj. symmetry. apply Permutation_inj. split; [by rewrite length_exchange|].
  exists (exch i j). split; [apply _|]. intros k. rewrite lookup_exchange by done.
  f_equal. unfold exch. repeat case_decide; congruence.
Qed.

Lemma exchange_prefix i j n l :
  (i < n)%nat -> (j < n)%nat -> drop n (exchange i j l) = drop n l.
Proof.
  intros. unfold exchange. repeat case_match; try done.
  by rewrite !drop_insert_lt by lia.
Qed.
End Exchange.

(** ** heap.Interface *)

Class HeapOps (S X : Type) := {
  h_len : S -> nat;
  h_less : S -> nat -> nat -> bool;
  h_swap : S -> nat -> nat -> S;
  h_push : S -> X -> S;
  h_pop : S -> S;
}.

Section Algorithms.
Context {S X : Type} `{HeapOps S X}.

Fixpoint up_loop (fuel : nat) (s : S) (j : nat) : S :=
  match fuel with
  | O => s
  | Datatypes.S fuel =>
      let i := ((j - 1) / 2)%nat in
      if (i =? j)%nat || negb (h_less s j i) then s
      else up_loop fuel (h_swap s i j) i
  end.

Definition up (s : S) (j : nat) : S := up_loop (j + 1) s j.

Fixpoint down_loop (fuel : nat) (s : S) (i n : nat) : S * nat :=
  match fuel with
  | O => (s, i)
  | Datatypes.S fuel =>
      let j1 := (2 * i + 1)%nat in
      if (n <=? j1)%nat then (s, i)
      else
        let j2 := (j1 + 1)%nat in
        let j := if (j2 <? n)%nat && h_less s j2 j1 then j2 else j1 in
        if negb (h_less s j i) then (s, i)
        else down_loop fuel (h_swap s i j) j n
  end.

Definition down (s : S) (i0 n : nat) : S * bool :=
  let '(s, i) := down_loop n s i0 n in (s, (i0 <? i)%nat).

Definition Push (s : S) (x : X) : S :=
  let s := h_push s x in up s (h_len s - 1).

Definition Fix (s : S) (i : nat) : S :=
  let '(s, moved) := down s i (h_len s) in
  if moved then s else up s i.

Definition Remove (s : S) (i : nat) : S :=
  let n := (h_len s - 1)%nat in
  let s :=
    if (n =? i)%nat then s
    else
      let s := h_swap s i n in
      let '(s, moved) := down s i n in
      if moved then s else up s i in
  h_pop s.
End Algorithms.

(** ** The laws an implementation promises *)

Class HeapLaws (S X B : Type) `{HeapOps S X} := {
  h_inv : S -> Prop;
  h_view : S -> list B;
  h_key : B -> Z;
  h_elem : S -> X -> B -> Prop;
  h_len_view s : h_len s = length (h_view s);
  h_less_view s i j x y :
    h_inv s -> h_view s !! i = Some x -> h_view s !! j = Some y ->
    h_less s i j = (h_key x <? h_key y);
  h_swap_ok s i j :
    h_inv s -> (i < length (h_view s))%nat -> (j < length (h_view s))%nat ->
    h_inv (h_swap s i j) /\ h_view (h_swap s i j) = exchange i j (h_view s);
  h_push_ok s x b :
    h_inv s -> h_elem s x b -> h_inv (h_push s x) /\ h_view (h_push s x) = h_view s ++ [b];
  h_pop_ok s l b :
    h_inv s -> h_view s = l ++ [b] -> h_inv (h_pop s) /\ h_view (h_pop s) = l;
}.

(** ** Heap order on a key function *)

Definition parent (c : nat) : nat := ((c - 1) / 2)%nat.
Definition edge_ok (K : nat -> Z) (c : nat) : Prop := K (parent c) <= K c.
Definition heap_upto (K : nat -> Z) (n : nat) : Prop :=
  forall c, (0 < c < n)%nat -> edge_ok K c.

(** Every edge but the one above [j] holds, and [j]'s parent bounds [j]'s children. *)
Definition up_pre (K : nat -> Z) (n j : nat) : Prop :=
  (forall c, (0 < c < n)%nat -> c <> j -> edge_ok K c) /\
  (forall c, (0 < c < n)%nat -> parent c = j -> (0 < j)%nat -> K (parent j) <= K c).

(** Every edge not touching [i] holds, and [i]'s parent bounds [i]'s children. *)
Definition down_pre (K : nat -> Z) (n i : nat) : Prop :=
  (forall c, (0 < c < n)%nat -> c <> i -> parent c <> i -> edge_ok K c) /\
  (forall c, (0 < c < n)%nat -> parent c = i -> (0 < i)%nat -> K (parent i) <= K c).

Lemma parent_lt c : (0 < c)%nat -> (parent c < c)%nat.
Proof.
  intros. unfold parent. apply Nat.le_lt_trans with (c - 1)%nat; [|lia].
  apply Nat.Div0.div_le_upper_bound. lia.
Qed.

Lemma parent_child c i : (0 < c)%nat -> parent c = i <-> c = (2 * i + 1)%nat \/ c = (2 * i + 2)%nat.
Proof.
  intros. unfold parent. pose proof (Nat.div_mod_eq (c - 1) 2).
  pose proof (Nat.mod_upper_bound (c - 1) 2). lia.
Qed.

Lemma up_pre_done K n j : up_pre K n j -> (j = 0%nat \/ edge_ok K j) -> heap_upto K n.
Proof.
  intros [Hall _] Hj c Hc. destruct (decide (c = j)) as [->|]; [|by apply Hall].
  destruct Hj; [lia|done].
Qed.

Lemma up_pre_step K n j :
  (0 < j < n)%nat -> up_pre K n j -> K j < K (parent j) ->
  up_pre (fun k => K (exch (parent j) j k)) n (parent j).
Proof.
  intros Hj [Hall Hgp] Hlt. pose proof (parent_lt j ltac:(lia)).
  split; unfold edge_ok.
  - intros c Hc Hne. pose proof (parent_lt c ltac:(lia)). unfold exch.
    destruct (decide (c = j)) as [->|Hcj].
    { repeat case_decide; lia. }
    rewrite (decide_False (P := c = parent j)) by done.
    destruct (decide (parent c = parent j)) as [E|].
    { pose proof (Hall c Hc Hcj). unfold edge_ok in *. rewrite E in *. lia. }
    destruct (decide (parent c = j)) as [E|]; [|by apply Hall].
    apply Hgp; [done..|lia].
  - intros c Hc Hpc Hi. pose proof (parent_lt c ltac:(lia)). pose proof (parent_lt (parent j) ltac:(lia)).
    unfold exch. rewrite (decide_False (P := parent (parent j) = parent j)) by lia.
    rewrite (decide_False (P := parent (parent j) = j)) by lia.
    rewrite (decide_False (P := c = parent j)) by lia.
    pose proof (Hall (parent j) ltac:(lia) ltac:(lia)) as Hp. unfold edge_ok in *.
    destruct (decide (c = j)) as [->|Hcj]; [done|].
    pose proof (Hall c Hc Hcj) as Hc'. unfold edge_ok in Hc'. rewrite Hpc in Hc'. lia.
Qed.

(** Element [j] is a smallest child of [i]. *)
Definition min_child (K : nat -> Z) (n i j : nat) : Prop :=
  (0 < j < n)%nat /\ parent j = i /\
  forall c, (0 < c < n)%nat -> parent c = i -> K j <= K c.

Lemma down_pre_step K n i j :
  down_pre K n i -> min_child K n i j -> K j < K i ->
  down_pre (fun k => K (exch i j k)) n j /\ edge_ok (fun k => K (exch i j k)) j.
Proof.
  intros [Hall Hgp] (Hj & Hpj & Hmin) Hlt. pose proof (parent_lt j ltac:(lia)) as Hij.
  unfold down_pre, edge_ok, exch. split; [split|].
  - intros c Hc Hcj Hpcj. pose proof (parent_lt c ltac:(lia)).
    repeat case_decide; subst; try lia; try done.
    + by apply Hmin.
    + apply Hgp; [lia|done|lia].
    + by apply Hall.
  - intros c Hc Hpc Hj0. pose proof (parent_lt c ltac:(lia)). rewrite Hpj.
    repeat case_decide; subst; try lia.
    apply (Hall c); [done|lia|lia].
  - rewrite Hpj. repeat case_decide; subst; try lia.
Qed.

(** When the loop stops at [i], only the edge above [i] can still be broken. *)
Lemma down_pre_done K n i :
  down_pre K n i -> (forall c, (0 < c < n)%nat -> parent c = i -> K i <= K c) ->
  up_pre K n i.
Proof.
  intros [Hall Hgp] Hch. split; [|done]. intros c Hc Hci.
  destruct (decide (parent c = i)) as [E|]; [|by apply Hall].
  unfold edge_ok. rewrite E. by apply Hch.
Qed.

Section Correctness.
Context {S X B : Type} `{HL : HeapLaws S X B}.

(** The key at index [i] of the array. *)
Definition key_at (l : list B) (i : nat) : Z :=
  match l !! i with Some b => h_key b | None => 0 end.

Definition heap_ordered (s : S) : Prop :=
  heap_upto (key_at (h_view s)) (length (h_view s)).

Lemma heap_upto_ext K K' n :
  (forall i, (i < n)%nat -> K i = K' i) -> heap_upto K n -> heap_upto K' n.
Proof.
  intros E HK c Hc. pose proof (parent_lt c ltac:(lia)). unfold edge_ok.
  rewrite <- !E by lia. by apply HK.
Qed.

Lemma key_at_exchange i j l k :
  (i < length l)%nat -> (j < length l)%nat ->
  key_at (exchange i j l) k = key_at l (exch i j k).
Proof. intros. unfold key_at. by rewrite lookup_exchange. Qed.

Lemma up_pre_ext K K' n j :
  (forall k, K k = K' k) -> up_pre K n j -> up_pre K' n j.
Proof. intros E [H1 H2]. unfold up_pre, edge_ok in *. setoid_rewrite <- E. by split. Qed.

Lemma down_pre_ext K K' n j :
  (forall k, K k = K' k) -> down_pre K n j -> down_pre K' n j.
Proof. intros E [H1 H2]. unfold down_pre, edge_ok in *. setoid_rewrite <- E. by split. Qed.

Lemma h_less_key s i j :
  h_inv s -> (i < length (h_view s))%nat -> (j < length (h_view s))%nat ->
  h_less s i j = (key_at (h_view s) i <? key_at (h_view s) j).
Proof.
  intros Hs Hi Hj.
  destruct (lookup_lt_is_Some_2 _ _ Hi) as [x Hx], (lookup_lt_is_Some_2 _ _ Hj) as [y Hy].
  unfold key_at. rewrite Hx, Hy. by eapply h_less_view.
Qed.

(** What every re-ordering step keeps: the invariant, the elements of the
    first [n] cells as a multiset, and the cells after them. *)
Record reordered (n : nat) (s s' : S) : Prop := {
  re_inv : h_inv s';
  re_perm : h_view s' ≡ₚ h_view s;
  re_tail : drop n (h_view s') = drop n (h_view s);
}.

Lemma reordered_refl n s : h_inv s -> reordered n s s.
Proof. by constructor. Qed.

Lemma reordered_trans n s1 s2 s3 : reordered n s1 s2 -> reordered n s2 s3 -> reordered n s1 s3.
Proof.
  intros [] []. constructor; [done| |congruence]. by etrans.
Qed.

Lemma reordered_length n s s' : reordered n s s' -> length (h_view s') = length (h_view s).
Proof. intros []. by apply Permutation_length. Qed.

Lemma swap_reordered n s i j :
  h_inv s -> (i < n)%nat -> (j < n)%nat -> (n <= length (h_view s))%nat ->
  reordered n s (h_swap s i j).
Proof.
  intros Hs Hi Hj Hn. destruct (h_swap_ok s i j Hs ltac:(lia) ltac:(lia)) as [Hs' Hv].
  constructor; [done| |].
  - rewrite Hv. apply exchange_perm; lia.
  - rewrite Hv. by apply exchange_prefix.
Qed.

Lemma up_loop_spec fuel s j n :
  h_inv s -> (j < n)%nat -> (n <= length (h_view s))%nat -> (j < fuel)%nat ->
  up_pre (key_at (h_view s)) n j ->
  reordered n s (up_loop fuel s j) /\ heap_upto (key_at (h_view (up_loop fuel s j))) n.
Proof.
  revert s j. induction fuel as [|fuel IH]; intros s j Hs Hj Hn Hf Hpre; [lia|].
  cbn [up_loop]. change ((j - 1) / 2)%nat with (parent j). destruct (Nat.eqb_spec (parent j) j) as [E|E]; cbn [orb].
  { split; [by apply reordered_refl|]. eapply up_pre_done; [done|].
    left. destruct j; [done|]. pose proof (parent_lt (Datatypes.S j)). lia. }
  assert (0 < j)%nat by (destruct j; [by rewrite (eq_refl : parent 0 = 0%nat) in E|lia]).
  pose proof (parent_lt j ltac:(lia)).
  rewrite h_less_key by (done || lia). destruct (Z.ltb_spec (key_at (h_view s) j) (key_at (h_view s) (parent j))) as [Hlt|Hge]; cbn [negb].
  2:{ split; [by apply reordered_refl|]. eapply up_pre_done; [done|]. right. unfold edge_ok. lia. }
  pose proof (swap_reordered n s (parent j) j Hs ltac:(lia) ltac:(lia) Hn) as Hsw.
  destruct (h_swap_ok s (parent j) j Hs ltac:(lia) ltac:(lia)) as [Hs' Hv].
  destruct (IH (h_swap s (parent j) j) (parent j)) as [Hr Hh]; try done; try lia.
  - rewrite (reordered_length _ _ _ Hsw). lia.
  - eapply up_pre_ext; [|by apply (up_pre_step (key_at (h_view s)) n j ltac:(lia) Hpre Hlt)].
    intros k. simpl. rewrite Hv, key_at_exchange by lia. done.
  - split; [|done]. by eapply reordered_trans.
Qed.

Lemma up_spec s j n :
  h_inv s -> (j < n)%nat -> (n <= length (h_view s))%nat ->
  up_pre (key_at (h_view s)) n j ->
  reordered n s (up s j) /\ heap_upto (key_at (h_view (up s j))) n.
Proof. intros. apply up_loop_spec; try done; lia. Qed.

Lemma pick_child_min (K : nat -> Z) n i :
  let j1 := (2 * i + 1)%nat in
  let j2 := (j1 + 1)%nat in
  (j1 < n)%nat ->
  min_child K n i (if (j2 <? n)%nat && (K j2 <? K j1) then j2 else j1).
Proof.
  intros j1 j2 Hn. unfold min_child.
  assert (parent j1 = i /\ parent j2 = i) as [P1 P2] by (rewrite !parent_child by lia; lia).
  destruct (Nat.ltb_spec j2 n); simpl; [destruct (Z.ltb_spec (K j2) (K j1)); simpl|].
  all: split; [lia|]; split; [done|]; intros c Hc Hpc.
  all: apply parent_child in Hpc; [|lia].
  all: destruct Hpc as [->| ->]; fold j1; replace (2 * i + 2)%nat with j2 by lia; lia.
Qed.

Lemma down_loop_spec fuel s i0 i n :
  h_inv s -> (n <= length (h_view s))%nat -> (n <= i + fuel)%nat -> (i0 <= i)%nat ->
  down_pre (key_at (h_view s)) n i ->
  (i = i0 \/ edge_ok (key_at (h_view s)) i) ->
  let '(s', i') := down_loop fuel s i n in
  reordered n s s' /\ (i0 <= i')%nat /\ up_pre (key_at (h_view s')) n i' /\
  (i' = i0 \/ edge_ok (key_at (h_view s')) i').
Proof.
  revert s i. induction fuel as [|fuel IH]; intros s i Hs Hn Hf Hi Hpre He.
  { simpl. split; [by apply reordered_refl|]. split; [done|]. split; [|done].
    apply down_pre_done; [done|]. intros c Hc Hpc. pose proof (parent_lt c). lia. }
  cbn [down_loop]. destruct (Nat.leb_spec n (2 * i + 1)).
  { split; [by apply reordered_refl|]. split; [done|]. split; [|done].
    apply down_pre_done; [done|]. intros c Hc Hpc. apply parent_child in Hpc; lia. }
  pose proof (pick_child_min (key_at (h_view s)) n i ltac:(lia)) as Hmin. simpl in Hmin.
  replace (if (2 * i + 1 + 1 <? n)%nat && h_less s (2 * i + 1 + 1) (2 * i + 1) then (2 * i + 1 + 1)%nat else (2 * i + 1)%nat)
    with (if (2 * i + 1 + 1 <? n)%nat && (key_at (h_view s) (2 * i + 1 + 1) <? key_at (h_view s) (2 * i + 1)) then (2 * i + 1 + 1)%nat else (2 * i + 1)%nat).
  2:{ destruct (Nat.ltb_spec (2 * i + 1 + 1) n); simpl; [|done]. by rewrite h_less_key by (done || lia). }
  match type of Hmin with min_child _ _ _ ?x => replace x with
    (if (2 * i + 1 + 1 <? n)%nat && (key_at (h_view s) (2 * i + 1 + 1) <? key_at (h_view s) (2 * i + 1)) then (2 * i + 1 + 1)%nat else (2 * i + 1)%nat) in Hmin by done end.
  match goal with |- context [h_less s ?x i] => set (j := x) in * end.
  destruct Hmin as (Hj & Hpj & Hm). pose proof (parent_lt j ltac:(lia)).
  rewrite h_less_key by (done || lia).
  destruct (Z.ltb_spec (key_at (h_view s) j) (key_at (h_view s) i)) as [Hlt|Hge]; cbn [negb].
  2:{ split; [by apply reordered_refl|]. split; [done|]. split; [|done].
      apply down_pre_done; [done|]. intros c Hc Hpc. specialize (Hm c Hc Hpc). lia. }
  pose proof (swap_reordered n s i j Hs ltac:(lia) ltac:(lia) Hn) as Hsw.
  destruct (h_swap_ok s i j Hs ltac:(lia) ltac:(lia)) as [Hs' Hv].
  destruct (down_pre_step (key_at (h_view s)) n i j Hpre) as [Hp He']; [by repeat split; try lia|done|].
  assert (forall k, key_at (h_view (h_swap s i j)) k = key_at (h_view s) (exch i j k)) as HK.
  { intros k. by rewrite Hv, key_at_exchange by lia. }
  specialize (IH (h_swap s i j) j Hs').
  destruct (down_loop fuel (h_swap s i j) j n) as [s' i'].
  destruct IH as (Hr & Hi' & Hu & He''); try lia.
  - rewrite (reordered_length _ _ _ Hsw). lia.
  - eapply down_pre_ext; [|exact Hp]. intros k. by rewrite HK.
  - right. unfold edge_ok in *. rewrite !HK. done.
  - split; [by eapply reordered_trans|done].
Qed.

(** The [down]-then-[up] sequence used by [Fix] and [Remove]. *)
Lemma sift_spec s i n :
  h_inv s -> (i < n)%nat -> (n <= length (h_view s))%nat ->
  down_pre (key_at (h_view s)) n i ->
  let s' := (let '(s, moved) := down s i n in if moved then s else up s i) in
  reordered n s s' /\ heap_upto (key_at (h_view s')) n.
Proof.
  intros Hs Hi Hn Hpre. unfold down.
  pose proof (down_loop_spec n s i i n Hs Hn ltac:(lia) ltac:(lia) Hpre (or_introl eq_refl)) as Hd.
  destruct (down_loop n s i n) as [s' i']. destruct Hd as (Hr & Hle & Hu & He).
  destruct (Nat.ltb_spec i i').
  - split; [done|]. destruct He as [->|He]; [lia|]. eapply up_pre_done; [done|by right].
  - assert (i' = i) as -> by lia. pose proof (reordered_length _ _ _ Hr) as Hlen.
    destruct (up_spec s' i n) as [Hr2 Hh]; [by destruct Hr|done|lia|done|].
    split; [by eapply reordered_trans|done].
Qed.

Lemma heap_down_pre K n i : heap_upto K n -> down_pre K n i.
Proof.
  intros Hh. split; [by intros; apply Hh|]. intros c Hc Hpc Hi.
  pose proof (parent_lt c ltac:(lia)). pose proof (parent_lt i ltac:(lia)).
  pose proof (Hh c Hc) as E1. pose proof (Hh i ltac:(lia)) as E2. unfold edge_ok in *.
  rewrite Hpc in E1. lia.
Qed.

(** Changing the key at [i] alone leaves [down_pre]. *)
Lemma heap_change_down_pre K K' n i :
  heap_upto K n -> (forall k, (k < n)%nat -> k <> i -> K' k = K k) -> down_pre K' n i.
Proof.
  intros Hh E. destruct (heap_down_pre K n i Hh) as [H1 H2]. split.
  - intros c Hc Hci Hpi. pose proof (parent_lt c ltac:(lia)). unfold edge_ok.
    rewrite !E by (done || lia). by apply H1.
  - intros c Hc Hpc Hi. pose proof (parent_lt c ltac:(lia)). pose proof (parent_lt i ltac:(lia)).
    rewrite !E by lia. by apply H2.
Qed.

Lemma Push_spec s x b :
  h_inv s -> h_elem s x b -> heap_ordered s ->
  h_inv (Push s x) /\ h_view (Push s x) ≡ₚ b :: h_view s /\ heap_ordered (Push s x).
Proof.
  intros Hs Hx Hh. destruct (h_push_ok s x b Hs Hx) as [Hs1 Hv1]. unfold Push.
  set (s1 := h_push s x) in *. set (n := length (h_view s1)).
  assert (n = length (h_view s) + 1)%nat as Hn by (unfold n; rewrite Hv1, length_app; done).
  rewrite h_len_view. fold n.
  destruct (up_spec s1 (n - 1) n Hs1) as [Hr Hup]; [lia|done| |].
  - split.
    + intros c Hc Hne. assert (c < length (h_view s))%nat by lia.
      pose proof (parent_lt c ltac:(lia)). specialize (Hh c ltac:(lia)).
      unfold edge_ok, key_at in *. rewrite !Hv1, !lookup_app_l by lia. done.
    + intros c Hc Hpc. pose proof (parent_lt c ltac:(lia)). lia.
  - split; [by destruct Hr|]. split.
    + destruct Hr as [_ Hp _]. rewrite Hp, Hv1. by rewrite Permutation_app_comm.
    + unfold heap_ordered. rewrite (reordered_length _ _ _ Hr). done.
Qed.

Lemma Fix_spec s i :
  h_inv s -> (i < length (h_view s))%nat ->
  down_pre (key_at (h_view s)) (length (h_view s)) i ->
  h_inv (Fix s i) /\ h_view (Fix s i) ≡ₚ h_view s /\ heap_ordered (Fix s i).
Proof.
  intros Hs Hi Hpre. unfold Fix. rewrite h_len_view.
  destruct (sift_spec s i _ Hs Hi (le_n _) Hpre) as [Hr Hh].
  pose proof (reordered_length _ _ _ Hr) as Hl. unfold heap_ordered. rewrite Hl.
  destruct Hr. done.
Qed.

Lemma drop_last_cell (l : list B) n b :
  l !! n = Some b -> length l = (n + 1)%nat -> drop n l = [b].
Proof.
  intros Hb Hl. rewrite (drop_S _ b n Hb). f_equal. apply nil_length_inv.
  rewrite length_drop. lia.
Qed.

(** [Remove] before its [Pop]: the removed element is in the last cell. *)
Lemma Remove_moved s i n b :
  h_inv s -> heap_ordered s -> h_view s !! i = Some b -> length (h_view s) = (n + 1)%nat -> n <> i ->
  let s1 := (let s := h_swap s i n in
             let '(s, moved) := down s i n in if moved then s else up s i) in
  h_inv s1 /\ heap_upto (key_at (h_view s1)) n /\
  h_view s1 = take n (h_view s1) ++ [b] /\ h_view s1 ≡ₚ h_view s.
Proof.
  intros Hs Hh Hb Hn Hne. pose proof (lookup_lt_Some _ _ _ Hb) as Hi.
  destruct (h_swap_ok s i n Hs Hi ltac:(lia)) as [Hs2 Hv2]. set (s2 := h_swap s i n) in *.
  assert (length (h_view s2) = length (h_view s)) as Hl2 by (by rewrite Hv2, length_exchange).
  destruct (sift_spec s2 i n Hs2) as [[Hr Hp Ht] Hhp]; [lia|lia| |].
  { eapply (heap_change_down_pre _ _ _ i); [intros c Hc; apply Hh; lia|].
    intros k Hkn Hk. rewrite Hv2, key_at_exchange by lia. unfold exch.
    by rewrite !decide_False by lia. }
  assert (h_view s2 ≡ₚ h_view s) as Hp2 by (rewrite Hv2; apply exchange_perm; lia).
  assert (h_view s2 !! n = Some b) as Hb2.
  { rewrite Hv2, lookup_exchange by lia. unfold exch. repeat case_decide; congruence. }
  split; [done|]. split; [done|]. split; [|by etrans].
  rewrite <- (drop_last_cell _ n b Hb2) by lia. by rewrite <- Ht, take_drop.
Qed.

Lemma Remove_spec s i b :
  h_inv s -> heap_ordered s -> h_view s !! i = Some b ->
  h_inv (Remove s i) /\ b :: h_view (Remove s i) ≡ₚ h_view s /\ heap_ordered (Remove s i).
Proof.
  intros Hs Hh Hb. pose proof (lookup_lt_Some _ _ _ Hb) as Hi. unfold Remove.
  rewrite h_len_view. remember (length (h_view s) - 1)%nat as n eqn:Hn.
  match goal with |- context [h_pop ?t] => set (s1 := t) end.
  assert (h_inv s1 /\ heap_upto (key_at (h_view s1)) n /\
          h_view s1 = take n (h_view s1) ++ [b] /\ h_view s1 ≡ₚ h_view s) as (Hs1 & Hh1 & Hv1 & Hp).
  { unfold s1. clear s1. destruct (Nat.eqb_spec n i) as [->|Hne].
    - split; [done|]. split; [intros c Hc; apply Hh; lia|]. split; [|done].
      rewrite <- (drop_last_cell _ i b Hb) by lia. by rewrite take_drop.
    - apply Remove_moved; (done || lia). }
  destruct (h_pop_ok s1 _ b Hs1 Hv1) as [Hs3 Hv3]. rewrite Hv3. split; [done|]. split.
  - rewrite <- Hp. rewrite Hv1 at 2. by rewrite Permutation_app_comm.
  - apply Permutation_length in Hp. unfold heap_ordered. rewrite Hv3, length_take.
    eapply heap_upto_ext; [|intros c Hc; apply Hh1; lia].
    intros k Hk. unfold key_at. by rewrite lookup_take_lt by lia.
Qed.

(** The root of an ordered heap carries a smallest key. *)
Lemma heap_root_min s b b' :
  heap_ordered s -> h_view s !! 0%nat = Some b -> b' ∈ h_view s -> h_key b <= h_key b'.
Proof.
  intros Hh Hb [k Hk]%list_elem_of_lookup. revert b' Hk.
  induction k as [k IH] using lt_wf_ind. intros b' Hk.
  destruct (decide (k = 0%nat)) as [->|]; [rewrite Hb in Hk; by injection Hk as ->|].
  pose proof (parent_lt k ltac:(lia)) as Hlt. pose proof (lookup_lt_Some _ _ _ Hk).
  destruct (lookup_lt_is_Some_2 (h_view s) (parent k)) as [x Hx]; [lia|].
  specialize (IH _ Hlt x Hx). specialize (Hh k ltac:(lia)).
  unfold edge_ok, key_at in Hh. rewrite Hx, Hk in Hh. lia.
Qed.
End Correctness.
