(* ===== verification/Cache.v ===== *)
(** * core.Cache: an LRU cache with absolute expiry

    Models src/internal/core/cache.go ([Cache]: NewCache, Get, Set, SetUntil,
    remove, Delete, Clear; [CacheBudget]) and the [expiryHeap] methods of
    src/internal/core/cache_expiry.go.

    The Go cache shares each [*cacheItem] between a map, a recency list and
    an expiry heap, and the item stores its own position in the heap.  The
    model keeps that sharing: [mem] is the store of items, the three
    structures hold pointers into it, and the heap methods update
    [expiryIndex] through the pointer.  A [*list.Element] is identified with
    the item it carries (each item owns exactly one element), so [order] is
    the list of item pointers, front first.  [time.Now()] is an argument.  The
    mutex makes every operation atomic, so operations are state transformers.

    [Lru] is the abstract specification: a list of entries, most recently used
    first.  The refinement lemmas show that each operation of the heap-and-map
    implementation acts on the represented list exactly as the specification. *)
From S2P Require Import Prelude Heap.

(** ** Data *)

Section Data.
Context {T : Type}.

(** [cacheItem]; [expiryIndex] is [-1] once popped from the heap. *)
Record cacheItem := CacheItem {
  key : string;
  value : T;
  expires : Z;
  expiryIndex : Z;
}.

Record Cache := MkCache {
  entries : gmap string nat;
  order : list nat;
  expiry : list nat;
  capacity : Z;
  ttl : Z;
  mem : gmap nat cacheItem;
  next : nat;
}.

Definition set_entries (m : gmap string nat) (c : Cache) : Cache :=
  MkCache m (order c) (expiry c) (capacity c) (ttl c) (mem c) (next c).
Definition set_order (l : list nat) (c : Cache) : Cache :=
  MkCache (entries c) l (expiry c) (capacity c) (ttl c) (mem c) (next c).
Definition set_expiry (l : list nat) (c : Cache) : Cache :=
  MkCache (entries c) (order c) l (capacity c) (ttl c) (mem c) (next c).
Definition set_mem (m : gmap nat cacheItem) (c : Cache) : Cache :=
  MkCache (entries c) (order c) (expiry c) (capacity c) (ttl c) m (next c).

(** Field reads and writes through an item pointer. *)
Definition item_expires (c : Cache) (p : nat) : Z :=
  match mem c !! p with Some it => expires it | None => 0 end.

Definition with_index (i : Z) (it : cacheItem) : cacheItem :=
  CacheItem (key it) (value it) (expires it) i.

Definition with_value (v : T) (e : Z) (it : cacheItem) : cacheItem :=
  CacheItem (key it) v e (expiryIndex it).

Definition set_index (p : nat) (i : Z) (c : Cache) : Cache :=
  set_mem (alter (with_index i) p (mem c)) c.

(** ** [expiryHeap] *)

Definition heap_len (c : Cache) : nat := length (expiry c).

Definition heap_less (c : Cache) (i j : nat) : bool :=
  match expiry c !! i, expiry c !! j with
  | Some p, Some q => item_expires c p <? item_expires c q
  | _, _ => false
  end.

Definition heap_swap (c : Cache) (i j : nat) : Cache :=
  let c := set_expiry (exchange i j (expiry c)) c in
  match expiry c !! i, expiry c !! j with
  | Some p, Some q => set_index q (Z.of_nat j) (set_index p (Z.of_nat i) c)
  | _, _ => c
  end.

Definition heap_push (c : Cache) (p : nat) : Cache :=
  let c := set_index p (Z.of_nat (length (expiry c))) c in
  set_expiry (expiry c ++ [p]) c.

Definition heap_pop (c : Cache) : Cache :=
  match last (expiry c) with
  | Some p => set_index p (-1) (set_expiry (removelast (expiry c)) c)
  | None => c
  end.

#[export] Instance expiryHeap : HeapOps Cache nat := {
  h_len := heap_len;
  h_less := heap_less;
  h_swap := heap_swap;
  h_push := heap_push;
  h_pop := heap_pop;
}.

(** ** Operations *)

Definition NewCache (ttl capacity : Z) : Cache :=
  MkCache ∅ [] [] (if capacity <? 1 then 1 else capacity) ttl ∅ 0.

Definition list_del (p : nat) (l : list nat) : list nat := filter (fun q => q <> p) l.

(** [list.MoveToFront] *)
Definition move_to_front (p : nat) (c : Cache) : Cache :=
  set_order (p :: list_del p (order c)) c.

Definition remove (p : nat) (c : Cache) : Cache :=
  match mem c !! p with
  | None => c
  | Some it =>
      let c := Remove c (Z.to_nat (expiryIndex it)) in
      let c := set_order (list_del p (order c)) c in
      set_entries (delete (key it) (entries c)) c
  end.

Definition Get (now : Z) (k : string) (c : Cache) : option T * Cache :=
  match entries c !! k with
  | None => (None, c)
  | Some p =>
      match mem c !! p with
      | None => (None, c)
      | Some it =>
          if negb (now <? expires it) then (None, remove p c)
          else (Some (value it), move_to_front p c)
      end
  end.

(** [for len(c.expiry) > 0 && !c.expiry[0].expires.After(now)] *)
Fixpoint purge (fuel : nat) (now : Z) (c : Cache) : Cache :=
  match fuel with
  | O => c
  | S fuel =>
      match expiry c with
      | [] => c
      | p :: _ => if negb (now <? item_expires c p) then purge fuel now (remove p c) else c
      end
  end.

Definition insert_new (k : string) (v : T) (e : Z) (c : Cache) : Cache :=
  let p := next c in
  let c := MkCache (entries c) (p :: order c) (expiry c) (capacity c) (ttl c)
             (<[p := CacheItem k v e 0]> (mem c)) (S p) in
  let c := set_entries (<[k := p]> (entries c)) c in
  Push c p.

Definition SetUntil (now : Z) (k : string) (v : T) (e : Z) (c : Cache) : Cache :=
  let c := purge (length (expiry c)) now c in
  if negb (now <? e) then
    match entries c !! k with Some p => remove p c | None => c end
  else
    match entries c !! k with
    | Some p =>
        let c := set_mem (alter (with_value v e) p (mem c)) c in
        let c := move_to_front p c in
        match mem c !! p with
        | Some it => Fix c (Z.to_nat (expiryIndex it))
        | None => c
        end
    | None =>
        let c :=
          if capacity c <=? Z.of_nat (size (entries c)) then
            match last (order c) with Some p => remove p c | None => c end
          else c in
        insert_new k v e c
    end.

(** [Set] reads the clock twice: for the deadline and inside [SetUntil]. *)
Definition Set_ (now now' : Z) (k : string) (v : T) (c : Cache) : Cache :=
  SetUntil now' k v (now + ttl c) c.

Definition Delete (k : string) (c : Cache) : Cache :=
  match entries c !! k with Some p => remove p c | None => c end.

Definition Clear (c : Cache) : Cache :=
  MkCache ∅ [] [] (capacity c) (ttl c) (mem c) (next c).

(** ** The specification: an LRU list *)

Record entry := Entry { e_key : string; e_value : T; e_expires : Z }.

Definition lru_find (k : string) (l : list entry) : option entry :=
  List.find (fun e => bool_decide (e_key e = k)) l.

Definition lru_del (k : string) (l : list entry) : list entry :=
  filter (fun e => e_key e <> k) l.

Definition lru_get (now : Z) (k : string) (l : list entry) : option T * list entry :=
  match lru_find k l with
  | None => (None, l)
  | Some e =>
      if now <? e_expires e then (Some (e_value e), e :: lru_del k l)
      else (None, lru_del k l)
  end.

Definition lru_purge (now : Z) (l : list entry) : list entry :=
  filter (fun e => now < e_expires e) l.

Definition lru_set_until (cap now : Z) (k : string) (v : T) (e : Z) (l : list entry) : list entry :=
  let l := lru_purge now l in
  if e <=? now then lru_del k l
  else
    match lru_find k l with
    | Some _ => Entry k v e :: lru_del k l
    | None => Entry k v e :: (if cap <=? len l then removelast l else l)
    end.

(** The entry an item stands for, and the list a cache represents. *)
Definition item_entry (it : cacheItem) : entry := Entry (key it) (value it) (expires it).
Definition lookup_entry (c : Cache) (p : nat) : option entry := item_entry <$> mem c !! p.
Definition represents (c : Cache) : list entry := omap (lookup_entry c) (order c).
End Data.
Arguments cacheItem : clear implicits.
Arguments Cache : clear implicits.
Arguments entry : clear implicits.

(** [CacheBudget] and [CacheLimits]. *)
Record CacheLimits := { cl_Assets : Z; cl_Responses : Z }.

Definition CacheBudget (total : Z) : CacheLimits :=
  let responses := Z.quot total 12 in
  {| cl_Assets := total - 6 * responses; cl_Responses := responses |}.

(** ** The representation invariant *)

Section Invariant.
Context {T : Type}.
Implicit Types c : Cache T.

(** The heap array holds distinct live items that know their position. *)
Definition index_ok c : Prop :=
  NoDup (expiry c) /\
  forall i p, expiry c !! i = Some p ->
    exists it, mem c !! p = Some it /\ expiryIndex it = Z.of_nat i.

Definition expiry_ordered c : Prop :=
  heap_upto (fun i => match expiry c !! i with Some p => item_expires c p | None => 0 end)
    (length (expiry c)).

Record wf c : Prop := {
  wf_order : NoDup (order c);
  wf_perm : expiry c ≡ₚ order c;
  wf_index : index_ok c;
  wf_heap : expiry_ordered c;
  wf_entries k p : entries c !! k = Some p <-> p ∈ order c /\ key <$> mem c !! p = Some k;
  wf_size : size (entries c) = length (order c);
  wf_next p : is_Some (mem c !! p) -> (p < next c)%nat;
  wf_capacity : 1 <= capacity c;
  wf_bound : len (order c) <= capacity c;
}.

(** What the heap algorithms leave alone: everything but the heap array and
    the positions stored in the items. *)
Record frame c c' : Prop := {
  fr_entries : entries c' = entries c;
  fr_order : order c' = order c;
  fr_capacity : capacity c' = capacity c;
  fr_ttl : ttl c' = ttl c;
  fr_next : next c' = next c;
  fr_items p : lookup_entry c' p = lookup_entry c p;
}.

Lemma frame_refl c : frame c c.
Proof. by constructor. Qed.

Lemma frame_trans c1 c2 c3 : frame c1 c2 -> frame c2 c3 -> frame c1 c3.
Proof. intros [] []. constructor; congruence. Qed.

Lemma frame_set_index c p i : frame c (set_index p i c).
Proof.
  constructor; try done. intros q. unfold lookup_entry, set_index. simpl.
  rewrite lookup_alter. case_decide; subst; [|done]. by destruct (mem c !! q).
Qed.

Lemma frame_set_expiry c l : frame c (set_expiry l c).
Proof. by constructor. Qed.

Lemma item_expires_entry c p :
  item_expires c p = default 0 (e_expires <$> lookup_entry c p).
Proof. unfold item_expires, lookup_entry. by destruct (mem c !! p). Qed.

Lemma frame_expires c c' p : frame c c' -> item_expires c' p = item_expires c p.
Proof. intros []. by rewrite !item_expires_entry, fr_items0. Qed.

Lemma frame_represents c c' : frame c c' -> represents c' = represents c.
Proof.
  intros []. unfold represents. rewrite fr_order0. generalize (order c) as l.
  induction l as [|p l IH]; simpl; [done|]. rewrite fr_items0. case_match; [f_equal|]; apply IH.
Qed.

(** *** The heap interface laws, relative to a reference state *)

Definition heap_view c : list (nat * Z) := (fun p => (p, item_expires c p)) <$> expiry c.

Lemma heap_view_frame c c' l :
  frame c c' -> expiry c' = l -> heap_view c' = (fun p => (p, item_expires c p)) <$> l.
Proof.
  intros Hf <-. unfold heap_view. apply list_fmap_ext. intros i p _.
  by rewrite (frame_expires _ _ _ Hf).
Qed.

Lemma fmap_exchange {A B} (f : A -> B) i j (l : list A) :
  f <$> exchange i j l = exchange i j (f <$> l).
Proof.
  unfold exchange. rewrite !list_lookup_fmap.
  destruct (l !! i), (l !! j); simpl; try done. by rewrite !list_fmap_insert.
Qed.

Lemma heap_swap_frame c i j : frame c (heap_swap c i j).
Proof.
  unfold heap_swap. repeat case_match; try apply frame_set_expiry.
  eapply frame_trans; [|apply frame_set_index].
  eapply frame_trans; [|apply frame_set_index]. apply frame_set_expiry.
Qed.

Lemma heap_swap_expiry c i j : expiry (heap_swap c i j) = exchange i j (expiry c).
Proof. unfold heap_swap. by repeat case_match. Qed.

Lemma heap_swap_index c i j :
  index_ok c -> (i < length (expiry c))%nat -> (j < length (expiry c))%nat ->
  index_ok (heap_swap c i j).
Proof.
  intros [Hnd Hix] Hi Hj. split.
  { rewrite heap_swap_expiry. eapply NoDup_Permutation_proper; [by apply exchange_perm|done]. }
  rewrite heap_swap_expiry. intros k p Hk. rewrite lookup_exchange in Hk by done.
  unfold heap_swap. simpl. rewrite !lookup_exchange by done.
  destruct (lookup_lt_is_Some_2 _ _ Hi) as [x Hx], (lookup_lt_is_Some_2 _ _ Hj) as [y Hy].
  assert (exch i j i = j) as -> by (unfold exch; by rewrite decide_True by done).
  assert (exch i j j = i) as -> by (unfold exch; case_decide; [done|by rewrite decide_True by done]).
  rewrite Hx, Hy. simpl.
  destruct (Hix _ _ Hk) as (it & Hit & Hidx). rewrite !lookup_alter.
  assert (forall a b z, expiry c !! a = Some z -> expiry c !! b = Some z -> a = b) as Hinj
    by (intros; by eapply NoDup_lookup).
  unfold exch in Hk, Hidx. destruct (decide (k = i)) as [->|]; [|destruct (decide (k = j)) as [->|]].
  - assert (p = y) as -> by congruence. rewrite (decide_True (P := y = y)), Hit by done.
    destruct (decide (x = y)) as [->|]; [rewrite (Hinj i j y) by done; rewrite decide_True by done|];
      by eexists.
  - assert (p = x) as -> by congruence. rewrite (decide_True (P := x = x)) by done.
    destruct (decide (y = x)) as [->|]; rewrite Hit; by eexists.
  - rewrite !decide_False by (intros ->; naive_solver). eauto.
Qed.

Lemma heap_push_frame c p : frame c (heap_push c p).
Proof. unfold heap_push. eapply frame_trans; [apply frame_set_index|apply frame_set_expiry]. Qed.

Lemma heap_pop_frame c : frame c (heap_pop c).
Proof.
  unfold heap_pop. case_match; [|apply frame_refl].
  eapply frame_trans; [apply frame_set_expiry|apply frame_set_index].
Qed.

Lemma heap_push_index c p :
  index_ok c -> is_Some (mem c !! p) -> p ∉ expiry c -> index_ok (heap_push c p).
Proof.
  intros [Hnd Hix] [it Hit] Hp. unfold heap_push. split; simpl.
  { apply NoDup_app. split; [done|]. split; [|apply NoDup_singleton]. intros q Hq.
    rewrite list_elem_of_singleton. by intros ->. }
  intros i q Hq. rewrite lookup_alter. apply lookup_app_Some in Hq as [Hq|[Hi Hq]].
  - destruct (Hix _ _ Hq) as (it' & -> & ?). rewrite decide_False; [by eexists|].
    intros ->. apply Hp. by eapply list_elem_of_lookup_2.
  - apply list_lookup_singleton_Some in Hq as [? <-]. rewrite decide_True, Hit by done.
    eexists; split; [done|]. simpl. lia.
Qed.

Lemma heap_pop_index c l p : index_ok c -> expiry c = l ++ [p] -> index_ok (heap_pop c) /\ expiry (heap_pop c) = l.
Proof.
  intros [Hnd Hix] E. unfold heap_pop. rewrite E, last_snoc. simpl.
  rewrite removelast_last. rewrite E in Hnd. apply NoDup_app in Hnd as (Hnd & Hnp & _).
  split; [|done]. split; simpl; [done|].
  intros i q Hq. destruct (Hix i q) as (it & Hit & ?).
  { rewrite E. by apply lookup_app_l_Some. }
  rewrite lookup_alter, Hit. rewrite decide_False; [by eexists|]. intros ->.
  apply (Hnp q); [by eapply list_elem_of_lookup_2|by apply list_elem_of_singleton].
Qed.
End Invariant.

(** ** [expiryHeap] satisfies the heap interface *)

Section Instance_.
Context {T : Type}.
Implicit Types c : Cache T.

Lemma heap_less_view c0 c i j x y :
  index_ok c /\ frame c0 c -> heap_view c !! i = Some x -> heap_view c !! j = Some y ->
  heap_less c i j = (x.2 <? y.2).
Proof.
  intros _ Hx Hy. unfold heap_view in *. apply list_lookup_fmap_Some in Hx as (p & -> & Hp).
  apply list_lookup_fmap_Some in Hy as (q & -> & Hq). unfold heap_less. by rewrite Hp, Hq.
Qed.

Lemma heap_swap_laws c0 c i j :
  index_ok c /\ frame c0 c -> (i < length (heap_view c))%nat -> (j < length (heap_view c))%nat ->
  (index_ok (heap_swap c i j) /\ frame c0 (heap_swap c i j)) /\
  heap_view (heap_swap c i j) = exchange i j (heap_view c).
Proof.
  unfold heap_view at 1 2. rewrite !length_fmap. intros [Hix Hf] Hi Hj. split; [split|].
  - by apply heap_swap_index.
  - eapply frame_trans; [done|apply heap_swap_frame].
  - rewrite (heap_view_frame c _ _ (heap_swap_frame c i j) (heap_swap_expiry c i j)).
    apply fmap_exchange.
Qed.

Lemma heap_push_laws c0 c p b :
  index_ok c /\ frame c0 c ->
  is_Some (mem c !! p) /\ (p ∉ expiry c) /\ b = (p, item_expires c p) ->
  (index_ok (heap_push c p) /\ frame c0 (heap_push c p)) /\
  heap_view (heap_push c p) = heap_view c ++ [b].
Proof.
  intros [Hix Hf] (Hm & Hp & ->). split; [split|].
  - by apply heap_push_index.
  - eapply frame_trans; [done|apply heap_push_frame].
  - rewrite (heap_view_frame c _ (expiry c ++ [p]) (heap_push_frame c p)) by done.
    by rewrite fmap_app.
Qed.

Lemma heap_pop_laws c0 c l b :
  index_ok c /\ frame c0 c -> heap_view c = l ++ [b] ->
  (index_ok (heap_pop c) /\ frame c0 (heap_pop c)) /\ heap_view (heap_pop c) = l.
Proof.
  intros [Hix Hf] Hv. unfold heap_view in Hv.
  apply fmap_app_inv in Hv as (k & k2 & -> & Hk2 & E).
  destruct k2 as [|p [|]]; simplify_eq/=.
  destruct (heap_pop_index c k p Hix E) as [Hix' Ek]. split; [split|]; [done| |].
  - eapply frame_trans; [done|apply heap_pop_frame].
  - by rewrite (heap_view_frame c _ k (heap_pop_frame c)).
Qed.

#[export] Instance expiryHeap_laws (c0 : Cache T) : HeapLaws (Cache T) nat (nat * Z) := {
  h_inv c := index_ok c /\ frame c0 c;
  h_view := heap_view;
  h_key := snd;
  h_elem c p b := is_Some (mem c !! p) /\ (p ∉ expiry c) /\ b = (p, item_expires c p);
  h_len_view c := eq_sym (length_fmap _ _);
  h_less_view := heap_less_view c0;
  h_swap_ok := heap_swap_laws c0;
  h_push_ok := heap_push_laws c0;
  h_pop_ok := heap_pop_laws c0;
}.

Lemma expiry_ordered_view c :
  expiry_ordered c <-> heap_upto (key_at (HL := expiryHeap_laws c) (heap_view c)) (length (heap_view c)).
Proof.
  unfold expiry_ordered. assert (length (heap_view c) = length (expiry c)) as -> by apply length_fmap.
  assert (forall i, match expiry c !! i with Some p => item_expires c p | None => 0 end =
    key_at (HL := expiryHeap_laws c) (heap_view c) i) as E.
  { intros i. unfold key_at. simpl. unfold heap_view. rewrite list_lookup_fmap. by destruct (expiry c !! i). }
  split; intros H k Hk; specialize (H k Hk); unfold edge_ok in *; rewrite ?E in *; rewrite ?E; done.
Qed.

Lemma heap_view_fst c : (heap_view c).*1 = expiry c.
Proof.
  unfold heap_view. rewrite <- list_fmap_compose. induction (expiry c); simpl; [done|by f_equal].
Qed.

(** The interface theorems, read back on [Cache]. *)
Lemma Remove_cache c i p :
  index_ok c -> expiry_ordered c -> expiry c !! i = Some p ->
  let c' := Remove c i in
  index_ok c' /\ frame c c' /\ p :: expiry c' ≡ₚ expiry c /\ expiry_ordered c'.
Proof.
  intros Hix Ho Hp. apply expiry_ordered_view in Ho.
  destruct (Remove_spec (HL := expiryHeap_laws c) c i (p, item_expires c p)) as ([Hix' Hf] & Hperm & Ho').
  - split; [done|apply frame_refl].
  - done.
  - simpl. unfold heap_view. by rewrite list_lookup_fmap, Hp.
  - split; [done|]. split; [done|]. split.
    + apply (fmap_Permutation fst) in Hperm. simpl in Hperm. by rewrite !heap_view_fst in Hperm.
    + by apply expiry_ordered_view.
Qed.

Lemma Push_cache c p :
  index_ok c -> expiry_ordered c -> is_Some (mem c !! p) -> p ∉ expiry c ->
  let c' := Push c p in
  index_ok c' /\ frame c c' /\ expiry c' ≡ₚ p :: expiry c /\ expiry_ordered c'.
Proof.
  intros Hix Ho Hm Hp. apply expiry_ordered_view in Ho.
  destruct (Push_spec (HL := expiryHeap_laws c) c p (p, item_expires c p)) as ([Hix' Hf] & Hperm & Ho').
  - split; [done|apply frame_refl].
  - done.
  - done.
  - split; [done|]. split; [done|]. split.
    + apply (fmap_Permutation fst) in Hperm. simpl in Hperm. by rewrite !heap_view_fst in Hperm.
    + by apply expiry_ordered_view.
Qed.

(** [Fix] after the item at position [i] alone changed its expiry. *)
Lemma Fix_cache c0 c i p :
  index_ok c -> expiry_ordered c0 -> expiry c = expiry c0 -> expiry c !! i = Some p ->
  (forall q, q <> p -> item_expires c q = item_expires c0 q) ->
  let c' := Fix c i in
  index_ok c' /\ frame c c' /\ expiry c' ≡ₚ expiry c /\ expiry_ordered c'.
Proof.
  intros Hix Ho Ee Hp Hq. pose proof (lookup_lt_Some _ _ _ Hp) as Hi.
  assert (length (heap_view c) = length (expiry c)) as Hl by apply length_fmap.
  destruct (Fix_spec (HL := expiryHeap_laws c) c i) as ([Hix' Hf] & Hperm & Ho').
  - split; [done|apply frame_refl].
  - simpl. by rewrite Hl.
  - simpl. apply expiry_ordered_view in Ho. eapply heap_change_down_pre.
    { rewrite Hl, Ee. unfold heap_view in Ho at 2. rewrite length_fmap in Ho. exact Ho. }
    intros k Hk Hki. unfold key_at. simpl. unfold heap_view. rewrite !list_lookup_fmap, <- Ee.
    destruct (expiry c !! k) eqn:E; simpl; [|done]. apply Hq. intros ->.
    destruct Hix as [Hnd _]. apply Hki. by eapply NoDup_lookup.
  - split; [done|]. split; [done|]. split.
    + apply (fmap_Permutation fst) in Hperm. simpl in Hperm. by rewrite !heap_view_fst in Hperm.
    + by apply expiry_ordered_view.
Qed.

Lemma expiry_root_min c p q :
  expiry_ordered c -> expiry c !! 0%nat = Some p -> q ∈ expiry c -> item_expires c p <= item_expires c q.
Proof.
  intros Ho Hp Hq. apply expiry_ordered_view in Ho.
  apply (heap_root_min (HL := expiryHeap_laws c) c (p, item_expires c p) (q, item_expires c q)).
  - done.
  - simpl. unfold heap_view. by rewrite list_lookup_fmap, Hp.
  - simpl. unfold heap_view. apply list_elem_of_fmap. eauto.
Qed.
End Instance_.

(** ** Facts shared by the operations *)

Section Shared.
Context {T : Type}.
Implicit Types c : Cache T.

Lemma mem_key c p : key <$> mem c !! p = e_key <$> lookup_entry c p.
Proof. unfold lookup_entry. by destruct (mem c !! p). Qed.

Lemma frame_mem c c' p : frame c c' -> is_Some (mem c' !! p) <-> is_Some (mem c !! p).
Proof.
  intros Hf. pose proof (fr_items _ _ Hf p) as E. unfold lookup_entry in E.
  destruct (mem c !! p), (mem c' !! p); try discriminate; split; eauto.
Qed.

Lemma frame_key c c' p : frame c c' -> key <$> mem c' !! p = key <$> mem c !! p.
Proof. intros Hf. by rewrite !mem_key, (fr_items _ _ Hf). Qed.

Lemma list_del_perm p (l : list nat) : NoDup l -> p ∈ l -> l ≡ₚ p :: list_del p l.
Proof.
  intros Hnd Hp. apply NoDup_Permutation; [done| |].
  - apply NoDup_cons. split; [|by apply NoDup_filter]. unfold list_del.
    rewrite list_elem_of_filter. naive_solver.
  - intros q. unfold list_del. rewrite elem_of_cons, list_elem_of_filter.
    destruct (decide (q = p)); naive_solver.
Qed.

Lemma omap_cons_some {A B} (f : A -> option B) x y l :
  f x = Some y -> omap f (x :: l) = y :: omap f l.
Proof. intros H. simpl. by rewrite H. Qed.

Lemma lookup_entry_live c p it : mem c !! p = Some it -> lookup_entry c p = Some (item_entry it).
Proof. unfold lookup_entry. by intros ->. Qed.

(** Deleting a pointer deletes the entry with its key, and no other. *)
Lemma omap_list_del (f : nat -> option (entry T)) p k l :
  (forall q, q ∈ l -> exists e, f q = Some e /\ (e_key e = k <-> q = p)) ->
  omap f (list_del p l) = lru_del k (omap f l).
Proof.
  unfold list_del, lru_del. induction l as [|q l IH]; intros Hl; [done|].
  rewrite filter_cons. destruct (Hl q) as (e & He & Hk); [left|].
  rewrite (omap_cons_some f q e) by done. rewrite filter_cons. specialize (IH (fun q' Hq' => Hl q' (list_elem_of_further _ _ _ Hq'))).
  repeat case_decide; try rewrite (omap_cons_some f q e) by done; try (exfalso; tauto); [by f_equal|done].
Qed.

Section Wf.
Context (c : Cache T) (Hwf : wf c).

Lemma wf_live p : p ∈ order c -> exists it, mem c !! p = Some it /\ entries c !! key it = Some p.
Proof using Hwf.
  intros Hp. assert (p ∈ expiry c) as He by (by rewrite (wf_perm _ Hwf)).
  apply list_elem_of_lookup in He as [i Hi]. destruct (wf_index _ Hwf) as [_ Hix].
  destruct (Hix _ _ Hi) as (it & Hit & _). exists it. split; [done|].
  apply (wf_entries _ Hwf). by rewrite Hit.
Qed.

Lemma wf_entry_order k p : entries c !! k = Some p -> p ∈ order c.
Proof using Hwf. intros Hk. by apply (wf_entries _ Hwf) in Hk as [? _]. Qed.

Lemma wf_entry_item k p :
  entries c !! k = Some p -> exists it, mem c !! p = Some it /\ key it = k.
Proof using Hwf.
  intros Hk. apply (wf_entries _ Hwf) in Hk as [_ Hk].
  destruct (mem c !! p) as [it|]; simplify_eq/=. eauto.
Qed.

Lemma wf_key_inj p q it iq :
  p ∈ order c -> q ∈ order c -> mem c !! p = Some it -> mem c !! q = Some iq ->
  key it = key iq -> p = q.
Proof using Hwf.
  intros Hp Hq Hit Hiq E.
  assert (entries c !! key it = Some p) as E1 by (apply (wf_entries _ Hwf); by rewrite Hit).
  assert (entries c !! key it = Some q) as E2 by (apply (wf_entries _ Hwf); by rewrite Hiq, E).
  congruence.
Qed.

Lemma wf_del_entry p it :
  p ∈ order c -> mem c !! p = Some it ->
  omap (lookup_entry c) (list_del p (order c)) = lru_del (key it) (represents c).
Proof using Hwf.
  intros Hp Hit. apply omap_list_del. intros q Hq. destruct (wf_live q Hq) as (iq & Hiq & _).
  exists (item_entry iq). unfold lookup_entry. rewrite Hiq. split; [done|]. simpl. split.
  - intros E. by eapply wf_key_inj.
  - intros ->. congruence.
Qed.

(** The map lookup finds the entry the specification finds. *)
Lemma represents_find k :
  lru_find k (represents c) = (p ← entries c !! k; lookup_entry c p).
Proof using Hwf.
  unfold represents, lru_find.
  assert (forall l, (forall q, q ∈ l -> q ∈ order c) ->
    List.find (fun e => bool_decide (e_key e = k)) (omap (lookup_entry c) l) =
    (p ← entries c !! k; if decide (p ∈ l) then lookup_entry c p else None)) as Hgen.
  { induction l as [|q l IH]; intros Hl; [by destruct (entries c !! k)|].
    destruct (wf_live q (Hl q (list_elem_of_here _ _))) as (iq & Hiq & Hkq).
    rewrite (omap_cons_some _ _ _ _ (lookup_entry_live _ _ _ Hiq)). cbn [List.find].
    rewrite IH by (intros q' Hq'; apply Hl; by right).
    case_bool_decide as E; simpl in E.
    - rewrite <- E, Hkq. simpl. rewrite decide_True by left. by rewrite (lookup_entry_live _ _ _ Hiq).
    - destruct (entries c !! k) as [p|] eqn:Ek; simpl; [|done].
      assert (p <> q) by (intros ->; destruct (wf_entry_item _ _ Ek) as (? & ? & ?); simplify_eq/=).
      repeat case_decide; try done; exfalso; rewrite elem_of_cons in *; tauto. }
  rewrite Hgen by done. destruct (entries c !! k) as [p|] eqn:Ek; simpl; [|done].
  by rewrite decide_True by (by eapply wf_entry_order).
Qed.

Lemma represents_length : len (represents c) = len (order c).
Proof using Hwf.
  unfold represents, len. f_equal.
  assert (forall l, (forall q, q ∈ l -> q ∈ order c) -> length (omap (lookup_entry c) l) = length l) as Hgen.
  { induction l as [|q l IH]; intros Hl; [done|].
    destruct (wf_live q (Hl q (list_elem_of_here _ _))) as (iq & Hiq & _).
    rewrite (omap_cons_some _ _ _ _ (lookup_entry_live _ _ _ Hiq)).
    simpl. f_equal. apply IH. intros. apply Hl. by right. }
  by apply Hgen.
Qed.
End Wf.
End Shared.
