(* ===== verification/CacheRefine.v ===== *)
(** * core.Cache refines the LRU specification

    For every operation of [Cache.v]: the representation invariant [wf] is
    preserved, the returned value is the specification's, and the represented
    list changes exactly as the specification says. *)
From S2P Require Import Prelude Heap Cache.

(** ** Sequences of calls *)

(** A call with the clock reading it sees. *)
Inductive op (T : Type) :=
| OGet (now : Z) (k : string)
| OSet (now now' : Z) (k : string) (v : T)
| OSetUntil (now : Z) (k : string) (v : T) (e : Z)
| ODelete (k : string)
| OClear.
Arguments OGet {T}. Arguments OSet {T}. Arguments OSetUntil {T}.
Arguments ODelete {T}. Arguments OClear {T}.

Definition cache_step {T} (o : op T) (c : Cache T) : option T * Cache T :=
  match o with
  | OGet now k => Get now k c
  | OSet now now' k v => (None, Set_ now now' k v c)
  | OSetUntil now k v e => (None, SetUntil now k v e c)
  | ODelete k => (None, Delete k c)
  | OClear => (None, Clear c)
  end.

Fixpoint cache_run {T} (os : list (op T)) (c : Cache T) : list (option T) * Cache T :=
  match os with
  | [] => ([], c)
  | o :: os => let '(r, c) := cache_step o c in
               let '(rs, c) := cache_run os c in (r :: rs, c)
  end.

(** The same calls on the specification: the capacity and the default
    lifetime are constants of the cache. *)
Definition lru_step {T} (cap ttl : Z) (o : op T) (l : list (entry T)) : option T * list (entry T) :=
  match o with
  | OGet now k => lru_get now k l
  | OSet now now' k v => (None, lru_set_until cap now' k v (now + ttl) l)
  | OSetUntil now k v e => (None, lru_set_until cap now k v e l)
  | ODelete k => (None, lru_del k l)
  | OClear => (None, [])
  end.

Fixpoint lru_run {T} (cap ttl : Z) (os : list (op T)) (l : list (entry T)) :
    list (option T) * list (entry T) :=
  match os with
  | [] => ([], l)
  | o :: os => let '(r, l) := lru_step cap ttl o l in
               let '(rs, l) := lru_run cap ttl os l in (r :: rs, l)
  end.

Section Operations.
Context {T : Type}.
Implicit Types c : Cache T.

Lemma item_expires_live c p it : mem c !! p = Some it -> item_expires c p = expires it.
Proof. unfold item_expires. by intros ->. Qed.

(** ** [remove] *)

Lemma remove_spec c p it :
  wf c -> p ∈ order c -> mem c !! p = Some it ->
  wf (remove p c) /\ represents (remove p c) = lru_del (key it) (represents c) /\
  p :: expiry (remove p c) ≡ₚ expiry c /\
  capacity (remove p c) = capacity c /\ ttl (remove p c) = ttl c.
Proof.
  intros Hwf Hp Hit. unfold remove. rewrite Hit.
  assert (exists i, expiry c !! i = Some p) as [i Hi].
  { apply list_elem_of_lookup. by rewrite (wf_perm _ Hwf). }
  destruct (wf_index _ Hwf) as [_ Hix]. destruct (Hix _ _ Hi) as (it' & Hit' & Hidx). simplify_eq.
  rewrite Hidx, Nat2Z.id.
  destruct (Remove_cache c i p (wf_index _ Hwf) (wf_heap _ Hwf) Hi) as (Hix' & Hf & Hperm & Ho).
  set (c1 := Remove c i) in *. cbn [set_order entries]. rewrite (fr_order _ _ Hf), (fr_entries _ _ Hf).
  assert (represents (set_entries (delete (key it) (entries c)) (set_order (list_del p (order c)) c1)) =
          lru_del (key it) (represents c)) as Hrep.
  { rewrite <- (wf_del_entry c Hwf p it Hp Hit). unfold represents. simpl.
    apply list_omap_ext. induction (list_del p (order c)); constructor; [|done].
    apply (fr_items _ _ Hf). }
  split; [|split; [exact Hrep|split; [done|split; [apply Hf|apply Hf]]]].
  assert (expiry c1 ≡ₚ list_del p (order c)) as Hperm'.
  { apply (Permutation_cons_inv (a := p)). rewrite Hperm, (wf_perm _ Hwf).
    apply list_del_perm; [apply Hwf|done]. }
  assert (length (order c) = S (length (list_del p (order c)))) as Hlen.
  { rewrite (list_del_perm p (order c)) at 1; [done|apply Hwf|done]. }
  constructor; simpl; try done.
  - apply NoDup_filter, Hwf.
  - intros k q. rewrite lookup_delete_Some, (frame_key _ _ _ Hf), (wf_entries _ Hwf).
    unfold list_del. rewrite list_elem_of_filter. split.
    + intros (Hne & Hq & Hk). split; [|done]. split; [|done]. intros ->.
      rewrite Hit in Hk. simpl in Hk. congruence.
    + intros ((Hqp & Hq) & Hk). split; [|done]. intros <-. apply Hqp.
      destruct (mem c !! q) as [iq|] eqn:Eq; simplify_eq/=. by eapply (wf_key_inj c Hwf q p).
  - rewrite map_size_delete. rewrite (wf_size _ Hwf).
    rewrite (proj2 (wf_entries _ Hwf (key it) p)) by (by rewrite Hit). lia.
  - intros q Hq. rewrite (fr_next _ _ Hf). apply (wf_next _ Hwf). by apply (frame_mem _ _ _ Hf).
  - rewrite (fr_capacity _ _ Hf). apply Hwf.
  - rewrite (fr_capacity _ _ Hf). pose proof (wf_bound _ Hwf). unfold len in *. lia.
Qed.

Lemma remove_entry c k p :
  wf c -> entries c !! k = Some p ->
  wf (remove p c) /\ represents (remove p c) = lru_del k (represents c) /\
  capacity (remove p c) = capacity c /\ ttl (remove p c) = ttl c.
Proof.
  intros Hwf Hk. destruct (wf_entry_item c Hwf k p Hk) as (it & Hit & <-).
  destruct (remove_spec c p it Hwf (wf_entry_order c Hwf _ _ Hk) Hit) as (? & ? & _ & ? & ?). done.
Qed.

(** ** [MoveToFront] *)

Lemma move_to_front_spec c p it :
  wf c -> p ∈ order c -> mem c !! p = Some it ->
  wf (move_to_front p c) /\
  represents (move_to_front p c) = item_entry it :: lru_del (key it) (represents c).
Proof.
  intros Hwf Hp Hit. pose proof (list_del_perm p _ (wf_order _ Hwf) Hp) as Hperm. split.
  - constructor; simpl; try apply Hwf.
    + rewrite <- Hperm. apply Hwf.
    + rewrite <- Hperm. apply Hwf.
    + intros k q. rewrite (wf_entries _ Hwf). by rewrite <- Hperm.
    + rewrite (wf_size _ Hwf). by rewrite Hperm at 1.
    + pose proof (wf_bound _ Hwf). unfold len in *. by rewrite <- Hperm.
  - unfold represents at 1. simpl order.
    rewrite (omap_cons_some _ _ (item_entry it)) by (by apply lookup_entry_live).
    f_equal. apply (wf_del_entry c Hwf p it Hp Hit).
Qed.

(** ** The purge loop *)

Lemma lru_purge_del now k (l : list (entry T)) e :
  lru_find k l = Some e -> NoDup (e_key <$> l) -> e_expires e <= now ->
  lru_purge now (lru_del k l) = lru_purge now l.
Proof.
  unfold lru_purge, lru_del, lru_find. induction l as [|e' l IH]; simpl; intros Hf Hnd He; [done|].
  apply NoDup_cons in Hnd as [Hni Hnd]. rewrite filter_cons. case_bool_decide as Ek.
  - injection Hf as ->. rewrite decide_False by tauto. rewrite (filter_cons (fun e => now < e_expires e)).
    rewrite decide_False by lia. f_equal.
    assert (forall x, x ∈ l -> e_key x <> k) as Hall.
    { intros x Hx <-. apply Hni. rewrite Ek. by apply list_elem_of_fmap_2. }
    clear IH Hni Hnd. induction l as [|x l IH]; [done|]. rewrite filter_cons.
    rewrite decide_True by (apply Hall; left). f_equal. apply IH. intros y Hy. apply Hall. by right.
  - rewrite decide_True by done. rewrite !(filter_cons (fun e => now < e_expires e)).
    rewrite IH by done. done.
Qed.

Lemma represents_keys_NoDup c : wf c -> NoDup (e_key <$> represents c).
Proof.
  intros Hwf. unfold represents.
  assert (forall l, NoDup l -> (forall q, q ∈ l -> q ∈ order c) ->
    NoDup (e_key <$> omap (lookup_entry c) l) /\
    forall k, k ∈ e_key <$> omap (lookup_entry c) l -> exists q, q ∈ l /\ entries c !! k = Some q) as Hgen.
  { induction l as [|q l IH]; intros Hnd Hl.
    { split; [constructor|]. intros k Hk. by apply elem_of_nil in Hk. }
    apply NoDup_cons in Hnd as [Hq Hnd].
    destruct (IH Hnd) as [IH1 IH2]; [intros; apply Hl; by right|].
    destruct (wf_live c Hwf q (Hl q (list_elem_of_here _ _))) as (iq & Hiq & Hkq).
    rewrite (omap_cons_some _ _ _ _ (lookup_entry_live _ _ _ Hiq)). simpl. split.
    - apply NoDup_cons. split; [|done]. intros Hin. destruct (IH2 _ Hin) as (q' & Hq' & Hk'). congruence.
    - intros k Hk. apply elem_of_cons in Hk as [->|Hk]; [exists q; split; [left|done]|].
      destruct (IH2 _ Hk) as (q' & ? & ?). exists q'. split; [by right|done]. }
  by apply Hgen; [apply Hwf|].
Qed.

Lemma lru_purge_all now (l : list (entry T)) :
  (forall e, e ∈ l -> now < e_expires e) -> lru_purge now l = l.
Proof. apply filter_all. Qed.

Lemma represents_elem c e :
  wf c -> e ∈ represents c -> exists p it, p ∈ order c /\ mem c !! p = Some it /\ e = item_entry it.
Proof.
  intros Hwf He. unfold represents in He. apply list_elem_of_omap in He as (p & Hp & He).
  destruct (wf_live c Hwf p Hp) as (it & Hit & _). rewrite (lookup_entry_live _ _ _ Hit) in He.
  injection He as <-. eauto.
Qed.

(** The loop stops after at most one iteration per entry, and removes
    exactly the expired entries. *)
Lemma purge_spec fuel now c :
  wf c -> (length (expiry c) <= fuel)%nat ->
  wf (purge fuel now c) /\ represents (purge fuel now c) = lru_purge now (represents c) /\
  capacity (purge fuel now c) = capacity c /\ ttl (purge fuel now c) = ttl c.
Proof.
  revert c. induction fuel as [|fuel IH]; intros c Hwf Hfuel; simpl.
  - assert (expiry c = []) as E by (apply nil_length_inv; lia). split; [done|]. split; [|done].
    pose proof (wf_perm _ Hwf) as Hp. rewrite E in Hp. apply Permutation_nil_l in Hp.
    unfold represents. by rewrite <- Hp.
  - destruct (expiry c) as [|p l] eqn:E.
    + split; [done|]. split; [|done].
      pose proof (wf_perm _ Hwf) as Hp. rewrite E in Hp. apply Permutation_nil_l in Hp.
      unfold represents. by rewrite <- Hp.
    + assert (p ∈ order c) as Hp by (rewrite <- (wf_perm _ Hwf), E; left).
      destruct (wf_live c Hwf p Hp) as (it & Hit & Hk).
      rewrite (item_expires_live _ _ _ Hit). destruct (Z.ltb_spec now (expires it)) as [Hlt|Hge]; simpl.
      * split; [done|]. split; [|done]. symmetry. apply lru_purge_all. intros e He.
        destruct (represents_elem c e Hwf He) as (q & iq & Hq & Hiq & ->). simpl.
        pose proof (expiry_root_min c p q (wf_heap _ Hwf)) as Hmin. rewrite E in Hmin.
        specialize (Hmin eq_refl). rewrite <- E, (wf_perm _ Hwf) in Hmin. specialize (Hmin Hq).
        rewrite (item_expires_live _ _ _ Hit), (item_expires_live _ _ _ Hiq) in Hmin. lia.
      * destruct (remove_spec c p it Hwf Hp Hit) as (Hwf' & Hr & Hperm & Hcap & Httl).
        destruct (IH (remove p c) Hwf') as (? & Hr2 & Hcap2 & Httl2).
        { apply Permutation_length in Hperm. rewrite E in Hperm. simpl in *. lia. }
        split; [done|]. split; [|split; congruence]. rewrite Hr2, Hr.
        eapply (lru_purge_del _ _ _ (item_entry it)); [|by apply represents_keys_NoDup|done].
        rewrite (represents_find c Hwf), Hk. simpl. by apply lookup_entry_live.
Qed.

(** ** [SetUntil] *)

Lemma lru_find_none_del k (l : list (entry T)) : lru_find k l = None -> lru_del k l = l.
Proof.
  unfold lru_find, lru_del. induction l as [|e l IH]; simpl; [done|].
  case_bool_decide; [done|]. intros Hf. rewrite filter_cons, decide_True by done. f_equal. auto.
Qed.

Lemma lru_find_del_none k k' (l : list (entry T)) :
  lru_find k l = None -> lru_find k (lru_del k' l) = None.
Proof.
  unfold lru_find, lru_del. induction l as [|e l IH]; simpl; [done|].
  case_bool_decide; [done|]. intros Hf. rewrite filter_cons. case_decide; simpl; auto.
  by rewrite bool_decide_false by done; auto.
Qed.

(** Pointers whose items agree represent the same entries. *)
Lemma represents_agree (c1 c : Cache T) p (l : list nat) : (forall q, q <> p -> mem c1 !! q = mem c !! q) -> (forall q, q ∈ l -> q <> p) ->
  omap (lookup_entry c1) l = omap (lookup_entry c) l.
Proof.
  intros Hm. induction l as [|q l IH]; intros Hl; [done|]. cbn.
  assert (lookup_entry c1 q = lookup_entry c q) as -> by (unfold lookup_entry; rewrite Hm; [done|]; apply Hl; left).
  rewrite IH; [done|]. intros. apply Hl. by right.
Qed.

(** A new item leaves the positions and the order of the heap. *)
Lemma fresh_heap (c1 c : Cache T) p : wf c -> expiry c1 = expiry c -> (forall q, q ∈ order c -> q <> p) ->
  (forall q, q <> p -> mem c1 !! q = mem c !! q) -> index_ok c1 /\ expiry_ordered c1.
Proof.
  intros Hwf He Hne Hm. assert (forall q, q ∈ expiry c -> mem c1 !! q = mem c !! q) as Hq.
  { intros q Hq. apply Hm, Hne. by rewrite <- (wf_perm _ Hwf). }
  split.
  - destruct (wf_index _ Hwf) as [Hnd Hix]. split; [by rewrite He|]. intros i q. rewrite He. intros Hi.
    rewrite Hq by (by eapply list_elem_of_lookup_2). by apply Hix.
  - unfold expiry_ordered. rewrite He. eapply heap_upto_ext; [|apply (wf_heap _ Hwf)]. intros i Hi. cbn.
    destruct (expiry c !! i) as [q|] eqn:Eq; [|done]. unfold item_expires. rewrite Hq; [done|]. by eapply list_elem_of_lookup_2.
Qed.

Lemma insert_new_spec k v e c :
  wf c -> entries c !! k = None -> len (order c) < capacity c ->
  wf (insert_new k v e c) /\
  represents (insert_new k v e c) = Entry k v e :: represents c /\
  capacity (insert_new k v e c) = capacity c /\ ttl (insert_new k v e c) = ttl c.
Proof.
  intros Hwf Hk Hcap. unfold insert_new.
  set (p := next c). cbn [set_entries entries].
  set (c1 := set_entries _ _).
  assert (mem c !! p = None) as Hfresh.
  { apply eq_None_not_Some. intros H. apply (wf_next _ Hwf) in H. unfold p in H. lia. }
  assert (forall q, q ∈ order c -> q <> p) as Hne.
  { intros q Hq ->. destruct (wf_live c Hwf p Hq) as (it & Hit & _). congruence. }
  assert (forall q, q <> p -> mem c1 !! q = mem c !! q) as Hm1.
  { intros q Hq. unfold c1. simpl. by rewrite lookup_insert_ne. }
  assert (mem c1 !! p = Some (CacheItem k v e 0)) as Hmp by apply lookup_insert_eq.
  destruct (fresh_heap c1 c p Hwf eq_refl Hne Hm1) as [Hix1 Ho1].
  assert (p ∉ expiry c1) as Hpe.
  { simpl. rewrite (wf_perm _ Hwf). intros Hp. by apply (Hne p). }
  destruct (Push_cache c1 p Hix1 Ho1 (mk_is_Some _ _ Hmp) Hpe) as (Hix & Hf & Hperm & Ho).
  set (c2 := Push c1 p) in *.
  split; [|split; [|split; [apply Hf|apply Hf]]].
  - constructor; try done.
    + rewrite (fr_order _ _ Hf). simpl. apply NoDup_cons. split; [|apply Hwf].
      intros Hp. by apply (Hne p).
    + rewrite Hperm, (fr_order _ _ Hf). simpl. by rewrite (wf_perm _ Hwf).
    + intros k' q. rewrite (fr_entries _ _ Hf), (fr_order _ _ Hf), (frame_key _ _ _ Hf). simpl order.
      rewrite elem_of_cons. unfold c1 at 1. cbn [set_entries entries].
      destruct (decide (q = p)) as [->|Hqp].
      * rewrite Hmp. simpl. rewrite lookup_insert_Some. split; [|intros [_ [= E]]; by left].
        intros [[<- _]|[_ H]]; [by split; [left|]|]. exfalso. apply (Hne p); [|done]. by apply (wf_entry_order c Hwf k').
      * rewrite (Hm1 q Hqp), lookup_insert_Some, (wf_entries _ Hwf). split; [naive_solver|].
        intros [[?|Hq] Hkq]; [done|]. right. split; [|done]. intros <-.
        assert (entries c !! k = Some q) as ? by (by apply (wf_entries _ Hwf)). congruence.
    + rewrite (fr_entries _ _ Hf), (fr_order _ _ Hf). unfold c1. cbn [set_entries entries order].
      rewrite map_size_insert_None by done. simpl. by rewrite (wf_size _ Hwf).
    + intros q Hq. rewrite (fr_next _ _ Hf). apply (frame_mem _ _ _ Hf) in Hq. simpl.
      destruct (decide (q = p)) as [->|Hqp]; [unfold p; lia|].
      rewrite Hm1 in Hq by done. apply (wf_next _ Hwf) in Hq. lia.
    + rewrite (fr_capacity _ _ Hf). apply (wf_capacity _ Hwf).
    + rewrite (fr_capacity _ _ Hf), (fr_order _ _ Hf). simpl order. simpl capacity.
      rewrite len_cons. lia.
  - rewrite (frame_represents _ _ Hf). unfold represents at 1. cbn [c1 set_entries order].
    rewrite (omap_cons_some _ _ (Entry k v e)) by (unfold lookup_entry; by rewrite Hmp).
    f_equal. by apply (represents_agree c1 c p).
Qed.

(** Overwriting an entry in place: the heap position is still valid, only its
    order must be repaired. *)
Definition overwrite (v : T) (e : Z) (p : nat) (c : Cache T) : Cache T :=
  move_to_front p (set_mem (alter (with_value v e) p (mem c)) c).

Lemma overwrite_mem v e p c q :
  mem (overwrite v e p c) !! q = if decide (p = q) then with_value v e <$> mem c !! q else mem c !! q.
Proof. unfold overwrite. simpl. rewrite lookup_alter. repeat case_decide; by subst. Qed.

Lemma overwrite_represents v e p c it :
  wf c -> p ∈ order c -> mem c !! p = Some it ->
  represents (overwrite v e p c) = Entry (key it) v e :: lru_del (key it) (represents c).
Proof.
  intros Hwf Hp Hit. unfold represents at 1. change (order (overwrite v e p c)) with (p :: list_del p (order c)).
  rewrite (omap_cons_some _ _ (Entry (key it) v e)).
  2: { unfold lookup_entry. rewrite overwrite_mem, decide_True, Hit by done. done. }
  f_equal. rewrite <- (wf_del_entry c Hwf p it Hp Hit). apply list_omap_ext.
  assert (forall q, q ∈ list_del p (order c) -> p <> q) as Hne.
  { intros q Hq. apply list_elem_of_filter in Hq as [? _]. done. }
  induction (list_del p (order c)) as [|q l IH]; constructor.
  - unfold lookup_entry. rewrite overwrite_mem, decide_False; [done|]. apply Hne. left.
  - apply IH. intros. apply Hne. by right.
Qed.

Lemma overwrite_key v e p c q : key <$> mem (overwrite v e p c) !! q = key <$> mem c !! q.
Proof. rewrite overwrite_mem. case_decide; [|done]. by destruct (mem c !! q). Qed.

Lemma overwrite_index v e p c : wf c -> index_ok (overwrite v e p c).
Proof.
  intros Hwf. destruct (wf_index _ Hwf) as [Hnd Hix]. split; [done|]. intros i q Hq.
  destruct (Hix i q Hq) as (it & Hit & ?). rewrite overwrite_mem, Hit. case_decide; by eexists.
Qed.

Lemma overwrite_expires v e p c q : q <> p -> item_expires (overwrite v e p c) q = item_expires c q.
Proof. intros Hq. unfold item_expires. by rewrite overwrite_mem, decide_False by done. Qed.

Lemma update_spec k v e c p :
  wf c -> entries c !! k = Some p ->
  let c' := overwrite v e p c in
  exists it, mem c' !! p = Some it /\
    let c'' := Fix c' (Z.to_nat (expiryIndex it)) in
    wf c'' /\ represents c'' = Entry k v e :: lru_del k (represents c) /\
    capacity c'' = capacity c /\ ttl c'' = ttl c.
Proof.
  intros Hwf Hk. set (c' := overwrite v e p c).
  pose proof (wf_entry_order c Hwf _ _ Hk) as Hp.
  destruct (wf_entry_item c Hwf _ _ Hk) as (it & Hit & <-).
  exists (with_value v e it). split.
  { unfold c'. by rewrite overwrite_mem, decide_True, Hit by done. }
  assert (exists i, expiry c !! i = Some p) as [i Hi].
  { apply list_elem_of_lookup. by rewrite (wf_perm _ Hwf). }
  destruct (wf_index _ Hwf) as [_ Hix]. destruct (Hix _ _ Hi) as (it' & Hit' & Hidx). simplify_eq.
  cbn [with_value expiryIndex]. rewrite Hidx, Nat2Z.id.
  destruct (Fix_cache c c' i p) as (Hix' & Hf & Hperm & Ho);
    [by apply overwrite_index|apply Hwf|done|done|intros; by apply overwrite_expires|].
  set (c'' := Fix c' i) in *.
  assert (order c ≡ₚ order c'') as Hord.
  { rewrite (fr_order _ _ Hf). apply (list_del_perm p); [apply Hwf|done]. }
  cbn zeta. split; [|split; [|split; [apply Hf|apply Hf]]].
  - constructor; try done.
    + rewrite <- Hord. apply Hwf.
    + rewrite Hperm, <- Hord. apply Hwf.
    + intros k q. rewrite (fr_entries _ _ Hf), <- Hord, (frame_key _ _ _ Hf).
      unfold c'. rewrite overwrite_key. apply (wf_entries _ Hwf).
    + rewrite (fr_entries _ _ Hf), <- Hord. apply (wf_size _ Hwf).
    + intros q Hq. rewrite (fr_next _ _ Hf). apply (wf_next _ Hwf). apply (frame_mem _ _ _ Hf) in Hq.
      unfold c' in Hq. rewrite overwrite_mem in Hq. case_decide; [|done]. by rewrite fmap_is_Some in Hq.
    + rewrite (fr_capacity _ _ Hf). apply Hwf.
    + rewrite (fr_capacity _ _ Hf). pose proof (wf_bound _ Hwf). unfold len in *. by rewrite <- Hord.
  - rewrite (frame_represents _ _ Hf). by apply overwrite_represents.
Qed.

(** Removing the back of the recency list drops the last entry. *)
Lemma evict_spec c p :
  wf c -> last (order c) = Some p ->
  wf (remove p c) /\ represents (remove p c) = removelast (represents c) /\
  capacity (remove p c) = capacity c /\ ttl (remove p c) = ttl c /\
  len (order (remove p c)) = len (order c) - 1.
Proof.
  intros Hwf Hlast. apply last_Some in Hlast as [l Hl].
  assert (p ∈ order c) as Hp by (rewrite Hl; apply elem_of_app; right; by left).
  destruct (wf_live c Hwf p Hp) as (it & Hit & Hk).
  destruct (remove_spec c p it Hwf Hp Hit) as (Hwf' & Hr & Hperm & Hcap & Httl).
  split; [done|]. split; [|split; [done|split; [done|]]].
  - rewrite Hr, <- (wf_del_entry c Hwf p it Hp Hit). unfold represents. rewrite Hl.
    pose proof (wf_order _ Hwf) as Hnd. rewrite Hl in Hnd. apply NoDup_app in Hnd as (_ & Hnp & _).
    assert (list_del p (l ++ [p]) = l) as ->.
    { unfold list_del. rewrite filter_app. rewrite filter_cons_False by tauto.
      rewrite filter_nil, app_nil_r. apply filter_all. intros q Hq ->.
      apply (Hnp p Hq). by left. }
    rewrite omap_app. rewrite (omap_cons_some _ _ (item_entry it)) by (by apply lookup_entry_live).
    simpl. by rewrite removelast_last.
  - rewrite (wf_perm _ Hwf), (wf_perm _ Hwf') in Hperm. apply Permutation_length in Hperm.
    simpl in Hperm. unfold len. lia.
Qed.

Lemma SetUntil_spec now k v e c :
  wf c -> wf (SetUntil now k v e c) /\
  represents (SetUntil now k v e c) = lru_set_until (capacity c) now k v e (represents c) /\
  capacity (SetUntil now k v e c) = capacity c /\ ttl (SetUntil now k v e c) = ttl c.
Proof.
  intros Hwf0. unfold SetUntil, lru_set_until.
  destruct (purge_spec (length (expiry c)) now c Hwf0) as (Hwf & Hr & Hcap & Httl); [done|].
  rewrite <- Hr, <- Hcap, <- Httl. generalize dependent (purge (length (expiry c)) now c).
  intros c1 Hwf _ _ _. clear c Hwf0. rename c1 into c. rewrite Z.ltb_antisym, negb_involutive.
  destruct (e <=? now).
  { destruct (entries c !! k) as [p|] eqn:Ek; [by apply remove_entry|].
    split; [done|]. split; [|done]. symmetry. apply lru_find_none_del.
    by rewrite (represents_find c Hwf), Ek. }
  rewrite (represents_find c Hwf). destruct (entries c !! k) as [p|] eqn:Ek; simpl.
  - destruct (wf_entry_item c Hwf _ _ Ek) as (it & Hit & Hkey).
    rewrite (lookup_entry_live _ _ _ Hit). fold (overwrite v e p c).
    destruct (update_spec k v e c p Hwf Ek) as (it' & Hit' & ? & ? & ? & ?).
    change (alter (with_value v e) p (mem c) !! p) with (mem (overwrite v e p c) !! p).
    by rewrite Hit'.
  - rewrite (represents_length c Hwf). rewrite (wf_size _ Hwf). fold (len (order c)).
    destruct (Z.leb_spec (capacity c) (len (order c))) as [Hfull|Hroom].
    + destruct (last (order c)) as [p|] eqn:El.
      2: { apply last_None in El. rewrite El in Hfull. pose proof (wf_capacity _ Hwf).
           rewrite len_nil in Hfull. lia. }
      destruct (evict_spec c p Hwf El) as (Hwf' & Hr' & Hcap' & Httl' & Hlen').
      pose proof (wf_bound _ Hwf).
      destruct (insert_new_spec k v e (remove p c) Hwf') as (? & Hr2 & ? & ?).
      * assert (p ∈ order c) as Hp by (by apply last_Some_elem_of).
        destruct (entries (remove p c) !! k) as [q|] eqn:Eq; [|done]. exfalso.
        assert (lru_find k (represents (remove p c)) <> None) as Hf.
        { rewrite (represents_find _ Hwf'), Eq. simpl.
          destruct (wf_entry_item _ Hwf' _ _ Eq) as (? & Hq & _).
          by rewrite (lookup_entry_live _ _ _ Hq). }
        apply Hf. destruct (wf_live c Hwf p Hp) as (it & Hit & Hkp).
        destruct (remove_spec c p it Hwf Hp Hit) as (_ & -> & _).
        apply lru_find_del_none. by rewrite (represents_find c Hwf), Ek.
      * lia.
      * split; [done|]. split; [by rewrite Hr2, Hr'|]. split; congruence.
    + apply insert_new_spec; done.
Qed.

Lemma Get_spec now k c :
  wf c -> (Get now k c).1 = (lru_get now k (represents c)).1 /\
  wf (Get now k c).2 /\ represents (Get now k c).2 = (lru_get now k (represents c)).2 /\
  capacity (Get now k c).2 = capacity c /\ ttl (Get now k c).2 = ttl c.
Proof.
  intros Hwf. unfold Get, lru_get. rewrite (represents_find c Hwf).
  destruct (entries c !! k) as [p|] eqn:Ek; simpl; [|done].
  destruct (wf_entry_item c Hwf _ _ Ek) as (it & Hit & <-). rewrite Hit.
  rewrite (lookup_entry_live _ _ _ Hit). simpl. destruct (now <? expires it); simpl.
  - destruct (move_to_front_spec c p it Hwf (wf_entry_order c Hwf _ _ Ek) Hit). done.
  - split; [done|]. by apply remove_entry.
Qed.

Lemma Delete_spec k c :
  wf c -> wf (Delete k c) /\ represents (Delete k c) = lru_del k (represents c) /\
  capacity (Delete k c) = capacity c /\ ttl (Delete k c) = ttl c.
Proof.
  intros Hwf. unfold Delete. destruct (entries c !! k) as [p|] eqn:Ek; [by apply remove_entry|].
  split; [done|]. split; [|done]. symmetry. apply lru_find_none_del.
  by rewrite (represents_find c Hwf), Ek.
Qed.

(** An empty cache that may only differ in the store of dead items. *)
Lemma empty_wf c :
  entries c = ∅ -> order c = [] -> expiry c = [] ->
  (forall p, is_Some (mem c !! p) -> (p < next c)%nat) -> 1 <= capacity c -> wf c.
Proof.
  intros He Ho Hx Hn Hc. constructor; rewrite ?He, ?Ho, ?Hx; try done.
  - constructor.
  - split; rewrite Hx; [constructor|]. intros i p Hp. by rewrite lookup_nil in Hp.
  - intros i Hi. rewrite Hx in Hi. simpl in Hi. lia.
  - intros k p. rewrite lookup_empty. split; [done|]. intros [Hp _]. by apply elem_of_nil in Hp.
  - rewrite len_nil. lia.
Qed.

Lemma NewCache_spec t cap :
  wf (NewCache (T := T) t cap) /\ represents (NewCache (T := T) t cap) = [] /\
  capacity (NewCache (T := T) t cap) = Z.max 1 cap.
Proof.
  split; [|split; [done|simpl; destruct (Z.ltb_spec cap 1); lia]].
  apply empty_wf; try done.
  - intros p. simpl. rewrite lookup_empty. by intros [].
  - simpl. destruct (Z.ltb_spec cap 1); lia.
Qed.

Lemma cache_step_spec o c :
  wf c -> (cache_step o c).1 = (lru_step (capacity c) (ttl c) o (represents c)).1 /\
  wf (cache_step o c).2 /\
  represents (cache_step o c).2 = (lru_step (capacity c) (ttl c) o (represents c)).2 /\
  capacity (cache_step o c).2 = capacity c /\ ttl (cache_step o c).2 = ttl c.
Proof.
  intros Hwf. destruct o; simpl.
  - by apply Get_spec.
  - split; [done|]. by apply SetUntil_spec.
  - split; [done|]. by apply SetUntil_spec.
  - split; [done|]. by apply Delete_spec.
  - split; [done|]. split; [|done]. apply empty_wf; try done; apply Hwf.
Qed.

Lemma cache_run_spec os c :
  wf c -> (cache_run os c).1 = (lru_run (capacity c) (ttl c) os (represents c)).1 /\
  wf (cache_run os c).2 /\
  represents (cache_run os c).2 = (lru_run (capacity c) (ttl c) os (represents c)).2 /\
  capacity (cache_run os c).2 = capacity c.
Proof.
  revert c. induction os as [|o os IH]; intros c Hwf; simpl; [done|].
  destruct (cache_step_spec o c Hwf) as (E1 & Hwf1 & E2 & Ecap & Ettl).
  destruct (cache_step o c) as [r c1], (lru_step _ _ o _) as [r' l1]. simpl in *. subst r' l1.
  destruct (IH c1 Hwf1) as (I1 & I2 & I3 & I4). rewrite Ecap, Ettl in *.
  destruct (cache_run os c1), (lru_run _ _ os _). simpl in *. by subst.
Qed.
End Operations.

(** ** The properties of the cache *)

(** C2. Refinement: any sequence of [Get], [Set], [SetUntil], [Delete] and
    [Clear] calls on a new cache returns exactly what the LRU list
    specification returns, although the implementation evicts through a
    recency list, expires through an intrusive heap and looks up through a
    map.  In particular an entry is returned only before its deadline, the
    newest value wins, and the least recently used entry is the one evicted. *)
Theorem cache_refines_lru {T} (t cap : Z) (os : list (op T)) :
  (cache_run os (NewCache t cap)).1 = (lru_run (Z.max 1 cap) t os []).1 /\
  represents (cache_run os (NewCache t cap)).2 = (lru_run (Z.max 1 cap) t os []).2.
Proof.
  destruct (NewCache_spec (T := T) t cap) as (Hwf & Hr & Hcap).
  destruct (cache_run_spec os _ Hwf) as (H1 & _ & H2 & _). by rewrite Hr, Hcap in *.
Qed.

(** Every reachable cache satisfies the representation invariant: map, list
    and heap hold the same items, the heap is ordered by deadline and every
    item records its heap position, and at most [capacity] entries are held. *)
Theorem cache_invariant {T} (t cap : Z) (os : list (op T)) :
  let c := (cache_run os (NewCache t cap)).2 in
  wf c /\ capacity c = Z.max 1 cap /\ len (order c) <= Z.max 1 cap /\
  length (expiry c) = size (entries c).
Proof.
  destruct (NewCache_spec (T := T) t cap) as (Hwf & Hr & Hcap).
  destruct (cache_run_spec os _ Hwf) as (_ & Hwf' & _ & Hcap'). cbn zeta.
  rewrite Hcap in Hcap'. split; [done|]. split; [done|]. split.
  - rewrite <- Hcap'. apply Hwf'.
  - rewrite (wf_size _ Hwf'). by rewrite (wf_perm _ Hwf').
Qed.

(** [CacheBudget] splits the whole budget: assets get at least half and the
    six response caches share the rest equally. *)
Lemma CacheBudget_split total :
  0 <= total ->
  let l := CacheBudget total in
  cl_Assets l + 6 * cl_Responses l = total /\ total <= 2 * cl_Assets l /\
  0 <= cl_Responses l.
Proof.
  intros Ht. simpl. pose proof (Z.quot_pos total 12). pose proof (Z.mul_quot_le total 12). lia.
Qed.
