(* ===== verification/Strconv.v ===== *)
(** * Text helpers of the Go standard library the program uses

    strconv ([Atoi], [Itoa], [ParseInt]), and the ASCII part of strings
    ([ToLower], [TrimSpace], [TrimRight], [Cut], [Contains], [IndexAny],
    [ReplaceAll] of single bytes).  Go strings are byte strings, and so are
    Rocq's [string]s. *)
From S2P Require Import Prelude.
From stdpp Require Export pretty.
From Stdlib Require Export Ascii.
Open Scope Z_scope.
Open Scope go_scope.

Definition Itoa (z : Z) : string := pretty z.

Definition digit_val (a : ascii) : option Z :=
  let n := Z.of_N (N_of_ascii a) in
  if (48 <=? n) && (n <=? 57) then Some (n - 48) else None.

(** The value of a non-empty digit string. *)
Fixpoint digits_from (acc : Z) (s : string) : option Z :=
  match s with
  | EmptyString => Some acc
  | String a s => match digit_val a with Some d => digits_from (10 * acc + d) s | None => None end
  end.

Definition digits (s : string) : option Z :=
  match s with EmptyString => None | _ => digits_from 0 s end.

(** A decimal integer with an optional sign, before the range check. *)
Definition signed_digits (s : string) : option Z :=
  match s with
  | String "+" s => digits s
  | String "-" s => option_map Z.opp (digits s)
  | _ => digits s
  end%char.

(** [strconv.Atoi]: an [int] has 64 bits. *)
Definition Atoi (s : string) : option Z :=
  match signed_digits s with
  | Some n => if (- 2 ^ 63 <=? n) && (n <? 2 ^ 63) then Some n else None
  | None => None
  end.

(** [n, _ := strconv.ParseInt(s, 10, 64)]: the value returned with an ignored
    error is 0 for a syntax error and the nearest bound for an overflow. *)
Definition ParseInt64 (s : string) : Z :=
  match signed_digits s with
  | Some n => Z.max (- 2 ^ 63) (Z.min n maxInt64)
  | None => 0
  end.

Definition lower_ascii (a : ascii) : ascii :=
  let n := N_of_ascii a in
  if ((65 <=? n) && (n <=? 90))%N then ascii_of_N (n + 32) else a.

Fixpoint str_map (f : ascii -> ascii) (s : string) : string :=
  match s with
  | EmptyString => EmptyString
  | String a s => String (f a) (str_map f s)
  end.

Definition ToLower (s : string) : string := str_map lower_ascii s.

(** [strings.ToLower], for a text in which only ASCII words are looked for: of
    the letters beyond ASCII only the Kelvin sign and the dotted capital I have
    a lower case in ASCII, and the others keep theirs. *)
Fixpoint lower_text (s : string) : string :=
  match s with
  | EmptyString => EmptyString
  | String a s1 =>
      match s1 with
      | String b s2 =>
          if ((N_of_ascii a =? 0xC4) && (N_of_ascii b =? 0xB0))%N then String "i" (lower_text s2)
          else
            match s2 with
            | String c s3 =>
                if ((N_of_ascii a =? 0xE2) && (N_of_ascii b =? 0x84) && (N_of_ascii c =? 0xAA))%N then String "k" (lower_text s3)
                else String (lower_ascii a) (lower_text s1)
            | EmptyString => String (lower_ascii a) (lower_text s1)
            end
      | EmptyString => String (lower_ascii a) EmptyString
      end
  end.

Definition is_space (a : ascii) : bool :=
  let n := N_of_ascii a in ((9 <=? n) && (n <=? 13) || (n =? 32))%N.

Fixpoint trim_left (f : ascii -> bool) (s : string) : string :=
  match s with
  | String a s' => if f a then trim_left f s' else s
  | EmptyString => EmptyString
  end.

Fixpoint trim_right (f : ascii -> bool) (s : string) : string :=
  match s with
  | EmptyString => EmptyString
  | String a s' =>
      match trim_right f s' with
      | EmptyString => if f a then EmptyString else String a EmptyString
      | t => String a t
      end
  end.

(** The white space of Unicode beyond ASCII, in UTF-8. *)
Definition wide_spaces : list string :=
  map (fun l => string_of_bytes l)
    ([[0xC2; 0x85]; [0xC2; 0xA0]; [0xE1; 0x9A; 0x80]; [0xE2; 0x80; 0xA8]; [0xE2; 0x80; 0xA9]; [0xE2; 0x80; 0xAF]; [0xE2; 0x81; 0x9F]; [0xE3; 0x80; 0x80]] ++
     map (fun b => [0xE2; 0x80; b]) [0x80; 0x81; 0x82; 0x83; 0x84; 0x85; 0x86; 0x87; 0x88; 0x89; 0x8A]).

Definition cut_string_prefix (s p : string) : option string :=
  if str_has_prefix s p then Some (String.substring (String.length p) (String.length s - String.length p) s) else None.

(** Without its first rune, if that is a space. *)
Definition strip_space (s : string) : option string :=
  match s with
  | EmptyString => None
  | String a s' => if is_space a then Some s' else List.find (fun _ => true) (omap (cut_string_prefix s) wide_spaces)
  end.

Fixpoint trim_space_left (fuel : nat) (s : string) : string :=
  match fuel with
  | O => s
  | S fuel => match strip_space s with Some s => trim_space_left fuel s | None => s end
  end.

Fixpoint trim_space_right (s : string) : string :=
  match s with
  | EmptyString => EmptyString
  | String a s' => if String.eqb (trim_space_left (String.length s) s) "" then EmptyString else String a (trim_space_right s')
  end.

Definition TrimSpace (s : string) : string := trim_space_right (trim_space_left (String.length s) s).
Definition TrimRightByte (c : ascii) (s : string) : string := trim_right (Ascii.eqb c) s.

(** [strings.Cut] at a one-byte separator: before, after, found. *)
Fixpoint cut_byte (c : ascii) (s : string) : string * string * bool :=
  match s with
  | EmptyString => (EmptyString, EmptyString, false)
  | String a s' =>
      if Ascii.eqb a c then (EmptyString, s', true)
      else let '(b, r, f) := cut_byte c s' in (String a b, r, f)
  end.

Fixpoint contains (sub s : string) : bool :=
  str_has_prefix s sub || match s with EmptyString => false | String _ s' => contains sub s' end.

(** [strings.SplitN(s, sep, -1)] at a one-byte separator. *)
Fixpoint split_byte (c : ascii) (s : string) : list string :=
  match s with
  | EmptyString => [EmptyString]
  | String a s' =>
      if Ascii.eqb a c then EmptyString :: split_byte c s'
      else match split_byte c s' with
           | x :: l => String a x :: l
           | [] => [String a EmptyString]
           end
  end.

(** A [strings.Replacer] of single bytes. *)
Fixpoint replace_bytes (f : ascii -> option string) (s : string) : string :=
  match s with
  | EmptyString => EmptyString
  | String a s' =>
      match f a with
      | Some r => String.append r (replace_bytes f s')
      | None => String a (replace_bytes f s')
      end
  end.

Definition quote : ascii := ascii_of_nat 34.
Definition quoted (s : string) : string := String quote (String.append s (String quote EmptyString)).
Definition CR : ascii := ascii_of_nat 13.
Definition LF : ascii := ascii_of_nat 10.

(** ** Lemmas *)

Lemma digits_from_range acc s n : 0 <= acc -> digits_from acc s = Some n -> 0 <= n.
Proof.
  revert acc. induction s as [|a s IH]; intros acc Hacc; simpl; [intros [= <-]; done|].
  destruct (digit_val a) as [d|] eqn:E; [|done]. apply IH. unfold digit_val in E.
  case_match eqn:Ec; [|done]. injection E as <-. bool_prop. lia.
Qed.

Lemma Atoi_range s n : Atoi s = Some n -> in_i64 n.
Proof.
  unfold Atoi, in_i64. destruct (signed_digits s) as [m|]; [|done]. case_match eqn:E; [|done].
  intros [= <-]. bool_prop. lia.
Qed.

Lemma contains_refl s : contains s s = true.
Proof.
  assert (String.prefix s s = true) as Hp.
  { induction s as [|a s IH]; simpl; [done|]. by destruct (ascii_dec a a). }
  destruct s; simpl; [done|]. simpl in Hp. unfold str_has_prefix. simpl. by rewrite Hp.
Qed.

Example Atoi_examples :
  (Atoi "15000", Atoi "-7", Atoi "+3", Atoi "", Atoi "1_0", Atoi "9223372036854775808",
   ParseInt64 "9223372036854775808", ParseInt64 "4.5") =
  (Some 15000, Some (-7), Some 3, None, None, None, maxInt64, 0).
Proof. vm_compute. reflexivity. Qed.

(** Text cut at its front. *)

Lemma str_assoc (a b c : string) : (a +:+ b) +:+ c = a +:+ b +:+ c.
Proof. induction a as [|x a IH]; [done|]. change (String x ((a +:+ b) +:+ c) = String x (a +:+ b +:+ c)). by rewrite IH. Qed.

Lemma cut_app p s : cut_string_prefix (p +:+ s) p = Some s.
Proof.
  unfold cut_string_prefix. assert (str_has_prefix (p +:+ s) p = true) as ->.
  { unfold str_has_prefix. induction p as [|a p IH]; [by destruct s|]. change (String a p +:+ s) with (String a (p +:+ s)). cbn [String.prefix]. by destruct (ascii_dec a a). }
  f_equal. induction p as [|a p IH].
  - change ("" +:+ s) with s. cbn [String.length]. rewrite Nat.sub_0_r. induction s as [|a s IH]; [done|]. cbn [String.length String.substring]. by rewrite IH.
  - change (String a p +:+ s) with (String a (p +:+ s)). cbn [String.length Nat.sub String.substring]. exact IH.
Qed.
