(* ===== verification/Errors.v ===== *)
(** * Error values and their public form

    Models src/internal/core/errors.go and src/internal/core/download.go (the
    API error and the error types that wrap it), [UpstreamError] with its
    texts from src/internal/tiktokapp/client.go, and [publicError] of
    src/internal/identity/backend.go.

    A Go [error] is a tree of wrapped values; the program inspects it with
    [errors.As] and [errors.Is], which walk the [Unwrap] chain from the outside.
    [goerr] has one constructor per dynamic type the program distinguishes;
    an absent error is [None] of [option goerr].  [Details] of an API error is
    only rendered, never inspected, and is left out. *)
From S2P Require Import Prelude.

Record Error := mkError { Code : string; Message : string; Status : Z }.
Definition NewError (code message : string) (status : Z) : Error := mkError code message status.
Definition InvalidLink (message : string) : Error := NewError "invalid_link" message 400.
Definition Upstream (message : string) : Error := NewError "upstream_extraction_error" message 502.
Definition MissingAsset : Error :=
  NewError "asset_not_found_or_expired" "Asset has expired or is unavailable" 404.
Definition MissingExtraction : Error :=
  NewError "extraction_not_found_or_expired" "Extraction has expired or is unavailable" 404.

(** [tiktokapp.Recovery] and [tiktokapp.UpstreamError]. *)
Inductive Recovery := RecoveryNone | RecoveryRefresh | RecoveryRecreate.
#[export] Instance Recovery_eq_dec : EqDecision Recovery.
Proof. solve_decision. Defined.

Record UpstreamError := mkUpstream {
  up_Code : string;
  up_Recovery : Recovery;
  up_HTTPStatus : Z;
  up_AppStatusCode : Z;
  up_RetryAfter : Z;
}.

Definition upstream_text (code : string) : string :=
  match code with
  | "upstream_rate_limited" => "The upstream service rate limited the request."
  | "upstream_unavailable" => "The upstream service is temporarily unavailable."
  | "upstream_blocked" => "The upstream service did not accept the request."
  | "upstream_invalid_response" => "The upstream service returned an invalid response."
  | "signature_rejected" => "The upstream service rejected the signing credentials."
  | "identity_rejected" => "The upstream service rejected the device registration."
  | "content_private" => "The requested content is private."
  | "content_restricted" => "The requested content requires an account with access."
  | "content_deleted" => "The requested content is unavailable or deleted."
  | "region_blocked" => "The requested content is unavailable in this region."
  | _ => "The upstream service rejected the request."
  end%string.

Inductive goerr :=
| ErrCore (e : Error)                (* *core.Error *)
| ErrCanceled                        (* context.Canceled *)
| ErrDeadline                        (* context.DeadlineExceeded *)
| ErrStall (phase : string)          (* *core.DownloadAttemptTimeout *)
| ErrRecovery (e : goerr)            (* *core.MediaRecoveryError *)
| ErrUpstream (u : UpstreamError)    (* *tiktokapp.UpstreamError *)
| ErrNetwork (timeout : bool)        (* a net.Error of the transport *)
| ErrURL (e : goerr)                 (* *url.Error, wrapping the transport's error *)
| ErrWrapped (msg : string) (e : goerr)  (* fmt.Errorf with %w *)
| ErrOther (msg : string).

Definition stall_message : string := "Upstream media request stalled".

(** One [Unwrap] step. *)
Definition unwrap (e : goerr) : option goerr :=
  match e with
  | ErrStall _ => Some (ErrCore (NewError "upstream_timeout" stall_message 504))
  | ErrRecovery e | ErrURL e | ErrWrapped _ e => Some e
  | _ => None
  end.

(** [errors.As(err, &failure)] for [*core.Error]. *)
Fixpoint as_core (e : goerr) : option Error :=
  match e with
  | ErrCore e => Some e
  | ErrStall _ => Some (NewError "upstream_timeout" stall_message 504)
  | ErrRecovery e | ErrURL e | ErrWrapped _ e => as_core e
  | _ => None
  end.

Fixpoint as_upstream (e : goerr) : option UpstreamError :=
  match e with
  | ErrUpstream u => Some u
  | ErrRecovery e | ErrURL e | ErrWrapped _ e => as_upstream e
  | _ => None
  end.

Fixpoint as_stall (e : goerr) : option string :=
  match e with
  | ErrStall p => Some p
  | ErrRecovery e | ErrURL e | ErrWrapped _ e => as_stall e
  | _ => None
  end.

Fixpoint as_recovery (e : goerr) : option goerr :=
  match e with
  | ErrRecovery e => Some e
  | ErrURL e | ErrWrapped _ e => as_recovery e
  | _ => None
  end.

(** The [Timeout()] method of an error value, [false] where it has none
    ([url.Error.Timeout] asks the error it wraps). *)
Fixpoint timeout_method (e : goerr) : bool :=
  match e with
  | ErrDeadline | ErrStall _ => true
  | ErrNetwork t => t
  | ErrURL e => timeout_method e
  | _ => false
  end.

(** [errors.As(err, &network)] for [net.Error]: the value of [Timeout()].
    [context.DeadlineExceeded] implements the interface. *)
Fixpoint as_net (e : goerr) : option bool :=
  match e with
  | ErrDeadline | ErrStall _ => Some true
  | ErrNetwork t => Some t
  | ErrURL e => Some (timeout_method e)
  | ErrRecovery e | ErrWrapped _ e => as_net e
  | _ => None
  end.

Fixpoint is_canceled (e : goerr) : bool :=
  match e with
  | ErrCanceled => true
  | ErrRecovery e | ErrURL e | ErrWrapped _ e => is_canceled e
  | _ => false
  end.

Fixpoint is_deadline (e : goerr) : bool :=
  match e with
  | ErrDeadline => true
  | ErrRecovery e | ErrURL e | ErrWrapped _ e => is_deadline e
  | _ => false
  end.

(** [publicError] *)
Definition public_upstream (u : UpstreamError) : Error :=
  let '(code, status) :=
    match up_Code u with
    | "content_deleted" => (up_Code u, 404)
    | "content_private" | "content_restricted" => (up_Code u, 403)
    | "region_blocked" => (up_Code u, 451)
    | "upstream_rate_limited" => (up_Code u, 429)
    | _ => ("upstream_extraction_error", 502)
    end%string in
  NewError code (upstream_text (up_Code u)) status.

Definition publicError (e : goerr) : goerr :=
  match as_core e with
  | Some _ => e
  | None =>
      if is_deadline e then ErrCore (NewError "upstream_timeout" "The upstream request timed out." 504)
      else if is_canceled e then e
      else
        match as_upstream e with
        | Some u => ErrCore (public_upstream u)
        | None =>
            match as_net e with
            | Some true => ErrCore (NewError "upstream_timeout" "The upstream request timed out." 504)
            | Some false =>
                ErrCore (NewError "upstream_network_error" "The upstream network request failed." 502)
            | None => ErrCore (Upstream "The TikTok app request failed.")
            end
        end
  end.

(** ** Properties *)

(** [errors.As] finds what one [Unwrap] step finds. *)
Lemma as_core_unwrap e e' : unwrap e = Some e' -> as_core e = as_core e'.
Proof. by destruct e; intros [= <-]. Qed.

Lemma as_upstream_unwrap e e' : unwrap e = Some e' -> as_upstream e = as_upstream e'.
Proof. by destruct e; intros [= <-]. Qed.

(** Whatever fails inside an identity lease, the caller sees an API error or
    the cancellation it caused itself: [publicError] never lets an upstream,
    network or unknown error through, it changes an error that already is an
    API error in nothing, and applying it twice changes nothing. *)
Theorem publicError_public (e : goerr) :
  (is_Some (as_core (publicError e)) \/ is_canceled (publicError e) = true) /\
  (is_Some (as_core e) -> publicError e = e) /\
  publicError (publicError e) = publicError e.
Proof.
  unfold publicError. destruct (as_core e) eqn:Ec; [rewrite Ec; eauto|].
  split; [|split; [by intros []|]];
    destruct (is_deadline e) eqn:Ed, (is_canceled e) eqn:Ex; simpl; eauto;
    rewrite ?Ec, ?Ed, ?Ex; try done; destruct (as_upstream e); simpl; eauto;
    destruct (as_net e) as [[]|]; simpl; eauto.
Qed.
