(* ===== verification/Json.v ===== *)
(** * JSON documents

    The part of encoding/json the program relies on: [json_parse] is
    [json.Decoder] with [UseNumber] into [any] (numbers stay text, a repeated
    key keeps its last value), and [json_Valid] is [json.Valid].  Strings are
    unescaped and re-encoded as UTF-8, an invalid sequence becoming U+FFFD as
    in Go.  Every component that reads a reply of another service
    (Telegram, TikTok, Instagram) reads it through these functions. *)
From S2P Require Import Prelude Strconv.

Inductive json :=
| JNull
| JBool (b : bool)
| JNum (s : string)
| JStr (s : string)
| JArr (l : list json)
| JObj (l : list (string * json)).

#[export] Instance json_null_dec (j : json) : Decision (j = JNull).
Proof. destruct j; first [by left|by right]. Defined.

(** A Go map holds one value per key: inserting replaces. *)
Fixpoint obj_set (k : string) (v : json) (l : list (string * json)) : list (string * json) :=
  match l with
  | [] => [(k, v)]
  | (k', v') :: l => if String.eqb k k' then (k, v) :: l else (k', v') :: obj_set k v l
  end.

Fixpoint obj_get (k : string) (l : list (string * json)) : option json :=
  match l with
  | [] => None
  | (k', v) :: l => if String.eqb k k' then Some v else obj_get k l
  end.

(** [object[key]] where [object] is the value if it is a map. *)
Definition jfield (k : string) (j : json) : option json :=
  match j with JObj l => obj_get k l | _ => None end.

Definition jbool (j : option json) : option bool :=
  match j with Some (JBool b) => Some b | _ => None end.
Definition jnum (j : option json) : option string :=
  match j with Some (JNum s) => Some s | _ => None end.
Definition jstr (j : option json) : option string :=
  match j with Some (JStr s) => Some s | _ => None end.
Definition is_obj (j : json) : bool := match j with JObj _ => true | _ => false end.

(** ** UTF-8 *)

Definition encode_rune (r : Z) : bytes :=
  let r := if (r <? 0) || (0x10FFFF <? r) || ((0xD800 <=? r) && (r <=? 0xDFFF)) then 0xFFFD else r in
  if r <? 0x80 then [r]
  else if r <? 0x800 then [0xC0 + Z.shiftr r 6; 0x80 + Z.land r 63]
  else if r <? 0x10000 then
    [0xE0 + Z.shiftr r 12; 0x80 + Z.land (Z.shiftr r 6) 63; 0x80 + Z.land r 63]
  else [0xF0 + Z.shiftr r 18; 0x80 + Z.land (Z.shiftr r 12) 63;
        0x80 + Z.land (Z.shiftr r 6) 63; 0x80 + Z.land r 63].

Definition is_cont (b : Z) : bool := (0x80 <=? b) && (b <? 0xC0).

(** [utf8.DecodeRune] of a non-empty slice: the rune and its width; an
    invalid sequence is U+FFFD of width 1. *)
Definition decode_rune (l : bytes) : Z * nat :=
  let bad := (0xFFFD, 1%nat) in
  match l with
  | [] => (0xFFFD, 0%nat)
  | a :: l =>
      if a <? 0x80 then (a, 1%nat)
      else match l with
      | b :: l' =>
          if (0xC2 <=? a) && (a <? 0xE0) && is_cont b then
            (Z.shiftl (Z.land a 31) 6 + Z.land b 63, 2%nat)
          else match l' with
          | c :: l'' =>
              let lo := if a =? 0xE0 then 0xA0 else 0x80 in
              let hi := if a =? 0xED then 0x9F else 0xBF in
              if (0xE0 <=? a) && (a <? 0xF0) && (lo <=? b) && (b <=? hi) && is_cont c then
                (Z.shiftl (Z.land a 15) 12 + Z.shiftl (Z.land b 63) 6 + Z.land c 63, 3%nat)
              else match l'' with
              | d :: _ =>
                  let lo := if a =? 0xF0 then 0x90 else 0x80 in
                  let hi := if a =? 0xF4 then 0x8F else 0xBF in
                  if (0xF0 <=? a) && (a <=? 0xF4) && (lo <=? b) && (b <=? hi) && is_cont c && is_cont d then
                    (Z.shiftl (Z.land a 7) 18 + Z.shiftl (Z.land b 63) 12 +
                     Z.shiftl (Z.land c 63) 6 + Z.land d 63, 4%nat)
                  else bad
              | [] => bad
              end
          | [] => bad
          end
      | [] => bad
      end
  end.

(** ** Lexical elements *)

Fixpoint skip_ws (l : bytes) : bytes :=
  match l with
  | b :: l' => if (b =? 32) || (b =? 9) || (b =? 10) || (b =? 13) then skip_ws l' else l
  | [] => []
  end.

Definition hex_digit (b : Z) : option Z :=
  if (48 <=? b) && (b <=? 57) then Some (b - 48)
  else if (97 <=? b) && (b <=? 102) then Some (b - 87)
  else if (65 <=? b) && (b <=? 70) then Some (b - 55)
  else None.

Definition getu4 (l : bytes) : option (Z * bytes) :=
  match l with
  | a :: b :: c :: d :: l =>
      match hex_digit a, hex_digit b, hex_digit c, hex_digit d with
      | Some a, Some b, Some c, Some d => Some (4096 * a + 256 * b + 16 * c + d, l)
      | _, _, _, _ => None
      end
  | _ => None
  end.

Definition simple_escape (b : Z) : option Z :=
  match b with
  | 34 => Some 34 | 92 => Some 92 | 47 => Some 47 | 98 => Some 8 | 102 => Some 12
  | 110 => Some 10 | 114 => Some 13 | 116 => Some 9 | _ => None
  end.

(** The string after its opening quote; a lone surrogate is U+FFFD. *)
Fixpoint parse_string (fuel : nat) (l : bytes) : option (bytes * bytes) :=
  match fuel with
  | O => None
  | S fuel =>
      let emit out l := match parse_string fuel l with
                        | Some (s, rest) => Some (out ++ s, rest)
                        | None => None
                        end in
      match l with
      | [] => None
      | 34 :: l => Some ([], l)
      | 92 :: 117 :: l =>
          match getu4 l with
          | None => None
          | Some (r, l) =>
              if (0xD800 <=? r) && (r <? 0xE000) then
                match l with
                | 92 :: 117 :: l2 =>
                    match getu4 l2 with
                    | Some (r2, l3) =>
                        if (r <? 0xDC00) && (0xDC00 <=? r2) && (r2 <? 0xE000) then
                          emit (encode_rune ((r - 0xD800) * 1024 + (r2 - 0xDC00) + 0x10000)) l3
                        else emit (encode_rune 0xFFFD) l
                    | None => emit (encode_rune 0xFFFD) l
                    end
                | _ => emit (encode_rune 0xFFFD) l
                end
              else emit (encode_rune r) l
          end
      | 92 :: b :: l =>
          match simple_escape b with Some c => emit [c] l | None => None end
      | b :: l' =>
          if (b <? 32) || (b =? 92) then None
          else let '(r, n) := decode_rune l in emit (encode_rune r) (drop n l)
      end
  end.

Definition is_digit (b : Z) : bool := (48 <=? b) && (b <=? 57).

Fixpoint span_digits (l : bytes) : bytes * bytes :=
  match l with
  | b :: l' => if is_digit b then let '(d, r) := span_digits l' in (b :: d, r) else ([], l)
  | [] => ([], [])
  end.

Definition digits1 (l : bytes) : option (bytes * bytes) :=
  match span_digits l with ([], _) => None | p => Some p end.

Definition parse_number (l : bytes) : option (bytes * bytes) :=
  let '(sign, l) := match l with 45 :: l => ([45], l) | _ => ([], l) end in
  match (match l with 48 :: l => Some ([48], l) | _ => digits1 l end) with
  | None => None
  | Some (int, l) =>
      match (match l with
             | 46 :: l => match digits1 l with Some (f, l) => Some (46 :: f, l) | None => None end
             | _ => Some ([], l)
             end) with
      | None => None
      | Some (frac, l) =>
          match (match l with
                 | e :: l' =>
                     if (e =? 101) || (e =? 69) then
                       let '(s, l') := match l' with
                                       | 43 :: l'' => ([43], l'')
                                       | 45 :: l'' => ([45], l'')
                                       | _ => ([], l')
                                       end in
                       match digits1 l' with Some (x, l') => Some (e :: s ++ x, l') | None => None end
                     else Some ([], l)
                 | [] => Some ([], l)
                 end) with
          | None => None
          | Some (exp, l) => Some (sign ++ int ++ frac ++ exp, l)
          end
      end
  end.

(** ** Values *)

Definition maxNestingDepth : Z := 10000.

Definition literal (text : string) (v : json) (l : bytes) : option (json * bytes) :=
  if has_prefix l (bytes_of_string text) then Some (v, drop (length (bytes_of_string text)) l) else None.

(** A value and its list are two calls for at least one byte, so the fuel of
    [json_parse] is never exhausted (JsonTotal.v). *)
Fixpoint parse_value (fuel : nat) (depth : Z) (l : bytes) : option (json * bytes) :=
  match fuel with
  | O => None
  | S fuel =>
      match skip_ws l with
      | 34 :: l => match parse_string (S (length l)) l with
                   | Some (s, l) => Some (JStr (string_of_bytes s), l)
                   | None => None
                   end
      | 91 :: l =>
          if maxNestingDepth <=? depth then None
          else match skip_ws l with
               | 93 :: l => Some (JArr [], l)
               | l => match parse_elements fuel (depth + 1) l with
                      | Some (vs, l) => Some (JArr vs, l)
                      | None => None
                      end
               end
      | 123 :: l =>
          if maxNestingDepth <=? depth then None
          else match skip_ws l with
               | 125 :: l => Some (JObj [], l)
               | l => match parse_members fuel (depth + 1) [] l with
                      | Some (vs, l) => Some (JObj vs, l)
                      | None => None
                      end
               end
      | 116 :: l => literal "rue" (JBool true) l
      | 102 :: l => literal "alse" (JBool false) l
      | 110 :: l => literal "ull" JNull l
      | l => match parse_number l with
             | Some (n, l) => Some (JNum (string_of_bytes n), l)
             | None => None
             end
      end
  end
with parse_elements (fuel : nat) (depth : Z) (l : bytes) : option (list json * bytes) :=
  match fuel with
  | O => None
  | S fuel =>
      match parse_value fuel depth l with
      | None => None
      | Some (v, l) =>
          match skip_ws l with
          | 44 :: l => match parse_elements fuel depth l with
                       | Some (vs, l) => Some (v :: vs, l)
                       | None => None
                       end
          | 93 :: l => Some ([v], l)
          | _ => None
          end
      end
  end
with parse_members (fuel : nat) (depth : Z) (acc : list (string * json)) (l : bytes) :
    option (list (string * json) * bytes) :=
  match fuel with
  | O => None
  | S fuel =>
      match skip_ws l with
      | 34 :: l =>
          match parse_string (S (length l)) l with
          | None => None
          | Some (k, l) =>
              match skip_ws l with
              | 58 :: l =>
                  match parse_value fuel depth l with
                  | None => None
                  | Some (v, l) =>
                      let acc := obj_set (string_of_bytes k) v acc in
                      match skip_ws l with
                      | 44 :: l => parse_members fuel depth acc l
                      | 125 :: l => Some (acc, l)
                      | _ => None
                      end
                  end
              | _ => None
              end
          end
      | _ => None
      end
  end.

Definition json_parse (l : bytes) : option json :=
  match parse_value (S (2 * length l)) 0 l with
  | Some (v, l) => match skip_ws l with [] => Some v | _ => None end
  | None => None
  end.

Definition json_Valid (l : bytes) : bool :=
  match json_parse l with Some _ => true | None => false end.

(** ** Encoding ([json.Marshal]) *)

Definition hex_char (d : Z) : Z := if d <? 10 then 48 + d else 87 + d.

Definition escape_rune (r : Z) : bytes :=
  match r with
  | 34 => [92; 34] | 92 => [92; 92] | 8 => [92; 98] | 12 => [92; 102]
  | 10 => [92; 110] | 13 => [92; 114] | 9 => [92; 116]
  | _ =>
      if (r <? 32) || (r =? 60) || (r =? 62) || (r =? 38) then
        [92; 117; 48; 48; hex_char (Z.shiftr r 4); hex_char (Z.land r 15)]
      else if (r =? 0x2028) || (r =? 0x2029) then [92; 117; 50; 48; 50; 48 + Z.land r 15]
      else encode_rune r
  end.

(** Invalid UTF-8 is written as the escape of U+FFFD. *)
Fixpoint escape_string (fuel : nat) (l : bytes) : bytes :=
  match fuel, l with
  | S fuel, _ :: _ =>
      let '(r, n) := decode_rune l in
      (if (r =? 0xFFFD) && Nat.eqb n 1 then [92; 117; 102; 102; 102; 100] else escape_rune r)
      ++ escape_string fuel (drop n l)
  | _, _ => []
  end.

Definition print_string (s : string) : bytes :=
  let l := bytes_of_string s in 34 :: escape_string (length l) l ++ [34].

Fixpoint insert_key (k : string) (v : bytes) (l : list (string * bytes)) : list (string * bytes) :=
  match l with
  | [] => [(k, v)]
  | (k', v') :: l' => if String.ltb k k' then (k, v) :: l else (k', v') :: insert_key k v l'
  end.

Definition sep_concat (l : list bytes) : bytes :=
  match l with
  | [] => []
  | x :: l => x ++ concat (map (fun y => 44 :: y) l)
  end.

(** Object members are written in key order. *)
Fixpoint json_print (j : json) : bytes :=
  match j with
  | JNull => bytes_of_string "null"
  | JBool true => bytes_of_string "true"
  | JBool false => bytes_of_string "false"
  | JNum s => bytes_of_string s
  | JStr s => print_string s
  | JArr l => 91 :: sep_concat (map json_print l) ++ [93]
  | JObj l =>
      let members := map (fun kv => match kv with (k, v) => (k, json_print v) end) l in
      let sorted := fold_right (fun kv acc => insert_key kv.1 kv.2 acc) [] members in
      123 :: sep_concat (map (fun kv => print_string kv.1 ++ 58 :: kv.2) sorted) ++ [125]
  end.

Definition json_Marshal (j : json) : string := string_of_bytes (json_print j).

(** ** Lemmas *)

Lemma obj_get_set k k' v l :
  obj_get k (obj_set k' v l) = if String.eqb k k' then Some v else obj_get k l.
Proof.
  induction l as [|[k2 v2] l IH]; simpl; [by destruct (String.eqb k k')|].
  destruct (String.eqb_spec k' k2) as [->|]; simpl.
  - by destruct (String.eqb k k2).
  - rewrite IH. destruct (String.eqb_spec k k2) as [->|]; [|done].
    by destruct (String.eqb_spec k2 k') as [->|].
Qed.

Example json_parse_example :
  json_parse
    [123; 34; 111; 107; 34; 58; 116; 114; 117; 101; 44; 34; 110; 34; 58; 45; 52; 46; 53;
     101; 50; 32; 44; 34; 97; 34; 58; 91; 110; 117; 108; 108; 44; 34; 92; 117; 48; 48;
     101; 57; 120; 92; 110; 34; 93; 44; 34; 111; 107; 34; 58; 102; 97; 108; 115; 101; 125] =
  Some (JObj [("ok", JBool false); ("n", JNum "-4.5e2");
              ("a", JArr [JNull; JStr (string_of_bytes [195; 169; 120; 10])])])%string.
Proof. vm_compute. reflexivity. Qed.

Example json_print_example :
  json_print (JObj [("b", JArr [JNum "1"; JNull]); ("a", JStr "x<y")])%string =
  bytes_of_string (String.append "{" (String.append (quoted "a") (String.append ":"
    (String.append (quoted "x\u003cy") (String.append "," (String.append (quoted "b")
      ":[1,null]}"))))))%string.
Proof. vm_compute. reflexivity. Qed.
