(* ===== verification/JsonTotal.v ===== *)
(** * JSON: the parsers end

    Every parser of Json.v leaves a shorter input, so the fuel it is given is
    never exhausted: more fuel gives the same result. *)
From S2P Require Import Prelude Strconv Json.
Open Scope Z_scope.

Lemma skip_ws_length l : (length (skip_ws l) <= length l)%nat.
Proof. induction l as [|b l IH]; simpl; [lia|]. destruct (_ || _); simpl; lia. Qed.

Lemma getu4_length l r l' : getu4 l = Some (r, l') -> (length l' < length l)%nat.
Proof.
  destruct l as [|a [|b [|c [|d l]]]]; try done. cbn.
  destruct (hex_digit a), (hex_digit b), (hex_digit c), (hex_digit d); try done. intros [= _ <-]. lia.
Qed.

Lemma decode_rune_width b l : (1 <= (decode_rune (b :: l)).2)%nat.
Proof. unfold decode_rune. repeat (case_match; simpl; try lia). Qed.

(** A parser that leaves a strictly shorter input. *)
Definition consumes {A} (p : bytes -> option (A * bytes)) : Prop :=
  forall l x r, p l = Some (x, r) -> (length r < length l)%nat.

Lemma parse_string_consumes fuel : consumes (parse_string fuel).
Proof.
  induction fuel as [|fuel IH]; intros l x r; [done|].
  assert (forall out l2, (length l2 < length l)%nat ->
    match parse_string fuel l2 with Some (s, rest) => Some (out ++ s, rest) | None => None end = Some (x, r) -> (length r < length l)%nat) as He.
  { intros out l2 Hl2. destruct (parse_string fuel l2) as [[s rest]|] eqn:E; [|done]. intros [= _ <-]. pose proof (IH _ _ _ E). lia. }
  cbn [parse_string]. destruct l as [|b l]; [done|].
  pose proof (decode_rune_width b l) as Hw. destruct (decode_rune (b :: l)) as [ru n] eqn:Ed. cbn in Hw.
  assert (length (drop n (b :: l)) < length (b :: l))%nat as Hd by (rewrite length_drop; cbn; lia).
  repeat match goal with
  | |- None = Some _ -> _ => done
  | |- Some ([], _) = Some _ -> _ => intros [= _ <-]; cbn; lia
  | |- match parse_string fuel _ with _ => _ end = _ -> _ => apply He; cbn; cbn in Hd; try lia
  | H : getu4 _ = Some (_, _) |- _ => apply getu4_length in H
  | |- match ?x with _ => _ end = _ -> _ => case_match
  end.
  all: repeat match goal with H : getu4 _ = Some (_, _) |- _ => apply getu4_length in H end; cbn [length] in *; lia.
Qed.

(** A string needs no more fuel than its length. *)
Lemma parse_string_fuel f1 : forall f2 l, (length l < f1)%nat -> (length l < f2)%nat -> parse_string f1 l = parse_string f2 l.
Proof.
  induction f1 as [|f1 IH]; intros f2 l H1 H2; [lia|]. destruct f2 as [|f2]; [lia|]. cbn [parse_string].
  destruct l as [|b l]; [done|]. pose proof (decode_rune_width b l) as Hw. destruct (decode_rune (b :: l)) as [ru n] eqn:Ed. cbn [snd] in Hw.
  assert (length (drop n (b :: l)) <= length l)%nat as Hd by (rewrite length_drop; cbn; lia).
  assert (forall l2, (length l2 <= length l)%nat -> parse_string f1 l2 = parse_string f2 l2) as Hc by (cbn in H1, H2; intros; apply IH; lia).
  repeat match goal with
  | |- ?x = ?x => reflexivity
  | |- match parse_string f1 ?l2 with _ => _ end = _ =>
      rewrite (Hc l2); [reflexivity|repeat match goal with H : getu4 _ = Some (_, _) |- _ => apply getu4_length in H end; cbn [length] in *; lia]
  | |- match getu4 ?l2 with _ => _ end = _ => destruct (getu4 l2) as [[? ?]|] eqn:?
  | |- match simple_escape ?l2 with _ => _ end = _ => destruct (simple_escape l2)
  | |- (if ?c then _ else _) = _ => destruct c
  | |- match ?n with _ => _ end = _ => is_var n; destruct n
  end.
Qed.

Lemma span_digits_length l : (length (span_digits l).1 + length (span_digits l).2 = length l)%nat.
Proof. induction l as [|b l IH]; simpl; [done|]. destruct (is_digit b); [|done]. destruct (span_digits l). simpl in *. lia. Qed.

Lemma digits1_consumes : consumes digits1.
Proof.
  intros l x r. unfold digits1. pose proof (span_digits_length l) as H. destruct (span_digits l) as [[|b d] r']; [done|].
  cbn [fst snd length] in H. intros [= _ <-]. lia.
Qed.

Ltac small := repeat case_match; try done; intros; simplify_eq/=; try lia.

Lemma parse_number_consumes : consumes parse_number.
Proof.
  intros l x r. unfold parse_number. cbv zeta.
  match goal with |- (let '(_, _) := ?e in _) = _ -> _ => destruct e as [sign l1] eqn:E1 end.
  assert (length l1 <= length l)%nat as H1 by (revert E1; small).
  match goal with |- match ?e with _ => _ end = _ -> _ => destruct e as [[int l2]|] eqn:E2; [|done] end.
  assert (length l2 < length l1)%nat as H2.
  { revert E2. destruct l1 as [|b l1]; [done|].
    repeat (case_match; try apply digits1_consumes); intros [= _ <-]; cbn; lia. }
  match goal with |- match ?e with _ => _ end = _ -> _ => destruct e as [[frac l3]|] eqn:E3; [|done] end.
  assert (length l3 <= length l2)%nat as H3.
  { revert E3. clear. destruct l2 as [|b l2]; [by intros [= _ <-]|]. 
    assert (forall f, match digits1 l2 with Some (f, l) => Some (46 :: f, l) | None => None end = Some (f, l3) -> (length l3 <= S (length l2))%nat) as Hd.
    { intros f. destruct (digits1 l2) as [[f' l']|] eqn:E; [|done]. intros [= _ <-]. apply digits1_consumes in E. lia. }
    repeat (case_match; try apply Hd); try done; intros [= _ <-]; cbn; lia. }
  match goal with |- match ?e with _ => _ end = _ -> _ => destruct e as [[exp l4]|] eqn:E4; [|done] end.
  assert (length l4 <= length l3)%nat as H4.
  { revert E4. clear. destruct l3 as [|b l3]; [by intros [= _ <-]|]. destruct (_ || _); [|intros [= _ <-]; done].
    match goal with |- (let '(_, _) := ?e in _) = _ -> _ => destruct e as [s l5] eqn:E5 end.
    assert (length l5 <= length l3)%nat by (revert E5; small).
    destruct (digits1 l5) as [[f' l']|] eqn:E; [|done]. intros [= _ <-]. apply digits1_consumes in E. cbn. lia. }
  intros [= _ <-]. lia.
Qed.


Lemma literal_consumes text v : text <> ""%string -> consumes (literal text v).
Proof.
  intros Ht l x r. unfold literal, has_prefix. destruct (bytes_eqb _ _) eqn:E; [|done]. apply bytes_eqb_spec in E.
  intros [= _ <-]. rewrite length_drop. apply (f_equal length) in E. rewrite length_take in E.
  assert (0 < length (bytes_of_string text))%nat by (destruct text; [done|cbn; lia]). lia.
Qed.

(** The recursive calls of a value, an element list and a member list. *)
Definition parsers_consume (fuel : nat) : Prop :=
  (forall d, consumes (parse_value fuel d)) /\ (forall d, consumes (parse_elements fuel d)) /\
  (forall d acc, consumes (parse_members fuel d acc)).

Lemma parse_value_consumes fuel d : parsers_consume fuel -> consumes (parse_value (S fuel) d).
Proof.
  intros (_ & He & Hm) l x r. cbn [parse_value]. pose proof (skip_ws_length l). destruct (skip_ws l) as [|b l1].
  { done. }
  cbn [length] in *.
  assert (forall text v, text <> ""%string -> literal text v l1 = Some (x, r) -> (length r < length l)%nat) as Hl.
  { intros text v Ht E. apply literal_consumes in E; [lia|done]. }
  assert (match parse_number (b :: l1) with Some (n, l) => Some (JNum (string_of_bytes n), l) | None => None end = Some (x, r) -> (length r < length l)%nat) as Hn.
  { destruct (parse_number (b :: l1)) as [[n l2]|] eqn:E; [|done]. intros [= _ <-]. apply parse_number_consumes in E. cbn in E. lia. }
  assert (forall l2, (length l2 < length l)%nat -> match parse_elements fuel (d + 1) l2 with Some (vs, l) => Some (JArr vs, l) | None => None end = Some (x, r) -> (length r < length l)%nat) as Ha.
  { intros l2 H2. destruct (parse_elements fuel (d + 1) l2) as [[vs l3]|] eqn:E; [|done]. intros [= _ <-]. apply He in E. lia. }
  assert (forall l2, (length l2 < length l)%nat -> match parse_members fuel (d + 1) [] l2 with Some (vs, l) => Some (JObj vs, l) | None => None end = Some (x, r) -> (length r < length l)%nat) as Ho.
  { intros l2 H2. destruct (parse_members fuel (d + 1) [] l2) as [[vs l3]|] eqn:E; [|done]. intros [= _ <-]. apply Hm in E. lia. }
  assert (match parse_string (S (length l1)) l1 with Some (s, l) => Some (JStr (string_of_bytes s), l) | None => None end = Some (x, r) -> (length r < length l)%nat) as Hs.
  { destruct (parse_string (S (length l1)) l1) as [[s l2]|] eqn:E; [|done]. intros [= _ <-]. apply parse_string_consumes in E. lia. }
  pose proof (skip_ws_length l1).
  repeat match goal with
  | |- None = Some _ -> _ => done
  | |- Some _ = Some _ -> _ => intros [= _ <-]; cbn [length] in *; lia
  | |- literal _ _ _ = _ -> _ => by apply Hl
  | |- match parse_number _ with _ => _ end = _ -> _ => exact Hn
  | |- match parse_string _ _ with _ => _ end = _ -> _ => exact Hs
  | |- match parse_elements _ _ ?l2 with _ => _ end = _ -> _ => apply Ha; cbn [length] in *; lia
  | |- match parse_members _ _ _ ?l2 with _ => _ end = _ -> _ => apply Ho; cbn [length] in *; lia
  | |- match skip_ws l1 with _ => _ end = _ -> _ => destruct (skip_ws l1) as [|b1 l1']
  | |- match ?x with _ => _ end = _ -> _ => destruct x
  | |- (if ?x then _ else _) = _ -> _ => destruct x
  end.
Qed.

Lemma parse_elements_consumes fuel d : parsers_consume fuel -> consumes (parse_elements (S fuel) d).
Proof.
  intros (Hv & He & _) l x r. cbn [parse_elements]. destruct (parse_value fuel d l) as [[v l1]|] eqn:E; [|done]. apply Hv in E.
  pose proof (skip_ws_length l1). destruct (skip_ws l1) as [|b l2]; [done|]. cbn [length] in *.
  assert (match parse_elements fuel d l2 with Some (vs, l) => Some (v :: vs, l) | None => None end = Some (x, r) -> (length r < length l)%nat).
  { destruct (parse_elements fuel d l2) as [[vs l3]|] eqn:E2; [|done]. intros [= _ <-]. apply He in E2. lia. }
  repeat (case_match; try done); intros [= _ <-]; cbn [length] in *; lia.
Qed.

Lemma parse_members_consumes fuel d acc : parsers_consume fuel -> consumes (parse_members (S fuel) d acc).
Proof.
  intros (Hv & _ & Hm) l x r. cbn [parse_members]. pose proof (skip_ws_length l). destruct (skip_ws l) as [|b l1]; [done|].
  cbn [length] in *. repeat match goal with |- match ?n with _ => _ end = _ -> _ => is_var n; destruct n; try done end.
  destruct (parse_string (S (length l1)) l1) as [[k l2]|] eqn:Es; [|done]. apply parse_string_consumes in Es.
  pose proof (skip_ws_length l2). destruct (skip_ws l2) as [|b l3]; [done|].
  cbn [length] in *. repeat match goal with |- match ?n with _ => _ end = _ -> _ => is_var n; destruct n; try done end.
  destruct (parse_value fuel d l3) as [[v l4]|] eqn:Ev; [|done]. apply Hv in Ev. cbv zeta.
  pose proof (skip_ws_length l4). destruct (skip_ws l4) as [|b l5]; [done|]. cbn [length] in *.
  repeat match goal with |- match ?n with _ => _ end = _ -> _ => is_var n; destruct n; try done end.
  - intros [= _ <-]. lia.
  - intros E. apply Hm in E. lia.
Qed.

Lemma parse_consumes fuel : parsers_consume fuel.
Proof.
  induction fuel as [|fuel IH]; [by split; [|split]|]. split; [|split]; intros.
  - by apply parse_value_consumes.
  - by apply parse_elements_consumes.
  - by apply parse_members_consumes.
Qed.

(** More fuel than twice the length of the input changes nothing. *)
Lemma parse_fuel f1 : forall f2 d l,
  ((2 * length l < f1)%nat -> (2 * length l < f2)%nat -> parse_value f1 d l = parse_value f2 d l) /\
  ((2 * length l + 1 < f1)%nat -> (2 * length l + 1 < f2)%nat -> parse_elements f1 d l = parse_elements f2 d l /\
    forall acc, parse_members f1 d acc l = parse_members f2 d acc l).
Proof.
  induction f1 as [|f1 IH]; intros f2 d l; [split; lia|]. split.
  - intros H1 H2. destruct f2 as [|f2]; [lia|]. cbn [parse_value]. pose proof (skip_ws_length l).
    destruct (skip_ws l) as [|b l1]; [done|]. cbn [length] in *. pose proof (skip_ws_length l1).
    assert (forall l2, (length l2 <= length l1)%nat -> parse_elements f1 (d + 1) l2 = parse_elements f2 (d + 1) l2 /\
      forall acc, parse_members f1 (d + 1) acc l2 = parse_members f2 (d + 1) acc l2) as Hc by (intros; apply IH; lia).
    repeat match goal with
    | |- ?x = ?x => reflexivity
    | |- (if ?c then _ else _) = _ => destruct c
    | |- match parse_elements f1 _ ?l2 with _ => _ end = _ => rewrite (proj1 (Hc l2 ltac:(cbn [length] in *; lia)))
    | |- match parse_members f1 _ _ ?l2 with _ => _ end = _ => rewrite (proj2 (Hc l2 ltac:(cbn [length] in *; lia)))
    | |- match skip_ws l1 with _ => _ end = _ => destruct (skip_ws l1) as [|b1 l1']
    | |- match ?n with _ => _ end = _ => is_var n; destruct n
    end.
  - intros H1 H2. destruct f2 as [|f2]; [lia|]. cbn [parse_elements parse_members]. split.
    + rewrite (proj1 (IH f2 d l)) by lia. destruct (parse_value f2 d l) as [[v l1]|] eqn:E; [|done].
      apply (proj1 (parse_consumes f2)) in E. pose proof (skip_ws_length l1). destruct (skip_ws l1) as [|b l2]; [done|]. cbn [length] in *.
      rewrite (proj1 (proj2 (IH f2 d l2) ltac:(lia) ltac:(lia))). reflexivity.
    + intros acc. pose proof (skip_ws_length l). destruct (skip_ws l) as [|b l1]; [done|]. cbn [length] in *.
      repeat match goal with |- match ?n with _ => _ end = _ => is_var n; destruct n; try done end.
      destruct (parse_string (S (length l1)) l1) as [[k l2]|] eqn:Es; [|done]. apply parse_string_consumes in Es.
      pose proof (skip_ws_length l2). destruct (skip_ws l2) as [|b l3]; [done|]. cbn [length] in *.
      rewrite (proj1 (IH f2 d l3)) by lia. destruct (parse_value f2 d l3) as [[v l4]|] eqn:Ev; [|done].
      apply (proj1 (parse_consumes f2)) in Ev. cbv zeta. pose proof (skip_ws_length l4). destruct (skip_ws l4) as [|b4 l5]; [done|]. cbn [length] in *.
      rewrite (proj2 (proj2 (IH f2 d l5) ltac:(lia) ltac:(lia))). reflexivity.
Qed.

(** [json_parse] never runs out of fuel: any larger amount gives its result. *)
Lemma json_parse_total l fuel : (2 * length l < fuel)%nat ->
  json_parse l = match parse_value fuel 0 l with
                 | Some (v, l) => match skip_ws l with [] => Some v | _ => None end
                 | None => None
                 end.
Proof. intros H. unfold json_parse. by rewrite (proj1 (parse_fuel (S (2 * length l)) fuel 0 l)) by lia. Qed.
