(* ===== verification/Operation.v ===== *)
(** * core.Operation: the shared retry allowance of one user operation

    Models src/internal/core/operation.go.  The operation is the single owner
    of retries: nested stages that run concurrently call [AllowRetry],
    [BeforeDeliveryCommit] and the delivery marks in any order.  Every method
    holds the mutex for its whole body, so a run is a sequence of calls.

    [ctx.Err()] is read more than once inside a method and the context may be
    cancelled between two readings (the observer itself may cancel it when a
    progress event cannot be written), so each reading is an argument.
    [observe] appends to [events], the progress the client has been sent. *)
From S2P Require Import Prelude Errors.

Record AttemptProgress := mkProgress {
  ap_Type : string;
  ap_Attempt : Z;
  ap_Maximum : Z;
  ap_Stage : string;
}.

Record Operation := mkOperation {
  attempt : Z;
  terminal : bool;
  started : bool;
  possible : bool;
  confirmed : bool;
  rejected : bool;
  observe : bool;
  events : list AttemptProgress;
}.

(** What a context carries for this file: an operation or none
    ([OperationFrom]), and the [noRetryKey] mark. *)
Record Ctx := mkCtx { ctx_op : bool; ctx_noRetry : bool }.

Definition NewOperation (n : Z) : Operation := mkOperation n false false false false false false [].

Definition WithOperation (c : Ctx) : Ctx := mkCtx true (ctx_noRetry c).
Definition WithoutOperationRetries (c : Ctx) : Ctx := mkCtx (ctx_op c) true.
Definition OperationRetriesDisabled (c : Ctx) : bool := ctx_noRetry c && ctx_op c.

Definition set_attempt (n : Z) (o : Operation) : Operation :=
  mkOperation n (terminal o) (started o) (possible o) (confirmed o) (rejected o) (observe o) (events o).
Definition set_observe (o : Operation) : Operation :=
  mkOperation (attempt o) (terminal o) (started o) (possible o) (confirmed o) (rejected o) true (events o).
Definition emit (p : AttemptProgress) (o : Operation) : Operation :=
  if observe o then
    mkOperation (attempt o) (terminal o) (started o) (possible o) (confirmed o) (rejected o) true
      (events o ++ [p])
  else o.

Definition alive (e : option goerr) : bool := match e with None => true | Some _ => false end.

Definition Observe (err : option goerr) (o : Operation) : Operation :=
  let o := set_observe o in
  if negb (terminal o) && alive err then emit (mkProgress "attempt" (attempt o) 3 "admission") o else o.

(** [e0], [e1], [e2]: the readings of [ctx.Err()] on entry, under the lock and
    on return. *)
Definition AllowRetry (c : Ctx) (e0 e1 e2 : option goerr) (stage : string) (o : Operation) :
    bool * Operation :=
  if negb (alive e0) then (false, o)
  else if negb (ctx_op c) then (true, o)
  else if ctx_noRetry c || terminal o || possible o || (3 <=? attempt o) || negb (alive e1) then (false, o)
  else
    let o := set_attempt (attempt o + 1) o in
    let o := emit (mkProgress "attempt" (attempt o) 3 stage) o in
    (alive e2, o).

Record OperationState := mkState {
  st_Attempt : Z;
  st_Started : bool;
  st_Possible : bool;
  st_Confirmed : bool;
  st_Rejected : bool;
}.

Definition Finish (o : Operation) : OperationState * Operation :=
  (mkState (attempt o) (started o) (possible o) (confirmed o) (rejected o),
   mkOperation (attempt o) true (started o) (possible o) (confirmed o) (rejected o) (observe o) (events o)).

Definition MarkDeliveryStarted (c : Ctx) (o : Operation) : Operation :=
  if ctx_op c then
    mkOperation (attempt o) (terminal o) true (possible o) (confirmed o) (rejected o) (observe o) (events o)
  else o.

Definition BeforeDeliveryCommit (c : Ctx) (e1 e2 : option goerr) (o : Operation) :
    option goerr * Operation :=
  if ctx_op c then
    if terminal o then (Some ErrCanceled, o)
    else if negb (alive e1) then (e1, o)
    else
      let o := mkOperation (attempt o) (terminal o) (started o) true (confirmed o) false (observe o) (events o) in
      (e2, emit (mkProgress "delivery_commit" (attempt o) 3 "upload") o)
  else (e2, o).

Definition MarkDeliveryConfirmed (c : Ctx) (o : Operation) : Operation :=
  if ctx_op c then
    mkOperation (attempt o) (terminal o) (started o) true true (rejected o) (observe o) (events o)
  else o.

(** Durations are nanoseconds. *)
Definition OperationStallLimit (c : Ctx) (configured : Z) : Z :=
  if ctx_op c then Z.min configured (3 * 10 ^ 9) else configured.

Definition MarkDeliveryRejected (c : Ctx) (o : Operation) : Operation :=
  if ctx_op c then
    mkOperation (attempt o) (terminal o) (started o) (possible o) (confirmed o) true (observe o) (events o)
  else o.

Definition RetryAvailable (c : Ctx) (e : option goerr) (o : Operation) : bool :=
  if negb (alive e) then false
  else if negb (ctx_op c) then true
  else negb (ctx_noRetry c) && negb (terminal o) && negb (possible o) && (attempt o <? 3).

(** ** Runs: the stages of one operation in any interleaving *)

Inductive call :=
| CAllowRetry (c : Ctx) (e0 e1 e2 : option goerr) (stage : string)
| CStarted (c : Ctx)
| CCommit (c : Ctx) (e1 e2 : option goerr)
| CConfirmed (c : Ctx)
| CRejected (c : Ctx)
| CFinish.

(** The state after the call, and whether the caller may go on: a granted
    retry, or a commit that may release the final bytes. *)
Definition step (k : call) (o : Operation) : bool * Operation :=
  match k with
  | CAllowRetry c e0 e1 e2 stage => AllowRetry c e0 e1 e2 stage o
  | CStarted c => (false, MarkDeliveryStarted c o)
  | CCommit c e1 e2 => let '(e, o) := BeforeDeliveryCommit c e1 e2 o in (alive e, o)
  | CConfirmed c => (false, MarkDeliveryConfirmed c o)
  | CRejected c => (false, MarkDeliveryRejected c o)
  | CFinish => (false, (Finish o).2)
  end.

(** The calls that went on, with the state they left. *)
Fixpoint run (ks : list call) (o : Operation) : list (call * bool) * Operation :=
  match ks with
  | [] => ([], o)
  | k :: ks => let '(b, o) := step k o in
               let '(t, o) := run ks o in ((k, b) :: t, o)
  end.

(** A retry that consumed the shared allowance, and a commit of the
    operation's own delivery. *)
Definition granted (t : call * bool) : bool :=
  match t with (CAllowRetry c _ _ _ _, b) => ctx_op c && b | _ => false end.
Definition committed (t : call * bool) : bool :=
  match t with (CCommit c _ _, b) => ctx_op c && b | _ => false end.
Definition count (f : call * bool -> bool) (ts : list (call * bool)) : Z :=
  len (filter (fun t => f t = true) ts).

(** ** Properties *)

#[export] Hint Unfold AllowRetry BeforeDeliveryCommit Finish MarkDeliveryStarted
  MarkDeliveryConfirmed MarkDeliveryRejected emit set_attempt set_observe : operation.

(** Case analysis of one call. *)
Ltac step_cases k :=
  destruct k as [c e0 e1 e2 stage|c|c e1 e2|c|c|]; simpl;
  autounfold with operation; simpl; repeat (case_match; simpl in *; simplify_eq/=); try done.

Lemma count_cons f t ts : count f (t :: ts) = (if f t then 1 else 0) + count f ts.
Proof.
  unfold count. rewrite filter_cons. case_decide as E.
  - rewrite E, len_cons. lia.
  - destruct (f t); [done|lia].
Qed.

Lemma step_attempt k o :
  attempt o <= attempt (step k o).2 /\
  attempt o + (if granted (k, (step k o).1) then 1 else 0) <= attempt (step k o).2 /\
  (attempt (step k o).2 <= Z.max 3 (attempt o)).
Proof. step_cases k; bool_prop; first [congruence|lia]. Qed.

Lemma step_flags k o :
  (terminal o = true -> terminal (step k o).2 = true) /\
  (possible o = true -> possible (step k o).2 = true) /\
  (confirmed o = true -> confirmed (step k o).2 = true).
Proof. step_cases k. Qed.

(** A permitted commit leaves the operation possibly delivered, and forgets an
    earlier rejection. *)
Lemma step_committed k o :
  committed (k, (step k o).1) = true -> possible (step k o).2 = true /\ rejected (step k o).2 = false.
Proof.
  destruct k; simpl; try done. destruct (BeforeDeliveryCommit c e1 e2 o) as [e o3] eqn:E. simpl.
  unfold BeforeDeliveryCommit, emit in E. destruct (ctx_op c); [|done]. simpl.
  destruct (terminal o); [by injection E as <- <-|].
  destruct (alive e1) eqn:E1; simpl in E; simplify_eq; [|congruence]. intros _. by destruct (observe o).
Qed.

Lemma step_confirmed k o :
  (confirmed o = true -> possible o = true) ->
  confirmed (step k o).2 = true -> possible (step k o).2 = true.
Proof.
  intros Ho. destruct k; simpl; autounfold with operation; unfold BeforeDeliveryCommit, emit; simpl;
    repeat (case_match; simpl; simplify_eq/=); auto.
Qed.

Lemma step_blocked k o :
  terminal o = true \/ possible o = true -> granted (k, (step k o).1) = false.
Proof.
  destruct k; simpl; try done. unfold AllowRetry.
  intros [E|E]; rewrite E, ?orb_true_r; simpl; destruct (alive e0), (ctx_op c) eqn:Ec; simpl; by rewrite ?Ec.
Qed.

Lemma run_blocked ks o :
  terminal o = true \/ possible o = true -> count granted (run ks o).1 = 0.
Proof.
  revert o. induction ks as [|k ks IH]; intros o Ho; simpl; [done|].
  pose proof (step_blocked k o Ho) as Hb. pose proof (step_flags k o) as (Ht & Hp & _).
  destruct (step k o) as [b o1]. specialize (IH o1). destruct (run ks o1). cbn [fst snd] in *.
  rewrite count_cons, Hb. rewrite IH by tauto. lia.
Qed.

Lemma run_attempt ks o :
  attempt o + count granted (run ks o).1 <= attempt (run ks o).2 /\
  attempt o <= attempt (run ks o).2 <= Z.max 3 (attempt o).
Proof.
  revert o. induction ks as [|k ks IH]; intros o; simpl; [unfold count, len; simpl; lia|].
  pose proof (step_attempt k o) as (H1 & H2 & H3). destruct (step k o) as [b o1].
  specialize (IH o1). destruct (run ks o1). cbn [fst snd] in *. rewrite count_cons. lia.
Qed.

Lemma run_app ks1 ks2 o :
  run (ks1 ++ ks2) o =
  ((run ks1 o).1 ++ (run ks2 (run ks1 o).2).1, (run ks2 (run ks1 o).2).2).
Proof.
  revert o. induction ks1 as [|k ks1 IH]; intros o; simpl; [by destruct (run ks2 o)|].
  destruct (step k o) as [b o1]. rewrite IH. by destruct (run ks1 o1).
Qed.

(** C20. At most three attempts: whatever calls the stages of an operation that
    starts at attempt [n] make, and however they interleave, the attempt
    counter stays between [n] and 3 and at most [3 - n] retries are granted. *)
Theorem retry_allowance n ks :
  1 <= n <= 3 ->
  let r := run ks (NewOperation n) in
  n <= attempt r.2 <= 3 /\ count granted r.1 <= 3 - n.
Proof. intros Hn. pose proof (run_attempt ks (NewOperation n)). simpl in *. lia. Qed.

Lemma retry_allowance_witness :
  let c := mkCtx true false in
  let r := run [CAllowRetry c None None None "media"; CAllowRetry c None None None "media_range";
                CAllowRetry c None None None "media"] (NewOperation 2) in
  2 <= attempt r.2 <= 3 /\ count granted r.1 <= 3 - 2 /\ count granted r.1 = 1.
Proof.
  intros c r. destruct (retry_allowance 2 [CAllowRetry c None None None "media";
    CAllowRetry c None None None "media_range"; CAllowRetry c None None None "media"]) as [H1 H2]; [lia|].
  split; [exact H1|]. split; [exact H2|]. vm_compute. reflexivity.
Defined.

(** C19. Once a delivery commit was permitted, or the operation is finished,
    no stage is ever granted another retry: nothing after the point where
    Telegram may have received the message repeats work. *)
Theorem no_retry_after_commit n ks1 ks2 :
  let o := (run ks1 (NewOperation n)).2 in
  existsb committed (run ks1 (NewOperation n)).1 = true \/ terminal o = true ->
  count granted (run ks2 o).1 = 0.
Proof.
  intros o H. apply run_blocked. destruct H as [H|H]; [right|by left].
  unfold o. clear o. revert H. generalize (NewOperation n) as o.
  assert (forall k o, committed (k, (step k o).1) = true -> possible (step k o).2 = true) as Hstep.
  { intros k o. apply step_committed. }
  assert (forall ks o, possible o = true -> possible (run ks o).2 = true) as Hmono.
  { induction ks as [|k ks IH]; intros o Ho; simpl; [done|].
    pose proof (step_flags k o) as (_ & Hp & _). destruct (step k o) as [b o1].
    specialize (IH o1 (Hp Ho)). by destruct (run ks o1). }
  induction ks1 as [|k ks1 IH]; intros o; simpl; [done|].
  specialize (Hstep k o). destruct (step k o) as [b o1]. specialize (IH o1).
  pose proof (Hmono ks1 o1). destruct (run ks1 o1). simpl in *.
  intros [?|?]%orb_true_iff; auto.
Qed.

Lemma no_retry_after_commit_witness :
  let c := mkCtx true false in
  let o := (run [CStarted c; CCommit c None None] (NewOperation 1)).2 in
  count granted (run [CAllowRetry c None None None "media"] o).1 = 0.
Proof.
  intros c. apply (no_retry_after_commit 1 [CStarted c; CCommit c None None]). left. reflexivity.
Defined.

(** What [rejected] means: Telegram refused the send and nothing was
    committed since. *)
Lemma rejected_iff ks o :
  rejected o = false -> rejected (run ks o).2 = true ->
  exists ks1 c ks2, ks = ks1 ++ CRejected c :: ks2 /\ ctx_op c = true /\
    existsb committed (run ks2 (run (ks1 ++ [CRejected c]) o).2).1 = false.
Proof.
  induction ks as [|k ks IH] using rev_ind; intros Ho; simpl; [congruence|].
  rewrite run_app. set (o1 := (run ks o).2) in *. simpl.
  destruct (step k o1) as [b o2] eqn:Ek. simpl. intros Hr.
  destruct (rejected o1) eqn:Hr1.
  - destruct (IH Ho eq_refl) as (ks1 & c & ks2 & -> & Hc & Hno).
    exists ks1, c, (ks2 ++ [k]). split; [by rewrite <- app_assoc|]. split; [done|].
    rewrite (run_app ks2 [k]). cbn [fst snd]. rewrite existsb_app, Hno. simpl.
    assert ((run ks2 (run (ks1 ++ [CRejected c]) o).2).2 = o1) as ->.
    { unfold o1. rewrite (run_app ks1 (CRejected c :: ks2)). rewrite (run_app ks1 [_]). simpl.
      by destruct (run ks2 (MarkDeliveryRejected c (run ks1 o).2)). }
    rewrite Ek. simpl. rewrite orb_false_r.
    pose proof (step_committed k o1) as Hk. rewrite Ek in Hk. simpl in Hk.
    destruct k; simpl in *; try done. apply not_true_is_false. intros Hb. by destruct (Hk Hb); congruence.
  - assert (exists c, k = CRejected c /\ ctx_op c = true) as (c & -> & Hc).
    { revert Ek Hr. unfold step. destruct k; simpl; autounfold with operation;
        repeat case_match; intros; simplify_eq/=; eauto; congruence. }
    exists ks, c, []. split; [done|]. split; [done|]. done.
Qed.
