(* ===== verification/TelegramClient.v ===== *)
(** * The Telegram HTTP client

    Models src/internal/httpapi/telegram_client.go: the multipart body with
    its declared length and its held final bytes, [telegramClient.call] with
    the effect of every reply on the operation, [telegramResponse] and
    [albumBatches]; and [DeliveryEvent] of
    src/internal/httpapi/delivery_event.go.

    Request parameters ([fields]) are an association list: a Go map's iteration
    order is arbitrary, and the list is that order.  A parameter value is a
    JSON value.  Media bytes live in spool buffers, named by number; the body
    refers to ranges of them. *)
From S2P Require Import Prelude Strconv Errors Json Operation.

Abbreviation fields := (list (string * json)).

Record Prepared := mkPrepared {
  pr_Data : nat;
  pr_Filename : string;
  pr_ContentType : string;
  pr_Size : Z;
}.

(** [hold] is a gate function in the code; here whether there is one. *)
Record upload := mkUpload { up_Prepared : Prepared; up_Field : string; up_hold : bool }.

Definition heldBytes : Z := Z.shiftl 64 10.

(** ** The multipart body *)

Inductive reader :=
| RText (s : string)
| RMedia (buffer : nat) (from to : Z)
| RHold (item : upload).

Definition reader_len (r : reader) : Z :=
  match r with
  | RText s => Z.of_nat (String.length s)
  | RMedia _ from to => to - from
  | RHold _ => 0
  end.

Definition body_len (rs : list reader) : Z := fold_right (fun r n => reader_len r + n) 0 rs.

Definition str_concat (l : list string) : string := fold_right String.append EmptyString l.
Definition crlf : string := String CR (String LF EmptyString).

(** [mime/multipart]: the delimiter, the sorted headers and an empty line. *)
Definition part_header (boundary : string) (first : bool) (headers : list (string * string)) : string :=
  str_concat ((if first then "--"%string else String.append crlf "--") :: boundary :: crlf ::
    map (fun h => str_concat [h.1; ": "%string; h.2; crlf]) headers ++ [crlf]).

Definition escapeQuotes : string -> string :=
  replace_bytes (fun a =>
    if Ascii.eqb a "\" then Some "\\"%string
    else if Ascii.eqb a quote then Some (String "\" (String quote EmptyString))
    else None)%char.

Definition multipartQuote : string -> string :=
  replace_bytes (fun a =>
    if Ascii.eqb a "\" then Some "\\"%string
    else if Ascii.eqb a quote then Some (String "\" (String quote EmptyString))
    else if Ascii.eqb a CR then Some "_"%string
    else if Ascii.eqb a LF then Some "_"%string
    else None)%char.

(** The writer: pending text, readers so far, their size, and whether a part
    was written. *)
Record mpw := mkMpw { mp_buffer : string; mp_readers : list reader; mp_size : Z; mp_first : bool }.

Definition mp_write (s : string) (w : mpw) : mpw :=
  mkMpw (String.append (mp_buffer w) s) (mp_readers w) (mp_size w) false.

Definition mp_flush (w : mpw) : mpw :=
  match mp_buffer w with
  | EmptyString => w
  | s => mkMpw EmptyString (mp_readers w ++ [RText s]) (mp_size w + Z.of_nat (String.length s)) (mp_first w)
  end.

Definition field_text (v : json) : string :=
  match v with
  | JStr x => x
  | JBool b => if b then "true" else "false"
  | JNum x => x
  | _ => json_Marshal v
  end%string.

Definition has_upload (uploads : list upload) (key : string) : bool :=
  existsb (fun u => String.eqb (up_Field u) key) uploads.

Definition write_field (boundary : string) (uploads : list upload) (kv : string * json) (w : mpw) : mpw :=
  let '(key, value) := kv in
  match value with
  | JNull => w
  | _ =>
      if has_upload uploads key then w
      else
        let header := str_concat ["form-data; name="%string; quoted (escapeQuotes key)] in
        mp_write (field_text value)
          (mp_write (part_header boundary (mp_first w) [("Content-Disposition"%string, header)]) w)
  end.

Definition media_readers (item : upload) : list reader :=
  let p := up_Prepared item in
  if negb (up_hold item) then [RMedia (pr_Data p) 0 (pr_Size p)]
  else
    let held := pr_Size p - Z.min (pr_Size p) heldBytes in
    [RMedia (pr_Data p) 0 held; RHold item; RMedia (pr_Data p) held (pr_Size p)].

(** [sizes] is [Buffer.Size()] of each buffer when the body is built. *)
Definition write_upload (sizes : nat -> Z) (boundary : string) (item : upload) (w : mpw) : res goerr mpw :=
  let p := up_Prepared item in
  guard? sizes (pr_Data p) =? pr_Size p else ErrOther "prepared upload size changed" in
  let disposition :=
    str_concat ["form-data; name="%string; quoted (multipartQuote (up_Field item)); "; filename="%string;
                quoted (multipartQuote (pr_Filename p))] in
  let w := mp_write (part_header boundary (mp_first w)
             [("Content-Disposition"%string, disposition); ("Content-Type"%string, pr_ContentType p)]) w in
  let w := mp_flush w in
  Ok (mkMpw (mp_buffer w) (mp_readers w ++ media_readers item) (mp_size w + pr_Size p) (mp_first w)).

Fixpoint write_uploads (sizes : nat -> Z) (boundary : string) (items : list upload) (w : mpw) : res goerr mpw :=
  match items with
  | [] => Ok w
  | item :: items => let? w := write_upload sizes boundary item w in write_uploads sizes boundary items w
  end.

Definition multipartBody (sizes : nat -> Z) (boundary : string) (parameters : fields) (uploads : list upload) :
    res goerr (list reader * Z) :=
  let w := mkMpw EmptyString [] 0 true in
  let w := fold_left (fun w kv => write_field boundary uploads kv w) parameters w in
  let? w := write_uploads sizes boundary uploads w in
  let w := mp_flush (mp_write (str_concat [crlf; "--"%string; boundary; "--"%string; crlf]) w) in
  Ok (mp_readers w, mp_size w).

(** What the server receives while a gate is closed: the body up to it. *)
Fixpoint sent_before_hold (rs : list reader) : list reader :=
  match rs with
  | [] => []
  | RHold _ :: _ => []
  | r :: rs => r :: sent_before_hold rs
  end.

(** ** [telegramClient.call] *)

Record telegramCall := mkCall {
  tc_Method : string;
  tc_Status : Z;
  tc_Body : bytes;
  tc_ContentType : string;
  tc_Value : json;
  tc_OK : bool;
}.

Record clientSettings := mkSettings {
  TelegramBotToken : string;
  TelegramMaxBytes : Z;
}.

(** How the request itself ends: no response, a response whose body cannot be
    read, or a response with the at most 8 MiB + 1 bytes that were read. *)
Inductive exchange :=
| DoFailed
| ReadFailed
| Replied (status : Z) (contentType : string) (data : bytes).

(** What the surroundings decide during one call: the upload limiter's answer,
    the buffers' sizes, whether the URL is well formed, the readings of
    [ctx.Err()] at the commit and after a failure, whether the call's own
    timeout expired, and the exchange. *)
Record callEnv := mkEnv {
  en_acquire : option goerr;
  en_sizes : nat -> Z;
  en_boundary : string;
  en_urlOK : bool;
  en_commit1 : option goerr;
  en_commit2 : option goerr;
  en_ctxErr : option goerr;
  en_timedOut : bool;
  en_exchange : exchange;
}.

Definition call_failed (env : callEnv) (message : string) : goerr :=
  match en_ctxErr env with
  | Some e => e
  | None =>
      if en_timedOut env then ErrCore (NewError "telegram_timeout" "Telegram upload timed out" 504)
      else ErrCore (NewError "telegram_network_error" message 502)
  end.

(** The decoded reply: a malformed document and a bare number or boolean are
    kept as text. *)
Definition reply_value (data : bytes) : json :=
  match json_parse data with
  | Some (JNum _) | Some (JBool _) | None => JStr (string_of_bytes data)
  | Some v => v
  end.

Definition reply_ok (value : json) : bool := default false (jbool (jfield "ok" value)).

Definition in_2xx (status : Z) : bool := (200 <=? status) && (status <? 300).

(** Telegram refused the message: [ok] is false and the error code is 4xx. *)
Definition reply_rejected (status : Z) (value : json) : bool :=
  match jbool (jfield "ok" value), jnum (jfield "error_code" value) with
  | Some ok, Some code =>
      let n := ParseInt64 code in negb ok && (400 <=? n) && (n <? 500) && (status <? 500)
  | _, _ => false
  end.

Definition reply_mark (c : Ctx) (status : Z) (value : json) (o : Operation) : Operation :=
  if in_2xx status && reply_ok value then MarkDeliveryConfirmed c o
  else if reply_rejected status value then MarkDeliveryRejected c o
  else o.

Definition call (s : clientSettings) (env : callEnv) (c : Ctx) (method : string) (parameters : fields)
    (uploads : list upload) (o : Operation) : res goerr telegramCall * Operation :=
  if String.eqb (TelegramBotToken s) "" then
    (Err (ErrCore (NewError "service_not_configured" "Telegram delivery is not configured" 503)), o)
  else if existsb (fun u => (0 <? TelegramMaxBytes s) && (TelegramMaxBytes s <? pr_Size (up_Prepared u))) uploads then
    (Err (ErrCore (NewError "asset_too_large" "Telegram upload exceeds TELEGRAM_UPLOAD_MAX_MB" 413)), o)
  else
    match en_acquire env with
    | Some e => (Err e, o)
    | None =>
        match multipartBody (en_sizes env) (en_boundary env) parameters uploads with
        | Err e => (Err e, o)
        | Ok _ =>
            if negb (en_urlOK env) then
              (Err (ErrCore (NewError "telegram_network_error" "Telegram upload failed before a response" 502)), o)
            else
              let '(commit, o) :=
                if existsb up_hold uploads then (None, o)
                else BeforeDeliveryCommit c (en_commit1 env) (en_commit2 env) o in
              match commit with
              | Some e => (Err e, o)
              | None =>
                  let o := MarkDeliveryStarted c o in
                  match en_exchange env with
                  | DoFailed => (Err (call_failed env "Telegram upload failed before a response"), o)
                  | ReadFailed => (Err (call_failed env "Telegram response could not be read"), o)
                  | Replied status contentType data =>
                      if Z.shiftl 8 20 <? len data then
                        (Err (ErrCore (NewError "telegram_network_error" "Telegram response exceeds size limit" 502)), o)
                      else
                        let value := reply_value data in
                        let contentType := if String.eqb contentType "" then "application/json"%string else contentType in
                        (Ok (mkCall method status data contentType value (in_2xx status && reply_ok value)),
                         reply_mark c status value o)
                  end
              end
        end
    end.

(** ** [DeliveryEvent] *)

Record DeliveryEvent := mkEvent {
  ev_Outcome : string;
  ev_FailedStage : string;
  ev_Batches : Z;
  ev_Attempts : Z;
  ev_Succeeded : Z;
  ev_ErrorCode : string;
  ev_TelegramStatus : Z;
  ev_TelegramErrorCode : Z;
}.

Definition record (call : telegramCall) (e : DeliveryEvent) : DeliveryEvent :=
  if tc_OK call then
    mkEvent (ev_Outcome e) (ev_FailedStage e) (ev_Batches e) (ev_Attempts e) (ev_Succeeded e + 1)
      (ev_ErrorCode e) (ev_TelegramStatus e) (ev_TelegramErrorCode e)
  else
    mkEvent "rejected" (ev_FailedStage e) (ev_Batches e) (ev_Attempts e) (ev_Succeeded e)
      (ev_ErrorCode e) (tc_Status call)
      match jnum (jfield "error_code" (tc_Value call)) with
      | Some code => ParseInt64 code
      | None => ev_TelegramErrorCode e
      end.

Definition failure_code (err : goerr) : string :=
  match as_core err with
  | Some failure => Code failure
  | None =>
      if is_deadline err then "upstream_timeout"
      else if is_canceled err then "request_canceled"
      else "internal_error"
  end%string.

Definition finish (err : option goerr) (e : DeliveryEvent) : DeliveryEvent :=
  let '(outcome, code) :=
    match err with Some err => ("failed"%string, failure_code err) | None => (ev_Outcome e, ev_ErrorCode e) end in
  if String.eqb outcome "" then
    mkEvent "succeeded" "" (ev_Batches e) (ev_Attempts e) (ev_Succeeded e) code (ev_TelegramStatus e)
      (ev_TelegramErrorCode e)
  else
    mkEvent (if 0 <? ev_Succeeded e then "partial"%string else outcome) (ev_FailedStage e) (ev_Batches e)
      (ev_Attempts e) (ev_Succeeded e) code (ev_TelegramStatus e) (ev_TelegramErrorCode e).

Definition set_event_stage (stage : string) (e : DeliveryEvent) : DeliveryEvent :=
  mkEvent (ev_Outcome e) stage (ev_Batches e) (ev_Attempts e) (ev_Succeeded e) (ev_ErrorCode e)
    (ev_TelegramStatus e) (ev_TelegramErrorCode e).
Definition add_attempt (e : DeliveryEvent) : DeliveryEvent :=
  mkEvent (ev_Outcome e) (ev_FailedStage e) (ev_Batches e) (ev_Attempts e + 1) (ev_Succeeded e) (ev_ErrorCode e)
    (ev_TelegramStatus e) (ev_TelegramErrorCode e).

(** ** [telegramResponse] and [albumBatches] *)

Record deliveryResult := mkResult {
  dr_Method : string;
  dr_Status : Z;
  dr_ContentType : string;
  dr_Body : bytes;
  dr_Event : option DeliveryEvent;
}.
Definition no_result : deliveryResult := mkResult "" 0 "" [] None.

Definition telegramResponse (calls : list telegramCall) : res goerr deliveryResult :=
  match calls with
  | [] => Err (ErrCore (NewError "internal_error" "Telegram delivery produced no result" 500))
  | [c] => Ok (mkResult (tc_Method c) (tc_Status c) (tc_ContentType c) (tc_Body c) None)
  | _ =>
      let allOK := forallb tc_OK calls in
      let someOK := existsb tc_OK calls in
      let deliveries := map (fun c => JObj [("method", JStr (tc_Method c));
        ("status_code", JNum (Itoa (tc_Status c))); ("response", tc_Value c)])%string calls in
      Ok (mkResult "" (if allOK then 200 else 207) "application/json"
        (json_print (JObj [("ok", JBool allOK); ("partial", JBool (negb allOK && someOK));
                           ("deliveries", JArr deliveries)])%string) None)
  end.

Fixpoint album_loop {A} (fuel : nat) (items : list A) : list (list A) :=
  match fuel with
  | O => []
  | S fuel =>
      if 10 <? len items then
        let count := if len items =? 11 then 9 else 10 in
        take (Z.to_nat count) items :: album_loop fuel (drop (Z.to_nat count) items)
      else if 0 <? len items then [items] else []
  end.

(** Every turn of the loop drops at least nine items. *)
Definition albumBatches {A} (items : list A) : list (list A) := album_loop (S (length items)) items.

(** ** Lemmas on the body *)

Lemma body_len_app rs1 rs2 : body_len (rs1 ++ rs2) = body_len rs1 + body_len rs2.
Proof. induction rs1; simpl; lia. Qed.

Lemma body_len_cons r rs : body_len (r :: rs) = reader_len r + body_len rs.
Proof. done. Qed.

Lemma str_length_app s t : String.length (String.append s t) = (String.length s + String.length t)%nat.
Proof. induction s; simpl; [done|]. by rewrite IHs. Qed.

(** The writer's account: the size counts every reader. *)
Definition mp_ok (w : mpw) : Prop := body_len (mp_readers w) = mp_size w.

Lemma mp_write_ok s w : mp_ok w -> mp_ok (mp_write s w).
Proof. done. Qed.

Lemma mp_flush_ok w : mp_ok w -> mp_ok (mp_flush w).
Proof.
  unfold mp_ok, mp_flush. destruct (mp_buffer w); [done|]. simpl.
  rewrite body_len_app. simpl. lia.
Qed.

Lemma write_field_ok b us kv w : mp_ok w -> mp_ok (write_field b us kv w).
Proof. intros. unfold write_field. repeat case_match; done. Qed.

Lemma media_readers_len item : body_len (media_readers item) = pr_Size (up_Prepared item).
Proof. unfold media_readers. destruct (up_hold item); simpl; lia. Qed.

Lemma write_upload_ok sizes b item w w' :
  mp_ok w -> write_upload sizes b item w = Ok w' -> mp_ok w'.
Proof.
  unfold write_upload. intros Hw. destruct (_ =? _); [|done]. intros [= <-].
  unfold mp_ok. cbn [mp_readers mp_size]. rewrite body_len_app, media_readers_len. f_equal.
  by apply mp_flush_ok, mp_write_ok.
Qed.

Lemma write_uploads_ok sizes b items w w' :
  mp_ok w -> write_uploads sizes b items w = Ok w' -> mp_ok w'.
Proof.
  revert w. induction items as [|item items IH]; intros w Hw; simpl; [by intros [= <-]|].
  intros (w1 & H1 & H2)%rbind_ok_inv. eapply IH; [|done]. by eapply write_upload_ok.
Qed.

Lemma write_fields_ok b us ps w : mp_ok w -> mp_ok (fold_left (fun w kv => write_field b us kv w) ps w).
Proof. revert w. induction ps; intros w Hw; simpl; [done|]. apply IHps. by apply write_field_ok. Qed.

(** A held upload puts its gate into the body, before its final bytes. *)
Lemma write_upload_readers sizes b item w w' :
  write_upload sizes b item w = Ok w' ->
  exists rs, mp_readers w' = mp_readers w ++ rs ++ media_readers item.
Proof.
  unfold write_upload. destruct (_ =? _); [|done]. intros [= <-]. simpl. unfold mp_flush.
  destruct (mp_buffer _); simpl; [by exists []|]. eexists [_]. by rewrite <- app_assoc.
Qed.

Lemma write_uploads_readers sizes b items w w' item :
  write_uploads sizes b items w = Ok w' -> item ∈ items ->
  exists rs1 rs2, mp_readers w' = rs1 ++ media_readers item ++ rs2.
Proof.
  revert w. induction items as [|x items IH]; intros w; simpl; [by intros _ H%elem_of_nil|].
  intros (w1 & H1 & H2)%rbind_ok_inv [->|Hin]%elem_of_cons; [|by eapply IH].
  destruct (write_upload_readers _ _ _ _ _ H1) as [rs E1].
  assert (exists rs2, mp_readers w' = mp_readers w1 ++ rs2) as [rs2 E2].
  { clear IH H1 E1 rs. revert w1 H2. induction items as [|y items IH]; intros w1; simpl.
    - intros [= <-]. exists []. by rewrite app_nil_r.
    - intros (w2 & H3 & H4)%rbind_ok_inv. destruct (IH _ H4) as [rs2 ->].
      destruct (write_upload_readers _ _ _ _ _ H3) as [rs ->]. eexists. by rewrite <- app_assoc. }
  exists (mp_readers w ++ rs), rs2. by rewrite E2, E1, <- !app_assoc.
Qed.

Lemma sent_before_hold_prefix rs : exists rs2, rs = sent_before_hold rs ++ rs2.
Proof.
  induction rs as [|r rs [rs2 IH]]; simpl; [by exists []|].
  destruct r; simpl; [exists rs2; by rewrite IH at 1..|exists rs2; by rewrite IH at 1|by eexists].
Qed.

Lemma sent_before_hold_split rs1 u rs2 : exists rs, rs1 = sent_before_hold (rs1 ++ RHold u :: rs2) ++ rs.
Proof.
  induction rs1 as [|r rs1 [rs IH]]; simpl; [by exists []|].
  destruct r; simpl; [exists rs; by rewrite <- IH|exists rs; by rewrite <- IH|by eexists].
Qed.

(** Every reader's length is a length once the uploads have sizes. *)
Definition reader_nonneg (r : reader) : Prop := 0 <= reader_len r.

Lemma body_len_nonneg rs : Forall reader_nonneg rs -> 0 <= body_len rs.
Proof. induction 1; unfold reader_nonneg in *; simpl; lia. Qed.

Lemma media_readers_nonneg item : 0 <= pr_Size (up_Prepared item) -> Forall reader_nonneg (media_readers item).
Proof.
  intros. unfold media_readers, reader_nonneg. assert (heldBytes = 65536) by reflexivity.
  destruct (up_hold item); simpl; rewrite ?Forall_cons, ?Forall_nil; simpl; lia.
Qed.

Lemma mp_flush_nonneg w : Forall reader_nonneg (mp_readers w) -> Forall reader_nonneg (mp_readers (mp_flush w)).
Proof.
  intros. unfold mp_flush. destruct (mp_buffer w); [done|]. simpl. apply Forall_app. split; [done|].
  repeat constructor. unfold reader_nonneg. simpl. lia.
Qed.

Lemma write_uploads_nonneg sizes b items w w' :
  Forall (fun u => 0 <= pr_Size (up_Prepared u)) items -> Forall reader_nonneg (mp_readers w) ->
  write_uploads sizes b items w = Ok w' -> Forall reader_nonneg (mp_readers w').
Proof.
  intros Hs. revert w. induction Hs as [|item items Hi Hs IH]; intros w Hw; simpl; [by intros [= <-]|].
  intros (w1 & H1 & H2)%rbind_ok_inv. eapply IH; [|done].
  unfold write_upload in H1. destruct (_ =? _); [|done]. injection H1 as <-. simpl.
  apply Forall_app. split; [by apply mp_flush_nonneg|by apply media_readers_nonneg].
Qed.

Lemma write_fields_readers b us ps w :
  mp_readers (fold_left (fun w kv => write_field b us kv w) ps w) = mp_readers w.
Proof.
  revert w. induction ps as [|[k v] ps IH]; intros w; simpl; [done|]. rewrite IH.
  unfold write_field. by repeat case_match.
Qed.

(** The declared Content-Length of a Telegram request is exact: it is the
    number of bytes the body's readers produce, whatever the parameters, the
    files and the gates are. *)
Theorem multipartBody_length sizes b ps us rs n :
  multipartBody sizes b ps us = Ok (rs, n) -> body_len rs = n.
Proof.
  unfold multipartBody. intros (w & H1 & H2)%rbind_ok_inv. injection H2 as <- <-.
  apply mp_flush_ok. apply mp_write_ok. eapply write_uploads_ok; [|done]. by apply write_fields_ok.
Qed.

(** A file whose buffer has the prepared size, and one parameter. *)
Definition sample_upload : upload := mkUpload (mkPrepared 7 "a.mp4" "video/mp4" 100000) "video_file" true.

Lemma multipartBody_length_witness :
  exists rs n, multipartBody (fun _ => 100000) "B" [("chat_id", JNum "5")]%string [sample_upload] = Ok (rs, n) /\
    body_len rs = n /\ n = 100168.
Proof.
  eexists. eexists. split; [vm_compute; reflexivity|].
  split; [|reflexivity].
  apply (multipartBody_length (fun _ => 100000) "B" [("chat_id", JNum "5")]%string [sample_upload]).
  vm_compute. reflexivity.
Defined.

(** C11. A gated upload can be aborted: while the gate of an upload with hold
    is closed, the server has received strictly less than the declared length,
    short of at least the final [min size 64KiB] bytes of that file, so an
    aborted streamed send is never a complete request. *)
Theorem held_body_incomplete sizes b ps us rs n item :
  multipartBody sizes b ps us = Ok (rs, n) ->
  Forall (fun u => 0 <= pr_Size (up_Prepared u)) us ->
  item ∈ us -> up_hold item = true ->
  body_len (sent_before_hold rs) + Z.min (pr_Size (up_Prepared item)) heldBytes < n.
Proof.
  intros Hm Hs Hin Hh. unfold multipartBody in Hm. apply rbind_ok_inv in Hm as (w & H1 & H2).
  set (tail := str_concat [crlf; "--"%string; b; "--"%string; crlf]) in H2.
  assert (mp_ok w) as Hw by (eapply write_uploads_ok; [|done]; by apply write_fields_ok).
  assert (Forall reader_nonneg (mp_readers w)) as Hnn.
  { eapply write_uploads_nonneg; [exact Hs| |done]. by rewrite write_fields_readers. }
  destruct (write_uploads_readers _ _ _ _ _ item H1 Hin) as (rs1 & rs2 & Er).
  assert (exists s, rs = mp_readers w ++ [RText s] /\ n = mp_size w + Z.of_nat (String.length s) /\
    0 < Z.of_nat (String.length s)) as (s & -> & -> & Hpos).
  { assert (exists a t, String.append (mp_buffer w) tail = String a t) as (a & t & Et).
    { destruct (mp_buffer w); simpl; eauto. }
    unfold mp_flush, mp_write in H2. cbn [mp_buffer mp_readers mp_size] in H2. rewrite Et in H2.
    injection H2 as <- <-. eexists; split; [done|]. split; [done|]. simpl. lia. }
  unfold mp_ok in Hw. rewrite <- Hw, Er. unfold media_readers. rewrite Hh. cbn [negb].
  rewrite <- !app_assoc. cbn [app]. rewrite Er in Hnn. unfold media_readers in Hnn. rewrite Hh in Hnn.
  cbn [negb] in Hnn. apply Forall_app in Hnn as [Hrs1 Hnn]. apply Forall_app in Hnn as [Hm2 Hnn].
  set (held := pr_Size (up_Prepared item) - Z.min (pr_Size (up_Prepared item)) heldBytes) in *.
  set (d := pr_Data (up_Prepared item)) in *. set (sz := pr_Size (up_Prepared item)) in *.
  change (RMedia d 0 held :: RHold item :: RMedia d held sz :: rs2 ++ [RText s]) with
    ([RMedia d 0 held] ++ RHold item :: RMedia d held sz :: rs2 ++ [RText s]).
  rewrite app_assoc.
  destruct (sent_before_hold_split (rs1 ++ [RMedia d 0 held]) item (RMedia d held sz :: rs2 ++ [RText s]))
    as [skipped Esk].
  assert (0 <= body_len skipped) as Hsk.
  { apply body_len_nonneg. assert (Forall reader_nonneg (rs1 ++ [RMedia d 0 held])) as Hall.
    { apply Forall_app. split; [|by inversion Hm2; subst; repeat constructor]. exact Hrs1. }
    rewrite Esk in Hall. by apply Forall_app in Hall as [_ ?]. }
  pose proof (f_equal body_len Esk) as El. rewrite !body_len_app in *. apply body_len_nonneg in Hnn. simpl in *. lia.
Qed.

Lemma held_body_incomplete_witness :
  exists rs n, multipartBody (fun _ => 100000) "B" [("chat_id", JNum "5")]%string [sample_upload] = Ok (rs, n) /\
    body_len (sent_before_hold rs) + Z.min 100000 heldBytes < n.
Proof.
  eexists. eexists. split; [vm_compute; reflexivity|].
  apply (held_body_incomplete (fun _ => 100000) "B" [("chat_id", JNum "5")]%string [sample_upload] _ _ sample_upload).
  - vm_compute. reflexivity.
  - repeat constructor. simpl. lia.
  - apply list_elem_of_here.
  - reflexivity.
Defined.

(** ** Album batches *)

(** Telegram accepts media groups of two to ten items. *)
Lemma album_loop_spec {A} fuel (items : list A) :
  (length items < fuel)%nat ->
  concat (album_loop fuel items) = items /\
  len (album_loop fuel items) = (len items + 9) / 10 /\
  Forall (fun b => 1 <= len b <= 10 /\ (len items <> 1 -> 2 <= len b)) (album_loop fuel items).
Proof.
  revert items. induction fuel as [|fuel IH]; intros items Hf; [lia|]. cbn [album_loop].
  destruct (Z.ltb_spec 10 (len items)) as [Hbig|Hsmall].
  - set (cnt := if len items =? 11 then 9 else 10).
    assert (9 <= cnt <= 10 /\ cnt <= len items - 2) as [Hc1 Hc2].
    { unfold cnt. destruct (Z.eqb_spec (len items) 11); lia. }
    assert (len (drop (Z.to_nat cnt) items) = len items - cnt) as Hd.
    { unfold len in *. rewrite length_drop. lia. }
    destruct (IH (drop (Z.to_nat cnt) items)) as (I1 & I2 & I3).
    { unfold len in *. rewrite length_drop. lia. }
    split; [simpl; rewrite I1; apply take_drop|]. split.
    + rewrite len_cons, I2, Hd. unfold cnt. destruct (Z.eqb_spec (len items) 11) as [->|]; [reflexivity|].
      replace (len items + 9) with ((len items - 10 + 9) + 1 * 10) by lia. rewrite Z.div_add by lia. lia.
    + constructor.
      * assert (len (take (Z.to_nat cnt) items) = cnt) as ->.
        { unfold len in *. rewrite length_take. lia. } lia.
      * eapply Forall_impl; [exact I3|]. intros b Hb. rewrite Hd in Hb. lia.
  - destruct (Z.ltb_spec 0 (len items)) as [Hpos|Hz].
    + split; [simpl; apply app_nil_r|]. split.
      * rewrite len_cons, len_nil. assert (1 <= len items <= 10) by lia.
        apply (Z.div_unique_pos _ 10 _ (len items - 1)); lia.
      * repeat constructor; lia.
    + assert (items = []) as -> by (destruct items; [done|rewrite len_cons in Hz; pose proof (len_nonneg items); lia]).
      repeat split. constructor.
Qed.

(** [albumBatches] loses, repeats and reorders nothing, makes exactly the
    [(n + 9) / 10] batches that the delivery event announces, and every batch
    is one Telegram accepts: two to ten items (a single item stays alone). *)
Theorem albumBatches_spec {A} (items : list A) :
  concat (albumBatches items) = items /\
  len (albumBatches items) = (len items + 9) / 10 /\
  Forall (fun b => 1 <= len b <= 10 /\ (len items <> 1 -> 2 <= len b)) (albumBatches items).
Proof. apply album_loop_spec. lia. Qed.

(** ** Replies *)

(** The operation is changed by a reply in one of three ways. *)
Lemma reply_mark_cases c status v o :
  reply_mark c status v o = MarkDeliveryConfirmed c o \/ reply_mark c status v o = MarkDeliveryRejected c o \/
  reply_mark c status v o = o.
Proof. unfold reply_mark. repeat case_match; auto. Qed.

Ltac call_done := simpl; repeat split; intros; simplify_eq/=; try done.

(** Delivery ambiguity is recorded conservatively: when a Telegram call
    whose upload is complete (no gate) actually sends its request, the
    operation is marked as possibly delivered first; it becomes confirmed only
    by a 2xx reply whose [ok] is true, and rejected only by a parsed
    [ok: false] with a 4xx error code under a status below 500; a transport
    failure, an oversized or malformed reply and a 5xx leave it merely
    possible. *)
Theorem call_marks s env c method ps us n :
  ctx_op c = true -> existsb up_hold us = false ->
  let '(r, o) := call s env c method ps us (NewOperation n) in
  (started o = true -> possible o = true) /\
  (confirmed o = true -> exists t, r = Ok t /\ in_2xx (tc_Status t) = true /\ tc_OK t = true) /\
  (rejected o = true -> exists t, r = Ok t /\ tc_OK t = false /\ tc_Status t < 500 /\
     reply_rejected (tc_Status t) (tc_Value t) = true) /\
  (possible o = true -> rejected o = false -> confirmed o = false ->
     match r with Ok t => tc_OK t = false | Err _ => True end).
Proof.
  intros Hc Hh. unfold call. destruct (String.eqb _ _); [call_done|].
  destruct (existsb (fun u => _ && _) us); [call_done|].
  destruct (en_acquire env); [call_done|].
  destruct (multipartBody _ _ _ _); [|call_done].
  destruct (en_urlOK env); [|call_done]. cbn [negb].
  rewrite Hh. unfold BeforeDeliveryCommit. rewrite Hc. cbn [terminal NewOperation].
  destruct (en_commit1 env); [call_done|]. destruct (en_commit2 env); [call_done|].
  unfold MarkDeliveryStarted. rewrite Hc. cbn [alive negb].
  destruct (en_exchange env) as [| |st ct data]; [call_done..|].
  destruct (Z.shiftl 8 20 <? len data); [call_done|].
  unfold reply_mark, MarkDeliveryConfirmed, MarkDeliveryRejected. rewrite Hc.
  set (v := reply_value data). destruct (in_2xx st && reply_ok v) eqn:Eok.
  { call_done. eexists. split; [done|].
    cbn [tc_Status tc_OK tc_Value]. apply andb_true_iff in Eok as [? _]. done. }
  destruct (reply_rejected st v) eqn:Er; [|call_done].
  call_done. eexists. split; [done|]. cbn [tc_Status tc_OK tc_Value]. rewrite Er. split; [done|]. split; [|done].
  unfold reply_rejected in Er. repeat (case_match; [|done]). bool_prop. lia.
Qed.

Lemma call_marks_witness :
  let c := mkCtx true false in
  let env := mkEnv None (fun _ => 5) "B" true None None None false
    (Replied 400 "" (json_print (JObj [("ok", JBool false); ("error_code", JNum "400")])))%string in
  let us := [mkUpload (mkPrepared 1 "a" "b" 5) "document_file" false] in
  let o := (call (mkSettings "t" 0) env c "sendDocument" [] us (NewOperation 1)).2 in
  (started o = true -> possible o = true) /\ rejected o = true.
Proof.
  intros c env us o. pose proof (call_marks (mkSettings "t" 0) env c "sendDocument" [] us 1 eq_refl eq_refl) as H.
  split; [|vm_compute; reflexivity].
  exact (proj1 H).
Defined.

(** Combined outcome of an album: 200 exactly if every batch was accepted,
    207 otherwise; one call is passed through unchanged, none is an internal
    error. *)
Theorem telegramResponse_status calls :
  match telegramResponse calls with
  | Err _ => calls = []
  | Ok r =>
      match calls with
      | [c] => dr_Status r = tc_Status c /\ dr_Body r = tc_Body c
      | _ => (dr_Status r = 200 <-> Forall (fun c => tc_OK c = true) calls) /\
             (dr_Status r = 200 \/ dr_Status r = 207)
      end
  end.
Proof.
  unfold telegramResponse. destruct calls as [|c1 [|c2 cs]]; [done|done|].
  set (all := c1 :: c2 :: cs). cbn [dr_Status].
  destruct (forallb tc_OK all) eqn:E; simpl.
  - split; [|by left]. split; [|done]. intros _. by apply forallb_Forall.
  - split; [|by right]. split; [done|]. intros H. apply forallb_Forall in H. congruence.
Qed.
