(* ===== verification/OperationApi.v ===== *)
(** * The operation protocol of the HTTP API

    Models src/internal/httpapi/operation.go: which requests carry an
    operation budget ([operationPath], [operationRequest]) and the terminal
    event that tells the client whether it may retry ([operationTerminal]). *)
From S2P Require Import Prelude Strconv Errors Json Operation TelegramClient.

Definition operationPath (path : string) : bool :=
  match path with
  | "/v1/tiktok/resolutions" | "/v1/tiktok/extractions" | "/v1/tiktok/music"
  | "/v1/tiktok/telegram-deliveries" => true
  | _ => false
  end%string.

Definition invalidRequest : goerr := ErrCore (NewError "validation_error" "Request validation failed" 422).

(** The headers and path the decision reads; an absent header is empty. *)
Record operationHeaders := mkHeaders {
  oh_Budget : string;
  oh_Attempt : string;
  oh_Accept : string;
  oh_Path : string;
}.

(** [None]: an ordinary request; [Some (budget, n)]: a context with that
    timeout in milliseconds and [NewOperation n]. *)
Definition operationRequest (r : operationHeaders) : res goerr (option (Z * Operation)) :=
  if String.eqb (oh_Budget r) "" then
    if negb (String.eqb (oh_Attempt r) "") ||
       (operationPath (oh_Path r) && String.eqb (oh_Accept r) "application/x-ndjson")
    then Err invalidRequest
    else Ok None
  else
    match Atoi (oh_Budget r) with
    | None => Err invalidRequest
    | Some millis =>
        if (millis <? 1) || (15000 <? millis) || negb (operationPath (oh_Path r)) then Err invalidRequest
        else if negb (String.eqb (oh_Attempt r) "") then
          match Atoi (oh_Attempt r) with
          | None => Err invalidRequest
          | Some n => if (n <? 1) || (3 <? n) then Err invalidRequest
                      else Ok (Some (millis, NewOperation n))
          end
        else Ok (Some (millis, NewOperation 1))
    end.

(** The part of a response the terminal event is made from. *)
Record response := mkResponse {
  rs_status : Z;
  rs_data : bytes;
  rs_errorCode : string;
  rs_delivery : option DeliveryEvent;
}.

Record terminalEvent := mkTerminal {
  te_Attempt : Z;
  te_Maximum : Z;
  te_Status : Z;
  te_Outcome : string;
  te_ErrorCode : string;
  te_DeliveryState : string;
  te_SafeToRetry : bool;
  te_Result : bytes;
}.

(** The assignments to [DeliveryState] and [SafeToRetry], in source order. *)
Definition delivery_state (state : OperationState) (delivery : option DeliveryEvent) : string * bool :=
  let t := ("not_started", true) in
  let t := if st_Started state then ("uncommitted", t.2) else t in
  let t := if st_Possible state then ("unknown", false) else t in
  let t := if st_Confirmed state then ("confirmed", false) else t in
  match delivery with
  | None => t
  | Some d =>
      let t := if String.eqb (ev_Outcome d) "partial" then ("partial", false) else t in
      if String.eqb (ev_Outcome d) "rejected" && st_Rejected state && negb (st_Confirmed state)
      then ("rejected", true) else t
  end%string.

Definition terminal_outcome (state : OperationState) (delivery : option DeliveryEvent) (err : option goerr) : string :=
  let outcome := match err with Some _ => "failed" | None => "succeeded" end in
  let outcome := match delivery with Some d => ev_Outcome d | None => outcome end in
  let outcome := match err with Some e => if is_canceled e then "canceled" else outcome | None => outcome end in
  if String.eqb outcome "rejected" && negb (st_Rejected state) then "failed" else outcome%string.

Definition operationTerminal (o : Operation) (result : response) (err : option goerr) : terminalEvent * Operation :=
  let '(state, o) := Finish o in
  let '(delivery, safe) := delivery_state state (rs_delivery result) in
  let outcome := terminal_outcome state (rs_delivery result) err in
  (mkTerminal (st_Attempt state) 3 (rs_status result) outcome (rs_errorCode result) delivery
     (if String.eqb outcome "succeeded" then false else safe)
     (if json_Valid (rs_data result) then rs_data result else bytes_of_string "null"), o).

(** ** Properties *)

(** Admission: an accepted budget is between 1 ms and 15 s on one of the
    four operation paths and starts at attempt 1 to 3; a continuation header or
    an NDJSON request without a budget is refused, and so is any budget that
    does not parse. *)
Theorem operationRequest_spec r :
  match operationRequest r with
  | Ok (Some (millis, o)) =>
      1 <= millis <= 15000 /\ 1 <= attempt o <= 3 /\ operationPath (oh_Path r) = true /\
      Atoi (oh_Budget r) = Some millis /\
      (oh_Attempt r = ""%string -> attempt o = 1) /\
      (oh_Attempt r <> ""%string -> Atoi (oh_Attempt r) = Some (attempt o))
  | Ok None => oh_Budget r = ""%string /\ oh_Attempt r = ""%string
  | Err e => e = invalidRequest
  end.
Proof.
  unfold operationRequest. destruct (String.eqb_spec (oh_Budget r) "") as [Eb|Eb].
  { destruct (String.eqb_spec (oh_Attempt r) "") as [Ea|Ea]; simpl; [|done]. by destruct (_ && _). }
  destruct (Atoi (oh_Budget r)) as [m|] eqn:Em; [|done].
  destruct (_ || _) eqn:Ec; [done|]. bool_prop.
  destruct (String.eqb_spec (oh_Attempt r) "") as [Ea|Ea]; simpl.
  { rewrite Ea. repeat split; try done; lia. }
  destruct (Atoi (oh_Attempt r)) as [n|] eqn:En; [|done].
  destruct ((n <? 1) || (3 <? n)) eqn:Er; [done|]. bool_prop. simpl. repeat split; try done; lia.
Qed.

(** C1. Duplicate safety: whatever the stages of an operation did, in any
    interleaving, a terminal event that says [safe_to_retry] was either never
    committed to Telegram, or the last commit was followed by Telegram's own
    refusal; nothing was confirmed, and the call did not succeed. *)
Theorem safe_to_retry_sound n ks result err :
  let r := run ks (NewOperation n) in
  let t := (operationTerminal r.2 result err).1 in
  te_SafeToRetry t = true ->
  confirmed r.2 = false /\ te_Outcome t <> "succeeded"%string /\
  (possible r.2 = false \/
   exists ks1 c ks2, ks = ks1 ++ CRejected c :: ks2 /\ ctx_op c = true /\
     existsb committed (run ks2 (run (ks1 ++ [CRejected c]) (NewOperation n)).2).1 = false).
Proof.
  cbn zeta. unfold operationTerminal, Finish.
  pose proof (rejected_iff ks (NewOperation n) eq_refl) as Hrej.
  assert (possible (run ks (NewOperation n)).2 = false -> confirmed (run ks (NewOperation n)).2 = false) as Hpc.
  { assert (forall ks o, (confirmed o = true -> possible o = true) ->
      confirmed (run ks o).2 = true -> possible (run ks o).2 = true) as Hmono.
    { clear. induction ks as [|k ks IH]; intros o Ho; simpl; [done|].
      pose proof (step_confirmed k o Ho) as H1. destruct (step k o) as [b o1].
      specialize (IH o1 H1). by destruct (run ks o1). }
    specialize (Hmono ks (NewOperation n)). intros Hp.
    destruct (confirmed (run ks (NewOperation n)).2); [|done]. rewrite Hmono in Hp; done. }
  destruct (run ks (NewOperation n)) as [ts o]. simpl in *. unfold delivery_state. simpl.
  set (outcome := terminal_outcome _ _ _).
  destruct (String.eqb_spec outcome "succeeded") as [->|Hout].
  { by destruct (match rs_delivery result with Some _ => _ | None => _ end). }
  destruct (confirmed o) eqn:Ec.
  { destruct (rs_delivery result) as [d|]; simpl; [|done]. rewrite !andb_false_r.
    destruct (String.eqb (ev_Outcome d) "partial"); done. }
  destruct (possible o) eqn:Ep; [|intros _; split; [done|]; split; [|by left];
    by destruct (match rs_delivery result with Some _ => _ | None => _ end)].
  destruct (rs_delivery result) as [d|]; simpl; [|done].
  destruct (rejected o) eqn:Er; [|rewrite andb_false_r; simpl; destruct (String.eqb _ _); done].
  destruct (String.eqb (ev_Outcome d) "rejected"); simpl; [|destruct (String.eqb _ _); done].
  intros _. split; [done|]. split; [done|]. right. by apply Hrej.
Qed.

Lemma safe_to_retry_sound_witness :
  let c := mkCtx true false in
  let ks := [CStarted c; CCommit c None None; CRejected c] in
  let ev := finish None (record (mkCall "sendVideo" 400 [] "" JNull false) (mkEvent "" "upload" 1 1 0 "" 0 0)) in
  let t := (operationTerminal (run ks (NewOperation 1)).2 (mkResponse 400 [] "" (Some ev)) None).1 in
  te_SafeToRetry t = true /\ te_DeliveryState t = "rejected"%string /\ te_Outcome t <> "succeeded"%string.
Proof.
  intros c ks ev t. assert (te_SafeToRetry t = true) as Hs by (vm_compute; reflexivity).
  split; [exact Hs|]. split; [vm_compute; reflexivity|].
  exact (proj1 (proj2 (safe_to_retry_sound 1 ks (mkResponse 400 [] "" (Some ev)) None Hs))).
Defined.
