(* ===== verification/Telegram.v ===== *)
(** * Telegram deliveries

    Models src/internal/httpapi/telegram.go: which Telegram parameters a
    delivery accepts and sends ([fieldsFor], [setDefaults], [take],
    [singleUpload]), how an extraction becomes delivery items ([deliver],
    [deliverInstagram]), preparation ([prepare]), the album batches of [send]
    with their attachments, and the streamed upload of [sendStreamed] with its
    gate.  The services, the downloader and the image processor are arguments.
    The goroutines and the buffers they own are Delivery, DeliverySend and
    DeliveryStream. *)
From S2P Require Import Prelude Strconv Errors Json Operation TelegramClient.

(** ** Field sets *)

Abbreviation stringSet := (list string).
Definition member (k : string) (s : stringSet) : bool := existsb (String.eqb k) s.
Definition union (base : stringSet) (values : list string) : stringSet := base ++ values.
Definition Fields (s : string) : list string :=
  filter (fun w => w <> ""%string) (split_byte " " s).

Definition telegramStringFields : list string :=
  Fields "business_connection_id callback_query_id caption parse_mode performer title message_effect_id".
Definition telegramIntegerFields : list string :=
  Fields "message_thread_id direct_messages_topic_id receiver_user_id duration width height start_timestamp".
Definition telegramBoolFields : list string :=
  Fields "show_caption_above_media has_spoiler supports_streaming disable_content_type_detection disable_notification protect_content allow_paid_broadcast".
Definition telegramObjectFields : list string :=
  Fields "suggested_post_parameters reply_parameters reply_markup".
Definition telegramReservedFields : list string :=
  Fields "audio cover document media photo thumbnail video".

Definition commonFields : stringSet :=
  Fields "allow_paid_broadcast business_connection_id callback_query_id caption caption_entities chat_id direct_messages_topic_id disable_notification message_effect_id message_thread_id parse_mode protect_content receiver_user_id reply_markup reply_parameters suggested_post_parameters".
Definition videoFields : stringSet :=
  union commonFields (Fields "duration has_spoiler height show_caption_above_media start_timestamp supports_streaming width").
Definition documentFields : stringSet := union commonFields ["disable_content_type_detection"%string].
Definition audioFields : stringSet := union commonFields ["duration"; "performer"; "title"]%string.
Definition photoFields : stringSet := union commonFields ["has_spoiler"; "show_caption_above_media"]%string.
Definition groupFields : stringSet :=
  Fields "allow_paid_broadcast business_connection_id chat_id direct_messages_topic_id disable_notification message_effect_id message_thread_id protect_content reply_parameters".
Definition carouselFields : stringSet := union groupFields ["caption"; "caption_entities"; "parse_mode"]%string.
Definition carouselDocumentFields : stringSet := union carouselFields ["disable_content_type_detection"%string].
Definition carouselMediaFields : stringSet :=
  union carouselFields ["show_caption_above_media"; "has_spoiler"; "start_timestamp"; "supports_streaming"]%string.
Definition sendMethods (field : string) : string :=
  match field with
  | "document" => "sendDocument" | "photo" => "sendPhoto" | "audio" => "sendAudio" | "video" => "sendVideo"
  | _ => ""
  end%string.
Definition knownFields : stringSet :=
  ["chat_id"; "caption_entities"]%string ++ telegramStringFields ++ telegramIntegerFields ++
  telegramBoolFields ++ telegramObjectFields.

(** ** Parameter maps *)

Fixpoint obj_del (k : string) (l : fields) : fields :=
  match l with
  | [] => []
  | (k', v) :: l => if String.eqb k k' then obj_del k l else (k', v) :: obj_del k l
  end.

Fixpoint insert_sorted (s : string) (l : list string) : list string :=
  match l with
  | [] => [s]
  | x :: l' => if String.ltb s x then s :: l else x :: insert_sorted s l'
  end.
Definition sort_strings (l : list string) : list string := fold_right insert_sorted [] l.

Fixpoint join (sep : string) (l : list string) : string :=
  match l with
  | [] => ""
  | [x] => x
  | x :: l => x +:+ sep +:+ join sep l
  end.

(** The loop of [fieldsFor]: the copied map and the refused names. *)
Fixpoint collect_fields (allowed : stringSet) (input result : fields) (invalid : list string) : fields * list string :=
  match input with
  | [] => (result, invalid)
  | (key, value) :: input =>
      match value with
      | JNull => collect_fields allowed input result invalid
      | _ =>
          let invalid := if member key knownFields && negb (member key allowed) then invalid ++ [key] else invalid in
          collect_fields allowed input (obj_set key value result) invalid
      end
  end.

Definition fieldsFor (input : fields) (allowed : stringSet) : res goerr fields :=
  let '(result, invalid) := collect_fields allowed input [] [] in
  match invalid with
  | [] => Ok result
  | _ => Err (ErrCore (NewError "telegram_parameter_not_supported"
           ("Parameters are invalid for this delivery: " +:+ join ", " (sort_strings invalid)) 422))
  end.

Definition has_key (k : string) (m : fields) : bool := match obj_get k m with Some _ => true | None => false end.

Fixpoint setDefaults (target provided values : fields) : fields :=
  match values with
  | [] => target
  | (key, value) :: values =>
      let target :=
        match value with
        | JNull => target
        | _ => if has_key key provided then target else obj_set key value target
        end in
      setDefaults target provided values
  end.

(** The taken fields and what is left of the map. *)
Fixpoint take_fields (target : fields) (keys : list string) : fields * fields :=
  match keys with
  | [] => ([], target)
  | key :: keys =>
      match obj_get key target with
      | Some value => let '(taken, target) := take_fields (obj_del key target) keys in
                      (obj_set key value taken, target)
      | None => take_fields target keys
      end
  end.

Definition mergeFields (target source : fields) : fields :=
  fold_left (fun m kv => obj_set kv.1 kv.2 m) source target.

(** ** Items *)

Record AssetDescriptor := mkDescriptor { ad_AssetID : string; ad_Kind : string; ad_Filename : string }.
Record AssetContext := mkAsset { as_IdentityID : string; as_Platform : string; as_UpstreamURL : string }.
Record deliveryItem := mkItem {
  di_Descriptor : AssetDescriptor;
  di_Kind : string;
  di_Cover : option AssetDescriptor;
  di_Asset : option AssetContext;
}.
Record preparedItem := mkPreparedItem {
  pi_Media : Prepared;
  pi_Thumbnail : option Prepared;
  pi_Kind : string;
  pi_Width : Z;
  pi_Height : Z;
}.

Definition attachmentName (prefix : string) (batch item : Z) : string :=
  prefix +:+ "_" +:+ Itoa batch +:+ "_" +:+ Itoa item.

Definition attach_ref (name : string) : json := JStr ("attach://" +:+ name).

Definition mkMedia (p : Prepared) (field : string) : upload := mkUpload p field false.

(** [singleUpload]: method, parameters and files of one item. *)
Definition singleUpload (item : preparedItem) (parameters : fields) (document : bool) :
    string * fields * list upload :=
  let field :=
    if document then "document"%string
    else if String.eqb (pi_Kind item) "image" then "photo"%string else pi_Kind item in
  let uploads := [mkMedia (pi_Media item) (field +:+ "_file")] in
  let parameters := obj_set field (attach_ref (field +:+ "_file")) parameters in
  let width := has_key "width" parameters in
  let height := has_key "height" parameters in
  let parameters :=
    if String.eqb field "video" && (0 <? pi_Width item) && (0 <? pi_Height item) && negb width && negb height then
      obj_set "height" (JNum (Itoa (pi_Height item))) (obj_set "width" (JNum (Itoa (pi_Width item))) parameters)
    else parameters in
  match pi_Thumbnail item with
  | None => (sendMethods field, parameters, uploads)
  | Some thumbnail =>
      let parameters := obj_set "thumbnail" (attach_ref "thumbnail_file") parameters in
      let parameters :=
        if String.eqb field "video" then obj_set "cover" (attach_ref "thumbnail_file") parameters else parameters in
      (sendMethods field, parameters, uploads ++ [mkMedia thumbnail "thumbnail_file"])
  end.

(** ** Albums *)

(** The parameters that [send] splits off before the batches. *)
Record albumFields := mkAlbum {
  al_first : fields;
  al_all : fields;
  al_perVideo : fields;
  al_detection : json;
  al_rest : fields;
}.

Definition split_album (parameters : fields) : albumFields :=
  let '(first, parameters) :=
    take_fields parameters ["caption"; "caption_entities"; "parse_mode"; "show_caption_above_media"]%string in
  let '(all, parameters) := take_fields parameters ["has_spoiler"%string] in
  let '(perVideo, parameters) := take_fields parameters ["start_timestamp"; "supports_streaming"]%string in
  let detection :=
    match obj_get "disable_content_type_detection" parameters with
    | Some JNull | None => JBool true
    | Some d => d
    end in
  mkAlbum first all perVideo detection (obj_del "disable_content_type_detection" parameters).

Definition album_kind (document : bool) (kind : string) : string :=
  if document then "document" else if String.eqb kind "image" then "photo" else kind.

(** One element of the [media] array and the files it refers to. *)
Definition album_item (al : albumFields) (document instagram : bool) (batchIndex itemIndex : Z)
    (item : preparedItem) : fields * list upload :=
  let attach := attachmentName "media" batchIndex itemIndex in
  let value := [("type"%string, JStr (album_kind document (pi_Kind item))); ("media"%string, attach_ref attach)] in
  let value :=
    if instagram && (batchIndex =? 0) && (itemIndex =? 0) then mergeFields value (al_first al) else value in
  let value :=
    if document then obj_set "disable_content_type_detection" (al_detection al) value
    else if instagram then
      let value := mergeFields value (al_all al) in
      if String.eqb (pi_Kind item) "video" then
        mergeFields (obj_set "supports_streaming" (JBool true) value) (al_perVideo al)
      else value
    else value in
  let uploads := [mkMedia (pi_Media item) attach] in
  match pi_Thumbnail item with
  | Some thumbnail =>
      if document then (value, uploads)
      else
        let name := attachmentName "thumbnail" batchIndex itemIndex in
        (obj_set "cover" (attach_ref name) (obj_set "thumbnail" (attach_ref name) value),
         uploads ++ [mkMedia thumbnail name])
  | None => (value, uploads)
  end.

Fixpoint album_items (al : albumFields) (document instagram : bool) (batchIndex itemIndex : Z)
    (batch : list preparedItem) : list fields * list upload :=
  match batch with
  | [] => ([], [])
  | item :: batch =>
      let '(value, uploads) := album_item al document instagram batchIndex itemIndex item in
      let '(values, rest) := album_items al document instagram batchIndex (itemIndex + 1) batch in
      (value :: values, uploads ++ rest)
  end.

Definition album_call (al : albumFields) (document instagram : bool) (batchIndex : Z)
    (batch : list preparedItem) : fields * list upload :=
  let batchFields := if 0 <? batchIndex then obj_del "reply_parameters" (al_rest al) else al_rest al in
  let '(payload, uploads) := album_items al document instagram batchIndex 0 batch in
  (obj_set "media" (JArr (map JObj payload)) batchFields, uploads).

(** ** Preparation *)

Record Downloaded := mkDownloaded {
  dl_Data : nat;
  dl_ContentType : string;
  dl_Size : Z;
  dl_Width : Z;
  dl_Height : Z;
}.

Definition jpegDocument (item : deliveryItem) (document : bool) (asset : Downloaded) : bool :=
  document && String.eqb (di_Kind item) "image" && String.eqb (dl_ContentType asset) "image/webp".

(** The upload limit passed to the download: none for images, which are
    converted first. *)
Definition download_limit (maxBytes : Z) (item : deliveryItem) : Z :=
  if String.eqb (di_Kind item) "image" then 0 else maxBytes.

(** Whether a cover is converted alongside the download. *)
Definition wants_thumbnail (thumbnailWait : Z) (item : deliveryItem) (document : bool) : bool :=
  match di_Cover item with
  | None => false
  | Some _ => negb (document || String.eqb (di_Kind item) "image" || (thumbnailWait <=? 0))
  end.

Section Preparation.
(** [FilenameForType], the download (with its limit), and the two conversions
    of the image processor; [ctxErr] is [ctx.Err()] after a failed conversion,
    [thumbnail] the cover ready in time. *)
Context (filenameForType : string -> string -> string).
Context (download : deliveryItem -> Z -> res goerr Downloaded).
Context (prepareImage prepareDocument : nat -> string -> res goerr Prepared).
Context (ctxErr : option goerr) (thumbnail : option Prepared).

Definition preparedMedia (item : deliveryItem) (asset : Downloaded) : Prepared :=
  mkPrepared (dl_Data asset) (filenameForType (ad_Filename (di_Descriptor item)) (dl_ContentType asset))
    (dl_ContentType asset) (dl_Size asset).

Definition conversion_failed (message : string) : goerr :=
  match ctxErr with
  | Some e => e
  | None => ErrCore (NewError "image_conversion_failed" message 502)
  end.

Definition prepare (maxBytes thumbnailWait : Z) (item : deliveryItem) (document : bool) : res goerr preparedItem :=
  let? asset := download item (download_limit maxBytes item) in
  let name := ad_Filename (di_Descriptor item) in
  let? media :=
    if String.eqb (di_Kind item) "image" && negb document then
      match prepareImage (dl_Data asset) name with
      | Ok converted => Ok converted
      | Err _ => Err (conversion_failed "Unsupported or corrupt Telegram photo")
      end
    else if jpegDocument item document asset then
      match prepareDocument (dl_Data asset) name with
      | Ok converted => Ok converted
      | Err _ => Err (conversion_failed "Unsupported or corrupt Telegram document image")
      end
    else Ok (preparedMedia item asset) in
  Ok (mkPreparedItem media (if wants_thumbnail thumbnailWait item document then thumbnail else None)
        (di_Kind item) (dl_Width asset) (dl_Height asset)).
End Preparation.

(** ** [send] *)

Section Send.
(** The effects of a delivery are threaded through [St]: asset lookups,
    preparation of one identity's items, Telegram calls and streamed uploads. *)
Context {St : Type}.
Context (GetAsset : string -> St -> res goerr AssetContext).
Context (prepareItems : string -> list deliveryItem -> list nat -> St -> res goerr (list preparedItem) * St).
Context (telegramCall_ : string -> fields -> list upload -> St -> res goerr telegramCall * St).
Context (sendStreamed : deliveryItem -> fields -> bool -> DeliveryEvent -> St ->
                        res goerr deliveryResult * DeliveryEvent * St).
Context (maxBytes : Z).

Definition with_asset (item : deliveryItem) (asset : AssetContext) : deliveryItem :=
  mkItem (di_Descriptor item) (di_Kind item) (di_Cover item) (Some asset).

Fixpoint load_assets (items : list deliveryItem) (st : St) : res goerr (list deliveryItem) :=
  match items with
  | [] => Ok []
  | item :: items =>
      let? asset := GetAsset (ad_AssetID (di_Descriptor item)) st in
      let? rest := load_assets items st in
      Ok (with_asset item asset :: rest)
  end.

Definition identity_of (item : deliveryItem) : string :=
  match di_Asset item with Some a => as_IdentityID a | None => "" end.

(** The groups in order of first appearance, each with its items' positions. *)
Fixpoint add_group (id : string) (i : nat) (groups : list (string * list nat)) : list (string * list nat) :=
  match groups with
  | [] => [(id, [i])]
  | (id', ix) :: groups =>
      if String.eqb id id' then (id', ix ++ [i]) :: groups else (id', ix) :: add_group id i groups
  end.

Fixpoint group_items (i : nat) (items : list deliveryItem) (groups : list (string * list nat)) :
    list (string * list nat) :=
  match items with
  | [] => groups
  | item :: items => group_items (S i) items (add_group (identity_of item) i groups)
  end.

(** One lease at a time: the groups are prepared one after another, and each
    prepared item goes to its own position. *)
Definition store_prepared (indices : list nat) (values : list preparedItem) (prepared : list (option preparedItem)) :
    list (option preparedItem) :=
  fold_left (fun ps iv => <[iv.1 := Some iv.2]> ps) (zip indices values) prepared.

Fixpoint prepare_groups (items : list deliveryItem) (groups : list (string * list nat))
    (prepared : list (option preparedItem)) (st : St) : res goerr (list (option preparedItem)) * St :=
  match groups with
  | [] => (Ok prepared, st)
  | (id, indices) :: groups =>
      match prepareItems id items indices st with
      | (Err e, st) => (Err e, st)
      | (Ok values, st) => prepare_groups items groups (store_prepared indices values prepared) st
      end
  end.

Definition sendSingle (item : preparedItem) (parameters : fields) (document : bool) (event : DeliveryEvent)
    (st : St) : res goerr deliveryResult * DeliveryEvent * St :=
  let '(method, parameters, uploads) := singleUpload item parameters document in
  let event := add_attempt event in
  match telegramCall_ method parameters uploads st with
  | (Err e, st) => (Err e, event, st)
  | (Ok call, st) => (telegramResponse [call], record call event, st)
  end.

Fixpoint send_batches (al : albumFields) (document instagram : bool) (batchIndex : Z)
    (batches : list (list preparedItem)) (calls : list telegramCall) (event : DeliveryEvent) (st : St) :
    res goerr (list telegramCall) * DeliveryEvent * St :=
  match batches with
  | [] => (Ok calls, event, st)
  | batch :: batches =>
      let '(batchFields, uploads) := album_call al document instagram batchIndex batch in
      let event := add_attempt event in
      match telegramCall_ "sendMediaGroup" batchFields uploads st with
      | (Err e, st) => (Err e, event, st)
      | (Ok call, st) =>
          let event := record call event in
          if tc_OK call then
            send_batches al document instagram (batchIndex + 1) batches (calls ++ [call]) event st
          else (Ok (calls ++ [call]), event, st)
      end
  end.

(** Everything after the choice to stream. *)
Definition send_prepared (items : list deliveryItem) (parameters : fields) (document instagram : bool)
    (event : DeliveryEvent) (st : St) : res goerr deliveryResult * DeliveryEvent * St :=
  match prepare_groups items (group_items 0 items []) (map (fun _ => None) items) st with
  | (Err e, st) => (Err e, event, st)
  | (Ok prepared, st) =>
      let prepared := omap id prepared in
      if existsb (fun p => (0 <? maxBytes) && (maxBytes <? pr_Size (pi_Media p))) prepared then
        (Err (ErrCore (NewError "asset_too_large" "Telegram upload exceeds TELEGRAM_UPLOAD_MAX_MB" 413)), event, st)
      else
        match prepared with
        | [] => (Err (ErrCore (NewError "upstream_extraction_error" "No media could be prepared" 502)), event, st)
        | [item] => sendSingle item parameters document (set_event_stage "upload" event) st
        | _ =>
            let event := set_event_stage "upload" event in
            match send_batches (split_album parameters) document instagram 0 (albumBatches prepared) [] event st with
            | (Err e, event, st) => (Err e, event, st)
            | (Ok calls, event, st) => (telegramResponse calls, event, st)
            end
        end
  end.

Definition send_body (items : list deliveryItem) (parameters : fields) (document instagram : bool)
    (event : DeliveryEvent) (st : St) : res goerr deliveryResult * DeliveryEvent * St :=
  match load_assets items st with
  | Err e => (Err e, event, st)
  | Ok items =>
      match items with
      | [item] =>
          if document || negb (String.eqb (di_Kind item) "image") then sendStreamed item parameters document event st
          else send_prepared items parameters document instagram event st
      | _ => send_prepared items parameters document instagram event st
      end
  end.

Definition err_of {A} (r : res goerr A) : option goerr := match r with Ok _ => None | Err e => Some e end.

(** [send]: the event always ends up in the result. *)
Definition send (items : list deliveryItem) (parameters : fields) (document instagram : bool) (st : St) :
    res goerr deliveryResult * DeliveryEvent * St :=
  let event := mkEvent "" "preparation" ((len items + 9) / 10) 0 0 "" 0 0 in
  let '(result, event, st) := send_body items parameters document instagram event st in
  (result, finish (err_of result) event, st).
End Send.

(** ** [sendStreamed] *)

(** What the select loop receives: an announced transfer, the end of an upload
    (with [media.Err()] at that moment), the end of preparation. *)
Inductive streamEvent :=
| SStart (p : preparedItem)
| SCompleted (u : nat) (mediaFailed : bool) (r : res goerr telegramCall)
| SFinished (r : res goerr preparedItem).

(** One Telegram request fed by a running transfer; [su_released] is whether
    its gate was opened. *)
Record streamUpload := mkStream {
  su_media : nat;
  su_call : string * fields * list upload;
  su_released : bool;
  su_stopped : bool;
}.

Definition hold_first (files : list upload) : list upload :=
  match files with
  | f :: files => mkUpload (up_Prepared f) (up_Field f) true :: files
  | [] => []
  end.

Definition launch (p : preparedItem) (parameters : fields) (document : bool) : streamUpload :=
  let '(method, values, files) := singleUpload p parameters document in
  mkStream (pr_Data (pi_Media p)) (method, values, hold_first files) false false.

(** How the loop ends: an early answer of upload [u], a failed preparation, or
    complete media to release. *)
Inductive streamOutcome :=
| SEarly (r : res goerr telegramCall)
| SFailed (e : goerr)
| SPrepared (final : preparedItem).

Fixpoint stream_loop (parameters : fields) (document : bool) (evs : list streamEvent)
    (uploads : list streamUpload) : option (streamOutcome * list streamUpload) :=
  match evs with
  | [] => None
  | SStart p :: evs => stream_loop parameters document evs (uploads ++ [launch p parameters document])
  | SCompleted _ mediaFailed r :: evs =>
      if negb mediaFailed then Some (SEarly r, uploads) else stream_loop parameters document evs uploads
  | SFinished (Err e) :: _ => Some (SFailed e, uploads)
  | SFinished (Ok final) :: _ => Some (SPrepared final, uploads)
  end.

Definition stop_upload (u : streamUpload) : streamUpload :=
  mkStream (su_media u) (su_call u) (su_released u) true.
Definition release_upload (u : streamUpload) : streamUpload :=
  mkStream (su_media u) (su_call u) true (su_stopped u).

(** [for _, u := range uploads]: the last upload of the final media is
    current; uploads of other media are stopped. *)
Fixpoint choose_current (media : nat) (uploads : list streamUpload) (current : option nat) (i : nat) :
    list streamUpload * option nat :=
  match uploads with
  | [] => ([], current)
  | u :: uploads =>
      if Nat.eqb (su_media u) media then
        let '(us, c) := choose_current media uploads (Some i) (S i) in (u :: us, c)
      else
        let '(us, c) := choose_current media uploads current (S i) in (stop_upload u :: us, c)
  end.

Definition finish_upload (r : res goerr telegramCall) (event : DeliveryEvent) : res goerr deliveryResult * DeliveryEvent :=
  let event := add_attempt (set_event_stage "upload" event) in
  match r with
  | Err e => (Err e, event)
  | Ok call => (telegramResponse [call], record call event)
  end.

Section Streamed.
(** [single] sends the prepared media as [sendSingle] does; [answer] is the
    result of the released upload; the commit reads [ctx.Err()] twice. *)
Context (single : preparedItem -> fields -> DeliveryEvent -> Operation -> res goerr deliveryResult * DeliveryEvent * Operation).
Context (answer : streamUpload -> Operation -> res goerr telegramCall * Operation).

Definition sendStreamed_end (c : Ctx) (e1 e2 : option goerr) (parameters : fields) (document : bool)
    (o : streamOutcome * list streamUpload) (event : DeliveryEvent) (op : Operation) :
    res goerr deliveryResult * DeliveryEvent * list streamUpload * Operation :=
  match o with
  | (SEarly r, uploads) => let '(res, event) := finish_upload r event in (res, event, uploads, op)
  | (SFailed e, uploads) => (Err e, event, uploads, op)
  | (SPrepared final, uploads) =>
      let '(uploads, current) := choose_current (pr_Data (pi_Media final)) uploads None 0 in
      match current with
      | None =>
          let '(res, event, op) := single final parameters (set_event_stage "upload" event) op in
          (res, event, uploads, op)
      | Some i =>
          let '(commit, op) := BeforeDeliveryCommit c e1 e2 op in
          match commit, uploads !! i with
          | Some e, _ => (Err e, event, uploads, op)
          | None, Some u =>
              let u := release_upload u in
              let uploads := <[i := u]> uploads in
              let '(r, op) := answer u op in
              let '(res, event) := finish_upload r event in
              (res, event, uploads, op)
          | None, None => (Err (ErrOther "unreachable"), event, uploads, op)
          end
      end
  end.
End Streamed.

(** ** [deliver] *)

Record telegramRequest := mkRequest {
  rq_URL : string;
  rq_ExtractionID : string;
  rq_VideoID : string;
  rq_Delivery : string;
  rq_Selector : string;
  rq_Refresh : bool;
  rq_Telegram : fields;
}.

Record MusicMetadata := mkMusic {
  mu_Title : string;
  mu_Author : string;
  mu_DurationSeconds : Z;
  mu_Cover : option AssetDescriptor;
  mu_Audio : option AssetDescriptor;
}.

Record TikTokExtraction := mkTikTok {
  tt_SourceID : string;
  tt_ContentType : string;
  tt_Cover : option AssetDescriptor;
  tt_DurationSeconds : option Z;
  tt_Media : list AssetDescriptor;
  tt_Music : option MusicMetadata;
}.
Definition emptyExtraction : TikTokExtraction := mkTikTok "" "" None None [] None.

Record InstagramMedia := mkIGMedia {
  im_MediaType : string;
  im_Asset : AssetDescriptor;
  im_Thumbnail : option AssetDescriptor;
}.

(** What [send] is called with. *)
Record delivery := mkDelivery {
  dv_items : list deliveryItem;
  dv_parameters : fields;
  dv_document : bool;
  dv_instagram : bool;
}.

Definition no_media (platform : string) : goerr :=
  ErrCore (NewError "upstream_extraction_error" (platform +:+ " response contained no media") 502).

Section Deliver.
Context (GetExtraction : string -> res goerr TikTokExtraction).
Context (ExtractURL : string -> bool -> res goerr TikTokExtraction).
Context (ExtractMusic : string -> bool -> res goerr (MusicMetadata * AssetDescriptor)).
Context (GetInstagram : string -> res goerr (list InstagramMedia)).
Context (ExtractInstagram : string -> bool -> res goerr (list InstagramMedia)).

(** [ExtractMusic] always carries an audio asset ([fetched.Audio] is not a
    pointer); the second component is that asset. *)
Definition fetch_audio (request : telegramRequest) (extraction : TikTokExtraction) :
    res goerr (MusicMetadata * AssetDescriptor) :=
  let id := if String.eqb (rq_VideoID request) "" then tt_SourceID extraction else rq_VideoID request in
  ExtractMusic id (rq_Refresh request).

Definition deliver_audio (request : telegramRequest) (extraction : TikTokExtraction) : res goerr delivery :=
  let? music :=
    match tt_Music extraction with
    | Some music =>
        match mu_Audio music with
        | Some audio => Ok (music, audio)
        | None => fetch_audio request extraction
        end
    | None => fetch_audio request extraction
    end in
  let '(music, audio) := music in
  let? parameters := fieldsFor (rq_Telegram request) audioFields in
  let parameters := setDefaults parameters (rq_Telegram request)
    [("duration", JNum (Itoa (mu_DurationSeconds music))); ("title", JStr (mu_Title music));
     ("performer", JStr (mu_Author music))]%string in
  Ok (mkDelivery [mkItem audio "audio" (mu_Cover music) None] parameters false false).

Definition tiktok_allowed (extraction : TikTokExtraction) (document : bool) : stringSet :=
  if 1 <? len (tt_Media extraction) then groupFields
  else if document then documentFields
  else if String.eqb (tt_ContentType extraction) "video" then videoFields
  else photoFields.

Definition tiktok_item (extraction : TikTokExtraction) (descriptor : AssetDescriptor) : deliveryItem :=
  if String.eqb (tt_ContentType extraction) "video" then mkItem descriptor "video" (tt_Cover extraction) None
  else mkItem descriptor "image" None None.

Definition deliver_tiktok (request : telegramRequest) : res goerr delivery :=
  let? extraction :=
    if String.eqb (rq_Selector request) "extraction_id" then GetExtraction (rq_ExtractionID request)
    else if negb (String.eqb (rq_URL request) "") then ExtractURL (rq_URL request) (rq_Refresh request)
    else Ok emptyExtraction in
  if String.eqb (rq_Delivery request) "audio" then deliver_audio request extraction
  else
    match tt_Media extraction with
    | [] => Err (no_media "TikTok")
    | _ =>
        let document := String.eqb (rq_Delivery request) "document" in
        let? parameters := fieldsFor (rq_Telegram request) (tiktok_allowed extraction document) in
        let parameters :=
          if (len (tt_Media extraction) =? 1) && document then
            setDefaults parameters (rq_Telegram request) [("disable_content_type_detection", JBool true)]%string
          else parameters in
        let parameters :=
          if negb document && String.eqb (tt_ContentType extraction) "video" then
            setDefaults parameters (rq_Telegram request)
              (("supports_streaming"%string, JBool true) ::
               match tt_DurationSeconds extraction with
               | Some d => [("duration"%string, JNum (Itoa d))]
               | None => []
               end)
          else parameters in
        Ok (mkDelivery (map (tiktok_item extraction) (tt_Media extraction)) parameters document false)
    end.

Definition instagram_allowed (media : list InstagramMedia) (document : bool) : stringSet :=
  if 1 <? len media then if document then carouselDocumentFields else carouselMediaFields
  else if document then documentFields
  else match media with
       | m :: _ => if String.eqb (im_MediaType m) "video" then videoFields else photoFields
       | [] => photoFields
       end.

Definition deliverInstagram (request : telegramRequest) : res goerr delivery :=
  let? media :=
    if String.eqb (rq_Selector request) "extraction_id" then GetInstagram (rq_ExtractionID request)
    else ExtractInstagram (rq_URL request) (rq_Refresh request) in
  match media with
  | [] => Err (no_media "Instagram")
  | first :: _ =>
      let document := String.eqb (rq_Delivery request) "document" in
      let multiple := 1 <? len media in
      let? parameters := fieldsFor (rq_Telegram request) (instagram_allowed media document) in
      let parameters :=
        if document then
          setDefaults parameters (rq_Telegram request) [("disable_content_type_detection", JBool true)]%string
        else if negb multiple && String.eqb (im_MediaType first) "video" then
          setDefaults parameters (rq_Telegram request) [("supports_streaming", JBool true)]%string
        else parameters in
      Ok (mkDelivery (map (fun m => mkItem (im_Asset m) (im_MediaType m) (im_Thumbnail m) None) media)
            parameters document true)
  end.

(** [deliver]: configuration, admission to the pipeline, extraction. *)
Definition deliver (botToken : string) (acquire : option goerr) (request : telegramRequest) (instagram : bool) :
    res goerr delivery * DeliveryEvent :=
  let event := mkEvent "" "admission" 0 0 0 "" 0 0 in
  if String.eqb botToken "" then
    (Err (ErrCore (NewError "service_not_configured" "Telegram delivery is not configured" 503)), event)
  else
    match acquire with
    | Some e => (Err e, event)
    | None =>
        (if instagram then deliverInstagram request else deliver_tiktok request, set_event_stage "extraction" event)
    end.
End Deliver.

(** ** Lemmas on parameter maps *)

Lemma obj_get_del k k' m : obj_get k (obj_del k' m) = if String.eqb k k' then None else obj_get k m.
Proof.
  induction m as [|[k2 v2] m IH]; simpl; [by destruct (String.eqb k k')|].
  destruct (String.eqb_spec k' k2) as [->|Hn]; simpl.
  - rewrite IH. by destruct (String.eqb k k2).
  - rewrite IH. destruct (String.eqb_spec k k2) as [->|]; [|done].
    by destruct (String.eqb_spec k2 k') as [->|].
Qed.

Lemma member_spec k s : member k s = true <-> k ∈ s.
Proof.
  unfold member. rewrite existsb_elem. split.
  - intros (x & Hx & E). apply String.eqb_eq in E. by subst.
  - intros Hk. exists k. by rewrite String.eqb_refl.
Qed.

Lemma obj_get_elem k m : is_Some (obj_get k m) <-> k ∈ m.*1.
Proof.
  induction m as [|[k' v] m IH]; simpl.
  - split; [by intros []|]. by intros H%elem_of_nil.
  - rewrite elem_of_cons. destruct (String.eqb_spec k k') as [->|]; [|rewrite IH; naive_solver].
    split; [by left|eauto].
Qed.

Lemma obj_get_None k m : k ∉ m.*1 -> obj_get k m = None.
Proof. intros Hk. apply eq_None_not_Some. by rewrite obj_get_elem. Qed.

Lemma mergeFields_get k t s : NoDup (s.*1) ->
  obj_get k (mergeFields t s) = match obj_get k s with Some v => Some v | None => obj_get k t end.
Proof.
  unfold mergeFields. revert t. induction s as [|[k' v] s IH]; intros t Hnd; simpl; [done|].
  apply NoDup_cons in Hnd as [Hn Hnd]. rewrite IH by done. rewrite obj_get_set.
  destruct (String.eqb_spec k k') as [->|]; [|done]. by rewrite (obj_get_None k' s) by done.
Qed.

Lemma obj_set_keys k v m : (obj_set k v m).*1 = if decide (k ∈ m.*1) then m.*1 else m.*1 ++ [k].
Proof.
  induction m as [|[k' v'] m IH]; [done|]. cbn [obj_set]. rewrite fmap_cons.
  destruct (String.eqb_spec k k') as [->|Hn]; rewrite fmap_cons; cbn [fst].
  - rewrite decide_True by left. done.
  - rewrite IH. destruct (decide (k ∈ m.*1)); [rewrite decide_True by (by right); done|].
    rewrite decide_False; [done|]. by intros [|]%elem_of_cons.
Qed.

Lemma obj_set_NoDup k v m : NoDup (m.*1) -> NoDup ((obj_set k v m).*1).
Proof.
  intros Hnd. rewrite obj_set_keys. case_decide; [done|].
  apply NoDup_app. split; [done|]. split; [|apply NoDup_singleton].
  intros x Hx ->%list_elem_of_singleton. done.
Qed.

Lemma take_fields_taken t keys : NoDup keys ->
  NoDup ((take_fields t keys).1.*1) /\
  forall k, obj_get k (take_fields t keys).1 = if member k keys then obj_get k t else None.
Proof.
  revert t. induction keys as [|key keys IH]; intros t Hnd; simpl; [by split; [constructor|]|].
  apply NoDup_cons in Hnd as [Hn Hnd].
  destruct (obj_get key t) as [v|] eqn:Ev.
  - destruct (IH (obj_del key t) Hnd) as [IH1 IH2]. destruct (take_fields (obj_del key t) keys) as [taken t'].
    cbn [fst] in *. split; [by apply obj_set_NoDup|]. intros k. rewrite obj_get_set, IH2, obj_get_del.
    destruct (String.eqb_spec k key) as [->|]; [by rewrite Ev|]. simpl. by destruct (member k keys).
  - destruct (IH t Hnd) as [IH1 IH2]. split; [done|]. intros k. rewrite IH2.
    destruct (String.eqb_spec k key) as [->|]; simpl; [|done]. rewrite Ev. by destruct (member key keys).
Qed.

Lemma take_fields_rest t keys k :
  obj_get k (take_fields t keys).2 = if member k keys then None else obj_get k t.
Proof.
  revert t. induction keys as [|key keys IH]; intros t; simpl; [done|].
  destruct (obj_get key t) as [v|] eqn:Ev.
  - specialize (IH (obj_del key t)). destruct (take_fields (obj_del key t) keys) as [taken t'].
    cbn [snd] in *. rewrite IH, obj_get_del.
    destruct (String.eqb_spec k key); simpl; [|done]. by destruct (member k keys).
  - rewrite IH. destruct (String.eqb_spec k key) as [->|]; simpl; [|done]. rewrite Ev. by destruct (member key keys).
Qed.

(** What [split_album] takes apart. *)
Lemma split_album_spec ps :
  let al := split_album ps in
  NoDup ((al_first al).*1) /\ NoDup ((al_all al).*1) /\ NoDup ((al_perVideo al).*1) /\
  (forall k, obj_get k (al_first al) =
     if member k ["caption"; "caption_entities"; "parse_mode"; "show_caption_above_media"]%string
     then obj_get k ps else None) /\
  (forall k, is_Some (obj_get k (al_all al)) -> k = "has_spoiler"%string) /\
  (forall k, is_Some (obj_get k (al_perVideo al)) -> k ∈ ["start_timestamp"; "supports_streaming"]%string).
Proof.
  unfold split_album.
  set (ks1 := ["caption"; "caption_entities"; "parse_mode"; "show_caption_above_media"]%string).
  set (ks2 := ["has_spoiler"%string]). set (ks3 := ["start_timestamp"; "supports_streaming"]%string).
  assert (NoDup ks1 /\ NoDup ks2 /\ NoDup ks3) as (N1 & N2 & N3)
    by (repeat split; apply (bool_decide_unpack _); vm_compute; exact I).
  destruct (take_fields_taken ps ks1 N1) as [A1 A2]. destruct (take_fields ps ks1) as [first p1].
  destruct (take_fields_taken p1 ks2 N2) as [B1 B2]. destruct (take_fields p1 ks2) as [all p2].
  destruct (take_fields_taken p2 ks3 N3) as [C1 C2]. destruct (take_fields p2 ks3) as [pv p3].
  cbn [fst al_first al_all al_perVideo] in *. repeat split; try done.
  - intros k Hk. rewrite B2 in Hk. destruct (member k ks2) eqn:E; [|by destruct Hk].
    apply member_spec in E. by apply list_elem_of_singleton in E.
  - intros k Hk. rewrite C2 in Hk. destruct (member k ks3) eqn:E; [|by destruct Hk]. by apply member_spec in E.
Qed.

(** ** Accepted parameters *)

Lemma collect_fields_spec allowed input result invalid result' invalid' :
  NoDup (input.*1) -> (forall k, k ∈ input.*1 -> obj_get k result = None) ->
  collect_fields allowed input result invalid = (result', invalid') ->
  (forall k, obj_get k result' =
     match obj_get k input with Some JNull | None => obj_get k result | Some v => Some v end) /\
  (forall k, k ∈ invalid' <-> k ∈ invalid \/
     (exists v, obj_get k input = Some v /\ v <> JNull /\ k ∈ knownFields /\ (k ∉ allowed))).
Proof.
  revert result invalid. induction input as [|[key value] input IH]; intros result invalid Hnd Hdis;
    cbn [collect_fields obj_get].
  { intros [= <- <-]. split; [done|]. intros k. split; [by left|]. by intros [?|(v & ? & _)]. }
  rewrite fmap_cons in Hnd, Hdis. cbn [fst] in Hnd, Hdis. apply NoDup_cons in Hnd as [Hn Hnd].
  set (inv := if member key knownFields && negb (member key allowed) then invalid ++ [key] else invalid).
  assert (forall k, k ∈ inv <-> k ∈ invalid \/ (k = key /\ key ∈ knownFields /\ (key ∉ allowed))) as Hinv.
  { intros k. unfold inv. pose proof (member_spec key knownFields) as M1. pose proof (member_spec key allowed) as M2.
    destruct (member key knownFields), (member key allowed); simpl;
      rewrite ?elem_of_app, ?list_elem_of_singleton; naive_solver. }
  destruct (decide (value = JNull)) as [->|Hv].
  - intros E. destruct (IH result invalid Hnd) with (2 := E) as [H1 H2].
    { intros k Hk. apply Hdis. by right. }
    split.
    + intros k. rewrite H1. destruct (String.eqb_spec k key) as [->|]; [|done].
      by rewrite (obj_get_None key input) by done.
    + intros k. rewrite H2. destruct (String.eqb_spec k key) as [->|]; [|done].
      rewrite (obj_get_None key input) by done. naive_solver.
  - intros E. assert (collect_fields allowed input (obj_set key value result) inv = (result', invalid')) as E'.
    { destruct value; done. }
    clear E. destruct (IH (obj_set key value result) inv Hnd) with (2 := E') as [H1 H2].
    { intros k Hk. rewrite obj_get_set. destruct (String.eqb_spec k key) as [->|]; [done|]. apply Hdis. by right. }
    split.
    + intros k. rewrite H1, obj_get_set. destruct (String.eqb_spec k key) as [->|]; [|done].
      rewrite (obj_get_None key input) by done. by destruct value.
    + intros k. rewrite H2, Hinv. destruct (String.eqb_spec k key) as [->|].
      * rewrite (obj_get_None key input) by done. naive_solver.
      * naive_solver.
Qed.

(** Parameter screening: [fieldsFor] either passes on exactly the caller's
    non-null parameters, none of them a Telegram parameter this delivery does
    not take, or it fails with 422 and then some non-null known parameter is
    indeed not taken. *)
Theorem fieldsFor_spec input allowed :
  NoDup (input.*1) ->
  match fieldsFor input allowed with
  | Ok result =>
      (forall k, obj_get k result = match obj_get k input with Some JNull => None | v => v end) /\
      (forall k, is_Some (obj_get k result) -> k ∈ knownFields -> k ∈ allowed)
  | Err e =>
      (exists f, e = ErrCore f /\ Code f = "telegram_parameter_not_supported"%string /\ Status f = 422) /\
      exists k v, obj_get k input = Some v /\ v <> JNull /\ k ∈ knownFields /\ (k ∉ allowed)
  end.
Proof.
  intros Hnd. unfold fieldsFor. destruct (collect_fields allowed input [] []) as [result invalid] eqn:E.
  destruct (collect_fields_spec allowed input [] [] result invalid Hnd) as [H1 H2]; [done|done|].
  destruct invalid as [|k invalid].
  - assert (forall k, obj_get k result = match obj_get k input with Some JNull => None | v => v end) as Hr.
    { intros k. rewrite H1. simpl. by destruct (obj_get k input) as [[]|]. }
    split; [done|]. intros k Hk Hkn. destruct (decide (k ∈ allowed)) as [|Hna]; [done|]. exfalso.
    rewrite Hr in Hk. destruct (obj_get k input) as [v|] eqn:Ek; [|by destruct Hk].
    assert (k ∈ ([] : list string)) as Hnil; [|by apply elem_of_nil in Hnil].
    apply H2. right. exists v. repeat split; try done. intros ->. by destruct Hk.
  - split; [by eexists|]. destruct (proj1 (H2 k)) as [Hnil|(v & ? & ? & ? & ?)]; [by left|by apply elem_of_nil in Hnil|].
    by exists k, v.
Qed.

Lemma fieldsFor_spec_witness :
  let input := [("chat_id", JNum "1"); ("caption", JNull); ("x", JNull)]%string in
  NoDup (input.*1) /\
  match fieldsFor input photoFields with
  | Ok result => obj_get "caption" result = None /\ obj_get "chat_id" result = Some (JNum "1")
  | Err _ => False
  end%string.
Proof.
  intros input. assert (NoDup (input.*1)) as Hnd by (apply (bool_decide_unpack _); vm_compute; exact I).
  split; [exact Hnd|]. pose proof (fieldsFor_spec input photoFields Hnd) as H.
  destruct (fieldsFor input photoFields) eqn:E; [|vm_compute in E; discriminate].
  destruct H as [H _]. split; rewrite H; reflexivity.
Defined.

(** ** Attachments *)

Lemma str_app_inj_l p a b : p +:+ a = p +:+ b -> a = b.
Proof. induction p; simpl; [done|]. intros [= H]. auto. Qed.

Lemma attachmentName_inj p b i j : attachmentName p b i = attachmentName p b j -> i = j.
Proof.
  unfold attachmentName. intros H. do 4 apply str_app_inj_l in H. by apply pretty_Z_inj.
Qed.

Lemma attachmentName_prefix b i b' j : attachmentName "media" b i <> attachmentName "thumbnail" b' j.
Proof. done. Qed.

(** The media element an item becomes keeps its reference and its files. *)
Lemma album_item_spec ps document instagram b i item value uploads :
  album_item (split_album ps) document instagram b i item = (value, uploads) ->
  obj_get "media" value = Some (attach_ref (attachmentName "media" b i)) /\
  match pi_Thumbnail item, document with
  | Some t, false =>
      obj_get "thumbnail" value = Some (attach_ref (attachmentName "thumbnail" b i)) /\
      obj_get "cover" value = Some (attach_ref (attachmentName "thumbnail" b i)) /\
      uploads = [mkMedia (pi_Media item) (attachmentName "media" b i); mkMedia t (attachmentName "thumbnail" b i)]
  | _, _ => uploads = [mkMedia (pi_Media item) (attachmentName "media" b i)]
  end.
Proof.
  pose proof (split_album_spec ps) as (N1 & N2 & N3 & F1 & F2 & F3). set (al := split_album ps) in *.
  assert (obj_get "media" (al_first al) = None) as M1 by (rewrite F1; reflexivity).
  assert (obj_get "media" (al_all al) = None) as M2.
  { apply eq_None_not_Some. intros H. by apply F2 in H. }
  assert (obj_get "media" (al_perVideo al) = None) as M3.
  { apply eq_None_not_Some. intros H. apply F3 in H. by repeat (apply elem_of_cons in H as [H|H]; [done|]); apply elem_of_nil in H. }
  unfold album_item. set (r := attach_ref (attachmentName "media" b i)).
  set (v0 := [_; ("media"%string, r)]). set (v1 := if instagram && _ && _ then _ else v0).
  assert (obj_get "media" v1 = Some r) as E1.
  { unfold v1. destruct (_ && _); [|done]. by rewrite mergeFields_get, M1. }
  set (v2 := if document then _ else _).
  assert (obj_get "media" v2 = Some r) as E2.
  { unfold v2. destruct document; [by rewrite obj_get_set|]. destruct instagram; [|done].
    destruct (String.eqb _ _); rewrite ?mergeFields_get, ?M3, ?obj_get_set by done; simpl;
      rewrite ?mergeFields_get, ?M2 by done; done. }
  destruct (pi_Thumbnail item) as [t|]; [destruct document|]; intros [= <- <-]; [done| |done].
  rewrite !obj_get_set. simpl. by rewrite E2.
Qed.

Lemma album_items_spec ps document instagram b i batch payload uploads :
  album_items (split_album ps) document instagram b i batch = (payload, uploads) ->
  length payload = length batch /\
  NoDup (map up_Field uploads) /\
  (forall f, f ∈ map up_Field uploads ->
     exists j, i <= j /\ (f = attachmentName "media" b j \/ f = attachmentName "thumbnail" b j)) /\
  (forall k item value, batch !! k = Some item -> payload !! k = Some value ->
     exists f, obj_get "media" value = Some (attach_ref f) /\ mkMedia (pi_Media item) f ∈ uploads /\
     (forall t, pi_Thumbnail item = Some t -> document = false ->
        exists g, obj_get "thumbnail" value = Some (attach_ref g) /\ obj_get "cover" value = Some (attach_ref g) /\
          mkMedia t g ∈ uploads)).
Proof.
  revert i payload uploads. induction batch as [|x batch IH]; intros i payload uploads; simpl.
  { intros [= <- <-]. split; [done|]. split; [constructor|]. split; [by intros f H%elem_of_nil|done]. }
  destruct (album_item _ _ _ _ _ x) as [value us] eqn:E1.
  destruct (album_items _ _ _ _ (i + 1) batch) as [values rest] eqn:E2. intros [= <- <-].
  destruct (album_item_spec _ _ _ _ _ _ _ _ E1) as [Hm Ht]. destruct (IH _ _ _ E2) as (I1 & I2 & I3 & I4).
  assert (forall f, f ∈ map up_Field us -> f = attachmentName "media" b i \/ f = attachmentName "thumbnail" b i) as Hus.
  { intros f. destruct (pi_Thumbnail x), document; try destruct Ht as (_ & _ & ->); subst; simpl;
      rewrite ?elem_of_cons, elem_of_nil; tauto. }
  split; [simpl; by f_equal|]. split; [|split].
  - rewrite map_app. apply NoDup_app. split; [|split; [|done]].
    + destruct (pi_Thumbnail x), document; try destruct Ht as (_ & _ & ->); subst; simpl;
        repeat (apply NoDup_cons; split); try apply NoDup_nil_2; rewrite ?elem_of_cons, ?elem_of_nil; try tauto;
        intros [?|?]; [|tauto]; by eapply attachmentName_prefix.
    + intros f Hf Hr. destruct (I3 _ Hr) as (j & Hj & Hfj). destruct (Hus _ Hf) as [->| ->], Hfj as [E|E];
        first [apply attachmentName_inj in E; lia|done].
  - intros f. rewrite map_app, elem_of_app. intros [Hf|Hf].
    + exists i. split; [lia|]. by apply Hus.
    + destruct (I3 _ Hf) as (j & ? & ?). exists j. split; [lia|done].
  - intros [|k] item v; simpl; intros Hb Hp.
    + injection Hb as ->. injection Hp as ->. exists (attachmentName "media" b i). split; [done|].
      destruct (pi_Thumbnail item) as [t|], document; simpl in Ht; try (subst; split; [left|done]).
      destruct Ht as (T1 & T2 & ->). split; [left|]. intros t' [= <-] _. eexists. split; [done|]. split; [done|].
      right. left.
    + destruct (I4 k item v Hb Hp) as (f & ? & ? & Hth). exists f. split; [done|].
      split; [apply elem_of_app; by right|]. intros t ? ?. destruct (Hth t) as (g & ? & ? & ?); [done..|].
      exists g. repeat split; try done. apply elem_of_app. by right.
Qed.

(** Attachments of an album: in every batch the attachment names are
    pairwise different, and each element of the media array refers, as its
    media (and as its thumbnail and cover when it has one), to a file that is
    uploaded under exactly that name, with that item's bytes, whatever
    parameters the caller passed. *)
Theorem album_attachments ps document instagram b batch batchFields uploads :
  album_call (split_album ps) document instagram b batch = (batchFields, uploads) ->
  NoDup (map up_Field uploads) /\
  exists payload,
    obj_get "media" batchFields = Some (JArr (map JObj payload)) /\ length payload = length batch /\
    forall k item value, batch !! k = Some item -> payload !! k = Some value ->
      exists f, obj_get "media" value = Some (attach_ref f) /\ mkMedia (pi_Media item) f ∈ uploads /\
      (forall t, pi_Thumbnail item = Some t -> document = false ->
         exists g, obj_get "thumbnail" value = Some (attach_ref g) /\ obj_get "cover" value = Some (attach_ref g) /\
           mkMedia t g ∈ uploads).
Proof.
  unfold album_call. destruct (album_items _ _ _ b 0 batch) as [payload us] eqn:E. intros [= <- <-].
  destruct (album_items_spec _ _ _ _ _ _ _ _ E) as (H1 & H2 & _ & H4). split; [done|].
  exists payload. split; [by rewrite obj_get_set|]. done.
Qed.

Definition sample_item (n : nat) : preparedItem :=
  mkPreparedItem (mkPrepared n "a.jpg" "image/jpeg" 10) (Some (mkPrepared (n + 50) "t.jpg" "image/jpeg" 5)) "video" 0 0.

Lemma album_attachments_witness :
  let ps := [("caption", JStr "hi"); ("media", JStr "attach://evil"); ("chat_id", JNum "1")]%string in
  let '(batchFields, uploads) := album_call (split_album ps) false true 0 [sample_item 1; sample_item 2] in
  NoDup (map up_Field uploads) /\ length uploads = 4%nat.
Proof.
  intros ps. destruct (album_call (split_album ps) false true 0 [sample_item 1; sample_item 2]) as [f us] eqn:E.
  split; [|vm_compute in E; injection E as _ <-; reflexivity].
  exact (proj1 (album_attachments ps false true 0 _ _ _ E)).
Defined.

(** ** Streamed uploads *)

Definition held (u : streamUpload) : Prop :=
  match su_call u with (_, _, f :: _) => up_hold f = true | _ => False end.

Lemma launch_held p ps document : held (launch p ps document) /\ su_released (launch p ps document) = false.
Proof. unfold launch, singleUpload. by destruct (pi_Thumbnail p). Qed.

Lemma stream_loop_uploads ps document evs us o :
  Forall (fun u => held u /\ su_released u = false) us ->
  stream_loop ps document evs us = Some o -> Forall (fun u => held u /\ su_released u = false) o.2.
Proof.
  revert us. induction evs as [|[p|u mf r|[f|e]] evs IH]; intros us Hus; simpl; [done| | |by intros [= <-]..].
  - apply IH. apply Forall_app. split; [done|]. repeat constructor; apply launch_held.
  - destruct mf; simpl; [by apply IH|by intros [= <-]].
Qed.

(** The choice stops or keeps uploads, and picks one of the final media. *)
Lemma choose_current_spec media us c0 i us' c :
  choose_current media us c0 i = (us', c) ->
  length us' = length us /\
  (forall k u, us' !! k = Some u -> exists u0, us !! k = Some u0 /\ su_media u = su_media u0 /\
     su_call u = su_call u0 /\ su_released u = su_released u0 /\ (su_media u0 <> media -> su_stopped u = true)) /\
  (forall n, c = Some n -> c0 = Some n \/ exists k u, n = (i + k)%nat /\ us' !! k = Some u /\ su_media u = media).
Proof.
  revert c0 i us' c. induction us as [|u us IH]; intros c0 i us' c; simpl.
  { intros [= <- <-]. split; [done|]. split; [done|]. intros n Hn. by left. }
  destruct (Nat.eqb_spec (su_media u) media) as [Em|Em].
  - destruct (choose_current media us (Some i) (S i)) as [us1 c1] eqn:E. intros [= <- <-].
    destruct (IH _ _ _ _ E) as (L & F & G). split; [simpl; by f_equal|]. split.
    + intros [|k] v; simpl; [intros [= <-]; by exists u|apply F].
    + intros n Hn. destruct (G n Hn) as [[= <-]|(k & v & -> & ? & ?)]; right.
      * exists 0%nat, u. split; [lia|done].
      * exists (S k), v. split; [lia|done].
  - destruct (choose_current media us c0 (S i)) as [us1 c1] eqn:E. intros [= <- <-].
    destruct (IH _ _ _ _ E) as (L & F & G). split; [simpl; by f_equal|]. split.
    + intros [|k] v; simpl; [intros [= <-]; by exists u|apply F].
    + intros n Hn. destruct (G n Hn) as [?|(k & v & -> & ? & ?)]; [by left|]. right.
      exists (S k), v. split; [lia|done].
Qed.

(** C14. The final-byte gate: of all the uploads a streamed delivery starts for
    retried or recovered transfers, each one holds its media, at most one gate
    is ever opened, it is the gate of the media that preparation finally
    returned, and it opens only after preparation succeeded and the operation
    permitted the commit. *)
Theorem stream_release single answer c e1 e2 ps document evs o event op r ev us op' :
  stream_loop ps document evs [] = Some o ->
  sendStreamed_end single answer c e1 e2 ps document o event op = (r, ev, us, op') ->
  Forall held us /\
  (forall i u, us !! i = Some u -> su_released u = true ->
     exists final, o.1 = SPrepared final /\ su_media u = pr_Data (pi_Media final) /\
       (BeforeDeliveryCommit c e1 e2 op).1 = None) /\
  (forall i j u v, us !! i = Some u -> us !! j = Some v ->
     su_released u = true -> su_released v = true -> i = j).
Proof.
  intros Hloop Hend. apply stream_loop_uploads in Hloop; [|constructor].
  destruct o as [out us0]. cbn [fst snd] in *.
  assert (forall vs, Forall (fun u => held u /\ su_released u = false) vs ->
    Forall held vs /\ forall i u, vs !! i = Some u -> su_released u = true -> False) as Hnone.
  { intros vs Hvs. split; [eapply Forall_impl; [done|by intros ? []]|].
    intros i u Hi Hr. apply (Forall_lookup_1 _ _ _ _ Hvs) in Hi as [_ ?]. congruence. }
  destruct out as [re|e|final]; simpl in Hend.
  - destruct (finish_upload re event). injection Hend as <- <- <- <-.
    destruct (Hnone us0 Hloop) as [? Hn]. split; [done|]. split; intros; exfalso; eauto.
  - injection Hend as <- <- <- <-.
    destruct (Hnone us0 Hloop) as [? Hn]. split; [done|]. split; intros; exfalso; eauto.
  - destruct (choose_current _ us0 None 0) as [us1 cur] eqn:Ec.
    destruct (choose_current_spec _ _ _ _ _ _ Ec) as (L & F & G).
    assert (Forall (fun u => held u /\ su_released u = false) us1) as Hus1.
    { apply Forall_lookup_2. intros k u Hk. destruct (F k u Hk) as (u0 & Hu0 & _ & Ecall & Er & _).
      apply (Forall_lookup_1 _ _ _ _ Hloop) in Hu0. unfold held in *. by rewrite Ecall, Er. }
    destruct (Hnone us1 Hus1) as [Hh Hn].
    destruct cur as [i|].
    2: { destruct (single final ps _ op) as [[? ?] ?]. injection Hend as <- <- <- <-.
         split; [done|]. split; intros; exfalso; eauto. }
    destruct (BeforeDeliveryCommit c e1 e2 op) as [commit op1]. destruct commit as [e|].
    { injection Hend as <- <- <- <-. split; [done|]. split; intros; exfalso; eauto. }
    destruct (us1 !! i) as [u|] eqn:Ei.
    2: { injection Hend as <- <- <- <-. split; [done|]. split; intros; exfalso; eauto. }
    destruct (answer (release_upload u) op1) as [ra op2]. destruct (finish_upload ra event).
    injection Hend as <- <- <- <-.
    assert (forall j v, <[i:=release_upload u]> us1 !! j = Some v -> su_released v = true -> j = i /\ v = release_upload u) as Hone.
    { intros j v Hj Hr. destruct (decide (i = j)) as [->|Hij].
      - rewrite list_lookup_insert_eq in Hj by (by eapply lookup_lt_Some). by injection Hj as <-.
      - rewrite list_lookup_insert_ne in Hj by done. exfalso. eauto. }
    split; [|split].
    + apply Forall_insert; [done|]. by apply (Forall_lookup_1 _ _ _ _ Hus1) in Ei as [? _].
    + intros j v Hj Hr. destruct (Hone j v Hj Hr) as [-> ->]. exists final. split; [done|]. split; [|done].
      destruct (G i eq_refl) as [|(k & w & -> & Hw & Hm)]; [done|]. simpl in Ei. rewrite Hw in Ei.
      by injection Ei as ->.
    + intros j k v w Hj Hk Hv Hw. destruct (Hone _ _ Hj Hv), (Hone _ _ Hk Hw). congruence.
Qed.

Lemma stream_release_witness :
  let c := mkCtx true false in
  let single := fun _ _ ev op => (Err (ErrOther ""), ev, op) in
  let answer := fun (_ : streamUpload) (op : Operation) => (Err (ErrOther ""), op) in
  let evs := [SStart (sample_item 1); SStart (sample_item 2); SFinished (Ok (sample_item 2))] in
  let op := NewOperation 1 in
  let o := (SPrepared (sample_item 2), [launch (sample_item 1) [] false; launch (sample_item 2) [] false]) in
  let x := sendStreamed_end single answer c None None [] false o (mkEvent "" "" 0 0 0 "" 0 0) op in
  stream_loop [] false evs [] = Some o /\ Forall held x.1.2 /\ map su_released x.1.2 = [false; true].
Proof.
  intros c single answer evs op o x. split; [reflexivity|]. split; [|vm_compute; reflexivity].
  destruct x as [[[r ev] us] op'] eqn:E.
  exact (proj1 (stream_release single answer c None None [] false evs o _ op r ev us op' eq_refl E)).
Defined.

(** ** Album calls and the delivery event *)

Definition ok_count (calls : list telegramCall) : Z := len (filter (fun c => tc_OK c = true) calls).

Lemma ok_count_snoc calls call : ok_count (calls ++ [call]) = ok_count calls + (if tc_OK call then 1 else 0).
Proof.
  unfold ok_count. rewrite filter_app, len_app. destruct (tc_OK call) eqn:E.
  - rewrite filter_cons_True by done. done.
  - rewrite filter_cons_False by congruence. done.
Qed.

Section Batches.
Context {St : Type} (do_call : string -> fields -> list upload -> St -> res goerr telegramCall * St).

(** The loop invariant: every call so far succeeded and was counted. *)
Lemma send_batches_spec al document instagram b batches calls event st :
  forallb tc_OK calls = true -> ev_Outcome event = ""%string ->
  ev_Attempts event = len calls -> ev_Succeeded event = len calls ->
  let '(r, ev, _) := send_batches do_call al document instagram b batches calls event st in
  ev_Batches ev = ev_Batches event /\
  match r with
  | Ok calls' =>
      ev_Attempts ev = len calls' /\ ev_Succeeded ev = ok_count calls' /\ len calls' <= len calls + len batches /\
      ((ev_Outcome ev = ""%string /\ forallb tc_OK calls' = true /\ len calls' = len calls + len batches) \/
       (ev_Outcome ev = "rejected"%string /\ exists cs c, calls' = cs ++ [c] /\ forallb tc_OK cs = true /\ tc_OK c = false))
  | Err _ => ev_Outcome ev = ""%string /\ ev_Attempts ev = ev_Succeeded ev + 1 /\ len calls <= ev_Succeeded ev < len calls + len batches
  end.
Proof.
  revert b calls event st. induction batches as [|batch batches IH]; intros b calls event st Hok Ho Ha Hs; simpl.
  { split; [done|]. split; [done|]. rewrite Hs. unfold ok_count. rewrite filter_all.
    - rewrite len_nil. split; [done|]. split; [lia|]. left. split; [done|]. split; [done|lia].
    - apply forallb_Forall in Hok. intros x Hx. rewrite Forall_forall in Hok. by apply Hok. }
  destruct (album_call al document instagram b batch) as [f us].
  destruct (do_call "sendMediaGroup" f us st) as [[call|e] st'].
  2: { simpl. rewrite len_cons. pose proof (len_nonneg batches). split; [done|]. split; [done|]. lia. }
  destruct (tc_OK call) eqn:Ec.
  - specialize (IH (b + 1) (calls ++ [call]) (record call (add_attempt event)) st').
    destruct (send_batches do_call al document instagram (b + 1) batches (calls ++ [call]) (record call (add_attempt event)) st') as [[r ev] st''].
    rewrite !len_app, !len_cons, !len_nil in IH. rewrite len_cons.
    unfold record in IH. rewrite Ec in IH. simpl in IH.
    destruct IH as (IH1 & IH2); [by rewrite forallb_app, Hok; simpl; rewrite Ec|done|lia|lia|].
    split; [done|]. destruct r as [calls'|e'].
    + destruct IH2 as (I1 & I2 & I3 & I4). repeat split; try done; [lia|].
      destruct I4 as [(? & ? & ?)|?]; [left; repeat split; try done; lia|by right].
    + destruct IH2 as (I1 & I2 & I3). repeat split; try done; lia.
  - unfold record. rewrite Ec. simpl. split; [done|]. rewrite len_app, len_cons, len_nil, ok_count_snoc, Ec, len_cons.
    pose proof (len_nonneg batches). split; [lia|]. split.
    { rewrite Hs. unfold ok_count. rewrite filter_all; [lia|]. apply forallb_Forall in Hok. intros x Hx.
      rewrite Forall_forall in Hok. by apply Hok. }
    split; [lia|]. right. split; [done|]. by exists calls, call.
Qed.
End Batches.

(** The delivery event of an album tells the truth: [Attempts] and
    [Succeeded] count the Telegram calls and the accepted ones; the outcome is
    [succeeded] exactly when every batch was sent and accepted, [partial] as
    soon as one batch was accepted but not all, and otherwise [rejected] or
    [failed]. *)
Theorem album_event {St} (do_call : string -> fields -> list upload -> St -> res goerr telegramCall * St)
    al document instagram batches st n :
  let '(r, ev, _) := send_batches do_call al document instagram 0 batches [] (mkEvent "" "upload" n 0 0 "" 0 0) st in
  let out := finish (err_of r) ev in
  match r with
  | Ok calls =>
      ev_Attempts out = len calls /\ ev_Succeeded out = ok_count calls /\
      (ev_Outcome out = "succeeded"%string <-> forallb tc_OK calls = true /\ len calls = len batches) /\
      (ev_Outcome out <> "succeeded"%string ->
         ev_Outcome out = if 0 <? ok_count calls then "partial"%string else "rejected"%string)
  | Err e =>
      ev_Outcome out = (if 0 <? ev_Succeeded out then "partial"%string else "failed"%string) /\
      ev_ErrorCode out = failure_code e
  end.
Proof.
  pose proof (send_batches_spec do_call al document instagram 0 batches [] (mkEvent "" "upload" n 0 0 "" 0 0) st
    eq_refl eq_refl eq_refl eq_refl) as H.
  destruct (send_batches _ _ _ _ _ _ _ _ st) as [[r ev] st']. destruct H as [_ H].
  destruct r as [calls|e]; simpl.
  - destruct H as (H1 & H2 & _ & [(Ho & Hall & Hl)|(Ho & cs & c & -> & Hcs & Hc)]).
    + unfold finish. rewrite Ho. simpl. rewrite len_nil in Hl. repeat split; try done; lia.
    + unfold finish. rewrite Ho. simpl. split; [done|]. split; [done|]. rewrite H2.
      split; [|done]. split; [by destruct (0 <? _)|]. rewrite forallb_app. simpl. rewrite Hc, andb_false_r. by intros [].
  - unfold finish. simpl. done.
Qed.
