(* ===== verification/Validation.v ===== *)
(** * Validation of delivery requests

    Models src/internal/httpapi/validation.go: [boolean], [refresh], [integer]
    and [parseTelegram].  [httpURL] rests on net/url and an internationalised
    domain library and is an argument, as the normalised URL or a refusal; it is
    modelled in Api, with those as parameters. *)
From S2P Require Import Prelude Strconv Errors Json TelegramClient OperationApi Telegram.

(** Go's nil interface for an absent key. *)
Definition index (m : fields) (k : string) : json := default JNull (obj_get k m).

Definition boolean (value : json) : res goerr bool :=
  match value with
  | JBool x => Ok x
  | JNum x =>
      if String.eqb x "0" then Ok false else if String.eqb x "1" then Ok true else Err invalidRequest
  | JStr x =>
      match ToLower x with
      | "true" | "1" | "yes" | "on" | "t" | "y" => Ok true
      | "false" | "0" | "no" | "off" | "f" | "n" => Ok false
      | _ => Err invalidRequest
      end%string
  | _ => Err invalidRequest
  end.

Definition refresh (body : fields) : res goerr bool :=
  match obj_get "refresh" body with Some value => boolean value | None => Ok false end.

(** [^[+-]?[0-9]+(?:\.0+)?$] *)
Definition all_chars (f : ascii -> bool) (s : string) : bool :=
  forallb f (String.list_ascii_of_string s).
Definition is_digit_char (a : ascii) : bool := match digit_val a with Some _ => true | None => false end.

Definition unsigned_part (s : string) : bool * string :=
  match s with
  | String "-" s => (true, s)
  | String "+" s => (false, s)
  | _ => (false, s)
  end%char.

Definition integerString (s : string) : bool :=
  let '(_, s) := unsigned_part s in
  let '(int, frac, dot) := cut_byte "." s in
  negb (String.eqb int "") && all_chars is_digit_char int &&
  (negb dot || (negb (String.eqb frac "") && all_chars (Ascii.eqb "0") frac)).

(** A decimal number [mantissa * 10 ^ exponent]: the reading of
    [big.Rat.SetString] on a JSON number or an integer string. *)
Definition decimal (s : string) : option (Z * Z) :=
  let '(neg, s) := unsigned_part s in
  let '(mant, exp, has_exp) :=
    match cut_byte "e" s with
    | (m, x, true) => (m, x, true)
    | _ => cut_byte "E" s
    end in
  let '(int, frac, _) := cut_byte "." mant in
  match digits (int +:+ frac), (if has_exp then Atoi exp else Some 0) with
  | Some m, Some e => Some (if neg then - m else m, e - Z.of_nat (String.length frac))
  | _, _ => None
  end.

(** The integer a decimal denotes, if it is one. *)
Definition decimal_int (d : Z * Z) : option Z :=
  let '(m, e) := d in
  if 0 <=? e then Some (m * 10 ^ e)
  else if m mod 10 ^ (- e) =? 0 then Some (m / 10 ^ (- e)) else None.

Definition exponent_ok (text : string) : bool :=
  let check x := match Atoi x with Some e => (-1024 <=? e) && (e <=? 1024) | None => false end in
  match cut_byte "e" text with
  | (_, x, true) => check x
  | _ => match cut_byte "E" text with (_, x, true) => check x | _ => true end
  end.

Definition integer_text (value : json) : option string :=
  match value with
  | JStr x => let text := TrimSpace x in if integerString text then Some text else None
  | JNum x => if exponent_ok x then Some x else None
  | JBool x => Some (if x then "1" else "0")%string
  | _ => None
  end.

Definition integer (value : json) (positive : bool) : res goerr string :=
  match integer_text value with
  | None => Err invalidRequest
  | Some text =>
      if 1024 <? Z.of_nat (String.length text) then Err invalidRequest
      else
        match decimal text with
        | None => Err invalidRequest
        | Some d =>
            match decimal_int d with
            | None => Err invalidRequest
            | Some n => if positive && (n <=? 0) then Err invalidRequest else Ok (Itoa n)
            end
        end
  end.

Section Parse.
Context (httpURL : json -> res goerr string).

(** The selectors of [body["source"]]: how many, and what they set. *)
Definition parse_source (source : fields) (instagram : bool) (request : telegramRequest) :
    res goerr (Z * telegramRequest) :=
  let? p :=
    match index source "url" with
    | JNull => Ok (0, request)
    | value =>
        let? u := httpURL value in
        Ok (1, mkRequest u (rq_ExtractionID request) (rq_VideoID request) (rq_Delivery request) "url"
                 (rq_Refresh request) (rq_Telegram request))
    end in
  let '(count, request) := p in
  let? p :=
    match index source "extraction_id" with
    | JNull => Ok (count, request)
    | JStr text =>
        Ok (count + 1, mkRequest (rq_URL request) (TrimSpace text) (rq_VideoID request) (rq_Delivery request)
                         "extraction_id" (rq_Refresh request) (rq_Telegram request))
    | _ => Err invalidRequest
    end in
  let '(count, request) := p in
  match index source "video_id" with
  | JNull => Ok (count, request)
  | value =>
      if instagram then Ok (count, request)
      else
        let? id := integer value true in
        Ok (count + 1, mkRequest (rq_URL request) (rq_ExtractionID request) id (rq_Delivery request) "video_id"
                         (rq_Refresh request) (rq_Telegram request))
  end.

(** The conversion loops over the named parameters. *)
Fixpoint convert_fields (conv : json -> res goerr json) (keys : list string) (parameters : fields) : res goerr fields :=
  match keys with
  | [] => Ok parameters
  | key :: keys =>
      match index parameters key with
      | JNull => convert_fields conv keys parameters
      | value => let? v := conv value in convert_fields conv keys (obj_set key v parameters)
      end
  end.

Definition as_string (v : json) : res goerr json := match v with JStr _ => Ok v | _ => Err invalidRequest end.
Definition as_integer (v : json) : res goerr json := let? n := integer v false in Ok (JNum n).
Definition as_bool (v : json) : res goerr json := let? b := boolean v in Ok (JBool b).
Definition as_object (v : json) : res goerr json := if is_obj v then Ok v else Err invalidRequest.

Definition check_entities (parameters : fields) : res goerr fields :=
  match index parameters "caption_entities" with
  | JNull => Ok parameters
  | JArr list => if forallb is_obj list then Ok parameters else Err invalidRequest
  | _ => Err invalidRequest
  end.

Definition parse_parameters (parameters : fields) : res goerr fields :=
  let? parameters :=
    match obj_get "chat_id" parameters with
    | None | Some JNull => Err invalidRequest
    | Some (JStr _) => Ok parameters
    | Some chat => let? number := integer chat false in Ok (obj_set "chat_id" (JNum number) parameters)
    end in
  if existsb (fun key => has_key key parameters) telegramReservedFields then Err invalidRequest
  else
    let? parameters := convert_fields as_string telegramStringFields parameters in
    let? parameters := convert_fields as_integer telegramIntegerFields parameters in
    let? parameters := convert_fields as_bool telegramBoolFields parameters in
    let? parameters := convert_fields as_object telegramObjectFields parameters in
    check_entities parameters.

Definition delivery_ok (delivery : string) (instagram : bool) : bool :=
  String.eqb delivery "media" || String.eqb delivery "document" || (negb instagram && String.eqb delivery "audio").

Definition is_null (v : json) : bool := match v with JNull => true | _ => false end.

Definition parseTelegram (body : fields) (instagram : bool) : res goerr telegramRequest :=
  let? refreshed := refresh body in
  let? delivery :=
    match obj_get "delivery" body with
    | None => Ok "media"%string
    | Some (JStr d) => if delivery_ok d instagram then Ok d else Err invalidRequest
    | Some _ => Err invalidRequest
    end in
  match index body "source" with
  | JObj source =>
      let? p := parse_source source instagram (mkRequest "" "" "" delivery "" refreshed []) in
      let '(count, request) := p in
      if negb (count =? 1) || (negb (is_null (index source "extraction_id")) && rq_Refresh request) ||
         (negb (String.eqb (rq_VideoID request) "") && negb (String.eqb (rq_Delivery request) "audio"))
      then Err invalidRequest
      else
        match index body "telegram" with
        | JObj parameters =>
            let? parameters := parse_parameters parameters in
            Ok (mkRequest (rq_URL request) (rq_ExtractionID request) (rq_VideoID request) (rq_Delivery request)
                  (rq_Selector request) (rq_Refresh request) parameters)
        | _ => Err invalidRequest
        end
  | _ => Err invalidRequest
  end.
End Parse.

(** ** Properties *)

Definition typed (v : json) (ok : json -> Prop) : Prop := v = JNull \/ ok v.
Definition is_str (v : json) : Prop := exists s, v = JStr s.
Definition is_int (v : json) : Prop := exists n, v = JNum (Itoa n).
Definition is_bool (v : json) : Prop := exists b, v = JBool b.
Definition is_object (v : json) : Prop := is_obj v = true.

Lemma index_set m k k' v : index (obj_set k' v m) k = if String.eqb k k' then v else index m k.
Proof. unfold index. rewrite obj_get_set. by destruct (String.eqb k k'). Qed.

(** A conversion loop gives the named parameters their type and keeps the
    type, and the absence, of the others. *)
Lemma convert_fields_spec conv (ok : json -> Prop) keys m m' :
  (forall v w, conv v = Ok w -> ok w) ->
  convert_fields conv keys m = Ok m' ->
  (forall k, k ∈ keys -> typed (index m' k) ok) /\
  (forall k, typed (index m k) ok -> typed (index m' k) ok) /\
  (forall k, (k ∉ keys) -> obj_get k m' = obj_get k m) /\
  (forall k, has_key k m' = has_key k m).
Proof.
  intros Hconv. revert m. induction keys as [|key keys IH]; intros m; cbn [convert_fields].
  { intros [= <-]. split; [by intros k H%elem_of_nil|done]. }
  intros E.
  assert (exists m1, convert_fields conv keys m1 = Ok m' /\ typed (index m1 key) ok /\
    (forall k, typed (index m k) ok -> typed (index m1 k) ok) /\
    (forall k, k <> key -> obj_get k m1 = obj_get k m) /\ (forall k, has_key k m1 = has_key k m))
    as (m1 & E1 & T1 & T2 & T3 & T4).
  { destruct (decide (index m key = JNull)) as [En|En].
    - rewrite En in E. exists m. split; [done|]. split; [by left|done].
    - assert (exists v, conv (index m key) = Ok v /\ convert_fields conv keys (obj_set key v m) = Ok m') as (v & Ev & Em).
      { destruct (index m key) eqn:Ek; [done|by apply rbind_ok_inv in E..]. }
      exists (obj_set key v m). split; [done|]. split; [|split; [|split]].
      + right. rewrite index_set, String.eqb_refl. by eapply Hconv.
      + intros k Hk. rewrite index_set. destruct (String.eqb k key); [right; by eapply Hconv|done].
      + intros k Hk. rewrite obj_get_set. by destruct (String.eqb_spec k key).
      + intros k. unfold has_key. rewrite obj_get_set. destruct (String.eqb_spec k key) as [->|]; [|done].
        unfold index in En. by destruct (obj_get key m). }
  destruct (IH m1 E1) as (H1 & H2 & H3 & H4). split; [|split; [|split]].
  - intros k [->|Hk]%elem_of_cons; auto.
  - auto.
  - intros k Hk. rewrite H3, T3; [done| |]; intros ?; apply Hk; [subst; left|by right].
  - intros k. by rewrite H4, T4.
Qed.

Lemma as_string_ok v w : as_string v = Ok w -> is_str w.
Proof. destruct v; try done. intros [= <-]. by eexists. Qed.
Lemma as_integer_ok v w : as_integer v = Ok w -> is_int w.
Proof.
  unfold as_integer. intros (n & H1 & [= <-])%rbind_ok_inv. unfold integer in H1.
  repeat (case_match; try done). injection H1 as <-. by eexists.
Qed.
Lemma as_bool_ok v w : as_bool v = Ok w -> is_bool w.
Proof. unfold as_bool. intros (b & _ & [= <-])%rbind_ok_inv. by eexists. Qed.
Lemma as_object_ok v w : as_object v = Ok w -> is_object w.
Proof. unfold as_object, is_object. destruct (is_obj v) eqn:E; [|done]. by intros [= <-]. Qed.

(** The five parameter lists name different parameters. *)
Definition disjoint_lists (l1 l2 : list string) : bool := forallb (fun k => negb (member k l2)) l1.

Lemma disjoint_lists_spec l1 l2 k : disjoint_lists l1 l2 = true -> k ∈ l1 -> k ∉ l2.
Proof.
  unfold disjoint_lists. intros H Hk Hk2. apply forallb_Forall in H. rewrite Forall_forall in H.
  specialize (H k Hk). apply member_spec in Hk2. by rewrite Hk2 in H.
Qed.

Lemma index_eq m m' k : obj_get k m' = obj_get k m -> index m' k = index m k.
Proof. unfold index. by intros ->. Qed.

(** What an accepted [telegram] object looks like. *)
Record good_parameters (m : fields) : Prop := {
  gp_chat : is_str (index m "chat_id") \/ is_int (index m "chat_id");
  gp_reserved k : k ∈ telegramReservedFields -> obj_get k m = None;
  gp_strings k : k ∈ telegramStringFields -> typed (index m k) is_str;
  gp_integers k : k ∈ telegramIntegerFields -> typed (index m k) is_int;
  gp_bools k : k ∈ telegramBoolFields -> typed (index m k) is_bool;
  gp_objects k : k ∈ telegramObjectFields -> typed (index m k) is_object;
  gp_entities : typed (index m "caption_entities") (fun v => exists l, v = JArr l /\ Forall is_object l);
}.

Lemma has_key_None k m : has_key k m = false <-> obj_get k m = None.
Proof. unfold has_key. by destruct (obj_get k m). Qed.

Lemma parse_parameters_good m m' : parse_parameters m = Ok m' -> good_parameters m'.
Proof.
  unfold parse_parameters. intros (m1 & H1 & H)%rbind_ok_inv.
  assert (is_str (index m1 "chat_id") \/ is_int (index m1 "chat_id")) as Hchat.
  { destruct (obj_get "chat_id" m) as [chat|] eqn:Ec; [|done].
    assert (is_str chat -> m1 = m -> is_str (index m1 "chat_id")) as Hs
      by (intros ? ->; unfold index; by rewrite Ec).
    destruct chat; try done; try (injection H1 as <-; left; apply Hs; [by eexists|done]).
    all: apply rbind_ok_inv in H1 as (n & Hn & [= <-]); right; rewrite index_set, String.eqb_refl.
    all: unfold integer in Hn; repeat (case_match; try done); injection Hn as <-; by eexists. }
  destruct (existsb _ telegramReservedFields) eqn:Er; [done|].
  apply rbind_ok_inv in H as (m2 & H2 & H). apply rbind_ok_inv in H as (m3 & H3 & H).
  apply rbind_ok_inv in H as (m4 & H4 & H). apply rbind_ok_inv in H as (m5 & H5 & H).
  destruct (convert_fields_spec as_string is_str _ _ _ as_string_ok H2) as (A1 & A2 & A3 & A4).
  destruct (convert_fields_spec as_integer is_int _ _ _ as_integer_ok H3) as (B1 & B2 & B3 & B4).
  destruct (convert_fields_spec as_bool is_bool _ _ _ as_bool_ok H4) as (C1 & C2 & C3 & C4).
  destruct (convert_fields_spec as_object is_object _ _ _ as_object_ok H5) as (D1 & D2 & D3 & D4).
  assert (m' = m5) as ->.
  { unfold check_entities in H. repeat (case_match; try done). all: by injection H. }
  assert (typed (index m5 "caption_entities") (fun v => exists l, v = JArr l /\ Forall is_object l)) as Hent.
  { unfold check_entities in H. destruct (index m5 "caption_entities") as [| | | |l|]; try done; [by left|].
    destruct (forallb is_obj l) eqn:El; [|done]. right. exists l. split; [done|]. by apply forallb_Forall in El. }
  assert (forall l1 l2 k, k ∈ l1 -> disjoint_lists l1 l2 = true -> k ∉ l2) as Hd.
  { intros. by eapply disjoint_lists_spec. }
  constructor.
  - assert (index m5 "chat_id" = index m1 "chat_id") as ->; [|done]. apply index_eq.
    rewrite D3, C3, B3, A3; try done; intros Hin; apply member_spec in Hin; by vm_compute in Hin.
  - intros k Hk. apply has_key_None. rewrite D4, C4, B4, A4.
    destruct (has_key k m1) eqn:Ek; [|done].
    assert (existsb (fun key => has_key key m1) telegramReservedFields = true); [|congruence].
    apply existsb_elem. eauto.
  - intros k Hk. rewrite (index_eq m2 m5); [by apply A1|].
    rewrite D3, C3, B3; try done; eapply Hd; try exact Hk; vm_compute; reflexivity.
  - intros k Hk. rewrite (index_eq m3 m5); [by apply B1|].
    rewrite D3, C3; try done; eapply Hd; try exact Hk; vm_compute; reflexivity.
  - intros k Hk. rewrite (index_eq m4 m5); [by apply C1|].
    rewrite D3; try done; eapply Hd; try exact Hk; vm_compute; reflexivity.
  - intros k Hk. by apply D1.
  - exact Hent.
Qed.

(** The one source a request names, the fields of the others being empty: [source] is
    its object, where an absent field reads as null. *)
Inductive selects (httpURL : json -> res goerr string) (source : fields) (instagram : bool) (r : telegramRequest) : Prop :=
| selects_url :
    rq_Selector r = "url"%string -> httpURL (index source "url") = Ok (rq_URL r) -> rq_ExtractionID r = ""%string -> rq_VideoID r = ""%string ->
    index source "url" <> JNull -> index source "extraction_id" = JNull -> (instagram = true \/ index source "video_id" = JNull) -> selects httpURL source instagram r
| selects_extraction text :
    rq_Selector r = "extraction_id"%string -> rq_URL r = ""%string -> rq_ExtractionID r = TrimSpace text -> rq_VideoID r = ""%string -> rq_Refresh r = false ->
    index source "url" = JNull -> index source "extraction_id" = JStr text -> (instagram = true \/ index source "video_id" = JNull) -> selects httpURL source instagram r
| selects_video :
    rq_Selector r = "video_id"%string -> rq_URL r = ""%string -> rq_ExtractionID r = ""%string -> integer (index source "video_id") true = Ok (rq_VideoID r) ->
    index source "url" = JNull -> index source "extraction_id" = JNull -> instagram = false -> index source "video_id" <> JNull -> selects httpURL source instagram r.

Lemma parse_source_selects httpURL source instagram d rf r :
  parse_source httpURL source instagram (mkRequest "" "" "" d "" rf []) = Ok (1, r) ->
  (negb (is_null (index source "extraction_id")) && rq_Refresh r) = false ->
  selects httpURL source instagram r /\ rq_Delivery r = d /\ rq_Refresh r = rf.
Proof.
  unfold parse_source. intros ([c1 s1] & H1 & H)%rbind_ok_inv. apply rbind_ok_inv in H as ([c2 s2] & H2 & H).
  assert ((index source "url" = JNull /\ c1 = 0 /\ s1 = mkRequest "" "" "" d "" rf []) \/
    exists u, index source "url" <> JNull /\ httpURL (index source "url") = Ok u /\ c1 = 1 /\ s1 = mkRequest u "" "" d "url" rf []) as Hu.
  { destruct (index source "url") eqn:E; [by injection H1 as <- <-; left|..]; apply rbind_ok_inv in H1 as (u & Hu & [= <- <-]); right; by exists u. }
  assert ((index source "extraction_id" = JNull /\ c2 = c1 /\ s2 = s1) \/
    exists t, index source "extraction_id" = JStr t /\ c2 = c1 + 1 /\
      s2 = mkRequest (rq_URL s1) (TrimSpace t) (rq_VideoID s1) (rq_Delivery s1) "extraction_id" (rq_Refresh s1) (rq_Telegram s1)) as He.
  { destruct (index source "extraction_id") eqn:E; try done; injection H2 as <- <-; [by left|right; by eexists]. }
  assert (((instagram = true \/ index source "video_id" = JNull) /\ c2 = 1 /\ r = s2) \/
    exists t, index source "video_id" <> JNull /\ instagram = false /\ integer (index source "video_id") true = Ok t /\ c2 = 0 /\
      r = mkRequest (rq_URL s2) (rq_ExtractionID s2) t (rq_Delivery s2) "video_id" (rq_Refresh s2) (rq_Telegram s2)) as Hv.
  { destruct (index source "video_id") eqn:E; [by injection H as -> <-; left; split; [right|]|..].
    all: destruct instagram; [by injection H as -> <-; left; split; [left|]|].
    all: apply rbind_ok_inv in H as (t & Ht & [= ? <-]); right; exists t; split_and!; [done..|lia|done]. }
  clear H1 H2 H.
  destruct Hu as [(Nu & -> & ->)|(u & Nu & Eu & -> & ->)], He as [(Ne & -> & ->)|(t & Ne & -> & ->)], Hv as [(Nv & ? & ->)|(v & Nv & Ni & Ev & ? & ->)];
    simpl in *; try lia; intros Hr; rewrite Ne in Hr; simpl in Hr.
  - split; [by apply selects_video|done].
  - split; [by eapply selects_extraction|done].
  - split; [by apply selects_url|done].
Qed.

(** C21. A delivery request that passes validation is well typed: its delivery
    mode is one the platform has, the one it asks for or media; its source
    object names exactly one source, which is the request's, the fields of the
    others being empty (an extraction is never refreshed, a video id is only for
    audio, and Instagram has none); its
    chat is a string or an integer in canonical decimal form, no attachment
    field is set by the caller, and every known parameter is null or of its
    type, integers and booleans in canonical form; caption entities are a list of
    objects. *)
Theorem parseTelegram_sound httpURL body instagram r :
  parseTelegram httpURL body instagram = Ok r ->
  delivery_ok (rq_Delivery r) instagram = true /\
  good_parameters (rq_Telegram r) /\
  rq_Selector r ∈ ["url"; "extraction_id"; "video_id"]%string /\
  (rq_Selector r = "extraction_id"%string -> rq_Refresh r = false) /\
  (rq_Selector r <> "url"%string -> rq_URL r = ""%string) /\
  (rq_VideoID r <> ""%string -> rq_Delivery r = "audio"%string /\ instagram = false) /\
  rq_Delivery r = match obj_get "delivery" body with Some (JStr d) => d | _ => "media"%string end /\
  refresh body = Ok (rq_Refresh r) /\
  exists source, index body "source" = JObj source /\ selects httpURL source instagram r.
Proof.
  unfold parseTelegram. intros (rf & Hrf & H)%rbind_ok_inv. apply rbind_ok_inv in H as (d & Hd & H).
  assert (delivery_ok d instagram = true /\ d = match obj_get "delivery" body with Some (JStr d) => d | _ => "media"%string end) as [Hdel Hd'].
  { destruct (obj_get "delivery" body) as [[| | |s| |]|]; try done; [|by injection Hd as <-].
    destruct (delivery_ok s instagram) eqn:E; [by injection Hd as <-|done]. }
  destruct (index body "source") as [| | | | |source]; try done.
  apply rbind_ok_inv in H as ([count r1] & Hs & H). simpl in H.
  destruct (_ || _) eqn:Ec; [done|].
  destruct (index body "telegram") as [| | | | |ps]; try done.
  apply rbind_ok_inv in H as (ps' & Hps & [= <-]). cbn [rq_Delivery rq_Telegram rq_Selector rq_Refresh rq_URL rq_VideoID].
  apply orb_false_iff in Ec as [Ec Ev]. apply orb_false_iff in Ec as [Ecount Eref].
  apply negb_false_iff, Z.eqb_eq in Ecount. subst count. apply parse_parameters_good in Hps.
  destruct (parse_source_selects _ _ _ _ _ _ Hs Eref) as (Hsel & Ed & Erf).
  assert (selects httpURL source instagram (mkRequest (rq_URL r1) (rq_ExtractionID r1) (rq_VideoID r1) (rq_Delivery r1) (rq_Selector r1) (rq_Refresh r1) ps')) as Hsel'
    by (destruct Hsel; [by apply selects_url|by eapply selects_extraction|by apply selects_video]).
  rewrite Ed, Erf in *. split; [done|]. split; [done|].
  assert (rq_VideoID r1 <> ""%string -> d = "audio"%string) as Haudio.
  { intros Hv. apply String.eqb_neq in Hv. rewrite Hv in Ev. by apply negb_false_iff, String.eqb_eq in Ev. }
  split; [|split; [|split; [|split; [|split_and!; [done..|by exists source]]]]].
  - destruct Hsel as [-> | ? -> | ->]; set_solver.
  - destruct Hsel as [-> | ? -> | ->]; congruence.
  - destruct Hsel as [-> | ? -> | ->]; done.
  - intros Hv. split; [by apply Haudio|]. destruct Hsel; congruence.
Qed.

Lemma parseTelegram_sound_witness :
  let body := [("source", JObj [("video_id", JNum "12e2")]); ("delivery", JStr "audio");
               ("telegram", JObj [("chat_id", JStr "@x"); ("duration", JStr " +07.0 "); ("protect_content", JStr "Yes")])]%string in
  exists r, parseTelegram (fun _ => Err invalidRequest) body false = Ok r /\
    rq_VideoID r = "1200"%string /\ good_parameters (rq_Telegram r).
Proof.
  intros body. eexists. split; [vm_compute; reflexivity|]. split; [reflexivity|].
  refine (proj1 (proj2 (parseTelegram_sound (fun _ => Err invalidRequest) body false _ _))).
  vm_compute. reflexivity.
Defined.
