(* ===== verification/Spool.v ===== *)
(** * spool: media buffers in RAM or in temporary files

    Models src/internal/spool/spool.go.  A [Buffer] is filled by concurrent
    writers of disjoint ranges while readers stream its ready prefix; its RAM is
    reserved in a [Store] shared by all buffers.

    Each critical section of the mutex is one operation.  [Write] on a buffer of
    known size has two sections with an unlocked copy between them, so it is
    three operations: [write_begin], [write_copy], [write_end]; the write in
    flight is an element of [pending].  [memoryReader.WriteTo] likewise pins the
    buffer, hands a slice out and unpins it ([pin], [unpin]).  A system is a
    store with numbered buffers, and a run is any interleaving of operations.

    Bytes of RAM and of the file are lists; a region is known by a number, as
    the code holds pointers to regions.  Waiting readers (the [waiters] channel)
    only decide when a blocked call continues and carry no state; SpoolReader
    models the readers. *)
From S2P Require Import Prelude Strconv Errors.

Definition minGrowth : Z := Z.shiftl 64 10.

Record Store := mkStore { fileLimit : Z; budget : Z; used : Z }.

Definition NewStore (limit b : Z) : Store := mkStore limit b 0.

(** A nil store refuses every reservation and ignores releases. *)
Definition reserve (s : option Store) (total delta : Z) : bool * option Store :=
  match s with
  | None => (false, s)
  | Some st =>
      if fileLimit st <? total then (false, s)
      else if budget st <? used st + delta then (false, s)
      else (true, Some (mkStore (fileLimit st) (budget st) (used st + delta)))
  end.

Definition release (s : option Store) (n : Z) : option Store :=
  match s with
  | None => s
  | Some st => if negb (n =? 0) then Some (mkStore (fileLimit st) (budget st) (used st - n)) else s
  end.

Inductive spoolErr := ErrClosed | ErrIncomplete | ErrOverflow | ErrEOF | ErrUnexpectedEOF | ErrNegative | ErrFile | ErrFailed (e : goerr).

Record region := mkRegion { rg_id : nat; rg_start : Z; rg_end : Z; rg_written : Z }.

Record pendingWrite := mkPending { pw_region : nat; pw_data : bytes; pw_offset : Z; pw_file : bool }.

Record Buffer := mkBuffer {
  bf_store : bool;             (* b.store != nil *)
  bf_size : Z;
  bf_mem : bytes;
  bf_cap : Z;                  (* cap(b.mem) *)
  bf_file : option bytes;
  bf_reserved : Z;
  bf_pinned : Z;
  bf_regions : list region;
  bf_ready : Z;
  bf_err : option spoolErr;
  bf_complete : bool;
  bf_closed : bool;
  bf_pending : list pendingWrite;
  bf_next : nat;
}.

Definition set_mem (m : bytes) (cap : Z) (b : Buffer) : Buffer :=
  mkBuffer (bf_store b) (bf_size b) m cap (bf_file b) (bf_reserved b) (bf_pinned b) (bf_regions b) (bf_ready b)
    (bf_err b) (bf_complete b) (bf_closed b) (bf_pending b) (bf_next b).
Definition set_file (f : option bytes) (b : Buffer) : Buffer :=
  mkBuffer (bf_store b) (bf_size b) (bf_mem b) (bf_cap b) f (bf_reserved b) (bf_pinned b) (bf_regions b) (bf_ready b)
    (bf_err b) (bf_complete b) (bf_closed b) (bf_pending b) (bf_next b).
Definition set_reserved (n : Z) (b : Buffer) : Buffer :=
  mkBuffer (bf_store b) (bf_size b) (bf_mem b) (bf_cap b) (bf_file b) n (bf_pinned b) (bf_regions b) (bf_ready b)
    (bf_err b) (bf_complete b) (bf_closed b) (bf_pending b) (bf_next b).
Definition set_pinned (n : Z) (b : Buffer) : Buffer :=
  mkBuffer (bf_store b) (bf_size b) (bf_mem b) (bf_cap b) (bf_file b) (bf_reserved b) n (bf_regions b) (bf_ready b)
    (bf_err b) (bf_complete b) (bf_closed b) (bf_pending b) (bf_next b).
Definition set_regions (l : list region) (n : nat) (b : Buffer) : Buffer :=
  mkBuffer (bf_store b) (bf_size b) (bf_mem b) (bf_cap b) (bf_file b) (bf_reserved b) (bf_pinned b) l (bf_ready b)
    (bf_err b) (bf_complete b) (bf_closed b) (bf_pending b) n.
Definition set_ready (n : Z) (b : Buffer) : Buffer :=
  mkBuffer (bf_store b) (bf_size b) (bf_mem b) (bf_cap b) (bf_file b) (bf_reserved b) (bf_pinned b) (bf_regions b) n
    (bf_err b) (bf_complete b) (bf_closed b) (bf_pending b) (bf_next b).
Definition set_err (e : spoolErr) (b : Buffer) : Buffer :=
  mkBuffer (bf_store b) (bf_size b) (bf_mem b) (bf_cap b) (bf_file b) (bf_reserved b) (bf_pinned b) (bf_regions b)
    (bf_ready b) (Some e) (bf_complete b) (bf_closed b) (bf_pending b) (bf_next b).
Definition set_pending (l : list pendingWrite) (b : Buffer) : Buffer :=
  mkBuffer (bf_store b) (bf_size b) (bf_mem b) (bf_cap b) (bf_file b) (bf_reserved b) (bf_pinned b) (bf_regions b)
    (bf_ready b) (bf_err b) (bf_complete b) (bf_closed b) l (bf_next b).
Definition set_status (size : Z) (complete closed : bool) (b : Buffer) : Buffer :=
  mkBuffer (bf_store b) size (bf_mem b) (bf_cap b) (bf_file b) (bf_reserved b) (bf_pinned b) (bf_regions b)
    (bf_ready b) (bf_err b) complete closed (bf_pending b) (bf_next b).

Definition zeros (n : Z) : bytes := replicate (Z.to_nat n) 0.

(** [Store.New]; [fileOK] is whether a temporary file can be created. *)
Definition New (s : option Store) (size : Z) (fileOK : bool) : option Buffer * option Store :=
  let b := mkBuffer (bool_decide (is_Some s)) size [] 0 None 0 0 [] 0 None false false [] 0 in
  if size <? 0 then (Some b, s)
  else
    let '(ok, s') := reserve s size size in
    if ok then (Some (set_reserved size (set_mem (zeros size) size b)), s')
    else if fileOK then (Some (set_file (Some []) b), s) else (None, s).

Definition Bytes (data : bytes) : Buffer :=
  mkBuffer false (len data) data (len data) None 0 0 [] (len data) None true false [] 0.

(** [sort.Search] finds the first region that starts at or after [start]. *)
Fixpoint insert_region (r : region) (l : list region) : list region :=
  match l with
  | [] => [r]
  | x :: l' => if rg_start r <=? rg_start x then r :: l else x :: insert_region r l'
  end.

Definition Writer (start end_ : Z) (b : Buffer) : nat * Buffer :=
  (bf_next b, set_regions (insert_region (mkRegion (bf_next b) start end_ 0) (bf_regions b)) (S (bf_next b)) b).

Definition find_region (id : nat) (b : Buffer) : option region :=
  List.find (fun r => Nat.eqb (rg_id r) id) (bf_regions b).

Definition Offset (r : region) : Z := rg_start r + rg_written r.
Definition Remaining (r : region) : Z := rg_end r - rg_start r - rg_written r.

(** [advanceLocked] *)
Fixpoint advance_loop (l : list region) (ready : Z) : Z :=
  match l with
  | [] => ready
  | r :: l =>
      if ready <? rg_start r then ready
      else
        let ready := Z.max ready (Offset r) in
        if (rg_end r <? 0) || (Offset r <? rg_end r) then ready else advance_loop l ready
  end.

Definition advance (b : Buffer) : Buffer :=
  let ready := advance_loop (bf_regions b) 0 in
  if bf_ready b <? ready then set_ready ready b else b.

Definition add_written (id : nat) (n : Z) (b : Buffer) : Buffer :=
  set_regions (map (fun r => if Nat.eqb (rg_id r) id then mkRegion id (rg_start r) (rg_end r) (rg_written r + n) else r)
                 (bf_regions b)) (bf_next b) b.

(** [copy(l[off:], p)] and [file.WriteAt(p, off)], which extends the file. *)
Definition write_at (off : Z) (p l : bytes) : bytes :=
  take (Z.to_nat off) (l ++ zeros (off - len l)) ++ p ++ drop (Z.to_nat (off + len p)) l.

Definition spill (s : option Store) (fileOK : bool) (b : Buffer) : option Buffer * option Store :=
  if fileOK then
    (Some (set_reserved 0 (set_mem [] 0 (set_file (Some (bf_mem b)) b))), release s (bf_reserved b))
  else (None, s).

(** The capacity [appendLocked] asks for. *)
Definition growth (s : option Store) (length cap : Z) : Z :=
  let capacity := Z.max (Z.max length (2 * cap)) minGrowth in
  match s with
  | Some st => if 0 <? fileLimit st then Z.max length (Z.min capacity (fileLimit st)) else capacity
  | None => capacity
  end.

(** [append(b.mem, p...)] or a write at the end of the file. *)
Definition append_bytes (r : region) (p : bytes) (b : Buffer) : Buffer :=
  match bf_file b with
  | None => set_mem (bf_mem b ++ p) (bf_cap b) b
  | Some f => set_file (Some (write_at (rg_written r) p f)) b
  end.

(** Make room: grow within the reservation, or spill. *)
Definition append_room (r : region) (length : Z) (fileOK : bool) (s : option Store) (b : Buffer) :
    option Buffer * option Store :=
  match bf_file b with
  | Some _ => (Some b, s)
  | None =>
      if bf_cap b <? length then
        let capacity := growth s length (bf_cap b) in
        let '(ok, s') := reserve s capacity (capacity - bf_reserved b) in
        if ok then (Some (set_reserved capacity (set_mem (bf_mem b) capacity b)), s') else spill s fileOK b
      else (Some b, s)
  end.

(** The temporary file of a growing buffer: creating and filling it fails, or
    writing to it; bytes of a write that failed are past those that count. *)
Inductive file_fate := FileWorks | SpillFails | WriteFails.
Definition spills (f : file_fate) : bool := match f with SpillFails => false | _ => true end.
Definition writes (f : file_fate) : bool := match f with WriteFails => false | _ => true end.

Definition appendLocked (r : region) (p : bytes) (fate : file_fate) (s : option Store) (b : Buffer) :
    res spoolErr Z * Buffer * option Store :=
  let '(grown, s) := append_room r (rg_written r + len p) (spills fate) s b in
  match grown with
  | None => (Err ErrFile, set_err ErrFile b, s)
  | Some b =>
      let file := match bf_file b with Some _ => true | None => false end in
      if file && negb (writes fate) then (Err ErrFile, b, s)
      else (Ok (len p), advance (add_written (rg_id r) (len p) (append_bytes r p b)), s)
  end.

(** The first section of [Write]: a refusal, a growing buffer's whole write, or
    a write in flight. *)
Definition write_begin (id : nat) (p : bytes) (fate : file_fate) (s : option Store) (b : Buffer) :
    res spoolErr (option Z) * Buffer * option Store :=
  match find_region id b with
  | None => (Err ErrOverflow, b, s)
  | Some r =>
      if len p =? 0 then (Ok (Some 0), b, s)
      else
        match bf_err b with
        | Some e => (Err e, b, s)
        | None =>
            let offset := Offset r in
            if ((0 <=? rg_end r) && (rg_end r - offset <? len p)) || ((0 <=? bf_size b) && (bf_size b <? offset + len p))
            then (Err ErrOverflow, b, s)
            else if bf_size b <? 0 then
              let '(x, b, s) := appendLocked r p fate s b in
              (match x with Ok n => Ok (Some n) | Err e => Err e end, b, s)
            else
              let file := match bf_file b with Some _ => true | None => false end in
              let b := if file then b else set_pinned (bf_pinned b + 1) b in
              (Ok None, set_pending (mkPending id p offset file :: bf_pending b) b, s)
        end
  end.

(** The unlocked copy: the slice taken under the lock keeps the RAM of a buffer
    that was closed meanwhile alive, but it is no longer the buffer's. *)
Definition write_copy (w : pendingWrite) (b : Buffer) : Buffer :=
  if pw_file w then
    match bf_file b with
    | Some f => if bf_closed b then b else set_file (Some (write_at (pw_offset w) (pw_data w) f)) b
    | None => b
    end
  else if bf_closed b then b
  else set_mem (write_at (pw_offset w) (pw_data w) (bf_mem b)) (bf_cap b) b.

Definition unpin (s : option Store) (b : Buffer) : Buffer * option Store :=
  let b := set_pinned (bf_pinned b - 1) b in
  if bf_closed b && (bf_pinned b =? 0) then (set_reserved 0 b, release s (bf_reserved b)) else (b, s).

(** The second section of [Write]; [writeOK] is the file's answer. *)
Definition write_end (w : pendingWrite) (writeOK : bool) (s : option Store) (b : Buffer) :
    res spoolErr Z * Buffer * option Store :=
  if pw_file w && negb writeOK then (Err ErrFile, b, s)
  else
    let '(b, s) := if pw_file w then (b, s) else unpin s b in
    match bf_err b with
    | Some e => (Err e, b, s)
    | None => (Ok (len (pw_data w)), advance (add_written (pw_region w) (len (pw_data w)) b), s)
    end.

Definition Complete (b : Buffer) : option spoolErr * Buffer :=
  match bf_err b with
  | Some e => (Some e, b)
  | None =>
      let b := if bf_size b <? 0 then set_status (bf_ready b) (bf_complete b) (bf_closed b) b else b in
      if negb (bf_ready b =? bf_size b) then (Some ErrUnexpectedEOF, b)
      else (None, set_status (bf_size b) true (bf_closed b) b)
  end.

Definition Fail (e : goerr) (b : Buffer) : Buffer :=
  match bf_err b with
  | None => if negb (bf_complete b) then set_err (ErrFailed e) b else b
  | Some _ => b
  end.

Definition Close (s : option Store) (b : Buffer) : Buffer * option Store :=
  if bf_closed b then (b, s)
  else
    let b := set_err ErrClosed (set_status (bf_size b) (bf_complete b) true b) in
    let '(b, s) := if bf_pinned b =? 0 then (set_reserved 0 b, release s (bf_reserved b)) else (b, s) in
    (set_mem [] 0 b, s).

(** [readLocked] of the ready prefix, [n] bytes wanted. *)
Definition contents (b : Buffer) : bytes := match bf_file b with Some f => f | None => bf_mem b end.

Definition readLocked (n off : Z) (b : Buffer) : bytes := slice off (off + Z.min n (bf_ready b - off)) (contents b).

Definition ReadAt (n off : Z) (b : Buffer) : bytes * option spoolErr :=
  if off <? 0 then ([], Some ErrNegative)
  else if bf_closed b then ([], Some ErrClosed)
  else if bf_ready b <=? off then
    ([], Some (if bf_complete b then ErrEOF else match bf_err b with Some e => e | None => ErrIncomplete end))
  else
    let data := readLocked n off b in
    (data, if len data <? n then Some (if bf_complete b then ErrEOF else ErrIncomplete) else None).

(** [waitReadyLocked]: [None] while the call blocks. *)
Definition wait_ready (off : Z) (b : Buffer) : option (option spoolErr) :=
  if bf_closed b then Some (Some ErrClosed)
  else if off <? bf_ready b then Some None
  else if bf_complete b then Some (Some ErrEOF)
  else match bf_err b with Some e => Some (Some e) | None => None end.

(** One turn of [memoryReader.WriteTo]: the slice handed out while pinned. *)
Definition pin (off end_ : Z) (b : Buffer) : bytes * Buffer :=
  let stop := off + Z.min (bf_ready b - off) (Z.shiftl 128 10) in
  let stop := if 0 <=? end_ then Z.min stop end_ else stop in
  (slice off stop (bf_mem b), set_pinned (bf_pinned b + 1) b).

(** ** Systems *)

Record System := mkSystem { sy_store : Store; sy_buffers : list Buffer }.

Inductive operation :=
| ONew (size : Z) (fileOK : bool)
| OWriter (i : nat) (start end_ : Z)
| OWriteBegin (i id : nat) (p : bytes) (fate : file_fate)
| OWriteCopy (i k : nat)
| OWriteEnd (i k : nat) (writeOK : bool)
| OComplete (i : nat)
| OFail (i : nat) (e : goerr)
| OClose (i : nat)
| OPin (i : nat) (off end_ : Z)
| OUnpin (i : nat).

Definition the_store (d : Store) (s : option Store) : Store := default d s.

(** Apply a transformer of one buffer and the store. *)
Definition on_buffer (i : nat) (f : option Store -> Buffer -> Buffer * option Store) (y : System) : System :=
  match sy_buffers y !! i with
  | None => y
  | Some b =>
      let '(b', s') := f (Some (sy_store y)) b in
      mkSystem (the_store (sy_store y) s') (<[i := b']> (sy_buffers y))
  end.

Definition remove_pending (k : nat) (b : Buffer) : Buffer :=
  set_pending (take k (bf_pending b) ++ drop (S k) (bf_pending b)) b.

(** An unpin is the end of one of the buffer's own pins: there is one left
    that is not the pin of a write in flight. *)
Definition ram_pending (b : Buffer) : Z := len (filter (fun w => pw_file w = false) (bf_pending b)).

Definition step (o : operation) (y : System) : System :=
  match o with
  | ONew size fileOK =>
      let '(b, s) := New (Some (sy_store y)) size fileOK in
      match b with
      | Some b => mkSystem (the_store (sy_store y) s) (sy_buffers y ++ [b])
      | None => y
      end
  | OWriter i start end_ => on_buffer i (fun s b => ((Writer start end_ b).2, s)) y
  | OWriteBegin i id p fate => on_buffer i (fun s b => let '(_, b, s) := write_begin id p fate s b in (b, s)) y
  | OWriteCopy i k =>
      on_buffer i (fun s b => match bf_pending b !! k with Some w => (write_copy w b, s) | None => (b, s) end) y
  | OWriteEnd i k writeOK =>
      on_buffer i (fun s b =>
        match bf_pending b !! k with
        | Some w => let '(_, b, s) := write_end w writeOK s (remove_pending k b) in (b, s)
        | None => (b, s)
        end) y
  | OComplete i => on_buffer i (fun s b => ((Complete b).2, s)) y
  | OFail i e => on_buffer i (fun s b => (Fail e b, s)) y
  | OClose i => on_buffer i Close y
  | OPin i off end_ =>
      on_buffer i (fun s b => if bf_closed b then (b, s) else ((pin off end_ b).2, s)) y
  | OUnpin i => on_buffer i (fun s b => if ram_pending b <? bf_pinned b then unpin s b else (b, s)) y
  end.

Fixpoint run (os : list operation) (y : System) : System :=
  match os with
  | [] => y
  | o :: os => run os (step o y)
  end.

(** ** RAM accounting *)

Fixpoint total_reserved (bs : list Buffer) : Z :=
  match bs with
  | [] => 0
  | b :: bs => bf_reserved b + total_reserved bs
  end.

(** A buffer's own share of the accounting invariant. *)
Definition buf_ok (b : Buffer) : Prop :=
  0 <= bf_reserved b /\ ram_pending b <= bf_pinned b /\
  (bf_closed b = true -> bf_pinned b = 0 -> bf_reserved b = 0).

(** An operation moves the store exactly by what the buffer's share moves, and
    never past the budget. *)
Definition accounts (st : Store) (b : Buffer) (b' : Buffer) (s' : option Store) : Prop :=
  exists st', s' = Some st' /\ fileLimit st' = fileLimit st /\ budget st' = budget st /\
    used st' - used st = bf_reserved b' - bf_reserved b /\
    (used st <= budget st -> 0 <= bf_reserved b -> used st' <= budget st') /\ (buf_ok b -> buf_ok b').

#[local] Arguments release : simpl never.
#[local] Arguments reserve : simpl never.

Ltac acct :=
  unfold buf_ok, ram_pending in *; simpl in *;
  repeat match goal with |- _ /\ _ => split | |- forall _, _ => intro end;
  destruct_and?; try done; try lia; try tauto; try congruence.

Lemma accounts_same st b b' :
  bf_reserved b' = bf_reserved b -> bf_pinned b' = bf_pinned b -> bf_closed b' = bf_closed b ->
  bf_pending b' = bf_pending b -> accounts st b b' (Some st).
Proof.
  intros Hr Hp Hc Hpe. exists st. unfold buf_ok, ram_pending. rewrite Hr, Hp, Hc, Hpe. acct.
Qed.

Lemma ram_pending_nonneg b : 0 <= ram_pending b.
Proof. apply len_nonneg. Qed.

Lemma release_accounts st n : exists st', release (Some st) n = Some st' /\ fileLimit st' = fileLimit st /\
  budget st' = budget st /\ used st' = used st - n.
Proof.
  unfold release. destruct (Z.eqb_spec n 0) as [->|]; simpl; eexists; (split; [done|]); simpl; repeat split; lia.
Qed.

Lemma reserve_cases st total delta ok s' : reserve (Some st) total delta = (ok, s') ->
  (ok = false /\ s' = Some st) \/
  (ok = true /\ used st + delta <= budget st /\ s' = Some (mkStore (fileLimit st) (budget st) (used st + delta))).
Proof.
  unfold reserve. destruct (Z.ltb_spec (fileLimit st) total); [intros [= <- <-]; by left|].
  destruct (Z.ltb_spec (budget st) (used st + delta)); intros [= <- <-]; [by left|right; repeat split; lia].
Qed.

Lemma advance_fields b : bf_reserved (advance b) = bf_reserved b /\ bf_pinned (advance b) = bf_pinned b /\
  bf_closed (advance b) = bf_closed b /\ bf_pending (advance b) = bf_pending b /\
  contents (advance b) = contents b /\ bf_regions (advance b) = bf_regions b.
Proof. unfold advance. by destruct (_ <? _). Qed.

Lemma growth_nonneg s length cap : 0 <= growth s length cap.
Proof. unfold growth. assert (minGrowth = 65536) by reflexivity. destruct s; [destruct (Z.ltb_spec 0 (fileLimit s))|]; lia. Qed.

Lemma unpin_accounts st b : ram_pending b < bf_pinned b ->
  let '(b', s') := unpin (Some st) b in accounts st b b' s'.
Proof.
  intros Hp. unfold unpin. simpl. destruct (bf_closed b && (bf_pinned b - 1 =? 0)) eqn:E; simpl.
  - destruct (release_accounts st (bf_reserved b)) as (st' & -> & ? & ? & ?). exists st'. simpl.
    acct.
  - exists st. acct. intros. bool_prop. destruct E as [E|E]; [congruence|]. bool_prop. lia.
Qed.

Lemma accounts_written st b b1 s1 r p :
  accounts st b b1 s1 -> accounts st b (advance (add_written (rg_id r) (len p) (append_bytes r p b1))) s1.
Proof.
  intros (st' & -> & ? & ? & ? & Hu & Hok). exists st'.
  destruct (advance_fields (add_written (rg_id r) (len p) (append_bytes r p b1))) as (E1 & E2 & E3 & E4 & _).
  assert (bf_reserved (append_bytes r p b1) = bf_reserved b1 /\ bf_pinned (append_bytes r p b1) = bf_pinned b1 /\
    bf_closed (append_bytes r p b1) = bf_closed b1 /\ bf_pending (append_bytes r p b1) = bf_pending b1)
    as (F1 & F2 & F3 & F4) by (unfold append_bytes; by destruct (bf_file b1)).
  unfold buf_ok, ram_pending in *. rewrite E1, E2, E3, E4. simpl. rewrite F1, F2, F3, F4.
  repeat split; try done; apply Hok; done.
Qed.

Lemma append_room_accounts st r length fileOK b : bf_closed b = false ->
  let '(g, s') := append_room r length fileOK (Some st) b in
  match g with Some b' => accounts st b b' s' | None => s' = Some st end.
Proof.
  intros Hc. unfold append_room. destruct (bf_file b); [by apply accounts_same|].
  destruct (bf_cap b <? length); [|by apply accounts_same].
  set (cap := growth (Some st) length (bf_cap b)).
  pose proof (growth_nonneg (Some st) length (bf_cap b)) as Hg. fold cap in Hg.
  destruct (reserve (Some st) cap (cap - bf_reserved b)) as [ok s'] eqn:Er.
  apply reserve_cases in Er as [[-> ->]|(-> & Hb & ->)].
  - unfold spill. destruct fileOK; [|done].
    destruct (release_accounts st (bf_reserved b)) as (st' & -> & ? & ? & ?). exists st'. acct.
  - eexists. split; [done|]. acct.
Qed.

Lemma appendLocked_accounts st r p fate b : bf_closed b = false ->
  let '(_, b', s') := appendLocked r p fate (Some st) b in accounts st b b' s'.
Proof.
  intros Hc. unfold appendLocked. pose proof (append_room_accounts st r (rg_written r + len p) (spills fate) b Hc) as H.
  destruct (append_room _ _ _ _ b) as [[b1|] s1]; [destruct (_ && _); [done|by apply accounts_written]|]. subst s1. by apply accounts_same.
Qed.

Lemma write_begin_accounts st id p fate b :
  let '(_, b', s') := write_begin id p fate (Some st) b in
  (bf_closed b = true -> is_Some (bf_err b)) -> accounts st b b' s'.
Proof.
  unfold write_begin. destruct (find_region id b) as [r|]; [|intros _; by apply accounts_same].
  destruct (len p =? 0); [intros _; by apply accounts_same|].
  destruct (bf_err b) eqn:Ee; [intros _; by apply accounts_same|].
  assert ((bf_closed b = true -> is_Some (None : option spoolErr)) -> bf_closed b = false) as Hcl.
  { destruct (bf_closed b); [|done]. intros H. by destruct (H eq_refl). }
  destruct (_ || _); [intros _; by apply accounts_same|].
  destruct (bf_size b <? 0).
  - pose proof (appendLocked_accounts st r p fate b) as H.
    destruct (appendLocked r p fate (Some st) b) as [[x b'] s']. intros Hc. auto.
  - intros Hc. specialize (Hcl Hc). exists st. destruct (bf_file b); simpl.
    + acct.
    + unfold buf_ok, ram_pending. simpl. rewrite filter_cons_True by done. rewrite len_cons. acct.
Qed.

Lemma Close_accounts st b : let '(b', s') := Close (Some st) b in accounts st b b' s'.
Proof.
  unfold Close. destruct (bf_closed b) eqn:Ec; [by apply accounts_same|]. simpl.
  destruct (Z.eqb_spec (bf_pinned b) 0) as [E0|E0].
  - destruct (release_accounts st (bf_reserved b)) as (st' & -> & ? & ? & ?). exists st'. acct.
  - exists st. acct.
Qed.

(** Error status of a closed buffer, needed by [write_begin]. *)
Definition closed_err (b : Buffer) : Prop := bf_closed b = true -> is_Some (bf_err b).

(** Nothing but [Close] closes, nothing clears an error. *)
Definition keeps (b b' : Buffer) : Prop :=
  (bf_closed b' = true -> bf_closed b = true \/ is_Some (bf_err b')) /\
  (is_Some (bf_err b) -> is_Some (bf_err b')).

Lemma keeps_refl b b' : bf_closed b' = bf_closed b -> bf_err b' = bf_err b -> keeps b b'.
Proof. intros Hc He. unfold keeps. rewrite Hc, He. auto. Qed.

Lemma keeps_closed_err b b' : keeps b b' -> closed_err b -> closed_err b'.
Proof. unfold keeps, closed_err. intros [H1 H2] H Hc. destruct (H1 Hc) as [|]; auto. Qed.

Lemma keeps_trans b1 b2 b3 : keeps b1 b2 -> keeps b2 b3 -> keeps b1 b3.
Proof. unfold keeps. intros [A1 A2] [B1 B2]. split; [|tauto]. intros H. destruct (B1 H); [|tauto]. destruct (A1 H0); tauto. Qed.

Lemma advance_keeps b : keeps b (advance b).
Proof. unfold advance. destruct (_ <? _); by apply keeps_refl. Qed.

Lemma appendLocked_keeps r p ok s b : keeps b (appendLocked r p ok s b).1.2.
Proof.
  unfold appendLocked.
  assert (match (append_room r (rg_written r + len p) (spills ok) s b).1 with
          | Some b1 => bf_closed b1 = bf_closed b /\ bf_err b1 = bf_err b | None => True end) as H.
  { unfold append_room. destruct (bf_file b); [done|]. destruct (_ <? _); [|done].
    destruct (reserve _ _ _) as [[] ?]; simpl; [done|]. unfold spill. by destruct (spills ok). }
  destruct (append_room _ _ _ _ b) as [[b1|] s1]; simpl in *.
  - destruct (_ && negb _); [destruct H; by apply keeps_refl|]. eapply keeps_trans; [|apply advance_keeps]. destruct H. unfold append_bytes.
    destruct (bf_file b1); by apply keeps_refl.
  - split; simpl; eauto.
Qed.

Lemma write_begin_keeps id p ok s b : keeps b (write_begin id p ok s b).1.2.
Proof.
  unfold write_begin. destruct (find_region id b) as [r|]; [|by apply keeps_refl].
  destruct (len p =? 0); [by apply keeps_refl|]. destruct (bf_err b); [by apply keeps_refl|].
  destruct (_ || _); [by apply keeps_refl|]. destruct (bf_size b <? 0).
  - pose proof (appendLocked_keeps r p ok s b). by destruct (appendLocked r p ok s b) as [[? ?] ?].
  - by destruct (bf_file b); apply keeps_refl.
Qed.

Lemma unpin_keeps s b : keeps b (unpin s b).1.
Proof. unfold unpin. simpl. destruct (_ && _); by apply keeps_refl. Qed.

Lemma write_end_keeps w ok s b : keeps b (write_end w ok s b).1.2.
Proof.
  unfold write_end. destruct (_ && _); [by apply keeps_refl|].
  assert (forall b1 (s1 : option Store), keeps b b1 ->
    keeps b (match bf_err b1 with
             | Some e => (Err e, b1, s1)
             | None => (Ok (len (pw_data w)), advance (add_written (pw_region w) (len (pw_data w)) b1), s1)
             end : res spoolErr Z * Buffer * option Store).1.2) as H.
  { intros b1 s1 H1. destruct (bf_err b1); simpl; [done|]. eapply keeps_trans; [exact H1|].
    eapply keeps_trans; [|apply advance_keeps]. by apply keeps_refl. }
  destruct (pw_file w); [by apply H, keeps_refl|].
  pose proof (unpin_keeps s b). destruct (unpin s b) as [b1 s1]. by apply H.
Qed.

(** The whole second section of [Write], from the buffer with the write still
    in flight. *)
Lemma write_end_accounts st k w ok b :
  bf_pending b !! k = Some w -> buf_ok b ->
  let '(_, b', s') := write_end w ok (Some st) (remove_pending k b) in accounts st b b' s'.
Proof.
  intros Hk Hok. pose proof (take_drop_middle _ _ _ Hk) as Hsplit.
  assert (ram_pending b = ram_pending (remove_pending k b) + (if pw_file w then 0 else 1)) as Hram.
  { unfold ram_pending, remove_pending. simpl. rewrite <- Hsplit at 1. rewrite !filter_app, filter_cons.
    destruct (pw_file w); simpl; rewrite !len_app, ?len_cons; lia. }
  pose proof (ram_pending_nonneg (remove_pending k b)) as Hnn.
  set (b0 := remove_pending k b) in *.
  assert (accounts st b b0 (Some st)) as H0.
  { exists st. unfold buf_ok in *. rewrite Hram. unfold b0 at 1 2 4 5. simpl. repeat split; try done; try lia; try tauto.
    destruct (pw_file w); lia. }
  assert (forall b1 s1, accounts st b b1 s1 ->
    let '(_, b', s') := match bf_err b1 with
             | Some e => (Err e, b1, s1)
             | None => (Ok (len (pw_data w)), advance (add_written (pw_region w) (len (pw_data w)) b1), s1)
             end : res spoolErr Z * Buffer * option Store in accounts st b b' s') as Hfin.
  { intros b1 s1 (st' & -> & ? & ? & ? & Hu & Hb). destruct (bf_err b1); [by exists st'|].
    exists st'. destruct (advance_fields (add_written (pw_region w) (len (pw_data w)) b1)) as (E1 & E2 & E3 & E4 & _).
    unfold buf_ok, ram_pending in *. rewrite E1, E2, E3, E4. simpl. repeat split; try done; apply Hb; done. }
  unfold write_end. destruct (pw_file w) eqn:Ef; simpl.
  - destruct ok; simpl; [|exact H0]. apply (Hfin b0 (Some st)). exact H0.
  - pose proof (unpin_accounts st b0) as Hu. destruct (unpin (Some st) b0) as [b1 s1].
    apply Hfin. destruct Hok as (? & ? & ?).
    destruct Hu as (st' & -> & ? & ? & ? & Hu & Hb).
    { change (bf_pinned b0) with (bf_pinned b). lia. }
    exists st'. change (bf_reserved b0) with (bf_reserved b) in *.
    destruct H0 as (x & _ & _ & _ & _ & _ & H0). do 5 (split; [done|]). auto.
Qed.

Record sys_ok (y : System) : Prop := {
  so_used : used (sy_store y) = total_reserved (sy_buffers y);
  so_budget : used (sy_store y) <= budget (sy_store y);
  so_buffers : Forall (fun b => buf_ok b /\ closed_err b) (sy_buffers y);
}.

Lemma total_reserved_insert bs i b b' : bs !! i = Some b ->
  total_reserved (<[i := b']> bs) = total_reserved bs + bf_reserved b' - bf_reserved b.
Proof.
  revert i. induction bs as [|x bs IH]; intros [|i] Hi; simpl in *; [done|done|injection Hi as ->; lia|].
  rewrite (IH _ Hi). lia.
Qed.

Lemma total_reserved_app bs1 bs2 : total_reserved (bs1 ++ bs2) = total_reserved bs1 + total_reserved bs2.
Proof. induction bs1; simpl; lia. Qed.

Lemma total_reserved_nonneg bs : Forall (fun b => buf_ok b /\ closed_err b) bs -> 0 <= total_reserved bs.
Proof. induction 1 as [|b bs [[? _] _] _ IH]; simpl; lia. Qed.

Lemma on_buffer_ok i f y :
  sys_ok y ->
  (forall b, buf_ok b -> closed_err b ->
     let '(b', s') := f (Some (sy_store y)) b in accounts (sy_store y) b b' s' /\ keeps b b') ->
  sys_ok (on_buffer i f y) /\ budget (sy_store (on_buffer i f y)) = budget (sy_store y).
Proof.
  intros [Hu Hb Hf] Hop. unfold on_buffer. destruct (sy_buffers y !! i) as [b|] eqn:Ei; [|done].
  pose proof (Forall_lookup_1 _ _ _ _ Hf Ei) as [Hok Hce]. specialize (Hop b Hok Hce).
  destruct (f (Some (sy_store y)) b) as [b' s']. destruct Hop as [(st' & -> & ? & Hbud & Hd & Hle & Hok') Hk].
  change (the_store (sy_store y) (Some st')) with st'. split; [|done]. constructor; cbn [sy_store sy_buffers].
  - rewrite (total_reserved_insert _ _ _ _ Ei). lia.
  - apply Hle; [done|apply Hok].
  - apply Forall_insert; [done|]. split; [auto|by eapply keeps_closed_err].
Qed.

Lemma new_buffer_ok size fok y : sys_ok y ->
  sys_ok (step (ONew size fok) y) /\ budget (sy_store (step (ONew size fok) y)) = budget (sy_store y).
Proof.
  intros Hy. simpl.
  unfold New. destruct Hy as [Hu Hb Hf].
  assert (forall b, bf_reserved b = 0 -> bf_pinned b = 0 -> bf_pending b = [] -> bf_closed b = false ->
    buf_ok b /\ closed_err b) as Hnew.
  { intros b E1 E2 E3 E4. unfold buf_ok, closed_err, ram_pending. rewrite E1, E2, E3, E4. by repeat split. }
  destruct (Z.ltb_spec size 0).
  { split; [|done]. constructor; simpl; [rewrite total_reserved_app; simpl; lia|done|].
    apply Forall_app. split; [done|]. repeat constructor; by apply Hnew. }
  destruct (reserve (Some (sy_store y)) size size) as [ok s'] eqn:Er.
  apply reserve_cases in Er as [[-> ->]|(-> & Hle & ->)].
  + destruct fok; [|done]. split; [|done]. constructor; simpl; [rewrite total_reserved_app; simpl; lia|done|].
    apply Forall_app. split; [done|]. repeat constructor; by apply Hnew.
  + split; [|done]. constructor; simpl; [rewrite total_reserved_app; simpl; lia|done|].
    apply Forall_app. split; [done|]. constructor; [|done]. unfold buf_ok, closed_err, ram_pending. simpl.
    repeat split; try done; lia.
Qed.

Lemma step_ok o y : sys_ok y -> sys_ok (step o y) /\ budget (sy_store (step o y)) = budget (sy_store y).
Proof.
  intros Hy. destruct o as [size fok|i st en|i id p fok|i k|i k ok|i|i e|i|i off en|i]; simpl;
    try (apply on_buffer_ok; [done|]; intros b Hok Hce).
  - by apply new_buffer_ok.
  - split; [by apply accounts_same|by apply keeps_refl].
  - pose proof (write_begin_accounts (sy_store y) id p fok b) as Ha.
    pose proof (write_begin_keeps id p fok (Some (sy_store y)) b) as Hk.
    destruct (write_begin id p fok (Some (sy_store y)) b) as [[x b'] s']. split; [by apply Ha|done].
  - destruct (bf_pending b !! k) as [w|]; [|split; [by apply accounts_same|by apply keeps_refl]].
    unfold write_copy. destruct (pw_file w), (bf_file b), (bf_closed b);
      split; first [by apply accounts_same|by apply keeps_refl].
  - destruct (bf_pending b !! k) as [w|] eqn:Ek; [|split; [by apply accounts_same|by apply keeps_refl]].
    pose proof (write_end_accounts (sy_store y) k w ok b Ek Hok) as Ha.
    pose proof (write_end_keeps w ok (Some (sy_store y)) (remove_pending k b)) as Hk.
    destruct (write_end w ok (Some (sy_store y)) (remove_pending k b)) as [[x b'] s']. split; [done|exact Hk].
  - unfold Complete. destruct (bf_err b); [split; [by apply accounts_same|by apply keeps_refl]|].
    destruct (bf_size b <? 0); simpl; destruct (negb _); simpl; split; first [by apply accounts_same|by apply keeps_refl].
  - unfold Fail. destruct (bf_err b); [split; [by apply accounts_same|by apply keeps_refl]|].
    destruct (bf_complete b); simpl; split; try by apply accounts_same.
    + by apply keeps_refl.
    + split; simpl; eauto.
  - pose proof (Close_accounts (sy_store y) b) as Ha.
    assert (keeps b (Close (Some (sy_store y)) b).1) as Hk.
    { unfold Close. destruct (bf_closed b) eqn:Ec; [by apply keeps_refl|]. simpl.
      destruct (_ =? _); split; simpl; eauto. }
    destruct (Close (Some (sy_store y)) b) as [b' s']. done.
  - destruct (bf_closed b) eqn:Ec; [split; [by apply accounts_same|by apply keeps_refl]|]. simpl.
    split; [|by apply keeps_refl]. exists (sy_store y). acct.
  - destruct (Z.ltb_spec (ram_pending b) (bf_pinned b)); [|split; [by apply accounts_same|by apply keeps_refl]].
    pose proof (unpin_accounts (sy_store y) b) as Ha. pose proof (unpin_keeps (Some (sy_store y)) b) as Hk.
    destruct (unpin (Some (sy_store y)) b) as [b' s']. auto.
Qed.

Lemma run_ok os y : sys_ok y -> sys_ok (run os y) /\ budget (sy_store (run os y)) = budget (sy_store y).
Proof.
  revert y. induction os as [|o os IH]; intros y Hy; simpl; [done|].
  destruct (step_ok o y Hy) as [H1 H2]. destruct (IH _ H1) as [H3 H4]. by rewrite H4.
Qed.

(** C17. RAM accounting: after any interleaving of allocations, writes, copies
    in flight, streaming reads, failures and closes of any number of buffers,
    the store's [used] is exactly the sum of the buffers' reservations, it is
    never negative and never above the budget, and a closed buffer with no write
    or read in flight holds nothing; so when every buffer is closed and idle
    all RAM is back. *)
Theorem store_accounting limit b os :
  0 <= b ->
  let y := run os (mkSystem (NewStore limit b) []) in
  used (sy_store y) = total_reserved (sy_buffers y) /\
  0 <= used (sy_store y) <= b /\
  (Forall (fun bf => bf_closed bf = true /\ bf_pinned bf = 0) (sy_buffers y) -> used (sy_store y) = 0).
Proof.
  intros Hb. cbn zeta. destruct (run_ok os (mkSystem (NewStore limit b) [])) as [[Hu Hle Hf] Hbud].
  { constructor; simpl; [done|done|constructor]. }
  simpl in Hbud. rewrite Hbud in Hle. split; [done|]. split.
  - rewrite Hu in *. split; [by apply total_reserved_nonneg|done].
  - intros Hall. rewrite Hu. clear Hu Hle Hbud. induction (sy_buffers _) as [|x bs IH]; simpl; [done|].
    inversion Hf as [|? ? [(? & ? & Hz) _] Hf']; subst. inversion Hall as [|? ? [? ?] Hall']; subst.
    rewrite IH, Hz by done. done.
Qed.

Lemma store_accounting_witness :
  let os := [ONew 5 true; OWriter 0 0 5; OWriteBegin 0 0 [1; 2; 3] FileWorks; OClose 0; OWriteCopy 0 0; OWriteEnd 0 0 true] in
  let y := run os (mkSystem (NewStore 10 20) []) in
  let y1 := run (take 4 os) (mkSystem (NewStore 10 20) []) in
  used (sy_store y) = total_reserved (sy_buffers y) /\ used (sy_store y1) = 5 /\ used (sy_store y) = 0.
Proof.
  intros os y y1. destruct (store_accounting 10 20 os) as [H _]; [lia|].
  split; [exact H|]. split; vm_compute; reflexivity.
Defined.
