(* ===== verification/SpoolData.v ===== *)
(** * spool: the bytes readers see

    On the model of [Spool.v]: the ready prefix of a buffer is always fully
    written, an in-flight write of disjoint writers never touches it, a copy
    changes exactly its range, and a growing buffer returns what was written to
    it however it grew or spilled. *)
From S2P Require Import Prelude Strconv Errors Spool.

(** ** The ready prefix is written *)

Definition covers (r : region) (i : Z) : Prop := rg_start r <= i < Offset r.
Definition covered (b : Buffer) : Prop :=
  forall i, 0 <= i < bf_ready b -> exists r, r ∈ bf_regions b /\ covers r i.

Lemma advance_loop_covers l ready i :
  ready <= i < advance_loop l ready -> exists r, r ∈ l /\ covers r i.
Proof.
  revert ready. induction l as [|r l IH]; intros ready; simpl; [lia|].
  destruct (Z.ltb_spec ready (rg_start r)); [lia|]. set (ready' := Z.max ready (Offset r)).
  assert (ready <= i < ready' -> covers r i) as Hr by (unfold covers, ready'; lia).
  destruct (_ || _); [intros Hi; exists r; split; [left|auto]|].
  intros Hi. destruct (Z.ltb_spec i ready'); [exists r; split; [left|apply Hr; lia]|].
  destruct (IH ready') as (r' & ? & ?); [lia|]. exists r'. split; [by right|done].
Qed.

Lemma advance_ready b : bf_ready (advance b) = Z.max (bf_ready b) (advance_loop (bf_regions b) 0).
Proof. unfold advance. destruct (Z.ltb_spec (bf_ready b) (advance_loop (bf_regions b) 0)); simpl; lia. Qed.

Lemma advance_covered b : covered b -> covered (advance b).
Proof.
  intros Hc i Hi. destruct (advance_fields b) as (_ & _ & _ & _ & _ & ->).
  rewrite advance_ready in Hi. destruct (Z.lt_ge_cases i (bf_ready b)); [apply Hc; lia|].
  apply (advance_loop_covers _ 0). lia.
Qed.

(** Regions only gain written bytes. *)
Definition grows (b b' : Buffer) : Prop :=
  bf_ready b' = bf_ready b /\
  forall r, r ∈ bf_regions b -> exists r', r' ∈ bf_regions b' /\ rg_start r' = rg_start r /\ Offset r <= Offset r'.

Lemma grows_covered b b' : grows b b' -> covered b -> covered b'.
Proof.
  intros [Hr Hg] Hc i Hi. rewrite Hr in Hi. destruct (Hc i Hi) as (r & Hin & ? & ?).
  destruct (Hg r Hin) as (r' & ? & ? & ?). exists r'. split; [done|]. unfold covers. lia.
Qed.

Lemma grows_same b b' : bf_ready b' = bf_ready b -> bf_regions b' = bf_regions b -> grows b b'.
Proof. intros Hr Hg. split; [done|]. rewrite Hg. intros r Hin. exists r. split; [done|]. lia. Qed.

Lemma add_written_grows id n b : 0 <= n -> grows b (add_written id n b).
Proof.
  intros Hn. split; [done|]. intros r Hin. simpl.
  exists (if Nat.eqb (rg_id r) id then mkRegion id (rg_start r) (rg_end r) (rg_written r + n) else r).
  split; [apply list_elem_of_In, in_map_iff; exists r; split; [done|by apply list_elem_of_In]|].
  destruct (Nat.eqb _ _); unfold Offset; simpl; lia.
Qed.

Lemma insert_region_elem r x l : x ∈ insert_region r l <-> x = r \/ x ∈ l.
Proof.
  induction l as [|y l IH]; simpl; [by rewrite list_elem_of_singleton, elem_of_nil; tauto|].
  destruct (_ <=? _); rewrite !elem_of_cons; [done|]. rewrite IH. tauto.
Qed.

Lemma Writer_grows start en b : grows b (Writer start en b).2.
Proof.
  split; [done|]. intros r Hin. exists r. split; [|lia]. simpl. apply insert_region_elem. by right.
Qed.

Lemma appendLocked_covered r p ok s b : covered b -> covered (appendLocked r p ok s b).1.2.
Proof.
  intros Hc. unfold appendLocked.
  assert (match (append_room r (rg_written r + len p) (spills ok) s b).1 with
          | Some b1 => grows b b1 | None => True end) as H.
  { unfold append_room. destruct (bf_file b); [by apply grows_same|]. destruct (_ <? _); [|by apply grows_same].
    destruct (reserve _ _ _) as [[] ?]; simpl; [by apply grows_same|]. unfold spill. destruct (spills ok); [by apply grows_same|done]. }
  destruct (append_room _ _ _ _ b) as [[b1|] s1]; simpl in *; [|exact (grows_covered b (set_err ErrFile b) (grows_same b (set_err ErrFile b) eq_refl eq_refl) Hc)].
  destruct (_ && negb _); [exact (grows_covered _ _ H Hc)|].
  apply advance_covered. eapply grows_covered; [apply add_written_grows, len_nonneg|].
  eapply grows_covered; [|eapply grows_covered; [exact H|done]].
  unfold append_bytes. destruct (bf_file b1); by apply grows_same.
Qed.

Lemma write_end_covered w ok s b : covered b -> covered (write_end w ok s b).1.2.
Proof.
  intros Hc. unfold write_end. destruct (_ && _); [done|].
  assert (forall b1 (s1 : option Store), covered b1 ->
    covered (match bf_err b1 with
             | Some e => (Err e, b1, s1)
             | None => (Ok (len (pw_data w)), advance (add_written (pw_region w) (len (pw_data w)) b1), s1)
             end : res spoolErr Z * Buffer * option Store).1.2) as H.
  { intros b1 s1 H1. destruct (bf_err b1); simpl; [done|]. apply advance_covered.
    eapply grows_covered; [apply add_written_grows, len_nonneg|done]. }
  destruct (pw_file w); [by apply H|].
  assert (covered (unpin s b).1) as Hu.
  { eapply grows_covered; [|exact Hc]. unfold unpin. simpl. destruct (_ && _); by apply grows_same. }
  destruct (unpin s b) as [b1 s1]. by apply H.
Qed.

Lemma on_buffer_Forall (P : Buffer -> Prop) i f y :
  Forall P (sy_buffers y) -> (forall s b, P b -> P (f s b).1) -> Forall P (sy_buffers (on_buffer i f y)).
Proof.
  intros HP Hf. unfold on_buffer. destruct (sy_buffers y !! i) as [b|] eqn:Ei; [|done].
  specialize (Hf (Some (sy_store y)) b (Forall_lookup_1 _ _ _ _ HP Ei)).
  destruct (f (Some (sy_store y)) b) as [b' s']. by apply Forall_insert.
Qed.

Lemma step_covered o y : Forall covered (sy_buffers y) -> Forall covered (sy_buffers (step o y)).
Proof.
  intros Hy. destruct o as [size fok|i st en|i id p fok|i k|i k ok|i|i e|i|i off en|i]; simpl;
    try (apply on_buffer_Forall; [done|]; intros s b Hb; simpl).
  - assert (forall b, bf_ready b = 0 -> covered b) as H0 by (intros b E j; rewrite E; lia).
    unfold New. destruct (size <? 0); [|destruct (reserve _ _ _) as [[] s']; [|destruct fok]]; simpl; try done;
      apply Forall_app; (split; [done|]); repeat constructor; by apply H0.
  - eapply grows_covered; [apply (Writer_grows st en)|done].
  - assert (covered (write_begin id p fok s b).1.2) as H.
    { unfold write_begin. destruct (find_region id b); [|done]. destruct (len p =? 0); [done|].
      destruct (bf_err b); [done|]. destruct (_ || _); [done|]. destruct (bf_size b <? 0).
      - pose proof (appendLocked_covered r p fok s b Hb). by destruct (appendLocked r p fok s b) as [[? ?] ?].
      - simpl. eapply grows_covered; [|exact Hb]. destruct (bf_file b); by apply grows_same. }
    by destruct (write_begin id p fok s b) as [[? ?] ?].
  - destruct (bf_pending b !! k) as [w|]; [|done]. simpl. eapply grows_covered; [|exact Hb].
    unfold write_copy. destruct (pw_file w), (bf_file b), (bf_closed b); by apply grows_same.
  - destruct (bf_pending b !! k) as [w|]; [|done].
    pose proof (write_end_covered w ok s (remove_pending k b)) as H.
    destruct (write_end w ok s (remove_pending k b)) as [[? ?] ?]. simpl in *. apply H.
    eapply grows_covered; [|exact Hb]. by apply grows_same.
  - eapply grows_covered; [|exact Hb]. unfold Complete. destruct (bf_err b); [by apply grows_same|].
    destruct (bf_size b <? 0); simpl; destruct (negb _); by apply grows_same.
  - eapply grows_covered; [|exact Hb]. unfold Fail. destruct (bf_err b), (bf_complete b); by apply grows_same.
  - eapply grows_covered; [|exact Hb]. unfold Close. destruct (bf_closed b); [by apply grows_same|]. simpl.
    destruct (_ =? _); by apply grows_same.
  - destruct (bf_closed b); [done|]. simpl. eapply grows_covered; [|exact Hb]. by apply grows_same.
  - destruct (_ <? _); [|done]. eapply grows_covered; [|exact Hb]. unfold unpin. simpl.
    destruct (_ && _); by apply grows_same.
Qed.

Lemma run_covered os y : Forall covered (sy_buffers y) -> Forall covered (sy_buffers (run os y)).
Proof. revert y. induction os as [|o os IH]; intros y Hy; simpl; [done|]. apply IH. by apply step_covered. Qed.

(** Writers of disjoint ranges: no byte belongs to two regions. *)
Definition disjoint_regions (b : Buffer) : Prop :=
  forall r1 r2 i, r1 ∈ bf_regions b -> r2 ∈ bf_regions b -> rg_id r1 <> rg_id r2 ->
    rg_start r1 <= i < Z.max (rg_end r1) (Offset r1) -> rg_start r2 <= i < Z.max (rg_end r2) (Offset r2) -> False.

(** Readers never see unwritten bytes, and writers never disturb readers:
    in every reachable system each byte of a buffer's ready prefix has been
    written by some writer, and as long as the writers' ranges are disjoint the
    position where a writer will copy next lies at or after the ready prefix. *)
Theorem ready_is_written limit b os bf :
  bf ∈ sy_buffers (run os (mkSystem (NewStore limit b) [])) ->
  covered bf /\
  (disjoint_regions bf -> NoDup (rg_id <$> bf_regions bf) ->
   forall r, r ∈ bf_regions bf -> 0 <= rg_start r -> 0 <= rg_written r -> Offset r < rg_end r ->
     bf_ready bf <= Offset r).
Proof.
  intros Hin. assert (covered bf) as Hc.
  { pose proof (run_covered os (mkSystem (NewStore limit b) []) (Forall_nil_2 _)) as H.
    rewrite Forall_forall in H. by apply H. }
  split; [done|]. intros Hd Hnd r Hr H0 Hw Hend.
  destruct (Z.le_gt_cases (bf_ready bf) (Offset r)) as [|Hlt]; [done|]. exfalso.
  destruct (Hc (Offset r)) as (r' & Hr' & Hcov); [unfold Offset in *; lia|].
  destruct (decide (rg_id r = rg_id r')) as [E|E].
  - assert (r = r') as <-; [|unfold covers in Hcov; lia].
    apply list_elem_of_lookup in Hr as [i Hi]. apply list_elem_of_lookup in Hr' as [j Hj].
    assert (i = j) as ->; [|congruence]. apply (NoDup_lookup _ _ _ (rg_id r) Hnd); rewrite list_lookup_fmap;
      [by rewrite Hi|rewrite Hj; simpl; by rewrite E].
  - apply (Hd r r' (Offset r) Hr Hr' E); unfold covers, Offset in *; lia.
Qed.

Lemma ready_is_written_witness :
  let os := [ONew 8 true; OWriter 0 4 8; OWriter 0 0 4; OWriteBegin 0 1 [1; 2] FileWorks; OWriteCopy 0 0; OWriteEnd 0 0 true] in
  exists bf, bf ∈ sy_buffers (run os (mkSystem (NewStore 10 20) [])) /\ bf_ready bf = 2 /\ covered bf.
Proof.
  intros os. eexists. assert (exists bf, sy_buffers (run os (mkSystem (NewStore 10 20) [])) = [bf] /\ bf_ready bf = 2) as H.
  { eexists. split; vm_compute; reflexivity. }
  assert (nth 0 (sy_buffers (run os (mkSystem (NewStore 10 20) []))) (Bytes []) ∈
          sy_buffers (run os (mkSystem (NewStore 10 20) []))) as Hin.
  { destruct H as (bf & -> & _). left. }
  split; [exact Hin|]. split; [vm_compute; reflexivity|].
  exact (proj1 (ready_is_written 10 20 os _ Hin)).
Defined.

(** ** Copies *)

Lemma length_zeros n : len (zeros n) = Z.max 0 n.
Proof. unfold zeros, len. rewrite length_replicate. lia. Qed.

Lemma write_at_length off p l : 0 <= off -> len (write_at off p l) = Z.max (len l) (off + len p).
Proof.
  intros Ho. unfold write_at. rewrite !len_app. pose proof (length_zeros (off - len l)) as Hz.
  unfold len in *. rewrite length_take, length_drop, length_app. lia.
Qed.

Lemma write_at_inside off p l i : 0 <= off -> off <= i < off + len p ->
  write_at off p l !! Z.to_nat i = p !! Z.to_nat (i - off).
Proof.
  intros Ho Hi. unfold write_at. pose proof (length_zeros (off - len l)) as Hz.
  assert (length (take (Z.to_nat off) (l ++ zeros (off - len l))) = Z.to_nat off) as Ht.
  { unfold len in *. rewrite length_take, length_app. lia. }
  rewrite lookup_app_r by lia. rewrite Ht. rewrite lookup_app_l by (unfold len in *; lia). f_equal. lia.
Qed.

Lemma write_at_outside off p l i : 0 <= off -> 0 <= i < len l -> ~ (off <= i < off + len p) ->
  write_at off p l !! Z.to_nat i = l !! Z.to_nat i.
Proof.
  intros Ho Hi Hout. unfold write_at. pose proof (length_zeros (off - len l)) as Hz.
  assert (length (take (Z.to_nat off) (l ++ zeros (off - len l))) = Z.to_nat off) as Ht.
  { unfold len in *. rewrite length_take, length_app. lia. }
  destruct (Z.lt_ge_cases i off).
  - rewrite lookup_app_l by lia. rewrite lookup_take_lt by lia. rewrite lookup_app_l by (unfold len in *; lia). done.
  - rewrite lookup_app_r by lia. rewrite Ht. rewrite lookup_app_r by (unfold len in *; lia).
    rewrite lookup_drop. f_equal. unfold len in *. lia.
Qed.

(** A copy lands exactly where it should: after the unlocked copy of a
    write in flight, RAM or file, its range holds the written bytes and every
    other byte of the buffer is unchanged, so concurrent writers of disjoint
    ranges do not disturb each other. *)
Theorem write_copy_spec w b :
  bf_closed b = false -> pw_file w = bool_decide (is_Some (bf_file b)) -> 0 <= pw_offset w ->
  let b' := write_copy w b in
  (forall i, pw_offset w <= i < pw_offset w + len (pw_data w) ->
     contents b' !! Z.to_nat i = pw_data w !! Z.to_nat (i - pw_offset w)) /\
  (forall i, 0 <= i < len (contents b) -> ~ (pw_offset w <= i < pw_offset w + len (pw_data w)) ->
     contents b' !! Z.to_nat i = contents b !! Z.to_nat i) /\
  len (contents b') = Z.max (len (contents b)) (pw_offset w + len (pw_data w)) /\
  bf_ready b' = bf_ready b /\ bf_regions b' = bf_regions b.
Proof.
  intros Hc Hf Ho. cbn zeta. unfold write_copy, contents. rewrite Hf, Hc.
  destruct (bf_file b) as [f|] eqn:Ef; simpl; rewrite ?Ef.
  all: split; [intros; by apply write_at_inside|]. all: split; [intros; by apply write_at_outside|].
  all: split; [by apply write_at_length|done].
Qed.

Lemma write_copy_spec_witness :
  let b := set_mem [0; 0; 0; 0] 4 (mkBuffer true 4 [] 0 None 4 1 [] 0 None false false [] 0) in
  let b' := write_copy (mkPending 0 [7; 8] 1 false) b in
  contents b' !! 1%nat = Some 7 /\ contents b' !! 3%nat = Some 0 /\ contents b' = [0; 7; 8; 0].
Proof.
  intros b b'. destruct (write_copy_spec (mkPending 0 [7; 8] 1 false) b) as (H1 & H2 & _); [reflexivity|reflexivity|simpl; lia|].
  split; [apply (H1 1); unfold len; simpl; lia|]. split; [apply (H2 3); unfold len; simpl; lia|]. vm_compute. reflexivity.
Defined.

(** ** Growing buffers *)

(** The state of a growing buffer whose one writer has written [data]. *)
Record growing (data : bytes) (b : Buffer) : Prop := {
  gr_size : bf_size b < 0;
  gr_regions : bf_regions b = [mkRegion 0 0 (-1) (len data)];
  gr_ready : bf_ready b = len data;
  gr_contents : contents b = data;
  gr_err : bf_err b = None;
  gr_closed : bf_closed b = false;
  gr_ram : bf_file b = None -> bf_cap b = bf_reserved b /\ len data <= bf_cap b;
}.

Lemma growth_enough s length cap : length <= growth s length cap.
Proof. unfold growth. destruct s; [destruct (_ <? _)|]; lia. Qed.

Lemma append_room_growing data (p : bytes) s b ok b1 s1 :
  growing data b -> append_room (mkRegion 0 0 (-1) (len data)) (len data + len p) ok s b = (Some b1, s1) ->
  growing data b1 /\ (bf_file b1 = None -> len data + len p <= bf_cap b1).
Proof.
  intros [Hs Hr Hy Hc He Hcl Hram]. unfold append_room. destruct (bf_file b) as [f|] eqn:Ef.
  { intros [= <- <-]. split; [constructor; try done; by rewrite Ef|by rewrite Ef]. }
  destruct (Hram eq_refl) as [Hcap Hle].
  destruct (Z.ltb_spec (bf_cap b) (len data + len p)).
  2: { intros [= <- <-]. split; [constructor; try done; by rewrite Ef|intros; lia]. }
  set (cap := growth s (len data + len p) (bf_cap b)).
  pose proof (growth_enough s (len data + len p) (bf_cap b)) as Hg. fold cap in Hg.
  pose proof (len_nonneg p). unfold contents in Hc. rewrite Ef in Hc.
  destruct (reserve s cap (cap - bf_reserved b)) as [[] s'].
  - intros [= <- <-]. split; [|done]. constructor; try done.
    + unfold contents. simpl. by rewrite Ef.
    + simpl. intros _. split; [done|]. lia.
  - unfold spill. destruct ok; [|done]. intros [= <- <-]. split; [|done]. constructor; try done.
Qed.

Lemma write_at_end (p l : bytes) : write_at (len l) p l = l ++ p.
Proof.
  unfold write_at. assert (zeros (len l - len l) = []) as -> by (unfold zeros; by rewrite Z.sub_diag).
  rewrite app_nil_r. unfold len. rewrite Nat2Z.id, take_ge by lia.
  rewrite drop_ge; [by rewrite app_nil_r|]. lia.
Qed.

Lemma append_bytes_contents r p b : rg_written r = len (contents b) ->
  contents (append_bytes r p b) = contents b ++ p.
Proof.
  intros Hr. unfold append_bytes, contents in *. destruct (bf_file b) as [f|] eqn:Ef; simpl; [|by rewrite Ef].
  by rewrite Hr, write_at_end.
Qed.

Lemma write_growing data p s b ok :
  growing data b ->
  let '(x, b', s') := write_begin 0 p ok s b in
  match x with
  | Ok n => n = Some (len p) /\ growing (data ++ p) b'
  | Err e => e = ErrFile /\ contents b' = data /\ (ok = SpillFails /\ bf_err b' = Some ErrFile \/ ok = WriteFails /\ growing data b')
  end.
Proof.
  intros Hg. pose proof Hg as [Hs Hr Hy Hc He Hcl Hram]. unfold write_begin, find_region. rewrite Hr. simpl.
  destruct (Z.eqb_spec (len p) 0) as [E0|E0].
  { assert (p = []) as -> by (destruct p; [done|rewrite len_cons in E0; pose proof (len_nonneg p); lia]).
    split; [done|]. by rewrite app_nil_r. }
  rewrite He. destruct (Z.leb_spec 0 (bf_size b)); [lia|]. simpl.
  destruct (Z.ltb_spec (bf_size b) 0); [|lia].
  set (r := mkRegion 0 0 (-1) (len data)). unfold appendLocked. cbn [r rg_written rg_id].
  destruct (append_room r (len data + len p) (spills ok) s b) as [[b1|] s1] eqn:Er.
  2: { simpl. split; [done|]. split; [done|]. left. split; [|done]. revert Er. unfold append_room.
       destruct (bf_file b); [done|]. destruct (_ <? _); [|done]. destruct (reserve _ _ _) as [[] ?]; [done|].
       unfold spill. by destruct ok. }
  destruct (append_room_growing _ _ _ _ _ _ _ Hg Er) as [Hg1 Hroom].
  destruct (_ && negb _) eqn:Ew; cbn [fst snd].
  { split; [done|]. split; [by apply Hg1|]. right. split; [|done]. apply andb_prop in Ew as [_ Ew]. by destruct ok. }
  clear Ew.
  split; [done|]. set (b2 := add_written 0 (len p) (append_bytes r p b1)).
  assert (contents b2 = data ++ p) as Hc2.
  { change (contents b2) with (contents (append_bytes r p b1)). rewrite append_bytes_contents.
    - by rewrite (gr_contents _ _ Hg1).
    - simpl. by rewrite (gr_contents _ _ Hg1). }
  assert (bf_size b2 = bf_size b1 /\ bf_regions b2 = [mkRegion 0 0 (-1) (len (data ++ p))] /\
    bf_ready b2 = bf_ready b1 /\ bf_err b2 = bf_err b1 /\ bf_closed b2 = bf_closed b1 /\
    bf_cap b2 = bf_cap b1 /\ bf_reserved b2 = bf_reserved b1 /\ (bf_file b2 = None <-> bf_file b1 = None))
    as (E1 & E2 & E3 & E4 & E5 & E6 & E7 & E8).
  { assert (bf_regions (append_bytes r p b1) = bf_regions b1) as Eb by (unfold append_bytes; by destruct (bf_file b1)).
    unfold b2, add_written. simpl. rewrite Eb, (gr_regions _ _ Hg1). simpl. rewrite len_app.
    unfold append_bytes. destruct (bf_file b1) eqn:Ef1; simpl; rewrite ?Ef1; by repeat split. }
  pose proof Hg1 as [Hs1 Hr1 Hy1 Hc1 He1 Hcl1 Hram1].
  assert (advance b2 = set_ready (len (data ++ p)) b2) as ->.
  { unfold advance. rewrite E2, E3, Hy1. cbn [advance_loop rg_start rg_end rg_written Offset]. unfold Offset. simpl.
    pose proof (len_nonneg data). pose proof (len_nonneg p). rewrite len_app.
    replace (0 `max` (0 + (len data + len p))) with (len data + len p) by lia.
    destruct (Z.ltb_spec (len data) (len data + len p)); [done|lia]. }
  clearbody b2. constructor; simpl; rewrite ?E1, ?E4, ?E5; try done.
  rewrite E8, E6, E7. intros Hn. rewrite len_app. split; [by apply Hram1|by apply Hroom].
Qed.

(** The writer of a growing buffer: as many writes as succeed. *)
Fixpoint write_all (ps : list (bytes * file_fate)) (s : option Store) (b : Buffer) : option (Buffer * option Store) :=
  match ps with
  | [] => Some (b, s)
  | (p, ok) :: ps =>
      match write_begin 0 p ok s b with
      | (Ok _, b, s) => write_all ps s b
      | (Err _, _, _) => None
      end
  end.

Lemma write_all_growing ps data s b b' s' :
  growing data b -> write_all ps s b = Some (b', s') -> growing (data ++ concat (map fst ps)) b'.
Proof.
  revert data s b. induction ps as [|[p ok] ps IH]; intros data s b Hg; simpl.
  { intros [= <- <-]. by rewrite app_nil_r. }
  pose proof (write_growing data p s b ok Hg) as Hw. destruct (write_begin 0 p ok s b) as [[[n|e] b1] s1]; [|done].
  destruct Hw as [_ Hw]. intros H. rewrite app_assoc. by apply (IH _ _ _ Hw H).
Qed.

Lemma New_growing s ok : exists b, New s (-1) ok = (Some b, s) /\ growing [] (Writer 0 (-1) b).2.
Proof. eexists. split; [reflexivity|]. constructor; try done; simpl; lia. Qed.

(** Round trip of a growing buffer: whatever the store's limits, however
    often the RAM grew and whenever it spilled to disk, once the sequence of
    writes succeeded the buffer completes with exactly their concatenation, and
    every read returns the requested range of it; while the bytes are in RAM
    they fit the reservation. *)
Theorem growing_roundtrip s ok ps b0 b s' :
  New s (-1) ok = (Some b0, s) ->
  write_all ps s (Writer 0 (-1) b0).2 = Some (b, s') ->
  let data := concat (map fst ps) in
  let b' := (Complete b).2 in
  (Complete b).1 = None /\ bf_size b' = len data /\
  (forall n off, 0 <= n -> 0 <= off < len data ->
     ReadAt n off b' = (slice off (off + Z.min n (len data - off)) data,
                        if len data - off <? n then Some ErrEOF else None)) /\
  (bf_file b' = None -> len data <= bf_reserved b').
Proof.
  intros Hn Hw. destruct (New_growing s ok) as (b1 & Hn1 & Hg0). rewrite Hn in Hn1. injection Hn1 as <-.
  apply (write_all_growing ps [] _ _ _ _ Hg0) in Hw. cbn [app] in Hw. cbn zeta. set (data := concat _) in *.
  destruct Hw as [Hs Hr Hy Hc He Hcl Hram].
  assert (Complete b = (None, set_status (len data) true false (set_status (len data) (bf_complete b) false b))) as ->.
  { unfold Complete. rewrite He. destruct (Z.ltb_spec (bf_size b) 0); [|lia]. simpl.
    rewrite Hy, Z.eqb_refl, Hcl. done. }
  cbn [fst snd]. split; [done|]. split; [done|]. split.
  - intros n off Hn0 Hoff. unfold ReadAt. destruct (Z.ltb_spec off 0); [lia|]. cbn [bf_closed set_status bf_ready bf_complete].
    rewrite Hy. destruct (Z.leb_spec (len data) off); [lia|]. unfold readLocked. cbn [bf_ready set_status].
    change (contents (set_status _ true false _)) with (contents b). rewrite Hc, Hy.
    f_equal. rewrite len_slice by lia.
    destruct (Z.ltb_spec (off + Z.min n (len data - off) - off) n), (Z.ltb_spec (len data - off) n); try done; lia.
  - simpl. intros Hf. destruct (Hram Hf). lia.
Qed.

Lemma growing_roundtrip_witness :
  let s := Some (NewStore 100000 10) in
  let b0 := mkBuffer true (-1) [] 0 None 0 0 [] 0 None false false [] 0 in
  let ps := [([1; 2; 3], FileWorks); ([9], FileWorks)] in
  exists b s', write_all ps s (Writer 0 (-1) b0).2 = Some (b, s') /\
    bf_file b <> None /\ (Complete b).1 = None /\ bf_size (Complete b).2 = 4.
Proof.
  intros s b0 ps.
  destruct (write_all ps s (Writer 0 (-1) b0).2) as [[b s']|] eqn:E; [|vm_compute in E; discriminate].
  exists b, s'. split; [reflexivity|].
  destruct (growing_roundtrip s true ps b0 b s' eq_refl E) as (H1 & H2 & _).
  split; [|split; [exact H1|rewrite H2; vm_compute; reflexivity]].
  intros Hf. apply (f_equal (fun x => match x with Some (y, _) => bool_decide (bf_file y = None) | None => true end)) in E.
  rewrite Hf in E. vm_compute in E. discriminate.
Defined.
