(* ===== verification/Limiter.v ===== *)
(** * core.Limiter and core.Assets

    Models the rest of src/internal/core/cache.go: [Limiter], a counting
    semaphore with a bounded queue; [NewID]; and [Assets], the asset registry
    over the cache of [Cache.v].

    A limiter is used by concurrent callers.  Each atomic action of a caller
    (a channel operation, an atomic add) is one step; a caller's progress is a
    [phase], and a run is any interleaving of steps. *)
From S2P Require Import Prelude Strconv Errors Heap Cache CacheRefine.

(** ** Limiter *)

Inductive phase :=
| Idle
| Rejecting                        (* queue full: the count is not yet taken back *)
| Waiting                          (* blocked in the second select *)
| Leaving (r : option goerr)       (* woken, with a slot or with ctx.Err(); the deferred decrement is due *)
| Holding
| Released
| Refused (e : goerr).

Record Limiter := mkLimiter {
  capacity : Z;
  limit : Z;
  slots : Z;        (* len(l.slots) *)
  waiting : Z;
  callers : list phase;
}.

Definition NewLimiter (capacity maxQueue : Z) (n : nat) : Limiter :=
  let capacity := if capacity <? 1 then 1 else capacity in
  let maxQueue := if maxQueue <? 1 then capacity * 8 else maxQueue in
  mkLimiter capacity maxQueue 0 0 (replicate n Idle).

Definition busy : goerr := ErrCore (NewError "service_busy" "The request queue is full" 503).

Definition set_caller (i : nat) (p : phase) (ds dw : Z) (l : Limiter) : Limiter :=
  mkLimiter (capacity l) (limit l) (slots l + ds) (waiting l + dw) (<[i := p]> (callers l)).

Inductive action :=
| AAcquire (i : nat) (err : option goerr)  (* Acquire up to its second select *)
| ATryAcquire (i : nat)
| AReject (i : nat)
| AWake (i : nat)                          (* the blocked send succeeds *)
| ACancel (i : nat) (e : goerr)            (* ctx.Done *)
| ALeave (i : nat)
| ARelease (i : nat).                      (* the returned function, any number of times *)

Definition lstep (a : action) (l : Limiter) : Limiter :=
  match a with
  | AAcquire i err =>
      match callers l !! i with
      | Some Idle =>
          match err with
          | Some e => set_caller i (Refused e) 0 0 l
          | None =>
              if slots l <? capacity l then set_caller i Holding 1 0 l
              else if limit l <? waiting l + 1 then set_caller i Rejecting 0 1 l
              else set_caller i Waiting 0 1 l
          end
      | _ => l
      end
  | ATryAcquire i =>
      match callers l !! i with
      | Some Idle => if slots l <? capacity l then set_caller i Holding 1 0 l else l
      | _ => l
      end
  | AReject i =>
      match callers l !! i with Some Rejecting => set_caller i (Refused busy) 0 (-1) l | _ => l end
  | AWake i =>
      match callers l !! i with
      | Some Waiting => if slots l <? capacity l then set_caller i (Leaving None) 1 0 l else l
      | _ => l
      end
  | ACancel i e =>
      match callers l !! i with Some Waiting => set_caller i (Leaving (Some e)) 0 0 l | _ => l end
  | ALeave i =>
      match callers l !! i with
      | Some (Leaving None) => set_caller i Holding 0 (-1) l
      | Some (Leaving (Some e)) => set_caller i (Refused e) 0 (-1) l
      | _ => l
      end
  | ARelease i =>
      match callers l !! i with Some Holding => set_caller i Released (-1) 0 l | _ => l end
  end.

Definition lrun (actions : list action) (l : Limiter) : Limiter := fold_left (fun l a => lstep a l) actions l.

(** ** [NewID] *)

Definition hex_encode (l : bytes) : string :=
  string_of_bytes (flat_map (fun b =>
    let hex d := if d <? 10 then 48 + d else 87 + d in [hex (Z.shiftr b 4); hex (Z.land b 15)]) l).

(** [b] are the sixteen random bytes. *)
Definition NewID (b : bytes) : string :=
  let b := <[6%nat := Z.lor (Z.land (byte_at b 6) 15) 64]> b in
  let b := <[8%nat := Z.lor (Z.land (byte_at b 8) 63) 128]> b in
  hex_encode (slice 0 4 b) +:+ "-" +:+ hex_encode (slice 4 6 b) +:+ "-" +:+ hex_encode (slice 6 8 b) +:+ "-" +:+
  hex_encode (slice 8 10 b) +:+ "-" +:+ hex_encode (slice 10 16 b).

(** ** [Assets] *)

Section Assets.
Context {AssetContext : Type}.

Definition NewAssets (ttl totalCapacity : Z) : Cache AssetContext :=
  NewCache ttl (cl_Assets (CacheBudget totalCapacity)).

(** The descriptor's fields that identify the asset. *)
Record descriptor := mkDesc { ds_AssetID : string; ds_DownloadURL : string; ds_Position : Z; ds_Expires : Z }.

Definition RegisterUntil (now : Z) (random : bytes) (value : AssetContext) (position expires : Z)
    (a : Cache AssetContext) : descriptor * Cache AssetContext :=
  let id := NewID random in
  (mkDesc id ("/v1/assets/" +:+ id) position expires, SetUntil now id value expires a).

Definition Register (now now' : Z) (random : bytes) (value : AssetContext) (position : Z)
    (a : Cache AssetContext) : descriptor * Cache AssetContext :=
  RegisterUntil now' random value position (now + ttl a) a.

Definition GetAsset (now : Z) (id : string) (a : Cache AssetContext) : res goerr AssetContext * Cache AssetContext :=
  let '(value, a) := Get now id a in
  (match value with Some v => Ok v | None => Err (ErrCore MissingAsset) end, a).
End Assets.

(** ** Properties *)

Definition in_slot (p : phase) : bool := match p with Holding | Leaving None => true | _ => false end.
Definition queued (p : phase) : bool := match p with Waiting | Leaving _ => true | _ => false end.
Definition counted (p : phase) : bool := match p with Rejecting => true | _ => queued p end.

Record limiter_ok (l : Limiter) : Prop := {
  lo_slots : slots l = tally in_slot (callers l);
  lo_waiting : waiting l = tally counted (callers l);
  lo_capacity : slots l <= capacity l;
  lo_limit : tally queued (callers l) <= limit l;
}.

Lemma set_caller_ok i p q ds dw l :
  limiter_ok l -> callers l !! i = Some p ->
  ds = b2z (in_slot q) - b2z (in_slot p) -> dw = b2z (counted q) - b2z (counted p) ->
  slots l + ds <= capacity l -> tally queued (callers l) - b2z (queued p) + b2z (queued q) <= limit l ->
  limiter_ok (set_caller i q ds dw l).
Proof.
  intros [H1 H2 H3 H4] Hp -> -> Hs Hq. constructor; simpl; rewrite ?(tally_insert _ _ _ _ _ Hp); lia.
Qed.

Lemma lstep_ok a l : limiter_ok l -> limiter_ok (lstep a l).
Proof.
  intros Hl. pose proof Hl as [H1 H2 H3 H4].
  destruct (tally_le queued counted (callers l)) as [Hq0 Hqc]; [by intros []|].
  destruct a as [i err|i|i|i|i e|i|i]; simpl; destruct (callers l !! i) as [p|] eqn:Ep; try done;
    destruct p as [| | |[e'|]| | |]; try done.
  all: repeat case_match; bool_prop; try done; eapply set_caller_ok; try done; simpl; lia.
Qed.

Lemma NewLimiter_ok c q n : limiter_ok (NewLimiter c q n) /\ 1 <= capacity (NewLimiter c q n) /\
  1 <= limit (NewLimiter c q n).
Proof.
  assert (1 <= capacity (NewLimiter c q n) /\ 1 <= limit (NewLimiter c q n)) as H.
  { simpl. destruct (Z.ltb_spec c 1), (Z.ltb_spec q 1); lia. }
  split; [|done]. constructor; simpl in *.
  1,2: induction n; simpl; [done|]; unfold b2z; simpl; lia.
  - destruct (c <? 1); lia.
  - assert (tally queued (replicate n Idle) = 0) as -> by (induction n; simpl; [done|]; unfold b2z; simpl; lia). lia.
Qed.

Lemma lrun_ok acts l : limiter_ok l ->
  limiter_ok (lrun acts l) /\ capacity (lrun acts l) = capacity l /\ limit (lrun acts l) = limit l.
Proof.
  revert l. induction acts as [|a acts IH]; intros l Hl; [done|]. cbn [lrun fold_left].
  destruct (IH (lstep a l) (lstep_ok a l Hl)) as (? & E1 & E2). split; [done|].
  unfold lrun in *. rewrite E1, E2. destruct a; simpl; repeat case_match; done.
Qed.

(** Admission control: in any interleaving of any number of callers, the
    slots in use are exactly the callers that hold one, at most [capacity] do,
    at most [limit] wait, the waiting count is exact, and releasing twice gives
    nothing back twice. *)
Theorem limiter_bounds c q n acts :
  let l := lrun acts (NewLimiter c q n) in
  slots l = tally in_slot (callers l) /\ 0 <= slots l <= (if c <? 1 then 1 else c) /\
  waiting l = tally counted (callers l) /\
  tally queued (callers l) <= (if q <? 1 then (if c <? 1 then 1 else c) * 8 else q) /\
  (forall i, lstep (ARelease i) (lstep (ARelease i) l) = lstep (ARelease i) l).
Proof.
  cbn zeta. destruct (NewLimiter_ok c q n) as [H _].
  destruct (lrun_ok acts _ H) as ([H1 H2 H3 H4] & Ec & El). rewrite Ec in H3. rewrite El in H4.
  set (l := lrun acts (NewLimiter c q n)) in *.
  destruct (tally_le in_slot in_slot (callers l)) as [? _]; [done|].
  split; [done|]. split; [rewrite H1 in *; split; [done|exact H3]|]. split; [done|]. split; [exact H4|].
  intros i. simpl. destruct (callers l !! i) as [p|] eqn:Ei; simpl; [|by rewrite Ei].
  destruct p as [| | |[]| | |]; simpl; rewrite ?Ei; try done.
  rewrite list_lookup_insert_eq by (by eapply lookup_lt_Some). done.
Qed.

(** No lost wake-up in the count: a caller that found no slot is refused
    with [service_busy] only when the queue is at its limit, and a waiting caller
    can take a slot whenever one is free. *)
Theorem limiter_refusal c q n acts i :
  let l := lrun acts (NewLimiter c q n) in
  callers l !! i = Some Idle -> slots l = capacity l ->
  (callers (lstep (AAcquire i None) l) !! i = Some Rejecting <-> limit l <= waiting l) /\
  (waiting l < limit l -> callers (lstep (AAcquire i None) l) !! i = Some Waiting /\
     forall l', callers l' !! i = Some Waiting -> slots l' < capacity l' ->
       callers (lstep (AWake i) l') !! i = Some (Leaving None)).
Proof.
  cbn zeta. set (l := lrun acts (NewLimiter c q n)). intros Hi Hs. simpl. rewrite Hi, Hs, Z.ltb_irrefl.
  pose proof (lookup_lt_Some _ _ _ Hi).
  destruct (Z.ltb_spec (limit l) (waiting l + 1)); simpl; rewrite list_lookup_insert_eq by done.
  - split; [split; [lia|done]|lia].
  - split; [split; [done|lia]|]. intros _. split; [done|]. intros l' Hw Hf. rewrite Hw.
    destruct (Z.ltb_spec (slots l') (capacity l')); [|lia]. simpl.
    by rewrite list_lookup_insert_eq by (by eapply lookup_lt_Some).
Qed.

Lemma limiter_refusal_witness :
  let l := lrun [AAcquire 0 None; AAcquire 1 None] (NewLimiter 1 1 3) in
  callers (lstep (AAcquire 2 None) l) !! 2%nat = Some Rejecting /\ limit l <= waiting l.
Proof.
  intros l. assert (callers (lstep (AAcquire 2 None) l) !! 2%nat = Some Rejecting) as H by (vm_compute; reflexivity).
  split; [exact H|].
  exact (proj1 (proj1 (limiter_refusal 1 1 3 [AAcquire 0 None; AAcquire 1 None] 2 eq_refl eq_refl)) H).
Defined.

(** ** Registered assets *)

Lemma lru_set_find {T} cap now k (v : T) e l now2 :
  now < e -> now2 < e -> (lru_get now2 k (lru_set_until cap now k v e l)).1 = Some v.
Proof.
  intros H1 H2. unfold lru_set_until. destruct (Z.leb_spec e now); [lia|].
  destruct (lru_find k (lru_purge now l)); unfold lru_get; simpl; rewrite bool_decide_true by done; simpl;
    destruct (Z.ltb_spec now2 e); done || lia.
Qed.

(** An asset that was registered with a deadline in the future can be
    fetched by its identifier at any time before that deadline as the next
    operation, whatever the registry did before, and is a 404 from the deadline
    on. *)
Theorem registered_asset {A} (os : list (op A)) t cap now random (v : A) pos e now2 :
  now < e ->
  let a := (cache_run os (NewCache t cap)).2 in
  let '(d, a) := RegisterUntil now random v pos e a in
  (GetAsset now2 (ds_AssetID d) a).1 = (if now2 <? e then Ok v else Err (ErrCore MissingAsset)).
Proof.
  intros He. cbn zeta. destruct (NewCache_spec (T := A) t cap) as (Hwf & _ & _).
  destruct (cache_run_spec os _ Hwf) as (_ & Hwf' & _). set (a := (cache_run os (NewCache t cap)).2) in *.
  unfold RegisterUntil. cbn [ds_AssetID]. unfold GetAsset.
  destruct (SetUntil_spec now (NewID random) v e a Hwf') as (Hw & Hr & _).
  set (a' := SetUntil now (NewID random) v e a) in *.
  destruct (Get_spec now2 (NewID random) a' Hw) as (Hg & _). destruct (Get now2 (NewID random) a') as [x a2].
  simpl in *. subst x. rewrite Hr. destruct (Z.ltb_spec now2 e).
  - by rewrite lru_set_find.
  - unfold lru_set_until. destruct (Z.leb_spec e now); [lia|].
    destruct (lru_find (NewID random) (lru_purge now _)); unfold lru_get; simpl; rewrite bool_decide_true by done;
      simpl; destruct (Z.ltb_spec now2 e); done || lia.
Qed.

Lemma registered_asset_witness :
  let '(d, a) := RegisterUntil 10 (replicate 16 255) 7 0 20 (NewAssets 5 24) in
  (GetAsset 19 (ds_AssetID d) a).1 = Ok 7 /\ ds_AssetID d = "ffffffff-ffff-4fff-bfff-ffffffffffff"%string.
Proof.
  pose proof (registered_asset [] 5 (cl_Assets (CacheBudget 24)) 10 (replicate 16 255) 7 0 20 19 eq_refl) as H.
  destruct (RegisterUntil 10 (replicate 16 255) 7 0 20 (NewAssets 5 24)) as [d a] eqn:E.
  change (NewAssets 5 24) with ((cache_run [] (NewCache 5 (cl_Assets (CacheBudget 24)))).2 : Cache Z) in E.
  cbn zeta in H. rewrite E in H. split; [exact H|].
  apply (f_equal (fun x => ds_AssetID x.1)) in E. simpl in E. rewrite <- E. vm_compute. reflexivity.
Defined.
