(* ===== verification/Protobuf.v ===== *)
(** * The protobuf wire format of the TikTok app

    Models src/internal/tiktokapp/protobuf.go with the two functions of
    encoding/binary it rests on ([AppendUvarint], [Uvarint]).  Integers are
    64-bit: [Uvarint] refuses what does not fit. *)
From S2P Require Import Prelude.

Record protoField := mkField { pf_number : Z; pf_wire : Z; pf_integer : Z; pf_bytes : bytes }.

Definition pi (number value : Z) : protoField := mkField number 0 value [].
Definition pb (number : Z) (value : bytes) : protoField := mkField number 2 0 value.
Definition ps (number : Z) (value : string) : protoField := pb number (bytes_of_string value).

(** [binary.AppendUvarint] of a [uint64]: ten groups of seven bits are enough. *)
Fixpoint put_uvarint (fuel : nat) (x : Z) : bytes :=
  match fuel with
  | O => []
  | S fuel => if 0x80 <=? x then Z.lor (u8 x) 0x80 :: put_uvarint fuel (Z.shiftr x 7) else [u8 x]
  end.
Definition AppendUvarint (out : bytes) (x : Z) : bytes := out ++ put_uvarint 10 x.

(** [binary.Uvarint]: the value and the number of bytes read; 0 for a
    truncated and negative for an overflowing integer. *)
Fixpoint uvarint_loop (buf : bytes) (i s x : Z) : Z * Z :=
  match buf with
  | [] => (0, 0)
  | b :: buf =>
      if i =? 10 then (0, - (i + 1))
      else if b <? 0x80 then
        if (i =? 9) && (1 <? b) then (0, - (i + 1)) else (Z.lor x (u64 (Z.shiftl b s)), i + 1)
      else uvarint_loop buf (i + 1) (s + 7) (Z.lor x (u64 (Z.shiftl (Z.land b 0x7f) s)))
  end.
Definition Uvarint (buf : bytes) : Z * Z := uvarint_loop buf 0 0 0.

Definition encode_field (f : protoField) (out : bytes) : bytes :=
  let out := AppendUvarint out (Z.lor (u64 (Z.shiftl (pf_number f) 3)) (pf_wire f)) in
  if pf_wire f =? 0 then AppendUvarint out (pf_integer f)
  else AppendUvarint out (len (pf_bytes f)) ++ pf_bytes f.

Definition encodeProto (fields : list protoField) : bytes :=
  fold_left (fun out f => encode_field f out) fields [].

Inductive protoErr := BadTag | BadNumber | BadInteger | TruncatedBytes | BadWire | MissingBytes.

Definition decode_one (input : bytes) : res protoErr (protoField * bytes) :=
  let '(tag, n) := Uvarint input in
  guard? negb (n <=? 0) else BadTag in
  let input := drop (Z.to_nat n) input in
  let number := Z.shiftr tag 3 in
  let wire := Z.land tag 7 in
  guard? (1 <=? number) && (number <? Z.shiftl 1 29) else BadNumber in
  let '(value, n) := Uvarint input in
  guard? negb (n <=? 0) else BadInteger in
  let input := drop (Z.to_nat n) input in
  if wire =? 0 then Ok (mkField number wire value [], input)
  else if wire =? 2 then
    if len input <? value then Err TruncatedBytes
    else Ok (mkField number wire 0 (take (Z.to_nat value) input), drop (Z.to_nat value) input)
  else Err BadWire.

(** Each turn consumes at least two bytes. *)
Fixpoint decode_loop (fuel : nat) (input : bytes) : res protoErr (list protoField) :=
  match input with
  | [] => Ok []
  | _ =>
      match fuel with
      | O => Err BadTag
      | S fuel =>
          let? p := decode_one input in
          let? rest := decode_loop fuel p.2 in
          Ok (p.1 :: rest)
      end
  end.
Definition decodeProto (input : bytes) : res protoErr (list protoField) := decode_loop (length input) input.

Fixpoint protoBytes (fields : list protoField) (number : Z) : res protoErr bytes :=
  match fields with
  | [] => Err MissingBytes
  | f :: fields => if (pf_number f =? number) && (pf_wire f =? 2) then Ok (pf_bytes f) else protoBytes fields number
  end.

(** The algorithm list of the SDK seed ([acceptSeedResponse] in signing.go):
    packed varints, of which the first even one naming an algorithm 1..8 wins. *)
Fixpoint pick_algorithm (fuel : nat) (packed : bytes) (algorithm : Z) : option Z :=
  match packed with
  | [] => Some algorithm
  | _ =>
      match fuel with
      | O => None
      | S fuel =>
          let '(v, n) := Uvarint packed in
          if n <=? 0 then None
          else
            let algorithm :=
              if (Z.land v 1 =? 0) && (1 <=? v / 2) && (v / 2 <=? 8) && (algorithm =? 0) then v / 2 else algorithm in
            pick_algorithm fuel (drop (Z.to_nat n) packed) algorithm
      end
  end.

(** ** Varints *)

Lemma lor_disjoint_add a b s : 0 <= s -> 0 <= a < 2 ^ s -> Z.lor a (Z.shiftl b s) = a + Z.shiftl b s.
Proof.
  intros Hs Ha. assert (Z.land a (Z.shiftl b s) = 0) as H0.
  { apply Z.bits_inj'. intros n Hn. rewrite Z.land_spec, Z.shiftl_spec, Z.bits_0 by lia.
    destruct (Z.lt_ge_cases n s); [rewrite (Z.testbit_neg_r b) by lia; by rewrite andb_false_r|].
    rewrite <- (Z.mod_small a (2 ^ s)) by done. rewrite Z.mod_pow2_bits_high by lia. done. }
  symmetry. rewrite Z.add_nocarry_lxor by done. by apply Z.lxor_lor.
Qed.

Lemma group_low x : 0 <= x -> 0x80 <= Z.lor (u8 x) 0x80 < 256 /\ Z.land (Z.lor (u8 x) 0x80) 0x7f = x mod 128.
Proof.
  intros Hx. unfold u8, wrap. change (2 ^ 8) with 256.
  assert (Z.lor (x mod 256) 128 = 128 + x mod 128) as ->.
  { assert (forall y, 0 <= y < 256 -> Z.lor y 128 = 128 + y mod 128) as H.
    { intros y Hy. assert (forallb (fun n => Z.lor (Z.of_nat n) 128 =? 128 + Z.of_nat n mod 128) (seq 0 256) = true) as Hall
        by (vm_compute; reflexivity).
      apply forallb_Forall in Hall. rewrite Forall_forall in Hall.
      specialize (Hall (Z.to_nat y)). rewrite Z2Nat.id in Hall by lia. apply Z.eqb_eq, Hall.
      apply elem_of_seq. lia. }
    rewrite H by (apply Z.mod_pos_bound; lia). f_equal. rewrite <- Znumtheory.Zmod_div_mod; [done|lia|lia|].
    by exists 2. }
  pose proof (Z.mod_pos_bound x 128). split; [lia|].
  change 0x7f with (Z.ones 7). rewrite Z.land_ones by lia. change (2 ^ 7) with 128.
  rewrite <- (Z.mod_small (x mod 128) 128) at 2 by lia. rewrite Z.add_mod by lia. change (128 mod 128) with 0.
  rewrite Z.add_0_l, !Zmod_mod. done.
Qed.

Lemma uvarint_loop_put fuel x i s acc rest :
  0 <= x -> 0 <= s -> s = 7 * i -> 0 <= acc < 2 ^ s -> acc + x * 2 ^ s < 2 ^ 64 ->
  i + Z.of_nat fuel = 10 -> (1 <= fuel)%nat ->
  uvarint_loop (put_uvarint fuel x ++ rest) i s acc = (acc + x * 2 ^ s, i + len (put_uvarint fuel x)).
Proof.
  revert x i s acc. induction fuel as [|fuel IH]; intros x i s acc Hx Hs Hsi Hacc Hb Hf Hf1; [lia|].
  pose proof (Z.pow_pos_nonneg 2 s ltac:(lia) Hs) as Hp.
  assert (forall y, 0 <= y -> y * 2 ^ s < 2 ^ 64 -> Z.lor acc (u64 (Z.shiftl y s)) = acc + y * 2 ^ s) as Hlor.
  { intros y Hy Hlt. unfold u64. rewrite wrap_small by (rewrite Z.shiftl_mul_pow2 by lia; nia).
    rewrite lor_disjoint_add by done. by rewrite Z.shiftl_mul_pow2 by lia. }
  simpl put_uvarint. destruct (Z.leb_spec 0x80 x) as [Hbig|Hsmall].
  - destruct (group_low x Hx) as [Hr Hl]. cbn [app uvarint_loop].
    destruct (Z.eqb_spec i 10); [lia|]. destruct (Z.ltb_spec (Z.lor (u8 x) 0x80) 0x80); [lia|].
    rewrite Hl. pose proof (Z.mod_pos_bound x 128 ltac:(lia)) as Hm.
    assert (x = 128 * (x / 128) + x mod 128) as Hx2 by (apply Z.div_mod; lia).
    pose proof (Z.div_pos x 128 ltac:(lia) ltac:(lia)) as Hd.
    rewrite Hlor by nia. assert (2 ^ (s + 7) = 128 * 2 ^ s) as Hp7 by (rewrite Z.pow_add_r by lia; lia).
    assert (1 <= fuel)%nat.
    { destruct fuel; [|lia]. exfalso. assert (i = 9) as -> by lia. subst s. change (2 ^ (7 * 9)) with (2 ^ 63) in *. lia. }
    rewrite Z.shiftr_div_pow2 by lia. change (2 ^ 7) with 128.
    rewrite IH; try lia.
    + rewrite len_cons, Hp7. f_equal; [|lia]. rewrite Hx2 at 3. ring.
    + rewrite Hp7. nia.
  - cbn [app uvarint_loop]. unfold u8. rewrite wrap_small by lia.
    destruct (Z.eqb_spec i 10); [lia|]. destruct (Z.ltb_spec x 0x80); [|lia].
    destruct (Z.eqb_spec i 9) as [->|]; simpl.
    + assert (x <= 1) by (subst s; change (2 ^ (7 * 9)) with (2 ^ 63) in *; lia).
      destruct (Z.ltb_spec 1 x); [lia|]. rewrite Hlor by nia. done.
    + rewrite Hlor by nia. done.
Qed.

Lemma Uvarint_put x rest : 0 <= x < 2 ^ 64 -> Uvarint (put_uvarint 10 x ++ rest) = (x, len (put_uvarint 10 x)).
Proof.
  intros Hx. unfold Uvarint. rewrite uvarint_loop_put; try lia.
  f_equal; lia.
Qed.

Lemma put_uvarint_pos x : 0 < len (put_uvarint 10 x).
Proof.
  assert (forall n, 0 < len (put_uvarint (S n) x)) as H; [|apply H].
  intros n. cbn [put_uvarint]. destruct (Z.leb_spec 128 x); rewrite len_cons; [|done].
  match goal with |- context [1 + len ?l] => pose proof (len_nonneg l) end. lia.
Qed.

#[local] Opaque put_uvarint.

Lemma drop_put x rest : drop (Z.to_nat (len (put_uvarint 10 x))) (put_uvarint 10 x ++ rest) = rest.
Proof. unfold len. rewrite Nat2Z.id. apply drop_app_length. Qed.

(** ** Messages *)

(** A field the encoder can write and the decoder accepts. *)
Definition field_ok (f : protoField) : Prop :=
  1 <= pf_number f < 2 ^ 29 /\
  ((pf_wire f = 0 /\ 0 <= pf_integer f < 2 ^ 64 /\ pf_bytes f = []) \/
   (pf_wire f = 2 /\ pf_integer f = 0 /\ len (pf_bytes f) < 2 ^ 63)).

Definition field_tag (f : protoField) : Z := Z.lor (u64 (Z.shiftl (pf_number f) 3)) (pf_wire f).
Definition field_body (f : protoField) : bytes :=
  if pf_wire f =? 0 then put_uvarint 10 (pf_integer f) else put_uvarint 10 (len (pf_bytes f)) ++ pf_bytes f.

Lemma encode_field_app f out : encode_field f out = out ++ put_uvarint 10 (field_tag f) ++ field_body f.
Proof.
  unfold encode_field, AppendUvarint, field_body, field_tag. destruct (_ =? _); by rewrite <- !app_assoc.
Qed.

Lemma encodeProto_cons f fs : encodeProto (f :: fs) = put_uvarint 10 (field_tag f) ++ field_body f ++ encodeProto fs.
Proof.
  unfold encodeProto. simpl. rewrite encode_field_app. simpl.
  assert (forall fs out, fold_left (fun out f => encode_field f out) fs out =
    out ++ fold_left (fun out f => encode_field f out) fs []) as Hacc.
  { clear. induction fs as [|g fs IH]; intros out; simpl; [by rewrite app_nil_r|].
    rewrite (IH (encode_field g out)), (IH (encode_field g [])), !encode_field_app. by rewrite <- !app_assoc. }
  rewrite Hacc. by rewrite <- app_assoc.
Qed.

Lemma field_tag_spec f : field_ok f ->
  0 <= field_tag f < 2 ^ 64 /\ Z.shiftr (field_tag f) 3 = pf_number f /\ Z.land (field_tag f) 7 = pf_wire f.
Proof.
  intros [Hn Hw]. assert (0 <= pf_wire f < 2 ^ 3) as Hw8 by (destruct Hw as [(-> & _)|(-> & _)]; lia).
  unfold field_tag, u64. rewrite wrap_small by (rewrite Z.shiftl_mul_pow2 by lia; lia).
  rewrite Z.lor_comm, lor_disjoint_add by lia. rewrite Z.shiftl_mul_pow2 by lia.
  split; [lia|]. rewrite Z.shiftr_div_pow2 by lia. change 7 with (Z.ones 3). rewrite Z.land_ones by lia.
  split; [rewrite Z.div_add by lia; rewrite Z.div_small by lia; lia|].
  rewrite Z.mod_add by lia. by apply Z.mod_small.
Qed.

Lemma decode_one_encode f rest : field_ok f ->
  decode_one (put_uvarint 10 (field_tag f) ++ field_body f ++ rest) = Ok (f, rest).
Proof.
  intros Hf. pose proof (field_tag_spec f Hf) as (Ht & Hn & Hw). destruct Hf as [Hnum Hwire].
  unfold decode_one. rewrite Uvarint_put by done. pose proof (put_uvarint_pos (field_tag f)).
  destruct (Z.leb_spec (len (put_uvarint 10 (field_tag f))) 0); [lia|]. cbn [negb].
  rewrite drop_put, Hn, Hw. change (Z.shiftl 1 29) with (2 ^ 29).
  destruct (Z.leb_spec 1 (pf_number f)); [|lia]. destruct (Z.ltb_spec (pf_number f) (2 ^ 29)); [|lia]. cbn [andb].
  unfold field_body. destruct f as [num wire int bs]. simpl in *.
  destruct Hwire as [(-> & Hi & ->)|(-> & -> & Hb)]; simpl.
  - rewrite Uvarint_put by done. pose proof (put_uvarint_pos int).
    destruct (Z.leb_spec (len (put_uvarint 10 int)) 0); [lia|]. cbn [negb]. by rewrite drop_put.
  - pose proof (len_nonneg bs). rewrite <- app_assoc. rewrite Uvarint_put by lia.
    pose proof (put_uvarint_pos (len bs)). destruct (Z.leb_spec (len (put_uvarint 10 (len bs))) 0); [lia|]. cbn [negb].
    rewrite drop_put. rewrite len_app. pose proof (len_nonneg rest).
    destruct (Z.ltb_spec (len bs + len rest) (len bs)); [lia|].
    unfold len. rewrite !Nat2Z.id. by rewrite take_app_length, drop_app_length.
Qed.

(** Round trip: decoding an encoded message gives back exactly its fields,
    for every field number, every 64-bit integer and all byte strings. *)
Theorem decode_encode fields : Forall field_ok fields -> decodeProto (encodeProto fields) = Ok fields.
Proof.
  intros Hf. unfold decodeProto.
  assert (forall fuel fs, Forall field_ok fs -> (length (encodeProto fs) <= fuel)%nat ->
    decode_loop fuel (encodeProto fs) = Ok fs) as Hgen; [|by apply Hgen].
  induction fuel as [|fuel IH]; intros fs Hfs Hlen.
  - destruct fs as [|f fs]; [done|]. rewrite encodeProto_cons in *. pose proof (put_uvarint_pos (field_tag f)) as Hp.
    rewrite length_app in Hlen. unfold len in Hp. lia.
  - destruct Hfs as [|f fs Hf1 Hfs]; [done|]. rewrite encodeProto_cons in *.
    pose proof (put_uvarint_pos (field_tag f)) as Hp. unfold len in Hp.
    assert (exists b l, put_uvarint 10 (field_tag f) ++ field_body f ++ encodeProto fs = b :: l) as (b & l & E).
    { destruct (put_uvarint 10 (field_tag f)) eqn:E; [simpl in Hp; lia|]. simpl. eauto. }
    cbn [decode_loop]. rewrite E, <- E. rewrite decode_one_encode by done. cbn [rbind fst snd].
    rewrite IH; [done|done|]. rewrite !length_app in Hlen. lia.
Qed.

Lemma decode_encode_witness :
  let fs := [pi 5 (2 ^ 64 - 1); ps 16 "udid"; pb (2 ^ 29 - 1) [0; 255]] in
  Forall field_ok fs /\ decodeProto (encodeProto fs) = Ok fs.
Proof.
  intros fs. assert (Forall field_ok fs) as H.
  { repeat (apply Forall_cons_2 || apply Forall_nil_2); (split; [simpl; lia|]); [left|right|right]; (split; [done|]); (split; [first [done|split; [done|reflexivity]]|]); try done. }
  split; [exact H|]. apply (decode_encode fs H).
Defined.

Lemma uvarint_loop_read (buf : bytes) i s x : 0 <= i -> (uvarint_loop buf i s x).2 <= i + len buf.
Proof.
  revert i s x. induction buf as [|b buf IH]; intros i s x Hi; cbn [uvarint_loop]; [unfold len; simpl; lia|].
  rewrite len_cons. pose proof (len_nonneg buf). destruct (i =? 10); [simpl; lia|]. destruct (b <? 128).
  - destruct (_ && _); simpl; lia.
  - pose proof (IH (i + 1) (s + 7) (Z.lor x (u64 (Z.shiftl (Z.land b 127) s)))). lia.
Qed.

Lemma decode_one_shorter l f r : decode_one l = Ok (f, r) ->
  (length r < length l)%nat /\ 1 <= pf_number f < 2 ^ 29 /\ (pf_wire f = 0 \/ pf_wire f = 2).
Proof.
  unfold decode_one. pose proof (uvarint_loop_read l 0 0 0 ltac:(lia)) as H1.
  change (uvarint_loop l 0 0 0) with (Uvarint l) in H1. destruct (Uvarint l) as [tag n]. simpl in H1.
  destruct (Z.leb_spec n 0); [done|]. cbn [negb]. set (l2 := drop (Z.to_nat n) l).
  destruct (_ && _) eqn:En; [|done]. destruct (Uvarint l2) as [v m].
  destruct (Z.leb_spec m 0); [done|]. cbn [negb].
  assert (length (drop (Z.to_nat m) l2) < length l)%nat as Hl.
  { unfold l2. rewrite !length_drop. unfold len in H1. lia. }
  bool_prop. change (Z.shiftl 1 29) with (2 ^ 29) in *.
  destruct (Z.eqb_spec (Z.land tag 7) 0); [intros [= <- <-]; simpl; split; [done|]; split; [lia|by left]|].
  destruct (Z.eqb_spec (Z.land tag 7) 2); [|done]. destruct (_ <? _); [done|]. intros [= <- <-]. simpl.
  split; [rewrite length_drop; lia|]. split; [lia|by right].
Qed.

(** Termination and shape: [decodeProto] consumes its input completely or
    fails; the loop bound is never what stops it, and every accepted field has a
    number in range and one of the two wire types. *)
Theorem decode_total input :
  (forall fuel, (length input <= fuel)%nat -> decode_loop fuel input = decodeProto input) /\
  (forall fields, decodeProto input = Ok fields ->
     Forall (fun f => 1 <= pf_number f < 2 ^ 29 /\ (pf_wire f = 0 \/ pf_wire f = 2)) fields).
Proof.
  unfold decodeProto.
  assert (forall n fuel l, (length l <= n)%nat -> (length l <= fuel)%nat -> decode_loop fuel l = decode_loop n l) as Hfuel.
  { induction n as [|n IH]; intros fuel l Hn Hf.
    - destruct l; [by destruct fuel|simpl in Hn; lia].
    - destruct l as [|b l]; [by destruct fuel|]. destruct fuel as [|fuel]; [simpl in Hf; lia|].
      cbn [decode_loop]. destruct (decode_one (b :: l)) as [[f r]|] eqn:E; [|done].
      apply decode_one_shorter in E as [E _]. cbn [rbind fst snd]. rewrite (IH fuel r); [done| |]; simpl in *; lia. }
  split; [intros; by apply Hfuel|].
  generalize (length input) as n. intros n. revert input. induction n as [|n IH]; intros l fs.
  { destruct l; [|done]. by intros [= <-]. }
  destruct l as [|b l]; [by intros [= <-]|]. cbn [decode_loop].
  intros ([f r] & E & H)%rbind_ok_inv. apply rbind_ok_inv in H as (rest & Hr & [= <-]).
  apply decode_one_shorter in E as [_ E]. constructor; [exact E|]. by apply (IH r).
Qed.
