(* ===== verification/Crypto.v ===== *)
(** * Crypto primitives of the TikTok app signer

    Models src/internal/tiktokapp/crypto.go: the XTEA block cipher and its CBC
    mode, the SIMON-like cipher and the envelope of X-Argus, X-Ladon, the SDK
    payload envelope, TTEncrypt and the eight dynamic proofs.

    Words are [Z] modulo 2^32 or 2^64, bytes [Z] in 0..255.  MD5, base64 and hex
    are written out (they decide what Ladon and the proofs compute).  AES, the
    SHA family, RC4, CRC-32 and zlib of the Go standard library, and the
    third-party SM3, are arguments: the code hands whole buffers to them and
    uses only that decryption inverts encryption and inflation deflation. *)
From S2P Require Import Prelude Strconv.

(** ** Words *)

Definition rotl (w x n : Z) : Z := wrap w (Z.lor (Z.shiftl x n) (Z.shiftr (wrap w x) (w - n))).
(** [bits.RotateLeft64(x, -n)] *)
Definition rotr (w x n : Z) : Z := rotl w x (w - n).
Definition not64 (x : Z) : Z := Z.lxor x (2 ^ 64 - 1).
Definition not32 (x : Z) : Z := Z.lxor x (2 ^ 32 - 1).
Definition word_le (n : nat) (l : bytes) (off : nat) : Z := le_get (take n (drop off l)).
Definition word_be (n : nat) (l : bytes) (off : nat) : Z := be_get (take n (drop off l)).

Fixpoint reverse_bits (n : nat) (x acc : Z) : Z :=
  match n with
  | O => acc
  | S n => reverse_bits n (Z.shiftr x 1) (Z.lor (Z.shiftl acc 1) (Z.land x 1))
  end.
Definition Reverse32 (x : Z) : Z := reverse_bits 32 x 0.

Definition xor_bytes (a b : bytes) : bytes := zip_with Z.lxor a b.
Definition padded (b : bytes) (size : Z) : bytes :=
  let n := size - len b mod size in b ++ replicate (Z.to_nat n) n.

(** ** MD5, base64, hex *)

Definition md5_K : list Z :=
  [3614090360; 3905402710; 606105819; 3250441966; 4118548399; 1200080426; 2821735955; 4249261313;
   1770035416; 2336552879; 4294925233; 2304563134; 1804603682; 4254626195; 2792965006; 1236535329;
   4129170786; 3225465664; 643717713; 3921069994; 3593408605; 38016083; 3634488961; 3889429448;
   568446438; 3275163606; 4107603335; 1163531501; 2850285829; 4243563512; 1735328473; 2368359562;
   4294588738; 2272392833; 1839030562; 4259657740; 2763975236; 1272893353; 4139469664; 3200236656;
   681279174; 3936430074; 3572445317; 76029189; 3654602809; 3873151461; 530742520; 3299628645;
   4096336452; 1126891415; 2878612391; 4237533241; 1700485571; 2399980690; 4293915773; 2240044497;
   1873313359; 4264355552; 2734768916; 1309151649; 4149444226; 3174756917; 718787259; 3951481745].
Definition md5_R : list Z :=
  concat (map (fun r => concat (replicate 4 r)) [[7; 12; 17; 22]; [5; 9; 14; 20]; [4; 11; 16; 23]; [6; 10; 15; 21]]).

Definition md5_round (block : bytes) (st : Z * Z * Z * Z) (i : nat) : Z * Z * Z * Z :=
  let '(a, b, c, d) := st in
  let '(f, g) :=
    if Nat.ltb i 16 then (Z.lor (Z.land b c) (Z.land (not32 b) d), i)
    else if Nat.ltb i 32 then (Z.lor (Z.land d b) (Z.land (not32 d) c), Nat.modulo (5 * i + 1) 16)
    else if Nat.ltb i 48 then (Z.lxor b (Z.lxor c d), Nat.modulo (3 * i + 5) 16)
    else (Z.lxor c (Z.lor b (not32 d)), Nat.modulo (7 * i) 16) in
  let f := u32 (f + a + nth i md5_K 0 + word_le 4 block (4 * g)) in
  (d, u32 (b + rotl 32 f (nth i md5_R 0)), b, c).

Definition md5_block (st : Z * Z * Z * Z) (block : bytes) : Z * Z * Z * Z :=
  let '(a0, b0, c0, d0) := st in
  let '(a, b, c, d) := fold_left (md5_round block) (seq 0 64) st in
  (u32 (a0 + a), u32 (b0 + b), u32 (c0 + c), u32 (d0 + d)).

Fixpoint chunks (fuel : nat) (n : nat) (l : bytes) : list bytes :=
  match fuel, l with
  | S fuel, _ :: _ => take n l :: chunks fuel n (drop n l)
  | _, _ => []
  end.

Definition md5 (m : bytes) : bytes :=
  let zeros := replicate (Z.to_nat ((55 - len m) mod 64)) 0 in
  let m := m ++ [128] ++ zeros ++ le_put 8 (8 * len m) in
  let '(a, b, c, d) := fold_left md5_block (chunks (length m) 64 m) (0x67452301, 0xefcdab89, 0x98badcfe, 0x10325476) in
  le_put 4 a ++ le_put 4 b ++ le_put 4 c ++ le_put 4 d.

Definition hex_bytes (l : bytes) : bytes :=
  flat_map (fun b => let hex d := if d <? 10 then 48 + d else 87 + d in [hex (Z.shiftr b 4); hex (Z.land b 15)]) l.

Definition base64_char (n : Z) : Z :=
  if n <? 26 then 65 + n else if n <? 52 then 71 + n else if n <? 62 then n - 4 else if n =? 62 then 43 else 47.

Fixpoint base64 (fuel : nat) (l : bytes) : bytes :=
  match fuel, l with
  | S fuel, a :: b :: c :: l =>
      let n := 65536 * a + 256 * b + c in
      map base64_char [n / 262144; n / 4096 mod 64; n / 64 mod 64; n mod 64] ++ base64 fuel l
  | S _, [a; b] =>
      let n := 65536 * a + 256 * b in map base64_char [n / 262144; n / 4096 mod 64; n / 64 mod 64] ++ [61]
  | S _, [a] => let n := 65536 * a in map base64_char [n / 262144; n / 4096 mod 64] ++ [61; 61]
  | _, _ => []
  end.
Definition EncodeToString (l : bytes) : bytes := base64 (S (length l)) l.

(** ** XTEA *)

Definition delta : Z := 0x9e3779b9.

Definition mix (key : bytes) (word total index : Z) : Z :=
  Z.lxor (u32 (Z.lxor (u32 (Z.shiftl word 4)) (Z.shiftr word 5) + word))
         (u32 (total + word_be 4 key (4 * Z.to_nat index))).

(** One round on [(first, second, sum)]. *)
Definition xtea_enc (key : bytes) (s : Z * Z * Z) : Z * Z * Z :=
  let '(first, second, sum) := s in
  let first := u32 (first + mix key second sum (Z.land sum 3)) in
  let sum := u32 (sum + delta) in
  let second := u32 (second + mix key first sum (Z.land (Z.shiftr sum 11) 3)) in
  (first, second, sum).

Definition xtea_dec (key : bytes) (s : Z * Z * Z) : Z * Z * Z :=
  let '(first, second, sum) := s in
  let second := u32 (second - mix key first sum (Z.land (Z.shiftr sum 11) 3)) in
  let sum := u32 (sum - delta) in
  let first := u32 (first - mix key second sum (Z.land sum 3)) in
  (first, second, sum).

Fixpoint iterate {A} (n : nat) (f : A -> A) (x : A) : A :=
  match n with
  | O => x
  | S n => iterate n f (f x)
  end.

Definition xteaBlock (input key : bytes) (rounds : Z) (decrypt : bool) : bytes :=
  let sum := if decrypt then u32 (rounds * delta) else 0 in
  let '(first, second, _) :=
    iterate (Z.to_nat rounds) (if decrypt then xtea_dec key else xtea_enc key)
      (word_be 4 input 0, word_be 4 input 4, sum) in
  be_put 4 first ++ be_put 4 second.

Fixpoint xtea_blocks (fuel : nat) (input key previous : bytes) (rounds : Z) (decrypt : bool) : bytes :=
  match fuel, input with
  | S fuel, _ :: _ =>
      let current := take 8 input in
      if decrypt then
        xor_bytes (xteaBlock current key rounds true) previous ++
        xtea_blocks fuel (drop 8 input) key current rounds decrypt
      else
        let previous := xteaBlock (xor_bytes current previous) key rounds false in
        previous ++ xtea_blocks fuel (drop 8 input) key previous rounds decrypt
  | _, _ => []
  end.

Definition xtea_rounds (iv : bytes) : Z := 32 + (word_le 4 iv 0 mod 5) * 8.

Inductive cryptoErr := BadLengths | BadSeed | BadPayload | BadPadding | BadEnvelope | BadHeader | TooLarge | BadZlib | LengthMismatch | BadParameters.

Definition xteaCBC (input key iv : bytes) (decrypt : bool) : res cryptoErr bytes :=
  guard? (len input mod 8 =? 0) && (len key =? 16) && (len iv =? 8) else BadLengths in
  Ok (xtea_blocks (length input) input key iv (xtea_rounds iv) decrypt).

(** ** The cipher of X-Argus *)

Definition argusXORMask (seed : bytes) : bytes :=
  let first := byte_at seed 2 in
  let v := not32 (Z.lxor (Z.lxor (Z.shiftr first 5) (Z.lor (byte_at seed 3) (u32 (Z.shiftl first 11)))) first) in
  le_put 4 v.

Fixpoint simon_keys (n : nat) (r : Z) (ks : list Z) : list Z :=
  match n with
  | O => ks
  | S n =>
      let k i := nth (length ks - i) ks 0 in
      let mixed := Z.lxor (rotr 64 (k 1%nat) 3) (k 3%nat) in
      let mixed := Z.lxor mixed (rotr 64 mixed 1) in
      let bit := Z.land (Z.shiftr 0x3dc94c3a046d678b ((r - 4) mod 62)) 1 in
      simon_keys n (r + 1) (ks ++ [Z.lxor (Z.lxor (Z.lxor (not64 (k 4%nat)) mixed) bit) 3])
  end.

Definition simon_round (s : Z * Z) (k : Z) : Z * Z :=
  let '(lft, rgt) := s in
  (rgt, Z.lxor (Z.lxor (Z.lxor lft (Z.land (rotl 64 rgt 1) (rotl 64 rgt 8))) (rotl 64 rgt 2)) k).

Definition simon_schedule (key : bytes) : list Z :=
  simon_keys 68 4 (map (fun i => word_le 8 key (8 * i)) (seq 0 4)).

Definition simon_block (ks : list Z) (block : bytes) : bytes :=
  let '(lft, rgt) := fold_left simon_round ks (word_le 8 block 0, word_le 8 block 8) in
  le_put 8 lft ++ le_put 8 rgt.

Definition simon (input key : bytes) : bytes :=
  concat (map (simon_block (simon_schedule key)) (chunks (length input) 16 input)).

(** ** X-Ladon *)

Fixpoint ladon_keys (n : nat) (r key first second third : Z) : list Z :=
  match n with
  | O => []
  | S n =>
      let next := Z.lxor (u64 (rotr 64 first 8 + key)) r in
      let key := Z.lxor next (rotl 64 key 3) in
      key :: ladon_keys n (r + 1) key second third next
  end.

Definition ladon_round (s : Z * Z) (k : Z) : Z * Z :=
  let '(lft, rgt) := s in
  let rgt := Z.lxor k (u64 (lft + rotr 64 rgt 8)) in
  (Z.lxor rgt (rotl 64 lft 3), rgt).

Definition ladon_block (keys : list Z) (block : bytes) : bytes :=
  let '(lft, rgt) := fold_left ladon_round keys (word_le 8 block 0, word_le 8 block 8) in
  le_put 8 lft ++ le_put 8 rgt.

Definition ladon (timestamp : Z) (seed : bytes) : res cryptoErr bytes :=
  guard? (0 <=? timestamp) && (len seed =? 4) else BadSeed in
  let material := hex_bytes (md5 (seed ++ bytes_of_string "1233")) in
  let key := word_le 8 material 0 in
  let keys := key :: ladon_keys 33 0 key (word_le 8 material 8) (word_le 8 material 16) (word_le 8 material 24) in
  let input := padded (bytes_of_string (Itoa timestamp +:+ "-2142840551-1233")) 16 in
  Ok (EncodeToString (seed ++ concat (map (ladon_block keys) (chunks (length input) 16 input)))).

(** ** Envelopes *)

Definition maxSDKPayload : Z := Z.shiftl 16 20.
Definition unhex_digit (b : Z) : Z := if b <? 58 then b - 48 else b - 87.
Fixpoint mustHex_bytes (l : bytes) : bytes :=
  match l with
  | a :: b :: l => 16 * unhex_digit a + unhex_digit b :: mustHex_bytes l
  | _ => []
  end.
Definition mustHex (s : string) : bytes := mustHex_bytes (bytes_of_string s).

Definition apkSignKey : bytes := mustHex "c02f250f86cc4f198d5706398d292a8b74169aba61affe7cba02e4a3b5198163".
Definition sdkAESKey : bytes := mustHex "b8d72ddec05142948bbf2dc81d63759c".
Definition sdkAESIV : bytes := mustHex "d6c3969582f9ac5313d39c180b54a2bc".
Definition sdkXTEAKey : bytes := mustHex "782399bdfacedead3230313030343034".
Definition ttSalt : bytes :=
  mustHex "4dd4c2e6b83162090e52b3c7a6733ba41cb2462b829ab58a196b39db57177524f49baf7f08e8d68d26a72e37c1a95a2f1f05a51892aef2949732b62a38aadd58".
Definition sdkIVTail : bytes := mustHex "27042020".

Section Envelopes.
Context (aes_enc aes_dec : bytes -> bytes -> bytes -> bytes).       (* key, iv, blocks *)
Context (aes_ofb : bytes -> bytes -> bytes -> bytes).
Context (sha512 sha256 sha1 sm3 : bytes -> bytes) (crc32 : bytes -> Z) (rc4 : bytes -> bytes -> bytes).
Context (deflate : bytes -> bytes) (inflate : bytes -> Z -> option bytes). (* zlib, level 1; at most n bytes *)

Definition aesCBC (b key iv : bytes) (decrypt : bool) : res cryptoErr bytes :=
  guard? (len b mod 16 =? 0) && (len iv =? 16) else BadLengths in
  Ok (if decrypt then aes_dec key iv b else aes_enc key iv b).

Definition ttEncrypt (payload seed : bytes) : res cryptoErr bytes :=
  guard? len seed =? 32 else BadSeed in
  let h := sha512 seed in
  let material := sha512 (h ++ ttSalt) in
  let digest := sha512 payload in
  let? enc := aesCBC (padded (digest ++ payload) 16) (take 16 material) (slice 16 32 material) false in
  Ok (mustHex "746305100000" ++ seed ++ enc).

(** [random] is the random first byte, [fill] the random padding. *)
Definition encryptSDKPayload (random : Z) (fill : Z -> bytes) (payload nonce : bytes) : res cryptoErr bytes :=
  guard? (len payload <=? maxSDKPayload) && (len nonce =? 4) else BadPayload in
  let header := Z.lor (Z.land random 0xfc) 1 :: le_put 4 (len payload) in
  let b := deflate payload in
  let used := len header + len b in
  let? inner := xteaCBC (header ++ b ++ replicate (Z.to_nat (8 + Z.rem (8 - used mod 8) 8)) 0) sdkXTEAKey (nonce ++ sdkIVTail) false in
  let envelope := Z.lxor (byte_at inner 0) 3 :: inner ++ nonce in
  let n := 16 - len envelope mod 16 in
  let pad := <[Z.to_nat (n - 1) := n]> (fill n) in
  aesCBC (envelope ++ pad) sdkAESKey sdkAESIV false.

Definition decryptSDKPayload (payload : bytes) : res cryptoErr bytes :=
  guard? negb (len payload =? 0) && (len payload mod 16 =? 0) && (len payload <=? maxSDKPayload) else BadLengths in
  let? p := aesCBC payload sdkAESKey sdkAESIV true in
  let pad := byte_at p (len p - 1) in
  guard? (1 <=? pad) && (pad <=? 16) else BadPadding in
  let env := slice 0 (len p - pad) p in
  guard? (13 <=? len env) && (len env mod 8 =? 5) && (byte_at env 0 =? Z.lxor (byte_at env 1) 3) else BadEnvelope in
  let? inner := xteaCBC (slice 1 (len env - 4) env) sdkXTEAKey (slice (len env - 4) (len env) env ++ sdkIVTail) true in
  let off := Z.land (byte_at inner 0) 3 in
  let off := if off =? 0 then 4 else off in
  guard? negb (len inner <? off + 4) else BadHeader in
  let size := word_le 4 inner (Z.to_nat off) in
  guard? size <=? maxSDKPayload else TooLarge in
  match inflate (drop (Z.to_nat (off + 4)) inner) (size + 1) with
  | None => Err BadZlib
  | Some plain => guard? len plain =? size else LengthMismatch in Ok plain
  end.

(** [padding]: [None] draws random bytes ([fill]) and stores their number last. *)
Definition encryptArgusEnvelope (fill : Z -> bytes) (payload seed flags prefix : bytes) (padding : option bytes) :
    res cryptoErr bytes :=
  guard? (len seed =? 4) && (len flags =? 8) && (len prefix =? 9) else BadSeed in
  let h := sm3 (apkSignKey ++ seed ++ apkSignKey) in
  let mixed := flags ++ simon (padded payload 16) h in
  let mask := argusXORMask seed in
  let mixed := imap (fun i b => Z.lxor b (nth (Nat.modulo i 4) mask 0)) mixed in
  let mixed := reverse mixed in
  let plain := prefix ++ mixed ++ drop 2 seed in
  let n := 16 - len plain mod 16 in
  let padding := match padding with Some p => p | None => <[Z.to_nat (n - 1) := n]> (fill n) end in
  guard? (len padding =? n) && (byte_at padding (n - 1) =? n) else BadPadding in
  let key := md5 (take 16 apkSignKey) in
  let iv := md5 (drop 16 apkSignKey) in
  let? enc := aesCBC (plain ++ padding) key iv false in
  Ok (EncodeToString (take 2 seed ++ enc)).

Definition swap_nibbles (l : bytes) : bytes := map (fun b => Z.lor (u8 (Z.shiftl b 4)) (Z.shiftr b 4)) l.

(** One of the three words of versions 1 to 6. *)
Definition proof_word (version : Z) (key input : bytes) : Z :=
  let hash := md5 input in
  match version with
  | 1 => word_le 4 hash 0
  | 2 => word_le 4 (swap_nibbles hash) 0
  | 3 => Z.lxor (word_le 4 hash 0) 0x5a5a5a5a
  | 4 => Reverse32 (word_be 4 hash 0)
  | 5 => word_le 4 (sm3 input) 28
  | 6 => let encrypted := aes_ofb (take 16 key) (drop 16 key) (padded input 16) in
         word_le 4 encrypted (length encrypted - 4)
  | _ => 0
  end.

Definition dynamicProof (version nonce : Z) (query bodyDigest : bytes) : res cryptoErr bytes :=
  guard? (len bodyDigest =? 16) && (1 <=? version) && (version <=? 8) else BadParameters in
  let marker := [0; 0; 0; 1] in
  let key := hex_bytes (md5 (be_put 4 nonce)) in
  let words :=
    match version with
    | 7 => [Reverse32 (word_be 4 (rc4 key marker) 0); word_le 4 (md5 bodyDigest) 12;
            Z.lxor (word_le 4 (sha256 query) 0) 0x5a5a5a5a]
    | 8 => [word_le 4 (swap_nibbles (sha256 marker)) 0; Reverse32 (crc32 bodyDigest);
            Z.lxor (word_le 4 (sha1 query) 0) 0x5a5a5a5a]
    | _ => map (proof_word version key) [marker; bodyDigest; query]
    end in
  Ok (concat (map (fun w => be_put 4 (Z.lxor w nonce)) words)).
End Envelopes.

(** ** Known answers (testdata/node-crypto-goldens.json) *)

Definition string_of_hex (l : bytes) : string := string_of_bytes (hex_bytes l).

Example md5_abc : string_of_hex (md5 (bytes_of_string "abc")) = "900150983cd24fb0d6963f7d28e17f72"%string.
Proof. vm_compute. reflexivity. Qed.

Definition golden_payload : bytes := mustHex "00112233445566778899aabbccddeeff".

Example xtea_goldens :
  map (fun i => match xteaCBC golden_payload sdkXTEAKey (i :: mustHex "00000027042020") false with
                | Ok out => string_of_hex out | Err _ => ""%string end) [0; 1; 2; 3; 4] =
  ["d62d3557662ad5bab2d7481da905e39a"; "af544bdaa9a9cfdcc07344f3dc8e815b"; "72940d505fc1cd1f0119b3b312b59d71";
   "969da2b485772231ed4a02890086a47e"; "40d5cf8e5ab5a609d268049c00ecb5c0"]%string.
Proof. vm_compute. reflexivity. Qed.

Example ladon_golden :
  ladon 1800000000 [1; 2; 3; 4] = Ok (bytes_of_string "AQIDBP3OkaCer2pdekn5/xKL2YPQ28AxEuIoF+PlPOv0uX8J").
Proof. vm_compute. reflexivity. Qed.

Example proof_goldens :
  let none (_ : bytes) := ([] : bytes) in
  let proof v n q := match dynamicProof (fun _ _ => none) none none none (fun _ => 0) (fun _ => none) v n
                             (bytes_of_string q) (replicate 16 0) with
                     | Ok out => string_of_hex out | Err _ => ""%string end in
  let q := "aid=1233&device_id=1234567890123456789&hello=caf%C3%A9"%string in
  (map (fun v => proof v 0 ""%string) [1; 2; 3; 4], map (fun v => proof v 1234567890 q) [1; 2; 3; 4]) =
  (["060345f13613e74ad98c1dd4"; "6030541f63317ea49dc8d14d"; "5c591fab6c49bd1083d6478e"; "60c0a28f6cc8e7529b31b82b"],
   ["4f9547237f85e59892c72b2f"; "29a656cd2aa77c76f483900d"; "15cf1d7925dfbfc2c89d7175"; "2956a05d255ee580921c966d"])%string.
Proof. vm_compute. reflexivity. Qed.

(** ** XTEA inverts *)

Definition in_u32 (z : Z) : Prop := 0 <= z < 2 ^ 32.
Definition xtea_state (s : Z * Z * Z) : Prop := in_u32 s.1.1 /\ in_u32 s.1.2 /\ in_u32 s.2.

Lemma u32_range z : in_u32 (u32 z).
Proof. apply wrap_range. lia. Qed.

Lemma u32_sub_add a b : in_u32 a -> u32 (u32 (a + b) - b) = a.
Proof. intros H. unfold u32. rewrite wrap_sub_add by lia. by apply wrap_small. Qed.

Lemma xtea_enc_state key s : xtea_state s -> xtea_state (xtea_enc key s).
Proof. destruct s as [[f g] sum]. intros _. repeat split; apply u32_range. Qed.

Lemma xtea_dec_enc key s : xtea_state s -> xtea_dec key (xtea_enc key s) = s.
Proof.
  destruct s as [[f g] sum]. intros (Hf & Hg & Hs). simpl in *. unfold xtea_dec, xtea_enc.
  rewrite (u32_sub_add g) by done. rewrite (u32_sub_add sum) by done. by rewrite (u32_sub_add f) by done.
Qed.

Lemma iterate_S {A} n (f : A -> A) x : iterate (S n) f x = f (iterate n f x).
Proof. revert x. induction n as [|n IH]; intros x; [done|]. simpl in *. by rewrite IH. Qed.

Lemma iterate_state key n s : xtea_state s -> xtea_state (iterate n (xtea_enc key) s).
Proof. revert s. induction n as [|n IH]; intros s Hs; simpl; [done|]. by apply IH, xtea_enc_state. Qed.

Lemma iterate_dec_enc key n s : xtea_state s ->
  iterate n (xtea_dec key) (iterate n (xtea_enc key) s) = s.
Proof.
  intros Hs. induction n as [|n IH]; [done|]. rewrite (iterate_S n (xtea_enc key)).
  cbn [iterate]. rewrite xtea_dec_enc by (by apply iterate_state). exact IH.
Qed.

Lemma iterate_sum key n s : in_u32 s.2 ->
  (iterate n (xtea_enc key) s).2 = u32 (s.2 + Z.of_nat n * delta).
Proof.
  revert s. induction n as [|n IH]; intros [[f g] sum] Hs; cbn [iterate].
  - simpl. rewrite Z.add_0_r. symmetry. by apply wrap_small.
  - rewrite IH by apply u32_range. simpl snd. unfold u32. rewrite wrap_add_l. f_equal. lia.
Qed.

Lemma word_be_app a b : length a = 4%nat -> word_be 4 (a ++ b) 0 = be_get a.
Proof. intros H. unfold word_be. rewrite drop_0, <- H, take_app_length. done. Qed.

Lemma word_be_app2 a b : length a = 4%nat -> length b = 4%nat -> word_be 4 (a ++ b) 4 = be_get b.
Proof.
  intros Ha Hb. unfold word_be. rewrite <- Ha at 2. rewrite drop_app_length. rewrite <- Hb. by rewrite firstn_all.
Qed.

Lemma xteaBlock_length input key rounds d : length (xteaBlock input key rounds d) = 8%nat.
Proof. unfold xteaBlock. destruct (iterate _ _ _) as [[? ?] ?]. by rewrite length_app, !length_be_put. Qed.

Lemma xteaBlock_bytes input key rounds d : all_bytes (xteaBlock input key rounds d).
Proof. unfold xteaBlock. destruct (iterate _ _ _) as [[? ?] ?]. apply Forall_app. split; apply be_put_bytes. Qed.

(** Decrypting an encrypted block gives it back, for any number of rounds. *)
Lemma xteaBlock_roundtrip input key rounds :
  0 <= rounds -> length input = 8%nat -> all_bytes input ->
  xteaBlock (xteaBlock input key rounds false) key rounds true = input.
Proof.
  intros Hr Hl Hb. assert (exists a b, input = a ++ b /\ length a = 4%nat /\ length b = 4%nat) as (a & b & -> & Ha & Hb4).
  { exists (take 4 input), (drop 4 input). split; [by rewrite take_drop|]. rewrite length_take, length_drop. lia. }
  apply Forall_app in Hb as [Ba Bb].
  assert (in_u32 (be_get a) /\ in_u32 (be_get b)) as [Ra Rb].
  { pose proof (be_get_range a Ba). pose proof (be_get_range b Bb). unfold in_u32, len in *. rewrite Ha, Hb4 in *. done. }
  unfold xteaBlock at 2. rewrite word_be_app, word_be_app2 by done.
  set (s0 := (be_get a, be_get b, 0)). assert (xtea_state s0) as Hs0 by (repeat split; simpl; try apply Ra; try apply Rb; lia).
  pose proof (iterate_dec_enc key (Z.to_nat rounds) s0 Hs0) as Hinv.
  pose proof (iterate_sum key (Z.to_nat rounds) s0 ltac:(split; simpl; lia)) as Hsum.
  pose proof (iterate_state key (Z.to_nat rounds) s0 Hs0) as Hst.
  cbn [s0] in *. destruct (iterate (Z.to_nat rounds) (xtea_enc key) s0) as [[f g] sum].
  cbn [fst snd] in *. destruct Hst as (Hf & Hg & _). cbn [fst snd] in *.
  unfold xteaBlock. rewrite word_be_app, word_be_app2 by apply length_be_put.
  rewrite !be_get_put. change (8 * Z.of_nat 4) with 32. rewrite !Z.mod_small by done.
  rewrite Z2Nat.id, Z.add_0_l in Hsum by done. rewrite <- Hsum, Hinv. cbn [s0].
  pose proof (be_put_get a Ba) as Ea. pose proof (be_put_get b Bb) as Eb. rewrite Ha in Ea. rewrite Hb4 in Eb.
  by rewrite Ea, Eb.
Qed.

(** ** CBC *)

Lemma xor_bytes_length a b : length a = length b -> length (xor_bytes a b) = length a.
Proof. intros H. unfold xor_bytes. rewrite length_zip_with. lia. Qed.

Lemma xor_bytes_twice a b : length a = length b -> xor_bytes (xor_bytes a b) b = a.
Proof.
  unfold xor_bytes. revert b. induction a as [|x a IH]; intros [|y b]; simpl; intros H; try done.
  f_equal; [|apply IH; lia]. by rewrite Z.lxor_assoc, Z.lxor_nilpotent, Z.lxor_0_r.
Qed.

Lemma lxor_byte a b : is_byte a -> is_byte b -> is_byte (Z.lxor a b).
Proof.
  unfold is_byte. intros Ha Hb. split; [apply Z.lxor_nonneg; lia|]. change 256 with (2 ^ 8).
  destruct (decide (Z.lxor a b = 0)) as [->|Hn]; [lia|]. apply Z.log2_lt_cancel.
  rewrite Z.log2_pow2 by lia. eapply Z.le_lt_trans; [apply Z.log2_lxor; lia|].
  assert (forall c, 0 <= c < 256 -> Z.log2 c < 8) as Hc.
  { intros c Hc. destruct (decide (c = 0)) as [->|]; [simpl; lia|]. apply Z.log2_lt_pow2; lia. }
  specialize (Hc a Ha) as H1. specialize (Hc b Hb). lia.
Qed.

Lemma xor_bytes_bytes a b : all_bytes a -> all_bytes b -> all_bytes (xor_bytes a b).
Proof.
  unfold xor_bytes. intros Ha. revert b. induction Ha as [|x a Hx Ha IH]; intros [|y b] Hb; simpl; try constructor.
  - apply lxor_byte; [done|]. by inversion Hb.
  - apply IH. by inversion Hb.
Qed.

Lemma xtea_blocks_roundtrip n fuel fuel2 input key prev rounds :
  0 <= rounds -> length input = (8 * n)%nat -> (n <= fuel)%nat -> (n <= fuel2)%nat ->
  all_bytes input -> length prev = 8%nat -> all_bytes prev ->
  length (xtea_blocks fuel input key prev rounds false) = length input /\
  all_bytes (xtea_blocks fuel input key prev rounds false) /\
  xtea_blocks fuel2 (xtea_blocks fuel input key prev rounds false) key prev rounds true = input.
Proof.
  intros Hr. revert fuel fuel2 input prev. induction n as [|n IH]; intros fuel fuel2 input prev Hl Hf Hf2 Hb Hp Hpb.
  { destruct input; [|done]. destruct fuel, fuel2; repeat split; constructor. }
  destruct fuel as [|fuel]; [lia|]. destruct fuel2 as [|fuel2]; [lia|].
  destruct input as [|x input0] eqn:Ei; [simpl in Hl; lia|]. rewrite <- Ei in *.
  assert (xtea_blocks (S fuel) input key prev rounds false =
    let c := xteaBlock (xor_bytes (take 8 input) prev) key rounds false in
    c ++ xtea_blocks fuel (drop 8 input) key c rounds false) as E by (rewrite Ei; done).
  rewrite E. cbn zeta. set (c := xteaBlock (xor_bytes (take 8 input) prev) key rounds false).
  assert (length (take 8 input) = 8%nat) as Ht by (rewrite length_take; lia).
  assert (length c = 8%nat) as Hc by apply xteaBlock_length.
  destruct (IH fuel fuel2 (drop 8 input) c) as (I1 & I2 & I3); try lia.
  { rewrite length_drop. lia. } { by apply Forall_drop. } { apply xteaBlock_bytes. }
  split; [rewrite length_app, I1, length_drop; lia|]. split.
  { apply Forall_app. split; [apply xteaBlock_bytes|done]. }
  assert (exists y l, c ++ xtea_blocks fuel (drop 8 input) key c rounds false = y :: l) as (y & l & Ec).
  { destruct c; [done|]. simpl. eauto. }
  assert (forall l2, (exists y l, l2 = y :: l) -> xtea_blocks (S fuel2) l2 key prev rounds true =
    xor_bytes (xteaBlock (take 8 l2) key rounds true) prev ++ xtea_blocks fuel2 (drop 8 l2) key (take 8 l2) rounds true) as Hd.
  { intros l2 (? & ? & ->). done. }
  rewrite Hd by eauto. rewrite <- Hc at 1 3 5. rewrite take_app_length, drop_app_length, I3.
  unfold c at 1. rewrite xteaBlock_roundtrip; [|done| |].
  - rewrite xor_bytes_twice by lia. apply take_drop.
  - by rewrite xor_bytes_length; lia.
  - apply xor_bytes_bytes; [by apply Forall_take|done].
Qed.

Lemma xteaCBC_inverse input key iv :
  all_bytes input -> all_bytes iv -> len input mod 8 = 0 -> len key = 16 -> len iv = 8 ->
  exists enc, xteaCBC input key iv false = Ok enc /\ length enc = length input /\ all_bytes enc /\
    xteaCBC enc key iv true = Ok input.
Proof.
  intros Hi Hv Hm Hk Hl. unfold xteaCBC. rewrite Hm, Hk, Hl. cbn [Z.eqb andb].
  assert (length iv = 8%nat) as Hl8 by (unfold len in Hl; lia).
  assert (length input = (8 * (length input / 8))%nat) as Hn.
  { unfold len in Hm. apply (f_equal Z.to_nat) in Hm. rewrite <- (Nat2Z.inj_mod _ 8), Nat2Z.id in Hm.
    apply Nat.div_exact; [lia|]. rewrite Hm. done. }
  assert (0 <= xtea_rounds iv) as Hr.
  { unfold xtea_rounds. pose proof (Z.mod_pos_bound (word_le 4 iv 0) 5). lia. }
  assert (length input / 8 <= length input)%nat as Hle by (apply Nat.Div0.div_le_upper_bound; lia).
  destruct (xtea_blocks_roundtrip (length input / 8) (length input) (length input) input key iv (xtea_rounds iv))
    as (H1 & H2 & H3); try done.
  eexists. split; [reflexivity|]. split; [done|]. split; [done|].
  assert (len (xtea_blocks (length input) input key iv (xtea_rounds iv) false) = len input) as -> by (unfold len; by rewrite H1).
  rewrite Hm. cbn [Z.eqb andb Pos.eqb]. by rewrite H1, H3.
Qed.

(** The SDK's XTEA in CBC mode is a cipher: for every key, every IV (which
    also chooses the number of rounds) and every message of whole blocks,
    encryption succeeds, keeps the length, and decryption returns the message;
    everything else is refused. *)
Theorem xteaCBC_roundtrip input key iv :
  all_bytes input -> all_bytes iv ->
  match xteaCBC input key iv false with
  | Ok enc => length enc = length input /\ xteaCBC enc key iv true = Ok input
  | Err e => e = BadLengths /\ ~ (len input mod 8 = 0 /\ len key = 16 /\ len iv = 8)
  end.
Proof.
  intros Hi Hv. destruct (decide (len input mod 8 = 0 /\ len key = 16 /\ len iv = 8)) as [(H1 & H2 & H3)|Hno].
  - destruct (xteaCBC_inverse input key iv) as (enc & -> & ? & _ & ?); done.
  - unfold xteaCBC. destruct (_ && _) eqn:E; [|done]. bool_prop. exfalso. apply Hno. lia.
Qed.

Lemma xteaCBC_roundtrip_witness :
  exists enc, xteaCBC golden_payload sdkXTEAKey (mustHex "0100000027042020") false = Ok enc /\
    xteaCBC enc sdkXTEAKey (mustHex "0100000027042020") true = Ok golden_payload /\
    string_of_hex enc = "af544bdaa9a9cfdcc07344f3dc8e815b"%string.
Proof.
  assert (forall l, forallb (fun b => (0 <=? b) && (b <? 256)) l = true -> all_bytes l) as Hb.
  { intros l H. apply forallb_Forall in H. eapply Forall_impl; [exact H|]. intros b Hb. simpl in Hb.
    apply andb_true_iff in Hb as [H1 H2]. apply Z.leb_le in H1. apply Z.ltb_lt in H2. split; assumption. }
  pose proof (xteaCBC_roundtrip golden_payload sdkXTEAKey (mustHex "0100000027042020")
    (Hb golden_payload eq_refl) (Hb (mustHex "0100000027042020") eq_refl)) as H.
  destruct (xteaCBC golden_payload sdkXTEAKey (mustHex "0100000027042020") false) as [enc|e] eqn:E;
    [|vm_compute in E; discriminate].
  exists enc. split; [reflexivity|]. split; [exact (proj2 H)|].
  apply (f_equal (fun r => match r with Ok x => string_of_hex x | Err _ => ""%string end)) in E. rewrite <- E.
  vm_compute. reflexivity.
Defined.

(** ** The SDK payload envelope *)

(** What the code relies on of AES-CBC and zlib. *)
Definition aes_inverts (enc dec : bytes -> bytes -> bytes -> bytes) : Prop :=
  forall key iv b, len b mod 16 = 0 -> dec key iv (enc key iv b) = b /\ len (enc key iv b) = len b.
(** A zlib reader stops at the end of the stream and yields at most [n] bytes. *)
Definition zlib_inverts (deflate : bytes -> bytes) (inflate : bytes -> Z -> option bytes) : Prop :=
  forall p rest n, all_bytes p -> len p < n -> all_bytes (deflate p) /\ inflate (deflate p ++ rest) n = Some p.

Lemma byte_at_app_last (a b : bytes) : b <> [] -> byte_at (a ++ b) (len (a ++ b) - 1) = byte_at b (len b - 1).
Proof.
  intros Hb. assert (0 < len b) by (destruct b; [done|rewrite len_cons; pose proof (len_nonneg b); lia]).
  unfold byte_at. rewrite len_app. pose proof (len_nonneg a). unfold len in *.
  rewrite lookup_app_r by lia. do 2 f_equal. lia.
Qed.

Lemma byte_at_insert_last (l : bytes) n : 0 < n -> len l = n -> byte_at (<[Z.to_nat (n - 1) := n]> l) (n - 1) = n.
Proof. intros Hn Hl. unfold byte_at. rewrite list_lookup_insert_eq; [done|]. unfold len in Hl. lia. Qed.

Lemma header_byte r : is_byte r -> Z.land (Z.lor (Z.land r 252) 1) 3 = 1 /\ is_byte (Z.lor (Z.land r 252) 1).
Proof.
  intros Hr. assert (forallb (fun n => (Z.land (Z.lor (Z.land (Z.of_nat n) 252) 1) 3 =? 1) &&
    (0 <=? Z.lor (Z.land (Z.of_nat n) 252) 1) && (Z.lor (Z.land (Z.of_nat n) 252) 1 <? 256)) (seq 0 256) = true) as H
    by (vm_compute; reflexivity).
  apply forallb_Forall in H. rewrite Forall_forall in H. specialize (H (Z.to_nat r)).
  unfold is_byte in *. rewrite Z2Nat.id in H by lia.
  assert (Z.to_nat r ∈ seq 0 256) as Hin by (apply elem_of_seq; lia). specialize (H Hin). bool_prop. lia.
Qed.

Lemma slice_app_l {A} (a b : list A) : slice 0 (len a) (a ++ b) = a.
Proof. unfold slice, len. rewrite Z.sub_0_r, Nat2Z.id. simpl. rewrite drop_0. apply take_app_length. Qed.

Lemma slice_app_mid {A} x (a b : list A) :
  slice 1 (len (x :: a ++ b) - len b) (x :: a ++ b) = a.
Proof.
  unfold slice. rewrite len_cons, len_app. replace (1 + (len a + len b) - len b - 1) with (len a) by lia.
  change (Z.to_nat 1) with 1%nat. simpl. rewrite drop_0. unfold len. rewrite Nat2Z.id. apply take_app_length.
Qed.

Lemma slice_app_end {A} x (a b : list A) :
  slice (len (x :: a ++ b) - len b) (len (x :: a ++ b)) (x :: a ++ b) = b.
Proof.
  unfold slice. rewrite len_cons, len_app. replace (1 + (len a + len b) - len b) with (1 + len a) by lia.
  replace (1 + (len a + len b) - (1 + len a)) with (len b) by lia.
  replace (Z.to_nat (1 + len a)) with (S (length a)) by (unfold len; lia). simpl. rewrite drop_app_length.
  unfold len. rewrite Nat2Z.id. apply firstn_all.
Qed.

(** The zero padding of the plain text: 8 to 15 bytes, up to a multiple of 8. *)
Lemma sdk_zeros u : 0 <= u ->
  let z := 8 + Z.rem (8 - u mod 8) 8 in 8 <= z < 16 /\ (u + z) mod 8 = 0.
Proof.
  intros Hu z. pose proof (Z.mod_pos_bound u 8 ltac:(lia)) as Hm. unfold z. rewrite Z.rem_mod_nonneg by lia.
  pose proof (Z.mod_pos_bound (8 - u mod 8) 8 ltac:(lia)). split; [lia|].
  pose proof (Z.div_mod u 8 ltac:(lia)). pose proof (Z.div_mod (8 - u mod 8) 8 ltac:(lia)).
  replace (u + (8 + (8 - u mod 8) mod 8)) with ((u / 8 + 2 - (8 - u mod 8) / 8) * 8) by lia.
  by rewrite Z.mod_mul.
Qed.

(** The padding of the envelope: 1 to 16 bytes, up to a multiple of 16. *)
Lemma sdk_padding u : 1 <= 16 - u mod 16 <= 16 /\ (u + (16 - u mod 16)) mod 16 = 0.
Proof.
  pose proof (Z.mod_pos_bound u 16 ltac:(lia)). split; [lia|]. pose proof (Z.div_mod u 16 ltac:(lia)).
  replace (u + (16 - u mod 16)) with ((u / 16 + 1) * 16) by lia. by rewrite Z.mod_mul.
Qed.

Section RoundTrip.
Context (aes_enc aes_dec : bytes -> bytes -> bytes -> bytes).
Context (deflate : bytes -> bytes) (inflate : bytes -> Z -> option bytes).
Context (Haes : aes_inverts aes_enc aes_dec) (Hzlib : zlib_inverts deflate inflate).

(** The text [encryptSDKPayload] seals: header, length, compressed payload, zeros. *)
Definition sdk_plain (random : Z) (payload : bytes) : bytes :=
  let header := Z.lor (Z.land random 0xfc) 1 :: le_put 4 (len payload) in
  header ++ deflate payload ++
    replicate (Z.to_nat (8 + Z.rem (8 - (len header + len (deflate payload)) mod 8) 8)) 0.

Lemma aesCBC_ok key iv b : len b mod 16 = 0 -> len iv = 16 ->
  exists c, aesCBC aes_enc aes_dec b key iv false = Ok c /\ len c = len b /\ aesCBC aes_enc aes_dec c key iv true = Ok b.
Proof using Haes.
  intros Hb Hiv. unfold aesCBC. rewrite Hb, Hiv. destruct (Haes key iv b Hb) as [Hd Hl].
  eexists. split; [reflexivity|]. split; [done|]. rewrite Hl, Hb. simpl. by rewrite Hd.
Qed.

Lemma sdk_plain_ok random payload : is_byte random -> all_bytes payload ->
  all_bytes (sdk_plain random payload) /\ len (sdk_plain random payload) mod 8 = 0 /\ 13 <= len (sdk_plain random payload).
Proof using Hzlib.
  intros Hr Hp. destruct (header_byte random Hr) as [_ Hhb].
  assert (all_bytes (deflate payload)) as Hdb by (apply (Hzlib payload [] (len payload + 1)); [done|lia]).
  pose proof (len_nonneg (deflate payload)) as Hdn. unfold sdk_plain. set (header := _ :: le_put 4 _).
  assert (len header = 5) as Hlh by (unfold header; rewrite len_cons; unfold len; rewrite length_le_put; lia).
  destruct (sdk_zeros (len header + len (deflate payload)) ltac:(lia)) as [Hz Hm]. split.
  - apply Forall_app. split; [constructor; [done|apply le_put_bytes]|].
    apply Forall_app. split; [done|]. apply Forall_replicate. unfold is_byte. lia.
  - rewrite !len_app. set (z := 8 + _) in *.
    assert (len (replicate (Z.to_nat z) 0) = z) as -> by (unfold len; rewrite length_replicate; lia).
    rewrite Z.add_assoc. split; [exact Hm|lia].
Qed.

Lemma sdk_plain_read random payload : is_byte random -> all_bytes payload -> len payload <= maxSDKPayload ->
  Z.land (byte_at (sdk_plain random payload) 0) 3 = 1 /\
  word_le 4 (sdk_plain random payload) 1 = len payload /\
  inflate (drop 5 (sdk_plain random payload)) (len payload + 1) = Some payload.
Proof using Hzlib.
  intros Hr Hpb Hp. destruct (header_byte random Hr) as [Hh _]. unfold sdk_plain. split; [exact Hh|].
  assert (maxSDKPayload = 2 ^ 24) as Hmax by reflexivity. split.
  - unfold word_le. pose proof (len_nonneg payload). pose proof (length_le_put 4 (len payload)) as Hl.
    assert (le_get (le_put 4 (len payload)) = len payload) as He.
    { rewrite le_get_put, Z.mod_small; [done|]. change (2 ^ (8 * Z.of_nat 4)) with (2 ^ 32). lia. }
    revert Hl He. generalize (le_put 4 (len payload)). intros b Hl He. cbn [app].
    rewrite skipn_cons, drop_0, <- Hl, take_app_length. exact He.
  - pose proof (length_le_put 4 (len payload)) as Hl. revert Hl. generalize (le_put 4 (len payload)). intros b Hl.
    change 5%nat with (S 4). cbn [app]. rewrite skipn_cons, <- Hl, drop_app_length. apply Hzlib; [done|lia].
Qed.

(** The opened envelope: the checks pass and the inner bytes are recovered. *)
Lemma envelope_open (inner nonce pad : bytes) (n : Z) :
  let envelope := Z.lxor (byte_at inner 0) 3 :: inner ++ nonce in
  let p := envelope ++ pad in
  len nonce = 4 -> 13 <= len inner -> len inner mod 8 = 0 -> 1 <= n <= 16 -> len pad = n -> byte_at pad (n - 1) = n ->
  byte_at p (len p - 1) = n /\ slice 0 (len p - n) p = envelope /\ 13 <= len envelope /\ len envelope mod 8 = 5 /\
  byte_at envelope 0 = Z.lxor (byte_at envelope 1) 3 /\
  slice 1 (len envelope - 4) envelope = inner /\ slice (len envelope - 4) (len envelope) envelope = nonce.
Proof.
  intros envelope p Hno Hin Hmod Hn Hp Hpn.
  assert (len envelope = 5 + len inner) as Hle by (unfold envelope; rewrite len_cons, len_app; lia).
  split; [|split; [|split; [lia|split; [|split; [|split]]]]].
  - unfold p. rewrite byte_at_app_last; [by rewrite Hp|]. intros ->. rewrite len_nil in Hp. lia.
  - unfold p. rewrite len_app, Hp. replace (len envelope + n - n) with (len envelope) by lia. apply slice_app_l.
  - rewrite Hle, Z.add_mod, Hmod by lia. done.
  - unfold envelope, byte_at. simpl. destruct inner; [rewrite len_nil in Hin; lia|done].
  - rewrite <- Hno at 1. apply slice_app_mid.
  - rewrite <- Hno at 1. apply slice_app_end.
Qed.

(** What [decryptSDKPayload] makes of a well-formed sealed text. *)
Lemma sdk_open random payload nonce inner sealed p n :
  is_byte random -> all_bytes payload -> len payload <= maxSDKPayload -> len inner mod 8 = 0 -> 13 <= len inner ->
  len nonce = 4 -> 1 <= n <= 16 ->
  let envelope := Z.lxor (byte_at inner 0) 3 :: inner ++ nonce in
  forall pad, p = envelope ++ pad -> len pad = n -> byte_at pad (n - 1) = n ->
  xteaCBC inner sdkXTEAKey (nonce ++ sdkIVTail) true = Ok (sdk_plain random payload) ->
  len sealed mod 16 = 0 -> 0 < len sealed <= maxSDKPayload ->
  aesCBC aes_enc aes_dec sealed sdkAESKey sdkAESIV true = Ok p ->
  decryptSDKPayload aes_enc aes_dec inflate sealed = Ok payload.
Proof using Hzlib.
  intros Hr Hpb Hp Hmod Hin Hno Hn envelope pad -> Hlp Hpn Edec Hs16 Hsl Ed.
  destruct (envelope_open inner nonce pad n) as (F1 & F2 & F3 & F4 & F5 & F6 & F7); try done.
  fold envelope in F1, F2, F3, F4, F5, F6, F7.
  destruct (sdk_plain_ok random payload Hr Hpb) as (_ & _ & Hp13).
  destruct (sdk_plain_read random payload Hr Hpb Hp) as (G1 & G2 & G3). set (plain := sdk_plain random payload) in *.
  unfold decryptSDKPayload. rewrite Hs16.
  destruct (Z.eqb_spec (len sealed) 0); [lia|]. destruct (Z.leb_spec (len sealed) maxSDKPayload); [|lia].
  cbn [negb andb Z.eqb]. rewrite Ed. cbn [rbind]. rewrite F1, F2, F4, F6, F7. rewrite F5 at 1.
  destruct (Z.leb_spec 1 n); [|lia]. destruct (Z.leb_spec n 16); [|lia]. destruct (Z.leb_spec 13 (len envelope)); [|lia].
  rewrite Z.eqb_refl. cbn [andb Z.eqb Pos.eqb]. rewrite Edec. cbn [rbind]. rewrite G1. cbn [Z.eqb Pos.eqb].
  destruct (Z.ltb_spec (len plain) (1 + 4)); [lia|]. cbn [negb].
  change (Z.to_nat 1) with 1%nat. change (Z.to_nat (1 + 4)) with 5%nat. rewrite G2.
  destruct (Z.leb_spec (len payload) maxSDKPayload); [|lia]. rewrite G3. by rewrite !Z.eqb_refl.
Qed.

(** The SDK envelope opens what it seals: every payload of at most 16 MiB is
    sealed with any 4-byte nonce, any random header byte and any padding, and
    whenever the sealed form is itself at most 16 MiB, [decryptSDKPayload]
    returns exactly the payload. *)
Theorem sdk_payload_roundtrip random fill payload nonce :
  is_byte random -> (forall n, 0 <= n -> len (fill n) = n) -> all_bytes payload ->
  len payload <= maxSDKPayload -> len nonce = 4 -> all_bytes nonce ->
  exists sealed, encryptSDKPayload aes_enc aes_dec deflate random fill payload nonce = Ok sealed /\
    (len sealed <= maxSDKPayload -> decryptSDKPayload aes_enc aes_dec inflate sealed = Ok payload).
Proof using Haes Hzlib.
  intros Hr Hfill Hpb Hp Hno Hnob. destruct (sdk_plain_ok random payload Hr Hpb) as (Hplb & Hpm & Hp13).
  unfold encryptSDKPayload. destruct (Z.leb_spec (len payload) maxSDKPayload); [|lia]. rewrite Hno. cbn [Z.eqb andb Pos.eqb].
  fold (sdk_plain random payload). assert (all_bytes (nonce ++ sdkIVTail)) as Hivb.
  { apply Forall_app. split; [done|]. replace sdkIVTail with [39; 4; 32; 32] by reflexivity. repeat constructor; unfold is_byte; lia. }
  destruct (xteaCBC_inverse (sdk_plain random payload) sdkXTEAKey (nonce ++ sdkIVTail)) as (inner & Ein & Hil & _ & Edec);
    [done|done|done|reflexivity|rewrite len_app, Hno; reflexivity|].
  rewrite Ein. cbn [rbind]. set (envelope := Z.lxor (byte_at inner 0) 3 :: inner ++ nonce).
  destruct (sdk_padding (len envelope)) as [Hn Hn16]. set (n := 16 - len envelope mod 16) in *.
  set (pad := <[Z.to_nat (n - 1):=n]> (fill n)).
  assert (len inner = len (sdk_plain random payload)) as Hli by (unfold len; by rewrite Hil).
  assert (len pad = n) as Hlp by (unfold pad, len; rewrite length_insert; apply Hfill; lia).
  destruct (aesCBC_ok sdkAESKey sdkAESIV (envelope ++ pad)) as (sealed & Es & Hls & Ed); [|reflexivity|].
  { by rewrite len_app, Hlp. }
  exists sealed. split; [exact Es|]. intros Hsl. pose proof (len_nonneg envelope).
  apply (sdk_open random payload nonce inner sealed (envelope ++ pad) n) with (pad := pad); try done; try lia.
  - by rewrite Hli.
  - apply byte_at_insert_last; [lia|apply Hfill; lia].
  - by rewrite Hls, len_app, Hlp.
  - split; [rewrite Hls, len_app, Hlp; lia|done].
Qed.
End RoundTrip.

(** Functions with the documented behaviour: a cipher that changes nothing and a
    code that marks every byte with a 1 and the end with a 0. *)
Definition id_aes (_ _ b : bytes) : bytes := b.
Fixpoint marked_deflate (p : bytes) : bytes :=
  match p with [] => [0] | b :: p => 1 :: b :: marked_deflate p end.
Fixpoint marked_inflate (s : bytes) : option bytes :=
  match s with
  | 1 :: b :: s => cons b <$> marked_inflate s
  | 0 :: _ => Some []
  | _ => None
  end.

Lemma id_aes_inverts : aes_inverts id_aes id_aes.
Proof. done. Qed.

Lemma marked_inverts : zlib_inverts marked_deflate (fun s _ => marked_inflate s).
Proof.
  intros p rest n Hp _. induction Hp as [|b p Hb _ [IH1 IH2]].
  - split; [repeat constructor; unfold is_byte; lia|done].
  - split; [apply Forall_cons_2; [unfold is_byte; lia|by apply Forall_cons_2]|]. simpl. by rewrite IH2.
Qed.

Lemma sdk_payload_roundtrip_witness :
  exists sealed, encryptSDKPayload id_aes id_aes marked_deflate 7 (fun n => replicate (Z.to_nat n) 9) [8; 2; 18] [1; 0; 0; 0] = Ok sealed /\
    (len sealed <= maxSDKPayload -> decryptSDKPayload id_aes id_aes (fun s _ => marked_inflate s) sealed = Ok [8; 2; 18]).
Proof.
  apply (sdk_payload_roundtrip _ _ _ _ id_aes_inverts marked_inverts).
  - unfold is_byte; lia.
  - intros n Hn. unfold len. rewrite length_replicate. lia.
  - repeat constructor; unfold is_byte; lia.
  - vm_compute; discriminate.
  - reflexivity.
  - repeat constructor; unfold is_byte; lia.
Defined.
