(* ===== verification/Media.v ===== *)
(** * media: image headers, containers and pixels

    Models src/internal/media/images.go and src/internal/media/animation.go:
    the detection of image types, file names for a type, the box walk that
    reads the size of a HEIF image ([heifSize], [associations], [ipmaEntry],
    [findBox], [boxAt]), the memory admission of an image ([reserve]), JPEG
    and PNG header walks, the first frame of an animated WebP, the rotation of
    an oriented photo and the flattening of transparency.

    A file is its bytes; a seekable file is its bytes with a position.  Loops
    over boxes take fuel: a box is at least 8 bytes long, so the length of the
    range is enough ([heif_walks_end]: more fuel changes no result).
    The preparation of an image is Images. *)
From S2P Require Import Prelude Strconv.

Definition maxPixels : Z := 100000000.

(** [ReadAt] of a slice of [n] bytes: all of them, or an error. *)
Definition read_at (data : bytes) (off n : Z) : option bytes :=
  if (0 <=? off) && (off + n <=? len data) then Some (slice off (off + n) data) else None.

(** ** Types and names *)

Definition ascii_at (l : bytes) (i j : Z) (s : string) : bool := bytes_eqb (slice i j l) (bytes_of_string s).

Definition heif_brand (brand : bytes) : string :=
  let is_one_of l := existsb (fun s => bytes_eqb brand (bytes_of_string s)) l in
  if is_one_of ["avif"; "avis"]%string then "image/avif"
  else if is_one_of ["heic"; "heix"; "hevc"; "hevx"; "heim"; "heis"]%string then "image/heic"
  else if is_one_of ["mif1"; "msf1"]%string then "image/heif"
  else "".

Definition DetectImageType (prefix : bytes) : string :=
  if has_prefix prefix [0xff; 0xd8; 0xff] then "image/jpeg"
  else if has_prefix prefix [0x89; 0x50; 0x4e; 0x47; 0x0d; 0x0a; 0x1a; 0x0a] then "image/png"
  else if (12 <=? len prefix) && ascii_at prefix 0 4 "RIFF" && ascii_at prefix 8 12 "WEBP" then "image/webp"
  else if has_prefix prefix (bytes_of_string "GIF87a") || has_prefix prefix (bytes_of_string "GIF89a") then "image/gif"
  else if has_prefix prefix [0x49; 0x49; 0x2a; 0] || has_prefix prefix [0x4d; 0x4d; 0; 0x2a] then "image/tiff"
  else if has_prefix prefix (bytes_of_string "BM") then "image/bmp"
  else if (12 <=? len prefix) && ascii_at prefix 4 8 "ftyp" then heif_brand (slice 8 12 prefix)
  else "".

Definition extensions (kind : string) : string :=
  match kind with
  | "image/jpeg" => ".jpg" | "image/png" => ".png" | "image/webp" => ".webp" | "image/gif" => ".gif"
  | "image/heic" => ".heic" | "image/heif" => ".heif" | "image/avif" => ".avif" | "image/bmp" => ".bmp"
  | "image/tiff" => ".tiff" | "video/mp4" => ".mp4" | "audio/mpeg" => ".mp3" | "audio/mp4" => ".m4a"
  | "audio/ogg" => ".ogg" | _ => ""
  end%string.

(** [strings.TrimSuffix(name, filepath.Ext(name))]: the reversed name is cut at
    its first dot, unless a slash comes first. *)
Fixpoint cut_ext (rev : list ascii) : option (list ascii) :=
  match rev with
  | [] => None
  | a :: rest => if Ascii.eqb a "/" then None else if Ascii.eqb a "." then Some rest else cut_ext rest
  end.

Definition trim_ext (name : string) : string :=
  match cut_ext (reverse (String.list_ascii_of_string name)) with
  | Some rest => String.string_of_list_ascii (reverse rest)
  | None => name
  end.

Definition FilenameForType (name contentType : string) : string :=
  let '(kind, _, _) := cut_byte ";" contentType in
  let ext := extensions kind in
  if String.eqb ext "" then name else trim_ext name +:+ ext.

(** ** Admission of an image

    [reserve] multiplies as [int64] does; the result is the number of bytes it
    asks the memory semaphore for, or the refusal.  [cost] is the estimate the
    caller gives it. *)
Definition reserve_pixels (budget width height : Z) (cost : Z -> Z) : option Z :=
  let pixels := i64 (width * height) in
  if (width <=? 0) || (height <=? 0) || (maxPixels <? pixels) then None
  else Some (Z.min (cost pixels) budget).

(** ** ISO media boxes *)

Definition boxAt (data : bytes) (start end_ : Z) : option (bytes * Z * Z) :=
  if end_ - start <? 8 then None
  else
    match read_at data start 8 with
    | None => None
    | Some b =>
        let length := be_get (slice 0 4 b) in
        let body := start + 8 in
        let found :=
          if length =? 0 then Some (end_ - start, body)
          else if length =? 1 then
            match read_at data body 8 with
            | Some b8 => Some (i64 (be_get b8), body + 8)
            | None => None
            end
          else Some (length, body) in
        match found with
        | None => None
        | Some (length, body) =>
            if (length <? body - start) || (end_ - start <? length) then None
            else Some (slice 4 8 b, body, start + length)
        end
    end.

Fixpoint find_box (fuel : nat) (data : bytes) (start end_ : Z) (want : bytes) : option (Z * Z) :=
  match fuel with
  | O => None
  | S fuel =>
      if start <? end_ then
        match boxAt data start end_ with
        | None => None
        | Some (kind, body, next) =>
            if bytes_eqb kind want then Some (body, next) else find_box fuel data next end_ want
        end
      else None
  end.

Definition range_fuel (start end_ : Z) : nat := S (Z.to_nat (end_ - start)).

Definition findBox (data : bytes) (start end_ : Z) (want : bytes) : option (Z * Z) :=
  find_box (range_fuel start end_) data start end_ want.

Definition readBody (data : bytes) (body end_ n : Z) : option bytes :=
  if end_ - body <? n then None else read_at data body n.

Inductive heifErr := DimensionsMissing | PropertiesMissing | PrimaryMissing | ReadError.

(** The entries of an ipma box, over the bytes that follow its header. *)
Fixpoint ipma_entries (fuel : nat) (count : Z) (wide : bool) (idSize : Z) (item : Z) (rest : bytes) :
    res heifErr (option (list Z)) :=
  if count <=? 0 then Ok None
  else
    match fuel with
    | O => Err ReadError
    | S fuel =>
        if len rest <? idSize + 1 then Err ReadError
        else
          let b := slice 0 (idSize + 1) rest in
          let id := be_get (slice 0 idSize b) in
          let n := byte_at b idSize in
          let width := if wide then 2 else 1 in
          let rest := drop (Z.to_nat (idSize + 1)) rest in
          if len rest <? n * width then Err ReadError
          else
            let entry := slice 0 (n * width) rest in
            let rest := drop (Z.to_nat (n * width)) rest in
            if negb (id =? item) then ipma_entries fuel (count - 1) wide idSize item rest
            else
              Ok (Some ((fun i => let i := Z.of_nat i in
                           if wide then Z.land (be_get (slice (2 * i) (2 * i + 2) entry)) 0x7fff
                           else Z.land (byte_at entry i) 0x7f) <$> seq 0 (Z.to_nat n)))
    end.

Definition ipmaEntry (data : bytes) (ipma ipmaEnd item : Z) : res heifErr (option (list Z)) :=
  let section := slice ipma ipmaEnd data in
  if len section <? 8 then Err ReadError
  else
    let version := byte_at section 0 in
    let wide := negb (Z.land (byte_at section 3) 1 =? 0) in
    ipma_entries (length section) (be_get (slice 4 8 section)) wide (2 + 2 * Z.min version 1) item (drop 8 section).

Fixpoint associations_loop (fuel : nat) (data : bytes) (start end_ item : Z) (found : bool) : res heifErr (list Z) :=
  let none := Err (if found then PrimaryMissing else PropertiesMissing) in
  match fuel with
  | O => none
  | S fuel =>
      if start <? end_ then
        match boxAt data start end_ with
        | None => none
        | Some (kind, body, next) =>
            if bytes_eqb kind (bytes_of_string "ipma") then
              match ipmaEntry data body next item with
              | Err e => Err e
              | Ok (Some indexes) => Ok indexes
              | Ok None => associations_loop fuel data next end_ item true
              end
            else associations_loop fuel data next end_ item found
        end
      else none
  end.

Definition associations (data : bytes) (start end_ item : Z) : res heifErr (list Z) :=
  associations_loop (range_fuel start end_) data start end_ item false.

(** The children of the meta box: the primary item and the iprp range. *)
Fixpoint meta_loop (fuel : nat) (data : bytes) (start end_ primary iprp iprpEnd : Z) : res heifErr (Z * Z * Z) :=
  match fuel with
  | O => Err DimensionsMissing
  | S fuel =>
      if start <? end_ then
        match boxAt data start end_ with
        | None => Err DimensionsMissing
        | Some (kind, body, next) =>
            if bytes_eqb kind (bytes_of_string "pitm") then
              match readBody data body next 6 with
              | None => Err DimensionsMissing
              | Some b =>
                  if byte_at b 0 =? 0 then meta_loop fuel data next end_ (be_get (slice 4 6 b)) iprp iprpEnd
                  else
                    match readBody data body next 8 with
                    | None => Err DimensionsMissing
                    | Some b => meta_loop fuel data next end_ (be_get (slice 4 8 b)) iprp iprpEnd
                    end
              end
            else if bytes_eqb kind (bytes_of_string "iprp") then meta_loop fuel data next end_ primary body next
            else meta_loop fuel data next end_ primary iprp iprpEnd
        end
      else Ok (primary, iprp, iprpEnd)
  end.

(** The first ispe property among the item's. *)
Fixpoint ispe_loop (fuel : nat) (data : bytes) (i start end_ : Z) (indexes : list Z) : res heifErr (Z * Z) :=
  match fuel with
  | O => Err DimensionsMissing
  | S fuel =>
      if start <? end_ then
        match boxAt data start end_ with
        | None => Err DimensionsMissing
        | Some (kind, body, next) =>
            if bytes_eqb kind (bytes_of_string "ispe") && existsb (Z.eqb i) indexes then
              match readBody data body next 12 with
              | None => Err DimensionsMissing
              | Some b => Ok (be_get (slice 4 8 b), be_get (slice 8 12 b))
              end
            else ispe_loop fuel data (i + 1) next end_ indexes
        end
      else Err DimensionsMissing
  end.

Definition heifSize (data : bytes) : res heifErr (Z * Z) :=
  match findBox data 0 (len data) (bytes_of_string "meta") with
  | None => Err DimensionsMissing
  | Some (meta, metaEnd) =>
      let? (primary, iprp, iprpEnd) := meta_loop (range_fuel (meta + 4) metaEnd) data (meta + 4) metaEnd 0 0 0 in
      match findBox data iprp iprpEnd (bytes_of_string "ipco") with
      | None => Err DimensionsMissing
      | Some (ipco, ipcoEnd) =>
          let? indexes := associations data iprp iprpEnd primary in
          ispe_loop (range_fuel ipco ipcoEnd) data 1 ipco ipcoEnd indexes
      end
  end.

(** ** JPEG and PNG headers

    [pos] is the position of the file; [read_full] is [io.ReadFull] there. *)
Definition read_full (data : bytes) (pos n : Z) : option bytes := read_at data pos n.

Fixpoint progressive_loop (count : nat) (data : bytes) (pos : Z) : bool :=
  match count with
  | O => true
  | S count =>
      match read_full data pos 4 with
      | None => true
      | Some marker =>
          if negb (byte_at marker 0 =? 0xff) then true
          else
            let m := byte_at marker 1 in
            if (m =? 0xc0) || (m =? 0xc1) then false
            else if (m =? 0xc2) || (m =? 0xda) || (m =? 0xd9) then true
            else progressive_loop count data (pos + 4 + be_get (slice 2 4 marker) - 2)
      end
  end.

Definition progressiveJPEG (data : bytes) : bool := progressive_loop 128 data 2.

(** The IFD entries of an Exif block; [get] reads in the block's byte order. *)
Fixpoint exif_entries (n : nat) (i : Z) (get : bytes -> Z) (data : bytes) (offset : Z) : option Z :=
  match n with
  | O => None
  | S n =>
      let start := offset + 2 + i * 12 in
      if len data <? start + 12 then None
      else if (get (slice start (start + 2) data) =? 0x112) && (get (slice (start + 2) (start + 4) data) =? 3)
      then Some (get (slice (start + 8) (start + 10) data))
      else exif_entries n (i + 1) get data offset
  end.

(** [Some o] ends [readOrientation] with [o]; [None] continues with the next
    marker. *)
Definition exif_orientation (segment : bytes) : option Z :=
  if (len segment <? 14) || negb (bytes_eqb (slice 0 6 segment) (bytes_of_string "Exif" ++ [0; 0])) then None
  else
    let data := drop 6 segment in
    let order :=
      if ascii_at data 0 2 "MM" then Some be_get else if ascii_at data 0 2 "II" then Some le_get else None in
    match order with
    | None => Some 1
    | Some get =>
        let offset := get (slice 4 8 data) in
        if len data <? offset + 2 then Some 1
        else exif_entries (Z.to_nat (get (slice offset (offset + 2) data))) 0 get data offset
    end.

Fixpoint orientation_loop (count : nat) (data : bytes) (pos : Z) : Z :=
  match count with
  | O => 1
  | S count =>
      match read_full data pos 4 with
      | None => 1
      | Some marker =>
          if negb (byte_at marker 0 =? 0xff) then 1
          else
            let m := byte_at marker 1 in
            if (m =? 0xda) || (m =? 0xd9) then 1
            else
              let length := be_get (slice 2 4 marker) - 2 in
              if length <? 0 then 1
              else if negb (m =? 0xe1) then orientation_loop count data (pos + 4 + length)
              else
                match read_full data (pos + 4) length with
                | None => 1
                | Some segment =>
                    match exif_orientation segment with
                    | Some o => o
                    | None => orientation_loop count data (pos + 4 + length)
                    end
                end
      end
  end.

Definition readOrientation (data : bytes) (kind : string) : Z :=
  if negb (String.eqb kind "image/jpeg") then 1 else orientation_loop 128 data 2.

Fixpoint png_loop (count : nat) (data : bytes) (pos : Z) : bool :=
  match count with
  | O => false
  | S count =>
      match read_full data pos 8 with
      | None => false
      | Some header =>
          if ascii_at header 4 8 "acTL" then true
          else if ascii_at header 4 8 "IDAT" || ascii_at header 4 8 "IEND" then false
          else png_loop count data (pos + 8 + be_get (slice 0 4 header) + 4)
      end
  end.

Definition animatedPNG (data : bytes) : bool := png_loop 1024 data 8.

(** ** Animated WebP *)

Definition little24 (l : bytes) : Z := Z.lor (byte_at l 0) (Z.lor (Z.shiftl (byte_at l 1) 8) (Z.shiftl (byte_at l 2) 16)).
Definition putLittle24 (value : Z) : bytes := [u8 value; u8 (Z.shiftr value 8); u8 (Z.shiftr value 16)].

Inductive webpErr := TruncatedCanvas | ReadFailed | TruncatedChunk | TruncatedAnimation | TruncatedFrame
  | ExceedsCanvas | DimensionsMismatch | NoFrame | DecodeFailed.

Definition webPCanvas (prefix : bytes) : res webpErr (Z * Z) :=
  if len prefix <? 30 then Err TruncatedCanvas
  else Ok (little24 (slice 24 27 prefix) + 1, little24 (slice 27 30 prefix) + 1).

(** The first frame: where it goes on the canvas, the file made of it for the
    ordinary decoder, whether it replaces the background, and the background. *)
Record webpFrame := mkFrame {
  wf_x : Z; wf_y : Z; wf_w : Z; wf_h : Z; wf_file : bytes; wf_replace : bool; wf_background : Z * Z * Z * Z }.

Definition frame_header (length fw fh : Z) (alpha : bool) : bytes :=
  bytes_of_string "RIFF" ++ le_put 4 (u32 (22 + length - 16)) ++ bytes_of_string "WEBPVP8X" ++ le_put 4 10 ++
  [if alpha then 0x10 else 0; 0; 0; 0] ++ putLittle24 (fw - 1) ++ putLittle24 (fh - 1).

Section FirstFrame.
(** [image.DecodeConfig] of a still WebP file: its dimensions. *)
Context (decodeConfig : bytes -> option (Z * Z)).

Definition anmf_frame (data : bytes) (start length w h : Z) (background : Z * Z * Z * Z) : res webpErr webpFrame :=
  guard? negb (length <? 24) else TruncatedFrame in
  match read_full data start 20 with
  | None => Err ReadFailed
  | Some frame =>
      let x := 2 * little24 (slice 0 3 frame) in
      let y := 2 * little24 (slice 3 6 frame) in
      let fw := little24 (slice 6 9 frame) + 1 in
      let fh := little24 (slice 9 12 frame) + 1 in
      guard? negb ((w <? x + fw) || (h <? y + fh)) else ExceedsCanvas in
      let header := frame_header length fw fh (ascii_at frame 16 20 "ALPH") in
      let file := header ++ slice (start + 16) (start + 16 + (length - 16)) data in
      match decodeConfig file with
      | None => Err DecodeFailed
      | Some (cw, ch) =>
          guard? (cw =? fw) && (ch =? fh) else DimensionsMismatch in
          Ok (mkFrame x y fw fh file (negb (Z.land (byte_at frame 15) 2 =? 0)) background)
      end
  end.

Fixpoint webp_loop (count : nat) (data : bytes) (pos w h : Z) (background : Z * Z * Z * Z) : res webpErr webpFrame :=
  match count with
  | O => Err NoFrame
  | S count =>
      match read_full data pos 8 with
      | None => Err ReadFailed
      | Some chunk =>
          let length := le_get (slice 4 8 chunk) in
          let start := pos + 8 in
          if len data <? start + length then Err TruncatedChunk
          else
            let next := start + length + Z.land length 1 in
            if ascii_at chunk 0 4 "ANIM" then
              if length <? 6 then Err TruncatedAnimation
              else
                match read_full data start 6 with
                | None => Err ReadFailed
                | Some d => webp_loop count data next w h (byte_at d 2, byte_at d 1, byte_at d 0, byte_at d 3)
                end
            else if ascii_at chunk 0 4 "ANMF" then anmf_frame data start length w h background
            else webp_loop count data next w h background
      end
  end.

Definition firstWebPFrame (data : bytes) (w h : Z) : res webpErr webpFrame :=
  webp_loop 1024 data 12 w h (0, 0, 0, 0).
End FirstFrame.

(** ** Pixels *)

Definition orient_xy (orientation w h x y : Z) : Z * Z :=
  if orientation =? 2 then (w - 1 - x, y)
  else if orientation =? 3 then (w - 1 - x, h - 1 - y)
  else if orientation =? 4 then (x, h - 1 - y)
  else if orientation =? 5 then (y, x)
  else if orientation =? 6 then (h - 1 - y, x)
  else if orientation =? 7 then (h - 1 - y, w - 1 - x)
  else if orientation =? 8 then (y, w - 1 - x)
  else (x, y).

(** The coordinates in the order of the two nested loops. *)
Definition coordinates (w h : Z) : list (Z * Z) :=
  y ← Z.of_nat <$> seq 0 (Z.to_nat h); (fun x => (Z.of_nat x, y)) <$> seq 0 (Z.to_nat w).

Section Orient.
Context {Pixel : Type} (blank : Pixel).

(** Images as their pixels in rows. *)
Definition pixel_at (w : Z) (pix : list Pixel) (x y : Z) : Pixel := default blank (pix !! Z.to_nat (y * w + x)).

Definition orient (w h : Z) (pix : list Pixel) (orientation : Z) : Z * Z * list Pixel :=
  if (orientation <? 2) || (8 <? orientation) then (w, h, pix)
  else
    let '(ow, oh) := if 5 <=? orientation then (h, w) else (w, h) in
    (ow, oh,
     fold_left (fun out '(x, y) =>
       let '(dx, dy) := orient_xy orientation w h x y in
       <[Z.to_nat (dy * ow + dx) := pixel_at w pix x y]> out)
       (coordinates w h) (replicate (Z.to_nat (ow * oh)) blank)).
End Orient.

(** One pixel of [preparePixels]: flattened onto white.  [straight] is the NRGBA
    case; arithmetic is in 32 bits. *)
Definition flatten_pixel (straight : bool) (p : Z * Z * Z * Z) : Z * Z * Z * Z :=
  let '(r, g, b, alpha) := p in
  if alpha =? 255 then p
  else if straight then
    let a := u32 (alpha * 0x101) in
    let white := u32 (0xffff - a) in
    let f c := u8 (Z.shiftr (u32 (u32 (c * a) / 0xff + white)) 8) in
    (f r, f g, f b, 255)
  else
    let white := u32 ((255 - alpha) * 0x101) in
    let f c := u8 (Z.shiftr (u32 (u32 (c * 0x101) + white)) 8) in
    (f r, f g, f b, 255).

(** The in-place pass over an image whose rows need no scaling. *)
Definition flatten (straight : bool) (pix : list (Z * Z * Z * Z)) : list (Z * Z * Z * Z) := flatten_pixel straight <$> pix.

(** ** Properties of the box walk *)

Lemma read_at_len data off n b : 0 <= n -> read_at data off n = Some b -> len b = n /\ 0 <= off /\ off + n <= len data.
Proof.
  unfold read_at. intros Hn. destruct (_ && _) eqn:E; [|done]. bool_prop. intros [= <-].
  rewrite len_slice by lia. lia.
Qed.

(** A box lies inside the range it was read from and is at least 8 bytes long. *)
Lemma boxAt_inside data start end_ kind body next :
  boxAt data start end_ = Some (kind, body, next) -> start + 8 <= body <= next /\ next <= end_.
Proof.
  unfold boxAt. intros H. destruct (end_ - start <? 8) eqn:E; [done|].
  destruct (read_at data start 8) as [b|]; [|done].
  destruct (be_get (slice 0 4 b) =? 0).
  - destruct (_ || _) eqn:Eo in H; [done|]. bool_prop. injection H as _ <- <-. lia.
  - destruct (be_get (slice 0 4 b) =? 1).
    + destruct (read_at data (start + 8) 8) as [b8|]; [|done].
      destruct (_ || _) eqn:Eo in H; [done|]. bool_prop. injection H as _ <- <-. lia.
    + destruct (_ || _) eqn:Eo in H; [done|]. bool_prop. injection H as _ <- <-. lia.
Qed.

Lemma find_box_fuel f1 f2 data start end_ want :
  (Z.to_nat (end_ - start) < f1)%nat -> (Z.to_nat (end_ - start) < f2)%nat ->
  find_box f1 data start end_ want = find_box f2 data start end_ want.
Proof.
  revert f2 start. induction f1 as [|f1 IH]; intros f2 start H1 H2; [lia|]. destruct f2 as [|f2]; [lia|].
  simpl. destruct (Z.ltb_spec start end_); [|done].
  destruct (boxAt data start end_) as [[[kind body] next]|] eqn:E; [|done]. apply boxAt_inside in E.
  destruct (bytes_eqb kind want); [done|]. apply IH; lia.
Qed.

Lemma associations_fuel f1 f2 data start end_ item found :
  (Z.to_nat (end_ - start) < f1)%nat -> (Z.to_nat (end_ - start) < f2)%nat ->
  associations_loop f1 data start end_ item found = associations_loop f2 data start end_ item found.
Proof.
  revert f2 start found. induction f1 as [|f1 IH]; intros f2 start found H1 H2; [lia|]. destruct f2 as [|f2]; [lia|].
  simpl. destruct (Z.ltb_spec start end_); [|done].
  destruct (boxAt data start end_) as [[[kind body] next]|] eqn:E; [|done]. apply boxAt_inside in E.
  destruct (bytes_eqb kind _); [|apply IH; lia]. destruct (ipmaEntry data body next item) as [[|]|]; [done| |done].
  apply IH; lia.
Qed.

Lemma meta_loop_fuel f1 f2 data start end_ p i j :
  (Z.to_nat (end_ - start) < f1)%nat -> (Z.to_nat (end_ - start) < f2)%nat ->
  meta_loop f1 data start end_ p i j = meta_loop f2 data start end_ p i j.
Proof.
  revert f2 start p i j. induction f1 as [|f1 IH]; intros f2 start p i j H1 H2; [lia|]. destruct f2 as [|f2]; [lia|].
  cbn [meta_loop]. destruct (Z.ltb_spec start end_); [|done].
  destruct (boxAt data start end_) as [[[kind body] next]|] eqn:E; [|done]. apply boxAt_inside in E.
  assert (forall p i j, meta_loop f1 data next end_ p i j = meta_loop f2 data next end_ p i j) as Hn by (intros; apply IH; lia).
  destruct (bytes_eqb kind (bytes_of_string "pitm")).
  - destruct (readBody data body next 6) as [b|]; [|done]. destruct (byte_at b 0 =? 0); [apply Hn|].
    destruct (readBody data body next 8) as [b'|]; [apply Hn|done].
  - destruct (bytes_eqb kind (bytes_of_string "iprp")); apply Hn.
Qed.

Lemma ispe_loop_fuel f1 f2 data i start end_ indexes :
  (Z.to_nat (end_ - start) < f1)%nat -> (Z.to_nat (end_ - start) < f2)%nat ->
  ispe_loop f1 data i start end_ indexes = ispe_loop f2 data i start end_ indexes.
Proof.
  revert f2 i start. induction f1 as [|f1 IH]; intros f2 i start H1 H2; [lia|]. destruct f2 as [|f2]; [lia|].
  simpl. destruct (Z.ltb_spec start end_); [|done].
  destruct (boxAt data start end_) as [[[kind body] next]|] eqn:E; [|done]. apply boxAt_inside in E.
  destruct (_ && _); [done|]. apply IH; lia.
Qed.

(** Every entry of an ipma box consumes at least three bytes. *)
Lemma ipma_entries_fuel f1 f2 count wide idSize item rest : 0 <= idSize ->
  (length rest < f1)%nat -> (length rest < f2)%nat ->
  ipma_entries f1 count wide idSize item rest = ipma_entries f2 count wide idSize item rest.
Proof.
  intros Hid. revert f2 count rest. induction f1 as [|f1 IH]; intros f2 count rest H1 H2; [lia|]. destruct f2 as [|f2]; [lia|].
  cbn [ipma_entries]. destruct (count <=? 0); [done|]. destruct (Z.ltb_spec (len rest) (idSize + 1)); [done|].
  cbv zeta. destruct (len (drop (Z.to_nat (idSize + 1)) rest) <? _); [done|].
  destruct (negb _); [|done]. unfold len in *. apply IH; rewrite !length_drop; lia.
Qed.

(** The walks over HEIF boxes end on every file, however its lengths are
    forged: with any fuel above the length of the range the loops return the
    same result, so [findBox], [associations] and the loops of [heifSize] and
    [ipmaEntry] return what the unbounded loops of the code return. *)
Theorem heif_walks_end (data : bytes) (start end_ item i p j k : Z) (want : bytes) (indexes : list Z) (fuel : nat) :
  (Z.to_nat (end_ - start) < fuel)%nat ->
  findBox data start end_ want = find_box fuel data start end_ want /\
  associations data start end_ item = associations_loop fuel data start end_ item false /\
  meta_loop (range_fuel start end_) data start end_ p j k = meta_loop fuel data start end_ p j k /\
  ispe_loop (range_fuel start end_) data i start end_ indexes = ispe_loop fuel data i start end_ indexes /\
  (forall kind body next, boxAt data start end_ = Some (kind, body, next) -> start + 8 <= body <= next /\ next <= end_).
Proof.
  intros Hf. unfold findBox, associations, range_fuel. split; [|split; [|split; [|split]]].
  - apply find_box_fuel; lia.
  - apply associations_fuel; lia.
  - apply meta_loop_fuel; lia.
  - apply ispe_loop_fuel; lia.
  - apply boxAt_inside.
Qed.

(** A 40-byte HEIF-like file: an ftyp box and a box of the rest of the file. *)
Definition two_boxes : bytes :=
  be_put 4 12 ++ bytes_of_string "ftyp" ++ bytes_of_string "heic" ++ be_put 4 0 ++ bytes_of_string "meta" ++ replicate 20 7.

Lemma heif_walks_end_witness :
  findBox two_boxes 0 40 (bytes_of_string "meta") = Some (20, 40) /\
  findBox two_boxes 0 40 (bytes_of_string "meta") = find_box 100 two_boxes 0 40 (bytes_of_string "meta").
Proof.
  split; [vm_compute; reflexivity|].
  apply (heif_walks_end two_boxes 0 40 0 0 0 0 0 (bytes_of_string "meta") [] 100). apply Nat.ltb_lt. reflexivity.
Defined.

(** ** Admission *)

(** Admission of an image: as long as the product of its sides fits in 63
    bits, an admitted image has positive sides, at most [maxPixels] pixels, and
    asks for its estimated cost, or for the whole budget where that is less. *)
Theorem reserve_pixels_sound budget width height cost n :
  width * height < 2 ^ 63 -> reserve_pixels budget width height cost = Some n ->
  0 < width /\ 0 < height /\ width * height <= maxPixels /\ n = Z.min (cost (width * height)) budget.
Proof.
  intros Hp. unfold reserve_pixels. destruct (_ || _) eqn:E; [done|]. bool_prop. intros [= <-].
  assert (i64 (width * height) = width * height) as He by (apply i64_id; unfold in_i64; nia).
  rewrite He in *. lia.
Qed.

Lemma reserve_pixels_sound_witness :
  reserve_pixels 1000 100 50 (fun p => 4 * p) = Some 1000 /\ 100 * 50 <= maxPixels.
Proof.
  assert (reserve_pixels 1000 100 50 (fun p => 4 * p) = Some 1000) as H by reflexivity.
  split; [exact H|]. apply (reserve_pixels_sound 1000 100 50 (fun p => 4 * p) 1000); [lia|exact H].
Defined.

(** The sides of a HEIF image are 32-bit fields of the file, and their product
    can wrap: the largest sides are admitted with a negative pixel count, and
    the semaphore is asked for a negative amount. *)
Lemma reserve_pixels_overflow :
  let side := 2 ^ 32 - 1 in
  let cost (_ : Z) := i64 (16 * side * side) in
  reserve_pixels (2 ^ 30) side side cost = Some (- 2 ^ 37 + 16).
Proof. vm_compute. reflexivity. Qed.

(** ** Orientation *)

Lemma fold_insert_length {A B} (f : list B -> A -> list B) (idx : A -> nat) (val : A -> B) l out :
  (forall o a, f o a = <[idx a := val a]> o) -> length (fold_left f l out) = length out.
Proof. intros Hf. revert out. induction l as [|a l IH]; intros out; [done|]. simpl. rewrite IH, Hf. apply length_insert. Qed.

(** Writing a value at each index leaves it there, when equal indices get equal
    values. *)
Lemma fold_insert_lookup {A B} (f : list B -> A -> list B) (idx : A -> nat) (val : A -> B) l out c :
  (forall o a, f o a = <[idx a := val a]> o) -> c ∈ l ->
  (forall a, a ∈ l -> idx a = idx c -> val a = val c) -> (idx c < length out)%nat ->
  fold_left f l out !! idx c = Some (val c).
Proof.
  intros Hf. induction l as [|a l IH] using rev_ind; intros Hin Hu Hlen; [by apply elem_of_nil in Hin|].
  rewrite fold_left_app. simpl. rewrite Hf.
  pose proof (fold_insert_length f idx val l out Hf) as Hll.
  destruct (decide (idx a = idx c)) as [He|Hne].
  - rewrite He, list_lookup_insert_eq by lia. f_equal. apply Hu; [|done]. apply elem_of_app. right. apply list_elem_of_singleton. done.
  - rewrite list_lookup_insert_ne by done. apply IH; [|intros b Hb; apply Hu; apply elem_of_app; by left|done].
    apply elem_of_app in Hin as [?|Hs]; [done|]. apply list_elem_of_singleton in Hs as ->. done.
Qed.

Lemma elem_of_coordinates w h x y : (x, y) ∈ coordinates w h <-> 0 <= x < w /\ 0 <= y < h.
Proof.
  unfold coordinates. rewrite list_elem_of_bind. split.
  - intros (v & Hx & Hv). apply list_elem_of_fmap in Hx as (i & [= -> ->] & Hi). apply list_elem_of_fmap in Hv as (j & -> & Hj).
    apply elem_of_seq in Hi. apply elem_of_seq in Hj. lia.
  - intros [Hx Hy]. exists y. split.
    + apply list_elem_of_fmap. exists (Z.to_nat x). rewrite Z2Nat.id by lia. split; [done|]. apply elem_of_seq. lia.
    + apply list_elem_of_fmap. exists (Z.to_nat y). rewrite Z2Nat.id by lia. split; [done|]. apply elem_of_seq. lia.
Qed.

Definition out_size (orientation w h : Z) : Z * Z :=
  if (5 <=? orientation) && (orientation <=? 8) then (h, w) else (w, h).

(** The inverse rotation. *)
Definition orient_back (orientation w h u v : Z) : Z * Z :=
  if orientation =? 6 then (v, h - 1 - u)
  else if orientation =? 8 then (w - 1 - v, u)
  else if orientation =? 7 then (w - 1 - v, h - 1 - u)
  else orient_xy orientation w h u v.

Ltac orientations :=
  repeat match goal with
  | |- context [?o =? ?n] => destruct (Z.eqb_spec o n); [subst|]
  | |- context [?o <=? ?n] => destruct (Z.leb_spec o n)
  end; cbn [fst snd andb]; try lia.

(** Orientation is a bijection from the pixels of the source onto the output. *)
Lemma orient_xy_range orientation w h x y : 0 <= x < w -> 0 <= y < h ->
  let '(ow, oh) := out_size orientation w h in
  0 <= (orient_xy orientation w h x y).1 < ow /\ 0 <= (orient_xy orientation w h x y).2 < oh /\
  orient_back orientation w h (orient_xy orientation w h x y).1 (orient_xy orientation w h x y).2 = (x, y).
Proof.
  intros Hx Hy. unfold out_size, orient_back, orient_xy.
  orientations; (split; [lia|split; [lia|f_equal; lia]]).
Qed.

Lemma orient_back_range orientation w h u v :
  let '(ow, oh) := out_size orientation w h in
  0 <= u < ow -> 0 <= v < oh ->
  0 <= (orient_back orientation w h u v).1 < w /\ 0 <= (orient_back orientation w h u v).2 < h /\
  orient_xy orientation w h (orient_back orientation w h u v).1 (orient_back orientation w h u v).2 = (u, v).
Proof.
  unfold out_size, orient_back, orient_xy.
  orientations; (intros Hu Hv; split; [lia|split; [lia|f_equal; lia]]).
Qed.

Lemma row_index_inj ow a b c d : 0 <= a < ow -> 0 <= c < ow -> 0 <= b -> 0 <= d ->
  Z.to_nat (b * ow + a) = Z.to_nat (d * ow + c) -> a = c /\ b = d.
Proof.
  intros Ha Hc Hb Hd He. assert (b * ow + a = d * ow + c) as E by nia.
  assert (b = d) by (apply (f_equal (fun z => z / ow)) in E; rewrite !Z.div_add_l, !Z.div_small in E by lia; lia).
  subst. lia.
Qed.

(** Rotating a photo by its Exif orientation moves every pixel of the source to
    the place the orientation names, inside an output of the right size, and
    leaves no output pixel unwritten: each is the image of exactly one source
    pixel. *)
Theorem orient_spec {Pixel} (blank : Pixel) (w h orientation : Z) (pix : list Pixel) :
  0 < w -> 0 < h -> len pix = w * h ->
  let '(ow, oh, out) := orient blank w h pix orientation in
  (ow, oh) = out_size orientation w h /\ len out = ow * oh /\
  (forall x y, 0 <= x < w -> 0 <= y < h ->
     let '(dx, dy) := orient_xy orientation w h x y in
     0 <= dx < ow /\ 0 <= dy < oh /\ pixel_at blank ow out dx dy = pixel_at blank w pix x y) /\
  (forall u v, 0 <= u < ow -> 0 <= v < oh ->
     exists x y, 0 <= x < w /\ 0 <= y < h /\ orient_xy orientation w h x y = (u, v) /\
       forall x' y', 0 <= x' < w -> 0 <= y' < h -> orient_xy orientation w h x' y' = (u, v) -> x' = x /\ y' = y).
Proof.
  intros Hw Hh Hl.
  assert (forall u v, let '(ow, oh) := out_size orientation w h in 0 <= u < ow -> 0 <= v < oh ->
    exists x y, 0 <= x < w /\ 0 <= y < h /\ orient_xy orientation w h x y = (u, v) /\
       forall x' y', 0 <= x' < w -> 0 <= y' < h -> orient_xy orientation w h x' y' = (u, v) -> x' = x /\ y' = y) as Hsur.
  { intros u v. pose proof (orient_back_range orientation w h u v) as Hb. destruct (out_size orientation w h) as [ow oh] eqn:Eo.
    intros Hu Hv. destruct (Hb Hu Hv) as (Hx & Hy & Hxy). exists (orient_back orientation w h u v).1, (orient_back orientation w h u v).2.
    split; [done|split; [done|split; [done|]]]. intros x' y' Hx' Hy' E.
    pose proof (orient_xy_range orientation w h x' y' Hx' Hy') as Hr. rewrite Eo, E in Hr. cbn [fst snd] in Hr.
    destruct Hr as (_ & _ & ->). done. }
  unfold orient. destruct ((orientation <? 2) || (8 <? orientation)) eqn:Eb.
  - assert (out_size orientation w h = (w, h)) as Eo by (unfold out_size; apply orb_true_iff in Eb as [E|E]; bool_prop; orientations; done).
    rewrite Eo in *. split; [done|]. split; [done|]. split; [|exact Hsur].
    intros x y Hx Hy. assert (orient_xy orientation w h x y = (x, y)) as -> by (unfold orient_xy; apply orb_true_iff in Eb as [E|E]; bool_prop; orientations; done).
    done.
  - bool_prop. assert ((if 5 <=? orientation then (h, w) else (w, h)) = out_size orientation w h) as Eo
      by (unfold out_size; orientations; done).
    rewrite Eo. destruct (out_size orientation w h) as [ow oh] eqn:Eos.
    assert (0 < ow /\ 0 < oh) as [Hw' Hh'] by (unfold out_size in Eos; destruct (_ && _) in Eos; injection Eos as <- <-; lia).
    set (f := fun out _ => _). set (out := fold_left f _ _).
    pose (idx := fun c : Z * Z => Z.to_nat ((orient_xy orientation w h c.1 c.2).2 * ow + (orient_xy orientation w h c.1 c.2).1)).
    pose (val := fun c : Z * Z => pixel_at blank w pix c.1 c.2).
    assert (forall o c, f o c = <[idx c := val c]> o) as Hf.
    { intros o [x y]. unfold f, idx, val. simpl. by destruct (orient_xy orientation w h x y). }
    split; [done|]. split; [|split; [|exact Hsur]].
    + unfold len, out. rewrite (fold_insert_length f idx val _ _ Hf), length_replicate. nia.
    + intros x y Hx Hy. pose proof (orient_xy_range orientation w h x y Hx Hy) as Hr. rewrite Eos in Hr.
      destruct (orient_xy orientation w h x y) as [dx dy] eqn:Exy. cbn [fst snd] in Hr. destruct Hr as (Hdx & Hdy & Hback).
      split; [done|split; [done|]]. unfold pixel_at at 1.
      assert (Z.to_nat (dy * ow + dx) = idx (x, y)) as -> by (unfold idx; simpl; by rewrite Exy).
      unfold out. rewrite (fold_insert_lookup f idx val); [done|exact Hf|by apply elem_of_coordinates| |].
      * intros [x' y'] [Hx' Hy']%elem_of_coordinates He. unfold idx in He. cbn [fst snd] in He.
        pose proof (orient_xy_range orientation w h x' y' Hx' Hy') as Hr'. rewrite Eos in Hr'. destruct Hr' as (R1 & R2 & R3).
        rewrite Exy in He. cbn [fst snd] in He. apply row_index_inj in He as [E1 E2]; try lia.
        unfold val. cbn [fst snd]. rewrite E1, E2, Hback in R3. injection R3 as -> ->. done.
      * rewrite length_replicate. unfold idx. cbn [fst snd]. rewrite Exy. cbn [fst snd]. nia.
Qed.

Lemma orient_spec_witness :
  orient 0 3 2 [1; 2; 3; 4; 5; 6] 6 = (2, 3, [4; 1; 5; 2; 6; 3]) /\ (2, 3) = out_size 6 3 2.
Proof.
  split; [vm_compute; reflexivity|].
  pose proof (orient_spec 0 3 2 6 [1; 2; 3; 4; 5; 6] eq_refl eq_refl eq_refl) as H. exact (proj1 H).
Defined.

(** ** Transparency *)

Definition channel_ok (straight : bool) (alpha c : Z) : Prop := is_byte c /\ (straight = true \/ c <= alpha).

Lemma shift8 x : 0 <= x <= 65535 -> u8 (Z.shiftr x 8) = x / 256.
Proof.
  intros Hx. rewrite Z.shiftr_div_pow2 by lia. change (2 ^ 8) with 256. apply wrap_small.
  pose proof (Z.div_pos x 256). pose proof (Z.div_lt_upper_bound x 256 256). lia.
Qed.

(** Flattening a pixel onto white never wraps a channel: with bytes as
    channels (and premultiplied ones at most the alpha, as Go's RGBA images
    have), the result is opaque, every channel is at least its source and at
    most 255, and a transparent pixel becomes white. *)
Theorem flatten_pixel_spec straight r g b alpha :
  is_byte alpha -> channel_ok straight alpha r -> channel_ok straight alpha g -> channel_ok straight alpha b ->
  let '(r', g', b', a') := flatten_pixel straight (r, g, b, alpha) in
  a' = 255 /\ (r <= r' < 256 /\ g <= g' < 256 /\ b <= b' < 256) /\
  (alpha = 0 -> r' = 255 /\ g' = 255 /\ b' = 255).
Proof.
  intros Ha Hr Hg Hb. unfold flatten_pixel. unfold is_byte in Ha.
  destruct (Z.eqb_spec alpha 255) as [->|Hne].
  { unfold channel_ok, is_byte in *. lia. }
  destruct straight.
  - assert (forall c, channel_ok true alpha c ->
      u8 (Z.shiftr (u32 (u32 (c * u32 (alpha * 257)) / 255 + u32 (65535 - u32 (alpha * 257)))) 8) =
        (c * (alpha * 257) / 255 + (65535 - alpha * 257)) / 256 /\ 0 <= c < 256 /\
        0 <= c * (alpha * 257) / 255 + (65535 - alpha * 257) <= 65535) as Hf.
    { intros c [Hc _]. unfold is_byte in Hc. unfold u32. rewrite !(wrap_small 32 (alpha * 257)) by lia.
      rewrite (wrap_small 32 (65535 - _)) by lia. rewrite (wrap_small 32 (c * _)) by nia.
      assert (0 <= c * (alpha * 257) / 255 <= alpha * 257) as Hq.
      { split; [apply Z.div_pos; nia|]. apply Z.div_le_upper_bound; nia. }
      rewrite wrap_small by lia. rewrite shift8 by lia. repeat split; try lia. }
    assert (forall c, channel_ok true alpha c ->
      c <= (c * (alpha * 257) / 255 + (65535 - alpha * 257)) / 256 < 256 /\
      (alpha = 0 -> (c * (alpha * 257) / 255 + (65535 - alpha * 257)) / 256 = 255)) as Hg'.
    { intros c Hc. destruct (Hf c Hc) as (_ & Hc' & Hb'). split; [split|].
      - apply Z.div_le_lower_bound; [lia|].
        assert (c * (alpha * 257) - 254 <= 255 * (c * (alpha * 257) / 255)) by (pose proof (Z.div_mod (c * (alpha * 257)) 255 ltac:(lia)); pose proof (Z.mod_pos_bound (c * (alpha * 257)) 255 ltac:(lia)); lia).
        nia.
      - apply Z.div_lt_upper_bound; lia.
      - intros ->. rewrite Z.mul_0_l, Z.mul_0_r. reflexivity. }
    destruct (Hf r Hr) as (-> & _), (Hf g Hg) as (-> & _), (Hf b Hb) as (-> & _).
    destruct (Hg' r Hr), (Hg' g Hg), (Hg' b Hb). auto 8.
  - assert (forall c, channel_ok false alpha c ->
      u8 (Z.shiftr (u32 (u32 (c * 257) + u32 ((255 - alpha) * 257))) 8) = (c * 257 + (255 - alpha) * 257) / 256 /\
      c <= (c * 257 + (255 - alpha) * 257) / 256 < 256 /\
      (alpha = 0 -> (c * 257 + (255 - alpha) * 257) / 256 = 255)) as Hf.
    { intros c [Hc [|Hca]]; [done|]. unfold is_byte in Hc. unfold u32.
      rewrite !(wrap_small 32) by (rewrite ?(wrap_small 32) by lia; lia). rewrite shift8 by lia. split; [done|]. split; [split|].
      - apply Z.div_le_lower_bound; lia.
      - apply Z.div_lt_upper_bound; lia.
      - intros ->. assert (c = 0) as -> by lia. reflexivity. }
    destruct (Hf r Hr) as (-> & ? & ?), (Hf g Hg) as (-> & ? & ?), (Hf b Hb) as (-> & ? & ?). auto 8.
Qed.

Lemma flatten_pixel_spec_witness :
  flatten_pixel true (200, 100, 0, 128) = (228, 177, 127, 255) /\ 200 <= 228 < 256.
Proof.
  assert (flatten_pixel true (200, 100, 0, 128) = (228, 177, 127, 255)) as E by (vm_compute; reflexivity).
  split; [exact E|].
  pose proof (flatten_pixel_spec true 200 100 0 128) as H. rewrite E in H.
  apply H; unfold channel_ok, is_byte; (lia || (split; [lia|by left])).
Defined.

(** The name gets the extension of the type, once. *)
Example filename_for_type : FilenameForType "clip.final.bin" "video/mp4; codecs=avc1" = "clip.final.mp4"%string.
Proof. reflexivity. Qed.
