(* ===== verification/Mp4.v ===== *)
(** * platform: dimensions of an MP4 file

    Models src/internal/platform/mp4.go and src/internal/platform/mp4_read.go:
    the box list of a range ([boxes]), the search of the movie box for a video
    track's sample description ([movieDimensions]), and the scan of the file
    for the movie box ([readMovieDimensions], [mediaDimensions]).

    A slice expression out of range is a Go run-time panic, here the error
    [Panic]; the inner scan takes fuel and reports [OutOfFuel] without it.
    [dimensions_sound] shows that neither can happen. *)
From S2P Require Import Prelude Strconv Errors Spool Media.

Inductive mp4Err := TruncatedBox | BoxExceedsFile | InvalidSize | TooManyBoxes | BoxTooLarge | InvalidBox
  | MetadataTooLarge | NoDescription | NoMetadata | FileError | Panic | OutOfFuel.

Record box := mkBox { bx_kind : bytes; bx_start : Z; bx_end : Z }.

(** A slice expression [l[i:j]]. *)
Definition sub (l : bytes) (i j : Z) : res mp4Err bytes :=
  if (0 <=? i) && (i <=? j) && (j <=? len l) then Ok (slice i j l) else Err Panic.

(** The size and header length of the box at [start]. *)
Definition box_header (data : bytes) (start end_ : Z) : res mp4Err (bytes * Z * Z) :=
  if end_ - start <? 8 then Err TruncatedBox
  else
    match read_at data start 8 with
    | None => Err FileError
    | Some h =>
        let size := be_get (slice 0 4 h) in
        let? (size, header) :=
          (if size =? 1 then
             match read_at data (start + 8) 8 with
             | None => Err FileError
             | Some h8 => if end_ - start <? be_get h8 then Err BoxExceedsFile else Ok (be_get h8, 16)
             end
           else if size =? 0 then Ok (end_ - start, 8)
           else Ok (size, 8)) in
        if (size <? header) || (end_ - start <? size) then Err InvalidSize else Ok (slice 4 8 h, size, header)
    end.

Fixpoint boxes_loop (fuel : nat) (data : bytes) (start end_ : Z) (result : list box) : res mp4Err (list box) :=
  match fuel with
  | O => Err OutOfFuel
  | S fuel =>
      if start <? end_ then
        let? (kind, size, header) := box_header data start end_ in
        let result := result ++ [mkBox kind (start + header) (start + size)] in
        if 10000 <? len result then Err TooManyBoxes else boxes_loop fuel data (start + size) end_ result
      else Ok result
  end.

Definition boxes (data : bytes) (start end_ : Z) : res mp4Err (list box) :=
  boxes_loop (range_fuel start end_) data start end_ [].

(** A [for ... range] loop whose body returns a result, returns an error, or
    goes on. *)
Fixpoint first_of {A D} (body : A -> res mp4Err (option D)) (l : list A) : res mp4Err (option D) :=
  match l with
  | [] => Ok None
  | x :: l => let? r := body x in match r with Some d => Ok (Some d) | None => first_of body l end
  end.

Definition is_kind (b : box) (kind : string) : bool := bytes_eqb (bx_kind b) (bytes_of_string kind).

Definition video_kinds : list string :=
  ["avc1"; "avc3"; "hvc1"; "hev1"; "hvc2"; "av01"; "mp4v"; "encv"; "bvc1"; "bvc2"; "dvhe"; "dvh1"].

Definition entry_dimensions (movie : bytes) (entry : box) : res mp4Err (option (Z * Z)) :=
  if negb (existsb (is_kind entry) video_kinds) then Ok None
  else if bx_end entry <? bx_start entry + 28 then Ok None
  else
    let? w := sub movie (bx_start entry + 24) (bx_start entry + 26) in
    let? h := sub movie (bx_start entry + 26) (bx_start entry + 28) in
    Ok (if (0 <? be_get w) && (0 <? be_get h) then Some (be_get w, be_get h) else None).

Definition stsd_dimensions (movie : bytes) (stsd : box) : res mp4Err (option (Z * Z)) :=
  if negb (is_kind stsd "stsd") || (bx_end stsd <? bx_start stsd + 8) then Ok None
  else let? entries := boxes movie (bx_start stsd + 8) (bx_end stsd) in first_of (entry_dimensions movie) entries.

Definition in_box (movie : bytes) (kind : string) (body : box -> res mp4Err (option (Z * Z))) (b : box) :
    res mp4Err (option (Z * Z)) :=
  if negb (is_kind b kind) then Ok None
  else let? children := boxes movie (bx_start b) (bx_end b) in first_of body children.

(** Whether a handler box of the media says video. *)
Definition is_video (movie : bytes) (b : box) : res mp4Err bool :=
  if is_kind b "hdlr" && (bx_start b + 12 <=? bx_end b) then
    let? kind := sub movie (bx_start b + 8) (bx_start b + 12) in Ok (bytes_eqb kind (bytes_of_string "vide"))
  else Ok false.

(** The loop over the children of mdia: is there a video handler, and the last
    minf box. *)
Fixpoint scan_media (movie : bytes) (children : list box) (isVideo : bool) (minf : option box) :
    res mp4Err (bool * option box) :=
  match children with
  | [] => Ok (isVideo, minf)
  | b :: children =>
      let? video := is_video movie b in
      scan_media movie children (isVideo || video) (if is_kind b "minf" then Some b else minf)
  end.

Definition mdia_dimensions (movie : bytes) (mdia : box) : res mp4Err (option (Z * Z)) :=
  if negb (is_kind mdia "mdia") then Ok None
  else
    let? children := boxes movie (bx_start mdia) (bx_end mdia) in
    let? (isVideo, minf) := scan_media movie children false None in
    match isVideo, minf with
    | true, Some minf =>
        let? children := boxes movie (bx_start minf) (bx_end minf) in
        first_of (in_box movie "stbl" (stsd_dimensions movie)) children
    | _, _ => Ok None
    end.

Definition movieDimensions (movie : bytes) : res mp4Err (Z * Z) :=
  let? top := boxes movie 0 (len movie) in
  let? found := first_of (in_box movie "moov" (in_box movie "trak" (mdia_dimensions movie))) top in
  match found with Some d => Ok d | None => Err NoDescription end.

(** The scan of one window: the dimensions, or the offset it stopped at. *)
Inductive scan := Found (d : Z * Z) | Stopped (local : Z).

Section Read.
Context (read : Z -> Z -> option bytes).

Definition read_or (start length : Z) : res mp4Err bytes :=
  match read start length with Some b => Ok b | None => Err FileError end.

Fixpoint window_loop (fuel : nat) (data : bytes) (offset local : Z) : res mp4Err scan :=
  match fuel with
  | O => Err OutOfFuel
  | S fuel =>
      if local + 8 <=? len data then
        let? s := sub data local (local + 4) in
        let size := be_get s in
        if (size =? 1) && (len data <? local + 16) then Ok (Stopped local)
        else
          let? (size, header) :=
            (if size =? 1 then
               let? n := sub data (local + 8) (local + 16) in
               if Z.shiftl 1 50 <? be_get n then Err BoxTooLarge else Ok (be_get n, 16)
             else Ok (size, 8)) in
          if size <? header then Err InvalidBox
          else
            let? kind := sub data (local + 4) (local + 8) in
            if bytes_eqb kind (bytes_of_string "moov") then
              if Z.shiftl 8 20 <? size then Err MetadataTooLarge
              else
                let? movie :=
                  (if local + size <=? len data then sub data local (local + size) else read_or (offset + local) size) in
                let? d := movieDimensions movie in Ok (Found d)
            else window_loop fuel data offset (local + size)
      else Ok (Stopped local)
  end.

Fixpoint movie_loop (count : nat) (offset : Z) : res mp4Err (Z * Z) :=
  match count with
  | O => Err NoMetadata
  | S count =>
      let? data := read_or offset 65536 in
      let? r := window_loop (S (length data)) data offset 0 in
      match r with
      | Found d => Ok d
      | Stopped local => if local =? 0 then Err NoMetadata else movie_loop count (offset + local)
      end
  end.

Definition readMovieDimensions : res mp4Err (Z * Z) := movie_loop 32 0.
End Read.

(** The dimensions of a spooled file: the end of the file is not an error. *)
Definition mediaDimensions (file : Buffer) : res mp4Err (Z * Z) :=
  readMovieDimensions (fun start length =>
    let '(data, err) := ReadAt length start file in
    match err with None | Some ErrEOF => Some data | Some _ => None end).

(** ** Properties *)

(** The result satisfies [P], or the error is one the code returns. *)
Definition sound {A} (P : A -> Prop) (r : res mp4Err A) : Prop :=
  match r with Ok a => P a | Err e => e <> Panic /\ e <> OutOfFuel end.

Lemma sound_bind {A B} (P : A -> Prop) (Q : B -> Prop) (x : res mp4Err A) k :
  sound P x -> (forall a, P a -> sound Q (k a)) -> sound Q (rbind x k).
Proof. destruct x; simpl; auto. Qed.

Lemma sound_sub (l : bytes) i j : all_bytes l -> 0 <= i <= j -> j <= len l ->
  sound (fun b => all_bytes b /\ len b = j - i) (sub l i j).
Proof.
  intros Hl Hi Hj. unfold sub. assert ((0 <=? i) && (i <=? j) && (j <=? len l) = true) as -> by lia.
  split; [apply Forall_take, Forall_drop, Hl|]. rewrite len_slice; lia.
Qed.

Definition inside (lo hi : Z) (b : box) : Prop := lo <= bx_start b <= bx_end b /\ bx_end b <= hi.

Lemma box_header_sound data start end_ :
  sound (fun r => 8 <= r.2 <= r.1.2 /\ r.1.2 <= end_ - start) (box_header data start end_).
Proof.
  unfold box_header. destruct (end_ - start <? 8); [done|]. destruct (read_at data start 8) as [h|]; [|done].
  apply (sound_bind (fun sh : Z * Z => 8 <= sh.2)).
  - destruct (_ =? 1); [destruct (read_at data (start + 8) 8); [|done]; by destruct (_ <? _)|]. by destruct (_ =? 0).
  - intros [size header] Hh. destruct (_ || _) eqn:E; [done|]. bool_prop. simpl in *. lia.
Qed.

Lemma boxes_loop_sound fuel data lo start end_ result :
  (Z.to_nat (end_ - start) < fuel)%nat -> lo <= start -> Forall (inside lo end_) result ->
  sound (Forall (inside lo end_)) (boxes_loop fuel data start end_ result).
Proof.
  revert start result. induction fuel as [|fuel IH]; intros start result Hf Hlo Hr; [lia|]. cbn [boxes_loop].
  destruct (Z.ltb_spec start end_); [|done].
  apply (sound_bind _ _ _ _ (box_header_sound data start end_)). intros [[kind size] header] [Hh Hs]. cbn [fst snd] in *.
  destruct (_ <? _); [done|]. apply IH; [lia|lia|]. apply Forall_app. split; [done|]. constructor; [|done].
  unfold inside; simpl; lia.
Qed.

Lemma boxes_sound data start end_ : sound (Forall (inside start end_)) (boxes data start end_).
Proof. apply boxes_loop_sound; [unfold range_fuel; lia|lia|constructor]. Qed.

Lemma first_of_sound {A D} (P : A -> Prop) (Q : D -> Prop) body (l : list A) :
  (forall x, P x -> sound (fun o => match o with Some d => Q d | None => True end) (body x)) -> Forall P l ->
  sound (fun o => match o with Some d => Q d | None => True end) (first_of body l).
Proof.
  intros Hb. induction 1 as [|x l Hx _ IH]; simpl; [done|].
  apply (sound_bind _ _ _ _ (Hb x Hx)). intros [d|] Hd; [done|exact IH].
Qed.

Section Movie.
Context (movie : bytes) (Hm : all_bytes movie).

Definition good_dims (d : Z * Z) : Prop := 0 < d.1 < 2 ^ 16 /\ 0 < d.2 < 2 ^ 16.
Definition maybe (o : option (Z * Z)) : Prop := match o with Some d => good_dims d | None => True end.
Definition in_movie (b : box) : Prop := inside 0 (len movie) b.

Lemma boxes_in_movie lo hi : 0 <= lo -> hi <= len movie -> sound (Forall in_movie) (boxes movie lo hi).
Proof.
  intros Hlo Hhi. pose proof (boxes_sound movie lo hi) as H. destruct (boxes movie lo hi); [|done]. simpl in *.
  eapply Forall_impl; [exact H|]. unfold in_movie, inside. lia.
Qed.

Lemma entry_sound entry : in_movie entry -> sound maybe (entry_dimensions movie entry).
Proof using Hm.
  intros [He1 He2]. unfold entry_dimensions. destruct (negb _); [done|].
  destruct (Z.ltb_spec (bx_end entry) (bx_start entry + 28)); [done|].
  apply (sound_bind _ _ _ _ (sound_sub movie (bx_start entry + 24) (bx_start entry + 26) Hm ltac:(lia) ltac:(lia))).
  intros w [Hw Hwl]. apply (sound_bind _ _ _ _ (sound_sub movie (bx_start entry + 26) (bx_start entry + 28) Hm ltac:(lia) ltac:(lia))).
  intros h [Hh Hhl]. unfold sound. destruct (_ && _) eqn:E; [|exact I]. bool_prop.
  pose proof (be_get_range w Hw) as Rw. pose proof (be_get_range h Hh) as Rh. unfold maybe, good_dims. cbn [fst snd].
  replace (len w) with 2 in Rw by lia. replace (len h) with 2 in Rh by lia. lia.
Qed.

Lemma stsd_sound stsd : in_movie stsd -> sound maybe (stsd_dimensions movie stsd).
Proof using Hm.
  intros [He1 He2]. unfold stsd_dimensions. destruct (_ || _); [done|].
  apply (sound_bind (Forall in_movie)); [apply boxes_in_movie; lia|]. intros l Hl. exact (first_of_sound in_movie good_dims _ _ entry_sound Hl).
Qed.

Lemma in_box_sound kind body b : (forall c, in_movie c -> sound maybe (body c)) -> in_movie b -> sound maybe (in_box movie kind body b).
Proof.
  intros Hb [He1 He2]. unfold in_box. destruct (negb _); [done|].
  apply (sound_bind (Forall in_movie)); [apply boxes_in_movie; lia|]. intros l Hl. exact (first_of_sound in_movie good_dims _ _ Hb Hl).
Qed.

Lemma scan_media_sound children v m : Forall in_movie children -> (forall b, m = Some b -> in_movie b) ->
  sound (fun r => forall b, r.2 = Some b -> in_movie b) (scan_media movie children v m).
Proof using Hm.
  intros Hc. revert v m. induction Hc as [|b children Hb _ IH]; intros v m Hmm; [exact Hmm|]. cbn [scan_media].
  apply (sound_bind (fun _ => True)).
  - unfold is_video. destruct (is_kind b "hdlr"); [|done]. destruct (Z.leb_spec (bx_start b + 12) (bx_end b)); [|done]. destruct Hb.
    apply (sound_bind _ _ _ _ (sound_sub movie (bx_start b + 8) (bx_start b + 12) Hm ltac:(lia) ltac:(lia))). done.
  - intros video _. apply IH. destruct (is_kind b "minf"); [|exact Hmm]. by intros b' [= <-].
Qed.

Lemma mdia_sound mdia : in_movie mdia -> sound maybe (mdia_dimensions movie mdia).
Proof using Hm.
  intros [He1 He2]. unfold mdia_dimensions. destruct (negb _); [done|].
  apply (sound_bind (Forall in_movie)); [apply boxes_in_movie; lia|]. intros l Hl.
  apply (sound_bind _ _ _ _ (scan_media_sound l false None Hl ltac:(done))). intros [v m] Hmi. cbn [fst snd] in Hmi.
  destruct v; [|done]. destruct m as [minf|]; [|done]. destruct (Hmi minf eq_refl).
  apply (sound_bind (Forall in_movie)); [apply boxes_in_movie; lia|]. intros l' Hl'.
  apply (first_of_sound in_movie good_dims); [|exact Hl']. intros b Hb. apply in_box_sound; [|done]. intros. by apply stsd_sound.
Qed.

Lemma movieDimensions_sound : sound good_dims (movieDimensions movie).
Proof using Hm.
  unfold movieDimensions. apply (sound_bind (Forall in_movie)); [apply boxes_in_movie; lia|]. intros l Hl.
  apply (sound_bind maybe); [|intros [d|] Hd; [exact Hd|done]]. apply (first_of_sound in_movie good_dims); [|exact Hl].
  intros b Hb. apply in_box_sound; [|done]. intros. apply in_box_sound; [|done]. intros. by apply mdia_sound.
Qed.
End Movie.

Lemma window_loop_sound read fuel data offset local :
  (forall s l b, read s l = Some b -> all_bytes b) -> all_bytes data -> 0 <= local ->
  (Z.to_nat (len data - local) < fuel)%nat ->
  sound (fun r => match r with Found d => good_dims d | Stopped _ => True end) (window_loop read fuel data offset local).
Proof.
  intros Hread Hd. revert local. induction fuel as [|fuel IH]; intros local Hl Hf; [lia|]. cbn [window_loop].
  destruct (Z.leb_spec (local + 8) (len data)); [|done].
  apply (sound_bind _ _ _ _ (sound_sub data local (local + 4) Hd ltac:(lia) ltac:(lia))). intros s _. cbv zeta.
  destruct ((be_get s =? 1) && (len data <? local + 16)) eqn:Eb; [done|].
  apply (sound_bind (fun sh : Z * Z => 8 <= sh.2)).
  - destruct (be_get s =? 1); [|done]. cbn [andb] in Eb. bool_prop.
    apply (sound_bind _ _ _ _ (sound_sub data (local + 8) (local + 16) Hd ltac:(lia) ltac:(lia))). intros n _. by destruct (_ <? _).
  - intros [size header] Hh. cbn [fst snd] in Hh. destruct (Z.ltb_spec size header); [done|].
    apply (sound_bind _ _ _ _ (sound_sub data (local + 4) (local + 8) Hd ltac:(lia) ltac:(lia))). intros kind _.
    destruct (bytes_eqb kind _); [|apply IH; lia]. destruct (Z.shiftl 8 20 <? size); [done|].
    apply (sound_bind (fun m => all_bytes m)).
    + destruct (Z.leb_spec (local + size) (len data)).
      * pose proof (sound_sub data local (local + size) Hd ltac:(lia) ltac:(lia)) as H'. destruct (sub _ _ _); [apply H'|exact H'].
      * unfold read_or. destruct (read _ _) eqn:E; [|done]. by eapply Hread.
    + intros movie Hm. apply (sound_bind good_dims); [by apply movieDimensions_sound|done].
Qed.

(** Reading the dimensions of an MP4 file is total and safe on every input:
    whatever bytes the file holds, no slice is out of range, every scan ends,
    and a success gives a positive width and height that fit 16 bits. *)
Theorem dimensions_sound read :
  (forall start length b, read start length = Some b -> all_bytes b) ->
  match readMovieDimensions read with
  | Ok (w, h) => 0 < w < 2 ^ 16 /\ 0 < h < 2 ^ 16
  | Err e => e <> Panic /\ e <> OutOfFuel
  end.
Proof.
  intros Hread. assert (forall count offset, sound good_dims (movie_loop read count offset)) as H.
  { induction count as [|count IH]; intros offset; [done|]. cbn [movie_loop].
    apply (sound_bind (fun d => all_bytes d)).
    - unfold read_or. destruct (read _ _) eqn:E; [|done]. by eapply Hread.
    - intros data Hd. eapply sound_bind; [apply window_loop_sound; [done|done|lia|unfold len; lia]|].
      intros [d|local] Hr; [exact Hr|]. destruct (local =? 0); [done|apply IH]. }
  specialize (H 32%nat 0). unfold readMovieDimensions. by destruct (movie_loop read 32 0) as [[]|].
Qed.

(** A movie with one video track of 640x360. *)
Definition mp4_box (kind : string) (body : bytes) : bytes := be_put 4 (8 + len body) ++ bytes_of_string kind ++ body.
Definition sample_movie : bytes :=
  mp4_box "ftyp" (bytes_of_string "isom") ++
  mp4_box "moov" (mp4_box "trak" (mp4_box "mdia"
    (mp4_box "hdlr" (replicate 8 0 ++ bytes_of_string "vide") ++
     mp4_box "minf" (mp4_box "stbl" (mp4_box "stsd"
       (replicate 8 0 ++ mp4_box "avc1" (replicate 24 0 ++ be_put 2 640 ++ be_put 2 360))))))).

Definition sample_read (start length : Z) : option bytes := Some (slice start (start + length) sample_movie).

Lemma dimensions_sound_witness :
  readMovieDimensions sample_read = Ok (640, 360) /\ 0 < 640 < 2 ^ 16.
Proof.
  assert (readMovieDimensions sample_read = Ok (640, 360)) as E by (vm_compute; reflexivity).
  split; [exact E|]. pose proof (dimensions_sound sample_read) as H. rewrite E in H. apply H.
  intros s l b [= <-]. apply Forall_take, Forall_drop. apply bytes_check. vm_compute. reflexivity.
Defined.
