(* ===== verification/Download.v ===== *)
(** * platform: the media download

    Models src/internal/platform/download.go and [networkError] of
    src/internal/platform/tiktok.go: one transfer ([downloadOnce]) with its
    first response, the ranged parts fetched by concurrent workers
    ([rangeJob]), and the loop over sources ([download]).

    A response is its status, the headers the code reads, and the sequence of
    chunks its body yields with the error that ends it ([None] for the end of
    the file).  The workers of a range job are a step relation on the parts:
    every request, chunk, failure, retry and the cancellation of the job is one
    action, in any interleaving.  The bytes are the contents of the spooled
    buffer; its writers are those of Spool.v, and a write of known size is its
    copy [write_at].  Contexts, timers and admission are inputs. *)
From S2P Require Import Prelude Strconv Errors Spool SpoolData Media Mp4.

Definition firstPart : Z := Z.shiftl 1 20.
Definition minPart : Z := Z.shiftl 1 20.

Definition networkError (ctxErr : option goerr) (e : goerr) : goerr :=
  let ctx_is f := match ctxErr with Some c => f c | None => false end in
  match as_core e with
  | Some _ => e
  | None =>
      if is_canceled e || ctx_is is_canceled then ErrCanceled
      else if is_deadline e || ctx_is is_deadline || bool_decide (as_net e = Some true)
      then ErrCore (NewError "upstream_timeout" "Upstream request timed out" 504)
      else ErrCore (NewError "upstream_network_error" "Upstream network request failed" 502)
  end.

Definition upstream (message : string) : goerr := ErrCore (NewError "upstream_network_error" message 502).
Definition invalidRange : goerr := upstream "Media download returned an invalid range".
Definition errChanged : goerr := upstream "Media changed during download".
Definition truncated : goerr := upstream "Media download is empty or truncated".
Definition unsuccessful : goerr := upstream "Media download returned an unsuccessful response".
Definition tooLarge : goerr := ErrCore (NewError "asset_too_large" "Media exceeds the configured download limit" 413).

(** ** Responses *)

Record Response := mkResponse {
  rs_status : Z;
  rs_length : Z;              (* ContentLength; -1 when unknown *)
  rs_url : option string;     (* the address of the final request, when http or https *)
  rs_etag : string;
  rs_range : string;          (* Content-Range *)
  rs_body : list bytes;
  rs_end : option goerr;
}.

Record representation := mkRep { rp_url : string; rp_etag : string }.

Definition quote : ascii := "034"%char.

Fixpoint last_char (s : string) : option ascii :=
  match s with
  | EmptyString => None
  | String a EmptyString => Some a
  | String _ s => last_char s
  end.

Definition strongETag (tag : string) : string :=
  match tag with
  | String a (String _ _) =>
      if Ascii.eqb a quote && bool_decide (last_char tag = Some quote) then tag else ""%string
  | _ => ""%string
  end.

Definition finalURL (res : Response) (source : string) : string := default source (rs_url res).

Definition partSources (res : Response) (source : string) : list string :=
  if negb (String.eqb (finalURL res source) source) then [finalURL res source; source] else [source].

(** [strings.CutPrefix] *)
Fixpoint cut_prefix (p s : string) : option string :=
  match p, s with
  | EmptyString, _ => Some s
  | String a p, String b s => if Ascii.eqb a b then cut_prefix p s else None
  | _, _ => None
  end.

Definition contentRange (value : string) : option (Z * Z * Z) :=
  match cut_prefix "bytes " value with
  | None => None
  | Some span =>
      let '(span, total, found) := cut_byte "/" span in
      let '(from, to, separated) := cut_byte "-" span in
      if negb found || negb separated then None
      else
        match Atoi from, Atoi to, Atoi total with
        | Some first, Some last, Some size =>
            if (0 <=? first) && (first <=? last) && (last <? size) then Some (first, last, size) else None
        | _, _, _ => None
        end
  end.

Definition detectMedia (prefix : bytes) (kind : string) : string :=
  let imageType := DetectImageType prefix in
  if negb (String.eqb imageType "") then imageType
  else if (12 <=? len prefix) && ascii_at prefix 4 8 "ftyp" then
    (if String.eqb kind "audio" then "audio/mp4" else "video/mp4")%string
  else if (3 <=? len prefix) &&
          (ascii_at prefix 0 3 "ID3" || ((byte_at prefix 0 =? 255) && (Z.land (byte_at prefix 1) 224 =? 224)))
  then "audio/mpeg"%string
  else if (4 <=? len prefix) && ascii_at prefix 0 4 "OggS" then "audio/ogg"%string
  else ""%string.

(** ** The parts of a ranged transfer *)

Record rangeJob := mkJob {
  rj_sources : list string;
  rj_pinned : representation;
  rj_from : Z;
  rj_total : Z;
  rj_part : Z;
  rj_count : Z;
}.

(** [startRanges]; the operands of the divisions are positive. *)
Definition startRanges (connections : Z) (sources : list string) (pinned : representation) (from total : Z) : rangeJob :=
  let part := Z.max minPart ((total - from + connections * 2 - 1) / (connections * 2)) in
  mkJob sources pinned from total part ((total - from + part - 1) / part).

(** How many workers it starts when [free] slots can be acquired. *)
Definition extra_workers (connections free : Z) (j : rangeJob) : Z := Z.min (Z.min (connections - 1) (rj_count j)) free.

Definition part_start (j : rangeJob) (index : Z) : Z := rj_from j + index * rj_part j.
Definition part_end (j : rangeJob) (index : Z) : Z := Z.min (part_start j index + rj_part j) (rj_total j).

(** The checks [fetchOnce] makes before it copies a body to [offset, end_). *)
Inductive refusal := RefChanged | RefRange.

Definition check_response (j : rangeJob) (source : string) (offset end_ : Z) (res : Response) : option refusal :=
  if negb (String.eqb (finalURL res source) (rp_url (rj_pinned j))) then Some RefRange
  else if (rs_status res =? 200) || ((rs_status res =? 206) && negb (String.eqb (strongETag (rs_etag res)) (rp_etag (rj_pinned j))))
  then Some RefChanged
  else
    match contentRange (rs_range res) with
    | Some (first, last, size) =>
        if negb (rs_status res =? 206) || negb (first =? offset) || negb (last =? end_ - 1) || negb (size =? rj_total j)
        then Some RefRange else None
    | None => Some RefRange
    end.

(** A part: not taken yet, waiting for permission to retry, about to send a
    request, copying a body that started at [offset], done, or given up. *)
Inductive part_state :=
| Idle
| Backoff (attempt : nat) (last : goerr)
| Ready (attempt : nat)
| Copying (attempt : nat) (offset : Z) (body : list bytes) (ending : option goerr)
| Finished
| Failed.

Record job_state := mkState {
  js_data : bytes;             (* the buffer *)
  js_first : Z;                (* bytes of the first response written so far *)
  js_written : list Z;         (* per part, the writer's count *)
  js_parts : list part_state;
  js_next : Z;
  js_err : option goerr;
  js_ctx : option goerr;       (* j.ctx.Err() *)
  js_closed : bool;
}.

Definition init_state (j : rangeJob) (data : bytes) : job_state :=
  mkState data 0 (replicate (Z.to_nat (rj_count j)) 0) (replicate (Z.to_nat (rj_count j)) Idle) 0 None None false.

Definition set_part (i : nat) (p : part_state) (s : job_state) : job_state :=
  mkState (js_data s) (js_first s) (js_written s) (<[i := p]> (js_parts s)) (js_next s) (js_err s) (js_ctx s) (js_closed s).

(** [j.once.Do(func() { j.err = err; j.cancel() })] *)
Definition fail_part (i : nat) (e : goerr) (s : job_state) : job_state :=
  let s := set_part i Failed s in
  match js_err s with
  | None => mkState (js_data s) (js_first s) (js_written s) (js_parts s) (js_next s) (Some e)
              (Some (default ErrCanceled (js_ctx s))) (js_closed s)
  | Some _ => s
  end.

(** The end of an attempt of [fetch]: a changed file and an identity in recovery
    end the part; otherwise the next attempt, while there is one. *)
Definition attempt_failed (retries : Z) (i attempt : nat) (e : goerr) (s : job_state) : job_state :=
  match as_recovery e with
  | Some _ => fail_part i e s
  | None =>
      match js_ctx s with
      | Some c => fail_part i (networkError (js_ctx s) c) s
      | None =>
          if Z.of_nat (S attempt) <? Z.max 1 retries then set_part i (Backoff (S attempt) e) s
          else fail_part i e s
      end
  end.

(** What happens to a job, besides the environment's [Cancel] and [CloseData].
    [Receive] is the first connection writing its own part. *)
Inductive action :=
| Receive (p : bytes)
| Take
| Permit (i : nat) (available : bool) (sleepErr : option goerr) (allowed : bool)
| Respond (i : nat) (r : res goerr Response)
| Chunk (i : nat)
| BodyEnd (i : nat)
| Cancel (e : goerr)
| CloseData.

Definition job_source (j : rangeJob) (attempt : nat) : string :=
  default ""%string (rj_sources j !! Nat.modulo attempt (length (rj_sources j))).

Definition write_chunk (retries : Z) (i attempt : nat) (offset : Z) (p : bytes) (rest : list bytes) (ending : option goerr)
    (end_ : Z) (start : Z) (s : job_state) : job_state :=
  let written := default 0 (js_written s !! i) in
  if js_closed s then attempt_failed retries i attempt (networkError (js_ctx s) (ErrOther "media buffer closed")) s
  else if end_ - (start + written) <? len p then
    attempt_failed retries i attempt (networkError (js_ctx s) (ErrOther "media write exceeds its range")) s
  else
    mkState (write_at (start + written) p (js_data s)) (js_first s) (<[i := written + len p]> (js_written s))
      (<[i := Copying attempt offset rest ending]> (js_parts s)) (js_next s) (js_err s) (js_ctx s) (js_closed s).

Definition step (j : rangeJob) (retries : Z) (a : action) (s : job_state) : job_state :=
  match a with
  | Receive p =>
      if js_closed s || (rj_from j - js_first s <? len p) then s
      else mkState (write_at (js_first s) p (js_data s)) (js_first s + len p) (js_written s) (js_parts s) (js_next s)
             (js_err s) (js_ctx s) (js_closed s)
  | Take =>
      if bool_decide (is_Some (js_ctx s)) then s
      else
        let s' := mkState (js_data s) (js_first s) (js_written s) (js_parts s) (js_next s + 1) (js_err s) (js_ctx s) (js_closed s) in
        if rj_count j <=? js_next s then s' else set_part (Z.to_nat (js_next s)) (Ready 0) s'
  | Permit i available sleepErr allowed =>
      match js_parts s !! i with
      | Some (Backoff attempt last) =>
          if negb available then fail_part i last s
          else
            match sleepErr with
            | Some e => fail_part i (networkError (js_ctx s) e) s
            | None => if allowed then set_part i (Ready attempt) s else fail_part i last s
            end
      | _ => s
      end
  | Respond i r =>
      match js_parts s !! i with
      | Some (Ready attempt) =>
          let offset := part_start j (Z.of_nat i) + default 0 (js_written s !! i) in
          match r with
          | Err e => attempt_failed retries i attempt (networkError (js_ctx s) e) s
          | Ok res =>
              match check_response j (job_source j attempt) offset (part_end j (Z.of_nat i)) res with
              | Some RefChanged => fail_part i errChanged s
              | Some RefRange => attempt_failed retries i attempt invalidRange s
              | None => set_part i (Copying attempt offset (rs_body res) (rs_end res)) s
              end
          end
      | _ => s
      end
  | Chunk i =>
      match js_parts s !! i with
      | Some (Copying attempt offset (p :: rest) ending) =>
          write_chunk retries i attempt offset p rest ending (part_end j (Z.of_nat i)) (part_start j (Z.of_nat i)) s
      | _ => s
      end
  | BodyEnd i =>
      match js_parts s !! i with
      | Some (Copying attempt offset [] ending) =>
          match ending with
          | Some e => attempt_failed retries i attempt (networkError (js_ctx s) e) s
          | None =>
              let n := part_start j (Z.of_nat i) + default 0 (js_written s !! i) - offset in
              if n =? part_end j (Z.of_nat i) - offset then set_part i Finished s
              else attempt_failed retries i attempt truncated s
          end
      | _ => s
      end
  | Cancel e =>
      mkState (js_data s) (js_first s) (js_written s) (js_parts s) (js_next s) (js_err s)
        (Some (default e (js_ctx s))) (js_closed s)
  | CloseData => mkState (js_data s) (js_first s) (js_written s) (js_parts s) (js_next s) (js_err s) (js_ctx s) true
  end.

Fixpoint run (j : rangeJob) (retries : Z) (actions : list action) (s : job_state) : job_state :=
  match actions with
  | [] => s
  | a :: actions => run j retries actions (step j retries a s)
  end.

(** No worker holds a part, and none will take another. *)
Definition settled (p : part_state) : bool := match p with Idle | Finished | Failed => true | _ => false end.
Definition quiescent (j : rangeJob) (s : job_state) : bool :=
  forallb settled (js_parts s) && (bool_decide (is_Some (js_ctx s)) || (rj_count j <=? js_next s)).

(** [finish], once every worker has returned. *)
Definition finish (s : job_state) : option goerr :=
  match js_err s with
  | Some e => Some e
  | None => match js_ctx s with Some e => Some (networkError (js_ctx s) e) | None => None end
  end.

(** ** The parts cover the file *)

Definition job_ok (j : rangeJob) : Prop :=
  0 <= rj_from j < rj_total j /\ 0 < rj_part j /\ rj_count j = (rj_total j - rj_from j + rj_part j - 1) / rj_part j.

Lemma startRanges_ok connections sources pinned from total :
  0 <= from < total -> job_ok (startRanges connections sources pinned from total).
Proof. intros H. unfold job_ok, startRanges. cbn [rj_from rj_total rj_part rj_count]. unfold minPart. split; [lia|]. split; [|done]. assert (0 < Z.shiftl 1 20) by reflexivity. lia. Qed.

Lemma part_bounds j i : job_ok j -> 0 <= i < rj_count j ->
  rj_from j <= part_start j i < part_end j i /\ part_end j i <= rj_total j.
Proof.
  intros (Hf & Hp & Hc) Hi. unfold part_end, part_start.
  assert (rj_count j * rj_part j <= rj_total j - rj_from j + rj_part j - 1) by (rewrite Hc, Z.mul_comm; apply Z.mul_div_le; lia).
  nia.
Qed.

Lemma part_disjoint j i k : job_ok j -> 0 <= i < k -> part_end j i <= part_start j k.
Proof. intros (Hf & Hp & _) Hi. unfold part_end, part_start. nia. Qed.

Lemma part_cover j x : job_ok j -> rj_from j <= x < rj_total j ->
  exists i, 0 <= i < rj_count j /\ part_start j i <= x < part_end j i.
Proof.
  intros (Hf & Hp & Hc) Hx. exists ((x - rj_from j) / rj_part j).
  pose proof (Z.div_mod (x - rj_from j) (rj_part j) ltac:(lia)) as Hd.
  pose proof (Z.mod_pos_bound (x - rj_from j) (rj_part j) Hp) as Hm.
  assert (0 <= (x - rj_from j) / rj_part j) by (apply Z.div_pos; lia).
  split.
  - split; [done|]. rewrite Hc. assert ((x - rj_from j) / rj_part j + 1 <= (rj_total j - rj_from j + rj_part j - 1) / rj_part j); [|lia].
    apply Z.div_le_lower_bound; [lia|nia].
  - unfold part_end, part_start. nia.
Qed.

(** ** Honest servers *)

Definition agrees (f data : bytes) (a b : Z) : Prop := forall k, a <= k < b -> data !! Z.to_nat k = f !! Z.to_nat k.

(** HTTP (RFC 9110): a 206 response of one address with one strong validator
    carries the bytes of the file its Content-Range names, possibly cut off. *)
Definition honest_response (f : bytes) (j : rangeJob) (res : Response) : Prop :=
  forall source first last size,
    rs_status res = 206 -> finalURL res source = rp_url (rj_pinned j) -> strongETag (rs_etag res) = rp_etag (rj_pinned j) ->
    contentRange (rs_range res) = Some (first, last, size) ->
    mjoin (rs_body res) `prefix_of` slice first (last + 1) f.

Definition honest (f : bytes) (j : rangeJob) (a : action) (s : job_state) : Prop :=
  match a with
  | Respond _ (Ok res) => honest_response f j res
  | Receive p => p `prefix_of` drop (Z.to_nat (js_first s)) f
  | _ => True
  end.

Fixpoint honest_run (f : bytes) (j : rangeJob) (retries : Z) (actions : list action) (s : job_state) : Prop :=
  match actions with
  | [] => True
  | a :: actions => honest f j a s /\ honest_run f j retries actions (step j retries a s)
  end.

(** ** The invariant of a job *)

Section Job.
Context (f : bytes) (j : rangeJob) (retries : Z) (Hj : job_ok j) (Hf : rj_total j = len f).

Definition part_ok (i : nat) (w : Z) (p : part_state) (s : job_state) : Prop :=
  match p with
  | Idle => js_next s <= Z.of_nat i
  | Failed => is_Some (js_err s)
  | Finished => part_start j (Z.of_nat i) + w = part_end j (Z.of_nat i)
  | Copying _ _ body _ =>
      mjoin body `prefix_of` slice (part_start j (Z.of_nat i) + w) (part_end j (Z.of_nat i)) f
  | _ => True
  end.

Record inv (s : job_state) : Prop := {
  inv_data : len (js_data s) = rj_total j;
  inv_parts : len (js_parts s) = rj_count j;
  inv_written : len (js_written s) = rj_count j;
  inv_next : 0 <= js_next s;
  inv_first : 0 <= js_first s <= rj_from j /\ agrees f (js_data s) 0 (js_first s);
  inv_part : forall i p w, js_parts s !! i = Some p -> js_written s !! i = Some w ->
    0 <= w /\ part_start j (Z.of_nat i) + w <= part_end j (Z.of_nat i) /\
    agrees f (js_data s) (part_start j (Z.of_nat i)) (part_start j (Z.of_nat i) + w) /\ part_ok i w p s;
}.

Lemma inv_set_part i p s : inv s -> (forall w, js_written s !! i = Some w -> js_parts s !! i <> None -> part_ok i w p s) -> inv (set_part i p s).
Proof.
  intros [I1 I2 I3 I4 I5 I6] Hp. split; cbn [set_part js_data js_parts js_written js_next js_first]; try done.
  - unfold len. rewrite length_insert. exact I2.
  - intros i' p' w' H1 H2. destruct (decide (i = i')) as [->|Hne].
    + assert (i' < length (js_parts s))%nat as Hlt by (apply lookup_lt_Some in H1; by rewrite length_insert in H1).
      rewrite list_lookup_insert_eq in H1 by done. injection H1 as <-.
      destruct (lookup_lt_is_Some_2 (js_parts s) i' Hlt) as [p0 Hp0].
      destruct (I6 i' p0 w' Hp0 H2) as (A1 & A2 & A3 & _). split; [done|split; [done|split; [done|]]].
      specialize (Hp w' H2). rewrite Hp0 in Hp. specialize (Hp ltac:(done)). exact Hp.
    + rewrite list_lookup_insert_ne in H1 by done. exact (I6 i' p' w' H1 H2).
Qed.

Lemma inv_err s e c : inv s -> inv (mkState (js_data s) (js_first s) (js_written s) (js_parts s) (js_next s) (Some e) c (js_closed s)).
Proof.
  intros [I1 I2 I3 I4 I5 I6]. split; cbn [js_data js_parts js_written js_next js_first]; try done.
  intros i p w H1 H2. destruct (I6 i p w H1 H2) as (A1 & A2 & A3 & A4). split; [done|split; [done|split; [done|]]].
  destruct p; try done; cbn; eauto.
Qed.

Lemma inv_fail_part i e s : inv s -> inv (fail_part i e s).
Proof.
  intros Hi. unfold fail_part. destruct (js_err (set_part i Failed s)) eqn:E.
  - apply inv_set_part; [done|]. intros. cbn in E |- *. rewrite E. eauto.
  - assert (forall s' : job_state, set_part i Failed s = s' ->
      mkState (js_data s') (js_first s') (js_written s') (js_parts s') (js_next s') (Some e) (Some (default ErrCanceled (js_ctx s'))) (js_closed s') =
      set_part i Failed (mkState (js_data s) (js_first s) (js_written s) (js_parts s) (js_next s) (Some e) (Some (default ErrCanceled (js_ctx s))) (js_closed s))) as Heq
      by (intros s' <-; reflexivity).
    rewrite (Heq _ eq_refl). apply inv_set_part; [by apply inv_err|]. intros. cbn. eauto.
Qed.

Lemma inv_attempt_failed i attempt e s : inv s -> inv (attempt_failed retries i attempt e s).
Proof.
  intros Hi. unfold attempt_failed. destruct (as_recovery e); [by apply inv_fail_part|].
  destruct (js_ctx s); [by apply inv_fail_part|]. destruct (_ <? _); [by apply inv_set_part|by apply inv_fail_part].
Qed.

(** A response that passes the checks carries the bytes of the requested range. *)
Lemma checked_body source offset end_ res : honest_response f j res ->
  check_response j source offset end_ res = None -> mjoin (rs_body res) `prefix_of` slice offset end_ f.
Proof.
  intros Hh. unfold check_response. destruct (String.eqb_spec (finalURL res source) (rp_url (rj_pinned j))) as [Hu|]; [|done]. cbn [negb].
  destruct (Z.eqb_spec (rs_status res) 200); [done|]. destruct (Z.eqb_spec (rs_status res) 206) as [Hst|]; cbn [orb andb negb].
  - destruct (String.eqb_spec (strongETag (rs_etag res)) (rp_etag (rj_pinned j))) as [He|]; [|done]. cbn [negb].
    destruct (contentRange (rs_range res)) as [[[first last] size]|] eqn:Ec; [|done].
    destruct (_ || _) eqn:Eo; [done|]. bool_prop. intros _. subst first last.
    replace end_ with (end_ - 1 + 1) by lia. eapply Hh; eauto.
  - destruct (contentRange (rs_range res)) as [[[first last] size]|]; done.
Qed.

Lemma agrees_write data off p a b : 0 <= off -> off + len p <= len data -> p `prefix_of` slice off (off + len p) f ->
  agrees f data a b -> 0 <= a -> b <= len data -> agrees f (write_at off p data) a b /\ agrees f (write_at off p data) off (off + len p).
Proof.
  intros Ho Hl [k Hk] Ha Ha0 Hb.
  assert (forall i, off <= i < off + len p -> write_at off p data !! Z.to_nat i = f !! Z.to_nat i) as Hin.
  { intros i Hi. rewrite write_at_inside by lia.
    assert (slice off (off + len p) f !! Z.to_nat (i - off) = f !! Z.to_nat i) as <-.
    { unfold slice. rewrite lookup_take_lt by lia. rewrite lookup_drop. f_equal. lia. }
    rewrite Hk, lookup_app_l by (unfold len in *; lia). done. }
  split; [|exact Hin]. intros i Hi. destruct (decide (off <= i < off + len p)); [by apply Hin|].
  rewrite write_at_outside by lia. by apply Ha.
Qed.

Lemma prefix_of_slice_cons (p : bytes) (rest : list bytes) a b : 0 <= a -> b <= len f ->
  mjoin (p :: rest) `prefix_of` slice a b f -> len p <= b - a ->
  p `prefix_of` slice a (a + len p) f /\ mjoin rest `prefix_of` slice (a + len p) b f.
Proof.
  intros Ha Hb [k Hk] Hp. cbn [mjoin list_join] in Hk. rewrite <- app_assoc in Hk. pose proof (len_nonneg p).
  assert (slice a (a + len p) f = take (length p) (slice a b f)) as ->.
  { unfold slice. rewrite take_take. f_equal. unfold len in *. lia. }
  assert (slice (a + len p) b f = drop (length p) (slice a b f)) as ->.
  { unfold slice. rewrite skipn_firstn_comm, drop_drop. unfold len in *. f_equal; [lia|f_equal; lia]. }
  rewrite Hk, take_app_length, drop_app_length. split; [done|]. by exists k.
Qed.

Lemma inv_write i attempt offset p rest ending s :
  js_parts s !! i = Some (Copying attempt offset (p :: rest) ending) -> inv s ->
  inv (write_chunk retries i attempt offset p rest ending (part_end j (Z.of_nat i)) (part_start j (Z.of_nat i)) s).
Proof using Hj Hf.
  intros Hp Hi. unfold write_chunk. destruct (js_closed s); [by apply inv_attempt_failed|].
  destruct (Z.ltb_spec (part_end j (Z.of_nat i) - (part_start j (Z.of_nat i) + default 0 (js_written s !! i))) (len p));
    [by apply inv_attempt_failed|].
  destruct Hi as [I1 I2 I3 I4 I5 I6].
  assert (i < length (js_parts s))%nat as Hlt by (by eapply lookup_lt_Some).
  assert (exists w, js_written s !! i = Some w) as [w Hw] by (apply lookup_lt_is_Some_2; unfold len in *; lia).
  rewrite Hw in *. change (default 0 (Some w)) with w in *. destruct (I6 _ _ _ Hp Hw) as (W0 & W1 & W2 & W3). cbn in W3.
  assert (0 <= Z.of_nat i < rj_count j) as Hic by (unfold len in *; lia).
  pose proof (part_bounds j _ Hj Hic) as [B1 B2]. pose proof (len_nonneg p) as Hlp. destruct Hj as (Hj1 & _).
  destruct (prefix_of_slice_cons p rest (part_start j (Z.of_nat i) + w) (part_end j (Z.of_nat i)) ltac:(lia) ltac:(lia) W3 ltac:(lia)) as [Hpre Hrest].
  split; cbn [js_data js_parts js_written js_next js_first].
  - rewrite write_at_length by lia. lia.
  - unfold len. by rewrite length_insert.
  - unfold len. by rewrite length_insert.
  - done.
  - split; [lia|]. eapply agrees_write; [lia|lia|done| |lia|lia]. apply I5.
  - intros i' p' w' H1 H2. destruct (decide (i = i')) as [<-|Hne].
    + rewrite list_lookup_insert_eq in H1 by done. rewrite list_lookup_insert_eq in H2 by (unfold len in *; lia).
      injection H1 as <-. injection H2 as <-.
      destruct (agrees_write (js_data s) (part_start j (Z.of_nat i) + w) p (part_start j (Z.of_nat i)) (part_start j (Z.of_nat i) + w))
        as [A1 A2]; [lia|lia|done|done|lia|lia|].
      split; [lia|]. split; [lia|]. split.
      * intros k Hk. destruct (Z.lt_ge_cases k (part_start j (Z.of_nat i) + w)); [apply A1; lia|apply A2; lia].
      * cbn. by rewrite Z.add_assoc.
    + rewrite list_lookup_insert_ne in H1 by done. rewrite list_lookup_insert_ne in H2 by done. destruct (I6 _ _ _ H1 H2) as (V0 & V1 & V2 & V3).
      assert (0 <= Z.of_nat i' < rj_count j) as Hic' by (apply lookup_lt_Some in H1; unfold len in *; lia).
      pose proof (part_bounds j _ Hj Hic') as [C1 C2].
      split; [done|split; [done|split; [|done]]]. eapply agrees_write; [lia|lia|done|done|lia|lia].
Qed.

Lemma inv_frame s first next ctx closed data :
  inv s -> len data = rj_total j -> 0 <= next -> (forall i, js_parts s !! i = Some Idle -> next <= Z.of_nat i) ->
  0 <= first <= rj_from j /\ agrees f data 0 first ->
  (forall a b, 0 <= a -> b <= rj_total j -> agrees f (js_data s) a b -> agrees f data a b) ->
  inv (mkState data first (js_written s) (js_parts s) next (js_err s) ctx closed).
Proof using Hj.
  intros [I1 I2 I3 I4 I5 I6] Hd Hn Hidle Hfirst Ha. split; cbn [js_data js_parts js_written js_next js_first]; try done.
  intros i p w H1 H2. destruct (I6 _ _ _ H1 H2) as (V0 & V1 & V2 & V3).
  assert (0 <= Z.of_nat i < rj_count j) as Hic by (apply lookup_lt_Some in H1; unfold len in *; lia).
  pose proof (part_bounds j _ Hj Hic) as [C1 C2]. destruct Hj as (Hj1 & _).
  split; [done|split; [done|split; [apply Ha; [lia|lia|done]|]]].
  destruct p; try done. by apply Hidle.
Qed.

Lemma inv_step a s : honest f j a s -> inv s -> inv (step j retries a s).
Proof using Hj Hf.
  intros Hh Hi. pose proof Hi as [I1 I2 I3 I4 [I5 I5'] I6]. destruct a as [p| |i av se al|i r|i|i|e|]; cbn [step].
  - destruct (js_closed s || (rj_from j - js_first s <? len p)) eqn:E; [done|]. bool_prop. pose proof (len_nonneg p). destruct Hj as (Hj1 & _).
    assert (p `prefix_of` slice (js_first s) (js_first s + len p) f) as Hp.
    { destruct Hh as [k Hk]. exists []. rewrite app_nil_r. unfold slice. rewrite Hk. unfold len.
      replace (Z.to_nat _) with (length p) by lia. apply take_app_length. }
    apply inv_frame; [done|rewrite write_at_length by lia; lia|done| | |].
    + intros i Hidle. assert (i < length (js_written s))%nat as [w Hw]%lookup_lt_is_Some_2
        by (apply lookup_lt_Some in Hidle; unfold len in *; lia).
      by destruct (I6 _ _ _ Hidle Hw) as (_ & _ & _ & ?).
    + split; [lia|]. destruct (agrees_write (js_data s) (js_first s) p 0 (js_first s)) as [A1 A2]; [lia|lia|done|done|lia|lia|].
      intros k Hk. destruct (Z.lt_ge_cases k (js_first s)); [apply A1; lia|apply A2; lia].
    + intros a b Ha Hb Hab. eapply agrees_write; [lia|lia|done|done|lia|lia].
  - destruct (bool_decide _); [done|].
    assert (inv (mkState (js_data s) (js_first s) (js_written s) (<[Z.to_nat (js_next s) := Ready 0]> (js_parts s)) (js_next s)
      (js_err s) (js_ctx s) (js_closed s))) as Hset by (by apply (inv_set_part (Z.to_nat (js_next s)) (Ready 0) s Hi)).
    assert (forall i, js_parts s !! i = Some Idle -> js_next s <= Z.of_nat i) as Hidle.
    { intros i Hl. assert (i < length (js_written s))%nat as [w Hw]%lookup_lt_is_Some_2
        by (apply lookup_lt_Some in Hl; unfold len in *; lia).
      by destruct (I6 _ _ _ Hl Hw) as (_ & _ & _ & ?). }
    destruct (Z.leb_spec (rj_count j) (js_next s)).
    + apply inv_frame; try done; [lia|]. intros i Hl. pose proof (lookup_lt_Some _ _ _ Hl). specialize (Hidle i Hl). unfold len in *. lia.
    + apply (inv_frame _ (js_first s) (js_next s + 1) (js_ctx s) (js_closed s) (js_data s) Hset); try done; [lia|].
      cbn [js_parts]. intros i Hl. destruct (decide (i = Z.to_nat (js_next s))) as [->|Hne].
      * rewrite list_lookup_insert_eq in Hl by (unfold len in *; lia). done.
      * rewrite list_lookup_insert_ne in Hl by done. specialize (Hidle i Hl). lia.
  - destruct (js_parts s !! i) as [[]|]; try done. destruct (negb av); [by apply inv_fail_part|].
    destruct se; [by apply inv_fail_part|]. destruct al; [by apply inv_set_part|by apply inv_fail_part].
  - destruct (js_parts s !! i) as [[]|] eqn:Ep; try done. destruct r as [res|e]; [|by apply inv_attempt_failed].
    destruct (check_response _ _ _ _ _) as [[]|] eqn:Ec; [by apply inv_fail_part|by apply inv_attempt_failed|].
    apply inv_set_part; [done|]. intros w Hw _. cbn. eapply checked_body; [exact Hh|]. rewrite Hw in Ec. exact Ec.
  - destruct (js_parts s !! i) as [[| | |attempt offset [|p rest] ending| |]|] eqn:Ep; try done. by apply inv_write.
  - destruct (js_parts s !! i) as [[| | |attempt offset [|p rest] ending| |]|] eqn:Ep; try done.
    destruct ending; [by apply inv_attempt_failed|]. destruct (Z.eqb_spec (part_start j (Z.of_nat i) + default 0 (js_written s !! i) - offset)
      (part_end j (Z.of_nat i) - offset)) as [He|]; [|by apply inv_attempt_failed].
    apply inv_set_part; [done|]. intros w Hw _. rewrite Hw in He. change (default 0 (Some w)) with w in He. cbn. lia.
  - apply inv_frame; try done. intros i Hl. assert (i < length (js_written s))%nat as [w Hw]%lookup_lt_is_Some_2
      by (apply lookup_lt_Some in Hl; unfold len in *; lia). by destruct (I6 _ _ _ Hl Hw) as (_ & _ & _ & ?).
  - apply inv_frame; try done. intros i Hl. assert (i < length (js_written s))%nat as [w Hw]%lookup_lt_is_Some_2
      by (apply lookup_lt_Some in Hl; unfold len in *; lia). by destruct (I6 _ _ _ Hl Hw) as (_ & _ & _ & ?).
Qed.

Lemma inv_run actions s : honest_run f j retries actions s -> inv s -> inv (run j retries actions s).
Proof using Hj Hf.
  revert s. induction actions as [|a actions IH]; intros s Hh Hi; [done|]. cbn in *. destruct Hh as [H1 H2].
  apply IH; [done|]. by apply inv_step.
Qed.

Lemma inv_init data : len data = rj_total j -> inv (init_state j data).
Proof using Hj.
  intros Hd. pose proof Hj as (Hj1 & Hj2 & Hj3).
  assert (0 <= rj_count j) by (rewrite Hj3; apply Z.div_pos; lia).
  split; cbn [init_state js_data js_parts js_written js_next js_first]; try done; try lia.
  - unfold len. rewrite length_replicate. lia.
  - unfold len. rewrite length_replicate. lia.
  - split; [lia|]. intros k. lia.
  - intros i p w [-> Hlt]%lookup_replicate_1 [-> _]%lookup_replicate_1. cbn.
    assert (0 <= Z.of_nat i < rj_count j) as Hic by lia. pose proof (part_bounds j _ Hj Hic).
    split; [done|]. split; [lia|]. split; [|lia]. intros k. lia.
Qed.

(** A finished job has every byte of the file. *)
Lemma finished_data s : inv s -> quiescent j s = true -> finish s = None -> js_first s = rj_from j -> js_data s = f.
Proof using Hj Hf.
  intros [I1 I2 I3 I4 [I5 I5'] I6] Hq Hfin Hfirst.
  unfold finish in Hfin. destruct (js_err s) eqn:Ee; [done|]. destruct (js_ctx s) eqn:Ec; [done|].
  unfold quiescent in Hq. rewrite Ec in Hq. bool_prop. apply forallb_Forall in H. rewrite bool_decide_eq_false_2 in H0 by (by intros [? ?]).
  destruct H0 as [|H0]; [done|]. bool_prop. pose proof Hj as (Hj1 & _).
  apply list_eq_same_length with (n := length f); [done|unfold len in *; lia|].
  intros k x y Hk Hx Hy. assert (0 <= Z.of_nat k < rj_total j) as Hkr by (unfold len in *; lia).
  cut (js_data s !! Z.to_nat (Z.of_nat k) = f !! Z.to_nat (Z.of_nat k)).
  { rewrite Nat2Z.id, Hx, Hy. by intros [= ->]. }
  destruct (Z.lt_ge_cases (Z.of_nat k) (rj_from j)); [apply I5'; lia|].
  destruct (part_cover j (Z.of_nat k) Hj ltac:(lia)) as (i & Hic & Hib). rewrite <- (Z2Nat.id i) in Hib by lia.
  assert (exists p, js_parts s !! Z.to_nat i = Some p) as [p Hp] by (apply lookup_lt_is_Some_2; unfold len in *; lia).
  assert (exists w, js_written s !! Z.to_nat i = Some w) as [w Hw] by (apply lookup_lt_is_Some_2; unfold len in *; lia).
  destruct (I6 _ _ _ Hp Hw) as (W0 & W1 & W2 & W3). pose proof (Forall_lookup_1 _ _ _ _ H Hp) as Hs.
  destruct p; try done; cbn in W3.
  - rewrite Z2Nat.id in W3 by lia. lia.
  - apply W2. lia.
  - rewrite Ee in W3. by destruct W3.
Qed.
End Job.

(** C3. A ranged transfer delivers the file and nothing else.  For every file,
    number of connections and parts, in every interleaving of requests, chunks,
    failed attempts, retries from other sources and cancellations, and whatever
    the server answers as long as a 206 of the pinned address and strong ETag
    carries the bytes its Content-Range names: when the workers have stopped
    and [finish] reports no error, the buffer holds exactly the file. *)
Theorem ranged_transfer f connections sources pinned from retries actions buffer :
  0 <= from < len f -> len buffer = len f ->
  let j := startRanges connections sources pinned from (len f) in
  let s := run j retries actions (init_state j buffer) in
  honest_run f j retries actions (init_state j buffer) ->
  quiescent j s = true -> js_first s = from -> finish s = None -> js_data s = f.
Proof.
  intros Hfrom Hb j s Hh Hq Hfirst Hfin.
  pose proof (startRanges_ok connections sources pinned from (len f) Hfrom) as Hj.
  apply (finished_data f j); try done. apply inv_run; [done|done|done|]. by apply inv_init.
Qed.

(** A ten-byte file whose second part is cut off once and resumed. *)
Definition sample_etag : string := String quote ("v1" +:+ String quote "").
Definition sample_response (range : string) (body : list bytes) (ending : option goerr) : Response :=
  mkResponse 206 (-1) (Some "https://cdn/x"%string) sample_etag range body ending.
Definition sample_actions : list action :=
  [Receive [0; 1]; Take; Respond 0 (Ok (sample_response "bytes 4-9/10" [[4; 5]; [6]] (Some (ErrNetwork false)))); Chunk 0;
   Receive [2; 3]; Chunk 0; BodyEnd 0; Permit 0 true None true;
   Respond 0 (Ok (sample_response "bytes 7-9/10" [[7; 8; 9]] None)); Chunk 0; BodyEnd 0].

Lemma ranged_transfer_witness :
  let f := [0; 1; 2; 3; 4; 5; 6; 7; 8; 9] in
  let j := startRanges 4 ["https://cdn/x"%string] (mkRep "https://cdn/x" sample_etag) 4 10 in
  js_data (run j 3 sample_actions (init_state j (replicate 10 0))) = f.
Proof.
  intros f j. apply (ranged_transfer f 4 ["https://cdn/x"%string] (mkRep "https://cdn/x" sample_etag) 4 3 sample_actions (replicate 10 0)).
  - unfold len; simpl; lia.
  - reflexivity.
  - assert (forall range body ending, (forall first last size, contentRange range = Some (first, last, size) ->
      mjoin body `prefix_of` slice first (last + 1) f) -> honest_response f j (sample_response range body ending)) as Hh.
    { intros range body ending H source first last size _ _ _ Hc. by eapply H. }
    cbn [honest_run sample_actions honest]. repeat split; try (eexists; reflexivity).
    + apply Hh. intros first last size [= <- <- <-]. by exists [7; 8; 9].
    + apply Hh. intros first last size [= <- <- <-]. by exists [].
  - vm_compute. reflexivity.
  - vm_compute. reflexivity.
  - vm_compute. reflexivity.
Defined.

(** ** One transfer *)

(** The first response, or the whole file in a second one when the first cannot
    be validated: the response to read, whether parts follow, the file size,
    the bytes this response carries, and the pinned representation. *)
Definition choose_response (ctxErr : option goerr) (ranged : bool) (source : string) (first_res : res goerr Response)
    (whole : res goerr Response) : res goerr (Response * bool * Z * Z * representation) :=
  match first_res with
  | Err e => Err (networkError ctxErr e)
  | Ok r =>
      if (rs_status r =? 206) && ranged then
        match contentRange (rs_range r) with
        | None => Err invalidRange
        | Some (first, last, size) =>
            if negb (first =? 0) || ((0 <=? rs_length r) && negb (rs_length r =? last + 1)) then Err invalidRange
            else
              let pinned := mkRep (finalURL r source) (strongETag (rs_etag r)) in
              if (last + 1 <? size) && String.eqb (rp_etag pinned) "" then
                match whole with
                | Err e => Err (networkError ctxErr e)
                | Ok w =>
                    if negb (rs_status w =? 200) then Err unsuccessful
                    else Ok (w, false, rs_length w, rs_length w, pinned)
                end
              else Ok (r, true, size, last + 1, pinned)
        end
      else if rs_status r =? 200 then Ok (r, false, rs_length r, rs_length r, mkRep "" "")
      else Err unsuccessful
  end.

(** [downloadAsset]: the smaller of the two positive limits. *)
Definition effective_limit (maxAssetBytes maxBytes : Z) : Z :=
  if (0 <? maxAssetBytes) && ((maxBytes <=? 0) || (maxAssetBytes <? maxBytes)) then maxAssetBytes else maxBytes.

Record file := mkFile { fl_data : bytes; fl_type : string; fl_name : string; fl_size : Z; fl_width : Z; fl_height : Z; fl_sum : string }.

(** The state of the reading loop. *)
Record rcv := mkRcv {
  rv_received : Z;
  rv_prefix : bytes;
  rv_mime : string;
  rv_data : bytes;
  rv_job : option rangeJob;
  rv_started : list (string * Z);    (* announcements: type and size *)
}.

Section Transfer.
Context (kind filename source : string) (maximum connections : Z) (announced checksum : bool).
(** [ctx.Err()] after so many reads, the error of the write of a read, of
    closing the body, of allocating the buffer, and of hashing a ranged file. *)
Context (ctxErr : nat -> option goerr) (writeErr : nat -> option goerr) (closeErr newErr hashErr : option goerr).
(** The other parts: [finish]'s error, or the buffer; and the checksum. *)
Context (ranges : rangeJob -> bytes -> res goerr bytes) (sha256 : bytes -> string).
Context (r : Response) (ranged : bool) (total end_ : Z) (pinned : representation).

Definition announce (s : rcv) : rcv * option goerr :=
  let mime := detectMedia (rv_prefix s) kind in
  let s := mkRcv (rv_received s) (rv_prefix s) mime (rv_data s) (rv_job s) (rv_started s) in
  if String.eqb mime "" then (s, Some (upstream "Upstream returned unsupported media bytes"))
  else if String.eqb kind "video" && negb (String.eqb mime "video/mp4") then (s, Some (upstream "Upstream video is not MP4"))
  else
    let job := if ranged && (end_ <? total) then Some (startRanges connections (partSources r source) pinned end_ total) else None in
    let started := if announced && (0 <=? total) then rv_started s ++ [(mime, total)] else rv_started s in
    (mkRcv (rv_received s) (rv_prefix s) mime (rv_data s) job started, None).

Definition receive_prefix (p : bytes) (s : rcv) : rcv * option goerr :=
  if len (rv_prefix s) <? 512 then
    let prefix := rv_prefix s ++ take (Z.to_nat (Z.min (len p) (512 - len (rv_prefix s)))) p in
    let s := mkRcv (rv_received s) prefix (rv_mime s) (rv_data s) (rv_job s) (rv_started s) in
    if len prefix =? 512 then announce s else (s, None)
  else (s, None).

Definition receive_chunk (k : nat) (p : bytes) (s : rcv) : rcv * option goerr :=
  if len p =? 0 then (s, None)
  else if (0 <=? end_) && (end_ - rv_received s <? len p) then (s, Some (upstream "Media download exceeds its declared length"))
  else if (0 <? maximum) && (maximum - rv_received s <? len p) then (s, Some tooLarge)
  else
    let '(s, e) := receive_prefix p s in
    match e with
    | Some e => (s, Some e)
    | None =>
        match writeErr k with
        | Some e => (s, Some e)
        | None => (mkRcv (rv_received s + len p) (rv_prefix s) (rv_mime s) (rv_data s ++ p) (rv_job s) (rv_started s), None)
        end
    end.

Fixpoint receive (k : nat) (chunks : list bytes) (s : rcv) : rcv * option goerr :=
  match chunks with
  | [] => (s, match rs_end r with Some e => Some (networkError (ctxErr k) e) | None => None end)
  | p :: chunks =>
      let '(s, e) := receive_chunk k p s in
      match e with
      | Some e => (s, Some e)
      | None =>
          match ctxErr (S k) with
          | Some e => (s, Some (networkError (Some e) e))
          | None => receive (S k) chunks s
          end
      end
  end.

(** After the loop: the announcement a short file still owes. *)
Definition received_all (s : rcv) : rcv * option goerr :=
  if (rv_received s =? 0) || ((0 <=? end_) && negb (rv_received s =? end_)) then (s, Some truncated)
  else if String.eqb (rv_mime s) "" then announce s
  else (s, None).

(** The rest of the transfer, over the complete first response. *)
Definition complete (n : nat) (s : rcv) : res goerr file :=
  match closeErr with
  | Some e => Err e
  | None =>
      let? data := match rv_job s with Some j => ranges j (rv_data s) | None => Ok (rv_data s) end in
      match ctxErr n with
      | Some e => Err (networkError (Some e) e)
      | None =>
          if (0 <=? total) && negb (len data =? total) then Err truncated
          else
            guard? negb (checksum && bool_decide (is_Some (rv_job s)) && bool_decide (is_Some hashErr))
            else default truncated hashErr in
            let? (width, height) :=
              (if String.eqb kind "video" then
                 match mediaDimensions (Bytes data) with
                 | Ok d => Ok d
                 | Err _ => Err (upstream "Upstream MP4 is invalid or incomplete")
                 end
               else Ok (0, 0)) in
            match ctxErr (S n) with
            | Some e => Err (networkError (Some e) e)
            | None =>
                Ok (mkFile data (rv_mime s) (FilenameForType filename (rv_mime s)) (len data) width height
                      (if checksum then sha256 data else ""))
            end
      end
  end.

(** From the first body byte to the result, with what was announced. *)
Definition transfer : list (string * Z) * res goerr file :=
  if (0 <? maximum) && (maximum <? total) then ([], Err tooLarge)
  else
    match newErr with
    | Some e => ([], Err e)
    | None =>
        let '(s, e) := receive 0 (rs_body r) (mkRcv 0 [] "" [] None []) in
        match e with
        | Some e => (rv_started s, Err e)
        | None =>
            let '(s, e) := received_all s in
            match e with
            | Some e => (rv_started s, Err e)
            | None => (rv_started s, complete (S (length (rs_body r))) s)
            end
        end
    end.
End Transfer.

(** [downloadOnce] *)
Definition downloadOnce (kind filename source : string) (maximum connections : Z) (announced checksum : bool)
    (ctxErr writeErr : nat -> option goerr) (closeErr newErr hashErr : option goerr) (ranges : rangeJob -> bytes -> res goerr bytes)
    (sha256 : bytes -> string) (first_res whole : res goerr Response) : list (string * Z) * res goerr file :=
  match choose_response (ctxErr 0%nat) (1 <? connections) source first_res whole with
  | Err e => ([], Err e)
  | Ok (r, ranged, total, end_, pinned) =>
      transfer kind filename source maximum connections announced checksum ctxErr writeErr closeErr newErr hashErr ranges sha256
        r ranged total end_ pinned
  end.

(** ** Attempts *)

Definition retryDelay (delay timeout jitter : Z) (attempt : Z) : Z :=
  let d := Z.min (i64 (delay * Z.shiftl 1 (Z.min attempt 10))) timeout in
  Z.min (d + jitter) timeout.

(** Errors that end [download] at once. *)
Definition final_error (e : goerr) : bool :=
  match as_recovery e with
  | Some _ => true
  | None =>
      match as_core e with
      | Some api => String.eqb (Code api) "asset_too_large" || String.eqb (Code api) "service_not_configured"
      | None => false
      end
  end.

Section Attempts.
Context {A : Type}.
(** Per attempt: [ctx.Err()] before it, [AllowRetry], the outcome from a source,
    [RetryAvailable] after it, and the error of the back-off. *)
Context (ctxErr : nat -> option goerr) (allowed available : nat -> bool) (outcome : nat -> nat -> res goerr A) (sleepErr : nat -> option goerr).

(** [left] attempts remain of [max(len(sources), DownloadRetries)]. *)
Fixpoint download_loop (left_ : nat) (attempt nsources : nat) (last : goerr) : res goerr A :=
  match left_ with
  | O => Err last
  | S left_ =>
      match ctxErr attempt with
      | Some e => Err (networkError (Some e) e)
      | None =>
          if (0 <? Z.of_nat attempt) && negb (allowed attempt) then Err last
          else
            match outcome attempt (Nat.modulo attempt nsources) with
            | Ok a => Ok a
            | Err e =>
                if final_error e then Err e
                else if negb (available attempt) then Err e
                else
                  match left_, sleepErr attempt with
                  | S _, Some e' => Err (networkError (ctxErr attempt) e')
                  | _, _ => download_loop left_ (S attempt) nsources e
                  end
            end
      end
  end.

Definition download (nsources : nat) (retries : Z) (none : goerr) : res goerr A :=
  download_loop (Nat.max nsources (Z.to_nat retries)) 0 nsources none.
End Attempts.

(** ** What a transfer announces and returns *)

Section TransferSpec.
Context (kind filename source : string) (maximum connections : Z) (announced checksum : bool).
Context (ctxErr : nat -> option goerr) (writeErr : nat -> option goerr) (closeErr newErr hashErr : option goerr).
Context (ranges : rangeJob -> bytes -> res goerr bytes) (sha256 : bytes -> string).
Context (r : Response) (ranged : bool) (total end_ : Z) (pinned : representation).

Definition good_type (mime : string) : Prop := mime <> ""%string /\ (kind = "video"%string -> mime = "video/mp4"%string).
Definition the_job : option rangeJob :=
  if ranged && (end_ <? total) then Some (startRanges connections (partSources r source) pinned end_ total) else None.
Definition the_started (mime : string) : list (string * Z) := if announced && (0 <=? total) then [(mime, total)] else [].

Definition validated (s : rcv) : Prop :=
  good_type (rv_mime s) /\ rv_mime s = detectMedia (rv_prefix s) kind /\ rv_job s = the_job /\ rv_started s = the_started (rv_mime s).

Record rcv_ok (d : bytes) (s : rcv) : Prop := {
  ro_data : rv_data s = d;
  ro_received : rv_received s = len d;
  ro_prefix : rv_prefix s = take 512 d;
  ro_end : 0 <= end_ -> len d <= end_;
  ro_max : 0 < maximum -> len d <= maximum;
  ro_state : (len d < 512 /\ rv_mime s = ""%string /\ rv_job s = None /\ rv_started s = []) \/ (512 <= len d /\ validated s);
}.

Definition started_ok (l : list (string * Z)) : Prop := l = [] \/ exists mime, good_type mime /\ l = the_started mime.

Lemma rcv_ok_started d s : rcv_ok d s -> started_ok (rv_started s).
Proof. intros [_ _ _ _ _ [(_ & _ & _ & ->)|(_ & H & _ & _ & ->)]]; [by left|right; eauto]. Qed.

Lemma announce_spec s s' e : rv_job s = None -> rv_started s = [] ->
  announce kind source connections announced r ranged total end_ pinned s = (s', e) ->
  started_ok (rv_started s') /\
  (e = None -> validated s' /\ rv_data s' = rv_data s /\ rv_received s' = rv_received s /\ rv_prefix s' = rv_prefix s).
Proof.
  intros Hj Hs. unfold announce. destruct (String.eqb_spec (detectMedia (rv_prefix s) kind) "") as [|Hne].
  { intros [= <- <-]. split; [by left|done]. }
  destruct (String.eqb_spec kind "video") as [Hk|Hk]; cbn [andb].
  - destruct (String.eqb_spec (detectMedia (rv_prefix s) kind) "video/mp4") as [Hm|]; cbn [negb].
    + intros [= <- <-]. cbn [rv_started]. rewrite Hs. split; [right; exists (detectMedia (rv_prefix s) kind); by repeat split|].
      intros _. by repeat split.
    + intros [= <- <-]. split; [by left|done].
  - intros [= <- <-]. cbn [rv_started]. rewrite Hs. split; [right; exists (detectMedia (rv_prefix s) kind); by repeat split|].
    intros _. by repeat split.
Qed.

Lemma receive_prefix_spec d p s s' e : rcv_ok d s ->
  receive_prefix kind source connections announced r ranged total end_ pinned p s = (s', e) ->
  started_ok (rv_started s') /\
  (e = None -> rv_data s' = d /\ rv_received s' = len d /\ rv_prefix s' = take 512 (d ++ p) /\
    ((len (d ++ p) < 512 /\ rv_mime s' = ""%string /\ rv_job s' = None /\ rv_started s' = []) \/ (512 <= len (d ++ p) /\ validated s'))).
Proof.
  intros Hok. pose proof Hok as [R1 R2 R3 R4 R5 R6]. unfold receive_prefix. pose proof (len_nonneg p) as Hp.
  assert (len (rv_prefix s) = Z.min 512 (len d)) as Hl by (rewrite R3; unfold len; rewrite length_take; lia).
  destruct (Z.ltb_spec (len (rv_prefix s)) 512).
  - destruct R6 as [(Hd & Rm & Rj & Rs)|[Hd _]]; [|lia].
    assert (rv_prefix s ++ take (Z.to_nat (Z.min (len p) (512 - len (rv_prefix s)))) p = take 512 (d ++ p)) as Hpre.
    { rewrite Hl, R3, take_app. f_equal. destruct (Z.le_gt_cases (len p) (512 - Z.min 512 (len d))).
      - rewrite Z.min_l by lia. rewrite !firstn_all2; [done|unfold len in *; lia|unfold len in *; lia].
      - rewrite Z.min_r by lia. f_equal. unfold len in *. lia. }
    rewrite Hpre. destruct (Z.eqb_spec (len (take 512 (d ++ p))) 512) as [He|He].
    + intros Ha. eapply announce_spec in Ha as [H1 H2]; [|done|done]. split; [done|]. intros ->. destruct (H2 eq_refl) as (V & E1 & E2 & E3).
      cbn in E1, E2, E3. rewrite E1, E2, E3. split; [done|split; [done|split; [done|]]]. right. split; [|done].
      unfold len in *. rewrite length_take in He. lia.
    + intros [= <- <-]. cbn [rv_started]. split; [by left|]. intros _. cbn. split; [done|split; [done|split; [done|]]]. left.
      split; [|done]. unfold len in *. rewrite length_take in He. lia.
  - intros [= <- <-]. split; [by eapply rcv_ok_started|]. intros _. destruct R6 as [(Hd & _)|[Hd V]]; [lia|].
    split; [done|split; [done|split]].
    + rewrite R3, take_app. replace (512 - length d)%nat with O by (unfold len in *; lia). by rewrite take_0, app_nil_r.
    + right. split; [rewrite len_app; lia|done].
Qed.

Lemma receive_chunk_spec k d p s s' e : rcv_ok d s ->
  receive_chunk kind source maximum connections announced writeErr r ranged total end_ pinned k p s = (s', e) ->
  started_ok (rv_started s') /\ (e = None -> rcv_ok (d ++ p) s').
Proof.
  intros Hok. pose proof (rcv_ok_started _ _ Hok) as Hst. pose proof Hok as [R1 R2 R3 R4 R5 R6]. unfold receive_chunk.
  destruct (Z.eqb_spec (len p) 0) as [H0|Hne].
  { intros [= <- <-]. split; [done|]. intros _. assert (p = []) as -> by (destruct p; [done|rewrite len_cons in H0; pose proof (len_nonneg p); lia]).
    by rewrite app_nil_r. }
  destruct ((0 <=? end_) && (end_ - rv_received s <? len p)) eqn:Eend; [by intros [= <- <-]|].
  destruct ((0 <? maximum) && (maximum - rv_received s <? len p)) eqn:Emax; [by intros [= <- <-]|].
  destruct (receive_prefix _ _ _ _ _ _ _ _ _ p s) as [s1 e1] eqn:Ep. destruct (receive_prefix_spec d p s s1 e1 Hok Ep) as [P1 P2].
  destruct e1 as [e1|]; [by intros [= <- <-]|]. destruct (writeErr k); [by intros [= <- <-]|]. intros [= <- <-]. split; [done|]. intros _.
  destruct (P2 eq_refl) as (E1 & E2 & E3 & E4). rewrite R2 in Eend, Emax.
  split; cbn [rv_data rv_received rv_prefix rv_mime rv_job rv_started]; rewrite ?len_app, ?E1, ?E2; try done.
  - intros He. destruct (0 <=? end_) eqn:El; [cbn [andb] in Eend; bool_prop; lia|bool_prop; lia].
  - intros He. destruct (0 <? maximum) eqn:El; [cbn [andb] in Emax; bool_prop; lia|bool_prop; lia].
  - rewrite len_app in E4. exact E4.
Qed.

Lemma receive_spec chunks k d s s' e : rcv_ok d s ->
  receive kind source maximum connections announced ctxErr writeErr r ranged total end_ pinned k chunks s = (s', e) ->
  started_ok (rv_started s') /\ (e = None -> rcv_ok (d ++ mjoin chunks) s').
Proof.
  revert k d s. induction chunks as [|p chunks IH]; intros k d s Hok; cbn [receive mjoin list_join].
  - intros [= <- He]. split; [by eapply rcv_ok_started|]. intros _. by rewrite app_nil_r.
  - destruct (receive_chunk _ _ _ _ _ _ _ _ _ _ _ k p s) as [s1 e1] eqn:Ec. destruct (receive_chunk_spec k d p s s1 e1 Hok Ec) as [P1 P2].
    destruct e1; [by intros [= <- <-]|]. destruct (ctxErr (S k)); [by intros [= <- <-]|].
    intros Hr. destruct (IH (S k) (d ++ p) s1 (P2 eq_refl) Hr) as [Q1 Q2]. split; [done|]. rewrite <- app_assoc in Q2. exact Q2.
Qed.

Lemma rcv_ok_init : rcv_ok [] (mkRcv 0 [] "" [] None []).
Proof.
  split; cbn [rv_data rv_received rv_prefix rv_mime rv_job rv_started];
    try reflexivity; try (intros; rewrite len_nil; lia).
  left. by rewrite len_nil.
Qed.

(** Every announcement of a transfer and every success. *)
Lemma transfer_spec started result : (ranged = true -> 0 <= end_ <= total) -> (ranged = false -> total = end_) ->
  transfer kind filename source maximum connections announced checksum ctxErr writeErr closeErr newErr hashErr ranges sha256
    r ranged total end_ pinned = (started, result) ->
  started_ok started /\ (started <> [] -> 0 < maximum -> total <= maximum) /\
  (forall f, result = Ok f ->
     let d := mjoin (rs_body r) in
     good_type (fl_type f) /\ fl_type f = detectMedia (take 512 d) kind /\ started = the_started (fl_type f) /\
     0 < len d /\ fl_size f = len (fl_data f) /\ (0 < maximum -> fl_size f <= maximum) /\ (0 <= total -> fl_size f = total) /\
     (kind = "video"%string -> mediaDimensions (Bytes (fl_data f)) = Ok (fl_width f, fl_height f)) /\
     (fl_data f = d \/ exists j, the_job = Some j /\ ranges j d = Ok (fl_data f))).
Proof.
  intros Hr Hn. unfold transfer. destruct ((0 <? maximum) && (maximum <? total)) eqn:Emax; [intros [= <- <-]; split; [by left|by split]|].
  assert (0 < maximum -> total <= maximum) as Hmax.
  { intros Hm. apply andb_false_iff in Emax as [E|E]; bool_prop; lia. }
  destruct newErr; [intros [= <- <-]; split; [by left|by split]|].
  destruct (receive _ _ _ _ _ _ _ _ _ _ _ _ 0 (rs_body r) _) as [s1 e1] eqn:E1.
  apply (receive_spec _ _ []) in E1 as [P1 P2]; [|exact rcv_ok_init].
  destruct e1; [intros [= <- <-]; by split|]. specialize (P2 eq_refl). cbn [app] in P2. set (d := mjoin (rs_body r)) in *.
  destruct P2 as [R1 R2 R3 R4 R5 R6]. unfold received_all. rewrite R2.
  destruct ((len d =? 0) || ((0 <=? end_) && negb (len d =? end_))) eqn:Et; [intros [= <- <-]; by split|]. bool_prop.
  assert (exists s2 e2, (if String.eqb (rv_mime s1) "" then announce kind source connections announced r ranged total end_ pinned s1
    else (s1, None)) = (s2, e2) /\ started_ok (rv_started s2) /\ (e2 = None -> validated s2 /\ rv_data s2 = d /\ rv_prefix s2 = take 512 d))
    as (s2 & e2 & -> & A1 & A2).
  { destruct R6 as [(L1 & -> & L3 & L4)|(L1 & V)].
    - rewrite String.eqb_refl. destruct (announce _ _ _ _ _ _ _ _ _ s1) as [s2 e2] eqn:Ea. exists s2, e2. split; [done|].
      apply announce_spec in Ea as [A1 A2]; [|done|done]. split; [done|]. intros He. destruct (A2 He) as (V & -> & _ & ->). done.
    - destruct (String.eqb_spec (rv_mime s1) "") as [E|_]; [by destruct V as [[? _] _]|]. exists s1, None.
      split; [done|]. split; [right; destruct V as (? & _ & _ & ->); eauto|]. intros _. done. }
  destruct e2; [intros [= <- <-]; by split|]. destruct (A2 eq_refl) as ((V1 & V2 & V3 & V4) & D1 & D2). intros [= <- Hc].
  split; [done|]. split; [done|]. intros f ->. unfold complete in Hc. destruct closeErr; [done|]. rewrite D1, V3 in Hc. res_inv.
  destruct (ctxErr (S (length (rs_body r)))); [done|]. res_inv. destruct x0 as [w h]. destruct (ctxErr _); [done|]. injection H3 as <-.
  cbn [fl_type fl_size fl_data fl_width fl_height]. pose proof (len_nonneg d) as Hdn.
  assert (x = d \/ exists j, the_job = Some j /\ ranges j d = Ok x) as Hx by (destruct the_job; [right; eauto|left; by injection H1]).
  assert (0 <= total -> len x = total) as Ht.
  { intros Ht. apply andb_false_iff in Heqb as [E|E]; bool_prop; lia. }
  split; [done|]. split; [by rewrite V2, D2|]. split; [done|]. split; [lia|]. split; [done|]. split; [|split; [done|split; [|done]]].
  - intros Hm. destruct (Z.le_gt_cases 0 total); [rewrite Ht by done; by apply Hmax|].
    destruct ranged eqn:Er; [specialize (Hr eq_refl); lia|]. unfold the_job in Hx. rewrite Er in Hx. cbn [andb] in Hx.
    destruct Hx as [->|(? & ? & _)]; [by apply R5|done].
  - intros Hk. rewrite Hk, String.eqb_refl in H2. destruct (mediaDimensions (Bytes x)); [|done]. by injection H2 as ->.
Qed.
End TransferSpec.

Lemma contentRange_bounds value first last size : contentRange value = Some (first, last, size) -> 0 <= first <= last /\ last < size.
Proof.
  unfold contentRange. destruct (cut_prefix _ _); [|done]. destruct (cut_byte "/" s) as [[? ?] ?]. destruct (cut_byte "-" _) as [[? ?] ?].
  destruct (_ || _); [done|]. destruct (Atoi _); [|done]. destruct (Atoi _); [|done]. destruct (Atoi _); [|done].
  destruct (_ && _) eqn:E; [|done]. bool_prop. intros [= <- <- <-]. lia.
Qed.

Lemma choose_response_spec ctxErr ranged source first_res whole r rg total end_ pinned :
  choose_response ctxErr ranged source first_res whole = Ok (r, rg, total, end_, pinned) ->
  (rg = true -> 0 < end_ <= total) /\ (rg = false -> total = end_).
Proof.
  unfold choose_response. destruct first_res as [r1|]; [|done]. destruct (_ && _).
  - destruct (contentRange (rs_range r1)) as [[[first last] size]|] eqn:Ec; [|done]. apply contentRange_bounds in Ec.
    destruct (_ || _) eqn:Eo; [done|]. bool_prop. destruct (_ && _).
    + destruct whole as [w|]; [|done]. destruct (negb (rs_status w =? 200)); [done|]. intros [= <- <- <- <- <-]. split; [lia|done].
    + intros [= <- <- <- <- <-]. split; [lia|done].
  - destruct (_ =? _); [|done]. intros [= <- <- <- <- <-]. done.
Qed.

(** C33. What a transfer attempt may show to its caller.  It announces at most one
    file, only after the first bytes proved a supported type (MP4 for a video),
    and only a size within the limit.  A success has that type, is not empty,
    respects the limit, and holds the bytes of the one response that was read,
    or what a job for exactly the announced size assembled from them; a video
    has the dimensions its movie header declares. *)
Theorem downloadOnce_sound kind filename source maximum connections announced checksum ctxErr writeErr closeErr newErr hashErr
    ranges sha256 first_res whole :
  let '(started, result) :=
    downloadOnce kind filename source maximum connections announced checksum ctxErr writeErr closeErr newErr hashErr
      ranges sha256 first_res whole in
  (started = [] \/ exists mime size, started = [(mime, size)] /\ good_type kind mime /\ 0 <= size /\ (0 < maximum -> size <= maximum)) /\
  (forall f, result = Ok f ->
     good_type kind (fl_type f) /\ 0 < fl_size f /\ fl_size f = len (fl_data f) /\ (0 < maximum -> fl_size f <= maximum) /\
     (started = [] \/ started = [(fl_type f, fl_size f)]) /\
     (kind = "video"%string -> mediaDimensions (Bytes (fl_data f)) = Ok (fl_width f, fl_height f)) /\
     exists r, (Ok r = first_res \/ Ok r = whole) /\ fl_type f = detectMedia (take 512 (mjoin (rs_body r))) kind /\
       (fl_data f = mjoin (rs_body r) \/
        exists j, job_ok j /\ rj_total j = fl_size f /\ ranges j (mjoin (rs_body r)) = Ok (fl_data f))).
Proof.
  unfold downloadOnce. destruct (choose_response _ _ _ _ _) as [[[[[r rg] total] end_] pinned]|e] eqn:Ech;
    [|by split; [left|]].
  pose proof (choose_response_spec _ _ _ _ _ _ _ _ _ _ Ech) as [Hr Hn].
  assert (Ok r = first_res \/ Ok r = whole) as Hres.
  { unfold choose_response in Ech. destruct first_res as [r1|]; [|done].
    destruct (_ && _); [|destruct (_ =? _); [|done]; injection Ech as <- _ _ _ _; by left].
    destruct (contentRange _) as [[[first last] size]|]; [|done]. destruct (_ || _); [done|]. destruct (_ && _).
    - destruct whole as [w|]; [|done]. destruct (negb (rs_status w =? 200)); [done|]. injection Ech as <- _ _ _ _. by right.
    - injection Ech as <- _ _ _ _. by left. }
  destruct (transfer _ _ _ _ _ _ _ _ _ _ _ _ _ _ r rg total end_ pinned) as [started result] eqn:Et.
  apply transfer_spec in Et as (T1 & T2 & T3); [|intros E; specialize (Hr E); lia|done]. split.
  - destruct T1 as [->|(mime & Hg & ->)]; [by left|]. unfold the_started in *.
    destruct (announced && (0 <=? total)) eqn:Ea; [|by left]. bool_prop. right. exists mime, total. repeat split; try done; try apply Hg; try lia.
    intros Hm. by apply T2.
  - intros f ->. destruct (T3 f eq_refl) as (G1 & G2 & G3 & G4 & G5 & G6 & G7 & G8 & G9).
    assert (0 < fl_size f) as Hpos.
    { destruct G9 as [E|(j & E & _)]; [rewrite G5, E; done|]. unfold the_job in E.
      destruct rg; [|done]. cbn [andb] in E. destruct (Z.ltb_spec end_ total); [|done]. specialize (Hr eq_refl). rewrite G7; lia. }
    split; [done|split; [done|split; [done|split; [done|]]]]. split; [|split; [done|]].
    + rewrite G3. unfold the_started. destruct (announced && (0 <=? total)) eqn:Ea; [|by left]. bool_prop. right. rewrite G7; [done|lia].
    + exists r. split; [done|split; [done|]]. destruct G9 as [E|(j & E & Ej)]; [by left|right]. exists j.
      unfold the_job in E. destruct rg; [|done]. cbn [andb] in E. destruct (Z.ltb_spec end_ total) as [Hlt|]; [|done]. specialize (Hr eq_refl).
      injection E as <-. split; [apply startRanges_ok; lia|]. split; [|done]. cbn [startRanges rj_total]. rewrite G7; lia.
Qed.

(** A one-response transfer of a small MP3. *)
Example download_small :
  downloadOnce "audio" "a.bin" "https://cdn/a" 100 1 true true (fun _ => None) (fun _ => None) None None None
    (fun _ d => Ok d) (fun _ => "sum"%string)
    (Ok (mkResponse 200 5 None "" "" [bytes_of_string "ID"; bytes_of_string "3xx"] None)) (Err ErrCanceled) =
  ([("audio/mpeg"%string, 5)], Ok (mkFile (bytes_of_string "ID3xx") "audio/mpeg" "a.mp3" 5 0 0 "sum")).
Proof. vm_compute. reflexivity. Qed.

(** The attempts of a download end: there are at most as many as sources or
    configured retries, whichever is more.  A success is the outcome of one of
    them, after only failures that permit another try; a failure that demands
    recovery, exceeds the size limit or has no service ends the download. *)
Theorem download_attempts {A} ctxErr allowed available (outcome : nat -> nat -> res goerr A) sleepErr nsources retries none a :
  download ctxErr allowed available outcome sleepErr nsources retries none = Ok a ->
  exists k, (k < Nat.max nsources (Z.to_nat retries))%nat /\ outcome k (Nat.modulo k nsources) = Ok a /\
    forall i, (i < k)%nat -> exists e, outcome i (Nat.modulo i nsources) = Err e /\ final_error e = false /\ available i = true /\
      allowed (S i) = true /\ sleepErr i = None.
Proof.
  unfold download. set (m := Nat.max _ _).
  assert (forall left_ attempt last, (attempt + left_ = m)%nat ->
    download_loop ctxErr allowed available outcome sleepErr left_ attempt nsources last = Ok a ->
    (attempt = 0%nat \/ allowed attempt = true) /\
    exists k, (attempt <= k < m)%nat /\ outcome k (Nat.modulo k nsources) = Ok a /\
      forall i, (attempt <= i < k)%nat -> exists e, outcome i (Nat.modulo i nsources) = Err e /\ final_error e = false /\ available i = true /\
        allowed (S i) = true /\ sleepErr i = None) as Hgen.
  { induction left_ as [|left_ IH]; intros attempt last Hm; cbn [download_loop]; [done|].
    destruct (ctxErr attempt); [done|]. destruct ((0 <? Z.of_nat attempt) && negb (allowed attempt)) eqn:Eal; [done|].
    assert (attempt = 0%nat \/ allowed attempt = true) as Hal.
    { apply andb_false_iff in Eal as [E|E]; bool_prop; [left; lia|by right]. }
    destruct (outcome attempt (Nat.modulo attempt nsources)) as [a'|e] eqn:Eo.
    - intros [= ->]. split; [done|]. exists attempt. split; [lia|]. split; [done|]. intros. lia.
    - destruct (final_error e) eqn:Ef; [done|]. destruct (available attempt) eqn:Eav; cbn [negb]; [|done].
      intros Hl. split; [done|]. destruct left_ as [|left_]; [done|]. destruct (sleepErr attempt) eqn:Es; [done|].
      destruct (IH (S attempt) e ltac:(lia) Hl) as (Hal' & k & Hk & Ho & Hi). exists k. split; [lia|]. split; [done|].
      intros i Hik. destruct (decide (i = attempt)) as [->|]; [|apply Hi; lia].
      exists e. destruct Hal' as [|Hal']; [lia|]. done. }
  intros Hd. destruct (Hgen m 0%nat none eq_refl Hd) as (_ & k & Hk & Ho & Hi). exists k. split; [lia|]. split; [done|].
  intros i Hik. apply Hi. lia.
Qed.

Lemma download_attempts_witness :
  let outcome (attempt source : nat) := if Nat.eqb attempt 1 then Ok source else Err truncated in
  let ok (_ : nat) := true in
  exists k, (k < 2)%nat /\ outcome k (Nat.modulo k 2) = Ok 1%nat.
Proof.
  intros outcome ok.
  destruct (download_attempts (fun _ => None) ok ok outcome (fun _ => None) 2 1 truncated 1%nat eq_refl) as (k & Hk & Ho & _).
  exists k. split; [exact Hk|exact Ho].
Defined.
