(* ===== verification/Pool.v ===== *)
(** * identity: the pool of device identities

    Models src/internal/identity/lease.go, the state of
    src/internal/identity/pool.go and the part of src/internal/identity/store.go
    that moves checkpoints to the database.

    Each critical section of the pool's mutex is one step, and [acquire] is the
    sequence of its sections: entering, one turn of its loop, the wait for a
    notification, and the deferred release of a reservation.  Callers are
    numbered; a run is any interleaving of their steps with those of the
    persistence goroutine and with the pool closing, losing its connection or
    its ownership.  Times are nanoseconds; a new session, a random identifier,
    whether a context has ended and the outcome of a database transaction are
    inputs.  [e.pending] and the set [p.dirty] always change together and are
    one map, [po_pending].  Notifications only decide when a waiting caller
    runs again, which a run leaves open. *)
From S2P Require Import Prelude Strconv Errors.
From stdpp Require Import gmap.
Open Scope Z_scope.
Open Scope go_scope.

Record health := mkHealth {
  h_Failures : Z;
  h_CooldownUntil : Z;               (* milliseconds *)
  h_LastFailureAt : option Z;
  h_LastFailureCode : option string;
  h_LastRecoveryAt : option Z;
  h_LastRecovery : option string;
}.
Definition no_health : health := mkHealth 0 0 None None None None.

(** What the pool reads of a session: its kind, its signing seed, the rest. *)
Record session := mkSession { ss_registered : bool; ss_SDK : bool; ss_rest : Z }.

(** [ck_seq] is the number of the checkpoint: the identity of the pointer. *)
Record checkpoint := mkCheckpoint { ck_seq : Z; ck_session : session; ck_health : health; ck_assignments : Z }.

Record entry := mkEntry {
  en_proxy : nat;
  en_ordinal : nat;
  en_session : session;
  en_assignments : Z;
  en_selected : Z;
  en_waiting : Z;
  en_busy : bool;
  en_registered : bool;
  en_health : health;
}.

Record proxyState := mkProxy {
  px_slots : list (option string);
  px_health : health;
  px_healthVersion : Z;
  px_savedHealthVersion : Z;
}.

(** Where a caller of [acquire] is; [reserved] is the busy identity it waits for. *)
Inductive phase :=
| Outside
| Trying (id : string) (reserved : option string)
| Queued (id : string) (reserved : option string)
| Holding (entry : string) (proxyVersion : Z)
| Leaving (reserved : option string) (e : goerr)
| Returned (r : res goerr string).

Record saveBatch := mkBatch {
  sb_written : gmap string checkpoint;
  sb_proxies : list (nat * Z * health);
  sb_through : Z;
}.

Record Pool := mkPool {
  po_ready : bool; po_closing : bool; po_connected : bool; po_unwritable : bool; po_failure : bool;
  po_entries : gmap string entry;
  po_proxies : list proxyState;
  po_sequence : Z; po_queued : Z; po_queueLimit : Z; po_workers : Z;
  po_callers : list phase;
  po_checkpoints : Z; po_saved : Z;
  po_pending : gmap string checkpoint;
  po_batch : option saveBatch;
  po_stored : gmap string checkpoint;      (* the rows of the database *)
}.

Definition set_status (ready closing connected unwritable failure : bool) (p : Pool) : Pool :=
  mkPool ready closing connected unwritable failure (po_entries p) (po_proxies p) (po_sequence p) (po_queued p)
    (po_queueLimit p) (po_workers p) (po_callers p) (po_checkpoints p) (po_saved p) (po_pending p) (po_batch p) (po_stored p).
Definition set_entries (entries : gmap string entry) (p : Pool) : Pool :=
  mkPool (po_ready p) (po_closing p) (po_connected p) (po_unwritable p) (po_failure p) entries (po_proxies p) (po_sequence p)
    (po_queued p) (po_queueLimit p) (po_workers p) (po_callers p) (po_checkpoints p) (po_saved p) (po_pending p) (po_batch p) (po_stored p).
Definition set_proxies (proxies : list proxyState) (p : Pool) : Pool :=
  mkPool (po_ready p) (po_closing p) (po_connected p) (po_unwritable p) (po_failure p) (po_entries p) proxies (po_sequence p)
    (po_queued p) (po_queueLimit p) (po_workers p) (po_callers p) (po_checkpoints p) (po_saved p) (po_pending p) (po_batch p) (po_stored p).
Definition set_sequence (n : Z) (p : Pool) : Pool :=
  mkPool (po_ready p) (po_closing p) (po_connected p) (po_unwritable p) (po_failure p) (po_entries p) (po_proxies p) n
    (po_queued p) (po_queueLimit p) (po_workers p) (po_callers p) (po_checkpoints p) (po_saved p) (po_pending p) (po_batch p) (po_stored p).
(** Caller [i] moves to [ph]; [dq] and [dw] change the queue and worker counts. *)
Definition move (i : nat) (ph : phase) (dq dw : Z) (p : Pool) : Pool :=
  mkPool (po_ready p) (po_closing p) (po_connected p) (po_unwritable p) (po_failure p) (po_entries p) (po_proxies p) (po_sequence p)
    (po_queued p + dq) (po_queueLimit p) (po_workers p + dw) (<[i := ph]> (po_callers p)) (po_checkpoints p) (po_saved p)
    (po_pending p) (po_batch p) (po_stored p).
Definition set_store (checkpoints saved : Z) (pending : gmap string checkpoint) (batch : option saveBatch)
    (stored : gmap string checkpoint) (p : Pool) : Pool :=
  mkPool (po_ready p) (po_closing p) (po_connected p) (po_unwritable p) (po_failure p) (po_entries p) (po_proxies p) (po_sequence p)
    (po_queued p) (po_queueLimit p) (po_workers p) (po_callers p) checkpoints saved pending batch stored.

Definition add_waiting (n : Z) (e : entry) : entry :=
  mkEntry (en_proxy e) (en_ordinal e) (en_session e) (en_assignments e) (en_selected e) (en_waiting e + n) (en_busy e)
    (en_registered e) (en_health e).
Definition set_busy (b : bool) (e : entry) : entry :=
  mkEntry (en_proxy e) (en_ordinal e) (en_session e) (en_assignments e) (en_selected e) (en_waiting e) b
    (en_registered e) (en_health e).
Definition set_assigned (assignments selected : Z) (e : entry) : entry :=
  mkEntry (en_proxy e) (en_ordinal e) (en_session e) assignments selected (en_waiting e) (en_busy e)
    (en_registered e) (en_health e).
Definition set_health (h : health) (e : entry) : entry :=
  mkEntry (en_proxy e) (en_ordinal e) (en_session e) (en_assignments e) (en_selected e) (en_waiting e) (en_busy e)
    (en_registered e) h.
Definition set_session (s : session) (registered : bool) (e : entry) : entry :=
  mkEntry (en_proxy e) (en_ordinal e) s (en_assignments e) (en_selected e) (en_waiting e) (en_busy e) registered (en_health e).

Definition milliseconds (now : Z) : Z := now / 1000000.

Definition unavailable (message : string) : goerr := ErrCore (NewError "service_not_configured" message 503).
Definition cooling : goerr :=
  ErrCore (NewError "upstream_rate_limited" "All eligible identities are temporarily cooling down." 429).
Definition queue_full : goerr := ErrCore (NewError "service_busy" "The identity request queue is full." 503).

(** ** Selection *)

(** The best slot so far: proxy, ordinal, its entry, its assignments and its
    last selection. *)
Record best := mkBest { bs_proxy : nat; bs_ordinal : nat; bs_entry : option string; bs_count : Z; bs_sequence : Z }.

Definition proxy_health (p : Pool) (i : nat) : health :=
  match po_proxies p !! i with Some x => px_health x | None => no_health end.
Definition slot_entry (x : proxyState) (ordinal : nat) : option string := mjoin (px_slots x !! ordinal).

(** One turn of the inner loop: whether the slot is eligible, and the better of
    it and the best so far. *)
Definition consider (now : Z) (entries : gmap string entry) (i : nat) (x : proxyState) (ordinal : nat)
    (acc : bool * option best) : bool * option best :=
  let '(eligible, b) := acc in
  if now <? h_CooldownUntil (px_health x) then acc
  else
    let id := slot_entry x ordinal in
    let e := id ≫= fun id => entries !! id in
    match e with
    | Some e =>
        if now <? h_CooldownUntil (en_health e) then acc
        else if en_busy e || (0 <? en_waiting e) then (true, b)
        else
          match b with
          | Some b' =>
              if (en_assignments e <? bs_count b') || ((en_assignments e =? bs_count b') && (en_selected e <? bs_sequence b'))
              then (true, Some (mkBest i ordinal id (en_assignments e) (en_selected e))) else (true, b)
          | None => (true, Some (mkBest i ordinal id (en_assignments e) (en_selected e)))
          end
    | None =>
        match b with
        | Some b' => if (0 <? bs_count b') || ((0 =? bs_count b') && (0 <? bs_sequence b'))
                     then (true, Some (mkBest i ordinal None 0 0)) else (true, b)
        | None => (true, Some (mkBest i ordinal None 0 0))
        end
    end.

(** The slots in the order of the two loops. *)
Definition slots (proxies : list proxyState) : list (nat * nat * proxyState) :=
  ordinal ← seq 0 10; imap (fun i x => (ordinal, i, x)) proxies.

Definition select (now : Z) (entries : gmap string entry) (proxies : list proxyState) : bool * option best :=
  fold_left (fun acc '(ordinal, i, x) => consider now entries i x ordinal acc) (slots proxies) (false, None).

(** ** New identities *)

(** [prepareSlot], up to the registration of the slot's identity: an empty slot
    gets an entry. *)
Definition new_entry (i ordinal : nat) (eid : string) (s : session) (p : Pool) : Pool :=
  set_proxies (alter (fun x => mkProxy (<[ordinal := Some eid]> (px_slots x)) (px_health x) (px_healthVersion x)
                                 (px_savedHealthVersion x)) i (po_proxies p))
    (set_entries (<[eid := mkEntry i ordinal s 0 0 0 false false no_health]> (po_entries p)) p).

Definition prepare_slot (i ordinal : nat) (fresh : res goerr (string * session)) (p : Pool) : Pool :=
  if negb (po_ready p) || po_closing p then p
  else
    match po_proxies p !! i with
    | Some x =>
        match px_slots x !! ordinal, fresh with
        | Some None, Ok (eid, s) => new_entry i ordinal eid s p
        | _, _ => p
        end
    | None => p
    end.

(** ** [acquire] *)

Inductive turn :=
| Lease (id : string)
| Refuse (e : goerr)
| Wait (reserved : option string).

(** The critical section of the loop, after the reservation is released.
    [fresh] is the result of [NewSession] with the new identifier. *)
Definition acquire_section (now : Z) (id : string) (fresh : res goerr (string * session)) (p : Pool) : turn * Pool :=
  if negb (po_ready p) || po_closing p then (Refuse (unavailable "The identity pool is unavailable."), p)
  else if negb (po_connected p) then (Refuse (unavailable "The identity pool is reconnecting to its database."), p)
  else if po_unwritable p then (Refuse (unavailable "The identity pool cannot save its state."), p)
  else
    let now := milliseconds now in
    let wait eligible reserved p :=
      if negb eligible then (Refuse cooling, p)
      else (Wait reserved, p) in
    if negb (String.eqb id "") then
      match po_entries p !! id with
      | None => (Refuse (ErrCore (Upstream "The requested identity is unavailable.")), p)
      | Some e =>
          if (h_CooldownUntil (en_health e) <=? now) && (h_CooldownUntil (proxy_health p (en_proxy e)) <=? now) then
            if en_busy e then wait true (Some id) (set_entries (<[id := add_waiting 1 e]> (po_entries p)) p)
            else (Lease id, set_entries (<[id := set_busy true e]> (po_entries p)) p)
          else wait false None p
      end
    else
      let '(eligible, b) := select now (po_entries p) (po_proxies p) in
      match b with
      | None => wait eligible None p
      | Some b =>
          let take eid e p :=
            (Lease eid, set_sequence (po_sequence p + 1)
               (set_entries (<[eid := set_assigned (en_assignments e + 1) (po_sequence p + 1) (set_busy true e)]> (po_entries p)) p)) in
          match bs_entry b ≫= fun eid => (fun e => (eid, e)) <$> po_entries p !! eid with
          | Some (eid, e) => take eid e p
          | None =>
              match fresh with
              | Err e => (Refuse e, p)
              | Ok (eid, s) =>
                  take eid (mkEntry (bs_proxy b) (bs_ordinal b) s 0 0 0 false false no_health)
                    (new_entry (bs_proxy b) (bs_ordinal b) eid s p)
              end
          end
      end.

Definition release_reserved (reserved : option string) (p : Pool) : Pool :=
  match reserved with
  | Some id => set_entries (alter (add_waiting (-1)) id (po_entries p)) p
  | None => p
  end.

Definition proxy_version (p : Pool) (id : string) : Z :=
  match po_entries p !! id with
  | Some e => match po_proxies p !! en_proxy e with Some x => px_healthVersion x | None => 0 end
  | None => 0
  end.

(** One turn of caller [i]'s loop; [ctxErr] is its context's error. *)
Definition acquire_turn (i : nat) (now : Z) (ctxErr : option goerr) (id : string) (reserved : option string)
    (fresh : res goerr (string * session)) (p : Pool) : Pool :=
  match ctxErr with
  | Some e => move i (Leaving reserved e) 0 0 p
  | None =>
      let '(t, p) := acquire_section now id fresh (release_reserved reserved p) in
      match t with
      | Lease eid => move i (Holding eid (proxy_version p eid)) 0 0 p
      | Refuse e => move i (Leaving None e) 0 0 p
      | Wait reserved =>
          if po_queueLimit p <=? po_queued p then move i (Leaving reserved queue_full) 0 0 p
          else move i (Queued id reserved) 1 0 p
      end
  end.

(** ** The end of a lease *)

Definition IsContentRestricted (u : UpstreamError) : bool :=
  match up_Code u with
  | "content_restricted" | "content_private" | "region_blocked" => true
  | _ => false
  end%string.

(** [failedLocked]: what an error does to a health record, and to which one
    ([true]: the route's); [None] when the error is nobody's fault. *)
Definition penalty (err : goerr) : option (bool * string * Z * Z) :=
  if is_canceled err || is_deadline err then None
  else
    let typed := as_upstream err in
    let isNetwork := bool_decide (is_Some (as_net err)) in
    match typed, isNetwork with
    | None, false => None
    | _, _ =>
        if match typed with Some u => String.eqb (up_Code u) "content_deleted" || IsContentRestricted u | None => false end
        then None
        else
          let retry := match typed with Some u => up_RetryAfter u | None => 0 end in
          if isNetwork then
            Some (true, if bool_decide (is_Some (as_stall err)) then "upstream_timeout" else "upstream_network_error", 1000000000, retry)
          else
            let code := match typed with Some u => up_Code u | None => "" end in
            Some (false, code, if String.eqb code "upstream_unavailable" then 1000000000 else 5000000000, retry)
    end%string.

(** A Go shift [1<<min(n, 8)]; [n] is not negative here. *)
Definition cooldown (now base retry : Z) (code : string) (h : health) : health :=
  let failures := h_Failures h + 1 in
  let delay := Z.min 300000000000 (base * Z.shiftl 1 (Z.min (failures - 1) 8)) in
  let delay := if 0 <? retry then retry else delay in
  mkHealth failures (Z.max (h_CooldownUntil h) (milliseconds (now + delay))) (Some now) (Some code)
    (h_LastRecoveryAt h) (h_LastRecovery h).

Definition set_proxy_health (i : nat) (h : health) (p : Pool) : Pool :=
  set_proxies (alter (fun x => mkProxy (px_slots x) h (px_healthVersion x + 1) (px_savedHealthVersion x)) i (po_proxies p)) p.

Definition failedLocked (now : Z) (id : string) (err : goerr) (p : Pool) : Pool :=
  match penalty err, po_entries p !! id with
  | Some (network, code, base, retry), Some e =>
      if network then set_proxy_health (en_proxy e) (cooldown now base retry code (proxy_health p (en_proxy e))) p
      else set_entries (<[id := set_health (cooldown now base retry code (en_health e)) e]> (po_entries p)) p
  | _, _ => p
  end.

Definition succeeded (id : string) (proxyVersion : Z) (p : Pool) : Pool :=
  let clear h := mkHealth 0 0 (h_LastFailureAt h) (h_LastFailureCode h) (h_LastRecoveryAt h) (h_LastRecovery h) in
  match po_entries p !! id with
  | None => p
  | Some e =>
      let p := set_entries (<[id := set_health (clear (en_health e)) e]> (po_entries p)) p in
      match po_proxies p !! en_proxy e with
      | Some x =>
          if (px_healthVersion x =? proxyVersion) && (0 <? h_Failures (px_health x))
          then set_proxy_health (en_proxy e) (clear (px_health x)) p else p
      | None => p
      end
  end.

Definition checkpointLocked (id : string) (s : session) (p : Pool) : Pool :=
  match po_entries p !! id with
  | None => p
  | Some e =>
      let n := po_checkpoints p + 1 in
      set_store n (po_saved p) (<[id := mkCheckpoint n s (en_health e) (en_assignments e)]> (po_pending p)) (po_batch p) (po_stored p) p
  end.

(** [lease.finish]; [encoded] is whether the session could be marshalled. *)
Definition finish (i : nat) (now : Z) (id : string) (proxyVersion : Z) (operationErr : option goerr) (cancelled encoded : bool)
    (p : Pool) : Pool :=
  let p :=
    match operationErr with
    | None => succeeded id proxyVersion p
    | Some err => if cancelled then p else failedLocked now id err p
    end in
  match po_entries p !! id with
  | None => move i (Returned (Ok id)) 0 (-1) p
  | Some e =>
      let e := set_session (en_session e) (ss_registered (en_session e)) e in
      let p := set_entries (<[id := e]> (po_entries p)) p in
      let p := if encoded then checkpointLocked id (en_session e) p else p in
      move i (Returned (Ok id)) 0 (-1) (set_entries (alter (set_busy false) id (po_entries p)) p)
  end.

(** [lease.recover]: whether the operation is tried again.  [fresh] is a new
    session, [allowed] the answer of [AllowRetry]. *)
Definition recover (now : Z) (id : string) (ctxErr : option goerr) (err : goerr) (fresh : option session) (allowed : bool)
    (p : Pool) : bool * Pool :=
  match ctxErr, as_upstream err, po_entries p !! id with
  | None, Some failure, Some e =>
      let apply s registered :=
        let h := en_health e in
        let name := match up_Recovery failure with RecoveryRecreate => "recreate" | _ => "refresh" end%string in
        let h := mkHealth (h_Failures h) (h_CooldownUntil h) (Some now) (Some (up_Code failure)) (Some now) (Some name) in
        if allowed then (true, set_entries (<[id := set_session s registered (set_health h e)]> (po_entries p)) p) else (false, p) in
      match up_Recovery failure with
      | RecoveryNone => (false, p)
      | RecoveryRecreate => match fresh with Some s => apply s false | None => (false, p) end
      | RecoveryRefresh => apply (mkSession (ss_registered (en_session e)) false (ss_rest (en_session e))) (en_registered e)
      end
  | _, _, _ => (false, p)
  end.

(** ** Persistence *)

Definition collectLocked (p : Pool) : saveBatch :=
  mkBatch (po_pending p)
    (omap (fun ix : nat * proxyState => let '(i, x) := ix in
       if px_savedHealthVersion x <? px_healthVersion x then Some (i, px_healthVersion x, px_health x) else None)
       (imap (fun i x => (i, x)) (po_proxies p)))
    (po_checkpoints p).

(** The rows a committed transaction replaces. *)
Definition commit (b : saveBatch) (stored : gmap string checkpoint) : gmap string checkpoint := sb_written b ∪ stored.

(** A newer checkpoint taken during the write stays pending. *)
Definition savedLocked (b : saveBatch) (p : Pool) : Pool :=
  let pending := filter (fun kv : string * checkpoint => option_map ck_seq (sb_written b !! kv.1) <> Some (ck_seq kv.2)) (po_pending p) in
  let proxies := fold_left (fun l '(i, v, _) =>
      alter (fun x => mkProxy (px_slots x) (px_health x) (px_healthVersion x) (Z.max (px_savedHealthVersion x) v)) i l)
      (sb_proxies b) (po_proxies p) in
  set_store (po_checkpoints p) (Z.max (po_saved p) (sb_through b)) pending None (po_stored p) (set_proxies proxies p).

(** ** Runs *)

Inductive action :=
| Enter (i : nat) (id : string)
| Turn (i : nat) (now : Z) (ctxErr : option goerr) (fresh : res goerr (string * session))
| PrepareSlot (i ordinal : nat) (fresh : res goerr (string * session))
| Wake (i : nat)
| Leave (i : nat)
| Recover (i : nat) (now : Z) (ctxErr : option goerr) (err : goerr) (fresh : option session) (allowed : bool)
| UseSession (i : nat) (s : session)           (* the lease's client changes its session *)
| Finish (i : nat) (now : Z) (operationErr : option goerr) (cancelled encoded : bool)
| Collect
| Commit                                       (* the transaction takes effect *)
| Saved (ok : bool)                            (* the write returns *)
| SetConnected (b : bool)
| SetUnwritable (b : bool)
| Fail
| Close.

Definition known (fresh : res goerr (string * session)) (p : Pool) : bool :=
  match fresh with Ok (eid, _) => bool_decide (is_Some (po_entries p !! eid)) | Err _ => false end.

Definition step (a : action) (p : Pool) : Pool :=
  match a with
  | Enter i id =>
      match po_callers p !! i with
      | Some Outside =>
          if negb (po_ready p) || po_closing p
          then move i (Returned (Err (unavailable "The identity pool is unavailable."))) 0 0 p
          else move i (Trying id None) 0 1 p
      | _ => p
      end
  | Turn i now ctxErr fresh =>
      match po_callers p !! i with
      | Some (Trying id reserved) =>
          (* a random identifier names no entry *)
          if known fresh p then p else acquire_turn i now ctxErr id reserved fresh p
      | _ => p
      end
  | PrepareSlot i ordinal fresh => if known fresh p then p else prepare_slot i ordinal fresh p
  | Wake i =>
      match po_callers p !! i with
      | Some (Queued id reserved) => move i (Trying id reserved) (-1) 0 p
      | _ => p
      end
  | Leave i =>
      match po_callers p !! i with
      | Some (Leaving reserved e) => move i (Returned (Err e)) 0 (-1) (release_reserved reserved p)
      | _ => p
      end
  | Recover i now ctxErr err fresh allowed =>
      match po_callers p !! i with
      | Some (Holding id v) => (recover now id ctxErr err fresh allowed p).2
      | _ => p
      end
  | UseSession i s =>
      match po_callers p !! i with
      | Some (Holding id v) => set_entries (alter (fun e => set_session s (en_registered e) e) id (po_entries p)) p
      | _ => p
      end
  | Finish i now operationErr cancelled encoded =>
      match po_callers p !! i with
      | Some (Holding id v) => finish i now id v operationErr cancelled encoded p
      | _ => p
      end
  | Collect =>
      match po_batch p with
      | None => set_store (po_checkpoints p) (po_saved p) (po_pending p) (Some (collectLocked p)) (po_stored p) p
      | Some _ => p
      end
  | Commit =>
      match po_batch p with
      | Some b => set_store (po_checkpoints p) (po_saved p) (po_pending p) (po_batch p) (commit b (po_stored p)) p
      | None => p
      end
  | Saved ok =>
      match po_batch p with
      | Some b =>
          (* a reported success means that the transaction took effect *)
          if ok then savedLocked b (set_store (po_checkpoints p) (po_saved p) (po_pending p) (po_batch p) (commit b (po_stored p)) p)
          else set_store (po_checkpoints p) (po_saved p) (po_pending p) None (po_stored p) p
      | None => p
      end
  | SetConnected b => set_status (po_ready p) (po_closing p) b (po_unwritable p) (po_failure p) p
  | SetUnwritable b => set_status (po_ready p) (po_closing p) (po_connected p) b (po_failure p) p
  | Fail => set_status false (po_closing p) (po_connected p) (po_unwritable p) true p
  | Close => set_status false true (po_connected p) (po_unwritable p) (po_failure p) p
  end.

Definition run (actions : list action) (p : Pool) : Pool := fold_left (fun p a => step a p) actions p.
