(* ===== verification/PoolLease.v ===== *)
(** * identity: leases

    The theorems on the leases of Pool.v: whatever the interleaving, an identity
    is leased to one caller at a time and the pool's counters are those of its
    callers; an unpinned lease takes the least used free identity; and the end of
    a lease penalises or clears only the health records it concerns. *)
From S2P Require Import Prelude Strconv Errors Pool.
From stdpp Require Import gmap.
Open Scope Z_scope.
Open Scope go_scope.

(** ** Selection *)

(** The slot is not cooling down, and neither is its route. *)
Definition warm (now : Z) (entries : gmap string entry) (s : nat * nat * proxyState) : Prop :=
  let '(ordinal, i, x) := s in
  h_CooldownUntil (px_health x) <= now /\
  forall id e, slot_entry x ordinal = Some id -> entries !! id = Some e -> h_CooldownUntil (en_health e) <= now.

Definition entry_at (entries : gmap string entry) (s : nat * nat * proxyState) : option (string * entry) :=
  let '(ordinal, i, x) := s in slot_entry x ordinal ≫= fun id => (fun e => (id, e)) <$> entries !! id.

(** ... and its identity is neither leased nor waited for. *)
Definition free (now : Z) (entries : gmap string entry) (s : nat * nat * proxyState) : Prop :=
  warm now entries s /\
  match entry_at entries s with Some (_, e) => en_busy e = false /\ en_waiting e <= 0 | None => True end.

Lemma entry_at_lookup entries s id e : entry_at entries s = Some (id, e) -> entries !! id = Some e.
Proof.
  destruct s as [[ordinal i] x]. cbn. destruct (slot_entry x ordinal) as [k|]; [|done]. cbn.
  destruct (entries !! k) eqn:E; [|done]. cbn. by intros [= <- <-].
Qed.

Lemma entry_at_some entries s id e : entry_at entries s = Some (id, e) ->
  (fst <$> Some (id, e)) ≫= (fun eid => (fun e => (eid, e)) <$> entries !! eid) = Some (id, e).
Proof. intros H. cbn. by rewrite (entry_at_lookup _ _ _ _ H). Qed.

(** What slots are compared by: assignments, then the last selection. *)
Definition rank (entries : gmap string entry) (s : nat * nat * proxyState) : Z * Z :=
  match entry_at entries s with Some (_, e) => (en_assignments e, en_selected e) | None => (0, 0) end.

Definition rank_le (a b : Z * Z) : Prop := a.1 < b.1 \/ a.1 = b.1 /\ a.2 <= b.2.

Definition is_best (now : Z) (entries : gmap string entry) (seen : list (nat * nat * proxyState)) (b : option best) : Prop :=
  match b with
  | None => forall s, s ∈ seen -> ~ free now entries s
  | Some b =>
      exists s, s ∈ seen /\ free now entries s /\ s.1 = (bs_ordinal b, bs_proxy b) /\
        bs_entry b = fst <$> entry_at entries s /\ rank entries s = (bs_count b, bs_sequence b) /\
        forall s', s' ∈ seen -> free now entries s' -> rank_le (rank entries s) (rank entries s')
  end.

Lemma exists_snoc {A} (P : A -> Prop) (l : list A) (s : A) : (exists s', s' ∈ l ++ [s] /\ P s') <-> (exists s', s' ∈ l /\ P s') \/ P s.
Proof.
  split.
  - intros (s' & [Hs|Hs]%elem_of_app & HP); [left; eauto|]. apply list_elem_of_singleton in Hs as ->. by right.
  - intros [(s' & Hs & HP)|HP]; [exists s'|exists s]; rewrite elem_of_app, list_elem_of_singleton; auto.
Qed.

(** A slot that is not free leaves the best as it was. *)
Lemma best_skip now entries seen s b : ~ free now entries s -> is_best now entries seen b -> is_best now entries (seen ++ [s]) b.
Proof.
  intros Hn Hb. destruct b as [b|]; cbn in Hb |- *.
  - destruct Hb as (t & H1 & H2 & H3 & H4 & H5 & H6). exists t. rewrite elem_of_app. repeat (split; [by auto|]).
    intros s' [Hs|Hs]%elem_of_app Hf; [by apply H6|]. apply list_elem_of_singleton in Hs as ->. done.
  - intros s' [Hs|Hs]%elem_of_app; [by apply Hb|]. apply list_elem_of_singleton in Hs as ->. done.
Qed.

(** A free slot is compared. *)
Lemma best_take now entries seen i x ordinal b id c q :
  let s := (ordinal, i, x) in
  free now entries s -> is_best now entries seen b -> id = fst <$> entry_at entries s -> rank entries s = (c, q) ->
  is_best now entries (seen ++ [s])
    (match b with
     | Some b' => if (c <? bs_count b') || ((c =? bs_count b') && (q <? bs_sequence b')) then Some (mkBest i ordinal id c q) else b
     | None => Some (mkBest i ordinal id c q)
     end).
Proof.
  intros s Hf Hb Hid Hr. assert (s ∈ seen ++ [s]) as Hin by (rewrite elem_of_app, list_elem_of_singleton; auto). destruct b as [b'|].
  - destruct Hb as (t & H1 & H2 & H3 & H4 & H5 & H6). destruct (_ || _) eqn:Eo.
    + exists s. cbn. repeat (split; [by auto|]). intros s' [Hs|Hs]%elem_of_app Hf'.
      * specialize (H6 s' Hs Hf'). rewrite H5 in H6. rewrite Hr. unfold rank_le in *. cbn [fst snd] in *.
        apply orb_true_iff in Eo as [E|E]; bool_prop; lia.
      * apply list_elem_of_singleton in Hs as ->. right. lia.
    + exists t. rewrite elem_of_app. repeat (split; [by auto|]). intros s' [Hs|Hs]%elem_of_app Hf'; [by apply H6|].
      apply list_elem_of_singleton in Hs as ->. rewrite H5, Hr. unfold rank_le. cbn [fst snd].
      apply orb_false_iff in Eo as [E1 E2]. bool_prop. destruct E2; bool_prop; lia.
  - exists s. cbn. repeat (split; [by auto|]). intros s' [Hs|Hs]%elem_of_app Hf'; [by destruct (Hb s' Hs)|].
    apply list_elem_of_singleton in Hs as ->. right. lia.
Qed.

(** The outcome of an eligible slot: skipped when taken, compared when free. *)
Lemma consider_warm now entries seen i x ordinal eligible b :
  warm now entries (ordinal, i, x) -> is_best now entries seen b ->
  let r := consider now entries i x ordinal (eligible, b) in
  r.1 = true /\ is_best now entries (seen ++ [(ordinal, i, x)]) r.2.
Proof.
  set (s := (ordinal, i, x)). intros Hw Hb. pose proof Hw as [Hc Hce]. cbv zeta. unfold consider.
  destruct (Z.ltb_spec now (h_CooldownUntil (px_health x))); [lia|].
  pose proof (fun Hf => best_take now entries seen i x ordinal b (fst <$> entry_at entries s) (rank entries s).1 (rank entries s).2
    Hf Hb eq_refl (surjective_pairing _)) as Htake. fold s in Htake.
  assert (entry_at entries s = slot_entry x ordinal ≫= fun id => (fun e => (id, e)) <$> entries !! id) as Hea by done.
  assert (free now entries s <-> match entry_at entries s with Some (_, e) => en_busy e = false /\ en_waiting e <= 0 | None => True end) as Hfree.
  { unfold free. tauto. }
  unfold rank in Htake. destruct (slot_entry x ordinal) as [id|] eqn:Es; cbn [mbind option_bind] in Hea |- *;
    [destruct (entries !! id) as [e|] eqn:Ee; cbn [fmap option_fmap option_map] in Hea|].
  - destruct (Z.ltb_spec now (h_CooldownUntil (en_health e))); [specialize (Hce id e eq_refl Ee); lia|].
    destruct (en_busy e || (0 <? en_waiting e)) eqn:Eb.
    + split; [done|]. apply best_skip; [|done]. rewrite Hfree, Hea. intros [Hf1 Hf2]. rewrite Hf1 in Eb. cbn in Eb. bool_prop. lia.
    + rewrite Hfree, Hea in Htake. bool_prop. specialize (Htake ltac:(split; [done|lia])). cbn [fmap option_fmap option_map fst snd] in Htake.
      destruct b as [b'|]; [destruct (_ || _)|]; (split; [done|exact Htake]).
  - rewrite Hfree, Hea in Htake. specialize (Htake I). destruct b as [b'|]; [destruct (_ || _)|]; (split; [done|exact Htake]).
  - rewrite Hfree, Hea in Htake. specialize (Htake I). destruct b as [b'|]; [destruct (_ || _)|]; (split; [done|exact Htake]).
Qed.

Lemma consider_cool now entries i x ordinal acc : ~ warm now entries (ordinal, i, x) -> consider now entries i x ordinal acc = acc.
Proof.
  intros Hw. destruct acc as [el b]. unfold consider. destruct (Z.ltb_spec now (h_CooldownUntil (px_health x))) as [|Hc]; [done|].
  destruct (slot_entry x ordinal) as [id|] eqn:Es; cbn [mbind option_bind];
    [destruct (entries !! id) as [e|] eqn:Ee; [destruct (Z.ltb_spec now (h_CooldownUntil (en_health e))) as [|Hce]; [done|]|]|].
  all: destruct Hw; split; [done|]; intros id' e' H1 H2; simplify_eq; lia.
Qed.

#[export] Instance warm_dec now entries s : Decision (warm now entries s).
Proof.
  destruct s as [[ordinal i] x]. unfold warm. destruct (decide (h_CooldownUntil (px_health x) <= now)); [|right; by intros []].
  destruct (slot_entry x ordinal) as [id|]; [|left; by split]. destruct (entries !! id) as [e|] eqn:Ee; [|left; split; [done|intros; simplify_eq]].
  destruct (decide (h_CooldownUntil (en_health e) <= now)) as [|Hn]; [left; split; [done|intros; by simplify_eq]|].
  right. intros [_ H]. apply Hn. by apply (H id e).
Defined.

Lemma consider_spec now entries seen i x ordinal eligible b :
  (eligible = true <-> exists s, s ∈ seen /\ warm now entries s) -> is_best now entries seen b ->
  let r := consider now entries i x ordinal (eligible, b) in
  (r.1 = true <-> exists s, s ∈ seen ++ [(ordinal, i, x)] /\ warm now entries s) /\
  is_best now entries (seen ++ [(ordinal, i, x)]) r.2.
Proof.
  intros He Hb. cbv zeta. rewrite (exists_snoc (warm now entries)). destruct (decide (warm now entries (ordinal, i, x))) as [Hw|Hw].
  - destruct (consider_warm now entries seen i x ordinal eligible b Hw Hb) as [-> H]. split; [|done]. split; [by right|done].
  - rewrite (consider_cool _ _ _ _ _ _ Hw). cbn [fst snd]. split; [rewrite He; tauto|]. apply best_skip; [|done]. by intros [? _].
Qed.

(** The two loops find the least used free slot, and whether any slot is warm. *)
Lemma select_spec now entries proxies :
  let '(eligible, b) := select now entries proxies in
  (eligible = true <-> exists s, s ∈ slots proxies /\ warm now entries s) /\ is_best now entries (slots proxies) b.
Proof.
  unfold select. assert (forall todo seen acc,
    (acc.1 = true <-> exists s, s ∈ seen /\ warm now entries s) -> is_best now entries seen acc.2 ->
    let r := fold_left (fun acc '(ordinal, i, x) => consider now entries i x ordinal acc) todo acc in
    (r.1 = true <-> exists s, s ∈ seen ++ todo /\ warm now entries s) /\ is_best now entries (seen ++ todo) r.2) as H.
  { induction todo as [|[[ordinal i] x] todo IH]; intros seen [el b] H1 H2; [by rewrite app_nil_r|].
    cbn [fold_left]. destruct (consider_spec now entries seen i x ordinal el b H1 H2) as [H3 H4].
    specialize (IH (seen ++ [(ordinal, i, x)]) (consider now entries i x ordinal (el, b)) H3 H4).
    rewrite <- app_assoc in IH. exact IH. }
  specialize (H (slots proxies) [] (false, None)). cbn [app fst snd] in H.
  destruct (fold_left _ (slots proxies) (false, None)) as [el b]. apply H.
  - split; [done|]. by intros (s & Hs%elem_of_nil & _).
  - intros s Hs. by apply elem_of_nil in Hs.
Qed.

(** ** The books of the pool *)

Definition holds (id : string) (ph : phase) : bool := match ph with Holding e _ => String.eqb e id | _ => false end.
Definition reserves (id : string) (ph : phase) : bool :=
  match ph with
  | Trying _ (Some r) | Queued _ (Some r) | Leaving (Some r) _ => String.eqb r id
  | _ => false
  end.
Definition is_queued (ph : phase) : bool := match ph with Queued _ _ => true | _ => false end.
Definition is_active (ph : phase) : bool := match ph with Outside | Returned _ => false | _ => true end.

Definition busy_of (m : gmap string entry) (id : string) : Z := match m !! id with Some e => b2z (en_busy e) | None => 0 end.
Definition waiting_of (m : gmap string entry) (id : string) : Z := match m !! id with Some e => en_waiting e | None => 0 end.

(** Where the identities are. *)
Definition shape (m : gmap string entry) : gmap string (nat * nat) := (fun e => (en_proxy e, en_ordinal e)) <$> m.

Definition placed (places : gmap string (nat * nat)) (proxies : list (list (option string))) : Prop :=
  (forall i l, proxies !! i = Some l -> length l = 10%nat) /\
  (forall i l k id, proxies !! i = Some l -> l !! k = Some (Some id) -> places !! id = Some (i, k)) /\
  (forall id i k, places !! id = Some (i, k) -> exists l, proxies !! i = Some l /\ l !! k = Some (Some id)).

Record books (p : Pool) : Prop := {
  bk_busy id : tally (holds id) (po_callers p) = busy_of (po_entries p) id;
  bk_waiting id : tally (reserves id) (po_callers p) = waiting_of (po_entries p) id;
  bk_queued : po_queued p = tally is_queued (po_callers p);
  bk_limit : po_queued p <= po_queueLimit p;
  bk_workers : po_workers p = tally is_active (po_callers p);
  bk_placed : placed (shape (po_entries p)) (px_slots <$> po_proxies p);
}.

Lemma busy_of_insert m id e id' : busy_of (<[id := e]> m) id' = if decide (id = id') then b2z (en_busy e) else busy_of m id'.
Proof. unfold busy_of. destruct (decide (id = id')) as [->|]; [by rewrite lookup_insert_eq|by rewrite lookup_insert_ne]. Qed.
Lemma waiting_of_insert m id e id' : waiting_of (<[id := e]> m) id' = if decide (id = id') then en_waiting e else waiting_of m id'.
Proof. unfold waiting_of. destruct (decide (id = id')) as [->|]; [by rewrite lookup_insert_eq|by rewrite lookup_insert_ne]. Qed.

Lemma alter_insert_some {A} (f : A -> A) (m : gmap string A) id e : m !! id = Some e -> alter f id m = <[id := f e]> m.
Proof.
  intros He. apply map_eq. intros k. destruct (decide (id = k)) as [->|].
  - by rewrite lookup_alter_eq, lookup_insert_eq, He.
  - by rewrite lookup_alter_ne, lookup_insert_ne.
Qed.
Lemma alter_none {A} (f : A -> A) (m : gmap string A) id : m !! id = None -> alter f id m = m.
Proof.
  intros He. apply map_eq. intros k. destruct (decide (id = k)) as [->|]; [by rewrite lookup_alter_eq, He|by rewrite lookup_alter_ne].
Qed.

Lemma shape_insert m id e e' : m !! id = Some e -> en_proxy e' = en_proxy e -> en_ordinal e' = en_ordinal e -> shape (<[id := e']> m) = shape m.
Proof.
  intros He H1 H2. unfold shape. rewrite fmap_insert, H1, H2. apply insert_id. by rewrite lookup_fmap, He.
Qed.

(** A step that changes an entry in place keeps the books when its lease and
    reservations stay. *)
Definition same_entries (m m' : gmap string entry) : Prop :=
  (forall id, busy_of m' id = busy_of m id) /\ (forall id, waiting_of m' id = waiting_of m id) /\ shape m' = shape m.

Lemma same_entries_refl m : same_entries m m.
Proof. done. Qed.
Lemma same_entries_trans m1 m2 m3 : same_entries m1 m2 -> same_entries m2 m3 -> same_entries m1 m3.
Proof. intros (A1 & A2 & A3) (B1 & B2 & B3). split; [|split]; [intros; by rewrite B1|intros; by rewrite B2|by rewrite B3]. Qed.

Lemma same_entries_insert m id e e' : m !! id = Some e -> en_busy e' = en_busy e -> en_waiting e' = en_waiting e ->
  en_proxy e' = en_proxy e -> en_ordinal e' = en_ordinal e -> same_entries m (<[id := e']> m).
Proof.
  intros He H1 H2 H3 H4. split; [|split].
  - intros id'. rewrite busy_of_insert. destruct (decide (id = id')) as [->|]; [|done]. unfold busy_of. by rewrite He, H1.
  - intros id'. rewrite waiting_of_insert. destruct (decide (id = id')) as [->|]; [|done]. unfold waiting_of. by rewrite He, H2.
  - by eapply shape_insert.
Qed.

(** What the helpers of a lease leave alone. *)
Definition frame (p p' : Pool) : Prop :=
  po_callers p' = po_callers p /\ po_queued p' = po_queued p /\ po_queueLimit p' = po_queueLimit p /\ po_workers p' = po_workers p.

Definition quiet (p p' : Pool) : Prop :=
  frame p p' /\ same_entries (po_entries p) (po_entries p') /\ px_slots <$> po_proxies p' = px_slots <$> po_proxies p.

Lemma quiet_refl p : quiet p p.
Proof. done. Qed.
Lemma quiet_trans p1 p2 p3 : quiet p1 p2 -> quiet p2 p3 -> quiet p1 p3.
Proof.
  intros ((A1 & A2 & A3 & A4) & A5 & A6) ((B1 & B2 & B3 & B4) & B5 & B6).
  split; [unfold frame; by rewrite B1, B2, B3, B4|]. split; [by eapply same_entries_trans|by rewrite B6].
Qed.

Lemma quiet_books p p' : quiet p p' -> books p -> books p'.
Proof.
  intros ((A1 & A2 & A3 & A4) & (B1 & B2 & B3) & C) [H1 H2 H3 H4 H5 H6]. split; [intros id|intros id| | | |].
  - by rewrite A1, B1, H1.
  - by rewrite A1, B2, H2.
  - by rewrite A2, A1.
  - by rewrite A2, A3.
  - by rewrite A4, A1.
  - by rewrite B3, C.
Qed.

Lemma slots_alter (f : proxyState -> proxyState) (i : nat) (l : list proxyState) : (forall x, px_slots (f x) = px_slots x) -> px_slots <$> alter f i l = px_slots <$> l.
Proof.
  intros Hf. apply list_eq. intros k. rewrite !list_lookup_fmap. destruct (decide (i = k)) as [->|].
  - rewrite list_lookup_alter_eq. destruct (l !! k); simpl; [by rewrite Hf|done].
  - by rewrite list_lookup_alter_ne.
Qed.

Lemma set_proxy_health_quiet i h p : quiet p (set_proxy_health i h p).
Proof. split; [done|]. split; [done|]. unfold set_proxy_health, set_proxies. cbn [po_proxies]. by apply slots_alter. Qed.

Lemma set_entry_quiet id e e' p : po_entries p !! id = Some e -> en_busy e' = en_busy e -> en_waiting e' = en_waiting e ->
  en_proxy e' = en_proxy e -> en_ordinal e' = en_ordinal e -> quiet p (set_entries (<[id := e']> (po_entries p)) p).
Proof. intros. split; [done|]. split; [|done]. cbn [set_entries po_entries]. by eapply same_entries_insert. Qed.

Lemma failedLocked_quiet now id err p : quiet p (failedLocked now id err p).
Proof.
  unfold failedLocked. destruct (penalty err) as [[[[network code] base] retry]|]; [|done].
  destruct (po_entries p !! id) as [e|] eqn:E; [|done]. destruct network; [apply set_proxy_health_quiet|by eapply set_entry_quiet].
Qed.

Lemma succeeded_quiet id v p : quiet p (succeeded id v p).
Proof.
  unfold succeeded. destruct (po_entries p !! id) as [e|] eqn:E; [|done].
  assert (forall h, quiet p (set_entries (<[id := set_health h e]> (po_entries p)) p)) as Hq by (intros; by eapply set_entry_quiet).
  destruct (po_proxies _ !! _) as [x|]; [|apply Hq]. destruct (_ && _); [|apply Hq].
  eapply quiet_trans; [apply Hq|apply set_proxy_health_quiet].
Qed.

Lemma checkpointLocked_quiet id s p : quiet p (checkpointLocked id s p).
Proof. unfold checkpointLocked. by destruct (po_entries p !! id). Qed.

Lemma recover_quiet now id ctxErr err fresh allowed p : quiet p (recover now id ctxErr err fresh allowed p).2.
Proof.
  unfold recover. destruct ctxErr; [done|]. destruct (as_upstream err) as [u|]; [|done].
  destruct (po_entries p !! id) as [e|] eqn:E; [|done].
  destruct (up_Recovery u); [done| |]; [|destruct fresh as [s|]; [|done]]; destruct allowed; try done; by eapply set_entry_quiet.
Qed.

(** ** Caller steps *)

Lemma books_move p p' i ph0 ph dq dw :
  books p -> frame p p' -> po_callers p !! i = Some ph0 ->
  (forall id, busy_of (po_entries p') id = busy_of (po_entries p) id - b2z (holds id ph0) + b2z (holds id ph)) ->
  (forall id, waiting_of (po_entries p') id = waiting_of (po_entries p) id - b2z (reserves id ph0) + b2z (reserves id ph)) ->
  dq = b2z (is_queued ph) - b2z (is_queued ph0) -> dw = b2z (is_active ph) - b2z (is_active ph0) ->
  po_queued p + dq <= po_queueLimit p ->
  placed (shape (po_entries p')) (px_slots <$> po_proxies p') ->
  books (move i ph dq dw p').
Proof.
  intros [H1 H2 H3 H4 H5 H6] (A1 & A2 & A3 & A4) Hi Hb Hw -> -> Hq Hp. split; cbn [move po_callers po_entries po_queued po_queueLimit po_workers po_proxies].
  - intros id. rewrite A1, (tally_insert _ _ _ _ _ Hi), H1, Hb. done.
  - intros id. rewrite A1, (tally_insert _ _ _ _ _ Hi), H2, Hw. done.
  - rewrite A1, A2, (tally_insert _ _ _ _ _ Hi). lia.
  - rewrite A2, A3. lia.
  - rewrite A1, A4, (tally_insert _ _ _ _ _ Hi). lia.
  - done.
Qed.

(** A reservation names an entry. *)
Lemma reserved_entry p i ph0 r : books p -> po_callers p !! i = Some ph0 -> reserves r ph0 = true ->
  exists e, po_entries p !! r = Some e.
Proof.
  intros [_ H2 _ _ _ _] Hi Hr. pose proof (tally_lookup (reserves r) _ _ _ Hi Hr) as Ht. rewrite H2 in Ht.
  unfold waiting_of in Ht. destruct (po_entries p !! r); [eauto|lia].
Qed.

Lemma release_reserved_spec p r : (forall id, r = Some id -> is_Some (po_entries p !! id)) ->
  frame p (release_reserved r p) /\ po_proxies (release_reserved r p) = po_proxies p /\
  (forall id, busy_of (po_entries (release_reserved r p)) id = busy_of (po_entries p) id) /\
  (forall id, waiting_of (po_entries (release_reserved r p)) id =
     waiting_of (po_entries p) id - b2z (match r with Some r => String.eqb r id | None => false end)) /\
  shape (po_entries (release_reserved r p)) = shape (po_entries p).
Proof.
  intros Hr. destruct r as [r|]; cbn [release_reserved].
  - destruct (Hr r eq_refl) as [e He]. cbn [set_entries po_entries po_proxies]. rewrite (alter_insert_some _ _ _ _ He).
    split; [done|]. split; [done|]. split; [|split].
    + intros id. rewrite busy_of_insert. destruct (decide (r = id)) as [->|]; [|done]. unfold busy_of. by rewrite He.
    + intros id. rewrite waiting_of_insert. destruct (decide (r = id)) as [->|Hne].
      * unfold waiting_of. rewrite He, String.eqb_refl. cbn. lia.
      * destruct (String.eqb_spec r id); [done|]. cbn. lia.
    + by eapply shape_insert.
  - split; [done|]. split; [done|]. split; [done|]. split; [|done]. intros. cbn. lia.
Qed.

(** ** New entries *)

Lemma placed_add places proxies i l k id : proxies !! i = Some l -> l !! k = Some None -> places !! id = None ->
  placed places proxies -> placed (<[id := (i, k)]> places) (<[i := <[k := Some id]> l]> proxies).
Proof.
  intros Hi Hk Hid (P1 & P2 & P3). assert (i < length proxies)%nat as Hil by (by eapply lookup_lt_Some).
  assert (k < length l)%nat as Hkl by (by eapply lookup_lt_Some). split; [|split].
  - intros i' l' H. destruct (decide (i = i')) as [<-|Hne].
    + rewrite list_lookup_insert_eq in H by done. injection H as <-. rewrite length_insert. by eapply P1.
    + rewrite list_lookup_insert_ne in H by done. by eapply P1.
  - intros i' l' k' id' H H'. destruct (decide (i = i')) as [<-|Hne].
    + rewrite list_lookup_insert_eq in H by done. injection H as <-. destruct (decide (k = k')) as [<-|Hnk].
      * rewrite list_lookup_insert_eq in H' by done. injection H' as <-. apply lookup_insert_eq.
      * rewrite list_lookup_insert_ne in H' by done. rewrite lookup_insert_ne; [by eapply P2|].
        intros <-. by rewrite (P2 _ _ _ _ Hi H') in Hid.
    + rewrite list_lookup_insert_ne in H by done. rewrite lookup_insert_ne; [by eapply P2|].
      intros <-. by rewrite (P2 _ _ _ _ H H') in Hid.
  - intros id' i' k' H. destruct (decide (id = id')) as [<-|Hne].
    + rewrite lookup_insert_eq in H. injection H as <- <-. exists (<[k:=Some id]> l). rewrite !list_lookup_insert_eq by done. done.
    + rewrite lookup_insert_ne in H by done. destruct (P3 _ _ _ H) as (l' & H1 & H2). destruct (decide (i = i')) as [<-|Hni].
      * rewrite Hi in H1. injection H1 as <-. exists (<[k:=Some id]> l). rewrite list_lookup_insert_eq by done. split; [done|].
        destruct (decide (k = k')) as [<-|Hnk]; [by rewrite Hk in H2|]. by rewrite list_lookup_insert_ne.
      * exists l'. by rewrite list_lookup_insert_ne.
Qed.

Definition pool_placed (p : Pool) : Prop := placed (shape (po_entries p)) (px_slots <$> po_proxies p).

Lemma new_entry_spec i ordinal x eid s p :
  po_proxies p !! i = Some x -> px_slots x !! ordinal = Some None -> po_entries p !! eid = None -> pool_placed p ->
  let p' := new_entry i ordinal eid s p in
  frame p p' /\ pool_placed p' /\ po_entries p' = <[eid := mkEntry i ordinal s 0 0 0 false false no_health]> (po_entries p) /\
  (forall id, busy_of (po_entries p') id = busy_of (po_entries p) id) /\
  (forall id, waiting_of (po_entries p') id = waiting_of (po_entries p) id).
Proof.
  intros Hx Hs He Hp p'. split; [done|]. split; [|split; [done|split]].
  - unfold pool_placed, p', new_entry. cbn [set_proxies set_entries po_entries po_proxies]. unfold shape. rewrite fmap_insert. cbn [en_proxy en_ordinal].
    match goal with |- placed _ ?l => assert (l = <[i := <[ordinal := Some eid]> (px_slots x)]> (px_slots <$> po_proxies p)) as -> end.
    { apply list_eq. intros k. rewrite list_lookup_fmap. destruct (decide (i = k)) as [<-|Hne].
      - rewrite list_lookup_alter_eq, Hx. rewrite list_lookup_insert_eq; [done|]. rewrite length_fmap. by eapply lookup_lt_Some.
      - rewrite list_lookup_alter_ne, list_lookup_insert_ne, list_lookup_fmap by done. done. }
    apply placed_add; [by rewrite list_lookup_fmap, Hx|done| |exact Hp]. by rewrite lookup_fmap, He.
  - intros id. unfold p', new_entry. cbn [set_proxies set_entries po_entries]. rewrite busy_of_insert.
    destruct (decide (eid = id)) as [<-|]; [|done]. unfold busy_of. by rewrite He.
  - intros id. unfold p', new_entry. cbn [set_proxies set_entries po_entries]. rewrite waiting_of_insert.
    destruct (decide (eid = id)) as [<-|]; [|done]. unfold waiting_of. by rewrite He.
Qed.

Lemma elem_of_slots ordinal i x proxies : (ordinal, i, x) ∈ slots proxies <-> (ordinal < 10)%nat /\ proxies !! i = Some x.
Proof.
  unfold slots. rewrite list_elem_of_bind. split.
  - intros (o & H & Ho). apply elem_of_lookup_imap in H as (j & y & [= <- <- <-] & Hy). apply elem_of_seq in Ho. split; [lia|done].
  - intros [Ho Hi]. exists ordinal. split; [|apply elem_of_seq; lia]. apply elem_of_lookup_imap. eauto.
Qed.

(** A slot whose entry is missing is empty. *)
Lemma empty_slot p ordinal i x : pool_placed p -> (ordinal, i, x) ∈ slots (po_proxies p) ->
  entry_at (po_entries p) (ordinal, i, x) = None -> px_slots x !! ordinal = Some None.
Proof.
  intros (P1 & P2 & _) [Ho Hi]%elem_of_slots He.
  assert ((px_slots <$> po_proxies p) !! i = Some (px_slots x)) as Hl by (by rewrite list_lookup_fmap, Hi).
  pose proof (P1 _ _ Hl). destruct (px_slots x !! ordinal) as [[id|]|] eqn:Es; [|done|apply lookup_ge_None in Es; lia].
  specialize (P2 _ _ _ _ Hl Es). unfold shape in P2. rewrite lookup_fmap in P2. cbn [entry_at] in He.
  assert (slot_entry x ordinal = Some id) as Hse by (unfold slot_entry; by rewrite Es). rewrite Hse in He. cbn in He.
  by destruct (po_entries p !! id).
Qed.

(** What a turn does to the books: the leased identity was free. *)
Definition section_effect (t : turn) (p p' : Pool) : Prop :=
  (forall id, busy_of (po_entries p') id = busy_of (po_entries p) id + b2z (match t with Lease eid => String.eqb eid id | _ => false end)) /\
  (forall id, waiting_of (po_entries p') id =
     waiting_of (po_entries p) id + b2z (match t with Wait (Some r) => String.eqb r id | _ => false end)) /\
  frame p p' /\ pool_placed p'.

Lemma effect_none t p : pool_placed p -> match t with Lease _ | Wait (Some _) => False | _ => True end -> section_effect t p p.
Proof. intros Hp Ht. destruct t as [|e|[|]]; try done; (split; [intros; cbn; lia|]; split; [intros; cbn; lia|done]). Qed.

Lemma b2z_decide (a b : string) : (if decide (a = b) then 1 else 0) = b2z (String.eqb a b).
Proof. destruct (decide (a = b)) as [->|]; [by rewrite String.eqb_refl|]. by destruct (String.eqb_spec a b). Qed.

(** Leasing a free entry. *)
Lemma lease_effect eid e e' (p p' : Pool) : po_entries p !! eid = Some e -> en_busy e = false ->
  en_busy e' = true -> en_waiting e' = en_waiting e -> en_proxy e' = en_proxy e -> en_ordinal e' = en_ordinal e ->
  po_entries p' = <[eid := e']> (po_entries p) -> po_proxies p' = po_proxies p -> frame p p' -> pool_placed p -> section_effect (Lease eid) p p'.
Proof.
  intros He Hb Hb' Hw Hpx Ho Hp' Hpp Hf Hpl. split; [|split; [|split; [done|]]].
  - intros id. rewrite Hp', busy_of_insert, Hb', <- b2z_decide. destruct (decide (eid = id)) as [<-|]; [|lia].
    unfold busy_of. rewrite He, Hb. done.
  - intros id. rewrite Hp', waiting_of_insert. destruct (decide (eid = id)) as [<-|]; [|cbn; lia].
    unfold waiting_of. rewrite He, Hw. cbn. lia.
  - unfold pool_placed. rewrite Hpp, Hp', (shape_insert _ _ e) by done. exact Hpl.
Qed.

Lemma acquire_section_effect now id fresh p t p' : pool_placed p -> known fresh p = false ->
  acquire_section now id fresh p = (t, p') -> section_effect t p p'.
Proof.
  intros Hp Hk. unfold acquire_section. destruct (_ || _); [intros [= <- <-]; by apply effect_none|].
  destruct (negb (po_connected p)); [intros [= <- <-]; by apply effect_none|].
  destruct (po_unwritable p); [intros [= <- <-]; by apply effect_none|]. cbv zeta. destruct (negb (String.eqb id "")).
  - destruct (po_entries p !! id) as [e|] eqn:Ee; [|intros [= <- <-]; by apply effect_none].
    destruct (_ && _); [|intros [= <- <-]; by apply effect_none]. destruct (en_busy e) eqn:Eb; cbn [negb]; intros [= <- <-].
    + split; [|split; [|split; [done|]]]; cbn [set_entries po_entries].
      * intros id'. rewrite busy_of_insert. destruct (decide (id = id')) as [<-|]; [|cbn; lia]. unfold busy_of. rewrite Ee. cbn. lia.
      * intros id'. rewrite waiting_of_insert, <- b2z_decide. destruct (decide (id = id')) as [<-|]; [|lia]. unfold waiting_of. by rewrite Ee.
      * unfold pool_placed. cbn [set_entries po_entries po_proxies]. by rewrite (shape_insert _ _ e).
    + by apply (lease_effect id e (set_busy true e)).
  - pose proof (select_spec (milliseconds now) (po_entries p) (po_proxies p)) as Hs.
    destruct (select (milliseconds now) (po_entries p) (po_proxies p)) as [eligible b]. destruct Hs as [_ Hb].
    destruct b as [b|]; [|destruct eligible; cbn [negb]; intros [= <- <-]; by apply effect_none].
    destruct Hb as ([[ordinal i] x] & Hin & [_ Hf] & [= Ho Hi] & Hbe & _). rewrite Hbe.
    destruct (entry_at (po_entries p) (ordinal, i, x)) as [[eid e]|] eqn:Ea.
    + pose proof (entry_at_lookup _ _ _ _ Ea) as He. rewrite (entry_at_some _ _ _ _ Ea). intros [= <- <-].
      destruct Hf as [Hfb _].
      by apply (lease_effect eid e (set_assigned (en_assignments e + 1) (po_sequence p + 1) (set_busy true e))).
    + cbn [fmap option_fmap option_map mbind option_bind]. destruct fresh as [[eid s]|er]; [|intros [= <- <-]; by apply effect_none].
      intros [= <- <-]. cbn in Hk. apply bool_decide_eq_false in Hk. apply eq_None_not_Some in Hk.
      pose proof (empty_slot p ordinal i x Hp Hin Ea) as Hsl. apply elem_of_slots in Hin as [_ Hx]. rewrite <- Ho, <- Hi.
      destruct (new_entry_spec i ordinal x eid s p Hx Hsl Hk Hp) as (F1 & F2 & F3 & F4 & F5).
      set (p1 := new_entry i ordinal eid s p) in *.
      assert (section_effect (Lease eid) p1 (set_sequence (po_sequence p + 1) (set_entries (<[eid := set_assigned 1 (po_sequence p + 1)
        (set_busy true (mkEntry i ordinal s 0 0 0 false false no_health))]> (po_entries p1)) p1))) as (E1 & E2 & E3 & E4).
      { set (fe := mkEntry i ordinal s 0 0 0 false false no_health). assert (po_entries p1 !! eid = Some fe) as Hfe by (rewrite F3; apply lookup_insert_eq).
        by apply (lease_effect eid fe (set_assigned 1 (po_sequence p + 1) (set_busy true fe))). }
      split; [intros id'; by rewrite <- F4|]. split; [intros id'; by rewrite <- F5|]. done.
Qed.

(** ** Steps *)

Lemma books_pool_placed p : books p -> pool_placed p.
Proof. by intros [_ _ _ _ _ H]. Qed.

Definition reserved_is (r : option string) (id : string) : bool := match r with Some r => String.eqb r id | None => false end.

Lemma reserved_some p i ph0 reserved : books p -> po_callers p !! i = Some ph0 ->
  (forall r, reserved = Some r -> reserves r ph0 = true) -> forall id, reserved = Some id -> is_Some (po_entries p !! id).
Proof. intros Hb Hi Hr id ->. eapply reserved_entry; [done|done|]. by apply Hr. Qed.

Lemma trying_reserves id r r' : r = Some r' -> reserves r' (Trying id r) = true.
Proof. intros ->. cbn. apply String.eqb_refl. Qed.

Lemma known_release fresh reserved p : (forall id, reserved = Some id -> is_Some (po_entries p !! id)) ->
  known fresh (release_reserved reserved p) = known fresh p.
Proof.
  intros Hr. destruct fresh as [[eid s]|]; [|done]. cbn. apply bool_decide_ext. destruct reserved as [r|]; [|done].
  cbn [release_reserved set_entries po_entries]. destruct (decide (r = eid)) as [->|].
  - rewrite lookup_alter_eq. apply fmap_is_Some.
  - by rewrite lookup_alter_ne.
Qed.

Lemma pool_frame_trans p1 p2 p3 : frame p1 p2 -> frame p2 p3 -> frame p1 p3.
Proof. intros (A1 & A2 & A3 & A4) (B1 & B2 & B3 & B4). unfold frame. by rewrite B1, B2, B3, B4. Qed.

Lemma acquire_turn_books i now ctxErr id reserved fresh p :
  po_callers p !! i = Some (Trying id reserved) -> known fresh p = false -> books p ->
  books (acquire_turn i now ctxErr id reserved fresh p).
Proof.
  intros Hi Hk Hb. unfold acquire_turn.
  pose proof (reserved_some p i _ reserved Hb Hi (fun r => trying_reserves id reserved r)) as Hr.
  pose proof (bk_limit p Hb) as Hl. pose proof (books_pool_placed p Hb) as Hp. destruct ctxErr as [e|].
  { eapply (books_move p p); try done; [intros k; cbn; lia|intros k; destruct reserved; cbn; lia|lia]. }
  destruct (release_reserved_spec p reserved Hr) as (R1 & R2 & R3 & R4 & R5).
  set (p0 := release_reserved reserved p) in *.
  destruct (acquire_section now id fresh p0) as [t p'] eqn:Es.
  assert (pool_placed p0) as Hp0 by (unfold pool_placed; by rewrite R5, R2).
  destruct (acquire_section_effect now id fresh p0 t p' Hp0) as (E1 & E2 & E3 & E4); [by rewrite (known_release _ _ _ Hr)|done|].
  pose proof (pool_frame_trans _ _ _ R1 E3) as Hf. pose proof Hf as (_ & Hq & Hql & _).
  assert (forall ph dq dw, (forall k, holds k ph = match t with Lease e => String.eqb e k | _ => false end) ->
    (forall k, reserves k ph = match t with Wait r => reserved_is r k | _ => false end) ->
    dq = b2z (is_queued ph) -> dw = b2z (is_active ph) - 1 -> po_queued p + dq <= po_queueLimit p -> books (move i ph dq dw p')) as Hm.
  { intros ph dq dw H1 H2 Hdq Hdw Hlim. eapply (books_move p p'); [done|done|exact Hi| | |cbn; lia|cbn; lia|done|exact E4].
    - intros k. rewrite E1, R3, H1. cbn. lia.
    - intros k. rewrite E2, R4, H2. destruct t as [| |[|]], reserved as [|]; cbn; lia. }
  destruct t as [eid|e|w]; [apply Hm; try done; lia|apply Hm; try done; lia|].
  rewrite Hq, Hql. destruct (Z.leb_spec (po_queueLimit p) (po_queued p)).
  - apply Hm; try done; try lia; intros k; by destruct w.
  - apply Hm; try done; try (cbn; lia); intros k; by destruct w.
Qed.

Lemma quiet_frame p p' : quiet p p' -> frame p p'.
Proof. by intros [H _]. Qed.

Lemma finish_books i now id v operationErr cancelled encoded p :
  po_callers p !! i = Some (Holding id v) -> books p -> books (finish i now id v operationErr cancelled encoded p).
Proof.
  intros Hi Hb. unfold finish. cbv zeta.
  set (p1 := match operationErr with None => succeeded id v p | Some err => if cancelled then p else failedLocked now id err p end).
  assert (quiet p p1) as Q1.
  { unfold p1. destruct operationErr as [err|]; [|apply succeeded_quiet]. destruct cancelled; [done|apply failedLocked_quiet]. }
  assert (books p1) as Hb1 by (by eapply quiet_books).
  assert (po_callers p1 !! i = Some (Holding id v)) as Hi1 by (by destruct Q1 as [(-> & _) _]).
  clearbody p1. clear p Q1 Hb Hi.
  destruct (po_entries p1 !! id) as [e|] eqn:Ee.
  2:{ pose proof (tally_lookup (holds id) _ _ _ Hi1 (String.eqb_refl id)) as Ht. rewrite (bk_busy p1 Hb1) in Ht. unfold busy_of in Ht. rewrite Ee in Ht. lia. }
  set (e2 := set_session (en_session e) (ss_registered (en_session e)) e).
  set (p2 := set_entries (<[id := e2]> (po_entries p1)) p1).
  assert (quiet p1 p2) as Q2 by (by eapply set_entry_quiet).
  set (p3 := if encoded then checkpointLocked id (en_session e2) p2 else p2).
  assert (quiet p2 p3) as Q3 by (unfold p3; destruct encoded; [apply checkpointLocked_quiet|done]).
  assert (books p3) as Hb3 by (eapply quiet_books; [exact Q3|by eapply quiet_books]).
  assert (po_callers p3 !! i = Some (Holding id v)) as Hi3.
  { destruct Q3 as [(-> & _) _]. done. }
  pose proof (tally_lookup (holds id) _ _ _ Hi3 (String.eqb_refl id)) as Ht. rewrite (bk_busy p3 Hb3) in Ht. unfold busy_of in Ht.
  pose proof (bk_limit p3 Hb3). pose proof (books_pool_placed p3 Hb3) as Hp3.
  destruct (po_entries p3 !! id) as [e3|] eqn:Ee3; [|lia].
  destruct (en_busy e3) eqn:Eb; [|cbn in Ht; lia]. rewrite (alter_insert_some _ _ _ _ Ee3).
  eapply (books_move p3); [done|done|exact Hi3| | |done|done|lia|].
  - intros k. cbn [set_entries po_entries holds]. rewrite busy_of_insert, <- b2z_decide.
    destruct (decide (id = k)) as [<-|]; [|cbn; lia]. unfold busy_of. rewrite Ee3, Eb. done.
  - intros k. cbn [set_entries po_entries reserves]. rewrite waiting_of_insert.
    destruct (decide (id = k)) as [<-|]; [|cbn; lia]. unfold waiting_of. rewrite Ee3. cbn. lia.
  - cbn [set_entries po_entries po_proxies]. rewrite (shape_insert _ _ e3) by done. exact Hp3.
Qed.

Lemma savedLocked_quiet b p : quiet p (savedLocked b p).
Proof.
  split; [done|]. split; [done|]. unfold savedLocked. cbn [set_store set_proxies po_proxies].
  generalize (po_proxies p). induction (sb_proxies b) as [|[[i v] h] l IH]; intros px; [done|]. cbn [fold_left].
  rewrite IH. by apply slots_alter.
Qed.

Lemma prepare_slot_books i ordinal fresh p : known fresh p = false -> books p -> books (prepare_slot i ordinal fresh p).
Proof.
  intros Hk Hb. unfold prepare_slot. destruct (_ || _); [done|]. destruct (po_proxies p !! i) as [x|] eqn:Ex; [|done].
  destruct (px_slots x !! ordinal) as [[|]|] eqn:Es; try done. destruct fresh as [[eid s]|]; [|done].
  cbn in Hk. apply bool_decide_eq_false in Hk. apply eq_None_not_Some in Hk.
  destruct (new_entry_spec i ordinal x eid s p Ex Es Hk (books_pool_placed p Hb)) as ((F1 & F2 & F3 & F4) & P & _ & B & W).
  destruct Hb as [H1 H2 H3 H4 H5 H6]. split; [intros k|intros k| | | |done].
  - by rewrite F1, B.
  - by rewrite F1, W.
  - by rewrite F1, F2.
  - by rewrite F2, F3.
  - by rewrite F4, F1.
Qed.

Lemma books_step a p : books p -> books (step a p).
Proof.
  intros Hb. pose proof (bk_limit p Hb) as Hl. pose proof (books_pool_placed p Hb) as Hp.
  destruct a as [i id|i now ctxErr fresh|i ordinal fresh|i|i|i now ctxErr err fresh allowed|i s|i now oe cancelled encoded| | |ok|b|b| |]; cbn [step].
  - destruct (po_callers p !! i) as [[]|] eqn:Hi; try done.
    destruct (_ || _); eapply (books_move p p); try done; try lia; intros k; cbn; lia.
  - destruct (po_callers p !! i) as [[]|] eqn:Hi; try done. destruct (known fresh p) eqn:Hk; [done|]. by apply acquire_turn_books.
  - destruct (known fresh p) eqn:Hk; [done|]. by apply prepare_slot_books.
  - destruct (po_callers p !! i) as [[| |id r| | |]|] eqn:Hi; try done.
    eapply (books_move p p); try done; [intros k; cbn; lia|intros k; destruct r; cbn; lia|cbn; lia].
  - destruct (po_callers p !! i) as [[| | | |r e|]|] eqn:Hi; try done.
    assert (forall id, r = Some id -> is_Some (po_entries p !! id)) as Hr.
    { eapply reserved_some; [done|exact Hi|]. intros r' ->. cbn. apply String.eqb_refl. }
    destruct (release_reserved_spec p r Hr) as (R1 & R2 & R3 & R4 & R5).
    eapply (books_move p); [done|exact R1|exact Hi| | |done|done|lia|by rewrite R5, R2].
    + intros k. rewrite R3. cbn. lia.
    + intros k. rewrite R4. destruct r; cbn; lia.
  - destruct (po_callers p !! i) as [[]|] eqn:Hi; try done. eapply quiet_books; [apply recover_quiet|done].
  - destruct (po_callers p !! i) as [[| | |eid v| |]|] eqn:Hi; try done. eapply quiet_books; [|done].
    destruct (po_entries p !! eid) as [e|] eqn:Ee; [|by rewrite (alter_none _ _ _ Ee)].
    rewrite (alter_insert_some _ _ _ _ Ee). by eapply set_entry_quiet.
  - destruct (po_callers p !! i) as [[]|] eqn:Hi; try done. by apply finish_books.
  - by destruct (po_batch p); [|eapply (quiet_books p)].
  - by destruct (po_batch p); [eapply (quiet_books p)|].
  - destruct (po_batch p) as [b|]; [|done]. destruct ok; [|by eapply (quiet_books p)].
    eapply quiet_books; [apply savedLocked_quiet|]. by eapply (quiet_books p).
  - by eapply (quiet_books p).
  - by eapply (quiet_books p).
  - by eapply (quiet_books p).
  - by eapply (quiet_books p).
Qed.

Lemma books_run actions p : books p -> books (run actions p).
Proof. unfold run. revert p. induction actions as [|a l IH]; intros p Hb; [done|]. cbn. by apply IH, books_step. Qed.

(** ** Exclusive leases *)

(** The pool as [Open] leaves it. *)
Record opened (p : Pool) : Prop := {
  op_callers i ph : po_callers p !! i = Some ph -> ph = Outside;
  op_entries id e : po_entries p !! id = Some e -> en_busy e = false /\ en_waiting e = 0;
  op_queued : po_queued p = 0;
  op_limit : 0 <= po_queueLimit p;
  op_workers : po_workers p = 0;
  op_placed : pool_placed p;
}.

Lemma tally_outside f (l : list phase) : f Outside = false -> (forall i ph, l !! i = Some ph -> ph = Outside) -> tally f l = 0.
Proof.
  intros Hf. induction l as [|ph l IH]; intros H; [done|]. cbn. rewrite (H 0%nat ph eq_refl), Hf, IH; [done|].
  intros i. apply (H (S i)).
Qed.

Lemma opened_books p : opened p -> books p.
Proof.
  intros [H1 H2 H3 H4 H5 H6]. split; [intros id|intros id| | | |].
  - rewrite (tally_outside (holds id) _ eq_refl H1). unfold busy_of. destruct (po_entries p !! id) as [e|] eqn:E; [|done].
    by destruct (H2 _ _ E) as [-> _].
  - rewrite (tally_outside (reserves id) _ eq_refl H1). unfold waiting_of. destruct (po_entries p !! id) as [e|] eqn:E; [|done].
    by destruct (H2 _ _ E) as [_ ->].
  - by rewrite H3, (tally_outside is_queued _ eq_refl H1).
  - by rewrite H3.
  - by rewrite H5, (tally_outside is_active _ eq_refl H1).
  - done.
Qed.

Lemma holds_inv id ph : holds id ph = true -> exists v, ph = Holding id v.
Proof. destruct ph; try done. cbn. intros ->%String.eqb_eq. eauto. Qed.

(** C4. Leases are exclusive: in every run of a pool that [Open] has set up,
    whatever the interleaving of requests, the persistence goroutine and
    shutdown, no two callers hold the same identity; an identity is marked busy
    exactly while a caller holds it, and its reservation count is the number of
    pinned requests that wait for it; the queue counts the waiting callers and
    never exceeds its limit; the worker count that [Close] waits for is the
    number of callers that have entered and not yet left; and every identity
    stays in the one slot of its route that names it. *)
Theorem pool_exclusive actions p0 : opened p0 ->
  let p := run actions p0 in
  (forall i j id v w, po_callers p !! i = Some (Holding id v) -> po_callers p !! j = Some (Holding id w) -> i = j) /\
  (forall i id v, po_callers p !! i = Some (Holding id v) -> exists e, po_entries p !! id = Some e /\ en_busy e = true) /\
  (forall id e, po_entries p !! id = Some e ->
    (en_busy e = true -> exists i v, po_callers p !! i = Some (Holding id v)) /\
    en_waiting e = tally (reserves id) (po_callers p)) /\
  po_queued p = tally is_queued (po_callers p) /\ po_queued p <= po_queueLimit p /\
  po_workers p = tally is_active (po_callers p) /\
  placed (shape (po_entries p)) (px_slots <$> po_proxies p).
Proof.
  intros Ho p. pose proof (books_run actions p0 (opened_books p0 Ho)) as [H1 H2 H3 H4 H5 H6]. fold p in H1, H2, H3, H4, H5, H6.
  split; [|split; [|split; [|done]]].
  - intros i j id v w Hi Hj. eapply (tally_unique (holds id) (po_callers p) i j); [|exact Hi| |exact Hj|]; cbn; try apply String.eqb_refl.
    rewrite H1. unfold busy_of. destruct (po_entries p !! id) as [e|]; [destruct (en_busy e)|]; cbn; lia.
  - intros i id v Hi. pose proof (tally_lookup (holds id) _ _ _ Hi (String.eqb_refl id)) as Ht. rewrite H1 in Ht. unfold busy_of in Ht.
    destruct (po_entries p !! id) as [e|]; [|lia]. exists e. split; [done|]. by destruct (en_busy e).
  - intros id e He. split.
    + intros Hb. destruct (tally_pos (holds id) (po_callers p)) as (i & ph & Hi & Hh).
      { rewrite H1. unfold busy_of. rewrite He, Hb. cbn. lia. }
      apply holds_inv in Hh as [v ->]. eauto.
    + rewrite H2. unfold waiting_of. by rewrite He.
Qed.

(** A pool of one route, and two callers that want the same identity. *)
Definition one_route (callers : nat) : Pool :=
  mkPool true false true false false ∅ [mkProxy (replicate 10 None) no_health 0 0] 0 0 4 0 (replicate callers Outside) 0 0 ∅ None ∅.

Lemma one_route_opened n : opened (one_route n).
Proof.
  split; [| |done|done|done|].
  - intros i ph H. by apply lookup_replicate in H as [-> _].
  - intros id e H. cbn in H. by rewrite lookup_empty in H.
  - split; [|split].
    + intros i l H. destruct i; [|done]. by injection H as <-.
    + intros i l k id H H'. destruct i; [|done]. injection H as <-. by apply (lookup_replicate 10 None (Some id) k) in H' as [? _].
    + intros id i k H. cbn in H. by rewrite fmap_empty, lookup_empty in H.
Qed.

Definition blank_session : session := mkSession false false 0.
Definition contention : list action :=
  [Enter 0 ""; Turn 0 0 None (Ok ("a", blank_session)); Enter 1 "a"; Turn 1 0 None (Ok ("b", blank_session));
   Finish 0 0 None false true; Wake 1; Turn 1 0 None (Ok ("b", blank_session))]%string.

Lemma pool_exclusive_witness : opened (one_route 2) /\
  po_callers (run (take 4 contention) (one_route 2)) = [Holding "a" 0; Queued "a" (Some "a")] /\
  po_callers (run contention (one_route 2)) = [Returned (Ok "a"); Holding "a" 0] /\
  po_workers (run contention (one_route 2)) = tally is_active (po_callers (run contention (one_route 2))).
Proof.
  split; [apply one_route_opened|]. split; [by vm_compute|]. split; [by vm_compute|].
  apply (pool_exclusive contention (one_route 2)). apply one_route_opened.
Defined.

(** ** Which identity is leased *)

Definition serving (p : Pool) : Prop :=
  po_ready p = true /\ po_closing p = false /\ po_connected p = true /\ po_unwritable p = false.

Definition leased (p : Pool) (eid : string) (e : entry) (p' : Pool) : Prop :=
  po_entries p' = <[eid := set_assigned (en_assignments e + 1) (po_sequence p + 1) (set_busy true e)]> (po_entries p) /\
  po_sequence p' = po_sequence p + 1.

(** The identity of an unpinned request, for a pool that serves: if every
    slot is cooling down, or is on a route that is, the request is refused as
    rate limited; if some slot is warm but every warm one is leased or waited
    for, it waits; otherwise it gets a free warm slot that no other free warm
    slot beats on assignments and then on the time of its last selection.  Its
    identity is marked busy, its assignments and the selection sequence grow by
    one, and an empty slot is given a new identity, or the request fails with
    the error that prevented it. *)
Theorem lease_selection now fresh p : serving p -> pool_placed p -> known fresh p = false ->
  let ms := milliseconds now in
  let all := slots (po_proxies p) in
  let r := acquire_section now "" fresh p in
  ((forall s, s ∈ all -> ~ warm ms (po_entries p) s) -> r = (Refuse cooling, p)) /\
  ((exists s, s ∈ all /\ warm ms (po_entries p) s) -> (forall s, s ∈ all -> ~ free ms (po_entries p) s) -> r = (Wait None, p)) /\
  ((exists s, s ∈ all /\ free ms (po_entries p) s) ->
     exists ordinal i x, (ordinal, i, x) ∈ all /\ free ms (po_entries p) (ordinal, i, x) /\
       (forall s, s ∈ all -> free ms (po_entries p) s -> rank_le (rank (po_entries p) (ordinal, i, x)) (rank (po_entries p) s)) /\
       match entry_at (po_entries p) (ordinal, i, x), fresh with
       | Some (eid, e), _ => exists p', r = (Lease eid, p') /\ leased p eid e p' /\ po_proxies p' = po_proxies p
       | None, Ok (eid, s) => exists p', r = (Lease eid, p') /\ leased p eid (mkEntry i ordinal s 0 0 0 false false no_health) p' /\
           px_slots <$> po_proxies p' !! i = Some (<[ordinal := Some eid]> (px_slots x))
       | None, Err e => r = (Refuse e, p)
       end).
Proof.
  intros (S1 & S2 & S3 & S4) Hp Hk ms all r.
  pose proof (select_spec ms (po_entries p) (po_proxies p)) as Hs. unfold r, acquire_section. rewrite S1, S2, S3, S4. cbn [negb orb String.eqb].
  cbv zeta. fold ms. destruct (select ms (po_entries p) (po_proxies p)) as [el b]. destruct Hs as [Hel Hb]. fold all in Hel, Hb.
  destruct b as [b|].
  - destruct Hb as ([[ordinal i] x] & Hin & Hf & [= Ho Hi] & Hbe & _ & Hmin). split; [|split].
    + intros Hn. exfalso. by apply (Hn _ Hin), Hf.
    + intros _ Hn. by destruct (Hn _ Hin).
    + intros _. exists ordinal, i, x. split; [done|]. split; [done|]. split; [done|]. rewrite Hbe.
      destruct (entry_at (po_entries p) (ordinal, i, x)) as [[eid e]|] eqn:Ea.
      * rewrite (entry_at_some _ _ _ _ Ea). eexists. split; [done|]. done.
      * cbn. destruct fresh as [[eid s]|e]; [|done]. eexists. split; [done|]. rewrite <- Ho, <- Hi.
        apply elem_of_slots in Hin as [_ Hx]. split; [split; [|done]|].
        -- cbn. by rewrite insert_insert_eq.
        -- cbn. by rewrite list_lookup_alter_eq, Hx.
  - split; [|split].
    + intros Hn. destruct el; [|done]. destruct (proj1 Hel eq_refl) as (s & Hs & Hw). by destruct (Hn s Hs).
    + intros Hw _. by rewrite (proj2 Hel Hw).
    + intros (s & Hs & Hf). by destruct (Hb s Hs).
Qed.

(** After one lease the second slot is the least used. *)
Definition used_once : Pool := run [Enter 0 ""; Turn 0 0 None (Ok ("a", blank_session)); Finish 0 0 None false true]%string (one_route 2).

Lemma lease_selection_witness :
  fst (acquire_section 0 "" (Ok ("b", blank_session)) used_once) = Lease "b" /\
  exists ordinal i x, (ordinal, i, x) ∈ slots (po_proxies used_once) /\ free 0 (po_entries used_once) (ordinal, i, x) /\
    rank_le (rank (po_entries used_once) (ordinal, i, x)) (0, 0).
Proof.
  split; [by vm_compute|].
  destruct (lease_selection 0 (Ok ("b"%string, blank_session)) used_once) as (_ & _ & H).
  - by repeat split.
  - apply books_pool_placed, books_run, opened_books, one_route_opened.
  - by vm_compute.
  - assert (exists x, (1%nat, 0%nat, x) ∈ slots (po_proxies used_once) /\ free 0 (po_entries used_once) (1%nat, 0%nat, x) /\
      rank (po_entries used_once) (1%nat, 0%nat, x) = (0, 0)) as (x & Hin & Hf & Hr).
    { eexists. split; [apply elem_of_slots; split; [lia|vm_compute; reflexivity]|].
      split; [|by vm_compute]. split; [split; [by vm_compute|]|by vm_compute]. by intros id e [=]. }
    destruct H as (ordinal & i & y & H1 & H2 & H3 & _); [eauto|]. exists ordinal, i, y. split; [done|]. split; [done|].
    rewrite <- Hr. by apply H3.
Defined.

(** ** What the end of a lease does to the health records *)

(** Errors that say nothing about the identity or its route. *)
Definition blameless (err : goerr) : Prop :=
  is_canceled err = true \/ is_deadline err = true \/
  match as_upstream err with
  | Some u => up_Code u = "content_deleted"%string \/ IsContentRestricted u = true
  | None => as_net err = None
  end.

(** One more failure, and a cooldown that starts at [now]: for as long as the
    upstream asked, or else between one second and five minutes; an earlier
    cooldown is never shortened. *)
Definition penalised (now : Z) (err : goerr) (h h' : health) : Prop :=
  let retry := match as_upstream err with Some u => up_RetryAfter u | None => 0 end in
  h_Failures h' = h_Failures h + 1 /\ h_LastFailureAt h' = Some now /\ is_Some (h_LastFailureCode h') /\
  h_LastRecoveryAt h' = h_LastRecoveryAt h /\ h_LastRecovery h' = h_LastRecovery h /\
  exists delay, h_CooldownUntil h' = Z.max (h_CooldownUntil h) (milliseconds (now + delay)) /\
    (if 0 <? retry then delay = retry else 1000000000 <= delay <= 300000000000).

Definition cleared (h h' : health) : Prop := h_Failures h' = 0 /\ h_CooldownUntil h' = 0 /\ h_LastFailureAt h' = h_LastFailureAt h.

Lemma cooldown_penalised now base code err h : 0 <= h_Failures h -> 1000000000 <= base <= 5000000000 ->
  penalised now err h (cooldown now base (match as_upstream err with Some u => up_RetryAfter u | None => 0 end) code h).
Proof.
  intros Hf Hb. unfold penalised, cooldown. cbv zeta. cbn [h_Failures h_LastFailureAt h_LastFailureCode h_LastRecoveryAt h_LastRecovery h_CooldownUntil].
  repeat (split; [by eauto|]). eexists. split; [reflexivity|]. destruct (Z.ltb_spec 0 (match as_upstream err with Some u => up_RetryAfter u | None => 0 end)); [done|].
  assert (1 <= Z.shiftl 1 (Z.min (h_Failures h + 1 - 1) 8)).
  { rewrite Z.shiftl_1_l. pose proof (Z.pow_pos_nonneg 2 (Z.min (h_Failures h + 1 - 1) 8)). lia. }
  nia.
Qed.

Lemma penalty_blameless err : penalty err = None <-> blameless err.
Proof.
  unfold penalty, blameless. cbv zeta. destruct (is_canceled err); [cbn; tauto|]. destruct (is_deadline err); [cbn; tauto|]. cbn [orb].
  destruct (as_upstream err) as [u|].
  - destruct (String.eqb_spec (up_Code u) "content_deleted") as [->|Hn]; cbn [orb]; [tauto|].
    destruct (IsContentRestricted u); [tauto|]. split; [by destruct (bool_decide _)|]. intros [|[|[|]]]; done.
  - destruct (as_net err); cbn; [|tauto]. split; [done|]. intros [|[|]]; done.
Qed.

Lemma penalty_cases err : ~ blameless err -> exists code base,
  penalty err = Some (bool_decide (is_Some (as_net err)), code, base, match as_upstream err with Some u => up_RetryAfter u | None => 0 end) /\
  1000000000 <= base <= 5000000000.
Proof.
  rewrite <- penalty_blameless. unfold penalty. cbv zeta. destruct (_ || _); [done|]. destruct (as_upstream err) as [u|], (bool_decide (is_Some (as_net err))) eqn:En; try done.
  - destruct (_ || _); [done|]. intros _. do 2 eexists. split; [done|lia].
  - destruct (_ || _); [done|]. intros _. do 2 eexists. split; [done|]. destruct (String.eqb _ _); lia.
  - intros _. do 2 eexists. split; [done|lia].
Qed.

Definition route (p : Pool) (e : entry) : option proxyState := po_proxies p !! en_proxy e.

Lemma failedLocked_spec now id err p e x : po_entries p !! id = Some e -> route p e = Some x ->
  0 <= h_Failures (en_health e) -> 0 <= h_Failures (px_health x) ->
  let p' := failedLocked now id err p in
  (blameless err -> p' = p) /\
  (~ blameless err -> as_net err = None -> po_proxies p' = po_proxies p /\
     exists h, po_entries p' = <[id := set_health h e]> (po_entries p) /\ penalised now err (en_health e) h) /\
  (~ blameless err -> is_Some (as_net err) -> po_entries p' = po_entries p /\
     exists x', po_proxies p' = <[en_proxy e := x']> (po_proxies p) /\ penalised now err (px_health x) (px_health x') /\
       px_healthVersion x' = px_healthVersion x + 1 /\ px_slots x' = px_slots x).
Proof.
  intros He Hx H1 H2 p'. unfold p', failedLocked. rewrite He. unfold proxy_health. unfold route in Hx. rewrite Hx. split; [|split].
  - intros Hb%penalty_blameless. by rewrite Hb.
  - intros Hb Hn. destruct (penalty_cases err Hb) as (code & base & -> & Hr). rewrite Hn. cbn. split; [done|].
    eexists. split; [done|]. by apply cooldown_penalised.
  - intros Hb Hn. destruct (penalty_cases err Hb) as (code & base & -> & Hr). rewrite (bool_decide_eq_true_2 _ Hn). split; [done|].
    exists (mkProxy (px_slots x) (cooldown now base (match as_upstream err with Some u => up_RetryAfter u | None => 0 end) code (px_health x))
      (px_healthVersion x + 1) (px_savedHealthVersion x)). split; [|split; [|done]].
    + unfold set_proxy_health. cbn. apply list_eq. intros k. destruct (decide (en_proxy e = k)) as [<-|].
      * rewrite list_lookup_alter_eq, Hx, list_lookup_insert_eq by (by eapply lookup_lt_Some). reflexivity.
      * by rewrite list_lookup_alter_ne, list_lookup_insert_ne.
    + cbn. by apply cooldown_penalised.
Qed.

Lemma finish_entry i now id v (operationErr : option goerr) (cancelled encoded : bool) p p1 e1 :
  p1 = match operationErr with None => succeeded id v p | Some err => if cancelled then p else failedLocked now id err p end ->
  po_entries p1 !! id = Some e1 ->
  let p' := finish i now id v operationErr cancelled encoded p in
  po_entries p' = <[id := set_busy false (set_session (en_session e1) (ss_registered (en_session e1)) e1)]> (po_entries p1) /\
  po_proxies p' = po_proxies p1.
Proof.
  intros Hp1 He p'. unfold p', finish. cbv zeta. rewrite <- Hp1, He. clear Hp1 p'.
  set (e2 := set_session (en_session e1) (ss_registered (en_session e1)) e1). set (p2 := set_entries _ p1).
  assert (po_entries (if encoded then checkpointLocked id (en_session e2) p2 else p2) = <[id := e2]> (po_entries p1) /\
    po_proxies (if encoded then checkpointLocked id (en_session e2) p2 else p2) = po_proxies p1) as [H1 H2].
  { destruct encoded; [|done]. unfold checkpointLocked. by destruct (po_entries p2 !! id). }
  cbn [move set_entries po_entries po_proxies]. rewrite H1, H2. split; [|done].
  rewrite (alter_insert_some _ _ _ e2) by apply lookup_insert_eq. by rewrite insert_insert_eq.
Qed.

(** The health of an identity and its route after a lease that began at route version [v]. *)
Definition outcome (operationErr : option goerr) (cancelled : bool) (now v : Z) (h : health) (x : proxyState) (h' : health) (x' : proxyState) : Prop :=
  match operationErr with
  | None => cleared h h' /\
      (if (px_healthVersion x =? v) && (0 <? h_Failures (px_health x)) then cleared (px_health x) (px_health x') else x' = x)
  | Some err =>
      (cancelled = true \/ blameless err -> h' = h /\ x' = x) /\
      (cancelled = false -> ~ blameless err -> as_net err = None -> penalised now err h h' /\ x' = x) /\
      (cancelled = false -> ~ blameless err -> is_Some (as_net err) -> h' = h /\ penalised now err (px_health x) (px_health x'))
  end.

Lemma set_health_id e : set_health (en_health e) e = e.
Proof. by destruct e. Qed.

Lemma succeeded_spec now cancelled id v p e x : po_entries p !! id = Some e -> route p e = Some x ->
  exists h x1, po_entries (succeeded id v p) = <[id := set_health h e]> (po_entries p) /\
    po_proxies (succeeded id v p) = <[en_proxy e := x1]> (po_proxies p) /\ px_slots x1 = px_slots x /\
    outcome None cancelled now v (en_health e) x h x1.
Proof.
  intros He Hx. unfold succeeded. cbv zeta. rewrite He. unfold route in Hx. cbn [set_entries po_proxies]. rewrite Hx.
  set (clear h := mkHealth 0 0 (h_LastFailureAt h) (h_LastFailureCode h) (h_LastRecoveryAt h) (h_LastRecovery h)).
  exists (clear (en_health e)). destruct (_ && _) eqn:Ec.
  - exists (mkProxy (px_slots x) (clear (px_health x)) (px_healthVersion x + 1) (px_savedHealthVersion x)).
    split; [done|]. split; [|split; [done|]].
    + unfold set_proxy_health. cbn. apply list_eq. intros k. destruct (decide (en_proxy e = k)) as [<-|].
      * rewrite list_lookup_alter_eq, Hx, list_lookup_insert_eq by (by eapply lookup_lt_Some). reflexivity.
      * by rewrite list_lookup_alter_ne, list_lookup_insert_ne.
    + split; [done|]. by rewrite Ec.
  - exists x. split; [done|]. split; [symmetry; by apply list_insert_id|]. split; [done|]. split; [done|]. by rewrite Ec.
Qed.

Lemma failed_spec now id v (cancelled : bool) err p e x : po_entries p !! id = Some e -> route p e = Some x ->
  0 <= h_Failures (en_health e) -> 0 <= h_Failures (px_health x) ->
  let p1 := if cancelled then p else failedLocked now id err p in
  exists h x1, po_entries p1 = <[id := set_health h e]> (po_entries p) /\
    po_proxies p1 = <[en_proxy e := x1]> (po_proxies p) /\ px_slots x1 = px_slots x /\
    outcome (Some err) cancelled now v (en_health e) x h x1.
Proof.
  intros He Hx H1 H2 p1.
  assert (po_entries p = <[id := set_health (en_health e) e]> (po_entries p)) as Hid by (rewrite set_health_id; symmetry; by apply insert_id).
  assert (po_proxies p = <[en_proxy e := x]> (po_proxies p)) as Hxid by (symmetry; by apply list_insert_id).
  assert (cancelled = true \/ cancelled = false /\ blameless err \/ cancelled = false /\ ~ blameless err /\ as_net err = None \/
    cancelled = false /\ ~ blameless err /\ is_Some (as_net err)) as [Hc|[(Hc & Hb)|[(Hc & Hb & Hn)|(Hc & Hb & Hn)]]].
  { destruct cancelled; [by left|]. right. rewrite <- penalty_blameless. destruct (penalty err); [|by left].
    right. destruct (as_net err); [right|left]; eauto. }
  all: subst p1; rewrite Hc; destruct (failedLocked_spec now id err p e x He Hx H1 H2) as (F1 & F2 & F3).
  - exists (en_health e), x. split; [done|]. split; [done|]. split; [done|]. by split; [|split].
  - exists (en_health e), x. rewrite (F1 Hb). split; [done|]. split; [done|]. split; [done|]. by split; [|split].
  - destruct (F2 Hb Hn) as (Hp & h & He' & Hpen). exists h, x. rewrite Hp. split; [done|]. split; [done|]. split; [done|].
    split; [by intros [|]|]. split; [done|]. rewrite Hn. by intros _ _ [? ?].
  - destruct (F3 Hb Hn) as (Hp & x1 & He' & Hpen & _ & Hs). exists (en_health e), x1. rewrite Hp. split; [done|]. split; [done|]. split; [done|].
    split; [by intros [|]|]. split; [|done]. intros _ _ Hn'. rewrite Hn' in Hn. by destruct Hn.
Qed.

(** Who answers for the end of a lease: a success clears the identity's
    failures, and those of its route only when nothing else has changed the
    route's health since the lease began; a cancelled lease, a deadline, content
    that is deleted or restricted, and an error of neither the upstream nor the
    network change no health record; an error of the network penalises the
    route alone and any other the identity alone.  A penalty is one more failure and a
    cooldown that starts now, is the upstream's own delay or between one second
    and five minutes, and never shortens an earlier one.  The identity is free
    afterwards, its registration is its session's, and every other identity and
    route is untouched. *)
Theorem finish_blame i now id v operationErr (cancelled encoded : bool) p e x :
  po_entries p !! id = Some e -> route p e = Some x -> 0 <= h_Failures (en_health e) -> 0 <= h_Failures (px_health x) ->
  let p' := finish i now id v operationErr cancelled encoded p in
  exists h x', po_proxies p' = <[en_proxy e := x']> (po_proxies p) /\ px_slots x' = px_slots x /\
    po_entries p' = <[id := mkEntry (en_proxy e) (en_ordinal e) (en_session e) (en_assignments e) (en_selected e) (en_waiting e) false
                              (ss_registered (en_session e)) h]> (po_entries p) /\
    outcome operationErr cancelled now v (en_health e) x h x'.
Proof.
  intros He Hx H1 H2 p'.
  set (p1 := match operationErr with None => succeeded id v p | Some err => if cancelled then p else failedLocked now id err p end).
  assert (exists h x1, po_entries p1 = <[id := set_health h e]> (po_entries p) /\
    po_proxies p1 = <[en_proxy e := x1]> (po_proxies p) /\ px_slots x1 = px_slots x /\
    outcome operationErr cancelled now v (en_health e) x h x1) as (h & x1 & E1 & E2 & E3 & E4).
  { unfold p1. destruct operationErr as [err|]; [by apply failed_spec|by apply succeeded_spec]. }
  destruct (finish_entry i now id v operationErr cancelled encoded p p1 (set_health h e) eq_refl) as [F1 F2].
  { rewrite E1. apply lookup_insert_eq. }
  exists h, x1. unfold p'. rewrite F1, F2, E1, E2, insert_insert_eq. done.
Qed.

(** A stalled download: the route is penalised for two seconds on its second failure. *)
Definition stalled_lease : Pool :=
  set_proxies [mkProxy (<[0%nat := Some "a"%string]> (replicate 10 None)) (mkHealth 1 0 None None None None) 3 0]
    (run [Enter 0 ""; Turn 0 0 None (Ok ("a", blank_session))]%string (one_route 1)).

Lemma finish_blame_witness :
  h_CooldownUntil (proxy_health (finish 0 5000000000 "a" 3 (Some (ErrStall "body")) false true stalled_lease) 0) = 7000 /\
  exists h x', po_proxies (finish 0 5000000000 "a" 3 (Some (ErrStall "body")) false true stalled_lease) = [x'] /\ h = no_health /\
    penalised 5000000000 (ErrStall "body") (mkHealth 1 0 None None None None) (px_health x').
Proof.
  split; [by vm_compute|].
  destruct (finish_blame 0 5000000000 "a" 3 (Some (ErrStall "body")) false true stalled_lease
    (mkEntry 0 0 blank_session 1 1 0 true false no_health)
    (mkProxy (<[0%nat := Some "a"%string]> (replicate 10 None)) (mkHealth 1 0 None None None None) 3 0)) as (h & x' & Hp & _ & _ & _ & _ & Ho).
  - by vm_compute.
  - by vm_compute.
  - by vm_compute.
  - by vm_compute.
  - destruct Ho as [H3 H4]; [done| |by exists true|].
    + intros [Hb|[Hb|Hb]]; done.
    + exists h, x'. split; [exact Hp|]. split; [exact H3|exact H4].
Defined.
