(* ===== verification/PoolStore.v ===== *)
(** * identity: checkpoints in the database

    The theorems on the persistence of Pool.v, against a reference that writes
    every checkpoint when it is taken: what is stored, overlaid with what is
    pending, is always what the reference has stored, and [flush]
    (src/internal/identity/store.go) returns only when the checkpoints taken
    before it are stored. *)
From S2P Require Import Prelude Strconv Errors Pool.
From stdpp Require Import gmap.
Open Scope Z_scope.
Open Scope go_scope.

(** [flush]: one look at the pool, [None] when it waits. *)
Definition flush_turn (target : Z) (p : Pool) : option bool :=
  if target <=? po_saved p then Some true
  else if po_failure p then Some false
  else None.

(** [Pool.pending] and [Pool.unsaved]. *)
Definition pending (p : Pool) : bool :=
  negb (bool_decide (po_pending p = ∅)) || existsb (fun x => px_savedHealthVersion x <? px_healthVersion x) (po_proxies p).
Definition unsaved (p : Pool) : Z := Z.of_nat (size (po_pending p)).

(** ** The reference *)

(** The checkpoint a step takes: the identity as the step leaves it. *)
Definition checkpoint_of (a : action) (p : Pool) : option (string * checkpoint) :=
  match a with
  | Finish i _ _ _ true =>
      match po_callers p !! i with
      | Some (Holding id _) =>
          (fun e => (id, mkCheckpoint (po_checkpoints p + 1) (en_session e) (en_health e) (en_assignments e))) <$> po_entries (step a p) !! id
      | _ => None
      end
  | _ => None
  end.

Fixpoint history (actions : list action) (p : Pool) : list (string * checkpoint) :=
  match actions with
  | [] => []
  | a :: l => option_list (checkpoint_of a p) ++ history l (step a p)
  end.

(** The rows, if every checkpoint were written at once. *)
Definition synchronous (rows : gmap string checkpoint) (h : list (string * checkpoint)) : gmap string checkpoint :=
  fold_left (fun m '(id, c) => <[id := c]> m) h rows.

Lemma synchronous_snoc rows h id c : synchronous rows (h ++ [(id, c)]) = <[id := c]> (synchronous rows h).
Proof. unfold synchronous. by rewrite fold_left_app. Qed.

(** ** The store of a pool *)

Record store := mkStore { st_checkpoints : Z; st_saved : Z; st_pending : gmap string checkpoint; st_batch : option saveBatch; st_stored : gmap string checkpoint }.
Definition view (p : Pool) : store := mkStore (po_checkpoints p) (po_saved p) (po_pending p) (po_batch p) (po_stored p).

Definition covered (m : gmap string checkpoint) (id : string) (c : checkpoint) : Prop := exists s, m !! id = Some s /\ ck_seq c <= ck_seq s.

Record batch_ok (h : list (string * checkpoint)) (s : store) (b : saveBatch) : Prop := {
  bo_pending id c : sb_written b !! id = Some c ->
    exists c', st_pending s !! id = Some c' /\ ck_seq c <= ck_seq c' /\ (ck_seq c = ck_seq c' -> c = c');
  bo_newer id c c' : st_stored s !! id = Some c -> sb_written b !! id = Some c' -> ck_seq c <= ck_seq c';
  bo_through id c : (id, c) ∈ h -> ck_seq c <= sb_through b -> covered (sb_written b ∪ st_stored s) id c;
  bo_limit : sb_through b <= st_checkpoints s;
  bo_taken id c : sb_written b !! id = Some c -> (id, c) ∈ h;
}.

Record kept (rows : gmap string checkpoint) (h : list (string * checkpoint)) (s : store) : Prop := {
  kp_latest : st_pending s ∪ st_stored s = synchronous rows h;
  kp_numbered id c : (st_pending s ∪ st_stored s) !! id = Some c -> ck_seq c <= st_checkpoints s;
  kp_covered id c : (id, c) ∈ h -> covered (st_pending s ∪ st_stored s) id c;
  kp_newer id c c' : st_stored s !! id = Some c -> st_pending s !! id = Some c' -> ck_seq c <= ck_seq c';
  kp_saved id c : (id, c) ∈ h -> ck_seq c <= st_saved s -> covered (st_stored s) id c;
  kp_limit : st_saved s <= st_checkpoints s;
  kp_batch b : st_batch s = Some b -> batch_ok h s b;
  kp_numbers : 0 <= st_checkpoints s /\ forall id c, (id, c) ∈ h -> 0 < ck_seq c;
  kp_origin id c : st_stored s !! id = Some c -> (id, c) ∈ h \/ rows !! id = Some c;
  kp_taken id c : st_pending s !! id = Some c -> (id, c) ∈ h;
}.

Lemma union_lookup (m1 m2 : gmap string checkpoint) id :
  (m1 ∪ m2) !! id = match m1 !! id with Some c => Some c | None => m2 !! id end.
Proof.
  destruct (m1 !! id) eqn:E; [by apply lookup_union_Some_l|by apply lookup_union_r].
Qed.

(** A row is no newer than the identity's latest checkpoint. *)
Lemma kept_stored rows h s id c : kept rows h s -> st_stored s !! id = Some c ->
  exists c', (st_pending s ∪ st_stored s) !! id = Some c' /\ ck_seq c <= ck_seq c'.
Proof.
  intros K Hc. rewrite union_lookup. destruct (st_pending s !! id) as [c'|] eqn:E; [|exists c; split; [done|lia]].
  exists c'. split; [done|]. by eapply kp_newer.
Qed.

Lemma kept_checkpoint rows h s id c : kept rows h s -> ck_seq c = st_checkpoints s + 1 ->
  kept rows (h ++ [(id, c)]) (mkStore (st_checkpoints s + 1) (st_saved s) (<[id := c]> (st_pending s)) (st_batch s) (st_stored s)).
Proof.
  intros K Hc. assert (forall k x, (st_pending s ∪ st_stored s) !! k = Some x -> covered (<[id := c]> (st_pending s) ∪ st_stored s) k x) as Hmono.
  { intros k x Hx. unfold covered. rewrite <- insert_union_l. destruct (decide (id = k)) as [->|].
    - exists c. rewrite lookup_insert_eq. pose proof (kp_numbered _ _ _ K _ _ Hx). split; [done|lia].
    - exists x. rewrite lookup_insert_ne by done. split; [done|lia]. }
  split; cbn.
  - rewrite synchronous_snoc, <- (kp_latest _ _ _ K). by rewrite insert_union_l.
  - intros k x. rewrite <- insert_union_l. destruct (decide (id = k)) as [->|].
    + rewrite lookup_insert_eq. intros [= <-]. lia.
    + rewrite lookup_insert_ne by done. intros Hx. pose proof (kp_numbered _ _ _ K _ _ Hx). lia.
  - intros k x [Hx|Hx]%elem_of_app.
    + destruct (kp_covered _ _ _ K _ _ Hx) as (y & Hy & Hle). destruct (Hmono _ _ Hy) as (z & Hz & ?). exists z. split; [done|lia].
    + apply list_elem_of_singleton in Hx as [= -> ->]. exists c. rewrite <- insert_union_l, lookup_insert_eq. split; [done|lia].
  - intros k x y Hx. destruct (decide (id = k)) as [->|].
    + rewrite lookup_insert_eq. intros [= <-]. destruct (kept_stored _ _ _ _ _ K Hx) as (z & Hz & ?). pose proof (kp_numbered _ _ _ K _ _ Hz). lia.
    + rewrite lookup_insert_ne by done. by apply (kp_newer _ _ _ K).
  - intros k x [Hx|Hx]%elem_of_app; [by apply (kp_saved _ _ _ K)|]. apply list_elem_of_singleton in Hx as [= -> ->].
    pose proof (kp_limit _ _ _ K). lia.
  - pose proof (kp_limit _ _ _ K). lia.
  - intros b Hb. destruct (kp_batch _ _ _ K b Hb) as [B1 B2 B3 B4 B5]. split; cbn; [|done| |lia|intros k x Hx; apply elem_of_app; left; by apply B5].
    + intros k x Hx. destruct (B1 k x Hx) as (y & Hy & Hle & Heq). destruct (decide (id = k)) as [->|].
      * exists c. rewrite lookup_insert_eq. assert (ck_seq y <= st_checkpoints s) by (apply (kp_numbered _ _ _ K k); by rewrite union_lookup, Hy).
        split; [done|]. split; [lia|]. intros. lia.
      * exists y. by rewrite lookup_insert_ne.
    + intros k x [Hx|Hx]%elem_of_app Hle; [by apply B3|]. apply list_elem_of_singleton in Hx as [= -> ->]. lia.
  - destruct (kp_numbers _ _ _ K) as [H0 H1]. split; [lia|]. intros k x [Hx|Hx]%elem_of_app; [by eapply H1|].
    apply list_elem_of_singleton in Hx as [= -> ->]. lia.
  - intros k x Hx. destruct (kp_origin _ _ _ K k x Hx); [left; apply elem_of_app; by left|by right].
  - intros k x. destruct (decide (id = k)) as [->|].
    + rewrite lookup_insert_eq. intros [= ->]. apply elem_of_app. right. by apply list_elem_of_singleton.
    + rewrite lookup_insert_ne by done. intros Hx. apply elem_of_app. left. by apply (kp_taken _ _ _ K).
Qed.

Lemma kept_collect rows h s b : kept rows h s -> st_batch s = None -> sb_written b = st_pending s -> sb_through b = st_checkpoints s ->
  kept rows h (mkStore (st_checkpoints s) (st_saved s) (st_pending s) (Some b) (st_stored s)).
Proof.
  intros K Hb Hw Ht. destruct K as [K1 K2 K3 K4 K5 K6 K7 K8 K9 K10]. split; cbn; try done.
  intros b' [= <-]. split; cbn; rewrite ?Ht.
  - intros id c. rewrite Hw. intros Hc. exists c. split; [done|]. split; [lia|done].
  - intros id c c'. rewrite Hw. by apply K4.
  - intros id c Hc _. rewrite Hw. by apply K3.
  - lia.
  - intros id c. rewrite Hw. by apply K10.
Qed.

Lemma covered_le m m' id c : covered m id c -> (forall x, m !! id = Some x -> exists y, m' !! id = Some y /\ ck_seq x <= ck_seq y) -> covered m' id c.
Proof. intros (x & Hx & Hle) H. destruct (H x Hx) as (y & Hy & ?). exists y. split; [done|lia]. Qed.

Lemma kept_commit rows h s b : kept rows h s -> st_batch s = Some b ->
  kept rows h (mkStore (st_checkpoints s) (st_saved s) (st_pending s) (Some b) (commit b (st_stored s))).
Proof.
  intros K Hb. destruct (kp_batch _ _ _ K b Hb) as [B1 B2 B3 B4 B5]. unfold commit.
  assert (st_pending s ∪ (sb_written b ∪ st_stored s) = st_pending s ∪ st_stored s) as Heq.
  { apply map_eq. intros id. rewrite !union_lookup. destruct (st_pending s !! id) eqn:E; [done|].
    destruct (sb_written b !! id) as [c|] eqn:Ew; [|done]. destruct (B1 id c Ew) as (c' & H & _). by rewrite E in H. }
  assert (forall id x, st_stored s !! id = Some x -> exists y, (sb_written b ∪ st_stored s) !! id = Some y /\ ck_seq x <= ck_seq y) as Hup.
  { intros id x Hx. rewrite union_lookup. destruct (sb_written b !! id) as [c|] eqn:Ew; [|exists x; split; [done|lia]].
    exists c. split; [done|]. by eapply B2. }
  destruct K as [K1 K2 K3 K4 K5 K6 K7 K8 K9 K10]. split; cbn; rewrite ?Heq; try done.
  - intros id c c'. rewrite union_lookup. destruct (sb_written b !! id) as [w|] eqn:Ew; [|by apply K4].
    intros [= <-] Hc'. destruct (B1 id w Ew) as (c2 & H2 & Hle & _). rewrite Hc' in H2. by injection H2 as <-.
  - intros id c Hc Hle. eapply covered_le; [by apply K5|]. apply Hup.
  - intros b' [= <-]. split; cbn; [done| | |done|done].
    + intros id c c'. rewrite union_lookup. intros H1 H2. rewrite H2 in H1. injection H1 as <-. lia.
    + intros id c Hc Hle. eapply covered_le; [by apply B3|]. intros x Hx. exists x. split; [|lia].
      rewrite union_lookup in Hx. rewrite !union_lookup. by destruct (sb_written b !! id).
  - intros id c. rewrite union_lookup. destruct (sb_written b !! id) as [w|] eqn:Ew; [intros [= <-]; left; by apply B5|by apply K9].
Qed.

Definition remaining (b : saveBatch) (m : gmap string checkpoint) : gmap string checkpoint :=
  filter (fun kv : string * checkpoint => option_map ck_seq (sb_written b !! kv.1) <> Some (ck_seq kv.2)) m.

Lemma remaining_lookup b m id : remaining b m !! id =
  match m !! id with
  | Some c => if decide (option_map ck_seq (sb_written b !! id) = Some (ck_seq c)) then None else Some c
  | None => None
  end.
Proof.
  unfold remaining. rewrite map_lookup_filter. destruct (m !! id) as [c|]; [|done]. cbn.
  destruct (decide (option_map ck_seq (sb_written b !! id) = Some (ck_seq c))) as [H|H]; case_guard; try done; by exfalso.
Qed.

(** Leaving the newer checkpoints pending loses nothing. *)
Lemma kept_saved rows h s b : kept rows h s -> st_batch s = Some b ->
  kept rows h (mkStore (st_checkpoints s) (Z.max (st_saved s) (sb_through b)) (remaining b (st_pending s)) None (commit b (st_stored s))).
Proof.
  intros K Hb. pose proof (kept_commit rows h s b K Hb) as K'. destruct (kp_batch _ _ _ K b Hb) as [B1 B2 B3 B4 B5].
  assert (remaining b (st_pending s) ∪ commit b (st_stored s) = st_pending s ∪ commit b (st_stored s)) as Heq.
  { apply map_eq. intros id. rewrite !union_lookup, remaining_lookup. destruct (st_pending s !! id) as [c|] eqn:Ep; [|done].
    destruct (decide _) as [Hd|]; [|done]. unfold commit. rewrite union_lookup. destruct (sb_written b !! id) as [w|] eqn:Ew; [|done].
    injection Hd as Hd. destruct (B1 id w Ew) as (c' & Hc' & _ & Hc). rewrite Ep in Hc'. injection Hc' as <-. by rewrite (Hc Hd). }
  destruct K' as [K1 K2 K3 K4 K5 K6 K7 K8 K9 K10]. cbn in *. split; cbn; rewrite ?Heq; try done.
  - intros id c c' H1. rewrite remaining_lookup. destruct (st_pending s !! id) as [x|] eqn:Ep; [|done].
    destruct (decide _); [done|]. intros [= <-]. by eapply K4.
  - intros id c Hc Hle. destruct (Z.le_gt_cases (ck_seq c) (st_saved s)); [by apply K5|]. apply B3; [done|lia].
  - lia.
  - intros id c. rewrite remaining_lookup. destruct (st_pending s !! id) as [x|] eqn:Ep; [|done].
    destruct (decide _); [done|]. intros [= <-]. by apply K10.
Qed.

Lemma kept_failed rows h s : kept rows h s -> kept rows h (mkStore (st_checkpoints s) (st_saved s) (st_pending s) None (st_stored s)).
Proof. intros [K1 K2 K3 K4 K5 K6 K7 K8 K9 K10]. by split. Qed.

(** ** Steps *)

Lemma new_entry_view i ordinal eid s p : view (new_entry i ordinal eid s p) = view p.
Proof. done. Qed.

Lemma acquire_section_view now id fresh p : view (acquire_section now id fresh p).2 = view p.
Proof. unfold acquire_section. cbv zeta. repeat (case_match; try done). Qed.

Lemma acquire_turn_view i now ctxErr id reserved fresh p : view (acquire_turn i now ctxErr id reserved fresh p) = view p.
Proof.
  unfold acquire_turn. destruct ctxErr; [done|].
  pose proof (acquire_section_view now id fresh (release_reserved reserved p)) as Hv.
  assert (view (release_reserved reserved p) = view p) as Hr by (by destruct reserved). rewrite Hr in Hv.
  destruct (acquire_section _ _ _ _) as [t p']. cbn in Hv. destruct t; [exact Hv|exact Hv|]. by destruct (_ <=? _).
Qed.

Lemma prepare_slot_view i ordinal fresh p : view (prepare_slot i ordinal fresh p) = view p.
Proof. unfold prepare_slot. repeat (case_match; try done). Qed.

Lemma failedLocked_view now id err p : view (failedLocked now id err p) = view p.
Proof. unfold failedLocked. repeat (case_match; try done). Qed.

Lemma succeeded_view id v p : view (succeeded id v p) = view p.
Proof. unfold succeeded. cbv zeta. repeat (case_match; try done). Qed.

Lemma recover_view now id ctxErr err fresh allowed p : view (recover now id ctxErr err fresh allowed p).2 = view p.
Proof. unfold recover. cbv zeta. repeat (case_match; try done). Qed.

Definition checkpointed (id : string) (e : entry) (p : Pool) : checkpoint :=
  mkCheckpoint (po_checkpoints p + 1) (en_session e) (en_health e) (en_assignments e).

Lemma finish_view i now id v operationErr cancelled encoded p :
  let p' := finish i now id v operationErr cancelled encoded p in
  view p' =
    match (if encoded then po_entries p' !! id else None) with
    | Some e => mkStore (po_checkpoints p + 1) (po_saved p) (<[id := checkpointed id e p]> (po_pending p)) (po_batch p) (po_stored p)
    | None => view p
    end.
Proof.
  cbv zeta. unfold finish. cbv zeta.
  set (p1 := match operationErr with None => succeeded id v p | Some err => if cancelled then p else failedLocked now id err p end).
  assert (view p1 = view p) as V1.
  { unfold p1. destruct operationErr; [destruct cancelled; [done|apply failedLocked_view]|apply succeeded_view]. }
  clearbody p1. destruct (po_entries p1 !! id) as [e|] eqn:Ee.
  - injection V1 as V1 V2 V3 V4 V5. destruct encoded.
    + unfold checkpointLocked. cbn [set_entries po_entries]. rewrite lookup_insert_eq. cbn. rewrite lookup_alter_eq, lookup_insert_eq. cbn.
      unfold view, checkpointed. cbn. by rewrite V1, V2, V3, V4, V5.
    + unfold view. cbn. by rewrite V1, V2, V3, V4, V5.
  - cbn [move po_entries]. rewrite Ee. by destruct encoded.
Qed.

Lemma kept_step rows h a p : kept rows h (view p) -> kept rows (h ++ option_list (checkpoint_of a p)) (view (step a p)).
Proof.
  intros K. assert (forall p', view p' = view p -> kept rows (h ++ []) (view p')) as Hsame by (intros p' ->; by rewrite app_nil_r).
  destruct a as [i id|i now ctxErr fresh|i ordinal fresh|i|i|i now ctxErr err fresh allowed|i s|i now oe cancelled encoded| | |ok|b|b| |];
    cbn [step checkpoint_of].
  - apply Hsame. repeat (case_match; try done).
  - apply Hsame. destruct (po_callers p !! i) as [[]|]; try done. destruct (known fresh p); [done|apply acquire_turn_view].
  - apply Hsame. destruct (known fresh p); [done|apply prepare_slot_view].
  - apply Hsame. repeat (case_match; try done).
  - apply Hsame. destruct (po_callers p !! i) as [[| | | |r e|]|]; try done. by destruct r.
  - apply Hsame. destruct (po_callers p !! i) as [[]|]; try done. apply recover_view.
  - apply Hsame. destruct (po_callers p !! i) as [[]|]; done.
  - destruct (po_callers p !! i) as [[| | |id v| |]|] eqn:Hi; try (destruct encoded; by apply Hsame).
    rewrite finish_view. destruct encoded; [|by apply Hsame].
    destruct (po_entries (finish i now id v oe cancelled true p) !! id) as [e|]; [|by apply Hsame].
    cbn [fmap option_fmap option_map option_list]. by apply (kept_checkpoint rows h (view p)).
  - destruct (po_batch p) as [b|] eqn:Hb; [by apply Hsame|]. cbn [option_list]. rewrite app_nil_r.
    by apply (kept_collect rows h (view p) (collectLocked p)).
  - destruct (po_batch p) as [b|] eqn:Hb; [|by apply Hsame]. cbn [option_list]. rewrite app_nil_r.
    by apply (kept_commit rows h (view p)).
  - destruct (po_batch p) as [b|] eqn:Hb; [|by apply Hsame]. cbn [option_list]. rewrite app_nil_r. destruct ok.
    + by apply (kept_saved rows h (view p)).
    + by apply (kept_failed rows h (view p)).
  - by apply Hsame.
  - by apply Hsame.
  - by apply Hsame.
  - by apply Hsame.
Qed.

Lemma kept_run rows actions p h : kept rows h (view p) -> kept rows (h ++ history actions p) (view (run actions p)).
Proof.
  unfold run. revert p h. induction actions as [|a l IH]; intros p h K; cbn [history fold_left]; [by rewrite app_nil_r|].
  rewrite app_assoc. by apply IH, kept_step.
Qed.

(** A pool that has just loaded its rows. *)
Record loaded (p : Pool) : Prop := {
  ld_checkpoints : po_checkpoints p = 0;
  ld_saved : po_saved p = 0;
  ld_pending : po_pending p = ∅;
  ld_batch : po_batch p = None;
  ld_rows id c : po_stored p !! id = Some c -> ck_seq c <= 0;
}.

Lemma loaded_kept p : loaded p -> kept (po_stored p) [] (view p).
Proof.
  intros [H1 H2 H3 H4 H5]. unfold view. rewrite H1, H2, H3, H4. split; cbn; rewrite ?(left_id_L ∅ (∪)); try done.
  - by intros id c Hc%elem_of_nil.
  - by intros id c Hc%elem_of_nil.
  - split; [done|]. by intros id c Hc%elem_of_nil.
  - by right.
Qed.

Lemma history_app l1 l2 p : history (l1 ++ l2) p = history l1 p ++ history l2 (run l1 p).
Proof. unfold run. revert p. induction l1 as [|a l1 IH]; intros p; [done|]. cbn. by rewrite IH, app_assoc. Qed.

Lemma pending_false p : pending p = false -> po_pending p = ∅.
Proof. unfold pending. intros [H _]%orb_false_iff. apply negb_false_iff in H. by apply bool_decide_eq_true in H. Qed.

(** C5. No finished state is lost on its way to the database.  In every run of
    a pool that has loaded its rows, with writes that fail, that take effect
    although an error is reported, or during which newer checkpoints are taken:
    the rows overlaid with the pending checkpoints are the rows that a
    synchronous store of every checkpoint would have; when nothing is pending
    the rows alone are; a row is only ever one of its identity's checkpoints or
    the row loaded; and when [flush] returns, each checkpoint taken before it
    was called is stored, or a later one of the same identity is. *)
Theorem checkpoints_kept actions later p0 : loaded p0 ->
  let p := run actions p0 in
  let q := run later p in
  po_pending p ∪ po_stored p = synchronous (po_stored p0) (history actions p0) /\
  (pending p = false -> po_stored p = synchronous (po_stored p0) (history actions p0)) /\
  (forall id c, po_stored p !! id = Some c -> (id, c) ∈ history actions p0 \/ po_stored p0 !! id = Some c) /\
  (flush_turn (po_checkpoints p) q = Some true -> forall id c, (id, c) ∈ history actions p0 ->
     exists c', po_stored q !! id = Some c' /\ (id, c') ∈ history (actions ++ later) p0 /\ ck_seq c <= ck_seq c').
Proof.
  intros Hl p q. pose proof (kept_run _ actions p0 [] (loaded_kept p0 Hl)) as K. cbn [app] in K. fold p in K.
  pose proof (kept_run _ later p _ K) as K'. unfold p in K' at 1. rewrite <- history_app in K'. fold q in K'.
  split; [apply (kp_latest _ _ _ K)|]. split; [|split; [apply (kp_origin _ _ _ K)|]].
  - intros Hp%pending_false. rewrite <- (kp_latest _ _ _ K). cbn. by rewrite Hp, (left_id_L ∅ (∪)).
  - unfold flush_turn. destruct (Z.leb_spec (po_checkpoints p) (po_saved q)) as [Hs|]; [|by destruct (po_failure q)]. intros _ id c Hc.
    assert ((id, c) ∈ history (actions ++ later) p0) as Hc2 by (rewrite history_app; apply elem_of_app; by left).
    assert (ck_seq c <= po_checkpoints p) as Hn.
    { destruct (kp_covered _ _ _ K _ _ Hc) as (x & Hx & Hle). pose proof (kp_numbered _ _ _ K _ _ Hx) as H. cbn in H. lia. }
    destruct (kp_saved _ _ _ K' id c Hc2) as (c' & Hc' & Hle); [cbn; lia|]. exists c'. split; [done|]. split; [|done].
    destruct (kp_origin _ _ _ K' _ _ Hc') as [|Hr]; [done|]. apply (ld_rows _ Hl) in Hr.
    destruct (kp_numbers _ _ _ K) as [_ H]. specialize (H _ _ Hc). lia.
Qed.

(** Two leases of one identity; the second ends while the first is written. *)
Definition one_identity : Pool :=
  mkPool true false true false false
    {["a"%string := mkEntry 0 0 (mkSession true false 7) 0 0 0 false true no_health]}
    [mkProxy (<[0%nat := Some "a"%string]> (replicate 10 None)) no_health 0 0] 0 0 4 0 [Outside; Outside] 0 0 ∅ None
    {["a"%string := mkCheckpoint 0 (mkSession true false 7) no_health 0]}.

Definition racing_write : list action :=
  [Enter 0 "a"; Turn 0 0 None (Err cooling); Finish 0 0 None false true; Collect; Enter 1 "a"; Turn 1 0 None (Err cooling);
   UseSession 1 (mkSession true false 8); Finish 1 0 None false true; Saved true]%string.

Lemma checkpoints_kept_witness : loaded one_identity /\
  let p := run racing_write one_identity in
  let q := run [Collect; Saved true] p in
  (ck_seq <$> po_pending p !! "a"%string) = Some 2 /\ (ck_seq <$> po_stored p !! "a"%string) = Some 1 /\
  flush_turn (po_checkpoints p) q = Some true /\
  exists c', po_stored q !! "a"%string = Some c' /\ 2 <= ck_seq c'.
Proof.
  assert (loaded one_identity) as Hl.
  { split; [done|done|done|done|]. intros id c H. cbn in H. apply lookup_singleton_Some in H as [_ <-]. done. }
  split; [done|]. cbv zeta. split; [by vm_compute|]. split; [by vm_compute|]. split; [by vm_compute|].
  destruct (checkpoints_kept racing_write [Collect; Saved true] one_identity Hl) as (_ & _ & _ & H).
  destruct (H ltac:(by vm_compute) "a"%string (mkCheckpoint 2 (mkSession true false 8) no_health 0)) as (c' & H1 & _ & H2).
  - assert (history racing_write one_identity =
      [("a"%string, mkCheckpoint 1 (mkSession true false 7) no_health 0); ("a"%string, mkCheckpoint 2 (mkSession true false 8) no_health 0)]) as -> by (by vm_compute).
    apply elem_of_cons. right. by apply list_elem_of_singleton.
  - exists c'. split; [exact H1|exact H2].
Defined.
