(* ===== verification/Accounts.v ===== *)
(** * instagramapp: the pool of Instagram accounts

    Models src/internal/instagramapp/pool.go (leases), client.go ([Detail] with
    its verdicts on an account's health), recovery.go (renewal of a rejected
    session), update.go (replacement of an account's session) and the health
    writes of store.go.

    Each critical section of the pool's or the store's mutex, and each change of
    an account's [refreshGate], is one step; a request is a [phase] that
    remembers where it is, and a run is any interleaving of requests, the
    account manager and imports.  Times are nanoseconds; replies of Instagram,
    logins, the outcome of database statements and the ends of contexts are
    inputs.  Accounts are named by their position (the list only grows).  A
    database statement is committed on its own; one that reports an error may
    have taken effect.  [changed] only wakes waiting requests, which a run
    leaves open.  The session context that [persistSessionContext] saves is
    inspected by no decision here, so saving it is one step.  An account whose
    cookies have expired is dead in memory only; how it becomes so when the pool
    opens is AccountStore. *)
From S2P Require Import Prelude Strconv Errors.
From stdpp Require Import gmap.
Open Scope Z_scope.
Open Scope go_scope.

(** Go's zero [time.Time], in nanoseconds of the Unix epoch. *)
Definition zeroTime : Z := -62135596800 * 1000000000.
Definition Second : Z := 1000000000.
Definition Minute : Z := 60 * Second.

(** ** Failures *)

(** An error, and the deadline of a [loginCooldownError] around it. *)
Record failure := mkFailure { fl_error : goerr; fl_until : option Z }.
Definition plain (e : goerr) : failure := mkFailure e None.

Definition errorCode (f : failure) : string := match as_core (fl_error f) with Some e => Code e | None => "" end.

Definition loginFailure (code : string) : failure :=
  plain (ErrCore (NewError code "Instagram account login failed; check account status before retrying" 502)).
Definition rateLimitFailure (now delay : Z) : failure :=
  mkFailure (ErrCore (NewError "upstream_rate_limited" "Instagram account is rate limited" 429)) (Some (now + delay)).
Definition failureCooldown (now : Z) (f : failure) : Z := match fl_until f with Some u => Z.max 0 (u - now) | None => 0 end.
Definition dbFailure : failure :=
  plain (ErrCore (NewError "instagram_database_unavailable" "Instagram account database is unavailable" 503)).

(** What a response says about its account. *)
Record disposition := mkDisposition {
  ds_authorization : string;
  ds_renew : bool;
  ds_retry : bool;
  ds_disable : bool;
  ds_deadReason : string;
  ds_cooldown : Z;
}.
Definition neutral : disposition := mkDisposition "" false false false "" 0.
Definition tagged (auth : string) (d : disposition) : disposition :=
  mkDisposition auth (ds_renew d) (ds_retry d) (ds_disable d) (ds_deadReason d) (ds_cooldown d).
Definition sessionExpired : disposition := mkDisposition "" true true true "session_expired" 0.

Definition rejected_codes : list string := ["session_expired"; "account_mismatch"; "login_rejected"; "unsupported_two_factor"].
Definition restricted_codes : list string := ["challenge_required"; "feedback_required"; "account_restricted"].

Definition recoveryDisposition (now : Z) (f : failure) : disposition :=
  let cooldown := failureCooldown now f in
  let code := errorCode f in
  if existsb (String.eqb code) rejected_codes then mkDisposition "" false true true code cooldown
  else if existsb (String.eqb code) restricted_codes then mkDisposition "" false false true code cooldown
  else mkDisposition "" false true false "" (if cooldown <=? 0 then Minute else cooldown).

Definition IdentityPrefix : string := "instagram:".

(** An identifier of at most 40 digits. *)
Definition numericID (id : string) : bool :=
  (1 <=? String.length id)%nat && (String.length id <=? 40)%nat &&
  forallb (fun c => bool_decide (is_Some (digit_val c))) (String.list_ascii_of_string id).

(** ** State *)

(** An account and its row are known by the same identifier, the account's. *)
Record account := mkAccount {
  ac_id : string;
  ac_authorization : string;
  ac_login : bool;                 (* a password backup is saved *)
  ac_disabled : bool;
  ac_deadReason : string;
  ac_cooldown : Z;
  ac_busy : Z;
  ac_mediaBusy : Z;
  ac_updating : bool;
  ac_gate : bool;                  (* [refreshGate] is held *)
  ac_refreshAfter : Z;
  ac_refreshErr : option failure;
}.

(** The health columns of an account's row; a null deadline is [zeroTime]. *)
Record row := mkRow { rw_authorization : string; rw_dead : bool; rw_cooldown : Z }.

(** The attempts of a [Detail] call: accounts tried, attempts made, last error. *)
Record job := mkJob { jb_tried : list nat; jb_attempt : Z; jb_last : option failure }.

Definition verdict : Type := disposition * option failure.

(** Where a request is.  Positions are accounts. *)
Inductive phase :=
| Outside
| Acquiring (pinned : string) (queued : bool) (j : job)
| Downloading (a : nat)
| Leased (a : nat) (renewed : bool) (j : job)
| Checking (a : nat) (auth : string) (renewed : bool) (j : job)
| Asking (a : nat) (auth : string) (renewed : bool) (j : job)
| Renewing (a : nat) (rejected : string) (j : job)
| Refreshing (a : nat) (rejected : string) (j : job)         (* holds the gate *)
| LoggingIn (a : nat) (rejected : string) (j : job)          (* holds the gate *)
| SavingSession (a : nat) (rejected auth : string) (j : job) (* holds the gate *)
| Publishing (a : nat) (auth : string) (j : job)             (* holds the gate *)
| Judging (a : nat) (v : verdict) (j : job)
| Applying (a : nat) (guard : bool) (v : verdict) (j : job)  (* holds the gate if [guard] *)
| Marking (a : nat) (guard : bool) (reason : string) (until : option Z) (v : verdict) (j : job)
| Flushing (a : nat) (guard : bool) (v : verdict) (j : job)
| Flushed (a : nat) (guard : bool) (saved : bool) (v : verdict) (j : job)
| Settling (a : nat) (guard : bool) (saved : bool) (v : verdict) (j : job)
| Ending (a : nat) (saved : bool) (v : verdict) (j : job)
| Returned (r : res failure string).

(** Where the account manager is with an update. *)
Inductive update :=
| UIdle
| UDraining (a : nat)
| UFlushing (a : nat)
| UGating (a : nat)
| UDeciding (a : nat)                        (* holds the gate from here on *)
| UVerifying (a : nat)
| UMarking (a : nat) (until : Z)
| UMarked (a : nat)
| UFlushed (a : nat)
| UReplacing (a : nat) (auth : string)
| UReplaced (a : nat) (auth : string)
| UFinishing (a : nat) (gate : bool).

Record Options := mkOptions {
  op_ActiveAccounts : Z;
  op_PerAccountConcurrency : Z;
  op_PerAccountDownloadConcurrency : Z;
  op_MaxQueuedRequests : Z;
  op_MaxAttempts : Z;
  op_Store : bool;
}.

Record Pool := mkPool {
  ap_accounts : list account;
  ap_next : nat;
  ap_queued : Z;
  ap_pendingHealthWrites : Z;
  ap_closed : bool;
  ap_callers : list phase;
  ap_manager : update;
  st_dirty : bool;
  st_pending : gmap string string;
  st_pendingCooldowns : gmap string Z;
  st_rows : gmap string row;
}.

Definition set_accounts (l : list account) (p : Pool) : Pool :=
  mkPool l (ap_next p) (ap_queued p) (ap_pendingHealthWrites p) (ap_closed p) (ap_callers p) (ap_manager p)
    (st_dirty p) (st_pending p) (st_pendingCooldowns p) (st_rows p).
Definition set_next (n : nat) (p : Pool) : Pool :=
  mkPool (ap_accounts p) n (ap_queued p) (ap_pendingHealthWrites p) (ap_closed p) (ap_callers p) (ap_manager p)
    (st_dirty p) (st_pending p) (st_pendingCooldowns p) (st_rows p).
Definition set_closed (p : Pool) : Pool :=
  mkPool (ap_accounts p) (ap_next p) (ap_queued p) (ap_pendingHealthWrites p) true (ap_callers p) (ap_manager p)
    (st_dirty p) (st_pending p) (st_pendingCooldowns p) (st_rows p).
(** Request [i] moves to [ph]; [dq] and [dw] change the queue and the writes. *)
Definition move (i : nat) (ph : phase) (dq dw : Z) (p : Pool) : Pool :=
  mkPool (ap_accounts p) (ap_next p) (ap_queued p + dq) (ap_pendingHealthWrites p + dw) (ap_closed p) (<[i := ph]> (ap_callers p))
    (ap_manager p) (st_dirty p) (st_pending p) (st_pendingCooldowns p) (st_rows p).
Definition manage (u : update) (dw : Z) (p : Pool) : Pool :=
  mkPool (ap_accounts p) (ap_next p) (ap_queued p) (ap_pendingHealthWrites p + dw) (ap_closed p) (ap_callers p) u
    (st_dirty p) (st_pending p) (st_pendingCooldowns p) (st_rows p).
Definition set_store (dirty : bool) (pending : gmap string string) (cooldowns : gmap string Z) (rows : gmap string row) (p : Pool) : Pool :=
  mkPool (ap_accounts p) (ap_next p) (ap_queued p) (ap_pendingHealthWrites p) (ap_closed p) (ap_callers p) (ap_manager p)
    dirty pending cooldowns rows.
Definition on (a : nat) (f : account -> account) (p : Pool) : Pool := set_accounts (alter f a (ap_accounts p)) p.

Definition set_counts (busy media : Z) (x : account) : account :=
  mkAccount (ac_id x) (ac_authorization x) (ac_login x) (ac_disabled x) (ac_deadReason x) (ac_cooldown x) busy media
    (ac_updating x) (ac_gate x) (ac_refreshAfter x) (ac_refreshErr x).
Definition set_gate (gate : bool) (x : account) : account :=
  mkAccount (ac_id x) (ac_authorization x) (ac_login x) (ac_disabled x) (ac_deadReason x) (ac_cooldown x) (ac_busy x) (ac_mediaBusy x)
    (ac_updating x) gate (ac_refreshAfter x) (ac_refreshErr x).
Definition set_updating (updating : bool) (x : account) : account :=
  mkAccount (ac_id x) (ac_authorization x) (ac_login x) (ac_disabled x) (ac_deadReason x) (ac_cooldown x) (ac_busy x) (ac_mediaBusy x)
    updating (ac_gate x) (ac_refreshAfter x) (ac_refreshErr x).
Definition set_health (disabled : bool) (deadReason : string) (cooldown : Z) (x : account) : account :=
  mkAccount (ac_id x) (ac_authorization x) (ac_login x) disabled deadReason cooldown (ac_busy x) (ac_mediaBusy x)
    (ac_updating x) (ac_gate x) (ac_refreshAfter x) (ac_refreshErr x).
Definition set_session (auth : string) (login : bool) (x : account) : account :=
  mkAccount (ac_id x) auth login (ac_disabled x) (ac_deadReason x) (ac_cooldown x) (ac_busy x) (ac_mediaBusy x)
    (ac_updating x) (ac_gate x) (ac_refreshAfter x) (ac_refreshErr x).
Definition set_refresh (after : Z) (e : option failure) (x : account) : account :=
  mkAccount (ac_id x) (ac_authorization x) (ac_login x) (ac_disabled x) (ac_deadReason x) (ac_cooldown x) (ac_busy x) (ac_mediaBusy x)
    (ac_updating x) (ac_gate x) after e.

(** ** [acquire] *)

(** One past the last of the oldest [n] accounts that are not dead. *)
Fixpoint eligible_end (n : Z) (l : list account) : nat :=
  match l with
  | [] => 0
  | x :: l =>
      if ac_disabled x then S (eligible_end n l)
      else if n =? 1 then 1%nat else S (eligible_end (n - 1) l)
  end.

Definition eligibleEnd (o : Options) (l : list account) : nat :=
  if 0 <? op_ActiveAccounts o then eligible_end (op_ActiveAccounts o) l else length l.

Definition scan_order (next last : nat) : list nat := (fun n => (next + n) mod last)%nat <$> seq 0 last.

(** The better of an account and the one chosen so far. *)
Definition lighter (x y : account) : bool :=
  (ac_busy x <? ac_busy y) || ((ac_busy x =? ac_busy y) && (ac_mediaBusy x <? ac_mediaBusy y)).

Fixpoint scan (o : Options) (now : Z) (tried : list nat) (l : list account) (order : list nat)
    (available : bool) (chosen : option nat) : bool * option nat :=
  match order with
  | [] => (available, chosen)
  | index :: order =>
      match l !! index with
      | None => (available, chosen)
      | Some x =>
          if ac_disabled x || (now <? ac_cooldown x) || bool_decide (index ∈ tried) then scan o now tried l order available chosen
          else if ac_updating x || (op_PerAccountConcurrency o <=? ac_busy x) then scan o now tried l order true chosen
          else if match chosen ≫= (l !!.) with Some y => lighter x y | None => true end then
            if (ac_busy x =? 0) && (ac_mediaBusy x =? 0) then (true, Some index)
            else scan o now tried l order true (Some index)
          else scan o now tried l order true chosen
      end
  end.

Definition byID (id : string) (l : list account) : option nat :=
  fst <$> list_find (fun x => ac_id x = id) l.

Definition closedFailure : failure := plain (ErrCore (NewError "service_not_configured" "Instagram account pool is closed" 503)).
Definition unconfigured : failure := plain (ErrCore (NewError "service_not_configured" "Instagram accounts are not configured" 503)).
Definition noneAvailable : failure :=
  plain (ErrCore (NewError "upstream_rate_limited"
    "No Instagram account is currently available; refresh challenged sessions or retry after cooldown" 503)).
Definition queueFull : failure := plain (ErrCore (NewError "service_busy" "The Instagram account queue is full" 503)).

Inductive admission :=
| Grant (a : nat) (media : bool)
| Refuse (f : failure)
| Wait.

(** One turn of the loop of [acquire], up to the queue. *)
Definition attempt_turn (o : Options) (now : Z) (pinned : string) (tried : list nat) (p : Pool) : admission :=
  let l := ap_accounts p in
  if ap_closed p then Refuse closedFailure
  else if String.eqb pinned "" && ((0 <? ap_pendingHealthWrites p) || (op_Store o && st_dirty p)) then Refuse dbFailure
  else if bool_decide (l = []) then Refuse unconfigured
  else if negb (String.eqb pinned "") then
    match byID pinned l with
    | None => Refuse (plain (ErrCore MissingAsset))
    | Some a =>
        match l !! a with
        | Some x => if ac_mediaBusy x <? op_PerAccountDownloadConcurrency o then Grant a true else Wait
        | None => Wait
        end
    end
  else
    match scan o now tried l (scan_order (ap_next p) (eligibleEnd o l)) false None with
    | (_, Some a) => Grant a false
    | (true, None) => Wait
    | (false, None) => Refuse noneAvailable
    end.

(** A request leaves [acquire] with an error; [Detail] prefers the error of an
    earlier attempt. *)
Definition leave (ctxErr : option goerr) (f : failure) (j : job) : phase :=
  Returned (Err (match jb_last j, ctxErr with Some last, None => last | _, _ => f end)).

Definition acquire (o : Options) (i : nat) (now : Z) (ctxErr : option goerr) (pinned : string) (queued : bool) (j : job) (p : Pool) : Pool :=
  let dq := if queued then -1 else 0 in
  match ctxErr with
  | Some e => move i (leave ctxErr (plain e) j) dq 0 p
  | None =>
      match attempt_turn o now pinned (jb_tried j) p with
      | Refuse f => move i (leave None f j) dq 0 p
      | Grant a true => move i (Downloading a) dq 0 (on a (fun x => set_counts (ac_busy x) (ac_mediaBusy x + 1) x) p)
      | Grant a false =>
          move i (Leased a false (mkJob (a :: jb_tried j) (jb_attempt j) (jb_last j))) dq 0
            (set_next (S a mod length (ap_accounts p)) (on a (fun x => set_counts (ac_busy x + 1) (ac_mediaBusy x) x) p))
      | Wait =>
          if queued then p
          else if op_MaxQueuedRequests o <=? ap_queued p then move i (leave None queueFull j) 0 0 p
          else move i (Acquiring pinned true j) 1 0 p
      end
  end.

(** ** Health *)

Definition accountUnavailable (now : Z) (x : account) : option failure :=
  if ac_disabled x then Some (loginFailure (if String.eqb (ac_deadReason x) "" then "session_expired" else ac_deadReason x))
  else if 0 <? ac_cooldown x - now then Some (rateLimitFailure now (ac_cooldown x - now))
  else None.

(** What [Detail] does to an account: the account, the verdict as applied, and
    the cooldown to save. *)
Definition judge (now : Z) (d : disposition) (x : account) : account * disposition * option Z :=
  let disable := ds_disable d && String.eqb (ds_authorization d) (ac_authorization x) in
  let reason :=
    if String.eqb (ac_deadReason x) "" || (negb (ds_retry d) && String.eqb (ac_deadReason x) "session_expired")
    then ds_deadReason d else ac_deadReason x in
  let until := now + ds_cooldown d in
  let later := (0 <? ds_cooldown d) && (ac_cooldown x <? until) in
  (set_health (if disable then true else ac_disabled x) (if disable then reason else ac_deadReason x)
     (if later then until else ac_cooldown x) x,
   mkDisposition (ds_authorization d) (ds_renew d) (ds_retry d) disable (if disable then reason else ds_deadReason d) (ds_cooldown d),
   if later then Some until else None).

(** ** The store *)

(** [MarkHealth], up to its flush; a deadline of zero is none. *)
Definition mark (id : string) (reason : string) (until : option Z) (p : Pool) : Pool :=
  let until := match until with Some u => if u =? zeroTime then None else Some u | None => None end in
  if String.eqb reason "" && bool_decide (until = None) then p
  else
    set_store true
      (if String.eqb reason "" then st_pending p else <[id := reason]> (st_pending p))
      (match until with
       | Some u => if default zeroTime (st_pendingCooldowns p !! id) <? u then <[id := u]> (st_pendingCooldowns p) else st_pendingCooldowns p
       | None => st_pendingCooldowns p
       end)
      (st_rows p) p.

(** The statement [Flush] runs for one account: null deadlines are ignored. *)
Definition checked (reason : option string) (until : option Z) (r : row) : row :=
  mkRow (rw_authorization r) (rw_dead r || bool_decide (is_Some reason))
    (match until with Some u => Z.max (rw_cooldown r) u | None => rw_cooldown r end).

Definition write_row (id : string) (p : Pool) : Pool :=
  set_store (st_dirty p) (st_pending p) (st_pendingCooldowns p)
    (alter (checked (st_pending p !! id) (st_pendingCooldowns p !! id)) id (st_rows p)) p.

Definition flush_one (p : Pool) (id : string) : Pool :=
  match st_rows p !! id with
  | Some _ =>
      let p := write_row id p in
      set_store (st_dirty p) (delete id (st_pending p)) (delete id (st_pendingCooldowns p)) (st_rows p) p
  | None => p
  end.

(** [Flush]: [written] are the accounts whose statement succeeds, if the
    database is reached at all, and [doubtful] those whose statement took effect
    although it failed. *)
Definition flush (written : option (list string)) (doubtful : list string) (p : Pool) : bool * Pool :=
  if negb (st_dirty p) then (true, p)
  else
    match written with
    | None => (false, p)
    | Some written =>
        let p := fold_left (fun p id => write_row id p) doubtful (fold_left flush_one written p) in
        if bool_decide (st_pending p = ∅) && bool_decide (st_pendingCooldowns p = ∅)
        then (true, set_store false (st_pending p) (st_pendingCooldowns p) (st_rows p) p)
        else (false, p)
    end.

(** [SaveSession]: a dead account keeps its session. *)
Definition save_session (id auth : string) (p : Pool) : bool * Pool :=
  match st_rows p !! id with
  | Some r =>
      if rw_dead r then (false, p)
      else (true, set_store (st_dirty p) (st_pending p) (st_pendingCooldowns p) (<[id := mkRow auth (rw_dead r) (rw_cooldown r)]> (st_rows p)) p)
  | None => (false, p)
  end.

(** [ReplaceSession] revives the account; its cooldown stays. *)
Definition replace_session (id auth : string) (p : Pool) : bool * Pool :=
  match st_rows p !! id with
  | Some r => (true, set_store (st_dirty p) (st_pending p) (st_pendingCooldowns p) (<[id := mkRow auth false (rw_cooldown r)]> (st_rows p)) p)
  | None => (false, p)
  end.

(** ** [renew] *)

Inductive refresh :=
| RefreshDone (err : option failure)
| RefreshLogin.

Definition refresh_check (now : Z) (rejected : string) (x : account) : refresh :=
  match accountUnavailable now x with
  | Some f => RefreshDone (Some f)
  | None =>
      if negb (String.eqb (ac_authorization x) rejected) then RefreshDone None
      else if negb (ac_login x) then RefreshDone (Some (loginFailure "session_expired"))
      else if now <? ac_refreshAfter x then RefreshDone (ac_refreshErr x)
      else RefreshLogin
  end.

Definition interrupted (f : failure) : bool := is_canceled (fl_error f) || is_deadline (fl_error f).

(** The next login waits a minute, or as long as the upstream asked. *)
Definition refreshed (now : Z) (ctxErr : option goerr) (err : option failure) (x : account) : account :=
  let skip := bool_decide (is_Some ctxErr) && match err with Some f => interrupted f | None => true end in
  if skip then x
  else
    set_refresh (now + Z.max Minute (match err with Some f => failureCooldown now f | None => 0 end))
      (Some (match err with Some f => f | None => loginFailure "session_expired" end)) x.

(** Where a request goes when [renew] returns. *)
Definition after_renew (now : Z) (a : nat) (rejected : string) (err : option failure) (j : job) : phase :=
  match err with
  | None => Leased a true j
  | Some f =>
      if interrupted f then Judging a (tagged rejected neutral, Some f) j
      else Judging a (tagged rejected (recoveryDisposition now f), Some f) j
  end.

(** ** Steps *)

Inductive action :=
| Enter (i : nat) (mediaID : string) (written : option (list string)) (doubtful : list string)
| EnterMedia (i : nat) (id : string)
| Turn (i : nat) (now : Z) (ctxErr : option goerr)
| Session (i : nat)
| CheckAccount (i : nat) (now : Z)
| Reply (i : nat) (d : disposition) (err : option failure)
| Gate (i : nat)
| GateCanceled (i : nat) (now : Z) (ctxErr : goerr)
| RefreshCheck (i : nat) (now : Z)
| Login (i : nat) (now : Z) (ctxErr : option goerr) (result : res failure (bool * string))
| SaveSession (i : nat) (now : Z) (ctxErr : option goerr) (effect ok : bool)
| Publish (i : nat) (now : Z) (ctxErr : option goerr)
| Guard (i : nat)
| Apply (i : nat) (now : Z)
| Mark (i : nat)
| Flush (i : nat) (written : option (list string)) (doubtful : list string)
| Saved (i : nat)
| Ungate (i : nat)
| Finish (i : nat) (ctxErr : option goerr) (saveErr : option failure)
| CloseBody (i : nat)
| Update (a : nat)
| UpdateStep (now : Z) (written : option (list string)) (doubtful : list string) (proceed : bool) (result : res failure string)
| AddStored (x : account) (r : row)
| Close.

Definition id_of (p : Pool) (a : nat) : string := match ap_accounts p !! a with Some x => ac_id x | None => "" end.
Definition gate_of (p : Pool) (a : nat) : bool := match ap_accounts p !! a with Some x => ac_gate x | None => true end.

(** [defer func() { <-a.refreshGate }()] of [renew], and where it returns to. *)
Definition end_renew (i : nat) (now : Z) (a : nat) (rejected : string) (err : option failure) (j : job) (p : Pool) : Pool :=
  move i (after_renew now a rejected err j) 0 0 (on a (set_gate false) p).

(** [renew] after a login. *)
Definition end_login (i : nat) (now : Z) (ctxErr : option goerr) (a : nat) (rejected : string) (err : option failure) (j : job) (p : Pool) : Pool :=
  end_renew i now a rejected err j (on a (refreshed now ctxErr err) p).

(** The end of one attempt of [Detail], after its lease is released. *)
Definition conclude (o : Options) (ctxErr : option goerr) (saved : option failure) (a : string) (v : verdict) (j : job) : phase :=
  match saved, v.2 with
  | Some f, _ => Returned (Err f)
  | None, None => Returned (Ok a)
  | None, Some f =>
      match ctxErr with
      | Some e => Returned (Err (plain e))
      | None =>
          if negb (ds_retry v.1) then Returned (Err f)
          else if jb_attempt j + 1 <? op_MaxAttempts o
          then Acquiring "" false (mkJob (jb_tried j) (jb_attempt j + 1) (Some f))
          else Returned (Err f)
      end
  end.

Definition step (o : Options) (x : action) (p : Pool) : Pool :=
  match x with
  | Enter i mediaID written doubtful =>
      match ap_callers p !! i with
      | Some Outside =>
          if negb (numericID mediaID) then move i (Returned (Err (plain (ErrCore (InvalidLink "A numeric Instagram media ID is required"))))) 0 0 p else
          let (ok, p) := if op_Store o then flush written doubtful p else (true, p) in
          if ok then move i (Acquiring "" false (mkJob [] 0 None)) 0 0 p else move i (Returned (Err dbFailure)) 0 0 p
      | _ => p
      end
  | EnterMedia i id =>
      match ap_callers p !! i with
      | Some Outside =>
          if negb (str_has_prefix id IdentityPrefix) then move i (Returned (Err (plain (ErrCore MissingAsset)))) 0 0 p
          else move i (Acquiring id false (mkJob [] 0 None)) 0 0 p
      | _ => p
      end
  | Turn i now ctxErr =>
      match ap_callers p !! i with
      | Some (Acquiring pinned queued j) => acquire o i now ctxErr pinned queued j p
      | _ => p
      end
  | Session i =>
      match ap_callers p !! i with
      | Some (Leased a renewed j) =>
          match ap_accounts p !! a with Some x => move i (Checking a (ac_authorization x) renewed j) 0 0 p | None => p end
      | _ => p
      end
  | CheckAccount i now =>
      match ap_callers p !! i with
      | Some (Checking a auth renewed j) =>
          match ap_accounts p !! a with
          | Some x =>
              match accountUnavailable now x with
              | Some f => move i (Judging a (tagged auth (recoveryDisposition now f), Some f) j) 0 0 p
              | None =>
                  if negb renewed && String.eqb auth "" then
                    if ac_login x then move i (Renewing a auth j) 0 0 p
                    else move i (Judging a (tagged auth sessionExpired, Some (loginFailure "session_expired")) j) 0 0 p
                  else move i (Asking a auth renewed j) 0 0 p
              end
          | None => p
          end
      | _ => p
      end
  | Reply i d err =>
      match ap_callers p !! i with
      | Some (Asking a auth renewed j) =>
          match ap_accounts p !! a with
          | Some x =>
              if negb renewed && ds_renew d && ac_login x then move i (Renewing a auth j) 0 0 p
              else move i (Judging a (tagged auth d, err) j) 0 0 p
          | None => p
          end
      | _ => p
      end
  | Gate i =>
      match ap_callers p !! i with
      | Some (Renewing a rejected j) =>
          if gate_of p a then p else move i (Refreshing a rejected j) 0 0 (on a (set_gate true) p)
      | _ => p
      end
  | GateCanceled i now ctxErr =>
      match ap_callers p !! i with
      | Some (Renewing a rejected j) => move i (after_renew now a rejected (Some (plain ctxErr)) j) 0 0 p
      | _ => p
      end
  | RefreshCheck i now =>
      match ap_callers p !! i with
      | Some (Refreshing a rejected j) =>
          match ap_accounts p !! a with
          | Some x =>
              match refresh_check now rejected x with
              | RefreshDone err => end_renew i now a rejected err j p
              | RefreshLogin => move i (LoggingIn a rejected j) 0 0 p
              end
          | None => p
          end
      | _ => p
      end
  | Login i now ctxErr result =>
      match ap_callers p !! i with
      | Some (LoggingIn a rejected j) =>
          match result with
          | Err f => end_login i now ctxErr a rejected (Some f) j p
          | Ok (false, _) => end_login i now ctxErr a rejected (Some (loginFailure "account_mismatch")) j p
          | Ok (true, auth) => if op_Store o then move i (SavingSession a rejected auth j) 0 0 p else move i (Publishing a auth j) 0 0 p
          end
      | _ => p
      end
  | SaveSession i now ctxErr effect ok =>
      match ap_callers p !! i with
      | Some (SavingSession a rejected auth j) =>
          let (matched, p) := if effect then save_session (id_of p a) auth p else (false, p) in
          if matched && ok then move i (Publishing a auth j) 0 0 p
          else end_login i now ctxErr a rejected (Some dbFailure) j p
      | _ => p
      end
  | Publish i now ctxErr =>
      match ap_callers p !! i with
      | Some (Publishing a auth j) => end_login i now ctxErr a "" None j (on a (fun x => set_session auth (ac_login x) x) p)
      | _ => p
      end
  | Guard i =>
      match ap_callers p !! i with
      | Some (Judging a v j) =>
          if ds_disable v.1 || (0 <? ds_cooldown v.1) then
            if gate_of p a then p else move i (Applying a true v j) 0 0 (on a (set_gate true) p)
          else move i (Applying a false v j) 0 0 p
      | _ => p
      end
  | Apply i now =>
      match ap_callers p !! i with
      | Some (Applying a guard v j) =>
          match ap_accounts p !! a with
          | Some x =>
              let '(x', d, until) := judge now v.1 x in
              let p := on a (fun _ => x') p in
              if op_Store o && (ds_disable d || bool_decide (is_Some until))
              then move i (Marking a guard (if ds_disable d then ds_deadReason d else "") until (d, v.2) j) 0 1 p
              else move i (Settling a guard true (d, v.2) j) 0 0 p
          | None => p
          end
      | _ => p
      end
  | Mark i =>
      match ap_callers p !! i with
      | Some (Marking a guard reason until v j) => move i (Flushing a guard v j) 0 0 (mark (id_of p a) reason until p)
      | _ => p
      end
  | Flush i written doubtful =>
      match ap_callers p !! i with
      | Some (Flushing a guard v j) => let (ok, p) := flush written doubtful p in move i (Flushed a guard ok v j) 0 0 p
      | _ => p
      end
  | Saved i =>
      match ap_callers p !! i with
      | Some (Flushed a guard ok v j) => move i (Settling a guard ok v j) 0 (-1) p
      | _ => p
      end
  | Ungate i =>
      match ap_callers p !! i with
      | Some (Settling a guard ok v j) => move i (Ending a ok v j) 0 0 (if guard then on a (set_gate false) p else p)
      | _ => p
      end
  | Finish i ctxErr saveErr =>
      match ap_callers p !! i with
      | Some (Ending a ok v j) =>
          if op_Store o && ok && gate_of p a then p
          else
            let saved := if negb ok then Some dbFailure else if op_Store o then saveErr else None in
            move i (conclude o ctxErr saved (id_of p a) v j) 0 0 (on a (fun x => set_counts (ac_busy x - 1) (ac_mediaBusy x) x) p)
      | _ => p
      end
  | CloseBody i =>
      match ap_callers p !! i with
      | Some (Downloading a) =>
          move i (Returned (Ok (id_of p a))) 0 0 (on a (fun x => set_counts (ac_busy x) (ac_mediaBusy x - 1) x) p)
      | _ => p
      end
  | Update a =>
      match ap_manager p, ap_accounts p !! a with
      | UIdle, Some _ => if op_Store o then manage (UDraining a) 0 (on a (set_updating true) p) else p
      | _, _ => p
      end
  | UpdateStep now written doubtful proceed result =>
      match ap_manager p with
      | UIdle => p
      | UDraining a =>
          match ap_accounts p !! a with
          | Some x =>
              if negb proceed then manage (UFinishing a false) 0 p
              else if (0 <? ac_busy x) || (0 <? ap_pendingHealthWrites p) then p
              else manage (UFlushing a) 0 p
          | None => p
          end
      | UFlushing a =>
          if negb proceed then manage (UFinishing a false) 0 p
          else let (ok, p) := flush written doubtful p in manage (if ok then UGating a else UFinishing a false) 0 p
      | UGating a =>
          if negb proceed then manage (UFinishing a false) 0 p
          else if gate_of p a then p else manage (UDeciding a) 0 (on a (set_gate true) p)
      | UDeciding a =>
          match ap_accounts p !! a with
          | Some x =>
              if proceed then if now <? ac_cooldown x then manage (UFinishing a true) 0 p else manage (UVerifying a) 0 p
              else
                match result with    (* only the saved password changes *)
                | Ok _ => manage (UFinishing a true) 0 (on a (fun x => set_refresh zeroTime None (set_session (ac_authorization x) true x)) p)
                | Err _ => manage (UFinishing a true) 0 p
                end
          | None => p
          end
      | UVerifying a =>
          match ap_accounts p !! a, result with
          | Some x, Err f =>
              if 0 <? failureCooldown now f then
                let until := Z.max (ac_cooldown x) (now + failureCooldown now f) in
                manage (UMarking a until) 1 (on a (set_health (ac_disabled x) (ac_deadReason x) until) p)
              else manage (UFinishing a true) 0 p
          | Some _, Ok auth => manage (UReplacing a auth) 0 p
          | None, _ => p
          end
      | UMarking a until => manage (UMarked a) 0 (mark (id_of p a) "" (Some until) p)
      | UMarked a => let (_, p) := flush written doubtful p in manage (UFlushed a) 0 p
      | UFlushed a => manage (UFinishing a true) (-1) p
      | UReplacing a auth =>
          let (matched, p) := if proceed then replace_session (id_of p a) auth p else (false, p) in
          let ok := match result with Ok _ => matched | Err _ => false end in
          manage (if ok then UReplaced a auth else UFinishing a true) 0 p
      | UReplaced a auth =>
          manage (UFinishing a true) 0
            (on a (fun x => set_refresh zeroTime None (set_health false "" (ac_cooldown x) (set_session auth (ac_login x || proceed) x))) p)
      | UFinishing a true => manage (UFinishing a false) 0 (on a (set_gate false) p)
      | UFinishing a false => manage UIdle 0 (on a (set_updating false) p)
      end
  | AddStored x r =>
      if ap_closed p || bool_decide (is_Some (byID (ac_id x) (ap_accounts p))) then p
      else
        let r := default r (st_rows p !! ac_id x) in
        let x := mkAccount (ac_id x) (ac_authorization x) (ac_login x) (ac_disabled x || rw_dead r) (ac_deadReason x) (rw_cooldown r) 0 0
                   false false zeroTime None in
        set_accounts (ap_accounts p ++ [x])
          (set_store (st_dirty p) (st_pending p) (st_pendingCooldowns p) (<[ac_id x := r]> (st_rows p)) p)
  | Close => set_closed p
  end.

(** A pool before its accounts are loaded, each with [AddStored]. *)
Definition unopened (n : nat) : Pool := mkPool [] 0 0 0 false (replicate n Outside) UIdle false ∅ ∅ ∅.

Definition run (o : Options) (l : list action) (p : Pool) : Pool := fold_left (fun p x => step o x p) l p.
