(* ===== verification/AccountLease.v ===== *)
(** * instagramapp: leases of accounts

    The theorems on [acquire] of Accounts.v: the scan of the accounts is the
    choice of the first lightest usable account of the rotation, and every
    counter and gate of the pool is that of the requests that hold it. *)
From S2P Require Import Prelude Strconv Errors Accounts.
From stdpp Require Import gmap.
Open Scope Z_scope.
Open Scope go_scope.

(** ** Selection *)

Definition usable (now : Z) (tried : list nat) (l : list account) (i : nat) : bool :=
  match l !! i with
  | Some x => negb (ac_disabled x || (now <? ac_cooldown x) || bool_decide (i ∈ tried))
  | None => false
  end.

Definition vacant (o : Options) (l : list account) (i : nat) : bool :=
  match l !! i with Some x => negb (ac_updating x || (op_PerAccountConcurrency o <=? ac_busy x)) | None => false end.

Definition lighter_at (l : list account) (i k : nat) : bool :=
  match l !! i, l !! k with Some x, Some y => lighter x y | _, _ => false end.

(** The reference: the usable vacant accounts, and the first of them that no
    other is lighter than. *)
Definition candidates (o : Options) (now : Z) (tried : list nat) (l : list account) (order : list nat) : list nat :=
  filter (fun i => usable now tried l i && vacant o l i) order.

Definition lightest (o : Options) (now : Z) (tried : list nat) (l : list account) (order : list nat) : option nat :=
  let cs := candidates o now tried l order in
  snd <$> list_find (fun i => forallb (fun k => negb (lighter_at l k i)) cs) cs.

Lemma lighter_irrefl x : lighter x x = false.
Proof. unfold lighter. rewrite Z.ltb_irrefl, Z.ltb_irrefl. by destruct (_ =? _). Qed.
Lemma lighter_asym x y : lighter x y = true -> lighter y x = false.
Proof.
  unfold lighter. intros [H|H]%orb_true_iff; bool_prop; apply orb_false_iff; rewrite andb_false_iff, !Z.ltb_ge, Z.eqb_neq; lia.
Qed.
Lemma lighter_cotrans x y z : lighter x z = true -> lighter y z = false -> lighter x y = true.
Proof.
  unfold lighter. rewrite orb_true_iff, andb_true_iff, orb_false_iff, andb_false_iff, !Z.ltb_lt, Z.eqb_eq, !Z.ltb_ge, Z.eqb_neq.
  intros H1 H2. rewrite orb_true_iff, andb_true_iff, !Z.ltb_lt, Z.eqb_eq. lia.
Qed.

(** [i] beats everything before it and yields to nothing after it. *)
Definition first_lightest (l : list account) (cs : list nat) (i : nat) : Prop :=
  exists pre post, cs = pre ++ i :: post /\
    (forall k, k ∈ pre -> lighter_at l i k = true) /\ (forall k, k ∈ post -> lighter_at l k i = false).

Lemma find_skip {A} (P : A -> Prop) `{!forall x, Decision (P x)} pre x post :
  (forall y, y ∈ pre -> ~ P y) -> P x -> snd <$> list_find P (pre ++ x :: post) = Some x.
Proof.
  intros Hn Hx. rewrite list_find_app_r; [|by apply list_find_None, Forall_forall].
  cbn. rewrite decide_True by done. done.
Qed.

Lemma lightest_intro o now tried l order i :
  first_lightest l (candidates o now tried l order) i -> lightest o now tried l order = Some i.
Proof.
  intros (pre & post & Hc & Hpre & Hpost). unfold lightest. rewrite Hc. apply find_skip.
  - intros y Hy H%Is_true_true. rewrite forallb_forall in H. specialize (H i). rewrite (Hpre y Hy) in H.
    discriminate H. apply in_or_app. right. by left.
  - apply Is_true_true, forallb_forall. intros k Hk. apply negb_true_iff. apply list_elem_of_In in Hk.
    apply elem_of_app in Hk as [Hk|[->|Hk]%elem_of_cons].
    + specialize (Hpre k Hk). unfold lighter_at in *. destruct (l !! i), (l !! k); try done. by apply lighter_asym.
    + unfold lighter_at. destruct (l !! i); [apply lighter_irrefl|done].
    + by apply Hpost.
Qed.

Lemma lightest_none o now tried l order : candidates o now tried l order = [] -> lightest o now tried l order = None.
Proof. intros H. unfold lightest. by rewrite H. Qed.

(** What the scan has established after a prefix of the order. *)
Definition scanned (o : Options) (now : Z) (tried : list nat) (l : list account) (seen : list nat)
    (available : bool) (chosen : option nat) : Prop :=
  (available = existsb (usable now tried l) seen) /\
  match chosen with
  | Some i => first_lightest l (candidates o now tried l seen) i
  | None => candidates o now tried l seen = []
  end.

Lemma candidates_app o now tried l a b : candidates o now tried l (a ++ b) = candidates o now tried l a ++ candidates o now tried l b.
Proof. apply filter_app. Qed.

Lemma candidates_one o now tried l i :
  candidates o now tried l [i] = if usable now tried l i && vacant o l i then [i] else [].
Proof. unfold candidates. rewrite filter_cons, filter_nil. by destruct (_ && _). Qed.

Lemma scanned_skip o now tried l seen i available chosen :
  usable now tried l i && vacant o l i = false -> scanned o now tried l seen available chosen ->
  scanned o now tried l (seen ++ [i]) (available || usable now tried l i) chosen.
Proof.
  intros Hc [-> Hb]. split; [rewrite existsb_app; cbn [existsb]; by rewrite orb_false_r|].
  rewrite candidates_app, candidates_one, Hc, app_nil_r. done.
Qed.

(** The current account against the chosen one. *)
Lemma scanned_take o now tried l seen i x available chosen :
  usable now tried l i = true -> vacant o l i = true -> l !! i = Some x -> scanned o now tried l seen available chosen ->
  scanned o now tried l (seen ++ [i]) true
    (if match chosen ≫= (l !!.) with Some y => lighter x y | None => true end then Some i else chosen).
Proof.
  intros Hu Hv Hx [_ Hb]. split; [rewrite existsb_app; cbn [existsb]; by rewrite Hu, !orb_true_r|].
  rewrite candidates_app, candidates_one, Hu, Hv. cbn [andb].
  destruct chosen as [c|]; cbn [mbind option_bind].
  - destruct Hb as (pre & post & Hc & Hpre & Hpost).
    assert (c ∈ candidates o now tried l seen) as Hin by (rewrite Hc; apply elem_of_app; right; left).
    apply list_elem_of_filter in Hin as [Hin _]. destruct (andb_prop_elim _ _ Hin) as [Huc _].
    unfold usable in Huc. destruct (l !! c) as [y|] eqn:Ey; [|done]. destruct (lighter x y) eqn:El.
    + exists (pre ++ c :: post), []. split; [by rewrite Hc|]. split; [|by intros k Hk%elem_of_nil].
      intros k [Hk|[->|Hk]%elem_of_cons]%elem_of_app.
      * specialize (Hpre k Hk). unfold lighter_at in *. rewrite Ey in Hpre. rewrite Hx. destruct (l !! k) as [z|]; [|done].
        eapply lighter_cotrans; [exact El|]. by apply lighter_asym.
      * unfold lighter_at. by rewrite Hx, Ey.
      * specialize (Hpost k Hk). unfold lighter_at in *. rewrite Ey in Hpost. rewrite Hx.
        assert (k ∈ candidates o now tried l seen) as Hk' by (rewrite Hc; apply elem_of_app; right; by right).
        apply list_elem_of_filter in Hk' as [Hk' _]. destruct (andb_prop_elim _ _ Hk') as [Huk _]. unfold usable in Huk.
        destruct (l !! k) as [z|]; [|done]. by eapply lighter_cotrans.
    + exists pre, (post ++ [i]). split; [by rewrite Hc, <- app_assoc|]. split; [done|].
      intros k [Hk|Hk%list_elem_of_singleton]%elem_of_app; [by apply Hpost|]. subst. unfold lighter_at. by rewrite Hx, Ey.
  - rewrite Hb. exists [], []. split; [done|]. split; by intros k Hk%elem_of_nil.
Qed.

(** The scan stops at an idle account: no load is below zero. *)
Definition loads_ok (l : list account) : Prop := forall i x, l !! i = Some x -> 0 <= ac_busy x /\ 0 <= ac_mediaBusy x.

Lemma lighter_idle l i k x : loads_ok l -> l !! i = Some x -> ac_busy x = 0 -> ac_mediaBusy x = 0 -> lighter_at l k i = false.
Proof.
  intros Hl Hx Hb Hm. unfold lighter_at. rewrite Hx. destruct (l !! k) as [y|] eqn:Ey; [|done].
  destruct (Hl k y Ey). unfold lighter. rewrite Hb, Hm. apply orb_false_iff. rewrite andb_false_iff, !Z.ltb_ge. lia.
Qed.

Lemma scan_spec o now tried l order : loads_ok l -> Forall (fun i => (i < length l)%nat) order ->
  forall seen available chosen, scanned o now tried l seen available chosen ->
  scan o now tried l order available chosen =
    (existsb (usable now tried l) (seen ++ order), lightest o now tried l (seen ++ order)).
Proof.
  intros Hl Ho. induction Ho as [|i order Hi Ho IH]; intros seen available chosen Hs; cbn [scan].
  - rewrite app_nil_r. destruct Hs as [-> Hs]. f_equal. symmetry.
    destruct chosen; [by apply lightest_intro|by apply lightest_none].
  - destruct (lookup_lt_is_Some_2 l i Hi) as [x Hx]. rewrite Hx.
    replace (seen ++ i :: order) with ((seen ++ [i]) ++ order) by (by rewrite <- app_assoc).
    assert (usable now tried l i = negb (ac_disabled x || (now <? ac_cooldown x) || bool_decide (i ∈ tried))) as Hu
      by (unfold usable; by rewrite Hx).
    assert (vacant o l i = negb (ac_updating x || (op_PerAccountConcurrency o <=? ac_busy x))) as Hv
      by (unfold vacant; by rewrite Hx).
    destruct (ac_disabled x || _ || _); [|destruct (ac_updating x || _)].
    + apply IH. replace available with (available || usable now tried l i) by (by rewrite Hu, orb_false_r). apply scanned_skip; [by rewrite Hu|done].
    + apply IH. replace true with (available || usable now tried l i) by (by rewrite Hu, orb_true_r). apply scanned_skip; [by rewrite Hu, Hv|done].
    + pose proof (scanned_take o now tried l seen i x available chosen Hu Hv Hx Hs) as Ht.
      destruct (match chosen ≫= _ with Some y => _ | None => _ end); [|by apply IH].
      destruct ((ac_busy x =? 0) && (ac_mediaBusy x =? 0)) eqn:Ez; [|by apply IH].
      bool_prop. f_equal.
      * rewrite !existsb_app. cbn [existsb]. by rewrite Hu, !orb_true_r.
      * symmetry. apply lightest_intro. destruct Ht as (_ & pre & post & Hc & Hpre & Hpost).
        exists pre, (post ++ candidates o now tried l order). rewrite candidates_app, Hc, <- app_assoc.
        split; [done|]. split; [done|]. intros k _. eapply lighter_idle; eauto.
Qed.

(** ** The rotation *)

Lemma mod_shift (m n last : nat) : (m < last)%nat -> (n < last)%nat ->
  ((m + n) mod last = if bool_decide (m + n < last) then m + n else m + n - last)%nat.
Proof.
  intros Hm Hn. case_bool_decide; [by apply Nat.mod_small|].
  replace (m + n)%nat with ((m + n - last) + 1 * last)%nat at 1 by lia.
  rewrite Nat.Div0.mod_add. apply Nat.mod_small. lia.
Qed.

Lemma seq_shift (k m n : nat) : (fun i => k + i)%nat <$> seq m n = seq (k + m) n.
Proof. revert m. induction n as [|n IH]; intros m; [done|]. cbn. rewrite IH. by rewrite Nat.add_succ_r. Qed.

(** A turn of the accounts, from the one after the last granted. *)
Lemma scan_order_rotation next last : (0 < last)%nat ->
  scan_order next last = seq (next mod last) (last - next mod last) ++ seq 0 (next mod last).
Proof.
  intros Hl. unfold scan_order. set (m := (next mod last)%nat). assert (m < last)%nat by (apply Nat.mod_upper_bound; lia).
  assert (seq 0 last = seq 0 ((last - m) + m)) as -> by (f_equal; lia). rewrite seq_app, fmap_app. f_equal.
  - replace (seq m (last - m)) with ((fun i => m + i)%nat <$> seq 0 (last - m)) by (by rewrite seq_shift, Nat.add_0_r).
    apply list_fmap_ext. intros _ n Hn%list_elem_of_lookup_2%elem_of_seq.
    rewrite <- Nat.Div0.add_mod_idemp_l. fold m. rewrite mod_shift by lia. by rewrite bool_decide_true by lia.
  - replace (seq (0 + (last - m)) m) with ((fun i => (last - m) + i)%nat <$> seq 0 m) by (by rewrite seq_shift, Nat.add_0_r).
    rewrite <- list_fmap_compose. rewrite <- (list_fmap_id (seq 0 m)) at 2.
    apply list_fmap_ext. intros _ n Hn%list_elem_of_lookup_2%elem_of_seq. cbn.
    rewrite <- Nat.Div0.add_mod_idemp_l. fold m. rewrite mod_shift by lia. rewrite bool_decide_false by lia. unfold id. lia.
Qed.

Lemma scan_order_elem next last i : i ∈ scan_order next last <-> (i < last)%nat.
Proof.
  destruct (decide (last = 0)%nat) as [->|]; [cbn; rewrite elem_of_nil; lia|].
  rewrite scan_order_rotation by lia. pose proof (Nat.mod_upper_bound next last ltac:(done)).
  rewrite elem_of_app, !elem_of_seq. lia.
Qed.

Definition live (x : account) : bool := negb (ac_disabled x).

Lemma eligible_end_le n l : (eligible_end n l <= length l)%nat.
Proof. revert n. induction l as [|x l IH]; intros n; cbn; [done|]. destruct (ac_disabled x); [|destruct (n =? 1)]; [specialize (IH n)| |specialize (IH (n - 1))]; lia. Qed.

Lemma eligible_end_spec n l i : 1 <= n -> (i < eligible_end n l)%nat <-> (i < length l)%nat /\ tally live (take i l) < n.
Proof.
  revert n i. induction l as [|x l IH]; intros n i Hn; cbn [eligible_end length]; [lia|].
  destruct i as [|i]; [cbn; destruct (ac_disabled x), (n =? 1); cbn; lia|].
  cbn [take firstn tally]. unfold live at 1. destruct (ac_disabled x); cbn [negb b2z].
  - rewrite <- Nat.succ_lt_mono, (IH n i Hn). rewrite Nat.succ_lt_mono. split; intros [H1 H2]; split; lia.
  - pose proof (tally_nonneg live (firstn i l)). destruct (Z.eqb_spec n 1); [lia|].
    rewrite <- Nat.succ_lt_mono, (IH (n - 1) i ltac:(lia)). rewrite Nat.succ_lt_mono. split; intros [H1 H2]; split; lia.
Qed.

Definition rotation (o : Options) (p : Pool) : list nat := scan_order (ap_next p) (eligibleEnd o (ap_accounts p)).

Lemma rotation_lt o p : Forall (fun i => (i < length (ap_accounts p))%nat) (rotation o p).
Proof.
  apply Forall_forall. intros i Hi%scan_order_elem. pose proof (eligible_end_le (op_ActiveAccounts o) (ap_accounts p)).
  unfold eligibleEnd in Hi. destruct (0 <? _); lia.
Qed.

Lemma scan_rotation o now tried p : loads_ok (ap_accounts p) ->
  scan o now tried (ap_accounts p) (rotation o p) false None =
    (existsb (usable now tried (ap_accounts p)) (rotation o p), lightest o now tried (ap_accounts p) (rotation o p)).
Proof. intros Hl. by apply (scan_spec o now tried _ _ Hl (rotation_lt o p) []). Qed.

(** The account chosen is eligible, and may take one more request. *)
Lemma lightest_sound o now tried l order a : lightest o now tried l order = Some a ->
  a ∈ order /\ exists x, l !! a = Some x /\ ac_disabled x = false /\ ac_cooldown x <= now /\ (a ∉ tried) /\
    ac_updating x = false /\ ac_busy x < op_PerAccountConcurrency o.
Proof.
  unfold lightest. intros H. apply fmap_Some in H as ([k a'] & H & ->). cbn [snd].
  apply list_find_Some in H as (H%list_elem_of_lookup_2 & _). apply list_elem_of_filter in H as [H%andb_prop_elim Ho].
  destruct H as [H1 H2]. split; [done|]. unfold usable in H1. unfold vacant in H2. destruct (l !! a') as [x|]; [|done].
  apply Is_true_true, negb_true_iff, orb_false_iff in H1 as [[H1 H3]%orb_false_iff H4%bool_decide_eq_false].
  apply Is_true_true, negb_true_iff, orb_false_iff in H2 as [H2 H5]. exists x. bool_prop. repeat split; try done; lia.
Qed.

(** ** The books *)

(** The account a request is at. *)
Definition target (ph : phase) : option nat :=
  match ph with
  | Outside | Acquiring _ _ _ | Returned _ => None
  | Downloading a | Leased a _ _ | Checking a _ _ _ | Asking a _ _ _ | Renewing a _ _ | Refreshing a _ _ | LoggingIn a _ _
  | SavingSession a _ _ _ | Publishing a _ _ | Judging a _ _ | Applying a _ _ _ | Marking a _ _ _ _ _ | Flushing a _ _ _
  | Flushed a _ _ _ _ | Settling a _ _ _ _ | Ending a _ _ _ => Some a
  end.

Definition is_download (ph : phase) : bool := match ph with Downloading _ => true | _ => false end.
Definition is_metadata (ph : phase) : bool := bool_decide (is_Some (target ph)) && negb (is_download ph).
Definition is_gated (ph : phase) : bool :=
  match ph with
  | Refreshing _ _ _ | LoggingIn _ _ _ | SavingSession _ _ _ _ | Publishing _ _ _ => true
  | Applying _ g _ _ | Marking _ g _ _ _ _ | Flushing _ g _ _ | Flushed _ g _ _ _ | Settling _ g _ _ _ => g
  | _ => false
  end.
Definition is_queued (ph : phase) : bool := match ph with Acquiring _ q _ => q | _ => false end.
Definition is_writing (ph : phase) : bool := match ph with Marking _ _ _ _ _ _ | Flushing _ _ _ _ | Flushed _ _ _ _ _ => true | _ => false end.

Definition at_account (kind : phase -> bool) (a : nat) (ph : phase) : bool := bool_decide (target ph = Some a) && kind ph.

Definition updates (u : update) : option nat :=
  match u with
  | UIdle => None
  | UDraining a | UFlushing a | UGating a | UDeciding a | UVerifying a | UMarking a _ | UMarked a | UFlushed a
  | UReplacing a _ | UReplaced a _ | UFinishing a _ => Some a
  end.
Definition update_gated (u : update) : bool :=
  match u with UIdle | UDraining _ | UFlushing _ | UGating _ => false | UFinishing _ g => g | _ => true end.
Definition update_writing (u : update) : bool := match u with UMarking _ _ | UMarked _ | UFlushed _ => true | _ => false end.
Definition updating_at (a : nat) (u : update) : bool := bool_decide (updates u = Some a).

(** What an account's counters say, in terms of who is at it. *)
Record entry_books (o : Options) (callers : list phase) (u : update) (a : nat) (x : account) : Prop := {
  eb_busy : ac_busy x = tally (at_account is_metadata a) callers;
  eb_media : ac_mediaBusy x = tally (at_account is_download a) callers;
  eb_gate : b2z (ac_gate x) = tally (at_account is_gated a) callers + b2z (updating_at a u && update_gated u);
  eb_updating : ac_updating x = updating_at a u;
  eb_capacity : ac_busy x <= op_PerAccountConcurrency o;
  eb_downloads : ac_mediaBusy x <= op_PerAccountDownloadConcurrency o;
}.

Record books (o : Options) (p : Pool) : Prop := {
  bk_accounts a x : ap_accounts p !! a = Some x -> entry_books o (ap_callers p) (ap_manager p) a x;
  bk_queued : ap_queued p = tally is_queued (ap_callers p);
  bk_queue : ap_queued p <= op_MaxQueuedRequests o;
  bk_writes : ap_pendingHealthWrites p = tally is_writing (ap_callers p) + b2z (update_writing (ap_manager p));
  bk_target i ph a : ap_callers p !! i = Some ph -> target ph = Some a -> (a < length (ap_accounts p))%nat;
  bk_updates a : updates (ap_manager p) = Some a -> (a < length (ap_accounts p))%nat;
}.

Lemma books_loads o p : books o p -> loads_ok (ap_accounts p).
Proof. intros H i x Hx. destruct (bk_accounts _ _ H i x Hx) as [-> -> _ _ _ _]. split; apply tally_nonneg. Qed.

(** What the books see of a pool. *)
Definition frame (p p' : Pool) : Prop :=
  ap_accounts p' = ap_accounts p /\ ap_callers p' = ap_callers p /\ ap_manager p' = ap_manager p /\ ap_queued p' = ap_queued p /\
  ap_pendingHealthWrites p' = ap_pendingHealthWrites p.

Lemma account_frame_trans p1 p2 p3 : frame p1 p2 -> frame p2 p3 -> frame p1 p3.
Proof. intros (A1 & A2 & A3 & A4 & A5) (B1 & B2 & B3 & B4 & B5). unfold frame. by rewrite B1, B2, B3, B4, B5. Qed.

Lemma books_frame o p p' : frame p p' -> books o p -> books o p'.
Proof. intros (A1 & A2 & A3 & A4 & A5) [H1 H2 H3 H4 H5 H6]. split; rewrite ?A1, ?A2, ?A3, ?A4, ?A5; done. Qed.

Lemma write_row_frame id p : frame p (write_row id p).
Proof. done. Qed.
Lemma flush_one_frame p id : frame p (flush_one p id).
Proof. unfold flush_one. by destruct (st_rows p !! id). Qed.
Lemma fold_frame (f : Pool -> string -> Pool) l p : (forall p id, frame p (f p id)) -> frame p (fold_left f l p).
Proof. intros Hf. revert p. induction l as [|id l IH]; intros p; cbn; [done|]. eapply account_frame_trans; [apply Hf|apply IH]. Qed.
Lemma flush_frame written doubtful p : frame p (flush written doubtful p).2.
Proof.
  unfold flush. destruct (st_dirty p); [cbn [negb]|done]. destruct written as [written|]; [|done].
  set (p' := fold_left _ doubtful _). assert (frame p p') as H.
  { eapply account_frame_trans; apply fold_frame; intros; [apply flush_one_frame|apply write_row_frame]. }
  destruct (_ && _); exact H.
Qed.
Lemma mark_frame id reason until p : frame p (mark id reason until p).
Proof. unfold mark. by destruct (_ && _). Qed.
Lemma save_session_frame id auth p : frame p (save_session id auth p).2.
Proof. unfold save_session. destruct (st_rows p !! id); [|done]. by destruct (rw_dead _). Qed.
Lemma replace_session_frame id auth p : frame p (replace_session id auth p).2.
Proof. unfold replace_session. by destruct (st_rows p !! id). Qed.
#[local] Hint Resolve flush_frame mark_frame save_session_frame replace_session_frame : go.

(** ** Moves *)

Definition gone_or_at (t : option nat) (a : nat) : Prop := t = None \/ t = Some a.

Lemma at_account_none kind a ph : target ph = None -> at_account kind a ph = false.
Proof. intros H. unfold at_account. by rewrite H. Qed.
Lemma at_account_other kind a b ph : gone_or_at (target ph) a -> b <> a -> at_account kind b ph = false.
Proof. intros [H|H] Hn; unfold at_account; rewrite H; [done|]. by rewrite bool_decide_false by congruence. Qed.

(** [true] when the request is at [a] and of that kind. *)
Lemma at_account_at (kind : phase -> bool) a ph : (target ph = None -> kind ph = false) -> gone_or_at (target ph) a -> at_account kind a ph = kind ph.
Proof.
  intros Hk [H|H]; [by rewrite at_account_none, Hk|]. unfold at_account. rewrite H. by rewrite bool_decide_true.
Qed.

Lemma kinds_none ph : target ph = None -> is_metadata ph = false /\ is_download ph = false /\ is_gated ph = false.
Proof. by destruct ph. Qed.

(** Request [i] goes from [ph0] to [ph], and [f] adjusts the account it is at. *)
Lemma account_books_move o p i ph0 ph a (f : account -> account) dq dw :
  books o p -> ap_callers p !! i = Some ph0 -> gone_or_at (target ph0) a -> gone_or_at (target ph) a ->
  (target ph = Some a -> (a < length (ap_accounts p))%nat) ->
  (forall x, ap_accounts p !! a = Some x -> (is_gated ph0 = true -> ac_gate x = true) ->
     ac_busy (f x) = ac_busy x - b2z (is_metadata ph0) + b2z (is_metadata ph) /\
     ac_mediaBusy (f x) = ac_mediaBusy x - b2z (is_download ph0) + b2z (is_download ph) /\
     b2z (ac_gate (f x)) = b2z (ac_gate x) - b2z (is_gated ph0) + b2z (is_gated ph) /\
     ac_updating (f x) = ac_updating x /\
     (ac_busy x <= op_PerAccountConcurrency o -> ac_busy (f x) <= op_PerAccountConcurrency o) /\
     (ac_mediaBusy x <= op_PerAccountDownloadConcurrency o -> ac_mediaBusy (f x) <= op_PerAccountDownloadConcurrency o)) ->
  dq = b2z (is_queued ph) - b2z (is_queued ph0) -> ap_queued p + dq <= op_MaxQueuedRequests o ->
  dw = b2z (is_writing ph) - b2z (is_writing ph0) ->
  books o (move i ph dq dw (on a f p)).
Proof.
  intros [H1 H2 H3 H4 H5 H6] Hi Ht0 Ht Hlt Hf -> Hq ->.
  assert (length (alter f a (ap_accounts p)) = length (ap_accounts p)) as Hlen by apply length_alter.
  split; cbn [move on set_accounts ap_accounts ap_callers ap_manager ap_queued ap_pendingHealthWrites].
  - intros b x' Hx'. destruct (decide (b = a)) as [->|Hne].
    + rewrite list_lookup_alter_eq in Hx'. destruct (ap_accounts p !! a) as [x|] eqn:Ex; [|done]. injection Hx' as <-.
      destruct (H1 a x Ex) as [E1 E2 E3 E4 E5 E6].
      assert (forall (kind : phase -> bool), (forall ph, target ph = None -> kind ph = false) ->
        tally (at_account kind a) (<[i:=ph]> (ap_callers p)) = tally (at_account kind a) (ap_callers p) - b2z (kind ph0) + b2z (kind ph)) as Hk.
      { intros kind Hk. rewrite (tally_insert _ _ _ _ _ Hi). rewrite !at_account_at by auto. done. }
      destruct (Hf x eq_refl) as (F1 & F2 & F3 & F4 & F5 & F6).
      { intros Hg. pose proof (tally_lookup (at_account is_gated a) _ _ _ Hi) as Hl.
        rewrite at_account_at in Hl; [|intros; by apply kinds_none|done]. specialize (Hl Hg).
        destruct (ac_gate x); [done|]. cbn [b2z] in E3. destruct (updating_at _ _ && _); cbn [b2z] in E3; lia. }
      split; rewrite ?Hk by (intros; by apply kinds_none); try lia; try (by rewrite F4); auto.
    + rewrite list_lookup_alter_ne in Hx' by done. destruct (H1 b x' Hx') as [E1 E2 E3 E4 E5 E6].
      assert (forall kind, tally (at_account kind b) (<[i:=ph]> (ap_callers p)) = tally (at_account kind b) (ap_callers p)) as Hk.
      { intros kind. rewrite (tally_insert _ _ _ _ _ Hi). rewrite !(at_account_other _ a) by done. cbn. lia. }
      split; rewrite ?Hk; done.
  - rewrite (tally_insert _ _ _ _ _ Hi). lia.
  - lia.
  - rewrite (tally_insert _ _ _ _ _ Hi). lia.
  - intros k ph' b Hk Hb. rewrite Hlen. destruct (decide (i = k)) as [<-|Hne].
    + rewrite list_lookup_insert_eq in Hk by (by eapply lookup_lt_Some). injection Hk as <-.
      destruct Ht as [Ht|Ht]; rewrite Ht in Hb; [done|]. injection Hb as <-. auto.
    + rewrite list_lookup_insert_ne in Hk by done. by apply (H5 k ph').
  - intros b Hb. rewrite Hlen. auto.
Qed.

Lemma on_id a p : on a (fun x => x) p = p.
Proof.
  destruct p. unfold on, set_accounts. cbn. f_equal. apply list_eq. intros k. destruct (decide (a = k)) as [->|].
  - rewrite list_lookup_alter_eq. by destruct (_ !! k).
  - by rewrite list_lookup_alter_ne.
Qed.

(** A move that leaves the accounts alone. *)
Lemma books_stay o p i ph0 ph dq dw :
  books o p -> ap_callers p !! i = Some ph0 -> target ph = target ph0 ->
  is_download ph = is_download ph0 -> is_gated ph = is_gated ph0 ->
  dq = b2z (is_queued ph) - b2z (is_queued ph0) -> ap_queued p + dq <= op_MaxQueuedRequests o ->
  dw = b2z (is_writing ph) - b2z (is_writing ph0) ->
  books o (move i ph dq dw p).
Proof.
  intros H Hi Ht Hd Hg Hq Hl Hw. pose (a := default 0%nat (target ph0)). rewrite <- (on_id a p).
  assert (gone_or_at (target ph0) a) as Ha by (unfold gone_or_at, a; destruct (target ph0); auto).
  eapply (account_books_move _ _ _ ph0); try done; [by rewrite Ht| |].
  - rewrite Ht. intros Hta. by apply (bk_target _ _ H i ph0).
  - intros x Hx _. assert (is_metadata ph = is_metadata ph0) as -> by (unfold is_metadata; by rewrite Ht, Hd).
    rewrite Hd, Hg. repeat split; auto; lia.
Qed.

(** The manager goes on, and [f] adjusts the account it updates. *)
Lemma books_manage o p u a (f : account -> account) dw :
  books o p -> gone_or_at (updates (ap_manager p)) a -> gone_or_at (updates u) a ->
  (updates u = Some a -> (a < length (ap_accounts p))%nat) ->
  (forall x, ap_accounts p !! a = Some x -> (update_gated (ap_manager p) = true -> ac_gate x = true) ->
     ac_busy (f x) = ac_busy x /\ ac_mediaBusy (f x) = ac_mediaBusy x /\
     b2z (ac_gate (f x)) = b2z (ac_gate x) - b2z (update_gated (ap_manager p)) + b2z (update_gated u) /\
     ac_updating (f x) = updating_at a u) ->
  dw = b2z (update_writing u) - b2z (update_writing (ap_manager p)) ->
  books o (manage u dw (on a f p)).
Proof.
  intros [H1 H2 H3 H4 H5 H6] Ht0 Ht Hlt Hf ->.
  assert (length (alter f a (ap_accounts p)) = length (ap_accounts p)) as Hlen by apply length_alter.
  assert (forall u, updates u = None -> update_gated u = false) as Hn by (by intros []).
  assert (forall u, gone_or_at (updates u) a -> updating_at a u && update_gated u = update_gated u) as Hu.
  { intros v [Hv|Hv]; unfold updating_at; rewrite Hv; [by rewrite (Hn v Hv)|by rewrite bool_decide_true]. }
  assert (forall u b, gone_or_at (updates u) a -> b <> a -> updating_at b u = false) as Ho.
  { intros v b [Hv|Hv] Hb; unfold updating_at; rewrite Hv; [done|by rewrite bool_decide_false by congruence]. }
  split; cbn [manage on set_accounts ap_accounts ap_callers ap_manager ap_queued ap_pendingHealthWrites].
  - intros b x' Hx'. destruct (decide (b = a)) as [->|Hne].
    + rewrite list_lookup_alter_eq in Hx'. destruct (ap_accounts p !! a) as [x|] eqn:Ex; [|done]. injection Hx' as <-.
      destruct (H1 a x Ex) as [E1 E2 E3 E4 E5 E6]. rewrite (Hu _ Ht0) in E3.
      destruct (Hf x eq_refl) as (F1 & F2 & F3 & F4).
      { intros Hg. rewrite Hg in E3. pose proof (tally_nonneg (at_account is_gated a) (ap_callers p)).
        destruct (ac_gate x); [done|]. cbn [b2z] in E3. lia. }
      split; rewrite ?F1, ?F2; try done. rewrite (Hu _ Ht). lia.
    + rewrite list_lookup_alter_ne in Hx' by done. destruct (H1 b x' Hx') as [E1 E2 E3 E4 E5 E6].
      rewrite (Ho _ b Ht0 Hne) in E3, E4. split; try done; by rewrite (Ho _ b Ht Hne).
  - done.
  - done.
  - lia.
  - intros k ph b Hk Hb. rewrite Hlen. by apply (H5 k ph).
  - intros b Hb. rewrite Hlen. destruct Ht as [Ht|Ht]; rewrite Ht in Hb; [done|]. injection Hb as <-. auto.
Qed.

(** An account that is no request's yet. *)
Lemma books_add o p x : books o p -> ac_busy x = 0 -> ac_mediaBusy x = 0 -> ac_gate x = false -> ac_updating x = false ->
  0 <= op_PerAccountConcurrency o -> 0 <= op_PerAccountDownloadConcurrency o ->
  books o (set_accounts (ap_accounts p ++ [x]) p).
Proof.
  intros [H1 H2 H3 H4 H5 H6] Hb Hm Hg Hu Hc Hd.
  split; cbn [set_accounts ap_accounts ap_callers ap_manager ap_queued ap_pendingHealthWrites]; try done.
  - intros a y Hy. apply lookup_app_Some in Hy as [Hy|[Ha Hy]]; [by apply H1|].
    destruct (a - length (ap_accounts p))%nat eqn:Ea; [|done]. injection Hy as <-.
    assert (forall kind, tally (at_account kind a) (ap_callers p) = 0) as Hz.
    { intros kind. pose proof (tally_nonneg (at_account kind a) (ap_callers p)).
      destruct (Z.eq_dec (tally (at_account kind a) (ap_callers p)) 0) as [|Hn]; [done|].
      destruct (tally_pos (at_account kind a) (ap_callers p) ltac:(lia)) as (i & ph & Hi & Hk).
      unfold at_account in Hk. apply andb_prop in Hk as [Hk%bool_decide_eq_true _]. pose proof (H5 i ph a Hi Hk). lia. }
    assert (updating_at a (ap_manager p) = false) as Hn.
    { unfold updating_at. apply bool_decide_eq_false. intros Hn. pose proof (H6 a Hn). lia. }
    split; rewrite ?Hz, ?Hn, ?Hg; cbn; lia || done.
  - intros i ph a Hi Ha. rewrite length_app. specialize (H5 i ph a Hi Ha). cbn. lia.
  - intros a Ha. rewrite length_app. specialize (H6 a Ha). cbn. lia.
Qed.

(** ** Steps *)

Lemma turn_grant o now pinned tried p a media : loads_ok (ap_accounts p) -> attempt_turn o now pinned tried p = Grant a media ->
  (a < length (ap_accounts p))%nat /\ forall x, ap_accounts p !! a = Some x ->
    if media then ac_mediaBusy x < op_PerAccountDownloadConcurrency o
    else ac_busy x < op_PerAccountConcurrency o /\ ac_updating x = false.
Proof.
  intros Hl. unfold attempt_turn. destruct (ap_closed p); [done|]. destruct (_ && (_ || _)); [done|]. case_bool_decide; [done|].
  destruct (negb _).
  - destruct (byID pinned _) as [b|] eqn:Eb; [|done]. destruct (ap_accounts p !! b) as [x|] eqn:Ex; [|done].
    destruct (Z.ltb_spec (ac_mediaBusy x) (op_PerAccountDownloadConcurrency o)); [|done]. intros [= <- <-].
    split; [by eapply lookup_lt_Some|]. intros y Hy. congruence.
  - fold (rotation o p). rewrite scan_rotation by done. destruct (lightest _ _ _ _ _) as [b|] eqn:Ec; [|by destruct (existsb _ _)].
    intros Hg. assert (a = b /\ media = false) as [-> ->] by (by destruct (existsb _ _); simplify_eq). apply lightest_sound in Ec as (Hb & x & Hx & _ & _ & _ & Hu & Hc).
    split; [by eapply lookup_lt_Some|]. cbn [fst snd]. intros y Hy. replace y with x by congruence. done.
Qed.

Lemma acquire_books o i now ctxErr pinned queued j p : books o p -> ap_callers p !! i = Some (Acquiring pinned queued j) ->
  books o (acquire o i now ctxErr pinned queued j p).
Proof.
  intros H Hi. unfold acquire. assert (0 <= ap_queued p - b2z queued) as Hq.
  { rewrite (bk_queued _ _ H). destruct queued; cbn; [|pose proof (tally_nonneg is_queued (ap_callers p)); lia].
    pose proof (tally_lookup is_queued _ _ _ Hi eq_refl). lia. }
  pose proof (bk_queue _ _ H) as Hm.
  assert (forall r, books o (move i (Returned r) (if queued then -1 else 0) 0 p)) as Hr.
  { intros r. eapply (books_stay o p i _ _ _ _ H Hi); try done; destruct queued; cbn; lia. }
  destruct ctxErr as [e|]; [apply Hr|]. destruct (attempt_turn _ _ _ _ _) as [a media|f|] eqn:Ea; [|apply Hr|].
  - destruct (turn_grant _ _ _ _ _ _ _ (books_loads _ _ H) Ea) as [Hlt Hx]. destruct media.
    + eapply (account_books_move _ _ _ _ _ a _ _ _ H Hi); try done; [by left|by right| |destruct queued; done|destruct queued; cbn; lia].
      intros x Ex _. specialize (Hx x Ex). cbn. repeat split; intros; lia.
    + set (p1 := set_next _ _). change (books o (move i (Leased a false (mkJob (a :: jb_tried j) (jb_attempt j) (jb_last j))) (if queued then -1 else 0) 0 p1)).
      eapply (books_frame o (move i (Leased a false (mkJob (a :: jb_tried j) (jb_attempt j) (jb_last j))) (if queued then -1 else 0) 0
        (on a (fun x => set_counts (ac_busy x + 1) (ac_mediaBusy x) x) p))); [done|].
      eapply (account_books_move _ _ _ _ _ a _ _ _ H Hi); try done; [by left|by right| |destruct queued; done|destruct queued; cbn; lia].
      intros x Ex _. specialize (Hx x Ex). cbn. repeat split; intros; lia.
  - destruct queued; [done|]. destruct (Z.leb_spec (op_MaxQueuedRequests o) (ap_queued p)).
    + eapply (books_stay o p i _ _ _ _ H Hi); try done. cbn. lia.
    + eapply (books_stay o p i _ _ _ _ H Hi); try done. cbn. lia.
Qed.

(** Settles a move that leaves the accounts alone, and one that adjusts the
    account of the request. *)
Ltac stay := eapply books_stay; [eassumption|eassumption|reflexivity|reflexivity|reflexivity|reflexivity|cbn; lia|reflexivity].
Ltac adjust H Hi a := eapply (account_books_move _ _ _ _ _ a _ _ _ H Hi);
  [solve [by left|by right]|solve [by left|by right]|intros _; eapply (bk_target _ _ H); [exact Hi|reflexivity]|cbn|reflexivity|cbn; lia|reflexivity].

Lemma gate_of_free p a x : gate_of p a = false -> ap_accounts p !! a = Some x -> ac_gate x = false.
Proof. unfold gate_of. intros Hg Hx. by rewrite Hx in Hg. Qed.

Lemma conclude_target o ctxErr saved a v j : target (conclude o ctxErr saved a v j) = None /\ is_queued (conclude o ctxErr saved a v j) = false.
Proof. unfold conclude. destruct saved as [s|], v as [d [e|]], ctxErr; cbn; try done. destruct (negb _); [done|]. by destruct (_ <? _). Qed.

Lemma after_renew_stays now a rejected err j : let ph := after_renew now a rejected err j in
  target ph = Some a /\ is_download ph = false /\ is_gated ph = false /\ is_queued ph = false /\ is_writing ph = false.
Proof. destruct err as [f|]; cbn; [|done]. by destruct (interrupted f). Qed.

(** The gate is released by the request that holds it. *)
Lemma end_renew_books o p i now ph0 a rejected err j : books o p -> ap_callers p !! i = Some ph0 ->
  target ph0 = Some a -> is_gated ph0 = true -> is_queued ph0 = false -> is_writing ph0 = false -> is_download ph0 = false ->
  books o (end_renew i now a rejected err j p).
Proof.
  intros H Hi Ht Hg Hq Hw Hd. destruct (after_renew_stays now a rejected err j) as (E1 & E2 & E3 & E4 & E5).
  unfold end_renew. eapply (account_books_move _ _ _ ph0); try done; try (by right); rewrite ?E1, ?E2, ?E3, ?E4, ?E5, ?Hg, ?Hq, ?Hw, ?Hd; try done.
  - intros _. by eapply (bk_target _ _ H i ph0).
  - intros x Hx Hgx. unfold is_metadata. rewrite E1, E2, Ht, Hd. cbn. rewrite (Hgx eq_refl). cbn. repeat split; auto; lia.
  - cbn. pose proof (bk_queue _ _ H). lia.
Qed.

(** Writing an account's other fields disturbs nothing. *)
Definition same_load (f : account -> account) : Prop := forall x,
  ac_busy (f x) = ac_busy x /\ ac_mediaBusy (f x) = ac_mediaBusy x /\ ac_gate (f x) = ac_gate x /\ ac_updating (f x) = ac_updating x.

Lemma on_books o p a f : books o p -> same_load f -> books o (on a f p).
Proof.
  intros [H1 H2 H3 H4 H5 H6] Hf.
  assert (length (alter f a (ap_accounts p)) = length (ap_accounts p)) as Hlen by apply length_alter.
  split; cbn [on set_accounts ap_accounts ap_callers ap_manager ap_queued ap_pendingHealthWrites]; try done; rewrite ?Hlen; try done.
  intros b x' Hx'. destruct (decide (b = a)) as [->|Hne].
  - rewrite list_lookup_alter_eq in Hx'. destruct (ap_accounts p !! a) as [x|] eqn:Ex; [|done]. injection Hx' as <-.
    destruct (H1 a x Ex) as [E1 E2 E3 E4 E5 E6]. destruct (Hf x) as (F1 & F2 & F3 & F4). split; by rewrite ?F1, ?F2, ?F3, ?F4.
  - rewrite list_lookup_alter_ne in Hx' by done. auto.
Qed.

Lemma end_login_books o p i now ctxErr ph0 a rejected err j : books o p -> ap_callers p !! i = Some ph0 ->
  target ph0 = Some a -> is_gated ph0 = true -> is_queued ph0 = false -> is_writing ph0 = false -> is_download ph0 = false ->
  books o (end_login i now ctxErr a rejected err j p).
Proof.
  intros H Hi. unfold end_login. apply end_renew_books; [|exact Hi]. apply on_books; [done|].
  intros x. unfold refreshed. by destruct (_ && _).
Qed.

Definition request_step (x : action) : bool :=
  match x with Update _ | UpdateStep _ _ _ _ _ | AddStored _ _ | Close => false | _ => true end.

Lemma apply_books o p i now a guard v j : books o p -> ap_callers p !! i = Some (Applying a guard v j) -> books o (step o (Apply i now) p).
Proof.
  intros H Hi. pose proof (bk_queue _ _ H) as Hm. cbn [step]. rewrite Hi. destruct (ap_accounts p !! a) as [y|] eqn:Ey; [|done].
  pose proof (surjective_pairing (judge now v.1 y)) as E. pose proof (surjective_pairing (judge now v.1 y).1) as E'. rewrite E, E'.
  destruct (_ && _).
  - adjust H Hi a. intros x Hx _. replace x with y by congruence. repeat split; auto; cbn; lia.
  - adjust H Hi a. intros x Hx _. replace x with y by congruence. repeat split; auto; cbn; lia.
Qed.

(** [account_books_move] and [books_stay] after a change of the store. *)
Lemma flush_move_books o p i ph0 ph dq dw written doubtful :
  books o p -> ap_callers p !! i = Some ph0 ->
  (forall p', books o p' -> ap_callers p' !! i = Some ph0 -> ap_queued p' = ap_queued p -> books o (move i ph dq dw p')) ->
  books o (move i ph dq dw (flush written doubtful p).2).
Proof.
  intros H Hi Hm. pose proof (flush_frame written doubtful p) as Hf. apply Hm; [by eapply books_frame|by rewrite (proj1 (proj2 Hf))|apply Hf].
Qed.

Lemma request_books o x p : books o p -> request_step x = true -> books o (step o x p).
Proof.
  intros H Hx. pose proof (bk_queue _ _ H) as Hm.
  destruct x as [i m w d|i m|i now e|i|i now|i d e|i|i now e|i now|i now e r|i now e ef ok|i now e|i|i now|i|i w d|i|i|i e se|i| | | |]; try done;
    cbn [step]; (destruct (ap_callers p !! i) as [ph|] eqn:Hi; [|done]);
    destruct ph as [|pin q j|a|a rn j|a au rn j|a au rn j|a re j|a re j|a re j|a re au j|a au j|a v j|a g v j|a g rs un v j|a g v j|a g sv v j|a g sv v j|a sv v j|r0];
    try done.
  - destruct (negb _); [stay|]. destruct (op_Store o); [|stay].
    rewrite (surjective_pairing (flush w d p)). destruct (flush w d p).1; (eapply flush_move_books; [exact H|exact Hi|]; intros p' H' Hi' Hq'; stay).
  - destruct (negb _); stay.
  - by apply acquire_books.
  - destruct (ap_accounts p !! a) as [y|]; [stay|done].
  - destruct (ap_accounts p !! a) as [y|]; [|done]. destruct (accountUnavailable now y); [stay|].
    destruct (_ && _); [destruct (ac_login y)|]; stay.
  - destruct (ap_accounts p !! a) as [y|]; [|done]. destruct (_ && ac_login y); stay.
  - destruct (gate_of p a) eqn:Hg; [done|]. adjust H Hi a. intros x Ex _. rewrite (gate_of_free _ _ _ Hg Ex). repeat split; auto; cbn; lia.
  - destruct (after_renew_stays now a re (Some (plain e)) j) as (E1 & E2 & E3 & E4 & E5).
    eapply books_stay; [exact H|exact Hi|..]; rewrite ?E1, ?E2, ?E3, ?E4, ?E5; cbn; lia || done.
  - destruct (ap_accounts p !! a) as [y|]; [|done]. destruct (refresh_check now re y); [by eapply end_renew_books|stay].
  - destruct r as [[[] au]|f]; [destruct (op_Store o); stay|by eapply end_login_books|by eapply end_login_books].
  - set (r := if ef then _ else _). rewrite (surjective_pairing r). assert (frame p r.2) as Hf by (unfold r; destruct ef; [apply save_session_frame|done]).
    pose proof (books_frame _ _ _ Hf H) as H'. rewrite <- (proj1 (proj2 Hf)) in Hi. pose proof (bk_queue _ _ H').
    destruct (r.1 && ok); [stay|by eapply end_login_books].
  - eapply end_login_books; [apply on_books; [exact H|by intros x]|exact Hi|done..].
  - destruct (ds_disable _ || _); [|stay]. destruct (gate_of p a) eqn:Hg; [done|].
    adjust H Hi a. intros x Ex _. rewrite (gate_of_free _ _ _ Hg Ex). repeat split; auto; cbn; lia.
  - pose proof (apply_books o p i now a g v j H Hi) as Ha. cbn [step] in Ha. by rewrite Hi in Ha.
  - assert (books o (mark (id_of p a) rs un p)) as H' by (eapply books_frame; [apply mark_frame|done]).
    assert (ap_callers (mark (id_of p a) rs un p) !! i = Some (Marking a g rs un v j)) as Hi' by (rewrite <- Hi; f_equal; apply mark_frame).
    pose proof (bk_queue _ _ H'). stay.
  - rewrite (surjective_pairing (flush w d p)). eapply flush_move_books; [exact H|exact Hi|]. intros p' H' Hi' Hq'. stay.
  - stay.
  - destruct g; [|stay]. adjust H Hi a. intros x Ex Hg. rewrite (Hg eq_refl). repeat split; auto; cbn; lia.
  - destruct (_ && gate_of p a); [done|]. set (c := conclude _ _ _ _ _ _). pose proof (conclude_target o e (if negb sv then Some dbFailure else if op_Store o then se else None) (id_of p a) v j) as [E1 E2]. fold c in E1, E2.
    assert (is_writing c = false) as E3 by (by destruct c). destruct (kinds_none c E1) as (E4 & E5 & E6).
    eapply (account_books_move _ _ _ _ _ a _ _ _ H Hi); [by right|by left|by rewrite E1| |by rewrite E2|cbn; lia|by rewrite E3].
    intros x Ex _. rewrite E4, E5, E6. cbn. repeat split; intros; lia.
  - adjust H Hi a. intros x Ex _. repeat split; intros; cbn; lia.
Qed.

(** The manager goes on with the accounts as they are. *)
Lemma manage_books o p u dw : books o p -> updates u = updates (ap_manager p) -> update_gated u = update_gated (ap_manager p) ->
  dw = b2z (update_writing u) - b2z (update_writing (ap_manager p)) -> books o (manage u dw p).
Proof.
  intros H Hu Hg Hw. pose (a := default 0%nat (updates (ap_manager p))). rewrite <- (on_id a p).
  assert (gone_or_at (updates (ap_manager p)) a) as Ha by (unfold gone_or_at, a; destruct (updates (ap_manager p)); auto).
  eapply books_manage; [done|done|by rewrite Hu| | |done].
  - rewrite Hu. apply (bk_updates _ _ H).
  - intros x Hx _. split; [done|]. split; [done|]. split; [rewrite Hg; lia|]. cbn. rewrite (eb_updating _ _ _ _ _ (bk_accounts _ _ H a x Hx)).
    unfold updating_at. by rewrite Hu.
Qed.

(** The manager at [a] writes fields of its account. *)
Lemma manage_on_books o p u a f dw : books o p -> updates (ap_manager p) = Some a -> updates u = Some a -> same_load f ->
  update_gated u = update_gated (ap_manager p) -> dw = b2z (update_writing u) - b2z (update_writing (ap_manager p)) ->
  books o (manage u dw (on a f p)).
Proof.
  intros H H1 H2 Hf Hg Hw. apply manage_books; [by apply on_books|cbn; congruence|done|done].
Qed.

Lemma update_books o p now w d proceed result : books o p -> books o (step o (UpdateStep now w d proceed result) p).
Proof.
  intros H. cbn [step]. destruct (ap_manager p) as [|a|a|a|a|a|a u|a|a|a au|a au|a g] eqn:Em; [done|..].
  - destruct (ap_accounts p !! a) as [y|]; [|done]. destruct (negb _); [apply manage_books; by rewrite ?Em|].
    destruct (_ || _); [done|apply manage_books; by rewrite ?Em].
  - destruct (negb _); [apply manage_books; by rewrite ?Em|]. rewrite (surjective_pairing (flush w d p)).
    pose proof (flush_frame w d p) as Hf. destruct (flush w d p).1; apply manage_books; try (by eapply books_frame); by rewrite (proj1 (proj2 (proj2 Hf))), Em.
  - destruct (negb _); [apply manage_books; by rewrite ?Em|]. destruct (gate_of p a) eqn:Hg; [done|].
    eapply (books_manage _ _ _ a); [done|right; by rewrite Em|by right| | |by rewrite Em].
    + intros _. apply (bk_updates _ _ H). by rewrite Em.
    + intros x Hx _. rewrite Em. cbn. rewrite (gate_of_free _ _ _ Hg Hx). rewrite (eb_updating _ _ _ _ _ (bk_accounts _ _ H a x Hx)), Em. done.
  - destruct (ap_accounts p !! a) as [y|]; [|done]. destruct proceed; [destruct (now <? _); apply manage_books; by rewrite ?Em|].
    destruct result; [apply manage_on_books; by rewrite ?Em|apply manage_books; by rewrite ?Em].
  - destruct (ap_accounts p !! a) as [y|]; [|done]. destruct result as [au|f]; [apply manage_books; by rewrite ?Em|].
    destruct (0 <? _); [apply manage_on_books; by rewrite ?Em|apply manage_books; by rewrite ?Em].
  - pose proof (mark_frame (id_of p a) "" (Some u) p) as Hf. apply manage_books; [by eapply books_frame|..]; by rewrite (proj1 (proj2 (proj2 Hf))), Em.
  - rewrite (surjective_pairing (flush w d p)). pose proof (flush_frame w d p) as Hf.
    apply manage_books; [by eapply books_frame|..]; by rewrite (proj1 (proj2 (proj2 Hf))), Em.
  - apply manage_books; by rewrite ?Em.
  - set (r := if proceed then _ else _). rewrite (surjective_pairing r).
    assert (frame p r.2) as Hf by (unfold r; destruct proceed; [apply replace_session_frame|done]).
    destruct (match result with Ok _ => r.1 | Err _ => false end); apply manage_books; try (by eapply books_frame); by rewrite (proj1 (proj2 (proj2 Hf))), Em.
  - apply manage_on_books; by rewrite ?Em.
  - destruct g.
    + eapply (books_manage _ _ _ a); [done|right; by rewrite Em|by right| | |by rewrite Em].
      * intros _. apply (bk_updates _ _ H). by rewrite Em.
      * intros x Hx Hg. rewrite Em in *. cbn. rewrite (Hg eq_refl). rewrite (eb_updating _ _ _ _ _ (bk_accounts _ _ H a x Hx)), Em. done.
    + eapply (books_manage _ _ _ a); [done|right; by rewrite Em|by left|done| |by rewrite Em].
      intros x Hx _. rewrite Em. cbn. repeat split; lia.
Qed.

Lemma step_books o x p : 0 <= op_PerAccountConcurrency o -> 0 <= op_PerAccountDownloadConcurrency o -> books o p -> books o (step o x p).
Proof.
  intros Hc Hd H. destruct (request_step x) eqn:Ex; [by apply request_books|]. destruct x as [| | | | | | | | | | | | | | | | | | | |a|now w d pr r|y r|]; try done.
  - cbn [step]. destruct (ap_manager p) eqn:Em; try done. destruct (ap_accounts p !! a) as [y|] eqn:Ey; [|done]. destruct (op_Store o); [|done].
    eapply (books_manage _ _ _ a); [done|left; by rewrite Em|by right| | |by rewrite Em].
    + intros _. by eapply lookup_lt_Some.
    + intros x Hx _. rewrite Em. cbn. split; [done|]. split; [done|]. split; [lia|]. unfold updating_at. cbn. by rewrite bool_decide_true.
  - by apply update_books.
  - cbn [step]. destruct (_ || _); [done|]. set (q := set_store _ _ _ _ p). apply (books_add o q); try done. by apply (books_frame o p).
  - by apply (books_frame o p).
Qed.

Lemma run_books o xs p : 0 <= op_PerAccountConcurrency o -> 0 <= op_PerAccountDownloadConcurrency o -> books o p -> books o (run o xs p).
Proof.
  intros Hc Hd. unfold run. revert p. induction xs as [|x xs IH]; intros p H; cbn [fold_left]; [done|]. by apply IH, step_books.
Qed.

Definition limits_ok (o : Options) : Prop :=
  0 <= op_PerAccountConcurrency o /\ 0 <= op_PerAccountDownloadConcurrency o /\ 0 <= op_MaxQueuedRequests o.

Lemma unopened_books o n : 0 <= op_MaxQueuedRequests o -> books o (unopened n).
Proof.
  intros Hq. split; cbn; try done; rewrite ?tally_replicate by done; try done.
  intros i ph a Hi Ht. apply lookup_replicate in Hi as [-> _]. done.
Qed.

(** What a grant of metadata says of the pool and the account. *)
Lemma metadata_granted o now tried p a : books o p -> attempt_turn o now "" tried p = Grant a false ->
  ap_pendingHealthWrites p <= 0 /\ op_Store o && st_dirty p = false /\
  exists x, ap_accounts p !! a = Some x /\ ac_disabled x = false /\ ac_cooldown x <= now /\ ac_updating x = false.
Proof.
  intros Hb. unfold attempt_turn. destruct (ap_closed p); [done|]. cbn [String.eqb andb negb].
  destruct (Z.ltb_spec 0 (ap_pendingHealthWrites p)); [done|]. cbn [orb]. destruct (_ && st_dirty p); [done|]. case_bool_decide; [done|].
  fold (rotation o p). rewrite scan_rotation by (by eapply books_loads). destruct (lightest _ _ _ _ _) as [b|] eqn:Ec; [|by destruct (existsb _ _)].
  intros Hg. assert (b = a) as -> by (by destruct (existsb _ _); simplify_eq).
  apply lightest_sound in Ec as (_ & x & Hx & ? & ? & _ & ? & _). eauto 8.
Qed.

(** ** The theorems *)

(** C34. Whatever order requests, replies, renewals, imports and the end of
    contexts come in, every account counts exactly the metadata requests and
    the downloads at it, and never more than its capacities; the queue holds as
    many requests as wait, and no more than its bound; the health writes that
    block admission are those in flight; and at most one request, or the
    manager, holds an account's refresh gate, so at most one login runs. *)
Theorem account_capacity o n xs : limits_ok o ->
  let p := run o xs (unopened n) in
  books o p /\
  forall a x i phi, ap_accounts p !! a = Some x -> ap_callers p !! i = Some phi -> at_account is_gated a phi = true ->
    ac_gate x = true /\ (updates (ap_manager p) = Some a -> update_gated (ap_manager p) = false) /\
    forall k phk, ap_callers p !! k = Some phk -> at_account is_gated a phk = true -> i = k.
Proof.
  intros (Hc & Hd & Hq) p. assert (books o p) as H by (by apply run_books, unopened_books). split; [done|].
  intros a x i phi Hx Hi Hg. pose proof (eb_gate _ _ _ _ _ (bk_accounts _ _ H a x Hx)) as He.
  pose proof (tally_lookup _ _ _ _ Hi Hg) as Hl. assert (b2z (ac_gate x) <= 1) by (destruct (ac_gate x); cbn; lia).
  assert (0 <= b2z (updating_at a (ap_manager p) && update_gated (ap_manager p))) by (destruct (_ && _); cbn; lia).
  split; [destruct (ac_gate x); [done|cbn in *; lia]|]. split.
  - intros Hu. unfold updating_at in He. rewrite Hu, bool_decide_true in He by done. destruct (update_gated _); [cbn in He; lia|done].
  - intros k phk Hk Hgk. by apply (tally_unique (at_account is_gated a) (ap_callers p) i k phi phk); [lia|..].
Qed.

(** The scan that [acquire] makes for metadata is the choice of a reference:
    it looks, from the account after the last one granted, at a full turn of the
    accounts up to the one that is the N-th not dead, and takes the first
    account that is usable and has room such that no other such account is
    lighter; it waits when some account would do but has no room, and refuses
    when none would do. Stopping early at an idle account changes nothing. *)
Theorem account_selection o now tried p : books o p -> ap_closed p = false -> ap_pendingHealthWrites p = 0 ->
  op_Store o && st_dirty p = false -> ap_accounts p <> [] ->
  let l := ap_accounts p in
  attempt_turn o now "" tried p =
    match lightest o now tried l (rotation o p) with
    | Some a => Grant a false
    | None => if existsb (usable now tried l) (rotation o p) then Wait else Refuse noneAvailable
    end /\
  (forall i, i ∈ rotation o p <-> (i < length l)%nat /\ (0 < op_ActiveAccounts o -> tally live (take i l) < op_ActiveAccounts o)) /\
  exists k, rotation o p = seq k (length (rotation o p) - k) ++ seq 0 k /\ (ap_next p < length (rotation o p) -> k = ap_next p)%nat.
Proof.
  intros H Hcl Hw Hs Hn l. split; [|split].
  - unfold attempt_turn. rewrite Hcl, Hw, Hs. cbn [String.eqb Z.ltb Z.compare orb andb negb]. rewrite bool_decide_false by done.
    fold (rotation o p). rewrite scan_rotation by (by eapply books_loads). fold l.
    destruct (lightest _ _ _ _ _); [by destruct (existsb _ _)|]. by destruct (existsb _ _).
  - intros i. unfold rotation. rewrite scan_order_elem. unfold eligibleEnd. fold l. destruct (Z.ltb_spec 0 (op_ActiveAccounts o)).
    + rewrite eligible_end_spec by lia. tauto.
    + split; [split; [done|lia]|by intros [? _]].
  - unfold rotation. set (last := eligibleEnd o (ap_accounts p)). assert (length (scan_order (ap_next p) last) = last) as -> by
      (unfold scan_order; by rewrite length_fmap, length_seq).
    destruct (decide (last = 0)%nat) as [->|]; [exists 0%nat; split; [done|lia]|].
    exists (ap_next p mod last)%nat. split; [apply scan_order_rotation; lia|]. intros Hlt. by apply Nat.mod_small.
Qed.

(** Two accounts are loaded; two requests and a download are leased, a third
    request waits. *)
Definition demo_options : Options := mkOptions 2 1 1 4 3 true.
Definition demo_account (id auth : string) (login : bool) : account :=
  mkAccount id auth login false "" zeroTime 0 0 false false zeroTime None.
Definition demo_row (auth : string) : row := mkRow auth false zeroTime.
Definition demo_load : list action :=
  [AddStored (demo_account "instagram:1" "s1" true) (demo_row "s1"); AddStored (demo_account "instagram:2" "s2" false) (demo_row "s2")].
Definition demo_run : list action :=
  demo_load ++ [Enter 0 "17" None []; Turn 0 5 None; EnterMedia 1 "instagram:1"; Turn 1 6 None; Enter 2 "18" None []; Turn 2 7 None;
                Enter 3 "19" None []; Turn 3 8 None].

Example account_capacity_witness : limits_ok demo_options /\ books demo_options (run demo_options demo_run (unopened 4)) /\
  map target (ap_callers (run demo_options demo_run (unopened 4))) = [Some 0%nat; Some 0%nat; Some 1%nat; None] /\
  ap_queued (run demo_options demo_run (unopened 4)) = 1.
Proof.
  assert (limits_ok demo_options) as H by (split; [|split]; vm_compute; discriminate).
  split; [exact H|]. split; [apply (account_capacity demo_options 4 demo_run H)|]. split; vm_compute; reflexivity.
Defined.

Example account_selection_witness :
  let p := run demo_options (firstn 4 demo_run) (unopened 4) in attempt_turn demo_options 9 "" [] p = Grant 1%nat false.
Proof.
  intros p. assert (books demo_options p) as H by (apply run_books; [vm_compute; discriminate..|]; apply unopened_books; vm_compute; discriminate).
  rewrite (proj1 (account_selection demo_options 9 [] p H eq_refl eq_refl eq_refl ltac:(vm_compute; discriminate))). vm_compute. reflexivity.
Defined.
