(* ===== verification/AccountHealth.v ===== *)
(** * instagramapp: the health of accounts and their rows

    The theorems on the health checkpoints of Accounts.v: whatever order
    responses, renewals, replacements and failing database statements come in,
    the pool and the database agree on every account the pool may lease. *)
From S2P Require Import Prelude Strconv Errors Accounts AccountLease.
From stdpp Require Import gmap.
Open Scope Z_scope.
Open Scope go_scope.

(** ** What is yet to be saved *)

(** A request that is about to record the death of [a], or a cooldown of at
    least [u]. *)
Definition condemns (a : nat) (ph : phase) : Prop :=
  match ph with Marking b _ reason _ _ _ => b = a /\ reason <> "" | _ => False end.
Definition postpones (a : nat) (u : Z) (ph : phase) : Prop :=
  match ph with Marking b _ _ (Some u') _ _ => b = a /\ u <= u' | _ => False end.

Definition requested (callers : list phase) (P : phase -> Prop) : Prop := exists i ph, callers !! i = Some ph /\ P ph.

(** Only downloads are at account [a]. *)
Definition quiet (a : nat) (callers : list phase) : Prop :=
  forall i ph, callers !! i = Some ph -> target ph = Some a -> is_download ph = true.

Section Health.
(** The accounts that may be dead in memory only. *)
Context (unrecorded : nat -> Prop).

Record entry_agrees (p : Pool) (a : nat) (x : account) (r : row) : Prop := {
  ea_dead : rw_dead r = true -> ac_disabled x = true;
  ea_pending : is_Some (st_pending p !! ac_id x) -> ac_disabled x = true;
  ea_saved : ac_disabled x = true -> ~ unrecorded a ->
    rw_dead r = true \/ is_Some (st_pending p !! ac_id x) \/ requested (ap_callers p) (condemns a) \/ (exists auth, ap_manager p = UReplaced a auth);
  ea_zero : zeroTime <= rw_cooldown r <= ac_cooldown x;
  ea_cooldown u : st_pendingCooldowns p !! ac_id x = Some u -> u <= ac_cooldown x;
  ea_until : ac_cooldown x <= rw_cooldown r \/ (exists u, st_pendingCooldowns p !! ac_id x = Some u /\ ac_cooldown x <= u) \/
    requested (ap_callers p) (postpones a (ac_cooldown x)) \/ (exists u, ap_manager p = UMarking a u /\ ac_cooldown x <= u);
}.

Definition verdict_ok (d : disposition) : Prop := ds_disable d = true -> ds_deadReason d <> "".

(** A health write is of a verdict that was applied. *)
Definition phase_ok (p : Pool) (ph : phase) : Prop :=
  match ph with
  | Judging _ v _ => verdict_ok v.1
  | Applying _ guard v _ => verdict_ok v.1 /\ (ds_disable v.1 || (0 <? ds_cooldown v.1) = true -> guard = true)
  | Marking a guard reason until _ _ => guard = true /\ forall x, ap_accounts p !! a = Some x ->
      (reason <> "" -> ac_disabled x = true) /\ (forall u, until = Some u -> zeroTime < u <= ac_cooldown x)
  | _ => True
  end.

Definition drained (u : update) : option nat :=
  match u with UIdle | UDraining _ | UFinishing _ _ => None | _ => updates u end.
Definition flushed (u : update) : option nat := match u with UFlushing _ => None | _ => drained u end.

Record manager_ok (p : Pool) : Prop := {
  mo_quiet a : drained (ap_manager p) = Some a -> quiet a (ap_callers p);
  mo_pending a x : flushed (ap_manager p) = Some a -> ap_accounts p !! a = Some x -> st_pending p !! ac_id x = None;
  mo_until a u x : ap_manager p = UMarking a u -> ap_accounts p !! a = Some x -> u <= ac_cooldown x;
  mo_revived a auth x r : ap_manager p = UReplaced a auth -> ap_accounts p !! a = Some x -> st_rows p !! ac_id x = Some r -> rw_dead r = false;
}.

Record agrees (o : Options) (p : Pool) : Prop := {
  ag_books : books o p;
  ag_ids a b x y : ap_accounts p !! a = Some x -> ap_accounts p !! b = Some y -> ac_id x = ac_id y -> a = b;
  ag_clean : st_dirty p = false -> st_pending p = ∅ /\ st_pendingCooldowns p = ∅;
  ag_known id : (forall a x, ap_accounts p !! a = Some x -> ac_id x <> id) ->
    st_rows p !! id = None /\ st_pending p !! id = None /\ st_pendingCooldowns p !! id = None;
  ag_entry a x : ap_accounts p !! a = Some x -> exists r, st_rows p !! ac_id x = Some r /\ entry_agrees p a x r;
  ag_phase i ph : ap_callers p !! i = Some ph -> phase_ok p ph;
  ag_manager : manager_ok p;
}.

(** ** Moves *)

Definition same_health (f : account -> account) (x : account) : Prop :=
  ac_id (f x) = ac_id x /\ ac_disabled (f x) = ac_disabled x /\ ac_cooldown (f x) = ac_cooldown x.

Definition is_marking (ph : phase) : bool := match ph with Marking _ _ _ _ _ _ => true | _ => false end.

Lemma requested_insert callers i ph0 ph (P : phase -> Prop) : callers !! i = Some ph0 -> ~ P ph0 -> requested callers P -> requested (<[i := ph]> callers) P.
Proof.
  intros Hi Hn (k & ph' & Hk & HP). exists k, ph'. split; [|done].
  rewrite list_lookup_insert_ne; [done|]. intros ->. congruence.
Qed.

Lemma unmarked_neither a u ph : is_marking ph = false -> ~ condemns a ph /\ ~ postpones a u ph.
Proof. destruct ph; cbn; try tauto; done. Qed.

Lemma lookup_insert_cases {A} (l : list A) i x k y : <[i := x]> l !! k = Some y -> y = x \/ l !! k = Some y.
Proof.
  intros H. apply list_lookup_insert_Some in H as [(_ & -> & _)|[_ H]]; auto.
Qed.

(** Accounts after an adjustment that keeps health. *)
Lemma on_lookup p a f b x' : ap_accounts (on a f p) !! b = Some x' ->
  (b <> a /\ ap_accounts p !! b = Some x') \/ (b = a /\ exists x, ap_accounts p !! a = Some x /\ x' = f x).
Proof.
  unfold on. cbn. intros H. destruct (decide (b = a)) as [->|Hne].
  - rewrite list_lookup_alter_eq in H. destruct (ap_accounts p !! a) as [x|]; [|done]. injection H as <-. right. eauto.
  - rewrite list_lookup_alter_ne in H by done. auto.
Qed.

Lemma on_lookup_health p a f b x' : (forall x, ap_accounts p !! a = Some x -> same_health f x) -> ap_accounts (on a f p) !! b = Some x' ->
  exists x, ap_accounts p !! b = Some x /\ ac_id x' = ac_id x /\ ac_disabled x' = ac_disabled x /\ ac_cooldown x' = ac_cooldown x.
Proof.
  intros Hf [[Hne H]|[-> (x & Hx & ->)]]%on_lookup; [exists x'; done|]. exists x. split; [done|]. by apply Hf.
Qed.

Lemma on_lookup_back p a f b x : ap_accounts p !! b = Some x -> exists x', ap_accounts (on a f p) !! b = Some x' /\ (x' = x \/ (b = a /\ x' = f x)).
Proof.
  intros Hx. unfold on. cbn. destruct (decide (b = a)) as [->|Hne].
  - rewrite list_lookup_alter_eq, Hx. cbn. eauto.
  - rewrite list_lookup_alter_ne by done. eauto.
Qed.

(** ** Steps that leave health alone *)

Definition same_store (p p' : Pool) : Prop :=
  st_dirty p' = st_dirty p /\ st_pending p' = st_pending p /\ st_pendingCooldowns p' = st_pendingCooldowns p /\ st_rows p' = st_rows p.

(** The accounts stay, with their health. *)
Definition same_healths (p p' : Pool) : Prop :=
  (forall b x', ap_accounts p' !! b = Some x' -> exists x, ap_accounts p !! b = Some x /\ ac_id x' = ac_id x /\
     ac_disabled x' = ac_disabled x /\ ac_cooldown x' = ac_cooldown x) /\
  (forall b x, ap_accounts p !! b = Some x -> exists x', ap_accounts p' !! b = Some x' /\ ac_id x' = ac_id x).

Lemma same_healths_on p a f : (forall x, ap_accounts p !! a = Some x -> same_health f x) -> same_healths p (on a f p).
Proof.
  intros Hf. split; [by intros; eapply on_lookup_health|]. intros b x Hx.
  destruct (on_lookup_back p a f b x Hx) as (x' & Hx' & [->|[-> ->]]); eexists; (split; [exact Hx'|]); [done|by apply Hf].
Qed.

Lemma phase_ok_view p p' ph : same_healths p p' -> phase_ok p ph -> phase_ok p' ph.
Proof.
  intros [Hh _]. destruct ph; try done. cbn. intros [Hg H]. split; [done|]. intros x' Hx'.
  destruct (Hh _ _ Hx') as (x & Hx & _ & E1 & E2). rewrite E1, E2. by apply H.
Qed.

Lemma entry_health p a x x' r : ac_id x' = ac_id x -> ac_disabled x' = ac_disabled x -> ac_cooldown x' = ac_cooldown x ->
  entry_agrees p a x r -> entry_agrees p a x' r.
Proof. intros E1 E2 E3 [A1 A2 A3 A4 A5 A6]. split; rewrite ?E1, ?E2, ?E3; done. Qed.

(** What is yet to be saved of [a] is still to be saved, or noted. *)
Record owes (p p' : Pool) (a : nat) (id : string) : Prop := {
  ow_dead : requested (ap_callers p) (condemns a) \/ (exists auth, ap_manager p = UReplaced a auth) ->
    is_Some (st_pending p !! id) \/ requested (ap_callers p') (condemns a) \/ (exists auth, ap_manager p' = UReplaced a auth);
  ow_until c : zeroTime < c -> requested (ap_callers p) (postpones a c) \/ (exists u, ap_manager p = UMarking a u /\ c <= u) ->
    (exists w, st_pendingCooldowns p !! id = Some w /\ c <= w) \/ requested (ap_callers p') (postpones a c) \/
    (exists u, ap_manager p' = UMarking a u /\ c <= u);
}.

Lemma entry_owes p p' a x r : same_store p p' -> owes p p' a (ac_id x) -> entry_agrees p a x r -> entry_agrees p' a x r.
Proof.
  intros (_ & S2 & S3 & S4) [Hd Hu] [A1 A2 A3 A4 A5 A6]. split; rewrite ?S2, ?S3; try done.
  - intros E Hu'. destruct (A3 E Hu') as [?|[?|?]]; [auto|auto|]. destruct (Hd ltac:(done)) as [?|[?|?]]; auto.
  - destruct (Z.le_gt_cases (ac_cooldown x) (rw_cooldown r)) as [|Hlt]; [auto|].
    destruct A6 as [?|[?|?]]; [auto|auto|]. destruct (Hu (ac_cooldown x) ltac:(lia) ltac:(done)) as [?|[?|?]]; auto.
Qed.

Lemma agrees_view o p p' : agrees o p -> books o p' -> same_healths p p' -> same_store p p' ->
  (forall a x, ap_accounts p !! a = Some x -> owes p p' a (ac_id x)) ->
  (forall i ph, ap_callers p' !! i = Some ph -> phase_ok p ph) ->
  manager_ok p' -> agrees o p'.
Proof.
  intros [H1 H2 H3 H4 H5 H6 H7] Hb Hh Hs Ho Hp Hm. pose proof Hh as [Hh1 Hh2]. pose proof Hs as (S1 & S2 & S3 & S4). split.
  - done.
  - intros a b x' y' Hx Hy He. destruct (Hh1 _ _ Hx) as (x & Hx0 & E1 & _), (Hh1 _ _ Hy) as (y & Hy0 & E2 & _).
    apply (H2 a b x y); congruence.
  - rewrite S1, S2, S3. done.
  - intros id Hid. rewrite S2, S3, S4. apply H4. intros a x Hx. destruct (Hh2 a x Hx) as (x' & Hx' & <-). by eapply Hid.
  - intros a x' Hx'. destruct (Hh1 _ _ Hx') as (x & Hx & E1 & E2 & E3). destruct (H5 a x Hx) as (r & Hr & Ha).
    exists r. rewrite S4, E1. split; [done|]. apply (entry_health _ _ x); [done..|]. by eapply entry_owes; [|apply Ho|].
  - intros i ph Hi. eapply phase_ok_view; [exact Hh|by eapply Hp].
  - done.
Qed.

(** A move of a request that is not marking owes as much. *)
Lemma owes_move p p' i ph0 ph a id : ap_callers p !! i = Some ph0 -> ap_callers p' = <[i := ph]> (ap_callers p) -> ap_manager p' = ap_manager p ->
  is_marking ph0 = false -> owes p p' a id.
Proof.
  intros Hi Hc Hm Hn. split; rewrite Hc, Hm.
  - intros [H|H]; [|auto]. right. left. by eapply requested_insert; [exact Hi|apply (unmarked_neither a 0)|].
  - intros c _ [H|H]; [|auto]. right. left. by eapply requested_insert; [exact Hi|apply unmarked_neither|].
Qed.

Lemma owes_manage p p' a id : ap_callers p' = ap_callers p -> (forall b auth, ap_manager p <> UReplaced b auth) ->
  (forall b u, ap_manager p <> UMarking b u) -> owes p p' a id.
Proof.
  intros Hc Hr Hu. split; rewrite Hc; [intros [H|[auth H]]|intros c _ [H|(u & H & _)]]; auto; [by destruct (Hr a auth)|by destruct (Hu a u)].
Qed.

(** Nobody arrives at an account being updated. *)
Definition arrives (p : Pool) (ph0 ph : phase) : Prop :=
  forall b, target ph = Some b -> is_download ph = false ->
    (target ph0 = Some b /\ is_download ph0 = false) \/ (forall x, ap_accounts p !! b = Some x -> ac_updating x = false).

Lemma drained_updates u a : drained u = Some a -> updates u = Some a.
Proof. by destruct u. Qed.

Lemma quiet_move o p i ph0 ph a : books o p -> ap_callers p !! i = Some ph0 -> arrives p ph0 ph -> drained (ap_manager p) = Some a ->
  quiet a (ap_callers p) -> quiet a (<[i := ph]> (ap_callers p)).
Proof.
  intros Hb Hi Ha Hd Hq k ph' Hk Ht. apply lookup_insert_cases in Hk as [->|Hk]; [|by eapply Hq].
  destruct (is_download ph) eqn:E; [done|]. destruct (Ha a Ht E) as [[H1 H2]|H].
  - rewrite (Hq i ph0 Hi H1) in H2. done.
  - apply drained_updates in Hd. destruct (lookup_lt_is_Some_2 _ _ (bk_updates _ _ Hb a Hd)) as [x Hx].
    specialize (H x Hx). rewrite (eb_updating _ _ _ _ _ (bk_accounts _ _ Hb a x Hx)) in H.
    unfold updating_at in H. by rewrite Hd, bool_decide_true in H.
Qed.

Lemma manager_ok_view p p' : manager_ok p -> same_healths p p' -> same_store p p' -> ap_manager p' = ap_manager p ->
  (forall a, drained (ap_manager p) = Some a -> quiet a (ap_callers p) -> quiet a (ap_callers p')) -> manager_ok p'.
Proof.
  intros [M1 M2 M3 M4] [Hh _] (S1 & S2 & S3 & S4) Hm Hq. split; rewrite Hm, ?S2, ?S4.
  - auto.
  - intros a x' Hf Hx'. destruct (Hh _ _ Hx') as (x & Hx & -> & _). eauto.
  - intros a u x' Hu Hx'. destruct (Hh _ _ Hx') as (x & Hx & _ & _ & ->). eauto.
  - intros a auth x' r Hu Hx'. destruct (Hh _ _ Hx') as (x & Hx & -> & _). eauto.
Qed.

(** Request [i] goes on; no health changes. *)
Lemma agrees_move o p i ph0 ph a f dq dw :
  agrees o p -> ap_callers p !! i = Some ph0 -> books o (move i ph dq dw (on a f p)) ->
  (forall x, ap_accounts p !! a = Some x -> same_health f x) ->
  is_marking ph0 = false -> phase_ok p ph -> arrives p ph0 ph ->
  agrees o (move i ph dq dw (on a f p)).
Proof.
  intros H Hi Hb Hf Hm0 Hp Ha. pose proof (same_healths_on p a f Hf) as Hh.
  eapply agrees_view; [exact H|done|exact Hh|done|..].
  - intros b x _. by eapply owes_move.
  - intros k ph' Hk. apply lookup_insert_cases in Hk as [->|Hk]; [done|by eapply (ag_phase _ _ H)].
  - eapply manager_ok_view; [apply (ag_manager _ _ H)|exact Hh|done|done|].
    intros b Hd Hq. exact (quiet_move o p i ph0 ph b (ag_books _ _ H) Hi Ha Hd Hq).
Qed.

Lemma agrees_stay o p i ph0 ph dq dw :
  agrees o p -> ap_callers p !! i = Some ph0 -> books o (move i ph dq dw p) ->
  is_marking ph0 = false -> phase_ok p ph -> arrives p ph0 ph -> agrees o (move i ph dq dw p).
Proof.
  intros H Hi Hb Hm Hp Ha. pose proof (agrees_move o p i ph0 ph 0 (fun x => x) dq dw H Hi) as Hg. rewrite on_id in Hg. by apply Hg.
Qed.

(** The manager goes on; no health changes. *)
Lemma agrees_manage o p u a f dw :
  agrees o p -> books o (manage u dw (on a f p)) -> (forall x, ap_accounts p !! a = Some x -> same_health f x) ->
  (forall b auth, ap_manager p <> UReplaced b auth) -> (forall b u, ap_manager p <> UMarking b u) ->
  manager_ok (manage u dw (on a f p)) -> agrees o (manage u dw (on a f p)).
Proof.
  intros H Hb Hf Hr Hu Hm. eapply agrees_view; [exact H|done|by apply same_healths_on|done| |apply (ag_phase _ _ H)|done].
  intros b x _. by apply owes_manage.
Qed.

(** ** Checkpoints *)

(** Only the store changes. *)
Lemma agrees_store o p dirty pending cooldowns rows :
  let p' := set_store dirty pending cooldowns rows p in
  agrees o p -> (dirty = false -> pending = ∅ /\ cooldowns = ∅) ->
  (forall id, (forall a x, ap_accounts p !! a = Some x -> ac_id x <> id) -> rows !! id = None /\ pending !! id = None /\ cooldowns !! id = None) ->
  (forall a x r, ap_accounts p !! a = Some x -> st_rows p !! ac_id x = Some r -> entry_agrees p a x r ->
     exists r', rows !! ac_id x = Some r' /\ entry_agrees p' a x r') ->
  (forall a x, flushed (ap_manager p) = Some a -> ap_accounts p !! a = Some x -> st_pending p !! ac_id x = None -> pending !! ac_id x = None) ->
  (forall a auth x r r', ap_manager p = UReplaced a auth -> ap_accounts p !! a = Some x -> st_rows p !! ac_id x = Some r ->
     st_pending p !! ac_id x = None -> rw_dead r = false -> rows !! ac_id x = Some r' -> rw_dead r' = false) ->
  agrees o p'.
Proof.
  intros p' [H1 H2 H3 H4 H5 H6 H7] Hc Hk He Hp Hr. pose proof H7 as [M1 M2 M3 M4]. split; try done.
  - by apply (books_frame o p).
  - intros a x Hx. destruct (H5 a x Hx) as (r & Hr0 & Hr1). by eapply He.
  - split; [done| |done|].
    + intros a x Hf Hx. by apply (Hp a); [| |apply (M2 a)].
    + intros a auth x r' Hu Hx Hr'. destruct (H5 a x Hx) as (r & Hr0 & _). eapply (Hr a auth x r r'); try done; [|by eapply M4].
      apply (M2 a); [|done]. cbn in Hu. by rewrite Hu.
Qed.

Lemma checked_saved p a x r : entry_agrees p a x r ->
  let r' := checked (st_pending p !! ac_id x) (st_pendingCooldowns p !! ac_id x) r in
  (rw_dead r' = true <-> rw_dead r = true \/ is_Some (st_pending p !! ac_id x)) /\
  (rw_dead r' = true -> ac_disabled x = true) /\ zeroTime <= rw_cooldown r' <= ac_cooldown x /\ rw_cooldown r <= rw_cooldown r' /\
  (forall u, st_pendingCooldowns p !! ac_id x = Some u -> u <= rw_cooldown r').
Proof.
  intros [A1 A2 A3 A4 A5 A6]. cbn. rewrite orb_true_iff, bool_decide_eq_true. split; [done|]. split; [tauto|].
  destruct (st_pendingCooldowns p !! ac_id x) as [u|] eqn:Ec; [specialize (A5 u eq_refl)|].
  all: (split; [lia|split; [lia|]]); intros v Hv; simplify_eq; lia.
Qed.

(** The row of an account after its statement: [clear] when it was reported. *)
Definition settle (clear : bool) (id : string) (p : Pool) : Pool :=
  let p := write_row id p in
  if clear then set_store (st_dirty p) (delete id (st_pending p)) (delete id (st_pendingCooldowns p)) (st_rows p) p else p.

Lemma settle_entry clear id p a x r : st_rows p !! ac_id x = Some r -> entry_agrees p a x r ->
  exists r', st_rows (settle clear id p) !! ac_id x = Some r' /\ entry_agrees (settle clear id p) a x r'.
Proof.
  intros Hr Ha. destruct (decide (id = ac_id x)) as [->|Hne].
  - destruct (checked_saved p a x r Ha) as (C1 & C2 & C3 & C4 & C5). set (r' := checked _ _ r) in *. exists r'.
    assert (st_rows (settle clear (ac_id x) p) !! ac_id x = Some r') as Hrow
      by (unfold settle; destruct clear; cbn; by rewrite lookup_alter_eq, Hr). split; [done|]. clearbody r'.
    destruct Ha as [A1 A2 A3 A4 A5 A6]. destruct clear; cbn; (split; cbn; [done|rewrite ?lookup_delete_eq; try by intros []; try done|..]); rewrite ?lookup_delete_eq; try done.
    + intros Hd Hu. destruct (A3 Hd Hu) as [H|[H|[H|H]]]; [left; tauto|left; tauto|tauto|tauto].
    + destruct A6 as [H|[(u & Hu & Hl)|[H|H]]]; [left; lia|left; specialize (C5 u Hu); lia|tauto|tauto].
    + intros Hd Hu. destruct (A3 Hd Hu) as [H|[H|[H|H]]]; [left; tauto|left; tauto|tauto|tauto].
    + destruct A6 as [H|[(u & Hu & Hl)|[H|H]]]; [left; lia|left; specialize (C5 u Hu); lia|tauto|tauto].
  - exists r. assert (st_rows (settle clear id p) !! ac_id x = Some r) as Hrow
      by (unfold settle; destruct clear; cbn; by rewrite lookup_alter_ne). split; [done|].
    destruct Ha as [A1 A2 A3 A4 A5 A6]. unfold settle. destruct clear; cbn; split; cbn; rewrite ?lookup_delete_ne by done; done.
Qed.

Lemma settle_agrees o clear id p : agrees o p -> agrees o (settle clear id p).
Proof.
  intros H. assert (settle clear id p = set_store (st_dirty p) (if clear then delete id (st_pending p) else st_pending p)
    (if clear then delete id (st_pendingCooldowns p) else st_pendingCooldowns p)
    (alter (checked (st_pending p !! id) (st_pendingCooldowns p !! id)) id (st_rows p)) p) as E by (by destruct clear).
  rewrite E. apply agrees_store; [done|..].
  - intros Hd. destruct (ag_clean _ _ H Hd) as [-> ->]. by destruct clear; rewrite ?delete_empty.
  - intros id' Hid. destruct (ag_known _ _ H id' Hid) as (E1 & E2 & E3).
    assert (forall (A : Type) (m : gmap string A), m !! id' = None -> (if clear then delete id m else m) !! id' = None) as Hn
      by (intros A m Hm; destruct clear; [apply lookup_delete_None; auto|done]).
    split; [|by split; apply Hn]. destruct (decide (id = id')) as [->|]; [by rewrite lookup_alter_eq, E1|by rewrite lookup_alter_ne].
  - intros a x r Hx Hr Ha. rewrite <- E. destruct (settle_entry clear id p a x r Hr Ha) as (r' & Hr' & Ha'). exists r'. by rewrite E in Hr'.
  - intros a x _ _ Hn. destruct clear; [apply lookup_delete_None; auto|done].
  - intros a auth x r r' _ Hx Hr Hn Hd. destruct (decide (id = ac_id x)) as [->|]; [|rewrite lookup_alter_ne by done; congruence].
    rewrite lookup_alter_eq, Hr. intros [= <-]. cbn. by rewrite Hn, Hd.
Qed.

Lemma flush_agrees o written doubtful p : agrees o p ->
  agrees o (flush written doubtful p).2 /\ ((flush written doubtful p).1 = true -> st_pending (flush written doubtful p).2 = ∅).
Proof.
  intros H. unfold flush. destruct (st_dirty p) eqn:Ed; cbn [negb]; [|split; [done|]; intros _; by apply (ag_clean _ _ H)].
  destruct written as [written|]; [|done].
  assert (forall l q, agrees o q -> agrees o (fold_left (fun p id => write_row id p) l q)) as Hw.
  { induction l as [|id l IH]; intros q Hq; cbn; [done|]. apply IH. by apply (settle_agrees o false). }
  assert (forall l q, agrees o q -> agrees o (fold_left flush_one l q)) as Hf.
  { induction l as [|id l IH]; intros q Hq; cbn; [done|]. apply IH. unfold flush_one. destruct (st_rows q !! id); [by apply (settle_agrees o true)|done]. }
  set (q := fold_left _ doubtful _). assert (agrees o q) as Hq by (unfold q; apply Hw, Hf, H). clearbody q.
  destruct (bool_decide (st_pending q = ∅)) eqn:E1; [|done]. destruct (bool_decide (st_pendingCooldowns q = ∅)) eqn:E2; [|done].
  cbn [andb fst snd]. apply bool_decide_eq_true in E1, E2. split; [|done].
  apply agrees_store; [done|done|apply (ag_known _ _ Hq)| |done|].
  - intros a x r _ Hr Ha. exists r. split; [done|]. by destruct Ha.
  - intros a auth x r r' _ _ Hr _ Hd Hr'. congruence.
Qed.

(** ** Verdicts *)

Lemma judge_spec now d x : let '(x', d', until) := judge now d x in
  ac_id x' = ac_id x /\ (ac_disabled x' = true <-> ds_disable d' = true \/ ac_disabled x = true) /\
  ac_cooldown x' = default (ac_cooldown x) until /\ (forall u, until = Some u -> ac_cooldown x < u /\ 0 < ds_cooldown d) /\
  (ds_disable d' = true -> ds_disable d = true /\ ds_authorization d = ac_authorization x) /\
  (verdict_ok d -> verdict_ok d').
Proof.
  unfold judge. cbn. split; [done|]. split; [|split; [|split; [|split]]].
  - destruct (ds_disable d && _); [|by intuition]. by intuition.
  - by destruct (_ && _).
  - intros u. destruct (_ && _) eqn:E; [|done]. intros [= <-]. apply andb_prop in E as [E1 E2]. bool_prop. lia.
  - intros [H1 H2]%andb_prop. by apply String.eqb_eq in H2.
  - unfold verdict_ok. cbn. intros Hv E. rewrite E. apply andb_prop in E as [E _]. specialize (Hv E).
    destruct (String.eqb_spec (ac_deadReason x) ""); [done|]. by destruct (_ && _).
Qed.

(** The verdict of a response is applied, and its checkpoint is due. *)
Lemma verdict_agrees o p i a guard v j x x' d until reason ph :
  agrees o p -> ap_callers p !! i = Some (Applying a guard v j) -> ap_accounts p !! a = Some x ->
  ac_id x' = ac_id x -> (ac_disabled x' = true <-> ds_disable d = true \/ ac_disabled x = true) ->
  ac_cooldown x' = default (ac_cooldown x) until -> (forall u, until = Some u -> ac_cooldown x < u) ->
  reason = (if ds_disable d then ds_deadReason d else "") -> verdict_ok d -> guard = true ->
  ph = Marking a guard reason until (d, v.2) j ->
  let p' := move i ph 0 1 (on a (fun _ => x') p) in books o p' -> agrees o p'.
Proof.
  intros H Hi Hx Eid Hdis Hcool Hunt -> Hv -> -> p' Hb.
  pose proof H as [H1 H2 H3 H4 H5 H6 [M1 M2 M3 M4]].
  assert (forall b y, ap_accounts p' !! b = Some y -> (b <> a /\ ap_accounts p !! b = Some y) \/ (b = a /\ y = x')) as Hl.
  { intros b y [[Hn Hy]|[-> (z & Hz & ->)]]%on_lookup; auto. }
  assert (ap_accounts p' !! a = Some x') as Hx' by (cbn; by rewrite list_lookup_alter_eq, Hx).
  assert (ap_callers p' !! i = Some (Marking a true (if ds_disable d then ds_deadReason d else "") until (d, v.2) j)) as Hi'
    by (cbn; apply list_lookup_insert_eq; by eapply lookup_lt_Some).
  assert (forall b, drained (ap_manager p) = Some b -> b <> a) as Hna.
  { intros b Hd ->. specialize (M1 a Hd i _ Hi eq_refl). done. }
  assert (forall b, requested (ap_callers p) (condemns b) -> requested (ap_callers p') (condemns b)) as Hc
    by (intros b; eapply requested_insert; [exact Hi|by apply (unmarked_neither b 0)]).
  assert (forall b u, requested (ap_callers p) (postpones b u) -> requested (ap_callers p') (postpones b u)) as Hu
    by (intros b u; eapply requested_insert; [exact Hi|by apply unmarked_neither]).
  destruct (H5 a x Hx) as (r & Hr & [A1 A2 A3 A4 A5 A6]).
  assert (ac_cooldown x <= ac_cooldown x') as Hge by (rewrite Hcool; destruct until as [u|]; cbn; [specialize (Hunt u eq_refl)|]; lia).
  split; [done| |done| | | |].
  - intros b c y z Hy Hz He. destruct (Hl _ _ Hy) as [[? Hy']|[-> ->]], (Hl _ _ Hz) as [[? Hz']|[-> ->]]; [by eapply H2| | |done];
      rewrite Eid in He; eapply H2; eauto.
  - intros id Hid. apply H4. intros b y Hy. destruct (decide (b = a)) as [->|Hne].
    + replace y with x by congruence. rewrite <- Eid. by eapply Hid.
    + apply (Hid b). cbn. by rewrite list_lookup_alter_ne.
  - intros b y Hy. destruct (Hl _ _ Hy) as [[Hne Hy']|[-> ->]].
    + destruct (H5 b y Hy') as (s & Hs & [B1 B2 B3 B4 B5 B6]). exists s. split; [done|]. split; try done.
      * intros Hd Hu'. destruct (B3 Hd Hu') as [?|[?|[?|?]]]; eauto.
      * destruct B6 as [?|[?|[?|?]]]; eauto.
    + exists r. rewrite Eid. split; [done|]. split; rewrite ?Eid, ?Hdis; try (by auto); [|lia|intros u Hu'; specialize (A5 u Hu'); lia|].
      * intros [Hd|Hd] Hu'; [|by destruct (A3 Hd Hu') as [?|[?|[?|?]]]; eauto]. right. right. left. eexists i, _. split; [exact Hi'|].
        cbn. rewrite Hd. split; [done|]. by apply Hv.
      * destruct until as [u|]; rewrite Hcool; cbn; [|by destruct A6 as [?|[?|[?|?]]]; eauto].
        right. right. left. eexists i, _. split; [exact Hi'|]. cbn. split; [done|lia].
  - intros k ph Hk. apply lookup_insert_cases in Hk as [->|Hk].
    + cbn. split; [done|]. intros y Hy. rewrite list_lookup_alter_eq, Hx in Hy. injection Hy as <-. split.
      * intros Hn. apply Hdis. left. destruct (ds_disable d); done.
      * intros u Hu'. specialize (Hunt u Hu'). rewrite Hcool, Hu'. cbn. lia.
    + specialize (H6 k ph Hk). destruct ph; try done. cbn in H6 |- *. destruct H6 as [Hg Hm]. split; [done|]. intros y Hy.
      destruct (Hl _ _ Hy) as [[Hne Hy']|[-> ->]]; [by apply Hm|]. destruct (Hm x Hx) as [Hm1 Hm2]. split; [intros; apply Hdis; auto|].
      intros u Hu'. specialize (Hm2 u Hu'). lia.
  - split.
    + intros b Hd. eapply (quiet_move o p i); [exact H1|exact Hi| |exact Hd|by apply M1].
      intros c Hc' _. left. split; [exact Hc'|done].
    + intros b y Hf Hy. destruct (Hl _ _ Hy) as [[Hne Hy']|[-> ->]]; [by apply (M2 b)|]. rewrite Eid. by eapply M2.
    + intros b u y Hm Hy. destruct (Hl _ _ Hy) as [[Hne Hy']|[-> ->]]; [by eapply M3|]. destruct (Hna a); [|done]. cbn in Hm. by rewrite Hm.
    + intros b auth y s Hm Hy. destruct (Hl _ _ Hy) as [[Hne Hy']|[-> ->]]; [by eapply M4|]. destruct (Hna a); [|done]. cbn in Hm. by rewrite Hm.
Qed.

(** ** Marks *)

Definition noted (id reason : string) (until : option Z) (p : Pool) : Prop :=
  (reason <> "" -> is_Some (st_pending p !! id)) /\
  (forall u, until = Some u -> zeroTime < u -> exists w, st_pendingCooldowns p !! id = Some w /\ u <= w).

Lemma mark_noted id reason until p : noted id reason until (mark id reason until p).
Proof.
  unfold mark. set (until' := match until with Some u => _ | None => None end).
  assert (forall u, until = Some u -> zeroTime < u -> until' = Some u) as Hu.
  { intros u -> Hz. cbn in until'. subst until'. by destruct (Z.eqb_spec u zeroTime); [lia|]. }
  split.
  - intros Hr. apply String.eqb_neq in Hr. rewrite Hr. cbn. rewrite lookup_insert_eq. eauto.
  - intros u E Hz. rewrite (Hu u E Hz). rewrite andb_false_r. cbn.
    destruct (Z.ltb_spec (default zeroTime (st_pendingCooldowns p !! id)) u); [rewrite lookup_insert_eq; eauto with lia|].
    destruct (st_pendingCooldowns p !! id) as [w|]; cbn in *; [eauto|lia].
Qed.

(** What a mark may add for an account. *)
Lemma mark_lookup id reason until p id' :
  let p' := mark id reason until p in
  (is_Some (st_pending p !! id') -> is_Some (st_pending p' !! id')) /\
  (is_Some (st_pending p' !! id') -> is_Some (st_pending p !! id') \/ (id' = id /\ reason <> "")) /\
  (forall w, st_pendingCooldowns p !! id' = Some w -> exists w', st_pendingCooldowns p' !! id' = Some w' /\ w <= w') /\
  (forall w, st_pendingCooldowns p' !! id' = Some w -> st_pendingCooldowns p !! id' = Some w \/ (id' = id /\ until = Some w)).
Proof.
  cbv zeta. unfold mark. set (until' := match until with Some u => _ | None => None end).
  assert (forall u, until' = Some u -> until = Some u) as Hu by (subst until'; destruct until as [u|]; [destruct (_ =? _)|]; congruence).
  destruct (_ && _); [split; [done|split; [auto|split; [intros w; exists w; split; [done|lia]|auto]]]|].
  cbn. clearbody until'. split; [|split; [|split]].
  - destruct (String.eqb reason ""); [done|]. intros Hs. destruct (decide (id = id')) as [->|]; [by rewrite lookup_insert_eq|by rewrite lookup_insert_ne].
  - destruct (String.eqb_spec reason ""); [auto|]. destruct (decide (id = id')) as [->|]; [auto|rewrite lookup_insert_ne by done; auto].
  - intros w Hw. destruct until' as [u|]; [|exists w; split; [done|lia]].
    destruct (Z.ltb_spec (default zeroTime (st_pendingCooldowns p !! id)) u); [|exists w; split; [done|lia]].
    destruct (decide (id = id')) as [->|]; [|rewrite lookup_insert_ne by done; exists w; split; [done|lia]].
    rewrite lookup_insert_eq. exists u. split; [done|]. rewrite Hw in *. cbn in *. lia.
  - intros w. destruct until' as [u|]; [|auto]. destruct (_ <? _); [|auto].
    destruct (decide (id = id')) as [->|]; [rewrite lookup_insert_eq|rewrite lookup_insert_ne by done; auto].
    intros [= <-]. auto.
Qed.

Lemma mark_dirty id reason until p : (st_dirty (mark id reason until p) = false -> mark id reason until p = p).
Proof. unfold mark. by destruct (_ && _). Qed.

(** A mark of what RAM already says. *)
Lemma mark_agrees o p a x reason until : agrees o p -> ap_accounts p !! a = Some x ->
  (reason <> "" -> ac_disabled x = true /\ flushed (ap_manager p) <> Some a) -> (forall u, until = Some u -> u <= ac_cooldown x) ->
  agrees o (mark (ac_id x) reason until p).
Proof.
  intros H Hx Hr Hu. set (p' := mark _ _ _ _).
  assert (p' = set_store (st_dirty p') (st_pending p') (st_pendingCooldowns p') (st_rows p) p) as E
    by (unfold p', mark; destruct (_ && _); [by destruct p|done]).
  rewrite E. apply agrees_store; [done|..].
  - intros Hd. pose proof (mark_dirty _ _ _ _ Hd) as E'. fold p' in E'. rewrite E' in Hd |- *. by apply (ag_clean _ _ H).
  - intros id Hid. destruct (ag_known _ _ H id Hid) as (E1 & E2 & E3). split; [done|].
    destruct (mark_lookup (ac_id x) reason until p id) as (_ & L2 & _ & L4). specialize (Hid a x Hx). split.
    + destruct (st_pending p' !! id) eqn:Ep; [|done]. destruct (L2 ltac:(unfold p' in *; by rewrite Ep)) as [Hs|[-> _]]; [|done]. rewrite E2 in Hs. by destruct Hs.
    + destruct (st_pendingCooldowns p' !! id) as [w|] eqn:Ep; [|done]. destruct (L4 w Ep) as [Hs|[-> _]]; congruence.
  - intros b y r Hy Hry [A1 A2 A3 A4 A5 A6]. exists r. split; [done|].
    destruct (mark_lookup (ac_id x) reason until p (ac_id y)) as (L1 & L2 & L3 & L4). rewrite <- E.
    assert (forall z, ac_id y = ac_id x -> z = y -> y = x) as Hxy by (intros z He _; assert (b = a) by (by eapply (ag_ids _ _ H)); congruence).
    split; [done| | |done| |].
    + intros Hs. destruct (L2 Hs) as [Hs'|[He Hn]]; [auto|]. rewrite (Hxy y He eq_refl). by apply Hr.
    + intros Hd Hu'. unfold p' at 2 3. pose proof (mark_frame (ac_id x) reason until p) as (_ & F1 & F2 & _). rewrite F1, F2.
      destruct (A3 Hd Hu') as [?|[?|[?|?]]]; auto.
    + intros u Hw. destruct (L4 u Hw) as [Hw'|[He Hn]]; [auto|]. rewrite (Hxy y He eq_refl). by apply Hu.
    + unfold p' at 2 3. pose proof (mark_frame (ac_id x) reason until p) as (_ & F1 & F2 & _). rewrite F1, F2.
      destruct A6 as [?|[(u & Hw & ?)|[?|?]]]; [auto| |auto|auto]. right. left. destruct (L3 u Hw) as (w & Hw' & ?). exists w. split; [done|lia].
  - intros b y Hf Hy Hn. destruct (st_pending p' !! ac_id y) eqn:Ep; [|done].
    destruct (mark_lookup (ac_id x) reason until p (ac_id y)) as (_ & L2 & _).
    destruct (L2 ltac:(unfold p' in *; by rewrite Ep)) as [Hs|[He Hne]]; [rewrite Hn in Hs; by destruct Hs|].
    destruct (Hr Hne) as [_ Hf']. assert (b = a) as -> by (by eapply (ag_ids _ _ H)). done.
  - intros b auth y r r' _ _ Hr' _ Hd Hr''. congruence.
Qed.

(** The request that marked goes on to flush. *)
Lemma marked_agrees o p i a x guard reason until v j : agrees o p -> ap_callers p !! i = Some (Marking a guard reason until v j) ->
  ap_accounts p !! a = Some x -> let p' := move i (Flushing a guard v j) 0 0 (mark (ac_id x) reason until p) in books o p' -> agrees o p'.
Proof.
  intros H Hi Hx p' Hb. destruct (ag_phase _ _ H i _ Hi) as [Hg Hm]. destruct (Hm x Hx) as [Hm1 Hm2].
  assert (flushed (ap_manager p) <> Some a) as Hf.
  { intros Hf. assert (drained (ap_manager p) = Some a) as Hd by (by destruct (ap_manager p)).
    by specialize (mo_quiet _ (ag_manager _ _ H) a Hd i _ Hi eq_refl). }
  assert (agrees o (mark (ac_id x) reason until p)) as H1 by (apply (mark_agrees o p a); [done|done|auto|intros u Hu; by apply Hm2]).
  pose proof (mark_frame (ac_id x) reason until p) as (F1 & F2 & F3 & _). pose proof (mark_noted (ac_id x) reason until p) as [N1 N2].
  subst p'. set (q := mark _ _ _ _) in *. rewrite <- F1 in Hx. rewrite <- F2 in Hi.
  eapply agrees_view; [exact H1|done| |done| | |].
  - split; [intros b y Hy; by exists y|intros b y Hy; by exists y].
  - intros b y Hy.
    assert (forall P : phase -> Prop, requested (ap_callers q) P -> P (Marking a guard reason until v j) \/
      requested (<[i := Flushing a guard v j]> (ap_callers q)) P) as Hreq.
    { intros P (k & ph & Hk & HP). destruct (decide (k = i)) as [->|Hne]; [left; congruence|right].
      exists k, ph. by rewrite list_lookup_insert_ne. }
    split; cbn [move ap_callers ap_manager].
    + intros [[[-> Hn]|Hr]%Hreq|Hr]; [left; replace y with x by congruence; auto|auto|auto].
    + intros c Hc [[Hp|Hr]%Hreq|Hr]; [|auto|auto]. left. cbn in Hp. destruct until as [u|]; [|done]. destruct Hp as [-> Hl].
      replace y with x by congruence. destruct (N2 u eq_refl ltac:(lia)) as (w & Hw & ?). exists w. split; [done|lia].
  - intros k ph Hk. apply lookup_insert_cases in Hk as [->|Hk]; [done|by eapply (ag_phase _ _ H1)].
  - eapply manager_ok_view; [apply (ag_manager _ _ H1)|split; [intros b y Hy; by exists y|intros b y Hy; by exists y]|done|done|].
    intros b Hd Hq. eapply (quiet_move o q i); [by apply H1|exact Hi| |exact Hd|exact Hq]. intros c Hc _. by left.
Qed.

(** ** Requests *)

(** What the program relies on: a verdict that disables has a reason, and no row
    cools down until before the zero time. *)
Definition action_ok (x : action) : Prop :=
  match x with
  | Reply _ d _ => verdict_ok d
  | AddStored x r => zeroTime <= rw_cooldown r
  | _ => True
  end.

Lemma arrives_stay p ph0 ph : target ph = target ph0 -> is_download ph = is_download ph0 -> arrives p ph0 ph.
Proof. intros H1 H2 b Hb Hd. left. by rewrite <- H1, <- H2. Qed.
Lemma arrives_none p ph0 ph : target ph = None \/ is_download ph = true -> arrives p ph0 ph.
Proof. intros [H|H] b Hb Hd; congruence. Qed.
#[local] Hint Resolve arrives_none : go.

Lemma recovery_ok now auth f : verdict_ok (tagged auth (recoveryDisposition now f)).
Proof.
  unfold verdict_ok, recoveryDisposition. destruct (existsb _ rejected_codes) eqn:E1; [|destruct (existsb _ restricted_codes) eqn:E2; [|done]].
  all: cbn [tagged ds_disable ds_deadReason]; intros _ E; by rewrite E in *.
Qed.

Lemma after_renew_ok now p a rejected err j : phase_ok p (after_renew now a rejected err j).
Proof. destruct err as [f|]; cbn [after_renew]; [|done]. destruct (interrupted f); cbn [phase_ok fst]; [done|apply recovery_ok]. Qed.

Lemma on_on a f g p : on a g (on a f p) = on a (fun x => g (f x)) p.
Proof.
  unfold on, set_accounts. cbn. f_equal. apply list_eq. intros k. destruct (decide (a = k)) as [->|].
  - rewrite !list_lookup_alter_eq. by destruct (ap_accounts p !! k).
  - by rewrite !list_lookup_alter_ne.
Qed.

Lemma end_renew_agrees o p i now ph0 a rejected err j f : agrees o p -> ap_callers p !! i = Some ph0 -> target ph0 = Some a ->
  is_gated ph0 = true -> is_download ph0 = false -> is_marking ph0 = false -> (forall x, same_health f x) ->
  books o (end_renew i now a rejected err j (on a f p)) -> agrees o (end_renew i now a rejected err j (on a f p)).
Proof.
  intros H Hi Ht Hg Hd Hm Hf. unfold end_renew.
  rewrite on_on.
  intros Hb. destruct (after_renew_stays now a rejected err j) as (E1 & E2 & _). eapply agrees_move; try done.
  - intros x _. by destruct (Hf x).
  - apply after_renew_ok.
  - apply arrives_stay; congruence.
Qed.

(** Settles a move that leaves accounts and store alone. *)
Ltac calm H Hi := intros Hb; eapply agrees_stay; [exact H|exact Hi|exact Hb|reflexivity|cbn; auto using recovery_ok|
  first [apply arrives_stay; reflexivity|apply arrives_none; auto]].
(** One that also adjusts the counters or the gate of the account. *)
Ltac tend H Hi := intros Hb; eapply agrees_move; [exact H|exact Hi|exact Hb|by intros|reflexivity|cbn; auto|
  first [apply arrives_stay; reflexivity|apply arrives_none; auto]].

(** Nothing the invariant speaks of changes. *)
Lemma agrees_quiet o p p' : agrees o p -> frame p p' -> same_store p p' -> agrees o p'.
Proof.
  intros H Hf Hs. pose proof Hf as (F1 & F2 & F3 & _). assert (same_healths p p') as Hh by (split; rewrite F1; eauto).
  eapply agrees_view; [exact H|by eapply books_frame; [|apply H]|done|done| |rewrite F2; apply (ag_phase _ _ H)|].
  - intros a x _. split; rewrite F2, F3; auto.
  - eapply manager_ok_view; [apply (ag_manager _ _ H)|done|done|done|by rewrite F2].
Qed.

Lemma acquire_agrees o i now e pinned queued j p : agrees o p -> ap_callers p !! i = Some (Acquiring pinned queued j) ->
  books o (acquire o i now e pinned queued j p) -> agrees o (acquire o i now e pinned queued j p).
Proof.
  intros H Hi. unfold acquire. destruct e as [e|]; [calm H Hi|].
  destruct (attempt_turn _ _ _ _ _) as [a media|f|] eqn:Ea; [|calm H Hi|].
  - destruct (turn_grant _ _ _ _ _ _ _ (books_loads _ _ (ag_books _ _ H)) Ea) as [Hlt Hx]. destruct media; [tend H Hi|].
    set (ph := Leased a false _). set (dq := if queued then _ else _). intros Hb.
    assert (agrees o (move i ph dq 0 (on a (fun x => set_counts (ac_busy x + 1) (ac_mediaBusy x) x) p))) as Hg.
    { eapply agrees_move; [done|exact Hi|by eapply books_frame; [|exact Hb]|by intros|done|done|].
      intros b [= <-] _. right. intros x Ex. by apply (Hx x Ex). }
    by eapply (agrees_quiet _ _ _ Hg).
  - destruct queued; [done|]. destruct (_ <=? _); calm H Hi.
Qed.

Lemma flush_move_agrees o p i ph0 ph dq dw w d : agrees o p -> ap_callers p !! i = Some ph0 ->
  (forall q, agrees o q -> ap_callers q !! i = Some ph0 -> books o (move i ph dq dw q) -> agrees o (move i ph dq dw q)) ->
  books o (move i ph dq dw (flush w d p).2) -> agrees o (move i ph dq dw (flush w d p).2).
Proof.
  intros H Hi Hm. pose proof (flush_frame w d p) as Hf. apply Hm; [by apply flush_agrees|by rewrite (proj1 (proj2 Hf))].
Qed.

Lemma save_session_agrees o id auth p : agrees o p -> agrees o (save_session id auth p).2.
Proof.
  intros H. unfold save_session. destruct (st_rows p !! id) as [r0|] eqn:Er; [|done]. destruct (rw_dead r0) eqn:Ed; [done|].
  apply agrees_store; [done|apply (ag_clean _ _ H)| | |done|].
  - intros id' Hid. destruct (ag_known _ _ H id' Hid) as (E1 & E2 & E3). rewrite lookup_insert_ne by (intros ->; congruence). done.
  - intros a x r Hx Hr [A1 A2 A3 A4 A5 A6]. destruct (decide (id = ac_id x)) as [->|]; [|exists r; by rewrite lookup_insert_ne].
    rewrite lookup_insert_eq. eexists. split; [done|]. assert (r = r0) as -> by congruence. split; cbn; rewrite ?Ed; auto. 
    all: rewrite <- ?Ed; done.
  - intros a auth' x r r' _ Hx Hr _ Hd. destruct (decide (id = ac_id x)) as [->|]; [|rewrite lookup_insert_ne by done; congruence].
    rewrite lookup_insert_eq. intros [= <-]. done.
Qed.

Lemma apply_agrees o p i now a guard v j : op_Store o = true -> agrees o p -> ap_callers p !! i = Some (Applying a guard v j) ->
  books o (step o (Apply i now) p) -> agrees o (step o (Apply i now) p).
Proof.
  intros Hs H Hi. cbn [step]. rewrite Hi. destruct (ap_accounts p !! a) as [x|] eqn:Ex; [|done].
  pose proof (judge_spec now v.1 x) as J. destruct (judge now v.1 x) as [[x' d] until]. destruct J as (J1 & J2 & J3 & J4 & J5 & J6).
  destruct (ag_phase _ _ H i _ Hi) as [Hv Hg]. rewrite Hs. cbn [andb].
  destruct (ds_disable d || bool_decide (is_Some until)) eqn:Eq.
  - apply (verdict_agrees o p i a guard v j x x' d until (if ds_disable d then ds_deadReason d else "")
      (Marking a guard (if ds_disable d then ds_deadReason d else "") until (d, v.2) j) H Hi Ex J1 J2 J3); try done.
    + intros u Hu. by destruct (J4 u Hu).
    + by apply J6.
    + apply Hg. apply orb_true_iff in Eq as [E|[u E]%bool_decide_eq_true]; [by destruct (J5 E) as [-> _]|].
      destruct (J4 u E) as [_ Hc]. apply Z.ltb_lt in Hc. rewrite Hc. apply orb_true_r.
  - apply orb_false_iff in Eq as [E1 E2%bool_decide_eq_false]. intros Hb. eapply agrees_move; [done|exact Hi|exact Hb| |done|done|by apply arrives_stay].
    intros y Hy. replace y with x by congruence. split; [done|]. destruct until; [by destruct E2|]. split; [|done].
    destruct (ac_disabled x'), (ac_disabled x); rewrite ?E1 in J2; try done; [by destruct J2 as [[|] _]|by destruct J2 as [_ ?]; intuition].
Qed.

Lemma request_agrees o x p : op_Store o = true -> action_ok x -> agrees o p -> request_step x = true -> agrees o (step o x p).
Proof.
  intros Hs Hok H Hx. pose proof (request_books o x p (ag_books _ _ H) Hx) as Hb. revert Hb.
  destruct x as [i m w d|i m|i now e|i|i now|i d e|i|i now e|i now|i now e r|i now e ef ok|i now e|i|i now|i|i w d|i|i|i e se|i| | | |]; try done;
    cbn [step]; (destruct (ap_callers p !! i) as [ph|] eqn:Hi; [|done]);
    destruct ph as [|pin q j|a|a rn j|a au rn j|a au rn j|a re j|a re j|a re j|a re au j|a au j|a v j|a g v j|a g rs un v j|a g v j|a g sv v j|a g sv v j|a sv v j|r0];
    try done; pose proof (ag_phase _ _ H i _ Hi) as Hp.
  - destruct (negb _); [calm H Hi|]. rewrite Hs, (surjective_pairing (flush w d p)).
    destruct (flush w d p).1; eapply flush_move_agrees; [exact H|exact Hi| |exact H|exact Hi|]; intros q' H' Hi'; calm H' Hi'.
  - destruct (negb _); calm H Hi.
  - by apply acquire_agrees.
  - destruct (ap_accounts p !! a) as [y|]; [calm H Hi|done].
  - destruct (ap_accounts p !! a) as [y|]; [|done]. destruct (accountUnavailable now y); [calm H Hi|].
    destruct (_ && _); [destruct (ac_login y); [calm H Hi|]|calm H Hi]. calm H Hi. done.
  - destruct (ap_accounts p !! a) as [y|]; [|done]. destruct (_ && ac_login y); calm H Hi.
  - destruct (gate_of p a); [done|]. tend H Hi.
  - intros Hb. destruct (after_renew_stays now a re (Some (plain e)) j) as (E1 & E2 & _).
    eapply agrees_stay; [exact H|exact Hi|exact Hb|done|apply after_renew_ok|by apply arrives_stay].
  - destruct (ap_accounts p !! a) as [y|]; [|done]. destruct (refresh_check now re y) as [err|]; [|calm H Hi].
    pose proof (end_renew_agrees o p i now _ a re err j (fun x => x) H Hi) as Hg. rewrite on_id in Hg. by apply Hg.
  - destruct r as [[[] au]|f]; [rewrite Hs; calm H Hi| |]; (eapply end_renew_agrees; [exact H|exact Hi|done..|]; intros x; unfold refreshed; by destruct (_ && _)).
  - set (r := if ef then _ else _). rewrite (surjective_pairing r). assert (agrees o r.2) as H' by (unfold r; destruct ef; [by apply save_session_agrees|done]).
    assert (frame p r.2) as Hf by (unfold r; destruct ef; [apply save_session_frame|done]). rewrite <- (proj1 (proj2 Hf)) in Hi.
    destruct (r.1 && ok); [calm H' Hi|]. eapply end_renew_agrees; [exact H'|exact Hi|done..|]. intros x. unfold refreshed. by destruct (_ && _).
  - unfold end_login. rewrite on_on. eapply end_renew_agrees; [exact H|exact Hi|done..|]. intros x. unfold refreshed. by destruct (_ && _).
  - destruct (ds_disable _ || _) eqn:Ed; [destruct (gate_of p a); [done|]; tend H Hi|]. calm H Hi. split; [done|]. by rewrite Ed.
  - intros Hb. pose proof (apply_agrees o p i now a g v j Hs H Hi) as Ha. cbn [step] in Ha. rewrite Hi in Ha. by apply Ha.
  - destruct (lookup_lt_is_Some_2 _ _ (bk_target _ _ (ag_books _ _ H) i _ a Hi eq_refl)) as [y Hy].
    assert (id_of p a = ac_id y) as -> by (unfold id_of; by rewrite Hy). by apply marked_agrees.
  - rewrite (surjective_pairing (flush w d p)). eapply flush_move_agrees; [exact H|exact Hi|]. intros q' H' Hi'. calm H' Hi'.
  - calm H Hi.
  - destruct g; [tend H Hi|calm H Hi].
  - destruct (_ && gate_of p a); [done|]. set (c := conclude _ _ _ _ _ _). pose proof (conclude_target o e (if negb sv then Some dbFailure else if op_Store o then se else None) (id_of p a) v j) as [E1 _]. fold c in E1.
    intros Hb. eapply agrees_move; [exact H|exact Hi|exact Hb|by intros|done|by destruct c|by apply arrives_none; left].
  - tend H Hi.
Qed.

(** ** The manager *)

Lemma quiet_of_idle o p a x : books o p -> ap_accounts p !! a = Some x -> ac_busy x <= 0 -> quiet a (ap_callers p).
Proof.
  intros Hb Hx Hz i ph Hi Ht. destruct (is_download ph) eqn:E; [done|].
  pose proof (tally_lookup (at_account is_metadata a) _ _ _ Hi) as Hl. rewrite (eb_busy _ _ _ _ _ (bk_accounts _ _ Hb a x Hx)) in Hz.
  assert (at_account is_metadata a ph = true) as Hm by (unfold at_account, is_metadata; rewrite Ht, E; by rewrite !bool_decide_true by eauto).
  specialize (Hl Hm). lia.
Qed.

(** The manager at [a] goes on without marking or replacing. *)
Definition plain_update (u : update) : bool := match u with UMarking _ _ | UReplaced _ _ => false | _ => true end.

Lemma manager_go o p u a f dw : agrees o p -> books o (manage u dw (on a f p)) -> (forall x, ap_accounts p !! a = Some x -> same_health f x) ->
  plain_update (ap_manager p) = true -> plain_update u = true ->
  (forall b, drained u = Some b -> quiet b (ap_callers p)) ->
  (forall b x, flushed u = Some b -> ap_accounts p !! b = Some x -> st_pending p !! ac_id x = None) ->
  agrees o (manage u dw (on a f p)).
Proof.
  intros H Hb Hf H0 Hu Hq Hp. apply agrees_manage; [done|done|done|by intros b auth E; rewrite E in H0|by intros b v E; rewrite E in H0|].
  split; cbn [manage ap_manager ap_callers ap_accounts st_pending st_rows]; [done| | |].
  - intros b x' Hfl Hx'. destruct (on_lookup_health p a f b x' Hf Hx') as (x & Hx & -> & _). by eapply Hp.
  - intros b v x E. by rewrite E in Hu.
  - intros b auth x r E. by rewrite E in Hu.
Qed.

(** As [manager_go], when the account stays drained and flushed or is left. *)
Lemma manager_stay o p u a f dw : agrees o p -> books o (manage u dw (on a f p)) -> (forall x, same_health f x) ->
  plain_update (ap_manager p) = true -> plain_update u = true ->
  (drained u = None \/ drained u = drained (ap_manager p)) -> (flushed u = None \/ flushed u = flushed (ap_manager p)) ->
  agrees o (manage u dw (on a f p)).
Proof.
  intros H Hb Hf H0 Hu Hd Hfl. eapply manager_go; try done.
  - intros b E. destruct Hd as [Hd|Hd]; [congruence|]. apply (mo_quiet _ (ag_manager _ _ H)). congruence.
  - intros b x E. destruct Hfl as [Hfl|Hfl]; [congruence|]. apply (mo_pending _ (ag_manager _ _ H)). congruence.
Qed.

Lemma manager_calm o p u dw : agrees o p -> books o (manage u dw p) ->
  plain_update (ap_manager p) = true -> plain_update u = true ->
  (drained u = None \/ drained u = drained (ap_manager p)) -> (flushed u = None \/ flushed u = flushed (ap_manager p)) ->
  agrees o (manage u dw p).
Proof.
  intros H Hb. pose proof (manager_stay o p u 0 (fun x => x) dw H) as Hg. rewrite on_id in Hg. intros. by apply Hg.
Qed.

(** A login that is throttled postpones the account. *)
Lemma postpone_agrees o p a x until dw : agrees o p -> ap_manager p = UVerifying a -> ap_accounts p !! a = Some x -> ac_cooldown x <= until ->
  let p' := manage (UMarking a until) dw (on a (set_health (ac_disabled x) (ac_deadReason x) until) p) in books o p' -> agrees o p'.
Proof.
  intros H Hm Hx Hu p' Hb. pose proof H as [H1 H2 H3 H4 H5 H6 [M1 M2 M3 M4]]. rewrite Hm in *.
  assert (forall b y, ap_accounts p' !! b = Some y -> exists z, ap_accounts p !! b = Some z /\ ac_id y = ac_id z /\ ac_disabled y = ac_disabled z /\
    ((b <> a /\ y = z) \/ (b = a /\ z = x /\ ac_cooldown y = until))) as Hl.
  { intros b y [[Hn Hy]|[-> (z & Hz & ->)]]%on_lookup; [exists y; repeat split; auto|]. replace z with x in * by congruence.
    exists x. repeat split; auto. }
  assert (forall b y, ap_accounts p !! b = Some y -> exists y', ap_accounts p' !! b = Some y' /\ ac_id y' = ac_id y) as Hl'.
  { intros b y Hy. destruct (on_lookup_back p a (set_health (ac_disabled x) (ac_deadReason x) until) b y Hy) as (y' & Hy' & [->|[_ ->]]); eauto. }
  split; [done| |done| | | |].
  - intros b c y z Hy Hz He. destruct (Hl _ _ Hy) as (y0 & Hy0 & E1 & _), (Hl _ _ Hz) as (z0 & Hz0 & E2 & _). apply (H2 b c y0 z0); congruence.
  - intros id Hid. apply H4. intros b y Hy. destruct (Hl' b y Hy) as (y' & Hy' & <-). by eapply Hid.
  - intros b y Hy. destruct (Hl _ _ Hy) as (z & Hz & E1 & E2 & E3). destruct (H5 b z Hz) as (r & Hr & [A1 A2 A3 A4 A5 A6]). exists r. rewrite E1.
    split; [done|]. assert (ac_cooldown z <= ac_cooldown y) by (destruct E3 as [[_ ->]|(_ & -> & ->)]; lia).
    split; rewrite ?E1, ?E2; try done; [|lia|intros u Hw; specialize (A5 u Hw); lia|].
    + intros Hd Hu'. destruct (A3 Hd Hu') as [?|[?|[?|[auth ?]]]]; [auto|auto|auto|congruence].
    + destruct E3 as [[Hn ->]|(-> & -> & ->)]; [|do 3 right; exists until; split; [done|lia]].
      destruct A6 as [?|[?|[?|(u & ? & _)]]]; [auto|auto|auto|congruence].
  - intros i ph Hi. specialize (H6 i ph Hi). destruct ph; try done. cbn in H6 |- *. destruct H6 as [Hg Hp]. split; [done|]. intros y Hy.
    destruct (Hl _ _ Hy) as (z & Hz & E1 & E2 & E3). destruct (Hp z Hz) as [Hp1 Hp2]. rewrite E2. split; [done|]. intros u Hw. specialize (Hp2 u Hw).
    destruct E3 as [[_ ->]|(_ & -> & ->)]; lia.
  - split; [done| | |done].
    + intros b y Hf Hy. destruct (Hl _ _ Hy) as (z & Hz & -> & _). by eapply M2.
    + intros b u y [= <- <-] Hy. destruct (Hl _ _ Hy) as (z & Hz & _ & _ & [[? _]|(_ & _ & ->)]); [done|lia].
Qed.

(** The manager's own mark. *)
Lemma manager_marked_agrees o p a x u dw : agrees o p -> ap_manager p = UMarking a u -> ap_accounts p !! a = Some x ->
  let p' := manage (UMarked a) dw (mark (ac_id x) "" (Some u) p) in books o p' -> agrees o p'.
Proof.
  intros H Hm Hx p' Hb. pose proof H as [_ _ _ _ _ _ [M1 M2 M3 M4]].
  assert (agrees o (mark (ac_id x) "" (Some u) p)) as H1.
  { apply (mark_agrees o p a); [done|done|done|]. intros v [= <-]. by eapply M3. }
  pose proof (mark_frame (ac_id x) "" (Some u) p) as (F1 & F2 & F3 & _). pose proof (mark_noted (ac_id x) "" (Some u) p) as [_ N2].
  pose proof (ag_manager _ _ H1) as [Q1 Q2 _ _]. subst p'. set (q := mark _ _ _ _) in *. rewrite <- F1 in Hx. rewrite <- F3 in Hm. rewrite Hm in *.
  eapply agrees_view; [exact H1|done|split; [intros b y Hy; by exists y|intros b y Hy; by exists y]|done| |apply (ag_phase _ _ H1)|].
  - intros b y Hy. split; cbn [manage ap_callers ap_manager].
    + intros [Hr|[auth Hr]]; [auto|congruence].
    + intros c Hc [Hr|(v & Hr & Hl)]; [auto|]. left. rewrite Hm in Hr. injection Hr as <- <-. replace y with x by congruence.
      destruct (N2 u eq_refl ltac:(lia)) as (w & Hw & ?). exists w. split; [done|lia].
  - split; cbn [manage ap_manager ap_callers ap_accounts st_pending]; [exact Q1|exact Q2|done|done].
Qed.

(** A verified session is in the row, and the account is about to be revived, or
    the pool was not told. *)
Lemma replaced_agrees o p a x auth au dw u : agrees o p -> ap_manager p = UReplacing a au -> ap_accounts p !! a = Some x ->
  u = UReplaced a auth \/ (u = UFinishing a true /\ unrecorded a) ->
  let q := (replace_session (ac_id x) auth p).2 in
  let p' := manage u dw q in books o p' -> agrees o p'.
Proof.
  intros H Hm Hx Hto q p' Hb. pose proof H as [H1 H2 H3 H4 H5 H6 [M1 M2 M3 M4]]. rewrite Hm in *.
  destruct (H5 a x Hx) as (r0 & Hr0 & [A1 A2 A3 A4 A5 A6]).
  assert (q = set_store (st_dirty p) (st_pending p) (st_pendingCooldowns p) (<[ac_id x := mkRow auth false (rw_cooldown r0)]> (st_rows p)) p) as Eq
    by (unfold q, replace_session; by rewrite Hr0). subst p'. rewrite Eq in *. clear q Eq.
  assert (forall b y, ap_accounts p !! b = Some y -> b = a /\ y = x \/ b <> a /\ ac_id x <> ac_id y) as Hcase.
  { intros b y Hy. destruct (decide (b = a)) as [->|Hne]; [left; split; congruence|right; split; [done|]]. intros E. by destruct Hne; apply (H2 b a y x). }
  split; [done|exact H2|exact H3| | |exact H6|].
  - intros id Hid. cbn in Hid |- *. destruct (H4 id Hid) as (E1 & E2 & E3). rewrite lookup_insert_ne by (by eapply Hid). done.
  - intros b y Hy. cbn in Hy |- *. destruct (Hcase b y Hy) as [[-> ->]|[Hne Hid]].
    + rewrite lookup_insert_eq. eexists. split; [done|]. split; cbn; try done.
      * intros _ Hu'. destruct Hto as [->|[-> ?]]; [|done]. do 3 right. eauto.
      * destruct A6 as [?|[?|[?|(v & ? & _)]]]; [auto|auto|auto|congruence].
    + rewrite lookup_insert_ne by done. destruct (H5 b y Hy) as (r & Hr & [B1 B2 B3 B4 B5 B6]). exists r. split; [done|]. split; cbn; try done.
      * intros Hd Hu'. destruct (B3 Hd Hu') as [?|[?|[?|[? ?]]]]; [auto|auto|auto|congruence].
      * destruct B6 as [?|[?|[?|(v & ? & _)]]]; [auto|auto|auto|congruence].
  - destruct Hto as [->|[-> _]]; [|by split]. split; cbn; [exact M1|exact M2|done|]. intros b auth' y r [= <- <-] Hy. replace y with x by congruence. rewrite lookup_insert_eq. by intros [= <-].
Qed.

Lemma revived_agrees o p a x auth dw (g : account -> account) : agrees o p -> ap_manager p = UReplaced a auth -> ap_accounts p !! a = Some x ->
  ac_id (g x) = ac_id x -> ac_disabled (g x) = false -> ac_cooldown (g x) = ac_cooldown x ->
  let p' := manage (UFinishing a true) dw (on a g p) in books o p' -> agrees o p'.
Proof.
  intros H Hm Hx G1 G2 G3 p' Hb. pose proof H as [H1 H2 H3 H4 H5 H6 [M1 M2 M3 M4]]. rewrite Hm in *.
  assert (forall b y, ap_accounts p' !! b = Some y -> (b <> a /\ ap_accounts p !! b = Some y) \/ (b = a /\ y = g x)) as Hl.
  { intros b y [[Hn Hy]|[-> (z & Hz & ->)]]%on_lookup; [auto|]. right. split; congruence. }
  split; [done| |exact H3| | | |by split].
  - intros b c y z Hy Hz He. destruct (Hl _ _ Hy) as [[? Hy']|[-> ->]], (Hl _ _ Hz) as [[? Hz']|[-> ->]]; [by eapply H2| | |done];
      rewrite G1 in He; eapply H2; eauto.
  - intros id Hid. apply H4. intros b y Hy. destruct (on_lookup_back p a g b y Hy) as (y' & Hy' & [->|[-> ->]]); [by eapply Hid|].
    replace y with x by congruence. rewrite <- G1. replace y with x in Hy' by congruence. by eapply Hid.
  - intros b y Hy. destruct (Hl _ _ Hy) as [[Hne Hy']|[-> ->]].
    + destruct (H5 b y Hy') as (r & Hr & [B1 B2 B3 B4 B5 B6]). exists r. split; [done|]. split; cbn; try done.
      * intros Hd Hu'. destruct (B3 Hd Hu') as [?|[?|[?|[? ?]]]]; [auto|auto|auto|congruence].
      * destruct B6 as [?|[?|[?|(u & ? & _)]]]; [auto|auto|auto|congruence].
    + destruct (H5 a x Hx) as (r & Hr & [A1 A2 A3 A4 A5 A6]). exists r. rewrite G1. split; [done|].
      pose proof (M2 a x eq_refl Hx) as Hn. pose proof (M4 a auth x r eq_refl Hx Hr) as Hd. split; rewrite ?G1, ?G2, ?G3; try done.
      * by rewrite Hd.
      * cbn. rewrite Hn. by intros [].
      * destruct A6 as [?|[?|[?|(u & ? & _)]]]; [auto|auto|auto|congruence].
  - intros i ph Hi. specialize (H6 i ph Hi). destruct ph; try done. cbn in H6 |- *. destruct H6 as [Hg Hp]. split; [done|]. intros y Hy.
    destruct (Hl _ _ Hy) as [[Hne Hy']|[-> ->]]; [by apply Hp|]. specialize (M1 a eq_refl i _ Hi eq_refl). done.
Qed.

(** The steps that leave an account dead in memory only: it is loaded dead, its
    cookies having expired, or the statement that put a verified session in
    its row was not acknowledged. *)
Definition unacknowledged (x : action) (p : Pool) (a : nat) : Prop :=
  match x with
  | AddStored y _ => a = length (ap_accounts p) /\ ac_disabled y = true
  | UpdateStep _ _ _ true (Err _) => exists au, ap_manager p = UReplacing a au
  | _ => False
  end.

Lemma update_agrees o p now w d effect result :
  (forall a, unacknowledged (UpdateStep now w d effect result) p a -> unrecorded a) -> agrees o p -> agrees o (step o (UpdateStep now w d effect result) p).
Proof.
  intros Hok H. pose proof (update_books o p now w d effect result (ag_books _ _ H)) as Hb. revert Hb. cbn [step].
  assert (forall a, updates (ap_manager p) = Some a -> exists x, ap_accounts p !! a = Some x) as Hacc
    by (intros a Ha; apply lookup_lt_is_Some_2; by apply (bk_updates _ _ (ag_books _ _ H))).
  pose proof (flush_frame w d p) as Hf. destruct (flush_agrees o w d p H) as [Hfa Hfe].
  destruct (ap_manager p) as [|a|a|a|a|a|a u|a|a|a au|a au|a g] eqn:Em; [done|..]; destruct (Hacc a eq_refl) as [x Hx]; rewrite ?Hx.
  - destruct (negb _); [intros Hb; apply manager_calm; rewrite ?Em; auto|]. destruct (_ || _) eqn:El; [done|]. apply orb_false_iff in El as [El _]. bool_prop.
    intros Hb. rewrite <- (on_id a p) in Hb |- *. apply manager_go; rewrite ?Em; try done.
    intros b [= <-]. eapply quiet_of_idle; [apply H|exact Hx|lia].
  - destruct (negb _); [intros Hb; apply manager_calm; rewrite ?Em; auto|]. rewrite (surjective_pairing (flush w d p)).
    assert (ap_manager (flush w d p).2 = UFlushing a) as Em' by (rewrite <- Em; apply Hf). set (q := (flush w d p).2) in *.
    destruct (flush w d p).1; intros Hb; [|apply manager_calm; rewrite ?Em'; auto].
    rewrite <- (on_id a q) in Hb |- *. apply manager_go; rewrite ?Em'; try done.
    + intros b [= <-]. apply (mo_quiet _ (ag_manager _ _ Hfa)). by rewrite Em'.
    + intros b y _ _. by rewrite Hfe.
  - destruct (negb _); [intros Hb; apply manager_calm; rewrite ?Em; auto|]. destruct (gate_of p a); [done|].
    intros Hb. apply manager_stay; rewrite ?Em; auto; by intros.
  - destruct effect; [destruct (now <? _); intros Hb; apply manager_calm; rewrite ?Em; auto|].
    destruct result; intros Hb; [apply manager_stay; rewrite ?Em; auto; by intros|apply manager_calm; rewrite ?Em; auto].
  - destruct result as [au|f]; [intros Hb; apply manager_calm; rewrite ?Em; auto|].
    destruct (0 <? _); intros Hb; [|apply manager_calm; rewrite ?Em; auto]. apply (postpone_agrees o p a x); auto; lia.
  - assert (id_of p a = ac_id x) as -> by (unfold id_of; by rewrite Hx). by apply manager_marked_agrees.
  - rewrite (surjective_pairing (flush w d p)). intros Hb. assert (ap_manager (flush w d p).2 = UMarked a) as Em' by (rewrite <- Em; apply Hf).
    apply manager_calm; rewrite ?Em'; auto.
  - intros Hb; apply manager_calm; rewrite ?Em; auto.
  - assert (id_of p a = ac_id x) as -> by (unfold id_of; by rewrite Hx). destruct (ag_entry _ _ H a x Hx) as (r & Hr & _).
    destruct effect; [|destruct result; cbn; intros Hb; apply manager_calm; rewrite ?Em; auto].
    rewrite (surjective_pairing (replace_session (ac_id x) au p)). assert ((replace_session (ac_id x) au p).1 = true) as -> by (unfold replace_session; by rewrite Hr).
    intros Hb. destruct result as [v|f]; eapply replaced_agrees; [exact H|exact Em|exact Hx|auto|exact Hb|exact H|exact Em|exact Hx|right|exact Hb].
    split; [done|]. apply Hok. by exists au.
  - intros Hb. by apply (revived_agrees o p a x au).
  - destruct g; intros Hb; (apply manager_stay; rewrite ?Em; auto; by intros).
Qed.

(** ** Runs *)

Lemma byID_none id l : byID id l = None -> forall a x, l !! a = Some x -> ac_id x <> id.
Proof.
  unfold byID. intros H%fmap_None a x Hx. apply list_find_None in H. rewrite Forall_forall in H. apply H. by eapply list_elem_of_lookup_2.
Qed.

Lemma add_agrees o p x r : agrees o p -> byID (ac_id x) (ap_accounts p) = None ->
  (rw_dead r = true -> ac_disabled x = true) -> (ac_disabled x = true -> ~ unrecorded (length (ap_accounts p)) -> rw_dead r = true) -> ac_cooldown x = rw_cooldown r ->
  zeroTime <= rw_cooldown r ->
  let p' := set_accounts (ap_accounts p ++ [x]) (set_store (st_dirty p) (st_pending p) (st_pendingCooldowns p) (<[ac_id x := r]> (st_rows p)) p) in
  books o p' -> agrees o p'.
Proof.
  intros H Hid Hd Hd' Hc Hz p' Hb. pose proof H as [H1 H2 H3 H4 H5 H6 [M1 M2 M3 M4]]. pose proof (byID_none _ _ Hid) as Hnew.
  destruct (H4 (ac_id x) Hnew) as (_ & Ep & Ec). set (n := length (ap_accounts p)) in *.
  assert (forall b y, ap_accounts p' !! b = Some y -> (ap_accounts p !! b = Some y /\ ac_id y <> ac_id x) \/ (b = n /\ y = x)) as Hl.
  { intros b y Hy. cbn in Hy. apply lookup_app_Some in Hy as [Hy|[Hn Hy]]; [left; eauto|right].
    destruct (b - length (ap_accounts p))%nat eqn:E; [|done]. injection Hy as <-. split; [unfold n; lia|done]. }
  assert (forall b, updates (ap_manager p) = Some b -> b <> n) as Hu by (intros b E ->; specialize (bk_updates _ _ H1 _ E); unfold n; lia).
  assert (forall u b, drained u = Some b -> updates u = Some b) as Hdu by apply drained_updates.
  assert (forall u b, flushed u = Some b -> drained u = Some b) as Hfd by (by intros []).
  split; [done| |done| | | |].
  - intros b c y z Hy Hz' He. destruct (Hl _ _ Hy) as [[Hy' Hn]|[-> ->]], (Hl _ _ Hz') as [[Hz'' Hn']|[-> ->]]; [by eapply H2|done|by rewrite He in Hn'|done].
  - intros id Hn. cbn in Hn |- *.
    assert (ac_id x <> id) by (apply (Hn n); rewrite lookup_app_r by (unfold n; lia); by rewrite Nat.sub_diag).
    rewrite lookup_insert_ne by done. apply H4. intros b y Hy. apply (Hn b). by apply lookup_app_l_Some.
  - intros b y Hy. cbn [p' st_rows set_accounts set_store]. destruct (Hl _ _ Hy) as [[Hy' Hn]|[-> ->]].
    + rewrite lookup_insert_ne by done. destruct (H5 b y Hy') as (s & Hs & [B1 B2 B3 B4 B5 B6]). exists s. split; [done|]. by split.
    + rewrite lookup_insert_eq. exists r. split; [done|]. split; cbn; rewrite ?Ep, ?Ec, ?Hc; try done; try (by intros []); auto; lia.
  - intros i ph Hi. specialize (H6 i ph Hi). destruct ph; try done. cbn [phase_ok] in H6 |- *. destruct H6 as [Hg Hp]. split; [done|]. intros y Hy.
    destruct (Hl _ _ Hy) as [[Hy' Hn]|[-> ->]]; [by apply Hp|]. specialize (bk_target _ _ H1 i _ n Hi eq_refl). unfold n. lia.
  - split; [exact M1| | |].
    + intros b y Hf Hy. destruct (Hl _ _ Hy) as [[Hy' Hn]|[-> ->]]; [by eapply M2|]. by destruct (Hu n); auto.
    + intros b u y Hm Hy. destruct (Hl _ _ Hy) as [[Hy' Hn]|[-> ->]]; [by eapply M3|]. destruct (Hu n); [|done]. cbn in Hm. by rewrite Hm.
    + intros b auth y s Hm Hy. cbn [p' st_rows set_accounts set_store]. destruct (Hl _ _ Hy) as [[Hy' Hn]|[-> ->]].
      * rewrite lookup_insert_ne by done. by eapply M4.
      * destruct (Hu n); [|done]. cbn in Hm. by rewrite Hm.
Qed.

Lemma step_agrees o x p : op_Store o = true -> 0 <= op_PerAccountConcurrency o -> 0 <= op_PerAccountDownloadConcurrency o ->
  action_ok x -> (forall a, unacknowledged x p a -> unrecorded a) -> agrees o p -> agrees o (step o x p).
Proof.
  intros Hs Hc Hd Hok Hun H. destruct (request_step x) eqn:Ex; [by apply request_agrees|].
  pose proof (step_books o x p Hc Hd (ag_books _ _ H)) as Hb. revert Hb.
  destruct x as [| | | | | | | | | | | | | | | | | | | |a|now w d pr r|y r|]; try done; cbn [step].
  - destruct (ap_manager p) eqn:Em; try done. destruct (ap_accounts p !! a) as [y|] eqn:Ey; [|done]. rewrite Hs.
    intros Hb. apply manager_stay; rewrite ?Em; auto; by intros.
  - intros _. by apply update_agrees.
  - cbn in Hok. destruct (ap_closed p || _) eqn:El; [done|]. apply orb_false_iff in El as [_ El%bool_decide_eq_false].
    destruct (byID (ac_id y) (ap_accounts p)) eqn:Eb; [by destruct El|]. pose proof (ag_known _ _ H _ (byID_none _ _ Eb)) as (-> & _). cbn [default].
    intros Hb. apply (add_agrees o p (mkAccount _ _ _ _ _ _ 0 0 false false zeroTime None) r H Eb); try done; cbn; rewrite orb_true_iff; [auto|].
    intros [Hy|Hy] Hn; [|done]. destruct Hn. by apply Hun.
  - intros Hb. by apply (agrees_quiet o p).
Qed.

Lemma unopened_agrees o n : 0 <= op_MaxQueuedRequests o -> agrees o (unopened n).
Proof.
  intros Hq. split; [by apply unopened_books|done|done|done|done| |by split].
  intros i ph Hi. cbn in Hi. by apply lookup_replicate in Hi as [-> _].
Qed.

End Health.

Lemma agrees_weaken (D D' : nat -> Prop) o p : (forall a x, ap_accounts p !! a = Some x -> ac_disabled x = true -> D a -> D' a) ->
  agrees D o p -> agrees D' o p.
Proof.
  intros Hw [H1 H2 H3 H4 H5 H6 H7]. split; try done. intros a x Hx. destruct (H5 a x Hx) as (r & Hr & [A1 A2 A3 A4 A5 A6]).
  exists r. split; [done|]. split; try done. intros Hd Hn. apply A3; [done|]. intros HD. by eapply Hn, Hw.
Qed.

(** After [xs] account [a] is dead, and has been since a step that left it dead
    in memory only. *)
Definition dead_in_memory (o : Options) (n : nat) (xs : list action) (a : nat) : Prop :=
  exists k x, xs !! k = Some x /\ unacknowledged x (run o (take k xs) (unopened n)) a /\
    forall j, (k < j <= length xs)%nat -> exists y, ap_accounts (run o (take j xs) (unopened n)) !! a = Some y /\ ac_disabled y = true.

Lemma run_snoc o xs x p : run o (xs ++ [x]) p = step o x (run o xs p).
Proof. unfold run. by rewrite fold_left_app. Qed.

Lemma dead_in_memory_snoc o n xs x a y : ap_accounts (run o (xs ++ [x]) (unopened n)) !! a = Some y -> ac_disabled y = true ->
  dead_in_memory o n xs a \/ unacknowledged x (run o xs (unopened n)) a -> dead_in_memory o n (xs ++ [x]) a.
Proof.
  intros Hy Hd [(k & z & Hk & Hu & Hj)|Hu].
  - pose proof (lookup_lt_Some _ _ _ Hk). exists k, z. rewrite lookup_app_l, take_app_le by lia. split; [done|]. split; [done|].
    intros j Hl. rewrite length_app in Hl. cbn in Hl. destruct (decide (j = S (length xs))) as [->|].
    + rewrite take_ge by (rewrite length_app; cbn; lia). eauto.
    + rewrite take_app_le by lia. apply Hj. lia.
  - exists (length xs), x. rewrite lookup_app_r, Nat.sub_diag by lia. split; [done|]. rewrite take_app_length. split; [done|].
    intros j Hl. rewrite length_app in Hl. cbn in Hl. rewrite take_ge by (rewrite length_app; cbn; lia). eauto.
Qed.

Lemma run_agrees o n xs : op_Store o = true -> limits_ok o -> Forall action_ok xs -> agrees (dead_in_memory o n xs) o (run o xs (unopened n)).
Proof.
  intros Hs (Hc & Hd & Hq). induction xs as [|x xs IH] using rev_ind; intros Hok; [by apply unopened_agrees|].
  apply Forall_app in Hok as [Hok [Hx _]%Forall_cons]. specialize (IH Hok). rewrite run_snoc.
  apply (agrees_weaken (fun a => dead_in_memory o n xs a \/ unacknowledged x (run o xs (unopened n)) a)).
  - intros a y Hy Hdy Ha. eapply dead_in_memory_snoc; [by rewrite run_snoc|done|done].
  - apply step_agrees; try done; [auto|]. eapply agrees_weaken; [|exact IH]. auto.
Qed.

(** ** The theorems *)

(** C7. In a pool with a database, whatever order responses, renewals,
    replacements, cancellations and failing or unacknowledged statements come
    in, a metadata request is granted an account only when the database agrees
    with the pool on the health of every account: an account cools down until
    exactly what its row says, an account whose row is dead is dead, and the row
    of a dead account is dead, unless the account was loaded dead (its saved
    cookies have expired, which every load sees) or a replacement of its session
    committed without the pool being told, and it has been dead since, or the
    manager is publishing a replacement that has committed. So a restart right
    after the grant can neither revive an account a response has condemned
    nor forget a cooldown, and the account granted is not dead and not cooling
    in either. *)
Theorem account_restart o n xs now tried a : op_Store o = true -> limits_ok o -> Forall action_ok xs ->
  let p := run o xs (unopened n) in
  attempt_turn o now "" tried p = Grant a false ->
  (forall b x, ap_accounts p !! b = Some x -> exists r, st_rows p !! ac_id x = Some r /\ rw_cooldown r = ac_cooldown x /\
     (rw_dead r = true -> ac_disabled x = true) /\
     (ac_disabled x = true -> ~ dead_in_memory o n xs b -> (forall auth, ap_manager p <> UReplaced b auth) -> rw_dead r = true)) /\
  exists x r, ap_accounts p !! a = Some x /\ st_rows p !! ac_id x = Some r /\
    ac_disabled x = false /\ rw_dead r = false /\ ac_cooldown x = rw_cooldown r /\ ac_cooldown x <= now.
Proof.
  intros Hs Hl Hok p Hg. pose proof (run_agrees o n xs Hs Hl Hok) as H. fold p in H. pose proof (ag_books _ _ _ H) as Hb.
  destruct (metadata_granted _ _ _ _ _ Hb Hg) as (Hw & Hd & x0 & Hx0 & X1 & X2 & X3). rewrite Hs in Hd. cbn [andb] in Hd.
  destruct (ag_clean _ _ _ H Hd) as [Hp1 Hp2].
  rewrite (bk_writes _ _ Hb) in Hw. pose proof (tally_nonneg is_writing (ap_callers p)).
  assert (forall P, requested (ap_callers p) P -> (forall ph, P ph -> is_writing ph = true) -> False) as Hnone.
  { intros P (i & ph & Hi & HP) Hp. pose proof (tally_lookup is_writing _ _ _ Hi (Hp ph HP)).
    destruct (update_writing (ap_manager p)); cbn in Hw; lia. }
  assert (forall b x, ap_accounts p !! b = Some x -> exists r, st_rows p !! ac_id x = Some r /\ rw_cooldown r = ac_cooldown x /\
    (rw_dead r = true -> ac_disabled x = true) /\
    (ac_disabled x = true -> ~ dead_in_memory o n xs b -> (forall auth, ap_manager p <> UReplaced b auth) -> rw_dead r = true)) as Hag.
  { intros b x Hx. destruct (ag_entry _ _ _ H b x Hx) as (r & Hr & [A1 A2 A3 A4 A5 A6]). exists r. rewrite Hp1, Hp2 in *.
    split; [done|]. split; [|split; [done|]].
    - destruct A6 as [?|[(u & ? & _)|[Hq|(u & Hu & _)]]]; [lia|done| |].
      + destruct (Hnone _ Hq). by intros [].
      + rewrite Hu in Hw. cbn in Hw. lia.
    - intros E Hn Hm. destruct (A3 E Hn) as [?|[[? ?]|[Hq|[auth ?]]]]; [done|done| |by destruct (Hm auth)].
      destruct (Hnone _ Hq). by intros []. }
  split; [exact Hag|]. destruct (Hag a x0 Hx0) as (r & Hr & E1 & E2 & _). exists x0, r. repeat split; try done.
  destruct (rw_dead r); [by rewrite E2 in X1|done].
Qed.

(** ** What a step may do to an account *)

Record health_step (x : action) (p : Pool) (a : nat) (y y' : account) : Prop := {
  hs_cooldown : ac_cooldown y <= ac_cooldown y';
  hs_revived : ac_disabled y = true -> ac_disabled y' = false -> exists auth, ap_manager p = UReplaced a auth;
  hs_disabled : ac_disabled y = false -> ac_disabled y' = true -> exists i now guard v j, x = Apply i now /\
    ap_callers p !! i = Some (Applying a guard v j) /\ ds_disable v.1 = true /\ ds_authorization v.1 = ac_authorization y;
}.

Lemma health_refl x p a y y' : ac_disabled y' = ac_disabled y -> ac_cooldown y' = ac_cooldown y -> health_step x p a y y'.
Proof. intros E1 E2. split; rewrite ?E1, ?E2; congruence || lia. Qed.

Definition health_kept (p p' : Pool) : Prop := forall a y y', ap_accounts p !! a = Some y -> ap_accounts p' !! a = Some y' ->
  ac_disabled y' = ac_disabled y /\ ac_cooldown y' = ac_cooldown y.

Lemma kept_accounts p p' : ap_accounts p' = ap_accounts p -> health_kept p p'.
Proof. intros E a y y' Hy Hy'. rewrite E in Hy'. by replace y' with y by congruence. Qed.
Lemma kept_on p q b f : ap_accounts q = ap_accounts p -> (forall x, ac_disabled (f x) = ac_disabled x /\ ac_cooldown (f x) = ac_cooldown x) ->
  health_kept p (on b f q).
Proof.
  intros E Hf a y y' Hy [[_ Hy']|[-> (x & Hx & ->)]]%on_lookup; [rewrite E in Hy'; by replace y' with y by congruence|].
  rewrite E in Hx. by replace x with y by congruence.
Qed.
Lemma kept_trans p1 p2 p3 : health_kept p1 p2 -> health_kept p2 p3 -> length (ap_accounts p2) = length (ap_accounts p1) -> health_kept p1 p3.
Proof.
  intros H1 H2 Hl a y y' Hy Hy'. destruct (lookup_lt_is_Some_2 (ap_accounts p2) a) as [z Hz]; [rewrite Hl; by eapply lookup_lt_Some|].
  destruct (H1 a y z Hy Hz) as [<- <-]. by apply (H2 a).
Qed.
Lemma kept_renew i now a rejected err j b f p : (forall x, ac_disabled (f x) = ac_disabled x /\ ac_cooldown (f x) = ac_cooldown x) ->
  health_kept p (end_renew i now a rejected err j (on b f p)).
Proof.
  intros Hf. eapply kept_trans; [by apply (kept_on p p b f)|apply (kept_on _ _ a (set_gate false)); [done|by intros]|].
  unfold on. cbn. apply length_alter.
Qed.

Lemma kept_refresh now e r x : ac_disabled (refreshed now e r x) = ac_disabled x /\ ac_cooldown (refreshed now e r x) = ac_cooldown x.
Proof. unfold refreshed. by destruct (_ && _). Qed.

Lemma kept_request o x p : request_step x = true -> (forall i now, x <> Apply i now) -> health_kept p (step o x p).
Proof.
  intros Hx Hn.
  destruct x as [i m w d|i m|i now e|i|i now|i d e|i|i now e|i now|i now e r|i now e ef ok|i now e|i|i now|i|i w d|i|i|i e se|i| | | |]; try done;
    cbn [step]; (destruct (ap_callers p !! i) as [ph|] eqn:Hi; [|by apply kept_accounts]);
    destruct ph as [|pin q j|a|a rn j|a au rn j|a au rn j|a re j|a re j|a re j|a re au j|a au j|a v j|a g v j|a g rs un v j|a g v j|a g sv v j|a g sv v j|a sv v j|r0];
    try (by apply kept_accounts).
  - destruct (negb _); [by apply kept_accounts|]. destruct (op_Store o); [|by apply kept_accounts].
    rewrite (surjective_pairing (flush w d p)). destruct (flush w d p).1; apply kept_accounts, flush_frame.
  - destruct (negb _); by apply kept_accounts.
  - unfold acquire. destruct e; [by apply kept_accounts|]. destruct (attempt_turn _ _ _ _ _) as [b []|f|]; [by apply (kept_on p p)|by apply (kept_on p p)|by apply kept_accounts|].
    destruct q; [|destruct (_ <=? _)]; by apply kept_accounts.
  - destruct (ap_accounts p !! a); by apply kept_accounts.
  - destruct (ap_accounts p !! a) as [y|]; [|by apply kept_accounts]. destruct (accountUnavailable now y); [by apply kept_accounts|].
    destruct (_ && _); [destruct (ac_login y)|]; by apply kept_accounts.
  - destruct (ap_accounts p !! a) as [y|]; [|by apply kept_accounts]. destruct (_ && ac_login y); by apply kept_accounts.
  - destruct (gate_of p a); [by apply kept_accounts|by apply (kept_on p p)].
  - destruct (ap_accounts p !! a) as [y|]; [|by apply kept_accounts].
    destruct (refresh_check now re y); [by apply (kept_on p p)|by apply kept_accounts].
  - destruct r as [[[] au]|f]; [destruct (op_Store o); by apply kept_accounts| |]; apply kept_renew; intros; apply kept_refresh.
  - set (r := if ef then _ else _). rewrite (surjective_pairing r).
    assert (ap_accounts r.2 = ap_accounts p) as Hf by (unfold r; destruct ef; [apply save_session_frame|done]).
    destruct (r.1 && ok); [by apply kept_accounts|]. eapply kept_trans; [by apply (kept_accounts p r.2)|apply kept_renew; intros; apply kept_refresh|by rewrite Hf].
  - unfold end_login. rewrite on_on. apply kept_renew. intros y. apply (kept_refresh now e None (set_session au (ac_login y) y)).
  - destruct (ds_disable _ || _); [|by apply kept_accounts]. destruct (gate_of p a); [by apply kept_accounts|by apply (kept_on p p)].
  - by destruct (Hn i now).
  - apply kept_accounts, mark_frame.
  - rewrite (surjective_pairing (flush w d p)). apply kept_accounts, flush_frame.
  - destruct g; [by apply (kept_on p p)|by apply kept_accounts].
  - destruct (_ && gate_of p a); [by apply kept_accounts|by apply (kept_on p p)].
  - by apply (kept_on p p).
Qed.

Lemma kept_update o p now w d effect result : (forall a, ap_manager p <> UVerifying a) -> (forall a auth, ap_manager p <> UReplaced a auth) ->
  health_kept p (step o (UpdateStep now w d effect result) p).
Proof.
  intros Hv Hr. cbn [step].
  destruct (ap_manager p) as [|a|a|a|a|a|a u|a|a|a au|a au|a g] eqn:Em; try (by apply kept_accounts); try (by edestruct Hv); try (by edestruct Hr).
  - destruct (ap_accounts p !! a) as [x|]; [|by apply kept_accounts]. destruct (negb _); [by apply kept_accounts|]. destruct (_ || _); by apply kept_accounts.
  - destruct (negb _); [by apply kept_accounts|]. rewrite (surjective_pairing (flush w d p)). apply kept_accounts, flush_frame.
  - destruct (negb _); [by apply kept_accounts|]. destruct (gate_of p a); [by apply kept_accounts|by apply (kept_on p p)].
  - destruct (ap_accounts p !! a) as [x|]; [|by apply kept_accounts].
    destruct effect; [destruct (_ <? _); by apply kept_accounts|]. destruct result; [by apply (kept_on p p)|by apply kept_accounts].
  - apply kept_accounts, mark_frame.
  - rewrite (surjective_pairing (flush w d p)). apply kept_accounts, flush_frame.
  - set (r := if effect then _ else _). rewrite (surjective_pairing r). apply kept_accounts. unfold r. destruct effect; [apply replace_session_frame|done].
  - destruct g; by apply (kept_on p p).
Qed.

(** In any state and for any step, an account's cooldown never gets
    shorter; a dead account is revived only by the manager, once the row holds a
    verified replacement; and an account dies only by a verdict that asks for
    it, of a response to the session the account has now, so a late failure of
    a replaced session never disables its replacement. *)
Theorem account_health_step o x p a y y' : ap_accounts p !! a = Some y -> ap_accounts (step o x p) !! a = Some y' -> health_step x p a y y'.
Proof.
  intros Hy Hy'. destruct (request_step x) eqn:Hx.
  - destruct x; try (destruct (kept_request o _ p Hx ltac:(done) a y y' Hy Hy'); by apply health_refl).
    cbn [step] in Hy'. destruct (ap_callers p !! i) as [ph|] eqn:Hi; [|apply health_refl; congruence].
    destruct ph as [| | | | | | | | | | | |b g v j| | | | | |]; try (apply health_refl; congruence).
    destruct (ap_accounts p !! b) as [z|] eqn:Ez; [|apply health_refl; congruence].
    pose proof (judge_spec now v.1 z) as J. destruct (judge now v.1 z) as [[z' d] until]. destruct J as (J1 & J2 & J3 & J4 & J5 & J6).
    assert (ap_accounts (on b (fun _ => z') p) !! a = Some y') as H' by (by destruct (_ && _)).
    apply on_lookup in H' as [[_ H']|[-> (w & Hw & ->)]]; [apply health_refl; congruence|].
    assert (z = y) as -> by congruence. split.
    + rewrite J3. destruct until as [u|]; cbn; [destruct (J4 u eq_refl)|]; lia.
    + intros E1 E2. destruct J2 as [_ J2]. rewrite J2 in E2 by auto. done.
    + intros E1 E2. destruct J2 as [J2 _]. destruct (J2 E2) as [E|E]; [|congruence]. destruct (J5 E). by exists i, now, g, v, j.
  - destruct x as [| | | | | | | | | | | | | | | | | | | |b|now w d effect result|z r|]; try done.
    + cbn [step] in Hy'. destruct (ap_manager p); try (apply health_refl; congruence).
      destruct (ap_accounts p !! b); [|apply health_refl; congruence]. destruct (op_Store o); [|apply health_refl; congruence].
      destruct (kept_on p p b (set_updating true) eq_refl ltac:(done) a y y' Hy Hy'). by apply health_refl.
    + destruct (ap_manager p) as [|b|b|b|b|b|b u|b|b|b au|b au|b g] eqn:Em;
        try (destruct (kept_update o p now w d effect result ltac:(congruence) ltac:(congruence) a y y' Hy Hy'); by apply health_refl);
        cbn [step] in Hy'; rewrite Em in Hy'.
      * destruct (ap_accounts p !! b) as [z|] eqn:Ez; [|apply health_refl; congruence].
        destruct result as [v|f]; [apply health_refl; cbn in Hy'; congruence|]. destruct (0 <? _); [|apply health_refl; cbn in Hy'; congruence].
        apply on_lookup in Hy' as [[_ Hy']|[-> (w' & Hw & ->)]]; [apply health_refl; congruence|].
        assert (z = y) as -> by congruence. assert (w' = y) as -> by congruence. split; cbn; [lia|congruence|congruence].
      * apply on_lookup in Hy' as [[_ Hy']|[-> (w' & Hw & ->)]]; [apply health_refl; congruence|].
        assert (w' = y) as -> by congruence. split; cbn; [lia|eauto|done].
    + cbn [step] in Hy'. destruct (_ || _); [apply health_refl; congruence|]. cbn in Hy'.
      rewrite lookup_app_l in Hy' by (by eapply lookup_lt_Some). apply health_refl; congruence.
    + apply health_refl; cbn in Hy'; congruence.
Qed.

(** Account 1 is challenged while the database is out of reach; its checkpoint
    fails, nothing is granted until the next request has retried it, and that
    request gets account 2. *)
Definition demo_dead : disposition := mkDisposition "" false false true "challenge_required" 90.
Definition demo_health : list action :=
  demo_load ++
  [Enter 0 "17" None []; Turn 0 5 None; Session 0; CheckAccount 0 6; Reply 0 demo_dead (Some (loginFailure "challenge_required"));
   Guard 0; Apply 0 10; Mark 0; Flush 0 None []; Saved 0; Ungate 0; Finish 0 None None; Enter 1 "18" (Some ["instagram:1"]) []].

Lemma demo_health_ok : Forall action_ok demo_health.
Proof. repeat constructor; cbn; try done. Qed.

Example account_restart_witness :
  let p := run demo_options demo_health (unopened 2) in
  attempt_turn demo_options 11 "" [] (run demo_options (take 11 demo_health) (unopened 2)) = Refuse dbFailure /\
  attempt_turn demo_options 11 "" [] p = Grant 1%nat false /\
  exists r, st_rows p !! "instagram:1"%string = Some r /\ rw_dead r = true /\ rw_cooldown r = 100.
Proof.
  intros p. split; [vm_compute; reflexivity|]. assert (attempt_turn demo_options 11 "" [] p = Grant 1%nat false) as Hg by (vm_compute; reflexivity).
  split; [exact Hg|].
  assert (limits_ok demo_options) as Hl by (split; [|split]; vm_compute; discriminate).
  destruct (account_restart demo_options 2 demo_health 11 [] 1 eq_refl Hl demo_health_ok Hg) as [H _]. fold p in H.
  destruct (ap_accounts p !! 0%nat) as [x|] eqn:Ex; [|vm_compute in Ex; discriminate].
  destruct (H 0%nat x Ex) as (r & Hr & E1 & _ & E2). assert (ac_disabled x = true) as Hd by (vm_compute in Ex; injection Ex as <-; reflexivity).
  assert (rw_dead r = true) as Hdead.
  { apply E2; [exact Hd| |intros auth; vm_compute; discriminate]. intros (k & y & Hk & Hu & _).
    do 15 (destruct k as [|k]; [cbn in Hk; injection Hk as <-; cbn in Hu; try (destruct Hu; discriminate); exact Hu|]). discriminate Hk. }
  vm_compute in Ex. injection Ex as <-. exists r. split; [exact Hr|]. split; [exact Hdead|exact E1].
Defined.

(** A late verdict on the session [s1] finds [s1'] in its place. *)
Example account_health_step_witness :
  let x0 := mkAccount "instagram:1" "s1'" true false "" 50 1 0 false true zeroTime None in
  let v := (mkDisposition "s1" false false true "challenge_required" 20, None) in
  let p := mkPool [x0] 0 0 0 false [Applying 0 true v (mkJob [] 0 None)] UIdle false ∅ ∅ ∅ in
  exists y', ap_accounts (step demo_options (Apply 0 100) p) !! 0%nat = Some y' /\ ac_disabled y' = false /\ ac_cooldown x0 <= ac_cooldown y' /\ ac_cooldown y' = 120.
Proof.
  intros x0 v p. destruct (ap_accounts (step demo_options (Apply 0 100) p) !! 0%nat) as [y'|] eqn:Ey; [|vm_compute in Ey; discriminate].
  pose proof (hs_cooldown _ _ _ _ _ (account_health_step demo_options (Apply 0 100) p 0 x0 y' eq_refl Ey)) as Hc.
  vm_compute in Ey. injection Ey as <-. exists (mkAccount "instagram:1" "s1'" true false "" 120 1 0 false true zeroTime None).
  repeat split; try exact Hc; vm_compute; reflexivity.
Defined.
