(* ===== verification/Memo.v ===== *)
(** * platform: shared computations

    Models src/internal/platform/cache.go ([memo]: newMemo, get, put, do) over
    the cache of Cache.v.  Calls of [do] run concurrently; what a call does
    under [mu] is one step, as is the end of [fn] with the section that follows
    it.  A [*flight] is its position in [me_heap], and its [done] channel is
    closed once it has a result.  Contexts, clocks and the results of [fn] are
    inputs of the steps. *)
From S2P Require Import Prelude Strconv Errors Cache CacheRefine.
From stdpp Require Import gmap.
Open Scope Z_scope.
Open Scope go_scope.

Section Memo.
Context {T : Type} (expires : option (T -> Z)).

(** The result of a flight once [done] is closed, and whether it is [canceled]. *)
Definition flight : Type := option (res goerr T * bool).

Record request := mkRequest { rq_key : string; rq_refresh : bool }.

(** Where a call of [do] is. *)
Inductive phase :=
| Trying
| Leading (f : nat)
| Waiting (f : nat)
| Returned (r : res goerr T).

Record memo := mkMemo {
  me_cache : Cache T;
  me_flights : gmap string nat;
  me_heap : list flight;
  me_maximum : Z;
  me_ttl : Z;
  me_requests : list request;
  me_callers : list phase;
}.

Definition Minute : Z := 60 * 1000000000.

Definition newMemo (ttl capacity maximum : Z) (requests : list request) : memo :=
  let ttl := if ttl <=? 0 then Minute else ttl in
  let maximum := if maximum <=? 0 then 8192 else maximum in
  mkMemo (NewCache ttl capacity) ∅ [] maximum ttl requests (replicate (length requests) Trying).

Definition set_cache (c : Cache T) (m : memo) : memo :=
  mkMemo c (me_flights m) (me_heap m) (me_maximum m) (me_ttl m) (me_requests m) (me_callers m).
Definition set_flights (fs : gmap string nat) (h : list flight) (m : memo) : memo :=
  mkMemo (me_cache m) fs h (me_maximum m) (me_ttl m) (me_requests m) (me_callers m).
Definition move (i : nat) (ph : phase) (m : memo) : memo :=
  mkMemo (me_cache m) (me_flights m) (me_heap m) (me_maximum m) (me_ttl m) (me_requests m) (<[i := ph]> (me_callers m)).

Definition get (now : Z) (key : string) (m : memo) : option T * memo :=
  let (v, c) := Get now key (me_cache m) in (v, set_cache c m).

Definition put (now now' : Z) (key : string) (value : T) (m : memo) : memo :=
  let deadline := now + me_ttl m in
  let deadline := match expires with Some e => if e value <? deadline then e value else deadline | None => deadline end in
  set_cache (SetUntil now' key value deadline (me_cache m)) m.

Definition busy : goerr := ErrCore (NewError "service_busy" "The metadata request queue is full" 503).

(** The loop of [do], up to [fn] or the wait. *)
Definition turn (i : nat) (rq : request) (now : Z) (ctxErr : option goerr) (m : memo) : memo :=
  match ctxErr with
  | Some e => move i (Returned (Err e)) m
  | None =>
      let (hit, m) := if rq_refresh rq then (None, m) else get now (rq_key rq) m in
      match hit with
      | Some v => move i (Returned (Ok v)) m
      | None =>
          match me_flights m !! rq_key rq with
          | Some f => move i (Waiting f) m
          | None =>
              if me_maximum m <=? Z.of_nat (size (me_flights m)) then move i (Returned (Err busy)) m
              else
                let f := length (me_heap m) in
                move i (Leading f) (set_flights (<[rq_key rq := f]> (me_flights m)) (me_heap m ++ [None]) m)
          end
      end
  end.

(** [fn] returned. *)
Definition finish (i : nat) (rq : request) (f : nat) (now now' : Z) (result : res goerr T) (ctxErr : option goerr) (m : memo) : memo :=
  let canceled := match result with Err _ => bool_decide (is_Some ctxErr) | Ok _ => false end in
  let m := match result with Ok v => put now now' (rq_key rq) v m | Err _ => m end in
  move i (Returned result)
    (set_flights (delete (rq_key rq) (me_flights m)) (<[f := Some (result, canceled)]> (me_heap m)) m).

Inductive action :=
| Turn (i : nat) (now : Z) (ctxErr : option goerr)
| Finish (i : nat) (now now' : Z) (result : res goerr T) (ctxErr : option goerr)
| Wake (i : nat)
| Cancel (i : nat) (ctxErr : goerr)
| Put (now now' : Z) (key : string) (value : T).

Definition step (x : action) (m : memo) : memo :=
  match x with
  | Turn i now ctxErr =>
      match me_callers m !! i, me_requests m !! i with
      | Some Trying, Some rq => turn i rq now ctxErr m
      | _, _ => m
      end
  | Finish i now now' result ctxErr =>
      match me_callers m !! i, me_requests m !! i with
      | Some (Leading f), Some rq => finish i rq f now now' result ctxErr m
      | _, _ => m
      end
  | Wake i =>
      match me_callers m !! i with
      | Some (Waiting f) =>
          match me_heap m !! f with
          | Some (Some (_, true)) => move i Trying m
          | Some (Some (r, false)) => move i (Returned r) m
          | _ => m
          end
      | _ => m
      end
  | Cancel i ctxErr =>
      match me_callers m !! i with
      | Some (Waiting _) => move i (Returned (Err ctxErr)) m
      | _ => m
      end
  | Put now now' key value => put now now' key value m
  end.

Definition run (xs : list action) (m : memo) : memo := fold_left (fun m x => step x m) xs m.

(** ** One flight per key *)

Record flights_ok (m : memo) : Prop := {
  fo_open k f : me_flights m !! k = Some f -> me_heap m !! f = Some None /\
    exists i rq, me_callers m !! i = Some (Leading f) /\ me_requests m !! i = Some rq /\ rq_key rq = k;
  fo_lead i f : me_callers m !! i = Some (Leading f) -> exists rq, me_requests m !! i = Some rq /\ me_flights m !! rq_key rq = Some f;
  fo_one i j f : me_callers m !! i = Some (Leading f) -> me_callers m !! j = Some (Leading f) -> i = j;
  fo_wait i f : me_callers m !! i = Some (Waiting f) -> exists rq, me_requests m !! i = Some rq /\
    (me_flights m !! rq_key rq = Some f \/ is_Some (mjoin (me_heap m !! f)));
  fo_max : Z.of_nat (size (me_flights m)) <= me_maximum m;
  fo_length : length (me_callers m) = length (me_requests m);
}.

Definition leading (ph : phase) : bool := match ph with Leading _ => true | _ => false end.

Lemma move_cases (l : list phase) i ph k ph' : <[i := ph]> l !! k = Some ph' -> (k = i /\ ph' = ph) \/ (k <> i /\ l !! k = Some ph').
Proof. intros [(-> & -> & _)|[? H]]%list_lookup_insert_Some; auto. Qed.

(** A call that leads no flight goes on, and joins one at most. *)
Lemma flights_move i ph0 ph c m : flights_ok m -> me_callers m !! i = Some ph0 -> leading ph0 = false -> leading ph = false ->
  (forall f, ph = Waiting f -> exists rq, me_requests m !! i = Some rq /\ me_flights m !! rq_key rq = Some f) ->
  flights_ok (move i ph (set_cache c m)).
Proof.
  intros [H1 H2 H3 H4 H5 H6] Hi Hl0 Hl Hw. split; cbn [move set_cache me_callers me_flights me_heap me_requests me_maximum]; try done.
  - intros k f Hf. destruct (H1 k f Hf) as (? & j & rq & Hj & ?). split; [done|]. exists j, rq. split; [|done].
    rewrite list_lookup_insert_ne; [done|]. intros ->. rewrite Hi in Hj. injection Hj as ->. done.
  - intros j f [[-> <-]|[_ Hj]]%move_cases; [done|eauto].
  - intros j k f [[-> <-]|[? Hj]]%move_cases [[-> E]|[? Hk]]%move_cases; try done; [by subst|eauto].
  - intros j f [[-> E]|[_ Hj]]%move_cases; [|eauto]. destruct (Hw f (eq_sym E)) as (rq & ? & ?). eauto.
  - by rewrite length_insert.
Qed.

Lemma set_cache_id m : set_cache (me_cache m) m = m.
Proof. by destruct m. Qed.

Lemma flights_put now now' k v m : flights_ok m -> flights_ok (put now now' k v m).
Proof. by intros [H1 H2 H3 H4 H5 H6]. Qed.

Lemma turn_flights i rq now e m : flights_ok m -> me_callers m !! i = Some Trying -> me_requests m !! i = Some rq -> flights_ok (turn i rq now e m).
Proof.
  intros H Hi Hr. unfold turn. destruct e as [e|]; [rewrite <- (set_cache_id m); by eapply flights_move|].
  assert (exists c hit, (if rq_refresh rq then (None, m) else get now (rq_key rq) m) = (hit, set_cache c m)) as (c & hit & ->).
  { unfold get. destruct (rq_refresh rq); [exists (me_cache m), None; by rewrite set_cache_id|]. destruct (Get now _ _) as [v c]. eauto. }
  destruct hit as [v|]; [by eapply flights_move|]. cbn [me_flights set_cache me_maximum].
  destruct (me_flights m !! rq_key rq) as [f|] eqn:Ef; [eapply flights_move; [done|done|done|done|]; intros f' [= <-]; eauto|].
  destruct (Z.leb_spec (me_maximum m) (Z.of_nat (size (me_flights m)))); [by eapply flights_move|].
  destruct H as [H1 H2 H3 H4 H5 H6]. cbn [me_heap set_cache].
  split; cbn [move set_flights set_cache me_callers me_flights me_heap me_requests me_maximum].
  - intros k f [[<- <-]|[Hn Hf]]%lookup_insert_Some.
    + split; [by rewrite lookup_app_r, Nat.sub_diag|]. exists i, rq. split; [|done]. apply list_lookup_insert_eq. by eapply lookup_lt_Some.
    + destruct (H1 k f Hf) as (Ho & j & rq' & Hj & ?). split; [by apply lookup_app_l_Some|]. exists j, rq'. split; [|done].
      rewrite list_lookup_insert_ne; [done|]. intros ->. congruence.
  - intros j f [[-> [= ->]]|[Hne Hj]]%move_cases; [exists rq; by rewrite lookup_insert_eq|].
    destruct (H2 j f Hj) as (rq' & Hr' & Hf'). exists rq'. split; [done|]. rewrite lookup_insert_ne; [done|]. intros E. congruence.
  - assert (forall j f, me_callers m !! j = Some (Leading f) -> f <> length (me_heap m)) as Hlt.
    { intros j f Hj ->. destruct (H2 j _ Hj) as (rq' & _ & Hf'). destruct (H1 _ _ Hf') as [Ho _]. by apply lookup_lt_Some, Nat.lt_irrefl in Ho. }
    intros j k f [[-> E]|[? Hj]]%move_cases [[-> E']|[? Hk]]%move_cases; simplify_eq; [done| | |eauto]; by edestruct Hlt.
  - intros j f [[_ E]|[_ Hj]]%move_cases; [done|]. destruct (H4 j f Hj) as (rq' & Hr' & [Hf'|Hd]); exists rq'; (split; [done|]).
    + left. rewrite lookup_insert_ne; [done|]. intros E. congruence.
    + right. destruct (me_heap m !! f) as [x|] eqn:Eh; [|by destruct Hd]. by rewrite (lookup_app_l_Some _ _ _ _ Eh).
  - rewrite map_size_insert_None by done. lia.
  - by rewrite length_insert.
Qed.

Lemma finish_flights i rq f now now' r e m : flights_ok m -> me_callers m !! i = Some (Leading f) -> me_requests m !! i = Some rq ->
  flights_ok (finish i rq f now now' r e m).
Proof.
  intros H Hi Hr. unfold finish. set (m' := match r with Ok v => _ | Err _ => m end).
  assert (flights_ok m' /\ me_callers m' = me_callers m /\ me_requests m' = me_requests m) as ([H1 H2 H3 H4 H5 H6] & Ec & Er)
    by (unfold m'; destruct r; [split; [by apply flights_put|done]|done]).
  rewrite <- Ec in Hi. rewrite <- Er in Hr. clearbody m'. clear m H Ec Er.
  destruct (H2 i f Hi) as (rq' & Hr' & Hf). assert (rq' = rq) as -> by congruence. destruct (H1 _ _ Hf) as [Ho _].
  assert (forall k g, me_flights m' !! k = Some g -> k <> rq_key rq -> g <> f) as Hother.
  { intros k g Hg Hk ->. destruct (H1 k f Hg) as (_ & j & rq' & Hj & Hrj & Hkj). assert (j = i) as -> by eauto. congruence. }
  split; cbn [move set_flights me_callers me_flights me_heap me_requests me_maximum].
  - intros k g [Hk Hg]%lookup_delete_Some. destruct (H1 k g Hg) as (Hog & j & rq' & Hj & Hrj & Hkj). split.
    + rewrite list_lookup_insert_ne; [done|]. intros E. by apply (Hother k g).
    + exists j, rq'. split; [|done]. rewrite list_lookup_insert_ne; [done|]. intros ->. congruence.
  - intros j g [[_ E]|[Hn Hj]]%move_cases; [done|]. destruct (H2 j g Hj) as (rq' & Hrj & Hg). exists rq'. split; [done|].
    apply lookup_delete_Some. split; [|done]. intros Hk. rewrite <- Hk in Hg. assert (g = f) as -> by congruence. by destruct Hn; eauto.
  - intros j k g [[_ E]|[? Hj]]%move_cases [[_ E']|[? Hk]]%move_cases; try done. eauto.
  - intros j g [[_ E]|[_ Hj]]%move_cases; [done|]. destruct (H4 j g Hj) as (rq' & Hrj & Hd). exists rq'. split; [done|].
    destruct (decide (g = f)) as [->|Hne]; [right; rewrite list_lookup_insert_eq by (by eapply lookup_lt_Some); cbn; eauto|].
    rewrite list_lookup_insert_ne by done. destruct Hd as [Hd|Hd]; [|auto]. left. apply lookup_delete_Some. split; [|done]. intros Hk. congruence.
  - rewrite map_size_delete. destruct (me_flights m' !! rq_key rq); [|done]. pose proof (Nat.le_pred_l (size (me_flights m'))). lia.
  - by rewrite length_insert.
Qed.

Lemma step_flights x m : flights_ok m -> flights_ok (step x m).
Proof.
  intros H. destruct x as [i now e|i now now' r e|i|i e|now now' k v]; cbn [step]; [| | | |by apply flights_put].
  - destruct (me_callers m !! i) as [[|f|f|r]|] eqn:Hi; try done. destruct (me_requests m !! i) as [rq|] eqn:Hr; [|done]. by apply turn_flights.
  - destruct (me_callers m !! i) as [[|f|f|r']|] eqn:Hi; try done. destruct (me_requests m !! i) as [rq|] eqn:Hr; [|done]. by apply finish_flights.
  - destruct (me_callers m !! i) as [[|f|f|r]|] eqn:Hi; try done. destruct (me_heap m !! f) as [[[r []]|]|]; try done;
      rewrite <- (set_cache_id m); by eapply flights_move.
  - destruct (me_callers m !! i) as [[|f|f|r]|] eqn:Hi; try done. rewrite <- (set_cache_id m). by eapply flights_move.
Qed.

Lemma newMemo_flights t cap mx rqs : flights_ok (newMemo t cap mx rqs).
Proof.
  split; cbn; try done; [intros i f H|intros i j f H|intros i f H| |by rewrite length_replicate]; try (by apply lookup_replicate in H as [? _]).
  rewrite map_size_empty. destruct (Z.leb_spec mx 0); lia.
Qed.

Lemma run_ind (P : memo -> Prop) xs m : P m -> (forall x m, x ∈ xs -> P m -> P (step x m)) -> P (run xs m).
Proof.
  unfold run. revert m. induction xs as [|x xs IH]; intros m Hm Hs; cbn [fold_left]; [done|].
  apply IH; [apply Hs; [left|done]|]. intros y m' Hy. apply Hs. by right.
Qed.

(** ** What calls return *)

Section Outcomes.
(** [good k v]: [v] is an answer for the key [k]; [fault k e]: computing [k] can
    fail with [e]; [mine i e]: call [i] was ended by its context with [e]. *)
Context (good : string -> T -> Prop) (fault : string -> goerr -> Prop) (mine : nat -> goerr -> Prop).

Definition action_ok (rqs : list request) (x : action) : Prop :=
  match x with
  | Turn i _ (Some e) | Cancel i e => mine i e
  | Finish i _ _ r ctxErr => forall rq, rqs !! i = Some rq ->
      match r with
      | Ok v => good (rq_key rq) v
      | Err e => match ctxErr with Some _ => mine i e | None => fault (rq_key rq) e end
      end
  | Put _ _ k v => good k v
  | _ => True
  end.

Definition outcome_ok (i : nat) (k : string) (r : res goerr T) : Prop :=
  match r with Ok v => good k v | Err e => mine i e \/ fault k e \/ e = busy end.

Record outcomes_ok (m : memo) : Prop := {
  oc_wf : wf (me_cache m);
  oc_cache e : e ∈ represents (me_cache m) -> good (e_key e) (e_value e);
  oc_wait i f r rq : me_callers m !! i = Some (Waiting f) -> me_requests m !! i = Some rq -> me_heap m !! f = Some (Some (r, false)) ->
    match r with Ok v => good (rq_key rq) v | Err e => fault (rq_key rq) e end;
  oc_done i r rq : me_callers m !! i = Some (Returned r) -> me_requests m !! i = Some rq -> outcome_ok i (rq_key rq) r;
}.

Lemma lru_find_key k (l : list (entry T)) e : lru_find k l = Some e -> e ∈ l /\ e_key e = k.
Proof. intros [H E%bool_decide_eq_true]%List.find_some. split; [by apply list_elem_of_In|done]. Qed.

Lemma get_outcome now k m : outcomes_ok m -> let r := get now k m in
  (forall v, r.1 = Some v -> good k v) /\ outcomes_ok r.2.
Proof.
  intros [H1 H2 H3 H4]. unfold get. destruct (Get_spec now k _ H1) as (E1 & W & E2 & _).
  destruct (Get now k (me_cache m)) as [v c]. cbn [fst snd] in *. unfold lru_get in *.
  assert (forall e, e ∈ lru_del k (represents (me_cache m)) -> good (e_key e) (e_value e)) as Hd
    by (intros e [_ He]%list_elem_of_filter; auto).
  destruct (lru_find k _) as [e|] eqn:Ef; [apply lru_find_key in Ef as [Hin <-]; destruct (now <? e_expires e)|]; cbn [fst snd] in *; subst v.
  - split; [intros v [= <-]; auto|]. split; cbn; [done| |done|done]. rewrite E2. intros e' [->|He]%elem_of_cons; auto.
  - split; [done|]. split; cbn; [done| |done|done]. by rewrite E2.
  - split; [done|]. split; cbn; [done| |done|done]. by rewrite E2.
Qed.

Lemma put_outcome now now' k v m : good k v -> outcomes_ok m -> outcomes_ok (put now now' k v m).
Proof.
  intros Hg [H1 H2 H3 H4]. unfold put. set (d := match expires with Some _ => _ | None => _ end). clearbody d.
  destruct (SetUntil_spec now' k v d _ H1) as (W & E & _). split; cbn; [done| |done|done]. rewrite E. unfold lru_set_until.
  assert (forall e, e ∈ lru_purge now' (represents (me_cache m)) -> good (e_key e) (e_value e)) as Hp
    by (intros e [_ He]%list_elem_of_filter; auto).
  assert (forall e, e ∈ lru_del k (lru_purge now' (represents (me_cache m))) -> good (e_key e) (e_value e)) as Hd
    by (intros e [_ He]%list_elem_of_filter; auto).
  intros e. destruct (d <=? now'); [auto|]. destruct (lru_find k _); intros [->|He]%elem_of_cons; auto.
  destruct (_ <=? _); [|auto]. apply Hp. apply list_elem_of_In. apply list_elem_of_In in He.
  destruct (lru_purge now' (represents (me_cache m))) as [|x l] eqn:El; [done|].
  rewrite (app_removelast_last x) by done. apply in_or_app. by left.
Qed.

Lemma outcomes_move i ph m : outcomes_ok m ->
  (forall f r rq, ph = Waiting f -> me_requests m !! i = Some rq -> me_heap m !! f = Some (Some (r, false)) ->
     match r with Ok v => good (rq_key rq) v | Err e => fault (rq_key rq) e end) ->
  (forall r rq, ph = Returned r -> me_requests m !! i = Some rq -> outcome_ok i (rq_key rq) r) -> outcomes_ok (move i ph m).
Proof.
  intros [H1 H2 H3 H4] Hw Hr. split; cbn; [done|done| |].
  - intros k f r rq [[-> E]|[_ Hk]]%move_cases; [by apply Hw|by apply H3].
  - intros k r rq [[-> E]|[_ Hk]]%move_cases; [by apply Hr|by apply H4].
Qed.

Lemma turn_outcomes i rq now e m : flights_ok m -> outcomes_ok m -> me_requests m !! i = Some rq -> (forall e', e = Some e' -> mine i e') ->
  outcomes_ok (turn i rq now e m).
Proof.
  intros F H Hr He. unfold turn. destruct e as [e|].
  { apply outcomes_move; [done|done|]. intros r rq' [= <-] _. left. auto. }
  destruct (if rq_refresh rq then (None, m) else get now (rq_key rq) m) as [hit m1] eqn:Eg.
  assert ((forall v, hit = Some v -> good (rq_key rq) v) /\ outcomes_ok m1 /\ me_flights m1 = me_flights m /\ me_heap m1 = me_heap m /\
          me_requests m1 = me_requests m /\ me_maximum m1 = me_maximum m) as (Hh & H1 & E1 & E2 & E3 & E4).
  { destruct (rq_refresh rq); [by simplify_eq|]. destruct (get_outcome now (rq_key rq) m H) as [G1 G2]. rewrite Eg in *. cbn in *.
    split; [done|]. split; [done|]. unfold get in Eg. destruct (Get _ _ _). by simplify_eq. }
  destruct hit as [v|]; [apply outcomes_move; [done|done|]; intros r rq' [= <-] Hr'; rewrite E3 in Hr'; replace rq' with rq by congruence; cbn; auto|].
  rewrite E1, E2, E4. destruct (me_flights m !! rq_key rq) as [f|] eqn:Ef.
  { apply outcomes_move; [done| |done]. intros f' r rq' [= <-] _ Hf. destruct (fo_open _ F _ _ Ef) as [Ho _]. congruence. }
  destruct (_ <=? _); [apply outcomes_move; [done|done|]; intros r rq' [= <-] _; cbn; auto|].
  apply outcomes_move; [|done|done]. destruct H1 as [A1 A2 A3 A4]. split; cbn; [done|done| |done].
  intros k f r rq' Hk Hrq Hf. apply (A3 k f r rq' Hk Hrq). rewrite E2.
  apply lookup_app_Some in Hf as [Hf|[_ Hf]]; [done|]. apply list_elem_of_lookup_2, list_elem_of_singleton in Hf. discriminate Hf.
Qed.

Lemma finish_outcomes i rq f now now' r e m : flights_ok m -> outcomes_ok m -> me_callers m !! i = Some (Leading f) -> me_requests m !! i = Some rq ->
  action_ok (me_requests m) (Finish i now now' r e) -> outcomes_ok (finish i rq f now now' r e m).
Proof.
  intros F H Hi Hr Hok. cbn in Hok. specialize (Hok rq Hr). unfold finish. set (m1 := match r with Ok v => _ | Err _ => m end).
  assert (outcomes_ok m1 /\ me_callers m1 = me_callers m /\ me_requests m1 = me_requests m /\ me_heap m1 = me_heap m) as ([A1 A2 A3 A4] & E1 & E2 & E3)
    by (unfold m1; destruct r; [split; [by apply put_outcome|done]|done]).
  apply outcomes_move; [|done|].
  - split; cbn; [done|done| |done]. intros k g r' rq' Hk Hrq Hf. destruct (decide (g = f)) as [->|Hne].
    + rewrite list_lookup_insert_eq in Hf.
      * injection Hf as -> Hc. rewrite E1 in Hk. rewrite E2 in Hrq. destruct (fo_wait _ F k f Hk) as (rq2 & Hrq2 & Hd).
        destruct (fo_lead _ F i f Hi) as (rq1 & Hrq1 & Hf1). destruct (fo_open _ F _ _ Hf1) as [Ho _].
        destruct Hd as [Hd|Hd]; [|rewrite Ho in Hd; by destruct Hd]. destruct (fo_open _ F _ _ Hd) as (_ & j & rq3 & Hj & Hrj & Hkj).
        assert (j = i) as -> by (by eapply (fo_one _ F)). assert (rq_key rq' = rq_key rq) as -> by congruence.
        destruct r' as [v|e']; [done|]. apply bool_decide_eq_false in Hc. destruct e; [by destruct Hc|done].
      * rewrite E3. destruct (fo_lead _ F i f Hi) as (rq1 & Hrq1 & Hf1). destruct (fo_open _ F _ _ Hf1) as [Ho _]. by eapply lookup_lt_Some.
    + rewrite list_lookup_insert_ne in Hf by done. by apply (A3 k g r' rq').
  - intros r' rq' [= <-] Hrq. cbn in Hrq. rewrite E2 in Hrq. replace rq' with rq by congruence. destruct r as [v|e']; [done|]. destruct e; cbn; auto.
Qed.

Lemma step_outcomes x m : flights_ok m -> action_ok (me_requests m) x -> outcomes_ok m -> outcomes_ok (step x m).
Proof.
  intros F Hok H. destruct x as [i now e|i now now' r e|i|i e|now now' k v]; cbn [step].
  - destruct (me_callers m !! i) as [[|f|f|r]|] eqn:Hi; try done. destruct (me_requests m !! i) as [rq|] eqn:Hr; [|done].
    apply turn_outcomes; [done|done|done|]. intros e' ->. exact Hok.
  - destruct (me_callers m !! i) as [[|f|f|r']|] eqn:Hi; try done. destruct (me_requests m !! i) as [rq|] eqn:Hr; [|done]. by apply finish_outcomes.
  - destruct (me_callers m !! i) as [[|f|f|r]|] eqn:Hi; try done. destruct (me_heap m !! f) as [[[r []]|]|] eqn:Hf; try done.
    + by apply outcomes_move.
    + apply outcomes_move; [done|done|]. intros r' rq [= <-] Hr. pose proof (oc_wait _ H i f r rq Hi Hr Hf). destruct r; cbn; auto.
  - destruct (me_callers m !! i) as [[|f|f|r]|] eqn:Hi; try done. apply outcomes_move; [done|done|]. intros r rq [= <-] _. cbn. auto.
  - by apply put_outcome.
Qed.

Lemma newMemo_outcomes t cap mx rqs : outcomes_ok (newMemo t cap mx rqs).
Proof.
  destruct (NewCache_spec (T := T) (if t <=? 0 then Minute else t) cap) as (W & E & _).
  split; [exact W| |intros i f r rq H|intros i r rq H]; try (cbn in H; by apply lookup_replicate in H as [? _]).
  intros e He. change (e ∈ represents (NewCache (T := T) (if t <=? 0 then Minute else t) cap)) in He. rewrite E in He. by apply elem_of_nil in He.
Qed.

Lemma step_requests x m : me_requests (step x m) = me_requests m.
Proof.
  destruct x as [i now e|i now now' r e|i|i e|now now' k v]; cbn [step]; [| | | |done]; destruct (me_callers m !! i) as [[|f|f|r']|]; try done.
  - destruct (me_requests m !! i) as [rq|] eqn:Hr; [|done]. unfold turn. destruct e; [done|].
    assert (me_requests (if rq_refresh rq then (None, m) else get now (rq_key rq) m).2 = me_requests m) as E
      by (destruct (rq_refresh rq); [done|unfold get; by destruct (Get _ _ _)]).
    destruct (if rq_refresh rq then _ else _) as [[v|] m1]; cbn in E; [exact E|]. destruct (me_flights m1 !! rq_key rq); [exact E|]. destruct (_ <=? _); exact E.
  - destruct (me_requests m !! i) as [rq|]; [|done]. by destruct r.
  - by destruct (me_heap m !! f) as [[[r []]|]|].
Qed.

Lemma memo_run_ok t cap mx rqs xs : Forall (action_ok rqs) xs ->
  let m := run xs (newMemo t cap mx rqs) in flights_ok m /\ outcomes_ok m /\ me_requests m = rqs.
Proof.
  intros Hok m. apply run_ind; [split; [apply newMemo_flights|split; [apply newMemo_outcomes|done]]|].
  intros x m0 Hx (F & H & E). rewrite Forall_forall in Hok. split; [by apply step_flights|].
  split; [apply step_outcomes; rewrite ?E; auto|by rewrite step_requests].
Qed.
End Outcomes.

(** ** Everybody returns *)

Definition unreturned (ph : phase) : bool := match ph with Returned _ => false | _ => true end.
Definition trying (ph : phase) : bool := match ph with Trying => true | _ => false end.
Definition settled (h : list flight) (ph : phase) : bool :=
  match ph with Waiting f => bool_decide (is_Some (mjoin (h !! f))) | _ => false end.

(** The end of one flight pays for the new tries of all who waited for it. *)
Definition rank (m : memo) : Z :=
  (2 * Z.of_nat (length (me_callers m)) + 2) * tally unreturned (me_callers m) + tally trying (me_callers m) +
  2 * tally (settled (me_heap m)) (me_callers m).

(** What may happen next. *)
Definition enabled (x : action) (m : memo) : bool :=
  match x with
  | Turn i _ _ => match me_callers m !! i with Some Trying => true | _ => false end
  | Finish i _ _ _ _ => match me_callers m !! i with Some (Leading _) => true | _ => false end
  | Wake i => match me_callers m !! i with Some ph => settled (me_heap m) ph | _ => false end
  | Cancel i _ => match me_callers m !! i with Some (Waiting _) => true | _ => false end
  | Put _ _ _ _ => false
  end.

Lemma tally_bound {A} (f : A -> bool) l : tally f l <= Z.of_nat (length l).
Proof. induction l as [|x l IH]; cbn [tally length]; [done|]. destruct (f x); cbn [b2z]; lia. Qed.

Lemma tally_ext {A} (f g : A -> bool) l : (forall x, x ∈ l -> f x = g x) -> tally f l = tally g l.
Proof.
  induction l as [|x l IH]; intros H; cbn [tally]; [done|]. rewrite (H x) by left. rewrite IH; [done|]. intros y Hy. apply H. by right.
Qed.

Lemma rank_move i ph0 ph m m' : me_callers m !! i = Some ph0 -> me_callers m' = <[i := ph]> (me_callers m) -> unreturned ph0 = true ->
  (me_heap m' = me_heap m \/ exists x, me_heap m' = me_heap m ++ [x] /\ forall f, Waiting f ∈ me_callers m -> (f < length (me_heap m))%nat) ->
  (unreturned ph = false \/ b2z (trying ph) + 2 * b2z (settled (me_heap m) ph) < b2z (trying ph0) + 2 * b2z (settled (me_heap m) ph0)) ->
  (me_heap m' <> me_heap m -> settled (me_heap m') ph = settled (me_heap m) ph) ->
  rank m' < rank m.
Proof.
  intros Hi Hc H0 Hh Hr Hs. unfold rank. rewrite Hc, length_insert.
  assert (tally (settled (me_heap m')) (<[i := ph]> (me_callers m)) = tally (settled (me_heap m)) (<[i := ph]> (me_callers m))) as ->.
  { destruct Hh as [->|(x & Ex & Hf)]; [done|]. apply tally_ext. intros y Hy. apply list_elem_of_lookup in Hy as [k Hk].
    apply move_cases in Hk as [[-> ->]|[_ Hk]].
    - apply Hs. rewrite Ex. intros E. apply (f_equal length) in E. rewrite length_app in E. cbn in E. lia.
    - rewrite Ex. destruct y; try done. cbn. rewrite lookup_app_l; [done|]. apply Hf. by eapply list_elem_of_lookup_2. }
  rewrite !(tally_insert _ _ _ _ _ Hi), H0. pose proof (tally_nonneg (settled (me_heap m)) (me_callers m)).
  set (n := Z.of_nat (length (me_callers m))). assert (0 <= n) by lia.
  destruct Hr as [Hr|Hr].
  - rewrite Hr. assert (trying ph = false /\ settled (me_heap m) ph = false) as [-> ->] by (by destruct ph). cbn [b2z].
    destruct (trying ph0), (settled (me_heap m) ph0); cbn [b2z]; lia.
  - destruct (unreturned ph); cbn [b2z]; lia.
Qed.

Lemma step_rank x m : flights_ok m -> enabled x m = true -> rank (step x m) < rank m.
Proof.
  intros F He. destruct x as [i now e|i now now' r e|i|i e|]; try done; cbn [enabled step] in *.
  - destruct (me_callers m !! i) as [[|f|f|r]|] eqn:Hi; try done.
    destruct (lookup_lt_is_Some_2 (me_requests m) i) as [rq Hr]; [rewrite <- (fo_length _ F); by eapply lookup_lt_Some|].
    rewrite Hr. unfold turn. destruct e as [e|]; [eapply rank_move; [exact Hi|done|done|by left|by left|done]|].
    assert (exists c hit, (if rq_refresh rq then (None, m) else get now (rq_key rq) m) = (hit, set_cache c m)) as (c & hit & ->).
    { unfold get. destruct (rq_refresh rq); [exists (me_cache m), None; by rewrite set_cache_id|]. destruct (Get now _ _) as [v c]. eauto. }
    destruct hit as [v|]; [eapply rank_move; [exact Hi|done|done|by left|by left|done]|]. cbn [me_flights set_cache me_maximum me_heap].
    destruct (me_flights m !! rq_key rq) as [f|] eqn:Ef.
    { eapply rank_move; [exact Hi|done|done|by left|right|done]. destruct (fo_open _ F _ _ Ef) as [Ho _]. cbn. by rewrite Ho. }
    destruct (_ <=? _); [eapply rank_move; [exact Hi|done|done|by left|by left|done]|].
    eapply rank_move; [exact Hi|done|done| |by right|done]. right. exists None. split; [done|].
    intros f Hf. apply list_elem_of_lookup in Hf as [k Hk]. destruct (fo_wait _ F k f Hk) as (rq' & _ & [Hf|Hf]).
    + destruct (fo_open _ F _ _ Hf) as [Ho _]. by eapply lookup_lt_Some.
    + destruct (me_heap m !! f) eqn:E; [by eapply lookup_lt_Some|by destruct Hf].
  - destruct (me_callers m !! i) as [[|f|f|r']|] eqn:Hi; try done.
    destruct (fo_lead _ F i f Hi) as (rq & Hr & _). rewrite Hr. unfold finish. set (m1 := match r with Ok v => _ | Err _ => m end).
    assert (me_callers m1 = me_callers m) as Ec by (unfold m1; by destruct r). unfold rank. cbn [move set_flights me_callers me_heap].
    rewrite length_insert, Ec. rewrite !(tally_insert _ _ _ _ _ Hi). cbn [unreturned trying settled b2z].
    pose proof (tally_bound (settled (<[f:=Some (r, match r with Err _ => bool_decide (is_Some e) | Ok _ => false end)]> (me_heap m1))) (me_callers m)).
    pose proof (tally_nonneg (settled (me_heap m)) (me_callers m)). destruct r; cbn zeta in *; lia.
  - destruct (me_callers m !! i) as [ph|] eqn:Hi; [|done]. destruct ph as [|f|f|r]; try done. cbn [settled] in He. apply bool_decide_eq_true in He.
    destruct (me_heap m !! f) as [[[r c]|]|] eqn:Ef; try (by destruct He).
    destruct c; (eapply rank_move; [exact Hi|done|done|by left| |done]); [right|by left]. cbn. by rewrite Ef.
  - destruct (me_callers m !! i) as [[|f|f|r]|] eqn:Hi; try done. eapply rank_move; [exact Hi|done|done|by left|by left|done].
Qed.
End Memo.

(** ** The theorems *)

(** However calls interleave, at most one call computes a key at a time, at
    most [maximum] keys are being computed, and every call that waits does so
    for the computation of its own key. *)
Theorem memo_single_flight {T} expires (t cap mx : Z) (rqs : list request) (xs : list (action (T := T))) :
  let m := run expires xs (newMemo t cap mx rqs) in
  (forall i j f g ri rj, me_callers m !! i = Some (Leading f) -> me_callers m !! j = Some (Leading g) ->
     me_requests m !! i = Some ri -> me_requests m !! j = Some rj -> rq_key ri = rq_key rj -> i = j) /\
  (forall i f rq, me_callers m !! i = Some (Waiting f) -> me_heap m !! f = Some None -> me_requests m !! i = Some rq ->
     exists j rq', me_callers m !! j = Some (Leading f) /\ me_requests m !! j = Some rq' /\ rq_key rq' = rq_key rq) /\
  forall js : list nat, NoDup js -> Forall (fun i => exists f, me_callers m !! i = Some (Leading f)) js -> Z.of_nat (length js) <= me_maximum m.
Proof.
  intros m. assert (flights_ok m) as F by (apply run_ind; [apply newMemo_flights|intros; by apply step_flights]).
  assert (forall i j f g ri rj, me_callers m !! i = Some (Leading f) -> me_callers m !! j = Some (Leading g) ->
     me_requests m !! i = Some ri -> me_requests m !! j = Some rj -> rq_key ri = rq_key rj -> i = j) as Huniq.
  { intros i j f g ri rj Hi Hj Hri Hrj E. destruct (fo_lead _ F i f Hi) as (r1 & H1 & Hf), (fo_lead _ F j g Hj) as (r2 & H2 & Hg).
    assert (f = g) as -> by congruence. by eapply (fo_one _ F). }
  split; [exact Huniq|]. split.
  - intros i f rq Hi Ho Hr. destruct (fo_wait _ F i f Hi) as (rq' & Hr' & [Hf|Hf]); [|rewrite Ho in Hf; by destruct Hf].
    destruct (fo_open _ F _ _ Hf) as (_ & j & rq2 & Hj & Hrj & Hk). exists j, rq2. split; [done|]. split; [done|]. congruence.
  - intros js Hnd Hl. pose proof (fo_max _ F) as Hm. rewrite Forall_forall in Hl.
    pose (key_at := fun i => default ""%string (rq_key <$> me_requests m !! i)).
    assert (NoDup (key_at <$> js)) as Hk.
    { apply NoDup_fmap_2_strong; [|done]. intros i j Hi Hj E. destruct (Hl i Hi) as [f Hf], (Hl j Hj) as [g Hg].
      destruct (fo_lead _ F i f Hf) as (r1 & H1 & _), (fo_lead _ F j g Hg) as (r2 & H2 & _). unfold key_at in E. rewrite H1, H2 in E. cbn in E.
      by apply (Huniq i j f g r1 r2). }
    assert (list_to_set (C := gset string) (key_at <$> js) ⊆ dom (me_flights m)) as Hs.
    { intros k Hin. apply elem_of_list_to_set, list_elem_of_fmap in Hin as (i & -> & Hi). destruct (Hl i Hi) as [f Hf].
      destruct (fo_lead _ F i f Hf) as (rq & Hr & Hfl). apply elem_of_dom. exists f. unfold key_at. by rewrite Hr. }
    apply subseteq_size in Hs. rewrite size_list_to_set in Hs by done. rewrite length_fmap, size_dom in Hs. lia.
Qed.

(** What calls return. Every value a call for a key returns is one that some
    computation of this key, or a [put] under it, produced, whether it comes
    from the cache, from the call's own computation or from another's; and an
    error is the call's own cancellation, a failure of computing its key, or the
    refusal of a full queue: the cancellation of another call is never passed on. *)
Theorem memo_outcomes {T} expires (good : string -> T -> Prop) fault mine (t cap mx : Z) rqs (xs : list action) :
  Forall (action_ok good fault mine rqs) xs ->
  let m := run expires xs (newMemo t cap mx rqs) in
  forall i r rq, me_callers m !! i = Some (Returned r) -> rqs !! i = Some rq -> outcome_ok good fault mine i (rq_key rq) r.
Proof.
  intros Hok m i r rq Hi Hr. destruct (memo_run_ok expires good fault mine t cap mx rqs xs Hok) as (_ & H & E). fold m in H, E.
  eapply (oc_done _ _ _ _ H); [exact Hi|by rewrite E].
Qed.

(** C9. No call waits forever. In every reachable state the next turns, ends of
    computations, wake-ups and cancellations are a finite number, however they
    are ordered, and as long as a call has not returned one of them can happen
    without any cancellation; so when computations end, every call returns,
    those that waited for a canceled one included. *)
Theorem memo_progress {T} expires (t cap mx : Z) rqs (xs ys : list (action (T := T))) :
  let m := run expires xs (newMemo t cap mx rqs) in
  ((forall k y, ys !! k = Some y -> enabled y (run expires (take k ys) m) = true) -> Z.of_nat (length ys) <= rank m) /\
  ((forall i, (i < length rqs)%nat -> exists r, me_callers m !! i = Some (Returned r)) \/
   exists i, forall now now' r ctxErr, enabled (Turn i now ctxErr) m || enabled (Finish i now now' r ctxErr) m || enabled (Wake i) m = true).
Proof.
  intros m. assert (flights_ok m) as F by (apply run_ind; [apply newMemo_flights|intros; by apply step_flights]).
  assert (length (me_callers m) = length rqs) as Hlen.
  { rewrite (fo_length _ F). f_equal. unfold m. apply run_ind; [done|]. intros y m0 _ <-. apply step_requests. }
  clearbody m. split.
  - clear Hlen. revert m F. induction ys as [|y ys IH]; intros m F He.
    + cbn. unfold rank. pose proof (tally_nonneg unreturned (me_callers m)). pose proof (tally_nonneg trying (me_callers m)).
      pose proof (tally_nonneg (settled (me_heap m)) (me_callers m)). nia.
    + pose proof (step_rank expires y m F (He 0%nat y eq_refl)).
      specialize (IH (step expires y m) (step_flights _ _ _ F) (fun k z Hk => He (S k) z Hk)). cbn [length]. lia.
  - destruct (Z.eq_dec (tally unreturned (me_callers m)) 0) as [Hz|Hn].
    + left. intros i Hi. destruct (lookup_lt_is_Some_2 (me_callers m) i) as [ph Hph]; [lia|].
      destruct ph as [|f|f|r]; [| | |eauto]; pose proof (tally_lookup unreturned _ _ _ Hph eq_refl); lia.
    + right. pose proof (tally_nonneg unreturned (me_callers m)).
      destruct (tally_pos unreturned (me_callers m) ltac:(lia)) as (i & ph & Hi & Hu). destruct ph as [|f|f|r]; [| | |done].
      * exists i. intros. cbn. by rewrite Hi.
      * exists i. intros. cbn. by rewrite Hi.
      * destruct (fo_wait _ F i f Hi) as (rq & Hr & [Hf|Hf]).
        -- destruct (fo_open _ F _ _ Hf) as (_ & j & rq' & Hj & _). exists j. intros. cbn. by rewrite Hj.
        -- exists i. intros. cbn. rewrite Hi. cbn. by rewrite bool_decide_true.
Qed.

(** Three calls for a key: the first leads and is canceled, the second leads in
    its place, and the third shares its result. *)
Definition demo_requests : list request := [mkRequest "a" false; mkRequest "a" false; mkRequest "a" true].
Definition demo_actions : list (action (T := Z)) :=
  [Turn 0 1 None; Turn 1 1 None; Turn 2 1 None; Finish 0 2 2 (Err ErrCanceled) (Some ErrCanceled); Wake 1; Wake 2; Turn 1 3 None; Turn 2 3 None;
   Finish 1 4 4 (Ok 7) None; Wake 2].

Example memo_outcomes_witness :
  Forall (action_ok (fun k v => k = "a"%string /\ v = 7) (fun _ _ => False) (fun i e => i = 0%nat /\ e = ErrCanceled) demo_requests) demo_actions /\
  outcome_ok (fun k v => k = "a"%string /\ v = 7) (fun _ _ => False) (fun i e => i = 0%nat /\ e = ErrCanceled) 2 "a" (Ok 7).
Proof.
  assert (Forall (action_ok (fun k v => k = "a"%string /\ v = 7) (fun _ _ => False) (fun i e => i = 0%nat /\ e = ErrCanceled) demo_requests) demo_actions) as H.
  { unfold demo_actions. rewrite !Forall_cons, Forall_nil. repeat split; try done; injection H as <-; done. }
  split; [exact H|].
  apply (memo_outcomes None _ _ _ 100 10 5 demo_requests demo_actions H 2 (Ok 7) (mkRequest "a" true)); vm_compute; reflexivity.
Defined.

Example memo_single_flight_witness :
  let m := run None (take 3 demo_actions) (newMemo 100 10 5 demo_requests) in
  me_callers m = [Leading 0; Waiting 0; Waiting 0] /\ Z.of_nat (length [0%nat]) <= me_maximum m.
Proof.
  intros m. split; [vm_compute; reflexivity|].
  apply (memo_single_flight None 100 10 5 demo_requests (take 3 demo_actions)); [apply NoDup_singleton|].
  constructor; [exists 0%nat; vm_compute; reflexivity|constructor].
Defined.

Example memo_progress_witness :
  let m := run None [] (newMemo 100 10 5 demo_requests) in
  Z.of_nat (length demo_actions) <= rank m /\
  map unreturned (me_callers (run None demo_actions m)) = [false; false; false].
Proof.
  intros m. split; [|vm_compute; reflexivity].
  apply (memo_progress None 100 10 5 demo_requests [] demo_actions). intros k y Hk.
  do 10 (destruct k as [|k]; [injection Hk as <-; vm_compute; reflexivity|]). discriminate Hk.
Defined.
