(* ===== verification/Float.v ===== *)
(** * Numbers as float64

    [parse_float] is strconv.ParseFloat(s, 64) on decimal numbers, as in JSON:
    the value, rounded to the nearest float64, ties to even.
    A float is kept exact, as [m * 2^e] with its sign apart. *)
From S2P Require Import Prelude Strconv.

Inductive float :=
| Finite (neg : bool) (m e : Z)
| Infinite (neg : bool)
| NaN.

(** [m * 10^e], with the count of the digits of [m]. *)
Record decimal := mkDecimal { dc_neg : bool; dc_m : Z; dc_e : Z; dc_digits : Z }.

Fixpoint scan_fraction (acc n : Z) (s : string) : option (Z * Z * string) :=
  match s with
  | EmptyString => Some (acc, n, s)
  | String c s' =>
      match digit_val c with
      | Some d => scan_fraction (10 * acc + d) (n + 1) s'
      | None => Some (acc, n, s)
      end
  end.

Definition scan_exponent (s : string) : option Z :=
  match s with
  | EmptyString => Some 0
  | String c s' =>
      if (N_of_ascii c =? 101)%N || (N_of_ascii c =? 69)%N then signed_digits s' else None
  end.

(** [-]digits[.digits][e[+-]digits] *)
Definition scan_decimal (s : string) : option decimal :=
  let '(neg, s) := match s with String "-" s => (true, s) | String "+" s => (false, s) | _ => (false, s) end%char in
  match scan_fraction 0 0 s with
  | None => None
  | Some (m, n, s) =>
      match (match s with String "."%char s => scan_fraction m 0 s | _ => Some (m, 0, s) end) with
      | None => None
      | Some (m, k, s) =>
          if n + k =? 0 then None
          else match scan_exponent s with Some e => Some (mkDecimal neg m (e - k) (n + k)) | None => None end
      end
  end.

(** The quotient of two positive numbers, to the nearest integer. *)
Definition round_even (p q : Z) : Z :=
  let d := p / q in
  let r := p mod q in
  if (2 * r <? q) || ((2 * r =? q) && Z.even d) then d else d + 1.

(** [p / q] as [m * 2^e]. *)
Definition round_binary (p q : Z) : Z * Z :=
  let t := Z.log2 p - Z.log2 q in
  let scaled e := if 0 <=? e then (p, q * 2 ^ e) else (p * 2 ^ (- e), q) in
  let e := Z.max (-1074) (t - 52) in
  let '(a, b) := scaled e in
  let e := if (a <? 2 ^ 52 * b) && (-1074 <? e) then e - 1 else e in
  let '(a, b) := scaled e in
  let m := round_even a b in
  if m =? 2 ^ 53 then (2 ^ 52, e + 1) else (m, e).

(** "Inf", "infinity" and "NaN" in any case. *)
Definition special (s : string) : option float :=
  let s := ToLower s in
  let '(neg, t) := match s with String "-" t => (true, t) | String "+" t => (false, t) | _ => (false, s) end%char in
  if existsb (String.eqb t) ["inf"; "infinity"]%string then Some (Infinite neg)
  else if String.eqb s "nan" then Some NaN else None.

(** The float, and whether it is out of range. *)
Definition parse_float (s : string) : option (float * bool) :=
  match scan_decimal s with
  | None => (fun f => (f, false)) <$> special s
  | Some (mkDecimal neg m e n) =>
      Some (
        if (m =? 0) || (n + e <? -400) then (Finite neg 0 (-1074), false)
        else if 400 <? e then (Infinite neg, true)
        else
          let '(m, x) := if 0 <=? e then round_binary (m * 10 ^ e) 1 else round_binary m (10 ^ (- e)) in
          if (971 <? x) then (Infinite neg, true) else (Finite neg m x, false))
  end.

Definition ParseFloat (s : string) : option float := fst <$> parse_float s.

Definition float_is (k : Z) (f : float) : bool :=
  match f with
  | Finite neg m e => let m := if neg then - m else m in if 0 <=? e then m * 2 ^ e =? k else m =? k * 2 ^ (- e)
  | _ => false
  end.
Definition infinite (f : float) : bool := match f with Infinite _ => true | _ => false end.

(** The product with an integer that is a float. *)
Definition float_mul (f : float) (k : Z) : float :=
  match f with
  | Finite neg m e =>
      if m * k =? 0 then Finite neg 0 (-1074)
      else
        let '(m, x) := if 0 <=? e then round_binary (m * k * 2 ^ e) 1 else round_binary (m * k) (2 ^ (- e)) in
        if 971 <? x then Infinite neg else Finite neg m x
  | f => f
  end.

(** Towards zero, of a number. *)
Definition float_trunc (f : float) : Z :=
  match f with
  | Finite neg m e => let n := if 0 <=? e then m * 2 ^ e else m / 2 ^ (- e) in if neg then - n else n
  | _ => 0
  end.
Definition finite (f : float) : bool := match f with Finite _ _ _ => true | _ => false end.

Example float_one : map (fun s => option_map (float_is 1) (ParseFloat s)) ["1"; "1.0"; "10e-1"; "0.99999999999999999"; "1.0000000000000001"; "1.0000000000000003"; "-1"; "1e400"]%string =
  [Some true; Some true; Some true; Some true; Some true; Some false; Some false; Some false].
Proof. vm_compute. reflexivity. Qed.
Example float_bounds : map (option_map infinite ∘ ParseFloat) ["1.7976931348623157e308"; "1.7976931348623159e308"; "1e309"; "4e-324"; "1e-400"; "x"]%string =
  [Some false; Some true; Some true; Some false; Some false; None].
Proof. vm_compute. reflexivity. Qed.

(** The rounding is to the nearest. *)
Lemma round_even_spec p q : 0 <= p -> 0 < q -> Z.abs (2 * (round_even p q * q - p)) <= q.
Proof.
  intros Hp Hq. unfold round_even. pose proof (Z.div_mod p q ltac:(lia)). pose proof (Z.mod_pos_bound p q Hq).
  destruct ((2 * (p mod q) <? q) || _) eqn:E.
  - apply orb_true_iff in E as [E|E]; bool_prop; nia.
  - apply orb_false_iff in E as [E1 E2]. bool_prop. nia.
Qed.

(** Rounding stays between integers. *)
Lemma round_even_between p q lo hi : 0 < q -> lo * q <= p <= hi * q -> lo <= round_even p q <= hi.
Proof.
  intros Hq Hp. unfold round_even. pose proof (Z.div_mod p q ltac:(lia)). pose proof (Z.mod_pos_bound p q Hq).
  assert (lo <= p / q) by (apply Z.div_le_lower_bound; lia).
  assert (p / q <= hi) by (apply Z.div_le_upper_bound; lia).
  destruct ((2 * (p mod q) <? q) || _) eqn:E; [lia|]. apply orb_false_iff in E as [E _]. apply Z.ltb_ge in E. split; [lia|].
  destruct (Z.eq_dec (p / q) hi) as [Eh|]; [|lia]. rewrite Eh in *. nia.
Qed.

Lemma log2_quotient p q B : 0 < p -> 0 < q -> p <= B * q -> B < 2 ^ 51 -> Z.log2 p - Z.log2 q <= 51.
Proof.
  intros Hp Hq HB H51. destruct (Z.le_gt_cases (Z.log2 p - Z.log2 q) 51) as [|Hgt]; [done|]. exfalso.
  pose proof (Z.log2_spec p Hp) as [Hlp _]. pose proof (Z.log2_spec q Hq) as [_ Hlq]. pose proof (Z.log2_nonneg q).
  assert (2 ^ Z.log2 p >= 2 ^ 51 * 2 ^ Z.succ (Z.log2 q)).
  { rewrite <- Z.pow_add_r by lia. apply Z.le_ge, Z.pow_le_mono_r; lia. }
  nia.
Qed.

(** A quotient between two integers of at most 51 bits is rounded to a float
    between them, whose part after the point is cut off. *)
Lemma round_binary_between p q L B : 0 < p -> 0 < q -> 0 <= L -> L * q <= p <= B * q -> B < 2 ^ 51 ->
  let '(m, x) := round_binary p q in x <= 0 /\ L * 2 ^ (- x) <= m <= B * 2 ^ (- x).
Proof.
  intros Hp Hq HL HLB H51. pose proof (log2_quotient p q B Hp Hq ltac:(lia) H51) as Ht. unfold round_binary. cbv zeta.
  set (t := Z.log2 p - Z.log2 q) in *. set (e0 := Z.max (-1074) (t - 52)). assert (e0 < 0) as He0 by lia.
  destruct (if 0 <=? e0 then _ else _) as [a0 b0].
  set (e := if (a0 <? 2 ^ 52 * b0) && (-1074 <? e0) then e0 - 1 else e0). assert (e < 0) as He by (unfold e; destruct (_ && _); lia).
  destruct (Z.leb_spec 0 e); [lia|]. pose proof (Z.pow_pos_nonneg 2 (- e) ltac:(lia) ltac:(lia)) as Hpow.
  assert (L * 2 ^ (- e) <= round_even (p * 2 ^ (- e)) q <= B * 2 ^ (- e)) as Hr by (apply round_even_between; [done|nia]).
  destruct (Z.eqb_spec (round_even (p * 2 ^ (- e)) q) (2 ^ 53)) as [E|]; [|split; [lia|done]]. split; [lia|].
  rewrite E in Hr. replace (- e) with (1 + - (e + 1)) in Hr by lia. rewrite Z.pow_add_r in Hr by lia. change (2 ^ 1) with 2 in Hr.
  change (2 ^ 53) with (2 * 2 ^ 52) in Hr. lia.
Qed.

(** The integer part of a float that is known in units of [2^x]. *)
Lemma float_trunc_between m x L B : x <= 0 -> L * 2 ^ (- x) <= m <= B * 2 ^ (- x) -> L <= float_trunc (Finite false m x) <= B.
Proof.
  intros Hx H. pose proof (Z.pow_pos_nonneg 2 (- x) ltac:(lia) ltac:(lia)). cbn [float_trunc]. destruct (Z.leb_spec 0 x).
  - assert (x = 0) as -> by lia. cbn in *. lia.
  - split; [apply Z.div_le_lower_bound; lia|apply Z.div_le_upper_bound; lia].
Qed.

(** ** The floats of float64 *)

Definition float_ok (f : float) : Prop := match f with Finite _ m e => 0 <= m /\ -1074 <= e | _ => True end.

Lemma digit_val_range a d : digit_val a = Some d -> 0 <= d <= 9.
Proof. unfold digit_val. destruct (_ && _) eqn:E; [|done]. bool_prop. intros [= <-]. lia. Qed.

Lemma scan_fraction_range acc n s m k r : scan_fraction acc n s = Some (m, k, r) -> 0 <= acc -> 0 <= m.
Proof.
  revert acc n. induction s as [|c s IH]; intros acc n; cbn [scan_fraction]; [by intros [= <- _ _]|].
  destruct (digit_val c) as [d|] eqn:Ed; [|by intros [= <- _ _]]. apply digit_val_range in Ed. intros H Ha. apply (IH _ _ H). lia.
Qed.

Lemma scan_decimal_range s d : scan_decimal s = Some d -> 0 <= dc_m d.
Proof.
  unfold scan_decimal. destruct (match s with String "-" _ => _ | _ => _ end%char) as [neg t].
  destruct (scan_fraction 0 0 t) as [[[m n] r]|] eqn:E1; [|done]. apply scan_fraction_range in E1; [|done].
  destruct (match r with String "."%char s0 => _ | _ => _ end) as [[[m' k] r']|] eqn:E2; [|done].
  assert (0 <= m') as Hm'.
  { destruct r as [|c r]; [by injection E2 as <- _ _|].
    destruct (Ascii.eqb_spec c ".") as [->|Hc]; [by apply scan_fraction_range in E2|].
    revert E2. repeat match goal with |- context [match ?c with Ascii.Ascii _ _ _ _ _ _ _ _ => _ end] => destruct c as [[] [] [] [] [] [] [] []] end;
      intros E2; try (injection E2 as <- _ _; done). by destruct Hc. }
  destruct (n + k =? 0); [done|]. destruct (scan_exponent r'); [|done]. by intros [= <-].
Qed.

Lemma round_even_nonneg p q : 0 <= p -> 0 < q -> 0 <= round_even p q.
Proof. intros Hp Hq. unfold round_even. pose proof (Z.div_pos p q Hp Hq). destruct (_ || _); lia. Qed.

Lemma round_binary_ok p q m x : 0 <= p -> 0 < q -> round_binary p q = (m, x) -> 0 <= m /\ -1074 <= x.
Proof.
  intros Hp Hq. unfold round_binary. cbv zeta. set (e0 := Z.max (-1074) _). assert (-1074 <= e0) by lia.
  destruct (if 0 <=? e0 then _ else _) as [a0 b0]. destruct (_ && (-1074 <? e0)) eqn:Ec.
  1: apply andb_true_iff in Ec as [_ Ec%Z.ltb_lt].
  all: match goal with |- context [if 0 <=? ?e then _ else _] => destruct (Z.leb_spec 0 e); pose proof (Z.pow_nonneg 2 (- e) ltac:(lia)) end.
  all: match goal with |- (if ?c then _ else _) = _ -> _ => destruct c; intros [= <- <-] end; split; try lia.
  all: apply round_even_nonneg; try lia; try (apply Z.mul_nonneg_nonneg; lia).
  all: apply Z.mul_pos_pos; [lia|apply Z.pow_pos_nonneg; lia].
Qed.

Lemma parse_float_ok s f b : parse_float s = Some (f, b) -> float_ok f.
Proof.
  unfold parse_float. destruct (scan_decimal s) as [[neg m e n]|] eqn:E.
  - apply scan_decimal_range in E. cbn in E. intros [= H]. revert H. destruct (_ || _); [by intros [= <- _]|]. destruct (400 <? e); [by intros [= <- _]|].
    destruct (if 0 <=? e then _ else _) as [m' x] eqn:Er. destruct (971 <? x); intros [= <- _]; [done|]. cbn.
    revert Er. destruct (Z.leb_spec 0 e) as [He|He]; apply round_binary_ok; lia.
  - unfold special. destruct (match ToLower s with String "-" _ => _ | _ => _ end%char). destruct (existsb _ _); [by intros [= <- _]|].
    destruct (String.eqb _ _); [by intros [= <- _]|done].
Qed.
