(* ===== verification/Lookup.v ===== *)
(** * instagramapp: replies about media

    Models [lookup] of src/internal/instagramapp/client.go, from the reply to
    the record and the verdict on the account ([apiFailure], [failureMarker],
    [truthy], [retryAfter]).  The exchange is an input: a transport error, or a
    status, a Retry-After header and the bytes read of the body.  [ParseTime]
    is http.ParseTime, in nanoseconds. *)
From S2P Require Import Prelude Strconv Errors Json JsonTotal Float Accounts AccountHealth.
Open Scope Z_scope.
Open Scope go_scope.

(** A map of a record: one value per key. *)
Definition record : Type := list (string * json).

Definition stringField (m : record) (key : string) : string := default "" (jstr (obj_get key m)).

(** Numbers are [json.Number] when [useNumber], and float64 otherwise. *)
Definition truthy (useNumber : bool) (value : option json) : bool :=
  match value with
  | None | Some JNull => false
  | Some (JBool b) => b
  | Some (JStr v) => String.eqb (ToLower v) "true" || String.eqb v "1"
  | Some (JObj l) => (0 <? length l)%nat
  | Some (JNum v) => if useNumber then String.eqb v "1" else match ParseFloat v with Some f => float_is 1 f | None => false end
  | Some (JArr _) => false
  end.

Definition failureMarker (r : record) (markers : list string) : bool :=
  existsb (fun field => existsb (String.eqb (lower_text (TrimSpace (stringField r field)))) markers) ["message"; "error_type"; "error_title"]%string.

Definition authentication (message : string) : failure := plain (ErrCore (NewError "upstream_authentication_error" message 502)).
Definition limited : failure := plain (ErrCore (NewError "upstream_rate_limited" "Instagram account is rate limited" 429)).
Definition deleted : failure := plain (ErrCore (NewError "content_deleted" "Instagram post is unavailable" 404)).
Definition unsuccessful (message : string) : failure := plain (ErrCore (Upstream message)).
Definition retrying (cooldown : Z) : disposition := mkDisposition "" false true false "" cooldown.
Definition condemned (reason : string) : disposition := mkDisposition "" false false true reason 0.

Definition underscores (s : string) : string := replace_bytes (fun a => if Ascii.eqb a "_" then Some " "%string else None) s.

Definition challenged (un : bool) (r : record) : bool :=
  truthy un (obj_get "challenge_required" r) || truthy un (obj_get "checkpoint_required" r) || truthy un (obj_get "challenge" r) ||
  failureMarker r ["challenge_required"; "checkpoint_required"; "checkpoint_challenge_required"; "security_requirement"]%string.

Definition apiFailure (un : bool) (r : record) : disposition * option failure :=
  let text := lower_text (stringField r "message" ++ " " ++ stringField r "error_type" ++ " " ++ stringField r "error_title")%string in
  if challenged un r then (condemned "challenge_required", Some (authentication "Instagram session requires verification before further requests"))
  else if truthy un (obj_get "feedback_required" r) || failureMarker r ["feedback_required"]%string then
    (condemned "feedback_required", Some (authentication "Instagram account requires review before further requests"))
  else if failureMarker r ["login_required"; "session_expired"]%string then (sessionExpired, Some (authentication "Instagram session requires renewal"))
  else if failureMarker r ["account_disabled"; "account_suspended"; "inactive_user"]%string then
    (condemned "account_restricted", Some (authentication "Instagram account is restricted"))
  else if contains "rate_limit" text || contains "throttl" text || contains "please wait" text then (retrying Minute, Some limited)
  else
    let normalized := underscores text in
    if contains "media" normalized &&
       (contains "not found" normalized || contains "unavailable" normalized || contains "not available" normalized || contains "deleted" normalized)
    then (neutral, Some deleted)
    else if bool_decide (jstr (obj_get "status" r) = Some "fail"%string) then (retrying 0, Some (unsuccessful "Instagram returned an API failure"))
    else (neutral, None).

Section Lookup.
Context (ParseTime : string -> option Z).

Definition retryAfter (now : Z) (value : string) : Z :=
  let value := TrimSpace value in
  let date := match ParseTime value with Some d => if 0 <? d - now then Z.min maxInt64 (d - now) else Minute | None => Minute end in
  match digits value with
  | Some seconds =>
      if maxInt64 / Second <? seconds then maxInt64
      else if 0 <? seconds then seconds * Second
      else date
  | None => date
  end.

Record reply := mkReply { rp_status : Z; rp_retryAfter : string; rp_read : option bytes }.

Definition metadataLimit : Z := 16 * 2 ^ 20.

(** [io.ReadAll] of the limited body: [None] when reading failed. *)
Definition whole (r : reply) : option bytes :=
  match rp_read r with Some b => if len b <=? metadataLimit then Some b else None | None => None end.

(** The floats of a value fit: [json.Unmarshal] into [any] refuses others. *)
Fixpoint floats_fit (j : json) : bool :=
  match j with
  | JNum s => match ParseFloat s with Some f => negb (infinite f) | None => false end
  | JArr l => forallb floats_fit l
  | JObj l => forallb (fun kv => floats_fit kv.2) l
  | _ => true
  end.

(** [json.Unmarshal(body, &record)]; null is the nil map. *)
Definition unmarshal (body : bytes) : option record :=
  match json_parse body with
  | Some (JObj l) => if floats_fit (JObj l) then Some l else None
  | Some JNull => Some []
  | _ => None
  end.

Definition classify (un : bool) (now : Z) (r : reply) (rec : record) : disposition * option failure :=
  let (d, err) := apiFailure un rec in
  if ((0 <? ds_cooldown d) || (ds_disable d && negb (ds_renew d))) && negb (String.eqb (rp_retryAfter r) "")
  then (mkDisposition (ds_authorization d) (ds_renew d) (ds_retry d) (ds_disable d) (ds_deadReason d) (retryAfter now (rp_retryAfter r)), err)
  else (d, err).

(** One record into the map: the lists of items are appended. *)
Definition merge_entry (merged : record) (kv : string * json) : record :=
  let (key, value) := kv in
  match value with
  | JArr l =>
      if String.eqb key "items" || String.eqb key "clips_items" then
        obj_set key (JArr (match obj_get key merged with Some (JArr old) => old | _ => [] end ++ l)) merged
      else obj_set key value merged
  | _ => obj_set key value merged
  end.
Definition merge (merged rec : record) : record := fold_left merge_entry rec merged.

Definition malformed : disposition * option failure := (retrying 0, Some (unsuccessful "Instagram returned malformed metadata")).

(** The loop over the records of a 200 reply. *)
Fixpoint records (fuel : nat) (now : Z) (r : reply) (body : bytes) (merged : record) (count : Z) : option record * (disposition * option failure) :=
  match fuel with
  | O => (None, malformed)
  | S fuel =>
      match skip_ws body with
      | [] => if count =? 0 then (None, (retrying 0, Some (unsuccessful "Instagram returned empty metadata"))) else (Some merged, (neutral, None))
      | _ =>
          match parse_value (S (2 * length body)) 0 body with
          | Some (JObj rec, rest) =>
              let '(d, err) := classify true now r rec in
              match err with
              | Some f => (None, (d, Some f))
              | None => records fuel now r rest (merge merged rec) (count + 1)
              end
          | _ => (None, malformed)
          end
      end
  end.

Definition lookup_reply (now : Z) (r : reply) : option record * (disposition * option failure) :=
  if rp_status r =? 429 then
    let throttled := (None, (retrying (retryAfter now (rp_retryAfter r)), Some limited)) in
    match whole r ≫= unmarshal with
    | Some rec =>
        let '(d, err) := classify false now r rec in
        if ds_disable d && negb (ds_renew d) then
          (None, (mkDisposition (ds_authorization d) (ds_renew d) (ds_retry d) (ds_disable d) (ds_deadReason d) (retryAfter now (rp_retryAfter r)), err))
        else throttled
    | None => throttled
    end
  else if (rp_status r =? 404) || (rp_status r =? 410) then (None, (neutral, Some deleted))
  else
    let failed := if rp_status r =? 200 then None else Some (retrying 0, Some (unsuccessful "Instagram metadata returned an unsuccessful response")) in
    let refused :=
      if (rp_status r =? 400) || (rp_status r =? 401) || (rp_status r =? 403) then
        match whole r ≫= unmarshal with
        | Some rec => let '(d, err) := classify false now r rec in match err with Some _ => Some (d, err) | None => None end
        | None => None
        end
      else None in
    match refused, failed with
    | Some v, _ => (None, v)
    | None, Some v => (None, v)
    | None, None =>
        match whole r with
        | Some body => records (S (length body)) now r body [] 0
        | None => (None, (retrying 0, Some (unsuccessful "Instagram metadata response is incomplete or too large")))
        end
    end.

(** The exchange: a reply, or the error of the transport with that of the context. *)
Definition lookup (now : Z) (exchange : res (option goerr) reply) : option record * (disposition * option failure) :=
  match exchange with
  | Err (Some ctxErr) => (None, (neutral, Some (plain ctxErr)))
  | Err None => (None, (retrying 0, Some (plain (ErrCore (NewError "upstream_network_error" "Instagram metadata request failed" 502)))))
  | Ok r => lookup_reply now r
  end.

(** ** Delays *)

(** A Retry-After never wraps and never hastens a retry: a delay is positive
    and fits a Duration, a whole number of seconds is kept exactly or saturates
    at the longest Duration, and a zero, a date in the past or a text that is
    neither waits a minute. *)
Theorem retryAfter_bounds now value :
  0 < retryAfter now value <= maxInt64 /\
  (forall s, digits (TrimSpace value) = Some s -> 0 < s -> retryAfter now value = Z.min (s * Second) maxInt64) /\
  (forall s, digits (TrimSpace value) = Some s -> s = 0 -> ParseTime (TrimSpace value) = None -> retryAfter now value = Minute) /\
  (digits (TrimSpace value) = None -> ParseTime (TrimSpace value) = None -> retryAfter now value = Minute) /\
  (forall d, digits (TrimSpace value) = None -> ParseTime (TrimSpace value) = Some d ->
     retryAfter now value = if 0 <? d - now then Z.min maxInt64 (d - now) else Minute).
Proof.
  assert (forall d, 0 < d -> 0 < Z.min maxInt64 d <= maxInt64) as Hd by (unfold maxInt64; lia).
  assert (0 < Minute <= maxInt64) as Hm by (unfold Minute, Second, maxInt64; lia).
  assert (forall s, maxInt64 / Second < s <-> maxInt64 < s * Second) as Hs 
    by (intros s; change (maxInt64 / Second) with 9223372036; change maxInt64 with 9223372036854775807; unfold Second; lia).
  unfold retryAfter. destruct (digits (TrimSpace value)) as [s|] eqn:Ed.
  - assert (0 <= s) by (unfold digits in Ed; destruct (TrimSpace value); [done|]; by eapply digits_from_range in Ed).
    split; [|split; [|split; [|done]]].
    + destruct (Z.ltb_spec (maxInt64 / Second) s) as [E|E]; [unfold maxInt64; lia|]. destruct (Z.ltb_spec 0 s).
      * assert (~ maxInt64 < s * Second) by (rewrite <- Hs; lia). unfold Second in *. lia.
      * destruct (ParseTime _) as [d|]; [destruct (Z.ltb_spec 0 (d - now)); auto|auto].
    + intros s' [= <-] Hp. specialize (Hs s). destruct (Z.ltb_spec (maxInt64 / Second) s); [lia|]. destruct (Z.ltb_spec 0 s); lia.
    + intros s' [= <-] -> ->. done.
  - split; [destruct (ParseTime _) as [d|]; [destruct (Z.ltb_spec 0 (d - now)); auto|auto]|].
    split; [done|]. split; [done|]. split; [by intros _ ->|]. by intros d _ ->.
Qed.

(** ** Verdicts *)

(** The markers that condemn an account, with the reason each gives. *)
Definition condemning (un : bool) (r : record) (reason : string) : Prop :=
  (reason = "challenge_required"%string /\ challenged un r = true) \/
  (reason = "feedback_required"%string /\ (truthy un (obj_get "feedback_required" r) || failureMarker r ["feedback_required"]%string) = true) \/
  (reason = "session_expired"%string /\ failureMarker r ["login_required"; "session_expired"]%string = true) \/
  (reason = "account_restricted"%string /\ failureMarker r ["account_disabled"; "account_suspended"; "inactive_user"]%string = true).

Lemma apiFailure_spec un r : let '(d, err) := apiFailure un r in
  (ds_disable d = true -> condemning un r (ds_deadReason d) /\ err <> None) /\ 0 <= ds_cooldown d /\ ds_authorization d = ""%string /\
  (err = None -> d = neutral) /\ (ds_renew d = true -> ds_disable d = true /\ ds_retry d = true /\ ds_deadReason d = "session_expired"%string) /\
  (ds_disable d = false -> ds_deadReason d = ""%string).
Proof.
  unfold apiFailure. destruct (challenged un r) eqn:E1; [|destruct (truthy un (obj_get "feedback_required" r) || failureMarker r ["feedback_required"]%string) eqn:E2;
    [|destruct (failureMarker r ["login_required"; "session_expired"]%string) eqn:E3;
    [|destruct (failureMarker r ["account_disabled"; "account_suspended"; "inactive_user"]%string) eqn:E4;
    [|destruct (contains "rate_limit" _ || _ || _); [|destruct (contains "media" _ && _); [|destruct (bool_decide _)]]]]]].
  all: cbn; unfold condemning, Minute, Second; intuition (try done; try lia; try congruence).
Qed.

Record well_formed (d : disposition) : Prop := {
  wf_cooldown : 0 <= ds_cooldown d <= maxInt64;
  wf_tag : ds_authorization d = ""%string;
  wf_renew : ds_renew d = true -> ds_disable d = true /\ ds_retry d = true /\ ds_deadReason d = "session_expired"%string;
  wf_reason : ds_disable d = false -> ds_deadReason d = ""%string;
}.

Lemma retrying_well_formed c : 0 <= c <= maxInt64 -> well_formed (retrying c).
Proof. by split. Qed.
Lemma neutral_well_formed : well_formed neutral.
Proof. split; cbn; try done. Qed.

Lemma apiFailure_cooldown un r : ds_cooldown (apiFailure un r).1 <= Minute.
Proof. unfold apiFailure. repeat case_match; cbn; unfold Minute, Second; lia. Qed.

Lemma classify_spec un now r rec : let '(d, err) := classify un now r rec in
  well_formed d /\ (ds_disable d = true -> condemning un rec (ds_deadReason d) /\ err <> None) /\
  (err = None -> d = neutral /\ apiFailure un rec = (neutral, None)).
Proof.
  unfold classify. pose proof (apiFailure_spec un rec) as H. pose proof (retryAfter_bounds now (rp_retryAfter r)) as [Hr _].
  pose proof (apiFailure_cooldown un rec) as Hc. assert (Minute <= maxInt64) by (unfold Minute, Second, maxInt64; lia).
  destruct (apiFailure un rec) as [d err]. destruct H as (H1 & H2 & H3 & H4 & H5 & H6). cbn [fst] in Hc.
  destruct (_ && _) eqn:E.
  - split; [split; cbn; auto; lia|]. split; [done|]. intros He. rewrite (H4 He) in E. done.
  - split; [split; auto; lia|]. split; [done|]. intros ->. split; [by apply H4|]. by rewrite H4.
Qed.

(** The objects a body holds one after the other, up to the first that is not
    well formed. *)
Fixpoint stream (fuel : nat) (body : bytes) : list record :=
  match fuel with
  | O => []
  | S fuel =>
      match parse_value (S (2 * length body)) 0 body with
      | Some (JObj rec, rest) => rec :: stream fuel rest
      | _ => []
      end
  end.

(** The records a reply holds, with how their numbers are read. *)
Definition record_of (r : reply) (un : bool) (rec : record) : Prop :=
  exists body, whole r = Some body /\ if un then rec ∈ stream (S (length body)) body else unmarshal body = Some rec.

Record sound (r : reply) (data : option record) (d : disposition) (err : option failure) : Prop := {
  sd_form : well_formed d;
  sd_dead : ds_disable d = true -> err <> None /\ exists un rec, record_of r un rec /\ condemning un rec (ds_deadReason d);
  sd_failure : err <> None -> data = None;
  sd_success : err = None -> rp_status r = 200 /\ d = neutral /\ exists body, whole r = Some body /\ stream (S (length body)) body <> [] /\
    data = Some (fold_left merge (stream (S (length body)) body) []) /\
    forall rec, rec ∈ stream (S (length body)) body -> apiFailure true rec = (neutral, None);
}.

(** A failure that says nothing of the account but for a delay. *)
Lemma sound_plain r d f : well_formed d -> ds_disable d = false -> sound r None d (Some f).
Proof. intros Hw Hd. split; [done| |done|done]. by rewrite Hd. Qed.

Lemma records_spec now r body0 : whole r = Some body0 -> rp_status r = 200 -> forall fuel body merged count prefix,
  0 <= count -> stream (S (length body0)) body0 = prefix ++ stream fuel body -> (count = 0 <-> prefix = []) ->
  (forall rec, rec ∈ prefix -> apiFailure true rec = (neutral, None)) -> merged = fold_left merge prefix [] ->
  let '(data, (d, err)) := records fuel now r body merged count in sound r data d err.
Proof.
  intros Hw Hst. assert (well_formed (retrying 0)) as H0 by (apply retrying_well_formed; unfold maxInt64; lia).
  induction fuel as [|fuel IH]; intros body merged count prefix Hcount Hp Hc Hall Hm; cbn [records]; [by apply sound_plain|].
  destruct (skip_ws body) as [|b l] eqn:Es.
  - assert (stream (S fuel) body = []) as Hnil by (cbn [stream parse_value]; by rewrite Es). rewrite Hnil, app_nil_r in Hp.
    destruct (Z.eqb_spec count 0) as [Hz|Hz]; [by apply sound_plain|]. split; [apply neutral_well_formed|done|done|]. intros _.
    split; [done|]. split; [done|]. exists body0. rewrite Hp. split; [done|]. split; [tauto|]. by rewrite Hm.
  - destruct (parse_value _ 0 body) as [[[| | | | |rec] rest]|] eqn:Ep; try (by apply sound_plain).
    assert (stream (S fuel) body = rec :: stream fuel rest) as Hcons by (cbn [stream]; by rewrite Ep).
    pose proof (classify_spec true now r rec) as C. destruct (classify true now r rec) as [d err]. destruct C as (C1 & C2 & C3).
    destruct err as [f|].
    + split; [done| |done|done]. intros Hd. split; [done|]. exists true, rec. split; [|by apply C2]. exists body0. split; [done|].
      rewrite Hp, Hcons. apply elem_of_app. right. by left.
    + destruct (C3 eq_refl) as [_ C4]. apply (IH rest _ _ (prefix ++ [rec])); [lia| | | |].
      * by rewrite Hp, Hcons, <- app_assoc.
      * split; [lia|by destruct prefix].
      * intros rec' Hin. apply elem_of_app in Hin as [Hin|Hin]; [auto|]. apply list_elem_of_singleton in Hin as ->. done.
      * by rewrite fold_left_app, Hm.
Qed.

Lemma lookup_reply_spec now r : let '(data, (d, err)) := lookup_reply now r in sound r data d err.
Proof.
  pose proof (retryAfter_bounds now (rp_retryAfter r)) as [Hr _]. unfold lookup_reply.
  assert (well_formed (retrying 0)) as H0 by (apply retrying_well_formed; unfold maxInt64; lia).
  assert (well_formed (retrying (retryAfter now (rp_retryAfter r)))) as H1 by (apply retrying_well_formed; lia).
  assert (forall rec un d err, whole r ≫= unmarshal = Some rec -> un = false -> condemning un rec (ds_deadReason d) ->
    well_formed d -> err <> None -> sound r None d err) as Hrec.
  { intros rec un d err Hu -> Hc Hw He. split; [done| |done|done]. intros _. split; [done|]. exists false, rec. split; [|done].
    destruct (whole r) as [b|] eqn:Eb; [|done]. by exists b. }
  destruct (rp_status r =? 429).
  { destruct (whole r ≫= unmarshal) as [rec|] eqn:Eu; [|by apply sound_plain].
    pose proof (classify_spec false now r rec) as C. destruct (classify false now r rec) as [d err]. destruct C as (C1 & C2 & C3).
    destruct (_ && _) eqn:Ed; [|by apply sound_plain]. apply andb_prop in Ed as [Ed _]. destruct (C2 Ed) as [C4 C5].
    apply (Hrec rec false); [done|done|done| |done]. destruct C1. split; cbn; auto; lia. }
  destruct ((rp_status r =? 404) || (rp_status r =? 410)); [apply sound_plain; [apply neutral_well_formed|done]|].
  set (refused := if (rp_status r =? 400) || _ || _ then _ else None).
  assert (match refused with Some v => sound r None v.1 v.2 | None => True end) as Href.
  { unfold refused. destruct (_ || _); [|done]. destruct (whole r ≫= unmarshal) as [rec|] eqn:Eu; [|done].
    pose proof (classify_spec false now r rec) as C. destruct (classify false now r rec) as [d [f|]]; [|done]. destruct C as (C1 & C2 & C3). cbn.
    destruct (ds_disable d) eqn:Ed; [apply (Hrec rec false); auto; by apply C2|]. by apply sound_plain. }
  destruct refused as [[d err]|]; [exact Href|]. destruct (Z.eqb_spec (rp_status r) 200) as [Es|]; [|by apply sound_plain].
  destruct (whole r) as [body|] eqn:Eb; [|by apply sound_plain].
  apply (records_spec now r body Eb Es (S (length body)) body [] 0 []); [lia|done|done| |done]. intros rec Hin. by apply elem_of_nil in Hin.
Qed.

(** A verdict on an account is never guessed. Whatever the exchange, an
    account is disabled only for an explicit marker in a record of the reply,
    with the reason that marker gives, never for a status, a broken body or a
    failed connection; renewal is only asked of an expired session; a delay fits
    a Duration, and a 429 always brings one. A success is a 200 whose body is
    one or more records, none of them a failure, and its data is their merge. *)
Theorem lookup_verdict now exchange : let '(data, (d, err)) := lookup now exchange in
  verdict_ok d /\
  match exchange with
  | Err _ => data = None /\ err <> None /\ ds_disable d = false /\ ds_cooldown d = 0
  | Ok r => sound r data d err /\ (rp_status r = 429 -> data = None /\ 0 < ds_cooldown d)
  end.
Proof.
  destruct exchange as [r|[e|]]; [|by split|by split]. cbn [lookup]. pose proof (lookup_reply_spec now r) as H.
  pose proof (retryAfter_bounds now (rp_retryAfter r)) as [Hr _].
  assert (rp_status r = 429 -> (lookup_reply now r).1 = None /\ 0 < ds_cooldown (lookup_reply now r).2.1) as H429.
  { intros E. unfold lookup_reply. rewrite E. cbn [Z.eqb Pos.eqb]. destruct (whole r ≫= unmarshal); [|split; [done|cbn; lia]].
    destruct (classify _ _ _ _) as [d err]. destruct (_ && _); split; try done; cbn; lia. }
  destruct (lookup_reply now r) as [data [d err]]. split; [|split; [done|exact H429]].
  intros Hd. destruct (sd_dead _ _ _ _ H Hd) as (_ & un & rec & _ & Hc). by destruct Hc as [[-> _]|[[-> _]|[[-> _]|[-> _]]]].
Qed.
End Lookup.

(** Two records in one body, a challenge on a 400, a proxy's page on a 403, and
    a restriction that comes with a delay on a 429. *)
Definition demo_reply (status : Z) (retry body : string) : reply := mkReply status retry (Some (bytes_of_string body)).
Definition js (s : string) : string := replace_bytes (fun a => if Ascii.eqb a "'" then Some (String quote EmptyString) else None) s.

Example lookup_demo :
  let go r := lookup (fun _ => None) 0 (Ok r) in
  (go (demo_reply 200 "" (js "{'items':[1],'a':1} {'items':[2],'a':2}"))).1 = Some [("items"%string, JArr [JNum "1"; JNum "2"]); ("a"%string, JNum "2")] /\
  (go (demo_reply 400 "" (js "{'message':' Challenge_Required ','status':'fail'}"))).2.1 = condemned "challenge_required" /\
  (go (demo_reply 403 "" "challenge service unavailable")).2.1 = retrying 0 /\
  (go (demo_reply 429 "7" (js "{'message':'inactive_user'}"))).2.1 = mkDisposition "" false false true "account_restricted" (7 * Second) /\
  (go (demo_reply 400 "" (js "{'challenge':{},'challenge_required':1.0}"))).2.1 = condemned "challenge_required" /\
  (go (demo_reply 200 "" (js "{'challenge_required':1.0}"))).2.2 = None.
Proof. vm_compute. repeat split. Qed.
