(* ===== verification/Regexp.v ===== *)
(** * Regular expressions

    The part of Go's regexp the program matches replies of a service with:
    ASCII classes, groups, alternatives, repetition, [^], [$] and [\b], asked
    only whether a text has a match.  [ends] computes the ends of the matches
    from a position; [matches] is the relation it decides. *)
From S2P Require Import Prelude Strconv.
Open Scope Z_scope.
Open Scope go_scope.

Inductive re :=
| Eps
| Class (f : ascii -> bool)
| Cat (r s : re)
| Alt (r s : re)
| Star (r : re)
| Begin
| End_
| Boundary.

Definition is_word (a : ascii) : bool :=
  let n := N_of_ascii a in
  ((48 <=? n) && (n <=? 57) || (65 <=? n) && (n <=? 90) || (97 <=? n) && (n <=? 122) || (n =? 95))%N.

Definition word_at (w : list ascii) (i : nat) : bool := match w !! i with Some a => is_word a | None => false end.
Definition boundary (w : list ascii) (i : nat) : bool :=
  xorb (match i with O => false | S i => word_at w i end) (word_at w i).

(** From each end, again; an empty repetition leads nowhere new. *)
Fixpoint repeat_ends (step : nat -> list nat) (fuel : nat) (i : nat) : list nat :=
  match fuel with
  | O => [i]
  | S fuel => i :: mjoin ((fun j => if (i <? j)%nat then repeat_ends step fuel j else []) <$> step i)
  end.

Fixpoint ends (w : list ascii) (r : re) (i : nat) : list nat :=
  match r with
  | Eps => [i]
  | Class f => match w !! i with Some a => if f a then [S i] else [] | None => [] end
  | Cat r s => ends w r i ≫= ends w s
  | Alt r s => ends w r i ++ ends w s i
  | Star r => repeat_ends (ends w r) (length w - i) i
  | Begin => if (i =? 0)%nat then [i] else []
  | End_ => if (i =? length w)%nat then [i] else []
  | Boundary => if boundary w i then [i] else []
  end.

(** [MatchString] *)
Definition MatchString (r : re) (s : string) : bool :=
  let w := String.list_ascii_of_string s in
  existsb (fun i => negb (bool_decide (ends w r i = []))) (seq 0 (S (length w))).

Inductive matches (w : list ascii) : re -> nat -> nat -> Prop :=
| M_Eps i : matches w Eps i i
| M_Class f i a : w !! i = Some a -> f a = true -> matches w (Class f) i (S i)
| M_Cat r s i j k : matches w r i j -> matches w s j k -> matches w (Cat r s) i k
| M_Alt_l r s i j : matches w r i j -> matches w (Alt r s) i j
| M_Alt_r r s i j : matches w s i j -> matches w (Alt r s) i j
| M_Star_nil r i : matches w (Star r) i i
| M_Star_cons r i j k : matches w r i j -> matches w (Star r) j k -> matches w (Star r) i k
| M_Begin : matches w Begin 0 0
| M_End : matches w End_ (length w) (length w)
| M_Boundary i : boundary w i = true -> matches w Boundary i i.

Lemma matches_bounds w r i j : matches w r i j -> (i <= length w)%nat -> (i <= j <= length w)%nat.
Proof.
  intros H. induction H; intros Hi; try lia.
  - apply lookup_lt_Some in H. lia.
Qed.

Lemma repeat_ends_sound w r step fuel i j : (forall i j, j ∈ step i -> matches w r i j) -> j ∈ repeat_ends step fuel i -> matches w (Star r) i j.
Proof.
  intros Hs. revert i. induction fuel as [|fuel IH]; intros i Hj; cbn [repeat_ends] in Hj.
  - apply list_elem_of_singleton in Hj as ->. constructor.
  - apply elem_of_cons in Hj as [->|Hj]; [constructor|].
    apply list_elem_of_join in Hj as (l & Hj & Hl). apply list_elem_of_fmap in Hl as (k & -> & Hk).
    destruct (Nat.ltb_spec i k); [|by apply elem_of_nil in Hj]. eapply M_Star_cons; [by apply Hs|by apply IH].
Qed.

Lemma repeat_ends_complete w r step fuel i j : (forall i j, (i <= length w)%nat -> matches w r i j -> j ∈ step i) ->
  matches w (Star r) i j -> (i <= length w)%nat -> (length w - i <= fuel)%nat -> j ∈ repeat_ends step fuel i.
Proof.
  intros Hs H. remember (Star r) as q eqn:Eq. revert fuel Eq. induction H; intros fuel Eq Hi Hf; try discriminate Eq.
  - destruct fuel; left.
  - injection Eq as ->. pose proof (matches_bounds _ _ _ _ H Hi). destruct (decide (i = j)) as [->|Hne]; [by apply IHmatches2|].
    destruct fuel as [|fuel]; [lia|]. cbn [repeat_ends]. right. apply list_elem_of_join.
    exists (repeat_ends step fuel j). split; [apply IHmatches2; [done|lia|lia]|]. apply list_elem_of_fmap. exists j. split; [|by apply Hs].
    destruct (Nat.ltb_spec i j); [done|lia].
Qed.

(** The matcher decides the relation. *)
Lemma ends_spec w r i j : (i <= length w)%nat -> j ∈ ends w r i <-> matches w r i j.
Proof.
  intros Hi. split.
  - clear Hi. revert i j. induction r; intros i j; cbn [ends].
    + intros ->%list_elem_of_singleton. constructor.
    + destruct (w !! i) as [a|] eqn:Ea; [|by intros ?%elem_of_nil]. destruct (f a) eqn:Ef; [|by intros ?%elem_of_nil].
      intros ->%list_elem_of_singleton. by eapply M_Class.
    + intros (k & Hk & Hj)%list_elem_of_bind. eapply M_Cat; [by apply IHr1|by apply IHr2].
    + intros [H|H]%elem_of_app; [by apply M_Alt_l, IHr1|by apply M_Alt_r, IHr2].
    + by apply repeat_ends_sound.
    + destruct (Nat.eqb_spec i 0) as [->|]; [|by intros ?%elem_of_nil]. intros ->%list_elem_of_singleton. constructor.
    + destruct (Nat.eqb_spec i (length w)) as [->|]; [|by intros ?%elem_of_nil]. intros ->%list_elem_of_singleton. constructor.
    + destruct (boundary w i) eqn:E; [|by intros ?%elem_of_nil]. intros ->%list_elem_of_singleton. by constructor.
  - revert i j Hi. induction r; intros i j Hi H.
    + inversion H; subst. left.
    + inversion H as [|? ? a Ha Hf| | | | | | | |]; subst. cbn. rewrite Ha, Hf. left.
    + inversion H; subst. apply list_elem_of_bind. match goal with H1 : matches w r1 i ?k |- _ => exists k; pose proof (matches_bounds _ _ _ _ H1 Hi) end.
      split; [apply IHr2; [lia|done]|by apply IHr1].
    + cbn. apply elem_of_app. inversion H; subst; [left; by apply IHr1|right; by apply IHr2].
    + cbn. eapply repeat_ends_complete; [|exact H|done|done]. intros; by apply IHr.
    + inversion H; subst. left.
    + inversion H; subst. cbn. rewrite Nat.eqb_refl. left.
    + inversion H as [| | | | | | | | |? Hb]; subst. cbn. rewrite Hb. left.
Qed.

Lemma MatchString_spec r s : MatchString r s = true <->
  let w := String.list_ascii_of_string s in exists i j, (i <= length w)%nat /\ matches w r i j.
Proof.
  unfold MatchString. cbv zeta. set (w := String.list_ascii_of_string s). rewrite existsb_exists. split.
  - intros (i & Hi%in_seq & H%negb_true_iff%bool_decide_eq_false). destruct (ends w r i) as [|j l] eqn:E; [done|].
    exists i, j. split; [lia|]. apply ends_spec; [lia|]. rewrite E. left.
  - intros (i & j & Hi & H). exists i. split; [apply in_seq; lia|]. apply negb_true_iff, bool_decide_eq_false.
    apply ends_spec in H; [|done]. intros E. rewrite E in H. by apply elem_of_nil in H.
Qed.

(** ** Notation of patterns *)

Definition chr (a : ascii) : re := Class (Ascii.eqb a).
Fixpoint lit (s : string) : re := match s with EmptyString => Eps | String a s => Cat (chr a) (lit s) end.
Definition opt (r : re) : re := Alt r Eps.
Definition plus (r : re) : re := Cat r (Star r).
Definition one_of (s : string) : re := Class (fun a => existsb (Ascii.eqb a) (String.list_ascii_of_string s)).
Definition range (lo hi : ascii) : re := Class (fun a => (N_of_ascii lo <=? N_of_ascii a)%N && (N_of_ascii a <=? N_of_ascii hi)%N).
Fixpoint alts (l : list re) : re := match l with [] => Class (fun _ => false) | [r] => r | r :: l => Alt r (alts l) end.
Fixpoint cats (l : list re) : re := match l with [] => Eps | [r] => r | r :: l => Cat r (cats l) end.
Definition words (l : list string) : re := alts (lit <$> l).

Example match_demo :
  MatchString (cats [Boundary; words ["invalid"; "expired"]; plus (one_of " _-"); lit "device"; Boundary]) "an expired__device." = true /\
  MatchString (cats [Boundary; words ["invalid"; "expired"]; plus (one_of " _-"); lit "device"; Boundary]) "an expired devices" = false /\
  MatchString (cats [Begin; plus (range "0" "9"); End_]) "0123" = true /\ MatchString (cats [Begin; plus (range "0" "9"); End_]) "012a" = false.
Proof. vm_compute. repeat split. Qed.
