(* ===== verification/AppRoute.v ===== *)
(** * tiktokapp: addresses and routing

    Models src/internal/tiktokapp/protocol.go: what is a TikTok host, the video
    ID of an address, and the routing rules that arrive with a registration.
    Parsing of addresses (net/url) and the patterns a rule may carry, which the
    upstream chooses, are parameters; the cache of compiled patterns holds what
    compiling gives and is not modelled. *)
From S2P Require Import Prelude Strconv Errors Regexp.
Open Scope Z_scope.
Open Scope go_scope.

(** A [*url.URL]; [ur_Rest] is what no decision looks at. *)
Record URL := mkURL { ur_Scheme : string; ur_Host : string; ur_Path : string; ur_RawQuery : string; ur_Rest : string }.
Definition set_host (h : string) (u : URL) : URL := mkURL (ur_Scheme u) h (ur_Path u) (ur_RawQuery u) (ur_Rest u).

(** Before and after the last colon. *)
Fixpoint cut_last_colon (s : string) : option (string * string) :=
  match s with
  | EmptyString => None
  | String a s' =>
      match cut_last_colon s' with
      | Some (b, p) => Some (String a b, p)
      | None => if Ascii.eqb a ":" then Some (EmptyString, s') else None
      end
  end.

Definition all_digits (s : string) : bool := forallb (fun a => match digit_val a with Some _ => true | None => false end) (String.list_ascii_of_string s).

Lemma cut_last_colon_app s b : forallb (fun a => negb (Ascii.eqb a ":")) (String.list_ascii_of_string b) = true -> cut_last_colon (s +:+ ":" +:+ b) = Some (s, b).
Proof.
  intros Hb. assert (cut_last_colon b = None) as Hn.
  { induction b as [|a b IH]; [done|]. cbn in Hb |- *. apply andb_true_iff in Hb as [Ha Hb]. rewrite IH by done. by destruct (Ascii.eqb a ":"). }
  induction s as [|a s IH]; [change ("" +:+ ":" +:+ b) with (String ":" b); cbn [cut_last_colon]; by rewrite Hn|]. change (String a s +:+ ":" +:+ b) with (String a (s +:+ ":" +:+ b)). cbn [cut_last_colon]. by rewrite IH.
Qed.

Lemma all_digits_plain c p : all_digits p = true -> digit_val c = None -> forallb (fun a => negb (Ascii.eqb a c)) (String.list_ascii_of_string p) = true.
Proof.
  unfold all_digits. rewrite !forallb_forall. intros Hp Hc a Ha. specialize (Hp a Ha). destruct (Ascii.eqb_spec a c) as [->|]; [by rewrite Hc in Hp|done].
Qed.

(** [URL.Hostname]: without a valid port and the brackets of an address. *)
Definition Hostname (u : URL) : string :=
  let host := match cut_last_colon (ur_Host u) with Some (b, p) => if all_digits p then b else ur_Host u | None => ur_Host u end in
  match host with
  | String "["%char s => if str_has_suffix s "]" then String.substring 0 (String.length s - 1) s else host
  | _ => host
  end.

(** ^[1-9][0-9]{9,24}$ *)
Definition videoIDPattern (s : string) : bool :=
  match s with
  | String c _ => (10 <=? String.length s)%nat && (String.length s <=? 25)%nat && all_digits s && negb (Ascii.eqb c "0")
  | EmptyString => false
  end.

(** The digits at the front. *)
Fixpoint leading_digits (s : string) : string :=
  match s with
  | String a s => match digit_val a with Some _ => String a (leading_digits s) | None => EmptyString end
  | EmptyString => EmptyString
  end.

(** The group of /(?:video|photo)/([0-9]+), at the first match. *)
Fixpoint videoPath (s : string) : option string :=
  let at_ p := match cut_string_prefix s p with Some r => if String.eqb (leading_digits r) "" then None else Some (leading_digits r) | None => None end in
  match at_ "/video/"%string, at_ "/photo/"%string with
  | Some d, _ => Some d
  | None, Some d => Some d
  | None, None => match s with String _ s => videoPath s | EmptyString => None end
  end.

Definition tiktok_host (u : URL) : bool := String.eqb (Hostname u) "tiktok.com" || str_has_suffix (Hostname u) ".tiktok.com".

(** (?:^|\.)tiktok(?:v|w)?\.(com|us|eu)$ and ^[a-z0-9.-]+\.tiktok(?:v|w)?\.(com|us|eu)$ *)
Definition app_domain : re := cats [lit "tiktok"; opt (words ["v"; "w"]); chr "."; words ["com"; "us"; "eu"]; End_].
Definition appHostPattern : re := Cat (Alt Begin (chr ".")) app_domain.
Definition routeHostPattern : re := cats [Begin; plus (alts [range "a" "z"; range "0" "9"; one_of ".-"]); chr "."; app_domain].

Definition IsAppHost (u : URL) : bool := String.eqb (ur_Scheme u) "https" && MatchString appHostPattern (Hostname u).

Record RoutingSelectors := mkSelectors {
  rs_HostGroup : list string;
  rs_ContainGroup : list string;
  rs_EqualGroup : list string;
  rs_PrefixesGroup : list string;
  rs_PatternGroup : list string;
  rs_HostReplace : string;
  rs_DispatchStrategy : Z;
  rs_StrategyInfo : list (string * string);
}.
Record RoutingRule := mkRule { rr_Priority : Z; rr_Action : string; rr_Param : RoutingSelectors }.

Definition routeHostMatches (hosts : list string) (hostname : string) : bool :=
  existsb (fun host => String.eqb host "*" || String.eqb host hostname ||
    match host with String "*"%char rest => str_has_prefix rest "." && str_has_suffix hostname rest | _ => false end) hosts.

Definition strategy (hostname : string) (info : list (string * string)) : string :=
  default "" (snd <$> List.find (fun kv => String.eqb kv.1 hostname) info).

Section Route.
Context (Parse : string -> option URL) (pattern : string -> string -> bool).

Definition ParseVideoID (input : string) : res goerr string :=
  if videoIDPattern input then Ok input
  else
    match Parse input with
    | None => Err (ErrOther "expected a TikTok URL or numeric video ID")
    | Some u =>
        if negb (String.eqb (ur_Scheme u) "https") || negb (tiktok_host u) then Err (ErrOther "expected a TikTok URL or numeric video ID")
        else
          match videoPath (ur_Path u) with
          | Some id => if videoIDPattern id then Ok id else Err (ErrOther "TikTok URL does not contain a video ID")
          | None => Err (ErrOther "TikTok URL does not contain a video ID")
          end
    end.

Definition routePathMatches (p : RoutingSelectors) (path : string) : bool :=
  existsb (fun part => contains part path) (rs_ContainGroup p) || existsb (String.eqb path) (rs_EqualGroup p) ||
  existsb (str_has_prefix path) (rs_PrefixesGroup p) || existsb (fun part => pattern part path) (rs_PatternGroup p).

Definition route_one (u : URL) (rule : RoutingRule) : URL :=
  let p := rr_Param rule in
  if negb (routeHostMatches (rs_HostGroup p) (Hostname u)) || negb (routePathMatches p (ur_Path u)) then u
  else
    let target :=
      if String.eqb (rr_Action rule) "tc" then rs_HostReplace p
      else if String.eqb (rr_Action rule) "dispatch" && (rs_DispatchStrategy p =? 1) then strategy (Hostname u) (rs_StrategyInfo p)
      else "" in
    if MatchString routeHostPattern target then set_host target u else u.

Definition routeURL (original : URL) (rules : list RoutingRule) : URL := fold_left route_one rules original.

(** ** What routing may do *)

Lemma route_host_app s : MatchString routeHostPattern s = true -> MatchString appHostPattern s = true.
Proof.
  rewrite !MatchString_spec. cbv zeta. set (w := String.list_ascii_of_string s). intros (i & j & Hi & H).
  unfold routeHostPattern, appHostPattern in *. remember app_domain as d eqn:Ed. clear Ed. cbn [cats] in H.
  inversion H as [| |r1 s1 i1 j1 k1 HB HR| | | | | | |]; subst. inversion HR as [| |r2 s2 i2 j2 k2 HP HQ| | | | | | |]; subst.
  pose proof (matches_bounds _ _ _ _ HB Hi). pose proof (matches_bounds _ _ _ _ HP ltac:(lia)).
  inversion HQ as [| |r3 s3 i3 j3 k3 HC HD| | | | | | |]; subst. exists j2, j. split; [lia|]. eapply M_Cat; [by apply M_Alt_r|exact HD].
Qed.

(** The characters a match runs over. *)
Fixpoint made_of (P : ascii -> bool) (r : re) : Prop :=
  match r with
  | Class f => forall a, f a = true -> P a = true
  | Cat r s | Alt r s => made_of P r /\ made_of P s
  | Star r => made_of P r
  | _ => True
  end.

Lemma made_of_matches P w r i j : made_of P r -> matches w r i j -> forall k a, (i <= k < j)%nat -> w !! k = Some a -> P a = true.
Proof.
  intros Hr H. induction H; cbn in Hr; intros x b Hx Hb; try lia.
  - assert (x = i) as -> by lia. apply Hr. congruence.
  - destruct Hr as [Hr1 Hr2]. destruct (decide (x < j)%nat); [apply (IHmatches1 Hr1 x b)|apply (IHmatches2 Hr2 x b)]; done || lia.
  - destruct Hr as [Hr _]. by apply (IHmatches Hr x b).
  - destruct Hr as [_ Hr]. by apply (IHmatches Hr x b).
  - destruct (decide (x < j)%nat); [apply (IHmatches1 Hr x b)|apply (IHmatches2 Hr x b)]; done || lia.
Qed.

Definition host_char (a : ascii) : bool :=
  let n := N_of_ascii a in ((97 <=? n) && (n <=? 122) || (48 <=? n) && (n <=? 57) || (n =? 46) || (n =? 45))%N.

(** A class is checked character by character. *)
Ltac each_char := intros [[] [] [] [] [] [] [] []]; vm_compute; done.

Lemma app_domain_chars : made_of host_char app_domain.
Proof. cbn. repeat split; try done; each_char. Qed.

Lemma route_pattern_chars : made_of host_char routeHostPattern.
Proof.
  unfold routeHostPattern. cbn [cats made_of]. split; [done|]. split; [|split; [each_char|apply app_domain_chars]].
  unfold plus. cbn [made_of alts]. repeat split; each_char.
Qed.

Lemma matches_end w r s i j : matches w (Cat r s) i j -> (forall k l, matches w s k l -> l = length w) -> j = length w.
Proof. intros H He. inversion H; subst. eauto. Qed.

Lemma app_domain_end w k l : matches w app_domain k l -> l = length w.
Proof.
  unfold app_domain. cbn [cats]. repeat (intros H; eapply matches_end; [exact H|]; clear H; intros ? ?). intros H. by inversion H.
Qed.

Lemma route_pattern_all s : MatchString routeHostPattern s = true -> Forall (fun a => host_char a = true) (String.list_ascii_of_string s).
Proof.
  rewrite MatchString_spec. cbv zeta. set (w := String.list_ascii_of_string s). intros (i & j & Hi & H).
  assert (j = length w) as ->.
  { unfold routeHostPattern in H. cbn [cats] in H. do 3 (eapply matches_end; [exact H|]; clear H; intros ? ? H). by eapply app_domain_end. }
  assert (i = 0%nat) as -> by (unfold routeHostPattern in H; cbn [cats] in H; inversion H as [| |r1 s1 i1 j1 k1 HB HR| | | | | | |]; subst; inversion HB; reflexivity).
  apply Forall_lookup. intros k a Ha. eapply made_of_matches; [apply route_pattern_chars|exact H| |exact Ha]. apply lookup_lt_Some in Ha. lia.
Qed.

Lemma no_colon s : Forall (fun a => host_char a = true) (String.list_ascii_of_string s) -> cut_last_colon s = None.
Proof.
  induction s as [|a s IH]; cbn; [done|]. intros [Ha Hs]%Forall_cons. rewrite IH by done. destruct (Ascii.eqb_spec a ":"); [by subst|done].
Qed.

Lemma routed_hostname s u : MatchString routeHostPattern s = true -> Hostname (set_host s u) = s.
Proof.
  intros H%route_pattern_all. unfold Hostname. cbn [set_host ur_Host]. rewrite no_colon by done. destruct s as [|a s]; [done|].
  apply Forall_cons in H as [Ha _]. destruct a as [[] [] [] [] [] [] [] []]; done.
Qed.

(** The routing rules an upstream sends cannot lead requests astray: they
    change nothing but the host, the new host is one of the service's own
    domains, and what was addressed to an application host over https still is. *)
Theorem routing_confined u rules : let v := routeURL u rules in
  ur_Scheme v = ur_Scheme u /\ ur_Path v = ur_Path u /\ ur_RawQuery v = ur_RawQuery u /\ ur_Rest v = ur_Rest u /\
  (ur_Host v = ur_Host u \/ MatchString routeHostPattern (ur_Host v) = true /\ Hostname v = ur_Host v /\ (ur_Scheme u = "https"%string -> IsAppHost v = true)) /\
  (IsAppHost u = true -> IsAppHost v = true).
Proof.
  cbv zeta. unfold routeURL. revert u. induction rules as [|rule rules IH]; intros u; cbn [fold_left]; [tauto|].
  assert (route_one u rule = u \/ exists t, MatchString routeHostPattern t = true /\ route_one u rule = set_host t u) as [->|(t & Ht & ->)].
  { unfold route_one. destruct (_ || _); [by left|]. set (t := if String.eqb (rr_Action rule) "tc" then _ else _).
    destruct (MatchString routeHostPattern t) eqn:E; [right; by exists t|by left]. }
  - apply IH.
  - destruct (IH (set_host t u)) as (H1 & H2 & H3 & H4 & H5 & H6). cbn in H1, H2, H3, H4. repeat (split; [done|]).
    assert (ur_Scheme u = "https"%string -> IsAppHost (set_host t u) = true) as Ha
      by (intros E; unfold IsAppHost; cbn [set_host ur_Scheme]; rewrite E, routed_hostname by done; by apply route_host_app).
    split.
    + right. destruct H5 as [H5|(H5 & H7 & H8)]; [|split; [done|split; [done|]]; auto]. cbn in H5. rewrite H5. split; [done|].
      assert (fold_left route_one rules (set_host t u) = set_host t u) as E.
      { destruct (fold_left route_one rules (set_host t u)) as [a b c d e]. cbn in *. unfold set_host. by subst. }
      rewrite E. split; [by apply routed_hostname|done].
    + intros Hu. apply H6, Ha. unfold IsAppHost in Hu. apply andb_prop in Hu as [Hu _]. by apply String.eqb_eq in Hu.
Qed.

(** An accepted ID is ten to twenty-five digits, given as it is or in the path of
    an https address of the service. *)
Lemma ParseVideoID_sound input id : ParseVideoID input = Ok id -> videoIDPattern id = true /\
  (input = id \/ exists u, Parse input = Some u /\ ur_Scheme u = "https"%string /\ tiktok_host u = true /\ videoPath (ur_Path u) = Some id).
Proof.
  unfold ParseVideoID. destruct (videoIDPattern input) eqn:E; [intros [= <-]; auto|]. destruct (Parse input) as [u|]; [|done].
  destruct (negb _ || negb _) eqn:Eh; [done|]. apply orb_false_iff in Eh as [E1%negb_false_iff E2%negb_false_iff].
  destruct (videoPath (ur_Path u)) as [d|] eqn:Ep; [|done]. destruct (videoIDPattern d) eqn:Ed; [|done]. intros [= <-].
  split; [done|]. right. exists u. apply String.eqb_eq in E1. auto.
Qed.
End Route.

Example route_demo :
  let u := mkURL "https" "api19-va.tiktokv.com" "/aweme/v1/feed/" "a=1" "" in
  let rule action target := mkRule 1 action (mkSelectors ["*.tiktokv.com"]%string ["/feed/"]%string [] [] [] target 1 [("api19-va.tiktokv.com", target)]%string) in
  let never := fun _ _ => false in
  ur_Host (routeURL never u [rule "tc" "api16.tiktokv.us"%string]) = "api16.tiktokv.us"%string /\
  ur_Host (routeURL never u [rule "dispatch" "evil.example"; rule "dispatch" "api2.tiktokw.eu"]%string) = "api2.tiktokw.eu"%string /\
  ur_Host (routeURL never u [rule "tc" "api.tiktokv.com.evil"%string]) = "api19-va.tiktokv.com"%string.
Proof. vm_compute. repeat split. Qed.
