(* ===== verification/AppReply.v ===== *)
(** * tiktokapp: what a reply says

    Models the reading of replies in src/internal/tiktokapp/client.go: the
    classification of failures, Retry-After, the bounded JSON body, and the
    search of a post in a detail reply.  Bodies are the bytes read of them. *)
From S2P Require Import Prelude Strconv Errors Json Float Regexp.
Open Scope Z_scope.
Open Scope go_scope.

(** ** Failures *)

Definition gap : re := plus (one_of " _-").
Definition maybe : re := opt (one_of " _-").
Definition is_gap : re := opt (Cat (lit "is") gap).
Definition device_id : re := Alt (cats [lit "device"; opt (Cat maybe (lit "id"))]) (cats [lit "install"; maybe; lit "id"]).
Definition signing_part : re := alts [lit "signature"; lit "seed"; cats [lit "sdk"; maybe; lit "token"]; cats [lit "x"; one_of " _-"; lit "argus"]].

Definition identityFailurePattern : re :=
  Alt (cats [Boundary; words ["invalid"; "expired"; "unregistered"; "revoked"]; gap; device_id; Boundary])
      (cats [Boundary; device_id; gap; is_gap; words ["invalid"; "expired"; "unregistered"; "revoked"; "not registered"]; Boundary]).
Definition signatureFailurePattern : re :=
  Alt (cats [Boundary; words ["invalid"; "expired"]; gap; signing_part; Boundary])
      (cats [Boundary; signing_part; gap; is_gap; words ["invalid"; "expired"; "error"; "rejected"]; Boundary]).
Definition rateFailurePattern : re := Alt (cats [lit "rate"; maybe; lit "limit"]) (lit "too many requests").

Definition log_in : re := cats [lit "log"; maybe; lit "in"].
Definition sign_in : re := cats [lit "sign"; maybe; lit "in"].
Definition contentRestrictionPattern : re :=
  alts [cats [lit "age"; maybe; words ["restrict"; "limit"; "verif"]];
        cats [words ["content"; "video"; "post"]; gap; is_gap; words ["restricted"; "private"]];
        cats [alts [log_in; sign_in; lit "authentication"]; gap; is_gap; lit "required"];
        cats [Alt (Cat (lit "require") (opt (chr "s"))) (lit "must"); gap; Alt log_in sign_in];
        cats [Alt log_in sign_in; lit " to "; words ["view"; "watch"; "access"; "see"]];
        cats [lit "not "; words ["authorized"; "allowed"; "permitted"]; lit " to "; words ["view"; "watch"]];
        cats [lit "not available "; words ["in your"; "for your"]; lit " "; words ["country"; "region"]]].

Definition ClassifyFailure (status appStatus : Z) (message : string) (blocked : bool) (retry : Z) : UpstreamError :=
  let message := lower_text message in
  let e code recovery := mkUpstream code recovery status appStatus retry in
  if (status =? 429) || MatchString rateFailurePattern message then e "upstream_rate_limited"%string RecoveryNone
  else if (500 <=? status) || (status =? 408) then e "upstream_unavailable"%string RecoveryNone
  else if status =? 404 then e "content_deleted"%string RecoveryNone
  else if negb blocked && ((appStatus =? 10216) || (appStatus =? 10222)) then e "content_private"%string RecoveryNone
  else if negb blocked && (appStatus =? 10204) then e "region_blocked"%string RecoveryNone
  else if MatchString identityFailurePattern message then e "identity_rejected"%string RecoveryRecreate
  else if MatchString signatureFailurePattern message then e "signature_rejected"%string RecoveryRefresh
  else if negb blocked && MatchString contentRestrictionPattern message then e "content_restricted"%string RecoveryNone
  else if blocked || (status =? 401) || (status =? 403) then e "upstream_blocked"%string RecoveryNone
  else e "upstream_rejected"%string RecoveryNone.

Definition invalidResponse (status : Z) : UpstreamError := mkUpstream "upstream_invalid_response" RecoveryNone status 0 0.

Definition IsContentRestricted (u : UpstreamError) : bool :=
  existsb (String.eqb (up_Code u)) ["content_restricted"; "content_private"; "region_blocked"]%string.

(** ** Replies *)

Record response := mkResponse {
  rp_StatusCode : Z;
  rp_Location : string;
  rp_tt_block : string;
  rp_RetryAfter : string;
  rp_ContentType : string;
  rp_StoreRegion : string;
  rp_Data : bytes;                  (* what can be read, and the error at its end *)
  rp_ReadError : option goerr;
}.

Definition record : Type := list (string * json).
Definition Day : Z := 24 * 3600 * 1000000000.
Definition maxSDKPayload : Z := 16 * 2 ^ 20.

Definition success (status : Z) : bool := (200 <=? status) && (status <? 300).

Section Reply.
(** http.ParseTime, strconv.ParseFloat of hexadecimal texts and those with an
    underscore, and the conversion of a float64 to int64, which Go leaves to the
    implementation out of range. *)
Context (ParseTime : string -> option Z) (odd_float : string -> option float) (to_int : float -> Z).

Definition seconds (s : string) : option float :=
  if contains "_" s || contains "x" (ToLower s) then odd_float s
  else match parse_float s with Some (f, false) => Some f | _ => None end.

Definition retryAfter (now : Z) (header : string) : Z :=
  if String.eqb header "" then 0
  else
    let delay :=
      match seconds header with
      | Some f => to_int (float_mul f 1000000000)
      | None => match ParseTime header with Some date => Z.max (- 2 ^ 63) (Z.min maxInt64 (date - now)) | None => 0 end
      end in
    if delay <? 0 then 0 else if Day <? delay then Day else delay.

(** The float64 of a value; an overflow is an infinity. *)
Definition Number (v : option json) : float :=
  match v with
  | Some (JNum n) => default (Finite false 0 (-1074)) (ParseFloat n)
  | _ => Finite false 0 (-1074)
  end.

Definition String_ (v : option json) : string :=
  match v with Some (JStr s) | Some (JNum s) => s | _ => "" end.

(** One JSON object and nothing after it; null is no object. *)
Definition decode (body : bytes) : option record := match json_parse body with Some (JObj l) => Some l | _ => None end.

Definition jsonResponseBounded (now : Z) (r : response) (maxBytes : Z) : res goerr record :=
  match (if maxBytes <? len (rp_Data r) then None else rp_ReadError r) with
  | Some e => Err e
  | None =>
      let body := rp_Data r in
      let blocked := negb (String.eqb (rp_tt_block r) "") in
      let retry := retryAfter now (rp_RetryAfter r) in
      let failed code message := Err (ErrUpstream (ClassifyFailure (rp_StatusCode r) code message blocked retry)) in
      let broken := if negb (success (rp_StatusCode r)) || blocked then failed 0 ""%string else Err (ErrUpstream (invalidResponse (rp_StatusCode r))) in
      if maxBytes <? len body then broken
      else
        match decode body with
        | None => broken
        | Some value =>
            let code := to_int (Number (obj_get "status_code" value)) in
            let message := default "" (jstr (obj_get "status_msg" value)) in
            let message := if String.eqb message "" then default "" (jstr (obj_get "message" value)) else message in
            if negb (success (rp_StatusCode r)) || negb (code =? 0) || blocked then failed code message else Ok value
        end
  end.

Definition jsonResponse (now : Z) (r : response) : res goerr record := jsonResponseBounded now r maxSDKPayload.

Definition is_item (id : string) (j : json) : option record :=
  match j with JObj item => if String.eqb (String_ (obj_get "aweme_id" item)) id then Some item else None | _ => None end.

Definition DetailItem (data : record) (id : string) : res UpstreamError record :=
  let listed := match obj_get "aweme_details" data with Some (JArr items) => head (omap (is_item id) items) | _ => None end in
  match obj_get "aweme_detail" data ≫= is_item id, listed with
  | Some item, _ => Ok item
  | None, Some item => Ok item
  | None, None =>
      let message := String_ (obj_get "status_msg" data) in
      let message := if String.eqb message "" then String_ (obj_get "message" data) else message in
      let failure := ClassifyFailure 200 (to_int (Number (obj_get "status_code" data))) message false 0 in
      if IsContentRestricted failure then Err failure else Err (mkUpstream "content_deleted" RecoveryNone 200 0 0)
  end.

(** The head of a JSON media type, and the test of [MediaRequest] for an error
    document sent in place of media. *)
Definition json_type (contentType : string) : bool := String.eqb contentType "application/json" || str_has_suffix contentType "+json".

Definition disguised (body : bytes) : bool := str_has_prefix (TrimSpace (string_of_bytes (take 512 body))) "{".

(** The end of [MediaRequest], after the exchange; [mediaType] is
    mime.ParseMediaType. *)
Definition media_response (mediaType : string -> string) (now : Z) (r : response) : res goerr response :=
  let contentType := mediaType (rp_ContentType r) in
  let plain := (rp_StatusCode r =? 200) && negb (json_type contentType) && String.eqb (rp_tt_block r) "" in
  let jsonBody := if plain then disguised (rp_Data r) else json_type contentType in
  if (400 <=? rp_StatusCode r) || negb (String.eqb (rp_tt_block r) "") || jsonBody then
    match jsonResponseBounded now r (256 * 2 ^ 10) with
    | Err e => Err e
    | Ok _ => Err (ErrUpstream (invalidResponse (rp_StatusCode r)))
    end
  else Ok r.

(** ** What failures are *)

Lemma ClassifyFailure_fields status appStatus message blocked retry : let u := ClassifyFailure status appStatus message blocked retry in
  up_HTTPStatus u = status /\ up_AppStatusCode u = appStatus /\ up_RetryAfter u = retry.
Proof. cbv zeta. unfold ClassifyFailure. repeat (match goal with |- context [if ?b then _ else _] => destruct b end; [done|]). done. Qed.

(** A failure asks for a new identity or a new signature only when the
    upstream says so: recovery goes with the codes of a rejected identity or
    signature and with no others, and these with a message that matches their
    pattern, on a status that is no rate limit, no outage and no missing post;
    restrictions of the content are never taken from a blocked reply; and the
    code is one of ten. *)
Theorem classification status appStatus message blocked retry :
  let u := ClassifyFailure status appStatus message blocked retry in
  (up_Recovery u = RecoveryRecreate <-> up_Code u = "identity_rejected"%string) /\
  (up_Recovery u = RecoveryRefresh <-> up_Code u = "signature_rejected"%string) /\
  (up_Recovery u <> RecoveryNone -> status <> 429 /\ status <> 404 /\ status <> 408 /\ status < 500 /\
     MatchString rateFailurePattern (lower_text message) = false) /\
  (up_Recovery u = RecoveryRecreate -> MatchString identityFailurePattern (lower_text message) = true) /\
  (up_Recovery u = RecoveryRefresh -> MatchString signatureFailurePattern (lower_text message) = true /\
     MatchString identityFailurePattern (lower_text message) = false) /\
  (IsContentRestricted u = true -> blocked = false /\ up_Recovery u = RecoveryNone) /\
  (up_Code u = "upstream_rate_limited"%string <-> status = 429 \/ MatchString rateFailurePattern (lower_text message) = true) /\
  up_HTTPStatus u = status /\ up_AppStatusCode u = appStatus /\ up_RetryAfter u = retry.
Proof.
  cbv zeta. unfold ClassifyFailure. generalize (MatchString identityFailurePattern (lower_text message)) (MatchString signatureFailurePattern (lower_text message))
    (MatchString rateFailurePattern (lower_text message)) (MatchString contentRestrictionPattern (lower_text message)). intros mi ms mr mc.
  destruct (Z.eqb_spec status 429), mr; cbn [orb]; [cbn; intuition (try done)..|].
  destruct (Z.leb_spec 500 status); cbn [orb]; [cbn; intuition (try done)|]. destruct (Z.eqb_spec status 408); [cbn; intuition (try done)|].
  destruct (Z.eqb_spec status 404); [cbn; intuition (try done)|].
  destruct blocked; cbn [negb andb orb]; [|destruct (_ || _); [cbn; intuition (try done)|]; destruct (appStatus =? 10204); [cbn; intuition (try done)|]].
  all: destruct mi; [cbn; intuition (try done; try lia)|]; destruct ms; [cbn; intuition (try done; try lia)|].
  - cbn. intuition (try done).
  - destruct mc; [cbn; intuition (try done)|]. destruct (_ || _); cbn; intuition (try done).
Qed.

(** A reply is accepted as data only when nothing in it says otherwise: its
    status is a success, it is not blocked, its body is one JSON object within
    the limit that was read to its end, and its status code is zero. Every
    other reply is an error that carries its HTTP status, and a delay of at
    most a day. *)
Theorem jsonResponse_accepts now r maxBytes :
  match jsonResponseBounded now r maxBytes with
  | Ok value => success (rp_StatusCode r) = true /\ rp_tt_block r = ""%string /\ len (rp_Data r) <= maxBytes /\ rp_ReadError r = None /\
      decode (rp_Data r) = Some value /\ to_int (Number (obj_get "status_code" value)) = 0
  | Err e => rp_ReadError r = Some e \/
      exists u, e = ErrUpstream u /\ up_HTTPStatus u = rp_StatusCode r /\ 0 <= up_RetryAfter u <= Day /\
        (up_Recovery u <> RecoveryNone -> exists value, decode (rp_Data r) = Some value /\ len (rp_Data r) <= maxBytes)
  end.
Proof.
  assert (forall h, 0 <= retryAfter now h <= Day) as Hr.
  { intros h. unfold retryAfter, Day. destruct (String.eqb h ""); [lia|]. set (d := match seconds h with Some _ => _ | None => _ end).
    destruct (Z.ltb_spec d 0); [lia|]. destruct (Z.ltb_spec (24 * 3600 * 1000000000) d); lia. }
  unfold jsonResponseBounded. set (delay := retryAfter now (rp_RetryAfter r)) in *. assert (0 <= delay <= Day) as Hd by apply Hr. clearbody delay.
  assert (forall s, up_Recovery (ClassifyFailure (rp_StatusCode r) 0 "" s delay) = RecoveryNone) as Hnone.
  { intros s. unfold ClassifyFailure. assert (MatchString identityFailurePattern (lower_text "") = false) as -> by (vm_compute; reflexivity).
    assert (MatchString signatureFailurePattern (lower_text "") = false) as -> by (vm_compute; reflexivity). repeat (destruct (_ : bool); [done|]).
    by repeat case_match. }
  assert (0 <= 0 <= Day) as H0 by (unfold Day; lia).
  destruct (Z.ltb_spec maxBytes (len (rp_Data r))) as [Hl|Hl].
  - lazy beta iota zeta. destruct (_ || _) eqn:Ef; right; eexists; (split; [done|]).
    + destruct (ClassifyFailure_fields (rp_StatusCode r) 0 "" (negb (rp_tt_block r =? "")%string) delay) as (-> & _ & ->).
      rewrite Hnone. done.
    + done.
  - destruct (rp_ReadError r) as [e|]; lazy beta iota zeta; [by left|]. destruct (decode (rp_Data r)) as [value|] eqn:Ed.
    + destruct (_ || _) eqn:Ef.
      * right. eexists. split; [done|].
        edestruct ClassifyFailure_fields as (E1 & _ & E2). rewrite E1, E2. split; [done|]. split; [done|]. eauto.
      * apply orb_false_iff in Ef as [[E1%negb_false_iff E2%negb_false_iff]%orb_false_iff E3%negb_false_iff].
        apply String.eqb_eq in E3. bool_prop. done.
    + destruct (_ || _); right; eexists; (split; [done|]).
      * destruct (ClassifyFailure_fields (rp_StatusCode r) 0 "" (negb (rp_tt_block r =? "")%string) delay) as (-> & _ & ->).
        rewrite Hnone. done.
      * done.
Qed.
End Reply.
