(* ===== verification/AppRequest.v ===== *)
(** * tiktokapp: requests and their redirects

    Models the exchanges of src/internal/tiktokapp/client.go:
    [requestWithAccount] with its redirects and [ResolveVideo], and the account
    cookies of account.go.  What a hop meets is an input: the context, what the
    session holds when its mutex is taken (region, the cookies of the device's
    jar for the address), the bootstrap, the signature and the reply.  The jars
    of net/http/cookiejar, and parsing and resolving addresses (net/url), are
    parameters.  A cookie the account's jar takes, and one given to the device's
    jar, are effects of the run. *)
From S2P Require Import Prelude Strconv Errors Json Float Regexp AppRoute AppReply.
Open Scope Z_scope.
Open Scope go_scope.

Definition pairs : Type := list (string * string).

Definition header_del (k : string) (h : pairs) : pairs := filter (fun kv => kv.1 <> k) h.
Definition header_set (k v : string) (h : pairs) : pairs := (k, v) :: header_del k h.

Record cookie := mkCookie { ck_Name : string; ck_Value : string; ck_MaxAge : Z; ck_Expires : option Z; ck_Rest : string }.

Definition account_cookies : list string := ["sid_tt"; "sessionid"; "sessionid_ss"]%string.
Definition isAccountCookie (name : string) : bool := existsb (String.eqb name) account_cookies.

Record signature := mkSignature { sg_Khronos : string; sg_Ticket : string; sg_Ladon : string; sg_Argus : string }.
Definition signature_pairs (s : signature) : pairs :=
  [("X-Khronos", sg_Khronos s); ("X-Ss-Req-Ticket", sg_Ticket s); ("X-Ladon", sg_Ladon s); ("X-Argus", sg_Argus s)]%string.

Definition private_headers : list string :=
  ["Cookie"; "Authorization"; "X-Argus"; "X-Ladon"; "X-Khronos"; "X-Ss-Req-Ticket"; "X-Tt-Store-Region"; "X-Tt-Store-Region-Src"]%string.
Definition signature_headers : list string := ["X-Argus"; "X-Ladon"; "X-Khronos"; "X-Ss-Req-Ticket"]%string.
Definition region_headers : list string := ["X-Tt-Store-Region"; "X-Tt-Store-Region-Src"]%string.

Definition redirects (status : Z) : bool := existsb (Z.eqb status) [301; 302; 303; 307; 308].
Definition bootstrapHost (host : string) : bool :=
  str_has_suffix host ".tiktokv.com" || str_has_suffix host ".tiktokv.us" || str_has_suffix host ".tiktokv.eu".
Definition under_aweme (u : URL) : bool := str_has_prefix (ur_Path u) "/aweme/".
Definition web_scheme (u : URL) : bool := String.eqb (ur_Scheme u) "https" || String.eqb (ur_Scheme u) "http".
Definition same_origin (u v : URL) : bool := String.eqb (ur_Scheme u) (ur_Scheme v) && String.eqb (ur_Host u) (ur_Host v).
Definition bootstrapRedirect (u next : URL) : bool :=
  (String.eqb (ur_Path u) "/service/2/device_register/" || String.eqb (ur_Path u) "/ms/get_seed") && String.eqb (ur_Path u) (ur_Path next) &&
  String.eqb (ur_Scheme next) "https" && bootstrapHost (Hostname u) && bootstrapHost (Hostname next).

Record hop := mkHop {
  hp_now : Z;
  hp_ctxErr : option goerr;
  hp_userAgent : string;
  hp_region : string;
  hp_cookies : pairs;             (* of the device's jar, for this address *)
  hp_bootstrap : option goerr;
  hp_signed : res goerr signature;
  hp_invalid : option goerr;      (* http.NewRequest refuses *)
  hp_exchange : res goerr (response * list cookie);
}.

Record sent := mkSent {
  sn_URL : URL;
  sn_Method : string;
  sn_Body : bytes;
  sn_Headers : pairs;
  sn_Cookies : pairs;
  sn_Direct : bool;               (* through the transport for media *)
  sn_Kept : list cookie;          (* cookies of the reply given to the device's jar *)
}.

Record call := mkCall {
  cl_original : URL;
  cl_rules : list RoutingRule;    (* of the session, at the start *)
  cl_account : string;            (* the login token, empty for none *)
  cl_media : bool;
  cl_direct : bool;               (* a transport for media is set *)
}.

Definition signs (c : call) (u : URL) : bool := IsAppHost u && under_aweme (cl_original c) && under_aweme u.

Section Exchange.
Context (Resolve : URL -> string -> option URL) (pattern : string -> string -> bool).
(** A cookiejar.Jar, and the jar this request uses in place of the device's. *)
Context {J P : Type} (jar_Cookies : J -> Z -> URL -> pairs) (jar_SetCookies : J -> Z -> URL -> cookie -> J).
Context (own_Cookies : P -> Z -> URL -> pairs) (own_accept : P -> Z -> URL -> list cookie -> P).

(** ** Account cookies *)

Record accountCookieJar := mkAccountJar { aj_account : string; aj_updates : J; aj_scopes : J }.

Definition named (name : string) : pairs -> option (string * string) := List.find (fun kv => String.eqb kv.1 name).

(** Each cookie is the token, what a reply put in its place, or nothing where a
    reply removed it. *)
Definition Cookies (j : accountCookieJar) (now : Z) (u : URL) : pairs :=
  if String.eqb (aj_account j) "" || negb (IsAppHost u) || negb (under_aweme u) then []
  else
    omap (fun name =>
      match named name (jar_Cookies (aj_updates j) now u) with
      | Some updated => Some updated
      | None => match named name (jar_Cookies (aj_scopes j) now u) with Some _ => None | None => Some (name, aj_account j) end
      end) account_cookies.

Definition SetCookie (now : Z) (u : URL) (j : accountCookieJar) (c : cookie) : accountCookieJar :=
  if isAccountCookie (ck_Name c)
  then mkAccountJar (aj_account j) (jar_SetCookies (aj_updates j) now u c)
         (jar_SetCookies (aj_scopes j) now u (mkCookie (ck_Name c) "" 0 None (ck_Rest c)))
  else j.
Definition SetCookies (j : accountCookieJar) (now : Z) (u : URL) (l : list cookie) : accountCookieJar := fold_left (SetCookie now u) l j.

(** ** One request *)

(** The headers of a hop, before its signature. *)
Definition base_headers (h : hop) (u : URL) (headers : pairs) : pairs :=
  let out := header_set "User-Agent" (hp_userAgent h) (fold_left (fun h k => header_del k h) private_headers headers) in
  if IsAppHost u && negb (String.eqb (hp_region h) "")
  then header_set "X-Tt-Store-Region-Src" "did" (header_set "X-Tt-Store-Region" (hp_region h) out) else out.

Definition signed_headers (c : call) (h : hop) (u : URL) : res goerr pairs :=
  if signs c u then
    match hp_bootstrap h with
    | Some e => Err e
    | None => match hp_signed h with Ok s => Ok (signature_pairs s) | Err e => Err e end
    end
  else Ok [].

(** The cookies the request carries; [own] is the copy of the device's jar and
    the account's jar, where there is an account. *)
Definition request_cookies (h : hop) (own : option (P * accountCookieJar)) (u : URL) : pairs :=
  let cookies := match own with Some (p, _) => own_Cookies p (hp_now h) u | None => hp_cookies h end in
  filter (fun kv => isAccountCookie kv.1 = false) cookies ++ match own with Some (_, j) => Cookies j (hp_now h) u | None => [] end.

(** The target of a redirect, or why it is refused. *)
Definition next_hop (u : URL) (location : string) (body : bytes) : res goerr URL :=
  if String.eqb location "" then Err (ErrOther "app redirect lacks a location")
  else
    match Resolve u location with
    | None => Err (ErrOther "invalid or downgraded app redirect")
    | Some next =>
        if negb (web_scheme next) || (String.eqb (ur_Scheme u) "https" && negb (String.eqb (ur_Scheme next) "https"))
        then Err (ErrOther "invalid or downgraded app redirect")
        else if (0 <? len body) && negb (same_origin next u) && negb (bootstrapRedirect u next)
        then Err (ErrOther "refused app body redirect to an unrelated origin")
        else Ok next
    end.

Definition becomes_get (status : Z) (method : string) : bool :=
  (status =? 303) || (((status =? 301) || (status =? 302)) && String.eqb method "POST").

(** One turn of the loop: what it sends, and its result or the next turn. *)
Inductive turn := Done (r : res goerr response) | Again (u : URL) (method : string) (body : bytes) (headers : pairs).

Definition one_hop (c : call) (h : hop) (own : option (P * accountCookieJar)) (u : URL) (method : string) (body : bytes) (headers : pairs) :
    option sent * option (P * accountCookieJar) * turn :=
  match hp_ctxErr h with
  | Some e => (None, own, Done (Err e))
  | None =>
      if negb (web_scheme u) then (None, own, Done (Err (ErrOther "unsupported app request URL scheme")))
      else
        match signed_headers c h u, hp_invalid h with
        | Err e, _ => (None, own, Done (Err e))
        | Ok _, Some e => (None, own, Done (Err e))
        | Ok extra, None =>
            let s := mkSent u method body (fold_left (fun h kv => header_set kv.1 kv.2 h) extra (base_headers h u headers))
                       (request_cookies h own u) (cl_media c && negb (IsAppHost u) && cl_direct c) in
            match hp_exchange h with
            | Err e => (Some (s []), own, Done (Err e))
            | Ok (r, cookies) =>
                let own' := match own with Some (p, j) => Some (own_accept p (hp_now h) u cookies, SetCookies j (hp_now h) u cookies) | None => None end in
                let kept := match own with Some _ => [] | None => cookies end in
                let next :=
                  if negb (redirects (rp_StatusCode r)) then Done (Ok r)
                  else
                    match next_hop u (rp_Location r) body with
                    | Err e => Done (Err e)
                    | Ok next =>
                        if becomes_get (rp_StatusCode r) method then Again next "GET" [] (header_del "Content-Type" headers)
                        else Again next method body headers
                    end in
                (Some (s kept), own', next)
            end
        end
  end.

(** The loop of [requestWithAccount]: its result and what it sent. *)
Fixpoint exchange (left_ : nat) (c : call) (hops : nat -> hop) (own : option (P * accountCookieJar)) (u : URL) (method : string) (body : bytes)
    (headers : pairs) : res goerr response * list sent :=
  match left_ with
  | O => (Err (ErrOther "too many app redirects"), [])
  | S left_ =>
      let '(s, own', next) := one_hop c (hops left_) own u method body headers in
      match next with
      | Done r => (r, option_list s)
      | Again u method body headers => let '(r, trace) := exchange left_ c hops own' u method body headers in (r, option_list s ++ trace)
      end
  end.

(** [hops n] is met with [n] turns left; [copy] is the device's jar, read back
    from its serialized form, and [fresh] an empty jar. *)
Definition requestWithAccount (c : call) (hops : nat -> hop) (copy : P) (fresh : J) (method : string) (body : bytes) (headers : pairs) :
    res goerr response * list sent :=
  let own := if String.eqb (cl_account c) "" then None else Some (copy, mkAccountJar (cl_account c) fresh fresh) in
  exchange 6 c hops own (routeURL pattern (cl_original c) (cl_rules c)) method body headers.

(** ** What leaves the process *)

(** What a request may carry, by where it goes. *)
Record sent_safe (c : call) (s : sent) : Prop := {
  ss_scheme : web_scheme (sn_URL s) = true;
  ss_private : forall k v, (k, v) ∈ sn_Headers s -> k <> "Cookie"%string /\ k <> "Authorization"%string;
  ss_signature : forall k v, (k, v) ∈ sn_Headers s -> k ∈ signature_headers ->
    IsAppHost (sn_URL s) = true /\ under_aweme (cl_original c) = true /\ under_aweme (sn_URL s) = true;
  ss_region : forall k v, (k, v) ∈ sn_Headers s -> k ∈ region_headers -> IsAppHost (sn_URL s) = true;
  ss_account : forall k v, (k, v) ∈ sn_Cookies s -> isAccountCookie k = true ->
    cl_account c <> ""%string /\ IsAppHost (sn_URL s) = true /\ under_aweme (sn_URL s) = true;
  ss_direct : sn_Direct s = true -> cl_media c = true /\ IsAppHost (sn_URL s) = false;
  ss_kept : cl_account c <> ""%string -> sn_Kept s = [];
}.

(** What may follow: a redirect never leaves https, and a body goes on only to
    the same origin, or between the hosts a registration or a seed is asked of. *)
Definition step_safe (u v : URL) (body body' : bytes) : Prop :=
  (ur_Scheme u = "https"%string -> ur_Scheme v = "https"%string) /\
  (body' <> [] -> body' = body /\ (same_origin v u = true \/ bootstrapRedirect u v = true)).

Definition own_ok (c : call) (own : option (P * accountCookieJar)) : Prop :=
  match own with None => cl_account c = ""%string | Some (_, j) => cl_account c <> ""%string /\ aj_account j = cl_account c end.

Lemma header_del_spec k v x h : (k, v) ∈ header_del x h <-> k <> x /\ (k, v) ∈ h.
Proof. unfold header_del. by rewrite list_elem_of_filter. Qed.

Lemma header_set_spec k v x y h : (k, v) ∈ header_set x y h <-> k = x /\ v = y \/ k <> x /\ (k, v) ∈ h.
Proof. unfold header_set. rewrite elem_of_cons, header_del_spec. intuition congruence. Qed.

Lemma dropped_headers ks h k v : (k, v) ∈ fold_left (fun h k => header_del k h) ks h -> k ∉ ks.
Proof.
  revert h. induction ks as [|x ks IH] using rev_ind; intros h; [intros _; apply not_elem_of_nil|].
  rewrite fold_left_app. cbn. rewrite header_del_spec, elem_of_app, list_elem_of_singleton. intros [Hx H%IH]. tauto.
Qed.

Lemma base_headers_spec h u headers k v : (k, v) ∈ base_headers h u headers -> k ∉ private_headers \/ k ∈ region_headers /\ IsAppHost u = true.
Proof.
  assert (forall k v, (k, v) ∈ header_set "User-Agent" (hp_userAgent h) (fold_left (fun h k => header_del k h) private_headers headers) -> k ∉ private_headers) as Hb.
  { intros k' v'. rewrite header_set_spec. intros [[-> _]|[_ H%dropped_headers]]; [by rewrite list_elem_of_In; cbn; intuition congruence|done]. }
  unfold base_headers. destruct (IsAppHost u && _) eqn:E; [|intros H; left; exact (Hb _ _ H)].
  apply andb_prop in E as [-> _]. rewrite !header_set_spec. unfold region_headers. intros [[-> _]|[_ [[-> _]|[_ H]]]].
  - right. split; [apply list_elem_of_In; cbn; tauto|done].
  - right. split; [apply list_elem_of_In; cbn; tauto|done].
  - left. apply (Hb k v), header_set_spec, H.
Qed.

Lemma signed_headers_spec c h u extra out k v : signed_headers c h u = Ok extra ->
  (k, v) ∈ fold_left (fun h kv => header_set kv.1 kv.2 h) extra out -> (k, v) ∈ out \/ k ∈ signature_headers /\ signs c u = true.
Proof.
  unfold signed_headers. destruct (signs c u); [|intros [= <-]; by left]. destruct (hp_bootstrap h); [done|].
  destruct (hp_signed h) as [s|]; [|done]. intros [= <-]. cbn. rewrite !header_set_spec. unfold signature_headers. set_solver.
Qed.

Lemma named_spec name l kv : named name l = Some kv -> kv.1 = name.
Proof. intros H. apply List.find_some in H as [_ H]. by apply String.eqb_eq in H. Qed.

Lemma Cookies_spec j now u k v : (k, v) ∈ Cookies j now u -> aj_account j <> ""%string /\ IsAppHost u = true /\ under_aweme u = true.
Proof.
  unfold Cookies. destruct (_ || _) eqn:E; [by intros ?%not_elem_of_nil|]. intros _.
  apply orb_false_iff in E as [[E1 E2]%orb_false_iff E3]. apply negb_false_iff in E2, E3. apply String.eqb_neq in E1. done.
Qed.

Lemma SetCookies_account j now u l : aj_account (SetCookies j now u l) = aj_account j.
Proof.
  unfold SetCookies. revert j. induction l as [|a l IH]; intros j; [done|]. cbn [fold_left]. rewrite IH. unfold SetCookie. by destruct (isAccountCookie _).
Qed.

Lemma request_cookies_spec c h own u k v : own_ok c own -> (k, v) ∈ request_cookies h own u -> isAccountCookie k = true ->
  cl_account c <> ""%string /\ IsAppHost u = true /\ under_aweme u = true.
Proof.
  unfold request_cookies. intros Ho. rewrite elem_of_app, list_elem_of_filter. cbn. intros [[H _]|H] Hk; [congruence|].
  destruct own as [[p j]|]; [|by apply not_elem_of_nil in H]. destruct Ho as [_ Ho]. apply Cookies_spec in H. by rewrite Ho in H.
Qed.

Lemma next_hop_safe u location body v : next_hop u location body = Ok v -> web_scheme v = true /\ step_safe u v body body.
Proof.
  unfold next_hop, step_safe. destruct (String.eqb location ""); [done|]. destruct (Resolve u location) as [w|]; [|done].
  destruct (negb (web_scheme w) || _) eqn:E1; [done|]. apply orb_false_iff in E1 as [E1%negb_false_iff E2].
  destruct ((0 <? len body) && _ && _) eqn:E3; [done|]. intros [= <-]. split; [done|]. split.
  - intros Hu. rewrite Hu in E2. cbn in E2. apply negb_false_iff in E2. by apply String.eqb_eq.
  - intros Hb. split; [done|]. assert (0 <? len body = true) as Hl by (destruct body; [done|]; apply Z.ltb_lt; unfold len; cbn [length]; lia). rewrite Hl in E3.
    destruct (same_origin w u); [by left|]. destruct (bootstrapRedirect u w); [by right|done].
Qed.

Lemma step_safe_nil u v body : step_safe u v body body -> step_safe u v body [].
Proof. intros [H _]. by split. Qed.

Lemma one_hop_safe c h own u method body headers s own' t : own_ok c own ->
  one_hop c h own u method body headers = (s, own', t) ->
  own_ok c own' /\
  (forall x, s = Some x -> sn_URL x = u /\ sn_Body x = body /\ sent_safe c x) /\
  match t with
  | Done (Ok r) => is_Some s /\ redirects (rp_StatusCode r) = false
  | Done (Err _) => True
  | Again v _ body' _ => is_Some s /\ step_safe u v body body'
  end.
Proof.
  intros Ho. unfold one_hop. destruct (hp_ctxErr h); [by intros [= <- <- <-]|]. destruct (web_scheme u) eqn:Ew; cbn [negb]; [|by intros [= <- <- <-]].
  destruct (signed_headers c h u) as [extra|e] eqn:Es; [|by intros [= <- <- <-]]. destruct (hp_invalid h); [by intros [= <- <- <-]|].
  set (headers' := fold_left _ extra _). set (direct := _ && _ && _).
  assert (forall kept, (cl_account c <> ""%string -> kept = []) -> sent_safe c (mkSent u method body headers' (request_cookies h own u) direct kept)) as Hsafe.
  { intros kept Hk.
    assert (forall k v, (k, v) ∈ headers' -> k ∉ private_headers \/ (k ∈ region_headers /\ IsAppHost u = true) \/ (k ∈ signature_headers /\ signs c u = true)) as Hh.
    { intros k v [H|H]%(signed_headers_spec c h u extra _ k v Es); [apply base_headers_spec in H|]; tauto. }
    unfold private_headers, region_headers, signature_headers in *.
    split; cbn [sn_URL sn_Headers sn_Cookies sn_Direct sn_Kept]; try done.
    - intros k v H%Hh. set_solver.
    - intros k v H%Hh Hk'. assert (signs c u = true) as Hs by set_solver. unfold signs in Hs. bool_prop. done.
    - intros k v H%Hh Hk'. destruct H as [H|[[_ H]|[H _]]]; [set_solver|done|set_solver].
    - intros k v H Hk'. by eapply request_cookies_spec.
    - unfold direct. intros H. by bool_prop. }
  destruct (hp_exchange h) as [[r cookies]|e].
  - intros [= <- <- <-]. split.
    { destruct own as [[p j]|]; [|done]. cbn in *. by rewrite SetCookies_account. }
    split.
    { intros x [= <-]. split; [done|]. split; [done|]. apply Hsafe. destruct own as [[p j]|]; [done|]. cbn in Ho. by intros ?. }
    destruct (redirects (rp_StatusCode r)) eqn:Er; cbn [negb]; [|by split; [eexists|]].
    destruct (next_hop u (rp_Location r) body) as [v|e] eqn:En; [|done]. apply next_hop_safe in En as [_ En].
    destruct (becomes_get _ _); (split; [by eexists|]); [by apply step_safe_nil|done].
  - intros [= <- <- <-]. split; [done|]. split; [|done]. intros x [= <-]. split; [done|]. split; [done|]. by apply Hsafe.
Qed.

(** Every request follows the one before it safely. *)
Definition chained (trace : list sent) : Prop := forall i s t, trace !! i = Some s -> trace !! S i = Some t ->
  step_safe (sn_URL s) (sn_URL t) (sn_Body s) (sn_Body t).

Definition run_safe (c : call) (u : URL) (body : bytes) (n : nat) (r : res goerr response) (trace : list sent) : Prop :=
  (length trace <= n)%nat /\ Forall (sent_safe c) trace /\ chained trace /\
  (forall s, head trace = Some s -> sn_URL s = u /\ sn_Body s = body) /\
  (forall reply, r = Ok reply -> trace <> [] /\ redirects (rp_StatusCode reply) = false).

Lemma chained_cons s trace : chained trace -> (forall t, head trace = Some t -> step_safe (sn_URL s) (sn_URL t) (sn_Body s) (sn_Body t)) ->
  chained (s :: trace).
Proof.
  intros Hc Hh [|i] x y; cbn; [|apply Hc]. intros [= <-] Hy. apply Hh. by destruct trace.
Qed.

Lemma exchange_safe c hops n own u method body headers : own_ok c own ->
  let '(r, trace) := exchange n c hops own u method body headers in run_safe c u body n r trace.
Proof.
  revert own u method body headers. induction n as [|n IH]; intros own u method body headers Ho; cbn [exchange].
  - unfold run_safe, chained. cbn. repeat split; try done; lia.
  - destruct (one_hop c (hops n) own u method body headers) as [[s own'] t] eqn:E. apply one_hop_safe in E as (Ho' & Hs & Ht); [|done].
    destruct t as [r|v method' body' headers'].
    + destruct s as [x|]; unfold option_list, option_rect, run_safe, chained; cbn [length head].
      * destruct (Hs x eq_refl) as (H1 & H2 & H3). split; [lia|]. split; [by constructor|]. split; [by intros [|i] ? ?|].
        split; [intros y [= <-]; done|]. intros reply ->. by destruct Ht.
      * split; [lia|]. split; [done|]. split; [done|]. split; [done|]. intros reply ->. destruct Ht as [[? [=]] _].
    + destruct Ht as [[x ->] Hstep]. destruct (Hs x eq_refl) as (H1 & H2 & H3). specialize (IH own' v method' body' headers' Ho').
      destruct (exchange n c hops own' v method' body' headers') as [r trace]. destruct IH as (I1 & I2 & I3 & I4 & I5).
      unfold option_list, option_rect. cbn [app]. unfold run_safe. cbn [length head]. split; [lia|]. split; [by constructor|].
      split; [|split; [by intros y [= <-]|intros reply Hr; split; [done|by apply (I5 reply)]]].
      apply chained_cons; [done|]. intros y Hy. destruct (I4 y Hy) as [-> ->]. by rewrite H1, H2.
Qed.

(** C15. Whatever the session, the redirects and the replies, a call to the
    application sends at most six requests, first where its routing rules lead.
    Each goes over http or https and never from https back to http; it carries no cookie or
    authorization header of the caller; a signature only to an application
    host, for an API path of an API call; the region of the session only to
    an application host; the login token, or what replaced it, only to
    an application host over https, under the API's path; a body is sent on only to the same
    origin or between the bootstrap hosts; the direct transport is used for
    media alone; with a login no cookie of a reply is kept for the device; and
    a reply that is returned is no redirect. *)
Theorem request_safety c hops copy fresh method body headers :
  let '(r, trace) := requestWithAccount c hops copy fresh method body headers in
  run_safe c (routeURL pattern (cl_original c) (cl_rules c)) body 6 r trace.
Proof.
  unfold requestWithAccount. apply exchange_safe. destruct (String.eqb_spec (cl_account c) ""); cbn; done.
Qed.

End Exchange.

(** ** Share links *)

Section Share.
Context (Parse : string -> option URL) (Resolve : URL -> string -> option URL) (ToString : URL -> string).

(** The loop of [ResolveVideo]: its result and the addresses it asked. *)
Fixpoint follow (left_ : nat) (replies : nat -> res goerr response) (u : URL) : res goerr string * list URL :=
  match left_ with
  | O => (Err (ErrOther "too many TikTok share redirects"), [])
  | S left_ =>
      if negb (String.eqb (ur_Scheme u) "https") || negb (tiktok_host u) then (Err (ErrOther "expected a TikTok video or share URL"), [])
      else
        match ParseVideoID Parse (ToString u) with
        | Ok id => (Ok id, [])
        | Err _ =>
            match replies left_ with
            | Err e => (Err e, [u])
            | Ok r =>
                if redirects (rp_StatusCode r) then
                  if String.eqb (rp_Location r) "" then (Err (ErrOther "share URL redirect lacks a location"), [u])
                  else
                    match Resolve u (rp_Location r) with
                    | None => (Err (ErrOther "url.Error"), [u])
                    | Some next => let '(id, asked) := follow left_ replies next in (id, u :: asked)
                    end
                else if negb (success (rp_StatusCode r)) then (Err (ErrUpstream (ClassifyFailure (rp_StatusCode r) 0 "" false 0)), [u])
                else (ParseVideoID Parse (ToString u), [u])
            end
        end
  end.

Definition ResolveVideo (replies : nat -> res goerr response) (input : string) : res goerr string * list URL :=
  match ParseVideoID Parse input with
  | Ok id => (Ok id, [])
  | Err _ =>
      match Parse input with
      | None => (Err (ErrOther "url.Error"), [])
      | Some u => follow 6 replies u
      end
  end.

Definition share_host (u : URL) : Prop := ur_Scheme u = "https"%string /\ tiktok_host u = true.

Lemma follow_safe n replies u : let '(r, asked) := follow n replies u in
  (length asked <= n)%nat /\ Forall share_host asked /\ (forall id, r = Ok id -> videoIDPattern id = true).
Proof.
  revert u. induction n as [|n IH]; intros u; cbn [follow]; [split; [cbn; lia|done]|].
  destruct (negb _ || negb _) eqn:E; [cbn; split; [lia|done]|]. apply orb_false_iff in E as [E1%negb_false_iff E2%negb_false_iff].
  apply String.eqb_eq in E1. assert (share_host u) as Hu by done.
  assert (forall id, ParseVideoID Parse (ToString u) = Ok id -> videoIDPattern id = true) as Hid by (intros id H; by apply ParseVideoID_sound in H as [? _]).
  assert (forall r : res goerr string, (forall id, r = Ok id -> videoIDPattern id = true) ->
    (length [u] <= S n)%nat /\ Forall share_host [u] /\ (forall id, r = Ok id -> videoIDPattern id = true)) as H1
    by (intros r Hr; split; [cbn; lia|split; [by constructor|done]]).
  destruct (ParseVideoID Parse (ToString u)) as [id|e] eqn:Ep; [split; [cbn; lia|split; [done|]]; intros ? [= <-]; by apply Hid|].
  destruct (replies n) as [r|e']; [|by apply H1]. destruct (redirects _).
  - destruct (String.eqb _ _); [by apply H1|]. destruct (Resolve u (rp_Location r)) as [v|]; [|by apply H1].
    specialize (IH v). destruct (follow n replies v) as [id asked]. destruct IH as (I1 & I2 & I3). split; [cbn; lia|].
    split; [by constructor|done].
  - destruct (negb (success _)); by apply H1.
Qed.

(** Looking up a share link asks at most six addresses, each over https on
    TikTok's own domain whatever the redirects say; what it returns is ten to
    twenty-five digits; and a plain ID is answered without a request. *)
Theorem share_safety replies input : let '(r, asked) := ResolveVideo replies input in
  (length asked <= 6)%nat /\ Forall share_host asked /\
  (forall id, r = Ok id -> videoIDPattern id = true) /\
  (videoIDPattern input = true -> r = Ok input /\ asked = []).
Proof.
  unfold ResolveVideo. destruct (ParseVideoID Parse input) as [id|e] eqn:Ep.
  - split; [cbn; lia|]. split; [done|]. split; [intros ? [= <-]; by apply ParseVideoID_sound in Ep as [? _]|].
    intros H. unfold ParseVideoID in Ep. rewrite H in Ep. by injection Ep as <-.
  - assert (videoIDPattern input = true -> False) as Hn by (intros H; unfold ParseVideoID in Ep; by rewrite H in Ep).
    destruct (Parse input) as [u|].
    + pose proof (follow_safe 6 replies u) as H. destruct (follow 6 replies u) as [r asked]. destruct H as (H1 & H2 & H3). done.
    + split; [cbn; lia|]. done.
Qed.
End Share.

(** ** Runs *)

(** An API call is redirected to another host of the service, then away: the
    login and the signature do not follow. *)
Definition demo_url (host path : string) : URL := mkURL "https" host path "" "".
Definition demo_reply (status : Z) (location : string) : response := mkResponse status location "" "" "" "" [] None.
Definition demo_hop (r : response) : hop :=
  mkHop 0 None "agent" "us" [("sessionid", "device"); ("ttwid", "1")]%string None (Ok (mkSignature "1" "1000" "l" "a")) None (Ok (r, [])).
Definition demo_run : res goerr response * list sent :=
  requestWithAccount (fun _ l => if String.eqb l "a" then Some (demo_url "api16.tiktokv.com" "/aweme/x") else Some (demo_url "cdn.example" "/v"))
    (fun _ _ => false) (fun (_ : unit) _ _ => []) (fun _ _ _ _ => tt) (fun (_ : unit) _ _ => [("ttwid", "1")]%string) (fun _ _ _ _ => tt)
    (mkCall (demo_url "api19-va.tiktokv.com" "/aweme/v1/aweme/detail/") [] "token" false false)
    (fun left_ => demo_hop (match left_ with 5 => demo_reply 302 "a" | 4 => demo_reply 302 "b" | _ => demo_reply 200 "" end)%nat) tt tt
    "GET" [] [("Authorization", "x")]%string.

Example request_demo :
  map (fun s => (ur_Host (sn_URL s), map fst (sn_Headers s), sn_Cookies s)) demo_run.2 =
  [("api19-va.tiktokv.com", ["X-Argus"; "X-Ladon"; "X-Ss-Req-Ticket"; "X-Khronos"; "X-Tt-Store-Region-Src"; "X-Tt-Store-Region"; "User-Agent"],
    [("ttwid", "1"); ("sid_tt", "token"); ("sessionid", "token"); ("sessionid_ss", "token")]);
   ("api16.tiktokv.com", ["X-Argus"; "X-Ladon"; "X-Ss-Req-Ticket"; "X-Khronos"; "X-Tt-Store-Region-Src"; "X-Tt-Store-Region"; "User-Agent"],
    [("ttwid", "1"); ("sid_tt", "token"); ("sessionid", "token"); ("sessionid_ss", "token")]);
   ("cdn.example", ["User-Agent"], [("ttwid", "1")])]%string.
Proof. vm_compute. reflexivity. Qed.
