(* ===== verification/AppSession.v ===== *)
(** * tiktokapp: sessions

    Models src/internal/tiktokapp/session.go, the checks of devices.go,
    signing.go, and the operations of client.go that change a session:
    [Register], [Bootstrap], [SyncCookies], and [DetailWithAccount], which uses
    them.  Random bytes, the times the clock shows and the outcomes of the
    exchanges (AppRequest) are inputs.  AES, SHA, SM3, RC4, CRC-32 and zlib are
    parameters, as in Crypto; so are the decoding of a routing rule and of a
    cookie jar, which encoding/json does by reflection, and url.Values.Encode.
    A time is in nanoseconds since 1970. *)
From Stdlib Require Import Sorted.
From S2P Require Import Prelude Strconv Errors Json Float Regexp Protobuf Crypto AppRoute AppReply AppRequest.
Open Scope Z_scope.
Open Scope go_scope.

Definition Second : Z := 1000000000.
Definition SigningTTL : Z := 3600 * Second.
(** time.Time{}: the first of January of year 1. *)
Definition zero_time : Z := - 62135596800 * Second.
Definition Unix (t : Z) : Z := t / Second.
Definition UnixMilli (t : Z) : Z := t / 1000000.

Definition APKVersion : string := "47.1.4".
Definition APKPackage : string := "com.zhiliaoapp.musically".
Definition APKVersionCode : Z := 470104.
Definition APKManifestVersionCode : Z := 2024701040.

Record Profile := mkProfile {
  pr_Model : string; pr_Brand : string; pr_Manufacturer : string; pr_OSVersion : string; pr_OSAPI : Z; pr_Build : string;
  pr_Resolution : string; pr_DPI : Z; pr_Language : string; pr_Region : string; pr_Timezone : string; pr_TimezoneOffset : Z; pr_Channel : string;
}.
Record Identity := mkIdentity {
  id_Kind : string; id_ClientUDID : string; id_OpenUDID : string; id_CreatedAt : Z;
  id_DeviceID : string; id_InstallID : string; id_DeviceToken : string; id_RegisteredAt : option Z;
}.
Record SDKState := mkSDK { sk_Seed : string; sk_Algorithm : Z; sk_FetchedAt : Z; sk_RequestCount : Z }.
Record Session := mkSession {
  se_Version : Z; se_Identity : Identity; se_Profile : Profile; se_Cookies : string;
  se_RoutingRules : list RoutingRule; se_StoreRegion : string; se_SDK : option SDKState;
}.

Definition set_Cookies (c : string) (s : Session) : Session :=
  mkSession (se_Version s) (se_Identity s) (se_Profile s) c (se_RoutingRules s) (se_StoreRegion s) (se_SDK s).
Definition set_SDK (k : option SDKState) (s : Session) : Session :=
  mkSession (se_Version s) (se_Identity s) (se_Profile s) (se_Cookies s) (se_RoutingRules s) (se_StoreRegion s) k.
Definition set_registration (i : Identity) (rules : list RoutingRule) (region : string) (s : Session) : Session :=
  mkSession (se_Version s) i (se_Profile s) (se_Cookies s) rules region (se_SDK s).

(** ** Base64, as StdEncoding decodes it *)

Definition base64_value (b : Z) : option Z :=
  if (65 <=? b) && (b <=? 90) then Some (b - 65) else if (97 <=? b) && (b <=? 122) then Some (b - 71)
  else if (48 <=? b) && (b <=? 57) then Some (b + 4) else if b =? 43 then Some 62 else if b =? 47 then Some 63 else None.

(** Four characters at a time; an equals sign pads, and ends the text. *)
Fixpoint base64_decode (l : bytes) : option bytes :=
  match l with
  | [] => Some []
  | a :: b :: c :: d :: l =>
      match base64_value a, base64_value b, base64_value c, base64_value d with
      | Some a, Some b, Some c, Some d =>
          let n := 262144 * a + 4096 * b + 64 * c + d in
          match base64_decode l with Some r => Some (n / 65536 :: n / 256 mod 256 :: n mod 256 :: r) | None => None end
      | Some a, Some b, Some c, None =>
          if (d =? 61) && bool_decide (l = []) then let n := 262144 * a + 4096 * b + 64 * c in Some [n / 65536; n / 256 mod 256] else None
      | Some a, Some b, None, _ =>
          if (c =? 61) && (d =? 61) && bool_decide (l = []) then let n := 262144 * a + 4096 * b in Some [n / 65536] else None
      | _, _, _, _ => None
      end
  | _ => None
  end.

(** Line ends are skipped wherever they are. *)
Definition DecodeString (s : string) : option bytes :=
  base64_decode (filter (fun b => b <> 10 /\ b <> 13) (bytes_of_string s)).

(** ** New sessions *)

Definition hex_text (l : bytes) : string := string_of_bytes (hex_bytes l).

Definition newUUID (b : bytes) : string :=
  let b := <[8%nat := Z.lor (Z.land (byte_at b 8) 0x3f) 0x80]> (<[6%nat := Z.lor (Z.land (byte_at b 6) 0x0f) 0x40]> b) in
  hex_text (slice 0 4 b) +:+ "-" +:+ hex_text (slice 4 6 b) +:+ "-" +:+ hex_text (slice 6 8 b) +:+ "-" +:+ hex_text (slice 8 10 b) +:+ "-" +:+ hex_text (slice 10 16 b).

Definition UserAgent (p : Profile) : string :=
  APKPackage +:+ "/" +:+ Itoa APKManifestVersionCode +:+ " (Linux; U; Android " +:+ pr_OSVersion p +:+ "; " +:+ pr_Language p +:+ "_" +:+ pr_Region p +:+ "; " +:+
  pr_Model p +:+ "; Build/" +:+ pr_Build p +:+ ")".

Definition emptyCookies : string :=
  let q k v := quoted k +:+ ":" +:+ v in
  "{" +:+ q "version" (quoted "tough-cookie@6.0.2") +:+ "," +:+ q "storeType" (quoted "MemoryCookieStore") +:+ "," +:+ q "rejectPublicSuffixes" "true" +:+ "," +:+
  q "enableLooseMode" "false" +:+ "," +:+ q "allowSpecialUseDomain" "true" +:+ "," +:+ q "prefixSecurity" (quoted "silent") +:+ "," +:+ q "cookies" "[]" +:+ "}".

(** [uuid] and [openUDID] are random; a profile is given or picked. *)
Definition NewSession (selected : Profile) (uuid openUDID : bytes) (now : Z) : res goerr Session :=
  if String.eqb (pr_Model selected) "" || String.eqb (pr_OSVersion selected) "" || (pr_OSAPI selected <=? 0) || String.eqb (pr_Build selected) ""
  then Err (ErrOther "invalid device profile")
  else Ok (mkSession 1 (mkIdentity "local" (newUUID uuid) (hex_text openUDID) now "" "" "" None) selected emptyCookies [] "" None).

(** ** Valid sessions *)

Definition is_hex (a : ascii) : bool :=
  let n := N_of_ascii a in ((48 <=? n) && (n <=? 57) || (97 <=? n) && (n <=? 102) || (65 <=? n) && (n <=? 70))%N.
Fixpoint take_hex (n : nat) (s : string) : option string :=
  match n, s with
  | O, _ => Some s
  | S n, String a s => if is_hex a then take_hex n s else None
  | _, _ => None
  end.
(** Groups of hexadecimal digits with dashes between. *)
Fixpoint hex_groups (groups : list nat) (s : string) : bool :=
  match groups with
  | [] => false
  | n :: groups =>
      match take_hex n s, groups with
      | Some s, [] => String.eqb s ""
      | Some (String "-" s), _ => hex_groups groups s
      | _, _ => false
      end
  end%char.
Definition clientUDIDPattern (s : string) : bool := hex_groups [8; 4; 4; 4; 12]%nat s.
(** ^[0-9a-fA-F]{13,20}$ *)
Definition openUDIDPattern (s : string) : bool :=
  (13 <=? String.length s)%nat && (String.length s <=? 20)%nat && forallb is_hex (String.list_ascii_of_string s).
(** ^[1-9][0-9]*$ *)
Definition serverIDPattern (s : string) : bool := match s with String c _ => all_digits s && negb (Ascii.eqb c "0") | EmptyString => false end.
(** ^[1-9][0-9]*\*[1-9][0-9]*$ *)
Definition resolutionPattern (s : string) : bool := let '(w, h, found) := cut_byte "*" s in found && serverIDPattern w && serverIDPattern h.
(** ^[0-9]+(?:\.[0-9]+)*$ *)
Definition osVersionPattern (s : string) : bool := forallb (fun part => negb (String.eqb part "") && all_digits part) (split_byte "." s).

Definition profile_ok (p : Profile) : bool :=
  negb (String.eqb (pr_Model p) "" || String.eqb (pr_Brand p) "" || String.eqb (pr_Manufacturer p) "" || negb (osVersionPattern (pr_OSVersion p)) ||
        (pr_OSAPI p <=? 0) || String.eqb (pr_Build p) "" || negb (resolutionPattern (pr_Resolution p)) || (pr_DPI p <=? 0) ||
        (String.length (pr_Language p) <? 2)%nat || negb (String.length (pr_Region p) =? 2)%nat || String.eqb (pr_Timezone p) "" || String.eqb (pr_Channel p) "").
Definition sdk_ok (k : SDKState) : bool :=
  match DecodeString (sk_Seed k) with
  | Some seed => (len seed =? 98) && negb (sk_Algorithm k <? 1) && negb (8 <? sk_Algorithm k) && negb (sk_FetchedAt k =? zero_time)
  | None => false
  end.

(** ** Requests *)

Definition url_Set (k v : string) (q : pairs) : pairs := header_set k v q.

Definition commonParams (i : Identity) (p : Profile) (now : Z) : pairs :=
  let q := [("device_platform", "android"); ("os", "android"); ("ssmix", "a"); ("_rticket", Itoa (UnixMilli now)); ("channel", pr_Channel p); ("aid", "1233");
    ("app_name", "musical_ly"); ("version_code", Itoa APKVersionCode); ("version_name", APKVersion); ("manifest_version_code", Itoa APKManifestVersionCode);
    ("update_version_code", Itoa APKManifestVersionCode); ("ab_version", APKVersion); ("resolution", pr_Resolution p); ("dpi", Itoa (pr_DPI p));
    ("device_type", pr_Model p); ("device_brand", pr_Brand p); ("language", pr_Language p); ("os_api", Itoa (pr_OSAPI p)); ("os_version", pr_OSVersion p);
    ("ac", "wifi"); ("app_type", "normal"); ("app_language", pr_Language p); ("region", pr_Region p); ("sys_region", pr_Region p); ("timezone_name", pr_Timezone p);
    ("timezone_offset", Itoa (pr_TimezoneOffset p)); ("host_abi", "arm64-v8a"); ("locale", pr_Language p +:+ "-" +:+ pr_Region p); ("ts", Itoa (Unix now));
    ("openudid", id_OpenUDID i)]%string in
  if String.eqb (id_Kind i) "registered" then url_Set "iid" (id_InstallID i) (url_Set "device_id" (id_DeviceID i) q) else q.

(** The query of a detail, and of a page of the feed. *)
Definition detail_query (i : Identity) (p : Profile) (now : Z) (id : string) : pairs :=
  url_Set "share_scene" "1" (url_Set "request_source" "0" (url_Set "origin_type" "others" (url_Set "aweme_id" id (commonParams i p now)))).
Definition feed_query (i : Identity) (p : Profile) (now : Z) (cursor : string) (page : Z) : pairs :=
  let q := url_Set "is_cold_start" "1" (url_Set "pull_type" "0" (url_Set "min_cursor" "-1" (url_Set "max_cursor" cursor (url_Set "count" "12"
    (url_Set "type" "0" (commonParams i p now)))))) in
  let q := if 0 <? page then url_Set "is_cold_start" "0" (url_Set "pull_type" "2" q) else q in
  url_Set "volume" "0" (url_Set "feed_count" (Itoa (i64 (page * 12))) (url_Set "req_from" "enter_auto" q)).

(** What [MediaRequest] adds to a playback address: the parameters it lacks. *)
Definition merge_params (common q : pairs) : pairs := q ++ filter (fun kv => kv.1 ∉ q.*1) common.

(** ** Hexadecimal texts *)

Lemma hex_byte b : is_byte b -> let c d := ascii_of_N (Z.to_N (if d <? 10 then 48 + d else 87 + d)) in
  is_hex (c (Z.shiftr b 4)) = true /\ is_hex (c (Z.land b 15)) = true.
Proof.
  intros Hb. cbv zeta.
  assert (forallb (fun n => let b := Z.of_nat n in let c d := ascii_of_N (Z.to_N (if d <? 10 then 48 + d else 87 + d)) in
    is_hex (c (Z.shiftr b 4)) && is_hex (c (Z.land b 15))) (seq 0 256) = true) as H by (vm_compute; reflexivity).
  apply forallb_Forall in H. rewrite Forall_forall in H. specialize (H (Z.to_nat b)).
  unfold is_byte in *. rewrite Z2Nat.id in H by lia. assert (Z.to_nat b ∈ seq 0 256) as Hin by (apply elem_of_seq; lia).
  apply andb_prop. by apply H.
Qed.

Lemma hex_text_cons b l : hex_text (b :: l) =
  String (ascii_of_N (Z.to_N (if Z.shiftr b 4 <? 10 then 48 + Z.shiftr b 4 else 87 + Z.shiftr b 4)))
    (String (ascii_of_N (Z.to_N (if Z.land b 15 <? 10 then 48 + Z.land b 15 else 87 + Z.land b 15))) (hex_text l)).
Proof. reflexivity. Qed.

Lemma append_cons a s r : String a s +:+ r = String a (s +:+ r).
Proof. reflexivity. Qed.

Lemma take_hex_text l r : all_bytes l -> take_hex (2 * length l) (hex_text l +:+ r) = Some r.
Proof.
  induction 1 as [|b l Hb _ IH]; [done|]. rewrite hex_text_cons. destruct (hex_byte b Hb) as [H1 H2].
  replace (2 * length (b :: l))%nat with (S (S (2 * length l))) by (cbn [length]; lia).
  rewrite !append_cons. cbn [take_hex]. by rewrite H1, H2.
Qed.

Lemma take_hex_all l : all_bytes l -> take_hex (2 * length l) (hex_text l) = Some ""%string.
Proof. intros H. rewrite <- (take_hex_text l "" H). f_equal. clear H. generalize (hex_text l) as s. induction s as [|a s IH]; [done|]. by rewrite append_cons, <- IH. Qed.

Lemma hex_text_openudid l : all_bytes l -> length l = 10%nat -> openUDIDPattern (hex_text l) = true.
Proof.
  intros Hb Hl. unfold openUDIDPattern.
  assert (String.length (hex_text l) = (2 * length l)%nat /\ forallb is_hex (String.list_ascii_of_string (hex_text l)) = true) as [-> ->].
  { clear Hl. induction Hb as [|b l Hb _ [IH1 IH2]]; [done|]. rewrite hex_text_cons. destruct (hex_byte b Hb) as [H1 H2].
    cbn [String.length String.list_ascii_of_string forallb]. rewrite H1, H2, IH1, IH2. cbn [length]. split; [lia|done]. }
  by rewrite Hl.
Qed.

Lemma land_byte x m : is_byte m -> is_byte (Z.land x m).
Proof.
  unfold is_byte. intros Hm. assert (0 <= Z.land x m) by (apply Z.land_nonneg; lia). split; [done|].
  assert (Z.land x m mod 2 ^ 8 = Z.land x m) as <-; [|apply Z.mod_pos_bound; lia].
  rewrite <- Z.land_ones, <- Z.land_assoc by lia. f_equal. rewrite Z.land_ones by lia. apply Z.mod_small. lia.
Qed.

Lemma lor_byte a b : is_byte a -> is_byte b -> is_byte (Z.lor a b).
Proof.
  unfold is_byte. intros Ha Hb. split; [apply Z.lor_nonneg; lia|].
  assert (Z.lor a b mod 2 ^ 8 = Z.lor a b) as <-; [|apply Z.mod_pos_bound; lia].
  rewrite <- Z.land_ones, Z.land_lor_distr_l, !Z.land_ones, !Z.mod_small by lia. done.
Qed.

Lemma newUUID_pattern b : all_bytes b -> length b = 16%nat -> clientUDIDPattern (newUUID b) = true.
Proof.
  intros Hb Hl. unfold newUUID, clientUDIDPattern. set (b1 := <[8%nat := _]> _).
  assert (all_bytes b1 /\ length b1 = 16%nat) as [H1 L1].
  { unfold b1. rewrite !length_insert. split; [|done].
    repeat (apply Forall_insert); try done; apply lor_byte; try (apply land_byte); unfold is_byte; lia. }
  clearbody b1. unfold slice. change (Z.to_nat (4 - 0)) with 4%nat. change (Z.to_nat (6 - 4)) with 2%nat. change (Z.to_nat (8 - 6)) with 2%nat.
  change (Z.to_nat (10 - 8)) with 2%nat. change (Z.to_nat (16 - 10)) with 6%nat.
  assert (forall n i, (n + i <= 16)%nat -> all_bytes (take n (drop i b1)) /\ length (take n (drop i b1)) = n) as H.
  { intros n i Hn. split; [by apply Forall_take, Forall_drop|]. rewrite length_take, length_drop. lia. }
  assert (forall n i groups s, (n + i <= 16)%nat -> groups <> [] ->
    hex_groups (2 * n :: groups)%nat (hex_text (take n (drop i b1)) +:+ "-" +:+ s) = hex_groups groups s) as Hg.
  { intros n i groups s Hn Hgr. destruct (H n i Hn) as [Ha Hlen]. cbn [hex_groups]. rewrite <- Hlen at 1. rewrite take_hex_text by done.
    destruct groups; [done|]. done. }
  change 4 with (Z.of_nat 4). rewrite (Hg 4%nat 0%nat [4; 4; 4; 12]%nat) by (lia || done).
  rewrite (Hg 2%nat 4%nat [4; 4; 12]%nat) by (lia || done). rewrite (Hg 2%nat 6%nat [4; 12]%nat) by (lia || done).
  rewrite (Hg 2%nat 8%nat [12]%nat) by (lia || done). destruct (H 6%nat 10%nat ltac:(lia)) as [Ha Hlen].
  cbn [hex_groups]. change 12%nat with (2 * 6)%nat. rewrite <- Hlen at 1. by rewrite take_hex_all.
Qed.

Section Signing.
Context (aes_enc aes_dec aes_ofb : bytes -> bytes -> bytes -> bytes) (sha256 sha1 sm3 : bytes -> bytes) (crc32 : bytes -> Z) (rc4 : bytes -> bytes -> bytes).
Context (deflate : bytes -> bytes) (inflate : bytes -> Z -> option bytes).

Inductive seedErr := SeedProto (e : protoErr) | SeedCrypto (e : cryptoErr) | NoEncryptedSeed | BadSeedLength | BadAlgorithmList | UnsupportedAlgorithm.

(** The body of the request for a seed, with its random bytes. *)
Definition seed_body (i : Identity) (now : Z) (nonce random4 : bytes) (random : Z) (fill : Z -> bytes) : res cryptoErr bytes :=
  let payload := encodeProto [ps 1 (hex_text nonce); ps 2 (id_DeviceID i); ps 3 "android"; ps 4 "v05.03.01"] in
  let? encrypted := encryptSDKPayload aes_enc aes_dec deflate random fill payload random4 in
  Ok (encodeProto [pi 1 1077938244; pi 2 2; pi 3 4; pb 4 encrypted; pi 5 (u64 (u64 (UnixMilli now) * 2))]).
Definition seed_query (i : Identity) : pairs :=
  [("lc_id", "2142840551"); ("platform", "android"); ("device_platform", "android"); ("sdk_ver", "v05.03.01-alpha.2-ov-android"); ("sdk_ver_code", "84082976");
   ("app_ver", APKVersion); ("version_code", Itoa APKManifestVersionCode); ("aid", "1233"); ("iid", id_InstallID i); ("did", id_DeviceID i);
   ("client_type", "inhouse"); ("region_type", "ov"); ("mode", "2")]%string.

Definition lift {E A} (f : E -> seedErr) (r : res E A) : res seedErr A := match r with Ok a => Ok a | Err e => Err (f e) end.

Definition acceptSeedResponse (response : bytes) (now : Z) : res seedErr SDKState :=
  let? env := lift SeedProto (decodeProto response) in
  let? encrypted := lift (fun _ => NoEncryptedSeed) (protoBytes env 6) in
  let? plain := lift SeedCrypto (decryptSDKPayload aes_enc aes_dec inflate encrypted) in
  let? fields := lift SeedProto (decodeProto plain) in
  let? seed := lift SeedProto (protoBytes fields 1) in
  guard? match DecodeString (string_of_bytes seed) with Some decoded => len decoded =? 98 | None => false end else BadSeedLength in
  let? algorithms := lift SeedProto (protoBytes fields 2) in
  let? nested := lift SeedProto (decodeProto algorithms) in
  let? packed := lift SeedProto (protoBytes nested 1) in
  match pick_algorithm (length packed) packed 0 with
  | None => Err BadAlgorithmList
  | Some algorithm => guard? negb (algorithm =? 0) else UnsupportedAlgorithm in Ok (mkSDK (string_of_bytes seed) algorithm now 0)
  end.

(** strconv.ParseUint(s, 10, 32) with its error ignored: zero for what is no
    number, the largest value for what is too large. *)
Fixpoint parse_uint32 (acc : Z) (s : string) : Z :=
  match s with
  | EmptyString => acc
  | String a s =>
      match digit_val a with
      | None => 0
      | Some d => if 2 ^ 32 - 1 <? 10 * acc + d then 2 ^ 32 - 1 else parse_uint32 (10 * acc + d) s
      end
  end.

(** The random bytes of a signature, in the order they are drawn. *)
Record entropy := mkEntropy { en_nonce : bytes; en_field : bytes; en_seed : bytes; en_prefix : bytes; en_fill : Z -> bytes; en_ladon : bytes }.

Definition argus_payload (query : bytes) (digest proof : bytes) (i : Identity) (p : Profile) (sdk : SDKState) (timestamp nonce : Z) (field : bytes) : bytes :=
  let started := u64 (Unix (sk_FetchedAt sdk)) in
  let osVersion := parse_uint32 0 (default "" (head (split_byte "." (pr_OSVersion p)))) in
  let udid := replace_bytes (fun a => if Ascii.eqb a "-" then Some ""%string else None) (id_ClientUDID i) in
  let udid := if (25 <? String.length udid)%nat then String.substring 0 25 udid else udid in
  encodeProto [pi 1 1077940818; pi 2 2; pi 3 (nonce * 2); ps 4 "1233"; ps 5 (id_DeviceID i); ps 6 "2142840551"; ps 7 APKVersion; ps 8 "v05.03.01-ov-android";
    pi 9 168165952; pb 10 (mustHex "0004000000000000"); pi 12 (u64 (timestamp * 2)); pb 13 (take 6 (sm3 digest)); pb 14 (take 6 (sm3 query));
    pb 15 (encodeProto [pi 1 (u64 (u64 (sk_RequestCount sdk + 1) * 2)); pi 2 2; pi 5 2; pi 6 2; pi 7 (u64 (started * 2)); pi 8 2]);
    ps 16 udid; pi 17 (u64 (timestamp * 2)); ps 20 "none"; pi 21 624;
    pb 23 (encodeProto [ps 1 (pr_Model p); pi 2 (osVersion * 2); ps 3 (pr_Channel p); pi 4 539064320; pi 5 35651584]);
    ps 24 (sk_Seed sdk); pi 25 10; pb 26 (encodeProto [pi 1 (u64 (u64 (sk_Algorithm sdk) * 2)); pb 2 proof]); pi 27 (u64 (started * 2));
    pi 28 1006; pi 29 540176; pi 30 6; pi 31 (le_get field); pi 33 4].

Definition signAppRequest (query : string) (body : bytes) (i : Identity) (p : Profile) (sdk : SDKState) (now : Z) (en : entropy) : res cryptoErr signature :=
  let timestamp := u64 (Unix now) in
  let nonce := Z.land (le_get (en_nonce en)) 0x7fffffff in
  let digest := if 0 <? len body then md5 body else replicate 16 0 in
  let query := bytes_of_string query in
  let? proof := dynamicProof aes_ofb sha256 sha1 sm3 crc32 rc4 (sk_Algorithm sdk) nonce query digest in
  let payload := argus_payload query digest proof i p sdk timestamp nonce (en_field en) in
  let prefix := [0xec] ++ en_prefix en ++ mustHex "01d00518" in
  let? argus := encryptArgusEnvelope aes_enc aes_dec sm3 (en_fill en) payload (en_seed en) (mustHex "0004000000000000") prefix None in
  let? lad := ladon (i64 timestamp) (en_ladon en) in
  Ok (mkSignature (Itoa timestamp) (Itoa (u64 (timestamp * 1000))) (string_of_bytes lad) (string_of_bytes argus)).

(** ** Registration and bootstrap *)

Context (ParseTime : string -> option Z) (odd_float : string -> option float) (to_int : float -> Z) (decode_rule : json -> option RoutingRule)
        (jar_decodes : string -> bool) (seed_error : seedErr -> goerr).

Definition ValidateSession (s : Session) : bool :=
  let i := se_Identity s in
  (se_Version s =? 1) && clientUDIDPattern (id_ClientUDID i) && openUDIDPattern (id_OpenUDID i) && negb (id_CreatedAt i =? zero_time) &&
  (String.eqb (id_Kind i) "local" || String.eqb (id_Kind i) "registered") &&
  negb (String.eqb (id_Kind i) "registered" &&
    (negb (serverIDPattern (id_DeviceID i)) || negb (serverIDPattern (id_InstallID i)) || match id_RegisteredAt i with Some t => t =? zero_time | None => true end)) &&
  profile_ok (se_Profile s) && jar_decodes (se_Cookies s) && match se_SDK s with Some k => sdk_ok k | None => true end.

Definition rule_kept (r : RoutingRule) : bool :=
  String.eqb (rr_Action r) "tc" || (String.eqb (rr_Action r) "dispatch" && (rs_DispatchStrategy (rr_Param r) =? 1)).

(** sort.SliceStable by priority: behind the rules of the same priority. *)
Fixpoint insert_rule (r : RoutingRule) (l : list RoutingRule) : list RoutingRule :=
  match l with
  | [] => [r]
  | x :: l => if rr_Priority r <? rr_Priority x then r :: x :: l else x :: insert_rule r l
  end.
Definition sort_rules (l : list RoutingRule) : list RoutingRule := fold_left (fun l r => insert_rule r l) l [].

Definition accepted_rules (data : record) : list RoutingRule :=
  match jfield "ttnet_dispatch_actions" (default JNull (obj_get "tnc_data" data)) with
  | Some (JArr raw) => sort_rules (filter (fun r => rule_kept r = true) (omap decode_rule raw))
  | _ => []
  end.

(** [now] is read when the reply is, [registered] after it was accepted. *)
Definition Register (s : Session) (reply : res goerr response) (now registered : Z) : option goerr * Session :=
  let i := se_Identity s in
  if String.eqb (id_Kind i) "registered" then (None, s)
  else
    match reply with
    | Err e => (Some e, s)
    | Ok r =>
        match jsonResponse ParseTime odd_float to_int now r with
        | Err e => (Some e, s)
        | Ok data =>
            let device := String_ (obj_get "device_id_str" data) in
            let install := String_ (obj_get "install_id_str" data) in
            if negb (serverIDPattern device) || negb (serverIDPattern install) then (Some (ErrUpstream (invalidResponse (rp_StatusCode r))), s)
            else
              (None, set_registration (mkIdentity "registered" (id_ClientUDID i) (id_OpenUDID i) (id_CreatedAt i) device install
                        (String_ (obj_get "device_token" data)) (Some registered)) (accepted_rules data) (rp_StoreRegion r) s)
        end
    end.

(** time.Time.Sub saturates. *)
Definition age (now : Z) (k : SDKState) : Z := Z.max (- 2 ^ 63) (Z.min maxInt64 (now - sk_FetchedAt k)).
Definition fresh (now : Z) (k : SDKState) : bool := (0 <=? age now k) && (age now k <? SigningTTL).

Record boot := mkBoot {
  bt_registration : res goerr response;
  bt_read : Z; bt_registered : Z;    (* the clock during the registration *)
  bt_now : Z;                        (* and when the age of the state is judged *)
  bt_seed : res goerr response;      (* building the request for a seed, and its exchange *)
  bt_answered : Z;
}.

Definition Bootstrap (s : Session) (b : boot) : option goerr * Session :=
  let '(e, s) := Register s (bt_registration b) (bt_read b) (bt_registered b) in
  match e with
  | Some e => (Some e, s)
  | None =>
      if match se_SDK s with Some k => fresh (bt_now b) k | None => false end then (None, s)
      else
        match bt_seed b with
        | Err e => (Some e, s)
        | Ok r =>
            if negb (success (rp_StatusCode r)) || negb (String.eqb (rp_tt_block r) "") then
              (match jsonResponse ParseTime odd_float to_int (bt_answered b) r with Err e => Some e | Ok _ => None end, s)
            else
              match (if AppReply.maxSDKPayload <? len (rp_Data r) then None else rp_ReadError r) with
              | Some e => (Some e, s)
              | None =>
                  if AppReply.maxSDKPayload <? len (rp_Data r) then (Some (ErrOther "SDK response exceeds size limit"), s)
                  else
                    match acceptSeedResponse (rp_Data r) (bt_answered b) with
                    | Err e => (Some (seed_error e), s)
                    | Ok k => (None, set_SDK (Some k) s)
                    end
              end
        end
  end.

Definition SyncCookies (serialized : string) (s : Session) : Session := set_Cookies serialized s.

(** A signed request counts; the counter is a uint64. *)
Definition count_request (s : Session) : Session :=
  set_SDK ((fun k => mkSDK (sk_Seed k) (sk_Algorithm k) (sk_FetchedAt k) (u64 (sk_RequestCount k + 1))) <$> se_SDK s) s.

(** [DetailWithAccount]: [resolved] is the outcome of [ResolveVideo], [answer]
    that of the request the session then makes. *)
Definition DetailWithAccount (s : Session) (resolved : res goerr string) (b : boot) (answer : Session -> string -> res goerr response) (now : Z) :
    res goerr record * Session :=
  match resolved with
  | Err e => (Err e, s)
  | Ok id =>
      match Bootstrap s b with
      | (Some e, s) => (Err e, s)
      | (None, s) =>
          (match answer s id with
           | Err e => Err e
           | Ok r =>
               match jsonResponse ParseTime odd_float to_int now r with
               | Err e => Err e
               | Ok data => match DetailItem to_int data id with Ok _ => Ok data | Err e => Err (ErrUpstream e) end
               end
           end, s)
      end
  end.

(** ** The rules kept of a registration *)

Definition by_priority (a b : RoutingRule) : Prop := rr_Priority a <= rr_Priority b.
Definition same_priority (p : Z) : list RoutingRule -> list RoutingRule := List.filter (fun r => rr_Priority r =? p).

Lemma insert_rule_same p r l : Sorted by_priority l -> same_priority p (insert_rule r l) = same_priority p l ++ same_priority p [r].
Proof.
  induction l as [|x l IH]; intros Hs; [done|]. cbn [insert_rule]. apply Sorted_StronglySorted in Hs as Hss; [|intros a b c; unfold by_priority; lia].
  inversion Hss as [|? ? Hl Hx]; subst. destruct (Z.ltb_spec (rr_Priority r) (rr_Priority x)) as [Hlt|_].
  - unfold same_priority in *. cbn [List.filter]. destruct (Z.eqb_spec (rr_Priority r) p) as [Hp|]; [|by rewrite app_nil_r].
    assert (forall l, Forall (by_priority x) l -> List.filter (fun r => rr_Priority r =? p) l = []) as Hnone.
    { intros k. induction 1 as [|y k Hy _ IHk]; cbn; [done|]. unfold by_priority in Hy. destruct (Z.eqb_spec (rr_Priority y) p); [lia|done]. }
    destruct (Z.eqb_spec (rr_Priority x) p); [lia|]. by rewrite Hnone.
  - specialize (IH ltac:(by inversion Hs)). unfold same_priority in *. cbn [List.filter] in *. rewrite IH. by destruct (rr_Priority x =? p).
Qed.

Lemma insert_rule_sorted r l : Sorted by_priority l -> Sorted by_priority (insert_rule r l).
Proof.
  induction 1 as [|x l Hs IH Hx]; cbn [insert_rule]; [by repeat constructor|]. destruct (Z.ltb_spec (rr_Priority r) (rr_Priority x)).
  - repeat constructor; try done. unfold by_priority. lia.
  - constructor; [done|]. destruct l as [|y l]; cbn [insert_rule]; [by repeat constructor|]. inversion Hx; subst.
    destruct (rr_Priority r <? rr_Priority y); by constructor.
Qed.

(** The order of the rules is by priority, and as sent among equals. *)
Lemma sort_rules_stable l : Sorted by_priority (sort_rules l) /\ forall p, same_priority p (sort_rules l) = same_priority p l.
Proof.
  unfold sort_rules. induction l as [|r l [IH1 IH2]] using rev_ind; [split; [constructor|done]|]. rewrite fold_left_app. cbn [fold_left].
  split; [by apply insert_rule_sorted|]. intros p. rewrite insert_rule_same, IH2 by done. unfold same_priority. by rewrite List.filter_app.
Qed.

(** ** Sessions stay valid *)

Lemma pick_algorithm_range n packed a x : pick_algorithm n packed a = Some x -> 0 <= a <= 8 -> 0 <= x <= 8.
Proof.
  revert packed a. induction n as [|n IH]; intros packed a; cbn [pick_algorithm]; destruct packed as [|p packed]; try congruence.
  destruct (Uvarint (p :: packed)) as [v k]. destruct (k <=? 0); [done|]. intros H Ha. apply IH in H; [done|].
  destruct (_ && _ && _ && _) eqn:E; [|done]. bool_prop. lia.
Qed.

Lemma acceptSeedResponse_ok response now k : acceptSeedResponse response now = Ok k ->
  now <> zero_time -> sdk_ok k = true /\ sk_FetchedAt k = now /\ sk_RequestCount k = 0.
Proof.
  unfold acceptSeedResponse. intros H Hnow. res_inv. destruct (pick_algorithm _ _ _) as [a|] eqn:Ea; [|done].
  destruct (negb (a =? 0)) eqn:E0; [|done]. res_inv.
  apply pick_algorithm_range in Ea; [|lia]. apply negb_true_iff, Z.eqb_neq in E0. split; [|done].
  unfold sdk_ok. cbn [sk_Seed sk_Algorithm sk_FetchedAt]. destruct (DecodeString _) as [d|]; [|done].
  rewrite !andb_true_iff, !negb_true_iff, !Z.ltb_ge, Z.eqb_neq. repeat split; lia || done.
Qed.

Lemma jsonResponse_success now r data : jsonResponse ParseTime odd_float to_int now r = Ok data ->
  success (rp_StatusCode r) = true /\ rp_tt_block r = ""%string.
Proof.
  unfold jsonResponse, jsonResponseBounded. destruct (if AppReply.maxSDKPayload <? _ then _ else _); [done|].
  destruct (AppReply.maxSDKPayload <? _); [by destruct (_ || _)|]. destruct (decode _); [|by destruct (_ || _)].
  destruct (_ || _) eqn:E; [done|]. intros _. bool_prop. by apply String.eqb_eq in H0.
Qed.

Definition registered (i : Identity) : Prop := id_Kind i = "registered"%string.

Lemma Register_spec s reply now at_ e s' : ValidateSession s = true -> at_ <> zero_time -> Register s reply now at_ = (e, s') ->
  ValidateSession s' = true /\ se_Profile s' = se_Profile s /\ se_SDK s' = se_SDK s /\
  id_ClientUDID (se_Identity s') = id_ClientUDID (se_Identity s) /\ (registered (se_Identity s) -> s' = s) /\
  (e = None -> registered (se_Identity s')) /\ (e <> None -> s' = s).
Proof.
  unfold registered. intros Hv Hat. unfold Register. destruct (String.eqb_spec (id_Kind (se_Identity s)) "registered"); [intros [= <- <-]; done|].
  destruct reply as [r|]; [|intros [= <- <-]; done]. destruct (jsonResponse _ _ _ _ _) as [data|]; [|intros [= <- <-]; done].
  destruct (negb _ || negb _) eqn:E; [intros [= <- <-]; done|]. apply orb_false_iff in E as [E1%negb_false_iff E2%negb_false_iff].
  intros [= <- <-]. split; [|done]. unfold ValidateSession in *.
  cbn [se_Version se_Identity se_Profile se_Cookies se_SDK set_registration id_Kind id_ClientUDID id_OpenUDID id_CreatedAt id_DeviceID id_InstallID id_RegisteredAt].
  rewrite E1, E2. apply Z.eqb_neq in Hat. rewrite Hat. rewrite !andb_true_iff in *. intuition.
Qed.

(** What a bootstrap guarantees, with its error [e] and the session [s'] after it. *)
Record boot_post (s : Session) (b : boot) (e : option goerr) (s' : Session) : Prop := {
  bp_valid : ValidateSession s' = true;
  bp_profile : se_Profile s' = se_Profile s;
  bp_client : id_ClientUDID (se_Identity s') = id_ClientUDID (se_Identity s);
  bp_kept : registered (se_Identity s) -> se_Identity s' = se_Identity s /\ se_RoutingRules s' = se_RoutingRules s;
  bp_ready : e = None -> registered (se_Identity s') /\ exists k, se_SDK s' = Some k /\
     (fresh (bt_now b) k = true /\ se_SDK s = Some k \/ sk_FetchedAt k = bt_answered b /\ sk_RequestCount k = 0);
  bp_idle : registered (se_Identity s) -> (exists k, se_SDK s = Some k /\ fresh (bt_now b) k = true) -> e = None /\ s' = s;
}.

Lemma Bootstrap_post s b : ValidateSession s = true -> bt_registered b <> zero_time -> bt_answered b <> zero_time ->
  boot_post s b (Bootstrap s b).1 (Bootstrap s b).2.
Proof.
  intros Hv Ht1 Ht2. unfold Bootstrap. destruct (Register s _ _ _) as [e s1] eqn:Er.
  destruct (Register_spec _ _ _ _ _ _ Hv Ht1 Er) as (H1 & H2 & H3 & H4 & H5 & H6 & H7).
  assert (registered (se_Identity s) -> se_Identity s1 = se_Identity s /\ se_RoutingRules s1 = se_RoutingRules s) as Hreg by (by intros ->%H5).
  assert (registered (se_Identity s) -> e = None) as Hn.
  { intros Hk. unfold Register in Er. rewrite (proj2 (String.eqb_eq _ _) Hk) in Er. by injection Er as <- _. }
  destruct e as [e|]; [split; try done; by intros ?%Hn|].
  destruct (match se_SDK s1 with Some k => fresh (bt_now b) k | None => false end) eqn:Ef.
  { destruct (se_SDK s1) as [k|] eqn:Ek; [|done]. split; try done; [|by intros ->%H5].
    intros _. split; [by apply H6|]. exists k. split; [done|]. left. split; [done|]. by rewrite <- H3. }
  assert (registered (se_Identity s) -> (exists k, se_SDK s = Some k /\ fresh (bt_now b) k = true) -> False) as Hno
    by (intros _ (k & Hk & Hf); rewrite H3, Hk in Ef; congruence).
  assert (forall o, boot_post s b (Some o) s1) as Hfail by (intros o; split; try done; intros Hk Hf; by destruct (Hno Hk Hf)).
  destruct (bt_seed b) as [r|e]; [|apply Hfail].
  destruct (negb (success _) || negb _) eqn:Es.
  { destruct (jsonResponse _ _ _ _ _) as [data|] eqn:Ej; [|apply Hfail]. apply jsonResponse_success in Ej as [E1 E2].
    rewrite E1, E2 in Es. done. }
  destruct (if AppReply.maxSDKPayload <? _ then _ else _); [apply Hfail|]. destruct (AppReply.maxSDKPayload <? _); [apply Hfail|].
  destruct (acceptSeedResponse _ _) as [k|e] eqn:Ea; [|apply Hfail].
  apply acceptSeedResponse_ok in Ea as (Ea1 & Ea2 & Ea3); [|done]. split; try done.
  - unfold ValidateSession in *. cbn [fst snd se_Version se_Identity se_Profile se_Cookies se_SDK set_SDK]. rewrite Ea1. rewrite !andb_true_iff in *. intuition.
  - intros _. split; [by apply H6|]. exists k. split; [done|]. by right.
  - intros Hk Hf. by destruct (Hno Hk Hf).
Qed.

(** A bootstrap leaves the session able to sign: where it succeeds, the
    device is registered and the signing state is less than an hour old, or
    the one just fetched. Whether it succeeds or fails, a valid session stays
    valid, its profile and client ID are the ones it had, a registration that
    was made is never replaced, and a fresh signing state costs no exchange and
    changes nothing. *)
Theorem bootstrap_ready s b : ValidateSession s = true -> bt_registered b <> zero_time -> bt_answered b <> zero_time ->
  let '(e, s') := Bootstrap s b in boot_post s b e s'.
Proof.
  intros Hv Ht1 Ht2. pose proof (Bootstrap_post s b Hv Ht1 Ht2) as H. by destruct (Bootstrap s b).
Qed.

(** What may happen to a session: a bootstrap, its cookies written back, a
    signed request counted. *)
Inductive session_step (s : Session) : Session -> Prop :=
| step_boot b : bt_registered b <> zero_time -> bt_answered b <> zero_time -> session_step s (Bootstrap s b).2
| step_sync c : jar_decodes c = true -> session_step s (SyncCookies c s)
| step_count : session_step s (count_request s).

Lemma count_request_spec s : ValidateSession (count_request s) = ValidateSession s /\ se_Profile (count_request s) = se_Profile s /\
  se_Identity (count_request s) = se_Identity s.
Proof. destruct s as [v i p c r g [k|]]; done. Qed.

Lemma session_step_spec s s' : ValidateSession s = true -> session_step s s' ->
  ValidateSession s' = true /\ se_Profile s' = se_Profile s /\ id_ClientUDID (se_Identity s') = id_ClientUDID (se_Identity s) /\
  (registered (se_Identity s) -> se_Identity s' = se_Identity s).
Proof.
  intros Hv [b H1 H2|c Hc|].
  - destruct (Bootstrap_post s b Hv H1 H2) as [B1 B2 B3 B4 _ _]. repeat (split; [done|]). by intros [? _]%B4.
  - unfold SyncCookies. split; [|done]. unfold ValidateSession in *. cbn [se_Version se_Identity se_Profile se_Cookies se_SDK set_Cookies].
    rewrite Hc. rewrite !andb_true_iff in *. intuition.
  - destruct (count_request_spec s) as (-> & -> & ->). done.
Qed.

Lemma session_steps_spec s s' : rtc session_step s s' -> ValidateSession s = true ->
  ValidateSession s' = true /\ se_Profile s' = se_Profile s /\ id_ClientUDID (se_Identity s') = id_ClientUDID (se_Identity s) /\
  (registered (se_Identity s) -> se_Identity s' = se_Identity s).
Proof.
  induction 1 as [s|s s1 s' Hs _ IH]; intros Hv; [done|]. destruct (session_step_spec _ _ Hv Hs) as (H1 & H2 & H3 & H4).
  destruct (IH H1) as (I1 & I2 & I3 & I4). split; [done|]. split; [congruence|]. split; [congruence|].
  intros Hr. specialize (H4 Hr). rewrite <- H4. apply I4. by rewrite H4.
Qed.

(** Every session the program makes stays one it accepts: a session that
    starts from a complete profile passes the check of stored sessions, and
    after any bootstraps, failed or not, writes of its cookies and signed
    requests it passes it still, with the profile and client ID it started with;
    and the device's registration, once there is one, never changes. *)
Theorem session_valid selected uuid openUDID now s0 s s' :
  NewSession selected uuid openUDID now = Ok s0 -> profile_ok selected = true -> now <> zero_time ->
  all_bytes uuid -> length uuid = 16%nat -> all_bytes openUDID -> length openUDID = 10%nat -> jar_decodes emptyCookies = true ->
  rtc session_step s0 s -> rtc session_step s s' ->
  ValidateSession s = true /\ se_Profile s = selected /\ id_ClientUDID (se_Identity s) = newUUID uuid /\
  (registered (se_Identity s) -> se_Identity s' = se_Identity s).
Proof.
  intros Hn Hp Hnow Hu Lu Ho Lo Hj Hs Hs'. unfold NewSession in Hn. destruct (_ || _ || _ || _); [done|].
  assert (ValidateSession s0 = true) as Hv.
  { injection Hn as <-. unfold ValidateSession. cbn [se_Version se_Identity se_Profile se_Cookies se_SDK id_Kind id_ClientUDID id_OpenUDID id_CreatedAt].
    rewrite newUUID_pattern, hex_text_openudid, Hp, Hj by done. apply Z.eqb_neq in Hnow. by rewrite Hnow. }
  destruct (session_steps_spec _ _ Hs Hv) as (H1 & H2 & H3 & _). destruct (session_steps_spec _ _ Hs' H1) as (_ & _ & _ & H4).
  injection Hn as <-. done.
Qed.

(** ** Signing *)

Lemma length_md5 m : length (md5 m) = 16%nat.
Proof. unfold md5. destruct (fold_left _ _ _) as [[[a b] c] d]. rewrite !length_app, !length_le_put. done. Qed.

Lemma encryptArgusEnvelope_ok fill payload seed prefix flags : len seed = 4 -> len flags = 8 -> len prefix = 9 ->
  (forall n, 0 <= n -> len (fill n) = n) -> exists text, encryptArgusEnvelope aes_enc aes_dec sm3 fill payload seed flags prefix None = Ok text.
Proof.
  intros Hs Hf Hp Hfill. unfold encryptArgusEnvelope. rewrite Hs, Hf, Hp. cbn [Z.eqb Pos.eqb andb]. lazy zeta.
  set (mixed := reverse _). set (plain := prefix ++ mixed ++ drop 2 seed). pose proof (sdk_padding (len plain)) as [Hn Hm].
  set (n := 16 - len plain mod 16) in *. assert (len (<[Z.to_nat (n - 1):=n]> (fill n)) = n) as Hl
    by (unfold len; rewrite length_insert; apply Hfill; lia).
  rewrite Hl, byte_at_insert_last by (lia || apply Hfill; lia). rewrite !Z.eqb_refl. cbn [andb].
  unfold aesCBC. rewrite len_app, Hl, Hm. assert (len (md5 (drop 16 apkSignKey)) = 16) as -> by (unfold len; by rewrite length_md5).
  cbn. by eexists.
Qed.

Lemma ladon_ok t seed : 0 <= t -> len seed = 4 -> exists text, ladon t seed = Ok text.
Proof. intros Ht Hs. unfold ladon. rewrite Hs. destruct (Z.leb_spec 0 t); [|lia]. cbn [andb]. by eexists. Qed.

(** A valid session can always be signed with: at any time from 1970 on that fits the
    clock, whatever the query, the body and the random bytes, the four
    headers are made, and the times they name are the time of the call. *)
Theorem signing_total s k query body now en : ValidateSession s = true -> se_SDK s = Some k -> 0 <= now < 2 ^ 63 ->
  length (en_seed en) = 4%nat -> length (en_prefix en) = 4%nat -> length (en_ladon en) = 4%nat -> (forall n, 0 <= n -> len (en_fill en n) = n) ->
  exists sig, signAppRequest query body (se_Identity s) (se_Profile s) k now en = Ok sig /\
    sg_Khronos sig = Itoa (now / Second) /\ sg_Ticket sig = Itoa (now / Second * 1000).
Proof.
  intros Hv Hk Hnow Hs Hp Hl Hf. assert (sdk_ok k = true) as Hok by (unfold ValidateSession in Hv; rewrite Hk in Hv; by apply andb_prop in Hv as [_ Hv]).
  assert (0 <= now / Second < 2 ^ 50) as Ht by (unfold Second; split; [apply Z.div_pos; lia|apply Z.div_lt_upper_bound; lia]).
  unfold signAppRequest, Unix. assert (u64 (now / Second) = now / Second) as -> by (unfold u64, wrap; apply Z.mod_small; lia).
  set (digest := if 0 <? len body then md5 body else replicate 16 0).
  assert (len digest = 16) as Hd by (unfold digest, len; destruct (0 <? _); [by rewrite length_md5|done]).
  unfold dynamicProof. rewrite Hd. unfold sdk_ok in Hok. destruct (DecodeString (sk_Seed k)); [|done]. bool_prop.
  destruct (Z.leb_spec 1 (sk_Algorithm k)); [|lia]. destruct (Z.leb_spec (sk_Algorithm k) 8); [|lia]. cbn [Z.eqb Pos.eqb andb rbind].
  match goal with |- context [encryptArgusEnvelope _ _ _ ?f ?p ?sd ?fl ?pr None] =>
    destruct (encryptArgusEnvelope_ok f p sd pr fl) as [text ->] end;
    [unfold len; by rewrite Hs|reflexivity|unfold len; rewrite !length_app, Hp; reflexivity|done|]. cbn [rbind].
  rewrite i64_id by (unfold in_i64; lia). destruct (ladon_ok (now / Second) (en_ladon en)) as [lad ->]; [lia|unfold len; by rewrite Hl|].
  cbn [rbind]. eexists. split; [done|]. split; [done|]. cbn. f_equal. unfold u64, wrap. apply Z.mod_small. lia.
Qed.
End Signing.

(** ** Runs *)

Definition demo_profile : Profile := mkProfile "Pixel 8" "google" "Google" "14" 34 "UP1A" "1080*2400" 420 "en" "US" "Etc/UTC" 0 "googleplay".
Definition demo_session : Session :=
  match NewSession demo_profile (replicate 16 171) (replicate 10 18) 1000 with Ok s => s | Err _ => mkSession 0 (mkIdentity "" "" "" 0 "" "" "" None) demo_profile "" [] "" None end.
Definition demo_fill (n : Z) : bytes := replicate (Z.to_nat n) 9.
Definition demo_to_int (f : float) : Z := if float_is 0 f then 0 else 1.

Definition registered_reply : response :=
  mkResponse 200 "" "" "" "application/json" "us"
    (bytes_of_string ("{" +:+ quoted "device_id_str" +:+ ":" +:+ quoted "7300000000000000001" +:+ "," +:+ quoted "install_id_str" +:+ ":" +:+ quoted "7300000000000000002" +:+ "}")) None.
Definition seed_reply : response :=
  let plain := encodeProto [pb 1 (EncodeToString (replicate 98 7)); pb 2 (encodeProto [pb 1 [9; 4; 6]])] in
  match encryptSDKPayload id_aes id_aes marked_deflate 7 demo_fill plain [1; 0; 0; 0] with
  | Ok sealed => mkResponse 200 "" "" "" "" "" (encodeProto [pi 1 2; pb 6 sealed]) None
  | Err _ => mkResponse 500 "" "" "" "" "" [] None
  end.
Definition demo_boot : boot := mkBoot (Ok registered_reply) 2000 3000 4000 (Ok seed_reply) 5000.
Definition demo_bootstrap (s : Session) (b : boot) : option goerr * Session :=
  Bootstrap id_aes id_aes (fun s _ => marked_inflate s) (fun _ => None) (fun _ => None) demo_to_int (fun _ => None) (fun _ => ErrOther "seed") s b.

(** A new session registers, and takes the first algorithm it knows. *)
Example bootstrap_demo :
  let '(e, s) := demo_bootstrap demo_session demo_boot in
  e = None /\ id_DeviceID (se_Identity s) = "7300000000000000001"%string /\
  (fun k => (sk_Algorithm k, sk_FetchedAt k)) <$> se_SDK s = Some (2, 5000).
Proof. vm_compute. repeat split. Qed.

Lemma bootstrap_ready_witness : ValidateSession (fun _ => true) demo_session = true /\
  boot_post (fun _ => true) demo_session demo_boot (demo_bootstrap demo_session demo_boot).1 (demo_bootstrap demo_session demo_boot).2.
Proof.
  split; [vm_compute; reflexivity|].
  pose proof (bootstrap_ready id_aes id_aes (fun s _ => marked_inflate s) (fun _ => None) (fun _ => None) demo_to_int (fun _ => None) (fun _ => true)
    (fun _ => ErrOther "seed") demo_session demo_boot ltac:(vm_compute; reflexivity) ltac:(vm_compute; discriminate) ltac:(vm_compute; discriminate)) as H.
  unfold demo_bootstrap. destruct (Bootstrap _ _ _ _ _ _ _ _ _ _). exact H.
Defined.

Lemma session_valid_witness :
  let s := (demo_bootstrap demo_session demo_boot).2 in
  ValidateSession (fun _ => true) s = true /\ se_Profile s = demo_profile /\ id_ClientUDID (se_Identity s) = newUUID (replicate 16 171) /\
  (registered (se_Identity s) -> se_Identity (count_request s) = se_Identity s).
Proof.
  apply (session_valid id_aes id_aes (fun s _ => marked_inflate s) (fun _ => None) (fun _ => None) demo_to_int (fun _ => None) (fun _ => true)
    (fun _ => ErrOther "seed") demo_profile (replicate 16 171) (replicate 10 18) 1000 demo_session).
  - vm_compute. reflexivity.
  - vm_compute. reflexivity.
  - vm_compute. discriminate.
  - apply Forall_replicate. unfold is_byte. lia.
  - reflexivity.
  - apply Forall_replicate. unfold is_byte. lia.
  - reflexivity.
  - reflexivity.
  - apply rtc_once, step_boot; vm_compute; discriminate.
  - apply rtc_once, step_count.
Defined.

Definition demo_sdk : SDKState := mkSDK (string_of_bytes (EncodeToString (replicate 98 7))) 4 5000 0.

Lemma signing_total_witness : exists sig,
  signAppRequest id_aes id_aes (fun _ _ b => b) (fun b => b) (fun b => b) (fun b => b) (fun _ => 0) (fun _ b => b) "a=1" [] (se_Identity demo_session) demo_profile demo_sdk
    (1700000000 * Second) (mkEntropy [1; 2; 3; 4] [5; 6; 7; 8] [9; 10; 11; 12] [13; 14; 15; 16] demo_fill [17; 18; 19; 20]) = Ok sig /\
  sg_Khronos sig = Itoa (1700000000 * Second / Second) /\ sg_Ticket sig = Itoa (1700000000 * Second / Second * 1000).
Proof.
  apply (signing_total id_aes id_aes (fun _ _ b => b) (fun b => b) (fun b => b) (fun b => b) (fun _ => 0) (fun _ b => b) (fun _ => true)
    (set_SDK (Some demo_sdk) demo_session)); try reflexivity.
  - unfold Second. lia.
  - intros n Hn. unfold demo_fill, len. cbn. rewrite length_replicate. lia.
Defined.
