(* ===== verification/MediaBatch.v ===== *)
(** * identity: the media requests of one lease

    Models src/internal/identity/media_batch.go, and the operations that hold a
    lease while they run (backend.go: [Detail], [Feed], [OpenMedia] and
    [leasedBody]; account.go).  The requests of a batch run concurrently, each
    with its body, while [close] ends the batch: what a goroutine does under
    [mu] is one step, as are the two halves of a body's [Close] and each part
    of [close].  [ba_requests] lists the calls of [open] that were let in and
    [ba_reports] what they reported, in order; the latter is read by no
    step.  What an exchange, a read or a context returns is an input. *)
From S2P Require Import Prelude Strconv Errors.
From stdpp Require Import gmap sets.
Open Scope Z_scope.
Open Scope go_scope.

(** ** Which error a batch is blamed for *)

Definition cancellation (e : goerr) : bool := is_canceled e || is_deadline e.
Definition recovers (e : goerr) : bool :=
  match as_upstream e with Some u => bool_decide (up_Recovery u <> RecoveryNone) | None => false end.

Definition recordLocked (err previous : option goerr) : option goerr :=
  match err, previous with
  | None, _ => previous
  | Some e, None => Some e
  | Some e, Some p =>
      if (cancellation p && negb (cancellation e)) || (recovers e && negb (recovers p)) then Some e else Some p
  end.

(** What the context of a request says: its error and its cause. *)
Record context := mkContext { cx_err : option goerr; cx_cause : option goerr }.

(** The error a request is accounted for: a stall is kept though it ends the
    context; a direct transport does not speak for the route. *)
Definition mediaAttemptError (ctx : context) (err : option goerr) (direct : bool) : option goerr :=
  match cx_cause ctx ≫= as_stall with
  | Some phase => Some (if direct then ErrCanceled else ErrStall phase)
  | None =>
      match err, cx_err ctx with
      | Some e, None =>
          match as_net e with
          | Some timeout => Some (if direct then ErrCanceled else if timeout then ErrStall "transport" else e)
          | None => err
          end
      | _, _ => err
      end
  end.

(** ** The batch *)

(** Where the body of a request is: [readErr] is the last error of a read;
    [BodyClosing] is inside the [Once] of [Close], with the error it reports. *)
Inductive phase :=
| Asking
| Refused (public : goerr)
| BodyOpen (readErr : option goerr)
| BodyClosing (err : option goerr)
| BodyClosed.

Record request := mkRequest { rq_optional : bool; rq_running : bool; rq_phase : phase }.

(** Where [close] is. *)
Inductive closer :=
| NotClosing
| Shut                      (* closed is set *)
| Cancelled                 (* the context is cancelled; waits for requests *)
| Closing (bodies : list nat)
| Closed.
#[export] Instance closer_eq_dec : EqDecision closer.
Proof. solve_decision. Defined.

Record batch := mkBatch {
  ba_requests : list request;
  ba_bodies : gset nat;
  ba_closed : bool;
  ba_err : option goerr;
  ba_completed : Z;
  ba_closer : closer;
  ba_reports : list (option goerr);
}.

Definition newBatch : batch := mkBatch [] ∅ false None 0 NotClosing [].

Definition set_request (i : nat) (r : request) (b : batch) : batch :=
  mkBatch (<[i := r]> (ba_requests b)) (ba_bodies b) (ba_closed b) (ba_err b) (ba_completed b) (ba_closer b) (ba_reports b).
Definition set_bodies (s : gset nat) (b : batch) : batch :=
  mkBatch (ba_requests b) s (ba_closed b) (ba_err b) (ba_completed b) (ba_closer b) (ba_reports b).
Definition set_closer (closed : bool) (c : closer) (b : batch) : batch :=
  mkBatch (ba_requests b) (ba_bodies b) closed (ba_err b) (ba_completed b) c (ba_reports b).
Definition report (completed : bool) (err : option goerr) (b : batch) : batch :=
  mkBatch (ba_requests b) (ba_bodies b) (ba_closed b) (recordLocked err (ba_err b)) (if completed then ba_completed b + 1 else ba_completed b) (ba_closer b)
    (ba_reports b ++ [err]).

Definition phase_to (ph : phase) (r : request) : request := mkRequest (rq_optional r) (rq_running r) ph.

Inductive action :=
| Open (optional : bool)
| Failed (i : nat) (err : goerr) (ctx : context) (direct inOperation : bool)
| Answered (i : nat)
| Leave (i : nat)                        (* requests.Done *)
| ReadError (i : nat) (err : goerr)
| CloseBody (i : nat) (closeErr : option goerr)
| FinishBody (i : nat) (ctx : context) (direct : bool)
| CloseBatch
| CancelBatch
| Gather (bodies : list nat)             (* the map in the order it is ranged *)
| CloseNext (closeErr : option goerr).

(** The first half of [leasedBody.Close], once. *)
Definition close_body (i : nat) (closeErr : option goerr) (b : batch) : batch :=
  match ba_requests b !! i with
  | Some r => match rq_phase r with
              | BodyOpen readErr => set_request i (phase_to (BodyClosing (match readErr with Some e => Some e | None => closeErr end)) r) b
              | _ => b
              end
  | None => b
  end.

(** [finish] of the body. *)
Definition finish_body (i : nat) (ctx : context) (direct : bool) (b : batch) : batch :=
  match ba_requests b !! i with
  | Some r => match rq_phase r with
              | BodyClosing err =>
                  let completed := bool_decide (err = None) && bool_decide (cx_err ctx = None) in
                  let b := set_bodies (ba_bodies b ∖ {[i]}) (set_request i (phase_to BodyClosed r) b) in
                  if rq_optional r then b else report completed (mediaAttemptError ctx err direct) b
              | _ => b
              end
  | None => b
  end.

(** What [open] returns for an error. *)
Definition refusal (err : goerr) (inOperation : bool) : goerr :=
  if inOperation && recovers err then ErrRecovery (publicError err) else publicError err.

Definition step (a : action) (b : batch) : batch :=
  match a with
  | Open optional =>
      if ba_closed b then b        (* returns context.Canceled *)
      else mkBatch (ba_requests b ++ [mkRequest optional true Asking]) (ba_bodies b) (ba_closed b) (ba_err b) (ba_completed b) (ba_closer b) (ba_reports b)
  | Failed i err ctx direct inOperation =>
      match ba_requests b !! i with
      | Some (mkRequest optional true Asking) =>
          let b := set_request i (mkRequest optional true (Refused (refusal err inOperation))) b in
          if optional then b else report false (mediaAttemptError ctx (Some err) direct) b
      | _ => b
      end
  | Answered i =>
      match ba_requests b !! i with
      | Some (mkRequest optional true Asking) => set_bodies (ba_bodies b ∪ {[i]}) (set_request i (mkRequest optional true (BodyOpen None)) b)
      | _ => b
      end
  | Leave i =>
      match ba_requests b !! i with
      | Some (mkRequest _ _ Asking) => b
      | Some r => set_request i (mkRequest (rq_optional r) false (rq_phase r)) b
      | None => b
      end
  | ReadError i err =>
      match ba_requests b !! i with
      | Some r => match rq_phase r with BodyOpen _ => set_request i (phase_to (BodyOpen (Some err)) r) b | _ => b end
      | None => b
      end
  | CloseBody i closeErr => close_body i closeErr b
  | FinishBody i ctx direct => finish_body i ctx direct b
  | CloseBatch => match ba_closer b with NotClosing => set_closer true Shut b | _ => b end
  | CancelBatch => match ba_closer b with Shut => set_closer true Cancelled b | _ => b end
  | Gather bodies =>
      match ba_closer b with
      | Cancelled =>
          if forallb (fun r => negb (rq_running r)) (ba_requests b) && bool_decide (bodies ≡ₚ elements (ba_bodies b)) then set_closer true (Closing bodies) b else b
      | _ => b
      end
  | CloseNext closeErr =>
      match ba_closer b with
      | Closing [] => set_closer true Closed b
      | Closing (i :: l) =>
          match rq_phase <$> ba_requests b !! i with
          | Some (BodyOpen _) => close_body i closeErr b
          | Some (BodyClosing _) => b                 (* waits for the other Close *)
          | _ => set_closer true (Closing l) b
          end
      | _ => b
      end
  end.

Definition run (acts : list action) : batch := fold_left (fun b a => step a b) acts newBatch.

(** ** Operations under a lease *)

Definition ErrorOf {A} (r : res goerr A) : option goerr := match r with Ok _ => None | Err e => Some e end.

(** [IsContentRestricted] of an error, and of none. *)
Definition restricted (e : option goerr) : bool :=
  match e ≫= as_upstream with
  | Some u => existsb (String.eqb (up_Code u)) ["content_restricted"; "content_private"; "region_blocked"]%string
  | None => false
  end.

(** The error an account's answer leaves: a refusal of the account tells no
    more than the restriction found without it. *)
Definition accountFallbackError (restriction err : option goerr) : option goerr :=
  match restriction, err ≫= as_upstream with
  | Some r, Some u => if String.eqb (up_Code u) "upstream_blocked" || restricted (Some (ErrUpstream u)) then Some r else err
  | _, _ => err
  end.

Section Leased.
Context {A : Type}.

(** What one attempt asked of the client: for each request, whether the
    account was used.  [account] says that the pool has one. *)
Record tried := mkTried { tr_result : res goerr A; tr_asked : list bool }.

Definition fallback (restriction : option goerr) (r : res goerr A) : res goerr A :=
  match r with Ok a => Ok a | Err e => match accountFallbackError restriction (Some e) with Some e => Err e | None => r end end.

(** [mediaRequest]: [request] is the exchange with and without the account. *)
Definition mediaRequest (account appHost : bool) (request : bool -> res goerr A) : tried :=
  let first := request false in
  if restricted (ErrorOf first) && account && appHost
  then mkTried (fallback (ErrorOf first) (request true)) [false; true]
  else mkTried first [false].

(** One turn of [Detail]; [withAccount] and [restriction] last from turn to turn. *)
Definition detail_turn (account withAccount : bool) (restriction : option goerr) (request : bool -> res goerr A) : tried * bool * option goerr :=
  let first := request withAccount in
  if restricted (ErrorOf first) && negb withAccount && account
  then (mkTried (fallback (ErrorOf first) (request true)) [withAccount; true], true, ErrorOf first)
  else (mkTried (fallback restriction first) [withAccount], withAccount, restriction).

(** The loop of two attempts; [recover n e] is the lease's. What the
    caller gets, what [finish] is told, and the requests made. *)
Definition Detail (account : bool) (request : nat -> bool -> res goerr A) (recover : nat -> goerr -> bool) : res goerr A * option goerr * list bool :=
  let '(t0, withAccount, restriction) := detail_turn account false None (request 0%nat) in
  match tr_result t0 with
  | Ok a => (Ok a, None, tr_asked t0)
  | Err e0 =>
      if negb (recover 0%nat e0) then (Err (publicError e0), Some e0, tr_asked t0)
      else
        let '(t1, _, _) := detail_turn account withAccount restriction (request 1%nat) in
        match tr_result t1 with
        | Ok a => (Ok a, None, tr_asked t0 ++ tr_asked t1)
        | Err e1 => (Err (publicError e1), Some e1, tr_asked t0 ++ tr_asked t1)
        end
  end.

Definition Feed (request : nat -> res goerr A) (recover : nat -> goerr -> bool) : res goerr A * option goerr :=
  match request 0%nat with
  | Ok a => (Ok a, None)
  | Err e0 =>
      if negb (recover 0%nat e0) then (Err (publicError e0), Some e0)
      else match request 1%nat with Ok a => (Ok a, None) | Err e1 => (Err (publicError e1), Some e1) end
  end.

(** [OpenMedia]; [None] where the lease lives on in the body. [refused] is
    ClassifyFailure of a reply whose status is an error. *)
Definition OpenMedia (request : nat -> tried) (refused : A -> option goerr) (recover : nat -> goerr -> bool) : res goerr A * option (option goerr) :=
  let attempt n := match tr_result (request n) with
                   | Ok r => match refused r with Some e => Err e | None => Ok r end
                   | Err e => Err e
                   end in
  match attempt 0%nat with
  | Ok r => (Ok r, None)
  | Err e0 =>
      if negb (recover 0%nat e0) then (Err (publicError e0), Some (Some e0))
      else match attempt 1%nat with Ok r => (Ok r, None) | Err e1 => (Err (publicError e1), Some (Some e1)) end
  end.
End Leased.

(** What one run of [WithMedia] is accounted for. *)
Definition operationErr (err : option goerr) (b : batch) : option goerr :=
  if bool_decide (err <> None) || (ba_completed b =? 0) || match ba_err b with Some e => recovers e | None => false end
  then match ba_err b with Some e => Some e | None => err end
  else err.

(** [WithMedia]: [runs n] is the error of the callback and the batch at its
    end. What the caller gets, what [finish] is told, and the runs. *)
Definition WithMedia (runs : nat -> option goerr * batch) (recover : goerr -> bool) : option goerr * option goerr * nat :=
  let '(err0, b0) := runs 0%nat in
  let op0 := operationErr err0 b0 in
  if match op0 with Some e => recover e | None => false end then
    let '(err1, b1) := runs 1%nat in (publicError <$> err1, operationErr err1 b1, 2%nat)
  else (publicError <$> err0, op0, 1%nat).

(** ** Blame *)

(** The error of a list of reports: the first that asks for a recovery, else
    the first that is no cancellation, else the first. *)
Definition blamed (reports : list (option goerr)) : option goerr :=
  let es := omap id reports in
  match List.find recovers es, List.find (fun e => negb (cancellation e)) es with
  | Some e, _ => Some e
  | None, Some e => Some e
  | None, None => head es
  end.

Lemma recovers_no_cancellation e : recovers e = true -> cancellation e = false.
Proof. unfold recovers, cancellation. induction e; cbn; try done. Qed.

Lemma find_snoc {A} (f : A -> bool) l x : List.find f (l ++ [x]) = match List.find f l with Some y => Some y | None => if f x then Some x else None end.
Proof. induction l as [|y l IH]; cbn; [done|]. by destruct (f y). Qed.

Lemma recorded_blamed reports : fold_left (fun p e => recordLocked e p) reports None = blamed reports.
Proof.
  induction reports as [|r reports IH] using rev_ind; [done|]. rewrite fold_left_app. cbn [fold_left]. rewrite IH. unfold blamed.
  rewrite omap_app. destruct r as [e|]; cbn [omap list_omap id]; [|by rewrite app_nil_r]. rewrite !find_snoc.
  set (es := omap id reports). destruct (List.find recovers es) as [x|] eqn:Er.
  { apply List.find_some in Er as [_ Hx]. unfold recordLocked. by rewrite (recovers_no_cancellation x Hx), Hx, andb_false_r. }
  assert (forall y, y ∈ es -> recovers y = false) as Hnone by (intros y Hy; apply list_elem_of_In in Hy; by apply (List.find_none _ _ Er)).
  destruct (List.find (fun e => negb (cancellation e)) es) as [y|] eqn:Ey.
  { apply List.find_some in Ey as [Hin Hy]. apply list_elem_of_In, Hnone in Hin. apply negb_true_iff in Hy. unfold recordLocked.
    rewrite Hy, Hin. cbn [andb orb negb]. rewrite andb_true_r. by destruct (recovers e). }
  destruct es as [|z es'] eqn:Ees; cbn [head app].
  - unfold recordLocked. destruct (recovers e); [done|]. by destruct (negb _).
  - unfold recordLocked. rewrite (Hnone z) by left. assert (cancellation z = true) as Hz by (apply negb_false_iff; exact (List.find_none _ _ Ey z (or_introl eq_refl))).
    rewrite Hz. cbn [andb]. rewrite andb_true_r. destruct (recovers e) eqn:Ee; [by rewrite orb_true_r|]. rewrite orb_false_r. by destruct (negb _).
Qed.

(** ** What holds at every moment *)

Definition has_body (r : request) : bool := match rq_phase r with BodyOpen _ | BodyClosing _ => true | _ => false end.

Record batch_ok (b : batch) : Prop := {
  bo_bodies : forall i, i ∈ ba_bodies b <-> exists r, ba_requests b !! i = Some r /\ has_body r = true;
  bo_asking : forall i r, ba_requests b !! i = Some r -> rq_phase r = Asking -> rq_running r = true;
  bo_closed : ba_closed b = match ba_closer b with NotClosing => false | _ => true end;
  bo_waited : forall i r, match ba_closer b with Closing _ | Closed => True | _ => False end -> ba_requests b !! i = Some r -> rq_running r = false;
  bo_left : match ba_closer b with Closing l => forall i, i ∈ ba_bodies b -> i ∈ l | Closed => ba_bodies b = ∅ | _ => True end;
  bo_err : ba_err b = blamed (ba_reports b);
}.

Lemma set_request_ok i r r' b : batch_ok b -> ba_requests b !! i = Some r -> has_body r' = has_body r -> (rq_running r' = true -> rq_running r = true) ->
  (rq_phase r' = Asking -> rq_running r' = true) -> batch_ok (set_request i r' b).
Proof.
  intros [H1 H2 H3 H4 H5 H6] Hi Hb Hr Ha. pose proof (lookup_lt_Some _ _ _ Hi) as Hlt. split; cbn; try done.
  - intros j. rewrite H1. destruct (decide (i = j)) as [<-|]; [rewrite list_lookup_insert_eq by done|by rewrite list_lookup_insert_ne].
    rewrite Hi. split; intros (x & [= <-] & Hx); eexists; (split; [done|]); congruence.
  - intros j x. destruct (decide (i = j)) as [<-|]; [rewrite list_lookup_insert_eq by done|rewrite list_lookup_insert_ne by done; apply H2].
    by intros [= <-].
  - intros j x Hc. destruct (decide (i = j)) as [<-|]; [rewrite list_lookup_insert_eq by done|rewrite list_lookup_insert_ne by done; by apply H4].
    intros [= <-]. destruct (rq_running r') eqn:E; [|done]. specialize (Hr eq_refl). by rewrite (H4 i r Hc Hi) in Hr.
Qed.

Lemma report_ok c e b : batch_ok b -> batch_ok (report c e b).
Proof.
  intros [H1 H2 H3 H4 H5 H6]. split; cbn; try done. rewrite H6, <- !recorded_blamed, fold_left_app. done.
Qed.

Lemma add_body_ok i o b : batch_ok b -> ba_requests b !! i = Some (mkRequest o true Asking) ->
  batch_ok (set_bodies (ba_bodies b ∪ {[i]}) (set_request i (mkRequest o true (BodyOpen None)) b)).
Proof.
  intros [H1 H2 H3 H4 H5 H6] Hi. pose proof (lookup_lt_Some _ _ _ Hi) as Hlt.
  assert (match ba_closer b with Closing _ | Closed => False | _ => True end) as Hc.
  { destruct (ba_closer b); try done; by specialize (H4 i _ I Hi). }
  split; cbn; try done.
  - intros j. rewrite elem_of_union, elem_of_singleton, H1. destruct (decide (i = j)) as [<-|Hne].
    + rewrite list_lookup_insert_eq by done. split; [intros _; by eexists|by right].
    + rewrite list_lookup_insert_ne by done. split; [by intros [?|]|by left].
  - intros j x. destruct (decide (i = j)) as [<-|]; [rewrite list_lookup_insert_eq by done; by intros [= <-]|rewrite list_lookup_insert_ne by done; apply H2].
  - intros j x Hx. by destruct (ba_closer b).
  - by destruct (ba_closer b).
Qed.

Lemma close_body_ok i e b : batch_ok b -> batch_ok (close_body i e b).
Proof.
  intros H. unfold close_body. destruct (ba_requests b !! i) as [r|] eqn:Hi; [|done]. destruct (rq_phase r) eqn:Ep; try done.
  apply (set_request_ok i r); unfold has_body; cbn; try rewrite Ep; done.
Qed.

Lemma finish_body_ok i ctx direct b : batch_ok b -> batch_ok (finish_body i ctx direct b).
Proof.
  intros H. unfold finish_body. destruct (ba_requests b !! i) as [r|] eqn:Hi; [|done]. destruct (rq_phase r) as [| | |err|] eqn:Ep; try done.
  assert (batch_ok (set_bodies (ba_bodies b ∖ {[i]}) (set_request i (phase_to BodyClosed r) b))) as Hok.
  { destruct H as [H1 H2 H3 H4 H5 H6]. pose proof (lookup_lt_Some _ _ _ Hi) as Hlt. split; cbn; try done.
    - intros j. rewrite elem_of_difference, elem_of_singleton, H1. destruct (decide (i = j)) as [<-|Hne].
      + rewrite list_lookup_insert_eq by done. split; [tauto|by intros (x & [= <-] & ?)].
      + rewrite list_lookup_insert_ne by done. split; [tauto|intros; split; [done|congruence]].
    - intros j x. destruct (decide (i = j)) as [<-|]; [rewrite list_lookup_insert_eq by done; by intros [= <-]|rewrite list_lookup_insert_ne by done; apply H2].
    - intros j x Hc. destruct (decide (i = j)) as [<-|]; [rewrite list_lookup_insert_eq by done|rewrite list_lookup_insert_ne by done; by apply H4].
      intros [= <-]. by apply (H4 i r).
    - destruct (ba_closer b); try done; [intros j Hj; apply H5; set_solver|set_solver]. }
  destruct (rq_optional r); [done|by apply report_ok].
Qed.

Lemma set_closer_ok c b : batch_ok b -> ba_closed b = true ->
  match c with NotClosing | Closing _ | Closed => False | _ => True end -> batch_ok (set_closer true c b).
Proof. intros [H1 H2 H3 H4 H5 H6] Hc Hcl. split; cbn; try done; by destruct c. Qed.

Lemma batch_step_ok a b : batch_ok b -> batch_ok (step a b).
Proof.
  intros H. destruct a as [o|i err ctx direct op|i|i|i e|i e|i ctx direct| | |l|e]; cbn [step]; try (by apply close_body_ok); try (by apply finish_body_ok).
  - destruct (ba_closed b) eqn:Ec; [done|]. destruct H as [H1 H2 H3 H4 H5 H6]. assert (ba_closer b = NotClosing) as Hn by (destruct (ba_closer b); congruence).
    split; cbn; try done.
    + intros j. rewrite H1. split; intros (r & Hr & Hb); exists r; (split; [|done]); [by apply lookup_app_l_Some|].
      apply lookup_app_Some in Hr as [|[_ Hr]]; [done|]. apply list_lookup_singleton_Some in Hr as [_ <-]. done.
    + intros j r [Hr|[_ Hr]]%lookup_app_Some; [by apply (H2 j)|]. by apply list_lookup_singleton_Some in Hr as [_ <-].
    + by rewrite Hn.
    + by rewrite Hn.
  - destruct (ba_requests b !! i) as [[o [|] []]|] eqn:Hi; try done.
    assert (batch_ok (set_request i (mkRequest o true (Refused (refusal err op))) b)) as Hs by (by eapply set_request_ok).
    destruct o; [done|by apply report_ok].
  - destruct (ba_requests b !! i) as [[o [|] []]|] eqn:Hi; try done. by apply add_body_ok.
  - destruct (ba_requests b !! i) as [[o r ph]|] eqn:Hi; [|done]. destruct ph; try done; by eapply set_request_ok.
  - destruct (ba_requests b !! i) as [r|] eqn:Hi; [|done]. destruct (rq_phase r) eqn:Ep; try done.
    apply (set_request_ok i r); unfold has_body; cbn; try rewrite Ep; done.
  - destruct (ba_closer b) eqn:Ec; try done. destruct H as [H1 H2 H3 H4 H5 H6]. split; cbn; done.
  - destruct (ba_closer b) eqn:Ec; try done. apply set_closer_ok; [done| |done]. destruct H as [_ _ -> _ _ _]. by rewrite Ec.
  - destruct (ba_closer b) eqn:Ec; try done. destruct (forallb _ _ && _) eqn:Eg; [|done]. apply andb_prop in Eg as [Ew Hl].
    apply bool_decide_eq_true in Hl. apply forallb_Forall in Ew. rewrite Forall_lookup in Ew. destruct H as [H1 H2 H3 H4 H5 H6]. split; cbn; try done.
    + intros i r _ Hr. specialize (Ew i r Hr). by destruct (rq_running r).
    + intros i Hi. rewrite Hl. by apply elem_of_elements.
  - destruct (ba_closer b) as [| | |[|i l]|] eqn:Ec; try done.
    + destruct H as [H1 H2 H3 H4 H5 H6]. rewrite Ec in *. split; cbn; try done. apply elem_of_equiv_empty_L. intros j Hj%H5. by apply not_elem_of_nil in Hj.
    + assert (forall r, ba_requests b !! i = Some r -> has_body r = false -> batch_ok (set_closer true (Closing l) b)) as Hdrop.
      { intros r Hr Hb. destruct H as [H1 H2 H3 H4 H5 H6]. rewrite Ec in *. split; cbn; try done.
        intros j Hj. destruct (proj1 (elem_of_cons l j i) (H5 j Hj)) as [->|]; [|done]. apply H1 in Hj as (x & Hx & Hb'). congruence. }
      destruct (ba_requests b !! i) as [r|] eqn:Hi; cbn [fmap option_fmap option_map].
      * unfold has_body in Hdrop. destruct (rq_phase r) eqn:Ep; try done; try (apply (Hdrop r); [done|by rewrite Ep]). by apply close_body_ok.
      * destruct H as [H1 H2 H3 H4 H5 H6]. rewrite Ec in *. split; cbn; try done.
        intros j Hj. destruct (proj1 (elem_of_cons l j i) (H5 j Hj)) as [->|]; [|done]. apply H1 in Hj as (x & Hx & _). congruence.
Qed.

Lemma run_batch_ok acts : batch_ok (run acts).
Proof.
  unfold run. assert (batch_ok newBatch) as H0 by (split; cbn; try done; intros i; split; [by intros ?%elem_of_empty|by intros (? & ? & _)]).
  revert H0. generalize newBatch. induction acts as [|a acts IH]; intros b H; cbn [fold_left]; [done|]. by apply IH, batch_step_ok.
Qed.

(** ** The end of a batch *)

Definition ended (r : request) : Prop := rq_running r = false /\ (rq_phase r = BodyClosed \/ exists e, rq_phase r = Refused e).

Lemma closed_ended b i r : batch_ok b -> ba_closer b = Closed -> ba_requests b !! i = Some r -> ended r.
Proof.
  intros [H1 H2 H3 H4 H5 H6] Hc Hi. rewrite Hc in H5. assert (rq_running r = false) as Hr by (apply (H4 i r); [by rewrite Hc|done]).
  assert (has_body r = false) as Hb.
  { destruct (has_body r) eqn:E; [|done]. assert (i ∈ ba_bodies b) as Hin by (apply H1; by exists r). rewrite H5 in Hin. set_solver. }
  specialize (H2 i r Hi). split; [done|]. unfold has_body in Hb. destruct (rq_phase r); try done; [rewrite H2 in Hr by done; done|right; by eexists|by left].
Qed.

Lemma closed_step a b : batch_ok b -> ba_closer b = Closed -> step a b = b.
Proof.
  intros Hok Hc. pose proof (fun i r => closed_ended b i r Hok Hc) as He. pose proof (bo_closed b Hok) as Hcl. rewrite Hc in Hcl.
  destruct a as [o|i err ctx direct op|i|i|i e|i e|i ctx direct| | |l|e]; cbn [step]; unfold close_body, finish_body; rewrite ?Hc, ?Hcl; try done.
  all: destruct (ba_requests b !! i) as [[o r ph]|] eqn:Hi; [|done]; destruct (He i _ Hi) as [Hr [Hp|[x Hp]]]; cbn in Hr, Hp; subst r ph; cbn; try done.
  all: destruct b as [rs bs cl er co cr rp]; unfold set_request; cbn in *; by rewrite list_insert_id.
Qed.

(** What a batch is blamed for never depends on timing beyond the order of
    the reports: it is the first that asks for a recovery of the identity,
    failing that the first that is no cancellation, failing that the first. When close has
    returned no request is running, every body that was handed out is
    closed, and nothing that happens later, be it a late close or a late call,
    changes the batch. *)
Theorem batch_quiet acts : let b := run acts in
  ba_err b = blamed (ba_reports b) /\
  (ba_closer b = Closed -> ba_bodies b = ∅ /\ (forall i r, ba_requests b !! i = Some r -> ended r) /\ forall a, step a b = b).
Proof.
  cbv zeta. pose proof (run_batch_ok acts) as Hok. split; [apply (bo_err _ Hok)|]. intros Hc. split.
  - pose proof (bo_left _ Hok) as H. by rewrite Hc in H.
  - split; [intros i r; by apply closed_ended|intros a; by apply closed_step].
Qed.

(** How far a batch that is being closed is from its end. *)
Definition weight (r : request) : nat :=
  match rq_phase r with Asking => 4 | BodyOpen _ => 2 | BodyClosing _ => 1 | _ => 0 end + (if rq_running r then 1 else 0).
Definition total (l : list request) : nat := sum_list_with weight l.
Definition load (b : batch) : nat :=
  total (ba_requests b) +
  match ba_closer b with NotClosing => 4 + length (ba_requests b) | Shut => 3 + length (ba_requests b) | Cancelled => 2 + length (ba_requests b)
  | Closing l => 1 + length l | Closed => 0 end.

Lemma total_insert l i r r' : l !! i = Some r -> (total (<[i := r']> l) + weight r = total l + weight r')%nat.
Proof.
  unfold total. revert i. induction l as [|x l IH]; intros [|i]; try done; change (sum_list_with weight (x :: l)) with (weight x + sum_list_with weight l)%nat.
  - intros [= ->]. change (sum_list_with weight (<[0%nat := r']> (r :: l))) with (weight r' + sum_list_with weight l)%nat. lia.
  - intros H%IH. change (sum_list_with weight (<[S i := r']> (x :: l))) with (weight x + sum_list_with weight (<[i := r']> l))%nat. lia.
Qed.

Lemma load_set_request i r r' b : ba_requests b !! i = Some r -> (load (set_request i r' b) + weight r = load b + weight r')%nat.
Proof.
  intros Hi. unfold load, set_request. cbn [ba_requests ba_closer]. rewrite length_insert. pose proof (total_insert (ba_requests b) i r r' Hi).
  destruct (ba_closer b); lia.
Qed.

Lemma bodies_size b : batch_ok b -> (length (elements (ba_bodies b)) <= length (ba_requests b))%nat.
Proof.
  intros [H1 _ _ _ _ _]. change (length (elements (ba_bodies b))) with (size (ba_bodies b)).
  assert (ba_bodies b ⊆ set_seq 0 (length (ba_requests b))) as Hs.
  { intros i Hi. apply H1 in Hi as (r & Hr & _). apply elem_of_set_seq. apply lookup_lt_Some in Hr. lia. }
  apply subseteq_size in Hs. by rewrite size_set_seq in Hs.
Qed.

Lemma load_bodies s b : load (set_bodies s b) = load b.
Proof. done. Qed.
Lemma load_report c e b : load (report c e b) = load b.
Proof. done. Qed.

Lemma load_close_body i e b : (load (close_body i e b) <= load b)%nat.
Proof.
  unfold close_body. destruct (ba_requests b !! i) as [r|] eqn:Hi; [|lia]. destruct (rq_phase r) eqn:Ep; try lia.
  match goal with |- context [set_request i ?r' b] => pose proof (load_set_request i r r' b Hi) as H end.
  unfold weight in H. cbn [rq_phase rq_running phase_to] in H. rewrite Ep in H. lia.
Qed.

Lemma load_finish_body i ctx direct b : (load (finish_body i ctx direct b) <= load b)%nat.
Proof.
  unfold finish_body. destruct (ba_requests b !! i) as [r|] eqn:Hi; [|lia]. destruct (rq_phase r) eqn:Ep; try lia.
  pose proof (load_set_request i r (phase_to BodyClosed r) b Hi) as H. unfold weight in H. cbn [rq_phase rq_running phase_to] in H. rewrite Ep in H.
  destruct (rq_optional r); rewrite ?load_report, load_bodies; lia.
Qed.

Lemma load_step a b : batch_ok b -> ba_closer b <> NotClosing -> (load (step a b) <= load b)%nat.
Proof.
  intros Hok Hc. pose proof (bo_closed b Hok) as Hcl.
  destruct a as [o|i err ctx direct op|i|i|i e|i e|i ctx direct| | |l|e]; cbn [step]; try apply load_close_body; try apply load_finish_body.
  - rewrite Hcl. destruct (ba_closer b); done.
  - destruct (ba_requests b !! i) as [[o [|] []]|] eqn:Hi; try lia.
    pose proof (load_set_request i _ (mkRequest o true (Refused (refusal err op))) b Hi) as H. unfold weight in H. cbn [rq_phase rq_running phase_to] in H. destruct o; rewrite ?load_report; lia.
  - destruct (ba_requests b !! i) as [[o [|] []]|] eqn:Hi; try lia.
    pose proof (load_set_request i _ (mkRequest o true (BodyOpen None)) b Hi) as H. unfold weight in H. cbn [rq_phase rq_running phase_to] in H. rewrite load_bodies. lia.
  - destruct (ba_requests b !! i) as [[o r ph]|] eqn:Hi; [|lia]. pose proof (load_set_request i _ (mkRequest o false ph) b Hi) as H.
    unfold weight in H. cbn [rq_optional rq_phase rq_running] in *. destruct ph, r; lia.
  - destruct (ba_requests b !! i) as [r|] eqn:Hi; [|lia]. destruct (rq_phase r) eqn:Ep; try lia.
    pose proof (load_set_request i _ (phase_to (BodyOpen (Some e)) r) b Hi) as H. unfold weight in H. cbn [rq_phase rq_running phase_to] in H. rewrite Ep in H. lia.
  - destruct (ba_closer b) eqn:Ec; try done; lia.
  - destruct (ba_closer b) eqn:Ec; try lia. unfold load, set_closer. cbn [ba_requests ba_closer]. rewrite Ec. lia.
  - destruct (ba_closer b) eqn:Ec; try lia. destruct (forallb _ _ && _) eqn:Eg; [|lia]. apply andb_prop in Eg as [_ Hl].
    apply bool_decide_eq_true in Hl. apply Permutation_length in Hl. pose proof (bodies_size b Hok). unfold load, set_closer. cbn [ba_requests ba_closer]. rewrite Ec. lia.
  - destruct (ba_closer b) as [| | |[|i l]|] eqn:Ec; try lia; [unfold load, set_closer; cbn [ba_requests ba_closer]; rewrite Ec; cbn [length]; lia|].
    assert (load (set_closer true (Closing l) b) <= load b)%nat as Hd by (unfold load, set_closer; cbn [ba_requests ba_closer]; rewrite Ec; cbn [length]; lia).
    destruct (rq_phase <$> _) as [[]|]; try lia. apply load_close_body.
Qed.

(** A step that ends a request, a body or a stage of [close]: none of them
    needs the caller of the batch. *)
Definition own (a : action) : bool :=
  match a with Failed _ _ _ _ _ | Leave _ | FinishBody _ _ _ | CancelBatch | Gather _ | CloseNext _ => true | _ => false end.

Definition quiet_context : context := mkContext None None.

(** Ending a running request, one way or the other, brings the end nearer. *)
Lemma request_ends b i r : ba_requests b !! i = Some r -> (rq_phase r = Asking -> rq_running r = true) -> rq_running r = true ->
  exists a, own a = true /\ (load (step a b) < load b)%nat.
Proof.
  destruct r as [o run ph]. cbn [rq_running rq_phase]. intros Hi _ ->. destruct ph.
  1: exists (Failed i ErrCanceled quiet_context false false).
  2-5: exists (Leave i).
  all: split; [done|]; cbn [step]; rewrite Hi; cbn [rq_optional rq_phase rq_running].
  all: match goal with Hi : ba_requests ?b !! ?i = Some ?r |- context [set_request ?i ?r' ?b] =>
    pose proof (load_set_request i r r' b Hi) as H; unfold weight in H; cbn [rq_phase rq_running] in H; try lia end.
  destruct o; rewrite ?load_report; lia.
Qed.

Lemma close_advances b : batch_ok b -> ba_closer b <> NotClosing -> ba_closer b <> Closed -> exists a, own a = true /\ (load (step a b) < load b)%nat.
Proof.
  intros Hok Hn Hc. destruct (ba_closer b) as [| | |[|i l]|] eqn:Ec; try done.
  - exists CancelBatch. split; [done|]. cbn [step]. rewrite Ec. unfold load, set_closer. cbn [ba_requests ba_closer]. rewrite Ec. lia.
  - destruct (forallb (fun r => negb (rq_running r)) (ba_requests b)) eqn:Ew.
    + exists (Gather (elements (ba_bodies b))). split; [done|]. cbn [step]. rewrite Ec, Ew. rewrite bool_decide_eq_true_2 by done. cbn [andb].
      pose proof (bodies_size b Hok). unfold load, set_closer. cbn [ba_requests ba_closer]. rewrite Ec. lia.
    + assert (exists i r, ba_requests b !! i = Some r /\ rq_running r = true) as (i & r & Hi & Hr).
      { destruct (decide (Forall (fun r => rq_running r = false) (ba_requests b))) as [Hf|Hf].
        - exfalso. rewrite (proj2 (forallb_forall _ _)) in Ew; [done|]. intros r Hr. apply list_elem_of_In in Hr. rewrite Forall_forall in Hf. by rewrite (Hf r Hr).
        - apply not_Forall_Exists, Exists_exists in Hf; [|apply _]. destruct Hf as (r & Hr & Hnr). apply list_elem_of_lookup in Hr as [i Hi].
          exists i, r. split; [done|]. cbn in Hnr. by destruct (rq_running r). }
      apply (request_ends b i r); [done|by apply (bo_asking b Hok i)|done].
  - exists (CloseNext None). split; [done|]. cbn [step]. rewrite Ec. unfold load, set_closer. cbn [ba_requests ba_closer]. rewrite Ec. cbn [length]. lia.
  - destruct (rq_phase <$> ba_requests b !! i) as [ph|] eqn:Ep.
    + destruct (ba_requests b !! i) as [r|] eqn:Hi; [|done]. cbn in Ep. injection Ep as Ep.
      destruct (match ph with BodyClosing _ => true | _ => false end) eqn:Ek.
      * exists (FinishBody i quiet_context false). split; [done|]. cbn [step]. unfold finish_body. rewrite Hi, Ep. destruct ph; try done.
        pose proof (load_set_request i _ (phase_to BodyClosed r) b Hi) as H. unfold weight in H. cbn [rq_phase rq_running phase_to] in H. rewrite Ep in H.
        destruct (rq_optional r); rewrite ?load_report, load_bodies; lia.
      * exists (CloseNext None). split; [done|]. cbn [step]. rewrite Ec, Hi. cbn [fmap option_fmap option_map]. rewrite Ep. unfold close_body. rewrite Hi, Ep.
        destruct ph; try done; try (unfold load, set_closer; cbn [ba_requests ba_closer]; rewrite Ec; cbn [length]; lia).
        match goal with |- context [set_request i ?r' b] => pose proof (load_set_request i _ r' b Hi) as H end.
        unfold weight in H. cbn [rq_phase rq_running phase_to] in H. rewrite Ep in H. lia.
    + exists (CloseNext None). split; [done|]. cbn [step]. rewrite Ec, Ep. unfold load, set_closer. cbn [ba_requests ba_closer]. rewrite Ec. cbn [length]. lia.
Qed.

Lemma batch_run_app acts acts' : run (acts ++ acts') = fold_left (fun b a => step a b) acts' (run acts).
Proof. unfold run. by rewrite fold_left_app. Qed.

Lemma closing_step a b : ba_closer b <> NotClosing -> ba_closer (step a b) <> NotClosing.
Proof.
  intros Hc.
  assert (forall i e, ba_closer (close_body i e b) = ba_closer b) as Hcb
    by (intros i e; unfold close_body; destruct (ba_requests b !! i) as [[? ? []]|]; done).
  assert (forall i ctx d, ba_closer (finish_body i ctx d b) = ba_closer b) as Hfb
    by (intros i ctx d; unfold finish_body; destruct (ba_requests b !! i) as [[[] ? []]|]; done).
  destruct a as [o|i err ctx direct op|i|i|i e|i e|i ctx direct| | |l|e]; cbn [step]; rewrite ?Hcb, ?Hfb; try done.
  - by destruct (ba_closed b).
  - by destruct (ba_requests b !! i) as [[[] [] []]|].
  - by destruct (ba_requests b !! i) as [[o [] []]|].
  - by destruct (ba_requests b !! i) as [[o r []]|].
  - by destruct (ba_requests b !! i) as [[o r []]|].
  - destruct (ba_closer b) eqn:E; try done; congruence.
  - destruct (ba_closer b) eqn:E; try done; congruence.
  - destruct (ba_closer b) eqn:E; try congruence. destruct (_ && _); [done|congruence].
  - destruct (ba_closer b) as [| | |[|i l]|] eqn:E; try congruence; [done|].
    destruct (rq_phase <$> _) as [[]|]; rewrite ?Hcb; try done; congruence.
Qed.

(** C36. Closing a batch always comes to an end. Once [close] has begun, no step, of
    the callers of the batch or its own, takes it further from its end, and
    until it has returned there is a step towards it that needs no caller:
    the end of a request or a body that is being closed, or the next stage of
    [close] itself; so it returns after finitely many of these. *)
Theorem batch_close acts : ba_closer (run acts) <> NotClosing -> let b := run acts in
  (forall a, (load (step a b) <= load b)%nat) /\
  (ba_closer b <> Closed -> exists a, own a = true /\ (load (step a b) < load b)%nat) /\
  exists acts', (length acts' <= load b)%nat /\ Forall (fun a => own a = true) acts' /\ ba_closer (run (acts ++ acts')) = Closed.
Proof.
  intros Hc. cbv zeta. pose proof (run_batch_ok acts) as Hok. split; [intros a; by apply load_step|]. split; [by apply close_advances|].
  remember (load (run acts)) as n eqn:En. assert (load (run acts) <= n)%nat as Hn by lia. clear En.
  revert acts Hc Hok Hn. induction n as [|n IH]; intros acts Hc Hok Hn.
  - exists []. split; [done|]. split; [done|]. rewrite app_nil_r. destruct (decide (ba_closer (run acts) = Closed)) as [|Hne]; [done|].
    destruct (close_advances _ Hok Hc Hne) as (a & _ & Ha). lia.
  - destruct (decide (ba_closer (run acts) = Closed)) as [He|Hne]; [exists []; split; [cbn; lia|]; split; [done|by rewrite app_nil_r]|].
    destruct (close_advances _ Hok Hc Hne) as (a & Ho & Ha).
    assert (run (acts ++ [a]) = step a (run acts)) as E by (by rewrite batch_run_app).
    destruct (IH (acts ++ [a])) as (acts' & H1 & H2 & H3); [rewrite E; by apply closing_step|apply run_batch_ok|rewrite E; lia|].
    exists (a :: acts'). split; [cbn; lia|]. split; [by constructor|]. by rewrite <- app_assoc in H3.
Qed.

(** A request being answered while the batch is closed: its body, which the
    caller never closes, is closed for it. *)
Lemma batch_close_witness :
  let acts := [Open false; CloseBatch; Answered 0; CancelBatch; Leave 0] in
  ba_closer (run acts) <> NotClosing /\
  ((forall a, (load (step a (run acts)) <= load (run acts))%nat) /\
   (ba_closer (run acts) <> Closed -> exists a, own a = true /\ (load (step a (run acts)) < load (run acts))%nat) /\
   exists acts', (length acts' <= load (run acts))%nat /\ Forall (fun a => own a = true) acts' /\ ba_closer (run (acts ++ acts')) = Closed).
Proof. split; [vm_compute; discriminate|]. apply (batch_close [Open false; CloseBatch; Answered 0; CancelBatch; Leave 0]). vm_compute. discriminate. Defined.

Example batch_demo :
  let b := run [Open false; Open true; Answered 0; Leave 0; CloseBatch; Failed 1 ErrCanceled quiet_context false false; Leave 1; CancelBatch; Gather [0%nat];
                CloseNext None; ReadError 0 ErrCanceled; FinishBody 0 quiet_context false; CloseNext None; CloseNext None] in
  ba_closer b = Closed /\ ba_completed b = 1 /\ ba_err b = None.
Proof. vm_compute. repeat split. Qed.

(** What no report of a batch loses: a recovery that a required request asked for. *)
Lemma recovery_not_lost acts err e : Some e ∈ ba_reports (run acts) -> recovers e = true ->
  exists e', operationErr err (run acts) = Some e' /\ recovers e' = true.
Proof.
  intros Hin He. pose proof (bo_err _ (run_batch_ok acts)) as Hb. unfold blamed in Hb. set (es := omap id (ba_reports (run acts))) in *.
  assert (e ∈ es) as Hes by (apply list_elem_of_omap; by exists (Some e)).
  destruct (List.find recovers es) as [x|] eqn:Ef.
  - apply List.find_some in Ef as [_ Hx]. exists x. split; [|done]. unfold operationErr. rewrite Hb, Hx, orb_true_r. done.
  - apply list_elem_of_In in Hes. rewrite (List.find_none _ _ Ef e Hes) in He. done.
Qed.

(** One or two runs, a second only for an error the lease recovers from; the
    caller and the lease hear of the last. *)
Lemma WithMedia_spec runs recover : let '(err, told, n) := WithMedia runs recover in
  exists k, n = S k /\ (k <= 1)%nat /\ err = publicError <$> (runs k).1 /\ told = operationErr (runs k).1 (runs k).2 /\
    (n = 2%nat -> exists e, operationErr (runs 0%nat).1 (runs 0%nat).2 = Some e /\ recover e = true).
Proof.
  unfold WithMedia. destruct (runs 0%nat) as [err0 b0] eqn:E0. destruct (operationErr err0 b0) as [e|] eqn:Eo.
  - destruct (recover e) eqn:Er.
    + destruct (runs 1%nat) as [err1 b1] eqn:E1. exists 1%nat. rewrite E1. repeat split; try lia. intros _. by exists e.
    + exists 0%nat. rewrite E0. cbn. rewrite Eo. by repeat split; try lia.
  - exists 0%nat. rewrite E0. cbn. rewrite Eo. by repeat split; try lia.
Qed.

(** ** The account comes last *)

Section DetailFacts.
Context {A : Type} (account : bool) (request : nat -> bool -> res goerr A).

Definition blocked (e : goerr) : bool := match as_upstream e with Some u => String.eqb (up_Code u) "upstream_blocked" | None => false end.

Lemma restricted_not_blocked e : restricted (Some e) = true -> blocked e = false.
Proof.
  unfold restricted, blocked. cbn [mbind option_bind]. destruct (as_upstream e) as [u|]; [|done]. cbn [existsb].
  destruct (String.eqb_spec (up_Code u) "upstream_blocked") as [->|]; [vm_compute; discriminate|done].
Qed.

Lemma fallback_spec r0 (r : res goerr A) : restricted (Some r0) = true ->
  match fallback (Some r0) r with Ok a => r = Ok a | Err e => blocked e = false /\ (e = r0 \/ r = Err e) end.
Proof.
  intros Hr. unfold fallback, accountFallbackError. destruct r as [a|e]; [done|]. cbn [mbind option_bind].
  destruct (as_upstream e) as [u|] eqn:Eu.
  - destruct (_ || _) eqn:E; [split; [by apply restricted_not_blocked|by left]|]. apply orb_false_iff in E as [E _].
    split; [by unfold blocked; rewrite Eu|by right].
  - split; [by unfold blocked; rewrite Eu|by right].
Qed.

(** What a turn leaves: [w] and [rs] are its account and restriction. *)
Definition turn_ok (n : nat) (w : bool) (t : tried) (w' : bool) (rs' : option goerr) : Prop :=
  head (tr_asked t) = Some w /\ (length (tr_asked t) <= 1 + (if w then 0 else 1))%nat /\
  (w' = true -> account = true /\ exists r0, rs' = Some r0 /\ restricted (Some r0) = true /\ exists m, (m <= n)%nat /\ request m false = Err r0) /\
  (w' = false -> tr_asked t = [false] /\ rs' = None) /\
  match tr_result t with Ok a => exists v, request n v = Ok a | Err e => (w' = true -> blocked e = false) /\ exists m v, (m <= n)%nat /\ request m v = Err e end.

Lemma detail_turn_ok n (w : bool) (rs : option goerr) : (if w then account = true /\ exists r0, rs = Some r0 /\ restricted (Some r0) = true /\ exists m, (m <= n)%nat /\ request m false = Err r0 else rs = None) ->
  let '(t, w', rs') := detail_turn account w rs (request n) in turn_ok n w t w' rs'.
Proof.
  intros Hw. unfold detail_turn. destruct w.
  - rewrite andb_false_r. cbn [andb negb]. destruct Hw as (Ha & r0 & -> & Hr & m & Hm & Hr0). unfold turn_ok. cbn [tr_asked tr_result head length].
    split; [done|]. split; [lia|]. split; [intros _; split; [done|]; exists r0; eauto|]. split; [done|].
    pose proof (fallback_spec r0 (request n true) Hr) as Hf. destruct (fallback _ _) as [a|e]; [by exists true|]. destruct Hf as [Hb [->|He]]; (split; [done|]); eauto.
  - subst rs. destruct (restricted (ErrorOf (request n false))) eqn:Er; cbn [andb negb].
    + destruct (request n false) as [a|r0] eqn:E0; [done|]. cbn [ErrorOf] in *. destruct account eqn:Ea; unfold turn_ok; cbn [tr_asked tr_result head length].
      * split; [done|]. split; [lia|]. split; [intros _; split; [done|]; exists r0; split; [done|]; split; [done|]; by exists n|]. split; [done|].
        pose proof (fallback_spec r0 (request n true) Er) as Hf. destruct (fallback _ _) as [a|e]; [by exists true|]. destruct Hf as [Hb [->|He]]; (split; [done|]); eauto.
      * split; [done|]. split; [lia|]. split; [done|]. split; [done|]. cbn. split; [done|]. by exists n, false.
    + unfold turn_ok. cbn [tr_asked tr_result head length]. split; [done|]. split; [lia|]. split; [done|]. split; [done|].
      destruct (request n false) as [a|e] eqn:E; cbn; [by exists false|split; [done|by exists n, false]].
Qed.

(** The login is a last resort and takes no blame: an operation asks without it
    first, asks with it only where the pool has one and a request
    without it was refused as restricted, and makes three requests at most.
    What fails is told to the caller in its public form and to the lease as it
    is, each time the error of a request that was made; once the login was used that error
    is never a block of the request, which would speak against the identity. *)
Theorem detail_account recover : let '(r, told, asked) := Detail account request recover in
  head asked = Some false /\ (length asked <= 3)%nat /\
  (true ∈ asked -> account = true /\ exists m, (m <= 1)%nat /\ restricted (ErrorOf (request m false)) = true) /\
  match told with
  | None => exists a n v, r = Ok a /\ request n v = Ok a
  | Some e => r = Err (publicError e) /\ (exists m v, request m v = Err e) /\ (true ∈ asked -> blocked e = false)
  end.
Proof.
  unfold Detail. pose proof (detail_turn_ok 0 false None eq_refl) as H0. destruct (detail_turn account false None (request 0)) as [[t0 w] rs].
  destruct H0 as (A1 & A2 & A3 & A4 & A5).
  assert (true ∈ tr_asked t0 -> w = true) as Hw0 by (intros Hin; destruct w; [done|]; destruct (A4 eq_refl) as [Ea _]; rewrite Ea in Hin; set_solver).
  assert (forall n, (n <= 1)%nat -> w = true -> account = true /\ exists m, (m <= n)%nat /\ restricted (ErrorOf (request m false)) = true) as Hacc.
  { intros n _ Hw. destruct (A3 Hw) as (? & r0 & _ & Hr & m & Hm & Hr0). split; [done|]. exists m. split; [lia|]. by rewrite Hr0. }
  destruct (tr_result t0) as [a|e0].
  - destruct A5 as [v Hv]. split; [done|]. split; [lia|]. split; [intros Hin; apply (Hacc 1%nat); auto|]. eauto.
  - destruct A5 as [Hb (m & v & _ & Hm)]. destruct (recover 0%nat e0); cbn [negb].
    + pose proof (detail_turn_ok 1 w rs) as H1. destruct (detail_turn account w rs (request 1%nat)) as [[t1 w'] rs'].
      destruct H1 as (B1 & B2 & B3 & B4 & B5).
      { destruct w; [|by apply (A4 eq_refl)]. destruct (A3 eq_refl) as (? & r0 & -> & Hr & k & Hk & Hr0). split; [done|]. exists r0.
        split; [done|]. split; [done|]. exists k. split; [lia|done]. }
      assert (w = true -> w' = true) as Hww.
      { intros ->. destruct w'; [done|]. destruct (B4 eq_refl) as [B _]. rewrite B in B1. done. }
      assert (true ∈ tr_asked t0 ++ tr_asked t1 -> w' = true) as Hw1.
      { rewrite elem_of_app. intros [Hin|Hin]; [by apply Hww, Hw0|]. destruct w'; [done|]. destruct (B4 eq_refl) as [B _]. rewrite B in Hin. set_solver. }
      assert (head (tr_asked t0 ++ tr_asked t1) = Some false) as Hh by (destruct (tr_asked t0); [done|exact A1]).
      assert (length (tr_asked t0 ++ tr_asked t1) <= 3)%nat as Hlen.
      { rewrite length_app. destruct w; [lia|]. destruct (A4 eq_refl) as [-> _]. cbn. lia. }
      assert (true ∈ tr_asked t0 ++ tr_asked t1 -> account = true /\ exists m, (m <= 1)%nat /\ restricted (ErrorOf (request m false)) = true) as Hac.
      { intros Hin%Hw1. destruct (B3 Hin) as (? & r0 & _ & Hr & k & Hk & Hr0). split; [done|]. exists k. split; [done|]. by rewrite Hr0. }
      destruct (tr_result t1) as [a|e1].
      * destruct B5 as [u Hu]. split; [done|]. split; [done|]. split; [done|]. eauto.
      * destruct B5 as [Hb1 (k & u & _ & Hk)]. split; [done|]. split; [done|]. split; [done|]. split; [done|]. split; [eauto|]. intros Hin. auto.
    + split; [done|]. split; [lia|]. split; [intros Hin; apply (Hacc 1%nat); auto|]. split; [done|]. split; [eauto|]. auto.
Qed.
End DetailFacts.
