(* ===== verification/Values.v ===== *)
(** * platform: values of replies

    Models src/internal/platform/json.go: how the fields of a decoded reply are
    read.  A value is [option json]: [None] for a key that is absent, which Go
    reads as nil, like null.  Integers are those of 64 bits; a float64 is exact,
    as in Float. *)
From S2P Require Import Prelude Strconv Json Float.
Open Scope Z_scope.
Open Scope go_scope.

Abbreviation value := (option json).
Definition object : Type := list (string * json).

Definition field (k : string) (o : object) : value := obj_get k o.
Definition is_nil (v : value) : bool := match v with None | Some JNull => true | _ => false end.

Definition obj (v : value) : object := match v with Some (JObj l) => l | _ => [] end.
Definition arr (v : value) : list json := match v with Some (JArr l) => l | _ => [] end.
Definition str (v : value) : string := match v with Some (JStr s) | Some (JNum s) => s | _ => "" end.
Definition is_string (v : value) : option string := match v with Some (JStr s) => Some s | _ => None end.

Definition number (v : value) : Z :=
  match v with
  | Some (JNum s) =>
      match Atoi s with
      | Some n => n
      | None =>
          match parse_float s with
          | Some (Finite neg m e, false) =>
              let n := float_trunc (Finite neg m e) in
              if (- 2 ^ 63 <=? n) && (n <? 2 ^ 63) then n else 0
          | _ => 0
          end
      end
  | Some (JStr s) => ParseInt64 s
  | _ => 0
  end.
Definition integer (v : value) : Z := number v.
Definition positive (n : Z) : option Z := if n <=? 0 then None else Some n.
Definition numeric (v : value) : option Z := if is_nil v then None else Some (number v).
Definition nonempty (s : string) : option string := if String.eqb s "" then None else Some s.

(** The first value of the text, which must be an object; what follows it is
    not read. *)
Definition decode (data : bytes) : option object :=
  match parse_value (S (2 * length data)) 0 data with
  | Some (JObj l, _) => Some l
  | _ => None
  end.

Fixpoint first (vs : list value) : value :=
  match vs with
  | [] => None
  | v :: vs => if is_nil v || match v with Some (JStr s) => String.eqb s "" | _ => false end then first vs else v
  end.

(** Addresses directly, or in a list, or in the list of an object. *)
Definition url_texts (l : list json) : list string := omap (fun j => match j with JStr s => nonempty s | _ => None end) l.
Fixpoint urls_of (j : json) : list string :=
  match j with
  | JStr s => if String.eqb s "" then [] else [s]
  | JArr l => url_texts l
  | JObj l =>
      (fix get (l : list (string * json)) : list string :=
         match l with
         | [] => []
         | (k, v) :: l => if String.eqb "url_list" k then urls_of v else get l
         end) l
  | _ => []
  end.
Definition urls (v : value) : list string := match v with Some j => urls_of j | None => [] end.

Fixpoint firstURLs (values : list value) : list string :=
  match values with
  | [] => []
  | v :: values => match urls v with [] => firstURLs values | l => l end
  end.

(** The nearest float64 of an integer. *)
Definition float_of_int (n : Z) : float :=
  if n =? 0 then Finite false 0 (-1074) else let '(m, e) := round_binary (Z.abs n) 1 in Finite (n <? 0) m e.

Definition decimal (v : value) : float :=
  let f := match v with
           | Some (JNum s) => match parse_float s with Some (f, _) => f | None => Finite false 0 (-1074) end
           | _ => float_of_int (number v)
           end in
  match f with Finite _ _ _ => f | _ => Finite false 0 (-1074) end.

(** The order of finite floats: in units of the smallest, 2^-1074. *)
Definition float_rank (f : float) : Z :=
  match f with Finite neg m e => (if neg then -1 else 1) * m * 2 ^ (e + 1074) | _ => 0 end.

(** ** Facts *)

Lemma number_range v : in_i64 (number v).
Proof.
  unfold number, in_i64. destruct v as [[| |s|s| |]|]; try lia.
  - unfold Atoi. destruct (signed_digits s) as [n|]; [destruct (_ && _) eqn:E; [bool_prop; lia|]|].
    all: destruct (parse_float s) as [[[neg m e|?|] [|]]|]; try lia; cbv zeta; generalize (float_trunc (Finite neg m e)) as n'; intros n'; destruct ((_ <=? n') && _) eqn:E'; [bool_prop; lia|lia].
  - unfold ParseInt64. change maxInt64 with 9223372036854775807. destruct (signed_digits s); lia.
Qed.

Lemma url_texts_nonempty l : Forall (fun s => s <> ""%string) (url_texts l).
Proof.
  unfold url_texts. induction l as [|[| |s|s| |] l IH]; cbn; try done. unfold nonempty. destruct (String.eqb_spec s ""); [done|by constructor].
Qed.

Lemma urls_of_nonempty : forall j, Forall (fun s => s <> ""%string) (urls_of j).
Proof.
  fix IH 1. intros [| | |s|l|l]; cbn [urls_of]; try apply Forall_nil_2.
  - destruct (String.eqb_spec s ""); [done|by constructor].
  - apply url_texts_nonempty.
  - induction l as [|[k v] l IHl]; [constructor|]. generalize (String.eqb "url_list" k) as b. intros [|]; [apply IH|exact IHl].
Qed.

Lemma urls_nonempty v : Forall (fun s => s <> ""%string) (urls v).
Proof. destruct v; [apply urls_of_nonempty|constructor]. Qed.

Lemma firstURLs_nonempty vs : Forall (fun s => s <> ""%string) (firstURLs vs).
Proof. induction vs as [|v vs IH]; cbn; [constructor|]. pose proof (urls_nonempty v). by destruct (urls v). Qed.

Example value_demo :
  map (fun s => number (Some (JNum s))) ["12"; "1e3"; "1e30"; "-2.5"; "9223372036854775808"; "9223372036854775807"]%string = [12; 1000; 0; -2; 0; 9223372036854775807] /\
  number (Some (JStr "99999999999999999999")) = 9223372036854775807 /\
  urls (Some (JObj [("url_list", JArr [JStr "a"; JNull; JStr ""; JStr "b"])]%string)) = ["a"; "b"]%string.
Proof. vm_compute. repeat split. Qed.
