(* ===== verification/TikTokPost.v ===== *)
(** * platform: TikTok posts

    Models src/internal/platform/selection.go (the choice of a rendition),
    normalize.go (a post from a reply), resolve.go (share links) and the
    retries, lookups and errors of tiktok.go.  An asset registered with
    [RegisterUntil] (Limiter.v) is listed with its position, in order; its
    descriptor is the registration itself.  Replies, clocks, contexts and
    parsing of addresses (net/url) are inputs or parameters; [ur_User] says
    that an address carries a user. *)
From S2P Require Import Prelude Strconv Errors Json Float Values AppRoute AppRequest Download.
From Stdlib Require Import Sorted.
Open Scope Z_scope.
Open Scope go_scope.

(** ** Renditions *)

Record videoSource := mkSource { vs_URLs : list string; vs_Width : Z; vs_Height : Z; vs_fps : float; vs_bitrate : Z }.

(** The product of two ints wraps. *)
Definition pixels (v : videoSource) : Z := i64 (vs_Width v * vs_Height v).

Definition betterThan (v other : videoSource) : bool :=
  if negb (pixels v =? pixels other) then pixels other <? pixels v
  else if negb (float_rank (vs_fps v) =? float_rank (vs_fps other)) then float_rank (vs_fps other) <? float_rank (vs_fps v)
  else vs_bitrate other <? vs_bitrate v.

(** sort.Strings *)
Fixpoint insert_text (s : string) (l : list string) : list string :=
  match l with
  | [] => [s]
  | x :: l => if String.leb s x then s :: x :: l else x :: insert_text s l
  end.
Definition sort_texts (l : list string) : list string := fold_right insert_text [] l.

Definition address_key (k : string) : bool := String.eqb k "play_addr" || str_has_prefix k "play_addr_".

Definition candidate (container : object) (key : string) : option videoSource :=
  let address := obj (field key container) in
  match urls_of (JObj address) with
  | [] => None
  | sources =>
      let bitrate := integer (field "bit_rate" container) in
      let bitrate := if bitrate <=? 0 then integer (field "bit_rate" address) else bitrate in
      Some (mkSource sources (integer (field "width" address)) (integer (field "height" address))
              (decimal (first [field "fps" container; field "fps" address])) bitrate)
  end.

(** What [collect] meets in a container, in order. *)
Definition candidates (container : object) : list videoSource :=
  omap (candidate container) (sort_texts (filter (fun k => address_key k = true) (map fst container))).

Definition consider (best : option videoSource) (v : videoSource) : option videoSource :=
  match best with
  | None => Some v
  | Some b => if betterThan v b then Some v else best
  end.
Definition collect (best : option videoSource) (container : object) : option videoSource := fold_left consider (candidates container) best.

Definition selectVideo (video : object) : option videoSource :=
  fold_left (fun best raw => collect best (obj (Some raw))) (arr (field "bit_rate" video)) (collect None video).

(** ** Posts *)

Record AssetContext := mkAsset {
  as_Platform : string; as_Kind : string; as_Filename : string; as_UpstreamURL : string; as_AlternateURLs : list string; as_ContentType : string;
  as_Referer : string; as_Headers : list (string * string); as_IdentityID : string; as_DurationSeconds : Z; as_ExtractionID : string;
}.
(** What [RegisterUntil] is given: the asset, its position and when it expires. *)
Record registration := mkRegistration { rg_asset : AssetContext; rg_position : Z; rg_expires : Z }.

Definition asset_of (base : AssetContext) (kind name contentType : string) (duration : Z) (url : string) (alternates : list string) : AssetContext :=
  mkAsset (as_Platform base) kind name url alternates contentType (as_Referer base) (as_Headers base) (as_IdentityID base) duration (as_ExtractionID base).

(** The closure [register]: nothing where there is no address. *)
Definition register (base : AssetContext) (expires : Z) (source : list string) (kind name contentType : string) (position : Z) : option registration :=
  match source with
  | [] => None
  | url :: alternates => Some (mkRegistration (asset_of base kind name contentType (as_DurationSeconds base) url alternates) position expires)
  end.

Record MusicMetadata := mkMusic { mu_Title : string; mu_Author : string; mu_DurationSeconds : Z; mu_Cover : option registration; mu_Audio : option registration }.
Record TikTokResolution := mkResolution { rs_SourceID : string; rs_SourceURL : string; rs_ResolvedURL : string }.
Record TikTokExtraction := mkExtraction {
  te_ExtractionID : string; te_SourceID : string; te_SourceURL : string; te_ResolvedURL : string; te_CreatorUsername : option string;
  te_ContentType : string; te_Cover : option registration; te_Width : option Z; te_Height : option Z; te_DurationSeconds : option Z;
  te_Likes : option Z; te_Views : option Z; te_Media : list registration; te_Music : option MusicMetadata; te_ExpiresAt : Z;
}.

Definition musicMetadata (music : object) (base : AssetContext) (id : string) (expires : Z) : option MusicMetadata :=
  match music with
  | [] => None
  | _ =>
      (* the fields of a composite literal are evaluated in order: the audio is registered first *)
      let audio := register base expires (urls (field "play_url" music)) "audio" (id +:+ ".mp3") "audio/mpeg" 0 in
      let cover := register base expires (firstURLs [field "cover_large" music; field "cover_medium" music; field "cover_thumb" music]) "cover" (id +:+ "_music_cover.jpg") "" 0 in
      Some (mkMusic (str (field "title" music)) (str (field "author" music)) (integer (field "duration" music)) cover audio)
  end.

Definition Upstream_ (message : string) : goerr := ErrCore (Upstream message).
Definition slide (base : AssetContext) (expires : Z) (id : string) (i : nat) (raw : json) : option registration :=
  let item := obj (Some raw) in
  let address := first [field "display_image" item; field "owner_watermark_image" item; field "user_watermark_image" item] in
  register base expires (urls address) "image" (id +:+ "_" +:+ Itoa (Z.of_nat i + 1) +:+ ".jpg") "" (Z.of_nat i).

Section Normalize.
Context (cfg_MaxVideoDuration cfg_CacheTTL : Z).

Definition normalize (ctxErr : option goerr) (extraction : string) (now : Z) (data : object) (base : AssetContext) (resolved : TikTokResolution) : res goerr TikTokExtraction :=
  match ctxErr with
  | Some e => Err e
  | None =>
      let id := rs_SourceID resolved in
      let expires := now + cfg_CacheTTL in
      let base := mkAsset (as_Platform base) (as_Kind base) (as_Filename base) (as_UpstreamURL base) (as_AlternateURLs base) (as_ContentType base)
                    (as_Referer base) (as_Headers base) (as_IdentityID base) (as_DurationSeconds base) extraction in
      let author := obj (field "author" data) in
      let stats := obj (field "statistics" data) in
      let music := musicMetadata (obj (field "music" data)) base id expires in
      let result contentType cover width height duration media :=
        mkExtraction extraction id (rs_SourceURL resolved) (rs_ResolvedURL resolved) (nonempty (TrimSpace (str (field "unique_id" author))))
          contentType cover width height duration (numeric (field "digg_count" stats)) (numeric (field "play_count" stats)) media music expires in
      let images := obj (field "image_post_info" data) in
      match images with
      | _ :: _ =>
          match omap (fun x => x) (imap (slide base expires id) (arr (field "images" images))) with
          | [] => Err (Upstream_ "TikTok slideshow has no image assets")
          | media => Ok (result "slideshow"%string None None None None media)
          end
      | [] =>
          let video := obj (field "video" data) in
          let duration := Z.quot (integer (field "duration" video)) 1000 in
          if (0 <? cfg_MaxVideoDuration) && (cfg_MaxVideoDuration <? duration)
          then Err (ErrCore (NewError "content_too_long" "TikTok video exceeds MAX_VIDEO_DURATION" 413))
          else
            match selectVideo video with
            | None => Err (Upstream_ "TikTok response has no video asset")
            | Some selected =>
                match vs_URLs selected with
                | [] => Err (ErrOther "index out of range")       (* selectVideo returns none without an address *)
                | url :: alternates =>
                    let media := mkRegistration (asset_of base "video" (id +:+ ".mp4") "video/mp4" duration url alternates) 0 expires in
                    let cover := register base expires (firstURLs [field "cover" video; field "origin_cover" video]) "cover" (id +:+ "_cover.jpg") "" 0 in
                    Ok (result "video"%string cover (positive (vs_Width selected)) (positive (vs_Height selected)) (positive duration) [media])
                end
            end
      end
  end.
End Normalize.

(** ** Share links *)

Definition lower_host (u : URL) : string :=
  let h := lower_text (Hostname u) in
  if str_has_suffix h "." then String.substring 0 (String.length h - 1) h else h.
Definition normalizedHost (u : URL) : string := lower_host u.

(** ^/t/[A-Za-z0-9_-]+/?$ *)
Definition code_char (a : ascii) : bool :=
  let n := N_of_ascii a in ((65 <=? n) && (n <=? 90) || (97 <=? n) && (n <=? 122) || (48 <=? n) && (n <=? 57) || (n =? 95) || (n =? 45))%N.
Definition trim_slash (s : string) : string := if str_has_suffix s "/" then String.substring 0 (String.length s - 1) s else s.
Definition sharePathPattern (path : string) : bool :=
  match cut_string_prefix path "/t/" with
  | Some r => negb (String.eqb (trim_slash r) "") && forallb code_char (String.list_ascii_of_string (trim_slash r))
  | None => false
  end.
Definition shareLink (host path : string) : bool := (String.eqb host "tt.site" || String.eqb host "www.tt.site") && sharePathPattern path.
Definition tiktok_domain (host : string) : bool := String.eqb host "tiktok.com" || str_has_suffix host ".tiktok.com".

(** /(?:video|photo)/(\d+)|^/v/(\d+)\.html$, at the first match. *)
Definition html_id (path : string) : option string :=
  match cut_string_prefix path "/v/" with
  | Some r => let d := leading_digits r in if negb (String.eqb d "") && String.eqb r (d +:+ ".html") then Some d else None
  | None => None
  end.
Definition postID (path : string) : string := match html_id path with Some d => d | None => default "" (videoPath path) end.

Definition terminalPage (u : URL) : bool :=
  let path := trim_slash (ur_Path u) in
  String.eqb path "" || str_has_prefix path "/@" || existsb (String.eqb path) ["/login"; "/foryou"; "/explore"]%string.

Definition Port (u : URL) : string := match cut_last_colon (ur_Host u) with Some (_, p) => if all_digits p then p else "" | None => "" end.

Definition invalid_link (message : string) : goerr := ErrCore (InvalidLink message).
Definition network_failure (message : string) : goerr := ErrCore (NewError "upstream_network_error" message 502).

Definition statusError (status : Z) (operation : string) : goerr :=
  ErrCore (
    if (status =? 404) || (status =? 410) then NewError "content_deleted" (operation +:+ " was not found") 404
    else if status =? 429 then NewError "upstream_rate_limited" (operation +:+ " rate limit exceeded") 429
    else if (status =? 401) || (status =? 403) then NewError "upstream_network_error" (operation +:+ " was rejected") 502
    else NewError "upstream_network_error" (operation +:+ " failed") 502).

Definition retryable (e : goerr) : bool :=
  match as_core e with
  | Some api => ((500 <=? Status api) || (Status api =? 429)) && negb (String.eqb (Code api) "service_not_configured") && negb (String.eqb (Code api) "service_busy")
  | None => false
  end.

(** An answer to a request for a share link: its status, and [res.Location()]. *)
Record answer := mkAnswer { an_status : Z; an_location : option URL }.

Section Resolve.
Context (Parse : string -> option URL) (ToString : URL -> string) (ur_User : URL -> bool).

Definition validTikTokURL (raw : string) : bool :=
  match Parse raw with
  | Some u => String.eqb (ur_Scheme u) "https" && (tiktok_domain (normalizedHost u) || shareLink (normalizedHost u) (ur_Path u)) && negb (ur_User u)
  | None => false
  end.

Definition shareRequestURL (raw : string) : string :=
  match Parse raw with
  | Some u =>
      if negb (String.eqb (normalizedHost u) "tt.site") then raw
      else ToString (set_host (if String.eqb (Port u) "" then "www.tt.site" else "www.tt.site:" +:+ Port u) u)
  | None => raw
  end.

Definition videoID (raw : string) : string := match Parse raw with Some u => postID (ur_Path u) | None => "" end.

(** The loop of [followShareLink], with the addresses it asked. *)
Fixpoint hops (left_ : nat) (ctxErr : option goerr) (refused : string -> bool) (answers : nat -> res goerr answer) (current : string) : res goerr string * list string :=
  match left_ with
  | O => (Err (network_failure "TikTok redirect limit exceeded"), [])
  | S left_ =>
      if refused current then (Err (invalid_link "Invalid or expired TikTok link"), [])
      else
        match answers left_ with
        | Err e => (Err (networkError ctxErr e), [current])
        | Ok r =>
            if redirects (an_status r) then
              match an_location r with
              | None => (Err (network_failure "TikTok redirect lacks a location"), [current])
              | Some location =>
                  let next := ToString location in
                  if negb (validTikTokURL next) then (Err (network_failure "TikTok redirected outside its domain"), [current])
                  else if negb (String.eqb (videoID next) "") then (Ok next, [current])
                  else if terminalPage location then (Err (invalid_link "TikTok link does not identify a post"), [current])
                  else let '(r, asked) := hops left_ ctxErr refused answers next in (r, current :: asked)
              end
            else if existsb (Z.eqb (an_status r)) [400; 404; 410] then (Err (invalid_link "Invalid or expired TikTok link"), [current])
            else if 400 <=? an_status r then (Err (statusError (an_status r) "TikTok link resolution"), [current])
            else (Err (invalid_link "TikTok link does not identify a post"), [current])
        end
  end.

(** [http.NewRequest] may refuse an address; [transport] is the error of the
    proxy's transport. *)
Definition followShareLink (transport ctxErr : option goerr) (refused : string -> bool) (answers : nat -> res goerr answer) (raw : string) : res goerr string * list string :=
  match transport with
  | Some e => (Err e, [])
  | None => hops 10 ctxErr refused answers (shareRequestURL raw)
  end.

(** The attempts of [resolve]; [follow n] is attempt [n], with the addresses it
    asked, which are listed for each attempt. *)
Fixpoint resolve_loop (left_ attempt : nat) (allowed : nat -> bool) (follow : nat -> res goerr string * list string) (raw : string) (last : option goerr) :
    res (option goerr) TikTokResolution * list (list string) :=
  match left_ with
  | O => (Err last, [])
  | S left_ =>
      if (0 <? Z.of_nat attempt) && negb (allowed attempt) then (Err last, [])
      else
        let '(resolved, asked) := follow attempt in
        match resolved with
        | Ok resolved => (Ok (mkResolution (videoID resolved) raw resolved), [asked])
        | Err e =>
            if match as_core e with Some api => String.eqb (Code api) "invalid_link" | None => false end then (Err (Some e), [asked])
            else let '(r, walks) := resolve_loop left_ (S attempt) allowed follow raw (Some e) in (r, asked :: walks)
        end
  end.

(** [resolve] without its cache: [gate] is the error of the limiter. *)
Definition resolve (cfg_ResolveRetries : Z) (gate : option goerr) (allowed : nat -> bool) (follow : string -> nat -> res goerr string * list string) (raw : string) :
    res (option goerr) TikTokResolution * list (list string) :=
  let raw := TrimSpace raw in
  if negb (validTikTokURL raw) then (Err (Some (invalid_link "Only HTTPS TikTok URLs are accepted")), [])
  else if negb (String.eqb (videoID raw) "") then (Ok (mkResolution (videoID raw) raw raw), [])
  else
    match gate with
    | Some e => (Err (Some e), [])
    | None => resolve_loop (Z.to_nat (Z.max 1 cfg_ResolveRetries)) 0 allowed (follow raw) raw None
    end.
End Resolve.

(** ** Metadata *)

Record AppDetail := mkDetail { ad_Response : object; ad_IdentityID : string; ad_UserAgent : string }.

Definition appDetail (response : object) (id : string) : object :=
  let mine (d : object) := String.eqb (str (field "aweme_id" d)) id in
  let detail := obj (field "aweme_detail" response) in
  if mine detail then detail
  else
    match List.find mine (map (fun v => obj (Some v)) (arr (field "aweme_details" response))) with
    | Some detail => detail
    | None => if mine response then response else []
    end.

(** The attempts of [fetchMetadata]: [detail n] is what the backend answers. *)
Fixpoint metadata_loop (left_ attempt : nat) (allowed available : nat -> bool) (detail : nat -> res goerr AppDetail) (wait : nat -> option goerr)
    (resolved : TikTokResolution) (last : option goerr) : res (option goerr) (object * AssetContext) :=
  match left_ with
  | O => Err last
  | S left_ =>
      if (0 <? Z.of_nat attempt) && negb (allowed attempt) then Err last
      else
        let found := match detail attempt with
                     | Err e => Err e
                     | Ok d => match appDetail (ad_Response d) (rs_SourceID resolved) with
                               | [] => Err (Upstream_ "TikTok app did not return the requested post")
                               | post => Ok (post, mkAsset "tiktok" "" "" "" [] "" (rs_ResolvedURL resolved) [("User-Agent"%string, ad_UserAgent d)] (ad_IdentityID d) 0 "")
                               end
                     end in
        match found with
        | Ok r => Ok r
        | Err e =>
            if negb (retryable e) || negb (available attempt) then Err (Some e)
            else
              match left_, wait attempt with
              | S _, Some e' => Err (Some e')
              | _, _ => metadata_loop left_ (S attempt) allowed available detail wait resolved (Some e)
              end
        end
  end.

Definition fetchMetadata (app : bool) (cfg_VideoInfoMaxRetries : Z) (allowed available : nat -> bool) (detail : nat -> res goerr AppDetail) (wait : nat -> option goerr)
    (resolved : TikTokResolution) : res (option goerr) (object * AssetContext) :=
  if negb app then Err (Some (Upstream_ "TikTok app backend is unavailable"))
  else metadata_loop (Z.to_nat (Z.max 1 cfg_VideoInfoMaxRetries)) 0 allowed available detail wait resolved None.

Record TikTokMusic := mkTikTokMusic {
  tm_ExtractionID : string; tm_SourceID : string; tm_Title : string; tm_Author : string; tm_DurationSeconds : Z;
  tm_Cover : option registration; tm_Audio : registration; tm_ExpiresAt : Z;
}.
Definition musicResponse (extraction id : string) (expires : Z) (music : MusicMetadata) (audio : registration) : TikTokMusic :=
  mkTikTokMusic extraction id (mu_Title music) (mu_Author music) (mu_DurationSeconds music) (mu_Cover music) audio expires.

(** The computation of [ExtractMusic]: [post] is the cached post of the ID. *)
Definition ExtractMusic (cfg_CacheTTL : Z) (refresh : bool) (post : option TikTokExtraction) (clock now : Z) (gate : option goerr) (extraction id : string)
    (fetch : TikTokResolution -> res goerr (object * AssetContext)) : res goerr TikTokMusic :=
  if String.eqb id "" || negb (all_digits id) then Err (invalid_link "A numeric TikTok video ID is required")
  else
    let cached :=
      if refresh then None
      else match post with
           | Some p => match te_Music p with
                       | Some m => match mu_Audio m with
                                   | Some audio => if clock <? te_ExpiresAt p then Some (musicResponse (te_ExtractionID p) id (te_ExpiresAt p) m audio) else None
                                   | None => None
                                   end
                       | None => None
                       end
           | None => None
           end in
    match cached, gate with
    | Some m, _ => Ok m
    | None, Some e => Err e
    | None, None =>
        let raw := "https://www.tiktok.com/@_/video/" +:+ id in
        match fetch (mkResolution id raw raw) with
        | Err e => Err e
        | Ok (detail, base) =>
            let base := mkAsset (as_Platform base) (as_Kind base) (as_Filename base) (as_UpstreamURL base) (as_AlternateURLs base) (as_ContentType base)
                          (as_Referer base) (as_Headers base) (as_IdentityID base) (as_DurationSeconds base) extraction in
            let expires := now + cfg_CacheTTL in
            match musicMetadata (obj (field "music" detail)) base id expires with
            | Some m => match mu_Audio m with Some audio => Ok (musicResponse extraction id expires m audio) | None => Err (Upstream_ "TikTok post has no music audio") end
            | None => Err (Upstream_ "TikTok post has no music audio")
            end
        end
    end.

(** ** One address *)

(** The computation behind a post's ID: the limiter, the metadata, the post.
    [kept_post] is what [GetExtraction] finds later. *)
Definition load_post (cfg_MaxVideoDuration cfg_CacheTTL : Z) (gate : option goerr) (fetch : TikTokResolution -> res goerr (object * AssetContext)) (ctxErr : option goerr)
    (extraction : string) (now : Z) (resolved : TikTokResolution) : res goerr TikTokExtraction :=
  match gate with
  | Some e => Err e
  | None =>
      match fetch resolved with
      | Err e => Err e
      | Ok (detail, asset) => normalize cfg_MaxVideoDuration cfg_CacheTTL ctxErr extraction now detail asset resolved
      end
  end.
Definition kept_post (r : res goerr TikTokExtraction) : option (string * TikTokExtraction) :=
  match r with Ok response => Some (te_ExtractionID response, response) | Err _ => None end.

Definition relabel_post (resolved : TikTokResolution) (r : TikTokExtraction) : TikTokExtraction :=
  mkExtraction (te_ExtractionID r) (te_SourceID r) (rs_SourceURL resolved) (rs_ResolvedURL resolved) (te_CreatorUsername r) (te_ContentType r) (te_Cover r) (te_Width r)
    (te_Height r) (te_DurationSeconds r) (te_Likes r) (te_Views r) (te_Media r) (te_Music r) (te_ExpiresAt r).

(** [posts] is the memo's [do]: its answer under a key, where the last argument
    is what this call would compute. *)
Definition extractResolved (posts : string -> bool -> res goerr TikTokExtraction -> res goerr TikTokExtraction) (load : TikTokResolution -> res goerr TikTokExtraction)
    (resolved : TikTokResolution) (refresh : bool) : res goerr TikTokExtraction :=
  match posts (rs_SourceID resolved) refresh (load resolved) with
  | Ok response => Ok (relabel_post resolved response)
  | Err e => Err e
  end.
Definition ExtractURL (resolve : string -> bool -> res goerr TikTokResolution) (posts : string -> bool -> res goerr TikTokExtraction -> res goerr TikTokExtraction)
    (load : TikTokResolution -> res goerr TikTokExtraction) (raw : string) (refresh : bool) : res goerr TikTokExtraction :=
  match resolve raw refresh with
  | Err e => Err e
  | Ok resolved => extractResolved posts load resolved refresh
  end.
Definition GetExtraction (ctxErr : option goerr) (held : string -> option TikTokExtraction) (id : string) : res goerr TikTokExtraction :=
  match ctxErr, held id with
  | Some e, _ => Err e
  | None, Some response => Ok response
  | None, None => Err (ErrCore MissingExtraction)
  end.

(** The address of the proxy a request takes: each in turn.  [n] requests came before. *)
Definition proxy (proxies : list string) (n : Z) : string :=
  let l := match proxies with [] => [""%string] | _ => proxies end in
  default ""%string (l !! Z.to_nat (u64 n mod Z.of_nat (length l))).

(** ** The rendition chosen *)

(** All renditions of a video, in the order they are met. *)
Definition renditions (video : object) : list videoSource :=
  candidates video ++ concat (map (fun raw => candidates (obj (Some raw))) (arr (field "bit_rate" video))).

Ltac rank := unfold betterThan; intros; repeat match goal with
  | H : context [if negb (?a =? ?b) then _ else _] |- _ => destruct (Z.eqb_spec a b); cbn [negb] in H
  | |- context [if negb (?a =? ?b) then _ else _] => destruct (Z.eqb_spec a b); cbn [negb]
  end; rewrite ?Z.ltb_lt, ?Z.ltb_ge in *; lia.

Lemma better_trans u v w : betterThan u v = true -> betterThan v w = true -> betterThan u w = true.
Proof. rank. Qed.
Lemma better_not_worse u v w : betterThan u v = true -> betterThan w v = false -> betterThan w u = false.
Proof. rank. Qed.
Lemma not_worse_better u v w : betterThan u v = true -> betterThan w v = false -> betterThan u w = true.
Proof. rank. Qed.
Lemma better_irrefl v : betterThan v v = false.
Proof. rank. Qed.

(** [v] is the first of the best of [l]. *)
Definition first_best (l : list videoSource) (v : videoSource) : Prop := exists pre post,
  l = pre ++ v :: post /\ Forall (fun c => betterThan v c = true) pre /\ Forall (fun c => betterThan c v = false) post.

Definition chosen (l : list videoSource) (best : option videoSource) : Prop :=
  match best with None => l = [] | Some v => first_best l v end.

Lemma consider_chosen l best c : chosen l best -> chosen (l ++ [c]) (consider best c).
Proof.
  unfold consider. destruct best as [v|]; cbn [chosen]; [|intros ->; exists [], []; done].
  intros (pre & post & -> & Hpre & Hpost). destruct (betterThan c v) eqn:Eb; cbn [chosen].
  - exists (pre ++ v :: post), []. split; [by rewrite <- app_assoc|]. split; [|done]. apply Forall_app. split.
    + eapply Forall_impl; [exact Hpre|]. intros x Hx. by eapply better_trans.
    + constructor; [done|]. eapply Forall_impl; [exact Hpost|]. intros x Hx. by eapply not_worse_better.
  - exists pre, (post ++ [c]). split; [by rewrite <- app_assoc|]. split; [done|]. apply Forall_app. split; [done|by constructor].
Qed.

Lemma collect_chosen l best cs : chosen l best -> chosen (l ++ cs) (fold_left consider cs best).
Proof.
  revert l best. induction cs as [|c cs IH]; intros l best H; cbn [fold_left]; [by rewrite app_nil_r|].
  change (c :: cs) with ([c] ++ cs). rewrite app_assoc. by apply IH, consider_chosen.
Qed.

Lemma selectVideo_chosen video : chosen (renditions video) (selectVideo video).
Proof.
  unfold renditions, selectVideo, collect.
  assert (chosen (candidates video) (fold_left consider (candidates video) None)) as H0 by (by apply (collect_chosen [] None)).
  revert H0. generalize (candidates video) (fold_left consider (candidates video) None). intros l best H.
  revert l best H. induction (arr (field "bit_rate" video)) as [|raw raws IH]; intros l best H; cbn [fold_left map concat]; [by rewrite app_nil_r|].
  rewrite app_assoc. by apply IH, collect_chosen.
Qed.

(** The rendition of a video is chosen for its quality alone: it is one of those the reply
    offers with an address, none of them is better, by size, then
    frame rate, then bit rate, and among equals it is the first in a fixed
    order; there is one whenever the reply offers any. *)
Theorem selection_best video : match selectVideo video with
  | None => renditions video = []
  | Some v => first_best (renditions video) v
  end.
Proof. pose proof (selectVideo_chosen video) as H. by destruct (selectVideo video). Qed.

Lemma candidate_urls container key v : candidate container key = Some v -> vs_URLs v <> [] /\ Forall (fun s => s <> ""%string) (vs_URLs v).
Proof.
  unfold candidate. set (j := JObj _). pose proof (urls_of_nonempty j) as H. destruct (urls_of j) as [|u us]; [done|]. by intros [= <-].
Qed.

Lemma selectVideo_urls video v : selectVideo video = Some v -> vs_URLs v <> [] /\ Forall (fun s => s <> ""%string) (vs_URLs v).
Proof.
  intros E. pose proof (selectVideo_chosen video) as H.
  rewrite E in H. destruct H as (pre & post & Hl & _ & _).
  assert (v ∈ renditions video) as Hin by (rewrite Hl; set_solver). unfold renditions in Hin.
  assert (forall c, v ∈ candidates c -> exists k, candidate c k = Some v) as Hc.
  { intros c Hv. apply list_elem_of_omap in Hv as (k & _ & Hk). by exists k. }
  apply elem_of_app in Hin as [Hin|Hin].
  - apply Hc in Hin as [k Hk]. by eapply candidate_urls.
  - apply list_elem_of_In, in_concat in Hin as (cs & Hcs & Hv). apply in_map_iff in Hcs as (raw & <- & _).
    apply list_elem_of_In, Hc in Hv as [k Hk]. by eapply candidate_urls.
Qed.

(** ** Posts name assets that can be fetched *)

(** A registration under [base]: it has an address, and belongs to the
    extraction and the identity of its post. *)
Record registered_under (base : AssetContext) (extraction : string) (expires : Z) (r : registration) : Prop := {
  ru_url : as_UpstreamURL (rg_asset r) <> ""%string;
  ru_alternates : Forall (fun s => s <> ""%string) (as_AlternateURLs (rg_asset r));
  ru_expires : rg_expires r = expires;
  ru_extraction : as_ExtractionID (rg_asset r) = extraction;
  ru_identity : as_IdentityID (rg_asset r) = as_IdentityID base /\ as_Headers (rg_asset r) = as_Headers base;
}.

Definition optional (P : registration -> Prop) (r : option registration) : Prop := match r with Some r => P r | None => True end.
Definition music_parts (m : option MusicMetadata) : list registration :=
  match m with Some m => option_list (mu_Cover m) ++ option_list (mu_Audio m) | None => [] end.
(** Everything a post registers. *)
Definition post_assets (e : TikTokExtraction) : list registration := te_Media e ++ option_list (te_Cover e) ++ music_parts (te_Music e).

Lemma register_under base extraction expires source kind name contentType position r :
  Forall (fun s => s <> ""%string) source -> as_ExtractionID base = extraction ->
  register base expires source kind name contentType position = Some r -> registered_under base extraction expires r /\ rg_position r = position.
Proof. intros Hs He. destruct source as [|u us]; [done|]. intros [= <-]. apply Forall_cons in Hs as [Hu Hus]. by split. Qed.

Lemma register_list base extraction expires source kind name contentType position :
  Forall (fun s => s <> ""%string) source -> as_ExtractionID base = extraction ->
  Forall (registered_under base extraction expires) (option_list (register base expires source kind name contentType position)).
Proof.
  intros Hs He. destruct (register _ _ _ _ _ _ _) as [r|] eqn:E; [|constructor]. unfold option_list, option_rect.
  eapply register_under in E as [E _]; [|exact Hs|exact He]. by constructor.
Qed.

Lemma music_under music base extraction id expires : as_ExtractionID base = extraction ->
  Forall (registered_under base extraction expires) (music_parts (musicMetadata music base id expires)).
Proof.
  intros He. unfold musicMetadata. destruct music as [|kv music]; [constructor|]. set (o := kv :: music). unfold music_parts. cbn [mu_Cover mu_Audio].
  apply Forall_app. split; apply register_list; try done; [apply firstURLs_nonempty|apply urls_nonempty].
Qed.

Section Sound.
Context (cfg_MaxVideoDuration cfg_CacheTTL : Z).

(** What a post that was read promises. *)
Record post_ok (extraction : string) (now : Z) (base : AssetContext) (resolved : TikTokResolution) (e : TikTokExtraction) : Prop := {
  po_media : te_Media e <> [];
  po_assets : Forall (registered_under base extraction (now + cfg_CacheTTL)) (post_assets e);
  po_source : te_SourceID e = rs_SourceID resolved /\ te_ExtractionID e = extraction /\ te_ExpiresAt e = now + cfg_CacheTTL;
  po_type : te_ContentType e = "slideshow"%string /\ Forall (fun r => as_Kind (rg_asset r) = "image"%string) (te_Media e) \/
            te_ContentType e = "video"%string /\ exists r, te_Media e = [r] /\ as_Kind (rg_asset r) = "video"%string /\
              (0 < cfg_MaxVideoDuration -> as_DurationSeconds (rg_asset r) <= cfg_MaxVideoDuration);
  po_positions : Sorted Z.lt (map rg_position (te_Media e));
}.

Lemma slides_ok base extraction expires id n raws : as_ExtractionID base = extraction ->
  let l := omap (fun x => x) (imap (fun i => slide base expires id (n + i)) raws) in
  Forall (registered_under base extraction expires) l /\ Forall (fun r => as_Kind (rg_asset r) = "image"%string) l /\
  Sorted Z.lt (map rg_position l) /\ Forall (fun r => Z.of_nat n <= rg_position r) l.
Proof.
  intros He. cbv zeta. revert n. induction raws as [|raw raws IH]; intros n; [cbn; repeat split; constructor|].
  cbn [imap omap list_omap]. rewrite Nat.add_0_r.
  assert (imap ((fun i => slide base expires id (n + i)) ∘ S) raws = imap (fun i => slide base expires id (S n + i)) raws) as E
    by (apply imap_ext; intros i x _; cbn; f_equal; lia).
  rewrite E. destruct (IH (S n)) as (H1 & H2 & H3 & H4).
  assert (Forall (fun r => Z.of_nat n <= rg_position r) (omap (fun x => x) (imap (fun i => slide base expires id (S n + i)) raws))) as H5
    by (eapply Forall_impl; [exact H4|]; intros r Hr; cbn in Hr |- *; lia).
  destruct (slide base expires id n raw) as [r|] eqn:Er; [|done].
  assert (as_Kind (rg_asset r) = "image"%string) as Hk by (unfold slide, register in Er; destruct (urls _); [done|by injection Er as <-]).
  unfold slide in Er. eapply register_under in Er as [Hr Hp]; [|apply urls_nonempty|exact He].
  split; [by constructor|]. split; [by constructor|]. split; [|constructor; [lia|done]]. cbn [map]. constructor; [done|].
  destruct (omap _ _) as [|r' l]; [constructor|]. cbn [map]. constructor. apply Forall_cons in H4 as [H4 _]. lia.
Qed.

(** C27. A post that is read from a reply can be delivered: it has media, every asset it
    registers, its music and covers included, has an address and no empty
    alternate, expires with the post, and keeps the identity and headers it
    was found with; a slideshow lists its images in order, and a video is one
    asset that respects the limit on its duration. What cannot be delivered is
    an error. *)
Theorem normalize_sound ctxErr extraction now data base resolved :
  match normalize cfg_MaxVideoDuration cfg_CacheTTL ctxErr extraction now data base resolved with
  | Ok e => ctxErr = None /\ post_ok extraction now base resolved e
  | Err e => ctxErr = Some e \/ exists api, as_core e = Some api
  end.
Proof.
  unfold normalize. destruct ctxErr as [err|]; [by left|]. cbv zeta. set (b := mkAsset _ _ _ _ _ _ _ _ _ _ extraction).
  set (id := rs_SourceID resolved). set (expires := now + cfg_CacheTTL).
  assert (as_ExtractionID b = extraction) as Hb by done.
  assert (forall r, registered_under b extraction expires r -> registered_under base extraction expires r) as Hbase by (intros r [? ? ? ? ?]; by split).
  assert (Forall (registered_under base extraction expires) (music_parts (musicMetadata (obj (field "music" data)) b id expires))) as Hmusic
    by (eapply Forall_impl; [by apply (music_under _ b extraction)|exact Hbase]).
  destruct (obj (field "image_post_info" data)) as [|kv images] eqn:Ei.
  - set (video := obj (field "video" data)). set (duration := Z.quot _ 1000).
    destruct (_ && _) eqn:Ed; [right; by eexists|]. destruct (selectVideo video) as [v|] eqn:Ev; [|right; by eexists].
    destruct (selectVideo_urls _ _ Ev) as [Hne Hus]. destruct (vs_URLs v) as [|u us]; [done|]. apply Forall_cons in Hus as [Hu Hus].
    split; [done|]. split; cbn [te_Media te_SourceID te_ExtractionID te_ExpiresAt te_ContentType]; try done.
    + unfold post_assets. cbn [te_Media te_Cover te_Music]. apply Forall_app. split; [constructor; [by split|constructor]|].
      apply Forall_app. split; [|exact Hmusic]. eapply Forall_impl; [apply (register_list b extraction); [apply firstURLs_nonempty|done]|exact Hbase].
    + right. split; [done|]. eexists. split; [done|]. split; [done|]. intros Hm. cbn [rg_asset as_DurationSeconds asset_of].
      apply andb_false_iff in Ed as [Ed|Ed]; apply Z.ltb_ge in Ed; lia.
    + repeat constructor.
  - pose proof (slides_ok b extraction expires id 0 (arr (field "images" (kv :: images))) Hb) as (H1 & H2 & H3 & _).
    assert (imap (fun i => slide b expires id (0 + i)) = imap (slide b expires id)) as E by done. rewrite E in H1, H2, H3. clear E.
    destruct (omap _ _) as [|r l]; [right; by eexists|]. split; [done|].
    split; cbn [te_Media te_SourceID te_ExtractionID te_ExpiresAt te_ContentType]; try done; [|by left].
    unfold post_assets. cbn [te_Media te_Cover te_Music]. apply Forall_app. split; [exact (Forall_impl _ _ _ H1 Hbase)|exact Hmusic].
Qed.
End Sound.

(** ** Share links stay on TikTok *)

Section Confined.
Context (Parse : string -> option URL) (ToString : URL -> string) (ur_User : URL -> bool).
Notation valid raw := (validTikTokURL Parse ur_User raw = true).

Record walk (first : string) (n : nat) (r : res goerr string) (asked : list string) : Prop := {
  wk_bound : (length asked <= n)%nat;
  wk_head : match asked with [] => True | u :: rest => u = first /\ Forall (fun u => valid u) rest end;
  wk_result : forall u, r = Ok u -> valid u /\ videoID Parse u <> ""%string;
}.

Lemma hops_walk n ctxErr refused answers current :
  walk current n (hops Parse ToString ur_User n ctxErr refused answers current).1 (hops Parse ToString ur_User n ctxErr refused answers current).2.
Proof.
  revert current. induction n as [|n IH]; intros current; cbn [hops]; [by split|].
  assert (forall e, walk current (S n) (Err e) [current]) as Hstop by (intros e; split; cbn; [lia|by split; [|constructor]|done]).
  destruct (refused current); [split; [cbn; lia|done|done]|]. destruct (answers n) as [r|e]; [|apply Hstop].
  destruct (redirects (an_status r)).
  - destruct (an_location r) as [location|]; [|apply Hstop]. cbv zeta. destruct (validTikTokURL Parse ur_User (ToString location)) eqn:Ev; cbn [negb]; [|apply Hstop].
    destruct (String.eqb_spec (videoID Parse (ToString location)) ""); cbn [negb].
    + destruct (terminalPage location); [apply Hstop|]. specialize (IH (ToString location)).
      destruct (hops Parse ToString ur_User n ctxErr refused answers (ToString location)) as [res asked]. destruct IH as [I1 I2 I3].
      cbn [fst snd] in *. split; [cbn; lia| |done]. split; [done|]. destruct asked as [|u rest]; [constructor|]. destruct I2 as [-> I2]. by constructor.
    + split; cbn; [lia|by split; [|constructor]|]. by intros u [= <-].
  - destruct (existsb _ _); [apply Hstop|]. destruct (400 <=? an_status r); apply Hstop.
Qed.

Lemma follow_walk transport ctxErr refused answers raw :
  walk (shareRequestURL Parse ToString raw) 10 (followShareLink Parse ToString ur_User transport ctxErr refused answers raw).1
    (followShareLink Parse ToString ur_User transport ctxErr refused answers raw).2.
Proof. unfold followShareLink. destruct transport; [split; [cbn; lia|done|done]|apply hops_walk]. Qed.

(** Setting the host of a share link's address changes its host only, and its text
    is read back as that address (net/url). *)
Hypothesis url_roundtrip : forall raw u h, Parse raw = Some u -> ur_Scheme u = "https"%string -> sharePathPattern (ur_Path u) = true ->
  (h = "www.tt.site" \/ exists port, all_digits port = true /\ h = "www.tt.site:" +:+ port)%string ->
  exists u', Parse (ToString (set_host h u)) = Some u' /\ ur_Scheme u' = "https"%string /\ ur_Host u' = h /\ ur_Path u' = ur_Path u /\ ur_User u' = ur_User u.

Lemma share_host u port : all_digits port = true -> ur_Host u = "www.tt.site"%string \/ ur_Host u = ("www.tt.site:" +:+ port)%string ->
  normalizedHost u = "www.tt.site"%string.
Proof.
  intros Hp H. unfold normalizedHost, lower_host, Hostname.
  assert (match cut_last_colon (ur_Host u) with Some (b, p) => if all_digits p then b else ur_Host u | None => ur_Host u end = "www.tt.site"%string) as ->; [|reflexivity].
  destruct H as [->| ->]; [reflexivity|].
  change ("www.tt.site:" +:+ port)%string with ("www.tt.site" +:+ ":" +:+ port)%string. rewrite cut_last_colon_app by (by apply all_digits_plain). by rewrite Hp.
Qed.

Lemma port_digits u : all_digits (Port u) = true.
Proof. unfold Port. destruct (cut_last_colon (ur_Host u)) as [[b p]|]; [|done]. by destruct (all_digits p) eqn:E. Qed.

(** The address of a link of TikTok's that is asked first is TikTok's. *)
Lemma shareRequestURL_valid raw : valid raw -> valid (shareRequestURL Parse ToString raw).
Proof.
  intros Hv. unfold shareRequestURL. pose proof Hv as Hv'. unfold validTikTokURL in Hv'. destruct (Parse raw) as [u|] eqn:Ep; [|done].
  apply andb_prop in Hv' as [Hv' Hu]. apply andb_prop in Hv' as [Hs%String.eqb_eq Hh].
  destruct (String.eqb_spec (normalizedHost u) "tt.site") as [Eh|]; cbn [negb]; [|done].
  rewrite Eh in Hh. change (sharePathPattern (ur_Path u) = true) in Hh. rename Hh into Hpath.
  set (h := if String.eqb (Port u) "" then _ else _).
  destruct (url_roundtrip raw u h Ep Hs Hpath) as (u' & Hp' & Es & Eho & Epa & Eus).
  { unfold h. destruct (String.eqb _ _); [by left|]. right. exists (Port u). split; [apply port_digits|done]. }
  unfold validTikTokURL. rewrite Hp', Es, Eus, Hu, Epa. rewrite (share_host u' (Port u)); [|apply port_digits|rewrite Eho; unfold h; destruct (String.eqb _ _); auto].
  unfold shareLink. rewrite Hpath. reflexivity.
Qed.

Lemma resolve_loop_sound left_ attempt allowed (follow : nat -> res goerr string * list string) raw last : (left_ <> 0%nat \/ last <> None) -> (attempt = 0%nat -> last = None) ->
  (last = None -> attempt = 0%nat) -> (forall n u, (follow n).1 = Ok u -> valid u /\ videoID Parse u <> ""%string) ->
  let '(r, walks) := resolve_loop Parse left_ attempt allowed follow raw last in
  (length walks <= left_)%nat /\ (forall k asked, walks !! k = Some asked -> asked = (follow (attempt + k)%nat).2 /\ ((attempt + k)%nat <> 0%nat -> allowed (attempt + k)%nat = true)) /\
  match r with
  | Ok r => rs_SourceURL r = raw /\ valid (rs_ResolvedURL r) /\ rs_SourceID r = videoID Parse (rs_ResolvedURL r) /\ rs_SourceID r <> ""%string
  | Err e => e <> None
  end.
Proof.
  revert attempt last. induction left_ as [|n IH]; intros attempt last Hl Ha Ha' Hf; cbn [resolve_loop]; [by destruct Hl|].
  destruct (_ && _) eqn:E.
  { apply andb_prop in E as [E _]. apply Z.ltb_lt in E. split_and!; [cbn; lia|done|]. intros H. apply Ha' in H. lia. }
  assert (attempt <> 0%nat -> allowed attempt = true) as Hal.
  { intros Hne. apply andb_false_iff in E as [E|E]; [apply Z.ltb_ge in E; lia|by apply negb_false_iff in E]. }
  destruct (follow attempt) as [res asked] eqn:Ef.
  assert (forall k l, [asked] !! k = Some l -> l = (follow (attempt + k)%nat).2 /\ ((attempt + k)%nat <> 0%nat -> allowed (attempt + k)%nat = true)) as Hone.
  { intros [|k] l; [|done]. intros [= <-]. rewrite Nat.add_0_r, Ef. done. }
  destruct res as [u|e].
  { specialize (Hf attempt u). rewrite Ef in Hf. destruct (Hf eq_refl). split_and!; [cbn; lia|done..]. }
  destruct (match as_core e with Some _ => _ | None => false end); [split_and!; [cbn; lia|done..]|].
  specialize (IH (S attempt) (Some e) ltac:(by right) ltac:(done) ltac:(done) Hf).
  destruct (resolve_loop _ _ _ _ _ _ _) as [r walks]. destruct IH as (I1 & I2 & I3). split_and!; [cbn; lia| |done].
  intros [|k] l; cbn [lookup list_lookup]; [by intros; apply Hone|]. intros H. apply I2 in H. by rewrite <- Nat.add_succ_comm.
Qed.

(** C28. However a share link is redirected, it is walked as often as the
    configuration allows, after the first time only where the operation allows another
    retry; each walk asks ten addresses at
    most, the first of them the link's own, and every one of them an HTTPS
    address of TikTok's; what resolves is such an address that names a post, and
    the source ID is the one it names; a link that is not TikTok's is never
    asked for nor resolved, and a failure always has its error. *)
Theorem resolution_sound retries gate allowed transport ctxErr refused answers raw :
  let follow link n := followShareLink Parse ToString ur_User (transport n) (ctxErr n) refused (answers n) link in
  let '(r, walks) := resolve Parse ur_User retries gate allowed follow raw in
  Z.of_nat (length walks) <= Z.max 1 retries /\
  (forall n asked, walks !! n = Some asked ->
     valid (TrimSpace raw) /\ (n <> 0%nat -> allowed n = true) /\ (length asked <= 10)%nat /\ Forall (fun u => valid u) asked /\
     (asked <> [] -> head asked = Some (shareRequestURL Parse ToString (TrimSpace raw)))) /\
  match r with
  | Ok r => rs_SourceURL r = TrimSpace raw /\ valid (rs_SourceURL r) /\ valid (rs_ResolvedURL r) /\
            rs_SourceID r = videoID Parse (rs_ResolvedURL r) /\ rs_SourceID r <> ""%string
  | Err e => e <> None
  end.
Proof.
  cbv zeta. unfold resolve. destruct (validTikTokURL Parse ur_User (TrimSpace raw)) eqn:Ev; cbn [negb]; [|split_and!; [cbn; lia|done..]].
  destruct (String.eqb_spec (videoID Parse (TrimSpace raw)) ""); cbn [negb]; [|split_and!; [cbn; lia|done..]]. destruct gate; [split_and!; [cbn; lia|done..]|].
  set (follow := fun n => _). pose proof (resolve_loop_sound (Z.to_nat (Z.max 1 retries)) 0 allowed follow (TrimSpace raw) None) as H.
  destruct (resolve_loop _ _ _ _ _ _ _) as [r walks]. destruct H as (H1 & H2 & H3); [left; lia|done|done|intros k u; apply follow_walk|].
  split; [lia|]. split.
  - intros n0 asked Hn. apply H2 in Hn as [-> Hal]. split; [done|]. split; [done|].
    pose proof (follow_walk (transport n0) (ctxErr n0) refused (answers n0) (TrimSpace raw)) as [W1 W2 _]. cbn [Nat.add] in *. fold (follow n0) in W1, W2.
    split; [done|]. destruct (follow n0).2 as [|u rest]; [done|]. destruct W2 as [-> W2]. split; [|done]. constructor; [by apply shareRequestURL_valid|done].
  - destruct r as [r|err]; [|done]. destruct H3 as (G1 & G2 & G3 & G4). rewrite G1. done.
Qed.
End Confined.

(** Addresses of the form https://host/path. *)
Definition demo_share_parse (raw : string) : option URL :=
  match cut_string_prefix raw "https://" with
  | Some r => let '(host, path, _) := cut_byte "/" r in Some (mkURL "https" host (String "/" path) "" "")
  | None => None
  end.
Definition demo_share_text (u : URL) : string := "https://" +:+ ur_Host u +:+ ur_Path u.

Lemma cut_slash b p : forallb (fun a => negb (Ascii.eqb a "/")) (String.list_ascii_of_string b) = true ->
  cut_byte "/" (b +:+ String "/" p) = (b, p, true).
Proof.
  induction b as [|a b IH]; [done|]. cbn [String.list_ascii_of_string forallb]. intros [Ha Hb]%andb_true_iff.
  change (String a b +:+ String "/" p)%string with (String a (b +:+ String "/" p)). cbn [cut_byte]. rewrite IH by done. by destruct (Ascii.eqb a "/").
Qed.

Lemma demo_share_roundtrip raw u h : demo_share_parse raw = Some u -> ur_Scheme u = "https"%string -> sharePathPattern (ur_Path u) = true ->
  (h = "www.tt.site" \/ exists port, all_digits port = true /\ h = "www.tt.site:" +:+ port)%string ->
  exists u', demo_share_parse (demo_share_text (set_host h u)) = Some u' /\ ur_Scheme u' = "https"%string /\ ur_Host u' = h /\ ur_Path u' = ur_Path u /\ false = false.
Proof.
  unfold demo_share_parse. destruct (cut_string_prefix raw "https://") as [r|]; [|done]. destruct (cut_byte "/" r) as [[host path] f]. intros [= <-] _ _ Hh.
  exists (mkURL "https" h (String "/" path) "" ""). split; [|done].
  assert (cut_string_prefix (demo_share_text (set_host h (mkURL "https" host (String "/" path) "" ""))) "https://" = Some (h +:+ String "/" path)) as ->.
  { unfold demo_share_text. cbn [ur_Host ur_Path set_host].
    exact (cut_app "https://" (h +:+ String "/" path)). }
  rewrite cut_slash; [done|]. destruct Hh as [->|(port & Hp & ->)]; [done|].
  change (forallb (fun a => negb (Ascii.eqb a "/")) (String.list_ascii_of_string port) = true). by apply all_digits_plain.
Qed.

Lemma resolution_sound_witness :
  let answers (_ : nat) (_ : nat) := Ok (mkAnswer 302 (Some (mkURL "https" "www.tiktok.com" "/@a/video/123" "" ""))) in
  let walks := [["https://www.tt.site:443/t/ab/"]]%string in
  resolve demo_share_parse (fun _ => false) 3 None (fun _ => true)
      (fun link n => followShareLink demo_share_parse demo_share_text (fun _ => false) None None (fun _ => false) (answers n) link) " https://tt.site:443/t/ab/"
    = (Ok (mkResolution "123" "https://tt.site:443/t/ab/" "https://www.tiktok.com/@a/video/123"), walks) /\
  Forall (fun u => validTikTokURL demo_share_parse (fun _ => false) u = true) ["https://www.tt.site:443/t/ab/"]%string.
Proof.
  intros answers walks. split; [vm_compute; reflexivity|].
  pose proof (resolution_sound demo_share_parse demo_share_text (fun _ => false) demo_share_roundtrip 3 None (fun _ => true) (fun _ => None) (fun _ => None)
    (fun _ => false) answers " https://tt.site:443/t/ab/") as H.
  cbv zeta in H. destruct (resolve _ _ _ _ _ _ _) as [r l] eqn:E. vm_compute in E. injection E as <- <-.
  destruct H as (_ & H & _). by destruct (H 0%nat _ eq_refl) as (_ & _ & _ & Hf & _).
Defined.

Example post_demo :
  let reply := obj (json_parse (bytes_of_string ("{" +:+ quoted "video" +:+ ":{" +:+ quoted "duration" +:+ ":12500," +:+ quoted "play_addr" +:+ ":{" +:+ quoted "width" +:+ ":10," +:+ quoted "height" +:+
    ":20," +:+ quoted "url_list" +:+ ":[" +:+ quoted "https://a" +:+ "," +:+ quoted "https://b" +:+ "]}," +:+ quoted "play_addr_h264" +:+ ":{" +:+ quoted "width" +:+ ":20," +:+ quoted "height" +:+
    ":20," +:+ quoted "url_list" +:+ ":[" +:+ quoted "https://c" +:+ "]}}}"))) in
  match normalize 60 600 None "x" 1000 reply (mkAsset "tiktok" "" "" "" [] "" "r" [] "7" 0 "") (mkResolution "123" "s" "r") with
  | Ok e => map (fun r => (as_UpstreamURL (rg_asset r), as_Filename (rg_asset r), as_DurationSeconds (rg_asset r), rg_expires r)) (te_Media e) = [("https://c", "123.mp4", 12, 1600)]%string
  | Err _ => False
  end.
Proof. vm_compute. reflexivity. Qed.
