(* ===== verification/InstagramPost.v ===== *)
(** * platform: Instagram posts

    Models src/internal/platform/instagram_app.go (a post from a reply of the
    app) and instagram.go (addresses, the choice of a method, and the legacy
    service).  Registrations are listed as in TikTokPost.  Replies, clocks and
    contexts are inputs; net/url is a parameter, and so is the text of a path
    as [EscapedPath] writes it. *)
From S2P Require Import Prelude Strconv Errors Json Float Values Regexp AppRoute Download TikTokPost.
From Stdlib Require Import Sorted.
Open Scope Z_scope.
Open Scope go_scope.

(** ** Media IDs *)

Definition instagramAlphabet : string := "ABCDEFGHIJKLMNOPQRSTUVWXYZabcdefghijklmnopqrstuvwxyz0123456789-_".

Fixpoint index_of (c : ascii) (s : string) : option Z :=
  match s with
  | EmptyString => None
  | String a s => if Ascii.eqb a c then Some 0 else match index_of c s with Some i => Some (i + 1) | None => None end
  end.

Fixpoint code_value (acc : Z) (s : string) : option Z :=
  match s with
  | EmptyString => Some acc
  | String c s => match index_of c instagramAlphabet with Some d => code_value (Z.shiftl acc 6 + d) s | None => None end
  end.

Definition bad_code : goerr := invalid_link "Invalid Instagram shortcode".
Definition instagramMediaID (shortcode : string) : res goerr string :=
  if (String.length shortcode =? 0)%nat || (20 <? String.length shortcode)%nat then Err bad_code
  else
    match code_value 0 shortcode with
    | None => Err bad_code
    | Some value => if value <=? 0 then Err bad_code else Ok (Itoa value)
    end.

(** ** The post of a reply *)

Definition clip_media (entry : json) : json :=
  let clip := obj (Some entry) in
  match obj (field "media" clip) with [] => JObj clip | media => JObj media end.

Definition matching (mediaID shortcode : string) (media : object) : bool :=
  let identity := default "" (is_string (first [field "id" media; field "strong_id__" media])) in
  let '(prefix, _, _) := cut_byte "_" identity in
  String.eqb prefix mediaID && (String.eqb (str (field "code" media)) "" || String.eqb (str (field "code" media)) shortcode).

Definition has_videos (media : object) : bool := match arr (field "video_versions" media) with [] => false | _ => true end.

Definition consider_media (mediaID shortcode : string) (best : option object) (entry : json) : option object :=
  let media := obj (Some entry) in
  if negb (matching mediaID shortcode media) then best
  else
    match best with
    | None => Some media
    | Some m => if has_videos media || negb (has_videos m) then Some media else best
    end.

Definition instagramAppMedia (payload : object) (mediaID shortcode : string) : option object :=
  fold_left (consider_media mediaID shortcode) (arr (field "items" payload) ++ map clip_media (arr (field "clips_items" payload))) None.

(** ** Renditions *)

Record rendition := mkRendition { rd_url : string; rd_fallback : string; rd_width : Z; rd_height : Z; rd_bandwidth : Z; rd_format : Z }.
Definition rd_pixels (r : rendition) : Z := i64 (rd_width r * rd_height r).

Definition rendition_better (video : bool) (c best : rendition) : bool :=
  let better := rd_pixels best <? rd_pixels c in
  if video && (rd_pixels c =? rd_pixels best)
  then (rd_bandwidth best <? rd_bandwidth c) || ((rd_bandwidth c =? rd_bandwidth best) && (rd_format best <? rd_format c))
  else better.

Section Post.
Context (Parse : string -> option URL) (ur_User : URL -> bool).

Definition instagramMediaURL (v : value) : string :=
  match is_string v with
  | Some raw =>
      match Parse raw with
      | Some u => if negb (String.eqb (ur_Scheme u) "https") || String.eqb (Hostname u) "" || ur_User u then "" else raw
      | None => ""
      end
  | None => ""
  end.

Definition candidate_of (v : json) : rendition :=
  let item := obj (Some v) in
  mkRendition "" "" (Z.max 0 (integer (field "width" item))) (Z.max 0 (integer (field "height" item))) (number (field "bandwidth" item)) (number (field "type" item)).
Definition with_url (url fallback : string) (r : rendition) : rendition :=
  mkRendition url fallback (rd_width r) (rd_height r) (rd_bandwidth r) (rd_format r).

(** The best so far, and the text of its fallback. *)
Definition consider_rendition (video : bool) (best : option (rendition * value)) (v : json) : option (rendition * value) :=
  let item := obj (Some v) in
  let candidate := candidate_of v in
  if match best with Some (b, _) => negb (rendition_better video candidate b) | None => false end then best
  else
    let url := instagramMediaURL (field "url" item) in
    if String.eqb url "" then best else Some (with_url url "" candidate, field "fallback" item).

Definition selectInstagramRendition (values : list json) (video : bool) : option rendition :=
  match fold_left (consider_rendition video) values None with
  | Some (best, fallback) => Some (with_url (rd_url best) (instagramMediaURL fallback) best)
  | None => None
  end.

Record preparedItem := mkPrepared { pi_kind : string; pi_extension : string; pi_contentType : string; pi_selected : rendition; pi_cover : option rendition; pi_duration : Z }.

(** Towards positive infinity, of a positive number. *)
Definition float_ceil (f : float) : Z :=
  match f with Finite false m e => if 0 <=? e then m * 2 ^ e else - ((- m) / 2 ^ (- e)) | _ => 0 end.

Definition sized (media : object) (r : rendition) : rendition :=
  mkRendition (rd_url r) (rd_fallback r) (if rd_width r =? 0 then Z.max 0 (integer (field "original_width" media)) else rd_width r)
    (if rd_height r =? 0 then Z.max 0 (integer (field "original_height" media)) else rd_height r) (rd_bandwidth r) (rd_format r).

Context (cfg_MaxVideoDuration cfg_CacheTTL : Z).

Definition prepareInstagramItem (media : object) : res goerr preparedItem :=
  let image := selectInstagramRendition (arr (field "candidates" (obj (field "image_versions2" media)))) false in
  let kind := integer (field "media_type" media) in
  if kind =? 1 then
    match image with
    | None => Err (Upstream_ "Instagram photo has no image candidates")
    | Some i => Ok (mkPrepared "image" "jpg" "" (sized media i) image 0)
    end
  else if kind =? 2 then
    match selectInstagramRendition (arr (field "video_versions" media)) true with
    | None => Err (Upstream_ "Instagram video has no progressive MP4 rendition")
    | Some v =>
        let seconds := decimal (field "video_duration" media) in
        if (0 <? cfg_MaxVideoDuration) && (float_rank (float_of_int cfg_MaxVideoDuration) <? float_rank seconds)
        then Err (ErrCore (NewError "content_too_long" "Instagram video exceeds MAX_VIDEO_DURATION" 413))
        else
          let duration := if (0 <? float_rank seconds) && (float_rank seconds <? float_rank (float_of_int 2147483647)) then float_ceil seconds else 0 in
          Ok (mkPrepared "video" "mp4" "video/mp4" (sized media v) image duration)
    end
  else Err (Upstream_ "Instagram response contains an unsupported media type").

Fixpoint prepare_all (children : list json) : res goerr (list preparedItem) :=
  match children with
  | [] => Ok []
  | child :: children =>
      match prepareInstagramItem (obj (Some child)) with
      | Err e => Err e
      | Ok item => match prepare_all children with Ok items => Ok (item :: items) | Err e => Err e end
      end
  end.

(** ** The extraction *)

Record InstagramMedia := mkInstagramMedia {
  im_Position : Z; im_MediaType : string; im_Quality : option string; im_Width : option Z; im_Height : option Z; im_DurationSeconds : option Z;
  im_Asset : registration; im_Thumbnail : option registration;
}.
Record InstagramExtraction := mkInstagram {
  ie_ExtractionID : string; ie_Method : string; ie_SourceID : string; ie_SourceURL : string; ie_ResolvedURL : string; ie_CreatorUsername : option string;
  ie_ContentType : string; ie_Cover : option registration; ie_Width : option Z; ie_Height : option Z; ie_DurationSeconds : option Z;
  ie_Likes : option Z; ie_Views : option Z; ie_Comments : option Z; ie_Music : option MusicMetadata; ie_Caption : option string;
  ie_CreatedAt : option Z; ie_Eligible : option bool; ie_Media : list InstagramMedia; ie_ExpiresAt : Z;
}.

Definition instagramCreator (data : object) : option string :=
  head (omap (fun v => match is_string v with Some s => nonempty (TrimSpace s) | None => None end)
    [field "username" data; field "username" (obj (field "owner" data)); field "username" (obj (field "author" data)); field "username" (obj (field "user" data))]).

Definition register_rendition (base : AssetContext) (expires : Z) (r : rendition) (kind filename contentType : string) (duration position : Z) : registration :=
  let alternates := if negb (String.eqb (rd_fallback r) "") && negb (String.eqb (rd_fallback r) (rd_url r)) then [rd_fallback r] else [] in
  mkRegistration (asset_of base kind filename contentType duration (rd_url r) alternates) position expires.

Definition media_item (base : AssetContext) (expires : Z) (shortcode : string) (carousel : bool) (position : nat) (p : preparedItem) : InstagramMedia :=
  let stem := if carousel then shortcode +:+ "_" +:+ Itoa (Z.of_nat position + 1) else shortcode in
  let w := positive (rd_width (pi_selected p)) in
  let h := positive (rd_height (pi_selected p)) in
  mkInstagramMedia (Z.of_nat position) (pi_kind p) (match w, h with Some w, Some h => Some (Itoa w +:+ "x" +:+ Itoa h) | _, _ => None end) w h (positive (pi_duration p))
    (register_rendition base expires (pi_selected p) (pi_kind p) (stem +:+ "." +:+ pi_extension p) (pi_contentType p) (pi_duration p) (Z.of_nat position))
    ((fun c => register_rendition base expires c "thumbnail" (stem +:+ "_thumbnail.jpg") "" 0 (Z.of_nat position)) <$> pi_cover p).

Definition instagramMusic (media : object) (base : AssetContext) (shortcode : string) (expires : Z) : option MusicMetadata :=
  let clips := obj (field "clips_metadata" media) in
  let music := obj (field "music_asset_info" (obj (field "music_info" clips))) in
  let original := match music with [] => true | _ => false end in
  let music := if original then obj (field "original_sound_info" clips) else music in
  match music with
  | [] => None
  | _ =>
      let title := if original then str (field "original_audio_title" music) else str (field "title" music) in
      let author := if original then str (field "username" (obj (field "ig_artist" music))) else str (field "display_artist" music) in
      let url := instagramMediaURL (first [field "cover_artwork_uri" music; field "cover_artwork_thumbnail_uri" music]) in
      let cover := if String.eqb url "" then None
                   else Some (mkRegistration (asset_of base "cover" (shortcode +:+ "_music_cover.jpg") (as_ContentType base) (as_DurationSeconds base) url (as_AlternateURLs base)) 0 expires) in
      Some (mkMusic title author (Z.max 0 (Z.quot (integer (field "duration_in_ms" music)) 1000)) cover None)
  end.

Definition incomplete : goerr := Upstream_ "Instagram carousel response is incomplete".

Definition normalizeApp (media : object) (identityID normalized shortcode raw extraction : string) (now : Z) : res goerr InstagramExtraction :=
  let carousel := (integer (field "media_type" media) =? 8) || negb (is_nil (field "carousel_media" media)) in
  let children := if carousel then arr (field "carousel_media" media) else [JObj media] in
  if carousel && (match children with [] => true | _ => false end ||
                  negb (is_nil (field "carousel_media_count" media)) && negb (integer (field "carousel_media_count" media) =? Z.of_nat (length children)))
  then Err incomplete
  else
    match prepare_all children with
    | Err e => Err e
    | Ok [] => Err (ErrOther "index out of range")          (* children is never empty here *)
    | Ok (p0 :: ps) =>
        let expires := now + cfg_CacheTTL in
        let base := mkAsset "instagram" "" "" "" [] "" "" [] identityID 0 extraction in
        let items := imap (media_item base expires shortcode carousel) (p0 :: ps) in
        let item0 := media_item base expires shortcode carousel 0 p0 in
        let cover := (fun c => register_rendition base expires c "cover" (shortcode +:+ "_cover.jpg") "" 0 0) <$> pi_cover p0 in
        let timestamp := number (field "taken_at" media) in
        Ok (mkInstagram extraction "app" shortcode raw normalized (instagramCreator media) (if carousel then "carousel" else pi_kind p0) cover
              (if carousel then None else im_Width item0) (if carousel then None else im_Height item0) (if carousel then None else im_DurationSeconds item0)
              (numeric (field "like_count" media)) (numeric (first [field "play_count" media; field "ig_play_count" media; field "view_count" media]))
              (numeric (field "comment_count" media)) (instagramMusic media base shortcode expires)
              (nonempty (str (first [field "text" (obj (field "caption" media)); field "caption" media])))
              (if (0 <? timestamp) && (timestamp <=? 253402300799) then Some timestamp else None)
              (match field "is_third_party_downloads_eligible" media with Some (JBool b) => Some b | _ => None end) items expires)
    end.

(** [app] is the backend's answer to [Detail], where there is a backend. *)
Definition extractApp (app : option (string -> res goerr AppDetail)) (ctxErr : option goerr) (normalized shortcode raw extraction : string) (now : Z) : res goerr InstagramExtraction :=
  if contains "/stories/" (lower_text normalized) then Err (invalid_link "Instagram app extraction requires a canonical post or Reel URL")
  else
    match instagramMediaID shortcode, app with
    | Err e, _ => Err e
    | Ok _, None => Err (ErrCore (NewError "service_not_configured" "Instagram accounts are not configured" 503))
    | Ok mediaID, Some detail =>
        match detail mediaID, ctxErr with
        | Err e, _ => Err e
        | Ok _, Some e => Err e
        | Ok d, None =>
            if negb (str_has_prefix (ad_IdentityID d) "instagram:") || (String.length (ad_IdentityID d) =? 10)%nat
            then Err (Upstream_ "Instagram app did not provide an account route")
            else
              match instagramAppMedia (ad_Response d) mediaID shortcode with
              | None => Err (Upstream_ "Instagram app did not return the requested post")
              | Some media => normalizeApp media (ad_IdentityID d) normalized shortcode raw extraction now
              end
        end
    end.
End Post.

(** ** Addresses *)

(** A text with the characters that fold to a letter of ASCII folded: beside
    the capitals these are the long s (C5 BF) and the Kelvin sign (E2 84 AA). *)
Fixpoint fold_text (s : string) : string :=
  match s with
  | EmptyString => EmptyString
  | String a s1 =>
      match s1 with
      | String b s2 =>
          if ((N_of_ascii a =? 0xC5) && (N_of_ascii b =? 0xBF))%N then String "s" (fold_text s2)
          else
            match s2 with
            | String c s3 =>
                if ((N_of_ascii a =? 0xE2) && (N_of_ascii b =? 0x84) && (N_of_ascii c =? 0xAA))%N then String "k" (fold_text s3)
                else String (lower_ascii a) (fold_text s1)
            | EmptyString => String (lower_ascii a) (fold_text s1)
            end
      | EmptyString => String (lower_ascii a) EmptyString
      end
  end.
(** [strings.EqualFold], where [t] is in lower case. *)
Definition EqualFold (s t : string) : bool := String.eqb (fold_text s) t.

(** The expression ignores case: it is matched in lower case with the folded text. *)
Definition code_class : re := alts [range "a" "z"; range "0" "9"; one_of "_-"].
Definition name_class : re := alts [range "a" "z"; range "0" "9"; one_of "_.-"].
Definition instagramPath : re :=
  cats [Begin; lit "/";
        alts [cats [alts [lit "p"; cats [lit "reel"; opt (lit "s")]; lit "tv"]; lit "/"; plus code_class];
              cats [lit "stories/"; plus name_class; opt (cats [lit "/"; plus (range "0" "9")])]];
        opt (lit "/"); End_].

Definition slash : ascii := "/".
Definition Trim_slashes (s : string) : string := trim_right (Ascii.eqb slash) (trim_left (Ascii.eqb slash) s).

Section Address.
Context (Parse : string -> option URL) (ur_User : URL -> bool) (EscapedPath : URL -> string).

Definition normalizeInstagram (raw : string) : res goerr (string * string) :=
  match Parse (TrimSpace raw) with
  | None => Err (invalid_link "Invalid Instagram URL")
  | Some u =>
      let host := lower_host u in
      if negb (String.eqb (ur_Scheme u) "https") || negb (String.eqb host "instagram.com") && negb (String.eqb host "www.instagram.com") || ur_User u
      then Err (invalid_link "Only HTTPS Instagram URLs are accepted")
      else if negb (MatchString instagramPath (fold_text (ur_Path u))) then Err (invalid_link "Unsupported Instagram URL")
      else
        let parts := split_byte slash (Trim_slashes (ur_Path u)) in
        match parts !! 1%nat with
        | None => Err (ErrOther "index out of range")        (* the path matched has two parts *)
        | Some second =>
            let id := if EqualFold (default "" (head parts)) "stories" && (2 <? length parts)%nat then default "" (parts !! 2%nat) else second in
            Ok ("https://www.instagram.com" +:+ TrimRightByte slash (EscapedPath u) +:+ "/", id)
        end
  end.
End Address.

(** ** The legacy service *)

Definition instagramHost : string := "instagram-downloader-download-instagram-stories-videos4.p.rapidapi.com".

(** [url.QueryEscape] *)
Definition hex_upper (n : N) : ascii := ascii_of_N (if n <? 10 then 48 + n else 55 + n)%N.
Definition unreserved (a : ascii) : bool := is_word a || existsb (Ascii.eqb a) ["-"; "."; "~"]%char.
Fixpoint QueryEscape (s : string) : string :=
  match s with
  | EmptyString => EmptyString
  | String a s =>
      if unreserved a then String a (QueryEscape s)
      else if Ascii.eqb a " " then String "+" (QueryEscape s)
      else String "%" (String (hex_upper (N_of_ascii a / 16)) (String (hex_upper (N_of_ascii a mod 16)) (QueryEscape s)))
  end.

Definition legacy_host (cfg_RapidAPIHost : string) : string := if String.eqb cfg_RapidAPIHost "" then instagramHost else cfg_RapidAPIHost.
Definition legacy_request (cfg_RapidAPIHost cfg_RapidAPIBaseURL source : string) : string :=
  let base := if String.eqb cfg_RapidAPIBaseURL "" then "https://" +:+ legacy_host cfg_RapidAPIHost else cfg_RapidAPIBaseURL in
  TrimRightByte slash base +:+ "/convert?url=" +:+ QueryEscape source.

(** The answer to one request: the limiter, the transport, or a status with
    Retry-After and the body as it was read. *)
Inductive legacy_answer :=
| LGate (e : goerr)
| LRefused (e : goerr)
| LFailed (ctxErr : option goerr) (e : goerr)
| LReply (status : Z) (retryAfter : string) (ctxErr : option goerr) (body : res goerr bytes).

Definition Second_ : Z := 1000000000.
Definition legacy_delay (cfg_InstagramRetryDelay : Z) (attempt : nat) (a : legacy_answer) : Z :=
  let delay := i64 (cfg_InstagramRetryDelay * 2 ^ Z.of_nat attempt) in
  match a with
  | LReply 429 retryAfter _ _ =>
      let delay := Z.max delay Second_ in
      let seconds := integer (Some (JStr retryAfter)) in
      if 0 <? seconds then Z.max delay (i64 (seconds * Second_)) else delay
  | _ => delay
  end.

(** What one attempt ends with: an answer for good, or the error to report if
    no attempt is left. *)
Definition legacy_attempt (a : legacy_answer) : (res goerr object) + goerr :=
  match a with
  | LGate e | LRefused e => inl (Err e)
  | LFailed ctxErr e | LReply _ _ ctxErr (Err e) => inr (networkError ctxErr e)
  | LReply status _ _ (Ok body) =>
      if status =? 200 then
        match decode body with
        | Some payload => inl (Ok payload)
        | None => inl (Err (Upstream_ "Instagram API returned an invalid payload"))
        end
      else
        let last := statusError status "Instagram API" in
        if retryable last then inr last else inl (Err last)
  end.

Section Legacy.
Context (cfg_InstagramRetryDelay : Z) (answers : nat -> legacy_answer) (sleep : nat -> option goerr).

(** With the waits it makes. *)
Fixpoint fetch_loop (left_ attempt : nat) (last : option goerr) : res (option goerr) object * list Z :=
  match left_ with
  | O => (Err last, [])
  | S left_ =>
      match legacy_attempt (answers attempt) with
      | inl (Ok payload) => (Ok payload, [])
      | inl (Err e) => (Err (Some e), [])
      | inr e =>
          match left_ with
          | O => (Err (Some e), [])
          | _ =>
              let delay := Z.min (legacy_delay cfg_InstagramRetryDelay attempt (answers attempt)) (5 * Second_) in
              match sleep attempt with
              | Some e' => (Err (Some e'), [delay])
              | None => let '(r, delays) := fetch_loop left_ (S attempt) (Some e) in (r, delay :: delays)
              end
          end
      end
  end.

Definition fetch (cfg_RapidAPIKey : string) (cfg_InstagramMaxAttempts : Z) : res (option goerr) object * list Z :=
  if String.eqb cfg_RapidAPIKey "" then (Err (Some (Upstream_ "RAPIDAPI_KEY is not configured")), [])
  else fetch_loop (Z.to_nat (Z.max 1 cfg_InstagramMaxAttempts)) 0 None.
End Legacy.

Definition legacy_usable (data : object) : list object :=
  filter (fun media => str (field "url" media) <> ""%string) (map (fun v => obj (Some v)) (arr (field "media" data))).

Definition legacy_item (extraction id : string) (expires : Z) (several : bool) (p : nat) (media : object) : InstagramMedia :=
  let '(kind, ext, mime) := if String.eqb (str (field "type" media)) "video" then ("video", "mp4", "video/mp4")%string else ("image", "jpg", "")%string in
  let stem := if several then id +:+ "_" +:+ Itoa (Z.of_nat p + 1) else id in
  let asset kind filename mime url := mkRegistration (mkAsset "instagram" kind filename url [] mime "" [] "" 0 extraction) (Z.of_nat p) expires in
  mkInstagramMedia (Z.of_nat p) kind (nonempty (str (field "quality" media))) None None None (asset kind (stem +:+ "." +:+ ext) mime (str (field "url" media)))
    (let u := str (field "thumbnail" media) in if String.eqb u "" then None else Some (asset "thumbnail" (stem +:+ "_thumbnail.jpg") "" u)%string).

Definition extractLegacy (cfg_CacheTTL now : Z) (extraction normalized id raw : string) (data : object) : res goerr InstagramExtraction :=
  let expires := now + cfg_CacheTTL in
  let usable := legacy_usable data in
  match imap (legacy_item extraction id expires (1 <? length usable)%nat) usable with
  | [] => Err (ErrCore (NewError "content_deleted" "Instagram response contained no usable media" 404))
  | item :: items =>
      Ok (mkInstagram extraction "legacy" id raw normalized (instagramCreator data) (match items with [] => im_MediaType item | _ => "carousel" end)
            None None None None None None None None None None None (item :: items) expires)
  end.

(** ** One address *)

Definition policyFailure (e : goerr) : bool :=
  match as_core e with
  | Some failure => String.eqb (Code failure) "content_too_long" || String.eqb (Code failure) "instagram_database_unavailable"
  | None => false
  end.

(** A run through the recorder of attempts, where there is one: the recorder is
    given the outcome of the run. *)
Definition attempt (recorder : option (string -> bool -> res goerr InstagramExtraction -> res goerr InstagramExtraction)) (id : string)
    (legacy_run app_run : res goerr InstagramExtraction) (legacy : bool) : res goerr InstagramExtraction :=
  let run := if legacy then legacy_run else app_run in
  match recorder with Some record => record id legacy run | None => run end.

Definition GetExtraction (ctxErr : option goerr) (held : string -> option InstagramExtraction) (id : string) : res goerr InstagramExtraction :=
  match ctxErr, held id with
  | Some e, _ => Err e
  | None, Some response => Ok response
  | None, None => Err (ErrCore MissingExtraction)
  end.

Section Extract.
Context (cfg_InstagramMethod : string) (cfg_InstagramLegacyFallback : bool).

Definition post_key (normalized id : string) : string :=
  if negb (String.eqb cfg_InstagramMethod "legacy") && negb (contains "/stories/" (lower_text normalized)) then "post:" +:+ id else normalized.

(** The computation behind the key: [attempt legacy] is the outcome of a method
    with its recorder, [ctxErr] the context's error after the app failed.  With
    the methods tried, in order. *)
Definition load (ctxErr : option goerr) (attempt : bool -> res goerr InstagramExtraction) : res goerr InstagramExtraction * list bool :=
  if String.eqb cfg_InstagramMethod "legacy" then (attempt true, [true])
  else
    match attempt false with
    | Ok r => (Ok r, [false])
    | Err e =>
        if cfg_InstagramLegacyFallback && match ctxErr with None => true | Some _ => false end && negb (policyFailure e) && negb (is_canceled e) && negb (is_deadline e)
        then (attempt true, [false; true])
        else (Err e, [false])
    end.

(** What [load] keeps for GetExtraction. *)
Definition kept (r : res goerr InstagramExtraction) : option (string * InstagramExtraction) :=
  match r with Ok result => Some (ie_ExtractionID result, result) | Err _ => None end.

Definition relabel (raw normalized : string) (r : InstagramExtraction) : InstagramExtraction :=
  mkInstagram (ie_ExtractionID r) (ie_Method r) (ie_SourceID r) raw normalized (ie_CreatorUsername r) (ie_ContentType r) (ie_Cover r) (ie_Width r) (ie_Height r)
    (ie_DurationSeconds r) (ie_Likes r) (ie_Views r) (ie_Comments r) (ie_Music r) (ie_Caption r) (ie_CreatedAt r) (ie_Eligible r) (ie_Media r) (ie_ExpiresAt r).

(** [posts] is the memo's [do]: its answer under a key, where [load] is what
    this call would compute. *)
Definition ExtractURL (normalize : string -> res goerr (string * string)) (posts : string -> bool -> res goerr InstagramExtraction -> res goerr InstagramExtraction)
    (loaded : string -> string -> res goerr InstagramExtraction) (raw : string) (refresh : bool) : res goerr InstagramExtraction :=
  match normalize raw with
  | Err e => Err e
  | Ok (normalized, id) =>
      match posts (post_key normalized id) refresh (loaded normalized id) with
      | Ok response => Ok (relabel raw normalized response)
      | Err e => Err e
      end
  end.

(** [backend]: whether there is one, and what its [Ready] or its [Count] answers. *)
Definition Ready (cfg_RapidAPIKey : string) (backend : option (bool + Z)) : bool :=
  let legacy := negb (String.eqb (TrimSpace cfg_RapidAPIKey) "") in
  if String.eqb cfg_InstagramMethod "legacy" then legacy
  else
    let ready := match backend with None => false | Some (inl r) => r | Some (inr n) => 0 <? n end in
    ready || cfg_InstagramLegacyFallback && legacy.
End Extract.

(** ** The rendition chosen *)

Section Facts.
Context (Parse : string -> option URL) (ur_User : URL -> bool).

Lemma mediaURL_spec v url : instagramMediaURL Parse ur_User v = url -> url <> ""%string ->
  exists u, v = Some (JStr url) /\ Parse url = Some u /\ ur_Scheme u = "https"%string /\ Hostname u <> ""%string /\ ur_User u = false.
Proof.
  unfold instagramMediaURL, is_string. intros <- Hne. destruct v as [[| | |raw| |]|]; try done.
  destruct (Parse raw) as [u|] eqn:Eu; [|done].
  destruct (String.eqb_spec (ur_Scheme u) "https"), (String.eqb_spec (Hostname u) ""), (ur_User u) eqn:Eus; cbn [negb orb] in *; try done. by exists u.
Qed.

(** Every rendition with an address that can be used, with its fallback parsed. *)
Definition usable_rendition (v : json) : option rendition :=
  let item := obj (Some v) in
  let url := instagramMediaURL Parse ur_User (field "url" item) in
  if String.eqb url "" then None else Some (with_url url (instagramMediaURL Parse ur_User (field "fallback" item)) (candidate_of v)).

Definition parsed (r : rendition * value) : rendition := with_url (rd_url r.1) (instagramMediaURL Parse ur_User r.2) r.1.

Definition better_of (video : bool) (best : option rendition) (c : rendition) : option rendition :=
  match best with Some b => if rendition_better video c b then Some c else best | None => Some c end.

(** Skipping the addresses of renditions that cannot win changes nothing. *)
Lemma lazy_step video best v : parsed <$> consider_rendition Parse ur_User video best v =
  match usable_rendition v with Some c => better_of video (parsed <$> best) c | None => parsed <$> best end.
Proof.
  unfold consider_rendition, usable_rendition. cbv zeta. set (item := obj (Some v)). set (url := instagramMediaURL _ _ (field "url" item)).
  destruct best as [[b f]|]; cbn [fmap option_fmap option_map better_of].
  - assert (forall fb, rendition_better video (with_url url fb (candidate_of v)) (parsed (b, f)) = rendition_better video (candidate_of v) b) as E by done.
    destruct (rendition_better video (candidate_of v) b); cbn [negb]; destruct (String.eqb url ""); cbn [fmap option_fmap option_map better_of]; rewrite ?E; done.
  - by destruct (String.eqb url "").
Qed.

Lemma select_eager values video :
  selectInstagramRendition Parse ur_User values video = fold_left (better_of video) (omap usable_rendition values) None.
Proof.
  unfold selectInstagramRendition.
  replace (match fold_left _ values None with Some (best, fallback) => _ | None => None end)
    with (parsed <$> fold_left (consider_rendition Parse ur_User video) values None) by (by destruct (fold_left _ values None) as [[b f]|]).
  change (@None rendition) with (parsed <$> (None : option (rendition * value))). generalize (None : option (rendition * value)) as best.
  induction values as [|v values IH]; intros best; cbn [fold_left omap list_omap]; [done|].
  rewrite IH, lazy_step. by destruct (usable_rendition v).
Qed.

(** [r] is the first of the best of [l]. *)
Definition first_of_best (video : bool) (l : list rendition) (r : rendition) : Prop := exists pre post,
  l = pre ++ r :: post /\ Forall (fun c => rendition_better video r c = true) pre /\ Forall (fun c => rendition_better video c r = false) post.

Ltac weigh := unfold rendition_better; intros; repeat match goal with
  | v : bool |- _ => destruct v; cbn [andb] in *
  | H : context [if ?a =? ?b then _ else _] |- _ => destruct (Z.eqb_spec a b)
  | |- context [if ?a =? ?b then _ else _] => destruct (Z.eqb_spec a b)
  end; rewrite ?orb_true_iff, ?orb_false_iff, ?andb_true_iff, ?andb_false_iff, ?Z.ltb_lt, ?Z.ltb_ge, ?Z.eqb_eq, ?Z.eqb_neq in *; lia.

Lemma rendition_trans video u v w : rendition_better video u v = true -> rendition_better video v w = true -> rendition_better video u w = true.
Proof. weigh. Qed.
Lemma rendition_above video u v w : rendition_better video u v = true -> rendition_better video w v = false -> rendition_better video u w = true.
Proof. weigh. Qed.
Lemma rendition_asym video u v : rendition_better video u v = true -> rendition_better video v u = false.
Proof. weigh. Qed.

Definition best_of (video : bool) (l : list rendition) (best : option rendition) : Prop :=
  match best with None => l = [] | Some r => first_of_best video l r end.

Lemma better_best video l best c : best_of video l best -> best_of video (l ++ [c]) (better_of video best c).
Proof.
  destruct best as [r|]; cbn [best_of better_of]; [|intros ->; exists [], []; done].
  intros (pre & post & -> & Hpre & Hpost). destruct (rendition_better video c r) eqn:Eb; cbn [best_of].
  - exists (pre ++ r :: post), []. split; [by rewrite <- app_assoc|]. split; [|done]. apply Forall_app. split; [|constructor; [done|]].
    + eapply Forall_impl; [exact Hpre|]. intros x Hx. exact (rendition_trans _ _ _ _ Eb Hx).
    + eapply Forall_impl; [exact Hpost|]. intros x Hx. exact (rendition_above _ _ _ _ Eb Hx).
  - exists pre, (post ++ [c]). split; [by rewrite <- app_assoc|]. split; [done|]. apply Forall_app. split; [done|by constructor].
Qed.

Lemma select_best values video : best_of video (omap usable_rendition values) (selectInstagramRendition Parse ur_User values video).
Proof.
  rewrite select_eager. generalize (omap usable_rendition values) as cs. intros cs.
  assert (forall l best, best_of video l best -> best_of video (l ++ cs) (fold_left (better_of video) cs best)) as H; [|by apply (H [] None)].
  induction cs as [|c cs IH]; intros l best H; cbn [fold_left]; [by rewrite app_nil_r|].
  change (c :: cs) with ([c] ++ cs). rewrite app_assoc. by apply IH, better_best.
Qed.

(** ** The post *)

(** An https address of a host, without credentials. *)
Definition safe_url (url : string) : Prop :=
  exists u, Parse url = Some u /\ ur_Scheme u = "https"%string /\ Hostname u <> ""%string /\ ur_User u = false.

Definition safe_rendition (r : rendition) : Prop := safe_url (rd_url r) /\ (rd_fallback r = ""%string \/ safe_url (rd_fallback r)).

Lemma mediaURL_safe v : instagramMediaURL Parse ur_User v = ""%string \/ safe_url (instagramMediaURL Parse ur_User v).
Proof.
  destruct (String.eqb_spec (instagramMediaURL Parse ur_User v) "") as [|Hne]; [by left|right].
  destruct (mediaURL_spec v _ eq_refl Hne) as (u & _ & Hu). by exists u.
Qed.

Lemma select_safe values video r : selectInstagramRendition Parse ur_User values video = Some r -> safe_rendition r.
Proof.
  intros E. pose proof (select_best values video) as H. rewrite E in H. destruct H as (pre & post & Hl & _ & _).
  assert (r ∈ omap usable_rendition values) as Hr by (rewrite Hl; set_solver).
  apply list_elem_of_omap in Hr as (v & _ & Hv). unfold usable_rendition in Hv. cbv zeta in Hv.
  destruct (String.eqb_spec (instagramMediaURL Parse ur_User (field "url" (obj (Some v)))) "") as [|Hne]; [done|]. injection Hv as <-.
  split; [|apply mediaURL_safe]. by destruct (mediaURL_safe (field "url" (obj (Some v)))).
Qed.

Definition safe_item (p : preparedItem) : Prop := safe_rendition (pi_selected p) /\ from_option safe_rendition True (pi_cover p).
Definition registered (base : AssetContext) (expires : Z) (rg : registration) : Prop :=
  as_Platform (rg_asset rg) = as_Platform base /\ as_IdentityID (rg_asset rg) = as_IdentityID base /\ as_ExtractionID (rg_asset rg) = as_ExtractionID base /\
  rg_expires rg = expires /\ Forall safe_url (as_UpstreamURL (rg_asset rg) :: as_AlternateURLs (rg_asset rg)).

Section Preparation.
Context (cfg_MaxVideoDuration cfg_CacheTTL : Z).

Lemma prepare_safe media p : prepareInstagramItem Parse ur_User cfg_MaxVideoDuration media = Ok p ->
  safe_item p /\ (pi_kind p = "image"%string \/ pi_kind p = "video"%string).
Proof.
  unfold prepareInstagramItem. destruct (selectInstagramRendition _ _ (arr (field "candidates" _)) false) as [i|] eqn:Ei;
    [apply select_safe in Ei|]; (destruct (_ =? 1); [|destruct (_ =? 2)]); try done.
  - intros [= <-]. split; [by split|by left].
  - destruct (selectInstagramRendition _ _ _ true) as [v|] eqn:Ev; [|done]. apply select_safe in Ev.
    destruct (_ && _); [done|]. intros [= <-]. split; [by split|by right].
  - destruct (selectInstagramRendition _ _ _ true) as [v|] eqn:Ev; [|done]. apply select_safe in Ev.
    destruct (_ && _); [done|]. intros [= <-]. split; [by split|by right].
Qed.

Lemma prepare_all_ok children items : prepare_all Parse ur_User cfg_MaxVideoDuration children = Ok items ->
  Forall2 (fun child item => prepareInstagramItem Parse ur_User cfg_MaxVideoDuration (obj (Some child)) = Ok item) children items.
Proof.
  revert items. induction children as [|c children IH]; intros items; cbn [prepare_all]; [intros [= <-]; constructor|].
  destruct (prepareInstagramItem _ _ _ _) eqn:E; [|done]. destruct (prepare_all _ _ _ children) as [l|]; [|done]. intros [= <-].
  constructor; [done|by apply IH].
Qed.

Lemma register_safe base expires r kind name mime d p : safe_rendition r -> registered base expires (register_rendition base expires r kind name mime d p).
Proof.
  intros [Hu Hf]. split_and!; try done. cbn. constructor; [done|]. destruct (String.eqb_spec (rd_fallback r) ""); [constructor|].
  destruct (String.eqb (rd_fallback r) (rd_url r)); cbn; [constructor|]. constructor; [|constructor]. by destruct Hf.
Qed.

Definition registrations (r : InstagramExtraction) : list registration :=
  concat (map (fun m => im_Asset m :: option_list (im_Thumbnail m)) (ie_Media r)) ++ option_list (ie_Cover r) ++
  match ie_Music r with Some m => option_list (mu_Cover m) ++ option_list (mu_Audio m) | None => [] end.

(** The parts of a post: its own media, or those of the carousel. *)
Definition is_carousel (media : object) : bool := (integer (field "media_type" media) =? 8) || negb (is_nil (field "carousel_media" media)).
Definition parts_of (media : object) : list json := if is_carousel media then arr (field "carousel_media" media) else [JObj media].

Lemma item_registered base expires code carousel i p : safe_item p ->
  Forall (registered base expires) (im_Asset (media_item base expires code carousel i p) :: option_list (im_Thumbnail (media_item base expires code carousel i p))).
Proof.
  intros [Hs Hc]. constructor; [by apply register_safe|]. unfold media_item. cbv zeta. cbn [im_Thumbnail].
  destruct (pi_cover p); cbn; [constructor; [by apply register_safe|done]|constructor].
Qed.

Lemma items_registered base expires code carousel items : Forall safe_item items ->
  Forall (registered base expires) (concat (map (fun m => im_Asset m :: option_list (im_Thumbnail m)) (imap (media_item base expires code carousel) items))).
Proof.
  intros H. apply Forall_forall. intros rg Hr. apply list_elem_of_In, in_concat in Hr as (l & Hl & Hr). apply in_map_iff in Hl as (m & <- & Hm).
  apply list_elem_of_In, elem_of_lookup_imap in Hm as (i & p & -> & Hp). rewrite Forall_forall in H.
  pose proof (item_registered base expires code carousel i p (H p (list_elem_of_lookup_2 _ _ _ Hp))) as HF. rewrite Forall_forall in HF.
  by apply HF, list_elem_of_In.
Qed.

Lemma music_registered media base code expires m : instagramMusic Parse ur_User media base code expires = Some m -> as_AlternateURLs base = [] ->
  Forall (registered base expires) (option_list (mu_Cover m) ++ option_list (mu_Audio m)).
Proof.
  unfold instagramMusic. intros H Hb.
  set (music := if _ : bool then obj _ else _) in H. destruct music as [|kv music]; [done|]. set (m0 := kv :: music) in H.
  pose proof (mediaURL_safe (first [field "cover_artwork_uri" m0; field "cover_artwork_thumbnail_uri" m0])) as Hu. cbv zeta in H.
  revert H Hu. generalize (instagramMediaURL Parse ur_User (first [field "cover_artwork_uri" m0; field "cover_artwork_thumbnail_uri" m0])) as url.
  intros url [= <-] Hu. cbn [mu_Cover mu_Audio]. destruct (String.eqb_spec url ""); [constructor|]. destruct Hu as [|Hu]; [done|].
  cbn. constructor; [|constructor]. split_and!; try done. cbn. rewrite Hb. by constructor.
Qed.
Record post_ok (media : object) (identity raw normalized code extraction : string) (now : Z) (r : InstagramExtraction) : Prop := {
  po_names : (ie_Method r, ie_SourceID r, ie_SourceURL r, ie_ResolvedURL r, ie_ExtractionID r, ie_ExpiresAt r) = ("app"%string, code, raw, normalized, extraction, now + cfg_CacheTTL);
  po_assets : Forall (registered (mkAsset "instagram" "" "" "" [] "" "" [] identity 0 extraction) (now + cfg_CacheTTL)) (registrations r);
  po_complete : Forall2 (fun part m => exists p, prepareInstagramItem Parse ur_User cfg_MaxVideoDuration (obj (Some part)) = Ok p /\
    im_MediaType m = pi_kind p /\ as_UpstreamURL (rg_asset (im_Asset m)) = rd_url (pi_selected p)) (parts_of media) (ie_Media r);
  po_positions : map im_Position (ie_Media r) = map Z.of_nat (seq 0 (length (parts_of media)));
  po_declared : parts_of media <> [] /\ (is_carousel media = true -> is_nil (field "carousel_media_count" media) = false ->
    integer (field "carousel_media_count" media) = Z.of_nat (length (parts_of media)));
}.

Lemma imap_positions base expires code carousel items :
  map im_Position (imap (media_item base expires code carousel) items) = map Z.of_nat (seq 0 (length items)).
Proof.
  change (im_Position <$> imap (media_item base expires code carousel) items = Z.of_nat <$> seq 0 (length items)).
  apply list_eq. intros i. rewrite !list_lookup_fmap, list_lookup_imap. destruct (decide (i < length items)%nat) as [Hi|Hi].
  - rewrite lookup_seq_lt by done. destruct (lookup_lt_is_Some_2 items i Hi) as [p ->]. done.
  - rewrite lookup_seq_ge by lia. by rewrite lookup_ge_None_2 by lia.
Qed.

Lemma normalizeApp_ok media identity normalized code raw extraction now r :
  normalizeApp Parse ur_User cfg_MaxVideoDuration cfg_CacheTTL media identity normalized code raw extraction now = Ok r ->
  post_ok media identity raw normalized code extraction now r.
Proof.
  unfold normalizeApp. cbv zeta. fold (is_carousel media). fold (parts_of media). set (carousel := is_carousel media).
  destruct (carousel && _) eqn:Ec; [done|].
  destruct (prepare_all _ _ _ (parts_of media)) as [[|p0 ps]|] eqn:Ep; try done. apply prepare_all_ok in Ep.
  set (base := mkAsset _ _ _ _ _ _ _ _ _ _ _). set (expires := now + cfg_CacheTTL). intros [= <-].
  assert (Forall safe_item (p0 :: ps)) as Hsafe.
  { apply Forall_forall. intros p Hp. apply list_elem_of_lookup in Hp as [i Hp]. destruct (Forall2_lookup_r _ _ _ _ _ Ep Hp) as (c & _ & Hc). by apply prepare_safe in Hc as [? _]. }
  split; cbn [ie_Method ie_SourceID ie_SourceURL ie_ResolvedURL ie_ExtractionID ie_ExpiresAt ie_Media]; try done.
  - unfold registrations. cbn [ie_Media ie_Cover ie_Music]. apply Forall_app. split; [exact (items_registered base expires code carousel (p0 :: ps) Hsafe)|]. apply Forall_app. split.
    + apply Forall_cons in Hsafe as [[_ H0] _]. destruct (pi_cover p0); cbn; [constructor; [by apply register_safe|constructor]|constructor].
    + destruct (instagramMusic _ _ _ _ _ _) eqn:Em; [|constructor]. by eapply music_registered.
  - change (media_item base expires code carousel 0 p0 :: imap (media_item base expires code carousel ∘ S) ps) with (imap (media_item base expires code carousel) (p0 :: ps)).
    apply Forall2_same_length_lookup_2; [by rewrite length_imap; apply Forall2_length in Ep|]. intros i part m Hpart Hm.
    rewrite list_lookup_imap in Hm. destruct ((p0 :: ps) !! i) as [p|] eqn:Hp; [|done]. cbn [fmap option_fmap option_map] in Hm. injection Hm as <-. exists p. split; [|done].
    by destruct (Forall2_lookup_lr _ _ _ _ _ _ Ep Hpart Hp).
  - rewrite (Forall2_length _ _ _ Ep). exact (imap_positions base expires code carousel (p0 :: ps)).
  - split; [by intros H; rewrite H in Ep; inversion Ep|]. intros Hcar Hn. fold carousel in Hcar. rewrite Hcar, Hn in Ec. cbn [andb negb] in Ec. apply orb_false_iff in Ec as [_ Ec].
    apply negb_false_iff in Ec. by apply Z.eqb_eq in Ec.
Qed.
End Preparation.

Lemma appMedia_in payload mediaID code m : instagramAppMedia payload mediaID code = Some m ->
  matching mediaID code m = true /\ m ∈ map (fun v => obj (Some v)) (arr (field "items" payload) ++ map clip_media (arr (field "clips_items" payload))).
Proof.
  unfold instagramAppMedia. generalize (arr (field "items" payload) ++ map clip_media (arr (field "clips_items" payload))) as l. intros l.
  assert (forall done_ best, from_option (fun m => matching mediaID code m = true /\ m ∈ map (fun v => obj (Some v)) done_) True best ->
    from_option (fun m => matching mediaID code m = true /\ m ∈ map (fun v => obj (Some v)) (done_ ++ l)) True (fold_left (consider_media mediaID code) l best)) as H.
  { induction l as [|v l IH]; intros done_ best H; cbn [fold_left]; [by rewrite app_nil_r|].
    change (v :: l) with ([v] ++ l). rewrite app_assoc. apply IH. unfold consider_media.
    assert (forall b, from_option (fun m => matching mediaID code m = true /\ m ∈ map (fun v => obj (Some v)) done_) True b ->
      from_option (fun m => matching mediaID code m = true /\ m ∈ map (fun v => obj (Some v)) (done_ ++ [v])) True b) as Hk
      by (intros [b|]; cbn; [rewrite map_app; set_solver|done]).
    destruct (matching _ _ (obj (Some v))) eqn:Em; cbn [negb]; [|by apply Hk].
    assert (from_option (fun m => matching mediaID code m = true /\ m ∈ map (fun v => obj (Some v)) (done_ ++ [v])) True (Some (obj (Some v)))) as Hv
      by (cbn; rewrite map_app; set_solver).
    destruct best as [b|]; [|done]. destruct (_ || _); [done|by apply Hk]. }
  intros E. specialize (H [] None I). cbv zeta in H. rewrite E in H. exact H.
Qed.

(** C26. A post extracted through the app comes from the item of the reply whose ID
    is the number its shortcode spells and whose code, if it has one, is the
    shortcode; it is what [normalizeApp] makes complete: one medium for each part of
    a carousel (as many as the reply declares), in order, none without an
    address; and every address it registers, fallbacks, thumbnails and covers
    included, is an https address of a host without credentials, to be fetched
    through the account that answered and to expire with the post. *)
Theorem extractApp_sound (cfg_MaxVideoDuration cfg_CacheTTL : Z) (app : option (string -> res goerr AppDetail)) (ctxErr : option goerr)
    (normalized code raw extraction : string) (now : Z) :
  match extractApp Parse ur_User cfg_MaxVideoDuration cfg_CacheTTL app ctxErr normalized code raw extraction now with
  | Ok r => exists mediaID detail d media,
      instagramMediaID code = Ok mediaID /\ app = Some detail /\ detail mediaID = Ok d /\ str_has_prefix (ad_IdentityID d) "instagram:" = true /\
      instagramAppMedia (ad_Response d) mediaID code = Some media /\ matching mediaID code media = true /\
      post_ok cfg_MaxVideoDuration cfg_CacheTTL media (ad_IdentityID d) raw normalized code extraction now r
  | Err _ => True
  end.
Proof.
  destruct (extractApp _ _ _ _ _ _ _ _ _ _ _) as [r|] eqn:E; [|done]. revert E. unfold extractApp.
  destruct (contains _ _); [done|]. destruct (instagramMediaID code) as [mediaID|]; [|done]. destruct app as [detail|]; [|done].
  destruct (detail mediaID) as [d|] eqn:Ed, ctxErr; try done. destruct (str_has_prefix _ _) eqn:Epre; [|done]. cbn [negb orb].
  destruct (_ =? 10)%nat; [done|]. destruct (instagramAppMedia _ _ _) as [media|] eqn:Em; [|done]. intros Hr%normalizeApp_ok.
  exists mediaID, detail, d, media. split_and!; try done. by apply appMedia_in in Em as [? _].
Qed.

(** The rendition [selectInstagramRendition] chooses without looking at the
    addresses of those that cannot win is the first of the best among all whose
    address is an https address of a host without credentials, ordered by the
    number of pixels and, for videos, bandwidth and format; there is none only if
    no rendition has such an address. *)
Theorem rendition_best (values : list json) (video : bool) :
  match selectInstagramRendition Parse ur_User values video with
  | Some r => first_of_best video (omap usable_rendition values) r
  | None => omap usable_rendition values = []
  end.
Proof. exact (select_best values video). Qed.
End Facts.

(** ** Media IDs and shortcodes *)

Lemma index_of_range c s d : index_of c s = Some d -> 0 <= d < Z.of_nat (String.length s) /\ String.get (Z.to_nat d) s = Some c.
Proof.
  revert d. induction s as [|a s IH]; intros d; cbn [index_of String.length]; [done|]. destruct (Ascii.eqb_spec a c) as [->|]; [intros [= <-]; split; [lia|done]|].
  destruct (index_of c s) as [i|]; [|done]. intros [= <-]. destruct (IH i eq_refl) as [Hi Hg]. split; [lia|].
  replace (Z.to_nat (i + 1)) with (S (Z.to_nat i)) by lia. exact Hg.
Qed.

Lemma code_value_app acc s c : code_value acc (s +:+ String c "") =
  match code_value acc s, index_of c instagramAlphabet with Some v, Some d => Some (v * 64 + d) | _, _ => None end.
Proof.
  revert acc. induction s as [|a s IH]; intros acc.
  - change (""%string +:+ String c "") with (String c ""). cbn [code_value]. rewrite Z.shiftl_mul_pow2 by lia. by destruct (index_of c _).
  - change (String a s +:+ String c "") with (String a (s +:+ String c "")). cbn [code_value]. destruct (index_of a _); [apply IH|done].
Qed.

(** The shortcode of a number, least significant digit first, with [fuel] digits at most. *)
Fixpoint shortcode (fuel : nat) (n : Z) : string :=
  match fuel with
  | O => ""
  | S fuel => if n <=? 0 then "" else shortcode fuel (n / 64) +:+ String (default "A"%char (String.get (Z.to_nat (n mod 64)) instagramAlphabet)) ""
  end.

Lemma shortcode_value fuel n : 0 <= n < 64 ^ Z.of_nat fuel -> code_value 0 (shortcode fuel n) = Some n.
Proof.
  revert n. induction fuel as [|fuel IH]; intros n Hn; [cbn in *; f_equal; lia|]. cbn [shortcode]. destruct (Z.leb_spec n 0); [cbn; f_equal; lia|].
  rewrite code_value_app, IH.
  2:{ replace (Z.of_nat (S fuel)) with (Z.of_nat fuel + 1) in Hn by lia. rewrite Z.pow_add_r in Hn by lia. split; [apply Z.div_pos; lia|apply Z.div_lt_upper_bound; lia]. }
  assert (forallb (fun d => bool_decide (index_of (default "A"%char (String.get d instagramAlphabet)) instagramAlphabet = Some (Z.of_nat d))) (seq 0 64) = true) as Hall by (vm_compute; reflexivity).
  pose proof (Z.mod_pos_bound n 64 ltac:(lia)). rewrite forallb_forall in Hall.
  specialize (Hall (Z.to_nat (n mod 64)) ltac:(apply in_seq; lia)). apply bool_decide_eq_true in Hall. rewrite Hall.
  rewrite Z2Nat.id by lia. f_equal. pose proof (Z.div_mod n 64). lia.
Qed.

Lemma shortcode_app s t : String.length (s +:+ t) = (String.length s + String.length t)%nat.
Proof. induction s as [|a s IH]; [done|]. change (S (String.length (s +:+ t)) = S (String.length s + String.length t)). by rewrite IH. Qed.

Lemma shortcode_length fuel n : (String.length (shortcode fuel n) <= fuel)%nat.
Proof.
  revert n. induction fuel as [|fuel IH]; intros n; cbn [shortcode]; [done|]. destruct (n <=? 0); [cbn; lia|].
  rewrite shortcode_app. specialize (IH (n / 64)). cbn [String.length]. lia.
Qed.

Lemma code_value_acc acc s v : code_value acc s = Some v -> 0 <= acc -> acc * 64 ^ Z.of_nat (String.length s) <= v < (acc + 1) * 64 ^ Z.of_nat (String.length s).
Proof.
  revert acc. induction s as [|c s IH]; intros acc; cbn [code_value String.length]; [intros [= <-]; cbn; lia|].
  destruct (index_of c instagramAlphabet) as [d|] eqn:Ed; [|done]. apply index_of_range in Ed as [Hd _]. change (Z.of_nat (String.length instagramAlphabet)) with 64 in Hd.
  intros H Ha. apply IH in H; [|rewrite Z.shiftl_mul_pow2 by lia; lia]. rewrite Z.shiftl_mul_pow2 in H by lia. change (2 ^ 6) with 64 in H.
  replace (Z.of_nat (S (String.length s))) with (1 + Z.of_nat (String.length s)) by lia. rewrite Z.pow_add_r by lia. change (64 ^ 1) with 64. nia.
Qed.

(** Every number of at most twenty digits is the ID of the shortcode that spells it. *)
Lemma shortcode_id n : 0 < n < 64 ^ 20 -> instagramMediaID (shortcode 20 n) = Ok (Itoa n).
Proof.
  intros Hn. unfold instagramMediaID. rewrite (shortcode_value 20 n) by (change (Z.of_nat 20) with 20; lia). pose proof (shortcode_length 20 n).
  destruct (Nat.ltb_spec 20 (String.length (shortcode 20 n))); [lia|]. destruct (Z.leb_spec n 0); [lia|].
  destruct (Nat.eqb_spec (String.length (shortcode 20 n)) 0) as [E|]; [|done].
  pose proof (shortcode_value 20 n ltac:(change (Z.of_nat 20) with 20; lia)) as Hv. destruct (shortcode 20 n); [injection Hv; lia|done].
Qed.

(** And an ID is that of a number that the shortcode's length bounds. *)
Lemma mediaID_range code id : instagramMediaID code = Ok id ->
  exists n, id = Itoa n /\ code_value 0 code = Some n /\ 0 < n < 64 ^ Z.of_nat (String.length code) /\ (String.length code <= 20)%nat.
Proof.
  unfold instagramMediaID. destruct (_ || _) eqn:El; [done|]. apply orb_false_iff in El as [_ El%Nat.ltb_ge].
  destruct (code_value 0 code) as [n|] eqn:E; [|done]. destruct (Z.leb_spec n 0); [done|]. intros [= <-]. exists n.
  apply code_value_acc in E as Hr; [|lia]. split_and!; try done; lia.
Qed.

(** ** The choice of a method *)

Definition legacy_after (e : goerr) : bool := negb (policyFailure e) && negb (is_canceled e) && negb (is_deadline e).

(** The legacy service is asked only if it is the method configured, or if
    the app failed and the fallback is on, the request is not over, and the failure
    is neither a limit on the video, nor a database that is unavailable, nor a
    cancellation or a deadline; in every other case the outcome is the app's, and a
    post is kept for later requests exactly when one is returned. *)
Theorem load_fallback (method : string) (fallback : bool) (ctxErr : option goerr) (attempt : bool -> res goerr InstagramExtraction) :
  let '(r, tried) := load method fallback ctxErr attempt in
  (method = "legacy"%string /\ tried = [true] /\ r = attempt true \/
   method <> "legacy"%string /\ tried = [false] /\ r = attempt false /\
     (forall e, r = Err e -> fallback = false \/ ctxErr <> None \/ legacy_after e = false) \/
   method <> "legacy"%string /\ tried = [false; true] /\ r = attempt true /\
     exists e, attempt false = Err e /\ fallback = true /\ ctxErr = None /\ legacy_after e = true) /\
  (kept r = None <-> exists e, r = Err e).
Proof.
  unfold load. assert (forall r, kept r = None <-> exists e, r = Err e) as Hk by (intros [r|e]; cbn; split; try done; [by intros [? ?]|by exists e]).
  destruct (String.eqb_spec method "legacy") as [->|Hne]; [split; [by left|apply Hk]|].
  destruct (attempt false) as [r|e] eqn:Ea; [split; [right; left; by split_and!|apply Hk]|].
  destruct (_ && negb (is_deadline e)) eqn:Ec; (split; [right|apply Hk]).
  - right. split_and!; try done. exists e. by destruct fallback, ctxErr.
  - left. split_and!; try done. intros e' [= <-]. unfold legacy_after.
    destruct fallback; [|by left]. destruct ctxErr; [right; by left|]. right. right. exact Ec.
Qed.

Section Aliases.
Context (method : string) (fallback : bool).

(** What a computation for an address may keep under its key. *)
Definition of_id (id : string) (r : InstagramExtraction) : Prop := ie_SourceID r = id.

Lemma load_id ctxErr attempt id : (forall legacy r, attempt legacy = Ok r -> of_id id r) -> forall r, (load method fallback ctxErr attempt).1 = Ok r -> of_id id r.
Proof.
  intros Ha r. unfold load. destruct (String.eqb method "legacy"); [apply Ha|]. destruct (attempt false) eqn:E; cbn; [intros [= <-]; by apply (Ha false)|].
  destruct (_ && _); cbn; [apply Ha|done].
Qed.

Lemma extractLegacy_id ttl now extraction normalized id raw data r : extractLegacy ttl now extraction normalized id raw data = Ok r -> of_id id r.
Proof. unfold extractLegacy. cbv zeta. destruct (imap _ _); [done|]. by intros [= <-]. Qed.

Lemma append_cancel p s t : p +:+ s = p +:+ t -> s = t.
Proof. induction p as [|a p IH]; [done|]. change (String a (p +:+ s) = String a (p +:+ t) -> s = t). intros [= H]. by apply IH. Qed.

Context (Parse : string -> option URL) (ur_User : URL -> bool) (EscapedPath : URL -> string).
Abbreviation normalize := (normalizeInstagram Parse ur_User EscapedPath).

Lemma normalized_https raw n id : normalize raw = Ok (n, id) -> exists rest, n = "https://www.instagram.com" +:+ rest.
Proof.
  unfold normalizeInstagram. destruct (Parse _) as [u|]; [|done]. destruct (_ || ur_User u); [done|]. destruct (MatchString _ _); [|done]. cbn [negb].
  destruct (split_byte _ _ !! 1%nat); [|done]. intros [= <- _]. by eexists.
Qed.

(** A post, of whatever form its address is, has a key of its ID alone. *)
Definition is_post (normalized : string) : Prop := method <> "legacy"%string /\ contains "/stories/" (lower_text normalized) = false.

Lemma post_key_post n id : is_post n -> post_key method n id = "post:" +:+ id.
Proof. intros [Hm Hs]. unfold post_key. destruct (String.eqb_spec method "legacy"); [done|]. by rewrite Hs. Qed.

Lemma post_key_id raw n id n' id' : is_post n -> normalize raw = Ok (n', id') -> post_key method n' id' = post_key method n id -> id' = id.
Proof.
  intros Hp Hr. rewrite (post_key_post _ _ Hp). unfold post_key. destruct (_ && _); [apply append_cancel|].
  destruct (normalized_https _ _ _ Hr) as [rest ->]. change ("https://www.instagram.com" +:+ rest) with (String "h" ("ttps://www.instagram.com" +:+ rest)).
  change ("post:" +:+ id) with (String "p" ("ost:" +:+ id)). intros [=].
Qed.

(** All forms of the address of a post share what is kept under its ID, and
    never another post: if the memo answers with what this call computes or with
    what a call for any address computed under the same key, then a call that
    returns a post returns one of the ID asked for, named by the address asked for. *)
Theorem instagram_alias (posts : string -> bool -> res goerr InstagramExtraction -> res goerr InstagramExtraction)
    (held : string -> InstagramExtraction -> Prop) (loaded : string -> string -> res goerr InstagramExtraction) (raw : string) (refresh : bool)
    (n id : string) (r : InstagramExtraction)
    (Hposts : forall k f l r, posts k f l = Ok r -> l = Ok r \/ held k r)
    (Hheld : forall k r, held k r -> exists raw' n' id', normalize raw' = Ok (n', id') /\ post_key method n' id' = k /\ of_id id' r)
    (Hloaded : forall n id, exists ctxErr attempt, loaded n id = (load method fallback ctxErr attempt).1 /\ forall legacy r, attempt legacy = Ok r -> of_id id r)
    (Hraw : normalize raw = Ok (n, id)) (Hpost : is_post n)
    (Hr : ExtractURL method normalize posts loaded raw refresh = Ok r) :
  ie_SourceID r = id /\ ie_SourceURL r = raw /\ ie_ResolvedURL r = n.
Proof.
  revert Hr. unfold ExtractURL. rewrite Hraw. destruct (posts _ _ _) as [r'|] eqn:E; [|done]. intros [= <-]. cbn. split; [|done].
  apply Hposts in E as [E|E].
  - destruct (Hloaded n id) as (ctxErr & attempt & El & Ha). rewrite El in E. by eapply load_id.
  - destruct (Hheld _ _ E) as (raw' & n' & id' & Hr' & Hk & Hid). by rewrite <- (post_key_id raw' n id n' id').
Qed.
End Aliases.

(** ** The attempts of the legacy service *)

Lemma legacy_delay_range d attempt a : 0 <= d <= 30 * Second_ -> (attempt < 10)%nat -> 0 <= Z.min (legacy_delay d attempt a) (5 * Second_) <= 5 * Second_.
Proof.
  intros Hd Ha. split; [|lia]. apply Z.min_glb; [|done].
  assert (0 <= i64 (d * 2 ^ Z.of_nat attempt)) as H0.
  { pose proof (Z.pow_le_mono_r 2 (Z.of_nat attempt) 9 ltac:(lia) ltac:(lia)). pose proof (Z.pow_pos_nonneg 2 (Z.of_nat attempt) ltac:(lia) ltac:(lia)).
    unfold Second_ in *. change (2 ^ 9) with 512 in *. rewrite i64_id by (unfold in_i64; nia). nia. }
  unfold legacy_delay. destruct a as [| | |status ra c b]; try done. assert (0 <= Second_) by done.
  destruct status as [|p|p]; try done. repeat (destruct p as [p|p|]; try done). destruct (0 <? _); lia.
Qed.

(** The loop asks at most once for each attempt allowed, and waits between two
    attempts only, at most five seconds. *)
Lemma fetch_waits d answers sleep left_ attempt last : 0 <= d <= 30 * Second_ -> (attempt + left_ <= 10)%nat ->
  let '(_, delays) := fetch_loop d answers sleep left_ attempt last in
  (length delays <= left_ - 1)%nat /\ Forall (fun t => 0 <= t <= 5 * Second_) delays.
Proof.
  intros Hd. revert attempt last. induction left_ as [|left_ IH]; intros attempt last Hl; cbn [fetch_loop]; [by split|].
  destruct (legacy_attempt _) as [[p|e]|e]; [split; [cbn; lia|constructor]..|]. destruct left_ as [|left_]; [split; [cbn; lia|constructor]|].
  assert (0 <= Z.min (legacy_delay d attempt (answers attempt)) (5 * Second_) <= 5 * Second_) as Hw by (apply legacy_delay_range; [done|lia]).
  destruct (sleep attempt); [split; [cbn; lia|by constructor]|]. specialize (IH (S attempt) (Some e) ltac:(lia)).
  destruct (fetch_loop _ _ _ (S left_) _ _) as [r delays]. destruct IH as [IHl IHf]. split; [cbn [length]; lia|by constructor].
Qed.

(** ** Samples *)

Definition demo_parse (raw : string) : option URL :=
  match cut_string_prefix raw "https://www.instagram.com" with
  | Some path => Some (mkURL "https" "www.instagram.com" path "" "")
  | None => match cut_string_prefix raw "https://instagram.com" with Some path => Some (mkURL "https" "instagram.com." path "" "") | None => None end
  end.
Definition demo_normalize : string -> res goerr (string * string) := normalizeInstagram demo_parse (fun _ => false) ur_Path.
Definition demo_extraction (id : string) : InstagramExtraction :=
  mkInstagram "" "app" id "" "" None "image" None None None None None None None None None None None [] 0.

Example instagram_demo :
  map demo_normalize [" https://instagram.com/reels/Abc-_9/"; "https://www.instagram.com/p/Abc-_9"; "https://www.instagram.com/stories/a.b/77"; "https://www.instagram.com/stories/a.b/"]%string
  = [Ok ("https://www.instagram.com/reels/Abc-_9/", "Abc-_9"); Ok ("https://www.instagram.com/p/Abc-_9/", "Abc-_9");
     Ok ("https://www.instagram.com/stories/a.b/77/", "77"); Ok ("https://www.instagram.com/stories/a.b/", "a.b")]%string /\
  map demo_normalize ["https://www.instagram.com/explore/tags/"; "https://www.instagram.com/p/"; "http://x.org/p/a"]%string
  = [Err (invalid_link "Unsupported Instagram URL"); Err (invalid_link "Unsupported Instagram URL"); Err (invalid_link "Invalid Instagram URL")] /\
  map instagramMediaID ["BA"; ""; "A"; "a b"; "C-1234567890123456789"]%string = [Ok "64"%string; Err bad_code; Err bad_code; Err bad_code; Err bad_code] /\
  legacy_request "" "" "https://a/b c" = "https://instagram-downloader-download-instagram-stories-videos4.p.rapidapi.com/convert?url=https%3A%2F%2Fa%2Fb+c"%string /\
  load "app" true None (fun legacy => if legacy then Ok (demo_extraction "x") else Err (Upstream_ "no")) = (Ok (demo_extraction "x"), [false; true]).
Proof. vm_compute. repeat split. Qed.

Lemma instagram_alias_witness :
  demo_normalize "https://instagram.com/reels/Abc" = Ok ("https://www.instagram.com/reels/Abc/", "Abc")%string /\
  exists r, ExtractURL "app" demo_normalize (fun _ _ l => l) (fun _ id => (load "app" true None (fun _ => Ok (demo_extraction id))).1) "https://instagram.com/reels/Abc" true = Ok r /\
    ie_SourceID r = "Abc"%string.
Proof.
  split; [vm_compute; reflexivity|]. eexists. split; [vm_compute; reflexivity|].
  refine (proj1 (instagram_alias "app" true demo_parse (fun _ => false) ur_Path (fun _ _ l => l) (fun _ _ => False)
    (fun _ id => (load "app" true None (fun _ => Ok (demo_extraction id))).1) "https://instagram.com/reels/Abc" true "https://www.instagram.com/reels/Abc/" "Abc" _ _ _ _ _ _ _)).
  - intros; by left.
  - done.
  - intros n id. exists None, (fun _ => Ok (demo_extraction id)). split; [done|]. intros legacy r H. injection H as <-. reflexivity.
  - vm_compute; reflexivity.
  - split; [done|vm_compute; reflexivity].
  - vm_compute; reflexivity.
Defined.
