(* ===== verification/Config.v ===== *)
(** * core: configuration

    Models src/internal/core/config.go: the defaults, the reading of the
    environment, and the bounds it enforces.  An environment is a map of texts;
    a map of destinations is read in an order of Go's own, which is an input.
    net/http's check of a cookie, net/url and strconv's reading of texts that
    are no plain decimals are parameters. *)
From S2P Require Import Prelude Strconv Float Values AppRoute.
From stdpp Require Import gmap strings.
Open Scope Z_scope.
Open Scope go_scope.

Record Config := mkConfig {
  APIKey : string; Host : string; DBURL : string; DBSchema : string; Port : Z;
  ProxyFile : string; ProxyIncludeHost : bool; ProxyDataOnly : bool; TikTokSessionID : string; TempDir : string;
  CacheTTL : Z; MetadataTTL : Z; ResolutionTTL : Z; CacheMaxEntries : Z;
  ExtractionConcurrency : Z; DownloadConcurrency : Z; HTTPMaxConnections : Z; MaxQueuedRequests : Z; MaxVideoDuration : Z;
  MaxAssetBytes : Z; MediaMemoryFileBytes : Z; MediaMemoryBudgetBytes : Z; DownloadParts : Z;
  UpstreamTimeout : Z; ResolveTimeout : Z; DownloadTimeout : Z; DownloadHeaderTimeout : Z; DownloadIdleTimeout : Z;
  VideoInfoMaxRetries : Z; ResolveRetries : Z; DownloadRetries : Z; RetryDelay : Z;
  RapidAPIKey : string; RapidAPIHost : string; RapidAPIBaseURL : string;
  InstagramMethod : string; InstagramAccountsFile : string; InstagramAccountsDir : string; InstagramLegacyFallback : bool;
  InstagramActiveAccounts : Z; InstagramAccountConcurrency : Z; InstagramAccountDownloadConcurrency : Z; InstagramAppTimeout : Z;
  InstagramConcurrency : Z; InstagramMaxAttempts : Z; InstagramTimeout : Z; InstagramRetryDelay : Z;
  TelegramBotToken : string; TelegramAPIBaseURL : string;
  TelegramPipelineConcurrency : Z; TelegramUploadConcurrency : Z; TelegramPreparationConcurrency : Z; TelegramTimeout : Z; ThumbnailWait : Z;
  TelegramMaxBytes : Z; ImageConcurrency : Z; ImageMemoryBytes : Z; LogLevel : string;
}.

(** A time.Duration counts nanoseconds. *)
Definition Millisecond_ : Z := 1000000.
Definition Second_ : Z := 1000000000.

Definition DefaultConfig : Config := {|
  APIKey := ""; Host := "0.0.0.0"; DBURL := ""; DBSchema := "public"; Port := 8000;
  ProxyFile := ""; ProxyIncludeHost := false; ProxyDataOnly := false; TikTokSessionID := ""; TempDir := "";
  CacheTTL := 600 * Second_; MetadataTTL := 60 * Second_; ResolutionTTL := 600 * Second_; CacheMaxEntries := 10000;
  ExtractionConcurrency := 32; DownloadConcurrency := 64; HTTPMaxConnections := 128; MaxQueuedRequests := 1024; MaxVideoDuration := 0;
  MaxAssetBytes := 0; MediaMemoryFileBytes := Z.shiftl 250 20; MediaMemoryBudgetBytes := Z.shiftl 1 30; DownloadParts := 4;
  UpstreamTimeout := 180 * Second_; ResolveTimeout := 12 * Second_; DownloadTimeout := 60 * Second_; DownloadHeaderTimeout := 10 * Second_; DownloadIdleTimeout := 10 * Second_;
  VideoInfoMaxRetries := 3; ResolveRetries := 3; DownloadRetries := 3; RetryDelay := Second_;
  RapidAPIKey := ""; RapidAPIHost := "instagram-downloader-download-instagram-stories-videos4.p.rapidapi.com";
  RapidAPIBaseURL := "https://instagram-downloader-download-instagram-stories-videos4.p.rapidapi.com";
  InstagramMethod := "app"; InstagramAccountsFile := ""; InstagramAccountsDir := ""; InstagramLegacyFallback := false;
  InstagramActiveAccounts := 10; InstagramAccountConcurrency := 1; InstagramAccountDownloadConcurrency := 1; InstagramAppTimeout := 15 * Second_;
  InstagramConcurrency := 4; InstagramMaxAttempts := 3; InstagramTimeout := 3 * Second_; InstagramRetryDelay := 100 * Millisecond_;
  TelegramBotToken := ""; TelegramAPIBaseURL := "https://api.telegram.org";
  TelegramPipelineConcurrency := 32; TelegramUploadConcurrency := 32; TelegramPreparationConcurrency := 32; TelegramTimeout := 600 * Second_; ThumbnailWait := 1500 * Millisecond_;
  TelegramMaxBytes := 50 * 1024 * 1024; ImageConcurrency := 32; ImageMemoryBytes := Z.shiftl 1 30; LogLevel := "INFO";
|}.

(** ** Readers *)

(** [strings.ToUpper], for a text compared with ASCII words: the dotless i and
    the long s are the letters beyond ASCII whose upper case is in ASCII. *)
Definition upper_ascii (a : ascii) : ascii := let n := N_of_ascii a in if ((97 <=? n) && (n <=? 122))%N then ascii_of_N (n - 32) else a.
Fixpoint upper_text (s : string) : string :=
  match s with
  | EmptyString => EmptyString
  | String a s1 =>
      match s1 with
      | String b s2 =>
          if ((N_of_ascii a =? 0xC4) && (N_of_ascii b =? 0xB1))%N then String "I" (upper_text s2)
          else if ((N_of_ascii a =? 0xC5) && (N_of_ascii b =? 0xBF))%N then String "S" (upper_text s2)
          else String (upper_ascii a) (upper_text s1)
      | EmptyString => String (upper_ascii a) EmptyString
      end
  end.

Abbreviation environment := (gmap string string).

(** The map of [LoadConfig]: [entries] is os.Environ(). *)
Definition environ (entries : list string) : environment :=
  fold_left (fun env entry => let '(k, v, ok) := cut_byte "=" entry in if ok : bool then <[upper_text k := v]> env else env) entries ∅.

(** A reader keeps the key of the last value that was refused. *)
Definition reader (A : Type) : Type := string -> A * string.
Definition rret {A} (a : A) : reader A := fun invalid => (a, invalid).
Definition rbind {A B} (r : reader A) (f : A -> reader B) : reader B := fun invalid => let '(a, invalid) := r invalid in f a invalid.
Notation "'let!' x := r 'in' k" := (rbind r (fun x => k)) (at level 200, x name, r at level 100, k at level 200) : go_scope.

Section Parse.
Context (odd_float : string -> option float) (cookie_valid : string -> bool) (Parse : string -> option URL) (ur_Fragment : URL -> string).
Context (env : environment).

Definition stringValue (key dst : string) : string := default dst (env !! key).

Definition number (key : string) (dst min max : Z) : reader Z := fun invalid =>
  match env !! key with
  | Some v => match Atoi v with Some n => if (n <? min) || (max <? n) then (dst, key) else (n, invalid) | None => (dst, key) end
  | None => (dst, invalid)
  end.

(** strconv.ParseFloat; out of range is an error. *)
Definition ParseFloat64 (s : string) : option float :=
  if contains "_" s || contains "x" (ToLower s) then odd_float s
  else match parse_float s with Some (f, false) => Some f | _ => None end.
Definition floating (literal : string) : float := default (Finite false 0 (-1074)) (ParseFloat literal).

(** The bounds are the constants of the program, as it writes them. *)
Definition duration (key : string) (dst : Z) (min max : string) : reader Z := fun invalid =>
  match env !! key with
  | Some v =>
      match ParseFloat64 v with
      | Some n =>
          if negb (finite n) || (float_rank n <? float_rank (floating min)) || (float_rank (floating max) <? float_rank n) then (dst, key)
          else (float_trunc (float_mul n Second_), invalid)
      | None => (dst, key)
      end
  | None => (dst, invalid)
  end.

Definition boolean (key : string) (dst : bool) : reader bool := fun invalid =>
  match env !! key with
  | Some v =>
      let v := lower_text v in
      if existsb (String.eqb v) ["true"; "1"; "yes"; "on"]%string then (true, invalid)
      else if existsb (String.eqb v) ["false"; "0"; "no"; "off"; ""]%string then (false, invalid)
      else (dst, key)
  | None => (dst, invalid)
  end.

(** The sizes: one key of the map, and what the pass over the map leaves of [invalid]. *)
Definition ParseInt (s : string) : option Z := Atoi s.
Definition byte_value (key : string) : option Z :=
  match env !! key with
  | Some v =>
      match ParseInt v with
      | Some n => if (n <? 0) || (2 ^ 40 <? n) then None else Some (if str_has_suffix key "_MB" then i64 (i64 (n * 1024) * 1024) else n)
      | None => None
      end
  | None => None
  end.
Definition bytes_of (key : string) (dst : Z) : Z := default dst (byte_value key).
Definition byte_keys (order : list string) : reader unit := fun invalid =>
  (tt, fold_left (fun invalid key => match env !! key, byte_value key with Some _, None => key | _, _ => invalid end) order invalid).

Definition D := DefaultConfig.

(** [order] is the order in which the map of sizes is met.  The three texts that
    [ParseConfig] rewrites before it looks at them are rewritten here. *)
Definition read (order : list string) : reader Config :=
  let! port := number "PORT" (Port D) 1 65535 in
  let! cacheMaxEntries := number "CACHE_MAX_ENTRIES" (CacheMaxEntries D) 100 1000000 in
  let! extractionConcurrency := number "EXTRACTION_CONCURRENCY" (ExtractionConcurrency D) 1 512 in
  let! downloadConcurrency := number "DOWNLOAD_CONCURRENCY" (DownloadConcurrency D) 1 1024 in
  let! httpMaxConnections := number "HTTP_MAX_CONNECTIONS" (HTTPMaxConnections D) 1 2048 in
  let! maxQueuedRequests := number "MAX_QUEUED_REQUESTS" (MaxQueuedRequests D) 1 100000 in
  let! maxVideoDuration := number "MAX_VIDEO_DURATION" (MaxVideoDuration D) 0 86400 in
  let! videoInfoMaxRetries := number "VIDEO_INFO_MAX_RETRIES" (VideoInfoMaxRetries D) 1 10 in
  let! resolveRetries := number "URL_RESOLVE_MAX_RETRIES" (ResolveRetries D) 1 10 in
  let! downloadRetries := number "DOWNLOAD_MAX_RETRIES" (DownloadRetries D) 1 10 in
  let! downloadParts := number "DOWNLOAD_PARALLEL_PARTS" (DownloadParts D) 1 16 in
  let! activeAccounts := number "INSTAGRAM_ACTIVE_ACCOUNTS" (InstagramActiveAccounts D) 1 10000 in
  let! accountConcurrency := number "INSTAGRAM_ACCOUNT_CONCURRENCY" (InstagramAccountConcurrency D) 1 64 in
  let! accountDownloads := number "INSTAGRAM_ACCOUNT_DOWNLOAD_CONCURRENCY" (InstagramAccountDownloadConcurrency D) 1 64 in
  let! instagramConcurrency := number "INSTAGRAM_CONCURRENCY" (InstagramConcurrency D) 1 64 in
  let! instagramMaxAttempts := number "INSTAGRAM_MAX_ATTEMPTS" (InstagramMaxAttempts D) 1 10 in
  let! pipeline := number "TELEGRAM_PIPELINE_CONCURRENCY" (TelegramPipelineConcurrency D) 1 1024 in
  let! upload := number "TELEGRAM_UPLOAD_CONCURRENCY" (TelegramUploadConcurrency D) 1 256 in
  let! preparation := number "TELEGRAM_PREPARATION_CONCURRENCY" (TelegramPreparationConcurrency D) 1 64 in
  let! images := number "IMAGE_CONVERSION_WORKERS" (ImageConcurrency D) 0 64 in
  let images := if images =? 0 then ImageConcurrency D else images in
  let! cacheTTL := duration "CACHE_TTL_SECONDS" (CacheTTL D) "30" "86400" in
  let! metadataTTL := duration "TIKTOK_INFO_CACHE_TTL_SECONDS" (MetadataTTL D) "1" "3600" in
  let! resolutionTTL := duration "TIKTOK_RESOLUTION_CACHE_TTL_SECONDS" (ResolutionTTL D) "1" "86400" in
  let! upstreamTimeout := duration "TIKTOK_APP_TIMEOUT_SECONDS" (UpstreamTimeout D) ".001" "600" in
  let! resolveTimeout := duration "URL_RESOLVE_TIMEOUT_SECONDS" (ResolveTimeout D) ".001" "120" in
  let! downloadTimeout := duration "UPSTREAM_DOWNLOAD_TIMEOUT_SECONDS" (DownloadTimeout D) ".001" "600" in
  let! headerTimeout := duration "DOWNLOAD_HEADER_TIMEOUT_SECONDS" (DownloadHeaderTimeout D) ".001" "600" in
  let! idleTimeout := duration "DOWNLOAD_IDLE_TIMEOUT_SECONDS" (DownloadIdleTimeout D) ".001" "600" in
  let! retryDelay := duration "DOWNLOAD_RETRY_BASE_DELAY" (RetryDelay D) "0" "30" in
  let! instagramAppTimeout := duration "INSTAGRAM_APP_TIMEOUT_SECONDS" (InstagramAppTimeout D) ".001" "600" in
  let! instagramTimeout := duration "INSTAGRAM_REQUEST_TIMEOUT_SECONDS" (InstagramTimeout D) ".001" "60" in
  let! instagramRetryDelay := duration "INSTAGRAM_RETRY_DELAY_SECONDS" (InstagramRetryDelay D) "0" "30" in
  let! telegramTimeout := duration "TELEGRAM_UPLOAD_TIMEOUT_SECONDS" (TelegramTimeout D) ".001" "3600" in
  let! thumbnailWait := duration "TELEGRAM_THUMBNAIL_WAIT_SECONDS" (ThumbnailWait D) "0" "30" in
  let! _ := byte_keys order in
  let imageMemory := bytes_of "IMAGE_MEMORY_BUDGET_MB" (ImageMemoryBytes D) in
  let imageMemory := if imageMemory =? 0 then ImageMemoryBytes D else imageMemory in
  let! legacyFallback := boolean "INSTAGRAM_LEGACY_FALLBACK" (InstagramLegacyFallback D) in
  let! includeHost := boolean "PROXY_INCLUDE_HOST" (ProxyIncludeHost D) in
  let! dataOnly := boolean "PROXY_DATA_ONLY" (ProxyDataOnly D) in
  rret {|
    APIKey := stringValue "TT_SCRAP_API_KEY" (APIKey D); Host := stringValue "HOST" (Host D); DBURL := stringValue "DB_URL" (DBURL D);
    DBSchema := stringValue "DB_SCHEMA" (DBSchema D); Port := port;
    ProxyFile := stringValue "PROXY_FILE" (ProxyFile D); ProxyIncludeHost := includeHost; ProxyDataOnly := dataOnly;
    TikTokSessionID := stringValue "TIKTOK_SESSION_ID" (TikTokSessionID D); TempDir := stringValue "TEMP_DIR" (TempDir D);
    CacheTTL := cacheTTL; MetadataTTL := metadataTTL; ResolutionTTL := resolutionTTL; CacheMaxEntries := cacheMaxEntries;
    ExtractionConcurrency := extractionConcurrency; DownloadConcurrency := downloadConcurrency; HTTPMaxConnections := httpMaxConnections;
    MaxQueuedRequests := maxQueuedRequests; MaxVideoDuration := maxVideoDuration;
    MaxAssetBytes := bytes_of "MAX_ASSET_BYTES" (MaxAssetBytes D); MediaMemoryFileBytes := bytes_of "MEDIA_MEMORY_MAX_MB" (MediaMemoryFileBytes D);
    MediaMemoryBudgetBytes := bytes_of "MEDIA_MEMORY_BUDGET_MB" (MediaMemoryBudgetBytes D); DownloadParts := downloadParts;
    UpstreamTimeout := upstreamTimeout; ResolveTimeout := resolveTimeout; DownloadTimeout := downloadTimeout;
    DownloadHeaderTimeout := headerTimeout; DownloadIdleTimeout := idleTimeout;
    VideoInfoMaxRetries := videoInfoMaxRetries; ResolveRetries := resolveRetries; DownloadRetries := downloadRetries; RetryDelay := retryDelay;
    RapidAPIKey := stringValue "RAPIDAPI_KEY" (RapidAPIKey D); RapidAPIHost := stringValue "RAPIDAPI_HOST" (RapidAPIHost D);
    RapidAPIBaseURL := stringValue "RAPIDAPI_BASE_URL" (RapidAPIBaseURL D);
    InstagramMethod := lower_text (TrimSpace (stringValue "INSTAGRAM_METHOD" (InstagramMethod D))); InstagramAccountsFile := stringValue "INSTAGRAM_ACCOUNTS_FILE" (InstagramAccountsFile D);
    InstagramAccountsDir := stringValue "INSTAGRAM_ACCOUNTS_DIR" (InstagramAccountsDir D); InstagramLegacyFallback := legacyFallback;
    InstagramActiveAccounts := activeAccounts; InstagramAccountConcurrency := accountConcurrency; InstagramAccountDownloadConcurrency := accountDownloads;
    InstagramAppTimeout := instagramAppTimeout; InstagramConcurrency := instagramConcurrency; InstagramMaxAttempts := instagramMaxAttempts;
    InstagramTimeout := instagramTimeout; InstagramRetryDelay := instagramRetryDelay;
    TelegramBotToken := stringValue "TELEGRAM_BOT_TOKEN" (TelegramBotToken D); 
    TelegramAPIBaseURL := TrimRightByte "/" (TrimSpace (stringValue "TELEGRAM_API_BASE_URL" (TelegramAPIBaseURL D)));
    TelegramPipelineConcurrency := pipeline; TelegramUploadConcurrency := upload; TelegramPreparationConcurrency := preparation;
    TelegramTimeout := telegramTimeout; ThumbnailWait := thumbnailWait;
    TelegramMaxBytes := bytes_of "TELEGRAM_UPLOAD_MAX_MB" (TelegramMaxBytes D); ImageConcurrency := images; ImageMemoryBytes := imageMemory;
    LogLevel := upper_text (TrimSpace (stringValue "LOG_LEVEL" (LogLevel D))) |}.

Definition base_ok (u : URL) : bool :=
  (String.eqb (ur_Scheme u) "https" || String.eqb (ur_Scheme u) "http") && negb (String.eqb (Hostname u) "") && String.eqb (ur_RawQuery u) "" && String.eqb (ur_Fragment u) "".
Definition log_levels : list string := ["DEBUG"; "INFO"; "WARN"; "WARNING"; "ERROR"; "CRITICAL"]%string.

(** An error is the key of [ConfigError]. *)
Definition ParseConfig (order : list string) : res string Config :=
  let '(c, invalid) := read order "" in
  if negb (String.eqb invalid "") then Err invalid
  else if negb (String.eqb (InstagramMethod c) "app") && negb (String.eqb (InstagramMethod c) "legacy") then Err "INSTAGRAM_METHOD"%string
  else if (String.length (APIKey c) <? 16)%nat then Err "TT_SCRAP_API_KEY"%string
  else if negb (cookie_valid (TikTokSessionID c)) then Err "TIKTOK_SESSION_ID"%string
  else if String.eqb (TrimSpace (DBURL c)) "" then Err "DB_URL"%string
  else if negb (existsb (String.eqb (LogLevel c)) log_levels) then Err "LOG_LEVEL"%string
  else
    match Parse (TelegramAPIBaseURL c) with
    | Some u => if base_ok u then Ok c else Err "TELEGRAM_API_BASE_URL"%string
    | None => Err "TELEGRAM_API_BASE_URL"%string
    end.
End Parse.

(** [LoadConfig]: [dotenv] is the outcome of loading a .env file, where there is
    one, and [entries] the environment after it. *)
Definition LoadConfig (odd_float : string -> option float) (cookie_valid : string -> bool) (Parse : string -> option URL) (ur_Fragment : URL -> string)
    (dotenv : option (option string)) (entries : list string) (order : list string) : res string Config :=
  match dotenv with
  | Some (Some e) => Err ("load .env: " +:+ e)
  | _ => ParseConfig odd_float cookie_valid Parse ur_Fragment (environ entries) order
  end.

(** ** The bounds *)

Section Bounds.
Context (odd_float : string -> option float) (env : environment).

Lemma number_in key dst lo hi invalid : lo <= dst <= hi -> lo <= (number env key dst lo hi invalid).1 <= hi.
Proof.
  intros H. unfold number. destruct (env !! key) as [v|]; [|done]. destruct (Atoi v) as [n|]; [|done].
  destruct (_ || _) eqn:E; [done|]. bool_prop. cbn. lia.
Qed.

Lemma bytes_in key dst : 0 <= dst <= 2 ^ 60 -> 0 <= bytes_of env key dst <= 2 ^ 60.
Proof.
  intros H. unfold bytes_of, byte_value. destruct (env !! key) as [v|]; [|done]. destruct (ParseInt v) as [n|]; [|done].
  destruct (_ || _) eqn:E; [done|]. bool_prop. change (2 ^ 40) with 1099511627776 in *. change (2 ^ 60) with 1152921504606846976 in *. cbn [default].
  destruct (str_has_suffix key "_MB"); cbn [from_option id]; [|lia]. rewrite (i64_id (n * 1024)) by (unfold in_i64; lia). rewrite i64_id by (unfold in_i64; lia). lia.
Qed.

(** The product of a number of seconds, as nanoseconds, stays between integers that
    its exact value is between. *)
Lemma seconds_between f L B : float_ok f -> finite f = true -> 0 <= L -> B < 2 ^ 51 ->
  L * 2 ^ 1074 <= float_rank f * Second_ <= B * 2 ^ 1074 -> L <= float_trunc (float_mul f Second_) <= B.
Proof.
  destruct f as [neg m e| |]; try done. intros [Hm He] _ HL HB. pose proof (Z.pow_pos_nonneg 2 1074 ltac:(done) ltac:(done)) as Hu.
  pose proof (Z.pow_pos_nonneg 2 (e + 1074) ltac:(done) ltac:(lia)) as Hp. cbn [float_rank float_mul]. assert (0 < Second_) as Hs by done.
  destruct (Z.eqb_spec (m * Second_) 0) as [E|Hne].
  - assert (m = 0) as -> by nia. intros H. assert (L <= 0 <= B) by (generalize dependent (2 ^ 1074); intros; nia). by destruct neg.
  - assert (0 < m * Second_) as Hpos by nia. destruct neg.
    { intros [H _]. exfalso. generalize dependent (2 ^ 1074). generalize dependent (2 ^ (e + 1074)). intros. nia. }
    intros H.
    assert (exists p q, (if 0 <=? e then round_binary (m * Second_ * 2 ^ e) 1 else round_binary (m * Second_) (2 ^ (- e))) = round_binary p q /\
      0 < p /\ 0 < q /\ L * q <= p <= B * q) as (p & q & -> & Hpp & Hq & HLB).
    { destruct (Z.leb_spec 0 e) as [He0|He0].
      - pose proof (Z.pow_pos_nonneg 2 e ltac:(done) He0). exists (m * Second_ * 2 ^ e), 1. split_and!; [done|nia|done| |];
          rewrite Z.pow_add_r in H by lia; generalize dependent (2 ^ 1074); generalize dependent (2 ^ e); intros; nia.
      - pose proof (Z.pow_pos_nonneg 2 (- e) ltac:(done) ltac:(lia)). exists (m * Second_), (2 ^ (- e)).
        assert (2 ^ 1074 = 2 ^ (e + 1074) * 2 ^ (- e)) as Hsplit by (rewrite <- Z.pow_add_r by lia; f_equal; lia).
        rewrite Hsplit in H. split_and!; [done|done|done| |]; generalize dependent (2 ^ (e + 1074)); generalize dependent (2 ^ (- e)); intros; nia. }
    pose proof (round_binary_between p q L B Hpp Hq HL HLB HB) as Hr. destruct (round_binary p q) as [m' x]. destruct Hr as [Hx Hr].
    destruct (Z.ltb_spec 971 x); [lia|]. by apply float_trunc_between.
Qed.

(** The integer number of nanoseconds of a bound the program writes. *)
Definition bound_ok (literal : string) (lo hi : Z) : bool :=
  (lo * 2 ^ 1074 <=? float_rank (floating literal) * Second_) && (float_rank (floating literal) * Second_ <=? hi * 2 ^ 1074).

Context (Hodd : forall s f, odd_float s = Some f -> float_ok f).

Lemma ParseFloat64_ok s f : ParseFloat64 odd_float s = Some f -> float_ok f.
Proof.
  unfold ParseFloat64. destruct (_ || _); [apply Hodd|]. destruct (parse_float s) as [[g [|]]|] eqn:E; try done. intros [= <-]. by eapply parse_float_ok.
Qed.

Lemma duration_in key dst min max L B invalid : 0 <= L -> B < 2 ^ 51 -> bound_ok min L B = true -> bound_ok max L B = true ->
  L <= dst <= B -> L <= (duration odd_float env key dst min max invalid).1 <= B.
Proof.
  intros HL HB Hmin Hmax Hd. unfold duration. destruct (env !! key) as [v|]; [|done]. destruct (ParseFloat64 odd_float v) as [f|] eqn:E; [|done].
  apply ParseFloat64_ok in E. destruct (_ || _) eqn:Eb; [done|]. apply orb_false_iff in Eb as [Eb E2%Z.ltb_ge]. apply orb_false_iff in Eb as [E0 E1%Z.ltb_ge].
  apply negb_false_iff in E0. unfold bound_ok in *. apply andb_true_iff in Hmin as [Hmin%Z.leb_le _]. apply andb_true_iff in Hmax as [_ Hmax%Z.leb_le].
  cbn [fst]. apply seconds_between; try done. assert (0 < Second_) by done. nia.
Qed.

(** What the readers establish of a configuration, a range for each number. *)
Definition within (lo hi n : Z) : Prop := lo <= n <= hi.


Record bounded (c : Config) : Prop := {
  bd_Port : within 1 65535 (Port c); bd_Cache : within 100 1000000 (CacheMaxEntries c);
  bd_Extraction : within 1 512 (ExtractionConcurrency c); bd_Download : within 1 1024 (DownloadConcurrency c);
  bd_Connections : within 1 2048 (HTTPMaxConnections c); bd_Queue : within 1 100000 (MaxQueuedRequests c);
  bd_Video : within 0 86400 (MaxVideoDuration c); bd_Info : within 1 10 (VideoInfoMaxRetries c); bd_Resolve : within 1 10 (ResolveRetries c);
  bd_Retries : within 1 10 (DownloadRetries c); bd_Parts : within 1 16 (DownloadParts c); bd_Active : within 1 10000 (InstagramActiveAccounts c);
  bd_Account : within 1 64 (InstagramAccountConcurrency c); bd_Downloads : within 1 64 (InstagramAccountDownloadConcurrency c);
  bd_Instagram : within 1 64 (InstagramConcurrency c); bd_Attempts : within 1 10 (InstagramMaxAttempts c);
  bd_Pipeline : within 1 1024 (TelegramPipelineConcurrency c); bd_Upload : within 1 256 (TelegramUploadConcurrency c);
  bd_Preparation : within 1 64 (TelegramPreparationConcurrency c); bd_Images : within 1 64 (ImageConcurrency c);
  bd_CacheTTL : within (30 * Second_) (86400 * Second_) (CacheTTL c); bd_MetadataTTL : within (1 * Second_) (3600 * Second_) (MetadataTTL c);
  bd_ResolutionTTL : within (1 * Second_) (86400 * Second_) (ResolutionTTL c); bd_Upstream : within Millisecond_ (600 * Second_) (UpstreamTimeout c);
  bd_ResolveTimeout : within Millisecond_ (120 * Second_) (ResolveTimeout c); bd_DownloadTimeout : within Millisecond_ (600 * Second_) (DownloadTimeout c);
  bd_Header : within Millisecond_ (600 * Second_) (DownloadHeaderTimeout c); bd_Idle : within Millisecond_ (600 * Second_) (DownloadIdleTimeout c);
  bd_Delay : within 0 (30 * Second_) (RetryDelay c); bd_App : within Millisecond_ (600 * Second_) (InstagramAppTimeout c);
  bd_InstagramTimeout : within Millisecond_ (60 * Second_) (InstagramTimeout c); bd_InstagramDelay : within 0 (30 * Second_) (InstagramRetryDelay c);
  bd_Telegram : within Millisecond_ (3600 * Second_) (TelegramTimeout c); bd_Thumbnail : within 0 (30 * Second_) (ThumbnailWait c);
  bd_Asset : within 0 (2 ^ 60) (MaxAssetBytes c); bd_File : within 0 (2 ^ 60) (MediaMemoryFileBytes c); bd_Budget : within 0 (2 ^ 60) (MediaMemoryBudgetBytes c);
  bd_TelegramBytes : within 0 (2 ^ 60) (TelegramMaxBytes c); bd_ImageMemory : within 1 (2 ^ 60) (ImageMemoryBytes c);
}.

Lemma bind_fst {A B} (r : reader A) (f : A -> reader B) invalid (P : A -> Prop) (Q : B -> Prop) :
  (forall i, P (r i).1) -> (forall a i, P a -> Q (f a i).1) -> Q (rbind r f invalid).1.
Proof. intros Hr Hf. unfold rbind. specialize (Hr invalid). destruct (r invalid) as [a i]. by apply Hf. Qed.

(** One reader: what it reads is in its range. *)
Ltac read_number := lazymatch goal with
  | |- bounded (rbind (number _ _ _ ?lo ?hi) _ _).1 =>
      apply (bind_fst _ _ _ (within lo hi)); [intros ?; apply number_in; vm_compute; split; discriminate|cbv beta; intros ? ? ?]
  end.
Ltac read_duration lo hi :=
  apply (bind_fst _ _ _ (within lo hi)); [intros ?; apply duration_in; [done|done|vm_compute; reflexivity|vm_compute; reflexivity|vm_compute; split; discriminate]|cbv beta; intros ? ? ?].
Ltac read_durations := lazymatch goal with
  | |- bounded (rbind (duration _ _ _ _ "30" "86400") _ _).1 => read_duration (30 * Second_) (86400 * Second_)
  | |- bounded (rbind (duration _ _ _ _ "1" "3600") _ _).1 => read_duration (1 * Second_) (3600 * Second_)
  | |- bounded (rbind (duration _ _ _ _ "1" "86400") _ _).1 => read_duration (1 * Second_) (86400 * Second_)
  | |- bounded (rbind (duration _ _ _ _ ".001" "600") _ _).1 => read_duration Millisecond_ (600 * Second_)
  | |- bounded (rbind (duration _ _ _ _ ".001" "120") _ _).1 => read_duration Millisecond_ (120 * Second_)
  | |- bounded (rbind (duration _ _ _ _ ".001" "60") _ _).1 => read_duration Millisecond_ (60 * Second_)
  | |- bounded (rbind (duration _ _ _ _ ".001" "3600") _ _).1 => read_duration Millisecond_ (3600 * Second_)
  | |- bounded (rbind (duration _ _ _ _ "0" "30") _ _).1 => read_duration 0 (30 * Second_)
  end.
Ltac read_other := apply (bind_fst _ _ _ (fun _ => True)); [done|cbv beta; intros ? ? _].

Lemma read_bounded order invalid : bounded (read odd_float env order invalid).1.
Proof.
  unfold read. repeat (cbv zeta; first [read_number|read_durations|read_other]).
  cbn [rret fst].
  assert (forall key dst, 0 <= dst <= 2 ^ 60 -> within 0 (2 ^ 60) (bytes_of env key dst)) as Hbytes by (intros; by apply bytes_in).
  assert (forall n d, within 0 64 n -> within 1 64 d -> within 1 64 (if n =? 0 then d else n)) as Himages by (intros n d; unfold within; destruct (Z.eqb_spec n 0); lia).
  assert (forall n d, within 0 (2 ^ 60) n -> within 1 (2 ^ 60) d -> within 1 (2 ^ 60) (if n =? 0 then d else n)) as Hmemory by (intros n d; unfold within; destruct (Z.eqb_spec n 0); lia).
  split; cbn [Port CacheMaxEntries]; try assumption; try (apply Hbytes; vm_compute; split; discriminate).
  - apply Himages; [assumption|vm_compute; split; discriminate].
  - apply Hmemory; [apply Hbytes|]; vm_compute; split; discriminate.
Qed.

(** What the readers establish when none refuses: each value is the one the
    environment names, and the default where it names none. *)
Definition read_as {A} (parse : string -> option A) (key : string) (dst a : A) : Prop :=
  match env !! key with Some v => parse v = Some a | None => a = dst end.
Definition as_duration (v : string) : option Z := (fun f => float_trunc (float_mul f Second_)) <$> ParseFloat64 odd_float v.
Definition as_bytes (key v : string) : option Z := (fun n => if str_has_suffix key "_MB" then n * 2 ^ 20 else n) <$> Atoi v.
Definition as_boolean (v : string) : option bool :=
  if existsb (String.eqb (lower_text v)) ["true"; "1"; "yes"; "on"]%string then Some true
  else if existsb (String.eqb (lower_text v)) ["false"; "0"; "no"; "off"; ""]%string then Some false else None.
Definition unless_zero (d n m : Z) : Prop := m = if n =? 0 then d else n.

Record exact (c : Config) : Prop := {
  ex_numbers : Forall (fun '(key, dst, n) => read_as Atoi key dst n)
    [("PORT", 8000, Port c); ("CACHE_MAX_ENTRIES", 10000, CacheMaxEntries c); ("EXTRACTION_CONCURRENCY", 32, ExtractionConcurrency c);
     ("DOWNLOAD_CONCURRENCY", 64, DownloadConcurrency c); ("HTTP_MAX_CONNECTIONS", 128, HTTPMaxConnections c); ("MAX_QUEUED_REQUESTS", 1024, MaxQueuedRequests c);
     ("MAX_VIDEO_DURATION", 0, MaxVideoDuration c); ("VIDEO_INFO_MAX_RETRIES", 3, VideoInfoMaxRetries c); ("URL_RESOLVE_MAX_RETRIES", 3, ResolveRetries c);
     ("DOWNLOAD_MAX_RETRIES", 3, DownloadRetries c); ("DOWNLOAD_PARALLEL_PARTS", 4, DownloadParts c); ("INSTAGRAM_ACTIVE_ACCOUNTS", 10, InstagramActiveAccounts c);
     ("INSTAGRAM_ACCOUNT_CONCURRENCY", 1, InstagramAccountConcurrency c); ("INSTAGRAM_ACCOUNT_DOWNLOAD_CONCURRENCY", 1, InstagramAccountDownloadConcurrency c);
     ("INSTAGRAM_CONCURRENCY", 4, InstagramConcurrency c); ("INSTAGRAM_MAX_ATTEMPTS", 3, InstagramMaxAttempts c); ("TELEGRAM_PIPELINE_CONCURRENCY", 32, TelegramPipelineConcurrency c);
     ("TELEGRAM_UPLOAD_CONCURRENCY", 32, TelegramUploadConcurrency c); ("TELEGRAM_PREPARATION_CONCURRENCY", 32, TelegramPreparationConcurrency c)]%string;
  ex_images : exists n, read_as Atoi "IMAGE_CONVERSION_WORKERS" 32 n /\ unless_zero 32 n (ImageConcurrency c);
  ex_durations : Forall (fun '(key, dst, n) => read_as as_duration key dst n)
    [("CACHE_TTL_SECONDS", 600 * Second_, CacheTTL c); ("TIKTOK_INFO_CACHE_TTL_SECONDS", 60 * Second_, MetadataTTL c);
     ("TIKTOK_RESOLUTION_CACHE_TTL_SECONDS", 600 * Second_, ResolutionTTL c); ("TIKTOK_APP_TIMEOUT_SECONDS", 180 * Second_, UpstreamTimeout c);
     ("URL_RESOLVE_TIMEOUT_SECONDS", 12 * Second_, ResolveTimeout c); ("UPSTREAM_DOWNLOAD_TIMEOUT_SECONDS", 60 * Second_, DownloadTimeout c);
     ("DOWNLOAD_HEADER_TIMEOUT_SECONDS", 10 * Second_, DownloadHeaderTimeout c); ("DOWNLOAD_IDLE_TIMEOUT_SECONDS", 10 * Second_, DownloadIdleTimeout c);
     ("DOWNLOAD_RETRY_BASE_DELAY", Second_, RetryDelay c); ("INSTAGRAM_APP_TIMEOUT_SECONDS", 15 * Second_, InstagramAppTimeout c);
     ("INSTAGRAM_REQUEST_TIMEOUT_SECONDS", 3 * Second_, InstagramTimeout c); ("INSTAGRAM_RETRY_DELAY_SECONDS", 100 * Millisecond_, InstagramRetryDelay c);
     ("TELEGRAM_UPLOAD_TIMEOUT_SECONDS", 600 * Second_, TelegramTimeout c); ("TELEGRAM_THUMBNAIL_WAIT_SECONDS", 1500 * Millisecond_, ThumbnailWait c)]%string;
  ex_bytes : Forall (fun '(key, dst, n) => read_as (as_bytes key) key dst n)
    [("MAX_ASSET_BYTES", 0, MaxAssetBytes c); ("MEDIA_MEMORY_MAX_MB", 250 * 2 ^ 20, MediaMemoryFileBytes c);
     ("MEDIA_MEMORY_BUDGET_MB", 2 ^ 30, MediaMemoryBudgetBytes c); ("TELEGRAM_UPLOAD_MAX_MB", 50 * 2 ^ 20, TelegramMaxBytes c)]%string;
  ex_memory : exists n, read_as (as_bytes "IMAGE_MEMORY_BUDGET_MB") "IMAGE_MEMORY_BUDGET_MB" (2 ^ 30) n /\ unless_zero (2 ^ 30) n (ImageMemoryBytes c);
  ex_booleans : Forall (fun '(key, b) => read_as as_boolean key false b)
    [("INSTAGRAM_LEGACY_FALLBACK", InstagramLegacyFallback c); ("PROXY_INCLUDE_HOST", ProxyIncludeHost c); ("PROXY_DATA_ONLY", ProxyDataOnly c)]%string;
  ex_texts : Forall (fun '(key, dst, v) => read_as Some key dst v)
    [("TT_SCRAP_API_KEY", "", APIKey c); ("HOST", "0.0.0.0", Host c); ("DB_URL", "", DBURL c); ("DB_SCHEMA", "public", DBSchema c); ("PROXY_FILE", "", ProxyFile c);
     ("TIKTOK_SESSION_ID", "", TikTokSessionID c); ("TEMP_DIR", "", TempDir c); ("RAPIDAPI_KEY", "", RapidAPIKey c);
     ("RAPIDAPI_HOST", "instagram-downloader-download-instagram-stories-videos4.p.rapidapi.com", RapidAPIHost c);
     ("RAPIDAPI_BASE_URL", "https://instagram-downloader-download-instagram-stories-videos4.p.rapidapi.com", RapidAPIBaseURL c);
     ("TELEGRAM_BOT_TOKEN", "", TelegramBotToken c); ("INSTAGRAM_ACCOUNTS_FILE", "", InstagramAccountsFile c); ("INSTAGRAM_ACCOUNTS_DIR", "", InstagramAccountsDir c)]%string;
  ex_trimmed : exists method level base, read_as Some "INSTAGRAM_METHOD" "app"%string method /\ read_as Some "LOG_LEVEL" "INFO"%string level /\
    read_as Some "TELEGRAM_API_BASE_URL" "https://api.telegram.org"%string base /\
    InstagramMethod c = lower_text (TrimSpace method) /\ LogLevel c = upper_text (TrimSpace level) /\ TelegramAPIBaseURL c = TrimRightByte "/" (TrimSpace base);
}.

Lemma text_exact key dst : read_as Some key dst (stringValue env key dst).
Proof. unfold read_as, stringValue. by destruct (env !! key). Qed.

Definition faithful {A} (P : A -> Prop) (r : reader A) : Prop := forall i, (r i).2 = ""%string -> i = ""%string /\ P (r i).1.

Lemma bind_faithful {A B} (r : reader A) (f : A -> reader B) (P : A -> Prop) (Q : B -> Prop) :
  faithful P r -> (forall a, faithful (fun b => P a -> Q b) (f a)) -> faithful Q (rbind r f).
Proof.
  intros Hr Hf i. unfold rbind. specialize (Hr i). destruct (r i) as [a i']. intros H. destruct (Hf a i' H) as [-> HQ]. destruct (Hr eq_refl). by split; [|apply HQ].
Qed.

Lemma number_faithful key dst lo hi : key <> ""%string -> faithful (read_as Atoi key dst) (number env key dst lo hi).
Proof.
  intros Hk i. unfold number, read_as. destruct (env !! key) as [v|]; [|done]. destruct (Atoi v) as [n|]; [|done]. destruct (_ || _); [done|]. cbn; by intros ->.
Qed.

Lemma duration_faithful key dst min max : key <> ""%string -> faithful (read_as as_duration key dst) (duration odd_float env key dst min max).
Proof.
  intros Hk i. unfold duration, read_as, as_duration. destruct (env !! key) as [v|]; [|done]. destruct (ParseFloat64 odd_float v) as [f|]; [|done].
  destruct (_ || _); [done|]. cbn; by intros ->.
Qed.

Lemma boolean_faithful key dst : key <> ""%string -> faithful (read_as as_boolean key dst) (boolean env key dst).
Proof.
  intros Hk i. unfold boolean, read_as, as_boolean. destruct (env !! key) as [v|]; [|done]. cbv zeta.
  destruct (existsb _ ["true"; "1"; "yes"; "on"]%string); [cbn; by intros ->|]. destruct (existsb _ _); [cbn; by intros ->|done].
Qed.

Definition size_keys : list string := ["MAX_ASSET_BYTES"; "TELEGRAM_UPLOAD_MAX_MB"; "MEDIA_MEMORY_MAX_MB"; "MEDIA_MEMORY_BUDGET_MB"; "IMAGE_MEMORY_BUDGET_MB"]%string.
Definition sizes_read : Prop := forall key, key ∈ size_keys -> match env !! key with Some _ => is_Some (byte_value env key) | None => True end.

Lemma byte_keys_faithful order : order ≡ₚ size_keys -> faithful (fun _ => sizes_read) (byte_keys env order).
Proof.
  intros Ho. assert (forall key, key ∈ order -> key <> ""%string) as Hne.
  { intros key Hk. rewrite Ho in Hk. unfold size_keys in Hk. intros ->. set_solver. }
  assert (forall i, (byte_keys env order i).2 = ""%string -> i = ""%string /\ forall key, key ∈ order -> match env !! key with Some _ => is_Some (byte_value env key) | None => True end) as H.
  { clear Ho. unfold byte_keys. cbn [snd]. induction order as [|k order IH]; intros i; cbn [fold_left]; [intros ->; split; [done|set_solver]|].
    intros H. destruct (IH ltac:(set_solver) _ H) as [Hi Hall]. clear IH H. pose proof (Hne k ltac:(set_solver)) as Hk.
    destruct (env !! k) as [v|] eqn:Ev; [destruct (byte_value env k) as [n|] eqn:En|]; try done; split; try done;
      intros key [->|Hin]%elem_of_cons; try (by apply Hall); rewrite Ev; try done; by rewrite En. }
  intros i Hi. destruct (H i Hi) as [-> Hall]. split; [done|]. intros key Hk. apply Hall. by rewrite Ho.
Qed.

Lemma bytes_exact key dst : sizes_read -> key ∈ size_keys -> read_as (as_bytes key) key dst (bytes_of env key dst).
Proof.
  intros H Hk. specialize (H key Hk). unfold read_as, bytes_of, as_bytes. unfold byte_value, ParseInt in *. destruct (env !! key) as [v|]; [|done].
  destruct (Atoi v) as [n|]; [|by destruct H]. destruct (_ || _) eqn:E; [by destruct H|]. bool_prop. change (2 ^ 40) with 1099511627776 in *.
  cbn [default from_option id fmap option_fmap option_map]. destruct (str_has_suffix key "_MB"); [|done]. f_equal.
  rewrite (i64_id (n * 1024)) by (unfold in_i64; lia). rewrite i64_id by (unfold in_i64; lia). lia.
Qed.

Lemma read_faithful order : order ≡ₚ size_keys -> faithful exact (read odd_float env order).
Proof.
  intros Ho. unfold read.
  repeat (cbv zeta; first
    [ eapply bind_faithful; [apply number_faithful; done|intros ?; cbv beta]
    | eapply bind_faithful; [apply duration_faithful; done|intros ?; cbv beta]
    | eapply bind_faithful; [apply boolean_faithful; done|intros ?; cbv beta]
    | eapply bind_faithful; [apply byte_keys_faithful; done|intros ?; cbv beta] ]).
  intros i Hi. split; [exact Hi|]. cbn [rret fst]. intros.
  split; cbn [Port CacheMaxEntries ImageConcurrency ImageMemoryBytes];
    try (repeat (apply Forall_cons; split; [first [assumption|exact (text_exact _ _)|apply bytes_exact; [assumption|unfold size_keys; set_solver]]|]); exact (List.Forall_nil _)).
  - eexists. split; [eassumption|reflexivity].
  - eexists. split; [apply bytes_exact; [assumption|unfold size_keys; set_solver]|reflexivity].
  - do 3 eexists. split_and!; [exact (text_exact _ _)..|reflexivity|reflexivity|reflexivity].
Qed.
End Bounds.

(** C31. Every configuration that is accepted is in its bounds, whatever the
    environment: each number, each duration in nanoseconds and each size is in
    the range the program states for it, and no size wraps; each, and each switch
    and text, is the one the
    environment names for it, or the default where it names none, zero standing for the
    default of image workers and memory, and the method, the log level and the
    base address trimmed; and the texts the program depends on are
    usable: a key of at least sixteen bytes, a database address, a session cookie
    that can be sent, a method, a log level, and a base address of Telegram. *)
Theorem config_bounds (odd_float : string -> option float) (cookie_valid : string -> bool) (Parse : string -> option URL) (ur_Fragment : URL -> string)
    (env : environment) (order : list string) (c : Config)
    (Hodd : forall s f, odd_float s = Some f -> float_ok f) (Horder : order ≡ₚ size_keys)
    (Hc : ParseConfig odd_float cookie_valid Parse ur_Fragment env order = Ok c) :
  bounded c /\ exact odd_float env c /\ (16 <= String.length (APIKey c))%nat /\ TrimSpace (DBURL c) <> ""%string /\ cookie_valid (TikTokSessionID c) = true /\
  (InstagramMethod c = "app"%string \/ InstagramMethod c = "legacy"%string) /\ LogLevel c ∈ log_levels /\
  exists u, Parse (TelegramAPIBaseURL c) = Some u /\ base_ok ur_Fragment u = true.
Proof.
  revert Hc. unfold ParseConfig. pose proof (read_bounded odd_float env Hodd order "") as Hb. pose proof (read_faithful odd_float env Hodd order Horder ""%string) as He.
  destruct (read odd_float env order "") as [c' invalid]. cbn [fst snd] in *.
  destruct (String.eqb_spec invalid ""); [|done]. destruct (He e) as [_ Hex]. cbn [negb].
  destruct (_ && _) eqn:Em; [done|]. destruct (Nat.ltb_spec (String.length (APIKey c')) 16); [done|]. destruct (cookie_valid _) eqn:Ec; [|done]. cbn [negb].
  destruct (String.eqb_spec (TrimSpace (DBURL c')) ""); [done|]. destruct (existsb _ log_levels) eqn:El; [|done]. cbn [negb].
  destruct (Parse (TelegramAPIBaseURL c')) as [u|] eqn:Eu; [|done]. destruct (base_ok ur_Fragment u) eqn:Eb; [|done]. intros [= <-].
  split_and!; try done.
  - apply andb_false_iff in Em as [Em|Em]; apply negb_false_iff, String.eqb_eq in Em; [by left|by right].
  - apply existsb_exists in El as (l & Hl & ->%String.eqb_eq). by apply list_elem_of_In.
  - by exists u.
Qed.

(** ** Samples *)

Definition demo_base (raw : string) : option URL := match cut_string_prefix raw "https://" with Some host => Some (mkURL "https" host "" "" "") | None => None end.
Definition demo_env : list string :=
  ["tt_scrap_api_key=0123456789abcdef"; "DB_URL=postgres://db"; "CACHE_TTL_SECONDS=30.25"; "IMAGE_CONVERSION_WORKERS=0"; "TELEGRAM_UPLOAD_MAX_MB=1099511627776"; "INSTAGRAM_METHOD= Legacy"; "NOTHING"]%string.
Definition demo_config (entries : list string) : res string Config :=
  LoadConfig (fun _ => None) (fun _ => true) demo_base (fun _ => ""%string) None entries size_keys.

Example config_demo :
  match demo_config demo_env with
  | Ok c => (CacheTTL c, ImageConcurrency c, TelegramMaxBytes c, InstagramMethod c, Port c) = (30250000000, 32, 2 ^ 60, "legacy"%string, 8000)
  | Err _ => False
  end /\
  map (fun e => match demo_config (demo_env ++ [e]) with Ok _ => ""%string | Err k => k end)
    ["PORT=0"; "CACHE_TTL_SECONDS=29.999"; "MAX_ASSET_BYTES=-1"; "DB_URL= "; "LOG_LEVEL=loud"; "LOG_LEVEL=warn"; "PROXY_DATA_ONLY=maybe"; "TELEGRAM_API_BASE_URL=ftp://x"]%string
  = ["PORT"; "CACHE_TTL_SECONDS"; "MAX_ASSET_BYTES"; "DB_URL"; "LOG_LEVEL"; ""; "PROXY_DATA_ONLY"; "TELEGRAM_API_BASE_URL"]%string.
Proof. vm_compute. repeat split. Qed.

Lemma config_bounds_witness : exists c,
  ParseConfig (fun _ => None) (fun _ => true) demo_base (fun _ => ""%string) (environ demo_env) size_keys = Ok c /\ bounded c.
Proof.
  eexists. split; [vm_compute; reflexivity|].
  refine (proj1 (config_bounds (fun _ => None) (fun _ => true) demo_base (fun _ => ""%string) (environ demo_env) size_keys _ _ _ _)).
  - intros s f H. discriminate H.
  - reflexivity.
  - vm_compute. reflexivity.
Defined.
