(* ===== verification/Api.v ===== *)
(** * httpapi: routing and responses

    Models src/internal/httpapi/api.go (the routes, authentication, the answers
    and how they are written) and [readBody] and [httpURL] of validation.go.
    A service is a function from what it is asked to its answer, and a route
    lists the services it calls, in order.  net/url, net.ParseIP, idna,
    mime.ParseMediaType and the lower case of a host beyond ASCII are
    parameters; contexts, clocks and the writes to the client are inputs. *)
From S2P Require Import Prelude Strconv Errors Json JsonTotal Operation TelegramClient OperationApi Telegram Validation Media AppRoute TikTokPost.
Open Scope Z_scope.
Open Scope go_scope.

Abbreviation pairs := (list (string * string)).
Definition set_header (k v : string) (h : pairs) : pairs := (k, v) :: filter (fun kv => kv.1 <> k) h.
Definition get_header (k : string) (h : pairs) : option string := snd <$> List.find (fun kv => String.eqb kv.1 k) h.

(** ** The body of a request *)

(** What the body yields before it ends: at its end or with a failure. *)
Record body := mkBody { bd_data : bytes; bd_failed : bool }.
Definition body_limit : Z := 2 ^ 20.

(** [met]: the decoder has read up to the failure. *)
Definition readBody (ParseMediaType : string -> option string) (contentType : string) (allowEmpty : bool) (b : body) (met : bool) (ctxErr : option goerr) :
    res goerr fields :=
  let kind_ok :=
    String.eqb contentType "" ||
    match ParseMediaType contentType with
    | Some kind => String.eqb kind "application/json" || str_has_prefix kind "application/" && str_has_suffix kind "+json"
    | None => false
    end in
  if negb kind_ok then Err invalidRequest
  else
    let large := body_limit <? len (bd_data b) in
    let data := if large then take (Z.to_nat body_limit) (bd_data b) else bd_data b in
    let eof := negb large && negb (bd_failed b) in
    let refused := if negb large && bd_failed b && met then match ctxErr with Some e => Err e | None => Err invalidRequest end else Err invalidRequest in
    match skip_ws data with
    | [] => if eof && allowEmpty then Ok [] else refused
    | _ =>
        match parse_value (S (2 * length data)) 0 data with
        | Some (JObj value, rest) => match skip_ws rest with [] => if eof then Ok value else refused | _ => refused end
        | _ => refused
        end
    end.

(** ** Addresses *)

Definition JoinHostPort (host port : string) : string :=
  if contains ":" host then "[" +:+ host +:+ "]:" +:+ port else host +:+ ":" +:+ port.
Definition set_url (scheme host path : string) (u : URL) : URL := mkURL scheme host path (ur_RawQuery u) (ur_Rest u).
Definition has_space (s : string) : bool := existsb (fun a => existsb (Ascii.eqb a) [" "; "009"; "010"; "013"]%char) (String.list_ascii_of_string s).

Section Address.
Context (Parse : string -> option URL) (ToString : URL -> string) (lower : string -> string) (ParseIP : string -> bool) (ToASCII : string -> option string).

Definition httpURL (value : json) : res goerr string :=
  match value with
  | JStr text =>
      if (2083 <? String.length text)%nat then Err invalidRequest
      else
        match Parse (TrimSpace text) with
        | None => Err invalidRequest
        | Some u =>
            let scheme := lower (ur_Scheme u) in
            if negb (String.eqb scheme "http") && negb (String.eqb scheme "https") || String.eqb (ur_Host u) "" || has_space (ur_Host u) then Err invalidRequest
            else
              let host := lower (Hostname u) in
              match (if ParseIP host then Some host else ToASCII host) with
              | None => Err invalidRequest
              | Some host =>
                  let port := Port u in
                  if negb (String.eqb port "") && match Atoi port with Some n => (n <? 0) || (65535 <? n) | None => true end then Err invalidRequest
                  else
                    let port := if String.eqb scheme "https" && String.eqb port "443" || String.eqb scheme "http" && String.eqb port "80" then ""%string else port in
                    let host := if negb (String.eqb port "") then JoinHostPort host port else if contains ":" host then "[" +:+ host +:+ "]" else host in
                    Ok (ToString (set_url scheme host (if String.eqb (ur_Path u) "" then "/" else ur_Path u) u))
              end
        end
  | _ => Err invalidRequest
  end.
End Address.

(** ** Responses *)

(** A response with [rs_asset] streams a downloaded asset, which it cleans up;
    one with [rs_stream] runs the request again with this body. *)
Record response := mkResponse {
  rs_status : Z; rs_headers : pairs; rs_data : bytes; rs_asset : bool; rs_delivery : option DeliveryEvent; rs_errorCode : string; rs_stream : option bytes;
}.
Definition no_response : response := mkResponse 0 [] [] false None "" None.
Definition jsonResponse (status : Z) (value : json) : response := mkResponse status [("Content-Type", "application/json")]%string (json_print value) false None "" None.
Definition with_headers (f : pairs -> pairs) (r : response) : response :=
  mkResponse (rs_status r) (f (rs_headers r)) (rs_data r) (rs_asset r) (rs_delivery r) (rs_errorCode r) (rs_stream r).
Definition with_delivery (d : option DeliveryEvent) (r : response) : response :=
  mkResponse (rs_status r) (rs_headers r) (rs_data r) (rs_asset r) d (rs_errorCode r) (rs_stream r).
Definition with_code (code : string) (r : response) : response :=
  mkResponse (rs_status r) (rs_headers r) (rs_data r) (rs_asset r) (rs_delivery r) code (rs_stream r).

Definition detail (text : string) : json := JObj [("detail", JStr text)]%string.

(** The first 128 runes, or a new ID. *)
Fixpoint take_runes (n fuel : nat) (l : bytes) : bytes :=
  match n, fuel, l with
  | S n, S fuel, _ :: _ => let '(r, w) := decode_rune l in encode_rune r ++ take_runes n fuel (drop w l)
  | _, _, _ => []
  end.
Definition requestID (header fresh : string) : string :=
  let value := TrimSpace header in
  if String.eqb value "" then fresh
  else let l := bytes_of_string value in string_of_bytes (take_runes 128 (length l) l).

Definition errRequestCanceled : Error := NewError "request_canceled" "Request canceled by caller" 499.
Definition ErrServiceShutdown : Error := NewError "service_shutting_down" "Service is shutting down" 503.
(** [shutdown]: whether the service's end is the cause of the context's end. *)
Definition cancellation (shutdown : bool) : Error := if shutdown then ErrServiceShutdown else errRequestCanceled.

Definition errorResponse (err : goerr) (id : string) : response :=
  let '(code, message, status) :=
    match as_core err with
    | Some failure => (Code failure, Message failure, Status failure)
    | None => if is_deadline err then ("upstream_timeout", "Upstream request timed out", 504) else ("internal_error", "Internal server error", 500)
    end%string in
  with_code code (jsonResponse status (JObj [("error", JObj [("code", JStr code); ("message", JStr message); ("request_id", JStr id)])])%string).

(** ** Routes *)

Definition preparationPath : string := "/v1/tiktok/identities/preparations".
Definition instagramImportPath : string := "/v1/instagram/accounts/imports".
Definition instagramAccountsPath : string := "/v1/instagram/accounts".
Definition instagramDeviceProfilesPath : string := "/v1/instagram/device-profiles".

Definition routes : list (string * string) :=
  [(instagramDeviceProfilesPath, "GET"); (instagramImportPath, "POST"); (instagramAccountsPath, "GET"); ("/health/live", "GET"); ("/health/ready", "GET");
   ("/v1/tiktok/resolutions", "POST"); ("/v1/tiktok/extractions", "POST"); ("/v1/tiktok/music", "POST"); ("/v1/tiktok/telegram-deliveries", "POST");
   ("/v1/instagram/extractions", "POST"); ("/v1/instagram/telegram-deliveries", "POST"); (preparationPath, "GET, POST")]%string.
Definition document_paths : list string := ["/openapi.json"; "/docs"; "/redoc"; "/docs/oauth2-redirect"]%string.

Definition assetToken (path : string) : option string :=
  match cut_string_prefix path "/v1/assets/" with
  | Some token => if String.eqb token "" || contains "/" token then None else Some token
  | None => None
  end.
Definition routeMethod (path : string) : string :=
  match assetToken path with
  | Some _ => "GET"
  | None => match List.find (fun kv => String.eqb kv.1 path) routes with Some (_, m) => m | None => "" end
  end.
(** [strings.Split(method, ", ")] *)
Definition methods_of (method : string) : list string := map (fun s => match cut_string_prefix s " " with Some r => r | None => s end) (split_byte "," method).

(** [url.PathUnescape] *)
Definition hex_value (a : ascii) : option Z := hex_digit (Z.of_N (N_of_ascii a)).
Fixpoint PathUnescape (s : string) : option string :=
  match s with
  | EmptyString => Some EmptyString
  | String "%" s =>
      match s with
      | String a (String b s) =>
          match hex_value a, hex_value b, PathUnescape s with
          | Some x, Some y, Some r => Some (String (ascii_of_N (Z.to_N (16 * x + y))) r)
          | _, _, _ => None
          end
      | _ => None
      end
  | String a s => String a <$> PathUnescape s
  end%char.

Definition attachment_char (a : ascii) : option string :=
  if existsb (Ascii.eqb a) ["013"; "010"; quote; "\"]%char then Some "_"%string else None.
Definition attachmentFilename : string -> string := replace_bytes attachment_char.

(** What a request asks of the services. *)
Inductive call :=
| InstagramReady | TikTokReady
| GetAsset (token : string) | DownloadAsset (token : string)
| AccountStatus | AccountImport | PreparationStatus | StartPreparation
| ResolveURL (url : string) | TikTokExtract (url : string) (refresh : bool) | InstagramExtract (url : string) (refresh : bool) | ExtractMusic (id : string)
| Deliver (request : telegramRequest) (instagram : bool).

Record download := mkDownload { dl_ContentType : string; dl_Size : Z; dl_SHA256 : string }.

(** [dp_Instagram]: the service, if there is one, and what its [Ready] answers,
    if it has one; [dp_Accounts]: the status and the import; [dp_Identities]: the
    status, and the start with the state it reports.  [dp_GetAsset] answers with
    the file name. *)
Record Dependencies := mkDependencies {
  dp_APIKey : string; dp_InstagramMethod : string; dp_RapidAPIKey : string; dp_ActiveAccounts : Z; dp_OpenAPI : bytes; dp_page : string -> bytes; dp_profiles : json;
  dp_Instagram : option (option bool); dp_IsReady : option bool; dp_Accounts : option (json * res goerr json); dp_Identities : option (json * res goerr (string * json));
  dp_GetAsset : string -> res goerr string; dp_Download : string -> res goerr download;
  dp_ResolveURL : string -> res goerr json; dp_TikTok : string -> bool -> res goerr json; dp_InstagramURL : string -> bool -> res goerr json; dp_Music : string -> res goerr json;
  dp_deliver : telegramRequest -> bool -> deliveryResult * option goerr;
}.

Record request := mkAPIRequest {
  aq_Method : string; aq_Path : string; aq_RawQuery : string; aq_Authorization : string; aq_Accept : string; aq_ContentType : string; aq_ContentLength : Z;
  aq_body : body; aq_met : bool; aq_ctxErr : option goerr; aq_operation : bool;
  aq_import : option goerr;
}.

(** [aq_met]: see [readBody]; [aq_operation]: the context has an operation;
    [aq_import]: the error of reading an import, if any. *)

(** A response and an error, as [route] returns them, and the calls made. *)
Definition answer : Type := response * option goerr * list call.
Definition reply (r : response) : answer := (r, None, []).
Definition fail (e : goerr) : answer := (no_response, Some e, []).
Definition notConfigured (message : string) : goerr := ErrCore (NewError "service_not_configured" message 503).
(** The answer of a service, in JSON. *)
Definition served (c : call) (status : Z) (output : res goerr json) : answer :=
  match output with Ok v => (jsonResponse status v, None, [c]) | Err e => (no_response, Some e, [c]) end.

Definition authorized (apiKey authorization : string) : bool :=
  let '(scheme, token, ok) := cut_byte " " authorization in
  ok && String.eqb (ToLower scheme) "bearer" && negb (String.eqb token "") && String.eqb token apiKey.

Section Route.
Context (httpURL : json -> res goerr string) (ParseMediaType : string -> option string) (locate : string -> string -> string) (d : Dependencies).

Definition health_ready : answer :=
  let ready := match dp_Instagram d with
               | None => false
               | Some (Some ready) => ready
               | Some None => if String.eqb (dp_InstagramMethod d) "legacy" then negb (String.eqb (dp_RapidAPIKey d) "") else true
               end in
  let asked := match dp_Instagram d with Some (Some _) => [InstagramReady] | _ => [] end in
  if negb ready then (no_response, Some (notConfigured "Instagram backend is not ready"), asked)
  else
    let asked := asked ++ match dp_IsReady d with Some _ => [TikTokReady] | None => [] end in
    match dp_IsReady d with
    | Some false => (no_response, Some (notConfigured "TikTok identities are not ready"), asked)
    | _ => (jsonResponse 200 (JObj [("status", JStr "ready")]%string), None, asked)
    end.

Definition asset_route (token : string) : answer :=
  match PathUnescape token with
  | None => fail (ErrCore MissingAsset)
  | Some decoded =>
      match dp_GetAsset d decoded with
      | Err e => (no_response, Some e, [GetAsset decoded])
      | Ok name =>
          let calls := [GetAsset decoded; DownloadAsset decoded] in
          match dp_Download d decoded with
          | Err e => (no_response, Some e, calls)
          | Ok asset =>
              let filename := attachmentFilename (FilenameForType name (dl_ContentType asset)) in
              (mkResponse 200 [("Content-Type", dl_ContentType asset); ("Content-Length", Itoa (dl_Size asset));
                               ("Content-Disposition", "attachment; filename=" +:+ quoted filename); ("Etag", quoted (dl_SHA256 asset));
                               ("X-Content-Sha256", dl_SHA256 asset); ("Cache-Control", "private, no-store")]%string [] true None "" None, None, calls)
          end
      end
  end.

Definition preparation_route (method : string) (value : fields) : answer :=
  match value, dp_Identities d with
  | _ :: _, _ => fail invalidRequest
  | [], None => fail (notConfigured "TikTok identity pool is unavailable")
  | [], Some (status, start) =>
      if String.eqb method "GET" then served PreparationStatus 200 (Ok status)
      else
        match start with
        | Ok (state, status) => served StartPreparation (if String.eqb state "completed" then 200 else 202) (Ok status)
        | Err e => served StartPreparation 202 (Err e)
        end
  end.

(** An address of the body, with or without a refresh. *)
Definition extract_route (value : fields) (ask : string -> bool -> call) (extract : string -> bool -> res goerr json) : answer :=
  match httpURL (index value "url") with
  | Err e => fail e
  | Ok url => match refresh value with Err e => fail e | Ok bypass => served (ask url bypass) 200 (extract url bypass) end
  end.

Definition deliver_route (value : fields) (instagram : bool) : answer :=
  match parseTelegram httpURL value instagram with
  | Err e => fail e
  | Ok rq =>
      let '(output, err) := dp_deliver d rq instagram in
      let headers := ("Content-Type", dr_ContentType output)%string :: (if String.eqb (dr_Method output) "" then [] else [("X-Telegram-Method", dr_Method output)%string]) in
      (mkResponse (dr_Status output) headers (dr_Body output) false (dr_Event output) "" None, err, [Deliver rq instagram])
  end.

(** After authentication. *)
Definition service_route (r : request) (value : fields) : answer :=
  let path := aq_Path r in
  if String.eqb (aq_Accept r) "application/x-ndjson" && operationPath path then
    if negb (aq_operation r) then fail invalidRequest
    else reply (mkResponse 200 [("Content-Type", "application/x-ndjson"); ("Cache-Control", "no-store"); ("X-Accel-Buffering", "no")]%string [] false None "" (Some (json_print (JObj value))))
  else
    match assetToken path with
    | Some token => asset_route token
    | None =>
        if String.eqb path instagramDeviceProfilesPath then reply (jsonResponse 200 (JObj [("profiles", dp_profiles d)]%string))
        else if String.eqb path instagramAccountsPath then
          match dp_Accounts d with
          | None => fail (notConfigured "Instagram account management unavailable")
          | Some (status, _) => served AccountStatus 200 (Ok (JObj [("accounts", status); ("active_limit", JNum (Itoa (dp_ActiveAccounts d)))]%string))
          end
        else if String.eqb path instagramImportPath then
          match dp_Accounts d with
          | None => fail (notConfigured "Instagram account management unavailable")
          | Some (_, imported) =>
              match aq_import r with
              | Some e => fail e
              | None => served AccountImport 200 (match imported with Ok v => Ok (JObj [("results", v)]%string) | Err e => Err e end)
              end
          end
        else if String.eqb path preparationPath then preparation_route (aq_Method r) value
        else if String.eqb path "/v1/tiktok/resolutions" then
          match httpURL (index value "url") with Err e => fail e | Ok url => served (ResolveURL url) 200 (dp_ResolveURL d url) end
        else if String.eqb path "/v1/tiktok/extractions" then extract_route value TikTokExtract (dp_TikTok d)
        else if String.eqb path "/v1/instagram/extractions" then extract_route value InstagramExtract (dp_InstagramURL d)
        else if String.eqb path "/v1/tiktok/music" then
          match integer (index value "video_id") true with Err e => fail e | Ok id => served (ExtractMusic id) 200 (dp_Music d id) end
        else if String.eqb path "/v1/tiktok/telegram-deliveries" || String.eqb path "/v1/instagram/telegram-deliveries" then
          deliver_route value (contains "/instagram/" path)
        else reply (jsonResponse 404 (detail "Not Found"))
    end.

(** The body of a request that has one. *)
Definition request_body (r : request) : res goerr fields :=
  let path := aq_Path r in
  if negb (String.eqb path instagramImportPath) && String.eqb (aq_Method r) "POST" && (negb (String.eqb path preparationPath) || negb (aq_ContentLength r =? 0))
  then readBody ParseMediaType (aq_ContentType r) (String.eqb path preparationPath) (aq_body r) (aq_met r) (aq_ctxErr r)
  else Ok [].

Definition route (r : request) : answer :=
  let path := aq_Path r in
  if existsb (String.eqb path) document_paths then
    if negb (String.eqb (aq_Method r) "GET") && negb (String.eqb (aq_Method r) "HEAD")
    then reply (with_headers (set_header "Allow" "GET, HEAD") (jsonResponse 405 (detail "Method Not Allowed")))
    else if String.eqb path "/openapi.json" then reply (mkResponse 200 [("Content-Type", "application/json")]%string (dp_OpenAPI d) false None "" None)
    else reply (mkResponse 200 [("Content-Type", "text/html; charset=utf-8")]%string (dp_page d path) false None "" None)
  else
    let method := routeMethod path in
    if String.eqb method "" then
      let trimmed := trim_slash path in
      if negb (String.eqb trimmed path) && negb (String.eqb (routeMethod trimmed) "")
      then reply (mkResponse 307 [("Location", locate trimmed (aq_RawQuery r))]%string [] false None "" None)
      else reply (jsonResponse 404 (detail "Not Found"))
    else if negb (existsb (String.eqb (aq_Method r)) (methods_of method)) then reply (with_headers (set_header "Allow" method) (jsonResponse 405 (detail "Method Not Allowed")))
    else if String.eqb path "/health/live" then reply (jsonResponse 200 (JObj [("status", JStr "ok")]%string))
    else if String.eqb path "/health/ready" then health_ready
    else
      match request_body r with
      | Err e => fail e
      | Ok value =>
          if negb (authorized (dp_APIKey d) (aq_Authorization r))
          then fail (ErrCore (NewError "authentication_required" "A valid bearer token is required" 401))
          else service_route r value
      end.

(** [operationStream]: the request again, with the body it had. *)
Definition stream_request (r : request) (value : bytes) : request :=
  mkAPIRequest (aq_Method r) (aq_Path r) (aq_RawQuery r) (aq_Authorization r) "application/json" (aq_ContentType r) (len value) (mkBody value false) false (aq_ctxErr r) (aq_operation r) (aq_import r).
End Route.

(** ** A request *)

Definition set_code (code : string) (e : DeliveryEvent) : DeliveryEvent :=
  mkEvent (ev_Outcome e) (ev_FailedStage e) (ev_Batches e) (ev_Attempts e) (ev_Succeeded e) code (ev_TelegramStatus e) (ev_TelegramErrorCode e).

(** The end of a context: its error, and whether the service's end is its cause. *)
Definition ending : Type := option (goerr * bool).

(** What is answered when the route fails. *)
Definition settle (id : string) (ctx : ending) (result : response) (err : option goerr) : response * option goerr :=
  match err with
  | None => (result, None)
  | Some e =>
      let delivery := rs_delivery result in
      let '(e, delivery) :=
        match ctx with
        | Some (_, shutdown) =>
            if is_canceled e then
              let failure := cancellation shutdown in
              (ErrCore failure, (fun d => if String.eqb (ev_ErrorCode d) (Code errRequestCanceled) then set_code (Code failure) d else d) <$> delivery)
            else (e, delivery)
        | None => (e, delivery)
        end in
      (with_delivery delivery (errorResponse e id), Some e)
  end.

Definition to_terminal (r : response) : OperationApi.response := OperationApi.mkResponse (rs_status r) (rs_data r) (rs_errorCode r) (rs_delivery r).
Definition bool_text (b : bool) : string := if b then "true" else "false".
Definition operation_headers (t : terminalEvent) (h : pairs) : pairs :=
  set_header "X-TT-Safe-To-Retry" (bool_text (te_SafeToRetry t)) (set_header "X-TT-Delivery-State" (te_DeliveryState t) (set_header "X-TT-Operation-Attempt" (Itoa (te_Attempt t)) h)).

Inductive sent_body := Whole (data : bytes) | AssetBytes | Lines (terminal : terminalEvent) | NoBody.
Record sent := mkSent { se_status : Z; se_headers : pairs; se_body : sent_body }.
(** What [OnRequest] is told. *)
Record RequestEvent := mkRequestEvent { re_Path : string; re_Status : Z; re_WireStatus : Z; re_ErrorCode : string; re_Delivery : option DeliveryEvent }.

(** The stream of an operation: the terminal event after the route is run again. *)
Definition operationStream (id : string) (ctx : ending) (op : Operation) (again : response * option goerr) : terminalEvent * option DeliveryEvent :=
  let '(result, err) := again in
  let result :=
    match err with
    | None => result
    | Some e =>
        let reported := if is_canceled e then ErrCore (cancellation (match ctx with Some (_, shutdown) => shutdown | None => false end)) else e in
        with_delivery (rs_delivery result) (errorResponse reported id)
    end in
  ((operationTerminal op (to_terminal result) err).1, rs_delivery result).

Definition event_path (path : string) : string := if str_has_prefix path "/v1/assets/" then "/v1/assets/{token}" else path.

(** [ServeHTTP]: [admitted] is the outcome of [operationRequest] with the
    operation as the route leaves it, [routed] what the route returns, or nothing if it panics, [again]
    the same for the request of a stream, and [write] whether the body is
    interrupted, and the context then. *)
Definition ServeHTTP (head : bool) (path id timing : string) (admitted : res goerr (option Operation)) (routed again : option (response * option goerr))
    (ctx : ending) (write : option ending) : sent * option RequestEvent :=
  let panic := (mkSent 500 (set_header "Content-Type" "application/json" [("X-Request-ID", id)]%string)
                  (Whole (rs_data (errorResponse (ErrCore (NewError "internal_error" "Internal server error" 500)) id))), None) in
  let finish op result err :=
    let '(result, err) := settle id ctx result err in
    let headers := match op with
                   | Some op => operation_headers (operationTerminal op (to_terminal result) err).1 (rs_headers result)
                   | None => rs_headers result
                   end in
    let headers := set_header "Server-Timing" timing (set_header "X-Request-ID" id headers) in
    let headers := if rs_asset result then headers else set_header "Content-Length" (Itoa (len (rs_data result))) headers in
    let '(status, code, wire) :=
      match write with
      | Some over =>
          if head then (rs_status result, rs_errorCode result, 0)
          else let failure := match over with Some (_, shutdown) => cancellation shutdown | None => NewError "internal_error" "Internal server error" 500 end in
               (Status failure, Code failure, rs_status result)
      | None => (rs_status result, rs_errorCode result, 0)
      end in
    (mkSent (rs_status result) headers (if head then NoBody else if rs_asset result then AssetBytes else Whole (rs_data result)),
     Some (mkRequestEvent (event_path path) status wire code (rs_delivery result))) in
  match admitted with
  | Err e => finish None no_response (Some e)
  | Ok op =>
      match routed with
      | None => panic
      | Some (result, err) =>
          match rs_stream result, op with
          | Some _, Some o =>
              match again with
              | None => (mkSent 200 (set_header "X-Request-ID" id (rs_headers result)) NoBody, None)
              | Some again =>
                  let '(terminal, delivery) := operationStream id ctx o again in
                  (mkSent 200 (set_header "X-Request-ID" id (rs_headers result)) (Lines terminal),
                   Some (mkRequestEvent path (te_Status terminal) 200 (te_ErrorCode terminal) delivery))
              end
          | _, _ => finish op result err
          end
      end
  end.

(** ** Authentication and routes *)

Lemma authorized_key key h : authorized key h = true -> exists scheme, cut_byte " " h = (scheme, key, true) /\ ToLower scheme = "bearer"%string /\ key <> ""%string.
Proof.
  unfold authorized. destruct (cut_byte " " h) as [[scheme token] ok]. rewrite !andb_true_iff. intros [[[-> Hs%String.eqb_eq] Ht] Hk%String.eqb_eq].
  subst token. exists scheme. split_and!; try done. intros ->. done.
Qed.

(** The only calls a path may make. *)
Definition asks (path : string) (c : call) : bool :=
  match c with
  | InstagramReady | TikTokReady => String.eqb path "/health/ready"
  | GetAsset token | DownloadAsset token => bool_decide ((assetToken path ≫= PathUnescape) = Some token)
  | AccountStatus => String.eqb path instagramAccountsPath
  | AccountImport => String.eqb path instagramImportPath
  | PreparationStatus | StartPreparation => String.eqb path preparationPath
  | ResolveURL _ => String.eqb path "/v1/tiktok/resolutions"
  | TikTokExtract _ _ => String.eqb path "/v1/tiktok/extractions"
  | InstagramExtract _ _ => String.eqb path "/v1/instagram/extractions"
  | ExtractMusic _ => String.eqb path "/v1/tiktok/music"
  | Deliver _ instagram => String.eqb path (if instagram then "/v1/instagram/telegram-deliveries" else "/v1/tiktok/telegram-deliveries")
  end.
Definition asks_only (path : string) (a : answer) : Prop := Forall (fun c => asks path c = true) a.2 /\ (length a.2 <= 2)%nat.

Section RouteFacts.
Context (httpURL : json -> res goerr string) (ParseMediaType : string -> option string) (locate : string -> string -> string) (d : Dependencies).

Lemma served_asks path c status output : asks path c = true -> asks_only path (served c status output).
Proof. intros H. unfold served. destruct output; (split; [by constructor|cbn; lia]). Qed.
Lemma quiet_asks path (r : response) (e : option goerr) : asks_only path (r, e, []).
Proof. split; [constructor|cbn; lia]. Qed.

Lemma extract_asks path value ask extract : (forall url b, asks path (ask url b) = true) -> asks_only path (extract_route httpURL value ask extract).
Proof.
  intros H. unfold extract_route. destruct (httpURL _); [|apply quiet_asks]. destruct (refresh value); [|apply quiet_asks]. by apply served_asks.
Qed.

Lemma asset_asks path token : assetToken path = Some token -> asks_only path (asset_route d token).
Proof.
  intros E. unfold asset_route. destruct (PathUnescape token) as [t|] eqn:Et; [|apply quiet_asks].
  assert (asks path (GetAsset t) = true /\ asks path (DownloadAsset t) = true) as [H1 H2] by (cbn; rewrite E; cbn; by rewrite Et, bool_decide_eq_true_2).
  destruct (dp_GetAsset d t); [destruct (dp_Download d t)|]; (split; [repeat (constructor; [done|]); constructor|cbn; lia]).
Qed.

Lemma preparation_asks m value : asks_only preparationPath (preparation_route d m value).
Proof.
  unfold preparation_route. destruct value; [|apply quiet_asks]. destruct (dp_Identities d) as [[st start]|]; [|apply quiet_asks].
  destruct (String.eqb m "GET"); [by apply served_asks|]. destruct start as [[state v]|]; by apply served_asks.
Qed.

Lemma deliver_asks path value instagram : asks path (Deliver (mkRequest "" "" "" "" "" false []) instagram) = true -> asks_only path (deliver_route httpURL d value instagram).
Proof.
  intros H. unfold deliver_route. destruct (parseTelegram httpURL value instagram) as [rq|]; [|apply quiet_asks].
  destruct (dp_deliver d rq instagram). split; [by constructor|cbn; lia].
Qed.

Lemma service_asks r value : asks_only (aq_Path r) (service_route httpURL d r value).
Proof.
  unfold service_route. cbv zeta. generalize (aq_Path r) as path. intros path.
  destruct (_ && operationPath path); [destruct (negb _); apply quiet_asks|]. destruct (assetToken path) eqn:Et; [by apply asset_asks|].
  destruct (String.eqb_spec path instagramDeviceProfilesPath); [apply quiet_asks|].
  destruct (String.eqb_spec path instagramAccountsPath) as [->|]; [destruct (dp_Accounts d) as [[? ?]|]; [by apply served_asks|apply quiet_asks]|].
  destruct (String.eqb_spec path instagramImportPath) as [->|].
  { destruct (dp_Accounts d) as [[? ?]|]; [|apply quiet_asks]. destruct (aq_import r); [apply quiet_asks|by apply served_asks]. }
  destruct (String.eqb_spec path preparationPath) as [->|]; [apply preparation_asks|].
  destruct (String.eqb_spec path "/v1/tiktok/resolutions") as [->|]; [destruct (httpURL _); [by apply served_asks|apply quiet_asks]|].
  destruct (String.eqb_spec path "/v1/tiktok/extractions") as [->|]; [by apply extract_asks|].
  destruct (String.eqb_spec path "/v1/instagram/extractions") as [->|]; [by apply extract_asks|].
  destruct (String.eqb_spec path "/v1/tiktok/music") as [->|]; [destruct (integer _ _); [by apply served_asks|apply quiet_asks]|].
  destruct (String.eqb_spec path "/v1/tiktok/telegram-deliveries") as [->|]; [by apply deliver_asks|].
  destruct (String.eqb_spec path "/v1/instagram/telegram-deliveries") as [->|]; [by apply deliver_asks|apply quiet_asks].
Qed.

Lemma health_asks : asks_only "/health/ready" (health_ready d).
Proof.
  unfold health_ready. destruct (dp_Instagram d) as [[ready|]|]; [destruct ready| |]; try apply quiet_asks; cbn [negb].
  all: destruct (dp_IsReady d) as [[]|]; try destruct (if String.eqb _ _ then _ else _); cbn [negb]; (split; [repeat (constructor; [done|]); constructor|cbn; lia]).
Qed.
End RouteFacts.

(** Paths that answer without a token. *)
Definition public_path (path : string) : bool := existsb (String.eqb path) ("/health/live" :: "/health/ready" :: document_paths)%string.
(** A request that a route takes. *)
Definition routed (r : request) : bool := negb (String.eqb (routeMethod (aq_Path r)) "") && existsb (String.eqb (aq_Method r)) (methods_of (routeMethod (aq_Path r))).

Lemma route_asks (httpURL : json -> res goerr string) (ParseMediaType : string -> option string) (locate : string -> string -> string) (d : Dependencies) (r : request) :
  asks_only (aq_Path r) (route httpURL ParseMediaType locate d r).
Proof.
  unfold route. cbv zeta. destruct (existsb _ document_paths); [destruct (_ && _); [|destruct (String.eqb _ _)]; apply quiet_asks|].
  destruct (String.eqb (routeMethod _) ""); [destruct (_ && _); apply quiet_asks|]. destruct (negb (existsb _ _)); [apply quiet_asks|].
  destruct (String.eqb (aq_Path r) "/health/live"); [apply quiet_asks|]. destruct (String.eqb_spec (aq_Path r) "/health/ready") as [->|]; [apply health_asks|].
  destruct (request_body _ r); [|apply quiet_asks]. destruct (negb _); [apply quiet_asks|apply service_asks].
Qed.

Lemma route_calls (httpURL : json -> res goerr string) (ParseMediaType : string -> option string) (locate : string -> string -> string) (d : Dependencies) (r : request) :
  let '(_, _, calls) := route httpURL ParseMediaType locate d r in
  calls <> [] -> aq_Path r = "/health/ready"%string \/
    exists scheme, cut_byte " " (aq_Authorization r) = (scheme, dp_APIKey d, true) /\ ToLower scheme = "bearer"%string /\ dp_APIKey d <> ""%string.
Proof.
  unfold route. cbv zeta. destruct (existsb _ document_paths); [destruct (_ && _); [|destruct (String.eqb _ _)]; by intros H; destruct (H eq_refl)|].
  destruct (String.eqb (routeMethod _) ""); [by destruct (_ && _); cbn; intros H; destruct (H eq_refl)|]. destruct (negb (existsb _ _)); [by intros H; destruct (H eq_refl)|].
  destruct (String.eqb (aq_Path r) "/health/live"); [by intros H; destruct (H eq_refl)|]. destruct (String.eqb_spec (aq_Path r) "/health/ready") as [Hp|_]; [destruct (health_ready d) as [[? ?] ?]; by left|].
  destruct (request_body _ r); [|by intros H; destruct (H eq_refl)]. destruct (authorized _ _) eqn:Eauth; [|by intros H; destruct (H eq_refl)]. cbn [negb].
  destruct (service_route _ _ _ _) as [[? ?] ?]. intros _. right. by apply authorized_key.
Qed.

Definition unauthenticated_error : Error := NewError "authentication_required" "A valid bearer token is required" 401.

Lemma request_body_error ParseMediaType r e : request_body ParseMediaType r = Err e -> aq_Method r = "POST"%string /\ (e = invalidRequest \/ aq_ctxErr r = Some e).
Proof.
  unfold request_body. destruct (_ && _ && _) eqn:E; [|done]. rewrite !andb_true_iff in E. destruct E as [[_ Hp%String.eqb_eq] _].
  intros Eb. split; [done|]. revert Eb. unfold readBody. cbv zeta. destruct (negb _); [intros [= <-]; by left|].
  destruct (skip_ws _); [destruct (_ && _); [done|]|destruct (parse_value _ _ _) as [[[] rest]|]; [| | | | |destruct (skip_ws rest); [destruct (_ && _); [done|]|]|]].
  all: destruct (_ && aq_met r); [destruct (aq_ctxErr r)|]; intros [= <-]; first [by left|by right].
Qed.

(** The error of the body comes first. *)
Lemma unauthenticated (httpURL : json -> res goerr string) (ParseMediaType : string -> option string) (locate : string -> string -> string)
    (d : Dependencies) (r : request) :
  routed r = true -> public_path (aq_Path r) = false -> authorized (dp_APIKey d) (aq_Authorization r) = false ->
  route httpURL ParseMediaType locate d r =
    (no_response, Some (match request_body ParseMediaType r with Ok _ => ErrCore unauthenticated_error | Err e => e end), []).
Proof.
  unfold routed, public_path. cbn [existsb]. rewrite andb_true_iff, !orb_false_iff. intros [Hm Hmethod] (Hl & Hh & Hd) Hauth.
  unfold route. cbv zeta. rewrite Hd, Hmethod, Hl, Hh, Hauth. apply negb_true_iff in Hm as ->. cbn [negb].
  by destruct (request_body ParseMediaType r).
Qed.

(** C16. No service is asked anything without the service's own key as a bearer
    token, health checks apart: a request without it makes no call, and where a
    route takes it, it fails with its body's error or 401 and carries nothing; with
    it, a request makes at most two calls, and only those of its own path.  The
    public documents and checks never read the token. *)
Theorem api_authenticated (httpURL : json -> res goerr string) (ParseMediaType : string -> option string) (locate : string -> string -> string)
    (d : Dependencies) (r : request) :
  let '(result, err, calls) := route httpURL ParseMediaType locate d r in
  Forall (fun c => asks (aq_Path r) c = true) calls /\ (length calls <= 2)%nat /\
  (calls <> [] -> aq_Path r = "/health/ready"%string \/
     exists scheme, cut_byte " " (aq_Authorization r) = (scheme, dp_APIKey d, true) /\ ToLower scheme = "bearer"%string /\ dp_APIKey d <> ""%string) /\
  (authorized (dp_APIKey d) (aq_Authorization r) = false -> routed r = true -> public_path (aq_Path r) = false ->
     result = no_response /\ calls = [] /\
     exists e, err = Some e /\ (as_core e = Some (NewError "authentication_required" "A valid bearer token is required" 401) \/ e = invalidRequest \/ aq_ctxErr r = Some e)).
Proof.
  pose proof (route_asks httpURL ParseMediaType locate d r) as Hasks. pose proof (unauthenticated httpURL ParseMediaType locate d r) as Hun.
  pose proof (route_calls httpURL ParseMediaType locate d r) as Hcalls.
  destruct (route httpURL ParseMediaType locate d r) as [[result err] calls]. destruct Hasks as [Ha Hl]. split; [done|]. split; [done|]. split; [done|].
  intros Hauth Hrouted Hpub. specialize (Hun Hrouted Hpub Hauth). injection Hun as -> -> ->. split_and!; try done. eexists. split; [done|].
  destruct (request_body ParseMediaType r) as [v|e] eqn:Eb; [by left|]. right. by apply (request_body_error ParseMediaType).
Qed.

(** ** What is answered *)

Lemma get_set k v h : get_header k (set_header k v h) = Some v.
Proof. unfold get_header, set_header. cbn. by rewrite String.eqb_refl. Qed.

Lemma find_filter k k' (h : pairs) : k <> k' ->
  List.find (fun kv => String.eqb kv.1 k) (filter (fun kv => kv.1 <> k') h) = List.find (fun kv => String.eqb kv.1 k) h.
Proof.
  intros Hne. induction h as [|[k1 v1] h IH]; [done|]. destruct (decide (k1 = k')) as [->|Hk].
  - rewrite filter_cons_False by (cbn; tauto). rewrite IH. cbn [List.find fst]. by destruct (String.eqb_spec k' k).
  - rewrite filter_cons_True by done. cbn [List.find fst]. by destruct (String.eqb k1 k).
Qed.

Lemma get_set_ne k k' v h : k <> k' -> get_header k (set_header k' v h) = get_header k h.
Proof.
  intros Hne. unfold get_header, set_header. cbn [List.find fst]. destruct (String.eqb_spec k' k); [congruence|]. by rewrite find_filter.
Qed.

(** The error an API error is answered with. *)
Definition api_error (ctx : ending) (e : goerr) : Error :=
  match ctx with
  | Some (_, shutdown) => if is_canceled e then cancellation shutdown else
      default (if is_deadline e then NewError "upstream_timeout" "Upstream request timed out" 504 else NewError "internal_error" "Internal server error" 500) (as_core e)
  | None => default (if is_deadline e then NewError "upstream_timeout" "Upstream request timed out" 504 else NewError "internal_error" "Internal server error" 500) (as_core e)
  end.
Definition error_body (id : string) (f : Error) : bytes :=
  json_print (JObj [("error", JObj [("code", JStr (Code f)); ("message", JStr (Message f)); ("request_id", JStr id)])])%string.

Lemma errorResponse_spec e id : let f := api_error None e in
  rs_status (errorResponse e id) = Status f /\ rs_data (errorResponse e id) = error_body id f /\ rs_errorCode (errorResponse e id) = Code f /\
  rs_asset (errorResponse e id) = false.
Proof. unfold errorResponse, api_error. destruct (as_core e); [done|]. by destruct (is_deadline e). Qed.

Lemma settle_spec id ctx result e : let f := api_error ctx e in let '(r, e') := settle id ctx result (Some e) in
  rs_status r = Status f /\ rs_data r = error_body id f /\ rs_errorCode r = Code f /\ rs_asset r = false /\ e' <> None.
Proof.
  unfold settle. destruct ctx as [[g shutdown]|]; [destruct (is_canceled e) eqn:Ec|]; cbn [api_error]; rewrite ?Ec.
  - by destruct (errorResponse_spec (ErrCore (cancellation shutdown)) id) as (H1 & H2 & H3 & H4).
  - by destruct (errorResponse_spec e id) as (H1 & H2 & H3 & H4).
  - by destruct (errorResponse_spec e id) as (H1 & H2 & H3 & H4).
Qed.

Section Handle.
Context (httpURL : json -> res goerr string) (ParseMediaType : string -> option string) (locate : string -> string -> string) (d : Dependencies).

(** A request from its admission to its answer, where no route panics: [op] is the
    operation it carries, as the services leave it. *)
Definition handle (id timing : string) (op : option Operation) (ctx : ending) (write : option ending) (r : request) : sent * option RequestEvent :=
  let '(result, err, _) := route httpURL ParseMediaType locate d r in
  let again := match rs_stream result with
               | Some value => let '(result, err, _) := route httpURL ParseMediaType locate d (stream_request r value) in Some (result, err)
               | None => None
               end in
  ServeHTTP (String.eqb (aq_Method r) "HEAD") (aq_Path r) id timing (Ok op) (Some (result, err)) again ctx write.

(** An ordinary answer: status, body unless the method is HEAD, and headers. *)
Definition ordinary (head : bool) (id : string) (status : Z) (data : bytes) (allow : option string) (w : sent) : Prop :=
  se_status w = status /\ se_body w = (if head then NoBody else Whole data) /\ get_header "X-Request-ID" (se_headers w) = Some id /\
  get_header "Content-Length" (se_headers w) = Some (Itoa (len data)) /\ get_header "Allow" (se_headers w) = allow.

Lemma ordinary_reply head path id timing op ctx write result (again : option (response * option goerr)) :
  rs_stream result = None -> rs_asset result = false ->
  ordinary head id (rs_status result) (rs_data result) (get_header "Allow" (rs_headers result)) (ServeHTTP head path id timing (Ok op) (Some (result, None)) again ctx write).1.
Proof.
  intros Hs Ha. unfold ServeHTTP. rewrite Hs. cbn [settle]. rewrite Ha.
  destruct (match write with Some _ => _ | None => _ end) as [[st co] wi]. cbn [fst].
  split_and!; try done; cbn [se_headers].
  rewrite !get_set_ne by done. destruct op; [unfold operation_headers; by rewrite !get_set_ne by done|done].
Qed.

Lemma ordinary_error head path id timing op ctx write result e (again : option (response * option goerr)) :
  rs_stream result = None -> let f := api_error ctx e in
  let '(w, event) := ServeHTTP head path id timing (Ok op) (Some (result, Some e)) again ctx write in
  ordinary head id (Status f) (error_body id f) None w /\ exists ev, event = Some ev /\ (write = None -> re_Status ev = Status f /\ re_ErrorCode ev = Code f /\ re_WireStatus ev = 0).
Proof.
  intros Hs f. unfold ServeHTTP. rewrite Hs. pose proof (settle_spec id ctx result e) as H. cbv zeta in H.
  assert (get_header "Allow" (rs_headers (settle id ctx result (Some e)).1) = None) as Hallow.
  { unfold settle. destruct (match ctx with Some _ => _ | None => _ end) as [e' d']. cbn [fst with_delivery rs_headers]. unfold errorResponse.
    destruct (match as_core e' with Some _ => _ | None => _ end) as [[c m] s]. done. }
  destruct (settle id ctx result (Some e)) as [r' err']. destruct H as (H1 & H2 & H3 & H4 & _). rewrite H4. cbn [fst] in Hallow.
  destruct (match write with Some _ => _ | None => _ end) as [[st co] wi] eqn:Ew. cbn [fst snd]. split.
  - rewrite H1, H2. split_and!; try done; cbn [se_headers].
    rewrite !get_set_ne by done. destruct op; [unfold operation_headers; by rewrite !get_set_ne by done|done].
  - eexists. split; [reflexivity|]. intros ->. injection Ew as <- <- <-. cbn. by rewrite H1, H3.
Qed.
End Handle.

(** C40. What a request is answered when no service is asked: 404 for a path no
    route has, unless it has one without its last slash, which is where 307 sends
    it; 405 with the methods allowed for any other method; and for a request
    that lacks the key, 401 with the error's code, its message and the request's
    ID, whatever the state of the context, unless the request has a body and the body
    is refused, which is answered first: that is 422, or what the context's
    end is answered with if it ended the reading. Every one of
    these answers names the request's ID and its own length. *)
Theorem api_refusals (httpURL : json -> res goerr string) (ParseMediaType : string -> option string) (locate : string -> string -> string) (d : Dependencies)
    (id timing : string) (op : option Operation) (ctx : ending) (write : option ending) (r : request) :
  let w := (handle httpURL ParseMediaType locate d id timing op ctx write r).1 in
  let path := aq_Path r in let head := String.eqb (aq_Method r) "HEAD" in
  existsb (String.eqb path) document_paths = false ->
  (routeMethod path = ""%string -> (trim_slash path <> path /\ routeMethod (trim_slash path) <> ""%string /\
       ordinary head id 307 [] None w /\ get_header "Location" (se_headers w) = Some (locate (trim_slash path) (aq_RawQuery r)) \/
     (trim_slash path = path \/ routeMethod (trim_slash path) = ""%string) /\ ordinary head id 404 (json_print (detail "Not Found")) None w)) /\
  (routeMethod path <> ""%string -> existsb (String.eqb (aq_Method r)) (methods_of (routeMethod path)) = false ->
     ordinary head id 405 (json_print (detail "Method Not Allowed")) (Some (routeMethod path)) w) /\
  (routed r = true -> public_path path = false -> authorized (dp_APIKey d) (aq_Authorization r) = false ->
     match request_body ParseMediaType r with
     | Ok _ => ordinary head id 401 (error_body id unauthenticated_error) None w
     | Err e => aq_Method r = "POST"%string /\ (e = invalidRequest /\ ordinary head id 422 (error_body id (api_error ctx invalidRequest)) None w \/
         aq_ctxErr r = Some e /\ ordinary head id (Status (api_error ctx e)) (error_body id (api_error ctx e)) None w)
     end).
Proof.
  cbv zeta. intros Hdocs. split; [|split].
  - intros Hm. unfold handle, route. cbv zeta. rewrite Hdocs, Hm. cbn [String.eqb].
    destruct (String.eqb_spec (trim_slash (aq_Path r)) (aq_Path r)) as [Ht|Ht]; cbn [negb andb].
    { right. split; [by left|]. by apply (ordinary_reply _ _ _ _ _ _ _ (jsonResponse 404 (detail "Not Found"))). }
    destruct (String.eqb_spec (routeMethod (trim_slash (aq_Path r))) "") as [Hr|Hr]; cbn [negb].
    { right. split; [by right|]. by apply (ordinary_reply _ _ _ _ _ _ _ (jsonResponse 404 (detail "Not Found"))). }
    left. split; [done|]. split; [done|]. set (moved := mkResponse 307 [("Location", locate (trim_slash (aq_Path r)) (aq_RawQuery r))]%string [] false None "" None). split.
    { exact (ordinary_reply (String.eqb (aq_Method r) "HEAD") (aq_Path r) id timing op ctx write moved None eq_refl eq_refl). }
    subst moved. unfold ServeHTTP, reply. cbn [rs_stream settle rs_asset]. destruct (match write with Some _ => _ | None => _ end) as [[? ?] ?]. cbn [fst se_headers].
    rewrite !get_set_ne by done. destruct op; [unfold operation_headers; by rewrite !get_set_ne by done|done].
  - intros Hm Hmethod. unfold handle, route. cbv zeta. rewrite Hdocs, Hmethod. apply String.eqb_neq in Hm as ->. cbn [negb].
    assert (get_header "Allow" (rs_headers (with_headers (set_header "Allow" (routeMethod (aq_Path r))) (jsonResponse 405 (detail "Method Not Allowed")))) = Some (routeMethod (aq_Path r))) as Hallow
      by apply get_set.
    rewrite <- Hallow. by apply (ordinary_reply _ _ _ _ _ _ _ (with_headers (set_header "Allow" (routeMethod (aq_Path r))) (jsonResponse 405 (detail "Method Not Allowed")))).
  - intros Hrouted Hpub Hauth. unfold handle. rewrite (unauthenticated httpURL ParseMediaType locate d r Hrouted Hpub Hauth).
    pose proof (request_body_error ParseMediaType r) as He. set (e := match request_body ParseMediaType r with Ok _ => _ | Err e => e end).
    pose proof (ordinary_error (String.eqb (aq_Method r) "HEAD") (aq_Path r) id timing op ctx write no_response e None eq_refl) as H. cbv zeta in H.
    destruct (ServeHTTP _ _ _ _ _ _ _ _ _) as [w ev]. destruct H as [H _]. subst e. cbn [fst].
    assert (forall f, api_error ctx (ErrCore f) = f) as Hcore by (intros f; unfold api_error; by destruct ctx as [[? ?]|]).
    destruct (request_body ParseMediaType r) as [v|e]; [by rewrite Hcore in H|].
    destruct (He e eq_refl) as [Hp [->|Hc]]; (split; [done|]); [left|right]; (split; [done|]); [|done].
    unfold invalidRequest in *. by rewrite Hcore in H |- *.
Qed.

(** A body that is accepted is whole, at most a megabyte, and one object. *)
Lemma readBody_sound ParseMediaType contentType allowEmpty b met ctxErr v : readBody ParseMediaType contentType allowEmpty b met ctxErr = Ok v ->
  bd_failed b = false /\ len (bd_data b) <= body_limit /\ (json_parse (bd_data b) = Some (JObj v) \/ allowEmpty = true /\ skip_ws (bd_data b) = [] /\ v = []).
Proof.
  unfold readBody. cbv zeta. destruct (negb _); [done|]. destruct (Z.ltb_spec body_limit (len (bd_data b))) as [|Hl]; cbn [negb andb].
  { destruct (skip_ws _); [done|]. destruct (parse_value _ _ _) as [[[] rest]|]; try done. by destruct (skip_ws rest). }
  set (refused := if bd_failed b && met then match ctxErr with Some e => Err e | None => Err invalidRequest end else Err invalidRequest : res goerr fields).
  assert (refused <> Ok v) as Hbad by (unfold refused; destruct (_ && met); [destruct ctxErr|]; done).
  destruct (skip_ws (bd_data b)) eqn:Es.
  { destruct (bd_failed b) eqn:Ef; cbn [negb andb].
    - by intros ?%Hbad.
    - destruct allowEmpty; [|done]. intros [= <-]. split; [done|]. split; [lia|]. by right. }
  destruct (parse_value _ _ _) as [[j rest]|] eqn:Ep; [|by intros ?%Hbad].
  destruct j as [| | | | |value]; try by intros ?%Hbad. destruct (skip_ws rest) eqn:Er; [|by intros ?%Hbad].
  destruct (bd_failed b) eqn:Ef; cbn [negb]; [by intros ?%Hbad|]. intros [= <-]. split_and!; try done. left. unfold json_parse. by rewrite Ep, Er.
Qed.

(** ** Samples *)

Definition demo_dependencies : Dependencies := {|
  dp_APIKey := "0123456789abcdef"; dp_InstagramMethod := "app"; dp_RapidAPIKey := ""; dp_ActiveAccounts := 10; dp_OpenAPI := []; dp_page := fun _ => []; dp_profiles := JArr [];
  dp_Instagram := Some (Some true); dp_IsReady := Some true; dp_Accounts := None; dp_Identities := None;
  dp_GetAsset := fun _ => Ok "clip.bin"%string; dp_Download := fun _ => Ok (mkDownload "video/mp4" 7 "aa");
  dp_ResolveURL := fun url => Ok (JStr url); dp_TikTok := fun _ _ => Err (ErrCore (Upstream "no")); dp_InstagramURL := fun _ _ => Err ErrCanceled; dp_Music := fun id => Ok (JStr id);
  dp_deliver := fun _ _ => (no_result, None);
|}.
Definition demo_httpURL (v : json) : res goerr string := match v with JStr s => Ok s | _ => Err invalidRequest end.
Definition demo_request (method path authorization data : string) : request :=
  mkAPIRequest method path "" authorization "" "" (Z.of_nat (String.length data)) (mkBody (bytes_of_string data) false) false None false None.
Definition quotes (s : string) : string := replace_bytes (fun a => if Ascii.eqb a "'" then Some (String quote EmptyString) else None) s.
Definition bearer : string := "bearer 0123456789abcdef".
Definition demo_answer (r : request) : Z * option string * list call :=
  let '(result, err, calls) := route demo_httpURL (fun s => Some s) (fun p _ => p) demo_dependencies r in
  (rs_status result, Code <$> (err ≫= as_core), calls).

Example api_demo :
  map demo_answer [demo_request "GET" "/health/ready" "" ""; demo_request "GET" "/v1/assets/a%2Fb" bearer ""; demo_request "GET" "/v1/assets/a%2Fb" "Basic x" "";
                   demo_request "POST" "/v1/tiktok/resolutions" bearer (quotes "{'url':'u'} "); demo_request "POST" "/v1/tiktok/resolutions" bearer (quotes "{'url':'u'} x");
                   demo_request "POST" "/v1/tiktok/resolutions" "Bearer 0123456789abcdeF" (quotes "{'url':'u'}"); demo_request "PUT" "/v1/tiktok/resolutions" "" "";
                   demo_request "GET" "/v1/tiktok/resolutions/" "" ""; demo_request "GET" "/v1/x" "" ""; demo_request "POST" "/v1/tiktok/music" bearer (quotes "{'video_id':'0071'}")]
  = [(200, None, [InstagramReady; TikTokReady]); (200, None, [GetAsset "a/b"; DownloadAsset "a/b"]); (0, Some "authentication_required", []);
     (200, None, [ResolveURL "u"]); (0, Some "validation_error", []); (0, Some "authentication_required", []); (405, None, []); (307, None, []); (404, None, []);
     (200, None, [ExtractMusic "71"])]%string.
Proof. vm_compute. reflexivity. Qed.

Lemma api_refusals_witness :
  let r := demo_request "GET" "/v1/x/" "" "" in
  existsb (String.eqb (aq_Path r)) document_paths = false /\
  ordinary false "id" 404 (json_print (detail "Not Found")) None (handle demo_httpURL (fun s => Some s) (fun p _ => p) demo_dependencies "id" "" None None None r).1.
Proof.
  split; [reflexivity|].
  destruct (proj1 (api_refusals demo_httpURL (fun s => Some s) (fun p _ => p) demo_dependencies "id" "" None None None (demo_request "GET" "/v1/x/" "" "") eq_refl) eq_refl)
    as [(_ & H & _)|(_ & H)]; [destruct (H eq_refl)|exact H].
Defined.
