(* ===== verification/Ownership.v ===== *)
(** * identity: who owns the database

    Models src/internal/identity/store.go (claim, retake, connect, disconnect,
    sync, the persistence loop and its end) and the ownership part of [Open] in
    pool.go.  Any number of processes share one database; a step is one
    statement of one of them, or the death of a server process.  A statement may
    be applied and its answer lost; a connection closed on this side may live on
    at the server and keep its lock.  What a save writes is Pool.v's; here it is
    the process that wrote.  A server process is never reused: its start time
    tells it from another of the same number. *)
From S2P Require Import Prelude.
From stdpp Require Import gmap.
Open Scope Z_scope.

(** ** Errors *)

Inductive dberr :=
| EOwnershipLost | EConflict | EPreviousOwner
| EPg (code : string)          (* *pgconn.PgError *)
| EDatabase (message : string).

Definition code_class (e : dberr) (class : string) : bool := match e with EPg code => str_has_prefix code class | _ => false end.
Definition fatal (e : dberr) : bool := match e with EOwnershipLost | EConflict => true | _ => code_class e "23" end.
Definition permanent (e : dberr) : bool := code_class e "42" || code_class e "3F".

(** ** The persistence loop *)

Record persistTiming := mkTiming { pt_probe : Z; pt_shutdown : Z; pt_minBackoff : Z; pt_maxBackoff : Z }.
Definition Second_ : Z := 1000000000.
Definition defaultPersistTiming : persistTiming := mkTiming (5 * Second_) (10 * Second_) Second_ (30 * Second_).

(** [pl_timer]: when the timer fires, while it is armed; [pl_retryAt] is absent
    for the zero time. *)
Record loop := mkLoop {
  pl_failed : bool; pl_unwritable : option dberr; pl_db : bool; pl_retryAt : option Z; pl_failingSince : option Z; pl_backoff : Z; pl_timer : option Z;
}.

(** With whether it wakes those that wait for identities. *)
Definition setUnwritable (e : option dberr) (old : option dberr) : option dberr * bool :=
  (e, match e, old with Some _, None => true | _, _ => false end).

Inductive wakeup := PersistWake | TimerFired.

(** What a sync ends with: its error, and whether the connection is then closed. *)
Record synced := mkSynced { sy_error : option dberr; sy_db : bool; sy_closed : bool }.

(** [dropIfClosed] *)
Definition drop (s : synced) : bool := sy_db s && negb (sy_closed s).

Section Loop.
Context (timing : persistTiming).

Definition turns (now : Z) (l : loop) : bool := negb (pl_failed l || match pl_retryAt l with Some t => now <? t | None => false end).

(** One turn: it waits for [w] at [now], and syncs if it is time to, which ends at [later]. *)
Definition persist_turn (w : wakeup) (now later : Z) (s : synced) (l : loop) : loop :=
  let l := mkLoop (pl_failed l) (pl_unwritable l) (pl_db l) (pl_retryAt l) (pl_failingSince l) (pl_backoff l)
             (match w with TimerFired => None | PersistWake => pl_timer l end) in
  if negb (turns now l) then l
  else
    match sy_error s with
    | None => mkLoop false None (sy_db s) None None 0 (Some (later + pt_probe timing))
    | Some e =>
        if fatal e then mkLoop true (pl_unwritable l) false (pl_retryAt l) (pl_failingSince l) (pl_backoff l) (pl_timer l)
        else
          let failing := match pl_failingSince l with Some t => t | None => later end in
          let backoff := Z.min (Z.max (2 * pl_backoff l) (pt_minBackoff timing)) (pt_maxBackoff timing) in
          mkLoop false (if permanent e then (setUnwritable (Some e) (pl_unwritable l)).1 else pl_unwritable l) (drop s)
            (Some (later + backoff)) (Some failing) backoff (Some (later + backoff))
    end.

(** [saveBeforeClose]: each round says what is pending, how the sync ends, and
    whether Close's deadline comes before the next.  The result is whether the state
    could be saved, where it had to be. *)
Record last_round := mkRound { lr_pending : bool; lr_sync : synced; lr_over : bool }.
Fixpoint saveBeforeClose (failed db : bool) (rounds : list last_round) : option bool :=
  if failed then Some true
  else
    match rounds with
    | [] => None
    | r :: rounds =>
        if negb db && negb (lr_pending r) then Some true
        else
          match sy_error (lr_sync r) with
          | None => Some true
          | Some e => if negb (fatal e) && negb (lr_over r) then saveBeforeClose false (drop (lr_sync r)) rounds else Some false
          end
    end.
End Loop.

(** ** Processes and the database *)

Inductive pc :=
| Opening | OpenClaim (b : nat) | OpenLoad (b : nat)
| Serving
| Claiming (b : nat) (again : bool) | Looking (b : nat) (again : bool) | Checking (b : nat)
| Closed.

Record process := mkProcess { pr_pc : pc; pr_db : option nat; pr_connected : bool; pr_owner : option nat; pr_token : option nat; pr_failed : bool }.
Definition new_process : process := mkProcess Opening None false None None false.
Definition at_pc (c : pc) (s : process) : process := mkProcess c (pr_db s) (pr_connected s) (pr_owner s) (pr_token s) (pr_failed s).

Inductive event := Loaded (i : nat) | Saved (i : nat).

(** [db_live]: the server processes, and whose connection they serve. *)
Record world := mkWorld {
  db_lock : option nat; db_token : option nat; db_live : gmap nat nat; db_next : nat; db_tokens : nat; db_log : list event; db_procs : gmap nat process;
}.
Definition set_proc (i : nat) (s : process) (w : world) : world :=
  mkWorld (db_lock w) (db_token w) (db_live w) (db_next w) (db_tokens w) (db_log w) (<[i := s]> (db_procs w)).
Definition set_lock (l : option nat) (w : world) : world := mkWorld l (db_token w) (db_live w) (db_next w) (db_tokens w) (db_log w) (db_procs w).
Definition add_event (e : event) (w : world) : world := mkWorld (db_lock w) (db_token w) (db_live w) (db_next w) (db_tokens w) (db_log w ++ [e]) (db_procs w).
Definition set_token (w : world) : world := mkWorld (db_lock w) (Some (db_tokens w)) (db_live w) (db_next w) (S (db_tokens w)) (db_log w) (db_procs w).
Definition alive (w : world) (b : nat) : bool := bool_decide (is_Some (db_live w !! b)).

(** pg_try_advisory_lock: a session may take its own lock again. *)
Definition claimable (w : world) (b : nat) : bool := match db_lock w with None => true | Some b' => (b =? b')%nat end.

(** Losing the connection, and stopping for good. *)
Definition disconnect (s : process) : process := mkProcess (pr_pc s) None false (pr_owner s) (pr_token s) (pr_failed s).
Definition fail (s : process) : process := mkProcess Serving None false (pr_owner s) (pr_token s) true.

(** A statement is applied or not, and its answer seen or not. *)
Inductive action :=
| Start (i : nat)
| Connect (i : nat)
| Statement (i : nat) (applied seen : bool)
| Save (i : nat) (applied seen closed : bool)
| Conflict (i : nat)
| Close (i : nat)
| Die (b : nat).

Definition connect_pc (s : process) (b : nat) : option pc :=
  match pr_pc s with
  | Opening => Some (OpenClaim b)
  | Serving => match pr_db s with None => if pr_failed s then None else Some (Claiming b false) | Some _ => None end
  | _ => None
  end.

(** [claim] with the connection [b], and where its caller goes. *)
Definition claim (i b : nat) (applied seen : bool) (owned refused lost : pc) (s : process) (w : world) : world :=
  let took := alive w b && applied && claimable w b in
  let answered := alive w b && applied && seen in
  let w := if took then set_lock (Some b) w else w in
  if answered then
    if took then set_proc i (mkProcess owned (pr_db s) (pr_connected s) (Some b) (pr_token s) (pr_failed s)) w
    else set_proc i (at_pc refused s) w
  else set_proc i (at_pc lost s) w.

Definition statement (i : nat) (applied seen : bool) (s : process) (w : world) : world :=
  match pr_pc s with
  | OpenClaim b => claim i b applied seen (OpenLoad b) Closed Closed s w
  | OpenLoad b =>
      (* the transaction of [initialize]: the state is loaded under a new token *)
      if alive w b && applied then
        let t := db_tokens w in
        let w := add_event (Loaded i) (set_token w) in
        if seen then set_proc i (mkProcess Serving (Some b) true (pr_owner s) (Some t) false) w else set_proc i (at_pc Closed s) w
      else set_proc i (at_pc Closed s) w
  | Claiming b again => claim i b applied seen (Checking b) (Looking b again) Serving s w
  | Looking b again =>
      if alive w b && seen then
        if match pr_owner s with Some p => alive w p && negb (p =? b)%nat | None => false end
        then set_proc i (at_pc Serving s) w                             (* errPreviousOwner *)
        else if again then set_proc i (fail s) w                        (* errOwnershipLost *)
        else set_proc i (at_pc (Claiming b true) s) w
      else set_proc i (at_pc Serving s) w
  | Checking b =>
      if alive w b && seen then
        if match db_token w, pr_token s with Some t, Some t' => (t =? t')%nat | _, _ => false end
        then set_proc i (mkProcess Serving (Some b) true (pr_owner s) (pr_token s) (pr_failed s)) w
        else set_proc i (fail s) w
      else set_proc i (at_pc Serving s) w
  | _ => w
  end.

Definition step (a : action) (w : world) : world :=
  match a with
  | Start i => match db_procs w !! i with None => set_proc i new_process w | Some _ => w end
  | Connect i =>
      match db_procs w !! i with
      | Some s =>
          let b := db_next w in
          match connect_pc s b with
          | Some c => set_proc i (at_pc c s) (mkWorld (db_lock w) (db_token w) (<[b := i]> (db_live w)) (S b) (db_tokens w) (db_log w) (db_procs w))
          | None => w
          end
      | None => w
      end
  | Statement i applied seen => match db_procs w !! i with Some s => statement i applied seen s w | None => w end
  | Save i applied seen closed =>
      match db_procs w !! i with
      | Some s =>
          match pr_db s with
          | Some b =>
              let done := alive w b && applied in
              let w := if done then add_event (Saved i) w else w in
              if done && seen then w else if closed then set_proc i (disconnect s) w else w
          | None => w
          end
      | None => w
      end
  | Conflict i => match db_procs w !! i with Some s => match pr_db s with Some _ => set_proc i (fail s) w | None => w end | None => w end
  | Close i => match db_procs w !! i with Some s => set_proc i (at_pc Closed (disconnect s)) w | None => w end
  | Die b => mkWorld (if bool_decide (db_lock w = Some b) then None else db_lock w) (db_token w) (delete b (db_live w)) (db_next w) (db_tokens w) (db_log w) (db_procs w)
  end.
Definition run (l : list action) (w : world) : world := fold_left (fun w a => step a w) l w.

Definition new_world : world := mkWorld None None ∅ 0 0 [] ∅.

(** ** One owner at a time *)

(** The process whose state is the database's. *)
Fixpoint loader (cur : option nat) (log : list event) : option nat :=
  match log with [] => cur | Loaded i :: log => loader (Some i) log | Saved _ :: log => loader cur log end.
(** Every save is by the process that loaded last. *)
Fixpoint orderly (cur : option nat) (log : list event) : Prop :=
  match log with [] => True | Loaded i :: log => orderly (Some i) log | Saved i :: log => cur = Some i /\ orderly cur log end.

Lemma loader_app cur l1 l2 : loader cur (l1 ++ l2) = loader (loader cur l1) l2.
Proof. revert cur. induction l1 as [|[i|i] l1 IH]; intros cur; cbn; auto. Qed.
Lemma orderly_app cur l1 l2 : orderly cur (l1 ++ l2) <-> orderly cur l1 /\ orderly (loader cur l1) l2.
Proof. revert cur. induction l1 as [|[i|i] l1 IH]; intros cur; cbn; rewrite ?IH; tauto. Qed.

(** The connection a process uses, and the one it relies on for its lock. *)
Definition uses (s : process) (b : nat) : Prop :=
  pr_db s = Some b \/ match pr_pc s with OpenClaim b' | OpenLoad b' | Claiming b' _ | Looking b' _ | Checking b' => b' = b | _ => False end.
Definition holds (s : process) (b : nat) : Prop := pr_db s = Some b \/ match pr_pc s with OpenLoad b' | Checking b' => b' = b | _ => False end.

Record process_ok (w : world) (i : nat) (s : process) : Prop := {
  ok_uses b : uses s b -> (b < db_next w)%nat /\ forall j, db_live w !! b = Some j -> j = i;
  ok_holds b : holds s b -> is_Some (db_live w !! b) -> db_lock w = Some b;
  ok_db b : pr_db s = Some b -> is_Some (db_live w !! b) -> exists t, pr_token s = Some t /\ db_token w = Some t;
  ok_serving : pr_db s <> None -> pr_pc s = Serving;
  ok_failed : pr_failed s = true -> pr_db s = None /\ match pr_pc s with Serving | Closed => True | _ => False end;
  ok_connected : pr_connected s = true <-> pr_db s <> None;
  ok_token t : pr_token s = Some t -> (t < db_tokens w)%nat;
  ok_loader t : pr_token s = Some t -> db_token w = Some t -> loader None (db_log w) = Some i;
}.

Record world_ok (w : world) : Prop := {
  ok_lock b : db_lock w = Some b -> is_Some (db_live w !! b);
  ok_live b : is_Some (db_live w !! b) -> (b < db_next w)%nat;
  ok_tokens t : db_token w = Some t -> (t < db_tokens w)%nat;
  ok_orderly : orderly None (db_log w);
  ok_procs i s : db_procs w !! i = Some s -> process_ok w i s;
}.

Lemma alive_spec w b : alive w b = true <-> is_Some (db_live w !! b).
Proof. unfold alive. by rewrite bool_decide_eq_true. Qed.

(** The database changes and every process stays as it was. *)
Lemma same_procs_ok w i s w' : process_ok w i s ->
  (db_next w <= db_next w')%nat -> (forall b j, (b < db_next w)%nat -> db_live w' !! b = Some j -> db_live w !! b = Some j) ->
  (forall b, db_lock w = Some b -> is_Some (db_live w' !! b) -> db_lock w' = Some b) ->
  db_token w' = db_token w -> db_tokens w' = db_tokens w -> loader None (db_log w') = loader None (db_log w) ->
  process_ok w' i s.
Proof.
  intros [P1 P2 P3 P4 PF P5 P6 P7] Hn Hlive Hlock Ht Hts Hl. split; rewrite ?Ht, ?Hts, ?Hl; try done.
  - intros b Hb. destruct (P1 b Hb) as [Hlt Hj]. split; [lia|]. intros j Hlj. by apply Hj, Hlive.
  - intros b Hb Hs. apply Hlock; [|done]. apply P2; [done|]. destruct Hs as [j Hj]. exists j. apply Hlive; [|done].
    apply P1. destruct Hb as [Hb|Hb]; [by left|right]. by destruct (pr_pc s).
  - intros b Hb [j Hj]. apply (P3 b Hb). exists j. apply Hlive; [|done]. apply P1. by left.
Qed.

(** A step of one process that leaves the database as it is. *)
Lemma set_proc_ok w i s : world_ok w -> process_ok w i s -> world_ok (set_proc i s w).
Proof.
  intros [H1 H2 H3 H4 H5] Hs. split; cbn; try done. intros j s'. destruct (decide (i = j)) as [->|Hne].
  - rewrite lookup_insert_eq. intros [= <-]. by apply (same_procs_ok w).
  - rewrite lookup_insert_ne by done. intros Hj. by apply (same_procs_ok w); [apply H5|..].
Qed.

(** Moving on without a lock to rely on. *)
Lemma at_pc_ok w i s c : process_ok w i s -> pr_db s = None -> (match c with OpenLoad _ | Checking _ => False | _ => True end) ->
  (pr_failed s = true -> match c with Serving | Closed => True | _ => False end) ->
  (forall b, uses (at_pc c s) b -> uses s b \/ (b < db_next w)%nat /\ forall j, db_live w !! b = Some j -> j = i) -> process_ok w i (at_pc c s).
Proof.
  intros [P1 P2 P3 P4 PF P5 P6 P7] Hdb Hc Hf Hu. split; cbn; try done; try (by auto).
  - intros b Hb. destruct (Hu b Hb) as [Hb'|Hb']; [by apply P1|done].
  - intros b [Hb|Hb]; cbn in Hb; [congruence|by destruct c].
  - intros H. split; [done|by apply Hf].
Qed.

Lemma disconnect_ok w i s c : process_ok w i s -> (match c with Serving | Closed => True | _ => False end) -> process_ok w i (at_pc c (disconnect s)).
Proof.
  intros [P1 P2 P3 P4 PF P5 P6 P7] Hc. split; cbn; try done.
  - intros b [Hb|Hb]; cbn in Hb; [done|by destruct c].
  - intros b [Hb|Hb]; cbn in Hb; [done|by destruct c].
Qed.
Lemma fail_ok w i s : process_ok w i s -> process_ok w i (fail s).
Proof.
  intros [P1 P2 P3 P4 PF P5 P6 P7]. split; cbn; try done.
  - intros b [Hb|Hb]; done.
  - intros b [Hb|Hb]; done.
Qed.

Lemma no_db w i s b : process_ok w i s -> pr_pc s <> Serving -> pr_db s = Some b -> False.
Proof. intros Hp Hpc Hdb. apply Hpc, (ok_serving _ _ _ Hp). by rewrite Hdb. Qed.
Lemma not_failed w i s : process_ok w i s -> (match pr_pc s with Serving | Closed => False | _ => True end) -> pr_failed s = false.
Proof. intros Hp Hpc. destruct (pr_failed s) eqn:E; [|done]. destruct (ok_failed _ _ _ Hp E) as [_ H]. by destruct (pr_pc s). Qed.
Lemma idle_db w i s : process_ok w i s -> pr_pc s <> Serving -> pr_db s = None.
Proof. intros Hp Hpc. destruct (pr_db s) as [b|] eqn:E; [|done]. by destruct (no_db _ _ _ _ Hp Hpc E). Qed.

Lemma set_lock_ok w b : world_ok w -> alive w b = true -> claimable w b = true -> world_ok (set_lock (Some b) w).
Proof.
  intros [H1 H2 H3 H4 H5] Ha%alive_spec Hc. split; cbn; try done.
  - by intros b' [= <-].
  - intros i s Hs. apply (same_procs_ok w); cbn; auto.
    intros b' Hb' _. unfold claimable in Hc. rewrite Hb' in Hc. apply Nat.eqb_eq in Hc. by subst.
Qed.

Lemma claim_ok w i s b applied seen owned refused lost : world_ok w -> process_ok w i s -> uses s b -> pr_db s = None -> pr_failed s = false ->
  (owned = OpenLoad b \/ owned = Checking b) ->
  (forall c, c = refused \/ c = lost -> c = Serving \/ c = Closed \/ exists again, c = Looking b again) ->
  world_ok (claim i b applied seen owned refused lost s w).
Proof.
  intros Hw Hp Hu Hdb Hnf Ho Hrl.
  assert (forall w' c, process_ok w' i s -> c = refused \/ c = lost -> process_ok w' i (at_pc c s)) as Hmove.
  { intros w' c Hp' Hc. destruct (Hrl c Hc) as [->|[->|[again ->]]]; apply at_pc_ok; try done; try congruence; intros b' [Hb'|Hb']; cbn in Hb'; try (by left; left); try done.
    subst. by left. }
  unfold claim. destruct (alive w b && applied && claimable w b) eqn:Et.
  - apply andb_true_iff in Et as [Et Hc]. apply andb_true_iff in Et as [Ha Happ]. rewrite Ha, Happ. cbn [andb].
    pose proof (set_lock_ok w b Hw Ha Hc) as Hw'.
    assert (process_ok (set_lock (Some b) w) i s) as Hp'.
    { apply (same_procs_ok w); cbn; auto. intros b' Hb' _. unfold claimable in Hc. rewrite Hb' in Hc. apply Nat.eqb_eq in Hc. by subst. }
    destruct seen; apply set_proc_ok; try done.
    + destruct Hp' as [P1 P2 P3 P4 PF P5 P6 P7]. split; cbn; try done; try congruence.
      * intros b' [Hb'|Hb']; cbn in Hb'; [congruence|]. assert (b' = b) as -> by (by destruct Ho as [->| ->]). by apply P1.
      * intros b' [Hb'|Hb'] _; cbn in Hb'; [congruence|]. by destruct Ho as [->| ->]; subst.
    + apply Hmove; [done|by right].
  - destruct (_ && seen); apply set_proc_ok; try done; apply Hmove; auto.
Qed.

(** Loading under a new token. *)
Lemma load_ok w i s b seen : world_ok w -> process_ok w i s -> pr_pc s = OpenLoad b -> alive w b = true ->
  world_ok (let w' := add_event (Loaded i) (set_token w) in
            if seen : bool then set_proc i (mkProcess Serving (Some b) true (pr_owner s) (Some (db_tokens w)) false) w' else set_proc i (at_pc Closed s) w').
Proof.
  intros Hw Hp Hpc Ha. pose proof Hw as [H1 H2 H3 H4 H5]. assert (pr_db s = None) as Hdb by (apply (idle_db w i); [done|by rewrite Hpc]).
  assert (db_lock w = Some b) as Hlock by (apply (ok_holds _ _ _ Hp); [right; by rewrite Hpc|by apply alive_spec]).
  destruct (ok_uses _ _ _ Hp b) as [Hb Hown]; [right; by rewrite Hpc|].
  set (w' := add_event (Loaded i) (set_token w)).
  assert (loader None (db_log w') = Some i) as Hload by (cbn; by rewrite loader_app).
  assert (forall j sj, db_procs w !! j = Some sj -> (j = i -> sj = s) -> process_ok w' j sj) as Hothers.
  { intros j sj Hj Hsame. destruct (H5 _ _ Hj) as [P1 P2 P3 P4 PF P5 P6 P7]. split; cbn; try done.
    - intros b' Hb' Hs'. exfalso. assert (db_lock w = Some b') as E by (apply P2; [by left|done]). rewrite Hlock in E. injection E as <-.
      destruct Hs' as [k Hk]. assert (k = i) as -> by (by apply Hown). assert (i = j) as <- by (apply (P1 b); [by left|done]). rewrite (Hsame eq_refl) in Hb'. congruence.
    - intros t Ht. specialize (P6 t Ht). lia.
    - intros t Ht [= <-]. specialize (P6 _ Ht). lia. }
  assert (process_ok w' i s) as Hs.
  { destruct Hp as [P1 P2 P3 P4 PF P5 P6 P7]. split; cbn; try done; try (by rewrite Hdb); intros t Ht; specialize (P6 t Ht); try lia; intros [= <-]; lia. }
  assert (world_ok (mkWorld (db_lock w') (db_token w') (db_live w') (db_next w') (db_tokens w') (db_log w') (delete i (db_procs w)))) as Hw'.
  { split; cbn; try done.
    - intros t [= <-]. lia.
    - apply orderly_app. by split.
    - intros j sj Hj. apply lookup_delete_Some in Hj as [Hne Hj]. apply (same_procs_ok w'); cbn; auto. apply Hothers; [done|congruence]. }
  destruct seen; (split; [exact H1|exact H2|intros t [= <-]; cbn; lia|cbn; apply orderly_app; by split|]).
  all: intros j sj; cbn; destruct (decide (i = j)) as [<-|Hne]; [rewrite lookup_insert_eq; intros [= <-]|rewrite lookup_insert_ne by done; intros Hj].
  - destruct Hs as [P1 P2 P3 P4 PF P5 P6 P7]. split; cbn; try done.
    + intros b' [Hb'|Hb']; cbn in Hb'; [injection Hb' as <-|done]. by split.
    + intros b' [Hb'|Hb'] _; cbn in Hb'; [by injection Hb' as <-|done].
    + intros b' _ _. by exists (db_tokens w).
    + intros t [= <-]. lia.
  - apply (same_procs_ok w'); cbn; auto. by apply Hothers; [|congruence].
  - apply (same_procs_ok w'); cbn; auto. apply at_pc_ok; try done. by intros b' [Hb'|Hb']; [left; left|].
  - apply (same_procs_ok w'); cbn; auto. by apply Hothers; [|congruence].
Qed.

Lemma saved_ok w i s b : world_ok w -> process_ok w i s -> pr_db s = Some b -> alive w b = true -> world_ok (add_event (Saved i) w).
Proof.
  intros [H1 H2 H3 H4 H5] Hp Hdb Ha%alive_spec. destruct (ok_db _ _ _ Hp b Hdb Ha) as (t & Ht & Htok). pose proof (ok_loader _ _ _ Hp t Ht Htok) as Hl.
  split; cbn; try done.
  - apply orderly_app. split; [done|]. by split.
  - intros j sj Hj. apply (same_procs_ok w); cbn; auto. by rewrite loader_app.
Qed.

Lemma die_ok w b : world_ok w -> world_ok (step (Die b) w).
Proof.
  intros [H1 H2 H3 H4 H5]. split; cbn; try done.
  - intros b'. case_bool_decide as Hb; [done|]. intros Hb'. rewrite lookup_delete_ne by congruence. by apply H1.
  - intros b' [j Hj]. apply lookup_delete_Some in Hj as [_ Hj]. by apply H2; exists j.
  - intros j sj Hj. apply (same_procs_ok w); cbn; auto.
    + intros b' k _ Hk. by apply lookup_delete_Some in Hk as [_ Hk].
    + intros b' Hb' [k Hk]. apply lookup_delete_Some in Hk as [Hne _]. by rewrite bool_decide_eq_false_2 by congruence.
Qed.

Lemma connect_ok w i s c : world_ok w -> db_procs w !! i = Some s -> connect_pc s (db_next w) = Some c ->
  world_ok (set_proc i (at_pc c s) (mkWorld (db_lock w) (db_token w) (<[db_next w := i]> (db_live w)) (S (db_next w)) (db_tokens w) (db_log w) (db_procs w))).
Proof.
  intros [H1 H2 H3 H4 H5] Hs Hc. set (w' := mkWorld _ _ _ _ _ _ _).
  assert (forall b, is_Some (db_live w' !! b) -> (b < S (db_next w))%nat) as Hlive.
  { intros b [j Hj]. cbn in Hj. apply lookup_insert_Some in Hj as [[<- _]|[_ Hj]]; [lia|]. assert (b < db_next w)%nat by (apply H2; by exists j). lia. }
  assert (forall j sj, process_ok w j sj -> process_ok w' j sj) as Hsame.
  { intros j sj Hj. apply (same_procs_ok w); cbn; auto. intros b k Hb. rewrite lookup_insert_ne by lia. done. }
  apply set_proc_ok.
  - split; cbn; try done.
    + intros b Hb. destruct (decide (b = db_next w)) as [->|Hne]; [by rewrite lookup_insert_eq|rewrite lookup_insert_ne by done; by apply H1].
    + intros j sj Hj. by apply Hsame, H5.
  - pose proof (H5 _ _ Hs) as Hp. assert (pr_db s = None) as Hdb.
    { unfold connect_pc in Hc. destruct (pr_pc s) eqn:Epc; try done; [apply (idle_db w i); [done|by rewrite Epc]|]. by destruct (pr_db s). }
    apply at_pc_ok; [by apply Hsame|done| | |].
    + unfold connect_pc in Hc. destruct (pr_pc s); try done; [by injection Hc as <-|]. destruct (pr_db s); [done|]. destruct (pr_failed s); [done|]. by injection Hc as <-.
    + intros Hf. exfalso. unfold connect_pc in Hc. destruct (ok_failed _ _ _ Hp Hf) as [_ H]. rewrite Hdb, Hf in Hc. by destruct (pr_pc s).
    + intros b [Hb|Hb]; cbn in Hb; [congruence|]. right.
      assert (b = db_next w) as ->.
      { unfold connect_pc in Hc. destruct (pr_pc s); try done; [by injection Hc as <-|]. destruct (pr_db s); [done|]. destruct (pr_failed s); [done|]. by injection Hc as <-. }
      cbn. split; [lia|]. intros j. rewrite lookup_insert_eq. by intros [= <-].
Qed.

Lemma statement_ok w i s applied seen : world_ok w -> db_procs w !! i = Some s -> world_ok (statement i applied seen s w).
Proof.
  intros Hw Hs. pose proof (ok_procs _ Hw _ _ Hs) as Hp. unfold statement. destruct (pr_pc s) as [|b|b| |b again|b again|b|] eqn:Epc; try done.
  all: assert (pr_db s = None) as Hdb by (apply (idle_db w i); [done|by rewrite Epc]).
  all: assert (uses s b) as Hu by (right; by rewrite Epc).
  all: assert (pr_failed s = false) as Hnf by (apply (not_failed w i); [done|by rewrite Epc]).
  all: assert (forall c, match c with Serving | Closed => True | Claiming b' _ => b' = b | _ => False end -> world_ok (set_proc i (at_pc c s) w)) as Hmove
    by (intros c Hc; apply set_proc_ok; [done|]; apply at_pc_ok; try done; try congruence; [by destruct c|]; intros b' [Hb'|Hb']; cbn in Hb'; [by left; left|]; destruct c; try done; subst; by left).
  - apply claim_ok; auto. intros c [->| ->]; auto.
  - destruct (alive w b && applied) eqn:Ea; [|by apply Hmove]. apply andb_true_iff in Ea as [Ea _]. by apply (load_ok w i s b seen).
  - apply claim_ok; auto. intros c [->| ->]; eauto.
  - destruct (_ && seen); [|by apply Hmove]. destruct (match pr_owner s with Some p => _ | None => _ end); [by apply Hmove|].
    destruct again; [apply set_proc_ok; [done|by apply fail_ok]|by apply Hmove].
  - destruct (alive w b && seen) eqn:Ea; [|by apply Hmove]. apply andb_true_iff in Ea as [Ea%alive_spec _].
    destruct (db_token w) as [t|] eqn:Et; [|apply set_proc_ok; [done|by apply fail_ok]].
    destruct (pr_token s) as [t'|] eqn:Et'; [|apply set_proc_ok; [done|by apply fail_ok]].
    destruct (Nat.eqb_spec t t') as [<-|]; [|apply set_proc_ok; [done|by apply fail_ok]]. apply set_proc_ok; [done|].
    assert (db_lock w = Some b) as Hlock by (apply (ok_holds _ _ _ Hp); [right; by rewrite Epc|done]).
    destruct Hp as [P1 P2 P3 P4 PF P5 P6 P7]. split; cbn; try done.
    + intros b' [Hb'|Hb']; cbn in Hb'; [injection Hb' as <-; by apply P1|done].
    + intros b' [Hb'|Hb'] _; cbn in Hb'; [by injection Hb' as <-|done].
    + intros b' _ _. by exists t.
    + congruence.
    + intros t0 [= <-]. by apply P6.
    + intros t0 [= <-] _. by apply (P7 t).
Qed.

Lemma own_step_ok a w : world_ok w -> world_ok (step a w).
Proof.
  intros Hw. destruct a as [i|i|i applied seen|i applied seen closed|i|i|b]; [..|by apply die_ok]; cbn [step].
  all: destruct (db_procs w !! i) as [s|] eqn:Es; try done.
  - apply set_proc_ok; [done|]. split; cbn; try done; by intros b [Hb|Hb].
  - destruct (connect_pc s (db_next w)) as [c|] eqn:Ec; [|done]. by apply connect_ok.
  - by apply statement_ok.
  - pose proof (ok_procs _ Hw _ _ Es) as Hp. destruct (pr_db s) as [b|] eqn:Edb; [|done]. cbv zeta.
    assert (world_ok (if alive w b && applied then add_event (Saved i) w else w)) as Hw'.
    { destruct (alive w b && applied) eqn:Ea; [|done]. apply andb_true_iff in Ea as [Ea _]. by apply (saved_ok w i s b). }
    destruct (_ && seen); [done|]. destruct closed; [|done]. apply set_proc_ok; [done|]. replace (disconnect s) with (at_pc Serving (disconnect s)).
    + apply disconnect_ok; [|done]. apply (ok_procs _ Hw'). destruct (_ && _); exact Es.
    + pose proof (ok_serving _ _ _ Hp) as Hpc. rewrite Edb in Hpc. specialize (Hpc ltac:(done)). unfold at_pc, disconnect. cbn. by rewrite Hpc.
  - destruct (pr_db s); [|done]. apply set_proc_ok; [done|]. by apply fail_ok, (ok_procs _ Hw).
  - apply set_proc_ok; [done|]. by apply disconnect_ok; [apply (ok_procs _ Hw)|].
Qed.

Lemma run_world_ok l w : world_ok w -> world_ok (run l w).
Proof. unfold run. revert w. induction l as [|a l IH]; intros w Hw; [done|]. by apply IH, own_step_ok. Qed.

Lemma new_world_ok : world_ok new_world.
Proof. split; cbn; try done. intros b [j Hj]. by rewrite lookup_empty in Hj. Qed.

(** ** A process that was superseded *)

(** The token only moves to one that nobody had. *)
Lemma token_step a w : db_token (step a w) = db_token w /\ db_tokens (step a w) = db_tokens w \/
  db_token (step a w) = Some (db_tokens w) /\ db_tokens (step a w) = S (db_tokens w).
Proof.
  destruct a as [i|i|i applied seen|i applied seen closed|i|i|b]; cbn [step]; [..|by left].
  all: destruct (db_procs w !! i) as [s|]; try (by left).
  - destruct (connect_pc _ _); by left.
  - unfold statement. destruct (pr_pc s); try (by left).
    + unfold claim. left. destruct (_ && claimable _ _), (_ && seen); done.
    + destruct (_ && applied); [|by left]. destruct seen; by right.
    + unfold claim. left. destruct (_ && claimable _ _), (_ && seen); done.
    + left. destruct (_ && seen); [|done]. destruct (match pr_owner s with Some p => _ | None => _ end); [done|]. by destruct again.
    + left. destruct (_ && seen); [|done]. by destruct (match db_token w with Some t => _ | None => _ end).
  - destruct (pr_db s) as [b|]; [|by left]. left. destruct (alive w b && applied), seen, closed; done.
  - destruct (pr_db s); by left.
Qed.

(** The processes that loaded, in order. *)
Definition loads (log : list event) : list nat := omap (fun e => match e with Loaded i => Some i | Saved _ => None end) log.
(** Not there yet, or still to load. *)
Definition fresh (w : world) (i : nat) : Prop :=
  match db_procs w !! i with None => True | Some s => match pr_pc s with Opening | OpenClaim _ | OpenLoad _ => True | _ => False end end.

Lemma loads_app l1 l2 : loads (l1 ++ l2) = loads l1 ++ loads l2.
Proof. apply omap_app. Qed.

(** What a step says in the log, and that no process starts over. *)
Lemma fresh_set i s w j : fresh (set_proc i s w) j -> (i = j -> match pr_pc s with Opening | OpenClaim _ | OpenLoad _ => fresh w j | _ => True end) -> fresh w j.
Proof.
  unfold fresh at 1. cbn. destruct (decide (i = j)) as [<-|Hne]; [rewrite lookup_insert_eq|by rewrite lookup_insert_ne].
  intros Hf H. specialize (H eq_refl). by destruct (pr_pc s).
Qed.

Lemma claim_log i b applied seen owned refused lost s w : db_log (claim i b applied seen owned refused lost s w) = db_log w.
Proof. unfold claim. by destruct (_ && claimable _ _), (_ && seen). Qed.
Lemma claim_fresh i b applied seen owned refused lost s w j : (i = j -> fresh w i \/ ~ (exists b', owned = OpenLoad b')) ->
  (forall c, c = refused \/ c = lost -> c = Closed \/ c = Serving \/ exists b' again, c = Looking b' again) -> (owned = OpenLoad b \/ owned = Checking b) ->
  fresh (claim i b applied seen owned refused lost s w) j -> fresh w j.
Proof.
  intros Hi Hc Ho. assert (forall w' c, c = refused \/ c = lost -> fresh (set_proc i (at_pc c s) w') j -> fresh w' j) as Hmove.
  { intros w' c Hcc Hf. apply (fresh_set _ _ _ _ Hf). intros _. by destruct (Hc c Hcc) as [->|[->|(b' & again & ->)]]. }
  unfold claim. cbv zeta. destruct (_ && claimable _ _), (_ && seen); intros Hf; try (by apply Hmove in Hf; auto).
  apply fresh_set in Hf; [done|]. intros <-. destruct (Hi eq_refl) as [H|H], Ho as [->| ->]; cbn; try done. destruct H. by exists b.
Qed.

Lemma step_log a w : (db_log (step a w) = db_log w \/ (exists i, db_log (step a w) = db_log w ++ [Saved i]) \/
    (exists i, db_log (step a w) = db_log w ++ [Loaded i] /\ fresh w i /\ ~ fresh (step a w) i)) /\ (forall j, fresh (step a w) j -> fresh w j).
Proof.
  destruct a as [i|i|i applied seen|i applied seen closed|i|i|b]; cbn [step]; [..|by split; [left|]].
  all: destruct (db_procs w !! i) as [s|] eqn:Es; try (by split; [left|]).
  - split; [by left|]. intros j Hf. apply (fresh_set _ _ _ _ Hf). intros <-. unfold fresh. by rewrite Es.
  - destruct (connect_pc s (db_next w)) as [c|] eqn:Ec; [|by split; [left|]]. split; [by left|]. intros j Hf.
    enough (fresh (mkWorld (db_lock w) (db_token w) (<[db_next w := i]> (db_live w)) (S (db_next w)) (db_tokens w) (db_log w) (db_procs w)) j) by done.
    apply (fresh_set _ _ _ _ Hf). intros <-. unfold connect_pc in Ec. unfold fresh. cbn. rewrite Es. destruct (pr_pc s); try done; [by injection Ec as <-|].
    destruct (pr_db s); [done|]. destruct (pr_failed s); [done|]. by injection Ec as <-.
  - unfold statement. destruct (pr_pc s) as [|b|b| |b again|b again|b|] eqn:Epc; try (by split; [left|]).
    + split; [left; apply claim_log|]. intros j. apply claim_fresh; auto; [intros <-; left; unfold fresh; by rewrite Es, Epc|]. intros c [->| ->]; auto.
    + assert (fresh w i) as Hi by (unfold fresh; by rewrite Es, Epc).
      destruct (alive w b && applied); [destruct seen|]; split.
      all: try (by left). all: try (intros j Hf; apply fresh_set in Hf; [exact Hf|by intros <-]).
      all: right; right; exists i; split; [done|split; [done|]]; unfold fresh; cbn; rewrite lookup_insert_eq; intros [].
    + split; [left; apply claim_log|]. intros j. apply claim_fresh; auto; [intros _; right; by intros [b' ?]|]. intros c [->| ->]; eauto.
    + destruct (_ && seen); [destruct (match pr_owner s with Some p => _ | None => _ end); [|destruct again]|]; (split; [by left|]); intros j Hf; apply fresh_set in Hf; done.
    + destruct (_ && seen); [destruct (match db_token w with Some t => _ | None => _ end)|]; (split; [by left|]); intros j Hf; apply fresh_set in Hf; done.
  - destruct (pr_db s) as [b|]; [|by split; [left|]]. cbv zeta. split.
    + destruct (alive w b && applied), seen, closed; cbn; eauto.
    + assert (forall w' j, db_procs w' = db_procs w -> fresh (set_proc i (disconnect s) w') j -> fresh w j) as Hd.
      { intros w' j Hw' Hf. assert (fresh w' j) as H; [|unfold fresh in *; by rewrite Hw' in H]. apply (fresh_set _ _ _ _ Hf). intros <-. cbn. unfold fresh. rewrite Hw', Es. by destruct (pr_pc s). }
      intros j. destruct (alive w b && applied), seen, closed; cbn [andb]; try done; by apply Hd.
  - destruct (pr_db s); [|by split; [left|]]. split; [by left|]. intros j Hf. by apply fresh_set in Hf.
  - split; [by left|]. intros j Hf. by apply fresh_set in Hf.
Qed.

(** No process loads twice. *)
Definition loaded_once (w : world) : Prop := NoDup (loads (db_log w)) /\ forall i, fresh w i -> i ∉ loads (db_log w).

Lemma loaded_once_step a w : loaded_once w -> loaded_once (step a w).
Proof.
  intros [Hnd Hf]. destruct (step_log a w) as [Hl Hfresh]. unfold loaded_once.
  destruct Hl as [->|[[i ->]|(i & -> & Hi & Hni)]]; rewrite ?loads_app; change (loads [Saved ?i]) with (@nil nat); rewrite ?app_nil_r; [by auto..|].
  change (loads [Loaded i]) with [i]. split.
  - apply NoDup_app. split; [done|]. split; [|apply NoDup_singleton]. intros j Hj ->%list_elem_of_singleton. by apply (Hf i).
  - intros j Hj Hin. apply elem_of_app in Hin as [H|H]; [by apply (Hf j); [apply Hfresh|]|]. apply list_elem_of_singleton in H as ->. done.
Qed.
Lemma run_loaded_once l w : loaded_once w -> loaded_once (run l w).
Proof. unfold run. revert w. induction l as [|a l IH]; intros w Hw; [done|]. by apply IH, loaded_once_step. Qed.
Lemma new_loaded_once : loaded_once new_world.
Proof. split; [apply NoDup_nil_2|]. intros i _ H. by apply elem_of_nil in H. Qed.

Lemma loads_elem i log : Loaded i ∈ log -> i ∈ loads log.
Proof. intros H. apply list_elem_of_omap. by exists (Loaded i). Qed.

(** Whoever saves loaded before, and nobody after it. *)
Lemma saved_loader cur i log1 log2 : orderly cur (log1 ++ Saved i :: log2) -> cur = Some i \/ i ∈ loads log1.
Proof.
  intros [_ [H _]]%orderly_app. revert cur H. induction log1 as [|[k|k] log1 IH]; intros cur H; cbn in *; [by left| |by apply IH].
  destruct (IH _ H) as [[= ->]|Hin]; right; [by left|by right].
Qed.

Lemma superseded_never_saves i j l1 l2 : orderly None (l1 ++ Loaded j :: l2) -> NoDup (loads (l1 ++ Loaded j :: l2)) -> Loaded i ∈ l1 -> Saved i ∉ l2.
Proof.
  intros [_ Ho]%orderly_app Hnd Hi%loads_elem (a & b & ->)%list_elem_of_split. cbn in Ho. rewrite loads_app in Hnd.
  change (loads (Loaded j :: a ++ Saved i :: b)) with ([j] ++ loads (a ++ Saved i :: b)) in Hnd. rewrite loads_app in Hnd.
  apply NoDup_app in Hnd as (_ & Hdis & _). apply (Hdis i Hi). destruct (saved_loader _ _ _ _ Ho) as [[= ->]|Ha]; set_solver.
Qed.

(** ** How the loop goes on *)

(** Time passes, and the timer fires when it was to. *)
Definition turn_ok (clock : Z) (w : wakeup) (now later : Z) (l : loop) : Prop :=
  clock <= now <= later /\ match w with TimerFired => exists t, pl_timer l = Some t /\ t <= now | PersistWake => True end.

Fixpoint persist (timing : persistTiming) (turns : list (wakeup * Z * Z * synced)) (l : loop) : loop :=
  match turns with [] => l | (w, now, later, s) :: turns => persist timing turns (persist_turn timing w now later s l) end.
Fixpoint turns_ok (timing : persistTiming) (clock : Z) (turns : list (wakeup * Z * Z * synced)) (l : loop) : Prop :=
  match turns with
  | [] => True
  | (w, now, later, s) :: turns => turn_ok clock w now later l /\ turns_ok timing later turns (persist_turn timing w now later s l)
  end.
Fixpoint last_clock (clock : Z) (turns : list (wakeup * Z * Z * synced)) : Z :=
  match turns with [] => clock | (_, _, later, _) :: turns => last_clock later turns end.
Definition new_loop (timing : persistTiming) (start : Z) : loop := mkLoop false None true None None 0 (Some (start + pt_probe timing)).

(** Unless ownership is lost, the timer is armed and the retry is due when it fires. *)
Definition loop_ok (timing : persistTiming) (clock : Z) (l : loop) : Prop :=
  pl_failed l = false -> exists t, pl_timer l = Some t /\ t <= clock + Z.max (pt_probe timing) (pt_maxBackoff timing) /\
    0 <= pl_backoff l <= pt_maxBackoff timing /\
    match pl_retryAt l with
    | Some r => r = t /\ pt_minBackoff timing <= pl_backoff l /\ pl_failingSince l <> None
    | None => pl_backoff l = 0 /\ pl_failingSince l = None /\ pl_unwritable l = None
    end.

Definition timing_ok (timing : persistTiming) : Prop := 0 < pt_minBackoff timing <= pt_maxBackoff timing /\ 0 < pt_probe timing.

Lemma persist_turn_ok timing clock w now later s l : timing_ok timing -> turn_ok clock w now later l -> loop_ok timing clock l -> loop_ok timing later (persist_turn timing w now later s l).
Proof.
  intros [Ht Hp] [Htime Hw] Hl. unfold loop_ok, persist_turn. destruct (pl_failed l) eqn:Ef; [done|].
  destruct (Hl Ef) as (t & Htt & Hle & Hb & Hr). unfold turns; cbn.
  destruct (match pl_retryAt l with Some t0 => now <? t0 | None => false end) eqn:Er; cbn.
  - intros _. destruct w; [exists t; split; [done|]; split; [lia|done]|]. exfalso. destruct Hw as (t' & Ht' & Hle'). rewrite Htt in Ht'. injection Ht' as <-.
    destruct (pl_retryAt l); [|done]. apply Z.ltb_lt in Er. lia.
  - destruct (sy_error s) as [e|]; cbn; [|intros _; eexists; split; [done|]; split; [lia|]; split; [lia|done]].
    destruct (fatal e); cbn; [done|]. intros _. eexists. split; [done|]. split; [lia|]. split; [lia|]. split; [done|]. split; [lia|]. by destruct (pl_failingSince l).
Qed.

Lemma persist_ok timing turns : timing_ok timing -> forall clock l, turns_ok timing clock turns l -> loop_ok timing clock l -> loop_ok timing (last_clock clock turns) (persist timing turns l).
Proof.
  intros Ht. induction turns as [|[[[w now] later] s] turns IH]; intros clock l Htok Hl; [done|]. cbn. destruct Htok as [H1 H2]. apply IH; [done|]. by apply (persist_turn_ok _ clock).
Qed.

(** One process loads and saves, loses its connection to the network, is
    superseded, and finds out when it reconnects. *)
Definition demo : list action :=
  [Start 0; Connect 0; Statement 0 true true; Statement 0 true true; Save 0 true true false;
   Save 0 true false true; Die 0;
   Start 1; Connect 1; Statement 1 true true; Statement 1 true true;
   Connect 0; Statement 0 true true; Statement 0 true true;
   Save 1 true true false; Close 1; Die 1;
   Connect 0; Statement 0 true true; Statement 0 true true; Save 0 true true false].
Example ownership_demo : db_log (run demo new_world) = [Loaded 0; Saved 0; Saved 0; Loaded 1; Saved 1]%nat /\
  option_map pr_failed (db_procs (run demo new_world) !! 0%nat) = Some true.
Proof. split; vm_compute; reflexivity. Qed.

(** ** The theorems *)

(** C6. Any number of processes open the database, lose it and retake it, with
    statements applied or lost and server processes that die or outlive their
    connection.  In every such run each save is by the process that loaded the
    state last; once another process has loaded it, one that loaded it before
    never saves again; a process admits identity work exactly while it keeps a connection; and of
    the connections that processes keep, the server serves at most one. *)
Theorem single_writer l (w := run l new_world) :
  orderly None (db_log w) /\
  (forall i j l1 l2, db_log w = l1 ++ Loaded j :: l2 -> Loaded i ∈ l1 -> Saved i ∉ l2) /\
  (forall i s, db_procs w !! i = Some s -> pr_connected s = true <-> pr_db s <> None) /\
  (forall i j si sj bi bj, db_procs w !! i = Some si -> db_procs w !! j = Some sj -> pr_db si = Some bi -> pr_db sj = Some bj ->
     is_Some (db_live w !! bi) -> is_Some (db_live w !! bj) -> i = j /\ bi = bj).
Proof.
  pose proof (run_world_ok l _ new_world_ok) as Hw. pose proof (run_loaded_once l _ new_loaded_once) as [Hnd _]. fold w in Hw, Hnd.
  split; [apply (ok_orderly _ Hw)|]. split; [|split].
  - intros i j l1 l2 E Hi. apply (superseded_never_saves i j l1); [|by rewrite <- E|done]. rewrite <- E. apply (ok_orderly _ Hw).
  - intros i s Hs. apply (ok_connected _ _ _ (ok_procs _ Hw _ _ Hs)).
  - intros i j si sj bi bj Hi Hj Hbi Hbj Hli Hlj. apply (ok_procs _ Hw) in Hi, Hj.
    assert (bi = bj) as <-.
    { assert (Some bi = Some bj) as [= ->]; [|done]. rewrite <- (ok_holds _ _ _ Hi bi), <- (ok_holds _ _ _ Hj bj); auto; by left. }
    destruct Hli as [k Hk]. split; [|done]. rewrite <- (proj2 (ok_uses _ _ _ Hi bi (or_introl Hbi)) k Hk). by apply (ok_uses _ _ _ Hj bi (or_introl Hbj)).
Qed.

Lemma single_writer_witness : db_log (run demo new_world) = [Loaded 0; Saved 0; Saved 0; Loaded 1; Saved 1]%nat /\ Saved 0 ∉ [Saved 1].
Proof.
  split; [vm_compute; reflexivity|]. destruct (single_writer demo) as (_ & H & _).
  apply (H 0%nat 1%nat [Loaded 0; Saved 0; Saved 0]%nat); [vm_compute; reflexivity|left].
Defined.

(** While ownership is not lost, the persistence loop's timer is always armed, at most
    the longer of the probe interval and the largest backoff after its last
    turn; after an error the backoff lies between its bounds and the timer fires
    exactly when the retry is due, so no firing is skipped; after a success nothing is
    left of the error, and new identity work is not paused. *)
Theorem persist_never_stalls timing start turns : timing_ok timing -> turns_ok timing start turns (new_loop timing start) ->
  loop_ok timing (last_clock start turns) (persist timing turns (new_loop timing start)).
Proof.
  intros Ht Hok. apply persist_ok; [done..|]. intros _. exists (start + pt_probe timing). destruct Ht. cbn. split; [done|]. split; [lia|]. split; [lia|]. done.
Qed.

Lemma persist_never_stalls_witness :
  let turns := [(TimerFired, 5 * Second_, 6 * Second_, mkSynced (Some (EPg "42501")) true false);
                (PersistWake, 6 * Second_, 6 * Second_, mkSynced None true false);
                (TimerFired, 7 * Second_, 8 * Second_, mkSynced (Some (EDatabase "timeout")) true true)] in
  turns_ok defaultPersistTiming 0 turns (new_loop defaultPersistTiming 0) /\
  loop_ok defaultPersistTiming (last_clock 0 turns) (persist defaultPersistTiming turns (new_loop defaultPersistTiming 0)) /\
  persist defaultPersistTiming turns (new_loop defaultPersistTiming 0)
    = mkLoop false (Some (EPg "42501")) false (Some (10 * Second_)) (Some (6 * Second_)) (2 * Second_) (Some (10 * Second_)).
Proof.
  assert (turns_ok defaultPersistTiming 0 [(TimerFired, 5 * Second_, 6 * Second_, mkSynced (Some (EPg "42501")) true false);
                (PersistWake, 6 * Second_, 6 * Second_, mkSynced None true false);
                (TimerFired, 7 * Second_, 8 * Second_, mkSynced (Some (EDatabase "timeout")) true true)] (new_loop defaultPersistTiming 0)) as H.
  { unfold Second_. cbn. repeat split; try lia; eexists; split; try reflexivity; lia. }
  split; [exact H|]. split; [apply persist_never_stalls; [|exact H]; unfold timing_ok; unfold Second_; cbn; unfold Second_; lia|vm_compute; reflexivity].
Defined.
