(* ===== verification/SessionState.v ===== *)
(** * instagramapp: the private state of a session

    Models src/internal/instagramapp/session_state.go: what is kept of an
    account's cookies and headers, how it is restored and what leaves for which
    origin.  net/url, net.ParseIP, the public suffix list, the check of a cookie
    and the lower case of a host are parameters; the jar of net/http/cookiejar is the list of the
    calls made to it. *)
From S2P Require Import Prelude Strconv AppRoute.
From stdpp Require Import gmap strings.
Open Scope Z_scope.
Open Scope go_scope.

Definition maxSessionCookies : nat := 128.
Definition maxSessionValue : nat := 8192.
Definition Second_ : Z := 1000000000.

(** An [http.Cookie]: [ck_Expires] is absent for the zero time, [ck_Raw] what is
    dropped (Raw, RawExpires, Unparsed), [ck_Rest] what is kept as it is. *)
Record Cookie := mkCookie {
  ck_Name : string; ck_Value : string; ck_Domain : string; ck_Path : string; ck_Expires : option Z; ck_MaxAge : Z; ck_Partitioned : bool; ck_Raw : string; ck_Rest : string;
}.
Record SessionCookie := mkItem { si_Origin : string; si_Cookie : Cookie }.
Record SessionState := mkState { ss_MID : string; ss_WWWClaim : string; ss_RUR : string; ss_Cookies : list SessionCookie }.
Definition no_state : SessionState := mkState "" "" "" [].

(** A call of the jar's SetCookies: the cookie and when it was set. *)
Record jar_call := mkCall { jc_URL : URL; jc_Cookie : Cookie; jc_At : Z }.
Record sessionContext := mkContext { sc_allowed : list string; sc_state : SessionState; sc_jar : list jar_call }.

Definition with_cookies (l : list SessionCookie) (s : SessionState) : SessionState := mkState (ss_MID s) (ss_WWWClaim s) (ss_RUR s) l.
Definition set_MaxAge (n : Z) (c : Cookie) : Cookie :=
  mkCookie (ck_Name c) (ck_Value c) (ck_Domain c) (ck_Path c) (ck_Expires c) n (ck_Partitioned c) (ck_Raw c) (ck_Rest c).

Definition TrimSuffix (s x : string) : string := if str_has_suffix s x then String.substring 0 (String.length s - String.length x) s else s.
Definition TrimPrefix (s x : string) : string := default s (cut_string_prefix s x).

(** Before the last slash. *)
Fixpoint directory (s : string) : option string :=
  match s with
  | EmptyString => None
  | String a s =>
      match directory s with
      | Some d => Some (String a d)
      | None => if Ascii.eqb a "/" then Some EmptyString else None
      end
  end.

Definition validSessionValue (value : string) : bool :=
  (String.length value <=? maxSessionValue)%nat &&
  forallb (fun a => (32 <=? Z.of_N (N_of_ascii a)) && (Z.of_N (N_of_ascii a) <=? 126)) (String.list_ascii_of_string value).

Definition expired (now : Z) (c : Cookie) : bool := match ck_Expires c with Some t => t <=? now | None => false end.
Definition removes (now : Z) (c : Cookie) : bool := (ck_MaxAge c <? 0) || expired now c.

Section Session.
Context (Parse : string -> option URL) (ur_User : URL -> bool) (ur_Opaque : URL -> string) (lower : string -> string)
        (ParseIP : string -> bool) (PublicSuffix : string -> string) (cookie_valid : Cookie -> bool).

Definition sessionOrigin (u : URL) : string :=
  if ur_User u || negb (String.eqb (ur_Opaque u) "") || (negb (String.eqb (ur_Scheme u) "https") && negb (String.eqb (ur_Scheme u) "http")) || String.eqb (Hostname u) "" then ""
  else
    let host := lower (ur_Host u) in
    let host := if String.eqb (ur_Scheme u) "https" then TrimSuffix host ":443" else TrimSuffix host ":80" in
    ur_Scheme u +:+ "://" +:+ host.

Definition accepts (s : sessionContext) (u : URL) : bool := bool_decide (sessionOrigin u ∈ sc_allowed s).

(** The path a cookie without one gets. *)
Definition default_path (u : URL) : string := match directory (ur_Path u) with Some (String a d) => String a d | _ => "/" end.
Definition cookie_path (u : URL) (c : Cookie) : string := if str_has_prefix (ck_Path c) "/" then ck_Path c else default_path u.

(** The domain it is kept with, unless it is refused. *)
Definition cookie_domain (u : URL) (c : Cookie) : option string :=
  let host := lower (Hostname u) in
  if String.eqb (ck_Domain c) "" then Some ""
  else if ParseIP host then if String.eqb (ck_Domain c) host then Some "" else None
  else
    let domain := lower (TrimPrefix (ck_Domain c) ".") in
    if String.eqb domain "" || str_has_prefix domain "." || str_has_suffix domain "." || (negb (String.eqb host domain) && negb (str_has_suffix host ("." +:+ domain))) then None
    else if String.eqb (PublicSuffix domain) domain then if String.eqb host domain then Some "" else None
    else Some domain.

Definition cookie_size (c : Cookie) : nat := String.length (ck_Name c) + String.length (ck_Value c) + String.length (ck_Domain c) + String.length (ck_Path c).

Definition normalizeSessionCookie (u : URL) (now : Z) (input : Cookie) : option Cookie :=
  if (maxSessionValue <? cookie_size input)%nat || ck_Partitioned input then None
  else
    match cookie_domain u input with
    | None => None
    | Some domain =>
        let lasting := 0 <? ck_MaxAge input in
        let seconds := Z.min (ck_MaxAge input) (maxInt64 / Second_) in
        let c := mkCookie (ck_Name input) (ck_Value input) domain (cookie_path u input) (if lasting then Some (now + seconds * Second_) else ck_Expires input)
                   (if lasting then 0 else ck_MaxAge input) (ck_Partitioned input) "" (ck_Rest input) in
        if cookie_valid c then Some c else None
    end.

Definition newline : string := String "010" EmptyString.
Definition cookieScope (u : URL) (c : Cookie) : string :=
  let domain := if String.eqb (ck_Domain c) "" then lower (Hostname u) else ck_Domain c in
  domain +:+ newline +:+ ck_Path c +:+ newline +:+ ck_Name c.

(** The origin of a kept cookie; the code does not expect it not to be one. *)
Definition no_url : URL := mkURL "" "" "" "" "".
Definition origin_url (i : SessionCookie) : URL := default no_url (Parse (si_Origin i)).
Definition item_scope (i : SessionCookie) : string := cookieScope (origin_url i) (si_Cookie i).

Definition jar_set (u : URL) (c : Cookie) (now : Z) (s : sessionContext) : sessionContext :=
  mkContext (sc_allowed s) (sc_state s) (sc_jar s ++ [mkCall u c now]).
Definition set_cookies (l : list SessionCookie) (s : sessionContext) : sessionContext := mkContext (sc_allowed s) (with_cookies l (sc_state s)) (sc_jar s).

Definition setCookieLocked (u : URL) (c : Cookie) (now : Z) (s : sessionContext) : sessionContext :=
  let kept := ss_Cookies (sc_state s) in
  let index := fst <$> list_find (fun i => item_scope i = cookieScope u c) kept in
  if removes now c then
    let s := jar_set u c now s in
    match index with Some n => set_cookies (delete n kept) s | None => s end
  else
    match index with
    | Some n => set_cookies (<[n := mkItem (sessionOrigin u) c]> kept) (jar_set u c now s)
    | None => if (length kept =? maxSessionCookies)%nat then s else set_cookies (kept ++ [mkItem (sessionOrigin u) c]) (jar_set u c now s)
    end.

(** [pruneLocked]'s loop: what remains, and the calls for the others. *)
Fixpoint prune (now : Z) (l : list SessionCookie) : list SessionCookie * list jar_call :=
  match l with
  | [] => ([], [])
  | i :: l =>
      let '(remaining, calls) := prune now l in
      if expired now (si_Cookie i) then (remaining, mkCall (origin_url i) (set_MaxAge (-1) (si_Cookie i)) now :: calls) else (i :: remaining, calls)
  end.
Definition pruneLocked (now : Z) (s : sessionContext) : sessionContext :=
  let '(remaining, calls) := prune now (ss_Cookies (sc_state s)) in
  mkContext (sc_allowed s) (with_cookies remaining (sc_state s)) (sc_jar s ++ calls).

Fixpoint set_all (u : URL) (now : Z) (cookies : list Cookie) (s : sessionContext) : sessionContext :=
  match cookies with
  | [] => s
  | c :: cookies => set_all u now cookies (match normalizeSessionCookie u now c with Some c => setCookieLocked u c now s | None => s end)
  end.
Definition SetCookies (u : URL) (cookies : list Cookie) (now : Z) (s : sessionContext) : sessionContext :=
  if negb (accepts s u) then s else set_all u now cookies (pruneLocked now s).

(** The headers set on a request, and those read from a response. *)
Definition Apply (u : URL) (s : sessionContext) : list (string * string) :=
  if negb (accepts s u) then []
  else filter (fun kv => kv.2 <> "") [("X-MID", ss_MID (sc_state s)); ("X-IG-WWW-Claim", ss_WWWClaim (sc_state s)); ("IG-U-RUR", ss_RUR (sc_state s))].

Definition observed (values : list string) (old : string) : string := match values with [v] => if validSessionValue v then v else old | _ => old end.
Definition Observe (u : URL) (Values : string -> list string) (s : sessionContext) : sessionContext :=
  if negb (accepts s u) then s
  else
    let old := sc_state s in
    mkContext (sc_allowed s)
      (mkState (observed (Values "ig-set-x-mid") (ss_MID old)) (observed (Values "x-ig-set-www-claim") (ss_WWWClaim old)) (observed (Values "ig-set-ig-u-rur") (ss_RUR old)) (ss_Cookies old))
      (sc_jar s).

Definition Snapshot (now : Z) (s : sessionContext) : SessionState * sessionContext := let s := pruneLocked now s in (sc_state s, s).

Definition default_origins : list string := ["https://i.instagram.com"; "https://b.i.instagram.com"].
Fixpoint extra_allowed (allowed extra : list string) : option (list string) :=
  match extra with
  | [] => Some allowed
  | origin :: extra =>
      match Parse origin with
      | Some u => if String.eqb (sessionOrigin u) "" then None else extra_allowed (allowed ++ [sessionOrigin u]) extra
      | None => None
      end
  end.

Fixpoint restore (now : Z) (cookies : list SessionCookie) (s : sessionContext) : res string sessionContext :=
  match cookies with
  | [] => Ok s
  | i :: cookies =>
      match Parse (si_Origin i) with
      | Some u =>
          if negb (accepts s u) || negb (ck_MaxAge (si_Cookie i) =? 0) then Err "invalid stored Instagram session cookie"
          else
            match normalizeSessionCookie u now (si_Cookie i) with
            | Some c => restore now cookies (setCookieLocked u c now s)
            | None => Err "invalid stored Instagram session cookie"
            end
      | None => Err "invalid stored Instagram session cookie"
      end
  end.

Definition newSessionContext (saved : option SessionState) (extra : list string) (now : Z) : res string sessionContext :=
  match extra_allowed default_origins extra with
  | None => Err "invalid Instagram session origin"
  | Some allowed =>
      match saved with
      | None => Ok (mkContext allowed no_state [])
      | Some saved =>
          if (maxSessionCookies <? length (ss_Cookies saved))%nat || negb (validSessionValue (ss_MID saved)) || negb (validSessionValue (ss_WWWClaim saved)) || negb (validSessionValue (ss_RUR saved))
          then Err "invalid stored Instagram session state"
          else restore now (ss_Cookies saved) (mkContext allowed (mkState (ss_MID saved) (ss_WWWClaim saved) (ss_RUR saved) []) [])
      end
  end.

(** What happens to a session. *)
Inductive event :=
| CookiesSet (u : URL) (cookies : list Cookie) (now : Z)
| HeadersSeen (u : URL) (Values : string -> list string)
| Saved (now : Z).
Definition step (s : sessionContext) (e : event) : sessionContext :=
  match e with CookiesSet u cookies now => SetCookies u cookies now s | HeadersSeen u Values => Observe u Values s | Saved now => (Snapshot now s).2 end.

(** ** What is kept, and what the jar was told *)

Abbreviation not_expired now := (fun i => expired now (si_Cookie i) = false).

(** The cookies by their scope. *)
Definition table (l : list SessionCookie) : gmap string SessionCookie := list_to_map ((fun i => (item_scope i, i)) <$> l).

(** What a jar that follows its calls keeps: per domain, path and name the last cookie set. *)
Definition jar_step (m : gmap string SessionCookie) (call : jar_call) : gmap string SessionCookie :=
  let k := cookieScope (jc_URL call) (jc_Cookie call) in
  if removes (jc_At call) (jc_Cookie call) then delete k m else <[k := mkItem (sessionOrigin (jc_URL call)) (jc_Cookie call)]> m.
Definition replay (calls : list jar_call) (m : gmap string SessionCookie) : gmap string SessionCookie := fold_left jar_step calls m.

(** A cookie that [normalizeSessionCookie] leaves as it is, but for its size. *)
Record kept_form (v : URL) (c : Cookie) : Prop := {
  kf_age : ck_MaxAge c = 0; kf_raw : ck_Raw c = ""%string; kf_part : ck_Partitioned c = false; kf_path : str_has_prefix (ck_Path c) "/" = true;
  kf_domain : cookie_domain v c = Some (ck_Domain c); kf_valid : cookie_valid c = true;
}.
Definition item_ok (allowed : list string) (i : SessionCookie) : Prop :=
  exists v, Parse (si_Origin i) = Some v /\ sessionOrigin v = si_Origin i /\ si_Origin i ∈ allowed /\ kept_form v (si_Cookie i).

Record session_ok (s : sessionContext) : Prop := {
  so_bound : (length (ss_Cookies (sc_state s)) <= maxSessionCookies)%nat;
  so_unique : NoDup (fmap item_scope (ss_Cookies (sc_state s)));
  so_items : Forall (item_ok (sc_allowed s)) (ss_Cookies (sc_state s));
  so_values : validSessionValue (ss_MID (sc_state s)) = true /\ validSessionValue (ss_WWWClaim (sc_state s)) = true /\ validSessionValue (ss_RUR (sc_state s)) = true;
  so_mirror : replay (sc_jar s) ∅ = table (ss_Cookies (sc_state s));
}.

(** A URL of a request: its path is rooted, and its origin parses back. *)
Definition url_ok (s : sessionContext) (u : URL) : Prop :=
  accepts s u = true -> (ur_Path u = ""%string \/ str_has_prefix (ur_Path u) "/" = true) /\
    exists v, Parse (sessionOrigin u) = Some v /\ sessionOrigin v = sessionOrigin u /\ lower (Hostname v) = lower (Hostname u).
Definition event_ok (s : sessionContext) (e : event) : Prop := match e with CookiesSet u _ _ => url_ok s u | _ => True end.

Lemma accepts_spec s u : accepts s u = true <-> sessionOrigin u ∈ sc_allowed s.
Proof. unfold accepts. by rewrite bool_decide_eq_true. Qed.

Lemma table_keys l : ((fun i => (item_scope i, i)) <$> l).*1 = fmap item_scope l.
Proof. induction l as [|i l IH]; cbn; [done|by f_equal]. Qed.

Lemma table_lookup l k i : NoDup (fmap item_scope l) -> table l !! k = Some i <-> i ∈ l /\ item_scope i = k.
Proof.
  intros Hnd. unfold table. rewrite <- elem_of_list_to_map by (by rewrite table_keys). rewrite list_elem_of_fmap. split; [by intros (j & [= -> ->] & Hj)|]. intros [Hi <-]. by exists i.
Qed.

Lemma table_cons i l : table (i :: l) = <[item_scope i := i]> (table l).
Proof. done. Qed.

Lemma table_insert l n i0 i : NoDup (fmap item_scope l) -> l !! n = Some i0 -> item_scope i = item_scope i0 -> table (<[n := i]> l) = <[item_scope i := i]> (table l).
Proof.
  revert n. induction l as [|j l IH]; intros [|n] Hnd Hn Hs; try done; rewrite fmap_cons in Hnd; apply NoDup_cons in Hnd as [Hj Hnd]; cbn in Hn.
  - injection Hn as <-. change (<[0%nat:=i]> (j :: l)) with (i :: l). rewrite !table_cons. by rewrite Hs, insert_insert_eq.
  - change (<[S n:=i]> (j :: l)) with (j :: <[n:=i]> l). rewrite !table_cons, (IH n) by done. apply insert_insert_ne. intros E. apply Hj. rewrite E, Hs. apply (list_elem_of_fmap_2 item_scope l i0). by apply list_elem_of_lookup_2 in Hn.
Qed.

Lemma table_delete l n i0 : NoDup (fmap item_scope l) -> l !! n = Some i0 -> table (delete n l) = delete (item_scope i0) (table l).
Proof.
  revert n. induction l as [|j l IH]; intros [|n] Hnd Hn; try done; rewrite fmap_cons in Hnd; apply NoDup_cons in Hnd as [Hj Hnd]; cbn in Hn.
  - injection Hn as <-. change (delete 0%nat (j :: l)) with l. rewrite table_cons, delete_insert_id; [done|]. apply not_elem_of_list_to_map. by rewrite table_keys.
  - change (delete (S n) (j :: l)) with (j :: delete n l). rewrite !table_cons, (IH n) by done. symmetry. apply delete_insert_ne. intros E. apply Hj. rewrite <- E. apply (list_elem_of_fmap_2 item_scope l i0). by apply list_elem_of_lookup_2 in Hn.
Qed.

Lemma table_snoc l i : item_scope i ∉ fmap item_scope l -> table (l ++ [i]) = <[item_scope i := i]> (table l).
Proof. intros Hi. unfold table. rewrite fmap_app. cbn. apply list_to_map_snoc. by rewrite table_keys. Qed.

Lemma replay_app a b m : replay (a ++ b) m = replay b (replay a m).
Proof. apply fold_left_app. Qed.

(** Calls that remove. *)
Lemma replay_removes calls : forall m k, Forall (fun c => removes (jc_At c) (jc_Cookie c) = true) calls ->
  replay calls m !! k = if bool_decide (k ∈ ((fun c => cookieScope (jc_URL c) (jc_Cookie c)) <$> calls)) then None else m !! k.
Proof.
  induction calls as [|c calls IH]; intros m k Hr; [done|]. apply Forall_cons in Hr as [Hc Hr]. cbn. unfold replay in *. rewrite IH by done. unfold jar_step. rewrite Hc.
  case_bool_decide as H1; case_bool_decide as H2; try done.
  - destruct H2. by right.
  - apply elem_of_cons in H2 as [->|H2]; [apply lookup_delete_eq|done].
  - apply lookup_delete_ne. intros E. apply H2. rewrite <- E. apply elem_of_cons. by left.
Qed.

Lemma prune_spec now l : prune now l = (filter (not_expired now) l, fmap (fun i => mkCall (origin_url i) (set_MaxAge (-1) (si_Cookie i)) now) (filter (fun i => expired now (si_Cookie i) = true) l)).
Proof.
  induction l as [|i l IH]; [done|]. cbn [prune]. rewrite IH. destruct (expired now (si_Cookie i)) eqn:E.
  - rewrite filter_cons_False, filter_cons_True by (by rewrite E). done.
  - rewrite filter_cons_True, filter_cons_False by (by rewrite E). done.
Qed.

Lemma scopes_filter now l : NoDup (fmap item_scope l) -> NoDup (fmap item_scope (filter (not_expired now) l)).
Proof.
  induction l as [|i l IH]; [done|]. rewrite fmap_cons. intros [Hi Hnd]%NoDup_cons. rewrite filter_cons. case_decide; [|by apply IH].
  rewrite fmap_cons. apply NoDup_cons. split; [|by apply IH]. intros (j & Hs & Hj)%list_elem_of_fmap. apply Hi, list_elem_of_fmap. exists j. split; [done|].
  by apply list_elem_of_filter in Hj as [_ Hj].
Qed.

Lemma replay_prune now l m : NoDup (fmap item_scope l) -> m = table l ->
  replay (prune now l).2 m = table (filter (not_expired now) l).
Proof.
  intros Hnd ->. rewrite prune_spec. cbn [snd]. apply map_eq. intros k. rewrite replay_removes.
  2:{ apply Forall_map, Forall_forall. by intros i Hi. }
  assert (NoDup (fmap item_scope (filter (not_expired now) l))) as Hndf by (by apply scopes_filter).
  rewrite <- list_fmap_compose. unfold compose. cbn [jc_URL jc_Cookie].
  apply option_eq. intros i. rewrite (table_lookup _ k i Hndf). case_bool_decide as Hk.
  - split; [done|]. intros [Hi <-]. exfalso. apply list_elem_of_filter in Hi as [He Hi].
    apply list_elem_of_fmap in Hk as (j & Hs & Hj). apply list_elem_of_filter in Hj as [Hej Hj].
    assert (table l !! item_scope i = Some i) as H1 by (by apply table_lookup). assert (table l !! item_scope i = Some j) as H2 by (by apply table_lookup).
    rewrite H1 in H2. injection H2 as <-. congruence.
  - rewrite (table_lookup _ k i Hnd). rewrite list_elem_of_filter. split; [|by intros ((_ & H1) & H2)]. intros [Hi <-]. split; [|done]. split; [|done].
    destruct (expired now (si_Cookie i)) eqn:E; [|done]. destruct Hk. apply list_elem_of_fmap. exists i. split; [done|]. by apply list_elem_of_filter.
Qed.

Lemma prune_ok now s : session_ok s -> session_ok (pruneLocked now s).
Proof.
  intros [H1 H2 H3 H4 H5]. unfold pruneLocked. pose proof (replay_prune now _ _ H2 H5) as Hr. rewrite prune_spec in *. cbn [snd] in Hr. split; cbn; try done.
  - etransitivity; [apply length_filter|done].
  - by apply scopes_filter.
  - apply Forall_forall. intros i Hi. apply list_elem_of_filter in Hi as [_ Hi]. by apply (Forall_forall _ _) with (x := i) in H3.
  - by rewrite replay_app.
Qed.

Hypothesis lower_lower : forall s, lower (lower s) = lower s.

Lemma directory_rooted a s b d : directory (String a s) = Some (String b d) -> b = a.
Proof. cbn. destruct (directory s); [by intros [= <- _]|]. by destruct (Ascii.eqb a "/"). Qed.

Lemma prefix_slash a s : str_has_prefix (String a s) "/" = bool_decide (a = "/"%char).
Proof.
  unfold str_has_prefix. cbn [String.prefix]. destruct (ascii_dec "/" a) as [<-|Hne]; [rewrite bool_decide_eq_true_2 by done; by destruct s|].
  by rewrite bool_decide_eq_false_2 by congruence.
Qed.

Lemma default_path_rooted u : ur_Path u = ""%string \/ str_has_prefix (ur_Path u) "/" = true -> str_has_prefix (default_path u) "/" = true.
Proof.
  intros Hu. unfold default_path. destruct (directory (ur_Path u)) as [[|b d]|] eqn:E; [done| |done].
  destruct (ur_Path u) as [|a s]; [done|]. apply directory_rooted in E as ->. destruct Hu as [Hu|Hu]; [done|]. by rewrite prefix_slash in *.
Qed.

Lemma trim_no_prefix s x : str_has_prefix s x = false -> TrimPrefix s x = s.
Proof. intros H. unfold TrimPrefix, cut_string_prefix. by rewrite H. Qed.

(** A domain that was kept is kept as it is. *)
Lemma cookie_domain_again u v c d : lower (Hostname v) = lower (Hostname u) -> cookie_domain u c = Some d -> forall c', ck_Domain c' = d -> cookie_domain v c' = Some d.
Proof.
  intros Hv H c' Hc'. unfold cookie_domain in *. rewrite Hv, Hc'. destruct (String.eqb_spec (ck_Domain c) "") as [|]; [by injection H as <-|].
  destruct (ParseIP (lower (Hostname u))) eqn:Ei; [destruct (String.eqb _ _) in H; [by injection H as <-|done]|].
  destruct (_ || _ || _ || _) eqn:Ed in H; [done|]. destruct (String.eqb (PublicSuffix _) _) eqn:Ep in H.
  - destruct (String.eqb _ _) in H; [by injection H as <-|done].
  - injection H as <-. pose proof Ed as Ed'. apply orb_false_iff in Ed' as [[[Hne Hdot]%orb_false_iff _]%orb_false_iff _].
    rewrite Hne, (trim_no_prefix _ _ Hdot), lower_lower, Ed, Ep. done.
Qed.

Lemma normalize_kept u v now input c : (ur_Path u = ""%string \/ str_has_prefix (ur_Path u) "/" = true) -> lower (Hostname v) = lower (Hostname u) ->
  normalizeSessionCookie u now input = Some c -> removes now c = false -> kept_form v c /\ cookieScope v c = cookieScope u c.
Proof.
  intros Hp Hv H Hr. unfold normalizeSessionCookie in H. destruct (_ || ck_Partitioned input) eqn:Es; [done|]. apply orb_false_iff in Es as [_ Epart].
  destruct (cookie_domain u input) as [d|] eqn:Ed; [|done]. destruct (cookie_valid _) eqn:Ev; [|done]. injection H as <-.
  split; [|unfold cookieScope; cbn; by rewrite Hv]. split; cbn; try done.
  - apply orb_false_iff in Hr as [Hr _]. cbn in Hr. destruct (0 <? ck_MaxAge input) eqn:E; [done|]. lia.
  - unfold cookie_path. destruct (str_has_prefix (ck_Path input) "/") eqn:E; [done|]. by apply default_path_rooted.
  - by apply (cookie_domain_again u v input).
Qed.

(** A kept cookie that is not too large is restored as it was. *)
Lemma normalize_again v now c : kept_form v c -> (cookie_size c <= maxSessionValue)%nat -> normalizeSessionCookie v now c = Some c.
Proof.
  intros [H1 H2 H3 H4 H5 H6] Hs. unfold normalizeSessionCookie. replace (maxSessionValue <? cookie_size c)%nat with false by (symmetry; by apply Nat.ltb_ge). rewrite H3, H5, H1. cbn [orb].
  replace (mkCookie _ _ _ _ _ _ _ _ _) with c; [by rewrite H6|]. unfold cookie_path. rewrite H4. destruct c. cbn in *. by subst.
Qed.

Lemma delete_forall {A} (P : A -> Prop) (l : list A) n : Forall P l -> Forall P (delete n l).
Proof. intros H. rewrite delete_take_drop. apply Forall_app. split; [by apply Forall_take|by apply Forall_drop]. Qed.

Lemma delete_NoDup {A} (l : list A) n : NoDup l -> NoDup (delete n l).
Proof.
  revert n. induction l as [|x l IH]; intros n Hnd; [by destruct n|]. apply NoDup_cons in Hnd as [Hx Hnd]. destruct n as [|n]; cbn; [done|]. apply NoDup_cons. split; [|by apply IH].
  intros Hin. apply Hx. assert (x ∈ take n l ++ drop (S n) l) as Hin' by (by rewrite <- delete_take_drop). apply elem_of_app in Hin' as [H|H].
  - apply list_elem_of_lookup in H as [k Hk]. apply lookup_take_Some in Hk as [Hk _]. by apply list_elem_of_lookup_2 in Hk.
  - apply list_elem_of_lookup in H as [k Hk]. rewrite lookup_drop in Hk. by apply list_elem_of_lookup_2 in Hk.
Qed.

#[local] Arguments table : simpl never.

Lemma set_cookie_ok u v c now s : session_ok s -> sessionOrigin u ∈ sc_allowed s -> Parse (sessionOrigin u) = Some v -> sessionOrigin v = sessionOrigin u ->
  (removes now c = false -> kept_form v c) -> cookieScope v c = cookieScope u c -> session_ok (setCookieLocked u c now s).
Proof.
  intros [H1 H2 H3 H4 H5] Ha Hv Ho Hk Hsc. unfold setCookieLocked. set (kept := ss_Cookies (sc_state s)) in *.
  assert (item_scope (mkItem (sessionOrigin u) c) = cookieScope u c) as Hitem by (unfold item_scope, origin_url; cbn; by rewrite Hv).
  assert (removes now c = false -> item_ok (sc_allowed s) (mkItem (sessionOrigin u) c)) as Hok by (intros Hr; exists v; cbn; auto).
  assert (forall m, replay (sc_jar s ++ [mkCall u c now]) m = jar_step (replay (sc_jar s) m) (mkCall u c now)) as Hj by (intros m; by rewrite replay_app).
  destruct (list_find _ kept) as [[n i0]|] eqn:Ef; cbn [fst fmap option_fmap option_map].
  - apply list_find_Some in Ef as (Hn & Hs0 & _). destruct (removes now c) eqn:Er.
    + assert (fmap item_scope (delete n kept) = delete n (fmap item_scope kept)) as Hfd by (by rewrite !delete_take_drop, fmap_app, fmap_take, fmap_drop).
      split; cbn -[delete insert list_delete list_insert]; try done; [rewrite length_delete; [lia|by exists i0]| |by apply delete_forall|].
      * rewrite Hfd. by apply delete_NoDup.
      * rewrite Hj, H5. unfold jar_step. cbn -[delete insert list_delete list_insert table]. rewrite Er. rewrite (table_delete kept n i0) by done. by rewrite Hs0.
    + assert (fmap item_scope (<[n := mkItem (sessionOrigin u) c]> kept) = fmap item_scope kept) as Hfi.
      { rewrite list_fmap_insert. apply list_insert_id. by rewrite list_lookup_fmap, Hn, Hitem, <- Hs0. }
      split; cbn; try done; [by rewrite length_insert|by rewrite Hfi|by apply Forall_insert; [|apply Hok]|].
      rewrite Hj, H5. unfold jar_step. cbn -[delete insert list_delete list_insert table]. rewrite Er. rewrite (table_insert kept n i0) by (try done; by rewrite Hitem, Hs0). by rewrite Hitem.
  - apply list_find_None in Ef. assert (cookieScope u c ∉ fmap item_scope kept) as Hfresh.
    { intros (j & Hjs & Hj')%list_elem_of_fmap. apply (Forall_forall _ _) with (x := j) in Ef; [|done]. by apply Ef. }
    destruct (removes now c) eqn:Er.
    + split; cbn; try done. rewrite Hj, H5. unfold jar_step. cbn -[delete insert list_delete list_insert table]. rewrite Er. rewrite delete_id; [done|]. apply not_elem_of_list_to_map. by rewrite table_keys.
    + destruct (Nat.eqb_spec (length kept) maxSessionCookies) as [|Hne]; [done|]. split; cbn; try done.
      * rewrite length_app. cbn. fold kept. lia.
      * rewrite fmap_app. apply NoDup_app. split; [done|]. split; [|apply NoDup_singleton]. cbn. rewrite Hitem. intros x Hx ->%list_elem_of_singleton. done.
      * apply Forall_app. split; [done|]. apply Forall_singleton. by apply Hok.
      * rewrite Hj, H5. unfold jar_step. cbn -[delete insert list_delete list_insert table]. rewrite Er. fold kept. rewrite table_snoc by (by rewrite Hitem). by rewrite Hitem.
Qed.

Lemma set_cookie_allowed u c now s : sc_allowed (setCookieLocked u c now s) = sc_allowed s.
Proof. unfold setCookieLocked. destruct (removes now c), (fst <$> _); try done. by destruct (_ =? _)%nat. Qed.

Lemma set_all_ok u v now cookies : forall s, session_ok s -> (ur_Path u = ""%string \/ str_has_prefix (ur_Path u) "/" = true) -> sessionOrigin u ∈ sc_allowed s ->
  Parse (sessionOrigin u) = Some v -> sessionOrigin v = sessionOrigin u -> lower (Hostname v) = lower (Hostname u) ->
  session_ok (set_all u now cookies s) /\ sc_allowed (set_all u now cookies s) = sc_allowed s.
Proof.
  induction cookies as [|c cookies IH]; intros s Hs Hp Ha Hv Ho Hh; [done|]. cbn. destruct (normalizeSessionCookie u now c) as [c'|] eqn:En; [|by apply IH].
  assert (cookieScope v c' = cookieScope u c') as Hsc by (unfold cookieScope; by rewrite Hh).
  assert (session_ok (setCookieLocked u c' now s)) as Hs' by (apply (set_cookie_ok u v); auto; intros Hr; by apply (normalize_kept u v now c)).
  rewrite <- (set_cookie_allowed u c' now s). apply IH; auto. by rewrite set_cookie_allowed.
Qed.

Lemma prune_allowed now s : sc_allowed (pruneLocked now s) = sc_allowed s.
Proof. unfold pruneLocked. by destruct (prune _ _). Qed.

Lemma observed_valid values old : validSessionValue old = true -> validSessionValue (observed values old) = true.
Proof. intros H. unfold observed. destruct values as [|v [|]]; try done. by destruct (validSessionValue v) eqn:E. Qed.

Lemma session_event_ok s e : session_ok s -> event_ok s e -> session_ok (step s e) /\ sc_allowed (step s e) = sc_allowed s.
Proof.
  intros Hs He. destruct e as [u cookies now|u Values|now]; cbn [step].
  - unfold SetCookies. destruct (accepts s u) eqn:Ea; [|done]. destruct (He Ea) as (Hp & v & Hv & Ho & Hh). cbn [negb].
    destruct (set_all_ok u v now cookies (pruneLocked now s)) as [H1 H2]; auto; [by apply prune_ok|rewrite prune_allowed; by apply accepts_spec|].
    split; [done|]. by rewrite H2, prune_allowed.
  - unfold Observe. destruct (accepts s u); [|done]. split; [|done]. destruct Hs as [H1 H2 H3 (H4a & H4b & H4c) H5]. split; cbn; try done. split; [|split]; by apply observed_valid.
  - cbn. split; [by apply prune_ok|]. apply prune_allowed.
Qed.

(** A run, of events that are as they should be when they happen. *)
Fixpoint run_ok (s : sessionContext) (events : list event) : Prop :=
  match events with [] => True | e :: events => event_ok s e /\ run_ok (step s e) events end.
Definition run (s : sessionContext) (events : list event) : sessionContext := fold_left step events s.

Lemma run_session_ok events : forall s, session_ok s -> run_ok s events -> session_ok (run s events) /\ sc_allowed (run s events) = sc_allowed s.
Proof.
  induction events as [|e events IH]; intros s Hs Hr; [done|]. destruct Hr as [He Hr]. destruct (session_event_ok s e Hs He) as [H1 H2].
  change (run s (e :: events)) with (run (step s e) events). rewrite <- H2. by apply IH.
Qed.

Lemma new_session_ok extra now s : newSessionContext None extra now = Ok s -> session_ok s /\ Some (sc_allowed s) = extra_allowed default_origins extra.
Proof.
  unfold newSessionContext. destruct (extra_allowed _ _) as [allowed|]; [|done]. intros [= <-]. split; [|done].
  split; cbn; try done; [lia|apply NoDup_nil_2].
Qed.

Lemma cookies_with l s : ss_Cookies (with_cookies l s) = l.
Proof. done. Qed.

(** Kept cookies that are not too large are restored, but for those that expired. *)
Lemma restore_ok now cookies : forall s, session_ok s ->
  Forall (item_ok (sc_allowed s)) cookies -> Forall (fun i => (cookie_size (si_Cookie i) <= maxSessionValue)%nat) cookies ->
  NoDup (fmap item_scope (ss_Cookies (sc_state s) ++ cookies)) -> (length (ss_Cookies (sc_state s) ++ cookies) <= maxSessionCookies)%nat ->
  exists s', restore now cookies s = Ok s' /\ session_ok s' /\ sc_state s' = with_cookies (ss_Cookies (sc_state s) ++ filter (not_expired now) cookies) (sc_state s).
Proof.
  induction cookies as [|i cookies IH]; intros s Hs Hit Hsz Hnd Hlen.
  - exists s. rewrite app_nil_r. split; [done|]. split; [done|]. by destruct (sc_state s).
  - apply Forall_cons in Hit as [(v & Hv & Ho & Ha & Hk) Hit]. apply Forall_cons in Hsz as [Hz Hsz]. cbn [restore]. rewrite Hv.
    assert (accepts s v = true) as -> by (apply accepts_spec; by rewrite Ho). rewrite (kf_age _ _ Hk), (normalize_again v now _ Hk Hz). cbn [negb orb Z.eqb].
    assert (session_ok (setCookieLocked v (si_Cookie i) now s)) as Hs' by (apply (set_cookie_ok v v); rewrite ?Ho; auto).
    assert (cookieScope v (si_Cookie i) = item_scope i) as Hsc by (unfold item_scope, origin_url; by rewrite Hv).
    assert (item_scope i ∉ fmap item_scope (ss_Cookies (sc_state s))) as Hfresh.
    { rewrite fmap_app, fmap_cons in Hnd. apply NoDup_app in Hnd as (_ & Hd & _). intros H. apply (Hd _ H). by left. }
    assert (sc_state (setCookieLocked v (si_Cookie i) now s) = with_cookies (ss_Cookies (sc_state s) ++ filter (not_expired now) [i]) (sc_state s)) as Hst.
    { unfold setCookieLocked. rewrite Hsc. replace (list_find _ _) with (@None (nat * SessionCookie)).
      2:{ symmetry. apply list_find_None, Forall_forall. intros j Hj E. apply Hfresh, list_elem_of_fmap. by exists j. }
      cbn [fmap option_fmap option_map]. unfold removes. rewrite (kf_age _ _ Hk). cbn [Z.ltb Z.compare orb]. rewrite filter_cons. destruct (expired now (si_Cookie i)).
      - rewrite decide_False by done. rewrite filter_nil, app_nil_r. cbn. by destruct (sc_state s).
      - rewrite decide_True by done. rewrite filter_nil. destruct (Nat.eqb_spec (length (ss_Cookies (sc_state s))) maxSessionCookies) as [E|_].
        + rewrite length_app in Hlen. cbn in Hlen. lia.
        + cbn. rewrite Ho. by destruct i. }
    destruct (IH (setCookieLocked v (si_Cookie i) now s)) as (s' & Hr & Hok & Hs1); rewrite ?set_cookie_allowed; auto.
    + rewrite Hst, cookies_with, <- app_assoc, fmap_app in *. rewrite filter_cons, filter_nil. case_decide; cbn [app]; [done|].
      rewrite fmap_cons in Hnd. apply NoDup_app in Hnd as (H1 & H2 & H3). apply NoDup_cons in H3 as [_ H3]. apply NoDup_app. split; [done|]. split; [|done]. intros x Hx Hx'. apply (H2 x Hx). by right.
    + rewrite Hst, cookies_with. rewrite !length_app in *. cbn in Hlen. pose proof (length_filter (not_expired now) [i]). cbn in *. lia.
    + exists s'. split; [done|]. split; [done|]. rewrite Hs1, Hst, cookies_with, <- app_assoc, <- filter_app. done.
Qed.

End Session.

Lemma lower_ascii_twice a : lower_ascii (lower_ascii a) = lower_ascii a.
Proof. by destruct a as [[] [] [] [] [] [] [] []]. Qed.
Lemma ToLower_twice s : ToLower (ToLower s) = ToLower s.
Proof. unfold ToLower. induction s as [|a s IH]; cbn; [done|]. by rewrite lower_ascii_twice, IH. Qed.

(** ** The theorems *)

Section Theorems.
Context (Parse : string -> option URL) (ur_User : URL -> bool) (ur_Opaque : URL -> string) (lower : string -> string)
        (ParseIP : string -> bool) (PublicSuffix : string -> string) (cookie_valid : Cookie -> bool).
Hypothesis lower_lower : forall s, lower (lower s) = lower s.

Abbreviation new_session := (newSessionContext Parse ur_User ur_Opaque lower ParseIP PublicSuffix cookie_valid).
Abbreviation run_session := (run Parse ur_User ur_Opaque lower ParseIP PublicSuffix cookie_valid).
Abbreviation session_run_ok := (run_ok Parse ur_User ur_Opaque lower ParseIP PublicSuffix cookie_valid).
Abbreviation scope_of := (item_scope Parse lower).

(** Whatever an allowed or a foreign origin sets and whenever the session is saved, at most 128 cookies are
    kept, at most one for a domain, path and name, each for an allowed origin;
    they are what a jar keeps that follows the calls made to it, so that
    what is saved and what is sent do not diverge; the values of the headers fit; and a URL of
    another origin gets no header and changes nothing. *)
Theorem session_mirror extra start events s : new_session None extra start = Ok s -> session_run_ok s events ->
  let s' := run_session s events in
  (length (ss_Cookies (sc_state s')) <= 128)%nat /\ NoDup (scope_of <$> ss_Cookies (sc_state s')) /\
  Forall (fun i => si_Origin i ∈ sc_allowed s' /\ ck_MaxAge (si_Cookie i) = 0) (ss_Cookies (sc_state s')) /\
  replay ur_User ur_Opaque lower (sc_jar s') ∅ = table Parse lower (ss_Cookies (sc_state s')) /\
  (forall u, Forall (fun kv => validSessionValue kv.2 = true /\ kv.2 <> ""%string) (Apply ur_User ur_Opaque lower u s')) /\
  forall u, accepts ur_User ur_Opaque lower s' u = false ->
    Apply ur_User ur_Opaque lower u s' = [] /\ (forall Values, Observe ur_User ur_Opaque lower u Values s' = s') /\
    forall cookies now, SetCookies Parse ur_User ur_Opaque lower ParseIP PublicSuffix cookie_valid u cookies now s' = s'.
Proof.
  intros Hnew Hrun s'. destruct (new_session_ok _ _ _ _ _ _ _ _ _ _ Hnew) as [Hok _].
  destruct (run_session_ok _ _ _ _ _ _ _ lower_lower events s Hok Hrun) as [[H1 H2 H3 (H4a & H4b & H4c) H5] _]. fold s' in H1, H2, H3, H4a, H4b, H4c, H5.
  split; [exact H1|]. split; [done|]. split; [|split; [done|split]].
  - eapply Forall_impl; [exact H3|]. intros i (v & _ & _ & Ha & Hk). split; [done|]. apply Hk.
  - intros u. unfold Apply. destruct (accepts _ _ _ _ _); [|constructor]. apply Forall_forall. intros kv [Hne Hin]%list_elem_of_filter. split; [|exact Hne].
    repeat (apply elem_of_cons in Hin as [->|Hin]; [done|]). by apply elem_of_nil in Hin.
  - intros u Hu. unfold Apply, Observe, SetCookies. by rewrite Hu.
Qed.

(** A session that is saved and restored with the same origins has the same headers and, as long
    as no kept cookie grew beyond the limit with its path, exactly the cookies
    that did not expire in between, in their order and with their expiry; the
    new jar keeps the same. *)
Theorem session_roundtrip extra start events s now now' : new_session None extra start = Ok s -> session_run_ok s events ->
  let saved := (Snapshot Parse now (run_session s events)).1 in
  Forall (fun i => (cookie_size (si_Cookie i) <= maxSessionValue)%nat) (ss_Cookies saved) ->
  exists s', new_session (Some saved) extra now' = Ok s' /\
    sc_state s' = with_cookies (filter (fun i => expired now' (si_Cookie i) = false) (ss_Cookies saved)) saved /\
    replay ur_User ur_Opaque lower (sc_jar s') ∅ = table Parse lower (ss_Cookies (sc_state s')).
Proof.
  intros Hnew Hrun saved Hsz. destruct (new_session_ok _ _ _ _ _ _ _ _ _ _ Hnew) as [Hok Hallow].
  destruct (run_session_ok _ _ _ _ _ _ _ lower_lower events s Hok Hrun) as [Hok' Hall].
  apply (prune_ok _ _ _ _ _ _ _ now) in Hok'. pose proof Hok' as [H1 H2 H3 (H4a & H4b & H4c) H5]. rewrite (prune_allowed _ now), Hall in H3. fold saved in H1, H2, H3, H4a, H4b, H4c.
  change (sc_state (pruneLocked Parse now (run_session s events))) with saved in H1, H2, H3, H4a, H4b, H4c.
  unfold newSessionContext. rewrite <- Hallow. rewrite H4a, H4b, H4c. replace (maxSessionCookies <? length (ss_Cookies saved))%nat with false by (symmetry; by apply Nat.ltb_ge). cbn [negb orb].
  destruct (restore_ok Parse ur_User ur_Opaque lower ParseIP PublicSuffix cookie_valid now' (ss_Cookies saved) (mkContext (sc_allowed s) (mkState (ss_MID saved) (ss_WWWClaim saved) (ss_RUR saved) []) []))
    as (s' & Hr & [_ _ _ _ Hm] & Hs'); try done.
  - split; cbn; try done; [lia|apply NoDup_nil_2].
  - exists s'. split; [done|]. split; [|done]. rewrite Hs'. cbn. by destruct saved.
Qed.

End Theorems.

(** *** On concrete sessions *)

Definition demo_Parse (s : string) : option URL :=
  if String.eqb s "https://i.instagram.com" then Some (mkURL "https" "i.instagram.com" "" "" "") else None.
Definition demo_User (u : URL) : bool := false.
Definition demo_Opaque (u : URL) : string := ""%string.
Definition demo_IP (s : string) : bool := false.
Definition demo_suffix (s : string) : string := "com"%string.
Definition demo_valid (c : Cookie) : bool := negb (String.eqb (ck_Name c) "").
Definition demo_url : URL := mkURL "https" "I.Instagram.com:443" "/api/v1/accounts/current_user/" "" "".
Definition demo_cookie (name value domain path : string) (expires : option Z) (age : Z) : Cookie := mkCookie name value domain path expires age false "" "".
Definition demo_events : list event :=
  [CookiesSet demo_url [demo_cookie "sessionid" "a" ".Instagram.com" "/" None 10; demo_cookie "mid" "b" "" "" None 0; demo_cookie "bad" "c" "com" "" None 0] 0;
   HeadersSeen demo_url (fun k => if String.eqb k "ig-set-x-mid" then ["m"%string] else []);
   CookiesSet demo_url [demo_cookie "sessionid" "d" "instagram.com" "/" None 20] Second_;
   Saved (2 * Second_)].

Abbreviation demo_new := (newSessionContext demo_Parse demo_User demo_Opaque ToLower demo_IP demo_suffix demo_valid).
Abbreviation demo_run := (run demo_Parse demo_User demo_Opaque ToLower demo_IP demo_suffix demo_valid).
Definition demo_session : sessionContext := mkContext default_origins no_state [].

Lemma demo_url_ok s : url_ok demo_Parse demo_User demo_Opaque ToLower s demo_url.
Proof. intros _. split; [by right|]. by exists (mkURL "https" "i.instagram.com" "" "" ""). Qed.

(** A cookie without a path that is as large as one may be. *)
Definition large_events : list event := [CookiesSet demo_url [demo_cookie "mid" (String.concat "" (repeat "a" (maxSessionValue - 3))) "" "" None 0] 0; Saved 0].

(** The state that a session saved of itself is refused when it is restored: the
    limit is checked before a cookie gets its path, and again with it. *)
Lemma restore_refused : run_ok demo_Parse demo_User demo_Opaque ToLower demo_IP demo_suffix demo_valid demo_session large_events /\
  demo_new (Some (sc_state (demo_run demo_session large_events))) [] 0 = Err "invalid stored Instagram session cookie"%string.
Proof. split; [|vm_compute; reflexivity]. unfold large_events. cbn [run_ok event_ok]. split; [apply demo_url_ok|done]. Qed.

Lemma session_mirror_witness :
  run_ok demo_Parse demo_User demo_Opaque ToLower demo_IP demo_suffix demo_valid demo_session demo_events /\
  (length (ss_Cookies (sc_state (demo_run demo_session demo_events))) <= 128)%nat.
Proof.
  assert (run_ok demo_Parse demo_User demo_Opaque ToLower demo_IP demo_suffix demo_valid demo_session demo_events) as H.
  { unfold demo_events. cbn [run_ok event_ok]. split; [apply demo_url_ok|]. split; [done|]. split; [apply demo_url_ok|done]. }
  split; [exact H|]. exact (proj1 (session_mirror demo_Parse demo_User demo_Opaque ToLower demo_IP demo_suffix demo_valid ToLower_twice [] 0 demo_events demo_session eq_refl H)).
Defined.

Lemma session_roundtrip_witness :
  let saved := sc_state (demo_run demo_session demo_events) in
  length (ss_Cookies saved) = 2%nat /\
  exists s', demo_new (Some saved) [] (30 * Second_) = Ok s' /\
    sc_state s' = with_cookies [mkItem "https://i.instagram.com" (demo_cookie "mid" "b" "" "/api/v1/accounts/current_user" None 0)] saved.
Proof.
  assert (run_ok demo_Parse demo_User demo_Opaque ToLower demo_IP demo_suffix demo_valid demo_session demo_events) as H.
  { unfold demo_events. cbn [run_ok event_ok]. split; [apply demo_url_ok|]. split; [done|]. split; [apply demo_url_ok|done]. }
  split; [vm_compute; reflexivity|].
  destruct (session_roundtrip demo_Parse demo_User demo_Opaque ToLower demo_IP demo_suffix demo_valid ToLower_twice [] 0 demo_events demo_session (2 * Second_) (30 * Second_) eq_refl H) as (s' & H1 & H2 & _).
  - apply Forall_forall. intros i Hi. assert (i ∈ ss_Cookies (sc_state (demo_run demo_session demo_events))) as Hi' by exact Hi.
    clear Hi. vm_compute in Hi'. repeat (apply elem_of_cons in Hi' as [->|Hi']; [apply Nat.leb_le; vm_compute; reflexivity|]). by apply elem_of_nil in Hi'.
  - exists s'. split; [exact H1|]. rewrite H2. vm_compute. reflexivity.
Defined.

Example session_demo : match newSessionContext demo_Parse demo_User demo_Opaque ToLower demo_IP demo_suffix demo_valid None [] 0 with
  | Ok s => sc_state (run demo_Parse demo_User demo_Opaque ToLower demo_IP demo_suffix demo_valid s demo_events) =
      mkState "m" "" "" [mkItem "https://i.instagram.com" (demo_cookie "sessionid" "d" "instagram.com" "/" (Some (21 * Second_)) 0);
                         mkItem "https://i.instagram.com" (demo_cookie "mid" "b" "" "/api/v1/accounts/current_user" None 0)]
  | Err _ => False
  end.
Proof. vm_compute. reflexivity. Qed.
