(* ===== verification/Login.v ===== *)
(** * instagramapp: secrets and replies of a login

    Models src/internal/instagramapp/login.go: the code of an authenticator, the
    envelope of a password, what a reply of the login says and the verification
    of a session.  SHA-1, AES-GCM and RSA, the key in its PEM form, net/url,
    http.ParseTime, the reading of Set-Cookie and encoding/json into structs are
    parameters; random bytes and clocks are inputs. *)
From S2P Require Import Prelude Strconv Errors Json Crypto AppSession AppRoute InstagramPost Accounts Lookup SessionState.
Open Scope Z_scope.
Open Scope go_scope.

(** ** Headers *)

(** A header's keys in lower case, where their canonical form ignores case. *)
Abbreviation header := (list (string * list string)).
Definition token_char (a : ascii) : bool :=
  let n := N_of_ascii a in
  ((48 <=? n) && (n <=? 57) || (65 <=? n) && (n <=? 90) || (97 <=? n) && (n <=? 122))%N || existsb (Ascii.eqb a) (String.list_ascii_of_string "!#$%&'*+-.^_`|~").
Definition canonical (k : string) : string := if forallb token_char (String.list_ascii_of_string k) then ToLower k else k.
Definition header_values (h : header) (k : string) : list string := match List.find (fun kv => String.eqb kv.1 (canonical k)) h with Some kv => kv.2 | None => [] end.
Definition header_get (k : string) (h : header) : string := match header_values h k with v :: _ => v | [] => "" end.
Definition header_set (k v : string) (h : header) : header := (canonical k, [v]) :: filter (fun kv => kv.1 <> canonical k) h.

Record loginResponse := mkResponse { lr_status : Z; lr_header : header; lr_value : record; lr_cookies : list Cookie }.

(** ** Failures *)

Section Failures.
Context (ParseTime : string -> option Z).
Definition loginThrottle (now : Z) (h : header) : failure :=
  mkFailure (fl_error (loginFailure "upstream_rate_limited")) (Some (now + retryAfter ParseTime now (header_get "Retry-After" h))).
Definition restrictionDeadline (now : Z) (e : failure) (status : Z) (h : header) : failure :=
  if (status =? 429) || negb (String.eqb (header_get "Retry-After" h) "")
  then mkFailure (fl_error e) (Some (now + retryAfter ParseTime now (header_get "Retry-After" h))) else e.
End Failures.

(** ** The authenticator *)

(** [strings.ToUpper], as base32 can tell: of the letters beyond ASCII the
    dotless i and the long s have a capital in ASCII. *)
Definition upper_ascii (a : ascii) : ascii := let n := N_of_ascii a in if ((97 <=? n) && (n <=? 122))%N then ascii_of_N (n - 32) else a.
Fixpoint upper_text (s : string) : string :=
  match s with
  | EmptyString => EmptyString
  | String a s1 =>
      match s1 with
      | String b s2 =>
          if ((N_of_ascii a =? 0xC4) && (N_of_ascii b =? 0xB1))%N then String "I" (upper_text s2)
          else if ((N_of_ascii a =? 0xC5) && (N_of_ascii b =? 0xBF))%N then String "S" (upper_text s2)
          else String (upper_ascii a) (upper_text s1)
      | EmptyString => String (upper_ascii a) EmptyString
      end
  end.

(** Without its white space. *)
Fixpoint remove_spaces (fuel : nat) (s : string) : string :=
  match fuel with
  | O => EmptyString
  | S fuel =>
      match strip_space s with
      | Some s => remove_spaces fuel s
      | None => match s with String a s => String a (remove_spaces fuel s) | EmptyString => EmptyString end
      end
  end.

Definition base32_value (b : Z) : option Z :=
  if (65 <=? b) && (b <=? 90) then Some (b - 65) else if (50 <=? b) && (b <=? 55) then Some (b - 24) else None.

(** StdEncoding without padding: eight letters at a time; what is left over and makes no byte is dropped. *)
Definition base32_bytes (d : list Z) : bytes :=
  match d with
  | [a; b; c; d; e; f; g; h] => [8 * a + b / 4; b mod 4 * 64 + 2 * c + d / 16; d mod 16 * 16 + e / 2; e mod 2 * 128 + 4 * f + g / 8; g mod 8 * 32 + h]
  | [a; b; c; d; e; f; g] => [8 * a + b / 4; b mod 4 * 64 + 2 * c + d / 16; d mod 16 * 16 + e / 2; e mod 2 * 128 + 4 * f + g / 8]
  | [a; b; c; d; e] => [8 * a + b / 4; b mod 4 * 64 + 2 * c + d / 16; d mod 16 * 16 + e / 2]
  | [a; b; c; d] => [8 * a + b / 4; b mod 4 * 64 + 2 * c + d / 16]
  | [a; b] => [8 * a + b / 4]
  | _ => []
  end.
Fixpoint base32_groups (fuel : nat) (d : list Z) : bytes :=
  match fuel with
  | O => []
  | S fuel => if (8 <=? length d)%nat then base32_bytes (take 8 d) ++ base32_groups fuel (drop 8 d) else base32_bytes d
  end.
Definition base32_decode (s : string) : option bytes :=
  d ← mapM base32_value (filter (fun b => b <> 10 /\ b <> 13) (bytes_of_string s)); Some (base32_groups (S (length d)) d).

Section Secrets.
Context (Parse : string -> option URL) (Query : URL -> string -> string).

(** The secret of an otpauth address, of the kind that is supported. *)
Definition otpauth_secret (value : string) : option string :=
  match Parse value with
  | Some u =>
      if negb (String.eqb (ur_Scheme u) "otpauth") || negb (String.eqb (ur_Host u) "totp") then None
      else
        let algorithm := Query u "algorithm" in
        let digits := Query u "digits" in
        let period := Query u "period" in
        if (negb (String.eqb algorithm "") && negb (EqualFold algorithm "sha1")) || (negb (String.eqb digits "") && negb (String.eqb digits "6")) || (negb (String.eqb period "") && negb (String.eqb period "30"))
        then None else Some (Query u "secret")
  | None => None
  end.

Definition totpKey (input : string) : res failure bytes :=
  let value := TrimSpace input in
  match (if str_has_prefix (lower_text value) "otpauth://" then otpauth_secret value else Some value) with
  | None => Err (loginFailure "invalid_totp_secret")
  | Some value =>
      let value := upper_text (remove_spaces (S (String.length value)) value) in
      match base32_decode (trim_right (Ascii.eqb "=") value) with
      | Some key => if (length key <? 10)%nat then Err (loginFailure "invalid_totp_secret") else Ok key
      | None => Err (loginFailure "invalid_totp_secret")
      end
  end.
End Secrets.

(** Six digits. *)
Definition digit_of (z : Z) : ascii := ascii_of_N (Z.to_N (48 + z mod 10)).
Definition six_digits (n : Z) : string :=
  String (digit_of (n / 100000)) (String (digit_of (n / 10000)) (String (digit_of (n / 1000)) (String (digit_of (n / 100)) (String (digit_of (n / 10)) (String (digit_of n) EmptyString))))).

(** [None] where the code would read beyond the digest. *)
Definition totp (HMAC_SHA1 : bytes -> bytes -> bytes) (key : bytes) (unix : Z) : option string :=
  let digest := HMAC_SHA1 key (be_put 8 (u64 (Z.quot unix 30))) in
  if len digest =? 0 then None
  else
    let offset := Z.land (byte_at digest (len digest - 1)) 15 in
    if len digest <? offset + 4 then None
    else Some (six_digits (Z.land (be_get (slice offset (offset + 4) digest)) 0x7fffffff mod 1000000)).

(** ** The password *)

Section Password.
Context {key : Type} (parse_key : bytes -> option key) (key_size : key -> Z)
        (EncryptPKCS1v15 : key -> bytes -> option bytes) (Seal : bytes -> bytes -> bytes -> bytes -> bytes).

(** [secret] and [iv] are the random bytes; [Seal] has the secret, the nonce, the text and the additional data. *)
Definition encryptPassword (password encodedKey : string) (keyID : Z) (unix : Z) (secret iv : bytes) : res failure string :=
  match DecodeString encodedKey with
  | None => Err (loginFailure "invalid_login_key")
  | Some raw =>
      match parse_key raw with
      | None => Err (loginFailure "invalid_login_key")
      | Some k =>
          if (key_size k <? 256) || (8192 <? key_size k) then Err (loginFailure "invalid_login_key")
          else
            match EncryptPKCS1v15 k secret with
            | None => Err (loginFailure "invalid_login_key")
            | Some wrapped =>
                let timestamp := Itoa unix in
                let encrypted := Seal secret iv (bytes_of_string password) (bytes_of_string timestamp) in
                let envelope := [1; keyID] ++ iv ++ le_put 2 (u16 (len wrapped)) ++ wrapped ++ slice (len encrypted - 16) (len encrypted) encrypted ++ slice 0 (len encrypted - 16) encrypted in
                Ok ("#PWD_INSTAGRAM:4:" +:+ timestamp +:+ ":" +:+ string_of_bytes (EncodeToString envelope))
            end
      end
  end.
End Password.

(** ** Replies *)

Definition jsonObject (value : json) : res failure record :=
  match value with
  | JStr s =>
      let l := bytes_of_string s in
      match parse_value (S (2 * length l)) 0 l with
      | Some (JObj m, _) => Ok m
      | _ => Err (loginFailure "invalid_login_response")
      end
  | JObj m => Ok m
  | _ => Err (loginFailure "invalid_login_response")
  end.

(** After a quote: the string up to the next one that no backslash escapes. *)
Fixpoint scan_literal (s : string) : option (string * string) :=
  match s with
  | EmptyString => None
  | String a s1 =>
      if Ascii.eqb a quote then Some (EmptyString, s1)
      else if Ascii.eqb a "\" then
        match s1 with
        | String b s2 =>
            if Ascii.eqb b "010" then None
            else match scan_literal s2 with Some (l, r) => Some (String a (String b l), r) | None => None end
        | EmptyString => None
        end
      else match scan_literal s1 with Some (l, r) => Some (String a l, r) | None => None end
  end.
Fixpoint bloksStrings (fuel : nat) (s : string) : list string :=
  match fuel, s with
  | S fuel, String a s' =>
      if Ascii.eqb a quote then
        match scan_literal s' with
        | Some (l, r) => quoted l :: bloksStrings fuel r
        | None => bloksStrings fuel s'
        end
      else bloksStrings fuel s'
  | _, _ => []
  end.

Definition object_field (k : string) (m : record) : record := match obj_get k m with Some (JObj l) => l | _ => [] end.
(** A field that is there and not null. *)
Definition present (k : string) (m : record) : option json := match obj_get k m with Some JNull | None => None | Some v => Some v end.

Fixpoint action_payload (literals : list string) (previous : string) (payload : option json) : res failure (option json) :=
  match literals with
  | [] => Ok payload
  | literal :: literals =>
      match json_parse (bytes_of_string literal) with
      | Some (JStr s) =>
          match jsonObject (JStr s) with
          | Ok candidate =>
              match present "login_response" candidate with
              | None => action_payload literals previous payload
              | Some _ =>
                  let canonical := json_Marshal (JObj candidate) in
                  if negb (String.eqb previous "") && negb (String.eqb previous canonical) then Err (loginFailure "invalid_login_response")
                  else action_payload literals canonical (Some (JObj candidate))
              end
          | Err _ => action_payload literals previous payload
          end
      | _ => action_payload literals previous payload
      end
  end.

Section Replies.
Context (ParseTime : string -> option Z) (readSetCookie : string -> list Cookie) (order : record -> record).

(** The headers of a payload, in the order a map yields them. *)
Fixpoint nested_headers (headers : record) (h : header) (cookies : list Cookie) : header * list Cookie :=
  match headers with
  | [] => (h, cookies)
  | (k, JStr s) :: headers => nested_headers headers (header_set k s h) (if EqualFold k "set-cookie" then readSetCookie s else cookies)
  | _ :: headers => nested_headers headers h cookies
  end.

Definition login_payload (value : record) : res failure (option json) :=
  match present "payload" value with
  | Some p => Ok (Some p)
  | None =>
      let action := stringField (object_field "bloks_payload" (object_field "layout" value)) "action" in
      action_payload (bloksStrings (String.length action) action) "" None
  end.

Definition parseLogin (now : Z) (status : Z) (h : header) (body : bytes) : res failure loginResponse :=
  match jsonObject (JStr (string_of_bytes body)) with
  | Err e => if status =? 429 then Err (loginThrottle ParseTime now h) else Err e
  | Ok value =>
      let? payload := login_payload value in
      match payload with
      | None => Ok (mkResponse status h value [])
      | Some payload =>
          let? nested := jsonObject payload in
          let? headers := match present "headers" nested with Some v => jsonObject v | None => Ok [] end in
          let '(h, cookies) := nested_headers (order headers) h [] in
          let? value := match present "login_response" nested with Some v => jsonObject v | None => Ok nested end in
          Ok (mkResponse status h value cookies)
      end
  end.

Definition loginCheck (now : Z) (r : loginResponse) : option failure :=
  let (state, err) := apiFailure true (lr_value r) in
  match err with
  | Some _ =>
      if ds_disable state && negb (ds_renew state) then Some (restrictionDeadline ParseTime now (loginFailure (ds_deadReason state)) (lr_status r) (lr_header r))
      else if (lr_status r =? 429) || (0 <? ds_cooldown state) then Some (loginThrottle ParseTime now (lr_header r))
      else if ds_disable state then Some (restrictionDeadline ParseTime now (loginFailure (ds_deadReason state)) (lr_status r) (lr_header r))
      else None
  | None => if (lr_status r =? 429) || (0 <? ds_cooldown state) then Some (loginThrottle ParseTime now (lr_header r)) else None
  end.
End Replies.

(** ** Exchanges with the API *)

Definition metadata_limit : Z := 16 * 2 ^ 20.

(** A reply, with the cookies it sets; [hp_body] is absent if reading it failed. An
    exchange has the error of its context, if that ended. *)
Record http_reply := mkHTTP { hp_status : Z; hp_header : header; hp_cookies : list Cookie; hp_body : option bytes }.
Inductive exchange := Failed (ctx : option failure) | Replied (r : http_reply) (ctx : option failure).

Definition read_body (r : http_reply) : option bytes := match hp_body r with Some b => if len b <=? metadata_limit then Some b else None | None => None end.

Record verified := mkVerified { vf_Status : string; vf_Username : string; vf_PK : string }.
Record loginResult := mkLogin { lg_Authorization : string; lg_Username : string; lg_UserID : string; lg_Session : option SessionState }.

Section Exchange.
Context (ParseTime : string -> option Z) (decode_user : bytes -> option verified)
        (Parse : string -> option URL) (ur_User : URL -> bool) (ur_Opaque : URL -> string) (lower : string -> string)
        (ParseIP : string -> bool) (PublicSuffix : string -> string) (cookie_valid : Cookie -> bool).

(** What the client's jar and the session keep of a reply. *)
Definition absorb (u : URL) (now : Z) (h : header) (cookies : list Cookie) (s : sessionContext) : sessionContext :=
  Observe ur_User ur_Opaque lower u (header_values h) (SetCookies Parse ur_User ur_Opaque lower ParseIP PublicSuffix cookie_valid u cookies now s).

Definition verdict_of (now : Z) (auth : string) (x : exchange) : res failure loginResult :=
  match x with
  | Failed ctx => Err (default (loginFailure "session_check_failed") ctx)
  | Replied r ctx =>
      let throttle := if hp_status r =? 429 then Some (loginThrottle ParseTime now (hp_header r)) else None in
      match read_body r with
      | None =>
          match throttle with
          | Some e => Err e
          | None => match hp_body r, ctx with None, Some e => Err e | _, _ => Err (loginFailure "session_check_failed") end
          end
      | Some body =>
          if 500 <=? hp_status r then Err (loginFailure "session_check_failed")
          else
            let (health, failureErr) := apiFailure false (default [] (unmarshal body)) in
            if ds_disable health && negb (ds_renew health) then Err (restrictionDeadline ParseTime now (loginFailure (ds_deadReason health)) (hp_status r) (hp_header r))
            else
              match throttle with
              | Some e => Err e
              | None =>
                  if 0 <? ds_cooldown health then Err (loginThrottle ParseTime now (hp_header r))
                  else if ds_renew health then Err (restrictionDeadline ParseTime now (loginFailure "session_expired") (hp_status r) (hp_header r))
                  else if negb (hp_status r =? 200) then Err (loginFailure "session_check_failed")
                  else
                    match failureErr with
                    | Some _ => Err (loginFailure "session_check_failed")
                    | None =>
                        match decode_user body with
                        | Some v =>
                            if negb (String.eqb (vf_Status v) "ok") || String.eqb (vf_Username v) "" || String.eqb (vf_PK v) "" then Err (loginFailure "session_check_failed")
                            else Ok (mkLogin auth (vf_Username v) (vf_PK v) None)
                        | None => Err (loginFailure "session_check_failed")
                        end
                    end
              end
      end
  end.

(** [verifyLogin] with a session, and the session after it. *)
Definition verifyLogin (u : URL) (now : Z) (auth : string) (x : exchange) (s : sessionContext) : res failure loginResult * sessionContext :=
  let s := match x with Replied r _ => absorb u now (hp_header r) (hp_cookies r) s | Failed _ => s end in
  match verdict_of now auth x with
  | Ok result => let (saved, s) := Snapshot Parse now s in (Ok (mkLogin (lg_Authorization result) (lg_Username result) (lg_UserID result) (Some saved)), s)
  | Err e => (Err e, s)
  end.
End Exchange.

Definition validAuthorization (auth : string) : bool :=
  str_has_prefix auth "Bearer IGT:2:" && (String.length "Bearer IGT:2:" <? String.length auth)%nat &&
  forallb (fun a => (32 <? Z.of_N (N_of_ascii a)) && (Z.of_N (N_of_ascii a) <? 127)) (String.list_ascii_of_string (default auth (cut_string_prefix auth "Bearer "))).

(** ** Codes and keys *)

Lemma land_ones_range z n : 0 <= n -> 0 <= Z.land z (Z.ones n) < 2 ^ n.
Proof. intros Hn. rewrite Z.land_ones by lia. apply Z.mod_pos_bound. lia. Qed.

Definition digit_char (a : ascii) : bool := match digit_val a with Some _ => true | None => false end.
Lemma digit_of_digit z : digit_char (digit_of z) = true.
Proof.
  unfold digit_of. pose proof (Z.mod_pos_bound z 10 ltac:(lia)) as H.
  assert (exists n, Z.to_N (48 + z mod 10) = N.of_nat (48 + n) /\ (n < 10)%nat) as (n & -> & Hn) by (exists (Z.to_nat (z mod 10)); lia).
  do 10 (destruct n as [|n]; [reflexivity|]). lia.
Qed.

(** The code for a whole half minute, from a digest of SHA-1's length. *)
Lemma totp_code HMAC_SHA1 key unix (digest := HMAC_SHA1 key (be_put 8 (u64 (Z.quot unix 30)))) : len digest = 20 ->
  exists code, totp HMAC_SHA1 key unix = Some code /\ String.length code = 6%nat /\ forallb digit_char (String.list_ascii_of_string code) = true.
Proof.
  intros Hlen. unfold totp. fold digest. rewrite Hlen. change (20 =? 0) with false. cbn match.
  pose proof (land_ones_range (byte_at digest (20 - 1)) 4 ltac:(lia)) as Ho. change (Z.ones 4) with 15 in Ho.
  destruct (Z.ltb_spec 20 (Z.land (byte_at digest (20 - 1)) 15 + 4)) as [|]; [lia|]. eexists. split; [reflexivity|]. split; [reflexivity|].
  unfold six_digits. cbn [String.list_ascii_of_string forallb]. by rewrite !digit_of_digit.
Qed.

(** *** Base32 *)

Definition base32_letter (v : Z) : Z := if v <? 26 then 65 + v else 24 + v.
Fixpoint base32_values (l : bytes) : list Z :=
  match l with
  | a :: b :: c :: d :: e :: l =>
      [a / 8; a mod 8 * 4 + b / 64; b / 2 mod 32; b mod 2 * 16 + c / 16; c mod 16 * 2 + d / 128; d / 4 mod 32; d mod 4 * 8 + e / 32; e mod 32] ++ base32_values l
  | [a; b; c; d] => [a / 8; a mod 8 * 4 + b / 64; b / 2 mod 32; b mod 2 * 16 + c / 16; c mod 16 * 2 + d / 128; d / 4 mod 32; d mod 4 * 8]
  | [a; b; c] => [a / 8; a mod 8 * 4 + b / 64; b / 2 mod 32; b mod 2 * 16 + c / 16; c mod 16 * 2]
  | [a; b] => [a / 8; a mod 8 * 4 + b / 64; b / 2 mod 32; b mod 2 * 16]
  | [a] => [a / 8; a mod 8 * 4]
  | [] => []
  end.
(** The reference encoding, without padding. *)
Definition base32_text (l : bytes) : string := string_of_bytes (base32_letter <$> base32_values l).

Lemma base32_value_letter v : 0 <= v < 32 -> base32_value (base32_letter v) = Some v.
Proof.
  intros Hv. unfold base32_letter, base32_value. destruct (Z.ltb_spec v 26).
  - replace ((65 <=? 65 + v) && (65 + v <=? 90)) with true by (symmetry; apply andb_true_iff; lia). f_equal. lia.
  - replace ((65 <=? 24 + v) && (24 + v <=? 90)) with false by (symmetry; apply andb_false_iff; lia).
    replace ((50 <=? 24 + v) && (24 + v <=? 55)) with true by (symmetry; apply andb_true_iff; lia). f_equal. lia.
Qed.

Ltac base32_arith := unfold is_byte in *; repeat (apply Forall_cons; split); try (by apply Forall_nil); Z.div_mod_to_equations; lia.

Lemma base32_values_range l : all_bytes l -> Forall (fun v => 0 <= v < 32) (base32_values l).
Proof.
  remember (length l) as n eqn:E. revert l E. induction n as [n IH] using lt_wf_ind. intros l -> Hl.
  destruct l as [|a [|b [|c [|d [|e l]]]]]; cbn [base32_values].
  all: repeat (apply Forall_cons in Hl as [? Hl]).
  1-5: base32_arith.
  apply Forall_app. split; [base32_arith|]. apply (IH (length l)); [cbn; lia|done|done].
Qed.

Lemma list_eq_cons {A} (x y : A) l m : x = y -> l = m -> x :: l = y :: m.
Proof. by intros -> ->. Qed.

Lemma base32_groups_values l : all_bytes l -> forall fuel, (length (base32_values l) < fuel)%nat -> base32_groups fuel (base32_values l) = l.
Proof.
  remember (length l) as n eqn:E. revert l E. induction n as [n IH] using lt_wf_ind. intros l -> Hl fuel Hf. destruct fuel as [|fuel]; [lia|].
  destruct l as [|a [|b [|c [|d [|e l]]]]]; cbn [base32_values].
  all: repeat (apply Forall_cons in Hl as [? Hl]).
  1-5: cbn [base32_groups length Nat.leb base32_bytes]; unfold is_byte in *; repeat (apply list_eq_cons; [Z.div_mod_to_equations; lia|]); reflexivity.
  cbn [base32_groups]. rewrite length_app. cbn [length Nat.add Nat.leb app take drop base32_bytes].
  repeat (apply list_eq_cons; [unfold is_byte in *; Z.div_mod_to_equations; lia|]). apply (IH (length l)); [cbn; lia|done|done|].
  cbn [base32_values] in Hf. rewrite length_app in Hf. cbn in Hf. lia.
Qed.
Lemma bytes_of_string_of l : all_bytes l -> bytes_of_string (string_of_bytes l) = l.
Proof.
  intros H. unfold bytes_of_string, string_of_bytes. rewrite String.list_ascii_of_string_of_list_ascii. rewrite <- list_fmap_compose.
  rewrite <- (list_fmap_id l) at 2. apply list_fmap_ext. intros i b Hb. apply (Forall_lookup_1 _ _ _ _ H) in Hb. unfold is_byte, compose, id in *.
  rewrite N_ascii_embedding by lia. lia.
Qed.

(** Letters, digits and the sign of padding. *)
Definition plain_char (a : ascii) : bool := let n := N_of_ascii (upper_ascii a) in ((65 <=? n) && (n <=? 90) || (50 <=? n) && (n <=? 55) || (n =? 61))%N.
Definition plain_text (s : string) : bool := forallb plain_char (String.list_ascii_of_string s).

Lemma plain_facts a : plain_char a = true ->
  is_space a = false /\ (N_of_ascii a < 128)%N /\ lower_ascii a <> ":"%char /\ a <> "010"%char.
Proof. destruct a as [[] [] [] [] [] [] [] []]; vm_compute; intros H; try discriminate; repeat split; congruence. Qed.

Lemma wide_heads : forallb (fun p => match p with String b _ => (128 <=? N_of_ascii b)%N | EmptyString => false end) wide_spaces = true.
Proof. vm_compute. reflexivity. Qed.

Lemma cut_head a s p : match p with String b _ => (128 <=? N_of_ascii b)%N | EmptyString => false end = true -> (N_of_ascii a < 128)%N -> cut_string_prefix (String a s) p = None.
Proof.
  destruct p as [|b p]; [done|]. intros Hb Ha. unfold cut_string_prefix, str_has_prefix. cbn [String.prefix]. destruct (ascii_dec b a) as [->|]; [|done]. apply N.leb_le in Hb. lia.
Qed.

Lemma plain_strip a s : plain_char a = true -> strip_space (String a s) = None.
Proof.
  intros Ha. destruct (plain_facts a Ha) as (Hs & Hn & _). unfold strip_space. rewrite Hs. replace (omap _ wide_spaces) with (@nil string); [done|].
  symmetry. pose proof wide_heads as H. induction wide_spaces as [|p l IH]; [done|]. cbn in H |- *. apply andb_true_iff in H as [Hp H]. rewrite cut_head by done. by apply IH.
Qed.

Lemma plain_cons a s : plain_text (String a s) = true -> plain_char a = true /\ plain_text s = true.
Proof. unfold plain_text. cbn. apply andb_true_iff. Qed.

Lemma plain_trim_left n s : plain_text s = true -> trim_space_left n s = s.
Proof. intros H. destruct n as [|n]; [done|]. cbn. destruct s as [|a s]; [done|]. apply plain_cons in H as [Ha _]. by rewrite plain_strip. Qed.

Lemma plain_TrimSpace s : plain_text s = true -> TrimSpace s = s.
Proof.
  intros H. unfold TrimSpace. rewrite plain_trim_left by done. induction s as [|a s IH]; [done|]. cbn [trim_space_right]. rewrite plain_trim_left by done.
  cbn [String.eqb]. f_equal. apply IH. by apply plain_cons in H as [_ H].
Qed.

Lemma plain_remove s : plain_text s = true -> forall n, (String.length s < n)%nat -> remove_spaces n s = s.
Proof.
  induction s as [|a s IH]; intros H n Hn; (destruct n as [|n]; [lia|]); cbn [remove_spaces]; [done|]. apply plain_cons in H as [Ha H]. rewrite plain_strip by done.
  f_equal. apply IH; [done|]. cbn in Hn. lia.
Qed.

Lemma upper_step a s : (N_of_ascii a < 128)%N -> upper_text (String a s) = String (upper_ascii a) (upper_text s).
Proof.
  intros Ha. cbn [upper_text]. destruct s as [|b s]; [done|].
  replace (N_of_ascii a =? 0xC4)%N with false by (symmetry; apply N.eqb_neq; lia). by replace (N_of_ascii a =? 0xC5)%N with false by (symmetry; apply N.eqb_neq; lia).
Qed.
Lemma lower_step a s : (N_of_ascii a < 128)%N -> lower_text (String a s) = String (lower_ascii a) (lower_text s).
Proof.
  intros Ha. cbn [lower_text]. destruct s as [|b s]; [done|]. replace (N_of_ascii a =? 0xC4)%N with false by (symmetry; apply N.eqb_neq; lia). cbn [andb].
  destruct s as [|c s]; [done|]. by replace (N_of_ascii a =? 0xE2)%N with false by (symmetry; apply N.eqb_neq; lia).
Qed.

Lemma plain_upper s : plain_text s = true -> upper_text s = str_map upper_ascii s.
Proof.
  induction s as [|a s IH]; [done|]. intros [Ha H]%plain_cons. rewrite upper_step by apply (plain_facts a Ha). cbn [str_map]. by rewrite IH.
Qed.

(** It has no scheme. *)
Lemma plain_no_colon s : plain_text s = true -> forallb (fun a => negb (Ascii.eqb a ":")) (String.list_ascii_of_string (lower_text s)) = true.
Proof.
  induction s as [|a s IH]; [done|]. intros [Ha H]%plain_cons. destruct (plain_facts a Ha) as (_ & Hn & Hc & _). rewrite lower_step by done.
  cbn [String.list_ascii_of_string forallb]. rewrite IH by done. by replace (Ascii.eqb (lower_ascii a) ":") with false by (symmetry; by apply Ascii.eqb_neq).
Qed.

Lemma prefix_chars f p : forall s, str_has_prefix s p = true -> forallb f (String.list_ascii_of_string s) = true -> forallb f (String.list_ascii_of_string p) = true.
Proof.
  induction p as [|b p IH]; intros s Hp Hs; [done|]. destruct s as [|a s]; [done|]. unfold str_has_prefix in Hp. cbn [String.prefix] in Hp.
  destruct (ascii_dec b a) as [->|]; [|done]. cbn in *. apply andb_true_iff in Hs as [Ha Hs]. rewrite Ha. by apply (IH s).
Qed.

Lemma plain_no_scheme s : plain_text s = true -> str_has_prefix (lower_text s) "otpauth://" = false.
Proof.
  intros H. destruct (str_has_prefix _ _) eqn:E; [|done]. by pose proof (prefix_chars (fun a => negb (Ascii.eqb a ":")) _ _ E (plain_no_colon s H)).
Qed.

(** *** The secret, as it was encoded *)

Definition pads (n : nat) : string := String.string_of_list_ascii (replicate n "="%char).

Lemma str_map_chars f s : String.list_ascii_of_string (str_map f s) = f <$> String.list_ascii_of_string s.
Proof. induction s as [|a s IH]; cbn; [done|by rewrite IH]. Qed.
Lemma chars_app s t : String.list_ascii_of_string (s +:+ t) = String.list_ascii_of_string s ++ String.list_ascii_of_string t.
Proof. induction s as [|a s IH]; [done|]. change (String a s +:+ t) with (String a (s +:+ t)). cbn [String.list_ascii_of_string]. by rewrite IH. Qed.

Definition letter_char (a : ascii) : bool := let n := N_of_ascii a in ((65 <=? n) && (n <=? 90) || (50 <=? n) && (n <=? 55))%N.
Lemma letter_facts a : letter_char a = true -> upper_ascii a = a /\ a <> "="%char /\ a <> "010"%char /\ a <> "013"%char.
Proof. destruct a as [[] [] [] [] [] [] [] []]; vm_compute; intros H; try discriminate; repeat split; congruence. Qed.

Lemma base32_letter_char v : 0 <= v < 32 -> letter_char (ascii_of_N (Z.to_N (base32_letter v))) = true.
Proof.
  intros Hv. unfold letter_char. rewrite N_ascii_embedding by (unfold base32_letter; destruct (v <? 26); lia). unfold base32_letter.
  destruct (Z.ltb_spec v 26); apply orb_true_iff; [left|right]; apply andb_true_iff; split; apply N.leb_le; lia.
Qed.

Lemma base32_text_letters l : all_bytes l -> forallb letter_char (String.list_ascii_of_string (base32_text l)) = true.
Proof.
  intros Hl. unfold base32_text, string_of_bytes. rewrite String.list_ascii_of_string_of_list_ascii. apply forallb_forall. intros a Ha.
  apply base.list_elem_of_In in Ha. apply list_elem_of_fmap in Ha as (b & -> & Hb). apply list_elem_of_fmap in Hb as (v & -> & Hv).
  apply base32_letter_char. pose proof (base32_values_range l Hl) as Hr. rewrite Forall_forall in Hr. by apply Hr.
Qed.

Lemma trim_right_pads s n : forallb letter_char (String.list_ascii_of_string s) = true -> trim_right (Ascii.eqb "=") (s +:+ pads n) = s.
Proof.
  assert (trim_right (Ascii.eqb "=") (pads n) = ""%string) as Hp.
  { unfold pads. induction n as [|n IH]; [done|]. cbn [replicate String.string_of_list_ascii trim_right]. by rewrite IH. }
  induction s as [|a s IH]; intros H; [exact Hp|]. cbn in H. apply andb_true_iff in H as [Ha H]. change (String a s +:+ pads n) with (String a (s +:+ pads n)). cbn [trim_right]. rewrite IH by done.
  destruct s as [|b s]; [|done]. destruct (letter_facts a Ha) as (_ & Hne & _). by replace (Ascii.eqb "=" a) with false by (symmetry; apply Ascii.eqb_neq; congruence).
Qed.

Lemma base32_decode_text l : all_bytes l -> base32_decode (base32_text l) = Some l.
Proof.
  intros Hl. pose proof (base32_values_range l Hl) as Hr. unfold base32_decode, base32_text. rewrite bytes_of_string_of.
  2:{ apply Forall_fmap. eapply Forall_impl; [exact Hr|]. intros v Hv. cbn beta in Hv |- *. unfold compose, is_byte, base32_letter. destruct (v <? 26); lia. }
  rewrite filter_all.
  2:{ intros x Hx. apply list_elem_of_fmap in Hx as (v & -> & Hv). rewrite Forall_forall in Hr. specialize (Hr v Hv). unfold base32_letter. destruct (Z.ltb_spec v 26); lia. }
  assert (mapM base32_value (base32_letter <$> base32_values l) = Some (base32_values l)) as ->.
  { apply mapM_Some. induction Hr as [|v vs Hv Hr IH]; cbn; constructor; [by apply base32_value_letter|exact IH]. }
  cbn [mbind option_bind]. f_equal. apply base32_groups_values; [done|lia].
Qed.

(** Reading a key of at least ten bytes from its text, in capitals or not, padded or not. *)
Lemma totpKey_text Parse Query key n text : all_bytes key -> (10 <= length key)%nat -> str_map upper_ascii text = base32_text key +:+ pads n ->
  totpKey Parse Query text = Ok key.
Proof.
  intros Hk Hlen Ht. assert (plain_text text = true) as Hp.
  { unfold plain_text. apply forallb_forall. intros a Ha. assert (upper_ascii a ∈ String.list_ascii_of_string (base32_text key +:+ pads n)) as Hin.
    { rewrite <- Ht, str_map_chars. apply list_elem_of_fmap_2. by apply base.list_elem_of_In. }
    rewrite chars_app in Hin. unfold plain_char. apply elem_of_app in Hin as [Hin|Hin].
    - pose proof (base32_text_letters key Hk) as Hl. rewrite forallb_forall in Hl. apply base.list_elem_of_In in Hin. apply Hl in Hin. unfold letter_char in Hin. by rewrite Hin.
    - unfold pads in Hin. rewrite String.list_ascii_of_string_of_list_ascii in Hin. by apply elem_of_replicate in Hin as [-> _]. }
  unfold totpKey. rewrite plain_TrimSpace, plain_no_scheme by done. rewrite plain_remove by (done || lia). rewrite plain_upper, Ht, trim_right_pads by (done || by apply base32_text_letters).
  rewrite base32_decode_text by done. by destruct (Nat.ltb_spec (length key) 10); [lia|].
Qed.

(** *** Base64 *)

Lemma base64_value_char n : 0 <= n < 64 -> base64_value (base64_char n) = Some n /\ is_byte (base64_char n) /\ base64_char n <> 10 /\ base64_char n <> 13.
Proof.
  intros Hn. assert (forallb (fun k => let n := Z.of_nat k in bool_decide (base64_value (base64_char n) = Some n) && (0 <=? base64_char n) && (base64_char n <? 256) && negb (base64_char n =? 10) && negb (base64_char n =? 13)) (seq 0 64) = true) as H by (vm_compute; reflexivity).
  rewrite forallb_forall in H. specialize (H (Z.to_nat n)). rewrite Z2Nat.id in H by lia. cbn zeta in H.
  assert (In (Z.to_nat n) (seq 0 64)) as Hin by (apply in_seq; lia). specialize (H Hin).
  repeat (apply andb_true_iff in H as [H ?]). apply bool_decide_eq_true in H. unfold is_byte. split; [done|]. split; [lia|]. split; intros E; rewrite E in *; discriminate.
Qed.

Ltac base64_step :=
  rewrite !(fun n H => proj1 (base64_value_char n H)) by (unfold is_byte in *; Z.div_mod_to_equations; lia).

Lemma base64_decode_encode l : all_bytes l -> forall fuel, (length l < fuel)%nat -> base64_decode (base64 fuel l) = Some l.
Proof.
  remember (length l) as n eqn:E. revert l E. induction n as [n IH] using lt_wf_ind. intros l -> Hl fuel Hf. destruct fuel as [|fuel]; [lia|].
  destruct l as [|a [|b [|c l]]]; repeat (apply Forall_cons in Hl as [? Hl]); cbn [base64]; [done|..].
  - cbn [map app base64_decode]. base64_step. cbn. f_equal. apply list_eq_cons; [unfold is_byte in *; Z.div_mod_to_equations; lia|done].
  - cbn [map app base64_decode]. base64_step. cbn. f_equal. repeat (apply list_eq_cons; [unfold is_byte in *; Z.div_mod_to_equations; lia|]). done.
  - cbn [map app base64_decode]. base64_step. cbn in Hf. rewrite (IH (length l)) by (try done; cbn; lia). f_equal.
    repeat (apply list_eq_cons; [unfold is_byte in *; Z.div_mod_to_equations; lia|]). done.
Qed.

Lemma base64_chars l : all_bytes l -> forall fuel, Forall (fun b => is_byte b /\ b <> 10 /\ b <> 13) (base64 fuel l).
Proof.
  remember (length l) as n eqn:E. revert l E. induction n as [n IH] using lt_wf_ind. intros l -> Hl fuel. destruct fuel as [|fuel]; [constructor|].
  assert (forall m, 0 <= m < 64 -> is_byte (base64_char m) /\ base64_char m <> 10 /\ base64_char m <> 13) as Hc by (intros m Hm; apply (base64_value_char m Hm)).
  destruct l as [|a [|b [|c l]]]; repeat (apply Forall_cons in Hl as [? Hl]); cbn [base64 map app].
  - constructor.
  - repeat (apply Forall_cons; split); try (apply Hc; unfold is_byte in *; Z.div_mod_to_equations; lia); try (unfold is_byte; lia). constructor.
  - repeat (apply Forall_cons; split); try (apply Hc; unfold is_byte in *; Z.div_mod_to_equations; lia); try (unfold is_byte; lia). constructor.
  - repeat (apply Forall_cons; split); try (apply Hc; unfold is_byte in *; Z.div_mod_to_equations; lia). apply (IH (length l)); [cbn; lia|done|done].
Qed.

Lemma DecodeString_encode l : all_bytes l -> DecodeString (string_of_bytes (EncodeToString l)) = Some l.
Proof.
  intros Hl. pose proof (base64_chars l Hl (S (length l))) as Hc. unfold DecodeString, EncodeToString. rewrite bytes_of_string_of by (eapply Forall_impl; [exact Hc|]; by intros b [H _]).
  rewrite filter_all; [apply base64_decode_encode; [done|lia]|]. intros b Hb. rewrite Forall_forall in Hc. by apply Hc.
Qed.

(** *** The envelope *)

Lemma slice_skip {A} (a l : list A) i j : 0 <= i -> slice (len a + i) (len a + j) (a ++ l) = slice i j l.
Proof.
  intros Hi. unfold slice, len. replace (Z.of_nat (length a) + j - (Z.of_nat (length a) + i)) with (j - i) by lia.
  rewrite drop_app_ge by lia. do 2 f_equal. lia.
Qed.
Lemma slice_first {A} (a l : list A) : slice 0 (len a) (a ++ l) = a.
Proof. apply slice_app_l. Qed.

Lemma base64_no_colon l : all_bytes l -> forallb (fun a => negb (Ascii.eqb a ":")) (String.list_ascii_of_string (string_of_bytes (EncodeToString l))) = true.
Proof.
  intros Hl. unfold string_of_bytes. rewrite String.list_ascii_of_string_of_list_ascii. apply forallb_forall. intros a Ha. apply base.list_elem_of_In, list_elem_of_fmap in Ha as (b & -> & Hb).
  assert (is_byte b /\ b <> 58) as [Hb1 Hb2].
  { unfold EncodeToString in Hb. revert Hb. generalize (S (length l)). remember (length l) as n eqn:E. revert l E Hl. induction n as [n IH] using lt_wf_ind. intros l -> Hl fuel.
    assert (forall m, 0 <= m < 64 -> b = base64_char m -> is_byte b /\ b <> 58) as Hc.
    { intros m Hm ->. split; [apply (base64_value_char m Hm)|]. intros E. pose proof (proj1 (base64_value_char m Hm)) as Hv. rewrite E in Hv. discriminate. }
    destruct fuel as [|fuel]; [by intros ?%elem_of_nil|]. destruct l as [|x [|y [|z l]]]; repeat (apply Forall_cons in Hl as [? Hl]); cbn [base64 map app]; intros Hin.
    all: repeat (apply elem_of_cons in Hin as [->|Hin]; [first [by unfold is_byte; lia | eapply Hc; [|reflexivity]; unfold is_byte in *; Z.div_mod_to_equations; lia]|]); try (by apply elem_of_nil in Hin).
    eapply (IH (length l)); [cbn; lia|done|done|exact Hin]. }
  apply negb_true_iff, Ascii.eqb_neq. intros E. apply (f_equal N_of_ascii) in E. unfold is_byte in Hb1. rewrite N_ascii_embedding in E by lia. cbn in E. lia.
Qed.

Lemma bytes_of_string_bytes s : all_bytes (bytes_of_string s).
Proof. unfold bytes_of_string. apply Forall_fmap, Forall_true. intros a. unfold compose, is_byte. pose proof (N_ascii_bounded a). lia. Qed.

Section Envelope.
Context {key private : Type} (parse_key : bytes -> option key) (key_size : key -> Z)
        (EncryptPKCS1v15 : key -> bytes -> option bytes) (Seal : bytes -> bytes -> bytes -> bytes -> bytes)
        (Decrypt : bytes -> option bytes) (Open : bytes -> bytes -> bytes -> bytes -> option bytes).

(** What the holder of the private key reads: the key's number, the time and the password. *)
Definition open_password (text : string) : option (Z * string * bytes) :=
  '(head, b64) ← cut_last_colon text;
  timestamp ← cut_string_prefix head "#PWD_INSTAGRAM:4:";
  e ← DecodeString b64;
  let n := le_get (slice 14 16 e) in
  if negb (byte_at e 0 =? 1) then None
  else
    secret ← Decrypt (slice 16 (16 + n) e);
    password ← Open secret (slice 2 14 e) (slice (32 + n) (len e) e ++ slice (16 + n) (32 + n) e) (bytes_of_string timestamp);
    Some (byte_at e 1, timestamp, password).

Lemma open_envelope keyID iv wrapped tag sealed (e := [1; keyID] ++ iv ++ le_put 2 (u16 (len wrapped)) ++ wrapped ++ tag ++ sealed) :
  len iv = 12 -> 0 <= len wrapped < 2 ^ 16 -> len tag = 16 ->
  slice 2 14 e = iv /\ le_get (slice 14 16 e) = len wrapped /\ slice 16 (16 + len wrapped) e = wrapped /\
  slice (16 + len wrapped) (32 + len wrapped) e = tag /\ slice (32 + len wrapped) (len e) e = sealed.
Proof.
  intros Hiv Hw Ht. set (size := le_put 2 (u16 (len wrapped))). assert (len size = 2) as Hs by (unfold len, size; by rewrite length_le_put).
  pose proof (len_nonneg sealed) as Hn.
  assert (len e = 32 + len wrapped + len sealed) as He by (unfold e; fold size; rewrite !len_app, Hiv, Hs, Ht; change (len [1; keyID]) with 2; lia).
  split; [|split; [|split; [|split]]].
  - replace 2 with (len [1; keyID] + 0) by done. replace 14 with (len [1; keyID] + 12) by done. unfold e. rewrite slice_skip by lia. rewrite <- Hiv. apply slice_first.
  - assert (slice 14 16 e = size) as ->.
    { unfold e. fold size. rewrite app_assoc. replace 14 with (len ([1; keyID] ++ iv) + 0) by (rewrite len_app, Hiv; done). replace 16 with (len ([1; keyID] ++ iv) + 2) by (rewrite len_app, Hiv; done).
      rewrite slice_skip by lia. rewrite <- Hs. apply slice_first. }
    unfold size. rewrite le_get_put. unfold u16. rewrite wrap_small by lia. apply Z.mod_small. cbn. lia.
  - unfold e. fold size. rewrite !app_assoc. rewrite <- (app_assoc _ tag), <- (app_assoc _ wrapped).
    assert (len (([1; keyID] ++ iv) ++ size) = 16) as Hl by (rewrite !len_app, Hiv, Hs; done).
    replace 16 with (len (([1; keyID] ++ iv) ++ size) + 0) at 1 by lia. rewrite <- Hl at 1. rewrite slice_skip by lia. apply slice_first.
  - unfold e. fold size. rewrite !app_assoc. rewrite <- (app_assoc _ tag).
    assert (len ((([1; keyID] ++ iv) ++ size) ++ wrapped) = 16 + len wrapped) as Hl by (rewrite !len_app, Hiv, Hs; change (len [1; keyID]) with 2; lia).
    replace (16 + len wrapped) with (len ((([1; keyID] ++ iv) ++ size) ++ wrapped) + 0) by lia. replace (32 + len wrapped) with (len ((([1; keyID] ++ iv) ++ size) ++ wrapped) + 16) by lia.
    rewrite slice_skip by lia. rewrite <- Ht. apply slice_first.
  - rewrite He. unfold e. fold size. rewrite !app_assoc.
    assert (len (((([1; keyID] ++ iv) ++ size) ++ wrapped) ++ tag) = 32 + len wrapped) as Hl by (rewrite !len_app, Hiv, Hs, Ht; change (len [1; keyID]) with 2; lia).
    replace (32 + len wrapped) with (len (((([1; keyID] ++ iv) ++ size) ++ wrapped) ++ tag) + 0) at 1 by lia. rewrite <- Hl.
    rewrite slice_skip by lia. rewrite <- (app_nil_r sealed) at 2. apply slice_first.
Qed.

End Envelope.

(** ** What a verified session is *)

Section Verified.
Context (ParseTime : string -> option Z) (decode_user : bytes -> option verified)
        (Parse : string -> option URL) (ur_User : URL -> bool) (ur_Opaque : URL -> string) (lower : string -> string)
        (ParseIP : string -> bool) (PublicSuffix : string -> string) (cookie_valid : Cookie -> bool).
Hypothesis lower_lower : forall s, lower (lower s) = lower s.

Abbreviation session_inv := (session_ok Parse ur_User ur_Opaque lower ParseIP PublicSuffix cookie_valid).
Abbreviation request_ok := (url_ok Parse ur_User ur_Opaque lower).

Lemma absorb_ok u now h cookies s : session_inv s -> request_ok s u ->
  session_inv (absorb Parse ur_User ur_Opaque lower ParseIP PublicSuffix cookie_valid u now h cookies s) /\
  sc_allowed (absorb Parse ur_User ur_Opaque lower ParseIP PublicSuffix cookie_valid u now h cookies s) = sc_allowed s.
Proof.
  intros Hs Hu. unfold absorb.
  destruct (session_event_ok Parse ur_User ur_Opaque lower ParseIP PublicSuffix cookie_valid lower_lower s (CookiesSet u cookies now) Hs Hu) as [H1 H2].
  destruct (session_event_ok Parse ur_User ur_Opaque lower ParseIP PublicSuffix cookie_valid lower_lower _ (HeadersSeen u (header_values h)) H1 I) as [H3 H4].
  split; [exact H3|]. etransitivity; [exact H4|exact H2].
Qed.

(** The error of a reply that says the account is restricted, and of one that limits it. *)
Lemma verdict_ok now auth x r : verdict_of ParseTime decode_user now auth x = Ok r ->
  exists p ctx body v, x = Replied p ctx /\ hp_status p = 200 /\ hp_body p = Some body /\ len body <= metadata_limit /\
    (apiFailure false (default [] (unmarshal body))).2 = None /\ decode_user body = Some v /\ vf_Status v = "ok"%string /\ vf_Username v <> ""%string /\ vf_PK v <> ""%string /\
    r = mkLogin auth (vf_Username v) (vf_PK v) None.
Proof.
  destruct x as [ctx|p ctx]; [done|]. unfold verdict_of. intros H.
  destruct (read_body p) as [body|] eqn:Eb; [|destruct (hp_status p =? 429); [done|]; destruct (hp_body p), ctx; done].
  destruct (500 <=? hp_status p); [done|]. destruct (apiFailure _ _) as [health err] eqn:Ea. destruct (_ && negb _); [done|].
  destruct (hp_status p =? 429); [done|]. destruct (0 <? ds_cooldown health); [done|]. destruct (ds_renew health); [done|].
  destruct (Z.eqb_spec (hp_status p) 200) as [Hst|]; [|done]. cbn [negb] in H. destruct err; [done|]. destruct (decode_user body) as [v|] eqn:Ev; [|done].
  destruct (String.eqb_spec (vf_Status v) "ok"), (String.eqb_spec (vf_Username v) ""), (String.eqb_spec (vf_PK v) ""); try done. injection H as <-.
  unfold read_body in Eb. destruct (hp_body p) as [b|] eqn:Ep; [|done]. destruct (Z.leb_spec (len b) metadata_limit); [|done]. injection Eb as ->.
  exists p, ctx, body, v. by rewrite Ea.
Qed.

(** An error of a reply says what happened to the account. *)
Lemma verdict_restricted now auth p ctx body : read_body p = Some body -> hp_status p < 500 ->
  let health := (apiFailure false (default [] (unmarshal body))).1 in
  ds_disable health && negb (ds_renew health) = true ->
  exists e, verdict_of ParseTime decode_user now auth (Replied p ctx) = Err e /\ errorCode e = ds_deadReason health /\
    (fl_until e <> None <-> hp_status p = 429 \/ header_get "Retry-After" (hp_header p) <> ""%string).
Proof.
  intros Hb Hs health Hh. unfold verdict_of. rewrite Hb. replace (500 <=? hp_status p) with false by (symmetry; apply Z.leb_gt; lia).
  fold health. destruct (apiFailure _ _) as [h err] eqn:Ea. unfold health in *. cbn [fst] in *. rewrite Hh. eexists. split; [reflexivity|].
  unfold restrictionDeadline. destruct (Z.eqb_spec (hp_status p) 429), (String.eqb_spec (header_get "Retry-After" (hp_header p)) ""); cbn; (split; [done|]); split; auto; try done.
  intros [?|?]; done.
Qed.

Lemma verdict_limited now auth p ctx : hp_status p = 429 ->
  (forall body, read_body p = Some body -> let health := (apiFailure false (default [] (unmarshal body))).1 in ds_disable health && negb (ds_renew health) = false) ->
  exists e, verdict_of ParseTime decode_user now auth (Replied p ctx) = Err e /\ errorCode e = "upstream_rate_limited"%string /\
    fl_until e = Some (now + retryAfter ParseTime now (header_get "Retry-After" (hp_header p))).
Proof.
  intros Hs Hh. unfold verdict_of. rewrite Hs. cbn [Z.eqb Pos.eqb Z.leb Z.compare Pos.compare Pos.compare_cont].
  destruct (read_body p) as [body|]; [|by eexists]. specialize (Hh body eq_refl). destruct (apiFailure _ _) as [h err]. cbn [fst] in Hh. rewrite Hh. by eexists.
Qed.

End Verified.

(** ** The theorems *)

(** The secret of an authenticator, in capitals or not and padded or not, gives
    the key it encodes, and the key a code of six digits at every time, the same for the
    whole half minute; the digest is never read beyond its end. *)
Theorem authenticator_code Parse Query HMAC_SHA1 key n text unix : (forall k m, len (HMAC_SHA1 k m) = 20) -> all_bytes key -> (10 <= length key)%nat ->
  str_map upper_ascii text = base32_text key +:+ pads n ->
  totpKey Parse Query text = Ok key /\
  exists code, totp HMAC_SHA1 key unix = Some code /\ String.length code = 6%nat /\ forallb digit_char (String.list_ascii_of_string code) = true /\
    forall unix', Z.quot unix' 30 = Z.quot unix 30 -> totp HMAC_SHA1 key unix' = Some code.
Proof.
  intros Hh Hk Hl Ht. split; [by apply (totpKey_text _ _ key n)|]. destruct (totp_code HMAC_SHA1 key unix (Hh _ _)) as (code & Hc & H1 & H2).
  exists code. split; [done|]. split; [done|]. split; [done|]. intros unix' Hu. rewrite <- Hc. unfold totp. by rewrite Hu.
Qed.

Lemma authenticator_code_witness :
  totpKey (fun _ => None) (fun _ _ => ""%string) "gezdgnbvgy3tqojqgezdgnbvgy3tqojq====" = Ok (bytes_of_string "12345678901234567890") /\
  exists code, totp (fun _ m => replicate 12 0 ++ m) (bytes_of_string "12345678901234567890") 59 = Some code /\ String.length code = 6%nat.
Proof.
  destruct (authenticator_code (fun _ => None) (fun _ _ => ""%string) (fun _ m => replicate 12 0 ++ slice 0 8 (m ++ replicate 8 0)) (bytes_of_string "12345678901234567890") 4 "gezdgnbvgy3tqojqgezdgnbvgy3tqojq====" 59) as (H1 & code & H2 & H3 & _).
  - intros k m. rewrite len_app. change (len (replicate 12 0)) with 12. unfold slice, len. rewrite length_take, length_drop, length_app, length_replicate. lia.
  - vm_compute. repeat constructor; discriminate.
  - vm_compute. lia.
  - vm_compute. reflexivity.
  - split; [exact H1|]. exists code. split; [|exact H3]. rewrite <- H2. vm_compute. reflexivity.
Defined.

(** Whoever holds the private key reads the password, the time and the key's
    number from the envelope of a password. *)
Theorem password_roundtrip {key : Type} (parse_key : bytes -> option key) (key_size : key -> Z) EncryptPKCS1v15 Seal Decrypt Open
    password encodedKey keyID unix secret iv text :
  (forall k m wrapped, EncryptPKCS1v15 k m = Some wrapped -> len wrapped = key_size k /\ all_bytes wrapped /\ Decrypt wrapped = Some m) ->
  (forall s n m a, all_bytes m -> 16 <= len (Seal s n m a) /\ all_bytes (Seal s n m a) /\ Open s n (Seal s n m a) a = Some m) ->
  is_byte keyID -> len iv = 12 -> all_bytes iv ->
  encryptPassword parse_key key_size EncryptPKCS1v15 Seal password encodedKey keyID unix secret iv = Ok text ->
  open_password Decrypt Open text = Some (keyID, Itoa unix, bytes_of_string password).
Proof.
  intros Hrsa Hgcm Hid Hiv Hivb H. unfold encryptPassword in H. destruct (DecodeString encodedKey) as [raw|]; [|done]. destruct (parse_key raw) as [k|]; [|done].
  destruct (_ || _) eqn:Ek in H; [done|]. destruct (EncryptPKCS1v15 k secret) as [wrapped|] eqn:Ew; [|done]. injection H as <-. apply Hrsa in Ew as (Hwl & Hwb & Hdec).
  set (sealed := Seal secret iv (bytes_of_string password) (bytes_of_string (Itoa unix))). destruct (Hgcm secret iv (bytes_of_string password) (bytes_of_string (Itoa unix)) (bytes_of_string_bytes password)) as (Hs16 & Hsb & Hopen). fold sealed in Hs16, Hsb, Hopen.
  set (tag := slice (len sealed - 16) (len sealed) sealed). set (body := slice 0 (len sealed - 16) sealed).
  assert (len tag = 16) as Ht by (unfold tag; rewrite len_slice by lia; lia).
  assert (body ++ tag = sealed) as Hbt.
  { unfold body, tag, slice. rewrite Z.sub_0_r, drop_0. replace (len sealed - (len sealed - 16)) with 16 by lia. rewrite (take_ge (drop _ _)); [apply take_drop|]. rewrite length_drop. unfold len. lia. }
  set (e := [1; keyID] ++ iv ++ le_put 2 (u16 (len wrapped)) ++ wrapped ++ tag ++ body).
  destruct (open_envelope keyID iv wrapped tag body Hiv) as (E1 & E2 & E3 & E4 & E5); [|done|]; [lia|]. fold e in E1, E2, E3, E4, E5.
  assert (all_bytes (body ++ tag)) as Hbtb by (by rewrite Hbt). apply Forall_app in Hbtb as [Hbb Htb].
  assert (all_bytes e) as Heb.
  { unfold e. repeat (apply Forall_app; split); try done; [|apply le_put_bytes]. repeat constructor; unfold is_byte in *; lia. }
  enough (open_password Decrypt Open ("#PWD_INSTAGRAM:4:" +:+ Itoa unix +:+ ":" +:+ string_of_bytes (EncodeToString e)) = Some (keyID, Itoa unix, bytes_of_string password)) as Hx by exact Hx.
  unfold open_password.
  replace ("#PWD_INSTAGRAM:4:" +:+ Itoa unix +:+ ":" +:+ string_of_bytes (EncodeToString e)) with (("#PWD_INSTAGRAM:4:" +:+ Itoa unix) +:+ ":" +:+ string_of_bytes (EncodeToString e)) by (apply str_assoc).
  rewrite cut_last_colon_app by (by apply base64_no_colon). cbn [mbind option_bind]. rewrite cut_app. cbn [mbind option_bind].
  rewrite DecodeString_encode by done. cbn [mbind option_bind]. rewrite E2, E3. change (byte_at e 0) with 1. change (byte_at e 1) with keyID. cbn [Z.eqb Pos.eqb negb].
  rewrite Hdec. cbn [mbind option_bind]. rewrite E1, E4, E5, Hbt, Hopen. done.
Qed.

Definition toy_encrypt (k : unit) (m : bytes) : option bytes :=
  if (len m =? 32) && forallb (fun b => (0 <=? b) && (b <? 256)) m then Some (m ++ replicate 224 0) else None.

Lemma password_roundtrip_witness : exists text,
  encryptPassword (fun _ => Some tt) (fun _ => 256) toy_encrypt (fun _ _ m _ => m ++ replicate 16 0) "hunter2" "" 7 1767225600 (replicate 32 9) (replicate 12 5) = Ok text /\
  open_password (fun w => Some (take 32 w)) (fun _ _ c _ => Some (take (length c - 16) c)) text = Some (7, "1767225600"%string, bytes_of_string "hunter2").
Proof.
  eexists. split; [vm_compute; reflexivity|]. apply (password_roundtrip (fun _ => Some tt) (fun _ => 256) toy_encrypt (fun _ _ m _ => m ++ replicate 16 0)
    (fun w => Some (take 32 w)) (fun _ _ c _ => Some (take (length c - 16) c)) "hunter2" "" 7 1767225600 (replicate 32 9) (replicate 12 5)).
  - intros k m wrapped. unfold toy_encrypt. destruct (Z.eqb_spec (len m) 32) as [Hm|]; [|done]. cbn [andb]. destruct (forallb _ m) eqn:Eb; [|done]. intros [= <-].
    split; [rewrite len_app, Hm; reflexivity|]. split; [apply Forall_app; split; [by apply bytes_check|repeat constructor; unfold is_byte; lia]|].
    rewrite take_app_length' by (unfold len in Hm; lia). done.
  - intros s n m a Hm. split; [rewrite len_app; pose proof (len_nonneg m); change (len (replicate 16 0)) with 16; lia|]. split; [apply Forall_app; split; [done|repeat constructor; unfold is_byte; lia]|].
    rewrite length_app, length_replicate, Nat.add_sub, take_app_length. done.
  - unfold is_byte. lia.
  - reflexivity.
  - repeat constructor; unfold is_byte; lia.
  - vm_compute. reflexivity.
Defined.
