(* ===== verification/LoginFlow.v ===== *)
(** * instagramapp: the exchanges of a login

    Models src/internal/instagramapp/login_flow.go (the order of the requests,
    what a reply must say, what is kept of it) and login_bloks.go (what is read
    from a reply's expressions).  The replies are an oracle; a
    request is known by its path and the secrets it carries, the constant fields of its form are
    not modelled.  Random values, the keys of the device and their signatures are inputs. *)
From S2P Require Import Prelude Strconv Errors Json Crypto AppSession AppRoute InstagramPost Accounts Lookup SessionState Login.
Open Scope Z_scope.
Open Scope go_scope.

(** ** Static expressions *)

(** [bloksExpression] from its first byte; empty when it does not end. *)
Fixpoint bloks_expression (depth : Z) (quoted escaped : bool) (s : string) : string :=
  match s with
  | EmptyString => EmptyString
  | String c s =>
      let more r := match r with EmptyString => EmptyString | _ => String c r end in
      if quoted then
        if escaped then more (bloks_expression depth true false s)
        else if Ascii.eqb c "\" then more (bloks_expression depth true true s)
        else if Ascii.eqb c quote then more (bloks_expression depth false false s)
        else more (bloks_expression depth true false s)
      else if Ascii.eqb c quote then more (bloks_expression depth true false s)
      else if Ascii.eqb c "(" then if 64 <? depth + 1 then EmptyString else more (bloks_expression (depth + 1) false false s)
      else if Ascii.eqb c ")" then if depth - 1 =? 0 then String c EmptyString else more (bloks_expression (depth - 1) false false s)
      else more (bloks_expression depth false false s)
  end.
Definition bloksExpression (s : string) : string := bloks_expression 0 false false s.

Definition blank (c : ascii) : bool := existsb (Ascii.eqb c) [" "; "009"; "013"; "010"]%char.
Definition special (c : ascii) : bool := blank c || existsb (Ascii.eqb c) ["("; ")"; quote]%char.

(** A word, up to the last byte. *)
Fixpoint word (s : string) : string :=
  match s with
  | String c (String _ _ as s) => if special c then EmptyString else String c (word s)
  | _ => EmptyString
  end.
Definition operand (s : string) : string :=
  match s with
  | String c s' =>
      if Ascii.eqb c "(" then bloksExpression s
      else if Ascii.eqb c quote then match scan_literal s' with Some (l, _) => quoted l | None => EmptyString end
      else word s
  | EmptyString => EmptyString
  end.
Definition str_drop (n : nat) (s : string) : string := String.substring n (String.length s - n) s.
(** The loop over what follows the opening parenthesis; the last byte closes. *)
Fixpoint operands (fuel : nat) (s : string) : option (list string) :=
  match fuel with
  | O => None
  | S fuel =>
      match s with
      | String c (String _ _ as s') =>
          if blank c then operands fuel s'
          else
            let item := operand s in
            if String.eqb item "" then None
            else match operands fuel (str_drop (String.length item) s) with Some items => Some (item :: items) | None => None end
      | _ => Some []
      end
  end.
Definition bloksOperands (value : string) : list string :=
  match value with
  | String "(" s => if (2 <=? String.length value)%nat && str_has_suffix value ")" then default [] (operands (S (String.length s)) s) else []
  | _ => []
  end%char.

Definition literalString (value : string) : string := match json_parse (bytes_of_string value) with Some (JStr s) => s | _ => "" end.

(** The value of [key], or the expression of the last "server_params". *)
Fixpoint context_fields (key : string) (fields : list (string * string)) (expression : string) : string + string :=
  match fields with
  | [] => inr expression
  | (k, v) :: fields =>
      if String.eqb (literalString k) key then inl (literalString v)
      else context_fields key fields (if String.eqb (literalString k) "server_params" then v else expression)
  end.
Fixpoint contextFromMap (depth : nat) (expression key : string) : string :=
  match depth with
  | O => ""
  | S depth =>
      match bloksOperands expression with
      | ["f4i"; ks; vs]%string =>
          match bloksOperands ks, bloksOperands vs with
          | "dkc"%string :: keys, "dkc"%string :: values =>
              if negb (length keys =? length values)%nat then ""
              else
                match context_fields key (combine keys values) "" with
                | inl v => v
                | inr expression => if String.eqb expression "" then "" else contextFromMap depth expression key
                end
          | _, _ => ""
          end
      | _ => ""
      end
  end.

Fixpoint str_index (sub s : string) : option nat :=
  if str_has_prefix s sub then Some 0%nat else match s with EmptyString => None | String _ s => S <$> str_index sub s end.

Definition twoStepApp : string := "com.bloks.www.two_step_verification.entrypoint".
Definition context_key : string := "two_step_verification_context".
Definition anchor : string := quoted twoStepApp.
Fixpoint anchored (fuel : nat) (x : string) : string :=
  match fuel with
  | O => ""
  | S fuel =>
      match str_index anchor x with
      | None => ""
      | Some n =>
          let tail := str_drop (n + String.length anchor) x in
          let found :=
            match str_index "(f4i" tail with
            | Some start =>
                if match str_index "com.bloks." tail with Some next => (start <? next)%nat | None => true end
                then contextFromMap 8 (bloksExpression (str_drop start tail)) context_key else ""
            | None => ""
            end in
          if String.eqb found "" then anchored fuel tail else found
      end
  end.

(** The first of the texts that is not empty. *)
Definition first_text (l : list string) : string := default "" (List.find (fun s => negb (String.eqb s "")) l).

(** [extractTwoStepContext]: [levels] are those left of 33; [order] is the order of a map. *)
Fixpoint visit (order : record -> record) (levels : nat) (v : json) : string :=
  match levels with
  | O => ""
  | S levels =>
      match v with
      | JObj x => if String.eqb (stringField x context_key) "" then first_text (map (fun kv => visit order levels kv.2) (order x)) else stringField x context_key
      | JArr x => first_text (map (visit order levels) x)
      | JStr x =>
          let embedded :=
            if (String.length x <? 10000)%nat && contains context_key x then
              match json_parse (bytes_of_string x) with
              | Some (JStr _) | None => ""
              | Some j => if floats_fit j then visit order levels j else ""
              end
            else "" in
          if String.eqb embedded "" then anchored (S (String.length x)) x else embedded
      | _ => ""
      end
  end.
Definition extractTwoStepContext (order : record -> record) (value : record) : string := visit order 33 (JObj value).

Definition node_aac (node : json) : string :=
  let payload := match node with JObj m => object_field "data" m | _ => [] end in
  if negb (bool_decide (jstr (obj_get "key" payload) = Some "CAA_ACCOUNT_ACCESS_CONTEXT:aac"%string)) then ""
  else
    let v := stringField payload "initial" in
    if String.eqb v "" then
      let lispy := stringField payload "initial_lispy" in
      first_text (map literalString (bloksStrings (String.length lispy) lispy))
    else v.
Definition extractAAC (value : record) : string :=
  match obj_get "data" (object_field "bloks_payload" (object_field "layout" value)) with Some (JArr data) => first_text (map node_aac data) | _ => "" end.

Definition requireLoginOK (r : loginResponse) : option failure :=
  if negb (lr_status r =? 200) || bool_decide (jstr (obj_get "status" (lr_value r)) = Some "fail"%string) || match present "errors" (lr_value r) with Some _ => true | None => false end then
    if failureMarker (lr_value r) ["bad_password"; "invalid_user"; "invalid_credentials"]%string then Some (loginFailure "login_rejected")
    else Some (loginFailure "invalid_login_response")
  else None.

(** ** The session of a login *)

Definition caaProcess : string := "com.bloks.www.bloks.caa.login.process_client_data_and_redirect".
Definition caaOAuth : string := "com.bloks.www.caa.login.oauth.token.fetch.async".
Definition caaPassword : string := "com.bloks.www.bloks.caa.login.async.send_login_request".

(** A request: whether it goes to the bootstrap origin, its path and what it carries. *)
Inductive secret :=
| NoSecret
| Username (name : string)
| Password (name encrypted aac nonce mid : string)
| Context (token : string)
| Code (token code : string)
| ClassicCode (name id code : string)
| Bearer (auth : string).
Record request := mkRequest { rq_bootstrap : bool; rq_path : string; rq_secret : secret }.

Record loginSession := mkSession {
  ls_mid : string; ls_aac : string; ls_nonce : string; ls_keyID : Z; ls_passwordKey : string; ls_state : sessionContext;
  ls_sent : list request;
}.
Definition with_state (c : sessionContext) (s : loginSession) : loginSession := mkSession (ls_mid s) (ls_aac s) (ls_nonce s) (ls_keyID s) (ls_passwordKey s) c (ls_sent s).
Definition with_mid (m : string) (s : loginSession) : loginSession := mkSession m (ls_aac s) (ls_nonce s) (ls_keyID s) (ls_passwordKey s) (ls_state s) (ls_sent s).
Definition with_key (id : Z) (k : string) (s : loginSession) : loginSession := mkSession (ls_mid s) (ls_aac s) (ls_nonce s) id k (ls_state s) (ls_sent s).
Definition with_nonce (n : string) (s : loginSession) : loginSession := mkSession (ls_mid s) (ls_aac s) n (ls_keyID s) (ls_passwordKey s) (ls_state s) (ls_sent s).
Definition with_aac (a : string) (s : loginSession) : loginSession := mkSession (ls_mid s) a (ls_nonce s) (ls_keyID s) (ls_passwordKey s) (ls_state s) (ls_sent s).
Definition send (r : request) (s : loginSession) : loginSession := mkSession (ls_mid s) (ls_aac s) (ls_nonce s) (ls_keyID s) (ls_passwordKey s) (ls_state s) (ls_sent s ++ [r]).

(** Computations on it that may fail. *)
Definition M (A : Type) : Type := loginSession -> res failure A * loginSession.
Definition ret {A} (a : A) : M A := fun s => (Ok a, s).
Definition throw {A} (e : failure) : M A := fun s => (Err e, s).
Definition bind {A B} (m : M A) (f : A -> M B) : M B := fun s => match m s with (Ok a, s) => f a s | (Err e, s) => (Err e, s) end.
Definition get {A} (f : loginSession -> A) : M A := fun s => (Ok (f s), s).
Definition modify (f : loginSession -> loginSession) : M unit := fun s => (Ok tt, f s).
Definition lift {A} (r : res failure A) : M A := fun s => (r, s).
Definition require (e : option failure) : M unit := match e with Some e => throw e | None => ret tt end.
Declare Scope login_scope.
Delimit Scope login_scope with login.
Notation "x <- m ;; k" := (bind m (fun x => k)) (at level 90, m at next level, right associativity) : login_scope.
Notation "m ;;; k" := (bind m (fun _ => k)) (at level 90, right associativity) : login_scope.
Local Open Scope login_scope.

(** strconv.ParseUint(text, 10, 8). *)
Definition parse_byte (text : string) : option Z :=
  if String.eqb text "" then None
  else match digits text with Some n => if n <? 256 then Some n else None | None => None end.

(** What login has of the outside: the n-th exchange and its time, and the cryptography of
    the password and of the device. *)
Record outside := mkOutside {
  ou_exchange : nat -> exchange * Z;
  ou_target : request -> URL;
  ou_device : option failure;                      (* generating and using the device's key *)
  ou_encrypt : string -> string -> Z -> res failure string;
  ou_code : bytes -> string;
}.

Section Flow.
Context (ParseTime : string -> option Z) (readSetCookie : string -> list Cookie) (order : record -> record) (decode_user : bytes -> option verified)
        (Parse : string -> option URL) (Query : URL -> string -> string) (ur_User : URL -> bool) (ur_Opaque : URL -> string) (lower : string -> string)
        (ParseIP : string -> bool) (PublicSuffix : string -> string) (cookie_valid : Cookie -> bool).
Context (o : outside).

Abbreviation absorb_reply := (absorb Parse ur_User ur_Opaque lower ParseIP PublicSuffix cookie_valid).

(** What [post] makes of the reply to a request to [u]: the response or the error, what it
    says the session's mid is, and the session's state. *)
Definition received (u : URL) (now : Z) (x : exchange) (c : sessionContext) : res failure loginResponse * option string * sessionContext :=
  match x with
  | Failed ctx => (Err (default (loginFailure "upstream_network_error") ctx), None, c)
  | Replied p ctx =>
      let c := absorb_reply u now (hp_header p) (hp_cookies p) c in
      let throttle := if hp_status p =? 429 then Some (loginThrottle ParseTime now (hp_header p)) else None in
      if (500 <=? hp_status p) && (hp_status p <? 600) then (Err (loginFailure "upstream_server_error"), None, c)
      else
        match read_body p with
        | None =>
            (Err (match throttle with
                  | Some e => e
                  | None => match hp_body p, ctx with None, Some e => e | _, _ => loginFailure "invalid_login_response" end
                  end), None, c)
        | Some raw =>
            match throttle, json_Valid raw with
            | Some e, false => (Err e, None, c)
            | _, _ =>
                let mid := header_get "ig-set-x-mid" (hp_header p) in
                let mid := if String.eqb mid "" then None else Some mid in
                match parseLogin ParseTime readSetCookie order now (hp_status p) (hp_header p) raw with
                | Err e => (Err (default e throttle), mid, c)
                | Ok r =>
                    let c := SetCookies Parse ur_User ur_Opaque lower ParseIP PublicSuffix cookie_valid u (lr_cookies r) now (Observe ur_User ur_Opaque lower u (header_values (lr_header r)) c) in
                    match loginCheck ParseTime now r with
                    | Some e => (Err (match throttle with Some t => if String.eqb (errorCode e) "upstream_rate_limited" then t else e | None => e end), mid, c)
                    | None => (Ok r, mid, c)
                    end
                end
            end
        end
  end.

Definition post (r : request) : M loginResponse := fun s =>
  let (x, now) := ou_exchange o (length (ls_sent s)) in
  let s := send r s in
  let '(result, mid, c) := received (ou_target o r) now x (ls_state s) in
  (result, with_state c (match mid with Some m => with_mid m s | None => s end)).

Definition bloks_path (kind action : string) : string := "/api/v1/bloks/" +:+ kind +:+ "/" +:+ action +:+ "/".

(** [post], and the reply must be a success. *)
Definition ask (r : request) : M loginResponse := r <- post r ;; require (requireLoginOK r) ;;; ret r.

Definition registered (r : loginResponse) : bool :=
  existsb (fun kv => contains "usdid_registration" kv.1 && match kv.2 with JObj m => bool_decide (jbool (obj_get "success" m) = Some true) | _ => false end) (object_field "data" (lr_value r)).
Definition register : M unit :=
  require (ou_device o) ;;;
  r <- ask (mkRequest true "/graphql_www" NoSecret) ;;
  if registered r then ret tt else throw (loginFailure "device_registration_failed").

Definition prepare (username : string) : M unit :=
  r <- ask (mkRequest false "/api/v1/launcher/mobileconfig/" NoSecret) ;;
  mid <- get ls_mid ;;
  match parse_byte (header_get "ig-set-password-encryption-key-id" (lr_header r)) with
  | None => throw (loginFailure "invalid_login_key")
  | Some id =>
      if String.eqb mid "" then throw (loginFailure "invalid_login_key")
      else
        modify (with_key id (header_get "ig-set-password-encryption-pub-key" (lr_header r))) ;;;
        register ;;;
        r <- ask (mkRequest true "/api/v1/attestation/create_android_keystore/" NoSecret) ;;
        modify (with_nonce (stringField (lr_value r) "challenge_nonce")) ;;;
        if String.eqb (stringField (lr_value r) "challenge_nonce") "" then throw (loginFailure "missing_login_context")
        else
          r <- ask (mkRequest true (bloks_path "async_action" caaProcess) NoSecret) ;;
          modify (with_aac (extractAAC (lr_value r))) ;;;
          if String.eqb (extractAAC (lr_value r)) "" then throw (loginFailure "missing_login_context")
          else ask (mkRequest false (bloks_path "async_action" caaOAuth) (Username username)) ;;; ret tt
  end.

Definition password (username pass : string) : M loginResponse :=
  s <- get (fun s => s) ;;
  encrypted <- lift (ou_encrypt o pass (ls_passwordKey s) (ls_keyID s)) ;;
  post (mkRequest false (bloks_path "async_action" caaPassword) (Password username encrypted (ls_aac s) (ls_nonce s) (ls_mid s))).

Definition twoStep (token : string) (key : bytes) : M loginResponse :=
  ask (mkRequest false (bloks_path "apps" twoStepApp) (Context token)) ;;;
  ask (mkRequest false (bloks_path "apps" "com.bloks.www.two_step_verification.method_picker") (Context token)) ;;;
  ask (mkRequest false (bloks_path "async_action" "com.bloks.www.two_step_verification.method_picker.navigation.async") (Context token)) ;;;
  post (mkRequest false (bloks_path "async_action" "com.bloks.www.two_step_verification.verify_code.async") (Code token (ou_code o key))).

(** The second factor, if the reply to the password asks for one. *)
Definition second_factor (username : string) (key : bytes) (r : loginResponse) : M loginResponse :=
  let context := extractTwoStepContext order (lr_value r) in
  let answered := (lr_status r =? 200) || (lr_status r =? 400) in
  if negb (String.eqb context "") && answered then
    if (length key =? 0)%nat then throw (loginFailure "unsupported_two_factor") else twoStep context key
  else if bool_decide (jbool (obj_get "two_factor_required" (lr_value r)) = Some true) && answered then
    let info := object_field "two_factor_info" (lr_value r) in
    let id := stringField info "two_factor_identifier" in
    if (length key =? 0)%nat || negb (bool_decide (jbool (obj_get "totp_two_factor_on" info) = Some true)) || String.eqb id "" then throw (loginFailure "unsupported_two_factor")
    else post (mkRequest false "/api/v1/accounts/two_factor_login/" (ClassicCode username id (ou_code o key)))
  else ret r.

Definition verify_path : string := "/api/v1/accounts/current_user/?edit=true".
Definition verify (auth : string) : M loginResult := fun s =>
  let (x, now) := ou_exchange o (length (ls_sent s)) in
  let r := mkRequest false verify_path (Bearer auth) in
  let s := send r s in
  let (result, c) := verifyLogin ParseTime decode_user Parse ur_User ur_Opaque lower ParseIP PublicSuffix cookie_valid (ou_target o r) now auth x (ls_state s) in
  (result, with_state c s).

(** The bearer that a reply grants. *)
Definition granted (r : loginResponse) : string :=
  let auth := TrimSpace (header_get "ig-set-authorization" (lr_header r)) in
  if str_has_prefix auth "IGT:2:" then "Bearer " +:+ auth else auth.

Definition authenticate (username pass : string) (key : bytes) : M loginResult :=
  prepare username ;;;
  r <- password username pass ;;
  r <- second_factor username key r ;;
  require (requireLoginOK r) ;;;
  if negb (validAuthorization (granted r)) then throw (loginFailure "login_session_not_returned") else verify (granted r).

(** [login], with the outcome of newLoginSession and of the checks of the stored device and the transport. *)
Definition login (opened : res failure sessionContext) (device : option failure) (username pass totpSecret : string) : res failure loginResult * list request :=
  match (if String.eqb totpSecret "" then Ok [] else totpKey Parse Query totpSecret) with
  | Err e => (Err e, [])
  | Ok key =>
      match opened, device with
      | Err e, _ => (Err e, [])
      | _, Some e => (Err e, [])
      | Ok c, None => let (r, s) := authenticate username pass key (mkSession "" "" "" 0 "" c []) in (r, ls_sent s)
      end
  end.
End Flow.

(** ** The requests a login may make *)

Definition paths (l : list request) : list string := rq_path <$> l.
Definition sums (p q : list (list string)) : list (list string) := a ← p; (fun b => a ++ b) <$> q.

(** It sends what one of the plans says, in order, and all of it if it succeeds. *)
Definition follows {A} (m : M A) (plans : list (list string)) : Prop := forall s, exists k plan,
  ls_sent (m s).2 = ls_sent s ++ k /\ plan ∈ plans /\ paths k `prefix_of` plan /\ (is_ok (m s).1 = true -> paths k = plan).

Lemma sums_elem p q a b : a ∈ p -> b ∈ q -> a ++ b ∈ sums p q.
Proof. intros Ha Hb. apply list_elem_of_bind. exists a. split; [|done]. apply list_elem_of_fmap. by exists b. Qed.

Lemma follows_bind {A B} (m : M A) (f : A -> M B) p q : follows m p -> (forall a, follows (f a) q) -> q <> [] -> follows (bind m f) (sums p q).
Proof.
  intros Hm Hf Hq s. destruct (Hm s) as (k & plan & Hs & Hp & Hpre & Hok). unfold bind. destruct (m s) as [[a|e] s'] eqn:E; cbn [fst snd] in *.
  - destruct (Hf a s') as (k' & plan' & Hs' & Hp' & Hpre' & Hok'). exists (k ++ k'), (plan ++ plan'). specialize (Hok eq_refl). unfold paths in *.
    split; [by rewrite Hs', Hs, app_assoc|]. split; [by apply sums_elem|]. rewrite fmap_app, Hok. split; [by apply prefix_app|]. intros H. by rewrite Hok'.
  - destruct q as [|b q]; [done|]. exists k, (plan ++ b). split; [done|]. split; [apply sums_elem; [done|by left]|]. split; [by apply prefix_app_r|done].
Qed.
Lemma follows_quiet {A} (m : M A) : (forall s, ls_sent (m s).2 = ls_sent s) -> follows m [[]].
Proof. intros H s. exists [], []. split; [by rewrite app_nil_r|]. split; [by left|]. by split. Qed.
Lemma follows_more {A} (m : M A) p q : follows m p -> (forall l, l ∈ p -> l ∈ q) -> follows m q.
Proof. intros Hm Hpq s. destruct (Hm s) as (k & plan & H1 & H2 & H3). exists k, plan. auto. Qed.
Lemma follows_throw {A} e plans : plans <> [] -> follows (@throw A e) plans.
Proof. intros Hp s. destruct plans as [|plan plans]; [done|]. exists [], plan. split; [by rewrite app_nil_r|]. split; [by left|]. split; [apply prefix_nil|done]. Qed.
Lemma follows_ret {A} (a : A) : follows (ret a) [[]].
Proof. by apply follows_quiet. Qed.
Lemma follows_require e : follows (require e) [[]].
Proof. destruct e; by apply follows_quiet. Qed.

(** [m >>= f], where [m] sends nothing. *)
Lemma follows_after {A B} (m : M A) (f : A -> M B) q : follows m [[]] -> (forall a, follows (f a) q) -> q <> [] -> follows (bind m f) q.
Proof.
  intros Hm Hf Hq. apply (follows_more _ (sums [[]] q)); [by apply follows_bind|]. intros l Hl. apply list_elem_of_bind in Hl as (a & Hl & Ha).
  apply list_elem_of_singleton in Ha as ->. by apply list_elem_of_fmap in Hl as (b & -> & Hb).
Qed.

(** What holds of every state is kept. *)
Definition keeps {A} (I : sessionContext -> Prop) (m : M A) : Prop := forall s, I (ls_state s) -> I (ls_state (m s).2).
Lemma keeps_bind {A B} I (m : M A) (f : A -> M B) : keeps I m -> (forall a, keeps I (f a)) -> keeps I (bind m f).
Proof. intros Hm Hf s Hs. unfold bind. specialize (Hm s Hs). destruct (m s) as [[a|e] s'] eqn:E; cbn in *; [by apply Hf|done]. Qed.
Lemma keeps_same {A} I (m : M A) : (forall s, ls_state (m s).2 = ls_state s) -> keeps I m.
Proof. intros H s Hs. by rewrite H. Qed.

Section Plans.
Context (ParseTime : string -> option Z) (readSetCookie : string -> list Cookie) (order : record -> record) (decode_user : bytes -> option verified)
        (Parse : string -> option URL) (Query : URL -> string -> string) (ur_User : URL -> bool) (ur_Opaque : URL -> string) (lower : string -> string)
        (ParseIP : string -> bool) (PublicSuffix : string -> string) (cookie_valid : Cookie -> bool).
Context (o : outside).
Hypothesis lower_lower : forall s, lower (lower s) = lower s.

Abbreviation session_inv := (session_ok Parse ur_User ur_Opaque lower ParseIP PublicSuffix cookie_valid).
Abbreviation posting := (post ParseTime readSetCookie order Parse ur_User ur_Opaque lower ParseIP PublicSuffix cookie_valid o).
Abbreviation asking := (ask ParseTime readSetCookie order Parse ur_User ur_Opaque lower ParseIP PublicSuffix cookie_valid o).
Abbreviation preparing := (prepare ParseTime readSetCookie order Parse ur_User ur_Opaque lower ParseIP PublicSuffix cookie_valid o).
Abbreviation entering := (password ParseTime readSetCookie order Parse ur_User ur_Opaque lower ParseIP PublicSuffix cookie_valid o).
Abbreviation factoring := (second_factor ParseTime readSetCookie order Parse ur_User ur_Opaque lower ParseIP PublicSuffix cookie_valid o).
Abbreviation verifying := (verify ParseTime decode_user Parse ur_User ur_Opaque lower ParseIP PublicSuffix cookie_valid o).
Abbreviation authenticating := (authenticate ParseTime readSetCookie order decode_user Parse ur_User ur_Opaque lower ParseIP PublicSuffix cookie_valid o).

Lemma post_follows r : follows (posting r) [[rq_path r]].
Proof.
  intros s. unfold post. destruct (ou_exchange o _) as [x now]. destruct (received _ _ _ _ _ _ _ _ _ _ _ _ _ _) as [[result mid] c]. cbn [fst snd].
  exists [r], [rq_path r]. split; [by destruct mid|]. split; [by left|]. by split.
Qed.
Lemma ask_follows r : follows (asking r) [[rq_path r]].
Proof.
  unfold ask. apply (follows_bind _ _ [[rq_path r]] [[]]); [apply post_follows| |done]. intros a.
  apply follows_after; [apply follows_require|intros _; apply follows_ret|done].
Qed.

Lemma follows_ask {B} r (f : loginResponse -> M B) rest : (forall a, follows (f a) [rest]) -> follows (bind (asking r) f) [rq_path r :: rest].
Proof. intros Hf. apply (follows_more _ (sums [[rq_path r]] [rest])); [by apply follows_bind; [apply ask_follows|..]|by intros l Hl]. Qed.

Definition prepare_plan : list string :=
  ["/api/v1/launcher/mobileconfig/"; "/graphql_www"; "/api/v1/attestation/create_android_keystore/"; bloks_path "async_action" caaProcess; bloks_path "async_action" caaOAuth]%string.
Definition password_path : string := bloks_path "async_action" caaPassword.
Definition two_step_plan : list string :=
  [bloks_path "apps" twoStepApp; bloks_path "apps" "com.bloks.www.two_step_verification.method_picker";
   bloks_path "async_action" "com.bloks.www.two_step_verification.method_picker.navigation.async"; bloks_path "async_action" "com.bloks.www.two_step_verification.verify_code.async"].
Definition classic_plan : list string := ["/api/v1/accounts/two_factor_login/"%string].
Definition factor_plans (key : bool) : list (list string) := if key then [[]; two_step_plan; classic_plan] else [[]].
(** Preparing, the password, a second factor if there is a key, and the verification. *)
Definition login_plans (key : bool) : list (list string) := (fun f => prepare_plan ++ [password_path] ++ f ++ [verify_path]) <$> factor_plans key.

Lemma prepare_follows username : follows (preparing username) [prepare_plan].
Proof.
  unfold prepare, prepare_plan. apply follows_ask. intros r. apply follows_after; [by apply follows_quiet| |done]. intros mid.
  destruct (parse_byte _) as [id|]; [|by apply follows_throw]. destruct (String.eqb mid ""); [by apply follows_throw|]. apply follows_after; [by apply follows_quiet| |done]. intros _.
  match goal with |- follows _ [?a :: ?rest] => apply (follows_more _ (sums [[a]] [rest])); [|by intros l Hl] end. apply follows_bind; [| |done].
  { unfold register. apply follows_after; [apply follows_require| |done]. intros _. apply follows_ask. intros a. destruct (registered a); [apply follows_ret|by apply follows_throw]. }
  intros _. apply follows_ask. intros a. apply follows_after; [by apply follows_quiet| |done]. intros _. destruct (String.eqb _ ""); [by apply follows_throw|].
  apply follows_ask. intros b. apply follows_after; [by apply follows_quiet| |done]. intros _. destruct (String.eqb _ ""); [by apply follows_throw|].
  apply follows_ask. intros c. apply follows_ret.
Qed.

Lemma password_follows username pass : follows (entering username pass) [[password_path]].
Proof.
  unfold password. apply follows_after; [by apply follows_quiet| |done]. intros s. apply follows_after; [by apply follows_quiet| |done]. intros e. apply post_follows.
Qed.

Lemma factor_follows username key r : follows (factoring username key r) (factor_plans (negb (length key =? 0)%nat)).
Proof.
  unfold second_factor. set (k := (length key =? 0)%nat). assert (factor_plans (negb k) <> []) as Hne by (by destruct k).
  assert ([] ∈ factor_plans (negb k)) as Hnil by (destruct k; by left).
  assert (follows (@ret loginResponse r) (factor_plans (negb k))) as Hret by (apply (follows_more _ [[]]); [apply follows_ret|]; by intros l ->%list_elem_of_singleton).
  destruct (negb (String.eqb (extractTwoStepContext order (lr_value r)) "") && _); [|destruct (bool_decide _ && _); [|done]].
  - destruct k; [by apply follows_throw|]. apply (follows_more _ [two_step_plan]); [|intros l ->%list_elem_of_singleton; right; by left].
    unfold twoStep, two_step_plan. do 3 (apply follows_ask; intros _). apply post_follows.
  - destruct k; [by apply follows_throw|]. cbn [orb]. destruct (_ || _); [by apply follows_throw|].
    apply (follows_more _ [classic_plan]); [apply post_follows|intros l ->%list_elem_of_singleton; right; right; by left].
Qed.

Lemma verify_follows auth : follows (verifying auth) [[verify_path]].
Proof.
  intros s. unfold verify. destruct (ou_exchange o _) as [x now]. destruct (verifyLogin _ _ _ _ _ _ _ _ _ _ _ _ _ _) as [result c]. cbn [fst snd].
  eexists [_], _. split; [reflexivity|]. split; [by left|]. by split.
Qed.

Lemma authenticate_follows username pass key : follows (authenticating username pass key) (login_plans (negb (length key =? 0)%nat)).
Proof.
  unfold authenticate. set (k := negb (length key =? 0)%nat).
  apply (follows_more _ (sums [prepare_plan] (sums [[password_path]] (sums (factor_plans k) [[verify_path]])))); [|destruct k; intros l Hl; exact Hl].
  apply follows_bind; [apply prepare_follows|intros _|by destruct k]. apply follows_bind; [apply password_follows|intros r|by destruct k].
  apply follows_bind; [apply factor_follows|intros r'|done]. apply follows_after; [apply follows_require|intros _|done].
  destruct (negb (validAuthorization _)); [by apply follows_throw|apply verify_follows].
Qed.
(** *** The session's state *)

Hypothesis targets_ok : forall c r, url_ok Parse ur_User ur_Opaque lower c (ou_target o r).

Lemma received_ok r now x c : session_inv c ->
  session_inv (received ParseTime readSetCookie order Parse ur_User ur_Opaque lower ParseIP PublicSuffix cookie_valid (ou_target o r) now x c).2.
Proof.
  intros Hc. destruct x as [ctx|p ctx]; [done|]. unfold received.
  destruct (absorb_ok Parse ur_User ur_Opaque lower ParseIP PublicSuffix cookie_valid lower_lower (ou_target o r) now (hp_header p) (hp_cookies p) c Hc (targets_ok c r)) as [Ha _].
  set (c1 := absorb _ _ _ _ _ _ _ _ _ _ _ _) in *. cbv zeta. destruct (_ && _); [done|]. destruct (read_body p) as [raw|]; [|done].
  set (throttle := if hp_status p =? 429 then _ else _).
  assert (forall m, session_inv (match parseLogin ParseTime readSetCookie order now (hp_status p) (hp_header p) raw with
      | Err e => (Err (default e throttle) : res failure loginResponse, m : option string, c1)
      | Ok r1 =>
          let c := SetCookies Parse ur_User ur_Opaque lower ParseIP PublicSuffix cookie_valid (ou_target o r) (lr_cookies r1) now (Observe ur_User ur_Opaque lower (ou_target o r) (header_values (lr_header r1)) c1) in
          match loginCheck ParseTime now r1 with
          | Some e => (Err (match throttle with Some t => if String.eqb (errorCode e) "upstream_rate_limited" then t else e | None => e end), m, c)
          | None => (Ok r1, m, c)
          end
      end).2) as Hmain.
  { intros m. destruct (parseLogin _ _ _ _ _ _ _) as [r1|e]; [|done]. cbv zeta.
    destruct (session_event_ok Parse ur_User ur_Opaque lower ParseIP PublicSuffix cookie_valid lower_lower c1 (HeadersSeen (ou_target o r) (header_values (lr_header r1))) Ha I) as [H1 _].
    destruct (session_event_ok Parse ur_User ur_Opaque lower ParseIP PublicSuffix cookie_valid lower_lower _ (CookiesSet (ou_target o r) (lr_cookies r1) now) H1 (targets_ok _ r)) as [H2 _].
    destruct (loginCheck _ _ _); exact H2. }
  destruct throttle as [e|]; [destruct (json_Valid raw)|]; [apply Hmain|done|apply Hmain].
Qed.

Lemma post_keeps r : keeps session_inv (posting r).
Proof.
  intros s Hs. unfold post. destruct (ou_exchange o _) as [x now]. pose proof (received_ok r now x (ls_state s) Hs) as H. cbn [ls_state send].
  destruct (received _ _ _ _ _ _ _ _ _ _ _ _ _ _) as [[result mid] c]. exact H.
Qed.
Lemma require_keeps e : keeps session_inv (require e).
Proof. destruct e; by apply keeps_same. Qed.
Lemma ask_keeps r : keeps session_inv (asking r).
Proof. apply keeps_bind; [apply post_keeps|]. intros a. apply keeps_bind; [apply require_keeps|]. intros _. by apply keeps_same. Qed.

Lemma prepare_keeps username : keeps session_inv (preparing username).
Proof.
  unfold prepare, register. repeat first [ by apply keeps_same | apply require_keeps | apply ask_keeps | apply keeps_bind; [|intros ?] | destruct (parse_byte _) | destruct (String.eqb _ _) | destruct (registered _) ].
Qed.

Lemma before_verify_keeps username pass key : keeps session_inv (preparing username ;;; r <- entering username pass ;; r <- factoring username key r ;; require (requireLoginOK r) ;;; ret r).
Proof.
  apply keeps_bind; [apply prepare_keeps|intros _]. apply keeps_bind.
  { unfold password. apply keeps_bind; [by apply keeps_same|intros s]. apply keeps_bind; [by apply keeps_same|intros e]. apply post_keeps. }
  intros r. apply keeps_bind; [|intros r'; apply keeps_bind; [apply require_keeps|intros _; by apply keeps_same]].
  unfold second_factor, twoStep. destruct (negb _ && _); [|destruct (bool_decide _ && _); [|by apply keeps_same]].
  - destruct (_ =? 0)%nat; [by apply keeps_same|]. do 3 (apply keeps_bind; [apply ask_keeps|intros _]). apply post_keeps.
  - destruct (_ || _ || _); [by apply keeps_same|apply post_keeps].
Qed.

Lemma bind_ok {A B} (m : M A) (f : A -> M B) s b s' : bind m f s = (Ok b, s') -> exists a s1, m s = (Ok a, s1) /\ f a s1 = (Ok b, s').
Proof. unfold bind. destruct (m s) as [[a|e] s1]; [|done]. intros H. by exists a, s1. Qed.

(** What ends with a result was verified. *)
Lemma authenticate_ok username pass key s r s' : authenticating username pass key s = (Ok r, s') ->
  exists s1 r1, (preparing username ;;; r <- entering username pass ;; r <- factoring username key r ;; require (requireLoginOK r) ;;; ret r) s = (Ok r1, s1) /\
    requireLoginOK r1 = None /\ validAuthorization (granted r1) = true /\ verifying (granted r1) s1 = (Ok r, s').
Proof.
  intros H. unfold authenticate in H. apply bind_ok in H as ([] & s1 & H1 & H). apply bind_ok in H as (ra & s2 & H2 & H). apply bind_ok in H as (rb & s3 & H3 & H).
  apply bind_ok in H as ([] & s4 & H4 & H). exists s4, rb. split; [|split; [|split]].
  - unfold bind. rewrite H1, H2, H3, H4. done.
  - destruct (requireLoginOK rb); [|done]. cbn in H4. done.
  - by destruct (validAuthorization (granted rb)).
  - by destruct (validAuthorization (granted rb)).
Qed.

(** What the verification went by. *)
Definition verified_login (sent : list request) (r : loginResult) : Prop :=
  exists before auth p ctx body v c, sent = before ++ [mkRequest false verify_path (Bearer auth)] /\ validAuthorization auth = true /\
    (ou_exchange o (length before)).1 = Replied p ctx /\ hp_status p = 200 /\ hp_body p = Some body /\ (apiFailure false (default [] (unmarshal body))).2 = None /\
    decode_user body = Some v /\ vf_Status v = "ok"%string /\ r = mkLogin auth (vf_Username v) (vf_PK v) (Some (sc_state c)) /\ session_inv c.

Lemma authenticate_verified username pass key s r s' : session_inv (ls_state s) -> authenticating username pass key s = (Ok r, s') -> verified_login (ls_sent s') r.
Proof.
  intros Hs H. apply authenticate_ok in H as (s1 & r1 & H1 & _ & Hv & H). pose proof (before_verify_keeps username pass key s Hs) as Hk. rewrite H1 in Hk. cbn [snd] in Hk.
  unfold verify in H. set (rq := mkRequest false verify_path (Bearer (granted r1))) in *. destruct (ou_exchange o (length (ls_sent s1))) as [x now] eqn:Ex.
  cbn [ls_state send] in H. unfold verifyLogin in H. destruct (verdict_of ParseTime decode_user now (granted r1) x) as [lg|e] eqn:Ev; [|by injection H].
  apply verdict_ok in Ev as (p & ctx & body & v & -> & H200 & Hbody & _ & Hapi & Hdec & Hst & _ & _ & ->).
  destruct (absorb_ok Parse ur_User ur_Opaque lower ParseIP PublicSuffix cookie_valid lower_lower (ou_target o rq) now (hp_header p) (hp_cookies p) (ls_state s1) Hk (targets_ok _ rq)) as [Ha _].
  apply (prune_ok _ _ _ _ _ _ _ now) in Ha. cbn [Snapshot] in H. injection H as <- <-. cbn [ls_sent with_state send].
  exists (ls_sent s1), (granted r1), p, ctx, body, v. eexists. rewrite Ex. repeat (split; [done|]). exact Ha.
Qed.

End Plans.

Lemma key_long Parse Query text key : totpKey Parse Query text = Ok key -> (10 <= length key)%nat.
Proof.
  unfold totpKey. destruct (if str_has_prefix _ _ then _ else _) as [value|]; [|done]. destruct (base32_decode _) as [k|]; [|done].
  destruct (Nat.ltb_spec (length k) 10); [done|]. by intros [= <-].
Qed.

(** ** The theorems *)

(** C37. A login makes its requests in one of at most three orders and stops at the first
    failure: it prepares, submits the password once, then a code once or not at all, and
    never without a secret for codes, and verifies the session that was granted.  It has a result only if it
    made all of them and the last reply, to a request with the granted bearer,
    was a success that names the account; the result is that account with
    that bearer and the session's state, which is sound. *)
Theorem login_sound ParseTime readSetCookie order decode_user Parse Query ur_User ur_Opaque lower ParseIP PublicSuffix cookie_valid o opened device username pass totpSecret result sent :
  (forall s, lower (lower s) = lower s) ->
  (forall c r, url_ok Parse ur_User ur_Opaque lower c (ou_target o r)) ->
  (forall c, opened = Ok c -> session_ok Parse ur_User ur_Opaque lower ParseIP PublicSuffix cookie_valid c) ->
  login ParseTime readSetCookie order decode_user Parse Query ur_User ur_Opaque lower ParseIP PublicSuffix cookie_valid o opened device username pass totpSecret = (result, sent) ->
  (exists plan, plan ∈ login_plans (negb (String.eqb totpSecret "")) /\ paths sent `prefix_of` plan /\ (is_ok result = true -> paths sent = plan)) /\
  forall r, result = Ok r -> verified_login decode_user Parse ur_User ur_Opaque lower ParseIP PublicSuffix cookie_valid o sent r.
Proof.
  intros Hl Ht Ho. assert (exists plan, plan ∈ login_plans (negb (String.eqb totpSecret ""))) as [plan0 Hp0] by (exists (prepare_plan ++ [password_path] ++ [] ++ [verify_path]); destruct (String.eqb totpSecret ""); cbn -[prepare_plan password_path verify_path]; left).
  assert (forall e : failure, (exists plan, plan ∈ login_plans (negb (String.eqb totpSecret "")) /\ paths [] `prefix_of` plan /\ (is_ok (Err e : res failure loginResult) = true -> paths [] = plan)) /\
    forall r, (Err e : res failure loginResult) = Ok r -> verified_login decode_user Parse ur_User ur_Opaque lower ParseIP PublicSuffix cookie_valid o [] r) as Hnone.
  { intros e. split; [|done]. exists plan0. split; [done|]. split; [apply prefix_nil|done]. }
  unfold login. destruct (if String.eqb totpSecret "" then _ else _) as [key|e] eqn:Ek; [|intros [= <- <-]; apply Hnone].
  destruct opened as [c|e]; [|intros [= <- <-]; apply Hnone]. destruct device as [e|]; [intros [= <- <-]; apply Hnone|].
  set (s := mkSession "" "" "" 0 "" c []).
  destruct (authenticate_follows ParseTime readSetCookie order decode_user Parse ur_User ur_Opaque lower ParseIP PublicSuffix cookie_valid o username pass key s) as (k & plan & Hs & Hp & Hpre & Hok).
  fold s. destruct (authenticate _ _ _ _ _ _ _ _ _ _ _ _ _ _ _ _) as [result' s'] eqn:Ea. cbn [fst snd] in *. intros [= <- <-]. change (ls_sent s) with (@nil request) in Hs. cbn [app] in Hs. subst k. split.
  - exists plan. split; [|done]. destruct (String.eqb totpSecret "") eqn:Et; [by injection Ek as <-|]. apply key_long in Ek. destruct key; [cbn in Ek; lia|exact Hp].
  - intros r ->. apply (authenticate_verified ParseTime readSetCookie order decode_user Parse ur_User ur_Opaque lower ParseIP PublicSuffix cookie_valid o Hl Ht username pass key s); [by apply Ho|done].
Qed.

(** *** A login *)

Definition jobj1 (k : string) (v : json) : json := JObj [(k, v)].
Definition demo_reply (h : header) (j : json) : exchange * Z := (Replied (mkHTTP 200 h [] (Some (json_print j))) None, 0).
Definition demo_exchange (n : nat) : exchange * Z :=
  match n with
  | 0%nat => demo_reply [("ig-set-password-encryption-key-id", ["7"]); ("ig-set-x-mid", ["m"])]%string (JObj [])
  | 1%nat => demo_reply [] (jobj1 "data" (jobj1 "xdt_usdid_registration" (jobj1 "success" (JBool true))))
  | 2%nat => demo_reply [] (jobj1 "challenge_nonce" (JStr "n"))
  | 3%nat => demo_reply [] (jobj1 "layout" (jobj1 "bloks_payload" (jobj1 "data" (JArr [jobj1 "data" (JObj [("key", JStr "CAA_ACCOUNT_ACCESS_CONTEXT:aac"); ("initial", JStr "a")])]))))
  | 4%nat => demo_reply [] (JObj [])
  | 5%nat => demo_reply [("ig-set-authorization", ["IGT:2:abc"])]%string (jobj1 "status" (JStr "ok"))
  | _ => demo_reply [] (jobj1 "status" (JStr "ok"))
  end.
Definition demo_outside : outside := mkOutside demo_exchange (fun _ => demo_url) None (fun p _ _ => Ok p) (fun _ => "000000"%string).
Definition demo_user (b : bytes) : option verified := Some (mkVerified "ok" "name" "42").
Abbreviation demo_login := (login (fun _ => None) (fun _ => []) (fun m => m) demo_user demo_Parse (fun _ _ => ""%string) demo_User demo_Opaque ToLower demo_IP demo_suffix demo_valid
  demo_outside (Ok demo_session) None "user"%string "pass"%string).

Lemma login_sound_witness :
  (exists plan, plan ∈ login_plans false /\ paths (demo_login ""%string).2 = plan) /\
  option_map lg_Authorization (match (demo_login ""%string).1 with Ok r => Some r | Err _ => None end) = Some "Bearer IGT:2:abc"%string.
Proof.
  assert (is_ok (demo_login ""%string).1 = true) as Hok by (vm_compute; reflexivity). split; [|vm_compute; reflexivity].
  destruct (login_sound (fun _ => None) (fun _ => []) (fun m => m) demo_user demo_Parse (fun _ _ => ""%string) demo_User demo_Opaque ToLower demo_IP demo_suffix demo_valid
    demo_outside (Ok demo_session) None "user" "pass" "" (demo_login ""%string).1 (demo_login ""%string).2 ToLower_twice (fun c _ => demo_url_ok c)) as [(plan & Hp & _ & Hs) _].
  - intros c [= <-]. exact (proj1 (new_session_ok demo_Parse demo_User demo_Opaque ToLower demo_IP demo_suffix demo_valid [] 0 demo_session eq_refl)).
  - exact (surjective_pairing (demo_login ""%string)).
  - exists plan. split; [exact Hp|]. exact (Hs Hok).
Defined.
