(* ===== verification/Import.v ===== *)
(** * instagramapp: devices, account files and imports

    Models src/internal/instagramapp/devices.go, accounts.go, cookie_import.go,
    import.go, and [updateExisting] of update.go.  Files, the CSV reader, encoding/json into structs, the jar,
    the check of a cookie and random values are inputs or parameters; the
    proxies, logins and the store answer what the environment of a row says. *)
From S2P Require Import Prelude Strconv Errors Json Crypto Limiter AppSession AppRoute Api InstagramPost Accounts Lookup SessionState Login.
From stdpp Require Import gmap strings.
Open Scope Z_scope.
Open Scope go_scope.

(** ** Devices *)

Definition appVersion : string := "452.1.0.53.64".
Definition appBuild : string := "1096920925".
Definition defaultDeviceProfile : string := "pixel-7-android-17".
Definition loginTLSProfile : string := "instagram-android-mns-452".

Record DeviceProfile := mkProfile {
  dp_ID : string; dp_Model : string; dp_Manufacturer : string; dp_Brand : string; dp_Device : string; dp_CPU : string;
  dp_AndroidVersion : Z; dp_AndroidAPI : Z; dp_DPI : Z; dp_Resolution : string; dp_TLSProfile : string;
}.
Definition deviceProfiles : list DeviceProfile := [
  mkProfile defaultDeviceProfile "Pixel 7" "Google" "google" "panther" "panther" 17 37 420 "1080x2400" loginTLSProfile;
  mkProfile "pixel-7-android-15" "Pixel 7" "Google" "google" "panther" "panther" 15 35 420 "1080x2400" loginTLSProfile;
  mkProfile "pixel-8-android-15" "Pixel 8" "Google" "google" "shiba" "shiba" 15 35 420 "1080x2400" loginTLSProfile;
  mkProfile "galaxy-s23-android-14" "SM-S911B" "samsung" "samsung" "dm1q" "qcom" 14 34 420 "1080x2340" loginTLSProfile;
  mkProfile "galaxy-s23-android-15" "SM-S911B" "samsung" "samsung" "dm1q" "qcom" 15 35 420 "1080x2340" loginTLSProfile].
Definition findDeviceProfile (id : string) : option DeviceProfile := List.find (fun p => String.eqb (dp_ID p) id) deviceProfiles.
Definition validDeviceSelection (id : string) : bool :=
  String.eqb id "" || String.eqb id "random" || match findDeviceProfile id with Some _ => true | None => false end.

Definition profile_userAgent (p : DeviceProfile) : string :=
  let manufacturer := if String.eqb (dp_Brand p) (dp_Manufacturer p) then dp_Manufacturer p else dp_Manufacturer p +:+ "/" +:+ dp_Brand p in
  "Instagram " +:+ appVersion +:+ " Android (" +:+ Itoa (dp_AndroidAPI p) +:+ "/" +:+ Itoa (dp_AndroidVersion p) +:+ "; " +:+ Itoa (dp_DPI p) +:+ "dpi; " +:+ dp_Resolution p +:+ "; " +:+
  manufacturer +:+ "; " +:+ dp_Model p +:+ "; " +:+ dp_Device p +:+ "; " +:+ dp_CPU p +:+ "; en_US; " +:+ appBuild +:+ ")".

Record DeviceIdentity := mkDevice { di_Version : Z; di_ProfileID : string; di_DeviceID : string; di_FamilyID : string; di_AndroidID : string }.
Definition invalidDeviceProfile : failure := plain (ErrCore (NewError "invalid_device_profile" "Choose an Instagram device_profile from /v1/instagram/device-profiles or use random" 422)).

(** [n] chooses the profile; [seed], [b1] and [b2] are the random bytes of the identifiers. *)
Definition newDeviceIdentity (selection : string) (n : nat) (seed b1 b2 : bytes) : res failure DeviceIdentity :=
  if negb (validDeviceSelection selection) then Err invalidDeviceProfile
  else
    let selection := if String.eqb selection "" || String.eqb selection "random" then match deviceProfiles !! n with Some p => dp_ID p | None => "" end else selection in
    Ok (mkDevice 1 selection (NewID b1) (NewID b2) ("android-" +:+ hex_encode seed)).

(** The pattern of an identifier: what every character may be. *)
Definition hex_char (a : ascii) : bool := let n := N_of_ascii a in ((48 <=? n) && (n <=? 57) || (97 <=? n) && (n <=? 102))%N.
Definition is_char (c a : ascii) : bool := Ascii.eqb a c.
Definition variant_char (a : ascii) : bool := existsb (Ascii.eqb a) ["8"; "9"; "a"; "b"]%char.
Fixpoint matches (pattern : list (ascii -> bool)) (s : string) : bool :=
  match pattern, s with
  | [], EmptyString => true
  | p :: pattern, String a s => p a && matches pattern s
  | _, _ => false
  end.
Definition deviceUUIDPattern : list (ascii -> bool) :=
  replicate 8 hex_char ++ [is_char "-"] ++ replicate 4 hex_char ++ [is_char "-"; is_char "4"] ++ replicate 3 hex_char ++ [is_char "-"; variant_char] ++ replicate 3 hex_char ++ [is_char "-"] ++ replicate 12 hex_char.
Definition deviceAndroidPattern : list (ascii -> bool) := map is_char (String.list_ascii_of_string "android-") ++ replicate 16 hex_char.

Definition device_validate (d : option DeviceIdentity) : bool :=
  match d with
  | None => true
  | Some d =>
      (di_Version d =? 1) && match findDeviceProfile (di_ProfileID d) with Some _ => true | None => false end &&
      matches deviceUUIDPattern (di_DeviceID d) && matches deviceUUIDPattern (di_FamilyID d) && negb (String.eqb (di_DeviceID d) (di_FamilyID d)) && matches deviceAndroidPattern (di_AndroidID d)
  end.
Definition profileID (d : option DeviceIdentity) : string := match d with Some d => di_ProfileID d | None => defaultDeviceProfile end.
Definition device_userAgent (d : option DeviceIdentity) : string := match findDeviceProfile (profileID d) with Some p => profile_userAgent p | None => profile_userAgent (mkProfile "" "" "" "" "" "" 0 0 0 "" "") end.
Definition device_headers (d : option DeviceIdentity) : list (string * string) :=
  ("User-Agent", device_userAgent d) ::
  match d with Some d => [("X-IG-Device-ID", di_DeviceID d); ("X-IG-Family-Device-ID", di_FamilyID d); ("X-IG-Android-ID", di_AndroidID d)] | None => [] end%string.

(** ** Account files *)

Record accountConfig := mkConfig {
  cf_Cookies : option string; cf_ID : string; cf_Authorization : string; cf_SessionFile : string; cf_ProxyURL : option string; cf_Device : option DeviceIdentity; cf_Session : option SessionState;
}.
Definition set_ID (id : string) (c : accountConfig) : accountConfig := mkConfig (cf_Cookies c) id (cf_Authorization c) (cf_SessionFile c) (cf_ProxyURL c) (cf_Device c) (cf_Session c).
Definition set_auth (auth : string) (c : accountConfig) : accountConfig := mkConfig (cf_Cookies c) (cf_ID c) auth (cf_SessionFile c) (cf_ProxyURL c) (cf_Device c) (cf_Session c).
Definition orelse {A} (a b : option A) : option A := match a with Some _ => a | None => b end.

(** An entry takes what it lacks from its session file. *)
Definition merge_session (entry session : accountConfig) : accountConfig :=
  mkConfig (cf_Cookies entry) (cf_ID entry) (cf_Authorization session) (cf_SessionFile entry) (orelse (cf_ProxyURL entry) (cf_ProxyURL session)) (orelse (cf_Device entry) (cf_Device session)) (orelse (cf_Session entry) (cf_Session session)).

Definition accountIDPattern (id : string) : bool :=
  let alnum a := let n := N_of_ascii a in ((48 <=? n) && (n <=? 57) || (65 <=? n) && (n <=? 90) || (97 <=? n) && (n <=? 122))%N in
  match id with
  | String a rest => alnum a && (String.length rest <=? 63)%nat && forallb (fun a => alnum a || existsb (Ascii.eqb a) ["."; "_"; "-"]%char) (String.list_ascii_of_string rest)
  | EmptyString => false
  end.

Fixpoint manifest_entries (readSession : string -> res string accountConfig) (entries : list accountConfig) : res string (list accountConfig) :=
  match entries with
  | [] => Ok []
  | entry :: entries =>
      let? entry := (if String.eqb (cf_SessionFile entry) "" then Ok entry
                     else let? session := readSession (cf_SessionFile entry) in
                          if negb (String.eqb (cf_Authorization entry) "") then Err "account must use authorization or session_file, not both" else Ok (merge_session entry session)) in
      let? rest := manifest_entries readSession entries in
      Ok (entry :: rest)
  end.

(** A directory's entry: its name, whether it is a directory, and what reading it gives. *)
Record dir_entry := mkDirEntry { de_Name : string; de_IsDir : bool; de_Account : res string accountConfig }.
Fixpoint directory_entries (entries : list dir_entry) : res string (list accountConfig) :=
  match entries with
  | [] => Ok []
  | e :: entries =>
      if de_IsDir e || negb (str_has_suffix (de_Name e) ".json") then directory_entries entries
      else
        let? account := de_Account e in
        if negb (String.eqb (cf_SessionFile account) "") then Err "account directory profiles require authorization"
        else
          let account := if String.eqb (cf_ID account) "" then set_ID (TrimSuffix (de_Name e) ".json") account else account in
          let? rest := directory_entries entries in
          Ok (account :: rest)
  end.

Definition bearer_prefix : string := "Bearer IGT:2:".
Fixpoint check_accounts (ids tokens : list string) (accounts : list accountConfig) : res string (list accountConfig) :=
  match accounts with
  | [] => Ok []
  | a :: accounts =>
      if negb (device_validate (cf_Device a)) then Err "invalid stored Instagram device identity"
      else if negb (accountIDPattern (cf_ID a)) || existsb (String.eqb (cf_ID a)) ids then Err "invalid or duplicate Instagram account ID"
      else
        let auth := TrimSpace (cf_Authorization a) in
        let auth := if str_has_prefix auth "IGT:2:" then "Bearer " +:+ auth else auth in
        if negb (str_has_prefix auth bearer_prefix) || (String.length auth <=? String.length bearer_prefix)%nat then Err "invalid Instagram Android authorization"
        else
          let token := TrimPrefix auth "Bearer " in
          if negb (forallb (fun a => (32 <? Z.of_N (N_of_ascii a)) && (Z.of_N (N_of_ascii a) <? 127)) (String.list_ascii_of_string token)) then Err "invalid Instagram Android authorization"
          else if existsb (String.eqb token) tokens then Err "duplicate Instagram account authorization"
          else
            let? rest := check_accounts (cf_ID a :: ids) (token :: tokens) accounts in
            Ok (set_auth auth a :: rest)
  end.

(** [manifest]: what reading AccountsFile gives, if it is configured; [listing] likewise of AccountsDir. *)
Definition loadAccounts (manifest : option (res string (list accountConfig))) (readSession : string -> res string accountConfig) (listing : option (res string (list dir_entry))) : res string (list accountConfig) :=
  let? first := match manifest with Some m => let? entries := m in manifest_entries readSession entries | None => Ok [] end in
  let? second := match listing with Some l => let? entries := l in directory_entries entries | None => Ok [] end in
  check_accounts [] [] (first ++ second).

(** ** Credentials *)

Definition MaxImportAccounts : nat := 100.
Definition credentialLimit : Z := 4 * 2 ^ 20.
Definition invalidImport : failure :=
  plain (ErrCore (NewError "invalid_account_import" "Supply up to 100 accounts with browser cookies and/or username, password and a valid TOTP secret" 422)).
Definition importBusy : failure := plain (ErrCore (NewError "import_busy" "An Instagram account import is already running" 409)).

Record Credentials := mkCredentials { cr_Cookies : option string; cr_Username : string; cr_Password : string; cr_TOTPSecret : string; cr_DeviceProfile : string }.

(** A cookie of a browser's export; [bc_Expires] is absent where it says 0. *)
Record browser_cookie := mkBrowser { bc_Name : string; bc_Value : string; bc_Domain : string; bc_Path : string; bc_Rest : string; bc_HostOnly : bool; bc_Session : bool; bc_Expires : option Z }.

Section Credentials.
Context (decode_cookies : string -> option (list browser_cookie)) (cookie_valid : Cookie -> bool)
        (jar : list (string * Cookie) -> list (string * string)) (Parse : string -> option URL) (Query : URL -> string -> string) (lower : string -> string).
(** Whether two texts decode, and to values that are deeply equal. *)
Context (sameCookies : string -> string -> bool).

Definition export_cookie (c : browser_cookie) (domain : string) (expires : option Z) : Cookie := mkCookie (bc_Name c) (bc_Value c) domain (bc_Path c) expires 0 false "" (bc_Rest c).
Definition Second_ns : Z := 1000000000.

(** The calls of the jar: the host and the cookie. *)
Fixpoint jar_calls (allowExpired : bool) (cookies : list browser_cookie) : option (list (string * Cookie)) :=
  match cookies with
  | [] => Some []
  | c :: cookies =>
      let domain := TrimPrefix (bc_Domain c) "." in
      if negb (existsb (String.eqb domain) ["instagram.com"; "www.instagram.com"; "i.instagram.com"]%string) then None
      else if negb (cookie_valid (export_cookie c (bc_Domain c) None)) || negb (str_has_prefix (bc_Path c) "/") then None
      else
        let expires := if negb allowExpired && negb (bc_Session c) then (fun t => t * Second_ns) <$> bc_Expires c else None in
        match jar_calls allowExpired cookies with
        | Some calls => Some ((domain, export_cookie c (if bc_HostOnly c then "" else bc_Domain c) expires) :: calls)
        | None => None
        end
  end.

(** The two cookies that matter, each at most once: the user's ID and the session. *)
Fixpoint session_values (cookies : list (string * string)) (id session : string) : option (string * string) :=
  match cookies with
  | [] => Some (id, session)
  | (name, value) :: cookies =>
      if String.eqb name "sessionid" then if String.eqb session "" then session_values cookies id value else None
      else if String.eqb name "ds_user_id" then if String.eqb id "" then session_values cookies value session else None
      else session_values cookies id session
  end.

Definition cookie_bearer (id session : string) : string :=
  "Bearer IGT:2:" +:+ string_of_bytes (EncodeToString (json_print (JObj [("ds_user_id", JStr id); ("sessionid", JStr session)]%string))).

Definition cookieSession (raw : string) (allowExpired : bool) : res failure (string * string) :=
  match decode_cookies raw with
  | None | Some [] => Err invalidImport
  | Some cookies =>
      match jar_calls allowExpired cookies with
      | None => Err invalidImport
      | Some calls =>
          match session_values (jar calls) "" "" with
          | None => Err invalidImport
          | Some (id, escaped) =>
              match PathUnescape escaped with
              | Some session =>
                  if String.eqb session "" || String.eqb id "" || negb (all_digits id) then Err invalidImport else Ok (cookie_bearer id session, id)
              | None => Err invalidImport
              end
          end
      end
  end.
Definition cookieAuthorization (raw : string) : res failure (string * string) := cookieSession raw false.

Definition trim_username (s : string) : string := TrimSpace (TrimPrefix (TrimSpace s) "'").
Definition has_control (s : string) : bool := existsb (fun a => existsb (Ascii.eqb a) ["013"; "010"; "000"]%char) (String.list_ascii_of_string s).

(** [seen] are the keys so far. *)
Fixpoint validate_accounts (seen : list string) (accounts : list Credentials) : res failure (list Credentials) :=
  match accounts with
  | [] => Ok []
  | a :: accounts =>
      let a := mkCredentials (cr_Cookies a) (trim_username (cr_Username a)) (cr_Password a) (cr_TOTPSecret a) (TrimSpace (cr_DeviceProfile a)) in
      if negb (validDeviceSelection (cr_DeviceProfile a)) then Err invalidDeviceProfile
      else
        let? seen := match cr_Cookies a with
                     | Some raw =>
                         match cookieSession raw (negb (String.eqb (cr_Password a) "")) with
                         | Ok (_, id) => if existsb (String.eqb ("cookie:" +:+ id)) seen then Err invalidImport else Ok (("cookie:" +:+ id) :: seen)
                         | Err _ => Err invalidImport
                         end
                     | None => Ok seen
                     end in
        if match cr_Cookies a with Some _ => true | None => false end && String.eqb (cr_Username a) "" && String.eqb (cr_Password a) "" && String.eqb (cr_TOTPSecret a) ""
        then let? rest := validate_accounts seen accounts in Ok (a :: rest)
        else
          let key := lower (cr_Username a) in
          if String.eqb (cr_Username a) "" || (254 <? String.length (cr_Username a))%nat || String.eqb (cr_Password a) "" || (1024 <? String.length (cr_Password a))%nat ||
             (2048 <? String.length (cr_TOTPSecret a))%nat || existsb (String.eqb key) seen || has_control (cr_Username a) then Err invalidImport
          else if negb (String.eqb (cr_TOTPSecret a) "") && negb (is_ok (totpKey Parse Query (cr_TOTPSecret a))) then Err invalidImport
          else let? rest := validate_accounts (key :: seen) accounts in Ok (a :: rest)
  end.
Definition validateCredentials (accounts : list Credentials) : res failure (list Credentials) :=
  if (length accounts =? 0)%nat || (MaxImportAccounts <? length accounts)%nat then Err invalidImport else validate_accounts [] accounts.

(** *** Files *)

Definition bom : string := string_of_bytes [0xEF; 0xBB; 0xBF].
Fixpoint csv_columns (n : nat) (header : list string) (columns : list (string * nat)) : option (list (string * nat)) :=
  match header with
  | [] => Some columns
  | name :: header =>
      let name := TrimSpace (TrimPrefix name bom) in
      if existsb (fun c => String.eqb c.1 name) columns then None else csv_columns (S n) header (columns ++ [(name, n)])
  end.
Definition column (columns : list (string * nat)) (name : string) : option nat := snd <$> List.find (fun c => String.eqb c.1 name) columns.
Definition cell (row : list string) (n : option nat) : string := match n with Some n => default "" (row !! n) | None => "" end.

(** [rows]: the records after the header, each as the reader gives it, up to the end or an error. *)
Fixpoint csv_rows (columns : list (string * nat)) (rows : list (option (list string))) (result : list Credentials) : res failure (list Credentials) :=
  match rows with
  | [] => Ok result
  | None :: _ => Err invalidImport
  | Some row :: rows =>
      if (MaxImportAccounts <=? length result)%nat then Err invalidImport
      else
        let cookies := cell row (column columns "Cookies") in
        csv_rows columns rows (result ++ [mkCredentials (if String.eqb (TrimSpace cookies) "" then None else Some cookies)
          (cell row (column columns "User ID / Email Address")) (cell row (column columns "Password")) (cell row (column columns "First Secret Question")) (cell row (column columns "Device Profile"))])
  end.
Definition ParseCSV (header : option (list string)) (rows : list (option (list string))) : res failure (list Credentials) :=
  match header with
  | None => Err invalidImport
  | Some header =>
      match csv_columns 0 header [] with
      | None => Err invalidImport
      | Some columns =>
          if existsb (fun name => match column columns name with Some _ => false | None => true end) ["User ID / Email Address"; "Password"; "First Secret Question"]%string then Err invalidImport
          else let? result := csv_rows columns rows [] in validateCredentials result
      end
  end.

(** [values]: the JSON values of the stream, up to its end or an error. *)
Fixpoint export_accounts (values : list (option string)) (accounts : list Credentials) : res failure (list Credentials) :=
  match values with
  | [] => Ok accounts
  | None :: _ => Err invalidImport
  | Some raw :: values => if (MaxImportAccounts <=? length accounts)%nat then Err invalidImport else export_accounts values (accounts ++ [mkCredentials (Some raw) "" "" "" ""])
  end.
Definition ParseCookieExport (values : list (option string)) : res failure (list Credentials) :=
  let? accounts := export_accounts values [] in validateCredentials accounts.

(** What the two readers make of the same bytes. *)
Definition ParseImportFile (read_csv : bytes -> option (list string) * list (option (list string))) (read_values : bytes -> list (option string)) (raw : option bytes) : res failure (list Credentials) :=
  match raw with
  | Some raw =>
      if credentialLimit <? len raw then Err invalidImport
      else
        let text := string_of_bytes raw in
        if str_has_prefix (TrimSpace (TrimPrefix text bom)) "[" then ParseCookieExport (read_values (bytes_of_string (TrimPrefix text bom)))
        else let (header, rows) := read_csv raw in ParseCSV header rows
  | None => Err invalidImport
  end.
(** ** An import *)

Record ImportResult := mkResult { ir_Row : nat; ir_AccountID : string; ir_Status : string; ir_ErrorCode : string }.

(** An account of the store, as an import looks at it. *)
Record stored := mkStored { sa_ID : string; sa_Username : string; sa_UserID : string; sa_ProxyURL : string; sa_Dead : bool; sa_Cookies : option string }.

Record passwordCredentials := mkPassword { pc_Username : string; pc_Password : string; pc_TOTPSecret : string; pc_UserID : string }.
Definition password_eqb (a b : passwordCredentials) : bool :=
  String.eqb (pc_Username a) (pc_Username b) && String.eqb (pc_Password a) (pc_Password b) && String.eqb (pc_TOTPSecret a) (pc_TOTPSecret b) && String.eqb (pc_UserID a) (pc_UserID b).
Definition backup (c : Credentials) (userID : string) : option passwordCredentials :=
  if String.eqb (cr_Password c) "" then None else Some (mkPassword (cr_Username c) (cr_Password c) (cr_TOTPSecret c) userID).

(** What an update of a known account meets: the errors of [beginUpdate], of
    [Flush] and of waiting for the refresh gate; what the pool knows of the
    account, and when its cooldown is looked at; when a throttle is noted, and
    the outcome of saving it; and those of the session's context and of the
    statement that saves the session or the login. *)
Record update_env := mkUpdate {
  ue_begin : option failure; ue_flush : option failure; ue_gate : option failure;
  ue_login : option passwordCredentials; ue_dead : bool; ue_auth : string; ue_cooldown : Z; ue_now : Z;
  ue_noted : Z; ue_mark : option failure; ue_context : option failure; ue_save : option failure;
}.

(** What an import does: credentials of a row are sent over a route. *)
Inductive deed :=
| Probed (proxy : string)
| Submitted (row : nat) (proxy : string)
| Inserted (row : nat) (userID proxy : string)
| Updated (row : nat) (id : string).

(** What happens to a row: the context's error before it and at its failure, the routes, the outcome of
    verifying a session and of a login with the password, the identifier of a new account, the store and the
    pool, and what the two calls of updateExisting meet. *)
Record environment := mkEnv {
  ev_ctx : option failure; ev_ended : bool;
  ev_transport : string -> bool; ev_probe : string -> option string;
  ev_verify : string -> res failure loginResult; ev_password : res failure loginResult;
  ev_id : string; ev_insert : res failure bool; ev_add : option failure;
  ev_update : update_env; ev_backup : update_env;
}.

Record import_state := mkImport {
  im_existing : list stored; im_known : gmap string string; im_knownIDs : gmap string string; im_counts : gmap string Z;
  im_unavailable : list string; im_results : list ImportResult; im_err : option failure; im_deeds : list deed;
}.
Definition add_result (r : ImportResult) (m : import_state) : import_state :=
  mkImport (im_existing m) (im_known m) (im_knownIDs m) (im_counts m) (im_unavailable m) (im_results m ++ [r]) (im_err m) (im_deeds m).
Definition add_deed (d : deed) (m : import_state) : import_state :=
  mkImport (im_existing m) (im_known m) (im_knownIDs m) (im_counts m) (im_unavailable m) (im_results m) (im_err m) (im_deeds m ++ [d]).
Definition set_known (name id : string) (m : import_state) : import_state :=
  mkImport (im_existing m) (<[name := id]> (im_known m)) (im_knownIDs m) (im_counts m) (im_unavailable m) (im_results m) (im_err m) (im_deeds m).
Definition count (proxy : string) (m : import_state) : Z := default 0 (im_counts m !! proxy).
Definition add_count (proxy : string) (m : import_state) : import_state :=
  mkImport (im_existing m) (im_known m) (im_knownIDs m) (<[proxy := count proxy m + 1]> (im_counts m)) (im_unavailable m) (im_results m) (im_err m) (im_deeds m).

(** How a row ends: with the next, with the end of the loop, or with an error. *)
Inductive flow := Next | Break | Return (e : failure).

Definition skip_code (code : string) : string :=
  if String.eqb code "upstream_rate_limited" then "batch_rate_limited"
  else if existsb (String.eqb code) ["challenge_required"; "feedback_required"; "account_restricted"]%string then "batch_verification_required" else "".
Definition failure_code (e : failure) : string := if String.eqb (errorCode e) "" then "login_failed" else errorCode e.
Definition appendImportFailure (results : list ImportResult) (row : nat) (id : string) (total : nat) (e : failure) : list ImportResult * bool :=
  let code := failure_code e in
  let results := results ++ [mkResult row id "failed" code] in
  if String.eqb (skip_code code) "" then (results, false)
  else (results ++ ((fun rest => mkResult rest "" "skipped" (skip_code code)) <$> seq (S row) (total - row)), true).
Definition fail_row (row : nat) (id : string) (total : nat) (e : failure) (m : import_state) : import_state * flow :=
  let '(results, stop) := appendImportFailure (im_results m) row id total e in
  (mkImport (im_existing m) (im_known m) (im_knownIDs m) (im_counts m) (im_unavailable m) results (im_err m) (im_deeds m), if stop then Break else Next).

(** [loginCookies], once it has a device and a session. *)
Definition loginCookies (raw : string) (ev : environment) : res failure loginResult :=
  let? cookies := cookieAuthorization raw in
  let? result := ev_verify ev cookies.1 in
  if negb (String.eqb (lg_UserID result) cookies.2) then Err (loginFailure "session_check_failed")
  else Ok (mkLogin "" (lg_Username result) (lg_UserID result) (lg_Session result)).

(** With whether the cookies are what was used. *)
Definition authenticateAccount (c : Credentials) (ev : environment) : res failure (loginResult * bool) :=
  let expectedID := match cr_Cookies c with Some raw => match cookieSession raw true with Ok (_, id) => id | Err _ => "" end | None => "" end in
  let password :=
    let? session := ev_password ev in
    if negb (String.eqb expectedID "") && negb (String.eqb (lg_UserID session) expectedID) then Err (loginFailure "session_check_failed") else Ok (session, false) in
  match cr_Cookies c with
  | None => password
  | Some raw =>
      match cookieAuthorization raw with
      | Ok _ =>
          match loginCookies raw ev with
          | Ok session => Ok (session, true)
          | Err e => if negb (String.eqb (errorCode e) "session_expired") || String.eqb (cr_Password c) "" then Err e else password
          end
      | Err e => if String.eqb (cr_Password c) "" then Err e else password
      end
  end.

(** [updateExisting]: a verified session replaces the saved one when the row has
    cookies that differ or the account is dead, and a password is kept as a
    backup; with the account as it is saved then, and what was submitted. *)
Definition updateExisting (row : nat) (c : Credentials) (ev : environment) (u : update_env) (saved : stored) : res failure string * stored * list deed :=
  match orelse (ue_begin u) (orelse (ue_flush u) (ue_gate u)) with
  | Some e => (Err e, saved, [])
  | None =>
      let backupChanged := match backup c (sa_UserID saved), ue_login u with Some b, Some l => negb (password_eqb b l) | Some _, None => true | None, _ => false end in
      let sessionChanged :=
        match cr_Cookies c with
        | Some raw =>
            let cookieAuth := match cookieAuthorization raw with Ok (auth, _) => auth | Err _ => "" end in
            ue_dead u || negb (String.eqb (ue_auth u) cookieAuth) || negb match sa_Cookies saved with Some old => sameCookies raw old | None => false end
        | None => false
        end in
      if negb sessionChanged && negb backupChanged then (Ok "duplicate"%string, saved, [])
      else if sessionChanged then
        if ue_now u <? ue_cooldown u then (Err (loginFailure "upstream_rate_limited"), saved, [])
        else
          let outcome :=
            let? (session, usedCookies) :=
              match authenticateAccount c ev with
              | Ok r => Ok r
              | Err e => Err (if 0 <? failureCooldown (ue_noted u) e then default e (ue_mark u) else e)
              end in
            if negb (String.eqb (lg_UserID session) (sa_UserID saved)) then Err (loginFailure "account_mismatch")
            else
              let? _ := match ue_context u with Some e => Err e | None => Ok () end in
              let cookies := if usedCookies then cr_Cookies c else None in
              let? _ := match cookies with Some raw => cookieAuthorization raw | None => Ok (lg_Authorization session, "") end in
              match ue_save u with
              | Some e => Err e
              | None => Ok (mkStored (sa_ID saved) (sa_Username saved) (sa_UserID saved) (sa_ProxyURL saved) false cookies)
              end in
          (match outcome with Ok _ => Ok "updated"%string | Err e => Err e end, match outcome with Ok saved => saved | Err _ => saved end, [Submitted row (sa_ProxyURL saved)])
      else
        (match ue_save u with Some e => Err e | None => Ok "updated"%string end, saved, [])
  end.

(** The first account with the identifier, and what was found of it, after [f]. *)
Fixpoint update_stored (id : string) (f : stored -> res failure string * stored * list deed) (l : list stored) : option (list stored * stored * res failure string * bool * list deed) :=
  match l with
  | [] => None
  | a :: l =>
      if String.eqb (sa_ID a) id then let '(r, a', deeds) := f a in Some (a' :: l, a', r, sa_Dead a && negb (sa_Dead a'), deeds)
      else match update_stored id f l with Some (l, a', r, revived, deeds) => Some (a :: l, a', r, revived, deeds) | None => None end
  end.

(** [for n := range existing { if existing[n].ID == id ... }]: the error stays what
    it was if there is none.  With the status, and the proxy of an account that
    was revived. *)
Definition update_existing (row : nat) (id : string) (c : Credentials) (ev : environment) (u : update_env) (m : import_state) : import_state * string * option string :=
  match update_stored id (updateExisting row c ev u) (im_existing m) with
  | None => (m, "", None)
  | Some (existing, a, r, revived, deeds) =>
      (mkImport existing (im_known m) (im_knownIDs m) (im_counts m) (im_unavailable m) (im_results m) (match r with Err e => Some e | Ok _ => None end) (im_deeds m ++ deeds ++ [Updated row id]),
       match r with Ok s => s | Err _ => "" end, if revived then Some (sa_ProxyURL a) else None)
  end.

(** sort.SliceStable of the proxies by their counts. *)
Fixpoint insert_proxy (n : string -> Z) (p : string) (l : list string) : list string :=
  match l with [] => [p] | q :: l => if n p <? n q then p :: q :: l else q :: insert_proxy n p l end.
Definition sort_proxies (n : string -> Z) (l : list string) : list string := fold_left (fun l p => insert_proxy n p l) l [].

(** The first route that can be used: what was tried, and what is unavailable then. *)
Fixpoint select_route (ev : environment) (proxies : list string) (unavailable : list string) : option (string * string) * list string * list deed :=
  match proxies with
  | [] => (None, unavailable, [])
  | proxy :: proxies =>
      if existsb (String.eqb proxy) unavailable then select_route ev proxies unavailable
      else if negb (ev_transport ev proxy) then select_route ev proxies unavailable
      else
        match ev_probe ev proxy with
        | None => let '(r, u, d) := select_route ev proxies (proxy :: unavailable) in (r, u, Probed proxy :: d)
        | Some ip => (Some (proxy, ip), unavailable, [Probed proxy])
        end
  end.

Definition known_id (c : Credentials) (m : import_state) : string :=
  match cr_Cookies c with
  | Some raw =>
      let user := match cookieSession raw true with Ok (_, id) => id | Err _ => "" end in
      default "" (im_knownIDs m !! user)
  | None => default "" (im_known m !! lower (cr_Username c))
  end.

(** A row whose account is known. *)
Definition import_known (total row : nat) (id : string) (c : Credentials) (ev : environment) (m : import_state) : import_state * flow :=
  let '(m, status, revived) := update_existing row id c ev (ev_update ev) m in
  let m := match im_err m, revived with None, Some proxy => add_count proxy m | _, _ => m end in
  match im_err m with
  | Some e => if String.eqb (errorCode e) "instagram_database_unavailable" || ev_ended ev then (m, Return e) else fail_row row id total e m
  | None => (add_result (mkResult row id status "") m, Next)
  end.

(** A row that is logged in. *)
Definition import_session (row : nat) (c : Credentials) (proxy : string) (session : loginResult) (usedCookies : bool) (ev : environment) (m : import_state) : import_state * flow :=
  let id := default "" (im_knownIDs m !! lg_UserID session) in
  if negb (String.eqb id "") then
      let '(m, status, _) := update_existing row id (mkCredentials None (cr_Username c) (cr_Password c) (cr_TOTPSecret c) "") ev (ev_backup ev) m in
      match im_err m with
      | Some e => (m, Return e)
      | None => (add_result (mkResult row id status "") (set_known (lower (cr_Username c)) id m), Next)
      end
  else
      match ev_insert ev with
      | Err e => (m, Return e)
      | Ok false => (add_result (mkResult row "" "duplicate" "") m, Next)
      | Ok true =>
          let m := add_deed (Inserted row (lg_UserID session) proxy) m in
          match ev_add ev with
          | Some e => (m, Return e)
          | None =>
              let m := add_count proxy m in
              let m := if String.eqb (cr_Username c) "" then m else set_known (lower (cr_Username c)) (ev_id ev) m in
              let name := lower (lg_Username session) in
              let m := set_known name (ev_id ev) m in
              (add_result (mkResult row (ev_id ev) "imported" "")
                 (mkImport (im_existing m ++ [mkStored (ev_id ev) name (lg_UserID session) proxy false (if usedCookies then cr_Cookies c else None)]) (im_known m) (<[lg_UserID session := ev_id ev]> (im_knownIDs m)) (im_counts m)
                    (im_unavailable m) (im_results m) (im_err m) (im_deeds m)), Next)
          end
      end.

Definition import_row (proxies : list string) (total row : nat) (c : Credentials) (ev : environment) (m : import_state) : import_state * flow :=
  match ev_ctx ev with
  | Some e => (m, Return e)
  | None =>
      let id := known_id c m in
      if negb (String.eqb id "") then import_known total row id c ev m
      else
        let '(route, unavailable, deeds) := select_route ev (sort_proxies (fun p => count p m) proxies) (im_unavailable m) in
        let m := mkImport (im_existing m) (im_known m) (im_knownIDs m) (im_counts m) unavailable (im_results m) (im_err m) (im_deeds m ++ deeds) in
        match route with
        | None => (add_result (mkResult row "" "failed" "proxy_check_failed") m, Next)
        | Some (proxy, _) =>
            let m := add_deed (Submitted row proxy) m in
            match authenticateAccount c ev with
            | Err e => fail_row row "" total e m
            | Ok (session, used) => import_session row c proxy session used ev m
            end
        end
  end.

Fixpoint import_rows (proxies : list string) (total row : nat) (credentials : list (Credentials * environment)) (m : import_state) : import_state * option failure :=
  match credentials with
  | [] => (m, None)
  | (c, ev) :: credentials =>
      match import_row proxies total row c ev m with
      | (m, Next) => import_rows proxies total (S row) credentials m
      | (m, Break) => (m, None)
      | (m, Return e) => (m, Some e)
      end
  end.

(** What the accounts of the store make known. *)
Fixpoint load_known (existing : list stored) (m : import_state) : import_state :=
  match existing with
  | [] => m
  | a :: existing =>
      let m := mkImport (im_existing m) (im_known m) (<[sa_UserID a := sa_ID a]> (im_knownIDs m)) (im_counts m) (im_unavailable m) (im_results m) (im_err m) (im_deeds m) in
      let m := if String.eqb (sa_Username a) "" then m else set_known (lower (sa_Username a)) (sa_ID a) m in
      load_known existing (if sa_Dead a then m else add_count (sa_ProxyURL a) m)
  end.

(** [Import], on credentials with what happens to each; [refused] is the error of adding a stored account to the pool. *)
Definition Import (proxies : list string) (busy : bool) (loaded : res failure (list stored)) (refused : option failure) (credentials : list Credentials) (envs : list environment) :
    list ImportResult * option failure * list deed :=
  match validateCredentials credentials with
  | Err e => ([], Some e, [])
  | Ok credentials =>
      if busy then ([], Some importBusy, [])
      else
        match loaded, refused with
        | Err e, _ => ([], Some e, [])
        | _, Some e => ([], Some e, [])
        | Ok existing, None =>
            let '(m, e) := import_rows proxies (length credentials) 1 (combine credentials envs) (load_known existing (mkImport existing ∅ ∅ ∅ [] [] None [])) in
            (im_results m, e, im_deeds m)
        end
  end.

(** [Status]: the accounts in the pool's order, of which the first [limit] that live are active. *)
Record pool_account := mkPoolAccount { pa_id : string; pa_username : string; pa_ip : string; pa_disabled : bool; pa_device : option DeviceIdentity }.
Record AccountStatus := mkStatus { as_ID : string; as_Username : string; as_EgressIP : string; as_State : string; as_DeviceProfile : string }.
Fixpoint Status (limit active : nat) (accounts : list pool_account) : list AccountStatus :=
  match accounts with
  | [] => []
  | a :: accounts =>
      let state := if pa_disabled a then "dead" else if (limit =? 0)%nat || (active <? limit)%nat then "active" else "reserve" in
      mkStatus (TrimPrefix (pa_id a) IdentityPrefix) (pa_username a) (pa_ip a) state (profileID (pa_device a)) :: Status limit (if pa_disabled a then active else S active) accounts
  end.

(** ** Routes *)

Lemma insert_proxy_elem n p q l : q ∈ insert_proxy n p l <-> q = p \/ q ∈ l.
Proof.
  induction l as [|r l IH]; cbn; [rewrite list_elem_of_singleton; set_solver|]. destruct (n p <? n r); rewrite !elem_of_cons; [tauto|]. rewrite IH. tauto.
Qed.
Lemma fold_insert_elem n l : forall acc q, q ∈ fold_left (fun l p => insert_proxy n p l) l acc <-> q ∈ acc \/ q ∈ l.
Proof. induction l as [|p l IH]; intros acc q; cbn; [set_solver|]. rewrite IH, insert_proxy_elem, elem_of_cons. tauto. Qed.
Lemma sort_proxies_elem n l q : q ∈ sort_proxies n l <-> q ∈ l.
Proof. unfold sort_proxies. rewrite fold_insert_elem. set_solver. Qed.

(** By their counts. *)
Fixpoint ordered (n : string -> Z) (l : list string) : Prop := match l with [] => True | p :: l => (forall q, q ∈ l -> n p <= n q) /\ ordered n l end.
Lemma insert_ordered n p l : ordered n l -> ordered n (insert_proxy n p l).
Proof.
  induction l as [|r l IH]; cbn; [set_solver|]. intros [Hr Hl]. destruct (Z.ltb_spec (n p) (n r)); cbn.
  - split; [|done]. intros q [->|Hq]%elem_of_cons; [lia|]. specialize (Hr q Hq). lia.
  - split; [|by apply IH]. intros q [->|Hq]%insert_proxy_elem; [done|by apply Hr].
Qed.
Lemma sort_ordered n l : ordered n (sort_proxies n l).
Proof.
  unfold sort_proxies. assert (forall acc, ordered n acc -> ordered n (fold_left (fun l p => insert_proxy n p l) l acc)) as H; [|by apply H].
  induction l as [|p l IH]; intros acc Ha; [done|]. by apply IH, insert_ordered.
Qed.

Lemma existsb_eqb p l : existsb (String.eqb p) l = true <-> p ∈ l.
Proof. rewrite existsb_elem. split; [intros (x & Hx & ->%String.eqb_eq); done|]. intros Hp. exists p. split; [done|]. by apply String.eqb_eq. Qed.

(** The route is the first that works; routes that did not are unavailable, and none of them is tried again. *)
Lemma select_route_ok ev l : forall u r u' d, select_route ev l u = (r, u', d) ->
  (forall q, q ∈ u -> q ∈ u') /\ Forall (fun x => exists p, x = Probed p /\ p ∈ l /\ p ∉ u) d /\
  match r with
  | Some (p, ip) => p ∈ l /\ p ∉ u' /\ ev_probe ev p = Some ip /\ ev_transport ev p = true /\ exists before after, l = before ++ p :: after /\ forall q, q ∈ before -> q ∈ u' \/ ev_transport ev q = false
  | None => forall q, q ∈ l -> q ∈ u' \/ ev_transport ev q = false
  end.
Proof.
  induction l as [|p l IH]; intros u r u' d; cbn [select_route].
  - intros [= <- <- <-]. split; [done|]. split; [constructor|]. intros q Hq. by apply elem_of_nil in Hq.
  - assert (forall u0 r u' d, (forall q, q ∈ u -> q ∈ u0) -> select_route ev l u0 = (r, u', d) -> (p ∈ u' \/ ev_transport ev p = false) ->
      (forall q, q ∈ u -> q ∈ u') /\ Forall (fun x => exists q, x = Probed q /\ q ∈ p :: l /\ q ∉ u) d /\
      match r with
      | Some (p0, ip) => p0 ∈ p :: l /\ p0 ∉ u' /\ ev_probe ev p0 = Some ip /\ ev_transport ev p0 = true /\ exists before after, p :: l = before ++ p0 :: after /\ forall q, q ∈ before -> q ∈ u' \/ ev_transport ev q = false
      | None => forall q, q ∈ p :: l -> q ∈ u' \/ ev_transport ev q = false
      end) as Hrest.
    { intros u0 r0 u1 d0 Hsub E Hp. destruct (IH _ _ _ _ E) as (H1 & H2 & H3). split; [auto|]. split.
      - eapply Forall_impl; [exact H2|]. intros x (q & -> & Hq & Hn). exists q. split; [done|]. split; [by right|]. intros H. by apply Hn, Hsub.
      - destruct r0 as [[p0 ip]|]; [|intros q [->|Hq]%elem_of_cons; auto]. destruct H3 as (Ha & Hb & Hc & Hd & before & after & -> & Hbef).
        split; [by right|]. split; [done|]. split; [done|]. split; [done|]. exists (p :: before), after. split; [done|]. intros q [->|Hq]%elem_of_cons; auto. }
    destruct (existsb (String.eqb p) u) eqn:Eu.
    { apply existsb_eqb in Eu. intros E. apply (Hrest u); [done|done|]. left. by apply (IH _ _ _ _ E). }
    assert (p ∉ u) as Hpu by (intros H%existsb_eqb; congruence).
    destruct (ev_transport ev p) eqn:Et; cbn [negb]; [|intros E; apply (Hrest u); auto].
    destruct (ev_probe ev p) as [ip|] eqn:Ep.
    + intros [= <- <- <-]. split; [done|]. split; [constructor; [|constructor]; exists p; split; [done|split; [by left|done]]|]. split; [by left|]. split; [done|]. split; [done|]. split; [done|].
      exists [], l. split; [done|]. intros q Hq. by apply elem_of_nil in Hq.
    + destruct (select_route ev l (p :: u)) as [[r1 u1] d1] eqn:E. intros [= <- <- <-].
      destruct (Hrest (p :: u) r1 u1 d1) as (H1 & H2 & H3); [intros q Hq; by right|done|left; apply (IH _ _ _ _ E); by left|].
      split; [done|]. split; [|done]. constructor; [|exact H2]. exists p. split; [done|split; [by left|done]].
Qed.

(** A login goes by a route with the fewest accounts of those that work. *)
Lemma route_least ev n proxies u p ip u' d : select_route ev (sort_proxies n proxies) u = (Some (p, ip), u', d) ->
  p ∈ proxies /\ ev_probe ev p = Some ip /\ forall q, q ∈ proxies -> n q < n p -> q ∈ u' \/ ev_transport ev q = false.
Proof.
  intros H. apply select_route_ok in H as (_ & _ & Hp & _ & Hprobe & _ & before & after & E & Hb). split; [by apply sort_proxies_elem in Hp|]. split; [done|].
  intros q Hq Hlt. apply Hb. apply (sort_proxies_elem n) in Hq. pose proof (sort_ordered n proxies) as Ho. rewrite E in Hq, Ho.
  apply elem_of_app in Hq as [Hq|Hq]; [done|]. exfalso. assert (ordered n (p :: after)) as [Hle _].
  { clear E Hb Hq. induction before as [|b before IH]; [done|]. destruct Ho as [_ Ho]. by apply IH. }
  apply elem_of_cons in Hq as [->|Hq]; [lia|]. specialize (Hle q Hq). lia.
Qed.

(** ** What an import keeps *)

Definition submitted (l : list deed) : list nat := omap (fun d => match d with Submitted row _ => Some row | _ => None end) l.
Definition inserted (l : list deed) : list string := omap (fun d => match d with Inserted _ user _ => Some user | _ => None end) l.

(** Before a row: the rows before it have their results, none of which ends the import, and each was submitted at most once. *)
Record rows_ok (row : nat) (m : import_state) : Prop := {
  rk_rows : ir_Row <$> im_results m = seq 1 (row - 1);
  rk_going : Forall (fun r => skip_code (ir_ErrorCode r) = ""%string) (im_results m);
  rk_submitted : Forall (fun i => (i < row)%nat) (submitted (im_deeds m));
  rk_once : NoDup (submitted (im_deeds m));
}.
(** No user is inserted twice, nor one of [ids]. *)
Definition fresh_users (ids l : list string) : Prop := NoDup l /\ forall u, u ∈ l -> u ∉ ids.

(** The accounts that are known are the store's, with those inserted. *)
Record users_ok (ids : list string) (m : import_state) : Prop := {
  us_fresh : fresh_users ids (inserted (im_deeds m));
  us_known u : is_Some (im_knownIDs m !! u) <-> u ∈ (sa_UserID <$> im_existing m);
  us_named u id : im_knownIDs m !! u = Some id -> id <> ""%string;
  us_inserted : sa_UserID <$> im_existing m = ids ++ inserted (im_deeds m);
}.

(** After a row. *)
Definition row_done (ids : list string) (total row : nat) (before m : import_state) (f : flow) : Prop :=
  match f with
  | Next => rows_ok (S row) m /\ users_ok ids m
  | Break =>
      (exists id code, skip_code code <> ""%string /\
         im_results m = im_results before ++ mkResult row id "failed" code :: ((fun rest => mkResult rest "" "skipped" (skip_code code)) <$> seq (S row) (total - row))) /\
      Forall (fun i => (i < S row)%nat) (submitted (im_deeds m)) /\ NoDup (submitted (im_deeds m)) /\ fresh_users ids (inserted (im_deeds m))
  | Return _ => im_results m = im_results before /\ Forall (fun i => (i < S row)%nat) (submitted (im_deeds m)) /\ NoDup (submitted (im_deeds m)) /\ fresh_users ids (inserted (im_deeds m))
  end.

(** The same but for what is said of the row's own submission. *)
Record row_mid (ids : list string) (row : nat) (m : import_state) : Prop := {
  rm_rows : ir_Row <$> im_results m = seq 1 (row - 1);
  rm_going : Forall (fun r => skip_code (ir_ErrorCode r) = ""%string) (im_results m);
  rm_submitted : Forall (fun i => (i < S row)%nat) (submitted (im_deeds m));
  rm_once : NoDup (submitted (im_deeds m));
  rm_users : users_ok ids m;
}.

Lemma submitted_app a b : submitted (a ++ b) = submitted a ++ submitted b.
Proof. apply omap_app. Qed.
Lemma inserted_app a b : inserted (a ++ b) = inserted a ++ inserted b.
Proof. apply omap_app. Qed.

Lemma mid_fresh ids row m : row_mid ids row m -> fresh_users ids (inserted (im_deeds m)).
Proof. by intros [_ _ _ _ [H1 _ _ _]]. Qed.

Lemma mid_return ids total row before m e : row_mid ids row m -> im_results m = im_results before -> row_done ids total row before m (Return e).
Proof. intros Hm Hr. split; [done|]. split; [apply Hm|]. split; [apply Hm|]. by apply (mid_fresh _ row). Qed.

(** A row that adds its result. *)
Lemma mid_result ids total row before m id status code : (0 < row)%nat -> row_mid ids row m -> skip_code code = ""%string ->
  row_done ids total row before (add_result (mkResult row id status code) m) Next.
Proof.
  intros Hrow [H1 H2 H3 H4 [H5 H6 HN H7]] Hc. split; [|by split]. split; cbn [im_results im_deeds add_result]; try done.
  - rewrite fmap_app, H1. cbn. replace (row - 0)%nat with (S (row - 1)) by lia. rewrite seq_S. do 2 f_equal. lia.
  - apply Forall_app. split; [done|]. by apply Forall_singleton.
Qed.

Lemma mid_fail ids total row m id e : (0 < row)%nat -> row_mid ids row m -> row_done ids total row m (fail_row row id total e m).1 (fail_row row id total e m).2.
Proof.
  intros Hrow Hm. unfold fail_row, appendImportFailure. destruct (String.eqb_spec (skip_code (failure_code e)) "") as [Hc|Hc]; cbn [fst snd].
  - exact (mid_result ids total row m m id "failed" (failure_code e) Hrow Hm Hc).
  - split; [|split; [apply Hm|split; [apply Hm|exact (mid_fresh ids row m Hm)]]]. exists id, (failure_code e). split; [done|]. cbn [im_results]. by rewrite <- app_assoc.
Qed.

(** An update keeps the user, inserts none, and submits the row's credentials at
    most once: never if they have no cookies. *)
Lemma updateExisting_spec row c ev u a : let '(_, a', deeds) := updateExisting row c ev u a in
  sa_UserID a' = sa_UserID a /\ inserted deeds = [] /\ (submitted deeds = [] \/ submitted deeds = [row] /\ cr_Cookies c <> None).
Proof.
  unfold updateExisting. destruct (orelse _ _); [repeat split; auto|]. set (sc := match cr_Cookies c with Some _ => _ | None => false end).
  destruct (negb sc && _); [repeat split; auto|]. destruct sc eqn:Es; [|repeat split; auto].
  destruct (_ <? _); [repeat split; auto|]. set (o := rbind _ _). split.
  - destruct o as [a'|] eqn:Eo; [|done]. unfold o in Eo. apply rbind_ok_inv in Eo as ([session used] & _ & Eo). destruct (negb _); [done|].
    apply rbind_ok_inv in Eo as (? & _ & Eo). apply rbind_ok_inv in Eo as (? & _ & Eo). destruct (ue_save u); [done|]. by injection Eo as <-.
  - split; [done|]. right. split; [done|]. unfold sc in Es. by destruct (cr_Cookies c).
Qed.

Lemma update_stored_spec id row c ev u l l' a r b deeds : update_stored id (updateExisting row c ev u) l = Some (l', a, r, b, deeds) ->
  sa_UserID <$> l' = sa_UserID <$> l /\ inserted deeds = [] /\ (submitted deeds = [] \/ submitted deeds = [row] /\ cr_Cookies c <> None).
Proof.
  revert l'. induction l as [|x l IH]; intros l'; cbn [update_stored]; [done|]. destruct (String.eqb (sa_ID x) id).
  - pose proof (updateExisting_spec row c ev u x) as H. destruct (updateExisting row c ev u x) as [[r1 a1] d1]. destruct H as (H1 & H2 & H3). intros [= <- <- <- <- <-]. cbn. by rewrite H1.
  - destruct (update_stored id _ l) as [[[[[l1 a1] r1] b1] d1]|]; [|done]. intros [= <- <- <- <- <-]. destruct (IH l1 eq_refl) as (H1 & H2 & H3). cbn. by rewrite H1.
Qed.

Lemma update_existing_mid ids row id c ev u m : row_mid ids row m -> (cr_Cookies c = None \/ Forall (fun i => (i < row)%nat) (submitted (im_deeds m))) ->
  row_mid ids row (update_existing row id c ev u m).1.1 /\ im_results (update_existing row id c ev u m).1.1 = im_results m.
Proof.
  intros [H1 H2 H3 H4 [H5 H6 HN H7]] Hc. unfold update_existing. destruct (update_stored id _ (im_existing m)) as [[[[[existing a] r] revived] deeds]|] eqn:E; cbn [fst snd]; [|done].
  apply update_stored_spec in E as (E & Ei & Es). split; [|done].
  assert (submitted (im_deeds m ++ deeds ++ [Updated row id]) = submitted (im_deeds m) ++ submitted deeds) as Esub by (rewrite !submitted_app; cbn; by rewrite app_nil_r).
  assert (inserted (im_deeds m ++ deeds ++ [Updated row id]) = inserted (im_deeds m)) as Eins by (rewrite !inserted_app, Ei; cbn; by rewrite app_nil_r).
  split; cbn [im_results im_deeds]; rewrite ?Esub; try done.
  - apply Forall_app. split; [done|]. destruct Es as [->|[-> _]]; [done|]. apply Forall_singleton. lia.
  - destruct Es as [->|[-> Hn]]; [by rewrite app_nil_r|]. destruct Hc as [Hc|Hc]; [done|]. apply NoDup_app. split; [done|]. split; [|apply NoDup_singleton].
    intros i Hi ->%list_elem_of_singleton. rewrite Forall_forall in Hc. specialize (Hc _ Hi). lia.
  - split; cbn [im_existing im_knownIDs im_deeds]; rewrite ?E, ?Eins; done.
Qed.

(** What the row's bookkeeping does not touch. *)
Lemma mid_same ids row m m' : row_mid ids row m -> im_results m' = im_results m -> im_deeds m' = im_deeds m -> im_existing m' = im_existing m -> im_knownIDs m' = im_knownIDs m ->
  row_mid ids row m'.
Proof. intros [H1 H2 H3 H4 [H5 H6 HN H7]] Er Ed Ee Ek. split; rewrite ?Er, ?Ed; try done. split; rewrite ?Ee, ?Ek, ?Ed; done. Qed.

Lemma known_row ids total row id c ev m : (0 < row)%nat -> row_mid ids row m -> Forall (fun i => (i < row)%nat) (submitted (im_deeds m)) ->
  row_done ids total row m (import_known total row id c ev m).1 (import_known total row id c ev m).2.
Proof.
  intros Hrow Hm Hlt. unfold import_known. pose proof (update_existing_mid ids row id c ev (ev_update ev) m Hm (or_intror Hlt)) as [Hm1 Hres]. destruct (update_existing _ _ _ _ _ _) as [[m1 status] revived]. cbn [fst snd] in *.
  set (m2 := match im_err m1, revived with None, Some proxy => _ | _, _ => _ end).
  assert (row_mid ids row m2 /\ im_results m2 = im_results m /\ im_err m2 = im_err m1) as (Hm2 & Hres2 & He).
  { unfold m2. destruct (im_err m1) eqn:E; [done|]. destruct revived as [proxy|]; [|done]. split; [|done]. by apply (mid_same ids row m1). }
  destruct (im_err m2) as [e|] eqn:E; cbn [fst snd].
  - destruct (_ || _); cbn [fst snd]; [by apply mid_return|]. pose proof (mid_fail ids total row m2 id e Hrow Hm2) as H. unfold row_done in *.
    destruct (fail_row _ _ _ _ _).2; rewrite <- ?Hres2; done.
  - exact (mid_result ids total row m m2 id status "" Hrow Hm2 eq_refl).
Qed.

Lemma session_row ids total row c proxy session used ev m : (0 < row)%nat -> ev_id ev <> ""%string -> row_mid ids row m ->
  row_done ids total row m (import_session row c proxy session used ev m).1 (import_session row c proxy session used ev m).2.
Proof.
  intros Hrow Hid Hm. unfold import_session. set (id := default "" (im_knownIDs m !! lg_UserID session)). destruct (String.eqb_spec id "") as [Ek|Ek]; cbn [negb].
  2: { pose proof (update_existing_mid ids row id (mkCredentials None (cr_Username c) (cr_Password c) (cr_TOTPSecret c) "") ev (ev_backup ev) m Hm (or_introl eq_refl)) as [Hm1 Hres].
    destruct (update_existing _ _ _ _ _ _) as [[m1 status] revived]. cbn [fst snd] in *.
    destruct (im_err m1) as [e|]; cbn [fst snd]; [by apply mid_return|].
    apply (mid_result ids total row m (set_known (lower (cr_Username c)) id m1) id status "" Hrow); [|done]. by apply (mid_same ids row m1). }
  assert (lg_UserID session ∉ sa_UserID <$> im_existing m) as Hfresh.
  { intros [id' Hid']%(us_known _ _ (rm_users _ _ _ Hm)). unfold id in Ek. rewrite Hid' in Ek. by apply (us_named _ _ (rm_users _ _ _ Hm) _ _ Hid'). }
    destruct (ev_insert ev) as [[]|e]; cbn [fst snd]; [|exact (mid_result ids total row m m "" "duplicate" "" Hrow Hm eq_refl)|by apply mid_return].
    destruct Hm as [H1 H2 H3 H4 [H5 H6 HN H7]]. assert (submitted [Inserted row (lg_UserID session) proxy] = []) as Hs by done.
    assert (inserted [Inserted row (lg_UserID session) proxy] = [lg_UserID session]) as Hi by done.
    assert (fresh_users ids (inserted (im_deeds m) ++ [lg_UserID session])) as Hfresh'.
    { rewrite H7, elem_of_app in Hfresh. destruct H5 as [F1 F2]. split; [apply NoDup_app; split; [done|]; split; [|apply NoDup_singleton]|].
      - intros x Hx ->%list_elem_of_singleton. tauto.
      - intros x [Hx| ->%list_elem_of_singleton]%elem_of_app; [by apply F2|tauto]. }
    destruct (ev_add ev) as [e|]; cbn [fst snd].
    + split; [done|]. cbn [im_deeds add_deed]. rewrite submitted_app, inserted_app, Hs, Hi, app_nil_r. by repeat split; try apply Hfresh'.
    + match goal with |- row_done _ _ _ _ (add_result _ ?m') _ => apply (mid_result ids total row m m' (ev_id ev) "imported" "" Hrow); [|done] end.
      destruct (String.eqb (cr_Username c) "").
      all: split; cbn [im_results im_deeds add_deed add_count set_known]; try done; rewrite ?submitted_app, ?Hs, ?app_nil_r; try done.
      all: split; cbn [im_existing im_knownIDs im_deeds add_deed add_count set_known].
      all: rewrite ?fmap_app, ?inserted_app, ?Hi; cbn [fmap list_fmap sa_UserID].
      all: try exact Hfresh'.
      all: try (by rewrite H7, app_assoc).
      all: try (intros u i [[_ <-]|[_ Hu]]%lookup_insert_Some; [done|by apply (HN u)]).
      all: intros u; rewrite elem_of_app, list_elem_of_singleton, <- H6; destruct (decide (u = lg_UserID session)) as [->|Hne]; [rewrite lookup_insert_eq; split; eauto|rewrite lookup_insert_ne by congruence; tauto].
Qed.

Lemma select_deeds ev l : forall u, submitted (select_route ev l u).2 = [] /\ inserted (select_route ev l u).2 = [].
Proof.
  induction l as [|p l IH]; intros u; cbn [select_route]; [done|]. destruct (existsb _ u); [apply IH|]. destruct (negb _); [apply IH|]. destruct (ev_probe ev p); [done|].
  specialize (IH (p :: u)). by destruct (select_route ev l (p :: u)) as [[r u'] d].
Qed.

Lemma row_ok ids proxies total row c ev m : (0 < row)%nat -> ev_id ev <> ""%string -> rows_ok row m -> users_ok ids m ->
  row_done ids total row m (import_row proxies total row c ev m).1 (import_row proxies total row c ev m).2.
Proof.
  intros Hrow Hid [H1 H2 H3 H4] Hu. assert (Forall (fun i => (i < S row)%nat) (submitted (im_deeds m))) as H3' by (eapply Forall_impl; [exact H3|]; cbn; lia).
  assert (row_mid ids row m) as Hm by (by split). unfold import_row. destruct (ev_ctx ev) as [e|]; cbn [fst snd]; [by apply mid_return|].
  destruct (negb (String.eqb (known_id c m) "")); [by apply known_row|].
  pose proof (select_deeds ev (sort_proxies (fun p => count p m) proxies) (im_unavailable m)) as [Hs Hi].
  destruct (select_route _ _ _) as [[route unavailable] deeds]. cbn [fst snd] in Hs, Hi.
  set (m1 := mkImport _ _ _ _ _ _ _ _). destruct Hu as [U1 U2 UN U3].
  assert (row_mid ids row m1) as Hm1.
  { split; cbn [m1 im_results im_deeds]; rewrite ?submitted_app, ?Hs, ?app_nil_r; try done. split; cbn [m1 im_existing im_knownIDs im_deeds]; rewrite ?inserted_app, ?Hi, ?app_nil_r; done. }
  destruct route as [[proxy ip]|]; cbn [fst snd]; [|exact (mid_result ids total row m m1 "" "failed" "proxy_check_failed" Hrow Hm1 eq_refl)].
  set (m2 := add_deed (Submitted row proxy) m1).
  assert (row_mid ids row m2) as Hm2.
  { split; cbn [m2 m1 add_deed im_results im_deeds]; rewrite ?submitted_app, ?Hs, ?app_nil_r; try done; cbn [submitted omap list_omap].
    - apply Forall_app. split; [done|]. apply Forall_singleton. lia.
    - apply NoDup_app. split; [done|]. split; [|apply NoDup_singleton]. intros i Hi0 ->%list_elem_of_singleton. rewrite Forall_forall in H3. specialize (H3 _ Hi0). lia.
    - split; cbn [m2 m1 add_deed im_existing im_knownIDs im_deeds]; rewrite ?inserted_app, ?Hi; cbn [inserted omap list_omap]; rewrite ?app_nil_r; done. }
  destruct (authenticateAccount c ev) as [[session used]|e].
  - exact (session_row ids total row c proxy session used ev m2 Hrow Hid Hm2).
  - exact (mid_fail ids total row m2 "" e Hrow Hm2).
Qed.

(** After an import: the rows in order; an import that stops says so for the
    rest and submits nothing more. *)
Record import_ok (ids : list string) (total : nat) (results : list ImportResult) (deeds : list deed) (e : option failure) : Prop := {
  io_rows : exists n, ir_Row <$> results = seq 1 n /\ (n <= total)%nat /\ (e = None -> n = total);
  io_stop j r : results !! j = Some r -> skip_code (ir_ErrorCode r) <> ""%string ->
    ir_Status r = "failed"%string /\ Forall (fun r' => ir_Status r' = "skipped"%string /\ ir_ErrorCode r' = skip_code (ir_ErrorCode r)) (drop (S j) results) /\
    Forall (fun i => (i <= S j)%nat) (submitted deeds);
  io_once : NoDup (submitted deeds);
  io_users : fresh_users ids (inserted deeds);
}.

Lemma skip_code_final code : skip_code (skip_code code) = ""%string.
Proof. unfold skip_code at 2. destruct (String.eqb code _); [done|]. by destruct (existsb _ _). Qed.

Lemma going_stop row m e : rows_ok row m \/ Forall (fun r => skip_code (ir_ErrorCode r) = ""%string) (im_results m) ->
  forall j r, im_results m !! j = Some r -> skip_code (ir_ErrorCode r) <> ""%string -> e.
Proof.
  intros Hm j r Hj Hr. exfalso. apply Hr. destruct Hm as [[_ H _ _]|H]; rewrite Forall_forall in H; apply H; by apply list_elem_of_lookup_2 in Hj.
Qed.

Lemma rows_spec ids proxies total l : Forall (fun ce => ev_id ce.2 <> ""%string) l -> forall row m, (0 < row)%nat -> (row + length l = S total)%nat -> rows_ok row m -> users_ok ids m ->
  let '(m', e) := import_rows proxies total row l m in import_ok ids total (im_results m') (im_deeds m') e.
Proof.
  induction l as [|[c ev] l IH]; intros Hids row m Hrow Hlen Hm Hu.
  - cbn in *. pose proof Hu as [U1 _ _ U3]. pose proof Hm as [H1 H2 H3 H4]. split; [|intros j r Hj Hr; by apply (going_stop row m _ (or_introl Hm) j r)|done|done].
    exists (row - 1)%nat. split; [done|]. split; [lia|]. intros _. lia.
  - apply Forall_cons in Hids as [Hid Hids]. cbn [import_rows length] in *. pose proof (row_ok ids proxies total row c ev m Hrow Hid Hm Hu) as H. destruct (import_row proxies total row c ev m) as [m1 f]. cbn [fst snd] in H.
    destruct f as [| |e].
    + destruct H as [Hm1 Hu1]. apply IH; [done|lia|lia|done|done].
    + destruct H as ((id & code & Hc & Hres) & Hs & Ho & Hi). pose proof Hm as [H1 H2 H3 H4]. assert (length (im_results m) = row - 1)%nat as Hlr.
      { rewrite <- (length_fmap ir_Row), H1. apply length_seq. }
      split; [| |done|done].
      * exists total. split; [|by split]. rewrite Hres, fmap_app, H1. cbn [fmap list_fmap ir_Row]. rewrite <- list_fmap_compose. unfold compose. cbn [ir_Row].
        rewrite list_fmap_id. assert (seq 1 total = seq 1 ((row - 1) + S (total - row))) as -> by (f_equal; lia). rewrite seq_app. f_equal. replace (1 + (row - 1))%nat with row by lia. done.
      * intros j r Hj Hr. rewrite Hres in Hj |- *. destruct (decide (j < row - 1)%nat) as [Hlt|Hge].
        { rewrite lookup_app_l in Hj by lia. exfalso. by apply (going_stop row m False (or_introl Hm) j r). }
        rewrite lookup_app_r in Hj by lia. rewrite Hlr in Hj. destruct (decide (j = row - 1)%nat) as [->|Hne].
        -- replace (row - 1 - (row - 1))%nat with 0%nat in Hj by lia. injection Hj as <-. split; [done|]. cbn [ir_ErrorCode].
           split; [|eapply Forall_impl; [exact Hs|]; cbn; lia]. rewrite drop_app_ge by lia. replace (S (row - 1) - length (im_results m))%nat with 1%nat by lia. cbn [drop].
           apply Forall_fmap, Forall_true. by intros x.
        -- replace (j - (row - 1))%nat with (S (j - row)) in Hj by lia. cbn in Hj. apply list_lookup_fmap_Some in Hj as (x & -> & _). cbn in Hr. by rewrite skip_code_final in Hr.
    + destruct H as (Hres & Hs & Ho & Hi). pose proof Hm as [H1 H2 H3 H4]. rewrite Hres. split; [|intros j r Hj Hr; by apply (going_stop row m _ (or_introl Hm) j r)|done|done].
      exists (row - 1)%nat. split; [done|]. split; [lia|done].
Qed.

Lemma load_known_ok existing : forall done m, im_existing m = done ++ existing -> (forall u, is_Some (im_knownIDs m !! u) <-> u ∈ (sa_UserID <$> done)) ->
  Forall (fun a => sa_ID a <> ""%string) existing -> (forall u id, im_knownIDs m !! u = Some id -> id <> ""%string) ->
  let m' := load_known existing m in (forall u id, im_knownIDs m' !! u = Some id -> id <> ""%string) /\
  im_existing m' = im_existing m /\ im_results m' = im_results m /\ im_deeds m' = im_deeds m /\ (forall u, is_Some (im_knownIDs m' !! u) <-> u ∈ (sa_UserID <$> (done ++ existing))).
Proof.
  induction existing as [|a existing IH]; intros done m He Hk Hids Hnam; cbn [load_known]; [by rewrite app_nil_r|]. apply Forall_cons in Hids as [Hid Hids].
  replace (done ++ a :: existing) with ((done ++ [a]) ++ existing) in * by (by rewrite <- app_assoc).
  match goal with |- context [load_known existing ?m1] => destruct (IH (done ++ [a]) m1) as (H0 & H1 & H2 & H3 & H4) end.
  - destruct (String.eqb (sa_Username a) ""), (sa_Dead a); exact He.
  - intros u. transitivity (is_Some (<[sa_UserID a := sa_ID a]> (im_knownIDs m) !! u)); [destruct (String.eqb (sa_Username a) ""), (sa_Dead a); done|].
    rewrite fmap_app, elem_of_app. cbn [fmap list_fmap]. rewrite list_elem_of_singleton, <- Hk.
    destruct (decide (u = sa_UserID a)) as [->|Hne]; [rewrite lookup_insert_eq; split; eauto|rewrite lookup_insert_ne by congruence; tauto].
  - done.
  - intros u i Hu. assert (<[sa_UserID a := sa_ID a]> (im_knownIDs m) !! u = Some i) as Hu' by (destruct (String.eqb (sa_Username a) ""), (sa_Dead a); exact Hu).
    apply lookup_insert_Some in Hu' as [[_ <-]|[_ Hu']]; [done|by apply (Hnam u)].
  - split; [exact H0|]. destruct (String.eqb (sa_Username a) ""), (sa_Dead a); done.
Qed.

Lemma validate_length l : forall seen l', validate_accounts seen l = Ok l' -> length l' = length l.
Proof.
  induction l as [|a l IH]; intros seen l'; cbn [validate_accounts]; [by intros [= <-]|]. destruct (negb (validDeviceSelection _)); [done|]. intros H. apply rbind_ok_inv in H as (seen' & _ & H).
  destruct (_ && _); [|destruct (_ || _); [done|]; destruct (_ && _); [done|]]; apply rbind_ok_inv in H as (rest & Hr & [= <-]); cbn; by rewrite (IH _ _ Hr).
Qed.

(** ** Accepted credentials *)

(** The keys that no two of them share. *)
Definition account_keys (a : Credentials) : list string :=
  match cr_Cookies a with Some raw => match cookieSession raw (negb (String.eqb (cr_Password a) "")) with Ok (_, id) => [("cookie:" +:+ id)] | Err _ => [] end | None => [] end ++
  (if match cr_Cookies a with Some _ => true | None => false end && String.eqb (cr_Username a) "" && String.eqb (cr_Password a) "" && String.eqb (cr_TOTPSecret a) "" then [] else [lower (cr_Username a)]).

(** Cookies that give a session, or a name and a password; and a secret only if it can be used. *)
Definition account_ok (a : Credentials) : Prop :=
  validDeviceSelection (cr_DeviceProfile a) = true /\
  (forall raw, cr_Cookies a = Some raw -> is_ok (cookieSession raw (negb (String.eqb (cr_Password a) ""))) = true) /\
  (cr_Cookies a <> None /\ cr_Username a = ""%string /\ cr_Password a = ""%string /\ cr_TOTPSecret a = ""%string \/
   cr_Username a <> ""%string /\ (String.length (cr_Username a) <= 254)%nat /\ has_control (cr_Username a) = false /\ cr_Password a <> ""%string /\ (String.length (cr_Password a) <= 1024)%nat /\
   (cr_TOTPSecret a <> ""%string -> is_ok (totpKey Parse Query (cr_TOTPSecret a)) = true)).

Lemma validate_ok l : forall seen l', NoDup seen -> validate_accounts seen l = Ok l' -> Forall account_ok l' /\ NoDup (concat (map account_keys l')) /\ (forall k, k ∈ concat (map account_keys l') -> k ∉ seen) /\
  map cr_Password l' = map cr_Password l /\ map cr_TOTPSecret l' = map cr_TOTPSecret l /\ map cr_Cookies l' = map cr_Cookies l.
Proof.
  induction l as [|a0 l IH]; intros seen l' Hseen; cbn [validate_accounts]; [intros [= <-]; cbn; split; [done|]; split; [apply NoDup_nil_2|]; split; [|done]; intros k Hk; by apply elem_of_nil in Hk|].
  set (a := mkCredentials _ _ _ _ _). destruct (validDeviceSelection (cr_DeviceProfile a)) eqn:Ed; [|done]. cbn [negb]. intros H. apply rbind_ok_inv in H as (seen1 & H1 & H).
  assert (exists ks, account_keys a = ks ++ (if match cr_Cookies a with Some _ => true | None => false end && String.eqb (cr_Username a) "" && String.eqb (cr_Password a) "" && String.eqb (cr_TOTPSecret a) "" then [] else [lower (cr_Username a)]) /\
    seen1 = ks ++ seen /\ NoDup seen1 /\ (forall raw, cr_Cookies a = Some raw -> is_ok (cookieSession raw (negb (String.eqb (cr_Password a) ""))) = true)) as (ks & Hks & Hseen1 & Hnd1 & Hck).
  { unfold account_keys. destruct (cr_Cookies a) as [raw|]; [|injection H1 as <-; exists []; done].
    destruct (cookieSession raw _) as [[auth id]|] eqn:Ec; [|done]. destruct (existsb _ seen) eqn:Ee; [done|]. injection H1 as <-. exists [("cookie:" +:+ id)]. split; [done|]. split; [done|]. split.
    - apply NoDup_cons. split; [|done]. intros Hin%existsb_eqb. cbn in Hin, Ee. congruence.
    - intros raw' [= <-]. by rewrite Ec. }
  destruct (match cr_Cookies a with Some _ => true | None => false end && String.eqb (cr_Username a) "" && String.eqb (cr_Password a) "" && String.eqb (cr_TOTPSecret a) "") eqn:Eonly.
  - apply rbind_ok_inv in H as (rest & Hr & [= <-]). destruct (IH _ _ Hnd1 Hr) as (I1 & I2 & I3 & I4 & I5 & I6). cbn [map concat]. rewrite Hks, app_nil_r.
    apply andb_true_iff in Eonly as [[[Hc Hun%String.eqb_eq]%andb_true_iff Hpw%String.eqb_eq]%andb_true_iff Hts%String.eqb_eq].
    split; [constructor; [|done]; split; [done|split; [done|left]]; split; [by destruct (cr_Cookies a)|done]|].
    rewrite Hseen1 in Hnd1, I3. apply NoDup_app in Hnd1 as (N1 & N2 & N3). split; [|split; [|split; [cbn; by rewrite I4|split; [cbn; by rewrite I5|cbn; by rewrite I6]]]].
    + apply NoDup_app. split; [done|]. split; [|done]. intros k Hk Hk'. apply (I3 k Hk'). apply elem_of_app. by left.
    + intros k Hk; apply elem_of_app in Hk as [Hk|Hk]; [by apply N2|]. intros Hs. apply (I3 k Hk). apply elem_of_app. by right.
  - destruct (_ || has_control _) eqn:Ebad; [done|]. destruct (_ && negb (is_ok _)) eqn:Etotp; [done|]. apply rbind_ok_inv in H as (rest & Hr & [= <-]).
    apply orb_false_iff in Ebad as [[[[[[Hun%String.eqb_neq Hul%Nat.ltb_ge]%orb_false_iff Hpw%String.eqb_neq]%orb_false_iff Hpl%Nat.ltb_ge]%orb_false_iff _]%orb_false_iff Hkey]%orb_false_iff Hctl].
    assert (lower (cr_Username a) ∉ seen1) as Hfresh by (intros Hin%existsb_eqb; congruence).
    destruct (IH (lower (cr_Username a) :: seen1) rest) as (I1 & I2 & I3 & I4 & I5 & I6); [by apply NoDup_cons|done|]. cbn [map concat]. rewrite Hks.
    split; [constructor; [|done]; split; [done|split; [done|right]]; split; [done|]; split; [done|]; split; [done|]; split; [done|]; split; [done|]|].
    { intros Ht. apply andb_false_iff in Etotp as [Ht'|Ht']; [apply negb_false_iff, String.eqb_eq in Ht'; done|by apply negb_false_iff in Ht']. }
    rewrite Hseen1 in Hnd1, Hfresh. apply NoDup_app in Hnd1 as (N1 & N2 & N3). split; [|split; [|split; [cbn; by rewrite I4|split; [cbn; by rewrite I5|cbn; by rewrite I6]]]].
    + apply NoDup_app. split; [|split; [|done]].
      * apply NoDup_app. split; [done|]. split; [|apply NoDup_singleton]. intros k Hk ->%list_elem_of_singleton. apply Hfresh, elem_of_app. by left.
      * intros k Hk Hk'. apply (I3 k Hk'). apply elem_of_app in Hk as [Hk|Hk]; [|apply list_elem_of_singleton in Hk as ->]; [right; rewrite Hseen1; apply elem_of_app; by left|by left].
    + intros k Hk. apply elem_of_app in Hk as [Hk|Hk]; [apply elem_of_app in Hk as [Hk|Hk]|].
      * by apply N2.
      * apply list_elem_of_singleton in Hk as ->. intros Hs. apply Hfresh, elem_of_app. by right.
      * intros Hs. apply (I3 k Hk). right. rewrite Hseen1. apply elem_of_app. by right.
Qed.

End Credentials.

(** ** Devices and files *)

Lemma check_accounts_ok l : forall ids tokens l', check_accounts ids tokens l = Ok l' -> NoDup ids -> NoDup tokens ->
  map cf_ID l' = map cf_ID l /\ NoDup (ids ++ map cf_ID l') /\ NoDup (tokens ++ map (fun a => TrimPrefix (cf_Authorization a) "Bearer ") l') /\
  Forall (fun a => accountIDPattern (cf_ID a) = true /\ device_validate (cf_Device a) = true /\ str_has_prefix (cf_Authorization a) bearer_prefix = true /\ (String.length bearer_prefix < String.length (cf_Authorization a))%nat) l'.
Proof.
  induction l as [|a l IH]; intros ids tokens l'; cbn [check_accounts]; [intros [= <-] Hi Ht; cbn; rewrite !app_nil_r; done|].
  destruct (device_validate (cf_Device a)) eqn:Ed; [|done]. cbn [negb]. destruct (_ || existsb _ ids) eqn:Eid; [done|]. apply orb_false_iff in Eid as [Epat%negb_false_iff Efresh].
  set (auth := if str_has_prefix (TrimSpace (cf_Authorization a)) "IGT:2:" then _ else _). destruct (_ || _) eqn:Eauth; [done|]. apply orb_false_iff in Eauth as [Epre%negb_false_iff Elen%Nat.leb_gt].
  destruct (negb (forallb _ _)); [done|]. destruct (existsb _ tokens) eqn:Etok; [done|]. intros H Hi Ht. apply rbind_ok_inv in H as (rest & Hr & [= <-]).
  assert (cf_ID a ∉ ids) as Hid by (intros Hin%existsb_eqb; congruence). assert (TrimPrefix auth "Bearer " ∉ tokens) as Htk by (intros Hin%existsb_eqb; congruence).
  destruct (IH _ _ _ Hr) as (H1 & H2 & H3 & H4); [by apply NoDup_cons|by apply NoDup_cons|]. cbn [map set_auth cf_ID cf_Authorization].
  split; [by rewrite H1|]. split; [|split; [|by constructor]].
  - rewrite <- Permutation_middle. exact H2.
  - rewrite <- Permutation_middle. exact H3.
Qed.

Lemma matches_app p1 p2 s1 s2 : matches p1 s1 = true -> matches p2 s2 = true -> matches (p1 ++ p2) (s1 +:+ s2) = true.
Proof.
  revert s1. induction p1 as [|f p1 IH]; intros [|a s1] H1 H2; try done. change (String a s1 +:+ s2) with (String a (s1 +:+ s2)). cbn in *. apply andb_true_iff in H1 as [Hf H1]. rewrite Hf. by apply IH.
Qed.

Lemma hex_encode_cons b l : hex_encode (b :: l) = hex_encode [b] +:+ hex_encode l.
Proof. done. Qed.

Lemma byte_forall (P : Z -> bool) b : forallb P (map Z.of_nat (seq 0 256)) = true -> is_byte b -> P b = true.
Proof. intros H Hb. rewrite forallb_forall in H. apply H, in_map_iff. exists (Z.to_nat b). unfold is_byte in Hb. split; [lia|]. apply in_seq. lia. Qed.

Lemma hex_matches l : all_bytes l -> matches (replicate (2 * length l) hex_char) (hex_encode l) = true.
Proof.
  induction l as [|b l IH]; intros Hl; [done|]. apply Forall_cons in Hl as [Hb Hl]. rewrite hex_encode_cons. replace (2 * length (b :: l))%nat with (2 + 2 * length l)%nat by (cbn; lia).
  rewrite replicate_add. apply matches_app; [|by apply IH]. apply (byte_forall (fun b => matches (replicate 2 hex_char) (hex_encode [b]))); [|done]. vm_compute. reflexivity.
Qed.

Lemma slice_bytes i j l : all_bytes l -> all_bytes (slice i j l).
Proof. intros H. unfold slice. by apply Forall_take, Forall_drop. Qed.

(** What [NewID] makes is an identifier the pattern accepts. *)
Lemma NewID_matches b : all_bytes b -> length b = 16%nat -> matches deviceUUIDPattern (NewID b) = true.
Proof.
  intros Hb Hl. destruct b as [|z0 [|z1 [|z2 [|z3 [|z4 [|z5 [|z6 [|z7 [|z8 [|z9 [|z10 [|z11 [|z12 [|z13 [|z14 [|z15 [|? ?]]]]]]]]]]]]]]]]]; try (cbn in Hl; lia). clear Hl.
  repeat (apply Forall_cons in Hb as [? Hb]). clear Hb.
  change (NewID _) with (hex_encode [z0; z1; z2; z3] +:+ ("-" +:+ (hex_encode [z4; z5] +:+ ("-" +:+ (hex_encode [Z.lor (Z.land z6 15) 64] +:+ (hex_encode [z7] +:+ ("-" +:+
    (hex_encode [Z.lor (Z.land z8 63) 128] +:+ (hex_encode [z9] +:+ ("-" +:+ hex_encode [z10; z11; z12; z13; z14; z15])))))))))).
  change deviceUUIDPattern with (replicate (2 * 4) hex_char ++ [is_char "-"] ++ replicate (2 * 2) hex_char ++ [is_char "-"] ++ [is_char "4"; hex_char] ++ replicate (2 * 1) hex_char ++ [is_char "-"] ++
    [variant_char; hex_char] ++ replicate (2 * 1) hex_char ++ [is_char "-"] ++ replicate (2 * 6) hex_char).
  apply matches_app; [apply (hex_matches [z0; z1; z2; z3]); repeat (apply Forall_cons_2; [assumption|]); apply Forall_nil_2|]. apply matches_app; [done|]. apply matches_app; [apply (hex_matches [z4; z5]); repeat (apply Forall_cons_2; [assumption|]); apply Forall_nil_2|]. apply matches_app; [done|].
  apply matches_app; [apply (byte_forall (fun b => matches [is_char "4"; hex_char] (hex_encode [Z.lor (Z.land b 15) 64]))); [vm_compute; reflexivity|done]|].
  apply matches_app; [apply (hex_matches [z7]); repeat (apply Forall_cons_2; [assumption|]); apply Forall_nil_2|]. apply matches_app; [done|].
  apply matches_app; [apply (byte_forall (fun b => matches [variant_char; hex_char] (hex_encode [Z.lor (Z.land b 63) 128]))); [vm_compute; reflexivity|done]|].
  apply matches_app; [apply (hex_matches [z9]); repeat (apply Forall_cons_2; [assumption|]); apply Forall_nil_2|]. apply matches_app; [done|]. apply (hex_matches [z10; z11; z12; z13; z14; z15]); repeat (apply Forall_cons_2; [assumption|]); apply Forall_nil_2.
Qed.

(** The device that is made for a selection is one that is accepted when it is stored. *)
Lemma new_device_ok selection n seed b1 b2 d : newDeviceIdentity selection n seed b1 b2 = Ok d -> (n < length deviceProfiles)%nat ->
  all_bytes seed -> length seed = 8%nat -> all_bytes b1 -> length b1 = 16%nat -> all_bytes b2 -> length b2 = 16%nat -> NewID b1 <> NewID b2 ->
  device_validate (Some d) = true /\ (selection <> ""%string -> selection <> "random"%string -> di_ProfileID d = selection).
Proof.
  intros H Hn Hs Hsl H1 H1l H2 H2l Hne. unfold newDeviceIdentity in H. destruct (validDeviceSelection selection) eqn:Ev; [|done]. cbn [negb] in H. injection H as <-.
  set (chosen := if _ || _ then _ else selection). assert (exists p, findDeviceProfile chosen = Some p) as [p Hp].
  { unfold chosen. destruct (_ || _) eqn:E.
    - do 5 (destruct n as [|n]; [by eexists|]). cbn in Hn. lia.
    - unfold validDeviceSelection in Ev. rewrite E in Ev. destruct (findDeviceProfile selection) as [p|]; [by exists p|done]. }
  split.
  - unfold device_validate. cbn [di_Version di_ProfileID di_DeviceID di_FamilyID di_AndroidID]. rewrite Hp, !NewID_matches by done. cbn [andb Z.eqb Pos.eqb].
    replace (String.eqb (NewID b1) (NewID b2)) with false by (symmetry; by apply String.eqb_neq). cbn [negb andb]. unfold deviceAndroidPattern.
    apply matches_app; [done|]. replace 16%nat with (2 * length seed)%nat by lia. by apply hex_matches.
  - intros Ha Hb. unfold chosen. apply String.eqb_neq in Ha, Hb. by rewrite Ha, Hb.
Qed.

(** ** The theorems *)

(** The accounts that are loaded have different, well-formed identifiers and
    different authorizations of the app's kind, and devices that are valid; they are those of the files,
    in order. *)
Theorem accounts_loaded manifest readSession listing l : loadAccounts manifest readSession listing = Ok l ->
  NoDup (map cf_ID l) /\ NoDup (map (fun a => TrimPrefix (cf_Authorization a) "Bearer ") l) /\
  Forall (fun a => accountIDPattern (cf_ID a) = true /\ device_validate (cf_Device a) = true /\ str_has_prefix (cf_Authorization a) bearer_prefix = true /\ (String.length bearer_prefix < String.length (cf_Authorization a))%nat) l /\
  exists first second, map cf_ID l = map cf_ID (first ++ second) /\
    match manifest with Some m => exists entries, m = Ok entries /\ manifest_entries readSession entries = Ok first /\ map cf_ID first = map cf_ID entries | None => first = [] end /\
    match listing with Some d => exists entries, d = Ok entries /\ directory_entries entries = Ok second | None => second = [] end.
Proof.
  intros H. unfold loadAccounts in H. apply rbind_ok_inv in H as (first & H1 & H). apply rbind_ok_inv in H as (second & H2 & H).
  apply check_accounts_ok in H as (E1 & E2 & E3 & E4); [|apply NoDup_nil_2..]. split; [done|]. split; [done|]. split; [done|]. exists first, second. split; [done|]. split.
  - destruct manifest as [m|]; [|by injection H1 as <-]. apply rbind_ok_inv in H1 as (entries & -> & H1). exists entries. split; [done|]. split; [done|].
    clear E1. revert first H1. induction entries as [|a entries IH]; intros first H1; cbn in H1; [by injection H1 as <-|]. apply rbind_ok_inv in H1 as (a' & Ha & H1). apply rbind_ok_inv in H1 as (rest & Hr & [= <-]).
    cbn. assert (cf_ID a' = cf_ID a) as ->; [|by rewrite (IH rest)]. destruct (String.eqb _ ""); [by injection Ha as <-|]. apply rbind_ok_inv in Ha as (session & _ & Ha). destruct (negb _); [done|]. by injection Ha as <-.
  - destruct listing as [d|]; [|by injection H2 as <-]. apply rbind_ok_inv in H2 as (entries & -> & H2). by exists entries.
Qed.

(** C39. An import accepts one to a hundred accounts, each with cookies that give a session or a name
    and a password, no two of the same user or name, and leaves passwords, secrets
    and cookies as they are.  Its results are those of the rows in order: of all of them if
    there is no error.  The credentials of a row are submitted at most once, over a
    new account's route or that of the account they belong to; after a failure
    that concerns the whole batch the rest is skipped, with the code that belongs to it, and not
    submitted; and no user of the store is inserted, nor one twice.  Accounts of
    the store may have no user. *)
Theorem import_sound decode_cookies cookie_valid jar Parse Query lower sameCookies proxies busy loaded refused credentials envs results e deeds :
  length envs = length credentials -> (forall existing, loaded = Ok existing -> Forall (fun a => sa_ID a <> ""%string) existing) ->
  Forall (fun ev => ev_id ev <> ""%string) envs ->
  Import decode_cookies cookie_valid jar Parse Query lower sameCookies proxies busy loaded refused credentials envs = (results, e, deeds) ->
  match validateCredentials decode_cookies cookie_valid jar Parse Query lower credentials with
  | Err refusal => results = [] /\ deeds = [] /\ e = Some refusal
  | Ok accepted =>
      (1 <= length accepted <= 100)%nat /\ Forall (account_ok decode_cookies cookie_valid jar Parse Query) accepted /\
      NoDup (concat (map (account_keys decode_cookies cookie_valid jar lower) accepted)) /\
      map cr_Password accepted = map cr_Password credentials /\ map cr_TOTPSecret accepted = map cr_TOTPSecret credentials /\ map cr_Cookies accepted = map cr_Cookies credentials /\
      (results = [] /\ deeds = [] /\ e <> None \/
       import_ok (match loaded with Ok existing => sa_UserID <$> existing | Err _ => [] end) (length credentials) results deeds e)
  end.
Proof.
  intros Henvs Hstore Hnew H. unfold Import in H. destruct (validateCredentials _ _ _ _ _ _ credentials) as [accepted|refusal] eqn:Ev; [|injection H as <- <- <-; done].
  unfold validateCredentials in Ev. destruct (_ || _) eqn:En; [done|]. apply orb_false_iff in En as [En1%Nat.eqb_neq En2%Nat.ltb_ge].
  pose proof (validate_length _ _ _ _ _ _ _ _ _ Ev) as Hlen. destruct (validate_ok _ _ _ _ _ _ _ _ _ (NoDup_nil_2) Ev) as (V1 & V2 & _ & V3 & V4 & V5).
  split; [unfold MaxImportAccounts in En2; lia|]. split; [done|]. split; [done|]. split; [done|]. split; [done|]. split; [done|].
  destruct busy; [injection H as <- <- <-; by left|]. destruct loaded as [existing|el]; [|injection H as <- <- <-; by left]. destruct refused as [r|]; [injection H as <- <- <-; by left|]. right.
  destruct (import_rows _ _ _ _ _ _ _ _ _ _) as [m e'] eqn:Er. injection H as <- <- <-.
  destruct (load_known_ok decode_cookies Parse lower sameCookies existing [] (mkImport existing ∅ ∅ ∅ [] [] None [])) as (LN & L1 & L2 & L3 & L4); [done|intros u; cbn [im_knownIDs]; rewrite lookup_empty; split; [by intros [? ?]|intros Hu; by apply elem_of_nil in Hu]|by apply Hstore|done|].
  assert (Forall (fun ce => ev_id ce.2 <> ""%string) (combine accepted envs)) as Hce.
  { apply Forall_forall. intros [c ev] Hin. apply base.list_elem_of_In, in_combine_r, base.list_elem_of_In in Hin. rewrite Forall_forall in Hnew. by apply Hnew. }
  pose proof (rows_spec decode_cookies cookie_valid jar Parse lower sameCookies (sa_UserID <$> existing) proxies (length accepted) (combine accepted envs) Hce 1 (load_known lower existing (mkImport existing ∅ ∅ ∅ [] [] None []))) as Hspec.
  rewrite Er in Hspec. rewrite <- Hlen. apply Hspec; [lia|rewrite length_combine; lia| |].
  - split; rewrite ?L2, ?L3; cbn; try done; apply NoDup_nil_2.
  - split; rewrite ?L1, ?L3; cbn; [split; [apply NoDup_nil_2|by intros u Hu%elem_of_nil]|done|exact LN|by rewrite app_nil_r].
Qed.

(** *** On concrete accounts *)

Definition demo_device : DeviceIdentity := mkDevice 1 "pixel-8-android-15" (NewID (replicate 16 1)) (NewID (replicate 16 2)) "android-00112233445566ff".
Definition demo_config (id auth : string) (file : string) : accountConfig := mkConfig None id auth file None (Some demo_device) None.

Lemma accounts_loaded_witness :
  loadAccounts (Some (Ok [demo_config "main" "" "main.json"; demo_config "spare" "IGT:2:def" ""]))
    (fun _ => Ok (demo_config "" " Bearer IGT:2:abc " "")) (Some (Ok [mkDirEntry "third.json" false (Ok (demo_config "" "Bearer IGT:2:ghi" "")); mkDirEntry "notes.txt" false (Err "")])) =
  Ok [set_auth "Bearer IGT:2:abc" (demo_config "main" "" "main.json"); set_auth "Bearer IGT:2:def" (demo_config "spare" "" ""); set_auth "Bearer IGT:2:ghi" (demo_config "third" "" "")] /\
  NoDup ["main"; "spare"; "third"]%string.
Proof.
  match goal with |- ?a = ?b /\ _ => assert (a = b) as H by (vm_compute; reflexivity) end. split; [exact H|]. exact (proj1 (accounts_loaded _ _ _ _ H)).
Defined.

(** Two accounts, of which the first login is limited; the second is skipped.
    Then in a store with two seeded accounts, which have no user, and one of the
    user 1, whose password is kept after its login. *)
Definition demo_credentials : list Credentials := [mkCredentials None "'Alice" "secret" "" ""; mkCredentials None "bob" "secret" "" "random"].
Definition demo_update : update_env := mkUpdate None None None None true "" 0 10 10 None None None.
Definition demo_env (password : res failure loginResult) : environment :=
  mkEnv None false (fun _ => true) (fun p => if String.eqb p "dead" then None else Some "192.0.2.1"%string) (fun _ => Err (loginFailure "session_expired")) password "id" (Ok true) None demo_update demo_update.
Definition demo_store : list stored := [mkStored "main" "" "" "" false None; mkStored "spare" "" "" "" false None; mkStored "old" "carol" "1" "p" true None].
Abbreviation demo_import existing := (Import (fun _ => None) (fun _ => true) (fun _ => []) (fun _ => None) (fun _ _ => ""%string) ToLower String.eqb ["dead"; "live"]%string false (Ok existing) None demo_credentials).
Definition demo_limited : environment := demo_env (Err (loginFailure "upstream_rate_limited")).
Definition demo_user_of (name id : string) : environment := demo_env (Ok (mkLogin "Bearer IGT:2:abc" name id None)).

Lemma import_sound_witness :
  demo_import [] [demo_limited; demo_limited] =
    ([mkResult 1 "" "failed" "upstream_rate_limited"; mkResult 2 "" "skipped" "batch_rate_limited"], None, [Probed "dead"; Probed "live"; Submitted 1 "live"])%string /\
  demo_import demo_store [demo_user_of "Alice" "1"; demo_user_of "bob" "2"] =
    ([mkResult 1 "old" "updated" ""; mkResult 2 "id" "imported" ""], None,
     [Probed "dead"; Probed "live"; Submitted 1 "live"; Updated 1 "old"; Probed "live"; Submitted 2 "live"; Inserted 2 "2" "live"])%string /\
  NoDup (submitted (demo_import demo_store [demo_user_of "Alice" "1"; demo_user_of "bob" "2"]).2).
Proof.
  split; [vm_compute; reflexivity|]. match goal with |- ?a = ?b /\ _ => assert (a = b) as E by (vm_compute; reflexivity) end. split; [exact E|]. rewrite E.
  assert (Forall (fun ev => ev_id ev <> ""%string) [demo_user_of "Alice" "1"; demo_user_of "bob" "2"]) as Hids by (repeat constructor; discriminate).
  assert (forall existing, @Ok failure _ demo_store = Ok existing -> Forall (fun a => sa_ID a <> ""%string) existing) as Hstore
    by (intros ? [= <-]; repeat (apply Forall_cons; split; [discriminate|]); apply Forall_nil_2).
  assert (validateCredentials (fun _ => None) (fun _ => true) (fun _ => []) (fun _ => None) (fun _ _ => ""%string) ToLower demo_credentials =
    Ok [mkCredentials None "Alice" "secret" "" ""; mkCredentials None "bob" "secret" "" "random"]) as Ev by (vm_compute; reflexivity).
  pose proof (import_sound (fun _ => None) (fun _ => true) (fun _ => []) (fun _ => None) (fun _ _ => ""%string) ToLower String.eqb ["dead"; "live"]%string false (Ok demo_store) None demo_credentials
    [demo_user_of "Alice" "1"; demo_user_of "bob" "2"] _ _ _ eq_refl Hstore Hids E) as H.
  rewrite Ev in H. destruct H as (_ & _ & _ & _ & _ & _ & [(H & _)|H]); [discriminate|]. exact (io_once _ _ _ _ _ H).
Defined.
