(* ===== verification/PoolOpen.v ===== *)
(** * identity: proxy addresses and the loading of the pool

    Models src/internal/identity/proxy.go and, of pool.go, [Open], [initialize],
    [Stats] and [ProxyAddresses].  net/url's parser, the lower case of a host
    beyond ASCII, encoding/json into structs and the construction of a transport
    are parameters; so are the two updates that PostgreSQL makes inside a JSON
    column.  The tables are what the queries see of the database: a table of
    routes in the order of its serial numbers and a table of identities; how
    each statement ends is an input.  The claim of the ownership is Ownership. *)
From S2P Require Import Prelude Strconv Errors AppRoute AppReply AppSession Config TikTokPost Pool PoolLease PoolStore.
From stdpp Require Import gmap strings.
Open Scope Z_scope.
Open Scope go_scope.

(** ** [Endpoint] *)

Definition upper_hex (n : N) : ascii := if (n <? 10)%N then ascii_of_N (48 + n) else ascii_of_N (55 + n).
(** What [url.UserPassword] leaves as it is. *)
Definition userinfo_plain (a : ascii) : bool :=
  let n := N_of_ascii a in
  ((48 <=? n) && (n <=? 57) || (65 <=? n) && (n <=? 90) || (97 <=? n) && (n <=? 122))%N ||
  existsb (Ascii.eqb a) ["-"; "_"; "."; "~"; "$"; "&"; "+"; ","; ";"; "="]%char.
Definition escape_userinfo : string -> string :=
  replace_bytes (fun a => if userinfo_plain a then None
    else Some (String "%" (String (upper_hex (N_of_ascii a / 16)) (String (upper_hex (N_of_ascii a mod 16)) EmptyString)))).
Definition UserPassword (user password : string) : string := escape_userinfo user +:+ ":" +:+ escape_userinfo password.

Definition invalid_proxy : goerr := ErrOther "invalid proxy address".

Section Endpoint.
Context (Parse : string -> option URL) (ur_Fragment ToString : URL -> string) (lower : string -> string).

Definition proxy_url (raw : string) : option string :=
  if contains "://" raw then Some raw
  else
    match split_byte ":" raw with
    | [_; _] => Some ("http://" +:+ raw)
    | [host; port; user; password] => Some ("http://" +:+ UserPassword user password +:+ "@" +:+ host +:+ ":" +:+ port)
    | _ => None
    end.

(** The key of a route and its address. *)
Definition Endpoint (raw : string) : res goerr (string * string) :=
  if String.eqb raw "" then Ok ("direct", "")
  else
    match proxy_url raw ≫= Parse with
    | None => Err invalid_proxy
    | Some u =>
        if String.eqb (Hostname u) "" || negb (String.eqb (ur_Path u) "") && negb (String.eqb (ur_Path u) "/") ||
           negb (String.eqb (ur_RawQuery u) "") || negb (String.eqb (ur_Fragment u) "")
        then Err invalid_proxy
        else
          let or_port d := if String.eqb (TikTokPost.Port u) "" then d else TikTokPost.Port u in
          match (if String.eqb (ur_Scheme u) "http" then Some (or_port "80")
                 else if String.eqb (ur_Scheme u) "https" then Some (or_port "443")
                 else if String.eqb (ur_Scheme u) "socks5" || String.eqb (ur_Scheme u) "socks5h" then Some (or_port "1080")
                 else None) with
          | None => Err (ErrOther "unsupported proxy scheme")
          | Some port => Ok (lower (Hostname u) +:+ ":" +:+ port, ToString u)
          end
    end%string.

(** ** [ReadProxies] *)

(** bufio.MaxScanTokenSize: a line and its end have to fit. *)
Definition MaxScanTokenSize : nat := 65536.

Definition drop_cr (s : string) : string := if str_has_suffix s (String CR EmptyString) then String.substring 0 (String.length s - 1) s else s.

(** The lines a bufio.Scanner delivers, and whether it stops at one too long. *)
Fixpoint scan_lines (parts : list string) : list string * bool :=
  match parts with
  | [] => ([], false)
  | [last] =>
      if String.eqb last "" then ([], false)
      else if (MaxScanTokenSize <=? String.length last)%nat then ([], true) else ([drop_cr last], false)
  | line :: parts =>
      if (MaxScanTokenSize <=? String.length line)%nat then ([], true)
      else let '(lines, long) := scan_lines parts in (drop_cr line :: lines, long)
  end.

Fixpoint read_lines (seen : list string) (lines : list string) : res goerr (list string) :=
  match lines with
  | [] => Ok []
  | line :: lines =>
      let raw := TrimSpace line in
      if String.eqb raw "" || str_has_prefix raw "#" then read_lines seen lines
      else
        let? ka := Endpoint raw in
        let '(key, address) := ka in
        if existsb (String.eqb key) seen then read_lines seen lines
        else let? rest := read_lines (key :: seen) lines in Ok (address :: rest)
  end.

(** [file]: what could be read of the file, and whether reading it failed. *)
Definition ReadProxies (cfg : Config) (file : option (string * bool)) : res goerr (list string) :=
  let? result :=
    (if String.eqb (ProxyFile cfg) "" then Ok []
     else
       match file with
       | None => Err (ErrOther "cannot open PROXY_FILE")
       | Some (content, failed) =>
           let '(lines, long) := scan_lines (split_byte LF content) in
           let? result := read_lines [] lines in
           if long || failed then Err (ErrOther "cannot read PROXY_FILE") else Ok result
       end) in
  Ok (result ++ (if ProxyIncludeHost cfg then [""%string] else [])).
End Endpoint.

(** ** The tables *)

Record proxy_row := mkProxyRow { rw_id : Z; rw_key : string; rw_url : option string; rw_health : string }.
Record identity_row := mkIdentityRow {
  rw_uuid : string; rw_proxy : Z; rw_ordinal : Z; rw_session : string; rw_assignments : Z; rw_used : bool; rw_identity_health : string;
}.
(** [tb_serial] is the last number the sequence of the routes gave. *)
Record tables := mkTables { tb_proxies : list proxy_row; tb_serial : Z; tb_identities : list identity_row }.

(** INSERT ... ON CONFLICT(server_key) DO UPDATE SET proxy_url=...: a conflict
    takes a number of the sequence as well. *)
Definition upsert (key address : string) (t : tables) : tables :=
  let url := if String.eqb address "" then None else Some address in
  mkTables
    (if existsb (fun r => String.eqb (rw_key r) key) (tb_proxies t)
     then (fun r => if String.eqb (rw_key r) key then mkProxyRow (rw_id r) (rw_key r) url (rw_health r) else r) <$> tb_proxies t
     else tb_proxies t ++ [mkProxyRow (tb_serial t + 1) key url "{}"])
    (tb_serial t + 1) (tb_identities t).

(** A route that has been loaded: its row, its key, its address. *)
Record route := mkRoute { ro_id : Z; ro_key : string; ro_address : string }.

(** The statements of [initialize], and the rows its two queries scan. *)
Inductive statement :=
| Begin | Migration (n : nat) | Upsert (n : nat) | Placeholders
| QueryProxies | ScanProxy (n : nat) | EndProxies
| QueryIdentities | ScanIdentity (n : nat) | EndIdentities
| Token | Commit.

(** ^[a-z_][a-z_0-9]{0,62}$ *)
Definition schemaPattern (s : string) : bool :=
  let letter a := let n := N_of_ascii a in ((97 <=? n) && (n <=? 122))%N || Ascii.eqb a "_" in
  match String.list_ascii_of_string s with
  | a :: l => letter a && forallb (fun a => letter a || match digit_val a with Some _ => true | None => false end) l && (length l <=? 62)%nat
  | [] => false
  end.

Section Open.
Context (Parse : string -> option URL) (ur_Fragment ToString : URL -> string) (lower : string -> string).
(** What [json.Unmarshal] makes of a health record and of a session, where JSON's
    null is no session, and of a cookie jar; the opaque rest of a session. *)
Context (decode_health : string -> option health) (decode_session : string -> option (option Session)) (jar_decodes : string -> bool)
        (rest : Session -> Z).
(** [newTransport]; the update of a device token, and the condition of the
    placeholders, inside a session's column. *)
Context (transport : string -> option goerr) (device_token : string -> string) (is_placeholder : string -> bool).
(** How a statement ends. *)
Context (db : statement -> option goerr).

Notation Endpoint := (Endpoint Parse ur_Fragment ToString lower).

Definition exec (s : statement) : res goerr unit := match db s with Some e => Err e | None => Ok tt end.
Definition exec_or (s : statement) (message : string) : res goerr unit :=
  match db s with Some _ => Err (ErrOther message) | None => Ok tt end.

Fixpoint migrations (n k : nat) : res goerr unit :=
  match k with
  | O => Ok tt
  | S k => let? _ := exec_or (Migration n) "identity schema migration failed" in migrations (S n) k
  end.

Fixpoint upserts (n : nat) (addresses : list string) (t : tables) : res goerr tables :=
  match addresses with
  | [] => Ok t
  | a :: addresses =>
      let? ka := Endpoint a in
      let? _ := exec_or (Upsert n) "proxy synchronization failed" in
      upserts (S n) addresses (upsert ka.1 ka.2 t)
  end.

Definition with_session (f : string -> string) (r : identity_row) : identity_row :=
  mkIdentityRow (rw_uuid r) (rw_proxy r) (rw_ordinal r) (f (rw_session r)) (rw_assignments r) (rw_used r) (rw_identity_health r).
Definition migrate (t : tables) : tables := mkTables (tb_proxies t) (tb_serial t) (with_session device_token <$> tb_identities t).
Definition unused (r : identity_row) : bool := (rw_assignments r =? 0) && negb (rw_used r) && is_placeholder (rw_session r).
Definition delete_placeholders (t : tables) : tables :=
  mkTables (tb_proxies t) (tb_serial t) (List.filter (fun r => negb (unused r)) (tb_identities t)).

(** One row of the routes; [n] counts the rows. *)
Definition load_proxy (n : nat) (r : proxy_row) : res goerr (route * proxyState) :=
  let? _ := exec (ScanProxy n) in
  let mismatch : goerr := ErrOther "stored proxy does not match its permanent server key" in
  match Endpoint (default "" (rw_url r))%string with
  | Err _ => Err mismatch
  | Ok (key, address) =>
      if negb (String.eqb key (rw_key r)) then Err mismatch
      else
        match decode_health (rw_health r) with
        | None => Err (ErrOther "stored proxy health is invalid")
        | Some h =>
            match transport address with
            | Some e => Err e
            | None => Ok (mkRoute (rw_id r) (rw_key r) address, mkProxy (replicate 10 None) h 0 0)
            end
        end
  end.
Fixpoint load_proxies (n : nat) (rows : list proxy_row) : res goerr (list (route * proxyState)) :=
  match rows with
  | [] => Ok []
  | r :: rows => let? x := load_proxy n r in let? l := load_proxies (S n) rows in Ok (x :: l)
  end.

(** [byID]: the last route of that number. *)
Fixpoint byID (routes : list route) (id : Z) : option nat :=
  match routes with
  | [] => None
  | r :: routes =>
      match byID routes id with
      | Some i => Some (S i)
      | None => if ro_id r =? id then Some O else None
      end
  end.

(** What the pool keeps of a session. *)
Definition pool_session (s : Session) : session :=
  Pool.mkSession (String.eqb (id_Kind (se_Identity s)) "registered") (bool_decide (is_Some (se_SDK s))) (rest s).

Definition load_identity (routes : list route) (n : nat) (r : identity_row) (acc : list proxyState * gmap string entry) :
    res goerr (list proxyState * gmap string entry) :=
  let '(proxies, entries) := acc in
  let? _ := exec (ScanIdentity n) in
  match byID routes (rw_proxy r) ≫= fun i => (fun x => (i, x)) <$> proxies !! i with
  | None => Err (ErrOther "stored identity has an invalid proxy slot")
  | Some (i, x) =>
      let k := Z.to_nat (rw_ordinal r) in
      if (rw_ordinal r <? 0) || (10 <=? rw_ordinal r) || bool_decide (is_Some (mjoin (px_slots x !! k)))
      then Err (ErrOther "stored identity has an invalid proxy slot")
      else
        match decode_session (rw_session r) with
        | None => Err (ErrOther "stored identity session is invalid")
        | Some s =>
            match s with
            | Some s =>
                if negb (ValidateSession jar_decodes s) then Err (ErrOther "stored identity session failed validation")
                else
                  match decode_health (rw_identity_health r) with
                  | None => Err (ErrOther "stored identity health is invalid")
                  | Some h =>
                      let ps := pool_session s in
                      Ok (alter (fun x => mkProxy (<[k := Some (rw_uuid r)]> (px_slots x)) (px_health x) (px_healthVersion x) (px_savedHealthVersion x)) i proxies,
                          <[rw_uuid r := mkEntry i k ps (rw_assignments r) 0 0 false (ss_registered ps) h]> entries)
                  end
            | None => Err (ErrOther "stored identity session failed validation")
            end
        end
  end.
Fixpoint load_identities (routes : list route) (n : nat) (rows : list identity_row) (acc : list proxyState * gmap string entry) :
    res goerr (list proxyState * gmap string entry) :=
  match rows with
  | [] => Ok acc
  | r :: rows => let? acc := load_identity routes n r acc in load_identities routes (S n) rows acc
  end.

(** The rows of the database, as the checkpoints that would write them. *)
Definition stored_rows (entries : gmap string entry) : gmap string checkpoint :=
  (fun e => mkCheckpoint 0 (en_session e) (en_health e) (en_assignments e)) <$> entries.

(** [owned] is the answer of the claim.  An error rolls the transaction back. *)
Definition initialize (owned : res goerr bool) (addresses : list string) (t : tables) :
    res goerr (list route * list proxyState * gmap string entry * tables) :=
  match owned with
  | Err _ => Err (ErrOther "identity ownership check failed")
  | Ok false => Err (ErrOther "another process owns this identity pool")
  | Ok true =>
      let? _ := exec Begin in
      let? _ := migrations 0 7 in
      let? t := upserts 0 addresses (migrate t) in
      let? _ := exec_or Placeholders "identity placeholder migration failed" in
      let t := delete_placeholders t in
      let? _ := exec QueryProxies in
      let? loaded := load_proxies 0 (tb_proxies t) in
      let? _ := exec EndProxies in
      if bool_decide (loaded = []) then Err (ErrOther "no proxy servers configured; set PROXY_FILE or PROXY_INCLUDE_HOST")
      else
        let? _ := exec QueryIdentities in
        let? pe := load_identities loaded.*1 0 (tb_identities t) (loaded.*2, ∅) in
        let? _ := exec EndIdentities in
        let? _ := exec Token in
        let? _ := exec Commit in
        Ok (loaded.*1, pe.1, pe.2, t)
  end.

(** [configured] is whether pgx reads DB_URL, [connected] whether it connects;
    [callers] counts the goroutines that will ask for an identity. *)
Definition Open (cfg : Config) (configured connected : bool) (owned : res goerr bool) (addresses : list string) (callers : nat) (t : tables) :
    res goerr (list route * Pool * tables) :=
  if negb (schemaPattern (DBSchema cfg)) then Err (ErrOther "invalid configuration: DB_SCHEMA")
  else if negb configured then Err (ErrOther "invalid DB_URL")
  else if negb connected then Err (ErrOther "identity database connection failed")
  else
    let? x := initialize owned addresses t in
    let '(routes, proxies, entries, t) := x in
    match (if ProxyDataOnly cfg then transport "" else None) with
    | Some e => Err e
    | None =>
        Ok (routes,
            mkPool true false true false false entries proxies 0 0 (if MaxQueuedRequests cfg <? 1 then 1024 else MaxQueuedRequests cfg) 0
              (replicate callers Outside) 0 0 ∅ None (stored_rows entries), t)
    end.
End Open.

(** ** What the pool says of itself *)

(** The two counters of the database's use are left out. *)
Record Stats := mkStats { st_Ready : bool; st_Proxies : Z; st_Identities : Z; st_Registered : Z; st_Busy : Z; st_Queued : Z; st_Checkpoints : Z; st_Unsaved : Z; st_Connected : bool }.
Definition count_entries (f : entry -> bool) (p : Pool) : Z := tally (fun ke => f ke.2) (map_to_list (po_entries p)).
Definition pool_stats (p : Pool) : Stats :=
  mkStats (po_ready p && negb (po_closing p)) (len (po_proxies p)) (Z.of_nat (size (po_entries p))) (count_entries en_registered p) (count_entries en_busy p)
    (po_queued p) (po_checkpoints p) (Z.of_nat (size (po_pending p))) (po_connected p).
Definition ProxyAddresses (routes : list route) : list string := ro_address <$> routes.

(** A line of the file that names a route. *)
Definition names_route (line : string) : bool := let raw := TrimSpace line in negb (String.eqb raw "" || str_has_prefix raw "#").

Section Proxies.
Context (Parse : string -> option URL) (ur_Fragment ToString : URL -> string) (lower : string -> string).
Notation Endpoint := (Endpoint Parse ur_Fragment ToString lower).

Lemma read_lines_spec seen lines l : read_lines Parse ur_Fragment ToString lower seen lines = Ok l ->
  exists routes : list (string * string), routes.*2 = l /\ NoDup routes.*1 /\ (forall k, k ∈ routes.*1 -> k ∉ seen) /\
    (forall ka, ka ∈ routes -> exists line, line ∈ lines /\ names_route line = true /\ Endpoint (TrimSpace line) = Ok ka) /\
    (forall line, line ∈ lines -> names_route line = true -> exists ka, Endpoint (TrimSpace line) = Ok ka /\ (ka.1 ∈ routes.*1 \/ ka.1 ∈ seen)).
Proof.
  revert seen l. induction lines as [|line lines IH]; intros seen l H; cbn [read_lines] in H.
  { injection H as <-. exists []. repeat split; try by intros ? ?%elem_of_nil. constructor. }
  destruct (_ || _) eqn:Es.
  { destruct (IH _ _ H) as (routes & H1 & H2 & H3 & H4 & H5). exists routes. do 3 (split; [done|]). split.
    - intros ka (x & Hx & Hn & He)%H4. exists x. split; [by right|done].
    - intros x [ ->|Hx]%elem_of_cons Hn; [unfold names_route in Hn; by rewrite Es in Hn|by apply H5]. }
  res_inv. destruct x as [key address]. destruct (existsb _ seen) eqn:Ek.
  - destruct (IH _ _ H0) as (routes & H1 & H2 & H3 & H4 & H5). exists routes. do 3 (split; [done|]). split.
    + intros ka (x & Hx & Hn & He)%H4. exists x. split; [by right|done].
    + intros x [ ->|Hx]%elem_of_cons Hn; [|by apply H5]. exists (key, address). split; [done|]. right.
      apply existsb_elem in Ek as (k & Hk & ->%String.eqb_eq). done.
  - apply rbind_ok_inv in H0 as (rest & H0 & [= <-]). destruct (IH _ _ H0) as (routes & H1 & H2 & H3 & H4 & H5).
    exists ((key, address) :: routes). cbn. split; [by rewrite H1|]. split; [|split; [|split]].
    + apply NoDup_cons. split; [|done]. intros Hk%H3. apply Hk. by left.
    + intros k [ ->|Hk]%elem_of_cons Hs.
      * assert (existsb (String.eqb key) seen = true) as Hc; [|by rewrite Hc in Ek]. apply existsb_elem. exists key. split; [done|apply String.eqb_refl].
      * apply (H3 _ Hk). by right.
    + intros ka [ ->|Hka]%elem_of_cons.
      * exists line. split; [by left|]. split; [unfold names_route; by rewrite Es|done].
      * destruct (H4 _ Hka) as (x & Hx & Hn & He). exists x. split; [by right|done].
    + intros x [ ->|Hx]%elem_of_cons Hn; [exists (key, address); split; [done|left; by left]|].
      destruct (H5 _ Hx Hn) as (ka & He & [Hk|[Hk|Hk]%elem_of_cons]); exists ka; (split; [done|]); [left; by right|left; rewrite Hk; by left|by right].
Qed.

(** The routes of the file: one for each key, in the order of the lines, from
    lines that name a route, and every such line's key has one; then the host. *)
Lemma ReadProxies_spec cfg content failed l : ProxyFile cfg <> ""%string ->
  ReadProxies Parse ur_Fragment ToString lower cfg (Some (content, failed)) = Ok l ->
  exists routes : list (string * string), l = routes.*2 ++ (if ProxyIncludeHost cfg then [""%string] else []) /\ NoDup routes.*1 /\
    let lines := (scan_lines (split_byte LF content)).1 in
    (forall ka, ka ∈ routes -> exists line, line ∈ lines /\ names_route line = true /\ Endpoint (TrimSpace line) = Ok ka) /\
    (forall line, line ∈ lines -> names_route line = true -> exists ka, Endpoint (TrimSpace line) = Ok ka /\ ka.1 ∈ routes.*1).
Proof.
  intros Hf H. unfold ReadProxies in H. apply String.eqb_neq in Hf. rewrite Hf in H.
  destruct (scan_lines _) as [lines long] eqn:El. cbn [fst]. res_inv.
  destruct (read_lines_spec _ _ _ H) as (routes & <- & H2 & _ & H4 & H5). exists routes. split; [done|]. split; [done|]. split; [done|].
  intros line Hl Hn. destruct (H5 line Hl Hn) as (ka & He & [Hk|Hk%elem_of_nil]); [|done]. by exists ka.
Qed.
End Proxies.

(** ** What loading establishes *)

(** The constraints of the tables: keys, numbers and identifiers are unique. *)
Record tables_ok (t : tables) : Prop := {
  tk_keys : NoDup (rw_key <$> tb_proxies t);
  tk_ids : NoDup (rw_id <$> tb_proxies t);
  tk_serial r : r ∈ tb_proxies t -> rw_id r <= tb_serial t;
  tk_uuids : NoDup (rw_uuid <$> tb_identities t);
}.

(** The server a route's number stands for. *)
Definition server (t : tables) (id : Z) (key : string) : Prop := exists r, r ∈ tb_proxies t /\ rw_id r = id /\ rw_key r = key.

Lemma fmap_same {A B} (f : A -> B) (g : A -> A) (l : list A) : (forall x, f (g x) = f x) -> f <$> (g <$> l) = f <$> l.
Proof. intros H. rewrite <- list_fmap_compose. apply list_fmap_ext. intros i x _. cbn. apply H. Qed.

Lemma NoDup_snoc {A} (l : list A) x : NoDup l -> x ∉ l -> NoDup (l ++ [x]).
Proof.
  intros Hl Hx. apply NoDup_app. split; [done|]. split; [|apply NoDup_singleton]. intros y Hy ->%list_elem_of_singleton. done.
Qed.

Lemma upsert_ok key address t : tables_ok t -> tables_ok (upsert key address t) /\ tb_identities (upsert key address t) = tb_identities t.
Proof.
  intros [H1 H2 H3 H4]. split; [|done]. unfold upsert. destruct (existsb _ _) eqn:He; split; cbn [tb_proxies tb_serial tb_identities]; try done.
  - rewrite fmap_same; [done|]. intros x. by destruct (String.eqb _ _).
  - rewrite fmap_same; [done|]. intros x. by destruct (String.eqb _ _).
  - intros r (x & -> & Hx)%list_elem_of_fmap. specialize (H3 _ Hx). destruct (String.eqb _ _); cbn; lia.
  - rewrite fmap_app. apply NoDup_snoc; [done|]. intros (x & Hk & Hx)%list_elem_of_fmap. cbn in Hk.
    assert (existsb (fun r => String.eqb (rw_key r) key) (tb_proxies t) = true) as Hc; [|by rewrite Hc in He].
    apply existsb_elem. exists x. split; [done|]. rewrite Hk. apply String.eqb_refl.
  - rewrite fmap_app. apply NoDup_snoc; [done|]. intros (x & Hk & Hx)%list_elem_of_fmap. cbn in Hk. specialize (H3 _ Hx). lia.
  - intros r [Hr| ->%list_elem_of_singleton]%elem_of_app; [specialize (H3 _ Hr); lia|cbn; lia].
Qed.

Lemma upsert_server key address t id k : server t id k -> server (upsert key address t) id k.
Proof.
  intros (r & Hr & <- & <-). unfold upsert. destruct (existsb _ _).
  - eexists. split; [apply list_elem_of_fmap; exists r; split; [done|exact Hr]|]. by destruct (String.eqb _ _).
  - exists r. split; [apply elem_of_app; by left|done].
Qed.

Lemma upsert_known key address t : exists id, server (upsert key address t) id key.
Proof.
  unfold upsert. destruct (existsb _ _) eqn:He.
  - apply existsb_elem in He as (r & Hr & Hk). exists (rw_id r). eexists. split; [apply list_elem_of_fmap; exists r; split; [done|exact Hr]|].
    rewrite Hk. split; [done|]. by apply String.eqb_eq in Hk.
  - eexists. eexists. split; [apply elem_of_app; right; by apply list_elem_of_singleton|done].
Qed.

Section Loading.
Context (Parse : string -> option URL) (ur_Fragment ToString : URL -> string) (lower : string -> string).
Context (decode_health : string -> option health) (decode_session : string -> option (option Session)) (jar_decodes : string -> bool)
        (rest : Session -> Z) (transport : string -> option goerr) (device_token : string -> string) (is_placeholder : string -> bool)
        (db : statement -> option goerr).
Notation Endpoint := (Endpoint Parse ur_Fragment ToString lower).
Notation upserts := (upserts Parse ur_Fragment ToString lower db).
Notation load_proxies := (load_proxies Parse ur_Fragment ToString lower decode_health transport db).
Notation load_identity := (load_identity decode_health decode_session jar_decodes rest db).
Notation load_identities := (load_identities decode_health decode_session jar_decodes rest db).
Notation initialize := (initialize Parse ur_Fragment ToString lower decode_health decode_session jar_decodes rest transport device_token is_placeholder db).
Notation Open := (Open Parse ur_Fragment ToString lower decode_health decode_session jar_decodes rest transport device_token is_placeholder db).

Lemma upserts_spec n addresses t t' : upserts n addresses t = Ok t' -> tables_ok t ->
  tables_ok t' /\ tb_identities t' = tb_identities t /\ (forall id k, server t id k -> server t' id k) /\
  (forall a, a ∈ addresses -> exists k address id, Endpoint a = Ok (k, address) /\ server t' id k).
Proof.
  revert n t. induction addresses as [|a l IH]; intros n t H Ht; cbn in H.
  { injection H as <-. split; [done|]. split; [done|]. split; [done|]. by intros a Ha%elem_of_nil. }
  res_inv. destruct x as [k address]. cbn [fst snd] in *. destruct (upsert_ok k address t Ht) as [Hu Hi].
  destruct (IH _ _ H1 Hu) as (IH1 & IH2 & IH3 & IH4). split; [done|]. split; [by rewrite IH2|]. split.
  - intros id k' Hs. by apply IH3, upsert_server.
  - intros b [ ->|Hb]%elem_of_cons; [|by apply IH4]. destruct (upsert_known k address t) as [id Hid]. exists k, address, id. split; [done|]. by apply IH3.
Qed.

Lemma load_proxies_spec n rows l : load_proxies n rows = Ok l ->
  (ro_id <$> l.*1) = rw_id <$> rows /\ (ro_key <$> l.*1) = rw_key <$> rows /\
  (forall x, x ∈ l -> px_slots x.2 = replicate 10 None /\ transport (ro_address x.1) = None).
Proof.
  revert n l. induction rows as [|r rows IH]; intros n l H; cbn in H.
  { injection H as <-. split; [done|]. split; [done|]. by intros x Hx%elem_of_nil. }
  res_inv. destruct (IH _ _ H0) as (IH1 & IH2 & IH3). unfold PoolOpen.load_proxy in H. res_inv.
  destruct (PoolOpen.Endpoint _ _ _ _ _) as [[key address]|]; [|done]. destruct (String.eqb_spec key (rw_key r)) as [ ->|]; [|done]. cbn in H1.
  destruct (decode_health _); [|done]. destruct (transport address) eqn:Et; [done|]. injection H1 as <-.
  cbn. rewrite IH1, IH2. split; [done|]. split; [done|]. intros y [ ->|Hy]%elem_of_cons; [done|by apply IH3].
Qed.

Lemma byID_spec routes id i : byID routes id = Some i -> exists ro, routes !! i = Some ro /\ ro_id ro = id.
Proof.
  revert i. induction routes as [|r routes IH]; intros i H; [done|]. cbn in H. destruct (byID routes id) as [j|].
  - injection H as <-. by apply (IH j).
  - destruct (Z.eqb_spec (ro_id r) id); [|done]. injection H as <-. by exists r.
Qed.

(** An identity of the pool, and the row it comes from. *)
Record from_row (routes : list route) (r : identity_row) (e : entry) : Prop := {
  fr_route : exists ro, routes !! en_proxy e = Some ro /\ ro_id ro = rw_proxy r;
  fr_ordinal : Z.of_nat (en_ordinal e) = rw_ordinal r /\ (en_ordinal e < 10)%nat;
  fr_session : exists s, decode_session (rw_session r) = Some (Some s) /\ ValidateSession jar_decodes s = true /\
    en_session e = pool_session rest s /\ en_registered e = String.eqb (id_Kind (se_Identity s)) "registered";
  fr_state : en_assignments e = rw_assignments r /\ en_busy e = false /\ en_waiting e = 0 /\ decode_health (rw_identity_health r) = Some (en_health e);
}.

Lemma load_identity_spec routes n r proxies entries proxies' entries' :
  load_identity routes n r (proxies, entries) = Ok (proxies', entries') ->
  placed (shape entries) (px_slots <$> proxies) -> entries !! rw_uuid r = None ->
  placed (shape entries') (px_slots <$> proxies') /\ length proxies' = length proxies /\
  exists e, entries' = <[rw_uuid r := e]> entries /\ from_row routes r e.
Proof.
  intros H Hp Hu. unfold PoolOpen.load_identity in H. res_inv.
  destruct (byID routes (rw_proxy r)) as [i|] eqn:Ei; [|done]. cbn in H0. destruct (proxies !! i) as [px|] eqn:Ex; [|done]. cbn in H0.
  destruct (_ || _) eqn:Eo; [done|]. bool_prop.
  destruct (decode_session _) as [[s|]|] eqn:Es; [|done|done]. destruct (ValidateSession _ s) eqn:Ev; [|done]. cbn in H0.
  destruct (decode_health _) as [h|] eqn:Eh; [|done]. injection H0 as <- <-.
  apply Z.ltb_ge in H1. apply Z.leb_gt in H3.
  assert ((px_slots <$> proxies) !! i = Some (px_slots px)) as Hx by (by rewrite list_lookup_fmap, Ex).
  assert (px_slots px !! Z.to_nat (rw_ordinal r) = Some None) as Hfree.
  { destruct (proj1 Hp) with i (px_slots px); [done|]. destruct (px_slots px !! Z.to_nat (rw_ordinal r)) as [[id|]|] eqn:E; [|done|].
    - exfalso. apply H2. by exists id.
    - apply lookup_ge_None in E. pose proof (proj1 Hp _ _ Hx). lia. }
  split; [|split].
  - unfold shape in *. rewrite fmap_insert. cbn [en_proxy en_ordinal].
    assert (px_slots <$> alter (fun x => mkProxy (<[Z.to_nat (rw_ordinal r):=Some (rw_uuid r)]> (px_slots x)) (px_health x) (px_healthVersion x) (px_savedHealthVersion x)) i proxies
            = <[i := <[Z.to_nat (rw_ordinal r) := Some (rw_uuid r)]> (px_slots px)]> (px_slots <$> proxies)) as ->.
    { apply list_eq. intros j. rewrite list_lookup_fmap, list_lookup_alter. destruct (decide (i = j)) as [<-|Hne].
      - rewrite Ex, list_lookup_insert_eq by (rewrite length_fmap; by eapply lookup_lt_Some). done.
      - rewrite list_lookup_insert_ne, list_lookup_fmap by done. done. }
    apply placed_add; [done|done| |done]. by rewrite lookup_fmap, Hu.
  - by rewrite length_alter.
  - eexists. split; [done|]. apply byID_spec in Ei as (ro & Hro & Hid).
    split; cbn [en_proxy en_ordinal en_session en_registered en_assignments en_busy en_waiting en_health];
      [by exists ro|lia|by exists s|done].
Qed.

Lemma load_identities_spec routes n rows proxies entries proxies' entries' :
  load_identities routes n rows (proxies, entries) = Ok (proxies', entries') ->
  placed (shape entries) (px_slots <$> proxies) -> NoDup (rw_uuid <$> rows) -> (forall r, r ∈ rows -> entries !! rw_uuid r = None) ->
  placed (shape entries') (px_slots <$> proxies') /\ length proxies' = length proxies /\
  (forall r, r ∈ rows -> exists e, entries' !! rw_uuid r = Some e /\ from_row routes r e) /\
  (forall id e, entries' !! id = Some e -> entries !! id = Some e \/ exists r, r ∈ rows /\ rw_uuid r = id /\ from_row routes r e) /\
  (forall id e, entries !! id = Some e -> entries' !! id = Some e).
Proof.
  revert n proxies entries. induction rows as [|r rows IH]; intros n proxies entries H Hp Hn Hf; cbn in H.
  { injection H as <- <-. split; [done|]. split; [done|]. split; [by intros r Hr%elem_of_nil|]. split; [by left|done]. }
  apply rbind_ok_inv in H as ([ps es] & H & H0). destruct (load_identity_spec _ _ _ _ _ _ _ H Hp) as (Hp1 & Hl1 & e & -> & He); [apply Hf; by left|].
  cbn [fmap list_fmap] in Hn. apply NoDup_cons in Hn as [Hn1 Hn2].
  assert (forall r', r' ∈ rows -> rw_uuid r <> rw_uuid r') as Hne.
  { intros r' Hr' E. apply Hn1. rewrite E. by apply list_elem_of_fmap_2. }
  destruct (IH _ _ _ H0 Hp1 Hn2) as (I1 & I2 & I3 & I4 & I5).
  { intros r' Hr'. rewrite lookup_insert_ne by (by apply Hne). apply Hf. by right. }
  split; [done|]. split; [by rewrite I2|]. split; [|split].
  - intros r' [ ->|Hr']%elem_of_cons; [|by apply I3]. exists e. split; [|done]. apply I5, lookup_insert_eq.
  - intros id e' [H1|(r' & Hr' & H1)]%I4; [|right; exists r'; split; [by right|done]].
    destruct (decide (rw_uuid r = id)) as [<-|Hne']; [|left; by rewrite lookup_insert_ne in H1].
    rewrite lookup_insert_eq in H1. injection H1 as <-. right. exists r. split; [by left|done].
  - intros id e' H1. apply I5. rewrite lookup_insert_ne; [done|]. intros <-. rewrite (Hf r) in H1; [done|by left].
Qed.

Lemma placed_empty (proxies : list proxyState) : (forall x, x ∈ proxies -> px_slots x = replicate 10 None) ->
  placed (shape ∅) (px_slots <$> proxies).
Proof.
  intros H. split; [|split].
  - intros i l Hl. apply list_lookup_fmap_Some in Hl as (x & -> & Hx). rewrite (H x) by (by eapply list_elem_of_lookup_2). done.
  - intros i l k id Hl Hk. apply list_lookup_fmap_Some in Hl as (x & -> & Hx). rewrite (H x) in Hk by (by eapply list_elem_of_lookup_2).
    by apply (lookup_replicate 10 None (Some id) k) in Hk as [? _].
  - intros id i k Hs. unfold shape in Hs. by rewrite fmap_empty, lookup_empty in Hs.
Qed.

Lemma migrate_ok t : tables_ok t -> tables_ok (migrate device_token t).
Proof. intros [H1 H2 H3 H4]. split; try done. cbn. rewrite fmap_same; done. Qed.

Lemma NoDup_fmap_filter {A B} (f : A -> B) (g : A -> bool) (l : list A) : NoDup (f <$> l) -> NoDup (f <$> List.filter g l).
Proof.
  induction l as [|x l IH]; intros H; [done|]. cbn in *. apply NoDup_cons in H as [Hx Hl]. destruct (g x); [|by apply IH].
  cbn. apply NoDup_cons. split; [|by apply IH]. intros (y & E & Hy)%list_elem_of_fmap. apply Hx. rewrite E.
  apply list_elem_of_fmap_2. apply list_elem_of_In, filter_In in Hy as [Hy _]. by apply list_elem_of_In.
Qed.

(** The rows that are left to load. *)
Definition kept_rows (t : tables) : list identity_row :=
  List.filter (fun r => negb (unused is_placeholder r)) (with_session device_token <$> tb_identities t).

Lemma initialize_spec owned addresses t routes proxies entries t' :
  initialize owned addresses t = Ok (routes, proxies, entries, t') -> tables_ok t ->
  tables_ok t' /\ routes <> [] /\ length proxies = length routes /\
  (ro_id <$> routes) = rw_id <$> tb_proxies t' /\ (ro_key <$> routes) = rw_key <$> tb_proxies t' /\
  placed (shape entries) (px_slots <$> proxies) /\ tb_identities t' = kept_rows t /\
  (forall id k, server t id k -> server t' id k) /\
  (forall a, a ∈ addresses -> exists k address id, Endpoint a = Ok (k, address) /\ server t' id k) /\
  (forall ro, ro ∈ routes -> transport (ro_address ro) = None) /\
  (forall r, r ∈ kept_rows t -> exists e, entries !! rw_uuid r = Some e /\ from_row routes r e) /\
  (forall id e, entries !! id = Some e -> exists r, r ∈ kept_rows t /\ rw_uuid r = id /\ from_row routes r e).
Proof.
  intros H Ht. unfold PoolOpen.initialize in H. destruct owned as [[]|]; try done. res_inv.
  destruct (upserts_spec _ _ _ _ H1 (migrate_ok t Ht)) as ([U1 U2 U3 U4] & U5 & U6 & U7).
  destruct (load_proxies_spec _ _ _ H4) as (L1 & L2 & L3). destruct x7 as [proxies entries]. cbn [fst snd].
  assert (tb_identities (delete_placeholders is_placeholder x1) = kept_rows t) as Ek by (cbn; by rewrite U5).
  assert (NoDup (rw_uuid <$> kept_rows t)) as Hn by (rewrite <- Ek; cbn; by apply NoDup_fmap_filter).
  rewrite Ek in H7. apply load_identities_spec in H7 as (I1 & I2 & I3 & I4 & _); [| |done|done].
  - split; [rewrite <- Ek in Hn; by split|]. apply bool_decide_eq_false in Heqb.
    split; [by destruct x4|]. split; [by rewrite I2, !length_fmap|]. do 6 (split; [done|]). split; [|split; [done|]].
    + intros ro ([ro' x'] & -> & Hx)%list_elem_of_fmap. by apply (L3 _ Hx).
    + intros id e [He|He]%I4; [|done]. by rewrite lookup_empty in He.
  - apply placed_empty. intros x' ([ro y] & -> & Hx)%list_elem_of_fmap. by apply (L3 _ Hx).
Qed.

Lemma aligned_key routes t i ro id k : ro_id <$> routes = rw_id <$> tb_proxies t -> ro_key <$> routes = rw_key <$> tb_proxies t ->
  tables_ok t -> routes !! i = Some ro -> ro_id ro = id -> server t id k -> ro_key ro = k.
Proof.
  intros Hi Hk Ht Hro <- (r & Hr & Hid & <-). apply list_elem_of_lookup in Hr as [j Hj].
  assert ((rw_id <$> tb_proxies t) !! i = Some (ro_id ro)) as H1 by (by rewrite <- Hi, list_lookup_fmap, Hro).
  assert ((rw_id <$> tb_proxies t) !! j = Some (ro_id ro)) as H2 by (by rewrite list_lookup_fmap, Hj, <- Hid).
  assert (i = j) as <- by (eapply NoDup_lookup; [apply (tk_ids _ Ht)|done|done]).
  assert ((ro_key <$> routes) !! i = Some (rw_key r)) as H3 by (by rewrite Hk, list_lookup_fmap, Hj).
  rewrite list_lookup_fmap, Hro in H3. by injection H3.
Qed.

Lemma aligned_route routes t id k : ro_id <$> routes = rw_id <$> tb_proxies t -> ro_key <$> routes = rw_key <$> tb_proxies t ->
  server t id k -> exists i ro, routes !! i = Some ro /\ ro_id ro = id /\ ro_key ro = k.
Proof.
  intros Hi Hk (r & Hr & <- & <-). apply list_elem_of_lookup in Hr as [j Hj].
  assert ((ro_id <$> routes) !! j = Some (rw_id r)) as H1 by (by rewrite Hi, list_lookup_fmap, Hj).
  assert ((ro_key <$> routes) !! j = Some (rw_key r)) as H2 by (by rewrite Hk, list_lookup_fmap, Hj).
  rewrite list_lookup_fmap in H1. rewrite list_lookup_fmap in H2. destruct (routes !! j) as [ro|] eqn:E; [|done]. injection H1 as H1. injection H2 as H2. by exists j, ro.
Qed.

(** C18. The pool that [Open] hands out is well formed, and no identity changes
    its server.  When the tables have unique keys, numbers and identifiers,
    they still do; the pool satisfies what the theorems on exclusive leases and
    on checkpoints ask of a pool just opened; there is a route, routes have
    distinct keys, and each can be connected; every configured address has a
    route with its key, and every route that was ever stored keeps its number
    and its key, configured now or not; the identities are exactly those of the
    rows that are no unused placeholders, each with a validated session,
    registered when its session is, in the slot of its row and on the route
    that had its row's server before. *)
Theorem open_sound cfg configured connected owned addresses callers t routes p t' :
  Open cfg configured connected owned addresses callers t = Ok (routes, p, t') -> tables_ok t ->
  tables_ok t' /\ opened p /\ loaded p /\ po_ready p = true /\
  (routes <> [] /\ length (po_proxies p) = length routes /\ NoDup (ro_key <$> routes) /\ forall ro, ro ∈ routes -> transport (ro_address ro) = None) /\
  (forall a, a ∈ addresses -> exists k address, Endpoint a = Ok (k, address) /\ k ∈ ro_key <$> routes) /\
  (forall id k, server t id k -> exists i ro, routes !! i = Some ro /\ ro_id ro = id /\ ro_key ro = k) /\
  (forall r, r ∈ kept_rows t -> exists e, po_entries p !! rw_uuid r = Some e /\ from_row routes r e) /\
  (forall id e, po_entries p !! id = Some e -> exists r, r ∈ kept_rows t /\ rw_uuid r = id /\ from_row routes r e /\
     forall k, server t (rw_proxy r) k -> exists ro, routes !! en_proxy e = Some ro /\ ro_key ro = k).
Proof.
  intros H Ht. unfold PoolOpen.Open in H. res_inv. destruct x as [[[routes' proxies] entries] t1].
  apply initialize_spec in H as (I1 & I2 & I3 & I4 & I5 & I6 & I7 & I8 & I9 & I10 & I11 & I12); [|done].
  destruct (if ProxyDataOnly cfg then _ else _); [done|]. injection H0 as <- <- <-. cbn [po_proxies po_entries po_ready].
  split; [done|]. split; [|split; [|split; [done|split; [|split; [|split; [|split; [done|]]]]]]].
  - split; cbn; try done.
    + by intros i ph [-> _]%lookup_replicate.
    + intros id e (r & _ & _ & F)%I12. split; apply (fr_state _ _ _ F).
    + destruct (Z.ltb_spec (MaxQueuedRequests cfg) 1); lia.
  - split; try done. intros id c Hc. cbn in Hc. unfold stored_rows in Hc. rewrite lookup_fmap in Hc.
    destruct (entries !! id); [|done]. by injection Hc as <-.
  - split; [done|]. split; [done|]. split; [|done]. rewrite I5. apply (tk_keys _ I1).
  - intros a (k & address & id & E & Hs)%I9. exists k, address. split; [done|].
    destruct (aligned_route _ _ _ _ I4 I5 Hs) as (i & ro & Hro & _ & <-). apply list_elem_of_fmap_2. by eapply list_elem_of_lookup_2.
  - intros id k Hs. apply I8 in Hs. by apply (aligned_route _ _ _ _ I4 I5).
  - intros id e (r & Hr & Hu & F)%I12. exists r. split; [done|]. split; [done|]. split; [done|]. intros k Hs.
    destruct (fr_route _ _ _ F) as (ro & Hro & Hid). exists ro. split; [done|]. apply I8 in Hs. by eapply aligned_key.
Qed.
End Loading.

(** The file lists one server and the host goes without one; the database knows
    the server under another address, with an identity, and an unused one. *)
Definition demo_parse (s : string) : option URL := Some (mkURL "http" "Proxy:80" "" "" s).
Definition demo_row (uuid session : string) (ordinal : Z) : identity_row := mkIdentityRow uuid 3 ordinal session 0 false "{}".
Definition demo_tables : tables :=
  mkTables [mkProxyRow 3 "proxy:80" (Some "http://old@proxy") "{}"] 5 [demo_row "a" "used" 0; demo_row "b" "unused" 1]%string.
Definition demo_open : res goerr (list route * Pool * tables) :=
  Open demo_parse (fun _ => ""%string) ur_Rest lower_text (fun _ => Some no_health) (fun _ => Some (Some demo_session)) (fun _ => true) (fun _ => 0)
    (fun _ => None) (fun s => s) (String.eqb "unused") (fun _ => None) DefaultConfig true true (Ok true) ["Proxy:80"; ""]%string 1 demo_tables.

Lemma open_sound_witness : exists routes p t', demo_open = Ok (routes, p, t') /\
  (fun r => (ro_id r, ro_key r)) <$> routes = [(3, "proxy:80"); (7, "direct")]%string /\ opened p /\ loaded p /\
  (exists e, po_entries p !! "a"%string = Some e /\ en_proxy e = 0%nat) /\ po_entries p !! "b"%string = None.
Proof.
  destruct demo_open as [[[routes p] t']|e] eqn:E; [|by vm_compute in E]. exists routes, p, t'. split; [done|].
  edestruct open_sound as (_ & H1 & H2 & _); [exact E| |].
  - split.
    + apply NoDup_singleton.
    + apply NoDup_singleton.
    + intros r ->%list_elem_of_singleton. cbn. lia.
    + apply NoDup_cons. split; [|apply NoDup_singleton]. by intros [= ]%list_elem_of_singleton.
  - split; [|split; [exact H1|split; [exact H2|]]]; vm_compute in E; injection E as <- <- <-; [done|]. split; [|done]. eexists. split; [vm_compute; reflexivity|done].
Defined.
