(* ===== verification/Preparation.v ===== *)
(** * identity: preparation of the pool

    Models src/internal/identity/preparation.go and the status record of
    src/internal/core/preparation.go.  A run interleaves the critical sections
    and the waits of the preparation's workers, one for each route of a job,
    with the steps of the pool (Pool) that anybody else takes.  A worker asks
    for its identity as one of the pool's callers.  The clock never goes back;
    the outcome of a registration, new sessions and identifiers are inputs. *)
From S2P Require Import Prelude Strconv Errors Pool PoolLease PoolStore AppSession PoolOpen.
From stdpp Require Import gmap strings.
Open Scope Z_scope.
Open Scope go_scope.

Definition preparationInterval : Z := 10 * Second.

Record IdentityPreparation := mkPreparation {
  ip_State : string; ip_Proxies : Z; ip_Target : Z; ip_Ready : Z; ip_Failed : Z; ip_StartedAt : option Z; ip_FinishedAt : option Z;
}.

(** Where the worker of a route is: [prepareSlot] from its first section to its
    end, for one slot and one of its attempts.  [WCool] is the loop that waits
    for a cooldown: before it is read, and until when it lasts. *)
Inductive worker :=
| WSlot (ordinal attempt : nat)
| WPace (ordinal attempt : nat) (id : string)
| WCool (ordinal attempt : nat) (id : string) (deadline : Z) (until : option Z)
| WAcquire (ordinal attempt : nat) (id : string) (deadline : Z) (caller : nat)
| WRegister (ordinal attempt : nat) (id : string) (caller : nat) (began : Z)
| WRecover (ordinal attempt : nat) (id : string) (caller : nat) (began : Z) (err : goerr)
| WFinish (ordinal attempt : nat) (id : string) (caller : nat) (began : Z) (err : option goerr)
| WDone.

Record preparationRun := mkRun { pn_status : IdentityPreparation; pn_workers : list worker; pn_done : bool }.

(** A registration that was made: by which job, for which slot, from when to when. *)
Record registration := mkRegistration { rg_job : nat; rg_route : nat; rg_ordinal : nat; rg_began : Z; rg_ended : Z }.

(** The pool's preparations, the last one being [p.preparation]; the pacers'
    clocks; and, for the theorems, the registrations so far. *)
Record world := mkWorld {
  wd_pool : Pool; wd_runs : list preparationRun; wd_next : list Z; wd_now : Z; wd_log : list registration;
}.
Definition with_pool (p : Pool) (w : world) : world := mkWorld p (wd_runs w) (wd_next w) (wd_now w) (wd_log w).
Definition with_next (i : nat) (t : Z) (w : world) : world := mkWorld (wd_pool w) (wd_runs w) (<[i := t]> (wd_next w)) (wd_now w) (wd_log w).
Definition set_worker (k i : nat) (ph : worker) (w : world) : world :=
  mkWorld (wd_pool w) (alter (fun r => mkRun (pn_status r) (<[i := ph]> (pn_workers r)) (pn_done r)) k (wd_runs w)) (wd_next w) (wd_now w) (wd_log w).
Definition record_registration (r : registration) (w : world) : world :=
  mkWorld (wd_pool w) (wd_runs w) (wd_next w) (wd_now w) (wd_log w ++ [r]).

(** [p.lifetime]: [Close] and the loss of the ownership end it. *)
Definition lifetime (p : Pool) : option goerr := if po_closing p || po_failure p then Some ErrCanceled else None.

(** [waitUntil]: [None] while it waits, then what it returns. *)
Definition waitUntil (ctxErr : option goerr) (now until : Z) : option (option goerr) :=
  match ctxErr with
  | Some e => Some (Some e)
  | None => if until <=? now then Some None else None
  end.

(** ** The status of a preparation *)

Definition preparationStatusLocked (p : Pool) (preparation : option preparationRun) : IdentityPreparation :=
  let s := match preparation with Some r => pn_status r | None => mkPreparation "idle" 0 0 0 0 None None end in
  mkPreparation (ip_State s) (len (po_proxies p)) (len (po_proxies p) * 10) (ip_Ready s + count_entries en_registered p) (ip_Failed s)
    (ip_StartedAt s) (ip_FinishedAt s).
Definition PreparationStatus (w : world) : IdentityPreparation := preparationStatusLocked (wd_pool w) (last (wd_runs w)).

Definition StartPreparation (now : Z) (w : world) : res goerr IdentityPreparation * world :=
  if negb (po_ready (wd_pool w)) || po_closing (wd_pool w) then (Err (unavailable "The identity pool is unavailable."), w)
  else
    let status := PreparationStatus w in
    if String.eqb (ip_State status) "running" || String.eqb (ip_State status) "completed" && (ip_Ready status =? ip_Target status)
    then (Ok status, w)
    else
      let job := mkRun (mkPreparation "running" 0 0 0 0 (Some now) None) (replicate (length (po_proxies (wd_pool w))) (WSlot 0 0)) false in
      let w := mkWorld (wd_pool w) (wd_runs w ++ [job]) (wd_next w) (wd_now w) (wd_log w) in
      (Ok (PreparationStatus w), w).

(** [Prepare], once [StartPreparation] has named job [k]: [None] while it waits,
    then what it returns. *)
Definition Prepare (ctxErr : option goerr) (k : nat) (w : world) : option (option goerr) :=
  match ctxErr, wd_runs w !! k with
  | Some e, _ => Some (Some e)
  | None, Some job =>
      if negb (pn_done job) then None
      else
        let status := PreparationStatus w in
        if negb (String.eqb (ip_State status) "completed") || negb (ip_Ready status =? ip_Target status)
        then Some (Some (ErrOther "identity preparation failed; saved progress will be reused on retry")) else Some None
  | None, None => None
  end.

(** ** The loops of [prepareIdentities] *)

Definition next_slot (o : nat) : worker := if (S o <? 10)%nat then WSlot (S o) 0 else WDone.
(** [prepareSlot] has returned: what the worker does next. *)
Definition after_slot (p : Pool) (o a : nat) (err : option goerr) : worker :=
  match err with
  | None => next_slot o
  | Some _ =>
      match lifetime p with
      | Some _ => WDone
      | None => if (S a <? 3)%nat then WSlot o (S a) else next_slot o
      end
  end.

(** The last lines of the job, when every worker has ended. *)
Definition finish_job (now : Z) (w : world) (job : preparationRun) : preparationRun :=
  let p := wd_pool w in
  let status := PreparationStatus w in
  let failed := ip_Target status - ip_Ready status in
  let state := if (0 <? failed) || negb (po_ready p) || po_closing p then "failed" else "completed" in
  let s := pn_status job in
  mkRun (mkPreparation state (ip_Proxies s) (ip_Target s) (ip_Ready s) failed (ip_StartedAt s) (Some now)) (pn_workers job) true.

(** ** The sections and waits of [prepareSlot], for job [k] and route [i] *)

(** The first section: the slot's identity, made when there is none. *)
Definition open_slot (k i o a : nat) (fresh : res goerr (string * session)) (w : world) : world :=
  let p := wd_pool w in
  if (a =? 0)%nat && bool_decide (is_Some (lifetime p)) then set_worker k i WDone w
  else if negb (po_ready p) || po_closing p then set_worker k i (after_slot p o a (Some ErrCanceled)) w
  else
    match po_proxies p !! i ≫= fun x => px_slots x !! o with
    | Some (Some id) =>
        match po_entries p !! id with
        | Some e => set_worker k i (if en_registered e then after_slot p o a None else WPace o a id) w
        | None => w
        end
    | Some None =>
        match fresh with
        | Err e => set_worker k i (after_slot p o a (Some e)) w
        | Ok (eid, _) =>
            (* a random identifier names no entry *)
            if known fresh p then w else set_worker k i (WPace o a eid) (with_pool (prepare_slot i o fresh p) w)
        end
    | None => w
    end.

Section Steps.
Context (preparationDelay preparationTimeout : Z).

(** [prepareSlot] returns after the pacer: its deferred function runs. *)
Definition return_slot (k i o a : nat) (now : Z) (err : option goerr) (w : world) : world :=
  set_worker k i (after_slot (wd_pool w) o a err) (with_next i (now + preparationDelay) w).

Definition pace (k i o a : nat) (id : string) (now : Z) (w : world) : world :=
  match wd_next w !! i with
  | Some next =>
      match waitUntil (lifetime (wd_pool w)) now next with
      | None => w
      | Some (Some e) => set_worker k i (after_slot (wd_pool w) o a (Some e)) w
      | Some None => set_worker k i (WCool o a id (now + preparationTimeout) None) (with_next i (now + preparationDelay) w)
      end
  | None => w
  end.

Definition read_cooldown (k i o a : nat) (id : string) (deadline : Z) (w : world) : world :=
  match po_entries (wd_pool w) !! id with
  | Some e =>
      let cooldown := Z.max (h_CooldownUntil (en_health e)) (h_CooldownUntil (proxy_health (wd_pool w) i)) in
      set_worker k i (WCool o a id deadline (Some (cooldown * 1000000))) w
  | None => w
  end.

(** [expired] is whether the timeout has fired, which it does at its deadline or
    later; the caller of [acquire] is one that has not been used. *)
Definition cool (k i o a : nat) (id : string) (deadline until : Z) (now : Z) (expired : bool) (caller : nat) (w : world) : world :=
  if expired && (now <? deadline) then w
  else
    let ctxErr := match lifetime (wd_pool w) with Some e => Some e | None => if expired then Some ErrDeadline else None end in
    match waitUntil ctxErr now until with
    | None => w
    | Some (Some e) => return_slot k i o a now (Some e) w
    | Some None =>
        match po_callers (wd_pool w) !! caller with
        | Some Outside => set_worker k i (WAcquire o a id deadline caller) (with_pool (Pool.step (Enter caller id) (wd_pool w)) w)
        | _ => w
        end
    end.

Definition acquired (k i o a : nat) (id : string) (deadline : Z) (caller : nat) (now : Z) (w : world) : world :=
  match po_callers (wd_pool w) !! caller with
  | Some (Holding _ _) => set_worker k i (WRegister o a id caller now) w
  | Some (Returned (Err e)) =>
      (* a concurrent request may extend the cooldown while we wait *)
      match as_core e with
      | Some api => if String.eqb (Code api) "upstream_rate_limited" then set_worker k i (WCool o a id deadline None) w
                    else return_slot k i o a now (Some e) w
      | None => return_slot k i o a now (Some e) w
      end
  | _ => w
  end.

(** [client.Register] has returned, with the session it leaves. *)
Definition registered (k i o a : nat) (id : string) (caller : nat) (began : Z) (err : option goerr) (s : session) (w : world) : world :=
  match err with
  | None => if ss_registered s then set_worker k i (WFinish o a id caller began None) (with_pool (Pool.step (UseSession caller s) (wd_pool w)) w) else w
  | Some e => set_worker k i (WRecover o a id caller began e) (with_pool (Pool.step (UseSession caller s) (wd_pool w)) w)
  end.

Definition recovered (k i o a : nat) (id : string) (caller : nat) (began : Z) (e : goerr) (now : Z) (ctxErr : option goerr) (fresh : option session)
    (allowed : bool) (w : world) : world :=
  set_worker k i (WFinish o a id caller began (Some e)) (with_pool (Pool.step (Recover caller now ctxErr e fresh allowed) (wd_pool w)) w).

Definition finished (k i o a : nat) (caller : nat) (began : Z) (err : option goerr) (now : Z) (cancelled encoded : bool) (w : world) : world :=
  return_slot k i o a now err (record_registration (mkRegistration k i o began now)
    (with_pool (Pool.step (Finish caller now err cancelled encoded) (wd_pool w)) w)).

(** ** Runs *)

(** What happens to a worker. *)
Inductive event :=
| Opened (fresh : res goerr (string * session))
| Paced
| CooldownRead
| Cooled (expired : bool) (caller : nat)
| Acquired
| Registered (err : option goerr) (s : session)
| Recovered (ctxErr : option goerr) (fresh : option session) (allowed : bool)
| Finished (cancelled encoded : bool).

Definition worker_step (k i : nat) (ev : event) (now : Z) (w : world) : world :=
  match wd_runs w !! k ≫= (fun r => pn_workers r !! i), ev with
  | Some (WSlot o a), Opened fresh => open_slot k i o a fresh w
  | Some (WPace o a id), Paced => pace k i o a id now w
  | Some (WCool o a id deadline None), CooldownRead => read_cooldown k i o a id deadline w
  | Some (WCool o a id deadline (Some until)), Cooled expired caller => cool k i o a id deadline until now expired caller w
  | Some (WAcquire o a id deadline c), Acquired => acquired k i o a id deadline c now w
  | Some (WRegister o a id c began), Registered err s => registered k i o a id c began err s w
  | Some (WRecover o a id c began e), Recovered ctxErr fresh allowed => recovered k i o a id c began e now ctxErr fresh allowed w
  | Some (WFinish o a id c began err), Finished cancelled encoded => finished k i o a c began err now cancelled encoded w
  | _, _ => w
  end.

(** The caller a worker has in the pool. *)
Definition bound (c : nat) (ph : worker) : bool :=
  match ph with
  | WAcquire _ _ _ _ c' | WRegister _ _ _ c' _ | WRecover _ _ _ c' _ _ | WFinish _ _ _ c' _ _ => (c =? c')%nat
  | _ => false
  end.
Definition prepares (w : world) (c : nat) : bool := existsb (fun r => existsb (bound c) (pn_workers r)) (wd_runs w).

(** Others do not use the leases of the preparation. *)
Definition foreign (w : world) (a : Pool.action) : bool :=
  match a with
  | Recover c _ _ _ _ _ | UseSession c _ | Finish c _ _ _ _ => negb (prepares w c)
  | _ => true
  end.

Inductive action :=
| Start
| Worker (k i : nat) (ev : event)
| Complete (k : nat)
| Others (a : Pool.action).

Definition act (now : Z) (a : action) (w : world) : world :=
  match a with
  | Start => (StartPreparation now w).2
  | Worker k i ev => worker_step k i ev now w
  | Complete k =>
      match wd_runs w !! k with
      | Some job =>
          if negb (pn_done job) && forallb (fun ph => match ph with WDone => true | _ => false end) (pn_workers job)
          then mkWorld (wd_pool w) (<[k := finish_job now w job]> (wd_runs w)) (wd_next w) (wd_now w) (wd_log w) else w
      | None => w
      end
  | Others a => if foreign w a then with_pool (Pool.step a (wd_pool w)) w else w
  end.

(** A step at a time that is not earlier than the last one. *)
Definition step (ta : Z * action) (w : world) : world :=
  if ta.1 <? wd_now w then w
  else act ta.1 ta.2 (mkWorld (wd_pool w) (wd_runs w) (wd_next w) ta.1 (wd_log w)).
Definition run (l : list (Z * action)) (w : world) : world := fold_left (fun w ta => step ta w) l w.
End Steps.

(** ** How many slots are registered *)

Definition all_registered (p : Pool) : Prop :=
  forall i x o, po_proxies p !! i = Some x -> (o < 10)%nat ->
    exists id e, px_slots x !! o = Some (Some id) /\ po_entries p !! id = Some e /\ en_registered e = true.

Lemma tally_filter {A} (f : A -> bool) l : tally f l = Z.of_nat (length (List.filter f l)).
Proof. induction l as [|x l IH]; [done|]. cbn. rewrite IH. destruct (f x); cbn; lia. Qed.

Lemma NoDup_list_prod {A B} (l : list A) (l' : list B) : NoDup l -> NoDup l' -> NoDup (list_prod l l').
Proof.
  intros Hl Hl'. induction Hl as [|a l Ha Hl IH]; [constructor|]. cbn. apply NoDup_app. split; [|split; [|done]].
  - by apply (NoDup_fmap_2 (pair a)).
  - intros [x y] (z & [= -> ->] & _)%list_elem_of_fmap Hp%list_elem_of_In. apply in_prod_iff in Hp as [Hp _]. by apply Ha, list_elem_of_In.
Qed.

Section Count.
Context (p : Pool) (Hp : pool_placed p).

Definition registered_places : list (nat * nat) :=
  (fun ke : string * entry => (en_proxy ke.2, en_ordinal ke.2)) <$> List.filter (fun ke => en_registered ke.2) (map_to_list (po_entries p)).
Definition all_places : list (nat * nat) := list_prod (seq 0 (length (po_proxies p))) (seq 0 10).

Lemma elem_of_registered_places i o : (i, o) ∈ registered_places <->
  exists id e, po_entries p !! id = Some e /\ en_registered e = true /\ en_proxy e = i /\ en_ordinal e = o.
Proof.
  unfold registered_places. rewrite list_elem_of_fmap. split.
  - intros ([id e] & [= -> ->] & H). apply list_elem_of_In, filter_In in H as [H Hr]. apply list_elem_of_In, elem_of_map_to_list in H. eauto 10.
  - intros (id & e & He & Hr & <- & <-). exists (id, e). split; [done|]. apply list_elem_of_In, filter_In. split; [|done].
    by apply list_elem_of_In, elem_of_map_to_list.
Qed.

(** The slot that names an identity is the one the identity names. *)
Lemma place_of id e : po_entries p !! id = Some e ->
  exists x, po_proxies p !! en_proxy e = Some x /\ px_slots x !! en_ordinal e = Some (Some id).
Proof.
  intros He. destruct Hp as (_ & _ & P3). destruct (P3 id (en_proxy e) (en_ordinal e)) as (l & Hl & Hs).
  { unfold shape. by rewrite lookup_fmap, He. }
  rewrite list_lookup_fmap in Hl. destruct (po_proxies p !! en_proxy e) as [x|]; [|done]. injection Hl as <-. by exists x.
Qed.

Lemma slot_length i x : po_proxies p !! i = Some x -> length (px_slots x) = 10%nat.
Proof. intros Hx. apply (proj1 Hp i). by rewrite list_lookup_fmap, Hx. Qed.

Lemma registered_places_NoDup : NoDup registered_places.
Proof.
  unfold registered_places. apply NoDup_fmap_filter, NoDup_fmap_2_strong; [|apply NoDup_map_to_list].
  intros [id e] [id' e'] H%elem_of_map_to_list H'%elem_of_map_to_list [= E1 E2].
  destruct (place_of _ _ H) as (x & Hx & Hs). destruct (place_of _ _ H') as (x' & Hx' & Hs').
  rewrite E1 in Hx. rewrite Hx in Hx'. injection Hx' as <-. rewrite E2, Hs' in Hs. injection Hs as ->. rewrite H in H'. by injection H' as ->.
Qed.

Lemma registered_places_all : registered_places ⊆ all_places.
Proof.
  intros [i o] (id & e & He & _ & <- & <-)%elem_of_registered_places. destruct (place_of _ _ He) as (x & Hx & Hs).
  apply list_elem_of_In, in_prod; apply in_seq; [apply lookup_lt_Some in Hx; lia|]. apply lookup_lt_Some in Hs. rewrite (slot_length _ _ Hx) in Hs. lia.
Qed.

Lemma all_places_length : length all_places = (10 * length (po_proxies p))%nat.
Proof. unfold all_places. rewrite length_prod, !length_seq. lia. Qed.

Lemma count_registered : count_entries en_registered p = Z.of_nat (length registered_places).
Proof. unfold count_entries, registered_places. by rewrite length_fmap, tally_filter. Qed.

Lemma places_covered : all_registered p <-> all_places ⊆ registered_places.
Proof.
  split.
  - intros H [i o] Hio. apply list_elem_of_In, in_prod_iff in Hio as [Hi Ho]. apply in_seq in Hi. apply in_seq in Ho.
    destruct (lookup_lt_is_Some_2 (po_proxies p) i) as [x Hx]; [lia|]. destruct (H i x o Hx) as (id & e & Hs & He & Hr); [lia|].
    apply elem_of_registered_places. exists id, e. split; [done|]. split; [done|].
    pose proof (proj1 (proj2 Hp) i (px_slots x) o id) as P2. rewrite list_lookup_fmap, Hx in P2. specialize (P2 eq_refl Hs).
    unfold shape in P2. rewrite lookup_fmap, He in P2. by injection P2.
  - intros H i x o Hx Ho. assert ((i, o) ∈ registered_places) as (id & e & He & Hr & <- & <-)%elem_of_registered_places.
    { apply H. apply list_elem_of_In, in_prod; apply in_seq; [apply lookup_lt_Some in Hx; lia|lia]. }
    destruct (place_of _ _ He) as (x' & Hx' & Hs). rewrite Hx in Hx'. injection Hx' as <-. by exists id, e.
Qed.

(** Every slot is registered exactly when as many identities are. *)
Lemma registered_spec : count_entries en_registered p <= len (po_proxies p) * 10 /\
  (count_entries en_registered p = len (po_proxies p) * 10 <-> all_registered p).
Proof.
  pose proof (NoDup_submseteq _ _ registered_places_NoDup registered_places_all) as Hsub.
  pose proof (submseteq_length _ _ Hsub) as Hle. rewrite all_places_length in Hle.
  rewrite count_registered. unfold len. split; [lia|]. rewrite places_covered. split.
  - intros He. assert (length all_places <= length registered_places)%nat as Hl by (rewrite all_places_length; lia).
    pose proof (submseteq_length_Permutation _ _ Hsub Hl) as HP. intros y Hy. by rewrite HP.
  - intros Hc. assert (NoDup all_places) as Hn.
    { unfold all_places. apply NoDup_list_prod; apply NoDup_seq. }
    pose proof (submseteq_length _ _ (NoDup_submseteq _ _ Hn Hc)) as Hl. rewrite all_places_length in Hl. lia.
Qed.
End Count.

(** ** The invariant of a run *)

Definition worker_at (w : world) (k i : nat) : option worker := wd_runs w !! k ≫= fun r => pn_workers r !! i.

(** When the gap before a registration has passed: the registration's begin, or
    now for a worker that has not begun it. *)
Definition since (now : Z) (ph : worker) : option Z :=
  match ph with
  | WCool _ _ _ _ _ | WAcquire _ _ _ _ _ => Some now
  | WRegister _ _ _ _ began | WRecover _ _ _ _ began _ | WFinish _ _ _ _ began _ => Some began
  | _ => None
  end.
Definition attempt_of (ph : worker) : option (nat * nat) :=
  match ph with
  | WSlot o a | WPace o a _ | WCool o a _ _ _ | WAcquire o a _ _ _ | WRegister o a _ _ _ | WRecover o a _ _ _ _ | WFinish o a _ _ _ _ => Some (o, a)
  | WDone => None
  end.

Definition registers (k i o : nat) (x : registration) : bool := ((rg_job x =? k) && (rg_route x =? i) && (rg_ordinal x =? o))%nat.
Definition registrations (w : world) (k i o : nat) : Z := tally (registers k i o) (wd_log w).

Record job_ok (w : world) (k : nat) (r : preparationRun) : Prop := {
  jo_running : pn_done r = false -> ip_State (pn_status r) = "running"%string /\ S k = length (wd_runs w);
  jo_over : pn_done r = true -> ip_State (pn_status r) <> "running"%string /\ Forall (eq WDone) (pn_workers r);
  jo_ready : ip_Ready (pn_status r) = 0;
}.

Lemma done_or (ph : worker) : ph = WDone \/ ph <> WDone.
Proof. destruct ph; (by left) || by right. Qed.

Lemma registrations_record w r k i o : registrations (record_registration r w) k i o = registrations w k i o + b2z (registers k i o r).
Proof. unfold registrations. cbn [record_registration wd_log]. rewrite tally_app. cbn. lia. Qed.

Lemma registers_other k i o k' i' o' b e : (k, i, o) <> (k', i', o') -> registers k i o (mkRegistration k' i' o' b e) = false.
Proof.
  intros H. unfold registers. cbn. destruct (Nat.eqb_spec k' k) as [->|]; [|done]. destruct (Nat.eqb_spec i' i) as [->|]; [|done].
  destruct (Nat.eqb_spec o' o) as [->|]; done.
Qed.

Section Invariant.
Context (preparationDelay preparationTimeout : Z).

Definition spaced (x y : registration) : Prop := rg_route x = rg_route y -> rg_ended x + preparationDelay <= rg_began y.

Record worker_ok (w : world) (k i : nat) (ph : worker) : Prop := {
  wk_since t : since (wd_now w) ph = Some t -> t <= wd_now w /\ forall x, x ∈ wd_log w -> rg_route x = i -> rg_ended x + preparationDelay <= t;
  wk_attempt o a : attempt_of ph = Some (o, a) -> (o < 10)%nat /\ (a < 3)%nat /\ registrations w k i o <= Z.of_nat a /\
    forall o', (o < o')%nat -> registrations w k i o' = 0;
}.

(** [P k i] says which workers the invariant speaks of. *)
Record world_ok (P : nat -> nat -> Prop) (w : world) : Prop := {
  wo_jobs k r : wd_runs w !! k = Some r -> job_ok w k r;
  wo_log x : x ∈ wd_log w -> rg_began x <= rg_ended x <= wd_now w /\ (rg_job x < length (wd_runs w))%nat;
  wo_next i t x : wd_next w !! i = Some t -> x ∈ wd_log w -> rg_route x = i -> rg_ended x + preparationDelay <= t;
  wo_worker k i ph : P k i -> worker_at w k i = Some ph -> worker_ok w k i ph;
  wo_spaced a b x y : (a < b)%nat -> wd_log w !! a = Some x -> wd_log w !! b = Some y -> spaced x y;
  wo_count k i o : registrations w k i o <= 3;
}.
Definition every (k i : nat) : Prop := True.
Definition but (k i k' i' : nat) : Prop := (k', i') <> (k, i).

Lemma since_le now t ph : since now ph = Some t -> since now ph = Some now \/ forall now', since now' ph = Some t.
Proof. destruct ph; cbn; try done; intros [= <-]; auto. Qed.

Lemma ok_now now w : wd_now w <= now -> world_ok every w -> world_ok every (mkWorld (wd_pool w) (wd_runs w) (wd_next w) now (wd_log w)).
Proof.
  intros Hn [H1 H2 H3 H4 H5 H6]. split; cbn [wd_runs wd_log wd_next wd_now]; try done.
  - intros k r Hr. destruct (H1 k r Hr). by split.
  - intros x Hx. destruct (H2 x Hx). split; [lia|done].
  - intros k i ph HP Hph. destruct (H4 k i ph HP Hph) as [W1 W2]. split; [|done]. cbn [wd_now wd_log]. intros t Ht.
    destruct (since (wd_now w) ph) as [t0|] eqn:E0; [|destruct ph; done]. destruct (W1 t0 eq_refl) as [Hle Hx].
    assert (t0 <= t /\ t <= now) as [? ?]; [|split; [done|]; intros x Hxl Hr; specialize (Hx x Hxl Hr); lia].
    destruct ph; cbn in Ht, E0; try done; injection Ht as <-; injection E0 as <-; lia.
Qed.

Lemma ok_pool P p w : world_ok P w -> world_ok P (with_pool p w).
Proof. intros [H1 H2 H3 H4 H5 H6]. split; try done; [intros k r Hr; by destruct (H1 k r Hr)|intros k i ph HP Hph; by destruct (H4 k i ph HP Hph)]. Qed.

Lemma ok_next P i now t w : wd_now w = now -> t = now + preparationDelay -> world_ok P w -> world_ok P (with_next i t w).
Proof.
  intros <- -> [H1 H2 H3 H4 H5 H6]. split; try done.
  - intros k r Hr. by destruct (H1 k r Hr).
  - cbn [wd_next wd_log with_next]. intros j t x Ht Hx Hr. destruct (decide (i = j)) as [<-|Hne].
    + apply list_lookup_insert_Some in Ht as [(_ & <- & _)|[? _]]; [|done]. destruct (H2 _ Hx). lia.
    + rewrite list_lookup_insert_ne in Ht by done. by eapply H3.
  - intros k j ph HP Hph. by destruct (H4 k j ph HP Hph).
Qed.

Lemma worker_at_set k i ph w k' i' old : worker_at w k i = Some old ->
  worker_at (set_worker k i ph w) k' i' = if decide ((k', i') = (k, i)) then Some ph else worker_at w k' i'.
Proof.
  unfold worker_at, set_worker. cbn [wd_runs]. intros H. rewrite list_lookup_alter. destruct (wd_runs w !! k) as [r|] eqn:Er; [|done]. cbn in H.
  destruct (decide (k = k')) as [<-|Hk]; [|rewrite decide_False by congruence; done].
  rewrite Er. cbn. destruct (decide (i = i')) as [<-|Hi].
  - rewrite decide_True by done. apply list_lookup_insert_eq. by eapply lookup_lt_Some.
  - rewrite decide_False by congruence. by apply list_lookup_insert_ne.
Qed.

(** A worker at work is one of a job that is not done, which is the last. *)
Lemma at_work w k i ph P : world_ok P w -> worker_at w k i = Some ph -> ph <> WDone ->
  exists r, wd_runs w !! k = Some r /\ pn_workers r !! i = Some ph /\ pn_done r = false /\ S k = length (wd_runs w).
Proof.
  intros H Hph Hne. unfold worker_at in Hph. destruct (wd_runs w !! k) as [r|] eqn:Er; [|done]. cbn in Hph. exists r. split; [done|]. split; [done|].
  destruct (wo_jobs _ _ H k r Er) as [J1 J2 _]. destruct (pn_done r) eqn:Ed; [|split; [done|by apply J1]].
  destruct (J2 eq_refl) as [_ Hf]. rewrite Forall_lookup in Hf. by rewrite (Hf _ _ Hph) in Hne.
Qed.

Lemma one_worker w k k' i ph ph' P : world_ok P w -> worker_at w k i = Some ph -> worker_at w k' i = Some ph' -> ph <> WDone -> ph' <> WDone -> k = k'.
Proof.
  intros H H1 H2 N1 N2. destruct (at_work _ _ _ _ _ H H1 N1) as (_ & _ & _ & _ & E1). destruct (at_work _ _ _ _ _ H H2 N2) as (_ & _ & _ & _ & E2). lia.
Qed.

Lemma ok_set k i ph old w : world_ok (but k i) w -> worker_at w k i = Some old -> old <> WDone -> worker_ok w k i ph -> world_ok every (set_worker k i ph w).
Proof.
  intros H Hold Hne Hph. destruct (at_work _ _ _ _ _ H Hold Hne) as (r & Hr & Hw & Hd & Hk).
  pose proof H as [H1 H2 H3 H4 H5 H6]. split; try done.
  - cbn [wd_runs set_worker]. intros k' r' Hr'. rewrite list_lookup_alter in Hr'. destruct (decide (k = k')) as [<-|Hkk].
    + rewrite Hr in Hr'. injection Hr' as <-. destruct (H1 k r Hr) as [J1 J2 J3]. split; cbn; rewrite ?length_alter; [done| |done]. intros He. by rewrite Hd in He.
    + destruct (H1 k' r' Hr') as [J1 J2 J3]. split; cbn; rewrite ?length_alter; done.
  - cbn [wd_log wd_now wd_runs set_worker]. rewrite length_alter. done.
  - intros k' i' ph' _ H'. rewrite (worker_at_set _ _ _ _ _ _ _ Hold) in H'. destruct (decide _) as [[= -> ->]|Hdec].
    + injection H' as <-. by destruct Hph.
    + by destruct (H4 k' i' ph' Hdec H').
Qed.

Lemma ok_weaken P w : world_ok every w -> world_ok P w.
Proof. intros [H1 H2 H3 H4 H5 H6]. split; try done. intros k i ph _. by apply H4. Qed.

(** Moving a worker between two places of the same attempt. *)
Lemma ok_stay k i old ph w : world_ok every w -> worker_at w k i = Some old -> attempt_of old <> None -> attempt_of ph = attempt_of old ->
  (forall t, since (wd_now w) ph = Some t -> since (wd_now w) old = Some t) -> world_ok every (set_worker k i ph w).
Proof.
  intros H Hold Ha He Hs. apply (ok_set _ _ _ old); [by apply ok_weaken|done|by intros ->|].
  destruct (wo_worker _ _ H k i old I Hold) as [W1 W2]. split; [by intros t Ht%Hs; apply W1|]. intros o a. rewrite He. apply W2.
Qed.

(** After a slot. *)
Lemma after_slot_ok k i o a err w p : (o < 10)%nat -> (a < 3)%nat -> registrations w k i o <= Z.of_nat (S a) ->
  (forall o', (o < o')%nat -> registrations w k i o' = 0) -> worker_ok w k i (after_slot p o a err).
Proof.
  intros Ho Ha Hc Hz. assert (worker_ok w k i (next_slot o)) as Hn.
  { unfold next_slot. destruct (Nat.ltb_spec (S o) 10); split; try done. intros o' a' [= <- <-]. split; [done|]. split; [lia|].
    split; [rewrite Hz by lia; lia|]. intros o' Ho'. apply Hz. lia. }
  unfold after_slot. destruct err; [|done]. destruct (lifetime p); [by split|]. destruct (Nat.ltb_spec (S a) 3); [|done].
  split; [done|]. intros o' a' [= <- <-]. done.
Qed.

Lemma ok_leave k i o a old err p w : world_ok every w -> worker_at w k i = Some old -> attempt_of old = Some (o, a) ->
  world_ok every (set_worker k i (after_slot p o a err) w).
Proof.
  intros H Hold Ha. apply (ok_set _ _ _ old); [by apply ok_weaken|done|by intros ->|].
  destruct (wo_worker _ _ H k i old I Hold) as [_ W2]. destruct (W2 _ _ Ha) as (? & ? & ? & ?). apply after_slot_ok; try done. lia.
Qed.

Lemma ok_record k i o a id c began err now w : world_ok every w -> worker_at w k i = Some (WFinish o a id c began err) -> wd_now w = now ->
  world_ok (but k i) (with_next i (now + preparationDelay) (record_registration (mkRegistration k i o began now) w)).
Proof.
  intros H Hold <-. set (x := mkRegistration k i o began (wd_now w)). destruct (at_work _ _ _ _ _ H Hold) as (r & Hr & _ & _ & Hk); [done|].
  pose proof H as [H1 H2 H3 H4 H5 H6]. destruct (H4 k i _ I Hold) as [W1 W2]. destruct (W1 began eq_refl) as [Hle Hx]. destruct (W2 o a eq_refl) as (Ho & Ha & Hc & Hz).
  split.
  - intros k' r' Hr'. by destruct (H1 k' r' Hr').
  - cbn [with_next record_registration wd_log wd_now wd_runs]. intros y [Hy|Hy%list_elem_of_singleton]%elem_of_app; [by apply H2|]. subst y. cbn. lia.
  - cbn [with_next record_registration wd_log wd_next]. intros j t y Ht Hy Hj. destruct (decide (i = j)) as [<-|Hne].
    + apply list_lookup_insert_Some in Ht as [(_ & <- & _)|[? _]]; [|done].
      apply elem_of_app in Hy as [Hy|Hy%list_elem_of_singleton]; [destruct (H2 _ Hy); lia|subst y; cbn; lia].
    + rewrite list_lookup_insert_ne in Ht by done. apply elem_of_app in Hy as [Hy|Hy%list_elem_of_singleton]; [by eapply H3|]. subst y. by rewrite <- Hj in Hne.
  - intros k' i' ph' Hb Hph. change (worker_at w k' i' = Some ph') in Hph. destruct (done_or ph') as [ ->|Hnd]; [by split|].
    destruct (decide (i = i')) as [<-|Hne]. { exfalso. apply Hb. by rewrite (one_worker _ k k' i _ _ _ H Hold Hph). }
    destruct (H4 k' i' ph' I Hph) as [V1 V2].
    assert (forall o', registrations (record_registration x w) k' i' o' = registrations w k' i' o') as Hreg.
    { intros o'. rewrite registrations_record. unfold x. rewrite registers_other by congruence. cbn. lia. }
    split.
    + cbn [with_next record_registration wd_log wd_now]. intros t Ht. destruct (V1 t Ht) as [V3 V4]. split; [done|].
      intros y [Hy|Hy%list_elem_of_singleton]%elem_of_app Hj; [by apply V4|]. subst y. done.
    + intros o' a' He. change (registrations (with_next _ _ (record_registration x w)) k' i') with (registrations (record_registration x w) k' i').
      rewrite Hreg. destruct (V2 _ _ He) as (? & ? & ? & V). repeat split; try done. intros o2 Ho2. rewrite Hreg. by apply V.
  - cbn [with_next record_registration wd_log]. intros n m y z Hnm Hy Hz'. apply lookup_lt_Some in Hz' as Hml. rewrite length_app in Hml. cbn in Hml.
    rewrite lookup_app_l in Hy by lia. destruct (decide (m < length (wd_log w))%nat).
    + rewrite lookup_app_l in Hz' by done. by apply (H5 n m).
    + rewrite lookup_app_r in Hz' by lia. destruct (m - length (wd_log w))%nat; [|done]. injection Hz' as <-. intros He. apply Hx; [by eapply list_elem_of_lookup_2|done].
  - intros k' i' o'. change (registrations (record_registration x w) k' i' o' <= 3). rewrite registrations_record.
    destruct (decide ((k', i', o') = (k, i, o))) as [[= -> -> ->]|Hd]; [|unfold x; rewrite registers_other by done; cbn; specialize (H6 k' i' o'); lia].
    destruct (registers _ _ _ _); cbn; lia.
Qed.

Lemma ok_finished k i o a id c began err now cancelled encoded w : world_ok every w -> worker_at w k i = Some (WFinish o a id c began err) -> wd_now w = now ->
  world_ok every (finished preparationDelay k i o a c began err now cancelled encoded w).
Proof.
  intros H Hold Hnow. unfold finished, return_slot. destruct (wo_worker _ _ H k i _ I Hold) as [_ W2]. destruct (W2 o a eq_refl) as (Ho & Ha & Hc & Hz).
  set (w1 := with_pool (Pool.step (Finish c now err cancelled encoded) (wd_pool w)) w).
  assert (world_ok every w1) as H1 by (by apply ok_pool).
  apply (ok_set _ _ _ (WFinish o a id c began err)); [by apply (ok_record _ _ _ a id c began err)|done|done|].
  apply after_slot_ok; try done.
  - change (registrations (record_registration (mkRegistration k i o began now) w) k i o <= Z.of_nat (S a)). rewrite registrations_record.
    destruct (registers _ _ _ _); cbn; lia.
  - intros o' Ho'. change (registrations (record_registration (mkRegistration k i o began now) w) k i o' = 0). rewrite registrations_record, Hz by done.
    rewrite registers_other; [done|]. intros [=]. lia.
Qed.

Lemma ok_return k i o a old err now w : world_ok every w -> worker_at w k i = Some old -> attempt_of old = Some (o, a) -> wd_now w = now ->
  world_ok every (return_slot preparationDelay k i o a now err w).
Proof. intros H Hold Ha Hn. unfold return_slot. apply (ok_leave _ _ _ _ old); [by apply (ok_next _ _ now)|done|done]. Qed.

(** ** Every step keeps the invariant *)

Lemma ok_open_slot k i o a fresh w : world_ok every w -> worker_at w k i = Some (WSlot o a) -> world_ok every (open_slot k i o a fresh w).
Proof.
  intros H Hold. unfold open_slot. destruct (_ && _).
  { apply (ok_set _ _ _ (WSlot o a)); [by apply ok_weaken|done|done|by split]. }
  destruct (_ || _); [by eapply ok_leave|]. destruct (_ ≫= _) as [[id|]|]; [| |done].
  - destruct (po_entries _ !! id) as [e|]; [|done]. destruct (en_registered e); [by eapply ok_leave|by eapply ok_stay].
  - destruct fresh as [[eid s]|e]; [|by eapply ok_leave]. destruct (known _ _); [done|].
    eapply (ok_stay _ _ (WSlot o a)); [by apply ok_pool|done|done|done|done].
Qed.

Lemma ok_pace k i o a id now w : world_ok every w -> worker_at w k i = Some (WPace o a id) -> wd_now w = now ->
  world_ok every (pace preparationDelay preparationTimeout k i o a id now w).
Proof.
  intros H Hold Hnow. unfold pace. destruct (wd_next w !! i) as [next|] eqn:En; [|done]. unfold waitUntil.
  destruct (lifetime _); [by eapply ok_leave|]. destruct (Z.leb_spec next now); [|done].
  apply (ok_set _ _ _ (WPace o a id)); [by apply ok_weaken, (ok_next _ _ now)|done|done|].
  destruct (wo_worker _ _ H k i _ I Hold) as [_ W2]. split; [|exact W2]. cbn. intros t [= <-]. split; [done|]. intros x Hx Hr.
  pose proof (wo_next _ _ H i next x En Hx Hr). lia.
Qed.

Lemma ok_cool k i o a id deadline until now expired c w : world_ok every w -> worker_at w k i = Some (WCool o a id deadline (Some until)) -> wd_now w = now ->
  world_ok every (cool preparationDelay k i o a id deadline until now expired c w).
Proof.
  intros H Hold Hnow. unfold cool. destruct (_ && _); [done|]. destruct (waitUntil _ _ _) as [[e|]|]; [by eapply ok_return| |done].
  destruct (po_callers _ !! c) as [[]|]; try done. eapply (ok_stay _ _ (WCool o a id deadline (Some until))); [by apply ok_pool|done|done|done|done].
Qed.

Lemma ok_acquired k i o a id deadline c now w : world_ok every w -> worker_at w k i = Some (WAcquire o a id deadline c) -> wd_now w = now ->
  world_ok every (acquired preparationDelay k i o a id deadline c now w).
Proof.
  intros H Hold Hnow. unfold acquired. destruct (po_callers _ !! c) as [[| | | | |[]]|]; try done.
  - eapply ok_stay; [done|done|done|done|]. cbn. by rewrite Hnow.
  - destruct (as_core _) as [api|]; [|by eapply ok_return]. destruct (String.eqb _ _); [by eapply ok_stay|by eapply ok_return].
Qed.

Lemma ok_worker_step k i ev now w : world_ok every w -> wd_now w = now -> world_ok every (worker_step preparationDelay preparationTimeout k i ev now w).
Proof.
  intros H Hnow. unfold worker_step. fold (worker_at w k i). destruct (worker_at w k i) as [ph|] eqn:Hold; [|done].
  destruct ph as [o a|o a id|o a id dl [until|]|o a id dl c|o a id c began|o a id c began e|o a id c began err|], ev; try done.
  - by apply ok_open_slot.
  - by apply ok_pace.
  - by apply ok_cool.
  - unfold read_cooldown. destruct (po_entries _ !! id); [by eapply ok_stay|done].
  - by apply ok_acquired.
  - unfold registered. destruct err as [e|]; [|destruct (ss_registered s); [|done]];
      (eapply (ok_stay _ _ (WRegister o a id c began)); [by apply ok_pool|done|done|done|done]).
  - unfold recovered. eapply (ok_stay _ _ (WRecover o a id c began e)); [by apply ok_pool|done|done|done|done].
  - by eapply ok_finished.
Qed.

Lemma all_over w : world_ok every w -> ip_State (PreparationStatus w) <> "running"%string -> forall k r, wd_runs w !! k = Some r -> pn_done r = true.
Proof.
  intros H Hs k r Hr. destruct (pn_done r) eqn:Ed; [done|]. destruct (wo_jobs _ _ H k r Hr) as [J1 _ _]. destruct (J1 Ed) as [Hrun Hk].
  exfalso. apply Hs. unfold PreparationStatus, preparationStatusLocked. cbn [ip_State].
  assert (last (wd_runs w) = Some r) as ->; [|done]. rewrite last_lookup. by replace (Nat.pred (length (wd_runs w))) with k by lia.
Qed.

Lemma ok_start now w : world_ok every w -> world_ok every (StartPreparation now w).2.
Proof.
  intros H. unfold StartPreparation. destruct (_ || _); [done|]. destruct (String.eqb_spec (ip_State (PreparationStatus w)) "running") as [|Hs]; [done|].
  cbn [orb]. destruct (_ && _); [done|]. cbn [snd]. pose proof (all_over w H Hs) as Hover. pose proof H as [H1 H2 H3 H4 H5 H6].
  assert (forall k i o, registrations w k i o <> 0 -> (k < length (wd_runs w))%nat) as Hold.
  { intros k i o Hne. unfold registrations in Hne. pose proof (tally_nonneg (registers k i o) (wd_log w)).
    destruct (tally_pos (registers k i o) (wd_log w)) as (j & x & Hx & Hreg); [lia|]. unfold registers in Hreg.
    apply andb_true_iff in Hreg as [[Hreg%Nat.eqb_eq _]%andb_true_iff _]. subst k. apply (H2 x). by eapply list_elem_of_lookup_2. }
  split; cbn [wd_runs wd_log wd_next wd_now]; try done.
  - intros k r Hr. apply lookup_app_Some in Hr as [Hr|[Hk Hr]].
    + destruct (H1 k r Hr) as [J1 J2 J3]. split; [|done|done]. intros Hd. by rewrite (Hover k r Hr) in Hd.
    + apply list_lookup_singleton_Some in Hr as [Hk' <-]. split; cbn; [|done|done]. intros _. rewrite length_app. cbn. split; [done|lia].
  - intros x Hx. destruct (H2 x Hx). split; [done|]. rewrite length_app. cbn. lia.
  - intros k i ph _ Hph. unfold worker_at in Hph. cbn [wd_runs] in Hph. destruct (decide (k < length (wd_runs w))%nat).
    + rewrite lookup_app_l in Hph by done. by destruct (H4 k i ph I Hph).
    + rewrite lookup_app_r in Hph by lia. destruct (k - length (wd_runs w))%nat; [|done]. cbn in Hph.
      apply lookup_replicate in Hph as [-> _]. split; [done|]. intros o a [= <- <-]. split; [lia|]. split; [lia|].
      assert (forall o, registrations w k i o = 0) as Hz.
      { intros o. destruct (Z.eq_dec (registrations w k i o) 0); [done|]. specialize (Hold k i o ltac:(done)). lia. }
      split; [|intros o' _; apply Hz]. change (registrations w k i 0 <= 0). by rewrite Hz.
Qed.

Lemma ok_complete now k job w : world_ok every w -> wd_runs w !! k = Some job ->
  forallb (fun ph => match ph with WDone => true | _ => false end) (pn_workers job) = true ->
  world_ok every (mkWorld (wd_pool w) (<[k := finish_job now w job]> (wd_runs w)) (wd_next w) (wd_now w) (wd_log w)).
Proof.
  intros H Hjob Hall. pose proof H as [H1 H2 H3 H4 H5 H6]. split; cbn [wd_runs wd_log wd_next wd_now]; try done.
  - intros k' r Hr. apply list_lookup_insert_Some in Hr as [(<- & <- & _)|[Hne Hr]].
    + destruct (H1 k job Hjob) as [_ _ J3]. split; cbn; [done| |done]. intros _. split; [by destruct (_ || _)|].
      apply Forall_forall. intros ph Hph. apply list_elem_of_In in Hph. rewrite forallb_forall in Hall. specialize (Hall ph Hph). by destruct ph.
    + destruct (H1 k' r Hr) as [J1 J2 J3]. split; cbn; rewrite ?length_insert; done.
  - rewrite length_insert. done.
  - intros k' i ph _ Hph. cut (worker_ok w k' i ph); [by intros []|]. apply (H4 k' i ph I). unfold worker_at in *. cbn [wd_runs] in Hph. destruct (decide (k = k')) as [<-|Hne].
    + rewrite list_lookup_insert_eq in Hph by (by eapply lookup_lt_Some). by rewrite Hjob.
    + by rewrite list_lookup_insert_ne in Hph.
Qed.

Lemma ok_step ta w : world_ok every w -> world_ok every (step preparationDelay preparationTimeout ta w).
Proof.
  intros H. destruct ta as [now a]. unfold step. cbn [fst snd]. destruct (Z.ltb_spec now (wd_now w)); [done|].
  pose proof (ok_now now w ltac:(lia) H) as H'. set (w1 := mkWorld _ _ _ now _) in *. destruct a as [|k i ev|k|a]; cbn [act].
  - by apply ok_start.
  - by apply ok_worker_step.
  - destruct (wd_runs w1 !! k) as [job|] eqn:Ej; [|done]. destruct (_ && _) eqn:Eb; [|done]. bool_prop. by eapply ok_complete.
  - destruct (foreign w1 a); [by apply ok_pool|done].
Qed.

Lemma ok_run l w : world_ok every w -> world_ok every (run preparationDelay preparationTimeout l w).
Proof. unfold run. revert w. induction l as [|ta l IH]; intros w H; [done|]. cbn. by apply IH, ok_step. Qed.

(** Before any preparation. *)
Definition unprepared (w : world) : Prop := wd_runs w = [] /\ wd_log w = [].

Lemma unprepared_ok w : unprepared w -> world_ok every w.
Proof.
  intros [Hr Hl]. split; rewrite ?Hr, ?Hl; try done.
  - by intros x Hx%elem_of_nil.
  - by intros i t x _ Hx%elem_of_nil.
  - intros k i ph _ Hph. unfold worker_at in Hph. by rewrite Hr in Hph.
  - intros k i o. unfold registrations. by rewrite Hl.
Qed.

(** C8. Registrations are paced.  In every run, with any number of calls of
    [StartPreparation], repeated jobs, failing and cancelled registrations, and
    whatever else uses the pool: at most one job is at work, the last one
    started, so that a route has at most one worker; a call made while it is at
    work starts nothing; on each route a registration begins no earlier than
    the preparation delay after the end of every earlier one, of this job or of
    another, and so does one that has begun and not ended; and a job registers
    a slot at most three times. *)
Theorem preparation_paced l w0 : unprepared w0 ->
  let w := run preparationDelay preparationTimeout l w0 in
  (forall k k' i ph ph', worker_at w k i = Some ph -> worker_at w k' i = Some ph' -> ph <> WDone -> ph' <> WDone -> k = k') /\
  (forall k r now, wd_runs w !! k = Some r -> pn_done r = false -> S k = length (wd_runs w) /\ (StartPreparation now w).2 = w) /\
  (forall a b x y, (a < b)%nat -> wd_log w !! a = Some x -> wd_log w !! b = Some y -> rg_route x = rg_route y ->
     rg_ended x + preparationDelay <= rg_began y) /\
  (forall k i ph t x, worker_at w k i = Some ph -> since (wd_now w) ph = Some t -> x ∈ wd_log w -> rg_route x = i -> rg_ended x + preparationDelay <= t) /\
  (forall k i o, registrations w k i o <= 3).
Proof.
  intros Hu w. assert (world_ok every w) as H by (by apply ok_run, unprepared_ok). split; [|split; [|split; [|split; [|apply H]]]].
  - intros k k' i ph ph'. by apply (one_worker _ _ _ _ _ _ every).
  - intros k r now Hr Hd. destruct (wo_jobs _ _ H k r Hr) as [J1 _ _]. destruct (J1 Hd) as [_ Hk]. split; [done|].
    unfold StartPreparation. destruct (_ || _); [done|]. destruct (String.eqb_spec (ip_State (PreparationStatus w)) "running") as [|Hs]; [done|].
    by rewrite (all_over w H Hs k r Hr) in Hd.
  - intros a b x y Hab Hx Hy. by apply (wo_spaced _ _ H a b x y).
  - intros k i ph t x Hph Ht. by apply (wk_since _ _ _ _ (wo_worker _ _ H k i ph I Hph)).
Qed.
End Invariant.

(** ** What a preparation promises *)

Section Verdict.
Context (preparationDelay preparationTimeout : Z).
Notation worker_step := (worker_step preparationDelay preparationTimeout).
Notation step := (step preparationDelay preparationTimeout).
Notation run := (run preparationDelay preparationTimeout).

(** The preparation uses the pool as anybody does. *)
Lemma worker_step_pool k i ev now w : exists actions, wd_pool (worker_step k i ev now w) = Pool.run actions (wd_pool w).
Proof.
  assert (exists actions, wd_pool w = Pool.run actions (wd_pool w)) as Hid by (by exists []).
  assert (forall a, exists actions, Pool.step a (wd_pool w) = Pool.run actions (wd_pool w)) as Hone by (intros a; by exists [a]).
  unfold Preparation.worker_step. destruct (wd_runs w !! k ≫= _) as [ph|]; [|done].
  destruct ph as [o a|o a id|o a id dl [until|]|o a id dl c|o a id c began|o a id c began e|o a id c began err|], ev; try done.
  - unfold open_slot. destruct (_ && _); [done|]. destruct (_ || _); [done|]. destruct (_ ≫= _) as [[id|]|]; [| |done].
    + destruct (po_entries _ !! id) as [e|]; [|done]. by destruct (en_registered e).
    + destruct fresh as [[eid s]|e]; [|done]. destruct (known _ _) eqn:Ek; [done|]. exists [PrepareSlot i o (Ok (eid, s))]. cbn [Pool.run fold_left Pool.step].
      cbn in Ek |- *. by rewrite Ek.
  - unfold pace. destruct (wd_next w !! i); [|done]. by destruct (waitUntil _ _ _) as [[]|].
  - unfold cool. destruct (_ && _); [done|]. destruct (waitUntil _ _ _) as [[]|]; [done| |done]. destruct (po_callers _ !! _) as [[]|]; try done. apply Hone.
  - unfold read_cooldown. by destruct (po_entries _ !! id).
  - unfold acquired. destruct (po_callers _ !! c) as [[| | | | |[]]|]; try done. destruct (as_core _); [|done]. by destruct (String.eqb _ _).
  - unfold registered. destruct err; [apply Hone|]. destruct (ss_registered s); [apply Hone|done].
  - apply Hone.
  - apply Hone.
Qed.

Lemma step_pool ta w : exists actions, wd_pool (step ta w) = Pool.run actions (wd_pool w).
Proof.
  destruct ta as [now a]. unfold Preparation.step. cbn [fst snd]. destruct (_ <? _); [by exists []|]. destruct a as [|k i ev|k|a]; cbn [act].
  - exists []. unfold StartPreparation. destruct (_ || _); [done|]. by destruct (_ || _).
  - apply (worker_step_pool k i ev now (mkWorld (wd_pool w) (wd_runs w) (wd_next w) now (wd_log w))).
  - exists []. cbn [wd_runs]. destruct (wd_runs w !! k); [|done]. by destruct (_ && _).
  - destruct (foreign _ _); [by exists [a]|by exists []].
Qed.

Lemma run_pool l w : exists actions, wd_pool (run l w) = Pool.run actions (wd_pool w).
Proof.
  unfold Preparation.run. revert w. induction l as [|ta l IH]; intros w; [by exists []|]. cbn. destruct (IH (step ta w)) as [a1 E1].
  destruct (step_pool ta w) as [a2 E2]. exists (a2 ++ a1). rewrite E1, E2. unfold Pool.run. by rewrite fold_left_app.
Qed.

Lemma status_counts w : world_ok preparationDelay every w -> let s := PreparationStatus w in
  ip_Target s = len (po_proxies (wd_pool w)) * 10 /\ ip_Ready s = count_entries en_registered (wd_pool w).
Proof.
  intros H s. split; [done|]. unfold s, PreparationStatus, preparationStatusLocked. cbn [ip_Ready]. destruct (last (wd_runs w)) as [r|] eqn:El; [|done].
  rewrite last_lookup in El. by rewrite (jo_ready _ _ _ (wo_jobs _ _ _ H _ r El)).
Qed.

(** A preparation tells the truth.  In every run that starts from a pool
    [Open] has set up, the pool takes only steps of its own, so that what holds
    of every run of the pool holds here; the identities ready never exceed ten
    for each route, and reach that number exactly when every slot of every route
    holds a registered identity; [Prepare] returns without an error only then;
    and a job whose workers have all ended ends as completed exactly when this
    is so and the pool still serves, and otherwise as failed, with the number
    of slots that lack a registered identity. *)
Theorem preparation_verdict l w0 : unprepared w0 -> opened (wd_pool w0) ->
  let w := run l w0 in let p := wd_pool w in let s := PreparationStatus w in
  (exists actions, p = Pool.run actions (wd_pool w0)) /\
  0 <= ip_Ready s <= ip_Target s /\ (ip_Ready s = ip_Target s <-> all_registered p) /\
  (forall ctxErr k, Prepare ctxErr k w = Some None -> all_registered p) /\
  (forall k job now, wd_runs w !! k = Some job -> pn_done job = false -> Forall (eq WDone) (pn_workers job) -> wd_now w <= now ->
     exists job', wd_runs (step (now, Complete k) w) !! k = Some job' /\ pn_done job' = true /\
       ip_Failed (pn_status job') = ip_Target s - ip_Ready s /\
       (ip_State (pn_status job') = "completed"%string <-> all_registered p /\ po_ready p = true /\ po_closing p = false) /\
       (ip_State (pn_status job') <> "completed"%string -> ip_State (pn_status job') = "failed"%string)).
Proof.
  intros Hu Ho w p s. destruct (run_pool l w0) as [actions Ea]. fold w p in Ea.
  assert (world_ok preparationDelay every w) as H by (by apply ok_run, unprepared_ok).
  pose proof (books_run actions _ (opened_books _ Ho)) as Hb. rewrite <- Ea in Hb.
  destruct (registered_spec p (books_pool_placed _ Hb)) as [R1 R2]. destruct (status_counts w H) as [S1 S2]. fold p s in S1, S2.
  assert (ip_Ready s = ip_Target s <-> all_registered p) as Hall by (rewrite S1, S2; exact R2).
  split; [by exists actions|]. split; [rewrite S1, S2; split; [apply tally_nonneg|done]|]. split; [done|]. split.
  - intros ctxErr k. unfold Prepare. destruct ctxErr; [done|]. destruct (wd_runs w !! k) as [job|]; [|done]. destruct (pn_done job); [|done]. cbn [negb]. fold s.
    destruct (_ || _) eqn:Eo; [done|]. intros _. apply orb_false_iff in Eo as [_ Eo]. apply negb_false_iff, Z.eqb_eq in Eo. by apply Hall.
  - intros k job now Hj Hd Hw Hn. exists (finish_job now w job). unfold Preparation.step. cbn [fst snd]. destruct (Z.ltb_spec now (wd_now w)); [lia|].
    cbn [act wd_runs]. rewrite Hj, Hd. assert (forallb (fun ph => match ph with WDone => true | _ => false end) (pn_workers job) = true) as ->.
    { apply forallb_forall. intros ph Hph. apply list_elem_of_In in Hph. rewrite Forall_forall in Hw. by rewrite <- (Hw _ Hph). }
    cbn [negb andb wd_runs]. rewrite list_lookup_insert_eq by (by eapply lookup_lt_Some). split; [done|]. split; [done|].
    unfold finish_job. cbn [pn_status ip_Failed ip_State]. fold p. change (PreparationStatus (mkWorld (wd_pool w) _ _ _ _)) with s. fold s. split; [done|].
    rewrite S1, S2. destruct (Z.ltb_spec 0 (len (po_proxies p) * 10 - count_entries en_registered p)); cbn [orb].
    + split; [|done]. split; [done|]. intros [Ha%R2 _]. lia.
    + assert (all_registered p) as Ha by (apply R2; lia). destruct (po_ready p), (po_closing p); cbn; (split; [split|]); try done; by intros (_ & ? & ?).
Qed.
End Verdict.

(** ** A preparation of one route *)

Definition demo_slot (o : nat) : list (Z * action) :=
  let t := Z.of_nat o * 11 * Second in
  let id := String "s" (String (ascii_of_nat (48 + o)) EmptyString) in
  [(t, Worker 0 0 (Opened (Ok (id, blank_session)))); (t, Worker 0 0 Paced); (t, Worker 0 0 CooldownRead); (t, Worker 0 0 (Cooled false o));
   (t, Others (Turn o t None (Err (ErrOther "")))); (t, Worker 0 0 Acquired); (t + Second, Worker 0 0 (Registered None (Pool.mkSession true false 1)));
   (t + Second, Worker 0 0 (Finished false true))].
Definition demo_start : world := mkWorld (one_route 10) [] [AppSession.zero_time] 0 [].
Definition demo_run : list (Z * action) := (0, Start) :: concat (demo_slot <$> seq 0 10).
#[local] Notation demo_after l := (run preparationInterval (180 * Second) l demo_start).

Lemma preparation_paced_witness : let w := demo_after (take 25 demo_run) in
  (rg_began <$> wd_log w) = [0; 11 * Second; 22 * Second] /\ (StartPreparation (40 * Second) w).2 = w.
Proof.
  intros w. pose proof (preparation_paced preparationInterval (180 * Second) (take 25 demo_run) demo_start ltac:(done)) as H.
  cbv zeta in H. fold w in H. destruct H as (_ & H & _).
  split; [vm_compute; reflexivity|].
  assert ((pn_done <$> wd_runs w !! 0%nat) = Some false) as E by (vm_compute; reflexivity).
  clearbody w. apply fmap_Some in E as (r & E & Hd). exact (proj2 (H 0%nat r (40 * Second) E (eq_sym Hd))).
Defined.

Lemma preparation_verdict_witness : let w := demo_after demo_run in
  ip_Ready (PreparationStatus w) = 10 /\ all_registered (wd_pool w) /\
  (ip_State <$> (pn_status <$> wd_runs (demo_after (demo_run ++ [(111 * Second, Complete 0)])))) = ["completed"%string] /\
  Prepare None 0 (demo_after (demo_run ++ [(111 * Second, Complete 0)])) = Some None.
Proof.
  intros w. destruct (preparation_verdict preparationInterval (180 * Second) demo_run demo_start ltac:(done) (one_route_opened 10))
    as (_ & _ & H & _).
  assert (ip_Ready (PreparationStatus w) = 10) as Hr by (vm_compute; reflexivity).
  split; [exact Hr|]. split; [|split; vm_compute; reflexivity]. apply H. etransitivity; [exact Hr|]. vm_compute. reflexivity.
Defined.
