(* ===== verification/Cookies.v ===== *)
(** * tiktokapp: the cookies of a session

    Models src/internal/tiktokapp/cookies.go: the record of a session's cookies
    that is kept beside the jar of net/http/cookiejar, saved with the session
    and read back.  The jar itself is the list of what it was given; the public
    suffix list, the lower case of a host beyond ASCII, the form of a time and
    encoding/json are parameters.  The order in which Go walks a map is an
    input.  A time is in nanoseconds since 1970. *)
From stdpp Require Import gmap strings sorting.
From S2P Require Import Prelude Strconv AppRoute AppSession.
Open Scope Z_scope.
Open Scope go_scope.

Record savedCookie := mkSaved {
  sv_Key : string; sv_Value : string; sv_Domain : string; sv_Path : string; sv_Secure : bool; sv_HTTPOnly : bool; sv_HostOnly : bool;
  sv_Expires : string; sv_SameSite : string; sv_Creation : string; sv_LastAccessed : string;
}.
Definition set_Creation (t : string) (c : savedCookie) : savedCookie :=
  mkSaved (sv_Key c) (sv_Value c) (sv_Domain c) (sv_Path c) (sv_Secure c) (sv_HTTPOnly c) (sv_HostOnly c) (sv_Expires c) (sv_SameSite c) t (sv_LastAccessed c).

(** An [http.Cookie]; the zero time is [zero_time]. *)
Inductive SameSite := SameSiteDefault | SameSiteLax | SameSiteStrict | SameSiteNone.
Record Cookie := mkCookie {
  co_Name : string; co_Value : string; co_Path : string; co_Domain : string; co_Expires : Z; co_MaxAge : Z; co_Secure : bool; co_HttpOnly : bool; co_SameSite : SameSite;
}.

Record persistentJar := mkJar {
  pj_jar : list (URL * list Cookie);      (* what SetCookies was given *)
  pj_saved : gmap string savedCookie; pj_encoded : string; pj_dirty : bool; pj_nextExpiry : Z;
}.

Definition cookieKey (c : savedCookie) : string := sv_Domain c +:+ String LF EmptyString +:+ sv_Path c +:+ String LF EmptyString +:+ sv_Key c.

(** [strings.LastIndex] of a slash. *)
Fixpoint last_slash (s : string) : option nat :=
  match s with
  | EmptyString => None
  | String a s =>
      match last_slash s with
      | Some n => Some (S n)
      | None => if Ascii.eqb a "/" then Some O else None
      end
  end.
Definition absolute (path : string) : bool := match path with String a _ => Ascii.eqb a "/" | EmptyString => false end.
Definition defaultCookiePath (path : string) : string :=
  if negb (absolute path) then "/"
  else match last_slash path with Some (S n) => String.substring 0 (S n) path | _ => "/" end.

Definition by_key (c d : savedCookie) : Prop := String.le (cookieKey c) (cookieKey d).
#[export] Instance by_key_dec : RelDecision by_key.
Proof. intros c d. apply String.le_dec. Defined.
#[export] Instance by_key_total : Total by_key.
Proof. intros c d. apply String.le_total. Qed.
#[export] Instance by_key_trans : Transitive by_key.
Proof. intros c d e H1 H2. unfold by_key in *. by etrans. Qed.

Section Jar.
Context (lower : string -> string) (PublicSuffix : string -> string) (ParseTime : string -> option Z) (Format : Z -> string)
        (Marshal : list savedCookie -> string) (Unmarshal : string -> option (list savedCookie)).

(** When a cookie ends: [None] when it does not, [Some None] for a time that
    cannot be read. *)
Definition expiry (c : savedCookie) : option (option Z) :=
  if String.eqb (sv_Expires c) "" || String.eqb (sv_Expires c) "Infinity" then None else Some (ParseTime (sv_Expires c)).
Definition alive (now : Z) (c : savedCookie) : bool :=
  match expiry c with None => true | Some None => false | Some (Some e) => now <? e end.

(** ** [newPersistentJar] *)

Definition restore_cookie (now : Z) (c : savedCookie) (p : persistentJar) : persistentJar :=
  if String.eqb (sv_Key c) "" || String.eqb (sv_Domain c) "" then p
  else if negb (alive now c) then p
  else
    let h := mkCookie (sv_Key c) (sv_Value c) (sv_Path c) (if sv_HostOnly c then "" else sv_Domain c)
               (match expiry c with Some (Some e) => e | _ => zero_time end) 0 (sv_Secure c) (sv_HTTPOnly c) SameSiteDefault in
    let host := match sv_Domain c with String "."%char d => d | d => d end in
    let u := mkURL (if sv_Secure c then "https" else "http") host (sv_Path c) "" "" in
    mkJar (pj_jar p ++ [(u, [h])]) (<[cookieKey c := c]> (pj_saved p)) (pj_encoded p) (pj_dirty p) (pj_nextExpiry p).

Definition newPersistentJar (now : Z) (serialized : string) : persistentJar :=
  let p := mkJar [] ∅ "" true zero_time in
  match Unmarshal serialized with
  | None => p
  | Some stored => fold_left (fun p c => restore_cookie now c p) stored p
  end.

(** ** [accept] *)

Definition same_site (s : SameSite) : string :=
  match s with SameSiteLax => "lax" | SameSiteStrict => "strict" | SameSiteNone => "none" | SameSiteDefault => "" end.

(** A [time.Duration] wraps. *)
Definition max_age (now : Z) (n : Z) : Z := now + i64 (n * Second).

Definition cookie_domain (u : URL) (c : Cookie) : string :=
  lower (match co_Domain c with String "."%char d => d | d => d end).
(** Whether the address may set the cookie's domain. *)
Definition may_set (u : URL) (domain : string) (hostOnly : bool) : bool :=
  let host := lower (Hostname u) in
  (String.eqb host domain || str_has_suffix host ("." +:+ domain)) && (hostOnly || negb (String.eqb (PublicSuffix domain) domain)).

Definition accept_cookie (u : URL) (now : Z) (c : Cookie) (p : persistentJar) : persistentJar :=
  let hostOnly := String.eqb (cookie_domain u c) "" in
  let domain := if hostOnly then lower (Hostname u) else cookie_domain u c in
  if negb (may_set u domain hostOnly) then p
  else
    let path := if absolute (co_Path c) then co_Path c else defaultCookiePath (ur_Path u) in
    let record := mkSaved (co_Name c) (co_Value c) domain path (co_Secure c) (co_HttpOnly c) hostOnly "" "" (Format now) (Format now) in
    let key := cookieKey record in
    if (co_MaxAge c <? 0) || negb (co_Expires c =? zero_time) && (co_Expires c <=? now)
    then mkJar (pj_jar p) (delete key (pj_saved p)) (pj_encoded p) true (pj_nextExpiry p)
    else
      let creation := match pj_saved p !! key with Some old => sv_Creation old | None => Format now end in
      let expires := if 0 <? co_MaxAge c then Format (max_age now (co_MaxAge c))
                     else if negb (co_Expires c =? zero_time) then Format (co_Expires c) else "" in
      mkJar (pj_jar p)
        (<[key := mkSaved (co_Name c) (co_Value c) domain path (co_Secure c) (co_HttpOnly c) hostOnly expires (same_site (co_SameSite c)) creation (Format now)]> (pj_saved p))
        (pj_encoded p) true (pj_nextExpiry p).

Definition accept (u : URL) (now : Z) (cookies : list Cookie) (p : persistentJar) : persistentJar :=
  match cookies with
  | [] => p
  | _ => fold_left (fun p c => accept_cookie u now c p) cookies
           (mkJar (pj_jar p ++ [(u, cookies)]) (pj_saved p) (pj_encoded p) (pj_dirty p) (pj_nextExpiry p))
  end.

(** ** [serialize] *)

(** One turn of the walk over the map. *)
Definition walk (now : Z) (kc : string * savedCookie) (acc : gmap string savedCookie * Z * list savedCookie) : gmap string savedCookie * Z * list savedCookie :=
  let '(saved, nextExpiry, cookies) := acc in
  if negb (alive now kc.2) then (delete kc.1 saved, nextExpiry, cookies)
  else
    let nextExpiry := match expiry kc.2 with
                      | Some (Some e) => if (nextExpiry =? zero_time) || (e <? nextExpiry) then e else nextExpiry
                      | _ => nextExpiry
                      end in
    (saved, nextExpiry, cookies ++ [kc.2]).

(** [order] is the order in which the map is walked. *)
Definition serialize (now : Z) (order : list (string * savedCookie)) (p : persistentJar) : string * persistentJar :=
  if negb (pj_dirty p) && ((pj_nextExpiry p =? zero_time) || (now <? pj_nextExpiry p)) then (pj_encoded p, p)
  else
    let '(saved, nextExpiry, cookies) := fold_left (fun acc kc => walk now kc acc) order (pj_saved p, zero_time, []) in
    let encoded := Marshal (merge_sort by_key cookies) in
    (encoded, mkJar (pj_jar p) saved encoded false nextExpiry).
End Jar.

(** ** The saved cookies are current *)

Section Current.
Context (lower : string -> string) (PublicSuffix : string -> string) (ParseTime : string -> option Z) (Format : Z -> string)
        (Marshal : list savedCookie -> string) (Unmarshal : string -> option (list savedCookie)).
(** Cookies of valid text survive encoding/json. *)
Context (utf8 : savedCookie -> Prop) (HMarshal : forall l, Forall utf8 l -> Unmarshal (Marshal l) = Some l).
Notation alive := (alive ParseTime).
Notation expiry := (expiry ParseTime).
Notation serialize := (serialize ParseTime Marshal).
Notation accept := (accept lower PublicSuffix Format).
Notation accept_cookie := (accept_cookie lower PublicSuffix Format).
Notation newPersistentJar := (newPersistentJar ParseTime Unmarshal).
Notation walk := (walk ParseTime).

(** The cookies that have not ended, in the order of their keys. *)
Definition living (now : Z) (saved : gmap string savedCookie) : gmap string savedCookie := filter (fun kc => alive now kc.2 = true) saved.
Definition in_order (saved : gmap string savedCookie) : list savedCookie := merge_sort by_key (map_to_list saved).*2.

Definition ends_after (t : Z) (c : savedCookie) : Prop :=
  match expiry c with None => True | Some None => False | Some (Some e) => t <> zero_time /\ t <= e end.

Record jar_ok (p : persistentJar) : Prop := {
  jk_key k c : pj_saved p !! k = Some c -> cookieKey c = k /\ sv_Key c <> ""%string /\ sv_Domain c <> ""%string;
  jk_cache : pj_dirty p = false -> pj_encoded p = Marshal (in_order (pj_saved p)) /\
    forall k c, pj_saved p !! k = Some c -> ends_after (pj_nextExpiry p) c;
}.

(** *** One order *)

Definition keyed (saved : gmap string savedCookie) : Prop := forall k c, saved !! k = Some c -> cookieKey c = k.

Lemma sort_canonical saved l : keyed saved -> l ≡ₚ (map_to_list saved).*2 -> merge_sort by_key l = in_order saved.
Proof.
  intros Hk Hl. unfold in_order. apply (StronglySorted_unique_strong by_key).
  - intros c d Hc Hd H1 H2. rewrite merge_sort_Permutation, Hl in Hc. rewrite merge_sort_Permutation in Hd.
    apply list_elem_of_fmap in Hc as ([k c'] & -> & Hc%elem_of_map_to_list). apply list_elem_of_fmap in Hd as ([k' d'] & -> & Hd%elem_of_map_to_list).
    cbn in *. apply Hk in Hc as E1. apply Hk in Hd as E2. assert (k = k') as <-; [|rewrite Hc in Hd; by injection Hd].
    rewrite <- E1, <- E2. by apply (anti_symm String.le).
  - apply StronglySorted_merge_sort; apply _.
  - apply StronglySorted_merge_sort; apply _.
  - by rewrite !merge_sort_Permutation.
Qed.

(** *** The walk over the map *)

Lemma walk_spec now l saved next cookies : zero_time <= now -> NoDup l.*1 ->
  let '(saved', next', cookies') := fold_left (fun acc kc => walk now kc acc) l (saved, next, cookies) in
  (forall k c, saved' !! k = Some c <-> saved !! k = Some c /\ forall c', (k, c') ∈ l -> alive now c' = true) /\
  cookies' = cookies ++ (List.filter (fun kc => alive now kc.2) l).*2 /\
  (next <> zero_time -> next' <> zero_time /\ next' <= next) /\
  (forall kc, kc ∈ l -> alive now kc.2 = true -> ends_after next' kc.2).
Proof.
  intros Hz. revert saved next cookies. induction l as [|[k0 c0] l IH]; intros saved next cookies Hn; cbn [fold_left].
  { split; [|split; [|split; [done|by intros kc Hkc%elem_of_nil]]]; [|by rewrite app_nil_r].
    intros k c. split; [|by intros [? _]]. intros H. split; [done|]. by intros c' Hc'%elem_of_nil. }
  cbn [fmap list_fmap] in Hn. apply NoDup_cons in Hn as [Hk0 Hn]. unfold Cookies.walk at 2. cbn [fst snd].
  destruct (alive now c0) eqn:Ea; cbn [negb].
  - set (n1 := match expiry c0 with Some (Some e) => _ | _ => next end).
    specialize (IH saved n1 (cookies ++ [c0]) Hn). destruct (fold_left _ l _) as [[saved' next'] cookies'].
    destruct IH as (I1 & I2 & I3 & I4). split; [|split; [|split]].
    + intros k c. rewrite I1. split; intros [Hs Hl]; (split; [done|]); intros c' Hc'.
      * apply elem_of_cons in Hc' as [[= -> ->]|Hc']; [done|by apply Hl].
      * apply Hl. by right.
    + rewrite I2. cbn. rewrite Ea. cbn. by rewrite <- app_assoc.
    + intros Hne. assert (n1 <> zero_time /\ n1 <= next) as [N1 N2].
      { unfold n1, Cookies.alive in *. destruct (expiry c0) as [[e|]|]; [|done|split; [done|lia]].
        destruct (Z.eqb_spec next zero_time) as [|]; [done|]. cbn [orb]. destruct (Z.ltb_spec e next); [|split; [done|lia]].
        apply Z.ltb_lt in Ea. lia. }
      destruct (I3 N1). split; [done|lia].
    + intros kc [ ->|Hkc]%elem_of_cons Hal; [|by apply I4]. cbn [snd]. unfold ends_after, n1 in *. unfold Cookies.alive in Ea.
      destruct (expiry c0) as [[e|]|]; [|done|done]. apply Z.ltb_lt in Ea.
      assert (e <> zero_time) as He by lia. destruct (Z.eqb_spec next zero_time) as [|Hne]; cbn [orb] in *.
      * destruct (I3 He). lia.
      * destruct (Z.ltb_spec e next); [destruct (I3 He); lia|]. destruct (I3 Hne). lia.
  - specialize (IH (delete k0 saved) next cookies Hn). destruct (fold_left _ l _) as [[saved' next'] cookies'].
    destruct IH as (I1 & I2 & I3 & I4). split; [|split; [|split; [done|]]].
    + intros k c. rewrite I1, lookup_delete_Some. split.
      * intros [[Hne Hs] Hl]. split; [done|]. intros c' [[= -> ->]|Hc']%elem_of_cons; [done|by apply Hl].
      * intros [Hs Hl]. split; [split; [|done]|intros c' Hc'; apply Hl; by right]. intros <-. rewrite (Hl c0) in Ea; [done|by left].
    + rewrite I2. cbn. by rewrite Ea.
    + intros kc [ ->|Hkc]%elem_of_cons Hal; [cbn in Hal; by rewrite Hal in Ea|by apply I4].
Qed.

Lemma living_lookup now saved k c : living now saved !! k = Some c <-> saved !! k = Some c /\ alive now c = true.
Proof. apply map_lookup_filter_Some. Qed.

Lemma living_order now saved order : order ≡ₚ map_to_list saved -> List.filter (fun kc => alive now kc.2) order ≡ₚ map_to_list (living now saved).
Proof.
  intros Ho. apply NoDup_Permutation; [|apply NoDup_map_to_list|].
  - assert (NoDup order) as Hn by (rewrite Ho; apply NoDup_map_to_list). apply NoDup_ListNoDup in Hn. apply NoDup_ListNoDup. by apply List.NoDup_filter.
  - intros [k c]. rewrite elem_of_map_to_list, living_lookup, list_elem_of_In, filter_In, <- list_elem_of_In, Ho, elem_of_map_to_list. done.
Qed.

Lemma ends_after_alive now t c : ends_after t c -> t = zero_time \/ now < t -> alive now c = true.
Proof. unfold ends_after, Cookies.alive. destruct (expiry c) as [[e|]|]; [|done|done]. intros [H1 H2] [H3|H3]; [done|]. apply Z.ltb_lt. lia. Qed.

Lemma serialize_spec now order p : jar_ok p -> zero_time <= now -> order ≡ₚ map_to_list (pj_saved p) ->
  let '(text, p') := serialize now order p in
  text = Marshal (in_order (living now (pj_saved p))) /\ pj_saved p' = living now (pj_saved p) /\ jar_ok p'.
Proof.
  intros [Hk Hc] Hz Ho. unfold Cookies.serialize. destruct (negb (pj_dirty p) && _) eqn:Ecache.
  - apply andb_true_iff in Ecache as [Hd Ht]. apply negb_true_iff in Hd. destruct (Hc Hd) as [He Hl].
    assert (living now (pj_saved p) = pj_saved p) as ->; [|by split; [|split; [|split]]].
    apply map_eq. intros k. apply option_eq. intros c. rewrite living_lookup. split; [by intros []|]. intros Hs. split; [done|].
    apply (ends_after_alive _ (pj_nextExpiry p)); [by eapply Hl|]. apply orb_true_iff in Ht as [Ht|Ht]; [left; by apply Z.eqb_eq|right; by apply Z.ltb_lt].
  - assert (NoDup order.*1) as Hn by (rewrite Ho; apply NoDup_fst_map_to_list).
    pose proof (walk_spec now order (pj_saved p) zero_time [] Hz Hn) as Hw.
    destruct (fold_left _ order _) as [[saved' next'] cookies']. destruct Hw as (W1 & W2 & _ & W4).
    assert (saved' = living now (pj_saved p)) as ->.
    { apply map_eq. intros k. apply option_eq. intros c. rewrite W1, living_lookup. split.
      - intros [Hs Hl]. split; [done|]. apply Hl. rewrite Ho. by apply elem_of_map_to_list.
      - intros [Hs Ha]. split; [done|]. intros c'. rewrite Ho, elem_of_map_to_list, Hs. by intros [= <-]. }
    assert (keyed (living now (pj_saved p))) as Hkey by (intros k c [Hs _]%living_lookup; by apply Hk).
    assert (merge_sort by_key cookies' = in_order (living now (pj_saved p))) as Hsort.
    { apply sort_canonical; [done|]. rewrite W2. cbn [app]. by rewrite (living_order _ _ _ Ho). }
    rewrite Hsort. split; [done|]. split; [done|]. split; cbn [pj_saved pj_dirty pj_encoded pj_nextExpiry].
    + intros k c [Hs _]%living_lookup. by apply Hk.
    + intros _. split; [done|]. intros k c [Hs Ha]%living_lookup. apply (W4 (k, c)); [|done]. rewrite Ho. by apply elem_of_map_to_list.
Qed.

(** *** The other operations *)

Lemma jar_restore_ok now c p : jar_ok p -> pj_dirty p = true -> jar_ok (restore_cookie ParseTime now c p) /\ pj_dirty (restore_cookie ParseTime now c p) = true.
Proof.
  intros [Hk Hc] Hd. unfold restore_cookie. destruct (_ || _) eqn:Ee; [by split; [split|]|]. destruct (alive now c); cbn [negb]; [|by split; [split|]].
  split; [|done]. split; cbn [pj_saved pj_dirty]; [|by rewrite Hd]. apply orb_false_iff in Ee as [E1%String.eqb_neq E2%String.eqb_neq].
  intros k c' [[<- <-]|[_ H]]%lookup_insert_Some; [done|by apply Hk].
Qed.

Lemma new_jar_ok now s : jar_ok (newPersistentJar now s).
Proof.
  unfold Cookies.newPersistentJar. destruct (Unmarshal s) as [stored|]; [|split; cbn; [by intros k c; rewrite lookup_empty|done]].
  set (p0 := mkJar [] ∅ "" true zero_time). assert (jar_ok p0 /\ pj_dirty p0 = true) as [H0 D0] by (split; [split; cbn; [by intros k c; rewrite lookup_empty|done]|done]).
  clearbody p0. revert p0 H0 D0. induction stored as [|c l IH]; intros p0 H0 D0; [done|]. cbn [fold_left].
  destruct (jar_restore_ok now c p0 H0 D0) as [H1 D1]. by apply IH.
Qed.

Lemma accept_cookie_ok u now c p : co_Name c <> ""%string -> lower (Hostname u) <> ""%string -> jar_ok p -> jar_ok (accept_cookie u now c p).
Proof.
  intros Hname Hhost [Hk Hc]. unfold Cookies.accept_cookie. cbv zeta. destruct (negb _); [by split|].
  destruct (_ || _); split; cbn [pj_saved pj_dirty]; try done.
  - intros k d [_ H]%lookup_delete_Some. by apply Hk.
  - intros k d [[<- <-]|[_ H]]%lookup_insert_Some; [|by apply Hk]. split; [done|]. split; [done|]. cbn [sv_Domain].
    destruct (String.eqb_spec (cookie_domain lower u c) ""); done.
Qed.

Lemma accept_ok u now cookies p : (forall c, c ∈ cookies -> co_Name c <> ""%string) -> lower (Hostname u) <> ""%string -> jar_ok p ->
  jar_ok (accept u now cookies p).
Proof.
  intros Hname Hhost H. unfold Cookies.accept. destruct cookies as [|c0 l0] eqn:E; [done|]. rewrite <- E in *. clear E c0 l0.
  set (p0 := mkJar _ _ _ _ _). assert (jar_ok p0) as H0 by (destruct H; by split). clearbody p0. clear H p. revert p0 H0.
  induction cookies as [|c l IH]; intros p0 H0; [done|]. cbn [fold_left]. apply IH.
  - intros d Hd. apply Hname. by right.
  - apply accept_cookie_ok; [apply Hname; by left|done|done].
Qed.

(** *** Reading back *)

Lemma restore_saved now c p : pj_saved (restore_cookie ParseTime now c p) =
  if negb (String.eqb (sv_Key c) "" || String.eqb (sv_Domain c) "") && alive now c then <[cookieKey c := c]> (pj_saved p) else pj_saved p.
Proof. unfold restore_cookie. destruct (_ || _); [done|]. by destruct (alive now c). Qed.

Lemma restored_lookup now l p k c : NoDup (cookieKey <$> l) -> (forall d, d ∈ l -> sv_Key d <> ""%string /\ sv_Domain d <> ""%string) ->
  (forall d, d ∈ l -> pj_saved p !! cookieKey d = None) ->
  pj_saved (fold_left (fun p c => restore_cookie ParseTime now c p) l p) !! k = Some c <->
  pj_saved p !! k = Some c \/ c ∈ l /\ cookieKey c = k /\ alive now c = true.
Proof.
  revert p. induction l as [|d l IH]; intros p Hn Hne Hf; cbn [fold_left].
  { split; [by left|]. intros [|[H%elem_of_nil _]]; done. }
  cbn [fmap list_fmap] in Hn. apply NoDup_cons in Hn as [Hd Hn]. rewrite IH; [|done|by intros e He; apply Hne; right|].
  - rewrite restore_saved. destruct (Hne d ltac:(by left)) as [H1%String.eqb_neq H2%String.eqb_neq]. rewrite H1, H2. cbn [orb negb andb].
    destruct (alive now d) eqn:Ea.
    + rewrite lookup_insert_Some. split.
      * intros [[[<- <-]|[_ H]]|(H & H3)]; [right; split; [by left|done]|by left|right; split; [by right|done]].
      * intros [H|([ ->|H]%elem_of_cons & H3 & H4)]; [left; right; split; [|done]|left; by left|by right].
        intros Hk. rewrite <- Hk, (Hf d ltac:(by left)) in H. done.
    + split; [intros [H|(H & H3)]; [by left|right; split; [by right|done]]|].
      intros [H|([ ->|H]%elem_of_cons & H3 & H4)]; [by left|by rewrite H4 in Ea|by right].
  - intros e He. rewrite restore_saved. destruct (_ && _); [|apply Hf; by right]. rewrite lookup_insert_ne; [apply Hf; by right|].
    intros Hk. apply Hd. rewrite Hk. by apply list_elem_of_fmap_2.
Qed.

Lemma in_order_elem saved c : keyed saved -> c ∈ in_order saved <-> saved !! cookieKey c = Some c.
Proof.
  intros Hk. unfold in_order. rewrite merge_sort_Permutation, list_elem_of_fmap. split.
  - intros ([k d] & -> & H%elem_of_map_to_list). cbn. by rewrite (Hk _ _ H).
  - intros H. exists (cookieKey c, c). split; [done|]. by apply elem_of_map_to_list.
Qed.

Lemma in_order_NoDup saved : keyed saved -> NoDup (cookieKey <$> in_order saved).
Proof.
  intros Hk. unfold in_order. rewrite merge_sort_Permutation, <- list_fmap_compose.
  assert ((cookieKey ∘ snd) <$> map_to_list saved = (map_to_list saved).*1) as ->; [|apply NoDup_fst_map_to_list].
  apply list_fmap_ext. intros i [k c] H%list_elem_of_lookup_2%elem_of_map_to_list. cbn. by apply Hk.
Qed.

Lemma reread now saved : keyed saved -> (forall k c, saved !! k = Some c -> sv_Key c <> ""%string /\ sv_Domain c <> ""%string) ->
  (forall k c, saved !! k = Some c -> utf8 c) ->
  pj_saved (newPersistentJar now (Marshal (in_order saved))) = living now saved.
Proof.
  intros Hk Hne Hu. unfold Cookies.newPersistentJar. rewrite HMarshal by (apply Forall_forall; intros c Hc%in_order_elem; [by eapply Hu|done]). apply map_eq. intros k. apply option_eq. intros c.
  rewrite restored_lookup; [|by apply in_order_NoDup| |by intros d _; apply lookup_empty].
  - cbn [pj_saved]. rewrite lookup_empty, living_lookup, in_order_elem by done. split.
    + intros [|(H & <- & Ha)]; done.
    + intros [H Ha]. right. rewrite (Hk _ _ H). done.
  - intros d Hd%in_order_elem; [|done]. by eapply Hne.
Qed.

(** *** A session's jar *)

Inductive jar_step (p : persistentJar) : persistentJar -> Prop :=
| js_accept u now cookies : (forall c, c ∈ cookies -> co_Name c <> ""%string) -> lower (Hostname u) <> ""%string -> jar_step p (accept u now cookies p)
| js_serialize now order : zero_time <= now -> order ≡ₚ map_to_list (pj_saved p) -> jar_step p (serialize now order p).2.

Lemma jar_step_ok p p' : jar_ok p -> jar_step p p' -> jar_ok p'.
Proof.
  intros H []; [by apply accept_ok|]. pose proof (serialize_spec now order p H ltac:(done) ltac:(done)) as Hs.
  destruct (Cookies.serialize _ _ _ _ _) as [text q]. apply Hs.
Qed.

Lemma jar_steps_ok p q : rtc jar_step p q -> jar_ok p -> jar_ok q.
Proof. induction 1 as [|p q r Hs _ IH]; [done|]. intros H. apply IH. by eapply jar_step_ok. Qed.

(** C25. Saved cookies are current.  For a jar read from a session and then used
    in any way, [serialize] gives, whatever the order in which the map is
    walked and whether it answers from its cache or not, what writing the
    cookies that have not ended, in the order of their keys, would give; it
    keeps exactly these; and a jar read back from the text, at any time, has
    exactly those of them that have still not ended, if they are valid text. *)
Theorem cookies_current started serialized p now order later :
  rtc jar_step (newPersistentJar started serialized) p -> zero_time <= now -> order ≡ₚ map_to_list (pj_saved p) ->
  let '(text, p') := serialize now order p in
  text = Marshal (in_order (living now (pj_saved p))) /\
  pj_saved p' = living now (pj_saved p) /\
  ((forall k c, pj_saved p !! k = Some c -> utf8 c) -> pj_saved (newPersistentJar later text) = living later (living now (pj_saved p))).
Proof.
  intros Hr Hz Ho. pose proof (jar_steps_ok _ _ Hr (new_jar_ok _ _)) as H.
  pose proof (serialize_spec now order p H Hz Ho) as Hs. destruct (Cookies.serialize _ _ _ _ _) as [text p'] eqn:E.
  destruct Hs as (-> & Hp & Hj). split; [done|]. split; [done|]. intros Hu. apply reread.
  - intros k c [Hs _]%living_lookup. by apply (jk_key _ H).
  - intros k c [Hs _]%living_lookup. by apply (jk_key _ H _ _ Hs).
  - intros k c [Hs _]%living_lookup. by eapply Hu.
Qed.

(** An address sets cookies for its own host, or for a domain it is in that is
    no public suffix; the other cookies stay what they were. *)
Lemma accept_cookie_confined u now c p k d : pj_saved (accept_cookie u now c p) !! k = Some d ->
  pj_saved p !! k = Some d \/
  (sv_HostOnly d = true /\ sv_Domain d = lower (Hostname u)) \/
  (sv_HostOnly d = false /\ PublicSuffix (sv_Domain d) <> sv_Domain d /\
   (lower (Hostname u) = sv_Domain d \/ str_has_suffix (lower (Hostname u)) ("." +:+ sv_Domain d) = true)).
Proof.
  unfold Cookies.accept_cookie. cbv zeta. destruct (may_set _ _ _ _ _) eqn:Em; cbn [negb]; [|by left].
  destruct (_ || _).
  - cbn [pj_saved]. intros [_ H]%lookup_delete_Some. by left.
  - cbn [pj_saved]. intros [[_ <-]|[_ H]]%lookup_insert_Some; [|by left]. right. cbn [sv_HostOnly sv_Domain].
    unfold may_set in Em. destruct (String.eqb _ ""); [by left|right]. apply andb_true_iff in Em as [E1 E2]. cbn [orb] in E2.
    split; [done|]. split; [by apply String.eqb_neq, negb_true_iff|]. apply orb_true_iff in E1 as [E1|E1]; [left; by apply String.eqb_eq|by right].
Qed.

(** A lifetime of more than 9223372036 seconds wraps: the cookie is recorded
    with a time before the reply that sets it. *)
Lemma max_age_wraps now : max_age now 9223372037 < now.
Proof. unfold max_age. assert (i64 (9223372037 * Second) < 0) by (vm_compute; reflexivity). lia. Qed.
End Current.

(** A reply sets a cookie for a minute and a session cookie; the first has ended
    when they are saved again.  Times are written in full, cookies are coded by
    their fields. *)
Definition demo_format (t : Z) : string := Itoa t.
Definition demo_time (s : string) : option Z := digits s.
#[export] Instance saved_eq_dec : EqDecision savedCookie.
Proof. solve_decision. Defined.
Definition saved_fields (c : savedCookie) : list string * (bool * bool * bool) :=
  ([sv_Key c; sv_Value c; sv_Domain c; sv_Path c; sv_Expires c; sv_SameSite c; sv_Creation c; sv_LastAccessed c], (sv_Secure c, sv_HTTPOnly c, sv_HostOnly c)).
Definition saved_of_fields (x : list string * (bool * bool * bool)) : option savedCookie :=
  match x with
  | ([k; v; d; p; e; s; c; l], (b1, b2, b3)) => Some (mkSaved k v d p b1 b2 b3 e s c l)
  | _ => None
  end.
#[export] Instance saved_countable : Countable savedCookie.
Proof. apply (inj_countable saved_fields saved_of_fields). by intros []. Defined.

Fixpoint pos_text (p : positive) : string :=
  match p with xH => EmptyString | xO p => String "0" (pos_text p) | xI p => String "1" (pos_text p) end.
Fixpoint text_pos (s : string) : positive :=
  match s with EmptyString => xH | String a s => if Ascii.eqb a "0" then xO (text_pos s) else xI (text_pos s) end.
Lemma text_pos_text p : text_pos (pos_text p) = p.
Proof. induction p as [p IH|p IH|]; cbn; by rewrite ?IH. Qed.

Definition demo_marshal (l : list savedCookie) : string := pos_text (encode l).
Definition demo_unmarshal (s : string) : option (list savedCookie) := decode (text_pos s).
Lemma demo_coding l : demo_unmarshal (demo_marshal l) = Some l.
Proof. unfold demo_unmarshal, demo_marshal. by rewrite text_pos_text, decode_encode. Qed.

Definition demo_url : URL := mkURL "https" "Api.Example.com" "/a/b" "" "".
Definition demo_reply : list Cookie :=
  [mkCookie "sid" "1" "" ".example.com" zero_time 60 true true SameSiteLax; mkCookie "tmp" "2" "" "" zero_time 0 false false SameSiteDefault;
   mkCookie "bad" "3" "/" "other.com" zero_time 0 false false SameSiteDefault].
Definition demo_jar : persistentJar :=
  accept lower_text (fun _ => "com"%string) demo_format demo_url (5 * Second) demo_reply (newPersistentJar demo_time demo_unmarshal 0 "").

Lemma cookies_current_witness :
  let now := 30 * Second in
  (cookieKey <$> (map_to_list (pj_saved demo_jar)).*2) ≡ₚ ["example.com" +:+ String LF "/a" +:+ String LF "sid"; "api.example.com" +:+ String LF "/a" +:+ String LF "tmp"]%string /\
  let '(text, p') := serialize demo_time demo_marshal now (map_to_list (pj_saved demo_jar)) demo_jar in
  size (pj_saved p') = 2%nat /\
  pj_saved (newPersistentJar demo_time demo_unmarshal (70 * Second) text) = living demo_time (70 * Second) (living demo_time now (pj_saved demo_jar)) /\
  size (pj_saved (newPersistentJar demo_time demo_unmarshal (70 * Second) text)) = 1%nat.
Proof.
  intros now. split; [vm_compute; reflexivity|].
  pose proof (cookies_current lower_text (fun _ => "com"%string) demo_time demo_format demo_marshal demo_unmarshal (fun _ => True) (fun l _ => demo_coding l)
    0 "" demo_jar now (map_to_list (pj_saved demo_jar)) (70 * Second)) as H.
  destruct (serialize demo_time demo_marshal now (map_to_list (pj_saved demo_jar)) demo_jar) as [text p'] eqn:E.
  destruct H as (_ & H2 & H3); [|vm_compute; discriminate|done|].
  - eapply rtc_once, js_accept; [|vm_compute; discriminate]. apply Forall_forall. unfold demo_reply. repeat constructor; discriminate.
  - split; [rewrite H2; vm_compute; reflexivity|]. assert (pj_saved (newPersistentJar demo_time demo_unmarshal (70 * Second) text) = living demo_time (70 * Second) (living demo_time now (pj_saved demo_jar))) as Hr
      by (apply H3; intros; exact I).
    split; [exact Hr|]. rewrite Hr. vm_compute. reflexivity.
Defined.
