(* ===== verification/Images.v ===== *)
(** * media: the preparation of images

    Models [Processor.Prepare] of src/internal/media/images.go: the size of a
    converted image, in float64, the estimates of its memory, and [prepare]
    with its admission, decoding, conversion and encoding, as the trace of what
    it does.  The formats, headers and pixels it reads are Media.  The decoders
    and the encoder of Go's image packages, the scaling of golang.org/x/image
    and libheif are parameters. *)
From S2P Require Import Prelude Strconv Float Media.
Open Scope Z_scope.
Open Scope go_scope.

Definition photoMaxBytes : Z := 10 * 1024 * 1024.

Inductive mode := photoMode | thumbnailMode | documentMode.
Definition is_photo (m : mode) : bool := match m with photoMode => true | _ => false end.
Definition is_thumbnail (m : mode) : bool := match m with thumbnailMode => true | _ => false end.

(** ** Sizes *)

(** The quotient of two positive numbers that are floats. *)
Definition float_div (p q : Z) : float := let '(m, e) := round_binary p q in Finite false m e.
(** [min(1.0, f)] of a positive float. *)
Definition at_most_one (f : float) : float :=
  match f with
  | Finite false m e => if (if 0 <=? e then m * 2 ^ e <=? 1 else m <=? 2 ^ (- e)) then f else Finite false 1 0
  | f => f
  end.
(** [max(1, int(float64(n)*f))] *)
Definition scaled (n : Z) (f : float) : Z := Z.max 1 (float_trunc (float_mul f n)).

Definition outputSize (width height : Z) (m : mode) : Z * Z * Z * Z :=
  let '(w, h) :=
    match m with
    | thumbnailMode =>
        let scale := at_most_one (float_div 320 (Z.max width height)) in
        (scaled width scale, scaled height scale)
    | photoMode =>
        if 10000 <? width + height then
          let scale := float_div 10000 (width + height) in
          (scaled width scale, scaled height scale)
        else (width, height)
    | documentMode => (width, height)
    end in
  if is_photo m && (h * 20 <? w) then (w, h, w, (w + 19) / 20)
  else if is_photo m && (w * 20 <? h) then (w, h, (h + 19) / 20, h)
  else (w, h, w, h).

(** The product of two floats that are not negative. *)
Definition float_times (f g : float) : float :=
  match f, g with
  | Finite false m e, Finite false n d =>
      if m * n =? 0 then Finite false 0 (-1074)
      else
        let '(m, e) := if 0 <=? e + d then round_binary (m * n * 2 ^ (e + d)) 1 else round_binary (m * n) (2 ^ (- (e + d))) in Finite false m e
  | _, _ => NaN
  end.

(** math.Sqrt: the root of a number of 105 or 106 bits, with an even exponent,
    has the 53 bits of a float; it is rounded to the nearest. *)
Definition float_sqrt (f : float) : float :=
  match f with
  | Finite false m e =>
      let s := Z.max 0 (104 - Z.log2 m) in
      let s := if Z.even (e - s) then s else s + 1 in
      let n := m * 2 ^ s in
      let r := Z.sqrt n in
      Finite false (if r <? n - r * r then r + 1 else r) ((e - s) / 2)
  | f => f
  end.

Example float_sqrt_two : float_sqrt (Finite false 1 1) = Finite false 6369051672525773 (-52) /\ float_is 3 (float_sqrt (Finite false 9 0)) = true.
Proof. vm_compute. done. Qed.

(** ** Estimates of memory, in an int64 *)

Definition decodedBytes (kind : string) (wide progressive interlaced : bool) : Z :=
  if wide then if interlaced then 16 else 8
  else if String.eqb kind "image/jpeg" && progressive then 20
  else if String.eqb kind "image/jpeg" || String.eqb kind "image/webp" then 8
  else if interlaced then 8
  else 4.

Definition convertedBytes (width height : Z) (m : mode) (orientation : Z) : Z :=
  let '(_, _, paddedW, paddedH) := outputSize width height m in
  i64 (16 * paddedW * paddedH + (if (2 <=? orientation) && (orientation <=? 8) then 4 * width * height else 0)).

(** ** What the float64 arithmetic gives *)

Lemma pow2_pos e : 0 <= e -> 0 < 2 ^ e.
Proof. intros H. by apply Z.pow_pos_nonneg. Qed.

(** The exponent is the one for which the quotient has 53 bits. *)
Lemma normalised p q : 0 < p -> 0 < q -> let k := 52 - (Z.log2 p - Z.log2 q) in
  0 <= k -> 2 ^ 52 * q <= p * 2 ^ (k + 1) /\ (2 ^ 52 * q <= p * 2 ^ k \/ p * 2 ^ k < 2 ^ 52 * q).
Proof.
  intros Hp Hq k Hk. split; [|lia]. destruct (Z.log2_spec p Hp) as [Hlp _]. destruct (Z.log2_spec q Hq) as [_ Hlq].
  pose proof (Z.log2_nonneg p). pose proof (Z.log2_nonneg q).
  assert (2 ^ Z.log2 p * 2 ^ (k + 1) = 2 ^ 52 * 2 ^ Z.succ (Z.log2 q)) as E.
  { rewrite <- !Z.pow_add_r by lia. f_equal. unfold k. lia. }
  pose proof (pow2_pos (k + 1) ltac:(lia)). nia.
Qed.

Lemma round_even_above a q : 0 < q -> 2 ^ 52 * q <= a -> 0 < round_even a q /\ a * (2 ^ 53 - 1) <= round_even a q * q * 2 ^ 53 /\ round_even a q * q * 2 ^ 52 <= a * (2 ^ 52 + 1).
Proof. intros Hq Ha. pose proof (round_even_spec a q ltac:(lia) Hq) as H. apply Z.abs_le in H. nia. Qed.

(** A rounded quotient is at most the quotient and its 2^52-th part. *)
Lemma round_binary_above p q : 0 < p -> 0 < q -> p < 2 ^ 51 * q -> Z.log2 q - Z.log2 p < 1000 ->
  let '(m, e) := round_binary p q in e <= 0 /\ 0 < m /\ p * 2 ^ (- e) * (2 ^ 53 - 1) <= m * q * 2 ^ 53 /\ m * q * 2 ^ 52 <= p * 2 ^ (- e) * (2 ^ 52 + 1).
Proof.
  intros Hp Hq Hpq Hq500. pose proof (log2_quotient p q (2 ^ 51 - 1) Hp Hq) as Ht. unfold round_binary. cbv zeta.
  set (t := Z.log2 p - Z.log2 q) in *. pose proof (Z.log2_nonneg p).
  assert (t <= 51) as Ht51.
  { destruct (Z.le_gt_cases t 51); [done|]. destruct (Z.log2_spec p Hp) as [Hlp _]. destruct (Z.log2_spec q Hq) as [_ Hlq].
    pose proof (Z.log2_nonneg q). assert (2 ^ 51 * 2 ^ Z.succ (Z.log2 q) <= 2 ^ Z.log2 p); [|nia].
    rewrite <- Z.pow_add_r by lia. apply Z.pow_le_mono_r; [lia|]. unfold t in *. lia. }
  replace (Z.max (-1074) (t - 52)) with (t - 52) by lia. destruct (Z.leb_spec 0 (t - 52)); [lia|].
  replace (- (t - 52)) with (52 - t) by lia. destruct (normalised p q Hp Hq ltac:(fold t; lia)) as [Hn1 _]. fold t in Hn1.
  assert (-1074 <? t - 52 = true) as -> by lia. rewrite andb_true_r.
  set (e := if p * 2 ^ (52 - t) <? 2 ^ 52 * q then t - 52 - 1 else t - 52).
  assert (e < 0 /\ 2 ^ 52 * q <= p * 2 ^ (- e)) as [He Hn].
  { unfold e. destruct (Z.ltb_spec (p * 2 ^ (52 - t)) (2 ^ 52 * q)); (split; [lia|]).
    - by replace (- (t - 52 - 1)) with (52 - t + 1) by lia.
    - by replace (- (t - 52)) with (52 - t) by lia. }
  destruct (Z.leb_spec 0 e); [lia|]. destruct (round_even_above _ _ Hq Hn) as (Hm & Hl & Hr).
  destruct (Z.eqb_spec (round_even (p * 2 ^ (- e)) q) (2 ^ 53)) as [E|]; [|split; [lia|done]]. split; [lia|]. split; [lia|].
  rewrite E in Hr, Hl. replace (- e) with (1 + - (e + 1)) in Hr, Hl by lia. rewrite Z.pow_add_r in Hr, Hl by lia. change (2 ^ 1) with 2 in Hr, Hl.
  change (2 ^ 53) with (2 * 2 ^ 52) in Hr, Hl. split; lia.
Qed.

(** What is cut off of a product with a scale of at most one. *)
Lemma scaled_above n m e : 0 < n < 2 ^ 51 -> e <= 0 -> 0 < m <= 2 ^ (- e) -> 2 ^ (- e) <= 2 ^ 100 * m ->
  let t := float_trunc (float_mul (Finite false m e) n) in 0 <= t <= n /\ t * 2 ^ (- e) * 2 ^ 52 <= n * m * (2 ^ 52 + 1).
Proof.
  intros Hn He [Hm Hm1] Hm2. pose proof (pow2_pos (- e) ltac:(lia)) as Hpe. cbn [float_mul].
  destruct (Z.eqb_spec (m * n) 0); [nia|].
  assert ((if 0 <=? e then round_binary (m * n * 2 ^ e) 1 else round_binary (m * n) (2 ^ - e)) = round_binary (m * n) (2 ^ - e)) as ->.
  { destruct (Z.leb_spec 0 e); [|done]. assert (e = 0) as -> by lia. change (2 ^ - 0) with 1. f_equal. change (2 ^ 0) with 1. lia. }
  pose proof (round_binary_between (m * n) (2 ^ - e) 0 n ltac:(nia) Hpe ltac:(lia) ltac:(nia) ltac:(lia)) as Hb.
  pose proof (round_binary_above (m * n) (2 ^ - e) ltac:(nia) Hpe ltac:(nia)) as Ha.
  assert (Z.log2 (2 ^ - e) - Z.log2 (m * n) < 1000) as Hlog.
  { assert (Z.log2 (2 ^ - e) <= Z.log2 (2 ^ 100 * (m * n))) as Hl by (apply Z.log2_le_mono; nia).
    rewrite (Z.mul_comm (2 ^ 100)), Z.log2_mul_pow2 in Hl by nia. lia. }
  specialize (Ha Hlog). destruct (round_binary (m * n) (2 ^ - e)) as [m' x]. destruct Ha as (Hx & Hm' & _ & Ha). destruct Hb as [_ Hb].
  destruct (Z.ltb_spec 971 x); [lia|]. pose proof (float_trunc_between m' x 0 n Hx Hb) as Ht. cbv zeta. split; [done|].
  assert (float_trunc (Finite false m' x) * 2 ^ (- x) <= m') as Hcut.
  { cbn [float_trunc]. destruct (Z.leb_spec 0 x); [assert (x = 0) as -> by lia; cbn; lia|]. rewrite Z.mul_comm. apply Z.mul_div_le, pow2_pos. lia. }
  pose proof (pow2_pos (- x) ltac:(lia)) as Hpx. set (T := float_trunc _) in *. clearbody T.
  assert (T * 2 ^ (- x) * 2 ^ (- e) * 2 ^ 52 <= m * n * 2 ^ (- x) * (2 ^ 52 + 1)) by nia. nia.
Qed.

(** A product with a float, cut off, keeps the bounds of the product. *)
Lemma mul_trunc_between n m e L B : 0 < m * n -> e <= 0 -> 0 <= L -> L * 2 ^ (- e) <= m * n <= B * 2 ^ (- e) -> B < 2 ^ 51 ->
  L <= float_trunc (float_mul (Finite false m e) n) <= B.
Proof.
  intros Hn He HL HLB HB. pose proof (pow2_pos (- e) ltac:(lia)) as Hpe. cbn [float_mul]. destruct (Z.eqb_spec (m * n) 0); [lia|].
  assert ((if 0 <=? e then round_binary (m * n * 2 ^ e) 1 else round_binary (m * n) (2 ^ - e)) = round_binary (m * n) (2 ^ - e)) as ->.
  { destruct (Z.leb_spec 0 e); [|done]. assert (e = 0) as -> by lia. change (2 ^ - 0) with 1. f_equal. change (2 ^ 0) with 1. lia. }
  pose proof (round_binary_between (m * n) (2 ^ - e) L B Hn Hpe HL HLB HB) as Hb.
  destruct (round_binary (m * n) (2 ^ - e)) as [m' x]. destruct Hb as [Hx Hb]. destruct (Z.ltb_spec 971 x); [lia|]. by apply float_trunc_between.
Qed.

(** *** A scale that is a quotient *)

Lemma float_div_spec p q : 0 < p <= q -> q < 2 ^ 40 -> exists m e, float_div p q = Finite false m e /\ e <= 0 /\ 0 < m <= 2 ^ (- e) /\
  2 ^ (- e) <= 2 ^ 100 * m /\ m * q * 2 ^ 52 <= p * 2 ^ (- e) * (2 ^ 52 + 1) /\ p * 2 ^ (- e) * (2 ^ 53 - 1) <= m * q * 2 ^ 53.
Proof.
  intros Hp Hq. unfold float_div. pose proof (round_binary_between p q 0 1 ltac:(lia) ltac:(lia) ltac:(lia) ltac:(lia) ltac:(lia)) as Hb.
  pose proof (round_binary_above p q ltac:(lia) ltac:(lia) ltac:(lia)) as Ha. pose proof (Z.log2_nonneg p).
  assert (Z.log2 q < 40) by (apply Z.log2_lt_pow2; lia). specialize (Ha ltac:(lia)). destruct (round_binary p q) as [m e].
  destruct Ha as (He & Hm & Hl & Hu). exists m, e. split; [done|]. pose proof (pow2_pos (- e) ltac:(lia)). repeat split; try lia. nia.
Qed.

Lemma scaled_by p q n : 0 < p <= q -> q < 2 ^ 40 -> 0 < n < 2 ^ 51 -> let t := float_trunc (float_mul (float_div p q) n) in
  0 <= t <= n /\ t * q * 2 ^ 104 <= p * n * (2 ^ 52 + 1) ^ 2.
Proof.
  intros Hp Hq Hn. destruct (float_div_spec p q Hp Hq) as (m & e & -> & He & Hm & Hl & Hu & _).
  destruct (scaled_above n m e Hn He Hm Hl) as [H1 H2]. cbv zeta in *. split; [done|]. set (t := float_trunc _) in *. clearbody t.
  pose proof (pow2_pos (- e) ltac:(lia)) as Hpe. change (2 ^ 104) with (2 ^ 52 * 2 ^ 52).
  assert (t * q * (2 ^ 52 * 2 ^ 52) * 2 ^ (- e) <= p * n * (2 ^ 52 + 1) ^ 2 * 2 ^ (- e)); [|nia].
  transitivity (n * m * (2 ^ 52 + 1) * (q * 2 ^ 52)); [nia|]. replace ((2 ^ 52 + 1) ^ 2) with ((2 ^ 52 + 1) * (2 ^ 52 + 1)) by lia. nia.
Qed.

(** And what is cut off is less than one, but for the rounding of the scale. *)
Lemma scaled_least p q n : 0 < p <= q -> q < 2 ^ 40 -> 0 < n < 2 ^ 51 -> p * n * (2 ^ 53 - 1) < (float_trunc (float_mul (float_div p q) n) + 1) * q * 2 ^ 53.
Proof.
  intros Hp Hq Hn. destruct (float_div_spec p q Hp Hq) as (m & e & -> & He & Hm & _ & _ & Hl). pose proof (pow2_pos (- e) ltac:(lia)) as Hpe.
  destruct (mul_trunc_between n m e 0 n ltac:(nia) He ltac:(lia) ltac:(nia) ltac:(lia)) as [T1 T2]. set (t := float_trunc _) in *.
  assert (m * n < (t + 1) * 2 ^ (- e)) as Ht.
  { apply Z.nle_gt. intros Hle. assert (t + 1 <= n) by nia.
    destruct (mul_trunc_between n m e (t + 1) n ltac:(nia) He ltac:(lia) ltac:(nia) ltac:(lia)). unfold t in *. lia. }
  clearbody t. set (k := 2 ^ (- e)) in *. clearbody k.
  assert (p * n * (2 ^ 53 - 1) * k < (t + 1) * q * 2 ^ 53 * k); [|nia].
  assert (p * n * (2 ^ 53 - 1) * k <= n * (m * q * 2 ^ 53)) by nia. nia.
Qed.

Lemma photo_scaled w h : 0 < w -> 0 < h -> 10000 < w + h <= 2 ^ 30 ->
  let f := float_div 10000 (w + h) in 9998 <= scaled w f + scaled h f <= 10000 /\ 1 <= scaled w f <= w /\ 1 <= scaled h f <= h.
Proof.
  intros Hw Hh HS f. destruct (scaled_by 10000 (w + h) w ltac:(lia) ltac:(lia) ltac:(lia)) as [W1 W2].
  destruct (scaled_by 10000 (w + h) h ltac:(lia) ltac:(lia) ltac:(lia)) as [H1 H2]. cbv zeta in *. fold f in W1, W2, H1, H2.
  pose proof (scaled_least 10000 (w + h) w ltac:(lia) ltac:(lia) ltac:(lia)) as W3.
  pose proof (scaled_least 10000 (w + h) h ltac:(lia) ltac:(lia) ltac:(lia)) as H3. fold f in W3, H3.
  unfold scaled. set (tw := float_trunc (float_mul f w)) in *. set (th := float_trunc (float_mul f h)) in *. clearbody tw th. clear f.
  split; [|lia]. split; [assert (10000 * (2 ^ 53 - 1) < (tw + th + 2) * 2 ^ 53); [nia|lia]|]. set (K := (2 ^ 52 + 1) ^ 2) in *. assert (K = 2 ^ 104 + 2 ^ 53 + 1) as HK by reflexivity. clearbody K. subst K.
  assert ((tw + th) * (w + h) * 2 ^ 104 <= 10000 * (w + h) * (2 ^ 104 + 2 ^ 53 + 1)) by lia. assert (tw + th <= 10000) by nia.
  destruct (Z.max_spec 1 tw) as [[? ->]|[? ->]]; destruct (Z.max_spec 1 th) as [[? ->]|[? ->]]; try lia.
  - assert (tw <> 10000); [|lia]. intros ->. nia.
  - assert (th <> 10000); [|lia]. intros ->. nia.
Qed.

Lemma thumbnail_scaled w h n : 0 < n <= Z.max w h -> Z.max w h < 2 ^ 30 ->
  let f := at_most_one (float_div 320 (Z.max w h)) in 1 <= scaled n f <= n /\ scaled n f <= 320 /\ (Z.max w h <= 320 -> scaled n f = n) /\ (n = Z.max w h -> 320 <= n -> 319 <= scaled n f).
Proof.
  intros Hn HM f. set (M := Z.max w h) in *. destruct (Z.lt_ge_cases M 320) as [Hlt|Hge].
  - assert (f = Finite false 1 0) as ->.
    { assert (forall k, (k < 319)%nat -> at_most_one (float_div 320 (Z.of_nat (S k))) = Finite false 1 0) as Hall.
      { intros k Hk. assert (forallb (fun k => match at_most_one (float_div 320 (Z.of_nat (S k))) with Finite false 1 0 => true | _ => false end) (seq 0 319) = true) as Hb
          by (vm_compute; reflexivity).
        rewrite forallb_forall in Hb. specialize (Hb k ltac:(apply in_seq; lia)). cbv beta in Hb. clear -Hb.
        destruct (at_most_one _) as [[|] [|[?|?|]|?] [|?|?]|?|]; try discriminate Hb. reflexivity. }
      unfold f. replace M with (Z.of_nat (S (Z.to_nat (M - 1)))) by lia. apply Hall. lia. }
    destruct (mul_trunc_between n 1 0 n n ltac:(lia) ltac:(lia) ltac:(lia) ltac:(cbn; lia) ltac:(lia)) as [H1 H2]. unfold scaled. lia.
  - assert (f = float_div 320 M) as ->.
    { destruct (float_div_spec 320 M ltac:(lia) ltac:(lia)) as (m & e & E & He & Hm & _). unfold f. rewrite E. cbn [at_most_one].
      destruct (Z.leb_spec 0 e); [assert (e = 0) as -> by lia; change (m * 2 ^ 0) with (m * 1)|].
      - rewrite (proj2 (Z.leb_le _ _)); [done|]. change (2 ^ - 0) with 1 in Hm. lia.
      - rewrite (proj2 (Z.leb_le _ _)); [done|lia]. }
    assert (M <= 320 -> float_trunc (float_mul (float_div 320 M) n) = n) as Hall.
    { intros HM'. assert (M = 320) as -> by lia. assert (float_div 320 320 = Finite false (2 ^ 52) (-52)) as -> by (vm_compute; reflexivity).
      destruct (mul_trunc_between n (2 ^ 52) (-52) n n ltac:(lia) ltac:(lia) ltac:(lia) ltac:(cbn; lia) ltac:(lia)). lia. }
    destruct (scaled_by 320 M n ltac:(lia) ltac:(lia) ltac:(lia)) as [H1 H2]. pose proof (scaled_least 320 M n ltac:(lia) ltac:(lia) ltac:(lia)) as H3. cbv zeta in *. unfold scaled. set (t := float_trunc _) in *. clearbody t.
    set (K := (2 ^ 52 + 1) ^ 2) in *. assert (K = 2 ^ 104 + 2 ^ 53 + 1) as HK by reflexivity. clearbody K. subst K.
    assert (t <= 320) by nia. assert (n = M -> 319 <= t) by nia. split; [lia|]. split; [lia|]. lia.
Qed.

(** *** The size of the output *)

(** A canvas for an image of [W] by [H]: the image itself, within the sides of its
    mode, on the least canvas whose ratio a photo may have. *)
Definition canvas (m : mode) (W H pw ph : Z) : Prop := exists w h, 1 <= w <= W /\ 1 <= h <= H /\
  match m with
  | documentMode => w = W /\ h = H /\ pw = w /\ ph = h
  | thumbnailMode => w <= 320 /\ h <= 320 /\ (Z.max W H <= 320 -> w = W /\ h = H) /\ Z.min 319 (Z.max W H) <= Z.max w h /\ pw = w /\ ph = h
  | photoMode => w + h <= 10000 /\ (W + H <= 10000 -> w = W /\ h = H) /\ Z.min 9998 (W + H) <= w + h /\ pw = Z.max w ((h + 19) / 20) /\ ph = Z.max h ((w + 19) / 20)
  end.

Lemma outputSize_canvas w h m : 0 < w -> 0 < h -> w + h <= 2 ^ 30 ->
  let '(w1, h1, pw, ph) := outputSize w h m in canvas m w h pw ph.
Proof.
  intros Hw Hh HS. unfold outputSize.
  assert (forall w1 h1, 1 <= w1 <= w -> 1 <= h1 <= h -> (m = documentMode -> w1 = w /\ h1 = h) -> (m = thumbnailMode -> w1 <= 320 /\ h1 <= 320 /\ (Z.max w h <= 320 -> w1 = w /\ h1 = h) /\ Z.min 319 (Z.max w h) <= Z.max w1 h1) ->
    (m = photoMode -> w1 + h1 <= 10000 /\ (w + h <= 10000 -> w1 = w /\ h1 = h) /\ Z.min 9998 (w + h) <= w1 + h1) ->
    let '(w1, h1, pw, ph) := if is_photo m && (h1 * 20 <? w1) then (w1, h1, w1, (w1 + 19) / 20)
      else if is_photo m && (w1 * 20 <? h1) then (w1, h1, (h1 + 19) / 20, h1) else (w1, h1, w1, h1) in canvas m w h pw ph) as Hpad.
  { intros w1 h1 H1 H2 Hd Ht Hp. pose proof (Z.div_mod (w1 + 19) 20 ltac:(lia)). pose proof (Z.mod_pos_bound (w1 + 19) 20 ltac:(lia)).
    pose proof (Z.div_mod (h1 + 19) 20 ltac:(lia)). pose proof (Z.mod_pos_bound (h1 + 19) 20 ltac:(lia)).
    destruct m; cbn [is_photo andb].
    - destruct (Hp eq_refl) as (? & ? & ?). destruct (Z.ltb_spec (h1 * 20) w1); [|destruct (Z.ltb_spec (w1 * 20) h1)]; exists w1, h1; repeat split; try done; tauto || lia.
    - destruct (Ht eq_refl) as (? & ? & Hu & ?). exists w1, h1. repeat split; try lia; apply Hu.
    - destruct (Hd eq_refl). exists w1, h1. repeat split; lia. }
  destruct m.
  - destruct (Z.ltb_spec 10000 (w + h)).
    + destruct (photo_scaled w h Hw Hh ltac:(lia)) as (P1 & P2 & P3). cbv zeta in *. apply Hpad; try done. intros _. split; [lia|]. split; [lia|lia].
    + apply Hpad; try done; lia.
  - destruct (thumbnail_scaled w h w ltac:(lia) ltac:(lia)) as (T1 & T2 & T3 & T4). destruct (thumbnail_scaled w h h ltac:(lia) ltac:(lia)) as (T5 & T6 & T7 & T8).
    cbv zeta in *. apply Hpad; try done. intros _. split; [done|]. split; [done|]. split; [auto|].
    destruct (Z.le_gt_cases (Z.max w h) 320) as [Hle|Hgt]; [rewrite T3, T7 by done; lia|].
    destruct (Z.max_spec w h) as [[? E]|[? E]]; rewrite E in *; [specialize (T8 eq_refl ltac:(lia))|specialize (T4 eq_refl ltac:(lia))]; lia.
  - apply Hpad; try done; lia.
Qed.

(** The canvas of a photo has a ratio of at most twenty, and sides of ten
    thousand in all unless it is padded; any other is within its image. *)
Lemma canvas_sides m W H pw ph : canvas m W H pw ph -> 1 <= pw /\ 1 <= ph /\
  match m with
  | photoMode => pw <= 20 * ph /\ ph <= 20 * pw /\ pw <= 10000 /\ ph <= 10000
  | _ => pw <= W /\ ph <= H
  end.
Proof.
  intros (w & h & Hw & Hh & Hm). pose proof (Z.div_mod (w + 19) 20 ltac:(lia)). pose proof (Z.mod_pos_bound (w + 19) 20 ltac:(lia)).
  pose proof (Z.div_mod (h + 19) 20 ltac:(lia)). pose proof (Z.mod_pos_bound (h + 19) 20 ltac:(lia)). destruct m; lia.
Qed.

(** Padding comes after the sides have been scaled to ten thousand in all. *)
Lemma padded_exceeds : outputSize 20000 1 photoMode = (9999, 1, 9999, 500) /\ outputSize 9990 5 photoMode = (9990, 5, 9990, 500).
Proof. vm_compute. done. Qed.

(** ** The preparation of an image *)

(** The pixels of the types [preparePixels] and [rgbaAt] tell apart: RGBA, NRGBA,
    the types that are always opaque, and the others. *)
Inductive pixel_type := RGBA | NRGBA | Opaque | OtherPixels.
Record image := mkImage { im_W : Z; im_H : Z; im_type : pixel_type; im_pix : list (Z * Z * Z * Z) }.

(** What image.DecodeConfig tells; [cf_wide] is a colour model of 16 bits. *)
Record config := mkConfig { cf_Width : Z; cf_Height : Z; cf_wide : bool }.

Inductive prepareErr :=
| Ended (e : string)          (* a context *)
| Incomplete | UnsupportedFormat | DimensionsExceed | ExceedsDeclared | ExceedsLimit
| Codec (e : string) | HeifFailed (e : heifErr) | WebPFailed (e : webpErr).

Record Prepared := mkPrepared { pp_Data : bytes; pp_Filename : string; pp_ContentType : string; pp_Size : Z; pp_Owned : bool }.

(** What a preparation does, in order. *)
Inductive event :=
| TakeSlot | LeaveSlot
| Acquire (n : Z) | Release (n : Z)
| Decode
| Encode (w h quality : Z) (out : bytes).

Section Prepare.
(** image.DecodeConfig and image.Decode, decodeHEIF with the size of the image it
    checks, the canvas of a WebP animation's first frame; the colours of an
    image as RGBA; image/draw and the scaling of golang.org/x/image; image/jpeg. *)
Context (DecodeConfig : bytes -> res string config) (DecodeImage : bytes -> res string image)
        (heif_header : bytes -> res string (Z * Z)) (heif_decode : bytes -> res string image) (composite : Z -> Z -> webpFrame -> res string image)
        (colours : image -> list (Z * Z * Z * Z)) (draw : bool -> bool -> Z * Z -> Z * Z -> Z * Z -> image -> list (Z * Z * Z * Z))
        (resize : Z -> Z -> image -> list (Z * Z * Z * Z)) (jpeg : image -> Z -> res string bytes).
(** The processor's memory, and the outcome of waiting for it; the ends of the
    context seen before the conversion and before each encoding. *)
Context (budget : Z) (admission ended : option string) (ended_at : nat -> option string).

Definition still_config (data : bytes) : option (Z * Z) :=
  match DecodeConfig data with Ok c => Some (cf_Width c, cf_Height c) | Err _ => None end.

(** [orient]: an image of RGBA pixels when it turns. *)
Definition orient_image (img : image) (orientation : Z) : image :=
  if (orientation <? 2) || (8 <? orientation) then img
  else let '(w, h, pix) := orient (0, 0, 0, 0) (im_W img) (im_H img) (colours img) orientation in mkImage w h RGBA pix.

Definition preparePixels (img : image) (width height paddedW paddedH : Z) : image :=
  let in_place := (im_W img =? width) && (im_H img =? height) && (width =? paddedW) && (height =? paddedH) in
  match in_place, im_type img with
  | true, RGBA => mkImage width height RGBA (flatten false (im_pix img))
  | true, NRGBA => mkImage width height RGBA (flatten true (im_pix img))
  | _, t =>
      let over := match t with Opaque => false | _ => true end in
      let white := over || negb (width =? paddedW) || negb (height =? paddedH) in
      mkImage paddedW paddedH RGBA (draw over white (Z.quot (paddedW - width) 2, Z.quot (paddedH - height) 2) (width, height) (paddedW, paddedH) img)
  end.

Definition size_limit (m : mode) : Z := match m with thumbnailMode => 199999 | photoMode => photoMaxBytes | documentMode => maxInt64 end.
Definition first_quality (m : mode) : Z := match m with thumbnailMode => 80 | _ => 85 end.

(** math.Sqrt(float64(limit)/float64(length)) * 0.95 *)
Definition shrink (limit length : Z) : float := float_times (float_sqrt (float_div limit length)) (float_div 95 100).

(** The four attempts; the first image is encoded twice. *)
Fixpoint attempts (n : nat) (attempt : nat) (limit quality : Z) (dst : image) : list event * res prepareErr bytes :=
  match n with
  | O => ([], Err ExceedsLimit)
  | S n =>
      match ended_at attempt with
      | Some e => ([], Err (Ended e))
      | None =>
          match jpeg dst quality with
          | Err e => ([], Err (Codec e))
          | Ok out =>
              let done := Encode (im_W dst) (im_H dst) quality out in
              if len out <=? limit then ([done], Ok out)
              else
                let dst :=
                  if (1 <=? attempt)%nat && (attempt <? 3)%nat then
                    let scale := shrink limit (len out) in
                    let w := scaled (im_W dst) scale in
                    let h := scaled (im_H dst) scale in
                    mkImage w h RGBA (resize w h dst)
                  else dst in
                let '(evs, r) := attempts n (S attempt) limit 75 dst in (done :: evs, r)
          end
      end
  end.

Definition convert (m : mode) (filename : string) (img : image) : list event * res prepareErr Prepared :=
  match ended with
  | Some e => ([], Err (Ended e))
  | None =>
      let '(w, h, pw, ph) := outputSize (im_W img) (im_H img) m in
      let '(evs, r) := attempts 4 0 (size_limit m) (first_quality m) (preparePixels img w h pw ph) in
      (evs, match r with
            | Err e => Err e
            | Ok out => Ok (mkPrepared out (FilenameForType filename "image/jpeg") "image/jpeg" (len out) true)
            end)
  end.

(** [reserve], and the deferred release. *)
Definition with_memory (width height : Z) (cost : Z -> Z) (k : list event * res prepareErr Prepared) : list event * res prepareErr Prepared :=
  match reserve_pixels budget width height cost with
  | None => ([], Err DimensionsExceed)
  | Some n =>
      match admission with
      | Some e => ([], Err (Ended e))
      | None => (Acquire n :: k.1 ++ [Release n], k.2)
      end
  end.

(** Pixels are decoded, then used. *)
Definition decoded {A} (r : res prepareErr A) (k : A -> list event * res prepareErr Prepared) : list event * res prepareErr Prepared :=
  match r with
  | Err e => ([Decode], Err e)
  | Ok a => let '(evs, r) := k a in (Decode :: evs, r)
  end.
Definition codec {A} (r : res string A) : res prepareErr A := match r with Ok a => Ok a | Err e => Err (Codec e) end.

(** [validated]: the source is forwarded. *)
Definition validated (filename kind : string) (data : bytes) (size : Z) : list event * res prepareErr Prepared :=
  decoded (codec (DecodeImage data)) (fun _ => ([], Ok (mkPrepared data (FilenameForType filename kind) kind size false))).

Definition prepare_animation (m : mode) (filename : string) (prefix data : bytes) : list event * res prepareErr Prepared :=
  match webPCanvas prefix with
  | Err e => ([], Err (WebPFailed e))
  | Ok (width, height) =>
      with_memory width height (fun pixels => i64 (12 * pixels + convertedBytes width height m 1))
        (match firstWebPFrame still_config data width height with
         | Err e => ([], Err (WebPFailed e))
         | Ok frame => decoded (codec (composite width height frame)) (convert m filename)
         end)
  end.

Definition heif_cost (m : mode) (size w h : Z) : Z := i64 (16 * w * h + 2 * size + convertedBytes w h m 1).
Definition prepare_heif (m : mode) (filename : string) (data : bytes) (size : Z) : list event * res prepareErr Prepared :=
  match heifSize data with
  | Err e => ([], Err (HeifFailed e))
  | Ok (width, height) =>
      let reserved := heif_cost m size width height in
      with_memory width height (fun _ => reserved)
        (match heif_header data with
         | Err e => ([], Err (Codec e))
         | Ok (w, h) =>
             if reserved <? heif_cost m size w h then ([], Err ExceedsDeclared)
             else decoded (codec (heif_decode data)) (convert m filename)
         end)
  end.

(** float64(a)/float64(b) <= 20 *)
Definition ratio_ok (a b : Z) : bool := match float_div a b with Finite _ m e => if 0 <=? e then m * 2 ^ e <=? 20 else m <=? 20 * 2 ^ (- e) | _ => false end.

Definition thumbnail_fits (m : mode) (kind : string) (w h size : Z) : bool :=
  is_thumbnail m && String.eqb kind "image/jpeg" && (w <=? 320) && (h <=? 320) && (size <? 200000).
Definition photo_fits (m : mode) (native : bool) (w h size : Z) : bool :=
  is_photo m && native && (size <=? photoMaxBytes) && (w + h <=? 10000) && ratio_ok w h && ratio_ok h w.

Definition prepare_still (m : mode) (filename kind : string) (native : bool) (prefix data : bytes) (size : Z) : list event * res prepareErr Prepared :=
  match DecodeConfig data with
  | Err e => ([], Err (Codec e))
  | Ok c =>
      let width := cf_Width c in
      let height := cf_Height c in
      let fits := thumbnail_fits m kind width height size || photo_fits m native width height size in
      let progressive := String.eqb kind "image/jpeg" && progressiveJPEG data in
      let interlaced := String.eqb kind "image/png" && (28 <? len prefix) && (byte_at prefix 28 =? 1) in
      let orientation := readOrientation data kind in
      let bytes_per_pixel := decodedBytes kind (cf_wide c) progressive interlaced in
      with_memory width height (fun pixels => if fits then i64 (bytes_per_pixel * pixels) else i64 (bytes_per_pixel * pixels + convertedBytes width height m orientation))
        (if fits then validated filename kind data size
         else decoded (codec (DecodeImage data)) (fun img => convert m filename (orient_image img orientation)))
  end.

(** [slot] is the outcome of waiting for a slot; a buffer that is not complete
    has a negative size. *)
Definition prepare (m : mode) (filename : string) (slot : option string) (data : bytes) (size : Z) : list event * res prepareErr Prepared :=
  match slot with
  | Some e => ([], Err (Ended e))
  | None =>
      let '(evs, r) :=
        if size <? 0 then ([], Err Incomplete)
        else
          let prefix := slice 0 32 data in
          let kind := DetectImageType prefix in
          if String.eqb kind "" then ([], Err UnsupportedFormat)
          else
            let animatedWebP := String.eqb kind "image/webp" && (20 <? len prefix) && ascii_at prefix 12 16 "VP8X" && negb (Z.land (byte_at prefix 20) 2 =? 0) in
            let native := (String.eqb kind "image/jpeg" || String.eqb kind "image/png" || String.eqb kind "image/webp") &&
                          negb (animatedWebP || String.eqb kind "image/png" && animatedPNG data) in
            if animatedWebP then prepare_animation m filename prefix data
            else if String.eqb kind "image/heic" || String.eqb kind "image/heif" || String.eqb kind "image/avif" then prepare_heif m filename data size
            else prepare_still m filename kind native prefix data size in
      (TakeSlot :: evs ++ [LeaveSlot], r)
  end.
End Prepare.

(** [Prepare] and [PrepareDocument]. *)
Definition Prepare_mode (thumbnail : bool) : mode := if thumbnail then thumbnailMode else photoMode.

(** *** Shrinking *)

Definition unit_float (f : float) : Prop := exists m e, f = Finite false m e /\ e <= 0 /\ 0 <= m <= 2 ^ (- e).

Lemma scaled_le n f : 0 < n < 2 ^ 51 -> unit_float f -> 1 <= scaled n f <= n.
Proof.
  intros Hn (m & e & -> & He & Hm). pose proof (pow2_pos (- e) ltac:(lia)) as Hpe. unfold scaled. cbn [float_mul].
  destruct (Z.eqb_spec (m * n) 0); [assert (float_trunc (Finite false 0 (-1074)) = 0) as -> by (vm_compute; reflexivity); lia|].
  assert ((if 0 <=? e then round_binary (m * n * 2 ^ e) 1 else round_binary (m * n) (2 ^ - e)) = round_binary (m * n) (2 ^ - e)) as ->.
  { destruct (Z.leb_spec 0 e); [|done]. assert (e = 0) as -> by lia. change (2 ^ - 0) with 1. f_equal. change (2 ^ 0) with 1. lia. }
  pose proof (round_binary_between (m * n) (2 ^ - e) 0 n ltac:(nia) Hpe ltac:(lia) ltac:(nia) ltac:(lia)) as Hb.
  destruct (round_binary (m * n) (2 ^ - e)) as [m' x]. destruct Hb as [Hx Hb]. destruct (Z.ltb_spec 971 x); [lia|].
  pose proof (float_trunc_between m' x 0 n Hx Hb). lia.
Qed.

Lemma unit_div p q : 0 < p <= q -> unit_float (float_div p q).
Proof.
  intros H. unfold float_div. pose proof (round_binary_between p q 0 1 ltac:(lia) ltac:(lia) ltac:(lia) ltac:(lia) ltac:(lia)) as Hb.
  destruct (round_binary p q) as [m e]. exists m, e. split; [done|]. lia.
Qed.

Lemma unit_sqrt f : unit_float f -> unit_float (float_sqrt f).
Proof.
  intros (m & e & -> & He & Hm). cbn [float_sqrt]. set (s0 := Z.max 0 (104 - Z.log2 m)).
  assert (exists s, (if Z.even (e - s0) then s0 else s0 + 1) = s /\ 0 <= s /\ Z.even (e - s) = true) as (s & -> & Hs & Hev).
  { destruct (Z.even (e - s0)) eqn:E; [exists s0; split; [done|]; split; [lia|done]|]. exists (s0 + 1). split; [done|]. split; [lia|].
    replace (e - (s0 + 1)) with (Z.pred (e - s0)) by lia. by rewrite Z.even_pred, <- Z.negb_even, E. }
  apply Z.even_spec in Hev as [g Hg]. assert ((e - s) / 2 = g) as -> by (rewrite Hg, Z.mul_comm; by apply Z.div_mul).
  eexists _, g. split; [done|]. split; [lia|]. set (n := m * 2 ^ s). assert (0 <= n) by (unfold n; pose proof (pow2_pos s Hs); nia).
  assert (n <= 2 ^ (- g) * 2 ^ (- g)) as Hn.
  { rewrite <- Z.pow_add_r by lia. replace (- g + - g) with (- e + s) by lia. rewrite Z.pow_add_r by lia. unfold n. pose proof (pow2_pos s Hs). nia. }
  pose proof (pow2_pos (- g) ltac:(lia)) as Hp. pose proof (Z.sqrt_spec n ltac:(lia)) as [Hr1 Hr2]. pose proof (Z.sqrt_nonneg n).
  set (r := Z.sqrt n) in *. clearbody r. destruct (Z.ltb_spec r (n - r * r)); nia.
Qed.

Lemma unit_times f g : unit_float f -> unit_float g -> unit_float (float_times f g).
Proof.
  intros (m & e & -> & He & Hm) (n & d & -> & Hd & Hn). cbn [float_times]. destruct (Z.eqb_spec (m * n) 0).
  { exists 0, (-1074). split; [done|]. split; [done|]. split; [done|apply Z.pow_nonneg; lia]. }
  pose proof (pow2_pos (- e) ltac:(lia)). pose proof (pow2_pos (- d) ltac:(lia)).
  assert (m * n <= 2 ^ (- (e + d))) as Hmn by (replace (- (e + d)) with (- e + - d) by lia; rewrite Z.pow_add_r by lia; nia).
  assert ((if 0 <=? e + d then round_binary (m * n * 2 ^ (e + d)) 1 else round_binary (m * n) (2 ^ - (e + d))) = round_binary (m * n) (2 ^ - (e + d))) as ->.
  { destruct (Z.leb_spec 0 (e + d)); [|done]. assert (e + d = 0) as -> by lia. change (2 ^ - 0) with 1. f_equal. change (2 ^ 0) with 1. lia. }
  pose proof (round_binary_between (m * n) (2 ^ - (e + d)) 0 1 ltac:(nia) ltac:(apply pow2_pos; lia) ltac:(lia) ltac:(lia) ltac:(lia)) as Hb.
  destruct (round_binary _ _) as [m' x]. exists m', x. split; [done|]. lia.
Qed.

(** Two sides shrunk by the same factor keep their ratio, to the pixel cut off. *)
Lemma scaled_ratio w h c f : 0 < w < 2 ^ 40 -> 0 < h < 2 ^ 40 -> 0 <= c < 2 ^ 10 -> unit_float f -> w <= 20 * h + c ->
  scaled w f <= 20 * scaled h f + (c + 20).
Proof.
  intros Hw Hh Hc (m & e & -> & He & Hm) Hr. unfold scaled. pose proof (pow2_pos (- e) ltac:(lia)) as Hpe.
  destruct (Z.eq_dec m 0) as [->|Hm0].
  { assert (forall n, float_trunc (float_mul (Finite false 0 e) n) = 0) as Hz by (intros n; cbn [float_mul]; vm_compute; reflexivity). rewrite !Hz. lia. }
  destruct (mul_trunc_between h m e 0 h ltac:(nia) He ltac:(lia) ltac:(nia) ltac:(lia)) as [T1 T2].
  set (t := float_trunc (float_mul (Finite false m e) h)) in *.
  assert (m * h < (t + 1) * 2 ^ (- e)) as Ht.
  { apply Z.nle_gt. intros Hle. destruct (mul_trunc_between h m e (t + 1) h ltac:(nia) He ltac:(lia) ltac:(nia) ltac:(lia)). unfold t in *. lia. }
  destruct (mul_trunc_between w m e 0 (20 * t + (c + 20)) ltac:(nia) He ltac:(lia) ltac:(nia) ltac:(lia)). lia.
Qed.

Lemma unit_shrink limit length : 0 < limit <= length -> unit_float (shrink limit length).
Proof. intros H. apply unit_times; [apply unit_sqrt; by apply unit_div|apply unit_div; lia]. Qed.

(** A quotient of at most 20 in float64 is one of at most 20. *)
Lemma ratio_ok_sound a b : 0 < a < 2 ^ 40 -> 0 < b < 2 ^ 40 -> ratio_ok a b = true -> a <= 20 * b.
Proof.
  intros Ha Hb. unfold ratio_ok, float_div. pose proof (round_binary_above a b ltac:(lia) ltac:(lia) ltac:(lia)) as H.
  assert (Z.log2 b < 40) by (apply Z.log2_lt_pow2; lia). pose proof (Z.log2_nonneg a). specialize (H ltac:(lia)).
  destruct (round_binary a b) as [m e]. destruct H as (He & Hm & Hl & _). pose proof (pow2_pos (- e) ltac:(lia)) as Hp. intros Hr.
  assert (m <= 20 * 2 ^ (- e)) as Hm20.
  { destruct (Z.leb_spec 0 e); [|by apply Z.leb_le]. assert (e = 0) as -> by lia. apply Z.leb_le in Hr. change (2 ^ 0) with 1 in Hr. change (2 ^ - 0) with 1. lia. }
  assert (a * (2 ^ 53 - 1) <= 20 * b * 2 ^ 53); [|lia].
  assert (a * (2 ^ 53 - 1) * 2 ^ (- e) <= 20 * b * 2 ^ 53 * 2 ^ (- e)); [|nia]. nia.
Qed.

(** ** What a preparation gives *)

Section Prepared.
Context (DecodeConfig : bytes -> res string config) (DecodeImage : bytes -> res string image)
        (heif_header : bytes -> res string (Z * Z)) (heif_decode : bytes -> res string image) (composite : Z -> Z -> webpFrame -> res string image)
        (colours : image -> list (Z * Z * Z * Z)) (draw : bool -> bool -> Z * Z -> Z * Z -> Z * Z -> image -> list (Z * Z * Z * Z))
        (resize : Z -> Z -> image -> list (Z * Z * Z * Z)) (jpeg : image -> Z -> res string bytes).
Context (budget : Z) (admission ended : option string) (ended_at : nat -> option string).
(** Decoded pixels are in memory: the sides of an image are far from an int's range. *)
Definition sane (img : image) : Prop := 0 < im_W img /\ 0 < im_H img /\ im_W img + im_H img <= 2 ^ 30.
Context (Hdecode : forall data img, DecodeImage data = Ok img -> sane img) (Hheif : forall data img, heif_decode data = Ok img -> sane img)
        (Hcomposite : forall w h f img, composite w h f = Ok img -> sane img).

Notation prepare := (prepare DecodeConfig DecodeImage heif_header heif_decode composite colours draw resize jpeg budget admission ended ended_at).
Notation convert := (convert draw resize jpeg ended ended_at).
Notation attempts := (attempts resize jpeg ended_at).
Notation prepare_animation := (prepare_animation DecodeConfig composite draw resize jpeg budget admission ended ended_at).
Notation prepare_heif := (prepare_heif heif_header heif_decode draw resize jpeg budget admission ended ended_at).
Notation prepare_still := (prepare_still DecodeConfig DecodeImage colours draw resize jpeg budget admission ended ended_at).

Definition is_work (ev : event) : Prop := match ev with Decode | Encode _ _ _ _ => True | _ => False end.

(** The images a source decodes to, which may be turned. *)
Definition decodes (data : bytes) (img : image) : Prop :=
  DecodeImage data = Ok img \/ heif_decode data = Ok img \/
  exists w h frame, webPCanvas (slice 0 32 data) = Ok (w, h) /\ firstWebPFrame (still_config DecodeConfig) data w h = Ok frame /\ composite w h frame = Ok img.
Definition sides (img : image) (W H : Z) : Prop := W = im_W img /\ H = im_H img \/ W = im_H img /\ H = im_W img.

(** Smaller, and of the same ratio to the pixels cut off. *)
Definition shrunk (pw ph w h : Z) : Prop :=
  1 <= w <= pw /\ 1 <= h <= ph /\ (pw <= 20 * ph -> w <= 20 * h + 40) /\ (ph <= 20 * pw -> h <= 20 * w + 40).

(** A JPEG is of the whole canvas of the decoded image, or of a smaller one when
    that one was too long. *)
Definition of_canvas (m : mode) (pw ph : Z) (evs : list event) (out : bytes) : Prop :=
  exists w h q, Encode w h q out ∈ evs /\
    (w = pw /\ h = ph \/ shrunk pw ph w h /\ exists q' big, Encode pw ph q' big ∈ evs /\ size_limit m < len big).
Definition converted (m : mode) (data : bytes) (evs : list event) (out : bytes) : Prop :=
  len out <= size_limit m /\ exists img W H pw ph, decodes data img /\ sides img W H /\ canvas m W H pw ph /\ of_canvas m pw ph evs out.
Definition forwarded (m : mode) (data : bytes) (size : Z) (kind : string) : Prop :=
  exists c, DecodeConfig data = Ok c /\ is_ok (DecodeImage data) = true /\ 0 < cf_Width c /\ 0 < cf_Height c /\
  match m with
  | thumbnailMode => kind = "image/jpeg"%string /\ cf_Width c <= 320 /\ cf_Height c <= 320 /\ size <= size_limit m
  | photoMode => kind ∈ ["image/jpeg"; "image/png"; "image/webp"]%string /\ size <= size_limit m /\
      cf_Width c + cf_Height c <= 10000 /\ cf_Width c <= 20 * cf_Height c /\ cf_Height c <= 20 * cf_Width c
  | documentMode => False
  end.

(** How far the ratio may go from there on: two of the attempts shrink. *)
Definition slack (k : nat) : Z := match k with O | S O => 40 | S (S O) => 20 | _ => 0 end.
Definition narrow (c w h : Z) : Prop := w <= 20 * h + c.

Lemma attempts_spec n k limit q dst evs r : attempts n k limit q dst = (evs, r) ->
  Forall is_work evs /\
  forall out, r = Ok out -> len out <= limit /\
    (0 < limit -> 0 < im_W dst < 2 ^ 40 -> 0 < im_H dst < 2 ^ 40 -> exists w h q', Encode w h q' out ∈ evs /\ 1 <= w <= im_W dst /\ 1 <= h <= im_H dst /\
      (forall c, 0 <= c -> c + slack k < 2 ^ 10 -> (narrow c (im_W dst) (im_H dst) -> narrow (c + slack k) w h) /\ (narrow c (im_H dst) (im_W dst) -> narrow (c + slack k) h w)) /\
      (w = im_W dst /\ h = im_H dst \/ exists q'' big, Encode (im_W dst) (im_H dst) q'' big ∈ evs /\ limit < len big)).
Proof.
  revert k q dst evs r. induction n as [|n IH]; intros k q dst evs r H; cbn [Images.attempts] in H.
  { injection H as <- <-. by split. }
  destruct (ended_at k); [injection H as <- <-; by split|]. destruct (jpeg dst q) as [out|e]; [|injection H as <- <-; by split].
  destruct (Z.leb_spec (len out) limit) as [Hle|Hgt].
  { injection H as <- <-. split; [by repeat constructor|]. intros out' [= <-]. split; [done|]. intros _ HW HH. exists (im_W dst), (im_H dst), q.
    split; [by left|]. split; [lia|]. split; [lia|]. split; [|by left]. assert (0 <= slack k) by (by destruct k as [|[|[|k]]]). unfold narrow. lia. }
  set (dst' := if _ && _ then _ else dst) in H. destruct (attempts n (S k) limit 75 dst') as [evs' r'] eqn:E. injection H as <- <-.
  destruct (IH _ _ _ _ _ E) as [I1 I2]. split; [by constructor|]. intros out' Hout. destruct (I2 out' Hout) as [I3 I4]. split; [done|].
  intros Hl HW HH. assert (0 <= slack (S k)) as Hs0 by (by destruct k as [|[|k]]).
  assert ((1 <= im_W dst' <= im_W dst /\ 1 <= im_H dst' <= im_H dst) /\ forall c, 0 <= c -> c + slack k < 2 ^ 10 -> exists c', 0 <= c' /\ c' + slack (S k) <= c + slack k /\
    (narrow c (im_W dst) (im_H dst) -> narrow c' (im_W dst') (im_H dst')) /\ (narrow c (im_H dst) (im_W dst) -> narrow c' (im_H dst') (im_W dst'))) as [[W1 W2] Hr].
  { pose proof (unit_shrink limit (len out) ltac:(lia)) as Hu. unfold dst'. destruct (_ && _) eqn:Ek; cbn [im_W im_H].
    - split; [split; (apply scaled_le; [lia|done])|]. intros c Hc Hc'. exists (c + 20).
      assert (slack (S k) + 20 <= slack k) by (destruct k as [|[|[|k]]]; cbn in Ek |- *; lia || done).
      split; [lia|]. split; [lia|]. unfold narrow. split; intros ?; (apply scaled_ratio; [lia|lia|lia|done|done]).
    - split; [lia|]. intros c Hc Hc'. exists c. split; [done|]. assert (slack (S k) <= slack k) by (by destruct k as [|[|[|k]]]). split; [lia|done]. }
  destruct (I4 Hl ltac:(lia) ltac:(lia)) as (w & h & q' & Hin & ? & ? & Hn & _). exists w, h, q'. split; [by right|]. split; [lia|]. split; [lia|].
  split; [|right; exists q, out; split; [by left|lia]].
  intros c Hc Hc'. destruct (Hr c Hc Hc') as (c' & Hc0 & Hc1 & R1 & R2). destruct (Hn c' Hc0 ltac:(lia)) as [N1 N2].
  unfold narrow in *. split; intros Hx; [specialize (N1 (R1 Hx))|specialize (N2 (R2 Hx))]; lia.
Qed.

Lemma preparePixels_sides img w h pw ph : im_W (preparePixels draw img w h pw ph) = pw /\ im_H (preparePixels draw img w h pw ph) = ph.
Proof.
  unfold preparePixels. destruct (_ && _) eqn:E; [|done]. rewrite !andb_true_iff, !Z.eqb_eq in E. destruct E as [[_ ->] ->]. by destruct (im_type img).
Qed.

Lemma limit_pos m : 0 < size_limit m.
Proof. by destruct m. Qed.

Lemma converted_mono m data evs evs' out : (forall ev, ev ∈ evs -> ev ∈ evs') -> converted m data evs out -> converted m data evs' out.
Proof.
  intros Hs (Hl & img & W & H & pw & ph & H1 & H2 & H3 & w & h & q & Hin & Hor). split; [done|]. exists img, W, H, pw, ph. do 3 (split; [done|]).
  exists w, h, q. split; [auto|]. destruct Hor as [?|(? & q' & big & ? & ?)]; [by left|right]. split; [done|]. exists q', big. auto.
Qed.

Definition good (m : mode) (data : bytes) (k : list event * res prepareErr Prepared) : Prop :=
  Forall is_work k.1 /\ forall p, k.2 = Ok p -> pp_Owned p = true /\ pp_ContentType p = "image/jpeg"%string /\ pp_Size p = len (pp_Data p) /\ converted m data k.1 (pp_Data p).

Lemma convert_good m filename data img0 img : decodes data img0 -> sides img0 (im_W img) (im_H img) -> sane img -> good m data (convert m filename img).
Proof.
  intros Hdec Hsides (HW & HH & HS). unfold good, Images.convert. destruct ended; [by split|].
  pose proof (outputSize_canvas _ _ m HW HH HS) as Hf. destruct (outputSize (im_W img) (im_H img) m) as [[[w1 h1] pw] ph].
  destruct (attempts 4 0 _ _ _) as [evs r] eqn:E. destruct (attempts_spec _ _ _ _ _ _ _ E) as [A1 A2]. cbn [fst snd]. split; [done|].
  intros p Hp. destruct r as [out|]; [|done]. injection Hp as <-. cbn. split; [done|]. split; [done|]. split; [done|].
  destruct (A2 out eq_refl) as [A3 A4]. split; [done|]. destruct (preparePixels_sides img w1 h1 pw ph) as [PW PH].
  destruct (canvas_sides _ _ _ _ _ Hf) as (C1 & C2 & C3). assert (pw < 2 ^ 40 /\ ph < 2 ^ 40) as [? ?] by (destruct m; lia).
  rewrite PW, PH in A4. destruct (A4 (limit_pos m) ltac:(lia) ltac:(lia)) as (w & h & q & Hin & ? & ? & Hn & Hor).
  exists img0, (im_W img), (im_H img), pw, ph. do 3 (split; [done|]). exists w, h, q. split; [done|].
  destruct Hor as [?|Hbig]; [by left|right]. split; [|done]. destruct (Hn 0 ltac:(lia) ltac:(cbn; lia)) as [N1 N2]. unfold narrow in *. cbn [slack] in *.
  split; [lia|]. split; [lia|]. split; lia.
Qed.

Lemma decoded_good {A} m data (r : res prepareErr A) k : (forall a, r = Ok a -> good m data (k a)) -> good m data (decoded r k).
Proof.
  intros H. unfold good, decoded. destruct r as [a|e]; [|split; [by repeat constructor|done]]. specialize (H a eq_refl). destruct (k a) as [evs r].
  destruct H as [G1 G2]. cbn in *. split; [by constructor|]. intros p Hp. destruct (G2 p Hp) as (? & ? & ? & Hc).
  do 3 (split; [done|]). eapply converted_mono; [|exact Hc]. by right.
Qed.

Lemma codec_ok {A} (r : res string A) a : codec r = Ok a -> r = Ok a.
Proof. destruct r; [|done]. by intros [= ->]. Qed.

Lemma oriented_sane img o : sane img -> sane (orient_image colours img o) /\ sides img (im_W (orient_image colours img o)) (im_H (orient_image colours img o)).
Proof.
  intros (H1 & H2 & H3). unfold orient_image. destruct (_ || _) eqn:E; [split; [done|by left]|]. unfold orient. rewrite E.
  destruct (5 <=? o); unfold sane; cbn; (split; [lia|]); [by right|by left].
Qed.

(** *** The memory a preparation holds *)

Definition source_kind (data : bytes) : string := DetectImageType (slice 0 32 data).
Definition animated (data : bytes) : bool :=
  String.eqb (source_kind data) "image/webp" && (20 <? len (slice 0 32 data)) && ascii_at (slice 0 32 data) 12 16 "VP8X" && negb (Z.land (byte_at (slice 0 32 data) 20) 2 =? 0).
Definition from_heif (data : bytes) : bool :=
  String.eqb (source_kind data) "image/heic" || String.eqb (source_kind data) "image/heif" || String.eqb (source_kind data) "image/avif".

(** The sides the header of a source declares. *)
Definition declared (data : bytes) (W H : Z) : Prop :=
  if animated data then webPCanvas (slice 0 32 data) = Ok (W, H)
  else if from_heif data then heifSize data = Ok (W, H)
  else exists c, DecodeConfig data = Ok c /\ W = cf_Width c /\ H = cf_Height c.

(** What its decoder takes for a pixel. *)
Definition pixel_bytes (data : bytes) (c : config) : Z :=
  decodedBytes (source_kind data) (cf_wide c) (String.eqb (source_kind data) "image/jpeg" && progressiveJPEG data)
    (String.eqb (source_kind data) "image/png" && (28 <? len (slice 0 32 data)) && (byte_at (slice 0 32 data) 28 =? 1)).
Definition turned_bytes (data : bytes) (W H : Z) : Z :=
  let o := readOrientation data (source_kind data) in if (2 <=? o) && (o <=? 8) then 4 * (W * H) else 0.

(** The decoder's memory of every pixel, and four canvases of four bytes each
    unless the source is only validated. *)
Definition estimate (m : mode) (data : bytes) (size : Z) (converts : bool) (W H c : Z) : Prop :=
  if animated data then exists pw ph, canvas m W H pw ph /\ c = 12 * (W * H) + 16 * (pw * ph)
  else if from_heif data then exists pw ph, canvas m W H pw ph /\ c = 16 * (W * H) + 2 * size + 16 * (pw * ph)
  else exists cf, DecodeConfig data = Ok cf /\
    if converts then exists pw ph, canvas m W H pw ph /\ c = pixel_bytes data cf * (W * H) + 16 * (pw * ph) + turned_bytes data W H
    else c = pixel_bytes data cf * (W * H).

(** The amount is the estimate for the declared sides, up to the whole budget;
    sides whose product is beyond 63 bits get past the check of [reserve]. *)
Definition admitted (m : mode) (data : bytes) (size : Z) (work : list event) (n : Z) : Prop :=
  n <= budget /\ exists W H, declared data W H /\ 0 < W /\ 0 < H /\
    (W * H < 2 ^ 63 -> size < 2 ^ 60 -> W * H <= maxPixels /\ exists converts c, estimate m data size converts W H c /\ n = Z.min c budget /\
       (converts = false -> forall w h q out, Encode w h q out ∉ work)).

Lemma convertedBytes_spec W H m o : 0 < W -> 0 < H -> W * H <= maxPixels -> exists pw ph, canvas m W H pw ph /\
  0 <= 16 * (pw * ph) <= 16 * maxPixels /\ convertedBytes W H m o = 16 * (pw * ph) + (if (2 <=? o) && (o <=? 8) then 4 * (W * H) else 0).
Proof.
  intros HW HH Hp. unfold maxPixels in *. unfold convertedBytes. pose proof (outputSize_canvas W H m HW HH ltac:(nia)) as Hc.
  destruct (outputSize W H m) as [[[w h] pw] ph]. exists pw, ph. split; [done|].
  destruct (canvas_sides _ _ _ _ _ Hc) as (C1 & C2 & C3). assert (0 <= pw * ph <= 100000000) by (destruct m; nia). split; [lia|].
  rewrite <- !Z.mul_assoc. apply i64_id. unfold in_i64. destruct (_ && _); nia.
Qed.

Lemma decodedBytes_bound kind wide progressive interlaced : 4 <= decodedBytes kind wide progressive interlaced <= 20.
Proof. unfold decodedBytes. repeat destruct (_ : bool); cbn; try lia; repeat destruct (String.eqb _ _); cbn; try lia; destruct progressive, interlaced; cbn; lia. Qed.

(** What the trace of a preparation is, and its result. *)
Definition bracketed (m : mode) (data : bytes) (size : Z) (evs work : list event) : Prop :=
  evs = work /\ work = [] \/ exists n, evs = Acquire n :: work ++ [Release n] /\ admitted m data size work n /\ Forall is_work work.

Record outcome (m : mode) (data : bytes) (size : Z) (evs : list event) (r : res prepareErr Prepared) : Prop := {
  oc_trace : exists work, bracketed m data size evs work;
  oc_converted p : r = Ok p -> pp_Owned p = true -> pp_ContentType p = "image/jpeg"%string /\ pp_Size p = len (pp_Data p) /\ converted m data evs (pp_Data p);
  oc_forwarded p : r = Ok p -> pp_Owned p = false -> pp_Data p = data /\ pp_Size p = size /\ forwarded m data size (pp_ContentType p);
}.

Lemma outcome_err m data size e : outcome m data size [] (Err e).
Proof. split; [|done|done]. exists []. by left. Qed.

(** What [reserve] asks for, once its estimate is known not to overflow. *)
Lemma reserved_admitted m data size W H cost n converts work : reserve_pixels budget W H cost = Some n -> declared data W H ->
  (0 < W -> 0 < H -> W * H <= maxPixels -> size < 2 ^ 60 -> estimate m data size converts W H (cost (W * H))) ->
  (converts = false -> forall w h q out, Encode w h q out ∉ work) -> admitted m data size work n.
Proof.
  unfold reserve_pixels. intros Hn Hd Hc Hw. destruct (_ || _ || _) eqn:E; [done|]. apply orb_false_iff in E as [[E1 E2]%orb_false_iff E3]. injection Hn as <-.
  apply Z.leb_gt in E1, E2. apply Z.ltb_ge in E3. split; [lia|]. exists W, H. split; [done|]. split; [done|]. split; [done|]. intros Hp Hs.
  rewrite i64_id in E3 |- * by (unfold in_i64; nia). split; [done|]. exists converts, (cost (W * H)). by split; [apply Hc|].
Qed.

Lemma with_memory_outcome m data size W H cost k : good m data k -> declared data W H ->
  (0 < W -> 0 < H -> W * H <= maxPixels -> size < 2 ^ 60 -> estimate m data size true W H (cost (W * H))) ->
  outcome m data size (with_memory budget admission W H cost k).1 (with_memory budget admission W H cost k).2.
Proof.
  intros [G1 G2] Hd Hc. unfold with_memory. destruct (reserve_pixels budget W H cost) as [n|] eqn:En; [|apply outcome_err].
  destruct admission; [apply outcome_err|]. cbn [fst snd]. split.
  - exists k.1. right. exists n. split; [done|]. split; [|done]. by eapply reserved_admitted.
  - intros p Hp Ho. destruct (G2 p Hp) as (_ & ? & ? & Hcon). do 2 (split; [done|]). eapply converted_mono; [|exact Hcon].
    intros ev Hev. right. apply elem_of_app. by left.
  - intros p Hp Ho. destruct (G2 p Hp) as (Ho' & _). by rewrite Ho' in Ho.
Qed.

Lemma prepare_animation_outcome m filename data size : animated data = true ->
  outcome m data size (prepare_animation m filename (slice 0 32 data) data).1 (prepare_animation m filename (slice 0 32 data) data).2.
Proof.
  intros Ha. unfold Images.prepare_animation. destruct (webPCanvas _) as [[w h]|e] eqn:Hw; [|apply outcome_err]. apply with_memory_outcome.
  - destruct (firstWebPFrame _ data w h) as [frame|e] eqn:Hf; [|by split]. apply decoded_good. intros img Hi%codec_ok.
    apply (convert_good _ _ _ img); [right; right; by exists w, h, frame|by left|by eapply Hcomposite].
  - unfold declared. by rewrite Ha.
  - intros HW HH Hp _. unfold estimate. rewrite Ha. destruct (convertedBytes_spec w h m 1 HW HH Hp) as (pw & ph & Hc & Hb & ->). exists pw, ph.
    split; [done|]. cbn [Z.leb Z.compare Pos.compare Pos.compare_cont andb]. rewrite Z.add_0_r. apply i64_id. unfold in_i64, maxPixels in *. nia.
Qed.

Lemma prepare_heif_outcome m filename data size : 0 <= size -> animated data = false -> from_heif data = true ->
  outcome m data size (prepare_heif m filename data size).1 (prepare_heif m filename data size).2.
Proof.
  intros Hsize Ha Hh. unfold Images.prepare_heif. destruct (heifSize data) as [[w h]|e] eqn:Hw; [|apply outcome_err]. apply with_memory_outcome.
  - destruct (heif_header data) as [[w' h']|e]; [|by split]. destruct (_ <? _); [by split|]. apply decoded_good. intros img Hi%codec_ok.
    apply (convert_good _ _ _ img); [by right; left|by left|by eapply Hheif].
  - unfold declared. by rewrite Ha, Hh.
  - intros HW HH Hp Hs. unfold estimate. rewrite Ha, Hh. unfold heif_cost. destruct (convertedBytes_spec w h m 1 HW HH Hp) as (pw & ph & Hc & Hb & ->). exists pw, ph.
    split; [done|]. cbn [Z.leb Z.compare Pos.compare Pos.compare_cont andb]. rewrite Z.add_0_r, <- Z.mul_assoc. apply i64_id. unfold in_i64, maxPixels in *. nia.
Qed.

(** The sides the guards of forwarding have looked at. *)
Lemma fits_forwarded m kind native w h size data c : DecodeConfig data = Ok c -> is_ok (DecodeImage data) = true -> w = cf_Width c -> h = cf_Height c ->
  0 < w -> 0 < h -> (native = true -> kind ∈ ["image/jpeg"; "image/png"; "image/webp"]%string) ->
  thumbnail_fits m kind w h size || photo_fits m native w h size = true -> forwarded m data size kind.
Proof.
  intros Hc Hi -> -> Hw Hh Hn Hf. exists c. do 4 (split; [done|]). apply orb_prop in Hf as [Hf|Hf].
  - unfold thumbnail_fits in Hf. rewrite !andb_true_iff, !Z.leb_le, Z.ltb_lt, String.eqb_eq in Hf. destruct Hf as [[[[Hm ->] H1] H2] H3].
    destruct m; [done| |done]. cbn [size_limit]. split; [done|]. lia.
  - unfold photo_fits in Hf. rewrite !andb_true_iff, !Z.leb_le in Hf. destruct Hf as [[[[[Hm Hnat] H1] H2] H3] H4].
    destruct m; [|done|done]. apply ratio_ok_sound in H3, H4; [|lia..]. split; [by apply Hn|]. cbn [size_limit]. lia.
Qed.

Lemma prepare_still_outcome m filename native data size : animated data = false -> from_heif data = false ->
  (native = true -> source_kind data ∈ ["image/jpeg"; "image/png"; "image/webp"]%string) ->
  outcome m data size (prepare_still m filename (source_kind data) native (slice 0 32 data) data size).1
    (prepare_still m filename (source_kind data) native (slice 0 32 data) data size).2.
Proof.
  intros Ha Hh Hn. unfold Images.prepare_still. destruct (DecodeConfig data) as [c|e] eqn:Hc; [|apply outcome_err]. cbv zeta. fold (pixel_bytes data c).
  assert (declared data (cf_Width c) (cf_Height c)) as Hd by (unfold declared; rewrite Ha, Hh; by exists c).
  pose proof (decodedBytes_bound (source_kind data) (cf_wide c) (String.eqb (source_kind data) "image/jpeg" && progressiveJPEG data)
    (String.eqb (source_kind data) "image/png" && (28 <? len (slice 0 32 data)) && (byte_at (slice 0 32 data) 28 =? 1))) as Hpb. fold (pixel_bytes data c) in Hpb.
  destruct (thumbnail_fits _ _ _ _ _ || _) eqn:Hfits.
  - unfold with_memory. destruct (reserve_pixels _ _ _ _) as [n|] eqn:En; [|apply outcome_err]. destruct admission; [apply outcome_err|].
    assert (admitted m data size [Decode] n) as Had.
    { eapply reserved_admitted with (converts := false); [exact En|done| |].
      - intros HW HH Hp _. unfold estimate. rewrite Ha, Hh. exists c. split; [done|]. apply i64_id. unfold in_i64, maxPixels in *. nia.
      - intros _ w h q out Hin. apply list_elem_of_singleton in Hin. done. }
    assert (0 < cf_Width c /\ 0 < cf_Height c) as [Hw0 Hh0] by (destruct Had as (_ & W & H & Hd' & ? & ? & _); unfold declared in Hd'; rewrite Ha, Hh in Hd'; destruct Hd' as (c' & Hc' & -> & ->); split; congruence).
    unfold validated, decoded, codec. destruct (DecodeImage data) as [img|e] eqn:Hi; cbn [fst snd]; split; try done.
    + exists [Decode]. right. exists n. split; [done|]. split; [done|by repeat constructor].
    + by intros p [= <-].
    + intros p [= <-] _. cbn. split; [done|]. split; [done|]. by eapply fits_forwarded; rewrite ?Hi.
    + exists [Decode]. right. exists n. split; [done|]. split; [done|by repeat constructor].
  - apply with_memory_outcome; [|done|].
    + apply decoded_good. intros img Hi%codec_ok. destruct (oriented_sane img (readOrientation data (source_kind data)) (Hdecode _ _ Hi)) as [Hs1 Hs2].
      by apply (convert_good _ _ _ img); [left| |].
    + intros HW HH Hp _. unfold estimate. rewrite Ha, Hh. exists c. split; [done|].
      destruct (convertedBytes_spec (cf_Width c) (cf_Height c) m (readOrientation data (source_kind data)) HW HH Hp) as (pw & ph & Hcan & Hb & ->). exists pw, ph.
      split; [done|]. unfold turned_bytes. rewrite Z.add_assoc. apply i64_id. unfold in_i64, maxPixels in *. destruct (_ && _); nia.
Qed.

End Prepared.

(** A JPEG of 400 by 300 becomes a thumbnail of 320 by 240. *)
Definition sample_image : image := mkImage 400 300 RGBA [].
Definition sample_jpeg : bytes := [255; 216; 255; 219; 0; 2].
Definition sample_prepare : mode -> string -> option string -> bytes -> Z -> list event * res prepareErr Prepared :=
  prepare (fun _ => Ok (mkConfig 400 300 false)) (fun _ => Ok sample_image) (fun _ => Err "" %string) (fun _ => Err ""%string) (fun _ _ _ => Err ""%string)
    im_pix (fun _ _ _ _ _ => im_pix) (fun _ _ => im_pix)
    (fun _ _ => Ok sample_jpeg) (2 ^ 20) None None (fun _ => None).

