(* ===== verification/AccountMedia.v ===== *)
(** * instagramapp: media requests of an account

    Models [stripCredentials], the media client of [addStoredAccount] and
    [WithMedia] of src/internal/instagramapp/pool.go, with what net/http does of
    a client's redirects.

    The text of an address, its resolution against another and its parts are
    net/url's and parameters, as are the answers of the servers and the domain
    test of a redirect's sensitive headers.  Names of headers are ASCII, since
    net/http sends no others.  The lease is the one of Accounts; here it is the
    account, or an error. *)
From S2P Require Import Prelude Strconv Errors Accounts AppRoute Import.
From stdpp Require Import gmap strings.
Open Scope Z_scope.
Open Scope go_scope.

Abbreviation Header := (gmap string (list string)).

(** ** Credentials *)

Definition credential (name : string) : bool :=
  let lower := ToLower name in
  existsb (String.eqb lower) ["authorization"; "proxy-authorization"; "cookie"; "x-mid"] || str_has_prefix lower "x-ig-" || str_has_prefix lower "ig-".
Definition stripCredentials (h : Header) : Header := filter (fun kv => credential kv.1 = false) h.

(** ** The media client *)

Record request := mkRequest { rq_URL : URL; rq_Header : Header }.
(** A reply's status and its Location. *)
Record response := mkResponse { rs_Status : Z; rs_Location : string }.

Definition mediaRedirects : nat := 10.
Definition redirectLimit : goerr := ErrOther "media redirect limit exceeded for Instagram".
Definition invalidRedirect : goerr := ErrOther "invalid Instagram media redirect".

(** [redirectBehavior] of a GET. *)
Definition shouldRedirect (status : Z) : bool := existsb (Z.eqb status) [301; 302; 303; 307; 308].

Section Client.
(** url.Parse as http.NewRequest uses it, the userinfo of an address, its text
    without one, and its resolution of a Location; the headers of a first request
    that net/http copies to the next one. *)
Context (NewRequest : string -> option URL) (ur_User : URL -> bool) (ToString : URL -> string) (Resolve : URL -> string -> option URL)
        (copied : list URL -> URL -> string -> bool).

Definition Get (name : string) (h : Header) : string := match h !! name with Some (v :: _) => v | _ => "" end.

(** [refererForURL], and its header. *)
Definition with_referer (last next : URL) (h : Header) : Header :=
  let ref :=
    if String.eqb (ur_Scheme last) "https" && String.eqb (ur_Scheme next) "http" then ""
    else if negb (String.eqb (Get "Referer" h) "") then Get "Referer" h
    else ToString last in
  if String.eqb ref "" then h else <["Referer" := [ref]]> h.

(** CheckRedirect, after [via] requests. *)
Definition checkRedirect (next : request) (via : nat) : res goerr request :=
  if (mediaRedirects <=? via)%nat then Err redirectLimit
  else if negb (String.eqb (ur_Scheme (rq_URL next)) "https") || ur_User (rq_URL next) then Err invalidRedirect
  else Ok (mkRequest (rq_URL next) (stripCredentials (rq_Header next))).

(** [Client.Do] of a GET: the requests sent, in order.  [budget] is what
    [checkRedirect] lets through, so no redirect is lost when it runs out. *)
Fixpoint follow (budget : nat) (first : Header) (via : list URL) (answers : nat -> res goerr response) (rq : request) : list request * res goerr response :=
  match answers (length via) with
  | Err e => ([rq], Err (ErrURL e))
  | Ok r =>
      if negb (shouldRedirect (rs_Status r)) || String.eqb (rs_Location r) "" then ([rq], Ok r)
      else
        match Resolve (rq_URL rq) (rs_Location r) with
        | None => ([rq], Err (ErrURL (ErrOther "failed to parse Location header")))
        | Some next =>
            let via := via ++ [rq_URL rq] in
            let h := filter (fun kv => copied via next kv.1 = true) first in
            match checkRedirect (mkRequest next (with_referer (rq_URL rq) next h)) (length via), budget with
            | Err e, _ => ([rq], Err (ErrURL e))
            | Ok _, O => ([rq], Err (ErrURL redirectLimit))
            | Ok rq', S budget => let '(sent, result) := follow budget first via answers rq' in (rq :: sent, result)
            end
        end
  end.

Definition Do (answers : nat -> res goerr response) (rq : request) : list request * res goerr response :=
  follow (mediaRedirects - 1) (rq_Header rq) [] answers rq.

(** ** [WithMedia] *)

Definition invalidURL : goerr := ErrCore (Upstream "Invalid Instagram media URL").
Definition requestFailed : goerr := ErrCore (NewError "upstream_network_error" "Instagram media request failed" 502).

(** What a caller asks for; the account's device then, the servers' answers, and
    the end of the context once they are there. *)
Record opening := mkOpening {
  on_source : string; on_headers : option Header; on_device : option DeviceIdentity; on_answers : nat -> res goerr response; on_ctxErr : option goerr;
}.

Definition open (o : opening) : list request * res goerr response :=
  match NewRequest (on_source o) with
  | None => ([], Err invalidURL)
  | Some u =>
      if negb (String.eqb (ur_Scheme u) "https") || String.eqb (Hostname u) "" || ur_User u then ([], Err invalidURL)
      else
        let h := <["User-Agent" := [device_userAgent (on_device o)]]> (stripCredentials (default ∅ (on_headers o))) in
        match Do (on_answers o) (mkRequest u h) with
        | (sent, Err _) => (sent, Err (default requestFailed (on_ctxErr o)))
        | (sent, Ok r) => (sent, Ok r)
        end
  end.

(** What a batch does, on account [a]. *)
Inductive deed := LeasedFor (a : nat) | Sent (a : nat) (rq : request) | GivenBack (a : nat).

Definition WithMedia (id : string) (acquired : res goerr nat) (opens : list opening) (result : option goerr) : list deed * option goerr :=
  if negb (str_has_prefix id IdentityPrefix) then ([], Some (ErrCore MissingAsset))
  else
    match acquired with
    | Err e => ([], Some e)
    | Ok a => (LeasedFor a :: (Sent a <$> concat (fst ∘ open <$> opens)) ++ [GivenBack a], result)
    end.

(** ** What is sent *)

Definition clean (h : Header) : Prop := forall name, is_Some (h !! name) -> credential name = false.

Record confined (agent : list string) (rq : request) : Prop := {
  cn_https : ur_Scheme (rq_URL rq) = "https"%string;
  cn_user : ur_User (rq_URL rq) = false;
  cn_clean : clean (rq_Header rq);
  cn_agent : rq_Header rq !! "User-Agent" = Some agent;
}.

Lemma strip_lookup h name : stripCredentials h !! name = if credential name then None else h !! name.
Proof.
  unfold stripCredentials. destruct (credential name) eqn:E.
  - apply map_lookup_filter_None. right. intros v _. cbn. congruence.
  - destruct (h !! name) as [v|] eqn:Hv; [by apply map_lookup_filter_Some|]. apply map_lookup_filter_None. by left.
Qed.

Lemma strip_clean h : clean (stripCredentials h).
Proof. intros name. rewrite strip_lookup. destruct (credential name); [by intros [? ?]|done]. Qed.

Lemma clean_insert name v h : credential name = false -> clean h -> clean (<[name := v]> h).
Proof. intros Hn Hh k [E|[_ H]]%lookup_insert_is_Some; [by rewrite <- E|by apply Hh]. Qed.

Lemma referer_keeps last next h name : name <> "Referer"%string -> with_referer last next h !! name = h !! name.
Proof. intros Hn. unfold with_referer. cbv zeta. match goal with |- (if ?b then _ else _) !! _ = _ => destruct b end; [done|]. by rewrite lookup_insert_ne by congruence. Qed.

(** The first request's agent goes with every other. *)
Context (Hagent : forall via next, copied via next "User-Agent" = true).

Lemma checked_confined agent first via last next rq' : first !! "User-Agent" = Some agent ->
  checkRedirect (mkRequest next (with_referer last next (filter (fun kv => copied via next kv.1 = true) first))) (length via) = Ok rq' ->
  confined agent rq' /\ (length via < mediaRedirects)%nat.
Proof.
  intros Ha. unfold checkRedirect. destruct (Nat.leb_spec mediaRedirects (length via)); [done|]. destruct (_ || _) eqn:E; [done|]. intros [= <-].
  apply orb_false_iff in E as [Hs Hu]. apply negb_false_iff, String.eqb_eq in Hs. split; [|done]. split; cbn; [done|done|apply strip_clean|].
  rewrite strip_lookup, referer_keeps by done. by apply map_lookup_filter_Some.
Qed.

Lemma alone {A} (P : A -> Prop) n x : P x -> Forall P [x] /\ (1 <= length [x] <= S n)%nat /\ head [x] = Some x.
Proof. intros H. split; [by repeat constructor|]. cbn. split; [lia|done]. Qed.

Lemma follow_confined agent first answers budget via rq : first !! "User-Agent" = Some agent -> confined agent rq ->
  Forall (confined agent) (follow budget first via answers rq).1 /\ (1 <= length (follow budget first via answers rq).1 <= S budget)%nat /\ head (follow budget first via answers rq).1 = Some rq.
Proof.
  intros Ha. revert via rq. induction budget as [|budget IH]; intros via rq Hrq; cbn [follow];
    (destruct (answers (length via)) as [r|e]; [|exact (alone _ _ rq Hrq)]); (destruct (_ || _); [exact (alone _ _ rq Hrq)|]);
    (destruct (Resolve _ _) as [next|]; [|exact (alone _ _ rq Hrq)]); cbv zeta;
    (destruct (checkRedirect _ _) as [rq'|e] eqn:Hc; [|exact (alone _ _ rq Hrq)]); [exact (alone _ _ rq Hrq)|].
  apply checked_confined with (agent := agent) in Hc as [Hc _]; [|done]. destruct (IH (via ++ [rq_URL rq]) rq' Hc) as (I1 & I2 & _).
  destruct (follow budget first _ answers rq') as [sent result]. cbn in *. split; [by constructor|]. split; [lia|done].
Qed.

(** Redirects run out in [checkRedirect]: allowing more changes nothing. *)
Lemma follow_enough first answers more budget via rq : (mediaRedirects - 1 <= length via + budget)%nat ->
  follow (more + budget) first via answers rq = follow budget first via answers rq.
Proof.
  revert via rq. induction budget as [|budget IH]; intros via rq Hl.
  - destruct more as [|more]; [done|]. cbn [Nat.add follow]. destruct (answers _) as [r|e]; [|done]. destruct (_ || _); [done|]. destruct (Resolve _ _) as [next|]; [|done].
    cbv zeta. destruct (checkRedirect _ _) as [rq'|e] eqn:Hc; [|done]. exfalso. revert Hc. unfold checkRedirect. rewrite length_app. cbn [length].
    destruct (Nat.leb_spec mediaRedirects (length via + 1)); [done|]. lia.
  - rewrite Nat.add_succ_r. cbn [follow]. destruct (answers _) as [r|e]; [|done]. destruct (_ || _); [done|]. destruct (Resolve _ _) as [next|]; [|done].
    cbv zeta. destruct (checkRedirect _ _) as [rq'|e]; [|done]. rewrite IH; [done|]. rewrite length_app. cbn [length]. lia.
Qed.

(** A reply is handed out only if it redirects no further. *)
Lemma follow_final first answers budget via rq r : (follow budget first via answers rq).2 = Ok r -> shouldRedirect (rs_Status r) = false \/ rs_Location r = ""%string.
Proof.
  revert via rq. induction budget as [|budget IH]; intros via rq; cbn [follow];
    (destruct (answers (length via)) as [r'|e]; [|done]); (destruct (negb _ || _) eqn:E; [intros [= <-]; apply orb_prop in E as [E|E];
      [left; by apply negb_true_iff|right; by apply String.eqb_eq]|]);
    (destruct (Resolve _ _) as [next|]; [|done]); cbv zeta; (destruct (checkRedirect _ _) as [rq'|e]; [|done]); [done|].
  specialize (IH (via ++ [rq_URL rq]) rq'). by destruct (follow budget first _ answers rq').
Qed.

(** What one opening sends and gives. *)
Record opened (o : opening) : Prop := {
  od_confined : Forall (confined [device_userAgent (on_device o)]) (open o).1;
  od_count : (length (open o).1 <= mediaRedirects)%nat;
  od_headers rq name : head (open o).1 = Some rq -> credential name = false -> name <> "User-Agent"%string -> rq_Header rq !! name = default ∅ (on_headers o) !! name;
  od_final r : (open o).2 = Ok r -> shouldRedirect (rs_Status r) = false \/ rs_Location r = ""%string;
  od_error e : (open o).2 = Err e -> e = invalidURL /\ (open o).1 = [] \/ e = default requestFailed (on_ctxErr o);
}.

Lemma refused_opened o : open o = ([], Err invalidURL) -> opened o.
Proof. intros H. split; rewrite H; cbn; [done|lia|done|done|naive_solver]. Qed.

Lemma open_opened o : opened o.
Proof.
  destruct (NewRequest (on_source o)) as [u|] eqn:Hn; [|apply refused_opened; unfold open; by rewrite Hn].
  destruct (negb (String.eqb (ur_Scheme u) "https") || String.eqb (Hostname u) "" || ur_User u) eqn:E; [apply refused_opened; unfold open; by rewrite Hn, E|].
  set (agent := [device_userAgent (on_device o)]). set (h := <["User-Agent" := agent]> (stripCredentials (default ∅ (on_headers o)))).
  assert (h !! "User-Agent" = Some agent) as Ha by (unfold h; by rewrite lookup_insert_eq). assert (confined agent (mkRequest u h)) as Hc.
  { apply orb_false_iff in E as [[Hs _]%orb_false_iff Hu]. apply negb_false_iff, String.eqb_eq in Hs. split; cbn; [done|done| |done].
    apply clean_insert; [done|apply strip_clean]. }
  destruct (follow_confined agent h (on_answers o) (mediaRedirects - 1) [] (mkRequest u h) Ha Hc) as (F1 & F2 & F3).
  pose proof (follow_final h (on_answers o) (mediaRedirects - 1) [] (mkRequest u h)) as F4.
  assert (forall sent res, Do (on_answers o) (mkRequest u h) = (sent, res) -> open o = (sent, match res with Ok r => Ok r | Err _ => Err (default requestFailed (on_ctxErr o)) end)) as Ho.
  { intros sent res HD. unfold open. rewrite Hn, E. fold agent. fold h. rewrite HD. by destruct res. }
  unfold Do in Ho. cbn [rq_Header] in Ho. destruct (follow _ h [] (on_answers o) _) as [sent res]. specialize (Ho _ _ eq_refl). cbn [fst snd] in *.
  split; rewrite Ho; cbn [fst snd]; [done|unfold mediaRedirects in *; lia| | |].
  - intros rq name Hrq Hcr Hna. rewrite F3 in Hrq. injection Hrq as <-. cbn. unfold h. rewrite lookup_insert_ne by congruence. by rewrite strip_lookup, Hcr.
  - intros r Hr. destruct res; [|done]. injection Hr as <-. by apply F4.
  - intros e He. destruct res; [done|]. injection He as <-. by right.
Qed.

(** C38. A batch of downloads has nothing of an account but its route and its
    device: every request it sends, first or redirected, is an https one without
    userinfo, names the device of its account and carries none of the headers
    that are credentials, whatever the caller asked for and the servers answer.
    One opening sends ten requests at most, hands out only a reply that redirects
    no further, sends the caller's other headers as they are, and fails with the
    end of its context or with an error that says nothing of the servers.
    Requests are sent only between the lease of the account and its end; without
    a lease, or for the identity of another service, nothing is sent. *)
Theorem media_confined id acquired opens result :
  let '(deeds, err) := WithMedia id acquired opens result in
  Forall opened opens /\
  match acquired with
  | Ok a =>
      if str_has_prefix id IdentityPrefix then
        err = result /\ exists sent, deeds = LeasedFor a :: (Sent a <$> sent) ++ [GivenBack a] /\
          Forall (fun rq => exists o, o ∈ opens /\ confined [device_userAgent (on_device o)] rq) sent
      else deeds = [] /\ err = Some (ErrCore MissingAsset)
  | Err e => deeds = [] /\ err = Some (if str_has_prefix id IdentityPrefix then e else ErrCore MissingAsset)
  end.
Proof.
  unfold WithMedia. destruct (str_has_prefix id IdentityPrefix); destruct acquired as [a|e]; cbn [negb];
    (split; [apply Forall_forall; intros o _; apply open_opened|]); try done.
  split; [done|]. eexists. split; [done|]. apply Forall_concat, Forall_fmap, Forall_forall. intros o Ho. cbn.
  eapply Forall_impl; [apply (od_confined o), open_opened|]. intros rq Hrq. by exists o.
Qed.
End Client.

(** A download with credentials among its headers that is redirected once. *)
Definition demo_address (s : string) : option URL := if str_has_prefix s "https://" then Some (mkURL "https" (String.substring 8 32 s) "/v" "" "") else None.
Definition demo_opening : opening :=
  mkOpening "https://cdn.test" (Some (<["Range" := ["bytes=0-1"]]> (<["Cookie" := ["a=b"]]> (<["X-Ig-App-Id" := ["1"]]> ∅)))) None
    (fun n => Ok (match n with O => mkResponse 302 "https://other.test" | _ => mkResponse 206 "" end)) None.
Definition sent_as (d : deed) : option (string * list (option (list string))) :=
  match d with Sent _ rq => Some (ur_Host (rq_URL rq), (fun name => rq_Header rq !! name) <$> ["Range"; "Cookie"; "X-Ig-App-Id"; "User-Agent"; "Referer"]%string) | _ => None end.

Definition demo_batch : list deed * option goerr :=
  WithMedia demo_address (fun _ => false) ur_Host (fun _ => demo_address) (fun _ _ _ => true) "instagram:a" (Ok 3%nat) [demo_opening] None.

Lemma media_confined_witness :
  sent_as <$> demo_batch.1 = [None; Some ("cdn.test", [Some ["bytes=0-1"]; None; None; Some [device_userAgent None]; None])%string;
    Some ("other.test", [Some ["bytes=0-1"]; None; None; Some [device_userAgent None]; Some ["cdn.test"]])%string; None] /\
  (exists sent, demo_batch.1 = LeasedFor 3 :: (Sent 3 <$> sent) ++ [GivenBack 3]).
Proof.
  split; [vm_compute; reflexivity|].
  pose proof (media_confined demo_address (fun _ => false) ur_Host (fun _ => demo_address) (fun _ _ _ => true) (fun _ _ => eq_refl) "instagram:a" (Ok 3%nat) [demo_opening] None) as H.
  fold demo_batch in H. destruct demo_batch as [deeds err]. destruct H as (_ & _ & sent & E & _). by exists sent.
Defined.
