(* ===== verification/AccountStore.v ===== *)
(** * instagramapp: the database of accounts and the opening of the pool

    Models src/internal/instagramapp/store.go with the statements that recovery.go
    and update.go add, and [Open], [addStoredAccount] and [Ready] of pool.go with
    the check of a transport of src/internal/nettransport/transport.go.

    The table is its rows in the order of [ordinal], with the constraints of
    [OpenStore]; a JSON column holds what PostgreSQL keeps of a text, and reading
    it back and PostgreSQL's lower case are parameters.  A statement executes, is
    lost, or takes effect although it reports an error; so does a commit.  The
    pending health checkpoints of [Flush] are Accounts; here are its statements. *)
From S2P Require Import Prelude Strconv Errors Accounts AppRoute SessionState Login Import.
From stdpp Require Import gmap strings.
Open Scope Z_scope.
Open Scope go_scope.

(** ** Rows *)

Record row := mkRow {
  r_id : string; r_username : option string; r_user_id : option string; r_authorization : option string; r_proxy_url : string; r_egress_ip : string;
  r_dead : bool; r_dead_reason : option string; r_dead_at : option Z; r_device : option string; r_cookies : option string; r_login : option string;
  r_cooldown : option Z; r_session : option string;
}.
Definition table : Type := list row.

Record storedAccount := mkStoredAccount {
  so_config : accountConfig; so_Login : option passwordCredentials; so_Username : string; so_UserID : string; so_IP : string;
  so_Dead : bool; so_DeadReason : string; so_CooldownUntil : Z;
}.

Definition db_failure : goerr := fl_error dbFailure.
Definition invalid_device : goerr := ErrOther "invalid stored Instagram device identity".

(** A unique column's values that collide; nulls do not. *)
Definition collide (a b : option string) : bool := match a, b with Some x, Some y => String.eqb x y | _, _ => false end.
Definition conflicts (r r' : row) : bool :=
  String.eqb (r_id r) (r_id r') || collide (r_username r) (r_username r') || collide (r_user_id r) (r_user_id r') || collide (r_authorization r) (r_authorization r').

(** ** Statements *)

Inductive statement :=
| InsertRow (r : row)
| UpdateState (id : string) (session : option string)
| UpdateLogin (id user : string) (login : string)
| UpdateSession (id user auth : string) (device session : option string)
| UpdateAccount (id user auth : string) (cookies device login session : option string)
| UpdateDead (id reason : string) (until : option Z) (now : Z)
| UpdateCooldown (id : string) (until : Z).

Definition is_user (user : string) (r : row) : bool := bool_decide (r_user_id r = Some user).
Definition greatest (a b : option Z) : option Z := match a, b with Some x, Some y => Some (Z.max x y) | Some x, None | None, Some x => Some x | None, None => None end.
Definition nullif_empty (s : string) : option string := if String.eqb s "" then None else Some s.

(** The rows of a statement, and what it makes of one. *)
Definition selects (s : statement) (r : row) : bool :=
  match s with
  | InsertRow _ => false
  | UpdateState id _ | UpdateDead id _ _ _ | UpdateCooldown id _ => String.eqb (r_id r) id
  | UpdateLogin id user _ | UpdateAccount id user _ _ _ _ _ => String.eqb (r_id r) id && is_user user r
  | UpdateSession id user _ _ _ => String.eqb (r_id r) id && is_user user r && negb (r_dead r)
  end.
Definition updated (s : statement) (r : row) : row :=
  let '(mkRow id username user auth proxy ip dead reason at_ device cookies login cooldown session) := r in
  match s with
  | InsertRow _ => r
  | UpdateState _ session => mkRow id username user auth proxy ip dead reason at_ device cookies login cooldown session
  | UpdateLogin _ _ login => mkRow id username user auth proxy ip dead reason at_ device cookies (Some login) cooldown session
  | UpdateSession _ _ auth device session => mkRow id username user (Some auth) proxy ip dead reason at_ device None login cooldown session
  | UpdateAccount _ _ auth cookies device backup session =>
      mkRow id username user (nullif_empty auth) proxy ip false None None device cookies (match backup with Some b => Some b | None => login end) cooldown session
  | UpdateDead _ reason until now => mkRow id username user auth proxy ip true (Some reason) (Some (default now at_)) device cookies login (greatest cooldown until) session
  | UpdateCooldown _ until => mkRow id username user auth proxy ip dead reason at_ device cookies login (greatest cooldown (Some until)) session
  end.

(** An update may not make two rows collide. *)
Fixpoint unique (t : table) : bool :=
  match t with
  | [] => true
  | r :: t => negb (existsb (conflicts r) t) && unique t
  end.

(** The rows affected; none where a constraint is violated. *)
Definition exec (s : statement) (t : table) : option (nat * table) :=
  match s with
  | InsertRow r => if existsb (conflicts r) t then Some (0%nat, t) else Some (1%nat, t ++ [r])
  | _ =>
      let t' := map (fun r => if selects s r then updated s r else r) t in
      if unique t' then Some (length (List.filter (selects s) t), t') else None
  end.

Inductive fate := Executed | Lost | Unanswered.
Definition Exec (f : fate) (s : statement) (t : table) : option nat * table :=
  match f, exec s t with
  | Lost, _ | _, None => (None, t)
  | Executed, Some (n, t') => (Some n, t')
  | Unanswered, Some (_, t') => (None, t')
  end.

(** [withDB]: a connection, and a failure that says nothing of its cause. *)
Definition withDB {A} (connected : bool) (run : table -> option A * table) (t : table) : res goerr A * table :=
  if connected then match run t with (Some a, t') => (Ok a, t') | (None, t') => (Err db_failure, t') end
  else (Err db_failure, t).

(** A transaction: what [run] did is kept by the commit. *)
Definition transaction {A} (began : bool) (committed : fate) (run : table -> option (A * option table)) (t : table) : option A * table :=
  if negb began then (None, t)
  else
    match run t with
    | None => (None, t)
    | Some (a, None) => (Some a, t)
    | Some (a, Some t') => match committed with Executed => (Some a, t') | Lost => (None, t) | Unanswered => (None, t') end
    end.

Section Store.
Context (device_json : DeviceIdentity -> string) (session_json : SessionState -> string) (login_json : passwordCredentials -> string) (cookies_json : string -> string)
        (device_read : string -> option (option DeviceIdentity)) (session_read : string -> option (option SessionState)) (login_read : string -> option (option passwordCredentials))
        (sql_lower : string -> string) (cookieAuthorization : string -> res failure (string * string)).

(** The column of a device; an invalid one is not stored. *)
Definition storedDeviceJSON (device : option DeviceIdentity) : option (option string) := if device_validate device then Some (device_json <$> device) else None.
Definition storedSessionJSON (state : option SessionState) : option string := session_json <$> state.

(** ** [Seed] *)

Definition seed_row (a : accountConfig) (device : option string) : row :=
  mkRow (cf_ID a) None None (Some (cf_Authorization a)) (default "" (cf_ProxyURL a)) "" false None None device None None None (storedSessionJSON (cf_Session a)).
(** [executed]: whether the statement of a position is. *)
Fixpoint seed_rows (n : nat) (executed : nat -> bool) (configs : list accountConfig) (t : table) : option table :=
  match configs with
  | [] => Some t
  | a :: configs =>
      match storedDeviceJSON (cf_Device a) with
      | None => None
      | Some device => if executed n then match exec (InsertRow (seed_row a device)) t with Some (_, t) => seed_rows (S n) executed configs t | None => None end else None
      end
  end.
Definition Seed (connected began : bool) (executed : nat -> bool) (committed : fate) (configs : list accountConfig) : table -> res goerr unit * table :=
  withDB connected (transaction began committed (fun t => match seed_rows 0 executed configs t with Some t => Some (tt, Some t) | None => None end)).

(** ** [Load] *)

(** A column that is null is nothing; the error of one that does not decode is [None]. *)
Definition read_column {A} (read : string -> option (option A)) (column : option string) : option (option A) :=
  match column with Some raw => if String.eqb raw "" then Some None else read raw | None => Some None end.
Definition read_device (column : option string) : option (option DeviceIdentity) :=
  match column with
  | None => Some None
  | Some raw => if String.eqb raw "" then Some None else match device_read raw with Some (Some d) => if device_validate (Some d) then Some (Some d) else None | _ => None end
  end.
Definition login_matches (user : string) (login : option passwordCredentials) : bool :=
  match login with Some l => negb (String.eqb (pc_Username l) "") && negb (String.eqb (pc_Password l) "") && String.eqb (pc_UserID l) user | None => true end.

Definition read_row (r : row) : option storedAccount :=
  match read_column session_read (r_session r), read_device (r_device r), read_column login_read (r_login r) with
  | Some session, Some device, Some login =>
      let user := default "" (r_user_id r) in
      if negb (login_matches user login) then None
      else
        Some (mkStoredAccount (mkConfig (r_cookies r) (r_id r) (default "" (r_authorization r)) "" (Some (r_proxy_url r)) device session) login
          (default "" (r_username r)) user (r_egress_ip r) (r_dead r) (default "" (r_dead_reason r)) (default zeroTime (r_cooldown r)))
  | _, _, _ => None
  end.
Definition Load (connected answered : bool) (t : table) : res goerr (list storedAccount) :=
  if connected && answered then match mapM read_row t with Some l => Ok l | None => Err db_failure end else Err db_failure.

(** ** [Insert] *)

Definition insert_row (a : storedAccount) (proxy : string) (device : option string) : row :=
  let c := so_config a in
  mkRow (cf_ID c) (Some (sql_lower (so_Username a))) (Some (so_UserID a)) (nullif_empty (cf_Authorization c)) proxy (so_IP a) false None None
    device (cookies_json <$> cf_Cookies c) (login_json <$> so_Login a) None (storedSessionJSON (cf_Session c)).
(** A route is dereferenced once there is a connection: without one the program
    panics, here with an error of its own. *)
Definition nil_dereference : goerr := ErrOther "runtime error: invalid memory address or nil pointer dereference".
Definition Insert (connected : bool) (f : fate) (a : storedAccount) (t : table) : res goerr bool * table :=
  match storedDeviceJSON (cf_Device (so_config a)), cf_ProxyURL (so_config a) with
  | None, _ => (Err invalid_device, t)
  | Some _, None => (Err (if connected then nil_dereference else db_failure), t)
  | Some device, Some proxy =>
      let '(r, t) := withDB connected (Exec f (InsertRow (insert_row a proxy device))) t in
      (match r with Ok n => Ok (n =? 1)%nat | Err e => Err e end, t)
  end.

(** ** [SaveSessionState] *)

(** The bearer a row's session has: a browser's cookies derive theirs. *)
Definition current_authorization (r : row) : option string :=
  match r_cookies r with
  | Some raw => if String.eqb raw "" then Some (default "" (r_authorization r)) else match cookieAuthorization raw with Ok (auth, _) => Some auth | Err _ => None end
  | None => Some (default "" (r_authorization r))
  end.
Definition row_of (id : string) (t : table) : option row := List.find (fun r => String.eqb (r_id r) id) t.

Definition SaveSessionState (connected began selected executed : bool) (committed : fate) (id auth : string) (state : option SessionState) : table -> res goerr unit * table :=
  withDB connected (transaction began committed (fun t =>
    if negb selected then None
    else
      match row_of id t with
      | None => Some (tt, None)
      | Some r =>
          match current_authorization r with
          | None => Some (tt, None)
          | Some current =>
              if String.eqb auth "" || negb (String.eqb current auth) then Some (tt, None)
              else if executed then match exec (UpdateState id (storedSessionJSON state)) t with Some (_, t) => Some (tt, Some t) | None => None end
              else None
          end
      end)).

(** ** The statements of one row: SetLogin, SaveSession, ReplaceSession *)

Definition missing_account : goerr := ErrOther "missing Instagram account".
Definition one_row (connected : bool) (f : fate) (s : statement) : table -> res goerr unit * table :=
  withDB connected (fun t => let '(n, t) := Exec f s t in (match n with Some n => if (n =? 1)%nat then Some tt else None | None => None end, t)).

Definition SetLogin (connected : bool) (f : fate) (id : string) (backup : passwordCredentials) : table -> res goerr unit * table :=
  one_row connected f (UpdateLogin id (pc_UserID backup) (login_json backup)).
Definition SaveSession (connected : bool) (f : fate) (id user auth : string) (device : option DeviceIdentity) (state : option SessionState) (t : table) : res goerr unit * table :=
  match storedDeviceJSON device with
  | None => (Err invalid_device, t)
  | Some device => one_row connected f (UpdateSession id user auth device (storedSessionJSON state)) t
  end.
Definition ReplaceSession (connected : bool) (f : fate) (id user auth : string) (cookies : option string) (device : option DeviceIdentity) (backup : option passwordCredentials)
    (state : option SessionState) (t : table) : res goerr unit * table :=
  match storedDeviceJSON device with
  | None => (Err invalid_device, t)
  | Some device => one_row connected f (UpdateAccount id user auth (cookies_json <$> cookies) device (login_json <$> backup) (storedSessionJSON state)) t
  end.
End Store.

(** ** [OpenStore] *)

(** The columns of the table of accounts, whether a row may have no
    authorization, and whether the table of attempts is there. *)
Record schema := mkSchema { sc_accounts : option (list string * bool); sc_attempts : bool }.
Inductive migration := CreateAccounts | AddColumns (names : list string) | AddLogin | CreateAttempts.
Definition base_columns : list string :=
  ["id"; "ordinal"; "username"; "user_id"; "android_authorization"; "proxy_url"; "egress_ip"; "dead"; "dead_reason"; "dead_at"; "created_at"].
Definition add_columns (names columns : list string) : list string := columns ++ List.filter (fun n => negb (existsb (String.eqb n) columns)) names.
Definition migrate (m : migration) (s : schema) : option schema :=
  match m, sc_accounts s with
  | CreateAccounts, None => Some (mkSchema (Some (base_columns, false)) (sc_attempts s))
  | CreateAccounts, Some _ => Some s
  | AddColumns names, Some (columns, nullable) => Some (mkSchema (Some (add_columns names columns, nullable)) (sc_attempts s))
  | AddLogin, Some (columns, _) => Some (mkSchema (Some (add_columns ["cookies"; "login_credentials"] columns, true)) (sc_attempts s))
  | CreateAttempts, _ => Some (mkSchema (sc_accounts s) true)
  | _, None => None
  end.
Definition migrations : list migration := [CreateAccounts; AddColumns ["device"]; AddLogin; AddColumns ["cooldown_until"]; AddColumns ["session_state"]; CreateAttempts].
Fixpoint migrate_all (l : list migration) (executed : nat -> bool) (n : nat) (s : schema) : option unit * schema :=
  match l with
  | [] => (Some tt, s)
  | m :: l =>
      match (if executed n then migrate m s else None) with
      | Some s => migrate_all l executed (S n) s
      | None => (None, s)
      end
  end.
Definition OpenStore (parsed connected : bool) (executed : nat -> bool) (s : schema) : res goerr unit * schema :=
  if parsed && connected then
    match migrate_all migrations executed 0 s with (Some _, s) => (Ok tt, s) | (None, s) => (Err db_failure, s) end
  else (Err db_failure, s).

(** ** [Attempt] *)

Record attempt := mkAttempt { at_id : string; at_source_id : string; at_legacy_used : bool; at_outcome : option (bool * option string) }.
Definition outcome_code (err : goerr) : string :=
  if is_canceled err then "request_canceled" else match as_core err with Some e => Code e | None => "upstream_error" end.
Definition set_outcome (id : string) (o : bool * option string) (a : attempt) : attempt :=
  if String.eqb (at_id a) id then mkAttempt (at_id a) (at_source_id a) (at_legacy_used a) (Some o) else a.
Definition log_attempt (f : fate) (g : list attempt -> list attempt) (l : list attempt) : option unit * list attempt :=
  match f with Executed => (Some tt, g l) | Lost => (None, l) | Unanswered => (None, g l) end.

(** The result, whether [run] was called, and the log. *)
Definition Attempt {A} (id source : string) (legacy : bool) (connected : bool) (begun : fate) (run : res goerr A) (reconnected : bool) (ended : fate) (l : list attempt) :
    res goerr A * bool * list attempt :=
  match (if connected then log_attempt begun (fun l => l ++ [mkAttempt id source legacy None]) l else (None, l)) with
  | (None, l) => (Err db_failure, false, l)
  | (Some _, l) =>
      let o := match run with Ok _ => (true, None) | Err e => (false, nullif_empty (outcome_code e)) end in
      match (if reconnected then log_attempt ended (map (set_outcome id o)) l else (None, l)) with
      | (None, l) => (Err db_failure, true, l)
      | (Some _, l) => (run, true, l)
      end
  end.

(** ** The pool's accounts *)

Record poolAccount := mkPoolAccount {
  po_account : account; po_username : string; po_ip : string; po_device : option DeviceIdentity; po_session : sessionContext; po_saved : SessionState; po_proxy : string;
}.
Record Settings := mkSettings { se_options : Options; se_Timeout : Z; se_RetryDelay : Z; se_HTTPMaxConnections : Z }.

Definition or_default (d n : Z) : Z := if n =? 0 then d else n.
Definition defaults (s : Settings) : Settings :=
  let o := se_options s in
  mkSettings (mkOptions (op_ActiveAccounts o) (or_default 1 (op_PerAccountConcurrency o)) (or_default 1 (op_PerAccountDownloadConcurrency o)) (or_default 1024 (op_MaxQueuedRequests o))
      (or_default 3 (op_MaxAttempts o)) (op_Store o)) (or_default (60 * Second) (se_Timeout s)) (se_RetryDelay s) (or_default 128 (se_HTTPMaxConnections s)).
Definition valid_settings (s : Settings) : bool :=
  let o := se_options s in
  negb ((op_ActiveAccounts o <? 0) || (10000 <? op_ActiveAccounts o) || (op_PerAccountConcurrency o <? 1) || (64 <? op_PerAccountConcurrency o) ||
        (op_PerAccountDownloadConcurrency o <? 1) || (64 <? op_PerAccountDownloadConcurrency o) || (op_MaxQueuedRequests o <? 1) || (se_Timeout s <? 0) ||
        (op_MaxAttempts o <? 1) || (10 <? op_MaxAttempts o) || (se_RetryDelay s <? 0) || (se_HTTPMaxConnections s <? 1) || (2048 <? se_HTTPMaxConnections s)).

Definition invalid_account : goerr := ErrOther "invalid stored Instagram account".
Definition apiOrigin : string := "https://i.instagram.com".

Section Open.
Context (Parse : string -> option URL) (ur_User : URL -> bool) (ur_Opaque : URL -> string) (lower : string -> string)
        (ParseIP : string -> bool) (PublicSuffix : string -> string) (cookie_valid : Cookie -> bool) (cookieAuthorization : string -> res failure (string * string)).

(** nettransport's [New]. *)
Definition new_transport (raw : string) (connections : Z) : res goerr unit :=
  if (connections <? 1) || (2048 <? connections) then Err (ErrOther "invalid HTTP connection limit")
  else if String.eqb raw "" then Ok tt
  else
    match Parse raw with
    | None => Err (ErrOther "invalid proxy address")
    | Some u =>
        if String.eqb (Hostname u) "" then Err (ErrOther "invalid proxy address")
        else if existsb (String.eqb (ur_Scheme u)) ["http"; "https"; "socks5"; "socks5h"] then Ok tt
        else Err (ErrOther "unsupported proxy scheme")
    end.

(** The bearer of an account, and whether its saved session has expired. *)
Definition stored_bearer (saved : storedAccount) : res goerr (string * bool) :=
  let c := so_config saved in
  match cf_Cookies c with
  | None => Ok (cf_Authorization c, false)
  | Some raw =>
      if negb (String.eqb (cf_Authorization c) "") then Err invalid_account
      else match cookieAuthorization raw with Ok (auth, _) => Ok (auth, false) | Err _ => Ok ("", match so_Login saved with None => true | Some _ => false end) end
  end.

(** The account [addStoredAccount] makes. *)
Definition pool_account (s : Settings) (now : Z) (saved : storedAccount) : res goerr poolAccount :=
  let c := so_config saved in
  let? b := stored_bearer saved in
  let '(auth, expired) := b in
  if negb (accountIDPattern (cf_ID c)) || (match cf_Cookies c with None => true | Some _ => false end && negb (validAuthorization auth)) then Err invalid_account
  else if negb (device_validate (cf_Device c)) then Err invalid_device
  else
    match newSessionContext Parse ur_User ur_Opaque lower ParseIP PublicSuffix cookie_valid (cf_Session c) [apiOrigin] now with
    | Err e => Err (ErrOther e)
    | Ok session =>
        let proxy := default "" (cf_ProxyURL c) in
        match new_transport proxy (se_HTTPMaxConnections s) with
        | Err _ => Err (ErrOther "invalid Instagram account proxy configuration")
        | Ok _ =>
            let '(snapshot, session) := Snapshot Parse now session in
            let reason := if expired && String.eqb (so_DeadReason saved) "" then "session_expired" else so_DeadReason saved in
            Ok (mkPoolAccount
              (mkAccount (IdentityPrefix +:+ cf_ID c) auth (match so_Login saved with Some _ => true | None => false end) (so_Dead saved || expired) reason (so_CooldownUntil saved)
                 0 0 false false zeroTime None)
              (so_Username saved) (so_IP saved) (cf_Device c) session snapshot proxy)
        end
    end.

Definition po_id (x : poolAccount) : string := ac_id (po_account x).

Definition addStoredAccount (s : Settings) (now : Z) (closed : bool) (saved : storedAccount) (l : list poolAccount) : res goerr (list poolAccount) :=
  let? x := pool_account s now saved in
  if closed then Err (ErrOther "closed Instagram pool")
  else if existsb (fun y => String.eqb (po_id y) (po_id x)) l then Ok l
  else Ok (l ++ [x]).

(** [addAccount] of a configured account. *)
Definition configured (c : accountConfig) : storedAccount := mkStoredAccount c None "" "" "" false "" zeroTime.
Fixpoint add_all (s : Settings) (now : Z) (saved : list storedAccount) (l : list poolAccount) : res goerr (list poolAccount) :=
  match saved with
  | [] => Ok l
  | a :: saved => let? l := addStoredAccount s now false a l in add_all s now saved l
  end.

(** [Open], on what loading the configured accounts gives.  [seed] and [load]
    are the calls of the store, if there is one. *)
Definition Open (settings : Settings) (now : Z) (configs : res string (list accountConfig))
    (seed : list accountConfig -> table -> res goerr unit * table) (load : table -> res goerr (list storedAccount)) (t : table) : res goerr (Settings * list poolAccount) * table :=
  let s := defaults settings in
  if negb (valid_settings s) then (Err (ErrOther "invalid Instagram pool options"), t)
  else
    match configs with
    | Err e => (Err (ErrOther e), t)
    | Ok configs =>
        if op_Store (se_options s) then
          match seed configs t with
          | (Err e, t) => (Err e, t)
          | (Ok _, t) =>
              match (let? saved := load t in add_all s now saved []) with
              | Ok l => (Ok (s, l), t)
              | Err e => (Err e, t)
              end
          end
        else match add_all s now (configured <$> configs) [] with Ok l => (Ok (s, l), t) | Err e => (Err e, t) end
    end.
End Open.

(** [Ready], of the pool of Accounts. *)
Definition Ready (o : Options) (p : Pool) : bool :=
  negb (ap_closed p || (0 <? ap_pendingHealthWrites p) || (op_Store o && st_dirty p)) && existsb (fun x => negb (ac_disabled x)) (ap_accounts p).

(** ** What a statement keeps *)

Lemma collide_sym a b : collide a b = collide b a.
Proof. destruct a, b; cbn; try done. apply String.eqb_sym. Qed.
Lemma conflicts_sym r r' : conflicts r r' = conflicts r' r.
Proof. unfold conflicts. by rewrite String.eqb_sym, (collide_sym (r_username r)), (collide_sym (r_user_id r)), (collide_sym (r_authorization r)). Qed.

Lemma unique_snoc r t : unique t = true -> existsb (conflicts r) t = false -> unique (t ++ [r]) = true.
Proof.
  induction t as [|x t IH]; cbn; [done|]. intros [Hx Hu]%andb_prop [Hc Hr]%orb_false_iff. apply negb_true_iff in Hx.
  rewrite existsb_app. cbn. rewrite Hx, conflicts_sym, Hc. cbn. by apply IH.
Qed.

Lemma unique_ids t : unique t = true -> NoDup (r_id <$> t).
Proof.
  induction t as [|x t IH]; cbn; [by constructor|]. intros [Hx%negb_true_iff Hu]%andb_prop. constructor; [|by apply IH].
  intros (y & E & Hy)%list_elem_of_fmap. assert (existsb (conflicts x) t = true) as Hc; [|congruence].
  apply existsb_exists. exists y. split; [by apply list_elem_of_In|]. unfold conflicts. by rewrite E, String.eqb_refl.
Qed.

(** What [exec] gives an update. *)
Lemma exec_update s t : (forall r, s <> InsertRow r) -> let t' := map (fun r => if selects s r then updated s r else r) t in
  exec s t = if unique t' then Some (length (List.filter (selects s) t), t') else None.
Proof. intros Hs. destruct s; [by edestruct Hs|done..]. Qed.

Lemma exec_unique s t n t' : unique t = true -> exec s t = Some (n, t') -> unique t' = true.
Proof.
  intros Hu H. destruct (match s with InsertRow _ => true | _ => false end) eqn:Hs.
  - destruct s; try done. cbn [exec] in H. destruct (existsb (conflicts r) t) eqn:E; injection H as <- <-; [done|by apply unique_snoc].
  - rewrite exec_update in H by (by destruct s). cbv zeta in H. destruct (unique (map _ t)) eqn:E; [|done]. by injection H as <- <-.
Qed.

Lemma Exec_unique f s t : unique t = true -> unique (Exec f s t).2 = true.
Proof. intros Hu. unfold Exec. destruct (exec s t) as [[n t']|] eqn:E; [|by destruct f]. apply exec_unique in E; [|done]. by destruct f. Qed.

Lemma withDB_snd {A} connected (run : table -> option A * table) t : (withDB connected run t).2 = if connected then (run t).2 else t.
Proof. unfold withDB. destruct connected; [|done]. by destruct (run t) as [[a|] t']. Qed.

(** What a call of the store does to the rows it finds. *)
Inductive call :=
| CallSeed (connected began : bool) (executed : nat -> bool) (committed : fate) (configs : list accountConfig)
| CallInsert (connected : bool) (f : fate) (a : storedAccount)
| CallState (connected began selected executed : bool) (committed : fate) (id auth : string) (state : option SessionState)
| CallLogin (connected : bool) (f : fate) (id : string) (backup : passwordCredentials)
| CallSave (connected : bool) (f : fate) (id user auth : string) (device : option DeviceIdentity) (state : option SessionState)
| CallReplace (connected : bool) (f : fate) (id user auth : string) (cookies : option string) (device : option DeviceIdentity) (backup : option passwordCredentials) (state : option SessionState)
| CallDead (connected : bool) (f : fate) (id reason : string) (until : option Z) (now : Z)
| CallCooldown (connected : bool) (f : fate) (id : string) (until : Z).

Section Calls.
Context (device_json : DeviceIdentity -> string) (session_json : SessionState -> string) (login_json : passwordCredentials -> string) (cookies_json : string -> string)
        (sql_lower : string -> string) (cookieAuthorization : string -> res failure (string * string)).

Definition called (c : call) (t : table) : table :=
  match c with
  | CallSeed connected began executed committed configs => (Seed device_json session_json connected began executed committed configs t).2
  | CallInsert connected f a => (Insert device_json session_json login_json cookies_json sql_lower connected f a t).2
  | CallState connected began selected executed committed id auth state => (SaveSessionState session_json cookieAuthorization connected began selected executed committed id auth state t).2
  | CallLogin connected f id backup => (SetLogin login_json connected f id backup t).2
  | CallSave connected f id user auth device state => (SaveSession device_json session_json connected f id user auth device state t).2
  | CallReplace connected f id user auth cookies device backup state => (ReplaceSession device_json session_json login_json cookies_json connected f id user auth cookies device backup state t).2
  | CallDead connected f id reason until now => (one_row connected f (UpdateDead id reason until now) t).2
  | CallCooldown connected f id until => (one_row connected f (UpdateCooldown id until) t).2
  end.

(** A call that gives the account of [r] a session it was verified to have. *)
Definition renews (c : call) (r : row) : Prop :=
  match c with
  | CallSave _ _ id user _ _ _ => r_id r = id /\ r_user_id r = Some user /\ r_dead r = false
  | CallReplace _ _ id user _ _ _ _ _ => r_id r = id /\ r_user_id r = Some user
  | _ => False
  end.

Record row_step (c : call) (r r' : row) : Prop := {
  rt_fixed : r_id r' = r_id r /\ r_username r' = r_username r /\ r_user_id r' = r_user_id r /\ r_proxy_url r' = r_proxy_url r /\ r_egress_ip r' = r_egress_ip r;
  rt_revived : r_dead r = true -> r_dead r' = false -> renews c r /\ match c with CallReplace _ _ _ _ _ _ _ _ _ => True | _ => False end;
  rt_died : r_dead r = false -> r_dead r' = true -> match c with CallDead _ _ id _ _ _ => id = r_id r | _ => False end;
  rt_cooldown u : r_cooldown r = Some u -> exists u', r_cooldown r' = Some u' /\ u <= u';
  rt_bearer : r_authorization r' = r_authorization r /\ r_cookies r' = r_cookies r \/ renews c r;
  rt_state : r_session r' = r_session r \/ renews c r \/
    match c with CallState _ _ _ _ _ id auth _ => id = r_id r /\ auth <> ""%string /\ current_authorization cookieAuthorization r = Some auth | _ => False end;
}.

Lemma row_step_refl c r : row_step c r r.
Proof. split; try done; try congruence; auto. intros u Hu. exists u. split; [done|lia]. Qed.

Definition kept (c : call) (t t' : table) : Prop :=
  unique t' = true /\ exists rows new, t' = rows ++ new /\ Forall2 (row_step c) t rows /\
    Forall (fun r => r_dead r = false /\ r_cooldown r = None) new /\ (new <> [] -> match c with CallSeed _ _ _ _ _ | CallInsert _ _ _ => True | _ => False end).

Lemma kept_refl c t : unique t = true -> kept c t t.
Proof. intros Hu. split; [done|]. exists t, []. rewrite app_nil_r. split; [done|]. split; [|split; [constructor|done]]. apply Forall_Forall2_diag, Forall_forall. intros r _. apply row_step_refl. Qed.

Lemma greatest_ge a b u : a = Some u -> exists u', greatest a b = Some u' /\ u <= u'.
Proof. intros ->. destruct b as [x|]; cbn; eexists; (split; [done|lia]). Qed.

(** An update touches only the rows it selects. *)
Lemma rows_kept_update c s t n t' : unique t = true -> (forall r, s <> InsertRow r) -> exec s t = Some (n, t') -> (forall r, r ∈ t -> selects s r = true -> row_step c r (updated s r)) -> kept c t t'.
Proof.
  intros Hu Hs He Hr. pose proof (exec_unique _ _ _ _ Hu He) as Hu'. split; [done|]. exists t', []. rewrite app_nil_r. split; [done|]. split; [|split; [constructor|done]].
  assert (t' = map (fun r => if selects s r then updated s r else r) t) as ->.
  { rewrite exec_update in He by done. cbv zeta in He. destruct (unique (map _ t)); [|done]. by injection He as <- <-. }
  clear He Hu Hu'. induction t as [|r t IH]; cbn; [constructor|]. constructor; [|apply IH; intros; apply Hr; [by right|done]].
  destruct (selects s r) eqn:E; [apply Hr; [by left|done]|apply row_step_refl].
Qed.

Lemma kept_Exec c f s t : unique t = true -> (forall r, s <> InsertRow r) -> (forall r, r ∈ t -> selects s r = true -> row_step c r (updated s r)) -> kept c t (Exec f s t).2.
Proof.
  intros Hu Hs Hr. unfold Exec. destruct (exec s t) as [[n t']|] eqn:E; [|destruct f; by apply kept_refl].
  pose proof (rows_kept_update c s t n t' Hu Hs E Hr). destruct f; [done|by apply kept_refl|done].
Qed.

Lemma kept_one_row c connected f s t : unique t = true -> (forall r, s <> InsertRow r) -> (forall r, r ∈ t -> selects s r = true -> row_step c r (updated s r)) -> kept c t (one_row connected f s t).2.
Proof.
  intros Hu Hs Hr. unfold one_row. rewrite withDB_snd. destruct connected; [|by apply kept_refl].
  pose proof (kept_Exec c f s t Hu Hs Hr) as H. by destruct (Exec f s t).
Qed.
End Calls.

Definition fresh (r : row) : Prop := r_dead r = false /\ r_cooldown r = None.
(** A configured account is one of the rows, or its authorization is another's. *)
Definition present (t : table) (c : accountConfig) : Prop := exists r, r ∈ t /\ (r_id r = cf_ID c \/ r_authorization r = Some (cf_Authorization c)).

Section Kept.
Context (device_json : DeviceIdentity -> string) (session_json : SessionState -> string) (login_json : passwordCredentials -> string) (cookies_json : string -> string)
        (sql_lower : string -> string) (cookieAuthorization : string -> res failure (string * string)).
Abbreviation seed_all := (seed_rows device_json session_json).
Abbreviation call_kept := (kept cookieAuthorization).

Lemma exec_insert r t n t' : unique t = true -> exec (InsertRow r) t = Some (n, t') ->
  unique t' = true /\ (n = 1%nat /\ t' = t ++ [r] \/ n = 0%nat /\ t' = t /\ existsb (conflicts r) t = true).
Proof.
  intros Hu H. pose proof (exec_unique _ _ _ _ Hu H). split; [done|]. cbn in H. destruct (existsb _ t) eqn:E; injection H as <- <-; auto.
Qed.

Lemma seed_rows_spec configs : forall n executed t t', unique t = true -> seed_all n executed configs t = Some t' ->
  unique t' = true /\ (exists new, t' = t ++ new /\ Forall fresh new) /\ Forall (present t') configs.
Proof.
  induction configs as [|c configs IH]; intros n executed t t' Hu; cbn [seed_rows].
  { intros [= <-]. split; [done|]. split; [|constructor]. exists []. by rewrite app_nil_r. }
  destruct (storedDeviceJSON _ _) as [device|]; [|done]. destruct (executed n); [|done]. set (r := seed_row _ c device).
  destruct (exec (InsertRow r) t) as [[k t1]|] eqn:E; [|done]. intros H. destruct (exec_insert _ _ _ _ Hu E) as [Hu1 Hk].
  destruct (IH _ _ _ _ Hu1 H) as (H1 & (new & -> & H2) & H3). split; [done|]. split.
  - destruct Hk as [[_ ->]|(_ & -> & _)]; [|by exists new]. exists (r :: new). rewrite <- app_assoc. split; [done|]. by constructor.
  - constructor; [|done]. destruct Hk as [[_ ->]|(_ & -> & Hc)].
    + exists r. split; [set_solver|by left].
    + apply existsb_exists in Hc as (y & Hy%list_elem_of_In & Hc). exists y. split; [set_solver|]. unfold conflicts, collide in Hc. cbn in Hc. rewrite !orb_false_r in Hc.
      apply orb_prop in Hc as [Hc|Hc]; [left; symmetry; by apply String.eqb_eq|right]. destruct (r_authorization y); [|done]. apply String.eqb_eq in Hc. by rewrite Hc.
Qed.

Lemma transaction_kept {A} c began committed (run : table -> option (A * option table)) t : unique t = true ->
  (forall a t', run t = Some (a, Some t') -> call_kept c t t') -> call_kept c t (transaction began committed run t).2.
Proof.
  intros Hu Hr. unfold transaction. destruct began; [|by apply kept_refl]. cbn [negb]. destruct (run t) as [[a [t'|]]|]; [|by apply kept_refl..].
  specialize (Hr a t' eq_refl). destruct committed; [done|by apply kept_refl|done].
Qed.

Lemma appended_kept c t t' new : unique t' = true -> t' = t ++ new -> Forall fresh new -> match c with CallSeed _ _ _ _ _ | CallInsert _ _ _ => True | _ => False end -> call_kept c t t'.
Proof.
  intros Hu -> Hn Hc. split; [done|]. exists t, new. split; [done|]. split; [|split; [done|done]].
  apply Forall_Forall2_diag, Forall_forall. intros r _. apply row_step_refl.
Qed.

Ltac one_row_kept := apply kept_one_row; [done|done|]; intros [] _ Hsel; cbn in Hsel; unfold is_user in Hsel; cbn in Hsel;
  rewrite ?andb_true_iff, ?String.eqb_eq, ?bool_decide_eq_true, ?negb_true_iff in Hsel; destruct_and?; subst; split; cbn in *;
  try solve [tauto|congruence|intros ? ->; eexists; split; [done|lia]|by apply greatest_ge].

(** C13. Whatever becomes of the connection, the statements and the commit, a
    call of the store keeps the rows in their order with their identifiers,
    names and routes, no two of which share an identifier, a name, a user or an
    authorization; it adds only live rows, and only where accounts are seeded or
    inserted. A dead row is revived only by the replacement of its user's
    session, and dies only by a checkpoint; a cooldown never ends earlier. The
    session of a row changes only with that user's new session, never that of a
    dead row by a login; and the state of a session is also saved by who holds
    the authorization the row has. *)
Theorem store_rows c t : unique t = true -> call_kept c t (called device_json session_json login_json cookies_json sql_lower cookieAuthorization c t).
Proof.
  intros Hu. destruct c as [connected began executed committed configs|connected f a|connected began selected executed committed id auth state|connected f id backup|connected f id user auth device state
    |connected f id user auth cookies device backup state|connected f id reason until now|connected f id until]; cbn [called].
  - unfold Seed. rewrite withDB_snd. destruct connected; [|by apply kept_refl]. apply transaction_kept; [done|]. intros [] t' H.
    destruct (seed_rows _ _ _ _ _ _) as [t1|] eqn:E; [|done]. injection H as <-. destruct (seed_rows_spec _ _ _ _ _ Hu E) as (H1 & (new & E2 & H2) & _). by eapply appended_kept.
  - unfold Insert. destruct (storedDeviceJSON _ _) as [device|]; [|by apply kept_refl]. destruct (cf_ProxyURL _) as [proxy|]; [|by apply kept_refl].
    set (r := insert_row _ _ _ _ a proxy device).
    pose proof (withDB_snd connected (Exec f (InsertRow r)) t) as Hw. destruct (withDB connected _ t) as [res t1]. cbn [snd] in *. subst t1. destruct connected; [|by apply kept_refl].
    pose proof (Exec_unique f (InsertRow r) t Hu) as Hu1. unfold Exec in *. destruct (exec (InsertRow r) t) as [[k t1]|] eqn:E; [|by destruct f; apply kept_refl].
    destruct (exec_insert _ _ _ _ Hu E) as [_ [[_ ->]|(_ & -> & _)]]; destruct f; try (by apply kept_refl); by eapply (appended_kept _ _ _ [r]); [|done|by repeat constructor|].
  - unfold SaveSessionState. rewrite withDB_snd. destruct connected; [|by apply kept_refl]. apply transaction_kept; [done|]. intros [] t' H.
    destruct selected; [|done]. cbn [negb] in H. destruct (row_of id t) as [r|] eqn:Hr; [|done]. destruct (current_authorization _ r) as [current|] eqn:Hc; [|done].
    destruct (_ || _) eqn:Ha; [done|]. destruct executed; [|done]. destruct (exec _ t) as [[n t1]|] eqn:E; [|done]. injection H as <-.
    apply orb_false_iff in Ha as [Ha%String.eqb_neq Hcur%negb_false_iff%String.eqb_eq]. subst current. refine (rows_kept_update _ _ _ _ _ _ Hu _ E _); [done|]. intros x Hx Hsel. cbn in Hsel. apply String.eqb_eq in Hsel.
    apply find_some in Hr as [Hr Hid]. apply String.eqb_eq in Hid. assert (x = r) as ->.
    { pose proof (unique_ids _ Hu) as Hnd. apply list_elem_of_In in Hr. apply list_elem_of_lookup in Hx as [i Hi], Hr as [j Hj].
      assert (i = j) as -> by (eapply (NoDup_lookup (r_id <$> t)); [done|by rewrite list_lookup_fmap, Hi|rewrite list_lookup_fmap, Hj; cbn; congruence]). congruence. }
    destruct r; split; cbn in *; subst; eauto 6 using Z.le_refl; congruence.
  - one_row_kept.
  - unfold SaveSession. destruct (storedDeviceJSON _ _) as [d|]; [|by apply kept_refl]. one_row_kept.
  - unfold ReplaceSession. destruct (storedDeviceJSON _ _) as [d|]; [|by apply kept_refl]. one_row_kept.
  - one_row_kept.
  - one_row_kept.
Qed.
End Kept.

(** ** What is read back *)

Section Loaded.
Context (device_json : DeviceIdentity -> string) (session_json : SessionState -> string) (login_json : passwordCredentials -> string) (cookies_json : string -> string)
        (device_read : string -> option (option DeviceIdentity)) (session_read : string -> option (option SessionState)) (login_read : string -> option (option passwordCredentials))
        (sql_lower : string -> string).
Abbreviation insert := (Insert device_json session_json login_json cookies_json sql_lower).
Abbreviation load := (Load device_read session_read login_read true true).

(** The columns of an account decode to what was encoded, and its backup is its own user's. *)
Record reads_back (a : storedAccount) : Prop := {
  rb_device d : cf_Device (so_config a) = Some d -> device_json d <> ""%string /\ device_read (device_json d) = Some (Some d);
  rb_session s : cf_Session (so_config a) = Some s -> session_json s <> ""%string /\ session_read (session_json s) = Some (Some s);
  rb_login l : so_Login a = Some l -> login_json l <> ""%string /\ login_read (login_json l) = Some (Some l);
  rb_user : login_matches (so_UserID a) (so_Login a) = true;
}.

(** An account as it is loaded: alive, with PostgreSQL's form of its name and cookies. *)
Definition as_loaded (a : storedAccount) : storedAccount :=
  let c := so_config a in
  mkStoredAccount (mkConfig (cookies_json <$> cf_Cookies c) (cf_ID c) (cf_Authorization c) "" (Some (default "" (cf_ProxyURL c))) (cf_Device c) (cf_Session c))
    (so_Login a) (sql_lower (so_Username a)) (so_UserID a) (so_IP a) false "" zeroTime.

Lemma nullif_default s : default "" (nullif_empty s) = s.
Proof. unfold nullif_empty. by destruct (String.eqb_spec s ""). Qed.

Lemma inserted_reads a proxy device : reads_back a -> cf_ProxyURL (so_config a) = Some proxy -> storedDeviceJSON device_json (cf_Device (so_config a)) = Some device ->
  read_row device_read session_read login_read (insert_row session_json login_json cookies_json sql_lower a proxy device) = Some (as_loaded a).
Proof.
  intros [Hd Hs Hl Hu] Hp. unfold storedDeviceJSON. destruct (device_validate _) eqn:Hv; [|done]. intros [= <-]. unfold read_row, insert_row. cbn.
  assert (read_column session_read (storedSessionJSON session_json (cf_Session (so_config a))) = Some (cf_Session (so_config a))) as ->.
  { destruct (cf_Session _) as [s|]; [|done]. destruct (Hs s eq_refl) as [Hn He]. cbn. by destruct (String.eqb_spec (session_json s) ""). }
  assert (read_device device_read (device_json <$> cf_Device (so_config a)) = Some (cf_Device (so_config a))) as ->.
  { destruct (cf_Device _) as [d|]; [|done]. destruct (Hd d eq_refl) as [Hn He]. cbn [fmap option_fmap option_map read_device]. rewrite He, Hv. by destruct (String.eqb_spec (device_json d) ""). }
  assert (read_column login_read (login_json <$> so_Login a) = Some (so_Login a)) as ->.
  { destruct (so_Login a) as [l|]; [|done]. destruct (Hl l eq_refl) as [Hn He]. cbn. by destruct (String.eqb_spec (login_json l) ""). }
  rewrite Hu. cbn. unfold as_loaded. by rewrite nullif_default, Hp.
Qed.

Lemma load_app t l r x : load t = Ok l -> read_row device_read session_read login_read r = Some x -> load (t ++ [r]) = Ok (l ++ [x]).
Proof.
  unfold Load. cbn [andb]. destruct (mapM _ t) as [l'|] eqn:E; [|done]. intros [= ->] Hr. apply mapM_Some in E.
  assert (mapM (read_row device_read session_read login_read) (t ++ [r]) = Some (l ++ [x])) as ->; [|done].
  apply mapM_Some, Forall2_app; [done|]. by constructor.
Qed.

(** C23. An account that is inserted is loaded as it was, after those that were
    there, with nothing but its name in lower case and the normal form of its
    cookies changed; when it is not inserted nothing is, and some row has its
    identifier, its name, its user or its authorization; and when the call fails
    the account is there as a whole or not at all. *)
Theorem insert_roundtrip connected f a t result t' l : reads_back a -> load t = Ok l -> insert connected f a t = (result, t') ->
  match result with
  | Ok true => load t' = Ok (l ++ [as_loaded a])
  | Ok false => t' = t /\ exists r, r ∈ t /\ (r_id r = cf_ID (so_config a) \/ r_username r = Some (sql_lower (so_Username a)) \/ r_user_id r = Some (so_UserID a) \/
      cf_Authorization (so_config a) <> ""%string /\ r_authorization r = Some (cf_Authorization (so_config a)))
  | Err _ => t' = t \/ load t' = Ok (l ++ [as_loaded a])
  end.
Proof.
  intros Hb Hl. unfold Insert. destruct (storedDeviceJSON _ _) as [device|] eqn:Hd; [|intros [= <- <-]; by left].
  destruct (cf_ProxyURL (so_config a)) as [proxy|] eqn:Hp; [|intros [= <- <-]; by left].
  pose proof (inserted_reads _ _ _ Hb Hp Hd) as Hr. set (r := insert_row _ _ _ _ a proxy device) in *. pose proof (load_app _ _ _ _ Hl Hr) as Ht.
  unfold withDB. destruct connected; [|intros [= <- <-]; by left]. unfold Exec. cbn [exec]. destruct (existsb (conflicts r) t) eqn:E; [|destruct f; intros [= <- <-]; auto].
  destruct f; intros [= <- <-]; [|by left|by left]. split; [done|]. apply existsb_exists in E as (y & Hy%list_elem_of_In & Hc). exists y. split; [done|].
  unfold conflicts in Hc. cbn in Hc. apply orb_prop in Hc as [[[Hc|Hc]%orb_prop|Hc]%orb_prop|Hc].
  - left. symmetry. by apply String.eqb_eq.
  - right. left. destruct (r_username y); [|done]. cbn in Hc. apply String.eqb_eq in Hc. by rewrite Hc.
  - right. right. left. destruct (r_user_id y); [|done]. cbn in Hc. apply String.eqb_eq in Hc. by rewrite Hc.
  - right. right. right. unfold nullif_empty in Hc. destruct (String.eqb_spec (cf_Authorization (so_config a)) ""); [done|]. split; [done|].
    destruct (r_authorization y); [|done]. cbn in Hc. apply String.eqb_eq in Hc. by rewrite Hc.
Qed.
End Loaded.

(** ** What the pool opens with *)

Section Opened.
Context (device_json : DeviceIdentity -> string) (session_json : SessionState -> string)
        (device_read : string -> option (option DeviceIdentity)) (session_read : string -> option (option SessionState)) (login_read : string -> option (option passwordCredentials)).
Context (Parse : string -> option URL) (ur_User : URL -> bool) (ur_Opaque : URL -> string) (lower : string -> string)
        (ParseIP : string -> bool) (PublicSuffix : string -> string) (cookie_valid : Cookie -> bool) (cookieAuthorization : string -> res failure (string * string)).
Abbreviation new_account := (pool_account Parse ur_User ur_Opaque lower ParseIP PublicSuffix cookie_valid cookieAuthorization).
Abbreviation add_accounts := (add_all Parse ur_User ur_Opaque lower ParseIP PublicSuffix cookie_valid cookieAuthorization).
Abbreviation open_pool := (Open Parse ur_User ur_Opaque lower ParseIP PublicSuffix cookie_valid cookieAuthorization).

(** The account the pool has of a row. *)
Record opened_row (s : Settings) (now : Z) (r : row) (x : poolAccount) : Prop := {
  op_id : po_id x = IdentityPrefix +:+ r_id r /\ accountIDPattern (r_id r) = true;
  op_shown : po_username x = default "" (r_username r) /\ po_ip x = r_egress_ip r;
  op_health : (r_dead r = true -> ac_disabled (po_account x) = true) /\ ac_cooldown (po_account x) = default zeroTime (r_cooldown r);
  op_bearer : match r_cookies r with
    | None => ac_authorization (po_account x) = default "" (r_authorization r) /\ validAuthorization (ac_authorization (po_account x)) = true /\ ac_disabled (po_account x) = r_dead r
    | Some raw => default "" (r_authorization r) = ""%string /\
        match cookieAuthorization raw with
        | Ok (auth, _) => ac_authorization (po_account x) = auth /\ ac_disabled (po_account x) = r_dead r
        | Err _ => ac_authorization (po_account x) = ""%string /\ ac_disabled (po_account x) = r_dead r || negb (ac_login (po_account x))
        end
    end;
  op_idle : ac_busy (po_account x) = 0 /\ ac_mediaBusy (po_account x) = 0 /\ ac_updating (po_account x) = false /\ ac_gate (po_account x) = false /\ ac_refreshErr (po_account x) = None;
  op_device : device_validate (po_device x) = true /\ read_device device_read (r_device r) = Some (po_device x);
  op_login : exists login, read_column login_read (r_login r) = Some login /\ login_matches (default "" (r_user_id r)) login = true /\
    ac_login (po_account x) = bool_decide (is_Some login);
  op_reason : ac_deadReason (po_account x) =
    if String.eqb (default "" (r_dead_reason r)) "" && match r_cookies r with Some raw => negb (is_ok (cookieAuthorization raw)) && negb (ac_login (po_account x)) | None => false end
    then "session_expired"%string else default "" (r_dead_reason r);
  op_session : exists session sc, read_column session_read (r_session r) = Some session /\
    newSessionContext Parse ur_User ur_Opaque lower ParseIP PublicSuffix cookie_valid session [apiOrigin] now = Ok sc /\
    (po_saved x, po_session x) = Snapshot Parse now sc;
  op_route : po_proxy x = r_proxy_url r /\ is_ok (new_transport Parse (r_proxy_url r) (se_HTTPMaxConnections s)) = true;
}.

Lemma read_row_spec r saved : read_row device_read session_read login_read r = Some saved ->
  cf_ID (so_config saved) = r_id r /\ cf_Authorization (so_config saved) = default "" (r_authorization r) /\ cf_Cookies (so_config saved) = r_cookies r /\
  cf_ProxyURL (so_config saved) = Some (r_proxy_url r) /\ so_Username saved = default "" (r_username r) /\ so_IP saved = r_egress_ip r /\ so_Dead saved = r_dead r /\
  so_CooldownUntil saved = default zeroTime (r_cooldown r) /\ so_DeadReason saved = default "" (r_dead_reason r) /\
  read_device device_read (r_device r) = Some (cf_Device (so_config saved)) /\ read_column login_read (r_login r) = Some (so_Login saved) /\
  login_matches (default "" (r_user_id r)) (so_Login saved) = true /\ read_column session_read (r_session r) = Some (cf_Session (so_config saved)).
Proof.
  unfold read_row. destruct (read_column session_read _); [|done]. destruct (read_device _ _) as [d|] eqn:Ed; [|done]. destruct (read_column login_read _); [|done].
  destruct (login_matches _ _) eqn:El; [|done]. intros [= <-]. by rewrite <- El.
Qed.

Lemma pool_account_spec s now saved x : new_account s now saved = Ok x ->
  po_id x = IdentityPrefix +:+ cf_ID (so_config saved) /\ forall r, read_row device_read session_read login_read r = Some saved -> opened_row s now r x.
Proof.
  unfold pool_account. intros H. destruct (stored_bearer _ saved) as [[auth expired]|e] eqn:Hb; [|done]. cbn [rbind] in H. destruct (_ || _) eqn:Hid; [done|].
  destruct (negb (device_validate _)) eqn:Hd; [done|]. destruct (newSessionContext _ _ _ _ _ _ _ _ _ _) as [session|e] eqn:Hsc; [|done].
  destruct (new_transport _ _ _) as [[]|e] eqn:Ht; [|done]. unfold Snapshot in H. injection H as <-. cbn [po_id po_account ac_id]. split; [done|].
  intros r (R1 & R2 & R3 & R4 & R5 & R6 & R7 & R8 & R9 & R10 & R11 & R12 & R13)%read_row_spec. apply orb_false_iff in Hid as [Hp Hv]. apply negb_false_iff in Hp, Hd. rewrite R1 in *. rewrite R4 in Ht. cbn [default] in Ht.
  split; unfold po_id; cbn; rewrite ?R5, ?R6, ?R7, ?R8; try done.
  - split; [by intros ->|done].
  - unfold stored_bearer in Hb. rewrite R3, R2 in Hb. rewrite R3 in Hv. destruct (r_cookies r) as [raw|].
    + destruct (String.eqb_spec (default "" (r_authorization r)) ""); [|done]. split; [done|]. cbn [negb] in Hb. destruct (cookieAuthorization raw) as [[a u]|e']; injection Hb as <- <-; [by rewrite orb_false_r|].
      split; [done|]. by destruct (so_Login saved).
    + injection Hb as <- <-. apply negb_false_iff in Hv. by rewrite orb_false_r.
  - exists (so_Login saved). split; [done|]. split; [done|]. by destruct (so_Login saved).
  - unfold stored_bearer in Hb. rewrite R3, R2 in Hb. rewrite R9, andb_comm. destruct (r_cookies r) as [raw|].
    + destruct (negb _); [done|]. destruct (cookieAuthorization raw) as [[a u]|e']; injection Hb as <- <-; cbn [is_ok negb andb]; [by rewrite andb_false_r|].
      by destruct (so_Login saved).
    + injection Hb as <- <-. by rewrite andb_false_r.
  - exists (cf_Session (so_config saved)), session. done.
  - split; [by rewrite R4|]. unfold id in Ht. by rewrite Ht.
Qed.

Lemma add_all_spec s now saved : forall l l', add_accounts s now saved l = Ok l' -> NoDup ((po_id <$> l) ++ ((fun a => IdentityPrefix +:+ cf_ID (so_config a)) <$> saved)) ->
  exists new, l' = l ++ new /\ Forall2 (fun a x => new_account s now a = Ok x) saved new.
Proof.
  induction saved as [|a saved IH]; intros l l'; cbn [add_all].
  { intros [= <-] _. exists []. by rewrite app_nil_r. }
  unfold addStoredAccount. destruct (new_account s now a) as [x|e] eqn:Ex; [|done]. cbn [rbind]. destruct (pool_account_spec _ _ _ _ Ex) as [Hx _].
  destruct (existsb _ l) eqn:Hd; cbn [rbind]; intros H Hn.
  - exfalso. apply existsb_exists in Hd as (y & Hy%list_elem_of_In & E%String.eqb_eq). cbn in Hn. apply NoDup_app in Hn as (_ & Hn & _). apply (Hn (po_id y)); [by apply list_elem_of_fmap_2|].
    rewrite E, Hx. by left.
  - destruct (IH _ _ H) as (new & -> & Hnew).
    { rewrite fmap_app. cbn. rewrite <- app_assoc. cbn. rewrite Hx. by cbn in Hn. }
    exists (x :: new). rewrite <- app_assoc. split; [done|]. by constructor.
Qed.

Lemma new_ids s now saved new : Forall2 (fun a x => new_account s now a = Ok x) saved new -> (po_id <$> new) = (fun a => IdentityPrefix +:+ cf_ID (so_config a)) <$> saved.
Proof. induction 1 as [|a x saved new Hx _ IH]; [done|]. cbn. rewrite IH. by destruct (pool_account_spec _ _ _ _ Hx) as [-> _]. Qed.

Lemma read_ids t saved : Forall2 (fun r a => read_row device_read session_read login_read r = Some a) t saved ->
  ((fun a => IdentityPrefix +:+ cf_ID (so_config a)) <$> saved) = (fun r => IdentityPrefix +:+ r_id r) <$> t.
Proof. induction 1 as [|r a rows saved Hr _ IH]; [done|]. cbn. rewrite IH. by destruct (read_row_spec _ _ Hr) as [-> _]. Qed.

Lemma opened_rows s now t saved new : Forall2 (fun r a => read_row device_read session_read login_read r = Some a) t saved ->
  Forall2 (fun a x => new_account s now a = Ok x) saved new -> Forall2 (opened_row s now) t new.
Proof.
  intros H. revert new. induction H as [|r a rows saved Hr _ IH]; intros new Hnew; inversion Hnew; subst; constructor; [|by apply IH]. by eapply pool_account_spec.
Qed.

Lemma prefixed_injective a b : IdentityPrefix +:+ a = IdentityPrefix +:+ b -> a = b.
Proof. intros H. by apply (inj (String.append IdentityPrefix)) in H. Qed.

(** C29. When the pool opens with a database, the options are in range, every
    configured account is a row or has its authorization in one, and the pool has
    exactly one idle account for each row, in their order, with the row's
    identity, route, device, cooldown, password backup and session context, as they are
    read: it has the authorization that is valid
    or that its cookies give, and is dead exactly when the row is, or when its
    cookies have expired and it has no password to renew them, with the reason
    the row has or else that its session expired.  The rows that
    were there are as they were; those that are new are alive. *)
Theorem accounts_opened settings now configs connected began executed committed loaded answered t s l t' :
  op_Store (se_options settings) = true -> unique t = true ->
  open_pool settings now (Ok configs) (Seed device_json session_json connected began executed committed) (Load device_read session_read login_read loaded answered) t = (Ok (s, l), t') ->
  s = defaults settings /\ valid_settings s = true /\ unique t' = true /\ (exists new, t' = t ++ new /\ Forall fresh new) /\ Forall (present t') configs /\
  NoDup (po_id <$> l) /\ Forall2 (opened_row s now) t' l.
Proof.
  intros Hs Hu. unfold Open. destruct (negb (valid_settings _)) eqn:Hv; [done|]. apply negb_false_iff in Hv. assert (op_Store (se_options (defaults settings)) = true) as -> by done.
  unfold Seed, withDB. destruct connected; [|done]. unfold transaction. destruct began; [|done]. cbn [negb]. destruct (seed_rows _ _ _ _ _ _) as [t1|] eqn:E; [|done].
  destruct committed; [|done|done]. destruct (seed_rows_spec _ _ _ _ _ _ _ Hu E) as (U & N & P). unfold Load. destruct (_ && _); [|done].
  destruct (mapM _ t1) as [saved|] eqn:Em; [|done]. cbn [rbind]. destruct (add_accounts _ now saved []) as [l0|e] eqn:Ea; [|done]. intros [= <- <- <-].
  apply mapM_Some in Em. pose proof (read_ids _ _ Em) as Eid. assert (NoDup ((fun r => IdentityPrefix +:+ r_id r) <$> t1)) as Hnd.
  { rewrite (list_fmap_compose r_id (fun i => IdentityPrefix +:+ i)). apply NoDup_fmap_2; [exact prefixed_injective|by apply unique_ids]. }
  destruct (add_all_spec _ _ _ _ _ Ea) as (new & -> & Hnew); [by rewrite Eid|]. cbn [app] in *. repeat split; try done.
  - by rewrite (new_ids _ _ _ _ Hnew), Eid.
  - by eapply opened_rows.
Qed.
End Opened.

(** ** Schema and attempts *)

(** The columns [Load] reads. *)
Definition loaded_columns : list string :=
  ["id"; "android_authorization"; "proxy_url"; "username"; "user_id"; "egress_ip"; "dead"; "device"; "cookies"; "login_credentials"; "dead_reason"; "cooldown_until"; "session_state"].
Lemma added_column n names columns : n ∈ names \/ n ∈ columns -> n ∈ add_columns names columns.
Proof.
  unfold add_columns. rewrite elem_of_app. intros [H|H]; [|by left]. destruct (existsb (String.eqb n) columns) eqn:E.
  - left. apply existsb_exists in E as (m & Hm%list_elem_of_In & E%String.eqb_eq). by subst.
  - right. apply list_elem_of_In, filter_In. split; [by apply list_elem_of_In|by rewrite E].
Qed.

(** A store opened on no table or on one of any earlier version has every column
    that is read, and rows may lack an authorization. *)
Lemma open_store_complete parsed connected executed s s' : match sc_accounts s with Some (columns, _) => forall n, n ∈ base_columns -> n ∈ columns | None => True end ->
  OpenStore parsed connected executed s = (Ok tt, s') -> exists columns, sc_accounts s' = Some (columns, true) /\ sc_attempts s' = true /\ forall n, n ∈ loaded_columns -> n ∈ columns.
Proof.
  intros Hb. unfold OpenStore. destruct (_ && _); [|done]. cbn [migrate_all migrations].
  destruct (executed 0%nat); [|done]. destruct s as [[[columns nullable]|] attempts]; cbn [migrate sc_accounts sc_attempts];
    (destruct (executed 1%nat); [|done]); (destruct (executed 2%nat); [|done]); (destruct (executed 3%nat); [|done]); (destruct (executed 4%nat); [|done]); (destruct (executed 5%nat); [|done]);
    cbn [migrate sc_accounts sc_attempts]; intros [= <-]; eexists; (split; [reflexivity|]); (split; [done|]); intros n Hn.
  - assert (n ∈ base_columns \/ n ∈ ["device"; "cookies"; "login_credentials"; "cooldown_until"; "session_state"]%string) as [H|H] by (unfold base_columns, loaded_columns in *; set_solver).
    + do 4 (apply added_column; right). by apply Hb.
    + rewrite !elem_of_cons in H. destruct H as [->|[->|[->|[->|[->|H%elem_of_nil]]]]]; [..|done];
        repeat first [solve [apply added_column; left; set_solver]|apply added_column; right].
  - apply list_elem_of_In in Hn. apply list_elem_of_In. cbn in *. tauto.
Qed.

(** An extraction runs only once its row is in the log; its result is given only
    once the row says so, and one row at most is added. *)
Lemma attempt_logged {A} id source legacy connected begun (run : res goerr A) reconnected ended l r ran l' : (forall a, a ∈ l -> at_id a <> id) ->
  Attempt id source legacy connected begun run reconnected ended l = (r, ran, l') ->
  (l' = l /\ ran = false \/ exists o, l' = l ++ [mkAttempt id source legacy o]) /\ (forall a, r = Ok a -> run = Ok a /\ ran = true /\ l' = l ++ [mkAttempt id source legacy (Some (true, None))]).
Proof.
  intros Hl. assert (forall o, map (set_outcome id o) (l ++ [mkAttempt id source legacy None]) = l ++ [mkAttempt id source legacy (Some o)]) as Hm.
  { intros o. rewrite map_app. cbn. f_equal; [|by unfold set_outcome; cbn; rewrite String.eqb_refl]. clear -Hl. induction l as [|a l IH]; [done|]. cbn.
    rewrite IH by (intros b Hb; apply Hl; by right). unfold set_outcome. destruct (String.eqb_spec (at_id a) id) as [E|]; [|done]. exfalso. apply (Hl a); [by left|done]. }
  unfold Attempt. destruct connected; [|intros [= <- <- <-]; split; [by left|done]].
  destruct begun; cbn [log_attempt]; [|intros [= <- <- <-]; split; [by left|done]|intros [= <- <- <-]; split; [right; by exists None|done]].
  destruct reconnected; [|intros [= <- <- <-]; split; [right; by exists None|done]].
  destruct ended; cbn [log_attempt]; rewrite ?Hm; intros [= <- <- <-]; (split; [right; by eexists|]); try done. by intros a ->.
Qed.

(** ** Readiness *)

(** A pool that is ready refuses a request only because every account cools down
    or has been tried; one that grants a request an account is ready. *)
Lemma ready_admits o now tried p f : Ready o p = true -> attempt_turn o now "" tried p = Refuse f -> f = noneAvailable.
Proof.
  unfold Ready, attempt_turn. intros [Hr Hl]%andb_prop. apply negb_true_iff, orb_false_iff in Hr as [[-> ->]%orb_false_iff ->]. cbn [String.eqb andb orb].
  rewrite bool_decide_eq_false_2 by (intros E; by rewrite E in Hl). cbn [negb]. destruct (scan _ _ _ _ _ _ _) as [[] [a|]]; intros H; by inversion H.
Qed.

(** ** Witnesses *)

Definition demo_row (id : string) (user auth : option string) (dead : bool) : row :=
  mkRow id None user auth "" "" dead (if dead then Some "session_expired" else None) (if dead then Some 7 else None) None None None (Some 5) None.
Definition demo_table : table := [demo_row "a" (Some "1") (Some "s1") true; demo_row "b" (Some "2") (Some "s2") false].
Abbreviation demo_called := (called (fun _ => "d") (fun _ => "s") (fun _ => "l") (fun raw => raw) ToLower (fun raw => Ok (raw, "")))%string.

(** A login cannot save the session of a dead row; its replacement can, and revives it. *)
Lemma store_rows_witness :
  demo_called (CallSave true Executed "a" "1" "new" None None) demo_table = demo_table /\
  (r_dead <$> demo_called (CallReplace true Unanswered "a" "1" "new" None None None None) demo_table) = [false; false] /\
  kept (fun raw => Ok (raw, "")) (CallReplace true Unanswered "a" "1" "new" None None None None) demo_table (demo_called (CallReplace true Unanswered "a" "1" "new" None None None None) demo_table).
Proof.
  split; [vm_compute; reflexivity|]. split; [vm_compute; reflexivity|].
  apply (store_rows (fun _ => "d") (fun _ => "s") (fun _ => "l") (fun raw => raw) ToLower (fun raw => Ok (raw, "")))%string. vm_compute. reflexivity.
Defined.

Definition demo_stored : storedAccount :=
  mkStoredAccount (mkConfig (Some "[]") "c" "" "" (Some "http://p:1") (Some demo_device) None) (Some (mkPassword "Carol" "secret" "" "3")) "Carol" "3" "10.0.0.1" false "" zeroTime.
Lemma insert_roundtrip_witness :
  let t' := (Insert (fun _ => "d") (fun _ => "s") (fun _ => "l") (fun raw => raw) ToLower true Executed demo_stored demo_table).2 in
  length t' = 3%nat /\ exists l, Load (fun _ => Some (Some demo_device)) (fun _ => None) (fun _ => Some (Some (mkPassword "Carol" "secret" "" "3"))) true true t' = Ok (l ++ [as_loaded (fun raw => raw) ToLower demo_stored]).
Proof.
  intros t'. split; [vm_compute; reflexivity|].
  destruct (Load (fun _ => Some (Some demo_device)) (fun _ => None) (fun _ => Some (Some (mkPassword "Carol" "secret" "" "3"))) true true demo_table) as [l|] eqn:El; [|vm_compute in El; discriminate El].
  exists l. destruct (Insert (fun _ => "d") (fun _ => "s") (fun _ => "l") (fun raw => raw) ToLower true Executed demo_stored demo_table) as [result t1] eqn:E.
  pose proof (insert_roundtrip (fun _ => "d") (fun _ => "s") (fun _ => "l") (fun raw => raw) (fun _ => Some (Some demo_device)) (fun _ => None) (fun _ => Some (Some (mkPassword "Carol" "secret" "" "3"))) ToLower
    true Executed demo_stored demo_table result t1 l) as H.
  assert (result = Ok true) as -> by (vm_compute in E; injection E as <- _; reflexivity).
  apply H; [|exact El|exact E]. split; cbn.
  - intros d [= <-]. split; [discriminate|reflexivity].
  - discriminate.
  - intros x [= <-]. split; [discriminate|reflexivity].
  - reflexivity.
Defined.

Definition demo_options : Settings := mkSettings (mkOptions 0 0 0 0 0 true) 0 0 0.
Definition demo_configs : list accountConfig := [mkConfig None "c" "Bearer IGT:2:abc" "" None None None].
Definition demo_bearer (id : string) (auth : string) : row := mkRow id None None (Some auth) "" "" true (Some "session_expired") (Some 7) None None None (Some 5) None.
Definition demo_opened : res goerr (Settings * list poolAccount) * table :=
  Open demo_Parse demo_User demo_Opaque ToLower demo_IP demo_suffix demo_valid (fun raw => Ok (raw, ""%string)) demo_options 0 (Ok demo_configs)
    (Seed (fun _ => "d"%string) (fun _ => "s"%string) true true (fun _ => true) Executed) (Load (fun _ => None) (fun _ => None) (fun _ => None) true true) [demo_bearer "a" "Bearer IGT:2:def"].

Lemma accounts_opened_witness : exists s l t', demo_opened = (Ok (s, l), t') /\ (ac_disabled ∘ po_account <$> l) = [true; false] /\
  NoDup (po_id <$> l) /\ Forall (present t') demo_configs.
Proof.
  destruct demo_opened as [[[s l]|e] t'] eqn:E; [|vm_compute in E; discriminate E].
  assert ((ac_disabled ∘ po_account <$> l) = [true; false]) as Hl by (vm_compute in E; injection E as <- <- <-; reflexivity).
  exists s, l, t'. split; [reflexivity|]. split; [exact Hl|].
  pose proof (accounts_opened (fun _ => "d"%string) (fun _ => "s"%string) (fun _ => None) (fun _ => None) (fun _ => None) demo_Parse demo_User demo_Opaque ToLower demo_IP demo_suffix demo_valid
    (fun raw => Ok (raw, ""%string)) demo_options 0 demo_configs true true (fun _ => true) Executed true true [demo_bearer "a" "Bearer IGT:2:def"] s l t' eq_refl eq_refl E) as H.
  split; apply H.
Defined.
