(* ===== verification/LoginTransport.v ===== *)
(** * instagramapp: the connections of an account's private API

    Models src/internal/instagramapp/login_transport.go: the choice of a
    transport, the ownership of HTTP/2 connections with their replacement and
    end, and the opening of one through a proxy.

    Each critical section of the transport's mutex is one step, a dial included,
    since the mutex is held during it.  What golang.org/x/net/http2 does to a
    connection are steps of its own: a request opens a stream or is refused, a
    reply arrives or fails, the server goes away, a connection ends.  The number of
    streams is what [ClientConn.State] counts as active, pending or reserved.
    Dialing, TLS, the SOCKS client and the answer of an HTTP proxy are inputs of
    [dial]. *)
From S2P Require Import Prelude Strconv Errors Crypto AppRoute TikTokPost Api.
From stdpp Require Import gmap strings.
Open Scope Z_scope.
Open Scope go_scope.

(** ** Opening a connection *)

Inductive wire_event :=
| DialTCP (address : string)
| DialSOCKS (proxy address : string)
| ProxyTLS (host : string)
| WriteConnect (address : string) (authorization : option string)
| HelloTLS (host : string)
| CloseWire.

Definition unsupported_proxy : goerr := ErrOther "unsupported login proxy".
Definition connect_failed : goerr := ErrOther "login proxy CONNECT failed".
Definition not_http2 : goerr := ErrOther "login requires HTTP/2".

(** What a dial meets: the choice of a proxy, whether the SOCKS client can be
    made, the outcome of dialing, of TLS with an HTTPS proxy, of writing CONNECT,
    the proxy's status with the bytes after its answer, the handshake with its
    protocol, and the end of the context at the end. *)
Record dialing := mkDialing {
  dg_route : res goerr (option URL); dg_socks : res goerr unit; dg_dialed : res goerr unit; dg_secured : res goerr unit; dg_written : res goerr unit;
  dg_answer : res goerr (Z * Z); dg_shaken : res goerr string; dg_ctxErr : option goerr;
}.

Section Dial.
Context (ur_User : URL -> option (string * string)) (ur_Text : URL -> string).

Definition proxy_port (route : URL) : string :=
  if negb (String.eqb (Port route) "") then Port route else if String.eqb (ur_Scheme route) "https" then "443" else "80".
Definition proxy_authorization (route : URL) : option string :=
  (fun up => "Basic " +:+ string_of_bytes (EncodeToString (bytes_of_string (up.1 +:+ ":" +:+ up.2)))) <$> ur_User route.
Definition is_socks (route : URL) : bool := existsb (String.eqb (ur_Scheme route)) ["socks5"; "socks5h"].
Definition is_http (route : URL) : bool := existsb (String.eqb (ur_Scheme route)) ["http"; "https"].

(** How the wire is dialed. *)
Definition dial_wire (g : dialing) (route : option URL) (address : string) : res goerr wire_event :=
  match route with
  | None => Ok (DialTCP address)
  | Some r =>
      if is_socks r then match dg_socks g with Ok _ => Ok (DialSOCKS (ur_Text r) address) | Err e => Err e end
      else if is_http r then Ok (DialTCP (JoinHostPort (Hostname r) (proxy_port r)))
      else Err unsupported_proxy
  end.

(** The tunnel through an HTTP proxy, on a wire that is dialed. *)
Definition tunnel (g : dialing) (r : URL) (address : string) : list wire_event * res goerr unit :=
  let '(evs, secured) := if String.eqb (ur_Scheme r) "https" then ([ProxyTLS (Hostname r)], dg_secured g) else ([], Ok tt) in
  match secured with
  | Err e => (evs, Err e)
  | Ok _ =>
      let evs := evs ++ [WriteConnect address (proxy_authorization r)] in
      match dg_written g with
      | Err e => (evs, Err e)
      | Ok _ => (evs, match dg_answer g with Ok (status, buffered) => if (status =? 200) && (buffered =? 0) then Ok tt else Err connect_failed | Err _ => Err connect_failed end)
      end
  end.

Definition handshake (g : dialing) : res goerr unit :=
  match dg_shaken g with
  | Err e => Err e
  | Ok protocol => if negb (String.eqb protocol "h2") then Err not_http2 else match dg_ctxErr g with Some e => Err e | None => Ok tt end
  end.

Definition dial (g : dialing) (target : URL) (address : string) : list wire_event * res goerr unit :=
  match dg_route g with
  | Err e => ([], Err e)
  | Ok route =>
      match dial_wire g route address with
      | Err e => ([], Err e)
      | Ok wire =>
          match dg_dialed g with
          | Err e => ([wire], Err e)
          | Ok _ =>
              let '(evs, tunneled) := match route with Some r => if is_http r then tunnel g r address else ([], Ok tt) | None => ([], Ok tt) end in
              match tunneled with
              | Err e => (wire :: evs ++ [CloseWire], Err e)
              | Ok _ =>
                  match handshake g with
                  | Err e => (wire :: evs ++ [HelloTLS (Hostname target); CloseWire], Err e)
                  | Ok _ => (wire :: evs ++ [HelloTLS (Hostname target)], Ok tt)
                  end
              end
          end
      end
  end.

(** A wire that is dialed is returned once the target's handshake is over, or
    closed; through a proxy only CONNECT comes first, and credentials of the proxy
    go nowhere else. *)
Lemma dial_closes g target address : let '(evs, r) := dial g target address in
  match r with
  | Ok _ => exists wire evs', evs = wire :: evs' ++ [HelloTLS (Hostname target)] /\ CloseWire ∉ evs
  | Err _ => evs = [] \/ (exists wire, evs = [wire] /\ is_ok (dg_dialed g) = false) \/ exists wire evs', evs = wire :: evs' ++ [CloseWire]
  end.
Proof.
  unfold dial. destruct (dg_route g) as [route|e]; [|by left]. destruct (dial_wire g route address) as [wire|e] eqn:Hw; [|by left].
  destruct (dg_dialed g) as [[]|e]; [|right; left; by exists wire]. set (t := match route with Some r => _ | None => _ end). assert (CloseWire ∉ t.1) as Ht.
  { unfold t, tunnel. destruct route as [r|]; [|by apply not_elem_of_nil]. destruct (is_http r); [|by apply not_elem_of_nil].
    destruct (String.eqb _ "https"); destruct (dg_secured g), (dg_written g); cbn; rewrite ?elem_of_cons; intuition (done || by eapply elem_of_nil). }
  destruct t as [evs [[]|e]]; cbn [fst] in Ht; [|right; right; by exists wire, evs].
  destruct (handshake g) as [[]|e]; [|right; right; exists wire, (evs ++ [HelloTLS (Hostname target)]); by rewrite <- app_assoc].
  exists wire, evs. split; [done|]. assert (wire <> CloseWire) by (unfold dial_wire in Hw; repeat case_match; congruence). set_solver.
Qed.
End Dial.

(** ** The choice of a transport *)

Section Choice.
Context (ur_HasUser : URL -> bool) (lower : string -> string).

(** [apiTransport.RoundTrip]: whether the account's own transport is used. *)
Definition mobile (u : URL) : bool :=
  String.eqb (ur_Scheme u) "https" && negb (ur_HasUser u) && (String.eqb (Port u) "" || String.eqb (Port u) "443") &&
  existsb (String.eqb (lower (Hostname u))) ["i.instagram.com"; "b.i.instagram.com"].

(** The address of [loginTransport.RoundTrip], which accepts nothing but HTTPS. *)
Definition login_address (u : URL) : option string :=
  if negb (String.eqb (ur_Scheme u) "https") || String.eqb (Hostname u) "" || ur_HasUser u then None
  else Some (JoinHostPort (Hostname u) (if String.eqb (Port u) "" then "443" else Port u)).
End Choice.

(** ** Connections *)

Record conn := mkConn { cn_address : string; cn_streams : Z; cn_closing : bool; cn_closed : bool }.

(** A request, from its call to the end of its reply's body. *)
Inductive caller :=
| Waiting (address : string)
| Chosen (address : string) (c : nat)
| Streaming (address : string) (c : nat)
| Answered (address : string) (c : nat)
| Refused (address : string) (c : nat)
| Done (address : string) (answered : bool).

(** [lt_sent] are the requests that opened a stream, with its connection. *)
Record loginTransport := mkTransport {
  lt_conns : list conn; lt_connections : gmap string nat; lt_retired : gset nat; lt_closed : bool; lt_callers : list caller; lt_sent : list (nat * nat);
}.
Definition newLoginTransport : loginTransport := mkTransport [] ∅ ∅ false [] [].

Definition set_conns (l : list conn) (t : loginTransport) : loginTransport := mkTransport l (lt_connections t) (lt_retired t) (lt_closed t) (lt_callers t) (lt_sent t).
Definition set_caller (i : nat) (x : caller) (t : loginTransport) : loginTransport :=
  mkTransport (lt_conns t) (lt_connections t) (lt_retired t) (lt_closed t) (<[i := x]> (lt_callers t)) (lt_sent t).
Definition close_conn (k : conn) : conn := mkConn (cn_address k) (cn_streams k) (cn_closing k) true.
Definition add_stream (d : Z) (k : conn) : conn := mkConn (cn_address k) (cn_streams k + d) (cn_closing k) (cn_closed k).
Definition unusable (k : conn) : bool := cn_closed k || cn_closing k.

(** [retireLocked]. *)
Definition retire (address : string) (c : nat) (t : loginTransport) : loginTransport :=
  let current := if bool_decide (lt_connections t !! address = Some c) then delete address (lt_connections t) else lt_connections t in
  match lt_conns t !! c with
  | Some k =>
      if cn_streams k =? 0 then mkTransport (alter close_conn c (lt_conns t)) current (lt_retired t) (lt_closed t) (lt_callers t) (lt_sent t)
      else mkTransport (lt_conns t) current (if cn_closed k then lt_retired t else {[c]} ∪ lt_retired t) (lt_closed t) (lt_callers t) (lt_sent t)
  | None => t
  end.

(** Retired connections that are closed are forgotten. *)
Definition prune (t : loginTransport) : loginTransport :=
  mkTransport (lt_conns t) (lt_connections t) (filter (fun c => (match lt_conns t !! c with Some k => cn_closed k | None => true end) = false) (lt_retired t))
    (lt_closed t) (lt_callers t) (lt_sent t).

(** The first critical section of [RoundTrip]; [dialed] when the dial and the
    client's preface succeed. *)
Definition enter (i : nat) (address : string) (dialed : bool) (t : loginTransport) : loginTransport :=
  if lt_closed t then set_caller i (Done address false) t
  else
    let current := lt_connections t !! address in
    let t := prune t in
    let '(current, t) :=
      match current with
      | Some c => match lt_conns t !! c with Some k => if unusable k then (None, retire address c t) else (Some c, t) | None => (None, t) end
      | None => (None, t)
      end in
    match current with
    | Some c => set_caller i (Chosen address c) t
    | None =>
        if dialed then
          let c := length (lt_conns t) in
          set_caller i (Chosen address c)
            (mkTransport (lt_conns t ++ [mkConn address 0 false false]) (<[address := c]> (lt_connections t)) (lt_retired t) (lt_closed t) (lt_callers t) (lt_sent t))
        else set_caller i (Done address false) t
    end.

(** The second one, after a failure. *)
Definition after_failure (i : nat) (address : string) (c : nat) (t : loginTransport) : loginTransport :=
  set_caller i (Done address false) (match lt_conns t !! c with Some k => if unusable k then retire address c t else t | None => t end).

Definition CloseIdleConnections (t : loginTransport) : loginTransport :=
  let owned c := bool_decide (c ∈ lt_retired t) || bool_decide (map_Exists (fun _ c' => c' = c) (lt_connections t)) in
  mkTransport (imap (fun c k => if owned c then close_conn k else k) (lt_conns t)) ∅ ∅ true (lt_callers t) (lt_sent t).

Inductive event :=
| Call (u_address : string)
| Enter (i : nat) (dialed : bool)
| Send (i : nat) (accepted : bool)
| Reply (i : nat) (ok : bool)
| CloseBody (i : nat)
| Leave (i : nat)
| GoAway (c : nat)
| Ended (c : nat)
| CloseIdle.

Definition step (e : event) (t : loginTransport) : loginTransport :=
  match e with
  | Call address => mkTransport (lt_conns t) (lt_connections t) (lt_retired t) (lt_closed t) (lt_callers t ++ [Waiting address]) (lt_sent t)
  | Enter i dialed => match lt_callers t !! i with Some (Waiting address) => enter i address dialed t | _ => t end
  | Send i accepted =>
      match lt_callers t !! i with
      | Some (Chosen address c) =>
          match lt_conns t !! c with
          | Some k =>
              if unusable k || negb accepted then set_caller i (Refused address c) t
              else
                let t := set_caller i (Streaming address c) (set_conns (alter (add_stream 1) c (lt_conns t)) t) in
                mkTransport (lt_conns t) (lt_connections t) (lt_retired t) (lt_closed t) (lt_callers t) ((i, c) :: lt_sent t)
          | None => t
          end
      | _ => t
      end
  | Reply i ok =>
      match lt_callers t !! i with
      | Some (Streaming address c) =>
          if ok then set_caller i (Answered address c) t else set_caller i (Refused address c) (set_conns (alter (add_stream (-1)) c (lt_conns t)) t)
      | _ => t
      end
  | CloseBody i =>
      match lt_callers t !! i with
      | Some (Answered address c) => set_caller i (Done address true) (set_conns (alter (add_stream (-1)) c (lt_conns t)) t)
      | _ => t
      end
  | Leave i => match lt_callers t !! i with Some (Refused address c) => after_failure i address c t | _ => t end
  | GoAway c => set_conns (alter (fun k => mkConn (cn_address k) (cn_streams k) true (cn_closed k)) c (lt_conns t)) t
  | Ended c => set_conns (alter close_conn c (lt_conns t)) t
  | CloseIdle => CloseIdleConnections t
  end.
Definition run (events : list event) : loginTransport := fold_left (fun t e => step e t) events newLoginTransport.

(** ** Who owns a connection *)

Definition streams_at (c : nat) (x : caller) : bool := match x with Streaming _ c' | Answered _ c' => Nat.eqb c' c | _ => false end.
Definition asks (x : caller) : string := match x with Waiting a | Chosen a _ | Streaming a _ | Answered a _ | Refused a _ | Done a _ => a end.
Definition on_conn (x : caller) : option nat := match x with Chosen _ c | Streaming _ c | Answered _ c | Refused _ c => Some c | _ => None end.
Definition unsent (x : caller) : bool := match x with Waiting _ | Chosen _ _ => true | _ => false end.

Record owned (t : loginTransport) : Prop := {
  ow_current a c : lt_connections t !! a = Some c -> exists k, lt_conns t !! c = Some k /\ cn_address k = a;
  ow_open c k : lt_conns t !! c = Some k -> cn_closed k = false -> lt_connections t !! cn_address k = Some c \/ c ∈ lt_retired t;
  ow_closed : lt_closed t = true -> lt_connections t = ∅ /\ lt_retired t = ∅;
  ow_streams c k : lt_conns t !! c = Some k -> cn_streams k = tally (streams_at c) (lt_callers t);
  ow_callers i x c : lt_callers t !! i = Some x -> on_conn x = Some c -> exists k, lt_conns t !! c = Some k /\ cn_address k = asks x;
  ow_sent : NoDup (lt_sent t).*1;
  ow_sent_by i c : (i, c) ∈ lt_sent t -> exists x k, lt_callers t !! i = Some x /\ unsent x = false /\ lt_conns t !! c = Some k /\ cn_address k = asks x;
}.

(** What a step does to the connections it finds: they stay, at their address,
    closed ones closed. *)
Record conns_grow (t t' : loginTransport) : Prop := {
  cg_kept c k : lt_conns t !! c = Some k -> exists k', lt_conns t' !! c = Some k' /\ cn_address k' = cn_address k /\ (cn_closed k = true -> cn_closed k' = true);
}.

Lemma new_owned : owned newLoginTransport.
Proof. split; cbn; try done; [by constructor|]. intros i c H. by apply elem_of_nil in H. Qed.

Lemma alter_lookup_Some (f : conn -> conn) c (l : list conn) d k' : alter f c l !! d = Some k' ->
  exists k, l !! d = Some k /\ k' = if decide (d = c) then f k else k.
Proof.
  intros H. destruct (decide (d = c)) as [->|Hne]; [rewrite list_lookup_alter_eq in H|rewrite list_lookup_alter_ne in H by done; by exists k'].
  destruct (l !! c) as [k|]; [|done]. injection H as <-. by exists k.
Qed.

Lemma alter_lookup_kept (f : conn -> conn) c (l : list conn) d k : l !! d = Some k -> alter f c l !! d = Some (if decide (d = c) then f k else k).
Proof. intros H. destruct (decide (d = c)) as [->|Hne]; [by rewrite list_lookup_alter_eq, H|by rewrite list_lookup_alter_ne]. Qed.

(** The connections change, and their count of streams as the caller does. *)
Lemma owned_move t i x x' f c : owned t -> lt_callers t !! i = Some x -> (forall k, cn_address (f k) = cn_address k) -> (forall k, cn_closed k = true -> cn_closed (f k) = true) ->
  (forall k, lt_conns t !! c = Some k -> cn_streams (f k) = cn_streams k - b2z (streams_at c x) + b2z (streams_at c x')) ->
  (forall d, d <> c -> streams_at d x = streams_at d x') -> asks x' = asks x -> (forall d, on_conn x' = Some d -> on_conn x = Some d) -> (unsent x = false -> unsent x' = false) ->
  owned (set_caller i x' (set_conns (alter f c (lt_conns t)) t)).
Proof.
  intros [O1 O2 O3 O4 O5 O6 O7] Hi Ha Hcl Hs Hd Hasks Hon Hun. split; cbn; try done.
  - intros a d H. destruct (O1 a d H) as (k & Hk & E). rewrite (alter_lookup_kept _ _ _ _ _ Hk). eexists. split; [done|]. case_decide; [by rewrite Ha|done].
  - intros d k' Hk' Hop. apply alter_lookup_Some in Hk' as (k & Hk & ->). destruct (cn_closed k) eqn:Ec; [case_decide; [by rewrite Hcl in Hop|congruence]|].
    replace (cn_address _) with (cn_address k) by (case_decide; [by rewrite Ha|done]). by apply O2.
  - intros d k' Hk'. apply alter_lookup_Some in Hk' as (k & Hk & ->). rewrite (tally_insert _ _ _ _ _ Hi), <- (O4 d k Hk).
    case_decide as E; [subst; by apply Hs|rewrite (Hd d E); lia].
  - intros j y d Hj Hd'. apply list_lookup_insert_Some in Hj as [(<- & <- & _)|[_ Hj]].
    + destruct (O5 i x d Hi (Hon d Hd')) as (k & Hk & E). rewrite (alter_lookup_kept _ _ _ _ _ Hk). eexists. split; [done|]. case_decide; [rewrite Ha|]; congruence.
    + destruct (O5 j y d Hj Hd') as (k & Hk & E). rewrite (alter_lookup_kept _ _ _ _ _ Hk). eexists. split; [done|]. case_decide; [rewrite Ha|]; congruence.
  - intros j d Hj. destruct (O7 j d Hj) as (y & k & Hy & Hu & Hk & E). rewrite (alter_lookup_kept _ _ _ _ _ Hk).
    exists (if decide (j = i) then x' else y), (if decide (d = c) then f k else k). split; [|split; [|split; [done|]]].
    + case_decide as E'; [subst; apply list_lookup_insert_eq; by eapply lookup_lt_Some|by rewrite list_lookup_insert_ne].
    + case_decide as E'; [|done]. subst. apply Hun. by replace x with y by congruence.
    + replace (asks _) with (asks y) by (case_decide; [subst; replace y with x by congruence; done|done]). case_decide; [by rewrite Ha|done].
Qed.

Lemma alter_id {A} (l : list A) c : alter (fun k => k) c l = l.
Proof. apply list_eq. intros d. destruct (decide (d = c)) as [->|Hne]; [rewrite list_lookup_alter_eq; by destruct (l !! c)|by rewrite list_lookup_alter_ne]. Qed.

(** A move that changes no connection. *)
Lemma owned_phase t i x x' : owned t -> lt_callers t !! i = Some x -> (forall d, streams_at d x = streams_at d x') -> asks x' = asks x ->
  (forall d, on_conn x' = Some d -> on_conn x = Some d) -> (unsent x = false -> unsent x' = false) -> owned (set_caller i x' t).
Proof.
  intros H Hi Hs Ha Ho Hu. pose proof (owned_move t i x x' (fun k => k) 0 H Hi ltac:(done) ltac:(done)) as Hm. rewrite alter_id in Hm.
  assert (set_conns (lt_conns t) t = t) as E by (by destruct t). rewrite E in Hm. apply Hm; try done. intros k _. rewrite Hs. lia.
Qed.

(** A connection changes by itself. *)
Lemma owned_alter t f c : owned t -> (forall k, cn_address (f k) = cn_address k) -> (forall k, cn_closed k = true -> cn_closed (f k) = true) ->
  (forall k, cn_streams (f k) = cn_streams k) -> owned (set_conns (alter f c (lt_conns t)) t).
Proof.
  intros [O1 O2 O3 O4 O5 O6 O7] Ha Hcl Hs. split; cbn; try done.
  - intros a d H. destruct (O1 a d H) as (k & Hk & E). rewrite (alter_lookup_kept _ _ _ _ _ Hk). eexists. split; [done|]. case_decide; [by rewrite Ha|done].
  - intros d k' Hk' Hop. apply alter_lookup_Some in Hk' as (k & Hk & ->). destruct (cn_closed k) eqn:Ec; [case_decide; [by rewrite Hcl in Hop|congruence]|].
    replace (cn_address _) with (cn_address k) by (case_decide; [by rewrite Ha|done]). by apply O2.
  - intros d k' Hk'. apply alter_lookup_Some in Hk' as (k & Hk & ->). rewrite <- (O4 d k Hk). case_decide; [by rewrite Hs|done].
  - intros j y d Hj Hd. destruct (O5 j y d Hj Hd) as (k & Hk & E). rewrite (alter_lookup_kept _ _ _ _ _ Hk). eexists. split; [done|]. case_decide; [by rewrite Ha|done].
  - intros j d Hj. destruct (O7 j d Hj) as (y & k & Hy & Hu & Hk & E). rewrite (alter_lookup_kept _ _ _ _ _ Hk). exists y. eexists. split; [done|]. split; [done|]. split; [done|].
    case_decide; [by rewrite Ha|done].
Qed.

Lemma owned_prune t : owned t -> owned (prune t).
Proof.
  intros [O1 O2 O3 O4 O5 O6 O7]. split; cbn; try done.
  - intros c k Hk Hop. destruct (O2 c k Hk Hop) as [?|Hr]; [by left|]. right. apply elem_of_filter. by rewrite Hk.
  - intros Hc. destruct (O3 Hc) as [-> ->]. split; [done|]. set_solver.
Qed.

Lemma owned_retire t a c : owned t -> (exists k, lt_conns t !! c = Some k /\ cn_address k = a) -> lt_closed t = false \/ (exists k, lt_conns t !! c = Some k /\ cn_closed k = true) -> owned (retire a c t).
Proof.
  intros [O1 O2 O3 O4 O5 O6 O7] (k & Hk & Ha) Hcl. unfold retire. rewrite Hk. set (current := if bool_decide _ then _ else _).
  assert (forall b d, current !! b = Some d -> lt_connections t !! b = Some d) as Hsub.
  { intros b d. unfold current. case_bool_decide; [|done]. by intros [_ ?]%lookup_delete_Some. }
  assert (forall b d, d <> c -> lt_connections t !! b = Some d -> current !! b = Some d) as Hother.
  { intros b d Hne H. unfold current. case_bool_decide as E; [|done]. rewrite lookup_delete_ne; [done|]. intros ->. congruence. }
  destruct (Z.eqb_spec (cn_streams k) 0) as [Hs|Hs].
  - split; cbn; try done.
    + intros b d H. destruct (O1 b d (Hsub _ _ H)) as (k' & Hk' & E). rewrite (alter_lookup_kept _ _ _ _ _ Hk'). eexists. split; [done|]. by case_decide.
    + intros d k' Hk' Hop. apply alter_lookup_Some in Hk' as (k0 & Hk0 & ->). case_decide as E; [done|]. destruct (O2 d k0 Hk0 Hop); [left; by apply Hother|by right].
    + intros Hc. destruct (O3 Hc) as [E ->]. split; [|done]. unfold current. rewrite E. case_bool_decide; [by rewrite delete_empty|done].
    + intros d k' Hk'. apply alter_lookup_Some in Hk' as (k0 & Hk0 & ->). rewrite <- (O4 d k0 Hk0). by case_decide.
    + intros j y d Hj Hd. destruct (O5 j y d Hj Hd) as (k0 & Hk0 & E). rewrite (alter_lookup_kept _ _ _ _ _ Hk0). eexists. split; [done|]. by case_decide.
    + intros j d Hj. destruct (O7 j d Hj) as (y & k0 & Hy & Hu & Hk0 & E). rewrite (alter_lookup_kept _ _ _ _ _ Hk0). exists y. eexists. split; [done|]. split; [done|]. split; [done|]. by case_decide.
  - split; cbn; try done.
    + intros b d H. by apply (O1 b d), Hsub.
    + intros d k' Hk' Hop. destruct (decide (d = c)) as [->|Hne]; [|destruct (O2 d k' Hk' Hop); [left; by apply Hother|right; destruct (cn_closed k); set_solver]].
      replace k' with k in * by congruence. rewrite Hop. right. set_solver.
    + intros Hc. destruct Hcl as [?|(k' & Hk' & Hc')]; [congruence|]. replace k' with k in * by congruence. rewrite Hc'. destruct (O3 Hc) as [E ->]. split; [|done].
      unfold current. rewrite E. case_bool_decide; [by rewrite delete_empty|done].
Qed.

(** A closed transport keeps no connection open. *)
Lemma owned_over t c k : owned t -> lt_closed t = true -> lt_conns t !! c = Some k -> cn_closed k = true.
Proof. intros O Hc Hk. destruct (cn_closed k) eqn:E; [done|]. destruct (ow_closed _ O Hc) as [E1 E2]. destruct (ow_open _ O c k Hk E) as [H|H]; rewrite ?E1, ?E2 in H; set_solver. Qed.

Lemma retire_frame t a c : lt_callers (retire a c t) = lt_callers t /\ lt_closed (retire a c t) = lt_closed t /\ length (lt_conns (retire a c t)) = length (lt_conns t).
Proof. unfold retire. destruct (lt_conns t !! c); [|done]. destruct (_ =? 0); cbn; rewrite ?length_alter; done. Qed.

(** A new connection, chosen by the request that dialed it. *)
Lemma owned_dialed t i a : owned t -> lt_callers t !! i = Some (Waiting a) -> lt_closed t = false ->
  (forall c k, lt_connections t !! a = Some c -> lt_conns t !! c = Some k -> cn_closed k = true \/ c ∈ lt_retired t) ->
  owned (set_caller i (Chosen a (length (lt_conns t)))
    (mkTransport (lt_conns t ++ [mkConn a 0 false false]) (<[a := length (lt_conns t)]> (lt_connections t)) (lt_retired t) (lt_closed t) (lt_callers t) (lt_sent t))).
Proof.
  intros [O1 O2 O3 O4 O5 O6 O7] Hi Hcl Hold. set (n := length (lt_conns t)).
  assert (forall c k, lt_conns t !! c = Some k -> (lt_conns t ++ [mkConn a 0 false false]) !! c = Some k) as Hl by (intros; by apply lookup_app_l_Some).
  assert (forall c k, (lt_conns t ++ [mkConn a 0 false false]) !! c = Some k -> lt_conns t !! c = Some k \/ c = n /\ k = mkConn a 0 false false) as Hr.
  { intros c k H. apply lookup_app_Some in H as [H|[H1 H2]]; [by left|]. right. apply list_lookup_singleton_Some in H2 as [H2 <-]. unfold n. split; [lia|done]. }
  assert (forall c, lt_callers t !! i = Some (Waiting a) -> tally (streams_at c) (<[i:=Chosen a n]> (lt_callers t)) = tally (streams_at c) (lt_callers t)) as Ht.
  { intros c _. rewrite (tally_insert _ _ _ _ _ Hi). cbn. lia. }
  split; cbn; try done.
  - intros b d H. apply lookup_insert_Some in H as [[<- <-]|[_ H]].
    + exists (mkConn a 0 false false). split; [|done]. unfold n. rewrite lookup_app_r by lia. by rewrite Nat.sub_diag.
    + destruct (O1 b d H) as (k & Hk & E). exists k. split; [by apply Hl|done].
  - intros c k Hk Hop. apply Hr in Hk as [Hk|[-> ->]]; [|left; by rewrite lookup_insert_eq].
    destruct (O2 c k Hk Hop) as [H|H]; [|by right]. destruct (decide (cn_address k = a)) as [E|E]; [|left; by rewrite lookup_insert_ne].
    rewrite E in H. destruct (Hold c k H Hk); [congruence|by right].
  - congruence.
  - intros c k Hk. rewrite (Ht c Hi). apply Hr in Hk as [Hk|[-> ->]]; [by apply O4|]. cbn. symmetry. apply Z.le_antisymm; [|apply tally_nonneg].
    destruct (Z.le_gt_cases (tally (streams_at n) (lt_callers t)) 0) as [|Hpos]; [done|]. exfalso.
    destruct (tally_pos (streams_at n) (lt_callers t)) as (j & y & Hj & Hy); [lia|].
    destruct (O5 j y n Hj) as (k & Hk & _); [destruct y; try done; cbn in Hy |- *; apply Nat.eqb_eq in Hy; congruence|]. apply lookup_lt_Some in Hk. unfold n in Hk. lia.
  - intros j y d Hj Hd. apply list_lookup_insert_Some in Hj as [(<- & <- & _)|[_ Hj]].
    + injection Hd as <-. exists (mkConn a 0 false false). split; [|done]. unfold n. rewrite lookup_app_r by lia. by rewrite Nat.sub_diag.
    + destruct (O5 j y d Hj Hd) as (k & Hk & E). exists k. split; [by apply Hl|done].
  - intros j d Hj. destruct (O7 j d Hj) as (y & k & Hy & Hu & Hk & E). assert (j <> i) by (intros ->; rewrite Hi in Hy; injection Hy as <-; done).
    exists y, k. rewrite list_lookup_insert_ne by done. split; [done|]. split; [done|]. split; [by apply Hl|done].
Qed.

Lemma retire_removes t a c : is_Some (lt_conns t !! c) -> lt_connections t !! a = Some c -> lt_connections (retire a c t) !! a = None.
Proof. intros [k Hk] Ha. unfold retire. rewrite Hk. rewrite bool_decide_eq_true_2 by done. destruct (_ =? 0); cbn; apply lookup_delete_eq. Qed.

Lemma owned_enter t i a dialed : owned t -> lt_callers t !! i = Some (Waiting a) -> owned (enter i a dialed t).
Proof.
  intros O Hi. unfold enter. destruct (lt_closed t) eqn:Hcl; [by apply (owned_phase t i (Waiting a))|].
  assert (forall q, owned q -> lt_callers q !! i = Some (Waiting a) -> lt_closed q = false -> lt_connections q !! a = None -> owned
    (if dialed then set_caller i (Chosen a (length (lt_conns q)))
       (mkTransport (lt_conns q ++ [mkConn a 0 false false]) (<[a := length (lt_conns q)]> (lt_connections q)) (lt_retired q) (lt_closed q) (lt_callers q) (lt_sent q))
     else set_caller i (Done a false) q)) as Hnew.
  { intros q Oq Hq Hqc Hnone. destruct dialed; [|by apply (owned_phase q i (Waiting a))]. apply owned_dialed; try done. intros c k Hc. congruence. }
  pose proof (owned_prune t O) as Op. change (lt_conns (prune t)) with (lt_conns t).
  destruct (lt_connections t !! a) as [c|] eqn:Ha; [|by apply (Hnew (prune t))]. destruct (ow_current t O a c Ha) as (k & Hk & E). rewrite Hk.
  destruct (unusable k).
  - destruct (retire_frame (prune t) a c) as (F1 & F2 & _). apply (Hnew (retire a c (prune t))).
    + apply owned_retire; [done|by exists k|by left].
    + by rewrite F1.
    + by rewrite F2.
    + apply retire_removes; [by exists k|done].
  - assert (owned (set_caller i (Chosen a c) (prune t))) as H; [|exact H]. destruct Op as [O1 O2 O3 O4 O5 O6 O7]. split; cbn; try done.
    + intros d k' Hk'. rewrite (tally_insert _ _ _ _ _ Hi). cbn [streams_at b2z]. rewrite (O4 d k' Hk'). cbn. lia.
    + intros j y d Hj Hd. apply list_lookup_insert_Some in Hj as [(<- & <- & _)|[_ Hj]]; [|by apply (O5 j y d)]. injection Hd as <-. by exists k.
    + intros j d Hj. destruct (O7 j d Hj) as (y & k' & Hy & Hu & Hk' & E'). assert (j <> i) by (intros ->; cbn in Hy; rewrite Hi in Hy; injection Hy as <-; done).
      exists y, k'. by rewrite list_lookup_insert_ne.
Qed.

Lemma owned_close t : owned t -> owned (CloseIdleConnections t) /\ forall c k, lt_conns (CloseIdleConnections t) !! c = Some k -> cn_closed k = true.
Proof.
  intros [O1 O2 O3 O4 O5 O6 O7]. set (t' := CloseIdleConnections t).
  assert (forall c k', lt_conns t' !! c = Some k' -> cn_closed k' = true /\ exists k, lt_conns t !! c = Some k /\ cn_streams k' = cn_streams k /\ cn_address k' = cn_address k) as Hc.
  { intros c k' H. unfold t', CloseIdleConnections in H. cbn in H. rewrite list_lookup_imap in H. destruct (lt_conns t !! c) as [k|] eqn:Hk; [|done]. cbn in H. injection H as <-.
    destruct (bool_decide (c ∈ lt_retired t)) eqn:E1; cbn [orb]; [split; [done|by exists k]|]. destruct (bool_decide (map_Exists _ _)) eqn:E2; [split; [done|by exists k]|]. split; [|by exists k].
    destruct (cn_closed k) eqn:Ec; [done|]. exfalso. apply bool_decide_eq_false in E1, E2. destruct (O2 c k Hk Ec) as [H|H]; [|done]. apply E2. by exists (cn_address k), c. }
  assert (forall c k, lt_conns t !! c = Some k -> exists k', lt_conns t' !! c = Some k' /\ cn_address k' = cn_address k) as Hk'.
  { intros c k Hk. unfold t', CloseIdleConnections. cbn. rewrite list_lookup_imap, Hk. cbn. eexists. split; [done|]. by destruct (_ || _). }
  split; [|by intros c k H; destruct (Hc c k H)]. split; cbn [lt_connections lt_retired lt_closed lt_callers lt_sent t' CloseIdleConnections]; try done.
  - intros c k H Hop. destruct (Hc c k H). congruence.
  - intros c k H. destruct (Hc c k H) as (_ & k0 & Hk0 & -> & _). by apply O4.
  - intros i x c Hi Hx. destruct (O5 i x c Hi Hx) as (k & Hk & E). destruct (Hk' c k Hk) as (k' & ? & ?). exists k'. split; [done|congruence].
  - intros i c Hi. destruct (O7 i c Hi) as (y & k & Hy & Hu & Hk & E). destruct (Hk' c k Hk) as (k' & ? & ?). exists y, k'. repeat split; try done. congruence.
Qed.

Lemma owned_send t i a c k : owned t -> lt_callers t !! i = Some (Chosen a c) -> lt_conns t !! c = Some k ->
  let q := set_caller i (Streaming a c) (set_conns (alter (add_stream 1) c (lt_conns t)) t) in
  owned (mkTransport (lt_conns q) (lt_connections q) (lt_retired q) (lt_closed q) (lt_callers q) ((i, c) :: lt_sent q)).
Proof.
  intros O Hi Hk q. assert (owned q) as Oq.
  { apply (owned_move t i (Chosen a c)); try done. cbn. intros k0 Hk0. rewrite Nat.eqb_refl. cbn. lia. intros d Hd. cbn. symmetry. apply Nat.eqb_neq. congruence. }
  destruct Oq as [O1 O2 O3 O4 O5 O6 O7]. split; try done; cbn [lt_sent lt_callers lt_conns].
  - constructor; [|exact O6]. intros ((j & d) & E & H)%list_elem_of_fmap. cbn in E. subst j. destruct (ow_sent_by t O i d H) as (y & k0 & Hy & Hu & _). rewrite Hi in Hy. by injection Hy as <-.
  - intros j d [E|H]%elem_of_cons; [|by apply O7]. injection E as -> ->. exists (Streaming a c), (add_stream 1 k). split; [|split; [done|split]].
    + cbn. apply list_lookup_insert_eq. by eapply lookup_lt_Some.
    + cbn. by rewrite list_lookup_alter_eq, Hk.
    + destruct (ow_callers t O i (Chosen a c) c Hi eq_refl) as (k0 & Hk0 & E). cbn. by replace k with k0 by congruence.
Qed.

Lemma owned_step e t : owned t -> owned (step e t).
Proof.
  intros O. destruct e as [a|i dialed|i accepted|i ok|i|i|c|c|]; cbn [step].
  - destruct O as [O1 O2 O3 O4 O5 O6 O7]. split; cbn; try done.
    + intros c k Hk. rewrite tally_app. cbn. rewrite (O4 c k Hk). lia.
    + intros i x c Hi Hc. apply lookup_app_Some in Hi as [Hi|[_ Hi]]; [by eapply O5|]. apply list_lookup_singleton_Some in Hi as [_ <-]. done.
    + intros i c Hi. destruct (O7 i c Hi) as (y & k & Hy & ?). exists y, k. split; [by apply lookup_app_l_Some|done].
  - destruct (lt_callers t !! i) as [[]|] eqn:Hi; try done. by apply owned_enter.
  - destruct (lt_callers t !! i) as [[]|] eqn:Hi; try done. destruct (lt_conns t !! c) as [k|] eqn:Hk; [|done].
    destruct (_ || _); [by apply (owned_phase t i (Chosen address c))|by apply (owned_send t i address c k)].
  - destruct (lt_callers t !! i) as [[]|] eqn:Hi; try done. destruct ok; [by apply (owned_phase t i (Streaming address c))|].
    apply (owned_move t i (Streaming address c)); try done; cbn; [intros k _; rewrite Nat.eqb_refl; cbn; lia|]. intros d Hd. apply Nat.eqb_neq. congruence.
  - destruct (lt_callers t !! i) as [[]|] eqn:Hi; try done.
    apply (owned_move t i (Answered address c)); try done; cbn; [intros k _; rewrite Nat.eqb_refl; cbn; lia|]. intros d Hd. apply Nat.eqb_neq. congruence.
  - destruct (lt_callers t !! i) as [[]|] eqn:Hi; try done. unfold after_failure. destruct (ow_callers t O i _ c Hi eq_refl) as (k & Hk & E). rewrite Hk. cbn in E.
    destruct (unusable k); [|by apply (owned_phase t i (Refused address c))]. destruct (retire_frame t address c) as (F1 & _).
    apply (owned_phase _ i (Refused address c)); try done; [|by rewrite F1]. apply owned_retire; [done|by exists k|].
    destruct (lt_closed t) eqn:Hcl; [right|by left]. exists k. split; [done|]. by eapply owned_over.
  - by apply owned_alter.
  - by apply owned_alter.
  - by apply owned_close.
Qed.

Lemma run_owned events : owned (run events).
Proof.
  unfold run. assert (forall t, owned t -> owned (fold_left (fun t e => step e t) events t)) as H; [|apply H, new_owned].
  induction events as [|e events IH]; intros t Ht; cbn; [done|]. by apply IH, owned_step.
Qed.

(** What may close a connection. *)
Definition ends (e : event) (c : nat) : Prop := match e with Ended c' => c' = c | CloseIdle => True | _ => False end.
Definition spared (t t' : loginTransport) (P : nat -> Prop) : Prop :=
  forall c k, lt_conns t !! c = Some k -> cn_closed k = false -> 0 < cn_streams k -> ~ P c -> exists k', lt_conns t' !! c = Some k' /\ cn_closed k' = false.

Lemma spared_same t t' P : lt_conns t' = lt_conns t -> spared t t' P.
Proof. intros E c k Hk Hc _ _. exists k. by rewrite E. Qed.
Lemma spared_alter t t' f c P : lt_conns t' = alter f c (lt_conns t) -> (forall k, P c \/ cn_closed (f k) = cn_closed k) -> spared t t' P.
Proof.
  intros E Hf d k Hk Hc _ Hn. rewrite E, (alter_lookup_kept _ _ _ _ _ Hk). eexists. split; [done|]. case_decide as Ed; [|done]. subst. destruct (Hf k) as [?|Ef]; [done|by rewrite Ef].
Qed.
Lemma spared_retire a c t P : spared t (retire a c t) P.
Proof.
  unfold retire. destruct (lt_conns t !! c) as [k|] eqn:Hk; [|by apply spared_same]. destruct (Z.eqb_spec (cn_streams k) 0); [|by apply spared_same].
  intros d k' Hk' Hc Hs _. cbn. rewrite (alter_lookup_kept _ _ _ _ _ Hk'). eexists. split; [done|]. case_decide; [|done]. subst. assert (k' = k) by congruence. subst. lia.
Qed.

Lemma spared_enter i a dialed t P : spared t (enter i a dialed t) P.
Proof.
  unfold enter. destruct (lt_closed t); [by apply spared_same|].
  assert (forall q, spared t q P -> spared t (if dialed then set_caller i (Chosen a (length (lt_conns q)))
       (mkTransport (lt_conns q ++ [mkConn a 0 false false]) (<[a := length (lt_conns q)]> (lt_connections q)) (lt_retired q) (lt_closed q) (lt_callers q) (lt_sent q))
     else set_caller i (Done a false) q) P) as Hnew.
  { intros q Hq. destruct dialed; [|done]. intros c k Hk Hc Hs Hn. destruct (Hq c k Hk Hc Hs Hn) as (k' & Hk' & ?). exists k'. split; [by apply lookup_app_l_Some|done]. }
  change (lt_conns (prune t)) with (lt_conns t). destruct (lt_connections t !! a) as [c|]; [|apply (Hnew (prune t)); by apply spared_same].
  destruct (lt_conns t !! c) as [k|]; [|apply (Hnew (prune t)); by apply spared_same]. destruct (unusable k); [|by apply spared_same].
  apply (Hnew (retire a c (prune t))). exact (spared_retire a c (prune t) P).
Qed.

Lemma step_spares e t : spared t (step e t) (ends e).
Proof.
  destruct e as [a|i dialed|i accepted|i ok|i|i|c|c|]; cbn [step].
  - by apply spared_same.
  - destruct (lt_callers t !! i) as [[]|]; try by apply spared_same. apply spared_enter.
  - destruct (lt_callers t !! i) as [[]|]; try by apply spared_same. destruct (lt_conns t !! c) as [k|]; [|by apply spared_same].
    destruct (_ || _); [by apply spared_same|]. by eapply spared_alter; [done|]; right.
  - destruct (lt_callers t !! i) as [[]|]; try by apply spared_same. destruct ok; [by apply spared_same|]. by eapply spared_alter; [done|]; right.
  - destruct (lt_callers t !! i) as [[]|]; try by apply spared_same. by eapply spared_alter; [done|]; right.
  - destruct (lt_callers t !! i) as [[]|]; try by apply spared_same. unfold after_failure. destruct (lt_conns t !! c) as [k|]; [|by apply spared_same].
    destruct (unusable k); [exact (spared_retire address c t _)|by apply spared_same].
  - by eapply spared_alter; [done|]; right.
  - eapply spared_alter; [done|]. by left.
  - intros c k _ _ _ Hn. by destruct Hn.
Qed.

Lemma step_over e t : lt_closed t = true -> lt_closed (step e t) = true /\ length (lt_conns (step e t)) = length (lt_conns t).
Proof.
  intros Hc. destruct e as [a|i dialed|i accepted|i ok|i|i|c|c|]; cbn [step]; rewrite ?length_imap; try done.
  - destruct (lt_callers t !! i) as [[]|]; try done. unfold enter. by rewrite Hc.
  - destruct (lt_callers t !! i) as [[]|]; try done. destruct (lt_conns t !! c) as [k|]; [|done]. destruct (_ || _); [done|]. cbn. by rewrite length_alter.
  - destruct (lt_callers t !! i) as [[]|]; try done. destruct ok; [done|]. cbn. by rewrite length_alter.
  - destruct (lt_callers t !! i) as [[]|]; try done. cbn. by rewrite length_alter.
  - destruct (lt_callers t !! i) as [[]|]; try done. unfold after_failure. destruct (lt_conns t !! c) as [k|]; [|done]. destruct (unusable k); [|done].
    destruct (retire_frame t address c) as (_ & F2 & F3). cbn. by rewrite F2, F3.
  - cbn. by rewrite length_alter.
  - cbn. by rewrite length_alter.
  - cbn. by rewrite length_imap.
Qed.

(** C35. However requests, failures, servers that go away and the end of the
    transport interleave, every connection that is open is the one its address
    uses or is retired, so it is known to the end of the transport, which leaves
    none open and after which none is dialed.  A request is sent at most once,
    on one connection, of the address it asks; so a password or a code is never
    replayed.  And no step closes a connection while a request or a reply's body
    is on it, but the server's, the connection's own end and the end of the
    transport. *)
Theorem connections_owned events e :
  let t := run events in
  let t' := step e t in
  (forall c k, lt_conns t !! c = Some k -> cn_closed k = false -> lt_connections t !! cn_address k = Some c \/ c ∈ lt_retired t) /\
  (lt_closed t = true -> (forall c k, lt_conns t !! c = Some k -> cn_closed k = true) /\ lt_closed t' = true /\ length (lt_conns t') = length (lt_conns t)) /\
  NoDup (lt_sent t).*1 /\
  (forall i c, (i, c) ∈ lt_sent t -> exists x k, lt_callers t !! i = Some x /\ lt_conns t !! c = Some k /\ cn_address k = asks x) /\
  (forall i x c k, lt_callers t !! i = Some x -> streams_at c x = true -> lt_conns t !! c = Some k -> cn_closed k = false -> ~ ends e c ->
     exists k', lt_conns t' !! c = Some k' /\ cn_closed k' = false).
Proof.
  intros t t'. pose proof (run_owned events) as O. fold t in O. split; [apply O|]. split.
  { intros Hc. split; [intros c k; by apply owned_over|by apply step_over]. }
  split; [apply O|]. split.
  - intros i c Hi. destruct (ow_sent_by t O i c Hi) as (x & k & Hx & _ & Hk & E). by exists x, k.
  - intros i x c k Hi Hx Hk Hc He. apply (step_spares e t c k); try done. rewrite (ow_streams t O c k Hk). pose proof (tally_lookup _ _ _ _ Hi Hx). lia.
Qed.

(** Two requests share a connection; the server goes away, the third gets a new
    one, and the first keeps its reply's body to read. *)
Definition demo_events : list event :=
  [Call "i.instagram.com:443"; Call "i.instagram.com:443"; Enter 0 true; Enter 1 true; Send 0 true; Send 1 true; Reply 0 true; GoAway 0; Reply 1 false; Leave 1;
   Call "i.instagram.com:443"; Enter 2 true; Send 2 true].
Lemma connections_owned_witness : let t := run demo_events in
  (cn_closed <$> lt_conns t) = [false; false] /\ lt_connections t !! "i.instagram.com:443"%string = Some 1%nat /\ bool_decide (0%nat ∈ lt_retired t) = true /\
  (cn_closed <$> lt_conns (step CloseIdle t)) = [true; true] /\ NoDup (lt_sent t).*1.
Proof.
  intros t. split; [vm_compute; reflexivity|]. split; [vm_compute; reflexivity|]. split; [vm_compute; reflexivity|]. split; [vm_compute; reflexivity|].
  apply (connections_owned demo_events CloseIdle).
Defined.
