(* ===== verification/DownloadRequest.v ===== *)
(** * platform: one timed request, and the transfer around a download

    Models src/internal/platform/download_request.go (the stall timers of a
    request, its body and the errors it ends with) and, of download.go, the
    choice of a backend, the headers of a request and [downloadAsset] with its
    admission, reruns and clean-up.

    Durations are nanoseconds; how long a wait takes is an input, as are the ends
    of contexts and what a backend, a body or a transfer answers.  A timer that
    ends in the very instant of its wait may have fired or not.  [httptrace] only
    names the phase a timer reports. *)
From S2P Require Import Prelude Strconv Errors Operation Download AccountMedia.
From stdpp Require Import gmap strings.
Open Scope Z_scope.
Open Scope go_scope.

(** ** Timers *)

(** A wait: how long it takes, whether its timer wins a tie, and the phase it
    would report. *)
Record wait := mkWait { wt_took : Z; wt_tie : bool; wt_phase : string }.
Definition fires (limit : Z) (w : wait) : bool := (limit <? wt_took w) || (limit =? wt_took w) && wt_tie w.
(** [stallTimer] and its stop: the cause of the context, which is the first. *)
Definition stall (limit : Z) (w : wait) (cause : option goerr) : option goerr :=
  match cause with Some e => Some e | None => if fires limit w then Some (ErrStall (wt_phase w)) else None end.

(** ** [openTimed] *)

(** What a backend does before it answers: exchanges that are guarded, and reads
    of the bodies it looks into. *)
Inductive act := Exchange (w : wait) | Inspect (w : wait).

(** A guarded body has its timer inside; the other gets it outside. *)
Inductive timed_body := CancelBody | IdleBody.
Inductive effect := CloseResponse | CancelContext.

Definition guarded (acts : list act) : bool := existsb (fun a => match a with Exchange _ => true | Inspect _ => false end) acts.

(** The cause after the acts; an exchange stops the outer timer. *)
Definition act_cause (headerLimit idleLimit : Z) (cause : option goerr) (a : act) : option goerr :=
  match a with Exchange w => stall headerLimit w cause | Inspect w => stall idleLimit (mkWait (wt_took w) (wt_tie w) "body") cause end.

(** [outer] is the wait of the first timer: up to the first exchange, or to the
    answer; [response] whether a reply came beside the backend's error. *)
Definition openTimed (headerLimit idleLimit : Z) (outer : wait) (acts : list act) (response : bool) (err parent : option goerr) : list effect * res goerr timed_body :=
  let cause := fold_left (act_cause headerLimit idleLimit) acts (stall headerLimit outer None) in
  match err, parent, cause with
  | None, None, None => ([], Ok (if guarded acts then CancelBody else IdleBody))
  | _, _, _ =>
      ((if response then [CloseResponse] else []) ++ [CancelContext],
       Err (match parent, cause, err with Some e, _, _ => e | None, Some e, _ => e | None, None, Some e => e | None, None, None => ErrCanceled end))
  end.

(** [idleBody.Close] and [cancelBody.Close]: the body first. *)
Definition close_timed (keepContext : bool) : list effect := if keepContext then [CloseResponse] else [CloseResponse; CancelContext].

(** ** [idleBody.Read] *)

(** [reads] are the results of the body, of which those up to [alive] find the
    context alive; the timer ends it, so there are finitely many. *)
Fixpoint read_loop (alive : nat) (reads : nat -> bytes * option goerr) : bytes * option goerr :=
  match alive with
  | O => ([], None)
  | S alive =>
      match reads O with
      | ([], None) => read_loop alive (fun n => reads (S n))
      | r => r
      end
  end.
(** [parent] and [cause] are the ends of the contexts once the loop is over. *)
Definition idle_read (room : Z) (alive : nat) (reads : nat -> bytes * option goerr) (parent cause : option goerr) : bytes * option goerr :=
  if room =? 0 then ([], None)
  else
    let '(n, err) := read_loop alive reads in
    (n, match parent, cause with Some e, _ => Some e | None, Some e => Some e | None, None => err end).

Definition downloadErrorCode (err : option goerr) : string :=
  match err with
  | None => ""
  | Some e => if is_canceled e then "request_canceled" else if is_deadline e then "upstream_timeout" else match as_core e with Some a => Code a | None => "upstream_network_error" end
  end.

(** ** The request *)

Definition browserAgent : string :=
  "Mozilla/5.0 (Macintosh; Intel Mac OS X 10_15_7) AppleWebKit/537.36 (KHTML, like Gecko) Chrome/120.0.0.0 Safari/537.36".

Record asset := mkAsset { as_Referer : string; as_Headers : option Header; as_IdentityID : string }.

(** The headers [open] sends; none of the names is another's other form. *)
Definition request_headers (a : asset) (byteRange ifRange : string) : Header :=
  let h : Header := <["Accept-Encoding" := ["identity"]]> (default ∅ (as_Headers a)) in
  let h := if String.eqb (Get "User-Agent" h) "" then <["User-Agent" := [browserAgent]]> h else h in
  let h := if String.eqb (as_Referer a) "" then h else <["Referer" := [as_Referer a]]> h in
  let h := if String.eqb byteRange "" then h else <["Range" := [byteRange]]> h in
  if String.eqb ifRange "" then h else <["If-Range" := [ifRange]]> h.

Definition invalid_media : goerr := ErrCore (NewError "upstream_network_error" "Media URL is invalid" 502).
(** [open]: the backend of the asset's identity, or the client. *)
Definition open_request {A} (a : asset) (byteRange ifRange : string) (appOpen client : Header -> res goerr A) (valid : bool) : res goerr A :=
  let h := request_headers a byteRange ifRange in
  if negb (String.eqb (as_IdentityID a) "") then appOpen h
  else if valid then client h else Err invalid_media.

(** ** The backend of an identity *)

Inductive backend := TikTokApp | InstagramApp.
Definition withMedia (id : string) (app instagram : bool) : res goerr backend :=
  if str_has_prefix id "instagram:" then if instagram then Ok InstagramApp else Err (ErrCore (Upstream "Instagram app backend is unavailable"))
  else if app then Ok TikTokApp else Err (ErrCore (Upstream "TikTok app backend is unavailable")).

(** [NewDownloader]'s timeouts. *)
Definition timeout_or (d configured : Z) : Z := if configured <=? 0 then d else configured.

(** What the function [withIdentity] passes does with an asset: it belongs to the
    identity that is leased, or there is none. *)
Inductive lease := Unleased | LeasedIdentity (id : string).
Definition leased_asset (l : lease) (a : asset) : res goerr bool :=
  match l with
  | Unleased => Ok false
  | LeasedIdentity id => if String.eqb (as_IdentityID a) id then Ok true else Err (ErrCore (Upstream "Media does not belong to the leased identity"))
  end.
Definition withIdentity (id : string) (app instagram : bool) : res goerr (option backend * lease) :=
  if String.eqb id "" then Ok (None, Unleased) else match withMedia id app instagram with Ok b => Ok (Some b, LeasedIdentity id) | Err e => Err e end.

(** ** [downloadAsset] *)

Inductive transfer_event := TakeGate | StartBudget | CleanUp (file : nat) | Transfer (result : res goerr nat) | GiveGate.

(** One call of [transfer]; [held] is the file of an earlier one, [budget] whether
    the time of the download runs. *)
Definition transfer (admitted : res goerr unit) (result : res goerr nat) (held : option nat) (budget : bool) : list transfer_event * option nat * bool * option goerr :=
  match admitted with
  | Err e => ([], held, budget, Some e)
  | Ok _ =>
      ([TakeGate] ++ (if budget then [] else [StartBudget]) ++ (match held with Some f => [CleanUp f] | None => [] end) ++ [Transfer result; GiveGate],
       match result with Ok f => Some f | Err _ => None end, true, match result with Ok _ => None | Err e => Some e end)
  end.

(** A backend reruns a transfer that failed while there are more; the last error
    is its result. *)
Fixpoint transfers (runs : list (res goerr unit * res goerr nat)) (held : option nat) (budget : bool) (last : option goerr) : list transfer_event * option nat * option goerr :=
  match runs with
  | [] => ([], held, last)
  | (admitted, result) :: runs =>
      let '(evs, held, budget, err) := transfer admitted result held budget in
      let '(evs', held, err) := transfers runs held budget err in (evs ++ evs', held, err)
  end.

Inductive opener := OpenGiven | OpenLease | OpenDirect.
Definition opener_of (given : bool) (a : asset) : opener := if given then OpenGiven else if negb (String.eqb (as_IdentityID a) "") then OpenLease else OpenDirect.

(** [backendErr] is what the backend returns of its own, when it runs no transfer
    or after the last one. *)
Definition downloadAsset (runs : list (res goerr unit * res goerr nat)) (backendErr : option goerr) : list transfer_event * res goerr (option nat) :=
  let '(evs, held, err) := transfers runs None false None in
  match (match backendErr with Some e => Some e | None => err end) with
  | Some e => (evs ++ match held with Some f => [CleanUp f] | None => [] end, Err e)
  | None => (evs, Ok held)
  end.

(** ** How a request ends *)

Definition timed (headerLimit idleLimit : Z) (a : act) : Z * wait :=
  match a with Exchange w => (headerLimit, w) | Inspect w => (idleLimit, mkWait (wt_took w) (wt_tie w) "body") end.
(** The phase of the first wait beyond its limit. *)
Fixpoint first_stall (l : list (Z * wait)) : option string :=
  match l with
  | [] => None
  | (limit, w) :: l => if fires limit w then Some (wt_phase w) else first_stall l
  end.
Definition waits (headerLimit idleLimit : Z) (outer : wait) (acts : list act) : list (Z * wait) := (headerLimit, outer) :: (timed headerLimit idleLimit <$> acts).

Lemma stall_none limit w : stall limit w None = ErrStall <$> (if fires limit w then Some (wt_phase w) else None).
Proof. unfold stall. by destruct (fires limit w). Qed.
Lemma cause_kept h i acts e : fold_left (act_cause h i) acts (Some e) = Some e.
Proof. induction acts as [|[w|w] acts IH]; cbn; [done|done..]. Qed.
Lemma cause_first h i acts : fold_left (act_cause h i) acts None = ErrStall <$> first_stall (timed h i <$> acts).
Proof.
  induction acts as [|a acts IH]; cbn; [done|]. assert (act_cause h i None a = stall (timed h i a).1 (timed h i a).2 None) as -> by (by destruct a).
  rewrite stall_none. destruct (timed h i a) as [limit w]. cbn. destruct (fires limit w); cbn; [apply cause_kept|apply IH].
Qed.
Lemma request_cause h i outer acts : fold_left (act_cause h i) acts (stall h outer None) = ErrStall <$> first_stall (waits h i outer acts).
Proof. rewrite stall_none. unfold waits. cbn [first_stall]. destruct (fires h outer); cbn; [apply cause_kept|apply cause_first]. Qed.

Lemma first_stall_none l : first_stall l = None <-> Forall (fun lw => fires lw.1 lw.2 = false) l.
Proof.
  induction l as [|[limit w] l IH]; cbn; [split; [by constructor|done]|]. destruct (fires limit w) eqn:E; split; intros H; try done.
  - inversion H; subst. cbn in *. congruence.
  - constructor; [done|by apply IH].
  - inversion H; subst. by apply IH.
Qed.

Lemma read_loop_spec alive : forall reads, exists k, (k <= alive)%nat /\ (forall j, (j < k)%nat -> reads j = ([], None)) /\
  (k = alive /\ read_loop alive reads = ([], None) \/ (k < alive)%nat /\ read_loop alive reads = reads k /\ reads k <> ([], None)).
Proof.
  induction alive as [|alive IH]; intros reads; cbn [read_loop]; [exists O; split; [lia|]; split; [lia|by left]|].
  destruct (reads O) as [n e] eqn:E. assert ((n, e) = ([], None) \/ (n, e) <> ([], None)) as [Heq|Hne] by (destruct n, e; [by right|by left|by right..]).
  - injection Heq as -> ->. destruct (IH (fun n => reads (S n))) as (k & Hk & Hj & H). exists (S k). split; [lia|]. split; [intros [|j] ?; [done|apply Hj; lia]|].
    destruct H as [[-> H]|(? & H & ?)]; [by left|right; split; [lia|done]].
  - exists O. split; [lia|]. split; [lia|]. right. split; [lia|]. rewrite E. split; [by destruct n, e|done].
Qed.

(** C30. A request is given up exactly when a wait of its own is too long, its
    caller has gone or the backend fails, however long it takes in all: a body is
    handed out only if no wait went beyond its limit, and it is one whose reads
    are timed, once.  Otherwise any reply is closed before the context is
    cancelled, and the error is the caller's if it has one, or else the stall of
    the first wait that was too long, or else the backend's.  A read of a body
    never gives nothing without an error, so it ends the loops of its callers:
    its bytes are those of the first result that is not empty, and its error is
    that result's unless the caller has gone or the read has stalled. *)
Theorem timed_request headerLimit idleLimit outer acts response err parent :
  (let '(effects, r) := openTimed headerLimit idleLimit outer acts response err parent in
   let stalled := first_stall (waits headerLimit idleLimit outer acts) in
   match r with
   | Ok b => effects = [] /\ err = None /\ parent = None /\ Forall (fun lw => fires lw.1 lw.2 = false) (waits headerLimit idleLimit outer acts) /\ (b = CancelBody <-> guarded acts = true)
   | Err e => effects = (if response then [CloseResponse] else []) ++ [CancelContext] /\
       match parent, stalled with Some p, _ => e = p | None, Some phase => e = ErrStall phase | None, None => err = Some e end
   end) /\
  (forall room alive reads parent cause, room <> 0 -> (exists k, (k < alive)%nat /\ reads k <> ([], None)) \/ parent <> None \/ cause <> None ->
    let '(n, e) := idle_read room alive reads parent cause in
    (n, e) <> ([], None) /\ (n <> [] -> exists k e', (k < alive)%nat /\ reads k = (n, e') /\ forall j, (j < k)%nat -> reads j = ([], None)) /\
    (forall p, parent = Some p -> e = Some p) /\ (parent = None -> forall c, cause = Some c -> e = Some c)).
Proof.
  split.
  - unfold openTimed. rewrite request_cause. destruct (first_stall _) as [phase|] eqn:Hs; cbn [fmap option_fmap option_map].
    + destruct err as [e|], parent as [p|]; done.
    + apply first_stall_none in Hs. destruct err as [e|], parent as [p|]; try done. repeat split; try done; by destruct (guarded acts).
  - intros room alive reads parent0 cause Hroom Hr. unfold idle_read. rewrite (proj2 (Z.eqb_neq _ _) Hroom).
    destruct (read_loop_spec alive reads) as (k & Hk & Hj & H). destruct (read_loop alive reads) as [n e] eqn:E. split; [|split; [|split]].
    + destruct H as [[-> H]|(Hlt & H & Hne)]; [injection H as -> ->|rewrite <- H in Hne; by destruct parent0, cause].
      destruct parent0, cause; try done. exfalso. destruct Hr as [(j & Hlt & Hne)|[?|?]]; try done. by apply Hne, Hj.
    + intros Hn. destruct H as [[_ H]|(Hlt & H & Hne)]; [injection H as -> ->; done|]. exists k, e. by rewrite <- H.
    + by intros p ->.
    + by intros -> c ->.
Qed.

(** ** What becomes of the files *)

Definition made (evs : list transfer_event) : list nat := omap (fun e => match e with Transfer (Ok f) => Some f | _ => None end) evs.
Definition cleaned (evs : list transfer_event) : list nat := omap (fun e => match e with CleanUp f => Some f | _ => None end) evs.
Definition budgets (evs : list transfer_event) : nat := length (omap (fun e => match e with StartBudget => Some () | _ => None end) evs).

(** Every call has its own admission, given back after it. *)
Definition bracketed (evs : list transfer_event) : Prop :=
  exists groups, evs = concat groups /\ Forall (fun g => exists inner, g = TakeGate :: inner ++ [GiveGate] /\ TakeGate ∉ inner /\ GiveGate ∉ inner) groups.

Lemma transfers_spec runs : forall held budget last, let '(evs, held', err) := transfers runs held budget last in
  option_list held ++ made evs = cleaned evs ++ option_list held' /\ (budgets evs <= if budget then 0 else 1)%nat /\ bracketed evs.
Proof.
  induction runs as [|[admitted result] runs IH]; intros held budget last; cbn [transfers].
  { split; [by rewrite app_nil_r|]. split; [by destruct budget; cbn; lia|]. exists []. by split. }
  destruct admitted as [[]|e]; cbn [transfer].
  - specialize (IH (match result with Ok f => Some f | Err _ => None end) true (match result with Ok _ => None | Err e => Some e end)).
    destruct (transfers runs _ true _) as [[evs held'] err]. destruct IH as (H1 & H2 & groups & -> & H3). unfold made, cleaned, budgets in *.
    rewrite !omap_app. split; [|split].
    + destruct budget, held, result; cbn in *; rewrite ?H1; done.
    + rewrite length_app. destruct budget, held; cbn in *; lia.
    + exists (([TakeGate] ++ (if budget then [] else [StartBudget]) ++ (match held with Some f => [CleanUp f] | None => [] end) ++ [Transfer result; GiveGate]) :: groups).
      split; [done|]. constructor; [|done]. exists ((if budget then [] else [StartBudget]) ++ (match held with Some f => [CleanUp f] | None => [] end) ++ [Transfer result]).
      split; [by destruct budget, held|]. destruct budget, held; cbn; set_solver.
  - specialize (IH held budget (Some e)). destruct (transfers runs held budget _) as [[evs held'] err]. exact IH.
Qed.

(** Every file a transfer made is cleaned up, in the order they were made, but the
    one that is returned, which is the last; an error keeps none. The time of
    the download starts once, and every transfer has a slot of its own. *)
Lemma download_files runs backendErr : let '(evs, r) := downloadAsset runs backendErr in
  made evs = cleaned evs ++ (match r with Ok (Some f) => [f] | _ => [] end) /\ (budgets evs <= 1)%nat.
Proof.
  unfold downloadAsset. pose proof (transfers_spec runs None false None) as H. destruct (transfers runs None false None) as [[evs held] err]. destruct H as (H1 & H2 & _). cbn in H1.
  assert (forall e : option goerr, let '(evs', r) := match e with Some e => (evs ++ match held with Some f => [CleanUp f] | None => [] end, Err e) | None => (evs, Ok held) end in
    made evs' = cleaned evs' ++ (match r with Ok (Some f) => [f] | _ => [] end) /\ (budgets evs' <= 1)%nat) as Hall; [|apply Hall].
  intros [e|]; [|by destruct held]. unfold made, cleaned, budgets in *. rewrite !omap_app, length_app. destruct held as [f|]; cbn in *; rewrite ?app_nil_r in *; split; try done; lia.
Qed.

(** The backend asked is the one of the identity, and its media alone is opened. *)
Lemma identity_backend id app instagram b l a : withIdentity id app instagram = Ok (b, l) ->
  match b with
  | None => id = ""%string /\ l = Unleased
  | Some InstagramApp => str_has_prefix id "instagram:" = true /\ instagram = true
  | Some TikTokApp => str_has_prefix id "instagram:" = false /\ app = true
  end /\ (leased_asset l a = Ok true -> as_IdentityID a = id).
Proof.
  unfold withIdentity, withMedia. destruct (String.eqb_spec id "") as [->|]; [by intros [= <- <-]|].
  destruct (str_has_prefix id _), instagram, app; try done; intros [= <- <-]; (split; [done|]); cbn; by destruct (String.eqb_spec (as_IdentityID a) id).
Qed.

(** A request that is redirected twice, each time within the limits, is answered
    although it takes longer than them in all; the next one stalls in its body. *)
Definition demo_acts : list act := [Exchange (mkWait 9 false "headers"); Inspect (mkWait 4 false "body"); Exchange (mkWait 9 false "tls")].
Lemma timed_request_witness :
  openTimed 10 5 (mkWait 8 false "dns") demo_acts true None None = ([], Ok CancelBody) /\
  openTimed 10 5 (mkWait 8 false "dns") (demo_acts ++ [Inspect (mkWait 6 false "")]) true (Some ErrCanceled) None = ([CloseResponse; CancelContext], Err (ErrStall "body")) /\
  idle_read 1 3 (fun n : nat => if Nat.eqb n 2 then ([7], None) else ([], None)) None None <> ([], None).
Proof.
  split; [reflexivity|]. split; [reflexivity|].
  destruct (timed_request 10 5 (mkWait 8 false "dns") demo_acts true None None) as [_ H].
  specialize (H 1 3%nat (fun n : nat => if Nat.eqb n 2 then ([7], None) else ([], None)) None None ltac:(lia)).
  destruct (idle_read 1 3 _ None None) as [n e]. apply H. left. exists 2%nat. split; [lia|discriminate].
Defined.
