(* ===== verification/Delivery.v ===== *)
(** * httpapi: the buffers of a delivery

    Models the part of src/internal/httpapi/telegram.go that owns memory and
    goroutines: [preparedItem.cleanup], the thumbnail task ([startThumbnail],
    [selectImage]), [prepare] with its deferred join, the workers of
    [prepareItems] and the album path of [send] with its cleanups; [Cleanup] of
    media.Prepared and of core.Downloaded.

    A buffer is a number; the store knows which are open.  [prepare] is three
    kinds of goroutine (itself, the thumbnail's, one for each announced transfer)
    whose steps interleave in any order.  A download allocates a buffer for
    every attempt and closes that of a failed one (Download); a conversion
    either borrows the bytes of its source or owns new ones (Images).  When
    those end, what they answer and when a context ends are inputs.

    The theorems account for every buffer: [updates s h s' h'] says that a piece
    of code that held the buffers [h] holds [h'] after it, and touched no
    others, whoever owned them. *)
From S2P Require Import Prelude Strconv Errors Json Operation TelegramClient Telegram.
From stdpp Require Import gmap gmultiset strings.
Open Scope Z_scope.
Open Scope go_scope.

(** ** Buffers and who owns them *)

Record store := mkStore { st_next : nat; st_open : gset nat }.
Definition alloc (s : store) : nat * store := (st_next s, mkStore (S (st_next s)) ({[st_next s]} ∪ st_open s)).
Definition close (b : nat) (s : store) : store := mkStore (st_next s) (st_open s ∖ {[b]}).

(** [media.Prepared], with whether it owns its bytes. *)
Record image := mkImage { ig_Prepared : Prepared; ig_Owned : bool }.
Definition ig_Data (i : image) : nat := pr_Data (ig_Prepared i).

(** [preparedItem]; [Media] is [None] in the zero value. *)
Record item := mkOwnedItem {
  it_Media : option image;
  it_Thumbnail : option image;
  it_Kind : string;
  it_Owned : list Downloaded;
  it_Width : Z;
  it_Height : Z;
}.
Definition no_item : item := mkOwnedItem None None "" [] 0 0.

(** [Prepared.Cleanup], [Downloaded.Cleanup] and [preparedItem.cleanup]. *)
Definition Cleanup (i : image) (s : store) : store := if ig_Owned i then close (ig_Data i) s else s.
Definition if_some {A} (f : A -> store -> store) (x : option A) (s : store) : store := match x with Some a => f a s | None => s end.
Definition drop_asset (a : Downloaded) (s : store) : store := close (dl_Data a) s.

Definition cleanup (p : item) (s : store) : item * store :=
  let s := if_some Cleanup (it_Media p) s in
  let s := if_some Cleanup (it_Thumbnail p) s in
  (no_item, foldl (fun s a => drop_asset a s) s (it_Owned p)).

(** ** One preparation *)

(** What a conversion answers: nothing, the source's own bytes under a new name,
    or new bytes. *)
Inductive conversion :=
| CFail
| CSource (name ctype : string) (size : Z)
| CFresh (name ctype : string) (size : Z).

Definition converted (source : nat) (c : conversion) (s : store) : option image * store :=
  match c with
  | CFail => (None, s)
  | CSource n t z => (Some (mkImage (mkPrepared source n t z) false), s)
  | CFresh n t z => let '(b, s) := alloc s in (Some (mkImage (mkPrepared b n t z) true), s)
  end.

(** The thumbnail's goroutine: looking the cover up, downloading it (with the
    attempt that is running), converting it, ended. *)
Inductive thumb_at := TAsset | TFetch (current : option nat) | TConvert (asset : Downloaded) | TEnded.

(** [sync.Once] of [selectImage]: who waits in it, and what it selected. *)
Inductive once := ONew | OWaiting (who : option nat) | OSelected (image : option image).

Record thumbnailTask := mkTask {
  tk_at : thumb_at;
  tk_image : option image;
  tk_asset : option Downloaded;
  tk_once : once;
  tk_ctx : option goerr;
}.

Inductive ann_at := ASelect | AStream (thumbnail : option image) | AEnded.
Record announcement := mkAnn { an_asset : Downloaded; an_at : ann_at }.

(** [prepare] itself: downloading (with the attempt that is running), converting,
    and the three waits of its deferred function. *)
Inductive prep_at :=
| MDownload (current : option nat) | MConvert (asset : Downloaded)
| MDeferred | MSelect | MJoining (selected : option image) | MReturned.

Record prep := mkPrep {
  pp_at : prep_at;
  pp_result : item;
  pp_err : option goerr;
  pp_ctx : option goerr;
  pp_task : option thumbnailTask;
  pp_anns : list announcement;
  pp_streamed : list item;
}.

Definition set_at (a : prep_at) (p : prep) : prep :=
  mkPrep a (pp_result p) (pp_err p) (pp_ctx p) (pp_task p) (pp_anns p) (pp_streamed p).
Definition set_result (r : item) (p : prep) : prep :=
  mkPrep (pp_at p) r (pp_err p) (pp_ctx p) (pp_task p) (pp_anns p) (pp_streamed p).
Definition set_task (t : thumbnailTask) (p : prep) : prep :=
  mkPrep (pp_at p) (pp_result p) (pp_err p) (pp_ctx p) (Some t) (pp_anns p) (pp_streamed p).
Definition set_ann (i : nat) (a : ann_at) (p : prep) : prep :=
  mkPrep (pp_at p) (pp_result p) (pp_err p) (pp_ctx p) (pp_task p)
    (alter (fun n => mkAnn (an_asset n) a) i (pp_anns p)) (pp_streamed p).
Definition cancel (e : goerr) (c : option goerr) : option goerr := match c with Some e' => Some e' | None => Some e end.
Definition cancel_prep (e : goerr) (p : prep) : prep :=
  mkPrep (pp_at p) (pp_result p) (pp_err p) (cancel e (pp_ctx p)) (pp_task p) (pp_anns p) (pp_streamed p).

Definition with_media (m : image) (owned : list Downloaded) (r : item) : item :=
  mkOwnedItem (Some m) (it_Thumbnail r) (it_Kind r) owned (it_Width r) (it_Height r).
Definition with_thumbnail (t : option image) (owned : list Downloaded) (r : item) : item :=
  mkOwnedItem (it_Media r) t (it_Kind r) owned (it_Width r) (it_Height r).

(** The body returns: [defer] begins, and an error cancels the preparation. *)
Definition leave (err : option goerr) (p : prep) : prep :=
  mkPrep MDeferred (pp_result p) err (match err with Some _ => cancel ErrCanceled (pp_ctx p) | None => pp_ctx p end)
    (pp_task p) (pp_anns p) (pp_streamed p).

Definition ended (t : thumbnailTask) : bool := match tk_at t with TEnded => true | _ => false end.
Definition end_task (image : option image) (asset : option Downloaded) (t : thumbnailTask) : thumbnailTask :=
  mkTask TEnded image asset (tk_once t) (cancel ErrCanceled (tk_ctx t)).
Definition task_at (a : thumb_at) (t : thumbnailTask) : thumbnailTask :=
  mkTask a (tk_image t) (tk_asset t) (tk_once t) (tk_ctx t).
Definition select_with (o : once) (t : thumbnailTask) : thumbnailTask :=
  mkTask (tk_at t) (tk_image t) (tk_asset t) o (match o with OSelected _ => cancel ErrCanceled (tk_ctx t) | _ => tk_ctx t end).

(** [selectImage], a step of one of its callers: the first one takes the image
    at once if the task has ended and otherwise waits for it, for the grace
    period or for the context ([late]); the others wait for the first.  [None]
    when the caller can not move, then the task and what the call returned. *)
Definition selectImage (who : option nat) (late : bool) (t : thumbnailTask) : option (thumbnailTask * option (option image)) :=
  match tk_once t with
  | ONew =>
      if ended t then Some (select_with (OSelected (tk_image t)) t, Some (tk_image t))
      else Some (select_with (OWaiting who) t, None)
  | OWaiting w =>
      if bool_decide (w = who) then
        if late then Some (select_with (OSelected None) t, Some None)
        else if ended t then Some (select_with (OSelected (tk_image t)) t, Some (tk_image t)) else None
      else None
  | OSelected x => Some (t, Some x)
  end.

(** The events of a preparation: of its own goroutine, of the thumbnail's, of an
    announcement's, and the end of the context. *)
Inductive prep_event :=
| Attempt | Announce (ctype : string) (size : Z) | AttemptFailed
| Fetched (r : res goerr (string * Z * Z * Z)) | Converted (c : conversion)
| Waited | Selecting (late : bool) | Joined
| TaskAsset (found : bool) | TaskAttempt | TaskAttemptFailed | TaskFetched (r : res goerr (string * Z)) | TaskConverted (c : conversion)
| TaskExpired (e : goerr)
| AnnSelecting (i : nat) (late : bool) | AnnStreamed (i : nat) (accepted : bool)
| Cancelled (e : goerr).

Definition is_ended (n : announcement) : bool := match an_at n with AEnded => true | _ => false end.

Section Prepare.
Context (filenameForType : string -> string -> string).
Context (it : deliveryItem) (document streaming : bool).

Definition startThumbnail (thumbnailWait : Z) : option thumbnailTask :=
  if wants_thumbnail thumbnailWait it document then Some (mkTask TAsset None None ONew None) else None.

Definition start_prep (thumbnailWait : Z) (ctx : option goerr) : prep :=
  mkPrep (MDownload None) (mkOwnedItem None None (di_Kind it) [] 0 0) None ctx (startThumbnail thumbnailWait) [] [].

Definition unconverted (a : Downloaded) : image := mkImage (preparedMedia filenameForType it a) false.
Definition converts (a : Downloaded) : bool := (String.eqb (di_Kind it) "image" && negb document) || jpegDocument it document a.
Definition failed_message : string :=
  if String.eqb (di_Kind it) "image" && negb document then "Unsupported or corrupt Telegram photo" else "Unsupported or corrupt Telegram document image".

(** The body of [prepare]: a successful download, then a conversion's answer. *)
Definition fetched (a : Downloaded) (p : prep) : prep :=
  let r := pp_result p in
  let p := set_result (mkOwnedItem (Some (unconverted a)) (it_Thumbnail r) (it_Kind r) (it_Owned r ++ [a]) (dl_Width a) (dl_Height a)) p in
  if converts a then set_at (MConvert a) p else leave None p.

Definition media_converted (a : Downloaded) (c : conversion) (s : store) (p : prep) : store * prep :=
  match converted (dl_Data a) c s with
  | (None, s) => (s, leave (Some (conversion_failed (pp_ctx p) failed_message)) p)
  | (Some m, s) =>
      if bool_decide (ig_Data m = dl_Data a) then (s, leave None (set_result (with_media m (it_Owned (pp_result p)) (pp_result p)) p))
      else (drop_asset a s, leave None (set_result (with_media m [] (pp_result p)) p))
  end.

(** The end of the deferred function: the selected thumbnail joins the result, or
    what the task made is released; then [defer cancel()]. *)
Definition join_thumbnail (selected : option image) (t : thumbnailTask) (s : store) (p : prep) : store * prep :=
  let r := pp_result p in
  let '(s, r) :=
    match selected with
    | None => (if_some drop_asset (tk_asset t) (if_some Cleanup (tk_image t) s), with_thumbnail None (it_Owned r) r)
    | Some i => (s, with_thumbnail (Some i) (match tk_asset t with Some a => it_Owned r ++ [a] | None => it_Owned r end) r)
    end in
  (s, cancel_prep ErrCanceled (set_at MReturned (set_result r p))).

(** The conversion of a cover, and the deferred release of its source. *)
Definition task_ctx (p : prep) (t : thumbnailTask) : option goerr := match tk_ctx t with Some e => Some e | None => pp_ctx p end.
Definition release_source (asset : Downloaded) (i : option image) (s : store) (t : thumbnailTask) : store * thumbnailTask :=
  match i with
  | Some img => if bool_decide (ig_Data img = dl_Data asset) then (s, end_task i (Some asset) t) else (drop_asset asset s, end_task i (tk_asset t) t)
  | None => (drop_asset asset s, end_task i (tk_asset t) t)
  end.
Definition task_converted (asset : Downloaded) (c : conversion) (s : store) (ctx : option goerr) (t : thumbnailTask) : store * thumbnailTask :=
  match converted (dl_Data asset) c s, ctx with
  | (None, s), _ => release_source asset (tk_image t) s t
  | (Some i, s), Some _ => release_source asset (tk_image t) (Cleanup i s) t
  | (Some i, s), None => release_source asset (Some i) s t
  end.

(** The announcement of a transfer whose thumbnail has been selected. *)
Definition announce (i : nat) (selected : option image) (p : prep) : prep :=
  match pp_ctx p with Some _ => set_ann i AEnded p | None => set_ann i (AStream selected) p end.
Definition streamed (a : Downloaded) (selected : option image) : item := mkOwnedItem (Some (unconverted a)) selected (di_Kind it) [] 0 0.
Definition deliver_stream (i : nat) (accepted : bool) (x : item) (p : prep) : prep :=
  let p := set_ann i AEnded p in
  if accepted then mkPrep (pp_at p) (pp_result p) (pp_err p) (pp_ctx p) (pp_task p) (pp_anns p) (pp_streamed p ++ [x]) else p.

(** [None] when the event can not happen. *)
Definition main_step (ev : prep_event) (s : store) (p : prep) : option (store * prep) :=
  match ev, pp_at p with
  | Attempt, MDownload None => let '(b, s) := alloc s in Some (s, set_at (MDownload (Some b)) p)
  | Announce t z, MDownload (Some b) =>
      let a := mkDownloaded b t z 0 0 in
      if streaming && negb (jpegDocument it document a) then
        Some (s, mkPrep (pp_at p) (pp_result p) (pp_err p) (pp_ctx p) (pp_task p) (pp_anns p ++ [mkAnn a ASelect]) (pp_streamed p))
      else Some (s, p)
  | AttemptFailed, MDownload (Some b) => Some (close b s, set_at (MDownload None) p)
  | Fetched (Err e), MDownload None => Some (s, leave (Some e) p)
  | Fetched (Ok (t, z, w, h)), MDownload (Some b) => Some (s, fetched (mkDownloaded b t z w h) p)
  | Converted c, MConvert a => Some (media_converted a c s p)
  | Waited, MDeferred =>
      if forallb is_ended (pp_anns p) then
        Some (s, match pp_task p with Some _ => set_at MSelect p | None => cancel_prep ErrCanceled (set_at MReturned p) end)
      else None
  | Selecting late, MSelect =>
      match pp_task p with
      | Some t =>
          match selectImage None late t with
          | Some (t, Some x) => Some (s, set_at (MJoining x) (set_task t p))
          | Some (t, None) => Some (s, set_task t p)
          | None => None
          end
      | None => None
      end
  | Joined, MJoining x => match pp_task p with Some t => if ended t then Some (join_thumbnail x t s p) else None | None => None end
  | _, _ => None
  end.

Definition task_step (ev : prep_event) (s : store) (p : prep) (t : thumbnailTask) : option (store * thumbnailTask) :=
  match ev, tk_at t with
  | TaskAsset found, TAsset => Some (s, if found then task_at (TFetch None) t else end_task (tk_image t) (tk_asset t) t)
  | TaskAttempt, TFetch None => let '(b, s) := alloc s in Some (s, task_at (TFetch (Some b)) t)
  | TaskAttemptFailed, TFetch (Some b) => Some (close b s, task_at (TFetch None) t)
  | TaskFetched (Err _), TFetch None => Some (s, end_task (tk_image t) (tk_asset t) t)
  | TaskFetched (Ok (ct, z)), TFetch (Some b) => Some (s, task_at (TConvert (mkDownloaded b ct z 0 0)) t)
  | TaskConverted c, TConvert a => Some (task_converted a c s (task_ctx p t) t)
  | TaskExpired e, _ => Some (s, mkTask (tk_at t) (tk_image t) (tk_asset t) (tk_once t) (cancel e (tk_ctx t)))
  | _, _ => None
  end.

Definition ann_step (ev : prep_event) (p : prep) : option prep :=
  match ev with
  | AnnSelecting i late =>
      match pp_anns p !! i with
      | Some (mkAnn a ASelect) =>
          match pp_task p with
          | None => Some (announce i None p)
          | Some t =>
              match selectImage (Some i) late t with
              | Some (t, Some x) => Some (announce i x (set_task t p))
              | Some (t, None) => Some (set_task t p)
              | None => None
              end
          end
      | _ => None
      end
  | AnnStreamed i accepted =>
      match pp_anns p !! i with
      | Some (mkAnn a (AStream x)) => Some (deliver_stream i accepted (streamed a x) p)
      | _ => None
      end
  | _ => None
  end.

Definition prep_step (ev : prep_event) (s : store) (p : prep) : option (store * prep) :=
  match ev with
  | Attempt | Announce _ _ | AttemptFailed | Fetched _ | Converted _ | Waited | Selecting _ | Joined => main_step ev s p
  | TaskAsset _ | TaskAttempt | TaskAttemptFailed | TaskFetched _ | TaskConverted _ | TaskExpired _ =>
      match pp_task p with
      | Some t => match task_step ev s p t with Some (s, t) => Some (s, set_task t p) | None => None end
      | None => None
      end
  | AnnSelecting _ _ | AnnStreamed _ _ => match ann_step ev p with Some p => Some (s, p) | None => None end
  | Cancelled e => Some (s, cancel_prep e p)
  end.

Definition prep_run (evs : list prep_event) (sp : store * prep) : option (store * prep) :=
  foldl (fun o ev => match o with Some (s, p) => prep_step ev s p | None => None end) (Some sp) evs.
End Prepare.

Definition returned (p : prep) : bool := match pp_at p with MReturned => true | _ => false end.

(** ** The workers of [prepareItems] *)

(** A worker before its next offset, in the preparation of one, or done. *)
Inductive worker := WNext (offset : nat) | WRun (offset : nat) (p : prep) | WEnd.

Record pool := mkPool {
  wp_store : store;
  wp_workers : list worker;
  wp_prepared : list item;
  wp_failure : option goerr;
  wp_ctx : option goerr;
}.
Inductive pool_event := WBegin (w : nat) | WStep (w : nat) (ev : prep_event) | WFinish (w : nat) | PoolCancelled (e : goerr).

Definition set_worker (w : nat) (x : worker) (o : pool) : pool :=
  mkPool (wp_store o) (<[w := x]> (wp_workers o)) (wp_prepared o) (wp_failure o) (wp_ctx o).
Definition set_store (s : store) (o : pool) : pool := mkPool s (wp_workers o) (wp_prepared o) (wp_failure o) (wp_ctx o).

Section PrepareItems.
Context (filenameForType : string -> string -> string) (thumbnailWait concurrency : Z).
Context (items : list deliveryItem) (document : bool) (indices : list nat).

Definition workers : nat := Nat.min (length indices) (Z.to_nat (Z.max 1 concurrency)).

(** [prepared[i] = value], and the first error with its cancellation. *)
Definition finish_item (w offset i : nat) (p : prep) (o : pool) : pool :=
  let prepared := <[i := pp_result p]> (wp_prepared o) in
  match pp_err p with
  | None => mkPool (wp_store o) (<[w := WNext (offset + workers)]> (wp_workers o)) prepared (wp_failure o) (wp_ctx o)
  | Some e => mkPool (wp_store o) (<[w := WEnd]> (wp_workers o)) prepared
                (match wp_failure o with Some f => Some f | None => Some e end)
                (match wp_failure o with Some _ => wp_ctx o | None => cancel ErrCanceled (wp_ctx o) end)
  end.

Definition pool_step (ev : pool_event) (o : pool) : option pool :=
  match ev with
  | WBegin w =>
      match wp_workers o !! w with
      | Some (WNext offset) =>
          match indices !! offset, wp_ctx o with
          | None, _ | _, Some _ => Some (set_worker w WEnd o)
          | Some i, None =>
              match items !! i with
              | Some it => Some (set_worker w (WRun offset (start_prep it document thumbnailWait None)) o)
              | None => None
              end
          end
      | _ => None
      end
  | WStep w ev =>
      match wp_workers o !! w with
      | Some (WRun offset p) =>
          match indices !! offset ≫= (items !!.) with
          | Some it =>
              match prep_step filenameForType it document false ev (wp_store o) p with
              | Some (s, p) => Some (set_store s (set_worker w (WRun offset p) o))
              | None => None
              end
          | None => None
          end
      | _ => None
      end
  | WFinish w =>
      match wp_workers o !! w with
      | Some (WRun offset p) =>
          if returned p then match indices !! offset with Some i => Some (finish_item w offset i p o) | None => None end else None
      | _ => None
      end
  | PoolCancelled e => Some (mkPool (wp_store o) (wp_workers o) (wp_prepared o) (wp_failure o) (cancel e (wp_ctx o)))
  end.

Definition pool_run (evs : list pool_event) (o : pool) : option pool :=
  foldl (fun o ev => match o with Some o => pool_step ev o | None => None end) (Some o) evs.

Definition start_pool (s : store) (prepared : list item) (ctx : option goerr) : pool :=
  mkPool s (WNext <$> seq 0 workers) prepared None ctx.
Definition pool_over (o : pool) : bool := forallb (fun w => match w with WEnd => true | _ => false end) (wp_workers o).
Definition pool_error (o : pool) : option goerr := match wp_failure o with Some e => Some e | None => wp_ctx o end.

(** One run of the lease's callback: what an earlier one prepared is cleaned up
    first. *)
Definition clean_at (sp : store * list item) (i : nat) : store * list item :=
  match sp.2 !! i with
  | Some p => let '(p, s) := cleanup p sp.1 in (s, <[i := p]> sp.2)
  | None => sp
  end.
Definition callback (ctx : option goerr) (evs : list pool_event) (sp : store * list item) : option (store * list item * option goerr) :=
  let '(s, prepared) := foldl clean_at sp indices in
  match pool_run evs (start_pool s prepared ctx) with
  | Some o => if pool_over o then Some (wp_store o, wp_prepared o, pool_error o) else None
  | None => None
  end.

(** The lease runs the callback, again after each recovery, and returns nil only
    if it did and its last run did; it may refuse or fail for reasons of its own.
    [last] is what the last run returned, [ErrCanceled] before the first. *)
Fixpoint lease (runs : list (option goerr * list pool_event)) (verdict : option goerr) (last : option goerr)
    (sp : store * list item) : option (store * list item * option goerr) :=
  match runs with
  | [] => match verdict, last with None, Some _ => None | _, _ => Some (sp, verdict) end
  | (ctx, evs) :: runs =>
      match callback ctx evs sp with
      | Some (s, prepared, err) => lease runs verdict err (s, prepared)
      | None => None
      end
  end.
End PrepareItems.

(** ** Ownership *)

Definition owns (F h : gmultiset nat) (s : store) : Prop :=
  (forall b, multiplicity b (F ⊎ h) = if bool_decide (b ∈ st_open s) then 1%nat else 0%nat) /\
  (forall b, b ∈ st_open s -> (b < st_next s)%nat).
Definition updates (s : store) (h : gmultiset nat) (s' : store) (h' : gmultiset nat) : Prop :=
  forall F, owns F h s -> owns F h' s'.

Definition buffers (l : list nat) : gmultiset nat := list_to_set_disj l.
Definition image_buffers (i : option image) : gmultiset nat :=
  match i with Some i => if ig_Owned i then {[+ ig_Data i +]} else ∅ | None => ∅ end.
Definition item_buffers (p : item) : gmultiset nat :=
  image_buffers (it_Media p) ⊎ image_buffers (it_Thumbnail p) ⊎ buffers (dl_Data <$> it_Owned p).

Lemma updates_refl s h : updates s h s h.
Proof. by intros F. Qed.

Lemma updates_trans s1 h1 s2 h2 s3 h3 : updates s1 h1 s2 h2 -> updates s2 h2 s3 h3 -> updates s1 h1 s3 h3.
Proof. intros H1 H2 F HF. auto. Qed.

(** What a piece of code does with its buffers it does beside others. *)
Lemma updates_frame R s h s' h' : updates s h s' h' -> updates s (R ⊎ h) s' (R ⊎ h').
Proof. intros H F HF. unfold owns in *. rewrite (assoc_L (⊎)) in *. by apply H. Qed.

Lemma updates_alloc s h : updates s h (alloc s).2 (h ⊎ {[+ st_next s +]}).
Proof.
  intros F [H1 H2]. split; simpl.
  - intros b. specialize (H1 b). rewrite !multiplicity_disj_union in *. destruct (decide (b = st_next s)) as [->|Hb].
    + rewrite multiplicity_singleton_eq. rewrite (bool_decide_eq_false_2 (st_next s ∈ st_open s)) in H1 by (intros Hin; apply H2 in Hin; lia).
      rewrite (bool_decide_eq_true_2 (st_next s ∈ _)) by set_solver. lia.
    + rewrite multiplicity_singleton_ne by done. rewrite Nat.add_0_r, H1.
      apply (f_equal (fun c : bool => if c then 1%nat else 0%nat)). apply bool_decide_ext. set_solver.
  - intros b Hb. apply elem_of_union in Hb as [->%elem_of_singleton|Hb]; [lia|]. specialize (H2 b Hb). lia.
Qed.

Lemma updates_close s h b : updates s (h ⊎ {[+ b +]}) (close b s) h.
Proof.
  intros F [H1 H2]. split; simpl.
  - intros c. pose proof (H1 c) as Hc. pose proof (H1 b) as Hb. rewrite !multiplicity_disj_union in *.
    rewrite multiplicity_singleton_eq in Hb. destruct (decide (c = b)) as [->|Hn].
    + rewrite (bool_decide_eq_false_2 (b ∈ st_open s ∖ _)) by set_solver. case_bool_decide; lia.
    + rewrite multiplicity_singleton_ne in Hc by done.
      replace (bool_decide (c ∈ st_open s ∖ {[b]})) with (bool_decide (c ∈ st_open s)); [lia|].
      apply bool_decide_ext. set_solver.
  - intros c Hc. apply H2. set_solver.
Qed.

Lemma updates_eq s h s' h' k k' : updates s h s' h' -> k = h -> k' = h' -> updates s k s' k'.
Proof. by intros ? -> ->. Qed.

Lemma owned_open F h s b : owns F h s -> b ∈ h -> b ∈ st_open s.
Proof.
  intros [H _] Hb. specialize (H b). rewrite multiplicity_disj_union in H. unfold elem_of, gmultiset_elem_of in Hb.
  case_bool_decide; [done|lia].
Qed.

(** A store all of whose open buffers have been allocated; they belong to others. *)
Definition st_ok (s : store) : Prop := forall b, b ∈ st_open s -> (b < st_next s)%nat.

Lemma multiplicity_buffers l b : NoDup l -> multiplicity b (buffers l) = if bool_decide (b ∈ l) then 1%nat else 0%nat.
Proof.
  induction 1 as [|x l Hx Hnd IH]; [done|]. unfold buffers in *. simpl. rewrite multiplicity_disj_union, IH, multiplicity_singleton.
  destruct (decide (b = x)) as [->|Hn].
  - rewrite (bool_decide_eq_false_2 (x ∈ l)), (bool_decide_eq_true_2 (x ∈ x :: l)) by (done || by left). done.
  - apply (f_equal (fun c : bool => if c then 1%nat else 0%nat)). apply bool_decide_ext. rewrite elem_of_cons. naive_solver.
Qed.

Lemma owns_all s : st_ok s -> owns (buffers (elements (st_open s))) ∅ s.
Proof.
  intros Hs. split; [|exact Hs]. intros b. rewrite (right_id_L ∅ (⊎)), multiplicity_buffers by apply NoDup_elements.
  apply (f_equal (fun c : bool => if c then 1%nat else 0%nat)). apply bool_decide_ext. apply elem_of_elements.
Qed.

Ltac ms := unfold item_buffers, buffers in *; simpl in *; rewrite ?fmap_app, ?list_to_set_disj_app in *; simpl in *; multiset_solver.
(** One step of the store, up to rearranging what is held. *)
Ltac by_alloc := eapply updates_eq; [apply updates_alloc| |]; ms.
Ltac by_close := eapply updates_eq; [apply updates_close| |]; ms.
Ltac by_refl := eapply updates_eq; [apply updates_refl|reflexivity|]; ms.

Lemma Cleanup_updates i s h : updates s (h ⊎ image_buffers (Some i)) (Cleanup i s) h.
Proof. unfold Cleanup. simpl. destruct (ig_Owned i); [apply updates_close|by_refl]. Qed.

Lemma if_some_Cleanup_updates i s h : updates s (h ⊎ image_buffers i) (if_some Cleanup i s) h.
Proof. destruct i; [apply Cleanup_updates|by_refl]. Qed.

Lemma drop_assets_updates l s h :
  updates s (h ⊎ buffers (dl_Data <$> l)) (foldl (fun s a => drop_asset a s) s l) h.
Proof.
  revert s. induction l as [|a l IH]; intros s; simpl; [by_refl|].
  eapply updates_trans; [|apply IH]. by_close.
Qed.

Lemma cleanup_updates p s : updates s (item_buffers p) (cleanup p s).2 ∅.
Proof.
  unfold cleanup. simpl. set (h2 := buffers (dl_Data <$> it_Owned p)). set (h1 := h2 ⊎ image_buffers (it_Thumbnail p)).
  eapply updates_trans; [|eapply updates_trans].
  - eapply updates_eq; [apply (if_some_Cleanup_updates (it_Media p) s h1)| |reflexivity]. unfold h1, h2. ms.
  - apply (if_some_Cleanup_updates _ _ h2).
  - eapply updates_eq; [apply (drop_assets_updates _ _ ∅)| |reflexivity]. unfold h2. ms.
Qed.

(** ** What each goroutine of a preparation holds *)

Definition current_buffers (c : option nat) : gmultiset nat := match c with Some b => {[+ b +]} | None => ∅ end.
Definition main_held (p : prep) : gmultiset nat :=
  item_buffers (pp_result p) ⊎ match pp_at p with MDownload c => current_buffers c | _ => ∅ end.
Definition task_held (t : thumbnailTask) : gmultiset nat :=
  match tk_at t with
  | TAsset => ∅
  | TFetch c => current_buffers c
  | TConvert a => {[+ dl_Data a +]}
  | TEnded => image_buffers (tk_image t) ⊎ current_buffers (dl_Data <$> tk_asset t)
  end.
Definition held (p : prep) : gmultiset nat :=
  main_held p ⊎ if returned p then ∅ else from_option task_held ∅ (pp_task p).

(** All that an upload of an item reads is held with it. *)
Definition item_ready (r : item) : Prop :=
  (exists m, it_Media r = Some m /\ ig_Data m ∈ item_buffers r) /\
  forall t, it_Thumbnail r = Some t -> ig_Data t ∈ item_buffers r.

Lemma item_ready_media r m : it_Media r = Some m -> it_Thumbnail r = None -> ig_Data m ∈ item_buffers r -> item_ready r.
Proof. intros Hm Ht Hd. split; [by exists m|]. intros t H. congruence. Qed.

Record task_ok (t : thumbnailTask) : Prop := {
  ok_running : ended t = false -> tk_image t = None /\ tk_asset t = None;
  ok_asset : forall a, tk_asset t = Some a -> exists i, tk_image t = Some i /\ ig_Data i = dl_Data a /\ ig_Owned i = false;
  ok_image : forall i, tk_image t = Some i -> ig_Owned i = true \/ exists a, tk_asset t = Some a /\ ig_Data i = dl_Data a /\ ig_Owned i = false;
  ok_selected : forall i, tk_once t = OSelected (Some i) -> ended t = true /\ tk_image t = Some i;
}.

(** The thumbnail a caller of [selectImage] was given. *)
Definition chosen (p : prep) (x : option image) : Prop :=
  match pp_task p with None => x = None | Some t => tk_once t = OSelected x end.

Record prep_ok (p : prep) : Prop := {
  ok_task : forall t, pp_task p = Some t -> task_ok t;
  ok_thumbnail : returned p = false -> it_Thumbnail (pp_result p) = None;
  ok_main : match pp_at p with
            | MDownload _ => it_Media (pp_result p) = None /\ it_Owned (pp_result p) = []
            | MConvert a => it_Owned (pp_result p) = [a] /\ exists m, it_Media (pp_result p) = Some m /\ ig_Owned m = false
            | _ => pp_err p = None -> item_ready (pp_result p)
            end;
  ok_joined : match pp_at p with MSelect | MJoining _ | MReturned => forallb is_ended (pp_anns p) = true | _ => True end;
  ok_join : match pp_at p with
            | MSelect => is_Some (pp_task p)
            | MJoining x => is_Some (pp_task p) /\ chosen p x
            | MReturned => chosen p (it_Thumbnail (pp_result p)) /\ forall t, pp_task p = Some t -> ended t = true
            | _ => True
            end;
  ok_anns : forall i n x, pp_anns p !! i = Some n -> an_at n = AStream x -> chosen p x;
  ok_streamed : forall x, x ∈ pp_streamed p -> chosen p (it_Thumbnail x);
}.

Lemma select_with_ok o t : task_ok t -> (forall i, o = OSelected (Some i) -> ended t = true /\ tk_image t = Some i) ->
  task_ok (select_with o t).
Proof. intros [R A I S] H. by constructor. Qed.

Lemma selectImage_ok who late t t' r : task_ok t -> selectImage who late t = Some (t', r) ->
  task_ok t' /\ task_held t' = task_held t /\ ended t' = ended t /\
  (forall x, tk_once t = OSelected x -> tk_once t' = OSelected x) /\ (forall x, r = Some x -> tk_once t' = OSelected x).
Proof.
  intros Hok E. unfold selectImage in E.
  assert (forall o, (forall i, o = OSelected (Some i) -> ended t = true /\ tk_image t = Some i) -> (forall x, tk_once t <> OSelected x) ->
    (forall x, r = Some x -> o = OSelected x) -> t' = select_with o t ->
    task_ok t' /\ task_held t' = task_held t /\ ended t' = ended t /\
    (forall x, tk_once t = OSelected x -> tk_once t' = OSelected x) /\ (forall x, r = Some x -> tk_once t' = OSelected x)) as Hw.
  { intros o H1 H2 H3 ->. split; [by apply select_with_ok|]. repeat split; try done. intros x Hx. by apply H2 in Hx. }
  destruct (tk_once t) as [|w|x] eqn:Eo.
  - destruct (ended t) eqn:Ee; injection E as <- <-; (eapply Hw; [..|reflexivity]; [naive_solver..]).
  - case_bool_decide; [|done]. destruct late; [|destruct (ended t) eqn:Ee; [|done]]; injection E as <- <-;
      (eapply Hw; [..|reflexivity]; [naive_solver..]).
  - injection E as <- <-. split_and!; try done; by intros y [= <-].
Qed.

(** A task that ends with an image: what it holds then. *)
Lemma end_task_ok i a t : (forall x, tk_once t <> OSelected (Some x)) ->
  match i, a with
  | None, None => True
  | Some x, Some a => ig_Data x = dl_Data a /\ ig_Owned x = false
  | Some x, None => ig_Owned x = true
  | None, Some _ => False
  end -> task_ok (end_task i a t).
Proof.
  intros Ho Hia. constructor; simpl; [done|..].
  - intros a' ->. destruct i as [x|]; [|done]. by exists x.
  - intros x ->. destruct a as [a|]; [right; by exists a|by left].
  - intros x Hx. by apply Ho in Hx.
Qed.

Lemma release_source_ok a i s t h : tk_asset t = None -> (forall x, tk_once t <> OSelected (Some x)) ->
  (forall x, i = Some x -> if ig_Owned x then ig_Data x <> dl_Data a else ig_Data x = dl_Data a) ->
  let '(s', t') := release_source a i s t in
  task_ok t' /\ updates s (h ⊎ {[+ dl_Data a +]} ⊎ image_buffers i) s' (h ⊎ task_held t') /\
  tk_once t' = tk_once t /\ ended t' = true.
Proof.
  intros Ha Ho Hx. unfold release_source. destruct i as [x|].
  - specialize (Hx x eq_refl). case_bool_decide as Hd; destruct (ig_Owned x) eqn:Eo; try done;
      (split; [apply end_task_ok; [done|rewrite ?Ha; done]|split; [|done]]); unfold task_held; simpl; rewrite Eo, ?Ha.
    + by_refl.
    + by_close.
  - split; [apply end_task_ok; [done|by rewrite Ha]|]. split; [|done]. unfold task_held. simpl. rewrite Ha. by_close.
Qed.

(** New bytes are not in a buffer that is already held. *)
Lemma owned_old F h s b : owns F h s -> b ∈ h -> b <> st_next s.
Proof. intros H Hb ->. pose proof (owned_open _ _ _ _ H Hb) as Ho. apply H in Ho. lia. Qed.

Lemma task_running t : task_ok t -> ended t = false ->
  tk_image t = None /\ tk_asset t = None /\ forall x, tk_once t <> OSelected (Some x).
Proof.
  intros [R A I S] He. destruct (R He) as [-> ->]. split_and!; [done..|]. intros x Hx. destruct (S x Hx). congruence.
Qed.

Lemma task_converted_ok a c s ctx t h : task_ok t -> tk_at t = TConvert a -> dl_Data a <> st_next s ->
  let '(s', t') := task_converted a c s ctx t in
  task_ok t' /\ updates s (h ⊎ task_held t) s' (h ⊎ task_held t') /\ tk_once t' = tk_once t /\ ended t' = true.
Proof.
  intros Hok Hat Hne. destruct (task_running t Hok) as (Hi & Ha & Ho); [unfold ended; by rewrite Hat|].
  replace (task_held t) with ({[+ dl_Data a +]} : gmultiset nat) by (unfold task_held; by rewrite Hat).
  pose proof (fun i s => release_source_ok a i s t h Ha Ho) as Hrel.
  unfold task_converted. rewrite Hi. destruct c as [|n ct z|n ct z]; cbn [converted alloc].
  - specialize (Hrel None s). destruct (release_source a None s t) as [s' t']. destruct Hrel as (? & Hu & ?); [done|].
    split; [done|]. split; [|done]. eapply updates_eq; [apply Hu|ms|reflexivity].
  - set (x := mkImage _ false). destruct ctx as [e|].
    + specialize (Hrel None s). cbn [Cleanup ig_Owned x]. destruct (release_source a None s t) as [s' t']. destruct Hrel as (? & Hu & ?); [done|].
      split; [done|]. split; [|done]. eapply updates_eq; [apply Hu|ms|reflexivity].
    + specialize (Hrel (Some x) s). destruct (release_source a (Some x) s t) as [s' t'].
      destruct Hrel as (? & Hu & ?); [by intros y [= <-]|]. split; [done|]. split; [|done]. eapply updates_eq; [apply Hu|ms|reflexivity].
  - set (x := mkImage _ true). set (s1 := (alloc s).2). change (mkStore _ _) with s1. destruct ctx as [e|].
    + specialize (Hrel None (Cleanup x s1)). destruct (release_source a None (Cleanup x s1) t) as [s' t']. destruct Hrel as (? & Hu & ?); [done|].
      split; [done|]. split; [|done]. eapply updates_trans; [apply updates_alloc|].
      eapply updates_trans; [apply (Cleanup_updates x)|]. eapply updates_eq; [apply Hu|ms|reflexivity].
    + specialize (Hrel (Some x) s1). destruct (release_source a (Some x) s1 t) as [s' t'].
      destruct Hrel as (? & Hu & ?); [intros y [= <-]; exact (not_eq_sym Hne)|]. split; [done|]. split; [|done].
      eapply updates_trans; [apply updates_alloc|]. eapply updates_eq; [apply Hu|ms|reflexivity].
Qed.

Lemma task_step_ok ev s p t s' t' h : task_ok t -> (forall b, b ∈ task_held t -> b <> st_next s) ->
  task_step ev s p t = Some (s', t') ->
  task_ok t' /\ updates s (h ⊎ task_held t) s' (h ⊎ task_held t') /\ tk_once t' = tk_once t /\ (ended t = true -> ended t' = true).
Proof.
  intros Hok Hne E. pose proof (task_running t Hok) as Hrun.
  assert (forall a, ended t = false -> (match a with TEnded => False | _ => True end) -> task_ok (task_at a t)) as Hat.
  { intros a He Ha. destruct (Hrun He) as (Hi & Hs & Ho). constructor; simpl; rewrite ?Hi, ?Hs; try done.
    intros i Hx. by apply Ho in Hx. }
  assert (ended t = false -> task_ok (end_task (tk_image t) (tk_asset t) t)) as Hend.
  { intros He. destruct (Hrun He) as (-> & -> & Ho). by apply end_task_ok. }
  assert (forall e, task_ok (mkTask (tk_at t) (tk_image t) (tk_asset t) (tk_once t) (cancel e (tk_ctx t)))) as Hexp.
  { intros e. destruct Hok as [R A I S]. by constructor. }
  unfold task_step in E. unfold ended, task_held in *.
  destruct ev; try done.
  6: { injection E as <- <-. split_and!; [apply Hexp|apply updates_refl|done|done]. }
  all: destruct (tk_at t) as [|[b|]|a|] eqn:Ea; try (repeat case_match; discriminate E).
  - destruct found; injection E as <- <-; (split_and!; [by auto|simpl|done|done]); [by_refl|].
    destruct Hrun as (-> & -> & _); [done|]. by_refl.
  - injection E as <- <-. split_and!; [by auto|by_alloc|done|done].
  - injection E as <- <-. split_and!; [by auto|by_close|done|done].
  - destruct r as [[ct z]|e]; [|done]. injection E as <- <-. split_and!; [by auto|by_refl|done|done].
  - destruct r as [[ct z]|e]; [done|]. injection E as <- <-. split_and!; [by auto|simpl|done|done].
    destruct Hrun as (-> & -> & _); [done|]. by_refl.
  - injection E as E. pose proof (task_converted_ok a c s (task_ctx p t) t h Hok Ea) as H. rewrite E in H.
    destruct H as (H1 & H2 & H3 & H4); [apply Hne; ms|]. unfold task_held in H2. rewrite Ea in H2. by split_and!.
Qed.

Lemma task_step_ended ev s p t s' t' : ended t = true -> task_step ev s p t = Some (s', t') -> s' = s.
Proof. unfold task_step, ended. destruct ev, (tk_at t) as [|[]| |]; intros He E; repeat case_match; simplify_eq; done. Qed.

(** ** Steps of a preparation *)

Lemma prep_ok_task p t t' : prep_ok p -> pp_task p = Some t -> task_ok t' ->
  (forall x, tk_once t = OSelected x -> tk_once t' = OSelected x) -> (ended t = true -> ended t' = true) ->
  prep_ok (set_task t' p).
Proof.
  intros [A B C D E G H] Ht Hok Ho He. constructor; simpl; try done.
  - by intros ? [= <-].
  - unfold chosen in *. simpl. rewrite Ht in E. destruct (pp_at p); try done; [naive_solver..|].
    destruct E as [E1 E2]. split; [by apply Ho|]. intros ? [= <-]. apply He. by apply E2.
  - unfold chosen in *. simpl. rewrite Ht in G. naive_solver.
  - unfold chosen in *. simpl. rewrite Ht in H. naive_solver.
Qed.

Lemma held_set_task p t t' : pp_task p = Some t -> task_held t' = task_held t -> held (set_task t' p) = held p.
Proof. intros Ht Hh. unfold held. simpl. rewrite Ht. simpl. rewrite Hh. done. Qed.

Lemma prep_ok_ctx e p : prep_ok p -> prep_ok (cancel_prep e p).
Proof. intros [A B C D E G H]. by constructor. Qed.

Section Steps.
Context (filenameForType : string -> string -> string) (it : deliveryItem) (document streaming : bool).
Abbreviation step := (prep_step filenameForType it document streaming).

Lemma select_prep p t who late t' r : prep_ok p -> pp_task p = Some t -> selectImage who late t = Some (t', r) ->
  prep_ok (set_task t' p) /\ held (set_task t' p) = held p /\ (forall x, r = Some x -> chosen (set_task t' p) x).
Proof.
  intros Hok Ht E. destruct (selectImage_ok who late t t' r (ok_task p Hok t Ht) E) as (H1 & H2 & H3 & H4 & H5).
  split_and!; [eapply prep_ok_task; [done..|congruence]|by apply (held_set_task p t)|done].
Qed.

Lemma set_ann_ok i a p : prep_ok p -> (forall x, a = AStream x -> chosen p x) ->
  (exists n, pp_anns p !! i = Some n /\ is_ended n = false) -> prep_ok (set_ann i a p).
Proof.
  intros [A B C D E G H] Ha (n & Hn & He). constructor; simpl; try done.
  - destruct (pp_at p); try done; exfalso; rewrite forallb_Forall in D;
      apply (Forall_lookup_1 _ _ _ _ D) in Hn; congruence.
  - intros j m x Hj Hm. destruct (decide (i = j)) as [->|Hij].
    + rewrite list_lookup_alter_eq, Hn in Hj. injection Hj as <-. simpl in Hm. by apply Ha.
    + rewrite list_lookup_alter_ne in Hj by done. by eapply G.
Qed.

Lemma ann_step_ok ev p p' : prep_ok p -> ann_step filenameForType it ev p = Some p' -> prep_ok p' /\ held p' = held p.
Proof.
  intros Hok E. destruct ev; try done; simpl in E; destruct (pp_anns p !! i) as [[a [|x|]]|] eqn:Ei; try done.
  - assert (forall q x, prep_ok q -> chosen q x -> pp_anns q = pp_anns p -> prep_ok (announce i x q) /\ held (announce i x q) = held q) as Hann.
    { intros q x Hq Hc Hi. unfold announce. destruct (pp_ctx q); (split; [|done]); (apply set_ann_ok; [done| |rewrite Hi, Ei; by eexists]).
      - by intros ?.
      - by intros ? [= <-]. }
    destruct (pp_task p) as [t|] eqn:Et.
    + destruct (selectImage (Some i) late t) as [[t' r]|] eqn:Es; [|done].
      destruct (select_prep p t _ _ _ _ Hok Et Es) as (H1 & H2 & H3). destruct r as [x|]; injection E as <-.
      * destruct (Hann _ x H1 (H3 x eq_refl) eq_refl) as [H4 H5]. split; [done|]. by rewrite H5.
      * done.
    + injection E as <-. apply Hann; [done| |done]. unfold chosen. by rewrite Et.
  - injection E as <-. pose proof (ok_anns p Hok i _ x Ei eq_refl) as Hx.
    assert (prep_ok (set_ann i AEnded p)) as Hs by (apply set_ann_ok; [done..|rewrite Ei; by eexists]).
    unfold deliver_stream. destruct accepted; [|done]. split; [|done]. destruct Hs as [A B C D E G H]. constructor; try done.
    simpl. intros y [Hy|Hy%list_elem_of_singleton]%elem_of_app; [by apply H|]. by subst y.
Qed.

Lemma task_prep_ok ev s p t s' t' F : prep_ok p -> owns F (held p) s -> pp_task p = Some t -> task_step ev s p t = Some (s', t') ->
  prep_ok (set_task t' p) /\ owns F (held (set_task t' p)) s'.
Proof.
  intros Hok Hown Ht E. pose proof (ok_task p Hok t Ht) as Htok.
  assert (forall b, returned p = false -> b ∈ task_held t -> b <> st_next s) as Hne.
  { intros b Hr Hb. eapply owned_old; [done|]. unfold held. rewrite Hr, Ht. simpl. ms. }
  assert (returned p = true -> ended t = true) as Hr.
  { pose proof (ok_join p Hok) as J. unfold returned. destruct (pp_at p); try done. intros _. by apply J. }
  destruct (returned p) eqn:Er.
  - pose proof (task_step_ended _ _ _ _ _ _ (Hr eq_refl) E) as ->.
    assert (exists e, ev = TaskExpired e) as [e ->].
    { specialize (Hr eq_refl). unfold task_step, ended in *. destruct ev, (tk_at t) as [|[]| |]; repeat case_match; simplify_eq; by eexists. }
    injection E as <-. split; [eapply prep_ok_task; try done; destruct Htok; by constructor|].
    unfold held in *. simpl. change (returned (set_task _ p)) with (returned p). by rewrite Er in *.
  - destruct (task_step_ok ev s p t s' t' (main_held p) Htok (fun b => Hne b eq_refl) E) as (H1 & H2 & H3 & H4).
    split; [eapply prep_ok_task; try done; by rewrite H3|].
    unfold held in *. change (returned (set_task t' p)) with (returned p). rewrite Er, Ht in *. simpl in *. by apply H2.
Qed.

Lemma prep_ok_main p a r err ctx : prep_ok p ->
  (a <> MReturned -> it_Thumbnail r = None) ->
  match a with
  | MDownload _ => it_Media r = None /\ it_Owned r = []
  | MConvert x => it_Owned r = [x] /\ exists m, it_Media r = Some m /\ ig_Owned m = false
  | _ => err = None -> item_ready r
  end ->
  match a with MSelect | MJoining _ | MReturned => forallb is_ended (pp_anns p) = true | _ => True end ->
  match a with
  | MSelect => is_Some (pp_task p)
  | MJoining x => is_Some (pp_task p) /\ chosen p x
  | MReturned => chosen p (it_Thumbnail r) /\ forall t, pp_task p = Some t -> ended t = true
  | _ => True
  end -> prep_ok (mkPrep a r err ctx (pp_task p) (pp_anns p) (pp_streamed p)).
Proof. intros [A B C D E G H] H1 H2 H3 H4. constructor; simpl; try done. intros Hr. apply H1. unfold returned in Hr. by destruct a. Qed.

Lemma owns_eq F h h' s : owns F h s -> h' = h -> owns F h' s.
Proof. by intros ? ->. Qed.

Lemma fetched_ok b t z w h p : prep_ok p -> pp_at p = MDownload (Some b) ->
  let p' := fetched filenameForType it document (mkDownloaded b t z w h) p in prep_ok p' /\ held p' = held p.
Proof.
  intros Hok Ha p'. pose proof (ok_main p Hok) as Hm. rewrite Ha in Hm. destruct Hm as [Hm Ho].
  pose proof (ok_thumbnail p Hok) as Ht. unfold returned in Ht. rewrite Ha in Ht. specialize (Ht eq_refl).
  unfold held, main_held, returned in *. rewrite Ha. subst p'. unfold fetched, converts. destruct (_ || _).
  - split; [apply (prep_ok_main p); simpl; try done; rewrite Ho; split; [done|by eexists]|]. simpl. rewrite Ht. unfold item_buffers. rewrite Hm, Ht, Ho. ms.
  - split; [apply (prep_ok_main p); simpl; try done|simpl; unfold item_buffers; rewrite Hm, Ht, Ho; ms].
    intros _. eapply item_ready_media; [done|done|]. unfold item_buffers. simpl. rewrite Ho. ms.
Qed.

Lemma media_converted_ok a c s p F : prep_ok p -> owns F (held p) s -> pp_at p = MConvert a ->
  let '(s', p') := media_converted it document a c s p in prep_ok p' /\ owns F (held p') s'.
Proof.
  intros Hok Hown Ha. pose proof (ok_main p Hok) as Hm. rewrite Ha in Hm. destruct Hm as [Ho (m & Hm & Hmo)].
  pose proof (ok_thumbnail p Hok) as Ht. unfold returned in Ht. rewrite Ha in Ht. specialize (Ht eq_refl).
  assert (dl_Data a <> st_next s) as Hne.
  { eapply owned_old; [done|]. unfold held, main_held, item_buffers. rewrite Ho. ms. }
  unfold held, main_held, returned, item_buffers in Hown. rewrite Ha, Ho, Hm, Ht in Hown. simpl in Hown. rewrite Hmo in Hown.
  unfold media_converted. destruct c as [|n t z|n t z]; cbn [converted alloc ig_Data ig_Prepared pr_Data].
  - split; [apply (prep_ok_main p); done|]. unfold held, main_held, returned, item_buffers. simpl. rewrite Ho, Hm, Ht. simpl. rewrite Hmo.
    eapply owns_eq; [done|ms].
  - rewrite bool_decide_eq_true_2 by done. split.
    + apply (prep_ok_main p); try done. intros _. eapply item_ready_media; [done|done|]. unfold item_buffers. simpl. rewrite Ho. ms.
    + unfold held, main_held, returned, item_buffers. simpl. rewrite Ho, Ht. eapply owns_eq; [done|ms].
  - rewrite bool_decide_eq_false_2 by (simpl; congruence). split.
    + apply (prep_ok_main p); try done. intros _. eapply item_ready_media; [done|done|]. unfold item_buffers. simpl. ms.
    + unfold held, main_held, returned, item_buffers. simpl. rewrite Ht. 
      apply (updates_alloc s) in Hown. eapply (updates_close _ _ (dl_Data a)). eapply owns_eq; [exact Hown|ms].
Qed.

Lemma join_thumbnail_ok x t s p F : prep_ok p -> owns F (held p) s -> pp_at p = MJoining x -> pp_task p = Some t -> ended t = true ->
  let '(s', p') := join_thumbnail x t s p in prep_ok p' /\ owns F (held p') s'.
Proof.
  intros Hok Hown Ha Htask He. pose proof (ok_main p Hok) as Hm. rewrite Ha in Hm. pose proof (ok_join p Hok) as Hj. rewrite Ha in Hj.
  pose proof (ok_joined p Hok) as Hd. rewrite Ha in Hd. destruct Hj as [_ Hj].
  pose proof (ok_thumbnail p Hok) as Ht. unfold returned in Ht. rewrite Ha in Ht. specialize (Ht eq_refl).
  pose proof (ok_task p Hok t Htask) as Htok.
  unfold held, main_held, returned in Hown. rewrite Ha, Htask in Hown. unfold from_option, task_held, ended in Hown, He.
  destruct (tk_at t) eqn:Eat; try done. unfold join_thumbnail. destruct x as [i|].
  - unfold chosen in Hj. rewrite Htask in Hj. destruct (ok_selected t Htok i Hj) as [_ Hi].
    split.
    + apply (prep_ok_main p); simpl; try done.
      * intros Hn. destruct (Hm Hn) as [(m & Hm1 & Hm2) _]. split.
        -- exists m. split; [done|]. revert Hm2. unfold item_buffers, buffers. simpl.
           destruct (tk_asset t); rewrite ?fmap_app, ?list_to_set_disj_app, !gmultiset_elem_of_disj_union; rewrite Ht; simpl;
             rewrite ?gmultiset_elem_of_empty; naive_solver.
        -- intros t' [= <-]. unfold item_buffers, buffers. simpl. rewrite !gmultiset_elem_of_disj_union.
           destruct (ok_image t Htok i Hi) as [->|(a & -> & -> & ->)]; [left; right; by apply gmultiset_elem_of_singleton|right].
           rewrite fmap_app, list_to_set_disj_app, gmultiset_elem_of_disj_union. right. simpl. ms.
      * split; [unfold chosen; by rewrite Htask|]. intros ? Ht'. rewrite Htask in Ht'. injection Ht' as <-. unfold ended. by rewrite Eat.
    + unfold held, main_held, returned, item_buffers in *. simpl. rewrite Hi, Ht in Hown. eapply owns_eq; [done|].
      clear; destruct (tk_asset t); simpl; destruct (ig_Owned i); ms.
  - split.
    + apply (prep_ok_main p); simpl; try done.
      * intros Hn. destruct (Hm Hn) as [(m & Hm1 & Hm2) _]. eapply item_ready_media; [done|done|].
        revert Hm2. unfold item_buffers. simpl. by rewrite Ht.
      * split; [unfold chosen in *; by rewrite Htask in *|]. intros ? Ht'. rewrite Htask in Ht'. injection Ht' as <-. unfold ended. by rewrite Eat.
    + unfold held, main_held, returned. simpl. set (h := item_buffers (pp_result p)).
      assert (item_buffers (with_thumbnail None (it_Owned (pp_result p)) (pp_result p)) = h) as ->
        by (unfold h, item_buffers; by rewrite Ht).
      assert (owns F (h ⊎ current_buffers (dl_Data <$> tk_asset t)) (if_some Cleanup (tk_image t) s)) as Hown'.
      { apply (if_some_Cleanup_updates (tk_image t) s). eapply owns_eq; [exact Hown|]. unfold h. ms. }
      destruct (tk_asset t) as [a|]; simpl in *.
      * eapply (updates_close _ _ (dl_Data a)). eapply owns_eq; [exact Hown'|ms].
      * eapply owns_eq; [exact Hown'|ms].
Qed.

Lemma leave_err_ok e s p F : prep_ok p -> owns F (held p) s -> pp_at p = MDownload None ->
  prep_ok (leave (Some e) p) /\ owns F (held (leave (Some e) p)) s.
Proof.
  intros Hok Hown Ha. pose proof (ok_thumbnail p Hok) as Ht. unfold returned in Ht. rewrite Ha in Ht.
  split; [apply (prep_ok_main p); try done; by intros _; apply Ht|].
  unfold held, main_held, returned in *. rewrite Ha in Hown. exact Hown.
Qed.

Lemma waited_ok s p F : prep_ok p -> owns F (held p) s -> pp_at p = MDeferred -> forallb is_ended (pp_anns p) = true ->
  let p' := match pp_task p with Some _ => set_at MSelect p | None => cancel_prep ErrCanceled (set_at MReturned p) end in
  prep_ok p' /\ owns F (held p') s.
Proof.
  intros Hok Hown Ha Hd p'. pose proof (ok_main p Hok) as Hm. rewrite Ha in Hm.
  pose proof (ok_thumbnail p Hok) as Ht. unfold returned in Ht. rewrite Ha in Ht. specialize (Ht eq_refl).
  unfold held, main_held, returned in *. rewrite Ha in Hown. subst p'. destruct (pp_task p) as [t|] eqn:Et.
  - split; [apply (prep_ok_main p); try done; rewrite Et; by eexists|]. simpl. rewrite Et. exact Hown.
  - split; [|simpl; exact Hown]. apply (prep_ok_main p); try done. unfold chosen. rewrite Et. split; [exact Ht|done].
Qed.

Lemma main_step_ok ev s p s' p' F : prep_ok p -> owns F (held p) s ->
  main_step filenameForType it document streaming ev s p = Some (s', p') -> prep_ok p' /\ owns F (held p') s'.
Proof.
  intros Hok Hown E. pose proof (ok_main p Hok) as Hm. pose proof (ok_thumbnail p Hok) as Ht.
  assert (forall c c' s', pp_at p = MDownload c -> (forall h, updates s (h ⊎ current_buffers c) s' (h ⊎ current_buffers c')) ->
    prep_ok (set_at (MDownload c') p) /\ owns F (held (set_at (MDownload c') p)) s') as Hcur.
  { intros c c' s2 Ha Hu. rewrite Ha in Hm. unfold returned in Ht. rewrite Ha in Ht.
    split; [apply (prep_ok_main p); try done; intros _; by apply Ht|]. unfold held, main_held, returned in *. rewrite Ha in Hown. simpl.
    set (h := item_buffers (pp_result p)) in *. set (k := from_option task_held ∅ (pp_task p)) in *.
    eapply owns_eq; [apply (Hu (h ⊎ k)); eapply owns_eq; [exact Hown|]|]; clear; ms. }
  destruct ev; try done; simpl in E; destruct (pp_at p) as [[b|]|a| | |x|] eqn:Ea;
    try (repeat (case_match; try discriminate); discriminate E).
  - injection E as <- <-. apply (Hcur None); [done|]. intros h. by_alloc.
  - destruct (_ && _); injection E as <- <-; [|done]. split; [|].
    + destruct Hok as [A B C D E G H]. constructor; simpl; try done.
      { intros _. apply Ht. unfold returned. by rewrite Ea. }
      intros i n x Hi Hn. apply lookup_app_Some in Hi as [Hi|[_ Hi]]; [by eapply G|].
      apply list_lookup_singleton_Some in Hi as [_ <-]. done.
    + unfold held, main_held, returned in *. simpl. rewrite Ea in *. exact Hown.
  - injection E as <- <-. apply (Hcur (Some b)); [done|]. intros h. by_close.
  - destruct r as [[[[t z] w] h]|e]; [|done]. injection E as <- <-.
    destruct (fetched_ok b t z w h p Hok Ea) as [H1 H2]. split; [done|]. by rewrite H2.
  - destruct r as [[[[t z] w] h]|e]; [done|]. injection E as <- <-. by apply leave_err_ok.
  - injection E as E. pose proof (media_converted_ok a c s p F Hok Hown Ea) as H. by rewrite E in H.
  - destruct (forallb is_ended (pp_anns p)) eqn:Ed; [|done]. injection E as <- <-. by apply waited_ok.
  - destruct (pp_task p) as [t|] eqn:Et; [|done]. destruct (selectImage None late t) as [[t' r]|] eqn:Es; [|done].
    destruct (select_prep p t None late t' r Hok Et Es) as (H1 & H2 & H3). rewrite <- H2 in Hown.
    destruct r as [x|]; injection E as <- <-; [|done].
    assert (set_at (MJoining x) (set_task t' p) = mkPrep (MJoining x) (pp_result p) (pp_err p) (pp_ctx p) (pp_task (set_task t' p)) (pp_anns p) (pp_streamed p)) as Hs by done.
    split.
    + apply (prep_ok_main (set_task t' p)); simpl; try done; [by intros _; apply Ht; unfold returned; rewrite Ea| |].
      * pose proof (ok_joined p Hok) as Hd. by rewrite Ea in Hd.
      * split; [by eexists|]. by apply H3.
    + unfold held, main_held, returned in *. simpl in *. rewrite Ea in Hown. exact Hown.
  - destruct (pp_task p) as [t|] eqn:Et; [|done]. destruct (ended t) eqn:Ee; [|done]. injection E as E.
    pose proof (join_thumbnail_ok x t s p F Hok Hown Ea Et Ee) as H. by rewrite E in H.
Qed.

Lemma prep_step_ok ev s p s' p' F : prep_ok p -> owns F (held p) s -> step ev s p = Some (s', p') ->
  prep_ok p' /\ owns F (held p') s'.
Proof.
  intros Hok Hown E. unfold prep_step in E.
  destruct ev; try (by eapply main_step_ok);
    try (destruct (pp_task p) as [t|] eqn:Et; [|done]; destruct (task_step _ s p t) as [[s2 t2]|] eqn:Es; [|done];
         injection E as <- <-; by eapply task_prep_ok);
    try (destruct (ann_step filenameForType it _ p) as [p2|] eqn:Es; [|done]; injection E as <- <-;
         destruct (ann_step_ok _ _ _ Hok Es) as [H1 H2]; split; [done|by rewrite H2]).
  injection E as <- <-. split; [by apply prep_ok_ctx|]. exact Hown.
Qed.

Lemma prep_run_ok evs s p s' p' F : prep_ok p -> owns F (held p) s ->
  prep_run filenameForType it document streaming evs (s, p) = Some (s', p') -> prep_ok p' /\ owns F (held p') s'.
Proof.
  unfold prep_run. revert s p. induction evs as [|ev evs IH]; intros s p Hok Hown E; simpl in E.
  { by injection E as <- <-. }
  destruct (step ev s p) as [[s1 p1]|] eqn:Es.
  - destruct (prep_step_ok _ _ _ _ _ _ Hok Hown Es). eauto.
  - exfalso. clear -E. induction evs; simpl in *; [done|auto].
Qed.

Lemma start_prep_ok wait ctx : prep_ok (start_prep it document wait ctx) /\ held (start_prep it document wait ctx) = ∅.
Proof.
  unfold start_prep, startThumbnail.
  destruct (wants_thumbnail wait it document); (split; [constructor; simpl; try done; try by intros x ?%elem_of_nil|]).
  - intros t [= <-]. by constructor.
  - unfold held, main_held. ms.
  - unfold held, main_held. ms.
Qed.
End Steps.

(** A preparation that has returned: its goroutines have ended, and of all the
    buffers they made the result holds what is open. *)
Lemma prep_returned filenameForType it document streaming wait ctx evs s s' p' F :
  prep_run filenameForType it document streaming evs (s, start_prep it document wait ctx) = Some (s', p') -> returned p' = true ->
  owns F ∅ s ->
  owns F (item_buffers (pp_result p')) s' /\ (pp_err p' = None -> item_ready (pp_result p')) /\
  forallb is_ended (pp_anns p') = true /\ (forall t, pp_task p' = Some t -> ended t = true) /\
  forall x, x ∈ pp_streamed p' -> it_Thumbnail x = it_Thumbnail (pp_result p').
Proof.
  intros E Hr Hown. destruct (start_prep_ok it document wait ctx) as [Hok Hh].
  rewrite <- Hh in Hown.
  destruct (prep_run_ok _ _ _ _ _ _ _ _ _ F Hok Hown E) as [Hok' Hown'].
  pose proof (ok_main p' Hok') as Hm. pose proof (ok_joined p' Hok') as Hd. pose proof (ok_join p' Hok') as Hj.
  unfold returned in Hr. destruct (pp_at p') eqn:Ea; try done. destruct Hj as [Hj1 Hj2]. split_and!; try done.
  - eapply owns_eq; [exact Hown'|]. unfold held, main_held, returned. rewrite Ea. ms.
  - intros x Hx. pose proof (ok_streamed p' Hok' x Hx) as Hc. unfold chosen in *. destruct (pp_task p'); congruence.
Qed.

(** ** The workers *)

Definition items_held (l : list item) : gmultiset nat := ⋃+ (item_buffers <$> l).
Definition worker_held (x : worker) : gmultiset nat := match x with WRun _ p => held p | _ => ∅ end.
Definition workers_held (l : list worker) : gmultiset nat := ⋃+ (worker_held <$> l).

(** The part of a list that is not at a position. *)
Lemma union_at {A} (f : A -> gmultiset nat) (l : list A) i x : l !! i = Some x ->
  ⋃+ (f <$> l) = ⋃+ (f <$> delete i l) ⊎ f x.
Proof.
  intros Hi. rewrite (delete_Permutation l i x Hi) at 1. rewrite fmap_cons, gmultiset_disj_union_list_cons. apply (comm_L (⊎)).
Qed.

Lemma union_insert {A} (f : A -> gmultiset nat) (l : list A) i y : (i < length l)%nat ->
  ⋃+ (f <$> <[i := y]> l) = ⋃+ (f <$> delete i l) ⊎ f y.
Proof.
  intros Hi. rewrite (union_at f (<[i := y]> l) i y) by (by apply list_lookup_insert_eq).
  do 3 f_equal. rewrite !delete_take_drop. rewrite take_insert_ge by lia. by rewrite drop_insert_lt by lia.
Qed.

Lemma items_held_empty n : items_held (replicate n no_item) = ∅.
Proof.
  induction n as [|n IH]; [done|]. unfold items_held in *. simpl replicate. rewrite fmap_cons, gmultiset_disj_union_list_cons, IH. ms.
Qed.

Section PoolProofs.
Context (filenameForType : string -> string -> string) (thumbnailWait concurrency : Z).
Context (items : list deliveryItem) (document : bool) (indices : list nat).
Abbreviation n := (workers concurrency indices).

(** Which offsets a worker still has before it: those of its stride that it has
    not finished. *)
Definition pending (w : nat) (x : worker) (o : nat) : Prop :=
  (o mod n)%nat = w /\ match x with WNext k | WRun k _ => (k <= o)%nat | WEnd => False end.

Record pool_ok (F : gmultiset nat) (o : pool) : Prop := {
  ok_owns : owns F (workers_held (wp_workers o) ⊎ items_held (wp_prepared o)) (wp_store o);
  ok_count : length (wp_workers o) = n;
  ok_preps : forall w k p, wp_workers o !! w = Some (WRun k p) -> prep_ok p;
  ok_stride : forall w x, wp_workers o !! w = Some x -> match x with WNext k | WRun k _ => (k mod n)%nat = w | WEnd => True end;
  ok_blank : forall w x k i r, wp_workers o !! w = Some x -> pending w x k -> indices !! k = Some i -> wp_prepared o !! i = Some r -> item_buffers r = ∅;
  ok_done : forall w x k i, wp_failure o = None -> wp_ctx o = None -> wp_workers o !! w = Some x -> (k mod n)%nat = w -> ~ pending w x k ->
    indices !! k = Some i -> exists r, wp_prepared o !! i = Some r /\ item_ready r;
}.

Lemma ok_lookup F o w x : pool_ok F o -> wp_workers o !! w = Some x -> (w < length (wp_workers o))%nat.
Proof. intros _ Hw. by eapply lookup_lt_Some. Qed.

Lemma pool_ok_worker F o s w x y f c : pool_ok F o -> wp_workers o !! w = Some x ->
  updates (wp_store o) (worker_held x) s (worker_held y) ->
  (forall k p, y = WRun k p -> prep_ok p) ->
  (match y with WNext k | WRun k _ => (k mod n)%nat = w | WEnd => True end) ->
  (forall k, pending w y k -> pending w x k) ->
  (f = None -> c = None -> wp_failure o = None /\ wp_ctx o = None /\
     forall k, pending w x k -> ~ pending w y k -> indices !! k = None) ->
  pool_ok F (mkPool s (<[w := y]> (wp_workers o)) (wp_prepared o) f c).
Proof.
  intros Hok Hw Hu Hp Hs Hpend Hf. pose proof (ok_lookup F o w x Hok Hw) as Hlt. destruct Hok as [A B C D E G].
  assert (forall w' x', <[w := y]> (wp_workers o) !! w' = Some x' -> (w' = w /\ x' = y) \/ (w' <> w /\ wp_workers o !! w' = Some x')) as Hcase.
  { intros w' x' H. destruct (decide (w' = w)) as [->|Hn]; [left|right; by rewrite list_lookup_insert_ne in H].
    rewrite list_lookup_insert_eq in H by done. by injection H as <-. }
  constructor; simpl.
  - unfold workers_held in *. rewrite (union_at worker_held _ w x Hw) in A. rewrite union_insert by done.
    set (rest := ⋃+ (worker_held <$> delete w (wp_workers o))) in *. set (kept := items_held (wp_prepared o)) in *.
    eapply owns_eq; [apply (updates_frame (rest ⊎ kept) _ _ _ _ Hu F)|clear; ms]. eapply owns_eq; [exact A|clear; ms].
  - by rewrite length_insert.
  - intros w' k p H. destruct (Hcase _ _ H) as [[-> <-]|[_ H']]; [by eapply Hp|by eapply C].
  - intros w' x' H. destruct (Hcase _ _ H) as [[-> ->]|[_ H']]; [done|by apply D].
  - intros w' x' k i r H Hk. destruct (Hcase _ _ H) as [[-> ->]|[_ H']]; [eapply E; [done|by apply Hpend]|by eapply E].
  - intros w' x' k i Hf0 Hc0 H Hmod Hnp Hi. destruct (Hf Hf0 Hc0) as (Hfo & Hco & Hstep).
    destruct (Hcase _ _ H) as [[-> ->]|[_ H']]; [|by eapply G].
    assert (pending w x k \/ ~ pending w x k) as [Hpx|Hpx]; [|by rewrite (Hstep k Hpx Hnp) in Hi|by eapply (G w x)].
    destruct x; unfold pending; [destruct (decide (offset <= k)%nat)..|]; intuition.
Qed.

Lemma finish_item_ok F o w k i p : NoDup indices -> pool_ok F o -> wp_workers o !! w = Some (WRun k p) -> returned p = true ->
  indices !! k = Some i -> (i < length (wp_prepared o))%nat -> (0 < n)%nat ->
  pool_ok F (finish_item concurrency indices w k i p o).
Proof.
  intros Hnd Hok Hw Hr Hi Hlt Hn. set (y := match pp_err p with None => WNext (k + n) | Some _ => WEnd end).
  pose proof (ok_lookup F o w _ Hok Hw) as Hwlt. destruct Hok as [A B C D E G].
  pose proof (C w k p Hw) as Hp. pose proof (D w _ Hw) as Hmod. simpl in Hmod.
  destruct (lookup_lt_is_Some_2 _ _ Hlt) as [r0 Hr0].
  assert (pending w (WRun k p) k) as Hpk by (split; [done|lia]).
  pose proof (E w _ k i r0 Hw Hpk Hi Hr0) as Hblank.
  assert (exists f c, finish_item concurrency indices w k i p o =
      mkPool (wp_store o) (<[w := y]> (wp_workers o)) (<[i := pp_result p]> (wp_prepared o)) f c /\
      (f = None -> c = None -> pp_err p = None /\ wp_failure o = None /\ wp_ctx o = None)) as (f & c & -> & Hfc).
  { unfold finish_item, y. destruct (pp_err p); do 2 eexists; (split; [reflexivity|]); [|done]. by destruct (wp_failure o). }
  assert (held p = item_buffers (pp_result p)) as Hheld.
  { unfold held, main_held. rewrite Hr. unfold returned in Hr. destruct (pp_at p); try done. clear. ms. }
  assert (forall w' x', <[w := y]> (wp_workers o) !! w' = Some x' -> (w' = w /\ x' = y) \/ (w' <> w /\ wp_workers o !! w' = Some x')) as Hcase.
  { intros w' x' H. destruct (decide (w' = w)) as [->|Hne]; [left|right; by rewrite list_lookup_insert_ne in H].
    rewrite list_lookup_insert_eq in H by done. by injection H as <-. }
  assert (forall j, pending w y j -> pending w (WRun k p) j /\ j <> k) as Hy.
  { intros j [Hj1 Hj2]. unfold y in Hj2. destruct (pp_err p); [done|]. split; [split; [done|lia]|lia]. }
  assert (forall j j', indices !! j = Some j' -> j <> k -> j' <> i) as Hinj.
  { intros j j' Hj Hne ->. apply Hne. by eapply NoDup_lookup. }
  constructor; simpl.
  - unfold workers_held, items_held in *. rewrite (union_at worker_held _ w _ Hw), (union_at item_buffers _ i _ Hr0) in A.
    rewrite !union_insert by done. replace (worker_held y) with (∅ : gmultiset nat) by (unfold y; by destruct (pp_err p)).
    simpl in A. rewrite Hheld, Hblank in A. eapply owns_eq; [exact A|]. clear.
    generalize (⋃+ (worker_held <$> delete w (wp_workers o))), (⋃+ (item_buffers <$> delete i (wp_prepared o))), (item_buffers (pp_result p)).
    intros. multiset_solver.
  - by rewrite length_insert.
  - intros w' k' p' H. destruct (Hcase _ _ H) as [[-> Hyy]|[_ H']]; [|by eapply C].
    unfold y in Hyy. by destruct (pp_err p).
  - intros w' x' H. destruct (Hcase _ _ H) as [[-> ->]|[_ H']]; [|by apply D]. unfold y. destruct (pp_err p); [done|].
    rewrite <- Hmod. rewrite <- (Nat.Div0.add_mod_idemp_r k n n), Nat.Div0.mod_same, Nat.add_0_r. done.
  - intros w' x' j i' r H Hj Hij Hpi. destruct (Hcase _ _ H) as [[-> ->]|[Hne H']].
    + destruct (Hy j Hj) as [Hj1 Hj2]. pose proof (Hinj j i' Hij Hj2) as Hii.
      rewrite list_lookup_insert_ne in Hpi by done. by eapply E.
    + assert (j <> k) as Hjk by (intros ->; destruct Hj as [Hj _]; congruence).
      pose proof (Hinj j i' Hij Hjk) as Hii. rewrite list_lookup_insert_ne in Hpi by done. by eapply E.
  - intros w' x' j i' Hf0 Hc0 H Hm Hnp Hij. destruct (Hfc Hf0 Hc0) as (He & Hfo & Hco).
    destruct (decide (j = k)) as [->|Hjk].
    + assert (i' = i) as -> by congruence. exists (pp_result p). split; [by apply list_lookup_insert_eq|].
      pose proof (ok_main p Hp) as Hmain. unfold returned in Hr. destruct (pp_at p); try done. by apply Hmain.
    + pose proof (Hinj j i' Hij Hjk) as Hii. rewrite list_lookup_insert_ne by done.
      destruct (Hcase _ _ H) as [[-> ->]|[Hne H']]; [|by eapply G].
      eapply (G w (WRun k p)); try done. intros [_ Hle]. apply Hnp. split; [done|]. unfold y. rewrite He.
      assert (exists d, (j = k + d * n)%nat) as [d ->]; [|destruct d; [lia|nia]].
      exists (j / n - k / n)%nat. pose proof (Nat.div_mod j n). pose proof (Nat.div_mod k n). pose proof (Nat.Div0.div_le_mono k j n Hle). nia.
Qed.

Abbreviation pstep := (pool_step filenameForType thumbnailWait concurrency items document indices).
Abbreviation prun := (pool_run filenameForType thumbnailWait concurrency items document indices).

(** The items of other identities stay as they are. *)
Definition same_others (l l' : list item) : Prop := length l' = length l /\ forall j, (j ∉ indices) -> l' !! j = l !! j.

Lemma workers_positive k i : indices !! k = Some i -> (0 < n)%nat.
Proof. intros H%lookup_lt_Some. unfold workers. lia. Qed.

Lemma pool_step_ok F ev o o' : NoDup indices -> (forall k i, indices !! k = Some i -> (i < length (wp_prepared o))%nat) ->
  pool_ok F o -> pstep ev o = Some o' -> pool_ok F o' /\ same_others (wp_prepared o) (wp_prepared o').
Proof.
  intros Hnd Hb Hok E. unfold pool_step in E. destruct ev as [w|w ev|w|e].
  - destruct (wp_workers o !! w) as [[k|k p|]|] eqn:Ew; try done. pose proof (ok_stride F o Hok w _ Ew) as Hk.
    destruct (indices !! k) as [i|] eqn:Ei.
    + destruct (wp_ctx o) as [e|] eqn:Ec.
      * injection E as <-. split; [|done]. unfold set_worker.
        eapply pool_ok_worker; try done; [apply updates_refl|by intros ? [_ []]|intros ? ?; congruence].
      * destruct (items !! i) as [it|]; [|done]. injection E as <-. split; [|done].
        destruct (start_prep_ok it document thumbnailWait None) as [Hs Hh].
        eapply pool_ok_worker; try done; [simpl; rewrite Hh; apply updates_refl|by intros ? ? [= _ <-]].
    + injection E as <-. split; [|done]. eapply pool_ok_worker; try done; [apply updates_refl|by intros ? [_ []]|].
      intros ? ?. split_and!; try done. intros j [_ Hj] _. apply lookup_ge_None in Ei. apply lookup_ge_None. lia.
  - destruct (wp_workers o !! w) as [[k|k p|]|] eqn:Ew; try done. pose proof (ok_stride F o Hok w _ Ew) as Hk.
    destruct (indices !! k ≫= _) as [it|]; [|done]. destruct (prep_step _ _ _ _ _ _ _) as [[s p']|] eqn:Ep; [|done].
    injection E as <-. split; [|done]. pose proof (ok_preps F o Hok w k p Ew) as Hp. pose proof (ok_owns F o Hok) as Hown.
    assert (owns (F ⊎ (⋃+ (worker_held <$> delete w (wp_workers o)) ⊎ items_held (wp_prepared o))) (held p) (wp_store o)) as Hown'.
    { unfold workers_held in Hown. rewrite (union_at worker_held _ w _ Ew) in Hown. unfold owns in *. simpl in *.
      destruct Hown as [H1 H2]. split; [|done]. intros b. rewrite <- H1. f_equal. clear. ms. }
    destruct (prep_step_ok _ _ _ _ _ _ _ _ _ _ Hp Hown' Ep) as [Hp' Hown2].
    unfold set_store, set_worker. simpl.
    assert (forall f c, f = wp_failure o -> c = wp_ctx o -> pool_ok F (mkPool s (<[w := WRun k p']> (wp_workers o)) (wp_prepared o) f c)); [|by auto].
    intros f c -> ->. 
    assert (updates (wp_store o) (worker_held (WRun k p)) s (worker_held (WRun k p'))) as Hu.
    { intros F' HF'. simpl in *. by destruct (prep_step_ok _ _ _ _ _ _ _ _ _ _ Hp HF' Ep). }
    eapply pool_ok_worker; try done; by intros ? ? [= _ <-].
  - destruct (wp_workers o !! w) as [[k|k p|]|] eqn:Ew; try done. destruct (returned p) eqn:Er; [|done].
    destruct (indices !! k) as [i|] eqn:Ei; [|done]. injection E as <-.
    split; [by apply finish_item_ok; try done; [by eapply Hb|by eapply workers_positive]|].
    assert (wp_prepared (finish_item concurrency indices w k i p o) = <[i := pp_result p]> (wp_prepared o)) as -> by (unfold finish_item; by destruct (pp_err p)).
    split; [by rewrite length_insert|]. intros j Hj. apply list_lookup_insert_ne. intros ->. apply Hj. by eapply list_elem_of_lookup_2.
  - injection E as <-. split; [|done]. destruct Hok as [A B C D E G]. constructor; simpl; try done.
    intros w x k i Hf Hc. destruct (wp_ctx o); done.
Qed.

Lemma pool_run_ok F evs o o' : NoDup indices -> (forall k i, indices !! k = Some i -> (i < length (wp_prepared o))%nat) ->
  pool_ok F o -> prun evs o = Some o' -> pool_ok F o' /\ same_others (wp_prepared o) (wp_prepared o').
Proof.
  intros Hnd. unfold pool_run. revert o. induction evs as [|ev evs IH]; intros o Hb Hok E; simpl in E.
  { by injection E as <-. }
  destruct (pstep ev o) as [o1|] eqn:Es.
  - destruct (pool_step_ok F ev o o1 Hnd Hb Hok Es) as [Hok1 [L1 S1]]. destruct (IH o1) as [Hok' [L2 S2]]; [by rewrite L1|done..|].
    split; [done|]. split; [congruence|]. intros j Hj. by rewrite S2, S1.
  - exfalso. clear -E. induction evs; simpl in *; [done|auto].
Qed.

Lemma start_pool_ok F s prepared ctx : owns F (items_held prepared) s ->
  (forall k i r, indices !! k = Some i -> prepared !! i = Some r -> item_buffers r = ∅) ->
  pool_ok F (start_pool concurrency indices s prepared ctx).
Proof.
  intros Hown Hblank.
  assert (forall w x, (WNext <$> seq 0 n) !! w = Some x -> x = WNext w /\ (w < n)%nat) as Hseq.
  { intros w x H. apply list_lookup_fmap_Some in H as (y & -> & Hy). apply lookup_seq in Hy as [-> ?]. done. }
  constructor; simpl.
  - eapply owns_eq; [exact Hown|]. unfold workers_held. replace (⋃+ (worker_held <$> (WNext <$> seq 0 n))) with (∅ : gmultiset nat); [by rewrite (left_id_L ∅ (⊎))|].
    generalize (seq 0 n). intros l. induction l as [|x l IH]; [done|]. rewrite !fmap_cons, gmultiset_disj_union_list_cons, <- IH. clear. simpl. ms.
  - by rewrite length_fmap, length_seq.
  - intros w k p H. by destruct (Hseq _ _ H).
  - intros w x H. destruct (Hseq _ _ H) as [-> Hw]. by apply Nat.mod_small.
  - intros w x k i r _ _. apply Hblank.
  - intros w x k i _ _ H Hmod Hnp Hi. exfalso. destruct (Hseq _ _ H) as [-> Hw]. apply Hnp. split; [done|]. simpl.
    rewrite <- Hmod. apply Nat.Div0.mod_le.
Qed.

Lemma pool_over_ready F o i : pool_ok F o -> pool_over o = true -> pool_error o = None -> i ∈ indices ->
  exists r, wp_prepared o !! i = Some r /\ item_ready r.
Proof.
  intros Hok Hover Herr (k & Hk)%list_elem_of_lookup. pose proof (workers_positive k i Hk) as Hn.
  unfold pool_error in Herr. destruct (wp_failure o) eqn:Ef; [done|].
  destruct (lookup_lt_is_Some_2 (wp_workers o) (k mod n)%nat) as [x Hx].
  { rewrite (ok_count F o Hok). apply Nat.mod_upper_bound. lia. }
  eapply (ok_done F o Hok _ x k i); try done. intros [_ Hp].
  unfold pool_over in Hover. rewrite forallb_Forall in Hover. apply (Forall_lookup_1 _ _ _ _ Hover) in Hx. by destruct x.
Qed.

Lemma replace_item F i p p' l s s' : owns F (items_held l) s -> l !! i = Some p -> updates s (item_buffers p) s' (item_buffers p') ->
  owns F (items_held (<[i := p']> l)) s'.
Proof.
  intros Hown Hi Hu. unfold items_held in *. rewrite (union_at _ _ _ _ Hi) in Hown.
  rewrite union_insert by (by eapply lookup_lt_Some). by apply (updates_frame _ _ _ _ _ Hu F).
Qed.

Lemma clean_at_ok F l sp : owns F (items_held sp.2) sp.1 ->
  let sp' := foldl clean_at sp l in
  owns F (items_held sp'.2) sp'.1 /\ length sp'.2 = length sp.2 /\ (forall j, (j ∉ l) -> sp'.2 !! j = sp.2 !! j) /\
  (forall j r, (item_buffers <$> sp.2 !! j = Some ∅ \/ j ∈ l) -> sp'.2 !! j = Some r -> item_buffers r = ∅).
Proof.
  revert sp. induction l as [|i l IH]; intros [s ps] Hown; simpl in *.
  { split_and!; try done. intros j r [H|H] Hj; [|by apply elem_of_nil in H]. rewrite Hj in H. by injection H. }
  destruct (ps !! i) as [p|] eqn:Ei.
  - set (sp1 := ((cleanup p s).2, <[i := no_item]> ps)).
    replace (clean_at (s, ps) i) with sp1 by (unfold clean_at; simpl; by rewrite Ei).
    assert (owns F (items_held sp1.2) sp1.1) as H1.
    { eapply replace_item; [exact Hown|exact Ei|]. eapply updates_eq; [apply cleanup_updates|done|ms]. }
    destruct (IH sp1 H1) as (A & B & C & D). split_and!; [done|rewrite B; apply length_insert| |].
    + intros j Hj. rewrite C by set_solver. apply list_lookup_insert_ne. set_solver.
    + intros j r Hj. apply D. simpl. destruct (decide (i = j)) as [->|Hn].
      * left. rewrite list_lookup_insert_eq by (by eapply lookup_lt_Some). reflexivity.
      * rewrite list_lookup_insert_ne by done. destruct Hj as [Hj|Hj]; [by left|right; set_solver].
  - replace (clean_at (s, ps) i) with (s, ps) by (unfold clean_at; simpl; by rewrite Ei).
    destruct (IH (s, ps) Hown) as (A & B & C & D). split_and!; [done|done|intros j Hj; apply C; set_solver|].
    intros j r Hj Hr. destruct (decide (i = j)) as [->|Hn]; [|eapply (D j r); [|done]; destruct Hj as [Hj|Hj]; [by left|right; set_solver]].
    simpl in *. exfalso. assert (is_Some (ps !! j)) as Hs; [|rewrite Ei in Hs; by destruct Hs].
    apply lookup_lt_is_Some_2. rewrite <- B. by eapply lookup_lt_Some.
Qed.

Lemma callback_ok F ctx evs s prepared s' prepared' err : NoDup indices -> Forall (fun i => i < length prepared)%nat indices ->
  owns F (items_held prepared) s ->
  callback filenameForType thumbnailWait concurrency items document indices ctx evs (s, prepared) = Some (s', prepared', err) ->
  owns F (items_held prepared') s' /\ same_others prepared prepared' /\
  (err = None -> forall i, i ∈ indices -> exists r, prepared' !! i = Some r /\ item_ready r).
Proof.
  intros Hnd Hb Hown E. unfold callback in E. destruct (clean_at_ok F indices (s, prepared) Hown) as (A & B & C & D).
  destruct (foldl clean_at (s, prepared) indices) as [s1 ps1]. simpl in *.
  destruct (prun evs _) as [o|] eqn:Er; [|done]. destruct (pool_over o) eqn:Eo; [|done]. injection E as <- <- <-.
  assert (pool_ok F (start_pool concurrency indices s1 ps1 ctx)) as H0.
  { apply start_pool_ok; [done|]. intros k i r Hk. apply D. right. by eapply list_elem_of_lookup_2. }
  assert (forall k i, indices !! k = Some i -> (i < length ps1)%nat) as Hlt.
  { intros k i Hk. rewrite B. by apply (Forall_lookup_1 _ _ _ _ Hb Hk). }
  destruct (pool_run_ok F evs (start_pool concurrency indices s1 ps1 ctx) o Hnd Hlt H0 Er) as [Hok [L S]].
  simpl in *. split_and!.
  - eapply owns_eq; [apply (ok_owns F o Hok)|]. replace (workers_held (wp_workers o)) with (∅ : gmultiset nat); [by rewrite (left_id_L ∅ (⊎))|].
    clear -Eo. unfold pool_over in Eo. unfold workers_held. induction (wp_workers o) as [|x l IH]; [done|].
    simpl in Eo. rewrite fmap_cons, gmultiset_disj_union_list_cons. destruct x; try done. rewrite <- IH by done. clear. ms.
  - split; [congruence|]. intros j Hj. by rewrite S, C.
  - intros He i Hi. by eapply pool_over_ready.
Qed.

Lemma lease_ok F runs verdict last s prepared s' prepared' err : NoDup indices -> Forall (fun i => i < length prepared)%nat indices ->
  owns F (items_held prepared) s -> (last = None -> forall i, i ∈ indices -> exists r, prepared !! i = Some r /\ item_ready r) ->
  lease filenameForType thumbnailWait concurrency items document indices runs verdict last (s, prepared) = Some (s', prepared', err) ->
  owns F (items_held prepared') s' /\ same_others prepared prepared' /\
  (err = None -> forall i, i ∈ indices -> exists r, prepared' !! i = Some r /\ item_ready r).
Proof.
  intros Hnd. revert last s prepared. induction runs as [|[ctx evs] runs IH]; intros last s prepared Hb Hown Hl E; cbn [lease] in E.
  - destruct verdict as [v|]; [injection E as <- <- <-; done|]. destruct last as [l|]; [done|]. injection E as <- <- <-. done.
  - destruct (callback _ _ _ _ _ _ _ _ _) as [[[s1 ps1] e1]|] eqn:Ec; [|done].
    destruct (callback_ok F ctx evs _ _ _ _ _ Hnd Hb Hown Ec) as (A & [L S] & R).
    destruct (IH e1 s1 ps1) as (A' & [L' S'] & R'); [by rewrite L|done..|]. split_and!; try done.
    split; [congruence|]. intros j Hj. by rewrite S', S.
Qed.
End PoolProofs.
