(* ===== verification/DeliverySend.v ===== *)
(** * httpapi: what a delivery uploads and releases

    Models, of src/internal/httpapi/telegram.go, [send] for prepared media with
    its cleanups (an album, or the one item that is not streamed), over the
    buffers of Delivery.  The parameters, the files and the answers are those of
    Telegram, and [send_batches_refines] says that the buffers change nothing
    about them.

    The Bot API's answers are an input, as are the runs of an identity's lease.
    The log of the calls keeps, for the theorems, which buffers were open when
    one began. *)
From S2P Require Import Prelude Strconv Errors Json Operation TelegramClient Telegram Delivery.
From stdpp Require Import gmap gmultiset strings.
Open Scope Z_scope.
Open Scope go_scope.

(** ** Albums and single items *)

(** What of a [preparedItem] is sent. *)
Definition strip (p : item) : option preparedItem :=
  match it_Media p with
  | Some m => Some (mkPreparedItem (ig_Prepared m) (ig_Prepared <$> it_Thumbnail p) (it_Kind p) (it_Width p) (it_Height p))
  | None => None
  end.

Record sent := mkSent { sn_store : store; sn_calls : list (list upload * store) }.
Definition clean_all (l : list item) (s : store) : store := foldl (fun s p => (cleanup p s).2) s l.

Section Send.
Context (filenameForType : string -> string -> string) (thumbnailWait concurrency maxBytes : Z).
(** The Bot API, by the number of the call. *)
Context (answer : nat -> string -> fields -> list upload -> res goerr telegramCall).

Definition call (method : string) (f : fields) (us : list upload) (st : sent) : res goerr telegramCall * sent :=
  (answer (length (sn_calls st)) method f us, mkSent (sn_store st) (sn_calls st ++ [(us, sn_store st)])).

(** The loop over the batches; what it leaves of [prepared] is the last component. *)
Fixpoint send_batches (al : albumFields) (document instagram : bool) (batchIndex : Z) (batches : list (list item))
    (calls : list telegramCall) (event : DeliveryEvent) (st : sent) : res goerr (list telegramCall) * DeliveryEvent * sent * list item :=
  match batches with
  | [] => (Ok calls, event, st, [])
  | batch :: batches =>
      let '(batchFields, uploads) := album_call al document instagram batchIndex (omap strip batch) in
      let event := add_attempt event in
      let '(r, st) := call "sendMediaGroup" batchFields uploads st in
      let st := mkSent (clean_all batch (sn_store st)) (sn_calls st) in
      let cleaned := (fun _ => no_item) <$> batch in
      match r with
      | Err e => (Err e, event, st, cleaned ++ concat batches)
      | Ok c =>
          let event := record c event in
          if tc_OK c then
            let '(r, event, st, left_) := send_batches al document instagram (batchIndex + 1) batches (calls ++ [c]) event st in
            (r, event, st, cleaned ++ left_)
          else (Ok (calls ++ [c]), event, st, cleaned ++ concat batches)
      end
  end.

(** Everything [send] does once the media are prepared. *)
Definition upload_prepared (prepared : list item) (parameters : fields) (document instagram : bool) (event : DeliveryEvent) (st : sent) :
    res goerr deliveryResult * DeliveryEvent * sent * list item :=
  let ready := omap strip prepared in
  if existsb (fun p => (0 <? maxBytes) && (maxBytes <? pr_Size (pi_Media p))) ready then
    (Err (ErrCore (NewError "asset_too_large" "Telegram upload exceeds TELEGRAM_UPLOAD_MAX_MB" 413)), event, st, prepared)
  else
    match ready with
    | [] => (Err (ErrCore (NewError "upstream_extraction_error" "No media could be prepared" 502)), event, st, prepared)
    | [item] =>
        let '(r, event, st) := sendSingle call item parameters document (set_event_stage "upload" event) st in (r, event, st, prepared)
    | _ =>
        let event := set_event_stage "upload" event in
        let '(r, event, st, left_) := send_batches (split_album parameters) document instagram 0 (albumBatches prepared) [] event st in
        match r with
        | Err e => (Err e, event, st, left_)
        | Ok calls => (telegramResponse calls, event, st, left_)
        end
    end.

(** The identities' leases, one after another; [leases] are their runs. *)
Fixpoint prepare_identities (items : list deliveryItem) (document : bool) (groups : list (string * list nat))
    (leases : list (list (option goerr * list pool_event) * option goerr)) (sp : store * list item) :
    option (store * list item * option goerr) :=
  match groups, leases with
  | [], _ => Some (sp, None)
  | (_, indices) :: groups, (runs, verdict) :: leases =>
      match lease filenameForType thumbnailWait concurrency items document indices runs verdict (Some ErrCanceled) sp with
      | Some (s, prepared, Some e) => Some (s, prepared, Some e)
      | Some (s, prepared, None) => prepare_identities items document groups leases (s, prepared)
      | None => None
      end
  | _, [] => None
  end.

(** [send] of items whose assets are known, with its deferred cleanup. *)
Definition send_items (items : list deliveryItem) (parameters : fields) (document instagram : bool)
    (leases : list (list (option goerr * list pool_event) * option goerr)) (event : DeliveryEvent) (s : store) :
    option (res goerr deliveryResult * DeliveryEvent * sent) :=
  match prepare_identities items document (group_items 0 items []) leases (s, replicate (length items) no_item) with
  | None => None
  | Some (s, prepared, Some e) => Some (Err e, event, mkSent (clean_all prepared s) [])
  | Some (s, prepared, None) =>
      let '(r, event, st, left_) := upload_prepared prepared parameters document instagram event (mkSent s []) in
      Some (r, event, mkSent (clean_all left_ (sn_store st)) (sn_calls st))
  end.
End Send.

(** ** Positions of the items *)

Lemma add_group_perm id i gs : concat (add_group id i gs).*2 ≡ₚ concat gs.*2 ++ [i].
Proof.
  induction gs as [|[id' ix] gs IH]; simpl; [done|]. destruct (String.eqb id id'); simpl.
  - rewrite <- !(assoc_L (++)). apply Permutation_app_head. apply Permutation_app_comm.
  - rewrite IH. by rewrite (assoc_L (++)).
Qed.

Lemma group_items_perm n items gs : concat (group_items n items gs).*2 ≡ₚ concat gs.*2 ++ seq n (length items).
Proof.
  revert n gs. induction items as [|x items IH]; intros n gs; simpl; [by rewrite (right_id_L [] (++))|].
  rewrite IH, add_group_perm. by rewrite <- (assoc_L (++)).
Qed.

(** ** What the calls read *)

Definition reads_open (cs : list (list upload * store)) : Prop :=
  forall us s u, (us, s) ∈ cs -> u ∈ us -> pr_Data (up_Prepared u) ∈ st_open s.

(** The file of an upload is the media or the thumbnail of an item. *)
Definition from_item (x : preparedItem) (u : upload) : Prop :=
  up_Prepared u = pi_Media x \/ pi_Thumbnail x = Some (up_Prepared u).

Lemma album_items_from al document instagram b i l payload us u :
  album_items (split_album al) document instagram b i l = (payload, us) -> u ∈ us -> exists x, x ∈ l /\ from_item x u.
Proof.
  revert i payload us. induction l as [|x l IH]; intros i payload us E Hu; cbn [album_items] in E.
  { injection E as <- <-. by apply elem_of_nil in Hu. }
  destruct (album_item _ document instagram b i x) as [v us1] eqn:E1. destruct (album_items _ _ _ b (i + 1) l) as [vs us2] eqn:E2.
  injection E as <- <-. apply elem_of_app in Hu as [Hu|Hu].
  - exists x. split; [left|]. destruct (album_item_spec _ _ _ _ _ _ _ _ E1) as [_ H].
    destruct (pi_Thumbnail x) as [t|] eqn:Et; [destruct document; [|destruct H as (_ & _ & H)]|]; subst us1;
      repeat (apply elem_of_cons in Hu as [->|Hu]); try (by left); try (by right); by apply elem_of_nil in Hu.
  - destruct (IH _ _ _ E2 Hu) as (y & ? & ?). exists y. split; [by right|done].
Qed.

Lemma singleUpload_from x ps document u : u ∈ (singleUpload x ps document).2 -> from_item x u.
Proof.
  unfold singleUpload. destruct (pi_Thumbnail x) as [t|] eqn:Et; simpl; intros Hu;
    repeat (apply elem_of_cons in Hu as [->|Hu]); try (by left); try (by right); by apply elem_of_nil in Hu.
Qed.

(** A ready item can be read while its buffers are held. *)
Lemma ready_open F h s r x u : owns F h s -> (forall b, b ∈ item_buffers r -> b ∈ h) -> item_ready r -> strip r = Some x -> from_item x u ->
  pr_Data (up_Prepared u) ∈ st_open s.
Proof.
  intros Hown Hsub [(m & Hm & Hmd) Ht] Hx Hu. unfold strip in Hx. rewrite Hm in Hx. injection Hx as <-.
  eapply owned_open; [exact Hown|]. apply Hsub. destruct Hu as [->|Hu]; [done|]. simpl in Hu.
  apply fmap_Some in Hu as (t & Htt & ->). by apply Ht.
Qed.

Lemma strip_ready r : item_ready r -> is_Some (strip r).
Proof. intros [(m & Hm & _) _]. unfold strip. rewrite Hm. by eexists. Qed.

(** ** Everything is released *)

Lemma items_held_app l k : items_held (l ++ k) = items_held l ⊎ items_held k.
Proof. unfold items_held. by rewrite fmap_app, gmultiset_disj_union_list_app. Qed.

Lemma items_held_cons r l : items_held (r :: l) = item_buffers r ⊎ items_held l.
Proof. unfold items_held. by rewrite fmap_cons, gmultiset_disj_union_list_cons. Qed.

Lemma items_held_cleaned (batch l : list item) : items_held (((fun _ => no_item) <$> batch) ++ l) = items_held l.
Proof. induction batch as [|r batch IH]; [done|]. rewrite fmap_cons. cbn [app]. rewrite items_held_cons, IH. unfold item_buffers. simpl. multiset_solver. Qed.

Lemma items_held_elem r l b : r ∈ l -> b ∈ item_buffers r -> b ∈ items_held l.
Proof.
  intros Hr Hb. induction Hr as [r l|r y l _ IH]; rewrite items_held_cons; apply gmultiset_elem_of_disj_union; [by left|right; auto].
Qed.

Lemma clean_all_ok F h l s : owns F (items_held l ⊎ h) s -> owns F h (clean_all l s).
Proof.
  revert s. induction l as [|r l IH]; intros s Hown; simpl; [eapply owns_eq; [exact Hown|multiset_solver]|].
  apply IH. rewrite items_held_cons in Hown.
  eapply owns_eq; [apply (updates_frame (items_held l ⊎ h) _ _ _ _ (cleanup_updates r s) F)|multiset_solver].
  eapply owns_eq; [exact Hown|]. rewrite (comm_L (⊎) _ (item_buffers r)). apply (assoc_L (⊎)).
Qed.

Section Proofs.
Context (filenameForType : string -> string -> string) (thumbnailWait concurrency maxBytes : Z).
Context (answer : nat -> string -> fields -> list upload -> res goerr telegramCall) (F : gmultiset nat).

Lemma call_reads us st :
  reads_open (sn_calls st) -> (forall u, u ∈ us -> pr_Data (up_Prepared u) ∈ st_open (sn_store st)) ->
  reads_open (sn_calls st ++ [(us, sn_store st)]).
Proof. intros H Hu us' s u [Hin|[= -> ->]%list_elem_of_singleton]%elem_of_app Hel; [by eapply H|by apply Hu]. Qed.

Lemma send_batches_ok al document instagram b batches calls event st ps : al = split_album ps ->
  owns F (items_held (concat batches)) (sn_store st) -> Forall item_ready (concat batches) -> reads_open (sn_calls st) ->
  let '(_, _, st', left_) := send_batches answer al document instagram b batches calls event st in
  owns F (items_held left_) (sn_store st') /\ reads_open (sn_calls st').
Proof.
  intros ->. revert b calls event st. induction batches as [|batch batches IH]; intros b calls event st Hown Hr Hc; cbn [send_batches]; [done|].
  simpl in Hown, Hr. rewrite items_held_app in Hown. apply Forall_app in Hr as [Hr1 Hr2].
  destruct (album_call (split_album ps) document instagram b (omap strip batch)) as [f us] eqn:Ea. unfold call. cbn [fst snd sn_store sn_calls].
  assert (reads_open (sn_calls st ++ [(us, sn_store st)])) as Hc'.
  { apply call_reads; [done|]. intros u Hu. unfold album_call in Ea. destruct (album_items _ _ _ b 0 _) as [payload us'] eqn:Ei.
    injection Ea as _ <-. destruct (album_items_from _ _ _ _ _ _ _ _ _ Ei Hu) as (x & Hx & Hfrom).
    apply list_elem_of_omap in Hx as (r & Hin & Hx). eapply ready_open; [exact Hown| | |exact Hx|exact Hfrom].
    - intros d Hd. apply gmultiset_elem_of_disj_union. left. by eapply items_held_elem.
    - rewrite Forall_forall in Hr1. by apply Hr1. }
  pose proof (clean_all_ok F _ batch _ Hown) as Hcl.
  destruct (answer _ _ f us) as [c|e]; [|cbn [sn_store sn_calls]; by rewrite items_held_cleaned].
  destruct (tc_OK c); [|cbn [sn_store sn_calls]; by rewrite items_held_cleaned].
  specialize (IH (b + 1) (calls ++ [c]) (record c (add_attempt event)) (mkSent (clean_all batch (sn_store st)) (sn_calls st ++ [(us, sn_store st)])) Hcl Hr2 Hc').
  destruct (send_batches _ _ _ _ _ _ _ _ _) as [[[r ev] st'] left_]. by rewrite items_held_cleaned.
Qed.

Lemma upload_prepared_ok prepared ps document instagram event s :
  owns F (items_held prepared) s -> Forall item_ready prepared ->
  let '(_, _, st', left_) := upload_prepared maxBytes answer prepared ps document instagram event (mkSent s []) in
  owns F (items_held left_) (sn_store st') /\ reads_open (sn_calls st').
Proof.
  intros Hown Hr. assert (reads_open []) as Hnil by (intros ? ? ? []%elem_of_nil).
  unfold upload_prepared. destruct (existsb _ _); [done|]. destruct (omap strip prepared) as [|x [|y l]] eqn:Eo; [done| |].
  - unfold sendSingle. destruct (singleUpload x ps document) as [[m f] us] eqn:Es. unfold call. cbn [sn_store sn_calls length].
    assert (reads_open ([] ++ [(us, s)])) as Hc.
    { apply (call_reads us (mkSent s [])); [done|]. intros u Hu. cbn [sn_store].
      assert (x ∈ omap strip prepared) as Hx by (rewrite Eo; left). apply list_elem_of_omap in Hx as (r & Hin & Hx).
      eapply (ready_open F _ s r x u Hown); [|rewrite Forall_forall in Hr; by apply Hr|done|].
      - intros d Hd. by eapply items_held_elem.
      - eapply (singleUpload_from x ps document). by rewrite Es. }
    destruct (answer _ _ _ us); done.
  - pose proof (send_batches_ok (split_album ps) document instagram 0 (albumBatches prepared) [] (set_event_stage "upload" event) (mkSent s []) ps eq_refl) as H.
    unfold albumBatches in *. rewrite (proj1 (album_loop_spec _ prepared (Nat.lt_succ_diag_r _))) in H. specialize (H Hown Hr Hnil).
    destruct (send_batches _ _ _ _ _ _ _ _ _) as [[[r ev] st'] left_]. by destruct r.
Qed.

(** The identities: none of the earlier ones' items is touched, and if nothing
    failed every item is ready. *)
Lemma prepare_identities_ok items document groups leases s prepared s' prepared' err (done_ : list nat) :
  NoDup (concat groups.*2) -> Forall (fun i => i < length prepared)%nat (concat groups.*2) ->
  (forall i, i ∈ done_ -> i ∉ concat groups.*2) -> (forall i, i ∈ done_ -> exists r, prepared !! i = Some r /\ item_ready r) ->
  owns F (items_held prepared) s ->
  prepare_identities filenameForType thumbnailWait concurrency items document groups leases (s, prepared) = Some (s', prepared', err) ->
  owns F (items_held prepared') s' /\ length prepared' = length prepared /\
  (err = None -> forall i, i ∈ done_ ++ concat groups.*2 -> exists r, prepared' !! i = Some r /\ item_ready r).
Proof.
  revert leases s prepared done_. induction groups as [|[id indices] groups IH]; intros leases s prepared done_ Hnd Hb Hdis Hdone Hown E.
  { cbn [prepare_identities] in E. injection E as <- <- <-. split_and!; try done. simpl. by rewrite (right_id_L [] (++)). }
  destruct leases as [|[runs verdict] leases]; [done|]. cbn [prepare_identities] in E. simpl in Hnd, Hb, Hdis.
  apply NoDup_app in Hnd as (Hnd1 & Hsep & Hnd2). apply Forall_app in Hb as [Hb1 Hb2].
  destruct (lease _ _ _ _ _ _ _ _ _ _) as [[[s1 ps1] e1]|] eqn:El; [|done].
  destruct (lease_ok _ _ _ _ _ _ F runs verdict (Some ErrCanceled) s prepared s1 ps1 e1 Hnd1 Hb1 Hown ltac:(done) El) as (H1 & [L S] & R).
  destruct e1 as [e1|].
  { injection E as <- <- <-. by split_and!. }
  assert (forall i, i ∈ done_ ++ indices -> exists r, ps1 !! i = Some r /\ item_ready r) as Hready.
  { intros i [Hi|Hi]%elem_of_app; [|by apply R]. rewrite S; [by apply Hdone|]. intros Hin. apply (Hdis i Hi). apply elem_of_app. by left. }
  assert (Forall (fun i => i < length ps1)%nat (concat groups.*2)) as Hb2' by (by rewrite L).
  assert (forall i, i ∈ done_ ++ indices -> i ∉ concat groups.*2) as Hdis'.
  { intros i [Hi|Hi]%elem_of_app Hin; [|by apply (Hsep i)]. apply (Hdis i Hi). apply elem_of_app. by right. }
  destruct (IH leases s1 ps1 (done_ ++ indices) Hnd2 Hb2' Hdis' Hready H1 E) as (A & B & C). split_and!; [done|congruence|].
  intros He i Hi. apply C; [done|]. simpl in Hi. by rewrite <- (assoc_L (++)).
Qed.
End Proofs.

(** C10. The buffers of an album: whatever the downloads, the conversions, the
    cancellations and the recoveries of an identity do, and in whatever order the
    goroutines run, every file of every call to the Bot API is still open when
    the call reads it; and when [send] returns, with a result or an error, the
    open buffers are those that were open before it. *)
Theorem album_buffers filenameForType thumbnailWait concurrency maxBytes answer items ps document instagram leases event s r ev st :
  st_ok s ->
  send_items filenameForType thumbnailWait concurrency maxBytes answer items ps document instagram leases event s = Some (r, ev, st) ->
  reads_open (sn_calls st) /\ st_open (sn_store st) = st_open s.
Proof.
  intros Hs E. unfold send_items in E. pose proof (owns_all s Hs) as Hown. set (F := buffers (elements (st_open s))) in *.
  pose proof (group_items_perm 0 items []) as Hperm. simpl in Hperm. set (groups := group_items 0 items []) in *.
  destruct (prepare_identities _ _ _ _ _ _ _ _) as [[[s1 ps1] e1]|] eqn:Ep; [|done].
  destruct (prepare_identities_ok filenameForType thumbnailWait concurrency F items document groups leases s (replicate (length items) no_item) s1 ps1 e1 [])
    as (H1 & H2 & H3).
  { rewrite Hperm. apply NoDup_seq. }
  { rewrite Hperm. apply Forall_forall. intros i Hi%elem_of_seq. rewrite length_replicate. lia. }
  { by intros i ?%elem_of_nil. }
  { by intros i ?%elem_of_nil. }
  { by rewrite items_held_empty. }
  { exact Ep. }
  assert (forall s', owns F ∅ s' -> st_open s' = st_open s) as Hsame.
  { intros s' Hs'. apply set_eq. intros b. pose proof (proj1 Hown b) as Hb. pose proof (proj1 Hs' b) as Hb'. rewrite Hb in Hb'.
    repeat case_bool_decide; try done; lia. }
  assert (forall l s', owns F (items_held l) s' -> owns F ∅ (clean_all l s')) as Hclean.
  { intros l s' Hs'. apply clean_all_ok. eapply owns_eq; [exact Hs'|]. by rewrite (right_id_L ∅ (⊎)). }
  destruct e1 as [e1|].
  { injection E as <- <- <-. split; [intros ? ? ? []%elem_of_nil|]. apply Hsame, Hclean, H1. }
  assert (Forall item_ready ps1) as Hready.
  { apply Forall_lookup_2. intros i p Hi. destruct (H3 eq_refl i) as (p' & Hp' & ?); [|by rewrite Hi in Hp'; injection Hp' as <-].
    cbn [app]. rewrite Hperm. apply elem_of_seq. apply lookup_lt_Some in Hi. rewrite H2, length_replicate in Hi. lia. }
  pose proof (upload_prepared_ok maxBytes answer F ps1 ps document instagram event s1 H1 Hready) as Hup.
  destruct (upload_prepared _ _ _ _ _ _ _ _) as [[[r1 ev1] st1] left_]. destruct Hup as [Hu1 Hu2].
  injection E as <- <- <-. split; [done|]. apply Hsame, Hclean, Hu1.
Qed.

(** ** The buffers do not change what is sent *)

(** The same calls, with the same parameters, files and answers, as the album of
    Telegram, whose state is here the number of calls. *)
Definition answered (answer : nat -> string -> fields -> list upload -> res goerr telegramCall) (m : string) (f : fields) (us : list upload) (n : nat) :
    res goerr telegramCall * nat := (answer n m f us, S n).

Lemma send_batches_refines answer al document instagram b batches calls event st :
  let '(r, ev, st', _) := send_batches answer al document instagram b batches calls event st in
  Telegram.send_batches (answered answer) al document instagram b (map (omap strip) batches) calls event (length (sn_calls st)) =
    (r, ev, length (sn_calls st')).
Proof.
  revert b calls event st. induction batches as [|batch batches IH]; intros b calls event st; cbn [send_batches Telegram.send_batches map]; [done|].
  destruct (album_call al document instagram b (omap strip batch)) as [f us]. unfold call, answered. cbn [sn_store sn_calls].
  destruct (answer _ _ f us) as [c|e]; [|cbn [sn_calls]; by rewrite length_app, Nat.add_1_r].
  destruct (tc_OK c) eqn:Ec; [|cbn [sn_calls]; by rewrite length_app, Nat.add_1_r].
  match goal with |- context [send_batches _ _ _ _ _ _ _ ?ev ?st1] => specialize (IH (b + 1) (calls ++ [c]) ev st1) end.
  cbn [sn_calls] in IH. rewrite length_app, Nat.add_1_r in IH.
  destruct (send_batches _ _ _ _ _ _ _ _ _) as [[[r ev] st'] left_]. exact IH.
Qed.

(** An album whose first preparation fails for one item: the identity recovers
    and both are prepared again. *)
Definition demo_photo (id : string) : deliveryItem := mkItem (mkDescriptor id "image" "a.webp") "image" None None.
Definition prepare_photo (w : nat) (c : conversion) : list pool_event :=
  [WBegin w; WStep w Attempt; WStep w (Fetched (Ok ("image/webp"%string, 9, 0, 0))); WStep w (Converted c); WStep w Waited; WFinish w].
Definition demo_leases : list (list (option goerr * list pool_event) * option goerr) :=
  [([(None, prepare_photo 0 (CFresh "a.jpg" "image/jpeg" 8) ++ prepare_photo 1 CFail ++ [WBegin 0]);
     (None, prepare_photo 1 (CSource "a.jpg" "image/jpeg" 9) ++ prepare_photo 0 (CFresh "a.jpg" "image/jpeg" 8) ++ [WBegin 0; WBegin 1])], None)].
Definition demo_send : option (res goerr deliveryResult * DeliveryEvent * sent) :=
  send_items (fun n _ => n) 0 2 100 (fun _ _ _ _ => Ok (mkCall "sendMediaGroup" 200 [] "application/json" JNull true)) [demo_photo "a"; demo_photo "b"] [] false false
    demo_leases (mkEvent "" "preparation" 1 0 0 "" 0 0) (mkStore 5 {[3%nat]}).

Lemma album_buffers_witness :
  st_ok (mkStore 5 {[3%nat]}) /\
  match demo_send with
  | Some (_, _, st) => map (fun c => map (fun u => pr_Data (up_Prepared u)) c.1) (sn_calls st) = [[10%nat; 8%nat]] /\
      reads_open (sn_calls st) /\ st_open (sn_store st) = {[3%nat]}
  | None => False
  end.
Proof.
  assert (st_ok (mkStore 5 {[3%nat]})) as Hs by (intros b Hb; cbn [st_open] in Hb; apply elem_of_singleton in Hb as ->; simpl; lia).
  split; [exact Hs|]. destruct demo_send as [[[r ev] st]|] eqn:E; [|vm_compute in E; discriminate].
  pose proof (album_buffers _ _ _ _ _ _ _ _ _ _ _ _ _ _ _ Hs E) as [H1 H2]. split; [|by split].
  vm_compute in E. injection E as _ _ <-. reflexivity.
Defined.
