(* ===== verification/DeliveryStream.v ===== *)
(** * httpapi: streamed deliveries

    Models the goroutines of [sendStreamed] (src/internal/httpapi/telegram.go)
    over the buffers of Delivery: the one that holds the identity's lease and
    runs [prepare], once more after each recovery; one for every upload it
    announced; and the loop that starts the uploads, chooses the one of the
    media that preparation finally returned, and waits for all of them before it
    releases anything.  The parameters and the final-byte gate itself are
    those of Telegram ([stream_release]). *)
From S2P Require Import Prelude Strconv Errors Json Operation TelegramClient Telegram Delivery DeliverySend.
From stdpp Require Import gmap gmultiset strings.
Open Scope Z_scope.
Open Scope go_scope.

(** [streamUpload]: what it sends, whether its call returned, and its two channels. *)
Record stream := mkStreamed { sm_item : item; sm_done : bool; sm_stopped : bool; sm_released : bool }.

(** The goroutine with the lease: between two runs of the callback (and what the
    last one was), in one, or at its end with what the lease returned. *)
Inductive lease_at := LIdle (last : option prep) | LRun (p : prep) | LOver (last : option prep) (err : option goerr).

(** [sendStreamed] itself: in its loop, in [sendSingle], waiting for the released
    upload, in its deferred function (and whether [finished] was received), over. *)
Inductive main_at := SLoop | SSingle | SAwait (k : nat) | SDeferred (prepared : bool) | SOver.

Record world := mkWorld {
  sw_store : store;
  sw_final : item;
  sw_lease : lease_at;
  sw_streams : list stream;
  sw_main : main_at;
  sw_reads : list (list upload * store);
}.

Inductive event :=
| LeaseBegin (ctx : option goerr) | LeaseStep (ev : prep_event) | LeaseReturn | LeaseOver (verdict : option goerr)
| Launch (i : nat) | StreamDone (k : nat) | Received (k : nat) (failed : bool) | Finished (commit : option goerr)
| SingleCalled | AwaitDone | Deferred.

Definition set_main (m : main_at) (y : world) : world := mkWorld (sw_store y) (sw_final y) (sw_lease y) (sw_streams y) m (sw_reads y).
Definition set_lease (l : lease_at) (y : world) : world := mkWorld (sw_store y) (sw_final y) l (sw_streams y) (sw_main y) (sw_reads y).
Definition set_streams (l : list stream) (y : world) : world := mkWorld (sw_store y) (sw_final y) (sw_lease y) l (sw_main y) (sw_reads y).

Definition media_data (r : item) : option nat := ig_Data <$> it_Media r.
Definition stop_stream (u : stream) : stream := mkStreamed (sm_item u) (sm_done u) true (sm_released u).
Definition release_stream (u : stream) : stream := mkStreamed (sm_item u) (sm_done u) (sm_stopped u) true.
Definition done_stream (u : stream) : stream := mkStreamed (sm_item u) true (sm_stopped u) (sm_released u).

(** The loop over [uploads]: the last one of the final media; the others are stopped. *)
Fixpoint choose (media : option nat) (us : list stream) (current : option nat) (i : nat) : list stream * option nat :=
  match us with
  | [] => ([], current)
  | u :: us =>
      if bool_decide (media_data (sm_item u) = media) then
        let '(us, c) := choose media us (Some i) (S i) in (u :: us, c)
      else let '(us, c) := choose media us current (S i) in (stop_stream u :: us, c)
  end.

Definition is_streamed (ev : prep_event) : bool := match ev with AnnStreamed _ true => true | _ => false end.
Definition buffer_closed (r : item) (s : store) : bool := match media_data r with Some d => bool_decide (d ∉ st_open s) | None => true end.

Section Stream.
Context (filenameForType : string -> string -> string) (thumbnailWait : Z) (it : deliveryItem) (document : bool) (parameters : fields).

Definition lease_step (ev : prep_event) (s : store) (p : prep) : option (store * prep) := prep_step filenameForType it document true ev s p.

Definition step (ev : event) (y : world) : option world :=
  match ev, sw_lease y, sw_main y with
  | LeaseBegin ctx, LIdle _, _ =>
      let '(final, s) := cleanup (sw_final y) (sw_store y) in
      Some (mkWorld s final (LRun (start_prep it document thumbnailWait ctx)) (sw_streams y) (sw_main y) (sw_reads y))
  | LeaseStep ev, LRun p, _ =>
      if is_streamed ev then None
      else match lease_step ev (sw_store y) p with
           | Some (s, p) => Some (mkWorld s (sw_final y) (LRun p) (sw_streams y) (sw_main y) (sw_reads y))
           | None => None
           end
  | LeaseReturn, LRun p, _ =>
      if returned p then Some (mkWorld (sw_store y) (pp_result p) (LIdle (Some p)) (sw_streams y) (sw_main y) (sw_reads y)) else None
  | LeaseOver verdict, LIdle last, _ =>
      match verdict, last with
      | Some _, _ => Some (set_lease (LOver last verdict) y)
      | None, Some p => match pp_err p with None => Some (set_lease (LOver last None) y) | Some _ => None end
      | None, None => None
      end
  | Launch i, LRun p, SLoop =>
      match pp_anns p !! i with
      | Some (mkAnn a (AStream x)) =>
          match lease_step (AnnStreamed i true) (sw_store y) p with
          | Some (s, p) => Some (mkWorld s (sw_final y) (LRun p)
              (sw_streams y ++ [mkStreamed (streamed filenameForType it a x) false false false]) SLoop (sw_reads y))
          | None => None
          end
      | _ => None
      end
  | StreamDone k, _, _ =>
      match sw_streams y !! k with
      | Some u => Some (set_streams (<[k := done_stream u]> (sw_streams y)) y)
      | None => None
      end
  | Received k failed, _, SLoop =>
      match sw_streams y !! k with
      | Some u =>
          if sm_done u then
            if failed || buffer_closed (sm_item u) (sw_store y) then Some y else Some (set_main (SDeferred false) y)
          else None
      | None => None
      end
  | Finished commit, LOver _ verdict, SLoop =>
      match verdict with
      | Some _ => Some (set_main (SDeferred true) y)
      | None =>
          let '(us, current) := choose (media_data (sw_final y)) (sw_streams y) None 0 in
          match current with
          | None => Some (set_main SSingle (set_streams us y))
          | Some k =>
              match commit with
              | Some _ => Some (set_main (SDeferred true) (set_streams us y))
              | None => Some (set_main (SAwait k) (set_streams (alter release_stream k us) y))
              end
          end
      end
  | SingleCalled, _, SSingle =>
      match strip (sw_final y) with
      | Some x =>
          let '(_, _, us) := singleUpload x parameters document in
          Some (mkWorld (sw_store y) (sw_final y) (sw_lease y) (sw_streams y) (SDeferred true) (sw_reads y ++ [(us, sw_store y)]))
      | None => None
      end
  | AwaitDone, _, SAwait k =>
      match sw_streams y !! k with
      | Some u => if sm_done u then Some (set_main (SDeferred true) y) else None
      | None => None
      end
  | Deferred, l, SDeferred prepared =>
      if forallb sm_done (sw_streams y) && (prepared || match l with LOver _ _ => true | _ => false end) then
        let '(final, s) := cleanup (sw_final y) (sw_store y) in
        Some (mkWorld s final l (sw_streams y) SOver (sw_reads y))
      else None
  | _, _, _ => None
  end.

Definition start (s : store) : world := mkWorld s no_item (LIdle None) [] SLoop [].
Definition run (evs : list event) (y : world) : option world :=
  foldl (fun o ev => match o with Some y => step ev y | None => None end) (Some y) evs.
End Stream.
Arguments lease_step : simpl never.

(** ** Closed buffers stay closed *)

Definition grows (s s' : store) : Prop :=
  (st_next s <= st_next s')%nat /\ forall d, (d < st_next s)%nat -> (d ∉ st_open s) -> d ∉ st_open s'.

#[global] Instance grows_preorder : PreOrder grows.
Proof.
  split; [intros s; by split|]. intros s1 s2 s3 [L1 C1] [L2 C2]. split; [lia|]. intros d Hd Ho. apply C2; [lia|]. by apply C1.
Qed.

Lemma grows_alloc s : grows s (alloc s).2.
Proof. split; simpl; [lia|]. intros d Hd Ho. apply not_elem_of_union. split; [|done]. apply not_elem_of_singleton. lia. Qed.
Lemma grows_close b s : grows s (close b s).
Proof. split; simpl; [lia|]. set_solver. Qed.
#[export] Hint Resolve grows_alloc grows_close : core.

Lemma grows_Cleanup i s : grows s (Cleanup i s).
Proof. unfold Cleanup. destruct (ig_Owned i); [apply grows_close|reflexivity]. Qed.
Lemma grows_if_some {A} (f : A -> store -> store) x s : (forall a s, grows s (f a s)) -> grows s (if_some f x s).
Proof. intros H. destruct x; [apply H|reflexivity]. Qed.
#[export] Hint Resolve grows_Cleanup grows_if_some : core.

Lemma grows_cleanup p s : grows s (cleanup p s).2.
Proof.
  unfold cleanup. simpl. transitivity (if_some Cleanup (it_Thumbnail p) (if_some Cleanup (it_Media p) s)).
  - etransitivity; [apply (grows_if_some Cleanup (it_Media p)); auto|apply (grows_if_some Cleanup (it_Thumbnail p)); auto].
  - generalize (if_some Cleanup (it_Thumbnail p) (if_some Cleanup (it_Media p) s)) as s1. induction (it_Owned p) as [|a l IH]; intros s1; simpl; [reflexivity|].
    etransitivity; [apply (grows_close (dl_Data a))|apply IH].
Qed.

Lemma grows_converted d c s : grows s (converted d c s).2.
Proof. destruct c; [reflexivity|reflexivity|apply (grows_alloc s)]. Qed.
#[export] Hint Resolve grows_converted : core.

Lemma grows_drop a s : grows s (drop_asset a s).
Proof. apply grows_close. Qed.
#[export] Hint Resolve grows_drop : core.

Section Grows.
Context (filenameForType : string -> string -> string) (it : deliveryItem) (document streaming : bool).

Lemma grows_release a i s t : grows s (release_source a i s t).1.
Proof. unfold release_source. repeat case_match; simpl; auto; reflexivity. Qed.

Lemma grows_task ev s p t s' t' : task_step ev s p t = Some (s', t') -> grows s s'.
Proof.
  unfold task_step. intros E. destruct ev; try done.
  6: { injection E as <- _. reflexivity. }
  all: destruct (tk_at t) as [|[b|]|a|] eqn:Ea; try (repeat case_match; discriminate E).
  1-5: simpl in E; repeat case_match; simplify_eq; (reflexivity || apply (grows_alloc s) || apply grows_close).
  - injection E as E. unfold task_converted in E. pose proof (grows_converted (dl_Data a) c s) as Hc.
    destruct (converted (dl_Data a) c s) as [[i|] s1]; simpl in Hc; [destruct (task_ctx p t)|].
    + pose proof (grows_release a (tk_image t) (Cleanup i s1) t) as Hr. rewrite E in Hr. do 2 (etransitivity; [eassumption || apply (grows_Cleanup i)|]). exact Hr.
    + pose proof (grows_release a (Some i) s1 t) as Hr. rewrite E in Hr. by etransitivity.
    + pose proof (grows_release a (tk_image t) s1 t) as Hr. rewrite E in Hr. by etransitivity.
Qed.

Lemma grows_main ev s p s' p' : main_step filenameForType it document streaming ev s p = Some (s', p') -> grows s s'.
Proof.
  unfold main_step. intros E. destruct ev; try done; destruct (pp_at p) as [[b|]|a| | |x|]; try done;
    try (simpl in E; repeat case_match; simplify_eq; (reflexivity || apply (grows_alloc s) || apply grows_close)).
  - injection E as E. unfold media_converted in E. pose proof (grows_converted (dl_Data a) c s) as Hc.
    destruct (converted (dl_Data a) c s) as [[m|] s1]; [case_bool_decide|]; injection E as <- <-; try done.
    etransitivity; [exact Hc|apply grows_drop].
  - destruct (pp_task p) as [t|]; [|done]. destruct (ended t); [|done]. injection E as E. unfold join_thumbnail in E. destruct x; injection E as <- _; [reflexivity|].
    etransitivity; [apply (grows_if_some Cleanup (tk_image t)); auto|apply (grows_if_some drop_asset (tk_asset t)); auto].
Qed.

Lemma grows_prep ev s p s' p' : prep_step filenameForType it document streaming ev s p = Some (s', p') -> grows s s'.
Proof.
  intros E. unfold prep_step in E. destruct ev; try (by eapply grows_main);
    try (destruct (pp_task p) as [t|]; [|done]; destruct (task_step _ s p t) as [[s2 t2]|] eqn:Es; [|done]; injection E as <- <-; by eapply grows_task);
    try (destruct (ann_step _ _ _ p); [|done]; injection E as <- <-; reflexivity).
  injection E as <- <-. reflexivity.
Qed.
End Grows.

(** ** What is announced was allocated by the preparation *)

Definition between (N : nat) (s : store) (d : nat) : Prop := (N <= d < st_next s)%nat.

Record fresh (N : nat) (s : store) (p : prep) : Prop := {
  fr_next : (N <= st_next s)%nat;
  fr_current : forall b, pp_at p = MDownload (Some b) -> between N s b;
  fr_anns : forall i n, pp_anns p !! i = Some n -> between N s (dl_Data (an_asset n));
  fr_streamed : forall x, x ∈ pp_streamed p -> exists d, media_data x = Some d /\ between N s d;
}.

Lemma between_grows N s s' d : grows s s' -> between N s d -> between N s' d.
Proof. intros [H _] ?. unfold between in *. lia. Qed.

Lemma fresh_same N s s' p p' : fresh N s p -> grows s s' -> (forall b, pp_at p' = MDownload (Some b) -> pp_at p = MDownload (Some b)) ->
  pp_anns p' = pp_anns p -> pp_streamed p' = pp_streamed p -> fresh N s' p'.
Proof.
  intros [A B C D] Hg Ha Hn Hs. constructor.
  - destruct Hg. lia.
  - intros b Hb. eapply between_grows; [done|]. auto.
  - intros i n. rewrite Hn. intros Hi. eapply between_grows; [done|]. by eapply C.
  - intros x. rewrite Hs. intros Hx. destruct (D x Hx) as (d & ? & ?). exists d. split; [done|]. by eapply between_grows.
Qed.

Section Fresh.
Context (filenameForType : string -> string -> string) (it : deliveryItem) (document streaming : bool).

Lemma fresh_ann N s i a p : fresh N s p -> fresh N s (set_ann i a p).
Proof.
  intros [A B C D]. constructor; try done. intros j n Hj. simpl in Hj. destruct (decide (i = j)) as [->|Hne].
  - rewrite list_lookup_alter_eq in Hj. apply fmap_Some in Hj as (m & Hm & ->). exact (C j m Hm).
  - rewrite list_lookup_alter_ne in Hj by done. by eapply C.
Qed.

Lemma fresh_ann_step N ev s p p' : fresh N s p -> ann_step filenameForType it ev p = Some p' -> fresh N s p'.
Proof.
  intros Hf E. destruct ev; try done; simpl in E; destruct (pp_anns p !! i) as [[a [|x|]]|] eqn:Ei; try done.
  - assert (forall q x, fresh N s q -> fresh N s (announce i x q)) as Hann.
    { intros q x Hq. unfold announce. destruct (pp_ctx q); apply fresh_ann; exact Hq. }
    assert (forall t, fresh N s (set_task t p)) as Ht by (intros t; eapply fresh_same; [exact Hf|reflexivity|done..]).
    destruct (pp_task p) as [t|]; [destruct (selectImage _ _ t) as [[t' [x|]]|]; [..|done]|]; injection E as <-; auto.
  - injection E as <-. pose proof (fresh_ann N s i AEnded p Hf) as H. unfold deliver_stream. destruct accepted; [|done].
    destruct H as [A B C D]. constructor; try done. simpl. intros y [Hy|Hy%list_elem_of_singleton]%elem_of_app; [by apply D|].
    subst y. exists (dl_Data a). split; [done|]. by apply (fr_anns N s p Hf i _ Ei).
Qed.

Lemma fresh_main N ev s p s' p' : fresh N s p -> main_step filenameForType it document streaming ev s p = Some (s', p') -> fresh N s' p'.
Proof.
  intros Hf E. pose proof (grows_main _ _ _ _ _ _ _ _ _ E) as Hg.
  assert (forall a, (forall b, a <> MDownload (Some b)) -> pp_at p' = a -> pp_anns p' = pp_anns p -> pp_streamed p' = pp_streamed p -> fresh N s' p') as Hother.
  { intros a Ha Hp' Hn Hs. eapply fresh_same; [exact Hf|exact Hg| |done|done]. intros b Hb. rewrite Hp' in Hb. by apply Ha in Hb. }
  unfold main_step in E. destruct ev; try done; destruct (pp_at p) as [[b|]|a| | |x|] eqn:Ea;
    try (repeat (case_match; try discriminate); discriminate E).
  - injection E as <- <-. destruct Hf as [A B C D]. constructor; simpl.
    + lia.
    + intros b [= <-]. unfold between. simpl. lia.
    + intros i n Hi. eapply between_grows; [exact Hg|]. by eapply C.
    + intros x Hx. destruct (D x Hx) as (d & ? & ?). exists d. split; [done|]. by eapply between_grows.
  - destruct (_ && _); injection E as <- <-; [|done]. pose proof (fr_current N s p Hf b Ea) as Hb.
    destruct Hf as [A B C D]. constructor; simpl; try done; try by rewrite <- Ea.
    intros i n [Hi|[_ Hi]]%lookup_app_Some; [by eapply C|]. apply list_lookup_singleton_Some in Hi as [_ <-]. done.
  - injection E as <- <-. by apply (Hother (MDownload None)).
  - destruct r as [[[[t z] w] h]|e]; [|done]. injection E as <- <-.
    eapply fresh_same; [exact Hf|reflexivity|..]; unfold fetched; by destruct (converts _ _ _).
  - destruct r as [[[[t z] w] h]|e]; [done|]. injection E as <- <-. by apply (Hother MDeferred).
  - injection E as E. unfold media_converted in E. destruct (converted _ c s) as [[m|] s1]; [case_bool_decide|]; injection E as <- <-; by apply (Hother MDeferred).
  - destruct (forallb _ _); [|done]. injection E as <- <-. destruct (pp_task p); [by apply (Hother MSelect)|by apply (Hother MReturned)].
  - destruct (pp_task p) as [t|]; [|done]. destruct (selectImage None late t) as [[t' [x|]]|]; [..|done]; injection E as <- <-.
    + by apply (Hother (MJoining x)).
    + by apply (Hother MSelect).
  - destruct (pp_task p) as [t|]; [|done]. destruct (ended t); [|done]. injection E as E. unfold join_thumbnail in E.
    destruct x; injection E as <- <-; by apply (Hother MReturned).
Qed.

Lemma fresh_step N ev s p s' p' : fresh N s p -> prep_step filenameForType it document streaming ev s p = Some (s', p') -> fresh N s' p'.
Proof.
  intros Hf E. pose proof (grows_prep _ _ _ _ _ _ _ _ _ E) as Hg. unfold prep_step in E. destruct ev; try (by eapply fresh_main);
    try (destruct (pp_task p) as [t|]; [|done]; destruct (task_step _ s p t) as [[s2 t2]|] eqn:Es; [|done]; injection E as <- <-; by eapply fresh_same);
    try (destruct (ann_step _ _ _ p) as [p2|] eqn:Es; [|done]; injection E as <- <-; by eapply fresh_ann_step).
  injection E as <- <-. eapply fresh_same; [exact Hf|reflexivity|done..].
Qed.

Lemma fresh_start N s wait ctx : (N <= st_next s)%nat -> fresh N s (start_prep it document wait ctx).
Proof. intros H. constructor; simpl; try done. by intros x ?%elem_of_nil. Qed.

(** An accepted announcement is the last one streamed. *)
Lemma streamed_last i s p s' p' a x : pp_anns p !! i = Some (mkAnn a (AStream x)) ->
  prep_step filenameForType it document streaming (AnnStreamed i true) s p = Some (s', p') ->
  s' = s /\ pp_streamed p' = pp_streamed p ++ [streamed filenameForType it a x].
Proof. intros Hi E. simpl in E. rewrite Hi in E. by injection E as <- <-. Qed.

Lemma streamed_kept ev s p s' p' : is_streamed ev = false ->
  prep_step filenameForType it document streaming ev s p = Some (s', p') -> pp_streamed p' = pp_streamed p.
Proof.
  intros Hev E. unfold prep_step, main_step, ann_step, fetched, media_converted, join_thumbnail, announce, deliver_stream in E.
  destruct ev; simpl in Hev, E; repeat (case_match; try discriminate); simplify_eq; done.
Qed.
End Fresh.

(** ** The invariant *)

Definition current_prep (l : lease_at) : option prep := match l with LIdle o | LOver o _ => o | LRun p => Some p end.
Definition lease_held (l : lease_at) : gmultiset nat := match l with LRun p => held p | _ => ∅ end.
Definition over (l : lease_at) : Prop := exists o v, l = LOver o v.

(** The announced media, still of the last preparation or closed for good. *)
Definition stream_ok (N : nat) (s : store) (l : lease_at) (u : stream) : Prop :=
  exists d, media_data (sm_item u) = Some d /\ between N s d /\
    ((exists p, current_prep l = Some p /\ sm_item u ∈ pp_streamed p) \/ d ∉ st_open s).

Definition ended_prep (N : nat) (y : world) (o : option prep) : Prop :=
  match o with
  | Some p => prep_ok p /\ returned p = true /\ fresh N (sw_store y) p /\ (sw_main y <> SOver -> sw_final y = pp_result p)
  | None => sw_final y = no_item
  end.

Record world_ok (F : gmultiset nat) (N : nat) (y : world) : Prop := {
  wk_frame : forall b, b ∈ F -> (b < N)%nat;
  wk_owns : owns F (item_buffers (sw_final y) ⊎ lease_held (sw_lease y)) (sw_store y);
  wk_next : (N <= st_next (sw_store y))%nat;
  wk_lease : match sw_lease y with
             | LRun p => prep_ok p /\ fresh N (sw_store y) p /\ sw_final y = no_item
             | LIdle o | LOver o _ => ended_prep N y o
             end;
  wk_verdict : forall o, sw_lease y = LOver o None -> exists p, o = Some p /\ pp_err p = None;
  wk_streams : Forall (stream_ok N (sw_store y) (sw_lease y)) (sw_streams y);
  wk_main : match sw_main y with
            | SLoop | SDeferred false => True
            | SSingle => exists o, sw_lease y = LOver o None
            | SAwait k => (exists o, sw_lease y = LOver o None) /\
                exists u, sw_streams y !! k = Some u /\ media_data (sm_item u) = media_data (sw_final y)
            | SDeferred true => over (sw_lease y)
            | SOver => over (sw_lease y) /\ forallb sm_done (sw_streams y) = true /\ sw_final y = no_item
            end;
  wk_released : forall k u, sw_streams y !! k = Some u -> sm_released u = true -> sm_done u = true \/ sw_main y = SAwait k;
  wk_reads : reads_open (sw_reads y);
}.

Lemma choose_spec media us c0 i us' c : choose media us c0 i = (us', c) ->
  length us' = length us /\
  (forall k u, us' !! k = Some u -> exists u0, us !! k = Some u0 /\ sm_item u = sm_item u0 /\ sm_done u = sm_done u0 /\ sm_released u = sm_released u0) /\
  (forall n, c = Some n -> c0 = Some n \/ exists k u, n = (i + k)%nat /\ us' !! k = Some u /\ media_data (sm_item u) = media).
Proof.
  revert c0 i us' c. induction us as [|u us IH]; intros c0 i us' c; simpl.
  { intros [= <- <-]. split; [done|]. split; [done|]. intros n Hn. by left. }
  case_bool_decide as Hm.
  - destruct (choose media us (Some i) (S i)) as [us1 c1] eqn:E. intros [= <- <-]. destruct (IH _ _ _ _ E) as (L & P & G).
    split; [simpl; by f_equal|]. split.
    + intros [|k] v; simpl; [intros [= <-]; by exists u|apply P].
    + intros n Hn. destruct (G n Hn) as [[= <-]|(k & v & -> & ? & ?)]; right; [exists 0%nat, u; split; [lia|done]|].
      exists (S k), v. split; [lia|done].
  - destruct (choose media us c0 (S i)) as [us1 c1] eqn:E. intros [= <- <-]. destruct (IH _ _ _ _ E) as (L & P & G).
    split; [simpl; by f_equal|]. split.
    + intros [|k] v; simpl; [intros [= <-]; by exists u|apply P].
    + intros n Hn. destruct (G n Hn) as [?|(k & v & -> & ? & ?)]; [by left|]. right. exists (S k), v. split; [lia|done].
Qed.

Lemma stream_ok_item N s l u u' : sm_item u' = sm_item u -> stream_ok N s l u -> stream_ok N s l u'.
Proof. unfold stream_ok. by intros ->. Qed.

Lemma streams_ok_items N s l us us' : Forall (stream_ok N s l) us ->
  (forall k u, us' !! k = Some u -> exists u0, us !! k = Some u0 /\ sm_item u = sm_item u0) -> Forall (stream_ok N s l) us'.
Proof.
  intros H Hi. apply Forall_lookup_2. intros k u Hk. destruct (Hi k u Hk) as (u0 & H0 & E).
  eapply stream_ok_item; [exact E|]. by apply (Forall_lookup_1 _ _ _ _ H H0).
Qed.

Lemma held_returned p : returned p = true -> held p = item_buffers (pp_result p).
Proof. intros Hr. unfold held, main_held. rewrite Hr. unfold returned in Hr. destruct (pp_at p); try done. clear. multiset_solver. Qed.

Lemma prep_ready p : prep_ok p -> returned p = true -> pp_err p = None -> item_ready (pp_result p).
Proof. intros Hok Hr He. pose proof (ok_main p Hok) as Hm. unfold returned in Hr. destruct (pp_at p); try done. by apply Hm. Qed.

Lemma prep_thumbnail p x : prep_ok p -> returned p = true -> x ∈ pp_streamed p -> it_Thumbnail x = it_Thumbnail (pp_result p).
Proof.
  intros Hok Hr Hx. pose proof (ok_streamed p Hok x Hx) as Hc. pose proof (ok_join p Hok) as Hj. unfold returned in Hr.
  destruct (pp_at p); try done. destruct Hj as [Hj _]. unfold chosen in *. destruct (pp_task p); congruence.
Qed.

(** The buffers that the prepared item names are open until it is cleaned up. *)
Lemma final_open F N y o : world_ok F N y -> sw_lease y = LOver o None -> sw_main y <> SOver ->
  exists p, o = Some p /\ sw_final y = pp_result p /\ prep_ok p /\ returned p = true /\ item_ready (sw_final y).
Proof.
  intros Hok Hl Hm. destruct (wk_verdict F N y Hok o Hl) as (p & -> & He). pose proof (wk_lease F N y Hok) as Hp. rewrite Hl in Hp.
  destruct Hp as (H1 & H2 & _ & H3). exists p. rewrite (H3 Hm). split_and!; try done. by apply prep_ready.
Qed.

Section Invariant.
Context (filenameForType : string -> string -> string) (thumbnailWait : Z) (it : deliveryItem) (document : bool) (parameters : fields).
Context (F : gmultiset nat) (N : nat).
Abbreviation sstep := (step filenameForType thumbnailWait it document parameters).

Lemma begin_ok ctx y o : world_ok F N y -> sw_lease y = LIdle o ->
  let '(final, s) := cleanup (sw_final y) (sw_store y) in
  world_ok F N (mkWorld s final (LRun (start_prep it document thumbnailWait ctx)) (sw_streams y) (sw_main y) (sw_reads y)).
Proof.
  intros [A B C D E G H I J] Hl. pose proof (grows_cleanup (sw_final y) (sw_store y)) as Hg.
  pose proof (cleanup_updates (sw_final y) (sw_store y) F) as Hc. rewrite Hl in *. simpl in B.
  rewrite (right_id_L ∅ (⊎)) in B. specialize (Hc B).
  destruct (cleanup (sw_final y) (sw_store y)) as [final s] eqn:Ec. unfold cleanup in Ec. injection Ec as <- _. cbn [snd] in *.
  destruct (start_prep_ok it document thumbnailWait ctx) as [Hs Hh]. destruct Hg as [Hg1 Hg2]. constructor; cbn -[start_prep]; try done.
  - eapply owns_eq; [exact Hc|]. rewrite Hh. clear. unfold item_buffers. simpl. multiset_solver.
  - lia.
  - split_and!; [done|apply fresh_start; lia|done].
  - eapply Forall_impl; [exact G|]. intros u (d & Hd & Hb & Hor). exists d. split; [done|]. split; [unfold between in *; lia|]. right.
    intros Hin. pose proof (proj1 Hc d) as Hm. rewrite bool_decide_eq_true_2 in Hm by done.
    rewrite (right_id_L ∅ (⊎)) in Hm. assert (d ∈ F) as HF by (apply elem_of_multiplicity; lia). apply A in HF. destruct Hb. lia.
  - destruct (sw_main y) as [| |k|[]|]; try done; [by destruct H as [? ?]|by destruct H as [[? ?] _]|by destruct H as (? & ? & ?)|by destruct H as [(? & ? & ?) _]].
Qed.

Lemma lease_grow_ok s p p' y lst : world_ok F N y -> sw_lease y = LRun p -> prep_ok p' -> fresh N s p' ->
  owns F (item_buffers (sw_final y) ⊎ held p') s -> grows (sw_store y) s ->
  (forall x, x ∈ pp_streamed p -> x ∈ pp_streamed p') ->
  Forall (fun u => exists d, media_data (sm_item u) = Some d /\ between N s d /\ sm_item u ∈ pp_streamed p') lst ->
  (lst = [] \/ sw_main y = SLoop) -> Forall (fun u => sm_released u = false) lst ->
  world_ok F N (mkWorld s (sw_final y) (LRun p') (sw_streams y ++ lst) (sw_main y) (sw_reads y)).
Proof.
  intros [A B C D E G H I J] Hl Hp Hf Ho Hg Hs Hlst Hloop Hrel. rewrite Hl in *. destruct D as (_ & _ & D). pose proof Hg as [Hg1 Hg2].
  constructor; simpl; try done.
  - lia.
  - apply Forall_app. split.
    + eapply Forall_impl; [exact G|]. intros u (d & Hd & Hb & Hor). exists d. split; [done|]. split; [by eapply between_grows|].
      destruct Hor as [(q & [= <-] & Hq)|Hc]; [left; exists p'; split; [done|by apply Hs]|right; apply Hg2; [by destruct Hb|done]].
    + eapply Forall_impl; [exact Hlst|]. intros u (d & Hd & Hb & Hin). exists d. split; [done|]. split; [done|]. left. by exists p'.
  - destruct (sw_main y) as [| |k|[]|]; try done; [by destruct H as [? ?]|by destruct H as [[? ?] _]|by destruct H as (? & ? & ?)|by destruct H as [(? & ? & ?) _]].
  - intros k u Hk Hr. apply lookup_app_Some in Hk as [Hk|[_ Hk]]; [by eapply I|].
    apply (Forall_lookup_1 _ _ _ _ Hrel) in Hk. congruence.
Qed.

Lemma lease_end_ok p l y final : world_ok F N y -> sw_main y <> SOver ->
  (sw_lease y = LRun p /\ returned p = true /\ final = pp_result p /\ l = LIdle (Some p) \/
   exists o v, sw_lease y = LIdle o /\ final = sw_final y /\ l = LOver o v /\ (v = None -> exists p, o = Some p /\ pp_err p = None)) ->
  world_ok F N (mkWorld (sw_store y) final l (sw_streams y) (sw_main y) (sw_reads y)).
Proof.
  intros [A B C D E G H I J] Hm [(Hl & Hr & -> & ->)|(o & v & Hl & -> & -> & Hv)]; rewrite Hl in *.
  - destruct D as (D1 & D2 & D3). constructor; simpl; try done.
    + eapply owns_eq; [exact B|]. simpl. rewrite (held_returned p Hr), D3. clear. unfold item_buffers. simpl. multiset_solver.
    + destruct (sw_main y) as [| |k|[]|]; try done; [by destruct H as [? ?]|by destruct H as [[? ?] _]|by destruct H as (? & ? & ?)].
  - constructor; simpl; try done.
    + intros o' [= <- ->]. by apply Hv.
    + destruct (sw_main y) as [| |k|[]|]; try done; [by destruct H as [? ?]|by destruct H as [[? ?] _]|by eexists _, _].
Qed.

Lemma main_ok m us y : world_ok F N y ->
  (forall k u, us !! k = Some u -> exists u0, sw_streams y !! k = Some u0 /\ sm_item u = sm_item u0) -> sw_main y <> SOver -> m <> SOver ->
  match m with
  | SLoop | SDeferred false => True
  | SSingle => exists o, sw_lease y = LOver o None
  | SAwait k => (exists o, sw_lease y = LOver o None) /\ exists u, us !! k = Some u /\ media_data (sm_item u) = media_data (sw_final y)
  | SDeferred true => over (sw_lease y)
  | SOver => False
  end -> (forall k u, us !! k = Some u -> sm_released u = true -> sm_done u = true \/ m = SAwait k) ->
  world_ok F N (mkWorld (sw_store y) (sw_final y) (sw_lease y) us m (sw_reads y)).
Proof.
  intros [A B C D E G H I J] Hus Hm Hm' Hmain Hrel. constructor; simpl; try done.
  - destruct (sw_lease y) as [[p|]|p|[p|] v]; simpl in *; naive_solver.
  - by eapply streams_ok_items.
  - by destruct m as [| | |[]|].
Qed.

Lemma lease_step_ok ev p y s p' : world_ok F N y -> sw_lease y = LRun p -> lease_step filenameForType it document ev (sw_store y) p = Some (s, p') ->
  prep_ok p' /\ fresh N s p' /\ owns F (item_buffers (sw_final y) ⊎ held p') s /\ grows (sw_store y) s.
Proof.
  intros Hok Hl E. pose proof (wk_lease F N y Hok) as D. rewrite Hl in D. destruct D as (D1 & D2 & D3).
  pose proof (wk_owns F N y Hok) as B. rewrite Hl, D3 in *. simpl in B.
  replace (item_buffers no_item) with (∅ : gmultiset nat) in * by (unfold item_buffers; simpl; multiset_solver).
  rewrite (left_id_L ∅ (⊎)) in *.
  destruct (prep_step_ok _ _ _ _ ev (sw_store y) p s p' F D1 B E) as [H1 H2].
  split_and!; [done|by eapply fresh_step|done|by eapply grows_prep].
Qed.

Lemma launch_ok i p a x y s p' : world_ok F N y -> sw_lease y = LRun p -> sw_main y = SLoop -> pp_anns p !! i = Some (mkAnn a (AStream x)) ->
  lease_step filenameForType it document (AnnStreamed i true) (sw_store y) p = Some (s, p') ->
  world_ok F N (mkWorld s (sw_final y) (LRun p') (sw_streams y ++ [mkStreamed (streamed filenameForType it a x) false false false]) SLoop (sw_reads y)).
Proof.
  intros Hok Hl Hm Hi E. destruct (lease_step_ok _ _ _ _ _ Hok Hl E) as (H1 & H2 & H3 & H4).
  destruct (streamed_last _ _ _ _ _ _ _ _ _ _ _ Hi E) as [-> Hs]. rewrite <- Hm.
  eapply lease_grow_ok; try done.
  - intros z Hz. rewrite Hs. apply elem_of_app. by left.
  - repeat constructor. exists (dl_Data a). split; [done|]. split.
    + pose proof (wk_lease F N y Hok) as D. rewrite Hl in D. destruct D as (_ & D & _). exact (fr_anns N _ p D i _ Hi).
    + rewrite Hs. apply elem_of_app. right. left.
  - by right.
  - repeat constructor.
Qed.

Lemma insert_item (us : list stream) k u0 (g : stream -> stream) : us !! k = Some u0 -> sm_item (g u0) = sm_item u0 ->
  forall j u, <[k := g u0]> us !! j = Some u -> exists u1, us !! j = Some u1 /\ sm_item u = sm_item u1.
Proof.
  intros Hk Hg j u Hj. destruct (decide (j = k)) as [->|Hn]; [|rewrite list_lookup_insert_ne in Hj by done; eauto].
  rewrite list_lookup_insert_eq in Hj by (by eapply lookup_lt_Some). injection Hj as <-. by exists u0.
Qed.

Lemma stream_done_ok k u y : world_ok F N y -> sw_streams y !! k = Some u -> world_ok F N (set_streams (<[k := done_stream u]> (sw_streams y)) y).
Proof.
  intros Hok Hk. pose proof (lookup_lt_Some _ _ _ Hk) as Hlt. pose proof (insert_item _ k u done_stream Hk eq_refl) as Hit.
  assert (forall j v, <[k := done_stream u]> (sw_streams y) !! j = Some v -> sm_released v = true -> sm_done v = true \/ sw_main y = SAwait j) as Hr.
  { intros j v Hj Hrel. destruct (decide (j = k)) as [->|Hn].
    - rewrite list_lookup_insert_eq in Hj by done. injection Hj as <-. by left.
    - rewrite list_lookup_insert_ne in Hj by done. by eapply (wk_released F N y Hok). }
  destruct Hok as [A B C D E G H I J]. constructor; simpl; try done.
  - by eapply streams_ok_items.
  - destruct (sw_main y) as [| |j|[]|]; try done.
    + destruct H as (H1 & u0 & H2 & H3). split; [done|]. destruct (decide (j = k)) as [->|Hn].
      * exists (done_stream u). split; [by apply list_lookup_insert_eq|]. rewrite H2 in Hk. by injection Hk as <-.
      * exists u0. by rewrite list_lookup_insert_ne.
    + destruct H as (H1 & H2 & H3). split_and!; try done. rewrite forallb_Forall in *. by apply Forall_insert.
Qed.

Lemma finished_ok commit y o us current : world_ok F N y -> sw_lease y = LOver o None -> sw_main y = SLoop ->
  choose (media_data (sw_final y)) (sw_streams y) None 0 = (us, current) ->
  match current with
  | None => world_ok F N (set_main SSingle (set_streams us y))
  | Some k =>
      match commit : option goerr with
      | Some _ => world_ok F N (set_main (SDeferred true) (set_streams us y))
      | None => world_ok F N (set_main (SAwait k) (set_streams (alter release_stream k us) y))
      end
  end.
Proof.
  intros Hok Hl Hm Hc. destruct (choose_spec _ _ _ _ _ _ Hc) as (L & P & G).
  assert (forall k u, us !! k = Some u -> sm_released u = true -> sm_done u = true) as Hrel.
  { intros k u Hk Hr. destruct (P k u Hk) as (u0 & H0 & _ & Ed & Er). rewrite Ed. rewrite Er in Hr.
    destruct (wk_released F N y Hok k u0 H0 Hr) as [|H1]; [done|]. by rewrite Hm in H1. }
  assert (forall k u, us !! k = Some u -> exists u0, sw_streams y !! k = Some u0 /\ sm_item u = sm_item u0) as Hit.
  { intros k u Hk. destruct (P k u Hk) as (u0 & ? & ? & _). eauto. }
  assert (sw_main y <> SOver) as Hno by (by rewrite Hm).
  destruct current as [k|]; [destruct commit as [e|]|].
  - apply (main_ok _ _ y); try done; [by eexists _, _|]. intros j u Hj Hr. left. by eapply Hrel.
  - destruct (G k eq_refl) as [?|(k' & u & -> & Hk & Hd)]; [done|]. simpl.
    assert (forall j v, alter release_stream k' us !! j = Some v -> (j <> k' /\ us !! j = Some v) \/ (j = k' /\ v = release_stream u)) as Ha.
    { intros j v Hj. destruct (decide (j = k')) as [->|Hn]; [|left; by rewrite list_lookup_alter_ne in Hj].
      rewrite list_lookup_alter_eq, Hk in Hj. right. by injection Hj as <-. }
    apply (main_ok _ _ y); try done.
    + intros j v Hj. destruct (Ha j v Hj) as [[_ Hj']|[-> ->]]; [by apply Hit|]. by apply (Hit k' u).
    + split; [by eexists|]. exists (release_stream u). split; [|done]. cbn [set_streams sw_streams]. by rewrite list_lookup_alter_eq, Hk.
    + intros j v Hj Hr. destruct (Ha j v Hj) as [[_ Hj']|[-> ->]]; [left; by eapply Hrel|by right].
  - apply (main_ok _ _ y); try done; [by eexists|]. intros j u Hj Hr. left. by eapply Hrel.
Qed.

Lemma single_ok y x us m ps' : world_ok F N y -> sw_main y = SSingle -> strip (sw_final y) = Some x ->
  singleUpload x parameters document = (m, ps', us) ->
  world_ok F N (mkWorld (sw_store y) (sw_final y) (sw_lease y) (sw_streams y) (SDeferred true) (sw_reads y ++ [(us, sw_store y)])).
Proof.
  intros Hok Hm Hx Hu. pose proof (wk_main F N y Hok) as H. rewrite Hm in H. destruct H as [o Hl].
  assert (sw_main y <> SOver) as Hno by (by rewrite Hm).
  destruct (final_open F N y o Hok Hl Hno) as (p & -> & Hf & Hp & Hr & Hready).
  assert (world_ok F N (mkWorld (sw_store y) (sw_final y) (sw_lease y) (sw_streams y) (SDeferred true) (sw_reads y))) as [A B C D E G H I J].
  { apply (main_ok _ _ y); try done; [by eauto|by eexists _, _|]. intros k u Hk Hrel. destruct (wk_released F N y Hok k u Hk Hrel) as [|H1]; [by left|].
    by rewrite Hm in H1. }
  constructor; try done. simpl. intros us' s u [Hin|[= -> ->]%list_elem_of_singleton]%elem_of_app Hel; [by eapply J|].
  eapply (ready_open F _ _ (sw_final y) x u (wk_owns F N y Hok)); [|done|done|].
  - intros b Hb. apply gmultiset_elem_of_disj_union. by left.
  - apply (singleUpload_from x parameters document). by rewrite Hu.
Qed.

Lemma deferred_ok prepared y : world_ok F N y -> sw_main y = SDeferred prepared -> forallb sm_done (sw_streams y) = true -> over (sw_lease y) ->
  let '(final, s) := cleanup (sw_final y) (sw_store y) in
  world_ok F N (mkWorld s final (sw_lease y) (sw_streams y) SOver (sw_reads y)).
Proof.
  intros [A B C D E G H I J] Hm Hd (o & v & Hl). pose proof (grows_cleanup (sw_final y) (sw_store y)) as Hg.
  rewrite Hl in *. simpl in B. rewrite (right_id_L ∅ (⊎)) in B. pose proof (cleanup_updates (sw_final y) (sw_store y) F B) as Hc.
  destruct (cleanup (sw_final y) (sw_store y)) as [final s] eqn:Ec. unfold cleanup in Ec. injection Ec as <- _. cbn [snd] in *.
  pose proof Hg as [Hg1 Hg2]. constructor; simpl; try done.
  - lia.
  - destruct o as [p|]; simpl in *; [|done]. destruct D as (D1 & D2 & D3 & D4). split_and!; try done. eapply fresh_same; [exact D3|exact Hg|done..].
  - eapply Forall_impl; [exact G|]. intros u (d & Hd' & Hb & Hor). exists d. split; [done|]. split; [by eapply between_grows|].
    destruct Hor as [Hp|Hn]; [by left|right]. apply Hg2; [by destruct Hb|done].
  - split; [by eexists _, _|done].
  - intros k u Hk Hr. left. rewrite forallb_Forall in Hd. by apply (Forall_lookup_1 _ _ _ _ Hd Hk).
Qed.

Lemma stream_step_ok ev y y' : world_ok F N y -> sstep ev y = Some y' -> world_ok F N y'.
Proof.
  intros Hok E.
  assert (forall l, match l with LIdle _ | LRun _ => sw_lease y = l -> sw_main y <> SOver | _ => True end) as Hno.
  { intros l. pose proof (wk_main F N y Hok) as H. destruct l; try done; intros Hl Hm; rewrite Hm, Hl in H; by destruct H as [(? & ? & ?) _]. }
  assert (forall m, (forall k, sw_main y <> SAwait k) -> sw_main y <> SOver -> m <> SOver ->
      match m with SDeferred false => True | SDeferred true => over (sw_lease y) | _ => False end -> world_ok F N (set_main m y)) as Hset.
  { intros m Hk Hs Hs' Hmm. apply (main_ok _ _ y); try done; [eauto|by destruct m as [| | |[]|]|]. intros k u Hu Hr.
    destruct (wk_released F N y Hok k u Hu Hr) as [|H1]; [by left|by apply Hk in H1]. }
  destruct ev as [ctx|ev| |verdict|i|k|k failed|commit| | |]; simpl in E.
  - destruct (sw_lease y) as [o| |] eqn:Hl; try done. pose proof (begin_ok ctx y o Hok Hl) as H. unfold cleanup in *. by injection E as <-.
  - destruct (sw_lease y) as [|p|] eqn:Hl; try done. destruct (is_streamed ev) eqn:Hev; [done|].
    destruct (lease_step _ _ _ _ _ _) as [[s p']|] eqn:Es; [|done]. injection E as <-.
    destruct (lease_step_ok _ _ _ _ _ Hok Hl Es) as (H1 & H2 & H3 & H4). rewrite <- (app_nil_r (sw_streams y)).
    eapply lease_grow_ok; try done; [|by left]. by rewrite (streamed_kept _ _ _ _ _ _ _ _ _ Hev Es).
  - destruct (sw_lease y) as [|p|] eqn:Hl; try done. destruct (returned p) eqn:Hr; [|done]. injection E as <-.
    eapply lease_end_ok; try done; [by apply (Hno (LRun p))|]. left. by split_and!.
  - destruct (sw_lease y) as [o| |] eqn:Hl; try done.
    assert (forall v, (v = None -> exists p, o = Some p /\ pp_err p = None) -> world_ok F N (set_lease (LOver o v) y)) as Hv.
    { intros v Hv. apply (lease_end_ok (start_prep it document thumbnailWait None)); try done; [by apply (Hno (LIdle o))|]. right. by exists o, v. }
    destruct verdict as [e|]; [injection E as <-; by apply Hv|]. destruct o as [p|]; [|done]. destruct (pp_err p) eqn:He; [done|].
    injection E as <-. apply Hv. intros _. by exists p.
  - destruct (sw_lease y) as [|p|] eqn:Hl; try done. destruct (sw_main y) eqn:Hm; try done.
    destruct (pp_anns p !! i) as [[a [|x|]]|] eqn:Hi; try done. destruct (lease_step _ _ _ _ _ _) as [[s p']|] eqn:Es; [|done].
    injection E as <-. by eapply launch_ok.
  - destruct (sw_streams y !! k) as [u|] eqn:Hk; [|by destruct (sw_lease y)]. replace y' with (set_streams (<[k := done_stream u]> (sw_streams y)) y); [by apply stream_done_ok|].
    destruct (sw_lease y); by injection E.
  - assert (sw_main y = SLoop /\ (y' = y \/ y' = set_main (SDeferred false) y)) as [Hm [->| ->]]; [|done|].
    { destruct (sw_lease y), (sw_main y); try done; (split; [done|]); destruct (sw_streams y !! k) as [u|]; try done;
        destruct (sm_done u); try done; destruct (_ || _); injection E as <-; auto. }
    apply Hset; by rewrite ?Hm.
  - destruct (sw_lease y) as [| |o v] eqn:Hl; try done. destruct (sw_main y) eqn:Hm; try done. destruct v as [e|].
    + injection E as <-. apply Hset; rewrite ?Hm, ?Hl; try done. by eexists _, _.
    + destruct (choose _ _ None 0) as [us current] eqn:Ec. pose proof (finished_ok commit y o us current Hok Hl Hm Ec) as H.
      destruct current as [k|]; [destruct commit|]; by injection E as <-.
  - assert (sw_main y = SSingle) as Hm by (by destruct (sw_lease y), (sw_main y)).
    destruct (strip (sw_final y)) as [x|] eqn:Hx; [|by destruct (sw_lease y), (sw_main y)].
    destruct (singleUpload x parameters document) as [[m ps'] us] eqn:Hu. pose proof (single_ok y x us m ps' Hok Hm Hx Hu) as H.
    rewrite Hm in E. destruct (sw_lease y); by injection E as <-.
  - destruct (sw_main y) as [| |k| |] eqn:Hm; try (by destruct (sw_lease y)).
    assert (exists u, sw_streams y !! k = Some u /\ sm_done u = true /\ y' = set_main (SDeferred true) y) as (u & Hk & Hd & ->).
    { destruct (sw_lease y), (sw_streams y !! k) as [u|]; try done; destruct (sm_done u) eqn:?; try done; injection E as <-; eauto. }
    pose proof (wk_main F N y Hok) as H. rewrite Hm in H. destruct H as [[o Hl] _].
    apply (main_ok _ _ y); try done; [eauto|by rewrite Hm|by eexists _, _|]. intros j v Hj Hr.
    destruct (wk_released F N y Hok j v Hj Hr) as [|H1]; [by left|]. left. rewrite Hm in H1. injection H1 as <-. by rewrite Hk in Hj; injection Hj as <-.
  - destruct (sw_main y) as [| | |prepared|] eqn:Hm; try (by destruct (sw_lease y)).
    assert (forallb sm_done (sw_streams y) = true /\ over (sw_lease y) /\
      y' = mkWorld (cleanup (sw_final y) (sw_store y)).2 (cleanup (sw_final y) (sw_store y)).1 (sw_lease y) (sw_streams y) SOver (sw_reads y)) as (Hd & Hov & ->).
    { pose proof (wk_main F N y Hok) as H. rewrite Hm in H.
      destruct (forallb sm_done (sw_streams y)); [|by destruct (sw_lease y)]. destruct prepared; simpl in *.
      - split_and!; try done. destruct (sw_lease y); injection E as <-; done.
      - destruct (sw_lease y) as [| |o v]; try done. injection E as <-. split_and!; try done. by eexists _, _. }
    exact (deferred_ok prepared y Hok Hm Hd Hov).
Qed.
End Invariant.

Section Runs.
Context (filenameForType : string -> string -> string) (thumbnailWait : Z) (it : deliveryItem) (document : bool) (parameters : fields).

Lemma stream_run_ok F N evs y y' : world_ok F N y -> run filenameForType thumbnailWait it document parameters evs y = Some y' -> world_ok F N y'.
Proof.
  unfold run. revert y. induction evs as [|ev evs IH]; intros y Hok E; simpl in E; [by injection E as <-|].
  destruct (step filenameForType thumbnailWait it document parameters ev y) as [y1|] eqn:Es.
  - eapply IH; [|exact E]. by eapply stream_step_ok.
  - exfalso. clear -E. induction evs; simpl in *; [done|auto].
Qed.

Lemma start_ok s : st_ok s -> world_ok (buffers (elements (st_open s))) (st_next s) (start s).
Proof.
  intros Hs. pose proof (owns_all s Hs) as Hown. constructor; simpl; try done.
  - intros b Hb. apply Hs. unfold buffers in Hb. by apply elem_of_list_to_set_disj, elem_of_elements in Hb.
  - intros ? ? ? []%elem_of_nil.
Qed.

(** What the released upload reads. *)
Lemma released_open F N y k u x w : world_ok F N y -> sw_main y = SAwait k -> sw_streams y !! k = Some u ->
  strip (sm_item u) = Some x -> from_item x w -> pr_Data (up_Prepared w) ∈ st_open (sw_store y).
Proof.
  intros Hok Hm Hk Hx Hw. pose proof (wk_main F N y Hok) as H. rewrite Hm in H. destruct H as ([o Hl] & u' & Hk' & Hd).
  rewrite Hk in Hk'. injection Hk' as <-.
  destruct (final_open F N y o Hok Hl) as (p & -> & Hf & Hp & Hr & (m & Hfm & Hmd) & Hth); [by rewrite Hm|].
  assert (forall b, b ∈ item_buffers (sw_final y) -> b ∈ st_open (sw_store y)) as Hopen.
  { intros b Hb. eapply owned_open; [apply (wk_owns F N y Hok)|]. apply gmultiset_elem_of_disj_union. by left. }
  unfold media_data in Hd. rewrite Hfm in Hd. unfold strip in Hx. destruct (it_Media (sm_item u)) as [mu|] eqn:Hmu; [|done].
  injection Hx as <-. injection Hd as Hd. destruct Hw as [->|Hw].
  - simpl. change (pr_Data (ig_Prepared mu)) with (ig_Data mu). rewrite Hd. auto.
  - simpl in Hw. apply fmap_Some in Hw as (t & Ht & ->). apply Hopen, Hth. rewrite <- Ht, Hf. symmetry.
    apply (prep_thumbnail p (sm_item u) Hp Hr).
    destruct (Forall_lookup_1 _ _ _ _ (wk_streams F N y Hok) Hk) as (d & Hmd' & _ & [(q & Hq & Hin)|Hcl]).
    + rewrite Hl in Hq. simpl in Hq. by injection Hq as <-.
    + exfalso. apply Hcl. unfold media_data in Hmd'. rewrite Hmu in Hmd'. injection Hmd' as <-. rewrite Hd. auto.
Qed.
End Runs.

(** C12. The buffers of a streamed delivery, whatever the transfers, the lease, the
    uploads and the contexts do and in whatever order: as long as the upload
    whose final bytes were released is running, the lease is over, preparation
    has succeeded, and its media and its thumbnail are open, although failed and
    replaced transfers close theirs under the other uploads; what is sent without
    streaming is open when it is read; and when the delivery is over, every
    upload has ended, no goroutine holds the lease, and the open buffers are
    those that were open before. *)
Theorem stream_buffers filenameForType thumbnailWait it document ps evs s y :
  st_ok s -> run filenameForType thumbnailWait it document ps evs (start s) = Some y ->
  (forall k u, sw_streams y !! k = Some u -> sm_released u = true -> sm_done u = false ->
     (exists o, sw_lease y = LOver o None) /\
     forall x w, strip (sm_item u) = Some x -> from_item x w -> pr_Data (up_Prepared w) ∈ st_open (sw_store y)) /\
  reads_open (sw_reads y) /\
  (sw_main y = SOver -> forallb sm_done (sw_streams y) = true /\ over (sw_lease y) /\ st_open (sw_store y) = st_open s).
Proof.
  intros Hs E. pose proof (stream_run_ok _ _ _ _ _ _ _ _ _ _ (start_ok s Hs) E) as Hok. split_and!.
  - intros k u Hk Hr Hd. destruct (wk_released _ _ y Hok k u Hk Hr) as [|Hm]; [congruence|]. split.
    + pose proof (wk_main _ _ y Hok) as H. rewrite Hm in H. apply H.
    + intros x w Hx Hw. by eapply released_open.
  - apply (wk_reads _ _ y Hok).
  - intros Hm. pose proof (wk_main _ _ y Hok) as H. rewrite Hm in H. destruct H as (Hov & Hd & Hf). split_and!; try done.
    pose proof (wk_owns _ _ y Hok) as Hown. destruct Hov as (o & v & Hl). rewrite Hl, Hf in Hown. simpl in Hown.
    pose proof (owns_all s Hs) as H0. apply set_eq. intros b.
    assert (multiplicity b (buffers (elements (st_open s)) ⊎ (item_buffers no_item ⊎ ∅)) = multiplicity b (buffers (elements (st_open s)) ⊎ ∅)) as He
      by (f_equal; unfold item_buffers; simpl; multiset_solver).
    rewrite (proj1 Hown b), (proj1 H0 b) in He. repeat case_bool_decide; done.
Qed.

(** A transfer that is announced, fails and is repeated; the second one is the
    final media and is released. *)
Definition demo_item : deliveryItem := mkItem (mkDescriptor "a" "video" "a.mp4") "video" (Some (mkDescriptor "c" "image" "c.jpg")) None.
Definition demo_events : list event :=
  [LeaseBegin None; LeaseStep (TaskAsset true); LeaseStep Attempt; LeaseStep (Announce "video/mp4" 9); LeaseStep TaskAttempt;
   LeaseStep (TaskFetched (Ok ("image/jpeg"%string, 3))); LeaseStep (TaskConverted (CFresh "c.jpg" "image/jpeg" 2));
   LeaseStep (AnnSelecting 0 false); Launch 0; LeaseStep AttemptFailed; StreamDone 0; Received 0 false;
   LeaseStep Attempt; LeaseStep (Announce "video/mp4" 9); LeaseStep (AnnSelecting 1 false); Launch 1;
   LeaseStep (Fetched (Ok ("video/mp4"%string, 9, 2, 3))); LeaseStep Waited; LeaseStep (Selecting false); LeaseStep Joined;
   LeaseReturn; LeaseOver None; Finished None].

Definition demo_store : store := mkStore 5 {[3%nat]}.
Abbreviation demo_run evs := (run (fun n _ => n) 1 demo_item false [] evs (start demo_store)).

Lemma demo_store_ok : st_ok demo_store.
Proof. intros b Hb. cbn [st_open demo_store] in Hb. apply elem_of_singleton in Hb as ->. simpl. lia. Qed.

(** What is true of the outcome of a run, read off by evaluation. *)
Lemma run_value {A} (f : world -> A) o y a : o = Some y -> f <$> o = Some a -> f y = a.
Proof. intros -> [= <-]. done. Qed.

Definition released_video : stream :=
  mkStreamed (mkOwnedItem (Some (mkImage (mkPrepared 8 "a.mp4" "video/mp4" 9) false)) (Some (mkImage (mkPrepared 7 "c.jpg" "image/jpeg" 2) true)) "video" [] 0 0)
    false false true.

Lemma stream_buffers_witness :
  match demo_run demo_events, demo_run (demo_events ++ [StreamDone 1; AwaitDone; Deferred]) with
  | Some y, Some z => 8%nat ∈ st_open (sw_store y) /\ 7%nat ∈ st_open (sw_store y) /\ st_open (sw_store z) = st_open demo_store
  | _, _ => False
  end.
Proof.
  assert (match demo_run demo_events, demo_run (demo_events ++ [StreamDone 1; AwaitDone; Deferred]) with Some _, Some _ => true | _, _ => false end = true) as Hruns
    by (vm_compute; reflexivity).
  destruct (demo_run demo_events) as [y|] eqn:E1; [|discriminate Hruns].
  destruct (demo_run (demo_events ++ _)) as [z|] eqn:E2; [|discriminate Hruns].
  destruct (stream_buffers _ _ _ _ _ _ _ _ demo_store_ok E1) as (H1 & _ & _).
  destruct (stream_buffers _ _ _ _ _ _ _ _ demo_store_ok E2) as (_ & _ & H2).
  assert (sw_streams y !! 1%nat = Some released_video) as Hu by (apply (run_value (fun y => sw_streams y !! 1%nat) _ y _ E1); vm_compute; reflexivity).
  assert (sw_main z = SOver) as Hz by (apply (run_value sw_main _ z _ E2); vm_compute; reflexivity).
  destruct (H1 1%nat released_video Hu eq_refl eq_refl) as [_ H]. split_and!; [..|by apply H2].
  - exact (H _ (mkMedia (mkPrepared 8 "a.mp4" "video/mp4" 9) "video_file") eq_refl (or_introl eq_refl)).
  - exact (H _ (mkMedia (mkPrepared 7 "c.jpg" "image/jpeg" 2) "thumbnail_file") eq_refl (or_intror eq_refl)).
Defined.
