(* ===== verification/SpoolReader.v ===== *)
(** * spool: readers beside writers

    Models [Reader], [reader.Read] and [memoryReader.WriteTo] of
    src/internal/spool/spool.go over the buffers of Spool: any number of readers
    of one buffer, each waiting for bytes to arrive, while its writers, its
    completion, its failure and its end happen in any order.  A read of a file
    and the call that receives a slice of RAM are outside the lock, so each is
    a step of its own.

    The writers are honest about some bytes [D]: what is written at an offset is
    what [D] has there, each writer writes one piece after another and the
    second section of a [Write] follows its copy (the pool of workers of Download
    writes like that).  The buffer's own error, or that of the caller of the
    reader, is the only thing that can keep a reader from its bytes. *)
From S2P Require Import Prelude Strconv Errors Spool SpoolData.

(** ** Readers *)

Inductive readErr := RSpool (e : spoolErr) | RContext (e : goerr) | RWriter (e : goerr) | RInvalidCount | RShortWrite.

(** Where a call is: none, waiting for the buffer to change (in [Read] of [n] bytes
    or in [WriteTo]), in the read of [n] bytes of a file, before a turn of [WriteTo],
    in [Write] of its caller with a slice, or over ([WriteTo]). *)
Inductive reader_at := RIdle | RWait (n : option Z) | RFile (n : Z) | RTurn | RSink (p : bytes) | ROver (err : option readErr).

(** [start], the bytes delivered and the last result of [Read] are for the
    theorems. *)
Record reader := mkReader {
  rd_offset : Z; rd_end : Z; rd_memory : bool;
  rd_at : reader_at; rd_start : Z; rd_out : bytes; rd_last : option (Z * option readErr);
}.

Definition Reader (start end_ : Z) (b : Buffer) : reader :=
  mkReader start end_ (bool_decide (bf_file b = None) && (0 <=? bf_size b)) RIdle start [] None.

Definition returns (n : Z) (e : option readErr) (r : reader) : reader :=
  mkReader (rd_offset r) (rd_end r) (rd_memory r) RIdle (rd_start r) (rd_out r) (Some (n, e)).
Definition receives (p : bytes) (r : reader) : reader :=
  mkReader (rd_offset r + len p) (rd_end r) (rd_memory r) RIdle (rd_start r) (rd_out r ++ p) (Some (len p, None)).
Definition goes (a : reader_at) (r : reader) : reader :=
  mkReader (rd_offset r) (rd_end r) (rd_memory r) a (rd_start r) (rd_out r) (rd_last r).

(** [wait]: [None] while the bytes have not arrived; a file is read outside the lock. *)
Definition read_ready (n : Z) (b : Buffer) (r : reader) : option reader :=
  match wait_ready (rd_offset r) b with
  | None => None
  | Some (Some e) => Some (returns 0 (Some (RSpool e)) r)
  | Some None =>
      match bf_file b with
      | None => Some (receives (readLocked n (rd_offset r) b) r)
      | Some _ => Some (goes (RFile (Z.min n (bf_ready b - rd_offset r))) r)
      end
  end.

(** [Read] of [n] bytes. *)
Definition Read (n : Z) (b : Buffer) (r : reader) : reader :=
  if (0 <=? rd_end r) && (rd_end r <=? rd_offset r) then returns 0 (Some (RSpool ErrEOF)) r
  else
    let n := if 0 <=? rd_end r then Z.min n (rd_end r - rd_offset r) else n in
    if n <=? 0 then returns 0 None r else default (goes (RWait (Some n)) r) (read_ready n b r).

(** [file.ReadAt], outside the lock; the file may have been closed meanwhile, or
    the read may fail after [m] bytes. *)
Definition read_file (n : Z) (fails : option Z) (b : Buffer) (r : reader) : reader :=
  if bf_closed b then returns 0 (Some (RSpool ErrFile)) r
  else
    match fails with
    | None => receives (slice (rd_offset r) (rd_offset r + n) (contents b)) r
    | Some m =>
        let p := slice (rd_offset r) (rd_offset r + Z.max 0 (Z.min m n)) (contents b) in
        returns (len p) (Some (RSpool ErrFile)) (receives p r)
    end.

(** A turn of [WriteTo] up to the caller's [Write]; [ctxErr] is [ctx.Err()]. *)
Definition write_turn (ctxErr : option goerr) (b : Buffer) (r : reader) : Buffer * reader :=
  if (rd_end r <? 0) || (rd_offset r <? rd_end r) then
    match wait_ready (rd_offset r) b with
    | None => (b, goes (RWait None) r)
    | Some (Some ErrEOF) => (b, goes (ROver None) r)
    | Some (Some e) => (b, goes (ROver (Some (RSpool e))) r)
    | Some None =>
        match ctxErr with
        | Some e => (b, goes (ROver (Some (RContext e))) r)
        | None => let '(p, b) := pin (rd_offset r) (rd_end r) b in (b, goes (RSink p) r)
        end
    end
  else (b, goes (ROver None) r).

(** The caller's [Write] returned [n] and an error. *)
Definition write_returned (p : bytes) (n : Z) (err : option goerr) (r : reader) : reader :=
  if (n <? 0) || (len p <? n) then goes (ROver (Some RInvalidCount)) r
  else
    let r := mkReader (rd_offset r + n) (rd_end r) (rd_memory r) RTurn (rd_start r) (rd_out r ++ slice 0 n p) (rd_last r) in
    match err with
    | Some e => goes (ROver (Some (RWriter e))) r
    | None => if n <? len p then goes (ROver (Some RShortWrite)) r else r
    end.

(** ** A buffer with its writers and readers *)

Record world := mkWorld { wd_store : option Store; wd_buffer : Buffer; wd_copied : list bool; wd_readers : list reader }.

Inductive event :=
| EStore (s : option Store)
| EWriter (start end_ : Z) | EBegin (id : nat) (p : bytes) (fate : file_fate) | ECopy (k : nat) | EEnd (k : nat) (writeOK : bool)
| EComplete | EFail (e : goerr) | EClose
| EReader (start end_ : Z) | ERead (j : nat) (n : Z) | EReadFile (j : nat) (fails : option Z) | EWake (j : nat) (ctxErr : option goerr) | ECancelled (j : nat) (e : goerr)
| EWriteTo (j : nat) | ETurn (j : nat) (ctxErr : option goerr) | ESink (j : nat) (n : Z) (err : option goerr).

Definition with_buffer (b : Buffer) (s : option Store) (w : world) : world := mkWorld s b (wd_copied w) (wd_readers w).
Definition on_reader (j : nat) (f : reader -> option (Buffer * option Store * reader)) (w : world) : option world :=
  match wd_readers w !! j with
  | Some r => match f r with Some (b, s, r) => Some (mkWorld s b (wd_copied w) (<[j := r]> (wd_readers w))) | None => None end
  | None => None
  end.
Definition remove_at {A} (k : nat) (l : list A) : list A := take k l ++ drop (S k) l.

Definition step (ev : event) (w : world) : option world :=
  let b := wd_buffer w in
  let s := wd_store w in
  match ev with
  | EStore s => Some (with_buffer b s w)
  | EWriter start end_ => Some (with_buffer (Writer start end_ b).2 s w)
  | EBegin id p fate =>
      let '(x, b, s) := write_begin id p fate s b in
      Some (mkWorld s b (match x with Ok None => false :: wd_copied w | _ => wd_copied w end) (wd_readers w))
  | ECopy k =>
      match bf_pending b !! k with
      | Some x => Some (mkWorld s (write_copy x b) (<[k := true]> (wd_copied w)) (wd_readers w))
      | None => None
      end
  | EEnd k writeOK =>
      match bf_pending b !! k, wd_copied w !! k with
      | Some x, Some c =>
          if c || (pw_file x && negb writeOK) then
            let '(_, b, s) := write_end x writeOK s (remove_pending k b) in
            Some (mkWorld s b (remove_at k (wd_copied w)) (wd_readers w))
          else None
      | _, _ => None
      end
  | EComplete => Some (with_buffer (Complete b).2 s w)
  | EFail e => Some (with_buffer (Fail e b) s w)
  | EClose => let '(b, s) := Close s b in Some (with_buffer b s w)
  | EReader start end_ => Some (mkWorld s b (wd_copied w) (wd_readers w ++ [Reader start end_ b]))
  | ERead j n => on_reader j (fun r => match rd_at r with RIdle => Some (b, s, Read n b r) | _ => None end) w
  | EReadFile j fails => on_reader j (fun r => match rd_at r with RFile n => Some (b, s, read_file n fails b r) | _ => None end) w
  | EWake j ctxErr =>
      on_reader j (fun r =>
        match rd_at r, wait_ready (rd_offset r) b with
        | RWait (Some n), Some _ => match read_ready n b r with Some r => Some (b, s, r) | None => None end
        | RWait None, Some _ => let '(b, r) := write_turn ctxErr b r in Some (b, s, r)
        | _, _ => None
        end) w
  | ECancelled j e =>
      on_reader j (fun r =>
        match rd_at r with
        | RWait (Some _) => Some (b, s, returns 0 (Some (RContext e)) r)
        | RWait None => Some (b, s, goes (ROver (Some (RContext e))) r)
        | _ => None
        end) w
  | EWriteTo j => on_reader j (fun r => match rd_at r, rd_memory r with RIdle, true => Some (b, s, goes RTurn r) | _, _ => None end) w
  | ETurn j ctxErr =>
      on_reader j (fun r => match rd_at r with RTurn => let '(b, r) := write_turn ctxErr b r in Some (b, s, r) | _ => None end) w
  | ESink j n err =>
      on_reader j (fun r => match rd_at r with RSink p => let '(b, s) := unpin s b in Some (b, s, write_returned p n err r) | _ => None end) w
  end.

Fixpoint run (evs : list event) (w : world) : option world :=
  match evs with
  | [] => Some w
  | ev :: evs => match step ev w with Some w => run evs w | None => None end
  end.

(** ** Honest writers *)

Definition honest_event (D : bytes) (ev : event) (w : world) : Prop :=
  let b := wd_buffer w in
  match ev with
  | EWriter start end_ => 0 <= start /\ (bf_size b < 0 -> start = 0 /\ end_ = -1 /\ bf_regions b = [])
  | EBegin id p _ =>
      forall r, find_region id b = Some r -> p = slice (Offset r) (Offset r + len p) D /\ (id ∉ pw_region <$> bf_pending b)
  | EReader start _ => 0 <= start
  | _ => True
  end.

Fixpoint honest (D : bytes) (evs : list event) (w : world) : Prop :=
  match evs with
  | [] => True
  | ev :: evs => honest_event D ev w /\ match step ev w with Some w => honest D evs w | None => True end
  end.

Definition honest_eventb (D : bytes) (ev : event) (w : world) : bool :=
  let b := wd_buffer w in
  match ev with
  | EWriter start end_ => (0 <=? start) && ((0 <=? bf_size b) || ((start =? 0) && (end_ =? -1) && bool_decide (length (bf_regions b) = 0%nat)))
  | EBegin id p _ =>
      match find_region id b with
      | Some r => bool_decide (p = slice (Offset r) (Offset r + len p) D) && bool_decide (id ∉ pw_region <$> bf_pending b)
      | None => true
      end
  | EReader start _ => 0 <=? start
  | _ => true
  end.
Fixpoint honestb (D : bytes) (evs : list event) (w : world) : bool :=
  match evs with
  | [] => true
  | ev :: evs => honest_eventb D ev w && match step ev w with Some w => honestb D evs w | None => true end
  end.

Lemma honestb_ok D evs w : honestb D evs w = true -> honest D evs w.
Proof.
  revert w. induction evs as [|ev evs IH]; intros w; simpl; [done|]. intros [H1 H2]%andb_true_iff. split; [|destruct (step ev w); auto].
  destruct ev; simpl in *; try done; [|destruct (find_region id (wd_buffer w))|lia].
  - apply andb_true_iff in H1 as [H1 H3]. split; [lia|]. intros Hs. apply orb_true_iff in H3 as [H3|H3]; [lia|].
    apply andb_true_iff in H3 as [H3 H4]. apply bool_decide_eq_true_1 in H4. split_and!; [lia..|by apply nil_length_inv].
  - apply andb_true_iff in H1 as [H1 H3]. intros r' [= <-]. by apply bool_decide_eq_true_1 in H1, H3.
  - done.
Qed.

(** ** The bytes of [D] that a buffer holds *)

Definition agree (D c : bytes) (i : Z) : Prop := exists v, c !! Z.to_nat i = Some v /\ D !! Z.to_nat i = Some v.

Lemma slice_lookup (l : bytes) i j k : 0 <= i -> 0 <= k -> k < j - i -> slice i j l !! Z.to_nat k = l !! Z.to_nat (i + k).
Proof.
  intros Hi Hk Hj. unfold slice. rewrite lookup_take_lt by lia. rewrite lookup_drop. f_equal. lia.
Qed.

Lemma slice_agree D c off n : 0 <= off -> 0 <= n -> (forall i, off <= i < off + n -> agree D c i) ->
  slice off (off + n) c = slice off (off + n) D /\ len (slice off (off + n) c) = n.
Proof.
  intros Ho Hn Ha.
  assert (forall l : bytes, (forall i, off <= i < off + n -> exists v, l !! Z.to_nat i = Some v) -> len (slice off (off + n) l) = n) as Hlen.
  { intros l Hl. destruct (decide (n = 0)) as [->|Hz]; [unfold slice; rewrite Z.add_0_r, Z.sub_diag; done|].
    destruct (Hl (off + n - 1)) as [v Hv]; [lia|]. apply lookup_lt_Some in Hv. rewrite len_slice; unfold len; lia. }
  assert (len (slice off (off + n) c) = n) as L1 by (apply Hlen; intros i Hi; destruct (Ha i Hi) as (v & ? & ?); eauto).
  assert (len (slice off (off + n) D) = n) as L2 by (apply Hlen; intros i Hi; destruct (Ha i Hi) as (v & ? & ?); eauto).
  split; [|done]. apply list_eq_same_length with (n := Z.to_nat n); [unfold len in *; lia..|].
  intros k x y Hk Hx Hy. replace k with (Z.to_nat (Z.of_nat k)) in Hx, Hy by lia.
  rewrite slice_lookup in Hx, Hy by lia. destruct (Ha (off + Z.of_nat k)) as (v & ? & ?); [lia|]. congruence.
Qed.

Lemma slice_slice (D : bytes) off n m : 0 <= off -> 0 <= m <= n -> len (slice off (off + n) D) = n ->
  slice 0 m (slice off (off + n) D) = slice off (off + m) D.
Proof.
  intros Ho Hm Hl. unfold slice. rewrite drop_0. rewrite take_take. f_equal. lia.
Qed.

Lemma slice_extend (D : bytes) i j k : 0 <= i -> i <= j -> j <= k -> slice i j D ++ slice j k D = slice i k D.
Proof.
  intros Hi Hj Hk. unfold slice. replace (drop (Z.to_nat j) D) with (drop (Z.to_nat (j - i)) (drop (Z.to_nat i) D)) by (rewrite drop_drop; f_equal; lia).
  rewrite take_take_drop. f_equal. lia.
Qed.

(** A slice of [D] that has been written. *)
Lemma honest_agree D c off (p : bytes) i : 0 <= off -> p = slice off (off + len p) D -> off <= i < off + len p ->
  c !! Z.to_nat i = p !! Z.to_nat (i - off) -> agree D c i.
Proof.
  intros Ho Hp Hi Hc. assert (is_Some (p !! Z.to_nat (i - off))) as [v Hv] by (apply lookup_lt_is_Some; unfold len in *; lia).
  exists v. split; [congruence|]. rewrite Hp in Hv. rewrite slice_lookup in Hv by lia. rewrite <- Hv. do 2 f_equal. lia.
Qed.

(** ** The invariant of the buffer *)

(** A buffer of known size with its writes in flight. *)
Record ranged (D : bytes) (b : Buffer) (copied : list bool) : Prop := {
  rn_size : 0 <= bf_size b;
  rn_regions : forall r, r ∈ bf_regions b -> 0 <= rg_start r /\ 0 <= rg_written r /\ (0 < rg_written r -> Offset r <= bf_size b) /\
    (bf_closed b = false -> forall i, covers r i -> agree D (contents b) i);
  rn_ids : NoDup (rg_id <$> bf_regions b) /\ forall r, r ∈ bf_regions b -> (rg_id r < bf_next b)%nat;
  rn_pending : forall k x, bf_pending b !! k = Some x ->
    (exists r, r ∈ bf_regions b /\ rg_id r = pw_region x /\ Offset r = pw_offset x) /\
    pw_data x = slice (pw_offset x) (pw_offset x + len (pw_data x)) D /\ 0 <= pw_offset x /\ pw_offset x + len (pw_data x) <= bf_size b /\
    (bf_closed b = false -> pw_file x = bool_decide (is_Some (bf_file b))) /\
    (copied !! k = Some true -> bf_closed b = false -> forall i, pw_offset x <= i < pw_offset x + len (pw_data x) -> agree D (contents b) i);
  rn_one : NoDup (pw_region <$> bf_pending b);
  rn_copied : length copied = length (bf_pending b);
  rn_covered : covered b;
  rn_done : bf_complete b = true -> bf_ready b = bf_size b;
}.

(** A growing buffer. *)
Record growing_ok (D : bytes) (b : Buffer) (copied : list bool) : Prop := {
  gk_size : bf_size b < 0;
  gk_pending : bf_pending b = [] /\ copied = [];
  gk_complete : bf_complete b = false;
  gk_contents : bf_closed b = false -> contents b `prefix_of` D /\ bf_ready b <= len (contents b);
  gk_growing : bf_err b = None ->
    growing (contents b) b /\ bf_next b = 1%nat \/
    (bf_regions b = [] /\ contents b = [] /\ bf_ready b = 0 /\ bf_next b = 0%nat /\ bf_cap b = bf_reserved b /\ 0 <= bf_cap b /\ bf_closed b = false);
}.

Definition buffer_ok (D : bytes) (b : Buffer) (copied : list bool) : Prop :=
  (ranged D b copied \/ growing_ok D b copied) /\ (bf_closed b = true -> is_Some (bf_err b)) /\ bf_err b <> Some ErrEOF /\ 0 <= bf_ready b.

(** What a change of the buffer keeps for its readers. *)
Definition stays (b b' : Buffer) : Prop :=
  bf_ready b <= bf_ready b' /\ (bf_complete b = true -> bf_complete b' = true /\ bf_size b' = bf_size b) /\
  (0 <= bf_size b -> 0 <= bf_size b' /\ (bf_file b = None -> bf_file b' = None)) /\ (is_Some (bf_file b) -> is_Some (bf_file b')).

Lemma stays_same b b' : bf_ready b' = bf_ready b -> bf_complete b' = bf_complete b -> bf_size b' = bf_size b -> bf_file b' = bf_file b -> stays b b'.
Proof. intros Hr Hc Hs Hf. unfold stays. rewrite Hr, Hc, Hs, Hf. split_and!; try done; lia. Qed.

Lemma stays_trans b1 b2 b3 : stays b1 b2 -> stays b2 b3 -> stays b1 b3.
Proof.
  intros (A1 & A2 & A3 & A4) (B1 & B2 & B3 & B4). split; [lia|split; [|split; [|by auto]]].
  - intros H. destruct (A2 H) as [H1 E1]. destruct (B2 H1) as [H2 E2]. by rewrite E2.
  - intros H. destruct (A3 H) as [H1 E1]. destruct (B3 H1) as [H2 E2]. auto.
Qed.

(** The ready prefix of an open buffer is that of [D]. *)
Lemma shown D b copied i : buffer_ok D b copied -> bf_closed b = false -> 0 <= i < bf_ready b -> agree D (contents b) i.
Proof.
  intros [[H|H] _] Hc Hi.
  - destruct (rn_covered D b copied H i Hi) as (r & Hr & Hcov). by apply (rn_regions D b copied H r Hr).
  - destruct (gk_contents D b copied H Hc) as [Hp Hl]. assert (is_Some (contents b !! Z.to_nat i)) as [v Hv].
    { apply lookup_lt_is_Some. unfold len in Hl. lia. }
    exists v. split; [done|]. by eapply prefix_lookup_Some.
Qed.

(** Fields that only the accounting reads. *)
Lemma ranged_same D b b' copied : ranged D b copied -> bf_size b' = bf_size b -> bf_regions b' = bf_regions b -> bf_next b' = bf_next b ->
  bf_pending b' = bf_pending b -> bf_ready b' = bf_ready b -> bf_file b' = bf_file b -> (bf_closed b' = false -> contents b' = contents b /\ bf_closed b = false) ->
  (bf_complete b' = true -> bf_complete b = true \/ bf_ready b = bf_size b) -> ranged D b' copied.
Proof.
  intros [A B C E G H I J] E1 E2 E3 E4 E5 E6 E7 E8. constructor; rewrite ?E1, ?E2, ?E3, ?E4, ?E5; try done.
  - intros r Hr. destruct (B r Hr) as (B1 & B2 & B3 & B4). split_and!; try done. intros Hc. destruct (E7 Hc) as [-> Hc']. by apply B4.
  - intros k x Hk. destruct (E k x Hk) as (F1 & F2 & F3 & F4 & F5 & F6). split_and!; try done.
    + intros Hc. rewrite E6. apply F5. by apply E7.
    + intros Hk' Hc. destruct (E7 Hc) as [-> Hc']. by apply F6.
  - eapply grows_covered; [by apply grows_same|done].
  - intros Hc. destruct (E8 Hc); auto.
Qed.

(** ** Operations on a buffer of known size *)

Lemma find_region_spec id b r : find_region id b = Some r -> r ∈ bf_regions b /\ rg_id r = id.
Proof.
  unfold find_region. intros H. apply List.find_some in H as [H1 H2]. split; [by apply list_elem_of_In|]. by apply Nat.eqb_eq.
Qed.

Lemma ranged_Writer D start end_ b copied : ranged D b copied -> 0 <= start -> ranged D (Writer start end_ b).2 copied.
Proof.
  intros [A B C E G H I J] Hs. constructor; try done; simpl.
  - intros r [->|Hr]%insert_region_elem; [|by apply B]. simpl. split_and!; try (done || lia). intros _ i Hi. unfold covers, Offset in Hi. simpl in Hi. lia.
  - split.
    + destruct C as [C1 C2]. assert (bf_next b ∉ rg_id <$> bf_regions b) as Hn.
      { intros (r & Hr & Hin)%list_elem_of_fmap. specialize (C2 r Hin). lia. }
      revert C1 Hn. clear. induction (bf_regions b) as [|x l IH]; simpl; intros Hnd Hn; [apply NoDup_singleton|].
      destruct (_ <=? _); simpl; [by constructor|]. apply NoDup_cons in Hnd as [H1 H2]. apply not_elem_of_cons in Hn as [Hn1 Hn2].
      constructor; [|by apply IH]. intros (r & Hr & [->|Hin]%insert_region_elem)%list_elem_of_fmap; [simpl in Hr; congruence|].
      apply H1. rewrite Hr. by apply list_elem_of_fmap_2.
    + intros r [->|Hr]%insert_region_elem; simpl; [lia|]. apply C in Hr. lia.
  - intros k x Hk. destruct (E k x Hk) as ((r & Hr & F1) & F2). split; [|done]. exists r. split; [|done]. apply insert_region_elem. by right.
  - eapply grows_covered; [apply (Writer_grows start end_)|done].
Qed.

Lemma ranged_begin D id p ok s b copied : ranged D b copied ->
  (forall r, find_region id b = Some r -> p = slice (Offset r) (Offset r + len p) D /\ (id ∉ pw_region <$> bf_pending b)) ->
  let '(x, b', _) := write_begin id p ok s b in
  ranged D b' (match x with Ok None => false :: copied | _ => copied end) /\ stays b b' /\ bf_closed b' = bf_closed b /\ bf_err b' = bf_err b.
Proof.
  intros Hok Hh. assert (stays b b) as Hst by (by apply stays_same). unfold write_begin.
  destruct (find_region id b) as [r|] eqn:Ef; [|done]. destruct (find_region_spec id b r Ef) as [Hr Hid].
  destruct (Hh r eq_refl) as [Hp Hfree]. destruct (Z.eqb_spec (len p) 0); [done|]. destruct (bf_err b) eqn:Ee; [done|].
  destruct (_ || _) eqn:Eo; [done|]. apply orb_false_iff in Eo as [_ Eo].
  pose proof (rn_size D b copied Hok) as Hsz. destruct (Z.ltb_spec (bf_size b) 0); [lia|].
  destruct (Z.leb_spec 0 (bf_size b)); [|lia]. simpl in Eo. apply Z.ltb_ge in Eo.
  pose proof (len_nonneg p). destruct Hok as [A B C E G H' I J].
  set (b1 := if match bf_file b with Some _ => true | None => false end then b else set_pinned (bf_pinned b + 1) b).
  assert (bf_size b1 = bf_size b /\ bf_regions b1 = bf_regions b /\ bf_next b1 = bf_next b /\ bf_pending b1 = bf_pending b /\ bf_ready b1 = bf_ready b /\
    bf_file b1 = bf_file b /\ contents b1 = contents b /\ bf_closed b1 = bf_closed b /\ bf_complete b1 = bf_complete b /\ bf_err b1 = bf_err b)
    as (E1 & E2 & E3 & E4 & E5 & E6 & E7 & E8 & E9 & E10) by (unfold b1, contents; destruct (bf_file b) eqn:Efb; simpl; rewrite ?Efb; split_and!; done).
  simpl. split; [|split; [by apply stays_same|by rewrite E8, E10]].
  constructor; simpl; rewrite ?E1, ?E2, ?E3, ?E4, ?E5, ?E6, ?E8, ?E9; try done.
  - intros r' Hr'. change (contents (set_pending _ b1)) with (contents b1). rewrite E7. by apply B.
  - intros [|k] x Hk; simpl in Hk.
    + injection Hk as <-. simpl. destruct (B r Hr) as (B1 & B2 & _). split_and!; try done; [by exists r|unfold Offset; lia|].
      intros _. by destruct (bf_file b).
    + destruct (E k x Hk) as (F1 & F2 & F3 & F4 & F5 & F6). split_and!; try done.
      intros Hc Hcl. change (contents (set_pending _ b1)) with (contents b1). rewrite E7. by apply F6.
  - by constructor.
  - f_equal. exact H'.
  - eapply grows_covered; [|exact I]. by apply grows_same.
Qed.

Lemma ranged_copy D k x b copied : ranged D b copied -> bf_pending b !! k = Some x ->
  ranged D (write_copy x b) (<[k := true]> copied) /\ stays b (write_copy x b) /\ bf_closed (write_copy x b) = bf_closed b /\ bf_err (write_copy x b) = bf_err b.
Proof.
  intros [A B C E G H I J] Hk. destruct (E k x Hk) as (F1 & F2 & F3 & F4 & F5 & F6).
  assert (forall c, length (<[k := c]> copied) = length (bf_pending b)) as Hl by (intros c; by rewrite length_insert).
  destruct (bf_closed b) eqn:Hcl.
  { assert (write_copy x b = b) as -> by (unfold write_copy; rewrite Hcl; destruct (pw_file x), (bf_file b); done).
    split; [|split; [by apply stays_same|done]]. constructor; rewrite ?Hcl; try done.
    intros k' x' Hk'. destruct (E k' x' Hk') as (? & ? & ? & ? & ? & ?). split_and!; done. }
  destruct (write_copy_spec x b Hcl (F5 eq_refl) F3) as (W1 & W2 & W3 & W4 & W5).
  assert (bf_size (write_copy x b) = bf_size b /\ bf_next (write_copy x b) = bf_next b /\ bf_pending (write_copy x b) = bf_pending b /\
    bf_complete (write_copy x b) = bf_complete b /\ bf_closed (write_copy x b) = bf_closed b /\ bf_err (write_copy x b) = bf_err b /\
    (bf_file b = None <-> bf_file (write_copy x b) = None)) as (E1 & E3 & E4 & E5 & E6 & E7 & E8).
  { unfold write_copy. rewrite Hcl. destruct (pw_file x), (bf_file b) eqn:Efb; simpl; rewrite ?Efb; split_and!; done. }
  assert (forall i, 0 <= i -> agree D (contents b) i -> agree D (contents (write_copy x b)) i) as Hkeep.
  { intros i Hi Hag. destruct (decide (pw_offset x <= i < pw_offset x + len (pw_data x))) as [Hin|Hout].
    - by eapply honest_agree; [exact F3|exact F2|exact Hin|apply W1].
    - destruct Hag as (v & Hv & Hd). exists v. split; [|done]. rewrite W2; [done| |done]. apply lookup_lt_Some in Hv. unfold len. lia. }
  split_and!; try done.
  - constructor; rewrite ?W4, ?W5, ?E1, ?E3, ?E4, ?E5, ?E6; try done.
    + intros r Hr. destruct (B r Hr) as (B1 & B2 & B3 & B4). split_and!; try done. intros _ i Hi. apply Hkeep; [unfold covers in Hi; lia|]. by apply B4.
    + intros k' x' Hk'. destruct (E k' x' Hk') as (G1 & G2 & G3 & G4 & G5 & G6). split_and!; try done.
      * intros _. rewrite (G5 eq_refl). apply bool_decide_ext. rewrite <- !not_eq_None_Some. by rewrite E8.
      * intros Hc _ i Hi. destruct (decide (k' = k)) as [->|Hne].
        -- rewrite Hk in Hk'. injection Hk' as <-. eapply honest_agree; [exact G3|exact G2|exact Hi|by apply W1].
        -- rewrite list_lookup_insert_ne in Hc by done. apply Hkeep; [lia|]. by apply G6.
    + eapply grows_covered; [|exact I]. by apply grows_same.
  - unfold stays. rewrite W4, E1, E5. split_and!; try done; [intros; split; [done|by apply E8]|]. rewrite <- !not_eq_None_Some. by rewrite E8.
  - congruence.
Qed.

Lemma remove_at_delete {A} k (l : list A) : remove_at k l = delete k l.
Proof. by rewrite delete_take_drop. Qed.

Lemma ranged_remove D k x b copied : ranged D b copied -> bf_pending b !! k = Some x ->
  ranged D (remove_pending k b) (remove_at k copied) /\ pw_region x ∉ pw_region <$> bf_pending (remove_pending k b).
Proof.
  intros [A B C E G H I J] Hk.
  assert (bf_pending (remove_pending k b) = delete k (bf_pending b)) as Ep by apply remove_at_delete.
  pose proof (delete_Permutation _ _ _ Hk) as Hperm. pose proof G as Hnd. rewrite Hperm in Hnd. apply NoDup_cons in Hnd as [Hn1 Hn2].
  rewrite remove_at_delete. split; [|by rewrite Ep].
  constructor; rewrite ?Ep; try done.
  - intros i y Hi. destruct (decide (i < k)%nat).
    + rewrite list_lookup_delete_lt in Hi by done. destruct (E i y Hi) as (? & ? & ? & ? & ? & ?). split_and!; try done.
      rewrite list_lookup_delete_lt by done. done.
    + rewrite list_lookup_delete_ge in Hi by lia. destruct (E (S i) y Hi) as (? & ? & ? & ? & ? & ?). split_and!; try done.
      rewrite list_lookup_delete_ge by lia. done.
  - apply lookup_lt_Some in Hk as Hlt. rewrite !length_delete by (rewrite ?lookup_lt_is_Some, ?H; lia || by eexists). by rewrite H.
Qed.

Lemma ready_le b : 0 <= bf_size b -> (forall r, r ∈ bf_regions b -> 0 < rg_written r -> Offset r <= bf_size b) -> covered b -> bf_ready b <= bf_size b.
Proof.
  intros Hs Hr Hc. destruct (Z.le_gt_cases (bf_ready b) 0); [lia|].
  destruct (Hc (bf_ready b - 1)) as (r & Hin & Hcov); [lia|]. specialize (Hr r Hin). unfold covers, Offset in *. lia.
Qed.

Lemma ranged_advance D b copied : ranged D b copied -> ranged D (advance b) copied /\ stays b (advance b).
Proof.
  intros [A B C E G H I J]. pose proof (advance_covered b I) as Hcov.
  assert (bf_ready (advance b) <= bf_size b) as Hle.
  { unfold advance in *. destruct (_ <? _); [apply (ready_le (set_ready _ b))|apply ready_le]; try done; intros r Hr; by apply B. }
  unfold advance in *. destruct (Z.ltb_spec (bf_ready b) (advance_loop (bf_regions b) 0)); [|split; [done|by apply stays_same]].
  simpl in Hle. split; [constructor; try done; simpl; intros Hc; specialize (J Hc); lia|]. unfold stays. simpl. split_and!; try done; lia.
Qed.

(** A writer's bytes become part of its region. *)
Lemma ranged_written D r n b copied : ranged D b copied -> r ∈ bf_regions b -> rg_id r ∉ pw_region <$> bf_pending b ->
  0 <= n -> Offset r + n <= bf_size b -> (bf_closed b = false -> forall i, Offset r <= i < Offset r + n -> agree D (contents b) i) ->
  ranged D (advance (add_written (rg_id r) n b)) copied /\ stays b (advance (add_written (rg_id r) n b)).
Proof.
  intros Hok Hr Hfree Hn Hle Hag. set (b1 := add_written (rg_id r) n b).
  assert (forall r', r' ∈ bf_regions b -> rg_id r' = rg_id r -> r' = r) as Huniq.
  { intros r' Hr' E. apply list_elem_of_lookup in Hr as [i Hi]. apply list_elem_of_lookup in Hr' as [j Hj].
    assert (j = i) as ->; [|congruence]. eapply NoDup_lookup; [apply (rn_ids _ _ _ Hok)| |]; rewrite list_lookup_fmap, ?Hi, ?Hj; simpl; by rewrite ?E. }
  assert (ranged D b1 copied) as H1.
  { destruct Hok as [A B C E G H I J].
    assert (forall y, y ∈ bf_regions b1 -> exists r', r' ∈ bf_regions b /\ (if Nat.eqb (rg_id r') (rg_id r) then mkRegion (rg_id r) (rg_start r') (rg_end r') (rg_written r' + n) else r') = y) as Hin.
    { intros y Hy. apply list_elem_of_In, in_map_iff in Hy as (r' & <- & Hin). exists r'. split; [by apply list_elem_of_In|done]. }
    constructor; try done.
    - intros y (r' & Hr' & <-)%Hin. destruct (B r' Hr') as (B1 & B2 & B3 & B4). destruct (Nat.eqb_spec (rg_id r') (rg_id r)) as [Ei|]; [|done].
      specialize (Huniq r' Hr' Ei) as ->. unfold Offset in *. simpl. split_and!; try lia.
      intros Hc i Hi. unfold covers, Offset in Hi. simpl in Hi. destruct (Z.lt_ge_cases i (rg_start r + rg_written r)).
      + apply B4; [done|]. unfold covers, Offset. lia.
      + apply Hag; [done|lia].
    - assert (rg_id <$> bf_regions b1 = rg_id <$> bf_regions b) as Eid.
      { simpl. rewrite <- list_fmap_compose. apply list_fmap_ext. intros i y _. simpl. by destruct (Nat.eqb_spec (rg_id y) (rg_id r)). }
      split; [by rewrite Eid; apply C|]. intros y (r' & Hr' & <-)%Hin. apply C in Hr' as Hlt. by destruct (Nat.eqb_spec (rg_id r') (rg_id r)) as [<-|].
    - intros k x Hk. destruct (E k x Hk) as ((r' & F1 & F2 & F3) & F4). split; [|done]. exists r'. split; [|done].
      simpl. apply list_elem_of_In, in_map_iff. exists r'. split; [|by apply list_elem_of_In].
      destruct (Nat.eqb_spec (rg_id r') (rg_id r)) as [Ei|]; [|done]. exfalso. apply Hfree. rewrite <- Ei, F2.
      apply list_elem_of_fmap_2. by eapply list_elem_of_lookup_2.
    - eapply grows_covered; [by apply add_written_grows|done]. }
  destruct (ranged_advance D b1 copied H1) as [H2 H3]. split; [done|exact H3].
Qed.

Lemma unpin_same s b : let '(b', _) := unpin s b in
  bf_size b' = bf_size b /\ bf_regions b' = bf_regions b /\ bf_next b' = bf_next b /\ bf_pending b' = bf_pending b /\ bf_ready b' = bf_ready b /\
  bf_file b' = bf_file b /\ contents b' = contents b /\ bf_closed b' = bf_closed b /\ bf_complete b' = bf_complete b /\ bf_err b' = bf_err b.
Proof. unfold unpin. simpl. by destruct (_ && _). Qed.

Lemma ranged_unpin D s b copied : ranged D b copied -> ranged D (unpin s b).1 copied.
Proof.
  intros Hok. pose proof (unpin_same s b) as Hu. destruct (unpin s b) as [b' s']. destruct Hu as (E1 & E2 & E3 & E4 & E5 & E6 & E7 & E8 & E9 & _).
  eapply ranged_same; [exact Hok|done..| |]; simpl; [by rewrite E7, E8|rewrite E9; auto].
Qed.

Lemma advance_err b : bf_err (advance b) = bf_err b.
Proof. unfold advance. by destruct (_ <? _). Qed.

Lemma ranged_end D k x ok s b copied : ranged D b copied -> bf_pending b !! k = Some x ->
  copied !! k = Some true \/ (pw_file x && negb ok) = true ->
  let b' := (write_end x ok s (remove_pending k b)).1.2 in
  ranged D b' (remove_at k copied) /\ stays b b' /\ bf_closed b' = bf_closed b /\ bf_err b' = bf_err b.
Proof.
  intros Hok Hk Hc. destruct (ranged_remove D k x b copied Hok Hk) as [H1 Hfree]. cbn zeta.
  destruct (rn_pending _ _ _ Hok k x Hk) as ((r & Hr & Hid & Hoff) & _ & H0 & Hle & _ & Hag).
  unfold write_end. destruct (pw_file x && negb ok) eqn:Ew; [split; [done|split; [by apply stays_same|done]]|].
  destruct Hc as [Hc|Hc]; [|done]. specialize (Hag Hc).
  assert (exists b1 s1, (if pw_file x then (remove_pending k b, s) else unpin s (remove_pending k b)) = (b1, s1) /\ ranged D b1 (remove_at k copied) /\
    bf_size b1 = bf_size b /\ bf_regions b1 = bf_regions b /\ bf_pending b1 = bf_pending (remove_pending k b) /\ bf_ready b1 = bf_ready b /\
    bf_file b1 = bf_file b /\ contents b1 = contents b /\ bf_closed b1 = bf_closed b /\ bf_complete b1 = bf_complete b /\ bf_err b1 = bf_err b)
    as (b1 & s1 & -> & Hb1 & E1 & E2 & E3 & E4 & E5 & E6 & E7 & E8 & E9).
  { destruct (pw_file x); [by exists (remove_pending k b), s|].
    pose proof (unpin_same s (remove_pending k b)) as Hu. pose proof (ranged_unpin D s _ _ H1) as Hb.
    destruct (unpin s (remove_pending k b)) as [b1 s1]. exists b1, s1. naive_solver. }
  assert (stays b b1) as Hst by (by apply stays_same).
  rewrite E9. destruct (bf_err b) as [e|] eqn:Ee; simpl; [split_and!; try done; congruence|].
  destruct (ranged_written D r (len (pw_data x)) b1 (remove_at k copied)) as [G1 G2]; rewrite ?E1, ?E2, ?E3, ?E6, ?E7, ?Hid; try done.
  { apply len_nonneg. } { lia. } { intros Hcl i Hi. apply Hag; [done|lia]. }
  rewrite Hid in G1, G2. destruct (advance_fields (add_written (pw_region x) (len (pw_data x)) b1)) as (_ & _ & D3 & _).
  split_and!; [done| |by rewrite D3|by rewrite advance_err].
  by eapply stays_trans.
Qed.

(** ** Operations on a growing buffer *)

Lemma growing_same D b b' copied : growing_ok D b copied -> bf_size b' = bf_size b -> bf_pending b' = bf_pending b -> bf_complete b' = bf_complete b ->
  bf_ready b' = bf_ready b -> (bf_closed b' = false -> contents b' = contents b /\ bf_closed b = false) ->
  (bf_err b' = None -> bf_err b = None /\ bf_regions b' = bf_regions b /\ bf_next b' = bf_next b /\ bf_cap b' = bf_cap b /\
     bf_reserved b' = bf_reserved b /\ bf_file b' = bf_file b /\ bf_closed b' = bf_closed b /\ contents b' = contents b) -> growing_ok D b' copied.
Proof.
  intros [A B C E G] E1 E2 E3 E4 E5 E6. constructor; rewrite ?E1, ?E2, ?E3, ?E4; try done.
  - intros Hc. destruct (E5 Hc) as [-> Hc']. by apply E.
  - intros Herr. destruct (E6 Herr) as (F0 & F1 & F2 & F3 & F4 & F5 & F6 & F7). rewrite F1, F2, F3, F4, F6, F7.
    destruct (G F0) as [[[G1 G2 G3 G4 G5 G6 G7] Gn]|H]; [left|by right]. split; [|done].
    constructor; rewrite ?E1, ?E4, ?F1, ?F3, ?F4, ?F5, ?F6, ?F7; done.
Qed.

Lemma growing_Writer D b copied : growing_ok D b copied -> bf_regions b = [] -> growing_ok D (Writer 0 (-1) b).2 copied.
Proof.
  intros [A B C E G] Hr. constructor; try done. intros Herr. left. destruct (G Herr) as [[[G1 G2 G3 G4 G5 G6 G7] Gn]|(H1 & H2 & H3 & H4 & H5 & H6 & H7)].
  - rewrite Hr in G2. done.
  - simpl. split; [|by rewrite H4]. change (contents _) with (contents b). rewrite H2. constructor; simpl; try done.
    by rewrite H1, H4.
Qed.

Lemma append_fields r p ok s b : let '(x, b', _) := appendLocked r p ok s b in
  bf_size b' = bf_size b /\ bf_pending b' = bf_pending b /\ bf_complete b' = bf_complete b /\ bf_next b' = bf_next b /\ bf_closed b' = bf_closed b /\
  (is_Some (bf_file b) -> is_Some (bf_file b')) /\ match x with Ok _ => bf_err b' = bf_err b | Err _ => b' = set_err ErrFile b \/ bf_err b' = bf_err b end.
Proof.
  unfold appendLocked, append_room.
  destruct (bf_file b) eqn:Ef; [|destruct (_ <? _); [destruct (reserve _ _ _) as [[] ?]; [|unfold spill; destruct (spills ok); simpl; [|split_and!; simpl; rewrite ?Ef; try done; by left]]|]].
  all: simpl; rewrite ?Ef; simpl; try match goal with |- context [negb (writes ?f)] => destruct (negb (writes f)); [split_and!; eauto|] end.
  all: rewrite advance_err; unfold advance; destruct (_ <? _); simpl; unfold append_bytes; simpl; rewrite ?Ef; simpl; rewrite ?Ef; split_and!; eauto.
Qed.

Lemma prefix_slice (D l p : bytes) : l `prefix_of` D -> p = slice (len l) (len l + len p) D -> l ++ p `prefix_of` D.
Proof.
  intros [k ->] Hp. unfold slice, len in Hp. rewrite Nat2Z.id, drop_app_length in Hp. rewrite Hp. apply prefix_app. eexists. symmetry. apply take_drop.
Qed.

Lemma growing_begin D id p ok s b copied : growing_ok D b copied ->
  (forall r, find_region id b = Some r -> p = slice (Offset r) (Offset r + len p) D) ->
  let '(x, b', _) := write_begin id p ok s b in
  growing_ok D b' copied /\ x <> Ok None /\ stays b b' /\ bf_closed b' = bf_closed b /\ (bf_err b' = bf_err b \/ bf_err b = None /\ bf_err b' = Some ErrFile).
Proof.
  intros Hok Hh. pose proof Hok as [A B C E G]. assert (stays b b) as Hst by (by apply stays_same).
  destruct (find_region id b) as [r|] eqn:Ef; [|unfold write_begin; rewrite Ef; split_and!; try done; by left].
  destruct (bf_err b) as [e|] eqn:Ee.
  { unfold write_begin. rewrite Ef, Ee. destruct (len p =? 0); split_and!; try done; by left. }
  destruct (find_region_spec id b r Ef) as [Hr Hid].
  destruct (G eq_refl) as [[Hg Hn]|(Hn & _)]; [|by rewrite Hn in Hr; apply elem_of_nil in Hr].
  pose proof (gr_regions _ _ Hg) as Ereg. rewrite Ereg in Hr. apply list_elem_of_singleton in Hr as ->. simpl in Hid. subst id.
  specialize (Hh _ eq_refl). unfold Offset in Hh. simpl in Hh.
  pose proof (write_growing (contents b) p s b ok Hg) as Hw.
  assert (let '(x, b', _) := write_begin 0 p ok s b in
    bf_size b' = bf_size b /\ bf_pending b' = bf_pending b /\ bf_complete b' = bf_complete b /\ bf_next b' = bf_next b /\ bf_closed b' = bf_closed b /\
    (is_Some (bf_file b) -> is_Some (bf_file b')) /\ match x with Ok _ => bf_err b' = bf_err b | Err _ => b' = set_err ErrFile b \/ bf_err b' = bf_err b end) as Hf.
  { unfold write_begin. rewrite Ef, Ee. destruct (len p =? 0); [by split_and!|]. destruct (_ || _); [split_and!; try done; by right|].
    destruct (Z.ltb_spec (bf_size b) 0); [|lia]. pose proof (append_fields (mkRegion 0 0 (-1) (len (contents b))) p ok s b) as Ha.
    destruct (appendLocked _ _ _ _ _) as [[[n|e] b'] s']; [by rewrite Ee in Ha|]. destruct Ha as (? & ? & ? & ? & ? & ? & Ha). split_and!; try done. by rewrite Ee in Ha. }
  destruct (write_begin 0 p ok s b) as [[x b'] s']. destruct Hf as (E1 & E2 & E3 & E4 & E5 & E6 & E7).
  destruct (E (gr_closed _ _ Hg)) as [Hpre _]. destruct x as [n|e].
  - destruct Hw as [-> Hg']. pose proof (gr_ready _ _ Hg') as Er. split_and!; try done; [| |left; congruence].
    + constructor; rewrite ?E1, ?E2, ?E3; try done.
      * intros _. rewrite (gr_contents _ _ Hg'), Er. split; [by apply prefix_slice|done].
      * intros _. left. rewrite (gr_contents _ _ Hg'). split; [done|congruence].
    + unfold stays. rewrite Er, E1, E3, (gr_ready _ _ Hg), len_app. pose proof (len_nonneg p). split_and!; try done; lia.
  - destruct Hw as (-> & Hcon & [[_ He]|[_ Hg']]).
    { destruct E7 as [->|E7]; [|congruence]. split; [|split_and!; try done; by right]. by eapply growing_same. }
    pose proof (gr_ready _ _ Hg') as Er. pose proof (gr_err _ _ Hg') as Ee'. split_and!; try done; [| |left; congruence].
    + constructor; rewrite ?E1, ?E2, ?E3; try done.
      * intros _. rewrite Hcon, Er. done.
      * intros _. left. rewrite Hcon. split; [done|congruence].
    + unfold stays. rewrite Er, E1, E3, (gr_ready _ _ Hg). split_and!; try done; lia.
Qed.

Lemma growing_complete D b copied : growing_ok D b copied -> bf_err b = None -> ranged D (Complete b).2 copied /\ stays b (Complete b).2.
Proof.
  intros [A [B ->] C E G] Ee. unfold Complete. rewrite Ee. destruct (Z.ltb_spec (bf_size b) 0); [|lia]. simpl. rewrite Z.eqb_refl. simpl.
  assert (bf_closed b = false -> contents b `prefix_of` D /\ bf_ready b <= len (contents b)) as E' by done. clear E.
  assert (stays b (set_status (bf_ready b) true (bf_closed b) (set_status (bf_ready b) (bf_complete b) (bf_closed b) b))) as Hst.
  { unfold stays. simpl. rewrite C. split_and!; try done; lia. }
  split; [|done]. destruct (G Ee) as [[[G1 G2 G3 G4 G5 G6 G7] Gn]|(H1 & H2 & H3 & H4 & _)].
  - pose proof (len_nonneg (contents b)). constructor; simpl; rewrite ?G2, ?G3, ?Gn, ?B; try done.
    + intros r ->%list_elem_of_singleton. unfold Offset. simpl. split_and!; try (done || lia). intros Hc i Hi.
      change (contents (set_status _ _ _ _)) with (contents b). destruct (E' Hc) as [Hp Hl]. unfold covers, Offset in Hi. simpl in Hi.
      assert (is_Some (contents b !! Z.to_nat i)) as [v Hv] by (apply lookup_lt_is_Some; unfold len in *; lia).
      exists v. split; [done|]. by eapply prefix_lookup_Some.
    + split; [apply NoDup_singleton|]. intros r ->%list_elem_of_singleton. simpl. lia.
    + by apply NoDup_nil_2.
    + intros i Hi. simpl in Hi. rewrite G3 in Hi. exists (mkRegion 0 0 (-1) (len (contents b))). simpl. rewrite G2. split; [left|]. unfold covers, Offset. simpl. lia.
  - constructor; simpl; rewrite ?H1, ?H3, ?H4, ?B; try done; try lia.
    + intros r Hr%elem_of_nil. done.
    + split; [by apply NoDup_nil_2|]. intros r Hr%elem_of_nil. done.
    + by apply NoDup_nil_2.
    + intros i Hi. simpl in Hi. lia.
Qed.

(** ** Every operation keeps the buffer *)

Lemma quiet_ok D b b' copied : buffer_ok D b copied -> bf_size b' = bf_size b -> bf_regions b' = bf_regions b -> bf_next b' = bf_next b ->
  bf_pending b' = bf_pending b -> bf_ready b' = bf_ready b -> bf_file b' = bf_file b -> bf_complete b' = bf_complete b ->
  (bf_closed b' = false -> contents b' = contents b /\ bf_closed b = false) ->
  (bf_err b' = None -> bf_err b = None /\ bf_cap b' = bf_cap b /\ bf_reserved b' = bf_reserved b /\ bf_closed b' = bf_closed b /\ contents b' = contents b) ->
  (bf_closed b' = true -> is_Some (bf_err b')) -> bf_err b' <> Some ErrEOF -> buffer_ok D b' copied /\ stays b b'.
Proof.
  intros (Hok & _ & _ & Hr) E1 E2 E3 E4 E5 E6 E7 E8 E9 E10 E11. split; [|by apply stays_same].
  split; [|split; [done|split; [done|by rewrite E5]]]. destruct Hok as [Hok|Hok].
  - left. eapply ranged_same; try done. rewrite E7. auto.
  - right. eapply growing_same; try done. naive_solver.
Qed.

Lemma Fail_ok D e b copied : buffer_ok D b copied -> buffer_ok D (Fail e b) copied /\ stays b (Fail e b).
Proof.
  intros Hok. assert (buffer_ok D b copied /\ stays b b) as H by (by split; [|apply stays_same]).
  unfold Fail. destruct (bf_err b) eqn:Ee; [done|]. destruct (bf_complete b); [done|]. by apply (quiet_ok D b).
Qed.

Lemma Close_ok D s b copied : buffer_ok D b copied -> buffer_ok D (Close s b).1 copied /\ stays b (Close s b).1.
Proof.
  intros Hok. unfold Close. destruct (bf_closed b); [by split; [|apply stays_same]|]. simpl.
  destruct (_ =? _); by apply (quiet_ok D b).
Qed.

Lemma pin_ok D off end_ b copied : buffer_ok D b copied -> buffer_ok D (pin off end_ b).2 copied /\ stays b (pin off end_ b).2.
Proof. intros Hok. apply (quiet_ok D b); try done; apply Hok. Qed.

Lemma unpin_ok D s b copied : buffer_ok D b copied -> buffer_ok D (unpin s b).1 copied /\ stays b (unpin s b).1.
Proof.
  intros Hok. pose proof Hok as (_ & Hc & He & _). unfold unpin. simpl. destruct (bf_closed b) eqn:Ec; [|apply (quiet_ok D b); try done; simpl; congruence].
  specialize (Hc eq_refl). destruct (_ && _); apply (quiet_ok D b); simpl; try done; intros Hn; rewrite Hn in Hc; by destruct Hc.
Qed.

Lemma Complete_ok D b copied : buffer_ok D b copied -> buffer_ok D (Complete b).2 copied /\ stays b (Complete b).2.
Proof.
  intros (Hok & Hc & He & Hr). assert (buffer_ok D b copied /\ stays b b) as H by (by split; [|apply stays_same]).
  assert (bf_err (Complete b).2 = bf_err b /\ bf_closed (Complete b).2 = bf_closed b) as [E1 E2].
  { unfold Complete. destruct (bf_err b) eqn:Ee; [simpl; by rewrite Ee|]. destruct (bf_size b <? 0); simpl; destruct (negb _); simpl; by rewrite ?Ee. }
  destruct (bf_err b) eqn:Ee; [by unfold Complete; rewrite Ee|]. unfold buffer_ok. rewrite E1, E2. destruct Hok as [Hok|Hok].
  - unfold Complete. rewrite Ee. pose proof (rn_size D b copied Hok). destruct (Z.ltb_spec (bf_size b) 0); [lia|].
    destruct (Z.eqb_spec (bf_ready b) (bf_size b)); simpl; [|split; [split_and!; try done; by left|by apply stays_same]].
    assert (stays b (set_status (bf_size b) true (bf_closed b) b)) as Hst by (by unfold stays; simpl; split_and!; try done; lia).
    split; [|done]. split_and!; try done. left. eapply ranged_same; try done. simpl. auto.
  - destruct (growing_complete D b copied Hok Ee) as [H1 H2]. split; [|done]. split_and!; try done; [by left|]. destruct H2. lia.
Qed.

Lemma Writer_ok D start end_ b copied : buffer_ok D b copied -> 0 <= start -> (bf_size b < 0 -> start = 0 /\ end_ = -1 /\ bf_regions b = []) ->
  buffer_ok D (Writer start end_ b).2 copied /\ stays b (Writer start end_ b).2.
Proof.
  intros (Hok & Hc) Hs Hg. split; [|by apply stays_same]. split; [|done]. destruct Hok as [Hok|Hok]; [left; by apply ranged_Writer|right].
  destruct (Hg (gk_size _ _ _ Hok)) as (-> & -> & Hr). by apply growing_Writer.
Qed.

Lemma begun_ok D id p ok s b copied : buffer_ok D b copied ->
  (forall r, find_region id b = Some r -> p = slice (Offset r) (Offset r + len p) D /\ (id ∉ pw_region <$> bf_pending b)) ->
  let '(x, b', _) := write_begin id p ok s b in
  buffer_ok D b' (match x with Ok None => false :: copied | _ => copied end) /\ stays b b'.
Proof.
  intros (Hok & Hc & He & Hr) Hh. destruct Hok as [Hok|Hok].
  - pose proof (ranged_begin D id p ok s b copied Hok Hh) as H. destruct (write_begin id p ok s b) as [[x b'] s'].
    destruct H as (H1 & H2 & H3 & H4). split; [|done]. split; [by left|]. rewrite H3, H4. split_and!; try done. destruct H2. lia.
  - pose proof (growing_begin D id p ok s b copied Hok (fun r Hf => proj1 (Hh r Hf))) as H. destruct (write_begin id p ok s b) as [[x b'] s'].
    destruct H as (H1 & H2 & H3 & H4 & H5). split; [|done]. split; [right; by destruct x as [[?|]|]|]. rewrite H4.
    split_and!; [intros Hcl; destruct H5 as [->|[_ ->]]; eauto|destruct H5 as [->|[_ ->]]; done|]. destruct H3. lia.
Qed.

Lemma growing_no_pending D b copied k x : growing_ok D b copied -> bf_pending b !! k = Some x -> False.
Proof. intros [_ [E _] _ _ _]. by rewrite E, lookup_nil. Qed.

Lemma copy_ok D k x b copied : buffer_ok D b copied -> bf_pending b !! k = Some x ->
  buffer_ok D (write_copy x b) (<[k := true]> copied) /\ stays b (write_copy x b).
Proof.
  intros (Hok & Hc & He & Hr) Hk. destruct Hok as [Hok|Hok]; [|by destruct (growing_no_pending _ _ _ _ _ Hok Hk)].
  destruct (ranged_copy D k x b copied Hok Hk) as (H1 & H2 & H3 & H4). split; [|done]. split; [by left|]. rewrite H3, H4. split_and!; try done. destruct H2. lia.
Qed.

Lemma end_ok D k x ok s b copied : buffer_ok D b copied -> bf_pending b !! k = Some x -> copied !! k = Some true \/ (pw_file x && negb ok) = true ->
  buffer_ok D (write_end x ok s (remove_pending k b)).1.2 (remove_at k copied) /\ stays b (write_end x ok s (remove_pending k b)).1.2.
Proof.
  intros (Hok & Hc & He & Hr) Hk Hx. destruct Hok as [Hok|Hok]; [|by destruct (growing_no_pending _ _ _ _ _ Hok Hk)].
  destruct (ranged_end D k x ok s b copied Hok Hk Hx) as (H1 & H2 & H3 & H4). split; [|done]. split; [by left|]. rewrite H3, H4. split_and!; try done. destruct H2. lia.
Qed.

(** ** The invariant of a reader *)

(** Nothing is left for the reader. *)
Definition finished (b : Buffer) (r : reader) : Prop :=
  0 <= rd_end r <= rd_offset r \/ bf_complete b = true /\ bf_size b <= rd_offset r.

Definition at_ok (D : bytes) (b : Buffer) (r : reader) : Prop :=
  match rd_at r with
  | RIdle => True
  | RWait (Some n) => 0 < n /\ (0 <= rd_end r -> rd_offset r + n <= rd_end r)
  | RFile n => 0 < n /\ (0 <= rd_end r -> rd_offset r + n <= rd_end r) /\ rd_offset r + n <= bf_ready b
  | RWait None | RTurn => rd_memory r = true
  | RSink p => rd_memory r = true /\ p = slice (rd_offset r) (rd_offset r + len p) D /\ (0 <= rd_end r -> rd_offset r + len p <= rd_end r)
  | ROver e => e = None -> finished b r
  end.

Record reader_ok (D : bytes) (b : Buffer) (r : reader) : Prop := {
  ro_start : 0 <= rd_start r /\ rd_offset r = rd_start r + len (rd_out r);
  ro_out : rd_out r = slice (rd_start r) (rd_offset r) D;
  ro_end : 0 <= rd_end r -> rd_offset r <= Z.max (rd_start r) (rd_end r);
  ro_memory : rd_memory r = true -> bf_file b = None /\ 0 <= bf_size b;
  ro_at : at_ok D b r;
  ro_last : rd_last r = Some (0, Some (RSpool ErrEOF)) -> finished b r;
}.

Lemma finished_stays b b' r : stays b b' -> finished b r -> finished b' r.
Proof. intros (_ & Hc & _) [H|[H1 H2]]; [by left|right]. destruct (Hc H1) as [-> ->]. done. Qed.

Lemma reader_stays D b b' r : stays b b' -> reader_ok D b r -> reader_ok D b' r.
Proof.
  intros Hst [A B C E G H]. pose proof Hst as (S1 & S2 & S3 & S4). constructor; try done.
  - intros Hm. destruct (E Hm) as [E1 E2]. destruct (S3 E2) as [? F]. auto.
  - unfold at_ok in *. destruct (rd_at r) as [|[n|]|n| |p|e]; try done; [lia|].
    intros He. eapply finished_stays; [done|auto].
  - intros Hl. eapply finished_stays; [done|auto].
Qed.

(** The reader takes the next bytes of [D]. *)
Lemma reader_takes D b r p a l : reader_ok D b r -> p = slice (rd_offset r) (rd_offset r + len p) D -> (0 <= rd_end r -> rd_offset r + len p <= Z.max (rd_start r) (rd_end r)) ->
  let r' := mkReader (rd_offset r + len p) (rd_end r) (rd_memory r) a (rd_start r) (rd_out r ++ p) l in
  at_ok D b r' -> (l = Some (0, Some (RSpool ErrEOF)) -> finished b r') -> reader_ok D b r'.
Proof.
  intros [[A1 A2] B C E G H] Hp Hend r' Ha Hl. pose proof (len_nonneg p). pose proof (len_nonneg (rd_out r)). constructor; simpl; try done.
  - rewrite len_app. lia.
  - rewrite B at 1. rewrite Hp at 1. apply slice_extend; lia.
Qed.

Lemma reader_goes D b r a : reader_ok D b r -> at_ok D b (goes a r) -> reader_ok D b (goes a r).
Proof. intros [A B C E G H] Ha. by constructor. Qed.

Lemma reader_returns D b r n e : reader_ok D b r -> (e = Some (RSpool ErrEOF) -> finished b r) -> reader_ok D b (returns n e r).
Proof.
  intros [A B C E G H] He. constructor; try done. simpl. intros [= -> ->]. destruct (He eq_refl) as [?|?]; [by left|by right].
Qed.

Lemma reader_receives D b r p : reader_ok D b r -> p = slice (rd_offset r) (rd_offset r + len p) D -> (0 <= rd_end r -> rd_offset r + len p <= Z.max (rd_start r) (rd_end r)) ->
  reader_ok D b (receives p r).
Proof. intros Hok Hp He. by apply reader_takes. Qed.

Lemma ready_slice D b copied off n : buffer_ok D b copied -> bf_closed b = false -> 0 <= off -> 0 <= n -> off + n <= bf_ready b ->
  slice off (off + n) (contents b) = slice off (off + n) D /\ len (slice off (off + n) (contents b)) = n.
Proof. intros Hok Hc H0 Hn Hle. apply slice_agree; try done. intros i Hi. eapply shown; [done|done|lia]. Qed.

Lemma wait_ready_open off b : wait_ready off b = Some None -> bf_closed b = false /\ off < bf_ready b.
Proof.
  unfold wait_ready. destruct (bf_closed b); [done|]. destruct (Z.ltb_spec off (bf_ready b)); [done|]. destruct (bf_complete b); [done|]. by destruct (bf_err b).
Qed.

Lemma wait_ready_eof D off b copied : buffer_ok D b copied -> wait_ready off b = Some (Some ErrEOF) -> bf_complete b = true /\ bf_size b <= off.
Proof.
  intros (Hok & _ & He & _). unfold wait_ready. destruct (bf_closed b); [done|]. destruct (Z.ltb_spec off (bf_ready b)); [done|].
  destruct (bf_complete b) eqn:Ec; [|destruct (bf_err b); [intros [= ->]|]; done]. intros _. split; [done|].
  destruct Hok as [Hok|Hok]; [by rewrite <- (rn_done _ _ _ Hok Ec)|]. by rewrite (gk_complete _ _ _ Hok) in Ec.
Qed.

Lemma read_ready_ok D b copied n r r' : buffer_ok D b copied -> reader_ok D b r -> 0 < n -> (0 <= rd_end r -> rd_offset r + n <= rd_end r) ->
  read_ready n b r = Some r' -> reader_ok D b r'.
Proof.
  intros Hb Hok Hn Hend. unfold read_ready. destruct (wait_ready (rd_offset r) b) as [[e|]|] eqn:Ew; [|destruct (wait_ready_open _ _ Ew) as [Hc Hr]|done].
  - intros [= <-]. apply reader_returns; [done|]. intros [= ->]. right. by eapply wait_ready_eof.
  - destruct (ro_start _ _ _ Hok) as [H0 Ho]. pose proof (len_nonneg (rd_out r)).
    destruct (bf_file b) eqn:Ef; intros [= <-].
    + apply reader_goes; [done|]. unfold at_ok. simpl. lia.
    + unfold readLocked. set (m := Z.min n (bf_ready b - rd_offset r)). destruct (ready_slice D b copied (rd_offset r) m) as [E1 E2]; try done; try lia.
      apply reader_receives; rewrite ?E2; [done|done|]. lia.
Qed.

Lemma Read_ok D b copied n r : buffer_ok D b copied -> reader_ok D b r -> reader_ok D b (Read n b r).
Proof.
  intros Hb Hok. unfold Read. destruct (_ && _) eqn:Ee.
  { apply reader_returns; [done|]. intros _. left. apply andb_true_iff in Ee. lia. }
  set (m := if 0 <=? rd_end r then _ else n). destruct (Z.leb_spec m 0); [by apply reader_returns|].
  assert (0 <= rd_end r -> rd_offset r + m <= rd_end r) as Hend by (unfold m; destruct (Z.leb_spec 0 (rd_end r)); lia).
  destruct (read_ready m b r) as [r'|] eqn:Er; simpl; [by eapply read_ready_ok|]. by apply reader_goes.
Qed.

Lemma read_file_ok D b copied n fails r : buffer_ok D b copied -> reader_ok D b r -> rd_at r = RFile n -> reader_ok D b (read_file n fails b r).
Proof.
  intros Hb Hok Ha. pose proof (ro_at _ _ _ Hok) as Hat. unfold at_ok in Hat. rewrite Ha in Hat. destruct (ro_start _ _ _ Hok) as [H0 Ho].
  pose proof (len_nonneg (rd_out r)). unfold read_file. destruct (bf_closed b) eqn:Hc; [by apply reader_returns|].
  assert (forall m, 0 <= m <= n -> reader_ok D b (receives (slice (rd_offset r) (rd_offset r + m) (contents b)) r)) as Hrec.
  { intros m Hm. destruct (ready_slice D b copied (rd_offset r) m) as [E1 E2]; try done; try lia. apply reader_receives; rewrite ?E2; [done|done|]. lia. }
  destruct fails as [m|]; [|apply Hrec; lia]. apply reader_returns; [apply Hrec; lia|done].
Qed.

Lemma write_turn_ok D b copied ctxErr r : buffer_ok D b copied -> reader_ok D b r -> rd_memory r = true ->
  let '(b', r') := write_turn ctxErr b r in buffer_ok D b' copied /\ stays b b' /\ reader_ok D b' r'.
Proof.
  intros Hb Hok Hm. assert (stays b b) as Hst by (by apply stays_same). unfold write_turn.
  assert (forall a, at_ok D b (goes a r) -> buffer_ok D b copied /\ stays b b /\ reader_ok D b (goes a r)) as Hgo by (intros a Ha; split_and!; [done..|by apply reader_goes]).
  destruct (_ || _) eqn:Eo.
  2: { apply Hgo. intros _. left. simpl. apply orb_false_iff in Eo. lia. }
  destruct (wait_ready (rd_offset r) b) as [[e|]|] eqn:Ew; [|destruct (wait_ready_open _ _ Ew) as [Hc Hr]|by apply Hgo].
  - destruct e; apply Hgo; try done. intros _. right. simpl. by eapply wait_ready_eof.
  - destruct ctxErr; [by apply Hgo|]. destruct (ro_memory _ _ _ Hok Hm) as [Hf Hs]. destruct (ro_start _ _ _ Hok) as [H0 Ho]. pose proof (len_nonneg (rd_out r)).
    destruct (pin_ok D (rd_offset r) (rd_end r) b copied Hb) as [P1 P2]. unfold pin in *. simpl in P1, P2.
    set (stop := if 0 <=? rd_end r then _ else _). assert (rd_offset r < stop <= bf_ready b /\ (0 <= rd_end r -> stop <= rd_end r)) as [Hs1 Hs2].
    { apply orb_true_iff in Eo. assert (Z.shiftl 128 10 = 131072) as E by done. unfold stop. rewrite E. destruct (Z.leb_spec 0 (rd_end r)); lia. }
    split_and!; [done..|]. apply reader_goes; [by eapply reader_stays|]. unfold at_ok. simpl.
    destruct (ready_slice D b copied (rd_offset r) (stop - rd_offset r)) as [E1 E2]; try done; try lia.
    rewrite Zplus_minus in E1, E2. unfold contents in E1, E2. rewrite Hf in E1, E2. rewrite E2, Zplus_minus. split_and!; done.
Qed.

Lemma write_returned_ok D b p n err r : reader_ok D b r -> rd_at r = RSink p -> reader_ok D b (write_returned p n err r).
Proof.
  intros Hok Ha. pose proof (ro_at _ _ _ Hok) as Hat. unfold at_ok in Hat. rewrite Ha in Hat. destruct Hat as (Hm & Hp & Hend).
  unfold write_returned. destruct (_ || _) eqn:Eo; [by apply reader_goes|]. apply orb_false_iff in Eo. destruct (ro_start _ _ _ Hok) as [H0 Ho].
  pose proof (len_nonneg (rd_out r)). assert (len (slice 0 n p) = n) as El by (rewrite len_slice; lia).
  set (r1 := mkReader _ _ _ _ _ _ _). assert (reader_ok D b r1) as H1.
  { unfold r1. rewrite <- El at 1. apply reader_takes; [done|rewrite El|rewrite El; lia|done|rewrite El].
    2: { intros Hl. destruct (ro_last _ _ _ Hok Hl) as [?|[? ?]]; [left|right]; simpl; lia || (split; [done|lia]). }
    rewrite Hp at 1. apply slice_slice; [lia|lia|]. by rewrite <- Hp. }
  destruct err; [by apply reader_goes|]. destruct (n <? len p); [by apply reader_goes|done].
Qed.

(** ** Runs *)

Definition world_ok (D : bytes) (w : world) : Prop :=
  buffer_ok D (wd_buffer w) (wd_copied w) /\ Forall (reader_ok D (wd_buffer w)) (wd_readers w).

Lemma buffer_moves D s b' copied' w : Forall (reader_ok D (wd_buffer w)) (wd_readers w) -> buffer_ok D b' copied' /\ stays (wd_buffer w) b' ->
  world_ok D (mkWorld s b' copied' (wd_readers w)).
Proof.
  intros Hr [Hb Hst]. split; [done|]. simpl. eapply Forall_impl; [exact Hr|]. intros r. by apply reader_stays.
Qed.

Lemma reader_moves D j f w w' : world_ok D w ->
  (forall r b s r', reader_ok D (wd_buffer w) r -> f r = Some (b, s, r') -> buffer_ok D b (wd_copied w) /\ stays (wd_buffer w) b /\ reader_ok D b r') ->
  on_reader j f w = Some w' -> world_ok D w'.
Proof.
  intros [Hb Hr] Hf. unfold on_reader. destruct (wd_readers w !! j) as [r|] eqn:Ej; [|done].
  destruct (f r) as [[[b s] r']|] eqn:Ef; intros [= <-]. destruct (Hf r b s r') as (H1 & H2 & H3); [by eapply Forall_lookup_1|done|].
  split; [done|]. simpl. apply Forall_insert; [|done]. eapply Forall_impl; [exact Hr|]. intros x. by apply reader_stays.
Qed.

Lemma Reader_ok D start end_ b : 0 <= start -> reader_ok D b (Reader start end_ b).
Proof.
  intros Hs. constructor; simpl; try done; unfold len; simpl; try lia.
  - unfold slice. by rewrite Z.sub_diag.
  - intros H. apply andb_true_iff in H as [H1 H2]. apply bool_decide_eq_true_1 in H1. split; [done|lia].
Qed.

Lemma world_step_ok D ev w w' : world_ok D w -> honest_event D ev w -> step ev w = Some w' -> world_ok D w'.
Proof.
  intros Hw Hh. pose proof Hw as [Hb Hr].
  assert (forall r, reader_ok D (wd_buffer w) r -> buffer_ok D (wd_buffer w) (wd_copied w) /\ stays (wd_buffer w) (wd_buffer w) /\ reader_ok D (wd_buffer w) r) as Hsame
    by (intros; split_and!; [done|by apply stays_same|done]).
  destruct ev as [s|start end_|id p ok|k|k ok| |e| |start end_|j n|j fails|j ctxErr|j e|j|j ctxErr|j n err]; simpl in *.
  - by intros [= <-].
  - intros [= <-]. apply buffer_moves; [done|]. destruct Hh. by apply Writer_ok.
  - pose proof (begun_ok D id p ok (wd_store w) _ _ Hb Hh) as H. destruct (write_begin _ _ _ _ _) as [[x b] s]. intros [= <-]. by apply buffer_moves.
  - destruct (bf_pending (wd_buffer w) !! k) eqn:Ek; intros [= <-]. apply buffer_moves; [done|]. by apply copy_ok.
  - destruct (bf_pending (wd_buffer w) !! k) as [x|] eqn:Ek; [|done]. destruct (wd_copied w !! k) as [c|] eqn:Ec; [|done]. destruct (_ || _) eqn:Eo; [|done].
    pose proof (end_ok D k x ok (wd_store w) _ _ Hb Ek) as H. destruct (write_end _ _ _ _) as [[? b] s]. intros [= <-]. apply buffer_moves; [done|].
    apply H. apply orb_true_iff in Eo as [->|?]; auto.
  - intros [= <-]. apply buffer_moves; [done|]. by apply Complete_ok.
  - intros [= <-]. apply buffer_moves; [done|]. by apply Fail_ok.
  - pose proof (Close_ok D (wd_store w) _ _ Hb) as H. destruct (Close _ _) as [b s]. intros [= <-]. by apply buffer_moves.
  - intros [= <-]. split; [done|]. simpl. apply Forall_app. split; [done|]. apply Forall_singleton. by apply Reader_ok.
  - apply reader_moves; [done|]. intros r b s r' Hok. destruct (rd_at r); intros [= <- <- <-]. apply Hsame. by eapply Read_ok.
  - apply reader_moves; [done|]. intros r b s r' Hok. destruct (rd_at r) eqn:Ea; intros [= <- <- <-]. apply Hsame. by eapply read_file_ok.
  - apply reader_moves; [done|]. intros r b s r' Hok. pose proof (ro_at _ _ _ Hok) as Hat. unfold at_ok in Hat.
    destruct (rd_at r) as [|[n|]|n| |p|e] eqn:Ea, (wait_ready (rd_offset r) (wd_buffer w)) eqn:Ew; try done.
    + destruct (read_ready n (wd_buffer w) r) eqn:Er; intros [= <- <- <-]. apply Hsame. eapply read_ready_ok; [done|done| | |done]; naive_solver.
    + pose proof (write_turn_ok D _ _ ctxErr r Hb Hok Hat) as H. destruct (write_turn ctxErr (wd_buffer w) r). by intros [= <- <- <-].
  - apply reader_moves; [done|]. intros r b s r' Hok. destruct (rd_at r) as [|[n|]|n| |p|e'] eqn:Ea; intros [= <- <- <-]; apply Hsame.
    + by apply reader_returns.
    + by apply reader_goes.
  - apply reader_moves; [done|]. intros r b s r' Hok. destruct (rd_at r), (rd_memory r) eqn:Em; intros [= <- <- <-]. apply Hsame. by apply reader_goes.
  - apply reader_moves; [done|]. intros r b s r' Hok. pose proof (ro_at _ _ _ Hok) as Hat. unfold at_ok in Hat. destruct (rd_at r) eqn:Ea; try done.
    pose proof (write_turn_ok D _ _ ctxErr r Hb Hok Hat) as H. destruct (write_turn ctxErr (wd_buffer w) r). by intros [= <- <- <-].
  - apply reader_moves; [done|]. intros r b s r' Hok. destruct (rd_at r) as [| | | |p|] eqn:Ea; try done.
    pose proof (unpin_ok D (wd_store w) _ _ Hb) as [H1 H2]. destruct (unpin (wd_store w) (wd_buffer w)) as [b1 s1]. intros [= <- <- <-]. split_and!; [done..|].
    apply write_returned_ok; [by eapply reader_stays|done].
Qed.

Lemma world_run_ok D evs w w' : world_ok D w -> honest D evs w -> run evs w = Some w' -> world_ok D w'.
Proof.
  revert w. induction evs as [|ev evs IH]; intros w Hw; simpl; [by intros _ [= <-]|]. intros [H1 H2].
  destruct (step ev w) as [w1|] eqn:E; [|done]. apply IH; [|done]. by eapply world_step_ok.
Qed.

Lemma New_ok D s size ok b s' : New s size ok = (Some b, s') -> world_ok D (mkWorld s' b [] []).
Proof.
  intros Hn. split; [|by apply Forall_nil_2].
  assert (bf_regions b = [] /\ bf_pending b = [] /\ bf_ready b = 0 /\ bf_err b = None /\ bf_complete b = false /\ bf_closed b = false /\ bf_next b = 0%nat /\
    bf_size b = size /\ (size < 0 -> bf_file b = None /\ bf_mem b = [] /\ bf_cap b = 0 /\ bf_reserved b = 0)) as (E1 & E2 & E3 & E4 & E5 & E6 & E7 & E8 & E9).
  { revert Hn. unfold New. destruct (Z.ltb_spec size 0); [by intros [= <- <-]|]. destruct (reserve _ _ _) as [[] ?]; [|destruct ok]; intros [= <- <-]; simpl; split_and!; try done; lia. }
  unfold buffer_ok. simpl. rewrite E3, E4, E6. split_and!; try done. destruct (Z.lt_ge_cases size 0) as [Hs|Hs].
  - destruct (E9 Hs) as (F1 & F2 & F3 & F4). right. constructor; rewrite ?E3, ?E8; try done; unfold contents; rewrite F1, F2; [intros _; split; [apply prefix_nil|done]|].
    intros _. right. rewrite F3, F4. done.
  - left. constructor; rewrite ?E1, ?E2, ?E5, ?E7, ?E8; try done; [intros r Hr%elem_of_nil; done|split; [by apply NoDup_nil_2|intros r Hr%elem_of_nil; done]|by apply NoDup_nil_2|].
    intros i Hi. rewrite E3 in Hi. lia.
Qed.

(** C22. Readers deliver exactly the writers' bytes: in a buffer of the store,
    of known or of growing size, in RAM or in a file, whatever order the writes of the
    workers, their unlocked copies, the completion, a failure, the end of the buffer and
    its readers take, every reader has delivered exactly the bytes of [D] from
    its start on, within its range and never a byte that is not yet written; a read
    that answers the end of the stream and a [WriteTo] that returns without
    an error have delivered the reader's whole range, or all of a completed buffer. *)
Theorem reader_exact D s size fileOK b s' evs w :
  New s size fileOK = (Some b, s') -> honest D evs (mkWorld s' b [] []) -> run evs (mkWorld s' b [] []) = Some w ->
  forall j r, wd_readers w !! j = Some r ->
  rd_out r = slice (rd_start r) (rd_offset r) D /\ rd_offset r = rd_start r + len (rd_out r) /\
  (0 <= rd_end r -> rd_offset r <= Z.max (rd_start r) (rd_end r)) /\
  (rd_at r = ROver None \/ rd_last r = Some (0, Some (RSpool ErrEOF)) ->
   0 <= rd_end r <= rd_offset r \/ bf_complete (wd_buffer w) = true /\ bf_size (wd_buffer w) <= rd_offset r).
Proof.
  intros Hn Hh Hrun j r Hj. destruct (world_run_ok D evs _ w (New_ok D _ _ _ _ _ Hn) Hh Hrun) as [Hb Hr].
  destruct (Forall_lookup_1 _ _ _ _ Hr Hj) as [A B C E G H]. split_and!; [done|apply A|done|]. intros [Ho|Hl]; [|by apply H].
  unfold at_ok in G. rewrite Ho in G. by apply G.
Qed.

(** Two writers of a file buffer and of a RAM buffer, a [WriteTo] and a [Read] of a part that waits. *)
Lemma reader_exact_witness :
  let D := [10; 11; 12; 13; 14; 15] in
  let evs := [EWriter 3 6; EWriter 0 3; EReader 0 (-1); EReader 2 5; ERead 1 10; EBegin 0 [13; 14; 15] FileWorks; EBegin 1 [10; 11; 12] FileWorks;
              ECopy 1; EEnd 1 true; ECopy 0; EEnd 0 true; EWake 1 None; EComplete; ERead 1 4; EWriteTo 0; ETurn 0 None; ESink 0 6 None; ETurn 0 None] in
  let s := Some (NewStore 100 100) in
  exists b s' w, New s 6 true = (Some b, s') /\ run evs (mkWorld s' b [] []) = Some w /\
    (exists r0 r1, wd_readers w = [r0; r1] /\ rd_out r0 = D /\ rd_at r0 = ROver None /\ rd_out r1 = [12; 13; 14] /\
      (0 <= rd_end r1 <= rd_offset r1 \/ bf_complete (wd_buffer w) = true /\ bf_size (wd_buffer w) <= rd_offset r1)).
Proof.
  intros D evs s. destruct (New s 6 true) as [[b|] s'] eqn:En; [|by vm_compute in En].
  destruct (run evs (mkWorld s' b [] [])) as [w|] eqn:Er; [|vm_compute in En; injection En as <- <-; by vm_compute in Er].
  exists b, s', w. split; [done|]. split; [done|].
  assert (honest D evs (mkWorld s' b [] [])) as Hh by (apply honestb_ok; vm_compute in En; injection En as <- <-; vm_compute; reflexivity).
  pose proof (reader_exact D s 6 true b s' evs w En Hh Er) as H.
  vm_compute in En. injection En as <- <-. vm_compute in Er. injection Er as <-.
  eexists _, _. split; [reflexivity|]. split_and!; try reflexivity. apply (H 1%nat); [reflexivity|right; reflexivity].
Defined.
