(* ===== verification/Network.v ===== *)
(** * platform: transports and bounded reads

    Models src/internal/platform/network.go: the transports kept by proxy, the
    limits of each, and the bounded read of a body.  net/url is a parameter; a
    reader is the bytes it yields and whether it then fails. *)
From S2P Require Import Prelude Errors Config AppRoute.
From stdpp Require Import gmap strings.
Open Scope Z_scope.

(** ** Transports *)

Record Transport := mkTransport {
  tp_MaxIdleConns : Z; tp_MaxIdleConnsPerHost : Z; tp_MaxConnsPerHost : Z;
  tp_DialTimeout : Z; tp_KeepAlive : Z; tp_IdleConnTimeout : Z; tp_TLSHandshakeTimeout : Z; tp_ResponseHeaderTimeout : Z; tp_ExpectContinueTimeout : Z;
  tp_Proxy : option URL;
}.

Definition at_most (max : Z) : Z := if max <=? 0 then 128 else max.
Definition newTransport (max : Z) : Transport :=
  let max := at_most max in
  mkTransport (max * 2) max max (10 * Second_) (30 * Second_) (90 * Second_) (10 * Second_) (25 * Second_) Second_ None.

(** The [n]th transport made; the map holds pointers. *)
Record transports := mkTransports { tm_items : gmap string nat; tm_made : list Transport; tm_max : Z }.
Definition newTransports (max : Z) : transports := mkTransports ∅ [] (at_most max).

Section Get.
Context (Parse : string -> option URL).

Definition get (proxy : string) (p : transports) : res string nat * transports :=
  match tm_items p !! proxy with
  | Some t => (Ok t, p)
  | None =>
      let t := newTransport (tm_max p) in
      let made (t : Transport) := (Ok (length (tm_made p)), mkTransports (<[proxy := length (tm_made p)]> (tm_items p)) (tm_made p ++ [t]) (tm_max p)) in
      if negb (String.eqb proxy "") then
        match Parse proxy with
        | Some u =>
            if String.eqb (Hostname u) "" then (Err "invalid proxy URL"%string, p)
            else made (mkTransport (tp_MaxIdleConns t) (tp_MaxIdleConnsPerHost t) (tp_MaxConnsPerHost t) (tp_DialTimeout t) (tp_KeepAlive t) (tp_IdleConnTimeout t)
                         (tp_TLSHandshakeTimeout t) (tp_ResponseHeaderTimeout t) (tp_ExpectContinueTimeout t) (Some u))
        | None => (Err "invalid proxy URL"%string, p)
        end
      else made t
  end.

Fixpoint gets (proxies : list string) (p : transports) : transports :=
  match proxies with [] => p | x :: proxies => gets proxies (get x p).2 end.

(** The transports that [close] tells to close their idle connections. *)
Definition close (p : transports) : list nat := (map_to_list (tm_items p)).*2.

(** A transport takes the connections of its own proxy only. *)
Record kept (p : transports) : Prop := {
  kp_made : forall proxy n, tm_items p !! proxy = Some n -> exists t, tm_made p !! n = Some t /\
    tp_Proxy t = (if String.eqb proxy "" then None else Parse proxy) /\ (proxy <> ""%string -> is_Some (tp_Proxy t)) /\ tp_MaxConnsPerHost t = tm_max p;
  kp_own : forall x y n, tm_items p !! x = Some n -> tm_items p !! y = Some n -> x = y;
  kp_max : 0 < tm_max p;
}.

Lemma newTransports_kept max : kept (newTransports max).
Proof. constructor; simpl; try (intros; simplify_map_eq; done). unfold at_most. destruct (Z.leb_spec max 0); lia. Qed.

Lemma get_kept proxy p : kept p -> kept (get proxy p).2 /\ tm_max (get proxy p).2 = tm_max p /\ tm_items p ⊆ tm_items (get proxy p).2 /\
  match (get proxy p).1 with Ok n => tm_items (get proxy p).2 !! proxy = Some n | Err _ => (get proxy p).2 = p end.
Proof.
  intros [A B C]. unfold get. destruct (tm_items p !! proxy) as [n|] eqn:Ep; [by split_and!|].
  assert (forall t, tp_Proxy t = (if String.eqb proxy "" then None else Parse proxy) -> (proxy <> ""%string -> is_Some (tp_Proxy t)) -> tp_MaxConnsPerHost t = tm_max p ->
    let p' := mkTransports (<[proxy := length (tm_made p)]> (tm_items p)) (tm_made p ++ [t]) (tm_max p) in
    kept p' /\ tm_max p' = tm_max p /\ tm_items p ⊆ tm_items p' /\ tm_items p' !! proxy = Some (length (tm_made p))) as Hmade.
  { intros t H1 H2 H3 p'. assert (forall x n, tm_items p !! x = Some n -> (n < length (tm_made p))%nat) as Hlt.
    { intros x n Hx. destruct (A x n Hx) as (t' & Ht & _). by apply lookup_lt_Some in Ht. }
    split_and!; [|done|by apply insert_subseteq|by apply lookup_insert_eq].
    constructor; simpl; [| |done].
    - intros x n Hx. destruct (decide (x = proxy)) as [->|Hne].
      + rewrite lookup_insert_eq in Hx. injection Hx as <-. exists t. rewrite lookup_app_r, Nat.sub_diag by lia. done.
      + rewrite lookup_insert_ne in Hx by done. destruct (A x n Hx) as (t' & Ht & Hrest). exists t'. split; [by apply lookup_app_l_Some|done].
    - intros x y n [[<- <-]|[_ Hx]]%lookup_insert_Some [[<- Hy]|[_ Hy]]%lookup_insert_Some; [done|..].
      + specialize (Hlt _ _ Hy). lia.
      + specialize (Hlt _ _ Hx). lia.
      + by eapply B. }
  assert (at_most (tm_max p) = tm_max p) as Hm by (unfold at_most; destruct (Z.leb_spec (tm_max p) 0); lia).
  destruct (String.eqb_spec proxy "") as [->|Hne]; cbn [negb]; [by apply Hmade|].
  destruct (Parse proxy) as [u|] eqn:Eu; [|by split_and!]. destruct (String.eqb (Hostname u) ""); [by split_and!|]. by apply Hmade.
Qed.

(** However often and in whatever order transports are asked for: a proxy's transport stays
    its own, leads to that proxy and no other, and an address that is no proxy's gets none. *)
Lemma transports_stable max proxies more proxy n :
  tm_items (gets proxies (newTransports max)) !! proxy = Some n ->
  let p := gets (proxies ++ more) (newTransports max) in
  get proxy p = (Ok n, p) /\ (forall other, tm_items p !! other = Some n -> other = proxy) /\
  exists t, tm_made p !! n = Some t /\ tp_Proxy t = (if String.eqb proxy "" then None else Parse proxy).
Proof.
  assert (forall l p, kept p -> kept (gets l p) /\ tm_items p ⊆ tm_items (gets l p)) as Hgets.
  { induction l as [|x l IH]; intros p Hp; simpl; [done|]. destruct (get_kept x p Hp) as (H1 & _ & H2 & _). destruct (IH _ H1) as [H3 H4]. split; [done|by etrans]. }
  assert (forall l k p, gets (l ++ k) p = gets k (gets l p)) as Happ by (induction l; intros k p; simpl; auto).
  intros Hn p. unfold p. rewrite Happ. destruct (Hgets proxies _ (newTransports_kept max)) as [H1 _]. destruct (Hgets more _ H1) as [H2 H3].
  assert (tm_items (gets more (gets proxies (newTransports max))) !! proxy = Some n) as Hn' by (by eapply lookup_weaken).
  split_and!; [by unfold get; rewrite Hn'|intros other Ho; by eapply (kp_own _ H2)|]. destruct (kp_made _ H2 _ _ Hn') as (t & ? & ? & _). by exists t.
Qed.
End Get.

(** ** Bounded reads *)

Definition metadataLimit : Z := Z.shiftl 16 20.

(** [io.ReadAll] of an [io.LimitReader]: a failure beyond the limit is never met,
    since a reader fails on a call that yields no bytes. *)
Definition limited (data : bytes) (fails : option goerr) (n : Z) : res goerr bytes :=
  if n <=? len data then Ok (take (Z.to_nat n) data) else match fails with Some e => Err e | None => Ok data end.
Definition limitedRead (data : bytes) (fails : option goerr) (max : Z) : res goerr bytes :=
  match limited data fails (i64 (max + 1)) with
  | Err e => Err e
  | Ok data => if max <? len data then Err (ErrOther "upstream response exceeds byte limit") else Ok data
  end.

Lemma limitedRead_spec data fails max : 0 <= max < 2 ^ 63 - 1 ->
  limitedRead data fails max =
  if len data <=? max then match fails with Some e => Err e | None => Ok data end else Err (ErrOther "upstream response exceeds byte limit").
Proof.
  intros Hm. unfold limitedRead, limited. rewrite i64_id by (unfold in_i64; lia).
  destruct (Z.leb_spec (max + 1) (len data)), (Z.leb_spec (len data) max); try lia.
  - destruct (Z.ltb_spec max (len (take (Z.to_nat (max + 1)) data))); [done|]. unfold len in *. rewrite length_take in *. lia.
  - destruct fails; [done|]. destruct (Z.ltb_spec max (len data)); [lia|done].
Qed.
