(* ===== verification/ImportBody.v ===== *)
(** * httpapi: the body of an account import

    Models src/internal/httpapi/instagram_accounts.go: which of the readers of
    Import an upload goes to, and the bound on its bytes.  mime.ParseMediaType,
    the reading of a multipart form, encoding/csv, the values of a JSON stream and
    the decoding of the JSON body into its struct are parameters. *)
From S2P Require Import Prelude Strconv Errors OperationApi AppRoute SessionState Login Accounts Import Api.
Open Scope Z_scope.

(** A form that was read: its files by field, and how many other values it has; a
    file may not open, and reading it may fail. *)
Record form := mkForm { fm_Files : list (string * list (option (option bytes))); fm_Values : nat }.

(** What the request's body yields: bytes, and whether it then fails. *)
Section Body.
Context (ParseMediaType : string -> option string) (ParseMultipartForm : bytes -> bool -> option form)
        (read_csv : bytes -> bool -> option (list string) * list (option (list string))) (read_values : bytes -> bool -> list (option string))
        (Valid : bytes -> bool) (decode_accounts : bytes -> option (list Credentials))
        (decode_cookies : string -> option (list browser_cookie)) (cookie_valid : Cookie -> bool)
        (jar : list (string * Cookie) -> list (string * string)) (Parse : string -> option URL) (Query : URL -> string -> string) (lower : string -> string).

Definition unsupported : failure :=
  plain (ErrCore (NewError "unsupported_media_type" "Use text/plain cookie exports, text/csv, multipart/form-data with file, or application/json" 415)).
Definition invalid_body : failure := plain invalidRequest.

(** [http.MaxBytesReader] of 1 MiB. *)
Definition max_bytes (b : body) : bytes * bool :=
  if body_limit <? len (bd_data b) then (take (Z.to_nat body_limit) (bd_data b), true) else (bd_data b, bd_failed b).

Abbreviation parse_export := (ParseCookieExport decode_cookies cookie_valid jar Parse Query lower).
Abbreviation parse_csv := (ParseCSV decode_cookies cookie_valid jar Parse Query lower).
Abbreviation parse_file :=
  (ParseImportFile decode_cookies cookie_valid jar Parse Query lower (fun raw => read_csv raw false) (fun raw => read_values raw false)).

Definition readInstagramImport (contentType : string) (b : body) : res failure (list Credentials) :=
  let '(raw, failed) := max_bytes b in
  match ParseMediaType contentType with
  | None => Err invalid_body
  | Some kind =>
      if String.eqb kind "text/plain" then parse_export (read_values raw failed)
      else if String.eqb kind "text/csv" then let '(header, rows) := read_csv raw failed in parse_csv header rows
      else if String.eqb kind "multipart/form-data" then
        match ParseMultipartForm raw failed with
        | Some f =>
            match fm_Files f, fm_Values f with
            | [(field, [file])], O =>
                if String.eqb field "file" then match file with Some raw => parse_file raw | None => Err invalid_body end else Err invalid_body
            | _, _ => Err invalid_body
            end
        | None => Err invalid_body
        end
      else if String.eqb kind "application/json" then
        if failed then Err invalid_body
        else if str_has_prefix (TrimSpace (string_of_bytes raw)) "[" then
          if Valid raw then parse_export (read_values raw false) else Err invalid_body
        else match decode_accounts raw with Some accounts => Ok accounts | None => Err invalid_body end
      else Err unsupported
  end.
(** ** What is accepted *)

Lemma validated_bounds accounts result : validateCredentials decode_cookies cookie_valid jar Parse Query lower accounts = Ok result ->
  (1 <= length accounts <= MaxImportAccounts)%nat.
Proof.
  unfold validateCredentials. destruct (_ || _) eqn:E; [done|]. intros _. apply orb_false_iff in E as [E1%Nat.eqb_neq E2%Nat.ltb_ge]. lia.
Qed.

Lemma validated_length accounts seen result : validate_accounts decode_cookies cookie_valid jar Parse Query lower seen accounts = Ok result ->
  length result = length accounts.
Proof.
  revert seen result. induction accounts as [|a accounts IH]; intros seen result; cbn [validate_accounts]; [by intros [= <-]|].
  destruct (negb (validDeviceSelection _)); [done|]. cbn zeta. unfold rbind.
  destruct (match cr_Cookies _ with Some _ => _ | None => _ end) as [keys|]; [|done].
  destruct (_ && _ && _ && _).
  - destruct (validate_accounts _ _ _ _ _ _ keys accounts) eqn:E; [|done]. intros [= <-]. simpl. f_equal. by eapply IH.
  - destruct (_ || _); [done|]. destruct (_ && _); [done|]. destruct (validate_accounts _ _ _ _ _ _ (_ :: keys) accounts) eqn:E; [|done].
    intros [= <-]. simpl. f_equal. by eapply IH.
Qed.

Lemma validated_ok accounts result : validateCredentials decode_cookies cookie_valid jar Parse Query lower accounts = Ok result ->
  (1 <= length result <= MaxImportAccounts)%nat.
Proof.
  intros H. pose proof (validated_bounds accounts result H) as Hb. unfold validateCredentials in H. destruct (_ || _); [done|].
  by rewrite (validated_length _ _ _ H).
Qed.

Lemma exported_ok values result : parse_export values = Ok result -> (1 <= length result <= MaxImportAccounts)%nat.
Proof. unfold ParseCookieExport, rbind. destruct (export_accounts _ _); [|done]. apply validated_ok. Qed.

Lemma csv_ok header rows result : parse_csv header rows = Ok result -> (1 <= length result <= MaxImportAccounts)%nat.
Proof.
  unfold ParseCSV, rbind. destruct header; [|done]. destruct (csv_columns _ _ _); [|done]. destruct (existsb _ _); [done|].
  destruct (csv_rows _ _ _); [|done]. apply validated_ok.
Qed.

Lemma file_ok raw result : parse_file raw = Ok result -> (1 <= length result <= MaxImportAccounts)%nat.
Proof.
  unfold ParseImportFile. destruct raw; [|done]. destruct (_ <? _); [done|]. destruct (str_has_prefix _ _); [apply exported_ok|].
  destruct (read_csv _ _). apply csv_ok.
Qed.

(** An upload of files that is accepted names from 1 to 100 accounts that have been checked; a JSON
    body is only read whole, so it is at most 1 MiB long and its accounts are those that were decoded. *)
Lemma import_read contentType b accounts : readInstagramImport contentType b = Ok accounts ->
  (1 <= length accounts <= MaxImportAccounts)%nat \/
  ParseMediaType contentType = Some "application/json"%string /\ len (bd_data b) <= body_limit /\ bd_failed b = false /\ decode_accounts (bd_data b) = Some accounts.
Proof.
  unfold readInstagramImport, max_bytes. destruct (Z.ltb_spec body_limit (len (bd_data b))).
  all: destruct (ParseMediaType contentType) as [kind|]; [|done]; destruct (String.eqb kind "text/plain"); [intros ?%exported_ok; by left|].
  all: destruct (String.eqb kind "text/csv"); [destruct (read_csv _ _); intros ?%csv_ok; by left|].
  all: destruct (String.eqb kind "multipart/form-data").
  1, 3: destruct (ParseMultipartForm _ _) as [[[|[field [|file []]] []] []]|]; cbn [fm_Files fm_Values]; try done;
    destruct (String.eqb field "file"), file; try done; intros ?%file_ok; by left.
  all: destruct (String.eqb_spec kind "application/json") as [->|]; [|done]; try done.
  destruct (bd_failed b); [done|]. destruct (str_has_prefix _ _); [destruct (Valid _); [intros ?%exported_ok; by left|done]|].
  destruct (decode_accounts _) eqn:E; [|done]. intros [= <-]. by right.
Qed.
End Body.
