(* ===== verification/Service.v ===== *)
(** * The service: start-up, running and end

    Models src/cmd/tt-scrap/main.go.  [run] opens one component after another,
    each with a deferred end, prepares the identities, serves, and drains.  It is a
    program over a frame: the calls deferred so far and the trace of what was
    done; [return_] ends it early, and the deferred calls then run, the last
    first.  What the components, the operating system and the clients answer
    is an input. *)
From S2P Require Import Prelude Strconv Errors Config AppRoute Operation TelegramClient OperationApi Telegram Api.
Open Scope Z_scope.
Open Scope go_scope.

(** ** Functions with deferred calls *)

Inductive runErr := RunConfig (e : string) | RunText (e : string) | RunErr (e : goerr).

(** What is open until the deferred call that ends it. *)
Inductive resource := Signals | Lifetime | Identities | AccountStore | Accounts | TikTok | Instagram | Downloader | DrainTimer.
#[export] Instance resource_eq_dec : EqDecision resource.
Proof. solve_decision. Defined.

Record Server := mkServer { sv_Addr : string; sv_ReadHeaderTimeout : Z; sv_ReadTimeout : Z; sv_IdleTimeout : Z; sv_MaxHeaderBytes : Z }.

Inductive effect :=
| Opened (r : resource) | Closed (r : resource)
| MkdirAll (dir : string) | Prepare | Listen (s : Server) | Serve | Shutdown | ServerClose
| CancelLifetime (cause : Error).

Record frame := mkFrame { fr_defers : list effect; fr_trace : list effect }.

(** A function that returns [R]: it goes on with a value or has returned. *)
Definition code (R A : Type) : Type := frame -> (R + A) * frame.
Definition ret {R A} (a : A) : code R A := fun f => (inr a, f).
Definition return_ {R A} (r : R) : code R A := fun f => (inl r, f).
Definition bind {R A B} (m : code R A) (k : A -> code R B) : code R B :=
  fun f => match m f with (inr a, f) => k a f | (inl r, f) => (inl r, f) end.
Definition perform {R} (e : effect) : code R unit := fun f => (inr tt, mkFrame (fr_defers f) (fr_trace f ++ [e])).
Definition defer {R} (e : effect) : code R unit := fun f => (inr tt, mkFrame (e :: fr_defers f) (fr_trace f)).
Definition call {R} (m : code R R) : R * list effect :=
  let '(x, f) := m (mkFrame [] []) in (match x with inl r | inr r => r end, fr_trace f ++ fr_defers f).

Notation "'do' m 'then' k" := (bind m (fun _ => k)) (at level 200, m at level 100, k at level 200).
Notation "'get' x ':=' m 'then' k" := (bind m (fun x => k)) (at level 200, x name, m at level 100, k at level 200).

Definition check {R} (e : option R) : code (option R) unit := match e with Some e => return_ (Some e) | None => ret tt end.
(** A constructor with its deferred end: what failed is not open. *)
Definition opens {R} (r : resource) (e : option R) : code (option R) unit :=
  do check e then do perform (Opened r) then defer (Closed r).

(** ** [run] *)

(** What ends the service. *)
Inductive ending := ServeFailed (closed : bool) (e : goerr) | OwnershipLost (e : option goerr) | Signalled.

Record world := mkWorld {
  wo_config : res string Config;
  wo_mkdir : bool; wo_isdir : bool;
  wo_proxies : option goerr;
  wo_identities : option goerr; wo_store : option goerr; wo_accounts : option goerr;
  wo_prepare : option goerr; wo_signalled : bool;
  wo_listen : option goerr;
  wo_ending : ending;
  wo_drained : bool;
}.

Definition server (c : Config) : Server :=
  mkServer (JoinHostPort (Config.Host c) (Itoa (Config.Port c))) (5 * Second_) (15 * Second_) (90 * Second_) (32 * 1024).

Definition temp_dir (w : world) (c : Config) : code (option runErr) unit :=
  if negb (String.eqb (TempDir c) "") then
    do perform (MkdirAll (TempDir c)) then
    do check (if wo_mkdir w then None else Some (RunText "cannot create TEMP_DIR")) then
    check (if wo_isdir w then None else Some (RunText "TEMP_DIR is not a directory"))
  else ret tt.

(** The preparation of the identities, before anything is served. *)
Definition prepared (w : world) : code (option runErr) unit :=
  do perform Prepare then
  match wo_prepare w with
  | Some e => if wo_signalled w then return_ None else return_ (Some (RunErr e))
  | None => ret tt
  end.

(** Serving until an end, and the drain. *)
Definition serve (w : world) (c : Config) : code (option runErr) (option runErr) :=
  do perform (Listen (server c)) then
  do check (RunErr <$> wo_listen w) then
  do perform Serve then
  get stopped :=
    match wo_ending w with
    | ServeFailed closed e => return_ (if closed then None else Some (RunErr e))
    | OwnershipLost e => ret (RunErr <$> e)
    | Signalled => ret None
    end then
  do opens DrainTimer None then
  do perform Shutdown then
  do (if wo_drained w then ret tt else do perform (CancelLifetime ErrServiceShutdown) then perform ServerClose) then
  do perform (CancelLifetime ErrServiceShutdown) then
  ret stopped.

Definition start (w : world) (c : Config) : code (option runErr) unit :=
  do temp_dir w c then
  do check (RunErr <$> wo_proxies w) then
  do opens Signals None then
  do opens Lifetime None then
  do opens Identities (RunErr <$> wo_identities w) then
  do opens AccountStore (RunErr <$> wo_store w) then
  do opens Accounts (RunErr <$> wo_accounts w) then
  do prepared w then
  do opens TikTok None then
  do opens Instagram None then
  opens Downloader None.

Definition run (w : world) : option runErr * list effect :=
  call (match wo_config w with Err e => return_ (Some (RunConfig e)) | Ok c => do start w c then serve w c end).

(** ** The log and the health check *)

Definition LevelDebug : Z := -4.
Definition LevelInfo : Z := 0.
Definition LevelWarn : Z := 4.
Definition LevelError : Z := 8.

Definition logLevel (name : string) : Z :=
  let name := upper_text (TrimSpace name) in
  if String.eqb name "DEBUG" then LevelDebug
  else if String.eqb name "WARN" || String.eqb name "WARNING" then LevelWarn
  else if String.eqb name "ERROR" then LevelError
  else if String.eqb name "CRITICAL" then LevelError + 4
  else LevelInfo.

(** The level of a request's line; a request whose client failed or was told of a failure is never below a warning. *)
Definition request_level (e : RequestEvent) : Z :=
  let level := if str_has_prefix (re_Path e) "/health/" then LevelDebug else LevelInfo in
  let level := match re_Delivery e with Some d => if negb (String.eqb (ev_Outcome d) "succeeded") then LevelWarn else level | None => level end in
  let level := if String.eqb (re_ErrorCode e) "request_canceled" then LevelWarn else level in
  if 500 <=? re_Status e then LevelError else level.

(** The attributes that only some requests have. *)
Definition request_attributes (e : RequestEvent) : list string :=
  (if String.eqb (re_ErrorCode e) "" then [] else ["error_code"]) ++ (if re_WireStatus e =? 0 then [] else ["wire_status"]) ++
  match re_Delivery e with Some _ => ["delivery"] | None => [] end%string.

(** The address [healthcheck] asks, and what it makes of the status. *)
Definition health_address (port : string) : option string :=
  let port := if String.eqb port "" then "8000"%string else port in
  match Atoi port with
  | Some n => if (n <? 1) || (65535 <? n) then None else Some ("http://127.0.0.1:" +:+ port +:+ "/health/ready")
  | None => None
  end.
Definition healthcheck (port : string) (status : string -> option Z) : bool :=
  match health_address port with Some address => bool_decide (status address = Some 200) | None => false end.

(** ** What is opened is closed *)

Definition opened (l : list effect) : list resource := omap (fun e => match e with Opened r => Some r | _ => None end) l.
Definition closed (l : list effect) : list resource := omap (fun e => match e with Closed r => Some r | _ => None end) l.

Lemma opened_app l k : opened (l ++ k) = opened l ++ opened k.
Proof. apply omap_app. Qed.
Lemma closed_app l k : closed (l ++ k) = closed l ++ closed k.
Proof. apply omap_app. Qed.

(** Nothing is closed while the function runs, and the deferred calls close what is
    open, the last first. *)
Definition tidy (f : frame) : Prop := closed (fr_trace f) = [] /\ opened (fr_defers f) = [] /\ closed (fr_defers f) = rev (opened (fr_trace f)).

Lemma tidy_call f : tidy f -> closed (fr_trace f ++ fr_defers f) = rev (opened (fr_trace f ++ fr_defers f)).
Proof. intros (H1 & H2 & H3). by rewrite closed_app, opened_app, H1, H2, app_nil_r. Qed.

Definition keeps {R A} (m : code R A) : Prop := forall f, tidy f -> tidy (m f).2.

Lemma keeps_ret {R A} (a : A) : keeps (ret (R := R) a).
Proof. by intros f. Qed.
Lemma keeps_return {R A} (r : R) : keeps (return_ (A := A) r).
Proof. by intros f. Qed.
Lemma keeps_seq {R A B} (m : code R A) (k : A -> code R B) : keeps m -> (forall a, keeps (k a)) -> keeps (bind m k).
Proof. intros Hm Hk f Hf. unfold bind. specialize (Hm f Hf). destruct (m f) as [[r|a] f1]; [done|by apply Hk]. Qed.
Lemma keeps_perform {R} e : opened [e] = [] -> closed [e] = [] -> keeps (perform (R := R) e).
Proof.
  intros Ho Hc f (H1 & H2 & H3). unfold tidy, perform. cbn [snd fr_trace fr_defers]. by rewrite opened_app, closed_app, H1, Hc, Ho, !app_nil_r.
Qed.
Lemma keeps_check {R} (e : option R) : keeps (check e).
Proof. destruct e; [apply keeps_return|apply keeps_ret]. Qed.
Lemma keeps_opens {R} r (e : option R) : keeps (opens r e).
Proof.
  apply keeps_seq; [apply keeps_check|]. intros [] f (H1 & H2 & H3). unfold tidy, bind, perform, defer. cbn [snd fr_trace fr_defers].
  rewrite opened_app, closed_app, H1, rev_app_distr. split; [done|]. split; [exact H2|]. by rewrite <- H3.
Qed.

Create HintDb service.
#[export] Hint Resolve keeps_ret keeps_return keeps_check keeps_opens : service.
Ltac keeps_tac := repeat first [apply keeps_opens | apply keeps_seq; [|intros ?] | solve [auto with service] | apply keeps_perform; reflexivity | case_match].

Lemma run_keeps w c : keeps (do start w c then serve w c).
Proof. unfold start, serve, temp_dir, prepared. keeps_tac. Qed.

(** ** The trace of a run *)

Definition components : list resource := [Signals; Lifetime; Identities; AccountStore; Accounts; TikTok; Instagram; Downloader].

(** What a start that succeeded has done. *)
Definition started (c : Config) : list effect :=
  (if String.eqb (TempDir c) "" then [] else [MkdirAll (TempDir c)]) ++
  [Opened Signals; Opened Lifetime; Opened Identities; Opened AccountStore; Opened Accounts; Prepare; Opened TikTok; Opened Instagram; Opened Downloader].
(** How the service is drained. *)
Definition drain (drained : bool) : list effect :=
  Opened DrainTimer :: Shutdown :: (if drained then [] else [CancelLifetime ErrServiceShutdown; ServerClose]) ++ [CancelLifetime ErrServiceShutdown; Closed DrainTimer].

Ltac run_code := unfold start, serve, temp_dir, prepared, opens, check, bind, perform, defer, ret, return_; cbn -[String.eqb TempDir server].

Ltac unserved := cbn; rewrite ?elem_of_cons, elem_of_nil; split; [intuition discriminate|done].

Lemma start_spec w c :
  match start w c (mkFrame [] []) with
  | (inl r, f) => Serve ∉ fr_trace f ++ fr_defers f /\ (r = None -> is_Some (wo_prepare w) /\ wo_signalled w = true)
  | (inr _, f) => wo_prepare w = None /\ f = mkFrame (map Closed (rev components)) (started c)
  end.
Proof.
  unfold started. destruct (String.eqb (TempDir c) "") eqn:E; run_code; rewrite E; cbn -[TempDir].
  2: destruct (wo_mkdir w); [|unserved]; cbn -[TempDir].
  2: destruct (wo_isdir w); [|unserved]; cbn -[TempDir].
  all: destruct (wo_proxies w); [unserved|]; cbn -[TempDir].
  all: destruct (wo_identities w); [unserved|]; cbn -[TempDir].
  all: destruct (wo_store w); [unserved|]; cbn -[TempDir].
  all: destruct (wo_accounts w); [unserved|]; cbn -[TempDir].
  all: destruct (wo_prepare w); [destruct (wo_signalled w); unserved|done].
Qed.

Lemma serve_spec w c f :
  serve w c f =
  match wo_listen w, wo_ending w with
  | Some e, _ => (inl (Some (RunErr e)), mkFrame (fr_defers f) (fr_trace f ++ [Listen (server c)]))
  | None, ServeFailed closed e => (inl (if closed then None else Some (RunErr e)), mkFrame (fr_defers f) (fr_trace f ++ [Listen (server c); Serve]))
  | None, OwnershipLost e =>
      (inr (RunErr <$> e), mkFrame (Closed DrainTimer :: fr_defers f) (fr_trace f ++ [Listen (server c); Serve] ++ take (if wo_drained w then 3 else 5) (drain (wo_drained w))))
  | None, Signalled =>
      (inr None, mkFrame (Closed DrainTimer :: fr_defers f) (fr_trace f ++ [Listen (server c); Serve] ++ take (if wo_drained w then 3 else 5) (drain (wo_drained w))))
  end.
Proof.
  run_code. destruct (wo_listen w); [done|]. cbn -[server]. destruct (wo_ending w) as [[]| |]; cbn -[server]; [by rewrite <- app_assoc..| |];
    destruct (wo_drained w); cbn -[server]; rewrite <- !app_assoc; done.
Qed.

(** C24. The service's life, whatever its parts answer: everything that was opened is
    closed once, the last opened first, so that the database of accounts outlives the
    pool that writes to it; nothing is served before every component is open and the
    identities are prepared; once serving has begun the end is a failure of
    the listener or a drain, in which requests are first given their time, those
    that remain learn that the service ends before their connections are cut,
    and the components are closed last; and [run] ends without an error only
    after serving or when it was told to end during the preparation. *)
Theorem service_life w : let '(r, tr) := run w in
  closed tr = rev (opened tr) /\
  (Serve ∈ tr -> exists c, wo_config w = Ok c /\ wo_prepare w = None /\
     tr = started c ++ [Listen (server c); Serve] ++ (match wo_ending w with ServeFailed _ _ => [] | _ => drain (wo_drained w) end) ++ map Closed (rev components) /\
     r = match wo_ending w with ServeFailed closed e => if closed then None else Some (RunErr e) | OwnershipLost e => RunErr <$> e | Signalled => None end) /\
  (r = None -> Serve ∈ tr \/ is_Some (wo_prepare w) /\ wo_signalled w = true).
Proof.
  unfold run, call. destruct (wo_config w) as [c|e].
  2: { cbn. rewrite elem_of_nil. done. }
  pose proof (run_keeps w c (mkFrame [] []) ltac:(done)) as Hk. pose proof (start_spec w c) as Hs.
  unfold bind in *. destruct (start w c (mkFrame [] [])) as [[r|[]] f]; cbn [snd] in Hk.
  - destruct Hs as [Hs Hr]. split; [by apply tidy_call|]. split; [done|]. intros ->. right. by apply Hr.
  - destruct Hs as [Hp ->]. rewrite serve_spec in Hk |- *. pose proof (fun f => tidy_call f) as Ht.
    destruct (wo_listen w) as [e|].
    { split; [by apply (Ht (mkFrame _ _))|]. split; [|done]. intros Hin. exfalso. revert Hin. unfold started.
      destruct (String.eqb (TempDir c) ""); cbn; rewrite ?elem_of_cons, elem_of_nil; intuition discriminate. }
    assert (forall k, Serve ∈ (started c ++ [Listen (server c); Serve] ++ k)) as Hin.
    { intros k. rewrite !elem_of_app. right. left. right. left. }
    destruct (wo_ending w) as [b e|e|]; cbn [snd fst fr_defers fr_trace] in *.
    all: split; [exact (tidy_call _ Hk)|].
    all: split; [intros _; exists c; split_and!; [done..|destruct (wo_drained w); by rewrite <- ?app_assoc|done]|].
    all: intros _; left; rewrite <- ?app_assoc; apply Hin.
Qed.

(** A line is an error exactly for the statuses from 500 on, and a warning or an error for
    every delivery that did not succeed and every request that was canceled. *)
Lemma request_level_spec e :
  (request_level e = LevelError <-> 500 <= re_Status e) /\
  (LevelWarn <= request_level e <-> 500 <= re_Status e \/ re_ErrorCode e = "request_canceled"%string \/
     exists d, re_Delivery e = Some d /\ ev_Outcome d <> "succeeded"%string).
Proof.
  unfold request_level, LevelError, LevelWarn, LevelInfo, LevelDebug.
  destruct (Z.leb_spec 500 (re_Status e)); [split; split; try lia; intros; by left|].
  destruct (String.eqb_spec (re_ErrorCode e) "request_canceled"); [split; split; try lia; intros; right; by left|].
  destruct (re_Delivery e) as [d|]; [destruct (String.eqb_spec (ev_Outcome d) "succeeded"); cbn [negb]|].
  all: try destruct (str_has_prefix (re_Path e) "/health/"); split; split; try lia; eauto 6; intros [?|[?|(d' & [=] & ?)]]; try lia; by subst.
Qed.

Example health_default : health_address "" = Some "http://127.0.0.1:8000/health/ready"%string /\ health_address "65536" = None /\ health_address "0" = None.
Proof. vm_compute. done. Qed.
